(* ===== verification/_CoqProject ===== *)
-Q . S2P
Prelude.v
Limiter.v
CoinSelection.v
CoinSelectionProofs.v
CoinSelectionTheorems.v
CoinSelectionTotal.v
MonitorDomain.v
WithdrawalMachine.v
DepositMachine.v
MonitorPool.v
GuardianCursor.v
Fencing.v
BtcTransport.v
BtcTransportProofs.v
BtcClient.v
Auditor.v
AuditorProofs.v
AuditorTheorems.v
Bitmap.v
Committee.v
CommitteeProofs.v
TxUtxos.v
SecretSharing.v
SecretSharingProofs.v
KpShares.v
Guardian.v
GuardianInit.v
GuardianCeremony.v
GuardianProofs.v
CeremonyProofs.v
GuardianInitProofs.v
CeremonyTheorems.v
GuardianTheorems.v
LifecycleTheorems.v
GuardianExamples.v
Retry.v
Withdrawals.v
WithdrawalAncestry.v
WithdrawalTheorems.v
WithdrawalBatch.v
WithdrawalLeader.v
WithdrawalAgreement.v
WithdrawalAccepted.v
WithdrawalExamples.v
FinalizeCheck.v
WithdrawalSigning.v
WithdrawalSigningProofs.v
WithdrawalSigningExamples.v
DepositTracker.v
DepositTrackerProofs.v
BtcMonitor.v
BtcMonitorProofs.v
Deposits.v
DepositTheorems.v
LeaderQuorum.v
LeaderDeposits.v
LeaderDepositsProofs.v
LeaderDepositsTheorems.v
MpcSigning.v
MpcSigningProofs.v
MpcResultsProofs.v
CountCheck.v
CountCheckProofs.v
CountCheckTheorems.v
PeerLimit.v
PeerLimitProofs.v
PeerLimitTheorems.v
PeerBodyProofs.v
ConnectionLimit.v
Mirror.v
MirrorApply.v
MirrorTracking.v
MirrorWire.v
MirrorFeed.v
MirrorFeedProofs.v
MirrorReads.v
MirrorExamples.v
GarbageCollection.v
GarbageProofs.v
GarbagePlans.v
