(* ===== verification/Prelude.v ===== *)
(** * Hashi: a verification development

    Hashi is a Bitcoin bridge to Sui.  A committee of nodes ([crates/hashi]) holds the
    bridge's UTXOs together with a guardian enclave ([crates/hashi-guardian]) that
    co-signs withdrawals under a rate limit; a monitor ([crates/hashi-monitor]) follows
    Sui, the guardian's log and Bitcoin and reports every flow that does not match.  The
    types the three share are in [crates/hashi-types].

    This library models the parts that decide about money, and proves what the bridge
    relies on.  Paths below are relative to [src/].

    ** The parts and the files that model them

    Shared:

    - [Prelude]: [u64] arithmetic, outcomes of fallible and panicking code, the state and
      error monad [M], lists, sorted lists, finite maps, the tactics and hint databases.
    - [Limiter]: the guardian's token bucket ([crates/hashi-types/src/guardian/limiter.rs],
      [RateLimiter]) and the mirror of it that every node keeps
      ([crates/hashi/src/guardian_limiter.rs], the [LimiterView], its
      reconciliation, finalize pacing and the stall tracker).  [Bucket] is the class of
      operations both buckets implement and [BucketLaws] what their clients rely on.
    - [Bitmap], [Committee], [CommitteeProofs]: the committee of nodes, its weights,
      certificates and aggregators ([crates/hashi-types/src/committee.rs], [intent.rs],
      [committee/runtime.rs]), over the class [Bls].
    - [TxUtxos]: the transaction a withdrawal asks the guardian to sign
      ([crates/hashi-types/src/bitcoin/utxo.rs]).
    - [SecretSharing], [SecretSharingProofs]: Shamir sharing of the guardian's Bitcoin key
      with commitments
      ([crates/hashi-types/src/guardian/crypto/primitives/secret_sharing.rs]).
    - [KpShares]: the key provisioners' rosters, encrypted shares and signed requests
      ([crates/hashi-types/src/guardian/crypto/encryption.rs], [signing.rs], [session.rs]).

    The monitor:

    - [MonitorDomain]: the events, findings and timing bounds
      ([crates/hashi-monitor/src/domain], [findings.rs], [timing.rs]).
    - [WithdrawalMachine], [DepositMachine]: the two state machines
      ([crates/hashi-monitor/src/state_machine]), one instance per flow.
    - [MonitorPool]: the monitor's record of the UTXOs the bridge holds
      ([crates/hashi-monitor/src/domain/utxo_pool.rs]).
    - [GuardianCursor]: the position in the guardian's log
      ([crates/hashi-monitor/src/rpc/guardian.rs]).
    - [BtcTransport], [BtcTransportProofs], [BtcClient]: the Bitcoin JSON-RPC transport
      with its worker threads, and the client with its cache
      ([crates/hashi-monitor/src/rpc/btc.rs]).  [BtcNode] is the interface of the node;
      [BtcLookups] and [BtcLookupsOk] are what the client promises to the auditor.
    - [Auditor]: the auditor's state and all its ticks
      ([crates/hashi-monitor/src/audit]), over any implementation of [BtcLookups].
      [AuditorProofs] has the invariant, [AuditorTheorems] the properties of whole
      histories and a concrete one.

    The guardian:

    - [Fencing]: the write deadlines of the enclave's log writer and the quiet check of the
      other sessions ([crates/hashi-guardian/src/log_writer.rs],
      [s3_reader/heartbeat_checks.rs]).
    - [Guardian]: the enclave's state and lifecycle ([enclave.rs], [init_once.rs],
      [hashi-types/src/guardian/lifecycle.rs]) and its serving handlers ([withdraw_mode]);
      [GuardianInit]: operator and provisioner initialization ([operator_init.rs],
      [withdraw_mode/provisioner_init.rs]); [GuardianCeremony]: the ceremonies
      ([ceremony_mode], [withdraw_mode/provisioner_rotate_cert.rs]).
    - [GuardianProofs], [CeremonyProofs], [GuardianInitProofs], [CeremonyTheorems]: the
      invariant of the guardian and that every handler keeps it.  [GuardianTheorems] has the
      histories of a guardian and what serving guarantees, [LifecycleTheorems] the Bitcoin
      key, the ceremonies and the lifecycle, [GuardianExamples] a concrete history.

    The node, withdrawals ([crates/hashi/src]):

    - [CoinSelection]: [select_coins] of [utxo_pool/mod.rs] with its builder.
      [CoinSelectionProofs] has the builder's invariants, [CoinSelectionTheorems] and
      [CoinSelectionTotal] the properties and a concrete pool.
    - [Withdrawals]: what a validator checks of a commitment ([withdrawals.rs]), the Move
      types it works on and the reads of the on-chain state.  [WithdrawalAncestry] has the
      walk over unconfirmed ancestors, [WithdrawalTheorems] what a commitment certifies.
    - [WithdrawalBatch], [WithdrawalLeader]: the leader's side ([withdrawals.rs],
      [leader/withdrawal_request_flow.rs]); [WithdrawalAgreement], [WithdrawalAccepted]: that
      the two sides agree; [WithdrawalExamples]: a concrete state.
    - [FinalizeCheck]: bitcoind's opinion on a finalized withdrawal as an event system
      ([finalize_bitcoin_check.rs]).
    - [WithdrawalSigning], [WithdrawalSigningProofs], [WithdrawalSigningExamples]: the signing
      half of [withdrawals.rs]: approvals, the request to the guardian, the MPC signing and
      the final check.
    - [MpcSigning], [MpcSigningProofs], [MpcResultsProofs]: the signing manager with its
      presignatures ([mpc/signing.rs]).
    - [CountCheck], [CountCheckProofs], [CountCheckTheorems]: the checks that count a payload
      of the MPC protocols before it is parsed ([mpc/count_check.rs]).

    The node, deposits:

    - [DepositTracker], [DepositTrackerProofs]: the tracked requests with their scan index
      ([deposit_tracker.rs]).
    - [BtcMonitor], [BtcMonitorProofs]: the turns of the light client's loop that check
      deposits ([btc_monitor/monitor.rs]).
    - [Deposits], [DepositTheorems]: the validation and the signature of a deposit
      ([deposits.rs]).

    The node, leader and services:

    - [Retry]: the backoff of failed items ([leader/retry.rs]).
    - [LeaderQuorum]: whose turn it is, and the collection of signatures ([leader/mod.rs]).
    - [LeaderDeposits], [LeaderDepositsProofs], [LeaderDepositsTheorems]: the leader's deposit
      tasks ([leader/deposits.rs] and the arms of the loop in [leader/mod.rs]).
    - [GarbageCollection], [GarbageProofs], [GarbagePlans]: what the leader removes from the
      chain ([leader/garbage_collection.rs]) and how that is cut into transactions
      ([sui_tx_executor.rs]).
    - [Mirror] (routing of objects, [onchain/route.rs]), [MirrorApply] ([onchain/apply.rs]),
      [MirrorWire] (decoding of a transaction's effects), [MirrorFeed] (replay and stream,
      [onchain/mirror.rs]), [MirrorReads] (reads of the mirrored state, [onchain/mod.rs],
      [types.rs], [version.rs]); [MirrorTracking], [MirrorFeedProofs]: their theorems;
      [MirrorExamples]: a concrete chain.
    - [PeerLimit], [PeerLimitProofs], [PeerLimitTheorems], [PeerBodyProofs],
      [ConnectionLimit]: what a peer may ask of a node ([grpc/peer_limit.rs],
      [request_body.rs], [route_limits.rs], [connection_limit.rs]).

    ** How the parts interact

    The state of a guardian is a [World]: the [Enclave] of the running process and the
    records in its S3 log.  A handler of the enclave is one step on it (the service holds a
    lock for the whole of a handler); a history is a sequence of handlers, restarts and
    aborted writes from an empty log, with the requests of the outside as arguments.

    The auditor is where the monitor's parts meet: a Sui tick and a guardian tick turn
    what the sources say into events of the machines; a Bitcoin tick asks the client
    for every machine that waits; a maintenance pass removes the finished machines and
    moves their UTXOs into and out of the pool; the pool checks, the check of fresh
    approvals and the supply check judge the pool; a snapshot carries all of it over a
    restart.

    In a node the mirror feeds everything else: the leader of a turn reads it, has coin
    selection build a commitment or picks the deposits to approve, and asks the other nodes,
    which check against their own mirror, for signatures; the committee's certificate goes to
    Sui, the request to sign to the guardian, whose limiter the nodes follow, and the inputs
    to the MPC signing manager.  The Bitcoin monitor and the deposit tracker share the
    tracked requests: a turn of the loop is one step on both.

    ** What the theorems show

    - Limiter.  Over any window of any stream of requests the accepted amounts stay
      below capacity plus refill; accepted sequence numbers are consecutive; tokens stay
      within the capacity; a mirror that is fed the accepted requests equals the
      guardian, and a reconciled one agrees with it from then on; the stall tracker fires
      exactly on a full window of disagreement.
    - Coin selection.  Value is conserved without wrap-around; the fee brings the whole
      unconfirmed package to the chosen rate; every request pays the same, capped, share;
      inputs are distinct, spendable and within the limits, requests are served oldest
      first; [InsufficientFunds] is exact; the answer does not depend on the order of
      the pool; no [expect] or [assert!] fires.
    - Machines.  A withdrawal's events are judged alike in every order of arrival; a
      missing neighbour is reported exactly when due; disagreeing approvals are always
      reported; a machine is collected exactly when complete.  A deposit machine that
      closed in silence is backed by Bitcoin; an unbacked approval is reported at the
      second empty lookup.
    - Guardian log.  A silent cursor has read each sequence number once, up to its open
      gaps; a gap is filled or reported one directory later.
    - Bitcoin client.  Whatever the node answers and however the workers interleave, a
      lookup ends and, unless it fails, answers every transaction once; against a node
      that serves one chain the answer is exact; a prefetch serves the lookups after it.
    - Pool.  The pool check reports and keeps exactly what it should; no operation changes
      or loses a UTXO it does not spend; an approval judged in silence is sound.
    - Auditor.  After any history of ticks, failures and restarts the machines satisfy
      their invariants and no tick panics; a failed Bitcoin tick changes no flow; a
      maintenance pass closes exactly the finished flows, deposits before withdrawals;
      suspects, fresh approvals and the supply are judged exactly; a snapshot restores
      the auditor.
    - Committee.  An aggregator accepts exactly the valid signatures of members and its
      certificate verifies; two certificates share an honest signer; signed bytes determine
      what was signed.
    - Secret sharing.  Exactly the dealt shares verify; any threshold of them reconstructs
      the key, with exact errors otherwise; fewer of them fit every key.
    - Guardian.  Along every history: the logged withdrawals obey the rate limit; a released
      signature was certified, fresh, paid for and logged; a session that takes over does so
      with the exact limiter and committee; committees change by certified handover only;
      there is one Bitcoin key for ever, however often its shares are dealt again; a ceremony
      is published only with every key provisioner's signature; the stage of an enclave
      determines what is installed in it; nothing but a failed write aborts a handler.  A
      key is installed only on the signatures of a threshold of its holders; an
      initialization that errs changes nothing; after a quiet scan no other session's write
      becomes durable.
    - Withdrawals.  A validator's signature on a commitment says that distinct approved
      requests are each paid their amount less the same fee, that the inputs are the bridge's
      and free, that the change goes back to it, and that the fee and the ancestors are within
      the limits; a commitment that an honest leader builds is accepted by every validator
      that sees the same state; once stored it rebuilds to the certified transaction and is
      charged to the limiter for what was certified; a final signature implies the guardian's
      and a check by bitcoind; building a commitment ends.
    - MPC.  Over any history no presignature is used for two messages; signing ends with one
      result for each input, whatever the peers send; each count check accepts exactly the
      payloads of a grammar.
    - Deposits.  A caller is told that a deposit is confirmed only if its output is in a block
      of the chain deep enough; no block is missed while a request waits; the tracker's index
      and gauges are exactly those of its entries; a node signs a deposit only after all
      checks, and the leader submits an approval only with a certificate over the request;
      no request is worked on by two tasks; requests are approved and confirmed exactly when
      they are due, oldest first.
    - Leader.  The collection of signatures succeeds with a certificate that verifies and gives
      up only when no quorum is left; each turn has one leader, and a failed item is left alone for
      exactly its backoff.
    - Garbage collection.  What is deleted has expired or is dead; a plan of archivals is
      complete and each of its transactions within its budget; an epoch in which pruning stops
      was swept from the start of the table to its end without destroying anything.
    - Mirror.  Whatever replays and streams repeat, each transaction is applied once and in
      order and the watermark claims only complete checkpoints; an entry is shown exactly
      while an object of the chain stands for it; a transaction is decoded whole or not at
      all; the ordered broadcast is read completely or not at all.
    - Peers.  Each counter of a peer equals what its requests hold and returns to zero; what a
      body passes on is a prefix of what was sent, of whole messages within their limit.

    ** How code becomes definitions

    A function that returns a [Result] is an [outcome] or an [M] with the error as a
    value; a panic is the outcome [Panic], so that its absence is a theorem.  A [u64] is a
    [Z]; plain arithmetic wraps modulo [2^64] as in a release build, [checked_] and
    [saturating_] operations are written out, and a theorem that needs a value to be in
    range says so.  A [BTreeMap] or [HashMap] is a [gmap]; where the order of a traversal
    shows, a [BTreeMap] is visited in key order and a [HashMap] in that of [map_to_list].
    A method on [&mut self] returns the new state.  The clock and the answers of remote
    services are arguments.  A loop over [select!] is a step function on events, and a
    theorem holds of every sequence of them; a task that runs beside it is started by one event
    and ends by another, with its result as an argument or computed from what it is answered.

    Code outside the repository is a parameter: the [bitcoin] crate's weights and fees
    ([BitcoinUnits], with the documented [BitcoinUnitsLaws]), transaction hashes and
    addresses ([BtcKeys], of which nothing is assumed), and the Bitcoin node ([BtcNode], of
    which the exactness theorems assume that it serves one chain); BLS signatures ([Bls]);
    the scalars of [k256] ([ScalarField], with the laws of a field in which share ids are
    distinct and not zero, [ScalarFieldLaws]); OpenPGP, HPKE ([KpCrypto]), digests, encodings
    and Bitcoin signing of the enclave ([GuardianCrypto], of which nothing is assumed); the
    scripts and transactions of a node ([NodeEnv] with [NodeEnvLaws]), its signatures and
    hashes ([SigningEnv] with [SigningEnvLaws]) and its addresses of deposits ([DepositEnv]);
    the threshold signatures of [fastcrypto] ([ThresholdEnv], of which a theorem assumes
    [local_shares]: what a node generates are its own shares);
    the sizes of serialized points and scalars ([WireSizes] with [WireSizesLaws]); the
    decoders of Move objects and of the protobuf effects ([MirrorTypes], [MirrorDecode],
    [MirrorWire], of which nothing is assumed).  [sat_units], [SmallChain], [SmallSharing] and
    [SmallGuardian], and the instances in the files of examples, are concrete and satisfy what
    is assumed.

    What the guardian's theorems assume of the outside is in [op_ok] and [approved_ok]: the
    clocks of two sessions are within an hour, a [u64] of sequence numbers does not run out,
    requests come from their constructors, the digests of the approved configuration and
    genesis have no second preimage, and a batch of validly signed submissions has one of a
    key provisioner that approves them, which holds while fewer than a threshold are
    dishonest.  [Fencing] states the bounds on clocks and on S3 that it needs.  One process
    runs at a time in a history; what keeps a superseded one from writing is the theorem of
    [Fencing].

    Of the nodes: [op_allowed], [turn_allowed] and [room] say that counters of 64 bits do not
    run out; [shared_state] and [fee_room] are what the leader and a validator have in common
    and the range of amounts in which honest commitments are built; [signer_wf] is what the
    constructor of a signer establishes; [view_ok] says that a request that has left the queue
    does not come back; [server_ok], [stream_ok] and [seed_ok] that replays, streams and scrapes
    deliver what they claim, in order and without gaps; [lawful] how the contracts place
    objects: containers keep their roles, and an entry is always the same object.

    Some invariants speak of more than the state: [facts] and [since] of [BtcMonitorProofs]
    (what was scanned and which blocks came since a request was first seen), the requests seen
    and gone of a leader's run, the uses of presignatures, the bytes a body has passed on, and
    the sweeps of a pass in [GarbagePlans].  They are arguments of the run relations, computed
    from the events beside the code.

    ** Fuel

    Recursion is structural except where a bound is given, and each bound is shown to be
    enough.  [chunks] runs with the length of the list, because a chunk is not empty;
    [run_workers] with twice the number of batches plus the number of threads
    ([run_workers_done]); [post_json] makes the seven attempts of the source.  [walk_fuel] is
    the number of transactions plus one: the walk does not go below a transaction twice on a
    path.  [bfs_fuel] is the number of inputs plus two: a transaction is expanded once.
    [loop_fuel] is the number of requests plus their count: a round of the selection drops a
    request or lowers the count.  [sweep_fuel] is the number of share holders plus one: a pass
    that goes round again has flagged one.  [forward_from] takes at least a byte of the frame in each turn.  The walk
    of a certificate bucket is bounded by its number of nodes in the source.  [destroy_fuel] is
    twice the number of targets: a chunk of [n] is halved [n - 1] times at most.

    ** What is not modelled

    Reading and verifying S3 objects, the Sui poller, configuration, keys, logging and metrics
    of the monitor are I/O around the modelled code.  Of the guardian, the Nitro attestation,
    the S3 client, the object keys and signatures of its log, the gRPC service, [GuardianInfo]
    and the session signature of a response are not modelled, nor are its proxy and the tools
    for operations: they are bindings to services and formats of others.  Of the nodes: key
    and nonce generation run protocols of [fastcrypto] over the network; the caches and the
    supervision of the light client, its fee estimates and broadcasts are clients of Kyoto and
    bitcoind; the tasks of the leader that sign and broadcast withdrawals call the modelled
    handlers of other nodes and submit Sui transactions; the building of those transactions, the scrape
    that seeds a mirror, the gRPC services, the database, its backups and the command line are
    I/O.  The Move contracts are in another language. *)

From stdpp Require Export base tactics numbers list sets gmap sorting.
From Stdlib Require Export ZArith Lia Bool Sorted.

Open Scope Z_scope.

(** ** Machine integers

    A [u64] is a [Z] with its range stated where it matters.  The operations are
    those of the Rust source: plain [+], [-] and [*] of a release build wrap
    around modulo [2^64]; [saturating_*] clamp. *)

Definition u64_max : Z := 2 ^ 64 - 1.
Definition is_u64 (x : Z) : Prop := 0 <= x <= u64_max.
Definition is_u64b (x : Z) : bool := (0 <=? x) && (x <=? u64_max).

Definition wrap64 (x : Z) : Z := x mod 2 ^ 64.
Definition wadd (a b : Z) : Z := wrap64 (a + b).
Definition wsub (a b : Z) : Z := wrap64 (a - b).
Definition wmul (a b : Z) : Z := wrap64 (a * b).
Definition sat_add (a b : Z) : Z := Z.min (a + b) u64_max.
Definition sat_sub (a b : Z) : Z := Z.max (a - b) 0.
Definition sat_mul (a b : Z) : Z := Z.min (a * b) u64_max.

(** [u64::div_ceil]; the source only calls it with a non-zero divisor. *)
Definition div_ceil (a b : Z) : Z := (a + b - 1) / b.

(** Exact and wrapping sums of a list, the latter being [Iterator::sum::<u64>]. *)
Definition zsum (l : list Z) : Z := foldr Z.add 0 l.
Definition usum (l : list Z) : Z := fold_left wadd l 0.

Create HintDb hashi discriminated.
Create Rewrite HintDb hashi_u64.

Lemma is_u64b_spec x : is_u64b x = true <-> is_u64 x.
Proof. unfold is_u64b, is_u64. rewrite andb_true_iff, !Z.leb_le. lia. Qed.

Lemma wrap64_small x : is_u64 x -> wrap64 x = x.
Proof. unfold is_u64, u64_max, wrap64. intros H. apply Z.mod_small. lia. Qed.

Lemma wrap64_range x : is_u64 (wrap64 x).
Proof.
  unfold is_u64, u64_max, wrap64.
  pose proof (Z.mod_pos_bound x (2 ^ 64) ltac:(lia)). lia.
Qed.

Lemma wadd_small a b : is_u64 (a + b) -> wadd a b = a + b.
Proof. apply wrap64_small. Qed.
Lemma wsub_small a b : is_u64 (a - b) -> wsub a b = a - b.
Proof. apply wrap64_small. Qed.
Lemma wmul_small a b : is_u64 (a * b) -> wmul a b = a * b.
Proof. apply wrap64_small. Qed.

(** [u64_lia] opens the machine-integer operations that [lia] can reason about. *)
Ltac u64_lia :=
  unfold is_u64, sat_add, sat_sub, sat_mul, u64_max in *; lia.

(** Replace a wrapping operation by the exact one, leaving the range to [lia]. *)
Ltac unwrap :=
  repeat first
    [ rewrite wadd_small by u64_lia
    | rewrite wsub_small by u64_lia
    | rewrite wmul_small by u64_lia
    | rewrite wrap64_small by u64_lia ].

#[export] Hint Resolve wrap64_range : hashi.

Lemma div_ceil_bounds a b :
  0 < b -> a <= div_ceil a b * b < a + b.
Proof.
  intros Hb. unfold div_ceil.
  pose proof (Z.div_mod (a + b - 1) b ltac:(lia)).
  pose proof (Z.mod_pos_bound (a + b - 1) b Hb). nia.
Qed.

Lemma div_ceil_nonneg a b : 0 <= a -> 0 < b -> 0 <= div_ceil a b.
Proof. intros. apply Z.div_pos; lia. Qed.

Lemma div_ceil_least a b q : 0 < b -> a <= q * b -> div_ceil a b <= q.
Proof. intros Hb Hq. pose proof (div_ceil_bounds a b Hb). nia. Qed.

(** *** Sums *)

Lemma zsum_cons x l : zsum (x :: l) = x + zsum l.
Proof. reflexivity. Qed.

Lemma zsum_app l k : zsum (l ++ k) = zsum l + zsum k.
Proof. induction l as [|x l IH]; [done|]. cbn [app]. rewrite !zsum_cons, IH. lia. Qed.

Lemma zsum_nonneg l : Forall (fun x => 0 <= x) l -> 0 <= zsum l.
Proof. induction 1; rewrite ?zsum_cons; [done|lia]. Qed.

Lemma zsum_perm l k : l ≡ₚ k -> zsum l = zsum k.
Proof. induction 1; rewrite ?zsum_cons in *; lia. Qed.

(** Folding an operation that agrees with [+] below [u64_max] is summing, as long
    as the sum stays below it. *)
Lemma fold_exact (op : Z -> Z -> Z)
    (Hop : forall a b, 0 <= a -> 0 <= b -> a + b <= u64_max -> op a b = a + b) l : forall acc,
  Forall (fun x => 0 <= x) l -> 0 <= acc -> acc + zsum l <= u64_max ->
  fold_left op l acc = acc + zsum l.
Proof.
  induction l as [|x l IH]; intros acc Hl Hacc Hle; cbn [fold_left].
  { cbn. lia. }
  rewrite zsum_cons in *. inversion Hl as [|? ? Hx Hl']; subst.
  pose proof (zsum_nonneg l Hl').
  rewrite Hop by lia. rewrite IH; auto; lia.
Qed.

(** A wrapping sum is the exact sum as long as the exact sum is a [u64]. *)
Lemma usum_small l :
  Forall (fun x => 0 <= x) l -> zsum l <= u64_max -> usum l = zsum l.
Proof.
  intros. unfold usum. rewrite fold_exact; try (done || lia).
  intros. apply wadd_small. u64_lia.
Qed.

Lemma fold_wadd_range l : forall acc, is_u64 acc -> is_u64 (fold_left wadd l acc).
Proof.
  induction l as [|x l IH]; intros acc Hacc; cbn; [done|].
  apply IH, wrap64_range.
Qed.

Lemma usum_range l : is_u64 (usum l).
Proof. apply fold_wadd_range. u64_lia. Qed.
#[export] Hint Resolve usum_range : hashi.

Lemma zsum_submseteq l k :
  Forall (fun x => 0 <= x) k -> l ⊆+ k -> zsum l <= zsum k.
Proof.
  intros Hk Hsub. apply submseteq_Permutation in Hsub as [r Hr].
  rewrite (zsum_perm _ _ Hr), zsum_app.
  rewrite Hr in Hk. apply Forall_app in Hk as [_ Hr'].
  pose proof (zsum_nonneg r Hr'). lia.
Qed.

(** ** Lists *)

Lemma filter_sublist {A} (f : A -> bool) l : List.filter f l `sublist_of` l.
Proof.
  induction l as [|x l IH]; cbn; [done|].
  destruct (f x); [by apply sublist_skip|by apply sublist_cons].
Qed.

Lemma elem_of_bool_filter {A} (f : A -> bool) l x :
  x ∈ List.filter f l <-> x ∈ l /\ f x = true.
Proof. rewrite !list_elem_of_In. apply filter_In. Qed.

Lemma bool_filter_none {A} (f : A -> bool) l :
  (forall x, x ∈ l -> f x = false) -> List.filter f l = [].
Proof.
  induction l as [|x l IH]; cbn; intros H; [done|].
  rewrite (H x) by left. apply IH. intros y Hy. apply H. by right.
Qed.

Lemma NoDup_submseteq_l {A} (l k : list A) : NoDup k -> l ⊆+ k -> NoDup l.
Proof. intros Hk [r Hr]%submseteq_Permutation. rewrite Hr in Hk. by apply NoDup_app in Hk as (? & _). Qed.

Lemma StronglySorted_weaken {A} (R S : A -> A -> Prop) l :
  (forall x y, R x y -> S x y) -> StronglySorted R l -> StronglySorted S l.
Proof.
  intros HRS. induction 1; constructor; [done|]. eapply Forall_impl; [done|]. auto.
Qed.

Lemma prefix_submseteq {A} (l k : list A) : l `prefix_of` k -> l ⊆+ k.
Proof. intros [r ->]. by apply submseteq_inserts_r. Qed.

Lemma Forall_submseteq {A} (P : A -> Prop) l k : Forall P k -> l ⊆+ k -> Forall P l.
Proof. intros Hk [r Hr]%submseteq_Permutation. rewrite Hr, Forall_app in Hk. tauto. Qed.

Lemma fmap_submseteq' {A B} (f : A -> B) l k : l ⊆+ k -> f <$> l ⊆+ f <$> k.
Proof.
  intros [r ->]%submseteq_Permutation. rewrite fmap_app. by apply submseteq_inserts_r.
Qed.

Lemma StronglySorted_fmap_mono {A B} (R : A -> A -> Prop) (S : B -> B -> Prop) (f : A -> B) l :
  (forall x y, R x y -> S (f x) (f y)) -> StronglySorted R l -> StronglySorted S (f <$> l).
Proof.
  intros HRS. induction 1 as [|x l _ IH Hx]; cbn; constructor; [done|].
  apply Forall_fmap. eapply Forall_impl; [exact Hx|]. cbn. auto.
Qed.

Lemma bool_filter_perm {A} (f : A -> bool) l k : l ≡ₚ k -> List.filter f l ≡ₚ List.filter f k.
Proof.
  induction 1 as [|x l k _ IH|x y l|]; cbn; try done.
  - destruct (f x); by rewrite IH.
  - destruct (f x), (f y); try done. constructor.
  - by etrans.
Qed.

Lemma forallb_perm {A} (f : A -> bool) l k : l ≡ₚ k -> forallb f l = forallb f k.
Proof.
  induction 1 as [|x l k _ IH|x y l|]; cbn; try done.
  - by rewrite IH.
  - destruct (f x), (f y); done.
  - by etrans.
Qed.

Lemma NoDup_fmap_inj_on {A B} (f : A -> B) l x y :
  NoDup (f <$> l) -> x ∈ l -> y ∈ l -> f x = f y -> x = y.
Proof.
  intros Hnd (i & Hi)%list_elem_of_lookup (j & Hj)%list_elem_of_lookup Hxy.
  assert (i = j) as ->; [|congruence].
  eapply NoDup_lookup; [exact Hnd| |]; rewrite list_lookup_fmap; [rewrite Hi; done|].
  rewrite Hj. cbn. by rewrite Hxy.
Qed.

Lemma bind_pointwise_perm {A B} (f g : A -> list B) l :
  (forall x, f x ≡ₚ g x) -> l ≫= f ≡ₚ l ≫= g.
Proof. intros H. induction l as [|x l IH]; cbn; [done|]. by rewrite (H x), IH. Qed.

(** ** Maps

    Collecting pairs with distinct keys into a map. *)

Lemma fold_insert_list_to_map {K V} `{Countable K} (l : list (K * V)) : forall m : gmap K V,
  NoDup l.*1 -> fold_left (fun m e => <[e.1 := e.2]> m) l m = list_to_map l ∪ m.
Proof.
  induction l as [|[k v] l IH]; intros m Hnd; cbn; [by rewrite (left_id_L ∅ (∪))|].
  inversion Hnd as [|? ? Hnin Hnd']; subst. rewrite IH by done.
  rewrite <- insert_union_l, insert_union_r; [done|]. by apply not_elem_of_list_to_map_1.
Qed.

Lemma fold_insert_pairs {K V} `{Countable K} (m : gmap K V) :
  fold_left (fun m e => <[e.1 := e.2]> m) (map_to_list m) (∅ : gmap K V) = m.
Proof.
  rewrite fold_insert_list_to_map by apply NoDup_fst_map_to_list.
  by rewrite list_to_map_to_list, (right_id_L ∅ (∪)).
Qed.

(** The values of a map, each filed under a key it carries. *)
Lemma fold_insert_values {K V} `{Countable K} (key : V -> K) (m : gmap K V) :
  map_Forall (fun k v => key v = k) m ->
  fold_left (fun m v => <[key v := v]> m) (map_to_list m).*2 (∅ : gmap K V) = m.
Proof.
  intros Hm. rewrite <- (fold_insert_pairs m) at 2.
  assert (forall l (acc : gmap K V), Forall (fun e => key e.2 = e.1) l ->
            fold_left (fun m v => <[key v := v]> m) l.*2 acc
            = fold_left (fun m e => <[e.1 := e.2]> m) l acc) as Hgen.
  { induction l as [|[k v] l IH]; intros acc Hl; cbn; [done|].
    inversion Hl as [|? ? Hk Hl']; subst. cbn in Hk. rewrite Hk. by apply IH. }
  apply Hgen, Forall_forall. intros [k v] Hin%elem_of_map_to_list. by apply Hm.
Qed.

(** ** Identifiers

    A Sui address, a Bitcoin txid and a derivation path are fixed 32-byte arrays.
    The code only compares them, for equality and in byte order, so each is the
    number its bytes spell. *)

Definition Address := Z.

(** ** Outcomes

    A Rust function that returns [Result] and may panic (a failed [assert!],
    [expect], index or [unreachable!]) has three outcomes. *)

Inductive outcome (E A : Type) : Type :=
| Ok (a : A)
| Err (e : E)
| Panic.
Arguments Ok {E A} a.
Arguments Err {E A} e.
Arguments Panic {E A}.

#[export] Instance outcome_ret {E} : MRet (outcome E) := fun A a => Ok a.
#[export] Instance outcome_bind {E} : MBind (outcome E) := fun A B f m =>
  match m with Ok a => f a | Err e => Err e | Panic => Panic end.
#[export] Instance outcome_fmap {E} : FMap (outcome E) := fun A B f m =>
  match m with Ok a => Ok (f a) | Err e => Err e | Panic => Panic end.

(** [Option::expect] and [assert!]. *)
Definition expect {E A} (o : option A) : outcome E A :=
  match o with Some a => Ok a | None => Panic end.
Definition assert {E} (b : bool) : outcome E unit := if b then Ok tt else Panic.
(** [return Err(e)] under a condition. *)
Definition guard {E} (b : bool) (e : E) : outcome E unit := if b then Ok tt else Err e.

Definition is_ok {E A} (m : outcome E A) : bool :=
  match m with Ok _ => true | _ => false end.

Lemma bind_Ok {E A B} (m : outcome E A) (f : A -> outcome E B) b :
  m ≫= f = Ok b <-> exists a, m = Ok a /\ f a = Ok b.
Proof.
  destruct m; cbn; split; intros H; try discriminate; eauto;
    destruct H as (a' & Heq & ?); congruence.
Qed.

Lemma expect_Ok {E A} (o : option A) (a : A) : expect (E:=E) o = Ok a <-> o = Some a.
Proof. destruct o; cbn; split; congruence. Qed.
Lemma assert_Ok {E} b u : assert (E:=E) b = Ok u <-> b = true.
Proof. destruct b, u; cbn; split; congruence. Qed.
Lemma guard_Ok {E} b (e : E) u : guard b e = Ok u <-> b = true.
Proof. destruct b, u; cbn; split; congruence. Qed.

(** Only an explicit [Panic] panics. *)
Lemma bind_safe {E A B} (m : outcome E A) (f : A -> outcome E B) :
  m <> Panic -> (forall a, m = Ok a -> f a <> Panic) -> m ≫= f <> Panic.
Proof. destruct m; cbn; [intros _ H; by apply H|done|done]. Qed.
Lemma guard_safe {E} b (e : E) : guard b e <> Panic.
Proof. by destruct b. Qed.
Lemma mapM_safe {E A B} (f : A -> outcome E B) l :
  (forall a, f a <> Panic) -> mapM f l <> Panic.
Proof.
  intros Hf. induction l as [|a l IH]; [done|]. cbn. apply bind_safe; [apply Hf|]. intros b _.
  by apply bind_safe.
Qed.
#[export] Hint Resolve guard_safe mapM_safe : hashi.

(** Take a successful monadic computation apart. *)
Ltac inv_ok :=
  repeat match goal with
  | H : _ ≫= _ = Ok _ |- _ =>
      apply bind_Ok in H; let a := fresh "v" in let E := fresh "E" in
      destruct H as (a & E & H)
  | H : expect _ = Ok _ |- _ => apply expect_Ok in H
  | H : assert _ = Ok _ |- _ => apply assert_Ok in H
  | H : guard _ _ = Ok _ |- _ => apply guard_Ok in H
  | H : Ok _ = Ok _ |- _ => injection H as H
  | H : Err _ = Ok _ |- _ => discriminate H
  | H : Panic = Ok _ |- _ => discriminate H
  end.

(** ** State and errors

    Code that changes a state of type [S] and may fail: the state after an error is the
    state at the point of the failure, as in a Rust method on [&mut self] that returns
    with [?]. *)

Definition M (S E A : Type) : Type := S -> outcome E A * S.

#[export] Instance M_ret {S E} : MRet (M S E) := fun A a s => (Ok a, s).
#[export] Instance M_bind {S E} : MBind (M S E) := fun A B f m s =>
  match m s with
  | (Ok a, s) => f a s
  | (Err e, s) => (Err e, s)
  | (Panic, s) => (Panic, s)
  end.

Definition of_outcome {S E A} (o : outcome E A) : M S E A := fun s => (o, s).
Definition throw {S E A} (e : E) : M S E A := of_outcome (Err e).
Definition ensure {S E} (b : bool) (e : E) : M S E unit := of_outcome (guard b e).
Definition read {S E A} (f : S -> A) : M S E A := fun s => (Ok (f s), s).
Definition modify {S E} (f : S -> S) : M S E unit := fun s => (Ok tt, f s).

(** Run a computation on a part of the state. *)
Definition zoom {S T E A} (get : S -> T) (set : T -> S -> S) (m : M T E A) : M S E A :=
  fun s => let '(r, t) := m (get s) in (r, set t s).

(** A loop over a list that threads an accumulator. *)
Fixpoint foldM {S E A B} (f : B -> A -> M S E B) (l : list A) (acc : B) : M S E B :=
  match l with
  | [] => mret acc
  | x :: l => acc ← f acc x; foldM f l acc
  end.

Lemma M_bind_Ok {S E A B} (m : M S E A) (f : A -> M S E B) s s' b :
  (m ≫= f) s = (Ok b, s') <-> exists a s1, m s = (Ok a, s1) /\ f a s1 = (Ok b, s').
Proof.
  unfold mbind, M_bind. destruct (m s) as [[a|e|] s1]; split; intros H; try discriminate; eauto;
    destruct H as (a' & s1' & Heq & ?); congruence.
Qed.

Lemma M_bind_Panic {S E A B} (m : M S E A) (f : A -> M S E B) s s' :
  (m ≫= f) s = (Panic, s') ->
  m s = (Panic, s') \/ exists a s1, m s = (Ok a, s1) /\ f a s1 = (Panic, s').
Proof.
  unfold mbind, M_bind. destruct (m s) as [[a|e|] s1]; intros H; try discriminate; [eauto|].
  left. by injection H as <-.
Qed.

(** Evaluating a computation on a known state, one bind at a time. *)
Lemma M_bind_eval {S E A B} (m : M S E A) (f : A -> M S E B) s a s1 :
  m s = (Ok a, s1) -> (m ≫= f) s = f a s1.
Proof. intros H. unfold mbind, M_bind. by rewrite H. Qed.
Lemma M_bind_err {S E A B} (m : M S E A) (f : A -> M S E B) s e s1 :
  m s = (Err e, s1) -> (m ≫= f) s = (Err e, s1).
Proof. intros H. unfold mbind, M_bind. by rewrite H. Qed.
Lemma M_bind_panic {S E A B} (m : M S E A) (f : A -> M S E B) s s1 :
  m s = (Panic, s1) -> (m ≫= f) s = (Panic, s1).
Proof. intros H. unfold mbind, M_bind. by rewrite H. Qed.
Lemma of_outcome_eval {S E A} (o : outcome E A) (s : S) r : o = r -> of_outcome o s = (r, s).
Proof. by intros <-. Qed.

(** A computation that never panics; [?] and loops keep it so. *)
Definition no_panic {S E A} (m : M S E A) : Prop := forall s s', m s <> (Panic, s').

Lemma no_panic_bind {S E A B} (m : M S E A) (f : A -> M S E B) :
  no_panic m -> (forall a, no_panic (f a)) -> no_panic (m ≫= f).
Proof. intros Hm Hf s s' [H|(a & s1 & _ & H)]%M_bind_Panic; [by eapply Hm|by eapply Hf]. Qed.

Lemma no_panic_ret {S E A} (a : A) : no_panic (S:=S) (E:=E) (mret a).
Proof. by intros s s'. Qed.
Lemma no_panic_throw {S E A} (e : E) : no_panic (S:=S) (A:=A) (throw e).
Proof. by intros s s'. Qed.
Lemma no_panic_ensure {S E} b (e : E) : no_panic (S:=S) (ensure b e).
Proof. by intros s s'; unfold ensure, of_outcome, guard; destruct b. Qed.
Lemma no_panic_read {S E A} (f : S -> A) : no_panic (E:=E) (read f).
Proof. by intros s s'. Qed.
Lemma no_panic_modify {S E} (f : S -> S) : no_panic (E:=E) (modify f).
Proof. by intros s s'. Qed.
Lemma no_panic_foldM {S E A B} (f : B -> A -> M S E B) l :
  (forall b a, no_panic (f b a)) -> forall acc, no_panic (foldM f l acc).
Proof.
  intros Hf. induction l as [|x l IH]; intros acc; cbn; [apply no_panic_ret|].
  apply no_panic_bind; [apply Hf|intros a; apply IH].
Qed.

#[export] Hint Resolve no_panic_bind no_panic_ret no_panic_throw no_panic_ensure no_panic_read
  no_panic_modify no_panic_foldM : hashi.

(** Take a successful stateful computation apart. *)
Ltac inv_M :=
  repeat match goal with
  | H : (_ ≫= _) _ = (Ok _, _) |- _ =>
      apply M_bind_Ok in H; let a := fresh "v" in let s := fresh "s" in let E := fresh "E" in
      destruct H as (a & s & E & H)
  | H : mret _ _ = (Ok _, _) |- _ => injection H as H; subst
  | H : ensure ?b _ _ = (Ok _, _) |- _ =>
      unfold ensure, of_outcome, guard in H; destruct b eqn:?; [|discriminate H]; injection H as H; subst
  | H : throw _ _ = (Ok _, _) |- _ => discriminate H
  | H : read _ _ = (Ok _, _) |- _ => injection H as H; subst
  | H : modify _ _ = (Ok _, _) |- _ => injection H as H; subst
  end.

(** ** Stable sorting

    Rust's [sort_by] and [sort_by_key] are stable: elements that compare equal
    keep their order.  [sort_by leb] is the stable insertion sort; a stable sort
    by a total preorder is unique as a function, so the algorithm is immaterial. *)

Section sorting.
Context {A : Type} (leb : A -> A -> bool).

Fixpoint insert_by (x : A) (l : list A) : list A :=
  match l with
  | [] => [x]
  | y :: l' => if leb x y then x :: y :: l' else y :: insert_by x l'
  end.

Definition sort_by (l : list A) : list A := foldr insert_by [] l.

Lemma insert_by_perm x l : insert_by x l ≡ₚ x :: l.
Proof.
  induction l as [|y l IH]; cbn; [done|]. destruct (leb x y); [done|].
  rewrite IH. constructor.
Qed.

Lemma sort_by_perm l : sort_by l ≡ₚ l.
Proof.
  induction l as [|x l IH]; cbn; [done|]. by rewrite insert_by_perm, IH.
Qed.

Lemma elem_of_sort_by x l : x ∈ sort_by l <-> x ∈ l.
Proof. by rewrite sort_by_perm. Qed.

Lemma length_sort_by l : length (sort_by l) = length l.
Proof. by rewrite sort_by_perm. Qed.

Definition le_of : A -> A -> Prop := fun x y => leb x y = true.

Hypothesis leb_total : forall x y, leb x y = true \/ leb y x = true.
Hypothesis leb_trans : forall x y z, leb x y = true -> leb y z = true -> leb x z = true.

Lemma insert_by_sorted x l :
  StronglySorted le_of l -> StronglySorted le_of (insert_by x l).
Proof.
  induction 1 as [|y l Hl IH Hy]; cbn; [repeat constructor|].
  destruct (leb x y) eqn:Exy.
  - constructor; [by constructor|]. constructor; [done|].
    eapply Forall_impl; [exact Hy|]. unfold le_of; eauto.
  - constructor; [done|]. rewrite insert_by_perm. constructor; [|done].
    unfold le_of. destruct (leb_total x y); congruence.
Qed.

Lemma sort_by_sorted l : StronglySorted le_of (sort_by l).
Proof. induction l; cbn; [constructor|]. by apply insert_by_sorted. Qed.

(** Stability: the elements equivalent to [x] keep their relative order. *)
Definition same_key (x y : A) : bool := leb x y && leb y x.

Lemma same_key_flip x y z :
  same_key x y = true -> same_key x z = true -> leb y z = true.
Proof.
  unfold same_key. rewrite !andb_true_iff. intros [? ?] [? ?]. eauto.
Qed.

Lemma insert_by_stable k x l :
  List.filter (same_key k) (insert_by x l) = List.filter (same_key k) (x :: l).
Proof.
  induction l as [|y l IH]; cbn in *; [done|].
  destruct (leb x y) eqn:Exy; cbn; [done|]. rewrite IH.
  destruct (same_key k x) eqn:Ex, (same_key k y) eqn:Ey; try done.
  exfalso. rewrite (same_key_flip k x y) in Exy; done.
Qed.

Lemma sort_by_stable k l :
  List.filter (same_key k) (sort_by l) = List.filter (same_key k) l.
Proof.
  induction l as [|x l IH]; [done|]. cbn [sort_by foldr].
  rewrite insert_by_stable. cbn. fold (sort_by l). by rewrite IH.
Qed.

(** When the order separates the elements, the result does not depend on
    the order of the input. *)
Lemma sort_by_perm_invariant l k :
  (forall x y, x ∈ l -> y ∈ l -> leb x y = true -> leb y x = true -> x = y) ->
  l ≡ₚ k -> sort_by l = sort_by k.
Proof.
  intros Hanti Hp. apply (StronglySorted_unique_strong le_of); auto using sort_by_sorted.
  - intros x y. rewrite !elem_of_sort_by, <- Hp. auto.
  - by rewrite !sort_by_perm.
Qed.
End sorting.

(** ** Greatest elements *)

(** [Iterator::max_by_key]: the last of the greatest. *)
Definition max_by_key {A} (key : A -> Z) (l : list A) : option A :=
  fold_left (fun best x =>
    match best with
    | Some b => if key b <=? key x then Some x else best
    | None => Some x
    end) l None.

Lemma max_by_key_from {A} (key : A -> Z) l : forall b,
  exists m, fold_left (fun best x => match best with
                                     | Some b => if key b <=? key x then Some x else best
                                     | None => Some x end) l (Some b) = Some m
    /\ (m = b \/ m ∈ l) /\ key b <= key m /\ forall x, x ∈ l -> key x <= key m.
Proof.
  induction l as [|y l IH]; intros b; cbn.
  { exists b. split_and!; [done|by left|lia|]. by intros x ?%elem_of_nil. }
  destruct (Z.leb_spec (key b) (key y)).
  - destruct (IH y) as (m & -> & Hm & Hle & Hall). exists m. split_and!; [done| |lia|].
    + right. destruct Hm as [->|]; [left|by right].
    + intros x [->|Hx]%elem_of_cons; [done|by apply Hall].
  - destruct (IH b) as (m & -> & Hm & Hle & Hall). exists m. split_and!; [done| |done|].
    + destruct Hm as [->|]; [by left|right; by right].
    + intros x [->|Hx]%elem_of_cons; [lia|by apply Hall].
Qed.

Lemma max_by_key_spec {A} (key : A -> Z) l :
  match max_by_key key l with
  | Some m => m ∈ l /\ forall x, x ∈ l -> key x <= key m
  | None => l = []
  end.
Proof.
  destruct l as [|b l]; [done|]. unfold max_by_key. cbn.
  destruct (max_by_key_from key l b) as (m & -> & Hm & Hle & Hall). split.
  - destruct Hm as [->|]; [left|by right].
  - intros x [->|Hx]%elem_of_cons; [done|by apply Hall].
Qed.

Lemma max_by_key_snoc {A} (key : A -> Z) l x :
  (forall y, y ∈ l -> key y <= key x) -> max_by_key key (l ++ [x]) = Some x.
Proof.
  intros Hall. unfold max_by_key. rewrite fold_left_app. cbn.
  pose proof (max_by_key_spec key l) as Hm. unfold max_by_key in Hm.
  destruct (fold_left _ l None) as [m|]; [|done]. destruct Hm as [Hin _].
  apply Hall in Hin. by rewrite (proj2 (Z.leb_le _ _) Hin).
Qed.

