(* ===== verification/Limiter.v ===== *)
(** * The withdrawal rate limiter

    The guardian's token bucket ([crates/hashi-types/src/guardian/limiter.rs]) and
    every node's local mirror of it ([crates/hashi/src/guardian_limiter.rs]): the
    mirror itself, the finalize pacing and the stall tracker that decides when the
    mirror is snapped back to the guardian.

    [Bucket] is the interface the two buckets share.  The rate-limit theorem is
    proved against it and holds of both. *)

From S2P Require Import Prelude.

(** ** Data (limiter.rs) *)

Record LimiterConfig := mkLimiterConfig {
  refill_rate : Z;
  max_bucket_capacity : Z;
}.

Record LimiterState := mkLimiterState {
  num_tokens_available : Z;
  last_updated_at : Z;
  next_seq : Z;
}.

#[export] Instance LimiterConfig_eq_dec : EqDecision LimiterConfig.
Proof. solve_decision. Defined.
#[export] Instance LimiterState_eq_dec : EqDecision LimiterState.
Proof. solve_decision. Defined.

(** The [GuardianError] values the limiter returns; the text of an
    [InvalidInputs] is a constructor per message. *)
Inductive InvalidInput :=
| TokensExceedCapacity
| TimestampBeforeLastUpdate (timestamp last_updated : Z).

Inductive GuardianError :=
| InvalidInputs (why : InvalidInput)
| LimiterSequenceMismatch (expected actual : Z)
| RateLimitExceeded (requested_sats capacity_sats : Z).

(** ** LimiterState methods *)

Definition genesis (config : LimiterConfig) : LimiterState :=
  mkLimiterState (max_bucket_capacity config) 0 0.

Definition capped_to (self : LimiterState) (config : LimiterConfig) : LimiterState :=
  mkLimiterState
    (Z.min (num_tokens_available self) (max_bucket_capacity config))
    (last_updated_at self) (next_seq self).

Definition capacity_at (self : LimiterState) (config : LimiterConfig) (timestamp : Z) : Z :=
  let elapsed := sat_sub timestamp (last_updated_at self) in
  let refilled := sat_mul elapsed (refill_rate config) in
  Z.min (sat_add (num_tokens_available self) refilled) (max_bucket_capacity config).

(** ** The guardian's RateLimiter *)

Record RateLimiter := mkRateLimiter {
  rl_config : LimiterConfig;
  rl_state : LimiterState;
}.

Definition rate_limiter_new (config : LimiterConfig) (state : LimiterState)
    : GuardianError + RateLimiter :=
  if bool_decide (num_tokens_available state > max_bucket_capacity config)
  then inl (InvalidInputs TokensExceedCapacity)
  else inr (mkRateLimiter config state).

(** [consume(&mut self, ..) -> GuardianResult<()>]: the result and the limiter
    after the call. *)
Definition consume (self : RateLimiter) (seq timestamp amount_sats : Z)
    : (GuardianError + unit) * RateLimiter :=
  let st := rl_state self in
  if negb (seq =? next_seq st) then
    (inl (LimiterSequenceMismatch (next_seq st) seq), self)
  else if timestamp <? last_updated_at st then
    (inl (InvalidInputs (TimestampBeforeLastUpdate timestamp (last_updated_at st))), self)
  else
    let capacity := capacity_at st (rl_config self) timestamp in
    if capacity <? amount_sats then
      (inl (RateLimitExceeded amount_sats capacity), self)
    else
      (inr tt,
       mkRateLimiter (rl_config self)
         (mkLimiterState (wsub capacity amount_sats) timestamp (wadd (next_seq st) 1))).

(** ** The node's LocalLimiter (guardian_limiter.rs) *)

Record LimiterView := mkLimiterView {
  lv_config : LimiterConfig;
  lv_state : LimiterState;
}.

Definition view_capacity_at (self : LimiterView) (timestamp_secs : Z) : Z :=
  capacity_at (lv_state self) (lv_config self) timestamp_secs.

Inductive LocalLimiterError :=
| StaleTimestamp (local_last incoming : Z)
| InsufficientCapacity (needed available : Z)
| SeqMismatch (local incoming : Z).

(** The [RwLock] holds one view; every method takes the lock once, so a method is
    a function of the view it finds. *)
Definition LocalLimiter := LimiterView.

Definition local_limiter_new (config : LimiterConfig) (state : LimiterState) : LocalLimiter :=
  mkLimiterView config state.

Definition validate_consume (self : LocalLimiter) (expected_seq timestamp_secs amount_sats : Z)
    : LocalLimiterError + unit :=
  let st := lv_state self in
  if negb (expected_seq =? next_seq st) then
    inl (SeqMismatch (next_seq st) expected_seq)
  else if timestamp_secs <? last_updated_at st then
    inl (StaleTimestamp (last_updated_at st) timestamp_secs)
  else
    let capacity := view_capacity_at self timestamp_secs in
    if capacity <? amount_sats then inl (InsufficientCapacity amount_sats capacity)
    else inr tt.

Definition apply_consume (self : LocalLimiter) (applied_seq timestamp_secs amount_sats : Z)
    : (LocalLimiterError + unit) * LocalLimiter :=
  let st := lv_state self in
  if negb (applied_seq =? next_seq st) then
    (inl (SeqMismatch (next_seq st) applied_seq), self)
  else if timestamp_secs <? last_updated_at st then
    (inl (StaleTimestamp (last_updated_at st) timestamp_secs), self)
  else
    let capacity := view_capacity_at self timestamp_secs in
    if capacity <? amount_sats then
      (inl (InsufficientCapacity amount_sats capacity), self)
    else
      (inr tt,
       mkLimiterView (lv_config self)
         (mkLimiterState (wsub capacity amount_sats) timestamp_secs
            (wadd (next_seq st) 1))).

Definition adopt_config (self : LocalLimiter) (config : LimiterConfig)
    : option LimiterConfig * LocalLimiter :=
  let previous := lv_config self in
  if bool_decide (previous = config) then (None, self)
  else (Some previous, mkLimiterView config (capped_to (lv_state self) config)).

Definition reconcile_to (self : LocalLimiter) (state : LimiterState) : LocalLimiter :=
  mkLimiterView (lv_config self) state.

Definition reconcile_token_drift (self : LocalLimiter) (state : LimiterState)
    : bool * LocalLimiter :=
  if negb (next_seq (lv_state self) =? next_seq state) then (false, self)
  else
    let common := Z.max (last_updated_at (lv_state self)) (last_updated_at state) in
    if view_capacity_at self common =? capacity_at state (lv_config self) common
    then (false, self)
    else (true, mkLimiterView (lv_config self) state).

(** ** Finalize pacing *)

Definition should_defer_guardian_finalize (next_seq : Z) (last_finalized : option (Z * Address))
    (wid : Address) (guardian_next_seq : option Z) : bool :=
  match last_finalized with
  | None => false
  | Some (last_seq, last_wid) =>
      (next_seq <=? last_seq)
      && negb (wid =? last_wid)
      && match guardian_next_seq with
         | None => true
         | Some guardian_seq => last_seq <? guardian_seq
         end
  end.

Record FinalizePacing := mkFinalizePacing {
  last_finalized : option (Z * Address);
  guardian_next_seq : option Z;
  generation : Z;
}.

Definition pacing_default : FinalizePacing := mkFinalizePacing None None 0.

Definition record_finalized (self : FinalizePacing) (seq : Z) (wid : Address) : FinalizePacing :=
  if match last_finalized self with Some (prev_seq, _) => seq <? prev_seq | None => false end
  then self
  else mkFinalizePacing (Some (seq, wid)) None (wadd (generation self) 1).

Definition record_guardian_next_seq (self : FinalizePacing) (next_seq read_generation : Z)
    : FinalizePacing :=
  if read_generation =? generation self
  then mkFinalizePacing (last_finalized self) (Some next_seq) (generation self)
  else self.

Definition should_defer (self : FinalizePacing) (next_seq : Z) (wid : Address) : bool :=
  should_defer_guardian_finalize next_seq (last_finalized self) wid (guardian_next_seq self).

(** ** Stall tracker *)

Definition STALL_RECONCILE_TICKS : nat := 20.

Record LimiterStallTracker := mkLimiterStallTracker {
  guardian_seq_window : list Z;
  finalize_refused : bool;
}.

Definition stall_tracker_default : LimiterStallTracker := mkLimiterStallTracker [] false.

Definition set_finalize_refused (self : LimiterStallTracker) (refused : bool)
    : LimiterStallTracker :=
  mkLimiterStallTracker (if refused then [] else guardian_seq_window self) refused.

(** [VecDeque]: [push_back] appends, [front] and [pop_front] are the head. *)
Definition observe (self : LimiterStallTracker) (local_seq guardian_seq : Z)
    : bool * LimiterStallTracker :=
  if finalize_refused self then (false, self)
  else
    let window := guardian_seq_window self in
    let stalled :=
      (length window =? STALL_RECONCILE_TICKS)%nat
      && match head window with
         | Some windowed_seq => (local_seq <? windowed_seq) || (guardian_seq <? local_seq)
         | None => false
         end in
    if stalled then (true, mkLimiterStallTracker [] (finalize_refused self))
    else
      let window := window ++ [guardian_seq] in
      let window := if (STALL_RECONCILE_TICKS <? length window)%nat then tail window else window in
      (false, mkLimiterStallTracker window (finalize_refused self)).

(** ** Well-formedness *)

Definition wf_config (c : LimiterConfig) : Prop :=
  is_u64 (refill_rate c) /\ is_u64 (max_bucket_capacity c).

Definition wf_state (c : LimiterConfig) (s : LimiterState) : Prop :=
  is_u64 (num_tokens_available s) /\ is_u64 (last_updated_at s) /\ is_u64 (next_seq s)
  /\ num_tokens_available s <= max_bucket_capacity c.

(** *** Facts about [capacity_at] *)

Lemma capacity_at_le_max s c t : capacity_at s c t <= max_bucket_capacity c.
Proof. unfold capacity_at. lia. Qed.

Lemma capacity_at_nonneg s c t :
  wf_config c -> 0 <= num_tokens_available s -> 0 <= capacity_at s c t.
Proof.
  unfold wf_config, capacity_at. intros [Hr Hc] Hn.
  assert (0 <= sat_mul (sat_sub t (last_updated_at s)) (refill_rate c)).
  { unfold sat_mul, sat_sub, is_u64, u64_max in *. nia. }
  u64_lia.
Qed.

(** The closed form: stored tokens plus linear refill, cut at the capacity. *)
Lemma capacity_at_linear s c t :
  wf_config c -> 0 <= num_tokens_available s -> last_updated_at s <= t ->
  capacity_at s c t =
  Z.min (num_tokens_available s + refill_rate c * (t - last_updated_at s))
        (max_bucket_capacity c).
Proof.
  unfold wf_config, capacity_at, sat_add, sat_mul, sat_sub. intros [Hr Hc] Hn Ht.
  replace (Z.max (t - last_updated_at s) 0) with (t - last_updated_at s) by lia.
  rewrite (Z.mul_comm (t - _)).
  pose proof (Z.mul_nonneg_nonneg (refill_rate c) (t - last_updated_at s)).
  u64_lia.
Qed.

(** ** The bucket interface

    What the guardian's limiter and a node's mirror promise to whoever feeds them
    withdrawals: a rejected consume changes nothing, an accepted one is in
    sequence, in time and within the capacity, and leaves the refilled bucket
    minus the amount. *)

Class Bucket (S : Type) := {
  bucket_config : S -> LimiterConfig;
  bucket_state : S -> LimiterState;
  bucket_consume : S -> Z -> Z -> Z -> bool * S;
}.

Class BucketLaws (S : Type) `{Bucket S} := {
  consume_rejected s q t a s' : bucket_consume s q t a = (false, s') -> s' = s;
  consume_accepted s q t a s' :
    bucket_consume s q t a = (true, s') ->
    q = next_seq (bucket_state s)
    /\ last_updated_at (bucket_state s) <= t
    /\ a <= capacity_at (bucket_state s) (bucket_config s) t
    /\ bucket_config s' = bucket_config s
    /\ bucket_state s' =
       mkLimiterState (wsub (capacity_at (bucket_state s) (bucket_config s) t) a) t
                      (wadd (next_seq (bucket_state s)) 1);
  consume_complete s t a :
    last_updated_at (bucket_state s) <= t ->
    a <= capacity_at (bucket_state s) (bucket_config s) t ->
    fst (bucket_consume s (next_seq (bucket_state s)) t a) = true;
}.

Definition is_inr {A B} (x : A + B) : bool := match x with inr _ => true | inl _ => false end.

#[export] Instance rate_limiter_bucket : Bucket RateLimiter := {|
  bucket_config := rl_config;
  bucket_state := rl_state;
  bucket_consume s q t a := let r := consume s q t a in (is_inr (fst r), snd r);
|}.

#[export] Instance local_limiter_bucket : Bucket LocalLimiter := {|
  bucket_config := lv_config;
  bucket_state := lv_state;
  bucket_consume s q t a := let r := apply_consume s q t a in (is_inr (fst r), snd r);
|}.

(** Split every test of a [consume]-shaped function. *)
Ltac split_tests :=
  repeat match goal with
  | |- context [negb ?b] => destruct b eqn:?; cbn
  | |- context [if ?b then _ else _] => destruct b eqn:?; cbn
  | H : context [negb ?b] |- _ => destruct b eqn:?; cbn in H
  | H : context [if ?b then _ else _] |- _ => destruct b eqn:?; cbn in H
  end.

Ltac tests_to_props :=
  repeat match goal with
  | H : (_ =? _) = true |- _ => apply Z.eqb_eq in H
  | H : (_ =? _) = false |- _ => apply Z.eqb_neq in H
  | H : (_ <? _) = true |- _ => apply Z.ltb_lt in H
  | H : (_ <? _) = false |- _ => apply Z.ltb_ge in H
  | H : (_ <=? _) = true |- _ => apply Z.leb_le in H
  | H : (_ <=? _) = false |- _ => apply Z.leb_gt in H
  end.

#[export] Instance rate_limiter_laws : BucketLaws RateLimiter.
Proof.
  split; cbn; unfold consume.
  - intros s q t a s' H. split_tests; congruence.
  - intros s q t a s' H. split_tests; try congruence.
    injection H as <-. tests_to_props. cbn. auto.
  - intros s t a Ht Ha. rewrite Z.eqb_refl. cbn. split_tests; tests_to_props; done || lia.
Qed.

#[export] Instance local_limiter_laws : BucketLaws LocalLimiter.
Proof.
  split; cbn; unfold apply_consume, view_capacity_at.
  - intros s q t a s' H. split_tests; congruence.
  - intros s q t a s' H. split_tests; try congruence.
    injection H as <-. tests_to_props. cbn. auto.
  - intros s t a Ht Ha. rewrite Z.eqb_refl. cbn. split_tests; tests_to_props; done || lia.
Qed.

(** ** Serving a stream of requests *)

(** A request: sequence number, timestamp, amount. *)
Record Request := mkRequest { r_seq : Z; r_ts : Z; r_amount : Z }.

Definition wf_request (r : Request) : Prop := is_u64 (r_ts r) /\ is_u64 (r_amount r).

Definition amounts (rs : list Request) : Z := zsum (r_amount <$> rs).

Section bucket.
Context {S : Type} `{HB : Bucket S} {HL : BucketLaws S}.

(** Feed requests in order; return the accepted ones and the final bucket. *)
Fixpoint serve (s : S) (rs : list Request) : list Request * S :=
  match rs with
  | [] => ([], s)
  | r :: rs =>
      let (ok, s1) := bucket_consume s (r_seq r) (r_ts r) (r_amount r) in
      let (acc, s2) := serve s1 rs in
      (if ok then r :: acc else acc, s2)
  end.

Definition wf_bucket (s : S) : Prop :=
  wf_config (bucket_config s) /\ wf_state (bucket_config s) (bucket_state s).

(** A chain of accepted requests from one bucket to another. *)
Inductive chain : S -> list Request -> S -> Prop :=
| chain_nil s : chain s [] s
| chain_cons s r s1 rs s2 :
    bucket_consume s (r_seq r) (r_ts r) (r_amount r) = (true, s1) ->
    chain s1 rs s2 -> chain s (r :: rs) s2.

Lemma serve_chain s rs acc s' : serve s rs = (acc, s') -> chain s acc s'.
Proof.
  revert s acc. induction rs as [|r rs IH]; intros s acc; cbn.
  { intros [= <- <-]. constructor. }
  destruct (bucket_consume _ _ _ _) as [ok s1] eqn:E.
  destruct (serve s1 rs) as [acc1 s2] eqn:E2. intros [= <- <-].
  destruct ok; [by econstructor; eauto|].
  apply consume_rejected in E as ->. auto.
Qed.

Lemma serve_subset s rs acc s' : serve s rs = (acc, s') -> acc ⊆ rs.
Proof.
  revert s acc. induction rs as [|r rs IH]; intros s acc; cbn.
  { by intros [= <- _]. }
  destruct (bucket_consume _ _ _ _) as [ok s1] eqn:E.
  destruct (serve s1 rs) as [acc1 s2] eqn:E2. intros [= <- <-].
  apply IH in E2.
  destruct ok; [by apply list_subseteq_skip|by apply list_subseteq_cons].
Qed.

Lemma chain_app s rs ks s' :
  chain s (rs ++ ks) s' -> exists m, chain s rs m /\ chain m ks s'.
Proof.
  revert s. induction rs as [|r rs IH]; cbn; intros s H.
  { exists s. split; [constructor|done]. }
  inversion H as [|? ? s1 ? ? Hc Hr]; subst.
  apply IH in Hr as (m & ? & ?). exists m. split; [by econstructor|done].
Qed.

Lemma chain_snoc s rs m r s' :
  chain s rs m -> bucket_consume m (r_seq r) (r_ts r) (r_amount r) = (true, s') ->
  chain s (rs ++ [r]) s'.
Proof. induction 1; intros; cbn; econstructor; eauto using chain. Qed.

(** One accepted consume keeps the bucket well formed and pays for itself. *)
Lemma consume_step s r s1 :
  wf_bucket s -> wf_request r ->
  bucket_consume s (r_seq r) (r_ts r) (r_amount r) = (true, s1) ->
  wf_bucket s1
  /\ bucket_config s1 = bucket_config s
  /\ last_updated_at (bucket_state s1) = r_ts r
  /\ last_updated_at (bucket_state s) <= r_ts r
  /\ r_amount r + num_tokens_available (bucket_state s1) =
     capacity_at (bucket_state s) (bucket_config s) (r_ts r).
Proof.
  intros [Hc Hs] [Ht Ha] E. apply consume_accepted in E as (_ & Hlast & Hcap & Hcfg & Hst).
  unfold wf_bucket. rewrite Hcfg, Hst. cbn.
  pose proof (capacity_at_le_max (bucket_state s) (bucket_config s) (r_ts r)).
  pose proof (capacity_at_nonneg (bucket_state s) (bucket_config s) (r_ts r) Hc
                ltac:(apply Hs)).
  destruct Hc as [? ?]. unfold wf_state. cbn. rewrite wsub_small by u64_lia.
  split_and!; try done; try u64_lia; apply wrap64_range.
Qed.

Lemma chain_budget s rs s' :
  wf_bucket s -> Forall wf_request rs -> chain s rs s' ->
  wf_bucket s' /\ bucket_config s' = bucket_config s
  /\ last_updated_at (bucket_state s) <= last_updated_at (bucket_state s')
  /\ amounts rs + num_tokens_available (bucket_state s') <=
     num_tokens_available (bucket_state s)
     + refill_rate (bucket_config s)
       * (last_updated_at (bucket_state s') - last_updated_at (bucket_state s)).
Proof.
  intros Hwf Hrs Hch. induction Hch as [s|s r s1 rs s2 E _ IH].
  { split_and!; try done; unfold amounts; cbn; lia. }
  inversion Hrs as [|? ? Hr Hrs']; subst.
  destruct (consume_step _ _ _ Hwf Hr E) as (Hwf1 & Hcfg & Hl1 & Hle & Hpay).
  destruct (IH Hwf1 Hrs') as (Hwf2 & Hcfg2 & Hle2 & Hsum).
  rewrite Hcfg in *. split_and!; try done; [lia|].
  destruct Hwf as [Hc [Hs _]].
  rewrite capacity_at_linear in Hpay by (done || u64_lia).
  change (amounts (r :: rs)) with (r_amount r + amounts rs). rewrite Hl1 in *. nia.
Qed.

(** The budget of a window that starts at an accepted request. *)
Lemma chain_window s r rs s' :
  wf_bucket s -> Forall wf_request (r :: rs) -> chain s (r :: rs) s' ->
  amounts (r :: rs) <=
  max_bucket_capacity (bucket_config s)
  + refill_rate (bucket_config s) * (last_updated_at (bucket_state s') - r_ts r).
Proof.
  intros Hwf Hrs Hch. inversion Hch as [|? ? s1 ? ? E Hch']; subst.
  inversion Hrs as [|? ? Hr Hrs']; subst.
  destruct (consume_step _ _ _ Hwf Hr E) as (Hwf1 & Hcfg & Hl1 & Hle & Hpay).
  destruct (chain_budget _ _ _ Hwf1 Hrs' Hch') as (Hwf2 & Hcfg2 & Hle2 & Hsum).
  pose proof (capacity_at_le_max (bucket_state s) (bucket_config s) (r_ts r)).
  change (amounts (r :: rs)) with (r_amount r + amounts rs).
  rewrite Hcfg, Hl1 in *. destruct Hwf2 as [_ [[? _] _]]. lia.
Qed.

Lemma chain_last s rs r s' :
  wf_bucket s -> Forall wf_request (rs ++ [r]) -> chain s (rs ++ [r]) s' ->
  last_updated_at (bucket_state s') = r_ts r.
Proof.
  intros Hwf Hrs Hch. apply chain_app in Hch as (m & _ & Hch).
  inversion Hch as [|? ? s1 ? ? E Hch']; subst.
  inversion Hch'; subst. apply consume_accepted in E as (_ & _ & _ & _ & ->). done.
Qed.

Lemma chain_seqs s rs s' i r :
  is_u64 (next_seq (bucket_state s)) ->
  chain s rs s' -> rs !! i = Some r ->
  r_seq r = wrap64 (next_seq (bucket_state s) + Z.of_nat i).
Proof.
  intros Hs Hch. revert i Hs. induction Hch as [|s r0 s1 rs s2 E _ IH]; intros i Hs; [done|].
  apply consume_accepted in E as (Hq & _ & _ & _ & Hst).
  destruct i as [|i]; cbn.
  - intros [= ->]. rewrite Hq, Z.add_0_r. symmetry. by apply wrap64_small.
  - intros Hi. rewrite (IH _ ltac:(rewrite Hst; apply wrap64_range) Hi), Hst. cbn.
    unfold wadd, wrap64. rewrite Zplus_mod_idemp_l. f_equal. lia.
Qed.
End bucket.

Lemma serve_wf_requests {S} `{BucketLaws S} s rs acc s' :
  Forall wf_request rs -> serve s rs = (acc, s') -> Forall wf_request acc.
Proof.
  intros Hrs E. apply serve_subset in E. rewrite Forall_forall in Hrs.
  apply Forall_forall. auto.
Qed.

(** ** The limiter's theorems *)

(** C1: the rate limit.  Serve any stream of requests, accepted or not, from a
    well-formed bucket.  Every run of consecutive accepted withdrawals, from one
    at time [r_ts first] to one at time [r_ts final], pays out at most the bucket
    capacity plus the refill over that time span.  It holds of every bucket that
    satisfies the interface: the guardian's limiter and a node's mirror. *)
Theorem rate_limit_window {S} `{BucketLaws S} (s : S) (rs : list Request)
    (acc pre mid post : list Request) (first final : Request) (s' : S) :
  wf_bucket s -> Forall wf_request rs ->
  serve s rs = (acc, s') ->
  acc = pre ++ (first :: mid) ++ post ->
  list.last (first :: mid) = Some final ->
  amounts (first :: mid) <=
  max_bucket_capacity (bucket_config s)
  + refill_rate (bucket_config s) * (r_ts final - r_ts first).
Proof.
  intros Hwf Hrs Hserve -> Hlast.
  pose proof (serve_wf_requests _ _ _ _ Hrs Hserve) as Hacc.
  rewrite !Forall_app in Hacc. destruct Hacc as (Hpre & Hmid & Hpost).
  apply serve_chain, chain_app in Hserve as (m & Hm & Hch).
  apply chain_app in Hch as (m' & Hm' & _).
  destruct (chain_budget _ _ _ Hwf Hpre Hm) as (Hwfm & Hcfg & _).
  pose proof (chain_window _ _ _ _ Hwfm Hmid Hm') as Hbound.
  apply last_Some in Hlast as (init & Hinit). rewrite Hinit in Hm', Hmid.
  rewrite (chain_last _ _ _ _ Hwfm Hmid Hm'), Hcfg in Hbound. done.
Qed.

(** Sequence numbers are never reused.  The accepted requests of a stream
    carry the consecutive sequence numbers from the bucket's [next_seq] on, so no
    two of them share one (a [u64] does not run out). *)
Theorem accepted_seqs_consecutive {S} `{BucketLaws S} (s : S) (rs : list Request)
    (acc : list Request) (s' : S) :
  wf_bucket s -> serve s rs = (acc, s') ->
  Z.of_nat (length acc) <= 2 ^ 64 ->
  (r_seq <$> acc = (fun i => wrap64 (next_seq (bucket_state s) + Z.of_nat i))
                     <$> seq 0 (length acc))
  /\ NoDup (r_seq <$> acc).
Proof.
  intros [_ (_ & _ & Hs & _)] Hserve Hlen. apply serve_chain in Hserve.
  assert (r_seq <$> acc = (fun i => wrap64 (next_seq (bucket_state s) + Z.of_nat i))
                     <$> seq 0 (length acc)) as Heq.
  { apply list_eq. intros i. rewrite !list_lookup_fmap.
    destruct (acc !! i) as [r|] eqn:E; cbn.
    - apply lookup_lt_Some in E as Hi. rewrite lookup_seq_lt by done. cbn.
      f_equal. by eapply chain_seqs.
    - apply lookup_ge_None in E. rewrite lookup_seq_ge by done. done. }
  split; [done|]. rewrite Heq. apply NoDup_fmap_2_strong; [|apply NoDup_seq].
  intros i j Hi%elem_of_seq Hj%elem_of_seq. unfold wrap64. intros Hmod.
  apply (f_equal (fun z => (z - next_seq (bucket_state s)) mod 2 ^ 64)) in Hmod.
  rewrite !Zminus_mod_idemp_l in Hmod.
  replace (next_seq _ + Z.of_nat i - next_seq _) with (Z.of_nat i) in Hmod by lia.
  replace (next_seq _ + Z.of_nat j - next_seq _) with (Z.of_nat j) in Hmod by lia.
  rewrite !Z.mod_small in Hmod by lia. lia.
Qed.

Definition view_of (rl : RateLimiter) : LocalLimiter :=
  local_limiter_new (rl_config rl) (rl_state rl).

Lemma local_simulates_guardian rl q t a :
  bucket_consume (view_of rl) q t a =
  let (ok, rl') := bucket_consume rl q t a in (ok, view_of rl').
Proof.
  cbn. unfold consume, apply_consume, view_capacity_at, view_of, local_limiter_new. cbn.
  split_tests; done.
Qed.

(** Lockstep.  A mirror bootstrapped from the guardian, and fed exactly the
    withdrawals the guardian accepted (the [WithdrawalSigned] events), accepts
    every one of them and ends at the guardian's state. *)
Theorem mirror_lockstep (rl : RateLimiter) (rs : list Request) :
  let (acc, rl') := serve rl rs in serve (view_of rl) acc = (acc, view_of rl').
Proof.
  revert rl. induction rs as [|r rs IH]; intros rl; [done|]. cbn [serve].
  destruct (bucket_consume rl _ _ _) as [ok rl1] eqn:E.
  specialize (IH rl1). destruct (serve rl1 rs) as [acc rl2] eqn:E2. destruct ok.
  - cbn [serve]. rewrite local_simulates_guardian, E, IH. done.
  - apply consume_rejected in E as ->. done.
Qed.

(** [validate_consume] gives the verdict of [apply_consume] without changing
    anything, and the verdict of the guardian's [consume] when the mirror is in
    sync: accepted, or the corresponding error with the same figures. *)
Theorem validate_is_dry_run (rl : RateLimiter) (q t a : Z) :
  validate_consume (view_of rl) q t a = fst (apply_consume (view_of rl) q t a)
  /\ match fst (consume rl q t a) with
     | inr tt => validate_consume (view_of rl) q t a = inr tt
     | inl (LimiterSequenceMismatch e x) =>
         validate_consume (view_of rl) q t a = inl (SeqMismatch e x)
     | inl (InvalidInputs (TimestampBeforeLastUpdate x l)) =>
         validate_consume (view_of rl) q t a = inl (StaleTimestamp l x)
     | inl (RateLimitExceeded n c) =>
         validate_consume (view_of rl) q t a = inl (InsufficientCapacity n c)
     | inl (InvalidInputs TokensExceedCapacity) => False
     end.
Proof.
  unfold validate_consume, apply_consume, consume, view_capacity_at, view_of. cbn.
  split_tests; done.
Qed.

(** The limiter state the guardian starts from, or recovers under a changed
    policy, is accepted by [RateLimiter::new], and every later accepted consume
    keeps the tokens within the capacity and every field a [u64]. *)
Theorem limiter_invariant (c : LimiterConfig) (st0 : LimiterState) (rs : list Request) :
  wf_config c ->
  is_u64 (num_tokens_available st0) -> is_u64 (last_updated_at st0) -> is_u64 (next_seq st0) ->
  Forall wf_request rs ->
  exists rl0, rate_limiter_new c (capped_to st0 c) = inr rl0
    /\ rate_limiter_new c (genesis c) = inr (mkRateLimiter c (genesis c))
    /\ wf_bucket (snd (serve rl0 rs))
    /\ rl_config (snd (serve rl0 rs)) = c.
Proof.
  intros Hc Hn Hl Hq Hrs. unfold rate_limiter_new.
  rewrite !bool_decide_eq_false_2 by (cbn; lia).
  eexists. split; [done|]. split; [done|].
  destruct (serve _ rs) as [acc rl'] eqn:E.
  pose proof (serve_wf_requests _ _ _ _ Hrs E) as Hacc.
  apply serve_chain in E. apply chain_budget in E; [|clear E|done].
  - destruct E as (? & Hcfg & _). split; [done|]. exact Hcfg.
  - split; [done|]. destruct Hc as [? ?]. unfold wf_state. cbn.
    split_and!; try u64_lia; done.
Qed.

(** [reconcile_token_drift] at a matching sequence number makes the mirror
    project the guardian's capacity at every time from the later of the two
    update times on: when it declines to snap, the two buckets were already on the
    same refill line.  At another sequence number it leaves the mirror alone. *)
Theorem reconcile_restores_capacity (m : LocalLimiter) (g : LimiterState) (t : Z) :
  wf_config (lv_config m) ->
  0 <= num_tokens_available (lv_state m) -> 0 <= num_tokens_available g ->
  Z.max (last_updated_at (lv_state m)) (last_updated_at g) <= t ->
  let (snapped, m') := reconcile_token_drift m g in
  (next_seq (lv_state m) <> next_seq g -> snapped = false /\ m' = m)
  /\ (next_seq (lv_state m) = next_seq g ->
      view_capacity_at m' t = capacity_at g (lv_config m') t
      /\ lv_config m' = lv_config m /\ (snapped = true -> lv_state m' = g)).
Proof.
  intros Hc Hm Hg Ht. unfold reconcile_token_drift, view_capacity_at.
  split_tests; tests_to_props; cbn; (split; intros ?; [done || congruence|]); try done.
  split; [|done]. rewrite !capacity_at_linear in * by (done || lia).
  destruct Hc as [? ?].
  set (common := Z.max _ _) in *.
  pose proof (Z.mul_nonneg_nonneg (refill_rate (lv_config m)) (t - common)).
  assert (0 <= t - common) by (unfold common; lia). u64_lia || nia.
Qed.

(** Adopting a policy never invents capacity: the tokens only move down, the
    position in the sequence and in time stays, and the tokens fit the new
    ceiling, also when they did not fit the old one. *)
Theorem adopt_config_safe (m : LocalLimiter) (c : LimiterConfig) :
  let (previous, m') := adopt_config m c in
  lv_config m' = c
  /\ num_tokens_available (lv_state m') <= num_tokens_available (lv_state m)
  /\ last_updated_at (lv_state m') = last_updated_at (lv_state m)
  /\ next_seq (lv_state m') = next_seq (lv_state m)
  /\ (previous = None <-> lv_config m = c)
  /\ (previous <> None -> num_tokens_available (lv_state m') <= max_bucket_capacity c).
Proof.
  unfold adopt_config. case_bool_decide as E; cbn.
  - split_and!; try done; lia.
  - split_and!; try done; try lia; congruence.
Qed.

(** *** The stall tracker *)

(** Feed the tracker a list of ticks; the verdicts, oldest first, and the tracker. *)
Fixpoint run_observe (tr : LimiterStallTracker) (ticks : list (Z * Z))
    : list bool * LimiterStallTracker :=
  match ticks with
  | [] => ([], tr)
  | (l, g) :: ticks =>
      let (b, tr1) := observe tr l g in
      let (bs, tr2) := run_observe tr1 ticks in
      (b :: bs, tr2)
  end.

(** The guardian sequence numbers of the last [STALL_RECONCILE_TICKS] ticks. *)
Definition recent (gs : list Z) : list Z :=
  drop (length gs - STALL_RECONCILE_TICKS) gs.

Lemma recent_snoc gs g :
  (length gs <= STALL_RECONCILE_TICKS)%nat ->
  (let w := gs ++ [g] in
   if (STALL_RECONCILE_TICKS <? length w)%nat then tail w else w) = recent (gs ++ [g]).
Proof.
  intros Hlen. cbn zeta. unfold recent. rewrite length_app. cbn [length].
  destruct (Nat.ltb_spec STALL_RECONCILE_TICKS (length gs + 1)).
  - replace (length gs + 1 - STALL_RECONCILE_TICKS)%nat with 1%nat by lia.
    by destruct gs.
  - replace (length gs + 1 - STALL_RECONCILE_TICKS)%nat with 0%nat by lia. done.
Qed.

Lemma recent_recent gs g :
  recent (recent gs ++ [g]) = recent (gs ++ [g]).
Proof.
  unfold recent. rewrite !length_app, length_drop. cbn [length].
  set (n := STALL_RECONCILE_TICKS).
  destruct (decide (length gs <= n)%nat).
  - replace (length gs - n)%nat with 0%nat by lia. rewrite drop_0.
    by replace (length gs - 0 + 1 - n)%nat with (length gs + 1 - n)%nat by lia.
  - replace (length gs - (length gs - n) + 1 - n)%nat with 1%nat by lia.
    rewrite <- (drop_app_le gs [g] (length gs - n)) by lia.
    rewrite drop_drop. f_equal. lia.
Qed.

Lemma length_recent gs : (length (recent gs) <= STALL_RECONCILE_TICKS)%nat.
Proof. unfold recent. rewrite length_drop. lia. Qed.

Lemma observe_quiet tr l g tr' :
  finalize_refused tr = false ->
  (length (guardian_seq_window tr) <= STALL_RECONCILE_TICKS)%nat ->
  observe tr l g = (false, tr') ->
  finalize_refused tr' = false
  /\ guardian_seq_window tr' = recent (guardian_seq_window tr ++ [g]).
Proof.
  intros Hr Hw. unfold observe. rewrite Hr. cbv zeta.
  set (w := guardian_seq_window tr) in *.
  match goal with |- (if ?b then _ else _) = _ -> _ => destruct b end; [done|].
  intros [= <-]. cbn [finalize_refused guardian_seq_window]. split; [done|].
  exact (recent_snoc w g Hw).
Qed.

Lemma run_observe_quiet ticks : forall tr gs bs tr',
  finalize_refused tr = false -> guardian_seq_window tr = recent gs ->
  run_observe tr ticks = (bs, tr') -> Forall (fun b => b = false) bs ->
  finalize_refused tr' = false /\ guardian_seq_window tr' = recent (gs ++ ticks.*2).
Proof.
  induction ticks as [|[l g] ticks IH]; cbn; intros tr gs bs tr' Hr Hw.
  { intros [= <- <-] _. rewrite app_nil_r. done. }
  destruct (observe tr l g) as [b tr1] eqn:E.
  destruct (run_observe tr1 ticks) as [bs1 tr2] eqn:E2. intros [= <- <-] Hbs.
  inversion Hbs as [|? ? -> Hbs']; subst.
  apply observe_quiet in E as [Hr1 Hw1]; [|done|rewrite Hw; apply length_recent].
  rewrite Hw, recent_recent in Hw1.
  destruct (IH _ _ _ _ Hr1 Hw1 E2 Hbs') as [? ->]. split; [done|].
  by rewrite <- app_assoc.
Qed.

Lemma head_recent gs :
  (STALL_RECONCILE_TICKS <= length gs)%nat ->
  head (recent gs) = gs !! (length gs - STALL_RECONCILE_TICKS)%nat
  /\ length (recent gs) = STALL_RECONCILE_TICKS.
Proof.
  intros Hlen. unfold recent. rewrite head_lookup, lookup_drop, length_drop.
  split; [f_equal; lia|]. lia.
Qed.

(** The stall tracker fires exactly when it should.  After any number of quiet
    ticks since a fresh start, the next tick fires if and only if a full window of
    ticks has passed and the mirror is below the sequence number the guardian had
    a full window ago, or above the guardian's present one. *)
Theorem stall_tracker_exact (ticks : list (Z * Z)) (bs : list bool)
    (tr : LimiterStallTracker) (l g : Z) :
  run_observe stall_tracker_default ticks = (bs, tr) ->
  Forall (fun b => b = false) bs ->
  fst (observe tr l g) = true <->
  (STALL_RECONCILE_TICKS <= length ticks)%nat
  /\ exists l0 g0, ticks !! (length ticks - STALL_RECONCILE_TICKS)%nat = Some (l0, g0)
       /\ (l < g0 \/ g < l).
Proof.
  intros Hrun Hbs.
  destruct (run_observe_quiet ticks stall_tracker_default [] bs tr) as [Hr Hw]; try done.
  unfold observe. rewrite Hr, Hw. cbn zeta. rewrite app_nil_l.
  destruct (decide (STALL_RECONCILE_TICKS <= length ticks)%nat) as [Hle|Hlt].
  - destruct (head_recent ticks.*2) as [Hhead Hlen]; [by rewrite length_fmap|].
    rewrite Hlen, Hhead, Nat.eqb_refl, length_fmap, list_lookup_fmap.
    destruct (ticks !! _) as [[l0 g0]|] eqn:E.
    + cbn -[recent]. destruct ((l <? g0) || (g <? l)) eqn:Eb; cbn; split; intros H; try done.
      * split; [done|]. exists l0, g0. split; [done|].
        apply orb_true_iff in Eb as [?|?]; tests_to_props; lia.
      * destruct H as (_ & l1 & g1 & [= <- <-] & ?).
        apply orb_false_iff in Eb as [? ?]. tests_to_props. lia.
    + apply lookup_ge_None in E. unfold STALL_RECONCILE_TICKS in *. lia.
  - assert ((length (recent ticks.*2) =? STALL_RECONCILE_TICKS)%nat = false) as ->.
    { apply Nat.eqb_neq. unfold recent. rewrite length_drop, length_fmap. lia. }
    cbn. split; [done|]. intros [? _]. lia.
Qed.

(** A finalize record is judged only by a guardian read taken after it.  Once
    [(seq, wid)] is recorded, a guardian read that started before the record (it
    carries the earlier generation) is ignored, so any other withdrawal at that
    sequence number or below is deferred and the recorded one is not. *)
Theorem stale_read_ignored (p : FinalizePacing) (seq gseq q : Z) (wid w : Address) :
  is_u64 (generation p) ->
  (match last_finalized p with Some (prev, _) => prev <= seq | None => True end) ->
  let p1 := record_finalized p seq wid in
  record_guardian_next_seq p1 gseq (generation p) = p1
  /\ (should_defer p1 q w = true <-> q <= seq /\ w <> wid).
Proof.
  intros Hg Hprev. cbn zeta. unfold record_finalized.
  assert ((match last_finalized p with Some (prev_seq, _) => seq <? prev_seq | None => false end)
          = false) as ->.
  { destruct (last_finalized p) as [[prev ?]|]; [|done]. apply Z.ltb_ge. done. }
  unfold record_guardian_next_seq, should_defer, should_defer_guardian_finalize. cbn.
  destruct (Z.eqb_spec (generation p) (wadd (generation p) 1)) as [E|_].
  { exfalso. unfold wadd, wrap64 in E. unfold is_u64, u64_max in Hg.
    pose proof (Z.div_mod (generation p + 1) (2 ^ 64) ltac:(lia)). lia. }
  split; [done|]. rewrite andb_true_r, andb_true_iff, negb_true_iff, Z.leb_le, Z.eqb_neq. done.
Qed.

(** *** Concrete runs *)

Definition example_config : LimiterConfig := mkLimiterConfig 1000 2000000.
Definition example_limiter : RateLimiter :=
  mkRateLimiter example_config (mkLimiterState 500000 100 7).
Definition example_requests : list Request :=
  [mkRequest 7 200 400000; mkRequest 9 210 1; mkRequest 8 400 300000; mkRequest 9 401 900000000].

Lemma example_limiter_wf : wf_bucket example_limiter.
Proof. split; split_and!; cbn; u64_lia. Qed.

Lemma example_requests_wf : Forall wf_request example_requests.
Proof. repeat (constructor; [split; cbn; u64_lia|]). constructor. Qed.

Lemma rate_limit_window_witness :
  amounts [mkRequest 7 200 400000; mkRequest 8 400 300000] <= 2000000 + 1000 * (400 - 200).
Proof.
  exact (rate_limit_window example_limiter example_requests
           [mkRequest 7 200 400000; mkRequest 8 400 300000] []
           [mkRequest 8 400 300000] [] (mkRequest 7 200 400000) (mkRequest 8 400 300000)
           (snd (serve example_limiter example_requests))
           example_limiter_wf example_requests_wf eq_refl eq_refl eq_refl).
Defined.

Lemma accepted_seqs_consecutive_witness : NoDup [7; 8].
Proof.
  exact (proj2 (accepted_seqs_consecutive example_limiter example_requests
           [mkRequest 7 200 400000; mkRequest 8 400 300000]
           (snd (serve example_limiter example_requests))
           example_limiter_wf eq_refl ltac:(cbn; lia))).
Defined.

Lemma limiter_invariant_witness :
  exists rl0, rate_limiter_new example_config
                (capped_to (mkLimiterState 9000000 100 7) example_config) = inr rl0
    /\ rate_limiter_new example_config (genesis example_config)
       = inr (mkRateLimiter example_config (genesis example_config))
    /\ wf_bucket (snd (serve rl0 example_requests))
    /\ rl_config (snd (serve rl0 example_requests)) = example_config.
Proof.
  apply (limiter_invariant example_config (mkLimiterState 9000000 100 7) example_requests);
    [split; cbn; u64_lia|cbn; u64_lia|cbn; u64_lia|cbn; u64_lia|apply example_requests_wf].
Defined.

Lemma reconcile_restores_capacity_witness :
  view_capacity_at
    (snd (reconcile_token_drift (mkLimiterView example_config (mkLimiterState 231160 839 7))
            (mkLimiterState 925600 838 7))) 900
  = capacity_at (mkLimiterState 925600 838 7) example_config 900.
Proof.
  exact (proj1 (proj2 (reconcile_restores_capacity
    (mkLimiterView example_config (mkLimiterState 231160 839 7))
    (mkLimiterState 925600 838 7) 900
    ltac:(split; cbn; u64_lia) ltac:(cbn; lia) ltac:(cbn; lia) ltac:(cbn; lia)) eq_refl)).
Defined.

Lemma stall_tracker_exact_witness :
  fst (observe (snd (run_observe stall_tracker_default (replicate 20 (50, 52)))) 50 52) = true.
Proof.
  apply (stall_tracker_exact (replicate 20 (50, 52)) (replicate 20 false));
    [reflexivity|repeat constructor|].
  split; [by apply Nat.leb_le|]. exists 50, 52. split; [reflexivity|lia].
Defined.

Lemma stale_read_ignored_witness :
  record_guardian_next_seq (record_finalized pacing_default 5 1) 5 0
  = record_finalized pacing_default 5 1.
Proof.
  exact (proj1 (stale_read_ignored pacing_default 5 5 5 1 2 ltac:(cbn; u64_lia) I)).
Defined.
