(* ===== verification/CoinSelection.v ===== *)
(** * Coin selection for withdrawal transactions

    [crates/hashi/src/utxo_pool/mod.rs]: the algorithm that picks the requests and
    the UTXOs of a batched withdrawal, consolidates the pool on the way, and splits
    the miner fee (with the CPFP deficit of unconfirmed ancestors) over the
    requests.  Every function that may panic ([expect], [assert!]) is an [outcome].

    The [bitcoin] crate is not part of the repository: its [Weight] addition, its
    [FeeRate::fee_wu] and [Address::script_pubkey] are the fields of [BitcoinUnits],
    and what their documentation promises is [BitcoinUnitsLaws]. *)

From S2P Require Import Prelude.

(** ** The bitcoin crate *)

(** [Weight] (weight units) and [FeeRate] (sat per 1000 weight units) are newtypes
    over [u64] with the derived order, so they are numbers here. *)
Class BitcoinUnits := {
  BitcoinAddress : Type;
  (** [Address::script_pubkey().len()] *)
  script_pubkey_len : BitcoinAddress -> Z;
  (** [impl Add for Weight], also behind [impl Sum for Weight] *)
  weight_add : Z -> Z -> Z;
  weight_checked_add : Z -> Z -> option Z;
  (** [FeeRate::fee_wu(weight).map(Amount::to_sat)] *)
  fee_wu : Z -> Z -> option Z;
  from_sat_per_vb_unchecked : Z -> Z;
  to_sat_per_vb_floor : Z -> Z;
}.

Class BitcoinUnitsLaws `{BitcoinUnits} := {
  weight_add_exact a b :
    0 <= a -> 0 <= b -> a + b <= u64_max -> weight_add a b = a + b;
  weight_checked_add_exact a b :
    0 <= a -> 0 <= b -> a + b <= u64_max -> weight_checked_add a b = Some (a + b);
  (** the fee is [fee_rate * weight], rounded up to a whole satoshi *)
  fee_wu_rounds_up r w f :
    0 <= r -> 0 <= w -> fee_wu r w = Some f -> r * w <= 1000 * f < r * w + 1000;
  (** [None] only on overflow *)
  fee_wu_defined r w :
    0 <= r -> 0 <= w -> r * w + 999 <= u64_max -> is_Some (fee_wu r w);
}.

Section model.
Context `{BU : BitcoinUnits}.

Definition weight_sum (l : list Z) : Z := fold_left weight_add l 0.

(** ** Constants *)

Definition TXIN_BASE_WEIGHT : Z := 164.
Definition TXOUT_BASE_WEIGHT : Z := 36.
Definition DUST_RELAY_MIN_VALUE : Z := 546.
Definition TR_DUST_RELAY_MIN_VALUE : Z := 330.
Definition WPKH_DUST_RELAY_MIN_VALUE : Z := 294.
Definition RECOVERY_PRIORITY_AGE_BLOCKS : Z := 30 * 24 * 6.
(** [withdrawals.rs] *)
Definition MAX_ANCESTOR_DEPTH : Z := 25.

(** ** Spend paths *)

Inductive SpendPath :=
| TaprootScriptPath2of2
| TaprootKeyPath
| Custom (w : Z).

Definition satisfaction_weight (self : SpendPath) : Z :=
  match self with
  | TaprootScriptPath2of2 => 268
  | TaprootKeyPath => 66
  | Custom w => w
  end.

(** ** UTXOs *)

Record UtxoId := mkUtxoId { txid : Z; vout : Z }.

#[global] Instance UtxoId_eq_dec : EqDecision UtxoId.
Proof. solve_decision. Defined.

Record AncestorTx := mkAncestorTx {
  anc_id : Address;
  confirmations : Z;
  tx_weight : Z;
  tx_fee : Z;
}.

Inductive UtxoStatus :=
| Confirmed
| Pending (chain : list AncestorTx).

Definition chain_depth (self : UtxoStatus) : Z :=
  match self with
  | Confirmed => 0
  | Pending chain => Z.of_nat (length chain)
  end.

Definition in_mempool (a : AncestorTx) : bool := confirmations a =? 0.

Definition mempool_chain_depth (self : UtxoStatus) : Z :=
  match self with
  | Confirmed => 0
  | Pending chain => Z.of_nat (length (List.filter in_mempool chain))
  end.

Definition status_unconfirmed_ancestor_weight (self : UtxoStatus) : Z :=
  match self with
  | Confirmed => 0
  | Pending chain => weight_sum (tx_weight <$> List.filter in_mempool chain)
  end.

Record UtxoCandidate := mkUtxoCandidate {
  utxo_id : UtxoId;
  amount : Z;
  confirmation_age_blocks : option Z;
  spend_path : SpendPath;
  status : UtxoStatus;
}.

Record WithdrawalRequest := mkWithdrawalRequest {
  request_id : Address;
  recipient : list Z;
  request_amount : Z;
  timestamp_ms : Z;
}.

(** ** Parameters *)

Record CoinSelectionParams := mkCoinSelectionParams {
  max_tx_weight : Z;
  max_ancestor_package_weight : Z;
  max_inputs : Z;
  max_withdrawal_requests : Z;
  max_fee_per_request : Z;
  min_fee_rate : Z;
  long_term_fee_rate : Z;
  high_fee_rate_threshold : Z;
  input_budget : Z;
  max_mempool_chain_depth : Z;
  change_address : BitcoinAddress;
}.

Definition DEFAULT_MAX_TX_WEIGHT : Z := 400000.
Definition DEFAULT_MAX_ANCESTOR_PACKAGE_WEIGHT : Z := 400000.
Definition DEFAULT_MAX_INPUTS : Z := 400.
Definition MAX_WITHDRAWAL_REQUESTS : Z := 447.
Definition DEFAULT_MIN_FEE_RATE : Z := from_sat_per_vb_unchecked 3.
Definition DEFAULT_LONG_TERM_FEE_RATE : Z := from_sat_per_vb_unchecked 10.
Definition DEFAULT_HIGH_FEE_RATE_THRESHOLD : Z := from_sat_per_vb_unchecked 30.
Definition DEFAULT_INPUT_BUDGET : Z := 10.
Definition DEFAULT_MAX_MEMPOOL_CHAIN_DEPTH : Z := 5.

Definition params_new (change_address : BitcoinAddress) : CoinSelectionParams :=
  let TX_FIXED_VB := 11 in
  let INPUT_VB := 100 in
  let OUTPUT_BUDGET := 2 in
  let OUTPUT_VB := 43 in
  let tx_vbytes := TX_FIXED_VB + DEFAULT_INPUT_BUDGET * INPUT_VB + OUTPUT_BUDGET * OUTPUT_VB in
  let max_fee_per_request :=
    wmul (to_sat_per_vb_floor DEFAULT_HIGH_FEE_RATE_THRESHOLD) tx_vbytes in
  {| max_tx_weight := DEFAULT_MAX_TX_WEIGHT;
     max_ancestor_package_weight := DEFAULT_MAX_ANCESTOR_PACKAGE_WEIGHT;
     max_inputs := DEFAULT_MAX_INPUTS;
     max_withdrawal_requests := MAX_WITHDRAWAL_REQUESTS;
     max_fee_per_request := max_fee_per_request;
     min_fee_rate := DEFAULT_MIN_FEE_RATE;
     long_term_fee_rate := DEFAULT_LONG_TERM_FEE_RATE;
     high_fee_rate_threshold := DEFAULT_HIGH_FEE_RATE_THRESHOLD;
     input_budget := DEFAULT_INPUT_BUDGET;
     max_mempool_chain_depth := DEFAULT_MAX_MEMPOOL_CHAIN_DEPTH;
     change_address := change_address |}.

(** ** Results and errors *)

Record WithdrawalOutput := mkWithdrawalOutput {
  out_request_id : Address;
  out_recipient : list Z;
  out_amount : Z;
}.

Record CoinSelectionResult := mkCoinSelectionResult {
  res_inputs : list UtxoCandidate;
  withdrawal_outputs : list WithdrawalOutput;
  change : option Z;
  fee : Z;
  selected_requests : list WithdrawalRequest;
}.

Inductive CoinSelectionError :=
| EmptyPool
| NoRequests
| FeeExceedsCap (fee_per_request max_fee_per_request total_deduction n_requests
                 transaction_fee cpfp_deficit selected_inputs pending_inputs
                 unconfirmed_ancestors : Z)
| SubDustChange (change dust_threshold : Z)
| InsufficientFunds (available selected required selected_inputs max_inputs : Z)
| ExceedsMaxWeight (weight max_weight : Z)
| ExceedsMaxAncestorPackageWeight (weight ancestor_weight max_weight selected_inputs
                                   pending_inputs unconfirmed_ancestors : Z)
| RequestAmountTooSmall (request_id : Address) (amount fee_per_request : Z).

#[local] Abbreviation M := (outcome CoinSelectionError).

Definition input_weight (self : SpendPath) : M Z :=
  expect (weight_checked_add TXIN_BASE_WEIGHT (satisfaction_weight self)).

(** ** Helpers *)

Definition output_weight_for_recipient (request : WithdrawalRequest) : Z :=
  if (length (recipient request) =? 20)%nat
  then weight_add TXOUT_BASE_WEIGHT (22 * 4)
  else weight_add TXOUT_BASE_WEIGHT (34 * 4).

Definition output_weight_for_script (script_len : Z) : Z :=
  wmul (wadd (8 + 1) script_len) 4.

Definition dust_threshold_for_change (script_len : Z) : Z :=
  if script_len =? 22 then WPKH_DUST_RELAY_MIN_VALUE
  else if script_len =? 34 then TR_DUST_RELAY_MIN_VALUE
  else DUST_RELAY_MIN_VALUE.

Definition fee_for_weight (fee_rate weight : Z) : M Z := expect (fee_wu fee_rate weight).

Definition varint_weight (n : Z) : Z :=
  let bytes :=
    if n <=? 252 then 1 else if n <=? 0xFFFF then 3 else if n <=? 0xFFFFFFFF then 5 else 9 in
  bytes * 4.

(** [mapM] in evaluation order, and a filter whose test may panic. *)
Fixpoint map_outcome {A B} (f : A -> M B) (l : list A) : M (list B) :=
  match l with
  | [] => Ok []
  | x :: l => y ← f x; ys ← map_outcome f l; Ok (y :: ys)
  end.

Fixpoint filter_outcome {A} (f : A -> M bool) (l : list A) : M (list A) :=
  match l with
  | [] => Ok []
  | x :: l => keep ← f x; xs ← filter_outcome f l; Ok (if (keep : bool) then x :: xs else xs)
  end.

(** ** The transaction builder *)

Record PendingOutput := mkPendingOutput {
  request : WithdrawalRequest;
  net_amount : Z;
}.

Definition dust_threshold (self : PendingOutput) : Z :=
  if (length (recipient (request self)) =? 20)%nat
  then WPKH_DUST_RELAY_MIN_VALUE else TR_DUST_RELAY_MIN_VALUE.

Record TransactionBuilder := mkTransactionBuilder {
  fee_rate : Z;
  params : CoinSelectionParams;
  inputs : list UtxoCandidate;
  outputs : list PendingOutput;
  raw_change : option Z;
  final_change : option Z;
}.

Definition with_inputs (b : TransactionBuilder) (l : list UtxoCandidate) : TransactionBuilder :=
  mkTransactionBuilder (fee_rate b) (params b) l (outputs b) (raw_change b) (final_change b).
Definition with_raw_change (b : TransactionBuilder) (c : Z) : TransactionBuilder :=
  mkTransactionBuilder (fee_rate b) (params b) (inputs b) (outputs b) (Some c) (final_change b).

Definition change_script_len (self : TransactionBuilder) : Z :=
  script_pubkey_len (change_address (params self)).

Definition weight_for (self : TransactionBuilder) (input_count input_w : Z) (has_change : bool)
    : Z :=
  let output_count := Z.of_nat (length (outputs self)) + (if has_change then 1 else 0) in
  let fixed :=
    weight_add (weight_add (32 + 2) (varint_weight input_count)) (varint_weight output_count) in
  let outs :=
    weight_sum ((fun o => output_weight_for_recipient (request o)) <$> outputs self) in
  let chg := if has_change then output_weight_for_script (change_script_len self) else 0 in
  weight_add (weight_add (weight_add fixed input_w) outs) chg.

Definition has_change (self : TransactionBuilder) : bool :=
  match raw_change self with None => true | Some v => 0 <? v end.

Definition weight (self : TransactionBuilder) : M Z :=
  let input_count := Z.of_nat (length (inputs self)) in
  ws ← map_outcome (fun u => input_weight (spend_path u)) (inputs self);
  Ok (weight_for self input_count (weight_sum ws) (has_change self)).

Definition weight_with_candidate (self : TransactionBuilder) (candidate : UtxoCandidate)
    (total_requested : Z) : M Z :=
  w ← input_weight (spend_path candidate);
  Ok (weight_for self 1 w (total_requested <? amount candidate)).

Definition input_total (self : TransactionBuilder) : Z := usum (amount <$> inputs self).

Definition total_requested (self : TransactionBuilder) : Z :=
  usum ((fun o => request_amount (request o)) <$> outputs self).

Definition compute_raw_change (self : TransactionBuilder) : M TransactionBuilder :=
  let it := input_total self in
  let tr := total_requested self in
  _ ← assert (tr <=? it);
  Ok (with_raw_change self (wsub it tr)).

(** The [seen] set of [unconfirmed_ancestors]: keep the first occurrence of an id. *)
Fixpoint dedup_ancestors (seen : list Address) (l : list AncestorTx) : list AncestorTx :=
  match l with
  | [] => []
  | a :: l =>
      if in_mempool a && negb (bool_decide (anc_id a ∈ seen))
      then a :: dedup_ancestors (anc_id a :: seen) l
      else dedup_ancestors seen l
  end.

Definition chain_of (u : UtxoCandidate) : list AncestorTx :=
  match status u with Confirmed => [] | Pending chain => chain end.

Definition unconfirmed_ancestors (self : TransactionBuilder) : list AncestorTx :=
  dedup_ancestors [] (concat (chain_of <$> inputs self)).

Definition unconfirmed_ancestor_weight (self : TransactionBuilder) : Z :=
  weight_sum (tx_weight <$> unconfirmed_ancestors self).

Definition is_pending (u : UtxoCandidate) : bool :=
  match status u with Pending _ => true | Confirmed => false end.

Definition pending_input_count (self : TransactionBuilder) : Z :=
  Z.of_nat (length (List.filter is_pending (inputs self))).

Definition exceeds_max_weight (self : TransactionBuilder) : M bool :=
  w ← weight self; Ok (max_tx_weight (params self) <? w).

Definition exceeds_max_ancestor_package_weight (self : TransactionBuilder) : M bool :=
  w ← weight self;
  Ok (max_ancestor_package_weight (params self)
      <? weight_add w (unconfirmed_ancestor_weight self)).

Definition exceeds_any_weight_limit (self : TransactionBuilder) : M bool :=
  a ← exceeds_max_weight self;
  if (a : bool) then Ok true else exceeds_max_ancestor_package_weight self.

Definition check_weight (self : TransactionBuilder) : M unit :=
  w ← weight self;
  if max_tx_weight (params self) <? w then
    Err (ExceedsMaxWeight w (max_tx_weight (params self)))
  else
    let ancestors := unconfirmed_ancestors self in
    let ancestor_weight := weight_sum (tx_weight <$> ancestors) in
    if max_ancestor_package_weight (params self) <? weight_add w ancestor_weight then
      Err (ExceedsMaxAncestorPackageWeight w ancestor_weight
             (max_ancestor_package_weight (params self))
             (Z.of_nat (length (inputs self))) (pending_input_count self)
             (Z.of_nat (length ancestors)))
    else Ok tt.

Definition cpfp_deficit (self : TransactionBuilder) : M Z :=
  let ancestors := unconfirmed_ancestors self in
  let ancestor_weight := weight_sum (tx_weight <$> ancestors) in
  let ancestor_fee := usum (tx_fee <$> ancestors) in
  needed_ancestor_fee ← fee_for_weight (fee_rate self) ancestor_weight;
  Ok (sat_sub needed_ancestor_fee ancestor_fee).

Definition required_fee (self : TransactionBuilder) : M Z :=
  w ← weight self;
  own_fee ← fee_for_weight (fee_rate self) w;
  deficit ← cpfp_deficit self;
  Ok (wadd own_fee deficit).

Definition change_dust_threshold (self : TransactionBuilder) : Z :=
  dust_threshold_for_change (change_script_len self).

(** The loop over the outputs at the end of [check_fees]. *)
Fixpoint check_outputs (deduction_per_request : Z) (l : list PendingOutput) : M unit :=
  match l with
  | [] => Ok tt
  | o :: l =>
      if request_amount (request o) <? wadd deduction_per_request (dust_threshold o) then
        Err (RequestAmountTooSmall (request_id (request o)) (request_amount (request o))
               deduction_per_request)
      else check_outputs deduction_per_request l
  end.

Definition check_fees (self : TransactionBuilder) : M unit :=
  let n := Z.of_nat (length (outputs self)) in
  if n =? 0 then Ok tt
  else
    w ← weight self;
    transaction_fee ← fee_for_weight (fee_rate self) w;
    deficit ← cpfp_deficit self;
    let total_deduction := wadd transaction_fee deficit in
    let deduction_per_request := div_ceil total_deduction n in
    if max_fee_per_request (params self) <? deduction_per_request then
      Err (FeeExceedsCap deduction_per_request (max_fee_per_request (params self))
             total_deduction n transaction_fee deficit
             (Z.of_nat (length (inputs self))) (pending_input_count self)
             (Z.of_nat (length (unconfirmed_ancestors self))))
    else check_outputs deduction_per_request (outputs self).

(** [.is_ok()] of a check that may panic. *)
Definition succeeds (m : M unit) : M bool :=
  match m with Ok _ => Ok true | Err _ => Ok false | Panic => Panic end.

Definition candidate_fits_fee_budget (self : TransactionBuilder) (candidate : UtxoCandidate)
    (total_requested : Z) : M bool :=
  if negb (is_pending candidate) then Ok true
  else
    succeeds (check_fees
      {| fee_rate := fee_rate self;
         params := params self;
         inputs := [candidate];
         outputs := (fun o => mkPendingOutput (request o) 0) <$> outputs self;
         raw_change := Some (sat_sub (amount candidate) total_requested);
         final_change := None |}).

Definition finalize_fees (self : TransactionBuilder) : M (Z * TransactionBuilder) :=
  raw ← expect (raw_change self);
  let threshold := change_dust_threshold self in
  if (0 <? raw) && (raw <? threshold) then Err (SubDustChange raw threshold)
  else
    _ ← check_fees self;
    let n := Z.of_nat (length (outputs self)) in
    required ← required_fee self;
    _ ← assert (negb (n =? 0));
    let deduction_per_request := div_ceil required n in
    let outs :=
      (fun o => mkPendingOutput (request o)
                  (wsub (request_amount (request o)) deduction_per_request)) <$> outputs self in
    let final := if 0 <? raw then Some raw else None in
    let self' :=
      mkTransactionBuilder (fee_rate self) (params self) (inputs self) outs
                           (raw_change self) final in
    let output_total := usum (net_amount <$> outs) in
    let chg := default 0 final in
    let miner_fee := wsub (wsub (input_total self') output_total) chg in
    required' ← required_fee self';
    _ ← assert (required' <=? miner_fee);
    Ok (miner_fee, self').

(** ** select_coins *)

(** [Ordering::then_with] and the [leb] of a comparison. *)
Definition then_with (c d : comparison) : comparison := match c with Eq => d | _ => c end.
Definition leb_of {A} (cmp : A -> A -> comparison) (x y : A) : bool :=
  match cmp x y with Gt => false | _ => true end.

Definition utxo_id_cmp (a b : UtxoId) : comparison :=
  then_with (txid a ?= txid b) (vout a ?= vout b).

(** Step 1: the requests in order of age. *)
Definition request_cmp (a b : WithdrawalRequest) : comparison := timestamp_ms a ?= timestamp_ms b.
Definition select_requests (requests : list WithdrawalRequest) (params : CoinSelectionParams)
    : list PendingOutput :=
  (fun r => mkPendingOutput r 0)
    <$> take (Z.to_nat (max_withdrawal_requests params)) (sort_by (leb_of request_cmp) requests).

(** Step 2: the eligible pool, largest first. *)
Definition eligible (builder : TransactionBuilder) (total : Z) (u : UtxoCandidate) : M bool :=
  if negb (mempool_chain_depth (status u) <=? max_mempool_chain_depth (params builder))
  then Ok false
  else if negb (mempool_chain_depth (status u) <? MAX_ANCESTOR_DEPTH) then Ok false
  else
    w ← weight_with_candidate builder u total;
    if negb (weight_add (status_unconfirmed_ancestor_weight (status u)) w
             <=? max_ancestor_package_weight (params builder))
    then Ok false
    else candidate_fits_fee_budget builder u total.

Definition pool_cmp (a b : UtxoCandidate) : comparison :=
  then_with (amount b ?= amount a) (utxo_id_cmp (utxo_id a) (utxo_id b)).

(** The funding loop: [(inputs, input_total)] after the pool. *)
Fixpoint fund (max_inputs total : Z) (pool : list UtxoCandidate)
    (chosen : list UtxoCandidate) (acc : Z) : list UtxoCandidate * Z :=
  match pool with
  | [] => (chosen, acc)
  | u :: pool =>
      if max_inputs <=? Z.of_nat (length chosen) then (chosen, acc)
      else if total <=? acc then (chosen, acc)
      else fund max_inputs total pool (chosen ++ [u]) (wadd acc (amount u))
  end.

(** Step 3: how many extra inputs the fee environment allows. *)
Definition max_consolidation (builder : TransactionBuilder) : Z :=
  let p := params builder in
  let room := sat_sub (max_inputs p) (Z.of_nat (length (inputs builder))) in
  let wanted := wmul (Z.of_nat (length (outputs builder))) (input_budget p) in
  if fee_rate builder <? long_term_fee_rate p then Z.min room wanted
  else if fee_rate builder <? high_fee_rate_threshold p then Z.min room (wanted / 2)
  else 0.

Definition urgent (u : UtxoCandidate) : bool :=
  match confirmation_age_blocks u with
  | Some age => RECOVERY_PRIORITY_AGE_BLOCKS <? age
  | None => false
  end.

(** [Option<u32>]'s derived order. *)
Definition option_cmp (a b : option Z) : comparison :=
  match a, b with
  | None, None => Eq
  | None, Some _ => Lt
  | Some _, None => Gt
  | Some x, Some y => x ?= y
  end.

Definition consolidation_cmp (a b : UtxoCandidate) : comparison :=
  match urgent a, urgent b with
  | true, true =>
      then_with (option_cmp (confirmation_age_blocks b) (confirmation_age_blocks a))
        (then_with (amount a ?= amount b) (utxo_id_cmp (utxo_id a) (utxo_id b)))
  | true, false => Lt
  | false, true => Gt
  | false, false => then_with (amount a ?= amount b) (utxo_id_cmp (utxo_id a) (utxo_id b))
  end.

Definition remaining_candidates (builder : TransactionBuilder) (pool : list UtxoCandidate)
    : list UtxoCandidate :=
  sort_by (leb_of consolidation_cmp)
    (List.filter
       (fun u => negb (is_pending u)
                 && negb (existsb (fun s => bool_decide (utxo_id s = utxo_id u)) (inputs builder)))
       pool).

Fixpoint consolidate (builder : TransactionBuilder) (remaining : list UtxoCandidate)
    : M TransactionBuilder :=
  match remaining with
  | [] => Ok builder
  | u :: remaining =>
      if max_inputs (params builder) <=? Z.of_nat (length (inputs builder)) then Ok builder
      else
        pushed ← compute_raw_change (with_inputs builder (inputs builder ++ [u]));
        fees_ok ← succeeds (check_fees pushed);
        over ← (if (fees_ok : bool) then exceeds_any_weight_limit pushed else Ok true);
        if (over : bool)
        then compute_raw_change (with_inputs pushed (inputs builder))
        else consolidate pushed remaining
  end.

Definition select_coins (utxos : list UtxoCandidate) (requests : list WithdrawalRequest)
    (params : CoinSelectionParams) (rate : Z) : M CoinSelectionResult :=
  match utxos, requests with
  | [], _ => Err EmptyPool
  | _, [] => Err NoRequests
  | _, _ =>
    if max_withdrawal_requests params =? 0 then Err NoRequests else
    let fee_rate := Z.max rate (min_fee_rate params) in
    (* Step 1 *)
    let builder :=
      mkTransactionBuilder fee_rate params [] (select_requests requests params) None None in
    let total := total_requested builder in
    (* Step 2 *)
    eligible_pool ← filter_outcome (eligible builder total) utxos;
    let pool := sort_by (leb_of pool_cmp) eligible_pool in
    let '(chosen, funded) := fund (max_inputs params) total pool [] 0 in
    let builder := with_inputs builder chosen in
    if funded <? total then
      Err (InsufficientFunds (usum (amount <$> pool)) funded total
             (Z.of_nat (length chosen)) (max_inputs params))
    else
    builder ← compute_raw_change builder;
    _ ← check_fees builder;
    _ ← check_weight builder;
    (* Step 3 *)
    let extra := max_consolidation builder in
    builder ← (if (0 <? extra) && (0 <? default 0 (raw_change builder))
               then consolidate builder
                      (take (Z.to_nat extra) (remaining_candidates builder pool))
               else Ok builder);
    (* Step 4 *)
    builder ← compute_raw_change builder;
    '(miner_fee, builder) ← finalize_fees builder;
    Ok {| res_inputs := inputs builder;
          withdrawal_outputs :=
            (fun o => mkWithdrawalOutput (request_id (request o)) (recipient (request o))
                        (net_amount o)) <$> outputs builder;
          change := final_change builder;
          fee := miner_fee;
          selected_requests := request <$> outputs builder |}
  end.
End model.
