(* ===== verification/CoinSelectionProofs.v ===== *)
(** * Coin selection: invariants of the builder

    Lemmas about the builder operations of [CoinSelection]: the exact value of the
    weight and fee functions when nothing overflows, what the funding and
    consolidation loops keep, and the decomposition of a successful selection into
    its stages.  The properties themselves are in [CoinSelectionTheorems]. *)

From S2P Require Import Prelude CoinSelection.

#[local] Abbreviation M := (outcome CoinSelectionError).

(** ** Orders *)

Ltac cmp_cases :=
  repeat match goal with
  | |- context [?a ?= ?b] => destruct (Z.compare_spec a b); cbn in *
  | H : context [?a ?= ?b] |- _ => destruct (Z.compare_spec a b); cbn in *
  end; try lia; try done; try congruence.

Lemma request_le_total a b :
  leb_of request_cmp a b = true \/ leb_of request_cmp b a = true.
Proof. unfold leb_of, request_cmp. cmp_cases; auto. Qed.

Lemma request_le_spec a b :
  leb_of request_cmp a b = true <-> timestamp_ms a <= timestamp_ms b.
Proof. unfold leb_of, request_cmp. cmp_cases; split; done || lia. Qed.

Lemma request_le_trans a b c :
  leb_of request_cmp a b = true -> leb_of request_cmp b c = true ->
  leb_of request_cmp a c = true.
Proof. rewrite !request_le_spec. lia. Qed.

(** The pool order: larger amounts first, then the smaller id. *)
Definition id_le (a b : UtxoId) : Prop :=
  txid a < txid b \/ (txid a = txid b /\ vout a <= vout b).

Lemma utxo_id_cmp_le a b : leb_of utxo_id_cmp a b = true <-> id_le a b.
Proof. unfold leb_of, utxo_id_cmp, id_le, then_with. cmp_cases; split; intros; done || lia. Qed.

Lemma utxo_id_cmp_eq a b : utxo_id_cmp a b = Eq <-> a = b.
Proof.
  destruct a as [ta va], b as [tb vb]. unfold utxo_id_cmp, then_with. cbn.
  cmp_cases; split; intros E; try done; try congruence; injection E; lia.
Qed.

Definition pool_le (a b : UtxoCandidate) : Prop :=
  amount b < amount a \/ (amount a = amount b /\ id_le (utxo_id a) (utxo_id b)).

Lemma pool_le_spec a b : leb_of pool_cmp a b = true <-> pool_le a b.
Proof.
  unfold leb_of, pool_cmp, pool_le.
  destruct (Z.compare_spec (amount b) (amount a)); cbn; [|split; done || lia..].
  fold (leb_of utxo_id_cmp (utxo_id a) (utxo_id b)). rewrite utxo_id_cmp_le. intuition lia.
Qed.

Lemma pool_le_total a b : leb_of pool_cmp a b = true \/ leb_of pool_cmp b a = true.
Proof. rewrite !pool_le_spec. unfold pool_le, id_le. lia. Qed.

Lemma pool_le_trans a b c :
  leb_of pool_cmp a b = true -> leb_of pool_cmp b c = true -> leb_of pool_cmp a c = true.
Proof. rewrite !pool_le_spec. unfold pool_le, id_le. lia. Qed.

Lemma pool_le_antisym a b :
  leb_of pool_cmp a b = true -> leb_of pool_cmp b a = true -> utxo_id a = utxo_id b.
Proof.
  rewrite !pool_le_spec. unfold pool_le, id_le.
  destruct a as [[ta va] ? ? ? ?], b as [[tb vb] ? ? ? ?]; cbn. intros. f_equal; lia.
Qed.

(** The consolidation order: urgent UTXOs oldest first, then the others smallest first. *)
Definition age_or_zero (u : UtxoCandidate) : Z := default 0 (confirmation_age_blocks u).

Lemma urgent_age u : urgent u = true -> confirmation_age_blocks u = Some (age_or_zero u).
Proof. unfold urgent, age_or_zero. by destruct (confirmation_age_blocks u). Qed.

Definition consolidation_le (a b : UtxoCandidate) : Prop :=
  let small := amount a < amount b
               \/ (amount a = amount b /\ id_le (utxo_id a) (utxo_id b)) in
  match urgent a, urgent b with
  | true, true => age_or_zero b < age_or_zero a \/ (age_or_zero a = age_or_zero b /\ small)
  | true, false => True
  | false, true => False
  | false, false => small
  end.

Lemma consolidation_le_spec a b :
  leb_of consolidation_cmp a b = true <-> consolidation_le a b.
Proof.
  unfold leb_of, consolidation_cmp, consolidation_le.
  destruct (urgent a) eqn:Ea, (urgent b) eqn:Eb; try done.
  - rewrite (urgent_age a Ea), (urgent_age b Eb). cbn.
    destruct (Z.compare_spec (age_or_zero b) (age_or_zero a)); cbn; try (split; done || lia).
    destruct (Z.compare_spec (amount a) (amount b)); cbn; try (split; done || lia).
    fold (leb_of utxo_id_cmp (utxo_id a) (utxo_id b)). rewrite utxo_id_cmp_le. intuition lia.
  - destruct (Z.compare_spec (amount a) (amount b)); cbn; try (split; done || lia).
    fold (leb_of utxo_id_cmp (utxo_id a) (utxo_id b)). rewrite utxo_id_cmp_le. intuition lia.
Qed.

Lemma consolidation_le_total a b :
  leb_of consolidation_cmp a b = true \/ leb_of consolidation_cmp b a = true.
Proof.
  rewrite !consolidation_le_spec. unfold consolidation_le, id_le.
  destruct (urgent a), (urgent b); lia.
Qed.

Lemma consolidation_le_trans a b c :
  leb_of consolidation_cmp a b = true -> leb_of consolidation_cmp b c = true ->
  leb_of consolidation_cmp a c = true.
Proof.
  rewrite !consolidation_le_spec. unfold consolidation_le, id_le.
  destruct (urgent a), (urgent b), (urgent c); lia.
Qed.

(** ** Lists of outcomes *)

Lemma map_outcome_Ok {A B} (f : A -> M B) l ys :
  map_outcome f l = Ok ys <-> Forall2 (fun x y => f x = Ok y) l ys.
Proof.
  revert ys. induction l as [|x l IH]; cbn; intros ys.
  { split; [intros [= <-]; constructor|by inversion 1]. }
  rewrite bind_Ok. split.
  - intros (y & Hy & H). apply bind_Ok in H as (ys' & Hys & [= <-]).
    constructor; [done|]. by apply IH.
  - inversion 1 as [|? y ? ys' Hy Hys]; subst. exists y. split; [done|].
    apply IH in Hys as ->. done.
Qed.

Lemma filter_outcome_Ok {A} (f : A -> M bool) l k :
  filter_outcome f l = Ok k ->
  k = List.filter (fun x => match f x with Ok b => b | _ => false end) l
  /\ Forall (fun x => exists b, f x = Ok b) l.
Proof.
  revert k. induction l as [|x l IH]; cbn; intros k H.
  { injection H as <-. split; [done|constructor]. }
  inv_ok. apply IH in E0 as [-> Hl]. rewrite E. split; [|constructor; eauto].
  destruct v; done.
Qed.

Lemma filter_outcome_total {A} (f : A -> M bool) l :
  Forall (fun x => exists b, f x = Ok b) l ->
  filter_outcome f l = Ok (List.filter (fun x => match f x with Ok b => b | _ => false end) l).
Proof.
  induction 1 as [|x l [b Hb] _ IH]; cbn; [done|]. rewrite Hb, IH. cbn. by destruct b.
Qed.

Lemma succeeds_Ok m b : succeeds m = Ok b <-> (b = true /\ m = Ok tt) \/ (b = false /\ exists e, m = Err e).
Proof.
  destruct m as [[]|e|]; cbn; split.
  all: intros H; try (injection H as <-); try discriminate; eauto;
    destruct H as [[-> H]|[-> [e' H]]]; done.
Qed.

(** ** Builder operations *)

Section builder.
Context `{BU : BitcoinUnits}.

Implicit Type b : TransactionBuilder.

(** What holds of the builder after the base checks, and after every accepted
    consolidation input. *)
Record good (b : TransactionBuilder) : Prop := {
  good_funded : total_requested b <= input_total b;
  good_change : raw_change b = Some (wsub (input_total b) (total_requested b));
  good_fees : check_fees b = Ok tt;
  good_weight : exceeds_any_weight_limit b = Ok false;
}.

Lemma compute_raw_change_Ok b b' :
  compute_raw_change b = Ok b' ->
  total_requested b <= input_total b
  /\ b' = with_raw_change b (wsub (input_total b) (total_requested b)).
Proof.
  unfold compute_raw_change. intros H. inv_ok. apply Z.leb_le in E. done.
Qed.

Lemma check_weight_not_over b :
  check_weight b = Ok tt -> exceeds_any_weight_limit b = Ok false.
Proof.
  unfold check_weight, exceeds_any_weight_limit, exceeds_max_weight,
    exceeds_max_ancestor_package_weight, unconfirmed_ancestor_weight.
  intros H. apply bind_Ok in H as (w & Hw & H). rewrite Hw. cbn.
  destruct (max_tx_weight (params b) <? w); [done|].
  destruct (_ <? weight_add w _); done.
Qed.

Lemma compute_raw_change_id b :
  total_requested b <= input_total b ->
  raw_change b = Some (wsub (input_total b) (total_requested b)) ->
  compute_raw_change b = Ok b.
Proof.
  intros Hle Hraw. unfold compute_raw_change.
  rewrite (proj2 (Z.leb_le _ _) Hle). cbn. f_equal.
  destruct b as [fr p i o rc fc]; cbn in *. unfold with_raw_change. cbn. by rewrite Hraw.
Qed.

(** Popping the last input restores the builder. *)
Lemma undo_push b b' u :
  good b -> compute_raw_change (with_inputs b (inputs b ++ [u])) = Ok b' ->
  compute_raw_change (with_inputs b' (inputs b)) = Ok b.
Proof.
  intros [Hle Hraw _ _] E. apply compute_raw_change_Ok in E as [_ ->].
  unfold compute_raw_change, with_inputs, with_raw_change, input_total, total_requested in *.
  destruct b as [fr p i o rc fc]; cbn in *.
  rewrite (proj2 (Z.leb_le _ _) Hle). cbn. by rewrite Hraw.
Qed.

Lemma consolidate_spec rem : forall b b',
  good b -> consolidate b rem = Ok b' ->
  exists extra, inputs b' = inputs b ++ extra /\ extra `prefix_of` rem
    /\ (Z.of_nat (length (inputs b)) <= max_inputs (params b) ->
        Z.of_nat (length (inputs b')) <= max_inputs (params b))
    /\ params b' = params b /\ outputs b' = outputs b /\ fee_rate b' = fee_rate b
    /\ good b'.
Proof.
  induction rem as [|u rem IH]; cbn; intros b b' Hg H.
  { injection H as <-. exists []. rewrite app_nil_r. split_and!; try done. }
  destruct (Z.leb_spec (max_inputs (params b)) (Z.of_nat (length (inputs b)))) as [|Hroom].
  { injection H as <-. exists []. rewrite app_nil_r. split_and!; try done.
    apply prefix_nil. }
  apply bind_Ok in H as (p & Hp & H). apply bind_Ok in H as (ok & Hok & H).
  apply bind_Ok in H as (over & Hover & H). destruct over.
  { rewrite (undo_push _ _ _ Hg Hp) in H. injection H as <-.
    exists []. rewrite app_nil_r. split_and!; try done. apply prefix_nil. }
  destruct ok; [|discriminate].
  apply succeeds_Ok in Hok as [[_ Hok]|[? _]]; [|done].
  pose proof (compute_raw_change_Ok _ _ Hp) as [Hle Hpe].
  assert (good p) as Hgp.
  { subst p. split; cbn; try done. }
  destruct (IH _ _ Hgp H) as (extra & Hi & Hpre & Hlen & Hpar & Hout & Hfr & Hg').
  subst p. cbn in *. exists (u :: extra). split_and!; try done.
  - rewrite Hi, <- app_assoc. done.
  - by apply prefix_cons.
  - intros Hb. apply Hlen. rewrite length_app. cbn. lia.
Qed.

(** ** The funding loop *)

Lemma fund_spec m total pool : forall chosen acc chosen' acc',
  fund m total pool chosen acc = (chosen', acc') ->
  exists k, chosen' = chosen ++ take k pool
    /\ (k <= length pool)%nat
    /\ acc' = fold_left wadd (amount <$> take k pool) acc
    /\ (Z.of_nat (length chosen) <= m -> Z.of_nat (length chosen') <= m)
    /\ (total <= acc' \/ k = length pool \/ m <= Z.of_nat (length chosen'))
    /\ (forall j, (j < k)%nat -> fold_left wadd (amount <$> take j pool) acc < total).
Proof.
  induction pool as [|u pool IH]; cbn; intros chosen acc chosen' acc' H.
  { injection H as <- <-. exists 0%nat. rewrite app_nil_r. cbn.
    split_and!; auto; lia. }
  destruct (Z.leb_spec m (Z.of_nat (length chosen))) as [Hm|Hm];
    [|destruct (Z.leb_spec total acc) as [Ht|Ht]].
  1,2: injection H as <- <-; exists 0%nat; rewrite app_nil_r; cbn;
       split_and!; auto; lia.
  destruct (IH _ _ _ _ H) as (k & -> & Hk & -> & Hlen & Hstop & Hmin).
  rewrite <- app_assoc in *. cbn in Hlen, Hstop.
  exists (S k). cbn. split_and!; try done; try lia.
  - intros _. apply Hlen. rewrite length_app. cbn. lia.
  - intros [|j] Hj; cbn; [done|]. apply Hmin. lia.
Qed.

(** ** Exact weights

    The weight of a transaction by Bitcoin's formula, with no rounding or overflow. *)

Definition input_weight_exact (u : UtxoCandidate) : Z :=
  TXIN_BASE_WEIGHT + satisfaction_weight (spend_path u).
Definition output_weight_exact (r : WithdrawalRequest) : Z :=
  TXOUT_BASE_WEIGHT + 4 * (if (length (recipient r) =? 20)%nat then 22 else 34).

Definition tx_weight_exact (ins : list UtxoCandidate) (reqs : list WithdrawalRequest)
    (change_len : Z) (has : bool) : Z :=
  34 + varint_weight (Z.of_nat (length ins))
  + varint_weight (Z.of_nat (length reqs) + (if has then 1 else 0))
  + zsum (input_weight_exact <$> ins) + zsum (output_weight_exact <$> reqs)
  + (if has then 4 * (9 + change_len) else 0).

Definition chains (ins : list UtxoCandidate) : list AncestorTx := concat (chain_of <$> ins).

(** An upper bound on every weight that a selection from these UTXOs and requests
    can meet: all inputs, all outputs, change and all ancestors at once. *)
Definition weight_budget (ins : list UtxoCandidate) (reqs : list WithdrawalRequest)
    (change_len : Z) : Z :=
  34 + 36 + 36 + zsum (input_weight_exact <$> ins) + zsum (output_weight_exact <$> reqs)
  + 4 * (9 + change_len) + zsum (tx_weight <$> chains ins).

Record weights_fit (ins : list UtxoCandidate) (reqs : list WithdrawalRequest)
    (change_len : Z) : Prop := {
  fit_sat : Forall (fun u => 0 <= satisfaction_weight (spend_path u)) ins;
  fit_anc : Forall (fun a => 0 <= tx_weight a) (chains ins);
  fit_change : 0 <= change_len;
  fit_budget : weight_budget ins reqs change_len <= u64_max;
}.

Lemma varint_weight_bounds n : 4 <= varint_weight n <= 36.
Proof. unfold varint_weight. repeat case_match; lia. Qed.

Lemma output_weight_exact_bounds r : 124 <= output_weight_exact r <= 172.
Proof. unfold output_weight_exact, TXOUT_BASE_WEIGHT. case_match; lia. Qed.

Lemma zsum_outputs_nonneg reqs : 0 <= zsum (output_weight_exact <$> reqs).
Proof.
  apply zsum_nonneg, Forall_fmap, Forall_forall. intros r _. cbn.
  pose proof (output_weight_exact_bounds r). lia.
Qed.

Lemma input_weights_nonneg ins :
  Forall (fun u => 0 <= satisfaction_weight (spend_path u)) ins ->
  Forall (fun x => 0 <= x) (input_weight_exact <$> ins).
Proof.
  intros H. apply Forall_fmap. eapply Forall_impl; [exact H|].
  intros u Hu. cbn in *. unfold input_weight_exact, TXIN_BASE_WEIGHT. lia.
Qed.

Lemma chains_app l k : chains (l ++ k) = chains l ++ chains k.
Proof. unfold chains. by rewrite fmap_app, concat_app. Qed.

#[export] Instance chains_perm : Proper ((≡ₚ) ==> (≡ₚ)) chains.
Proof.
  intros l k H. unfold chains. induction H; cbn; try done.
  - by rewrite IHPermutation.
  - rewrite !app_assoc. by rewrite (Permutation_app_comm (chain_of y)).
  - by etrans.
Qed.

Lemma chains_submseteq l k : l ⊆+ k -> chains l ⊆+ chains k.
Proof.
  intros H. apply submseteq_Permutation in H as [r ->]. rewrite chains_app.
  by apply submseteq_inserts_r.
Qed.

(** Fewer inputs and fewer outputs still fit. *)
Lemma weights_fit_sub ins reqs L ins' reqs' :
  weights_fit ins reqs L -> ins' ⊆+ ins -> reqs' ⊆+ reqs ->
  weights_fit ins' reqs' L /\ weight_budget ins' reqs' L <= weight_budget ins reqs L.
Proof.
  intros [Hs Ha Hc Hb] Hi Hr.
  assert (weight_budget ins' reqs' L <= weight_budget ins reqs L) as Hle.
  { unfold weight_budget.
    pose proof (zsum_submseteq _ _ (input_weights_nonneg _ Hs) (fmap_submseteq' _ _ _ Hi)).
    assert (Forall (fun x => 0 <= x) (output_weight_exact <$> reqs)) as Ho.
    { apply Forall_fmap, Forall_forall. intros r _. cbn.
      pose proof (output_weight_exact_bounds r). lia. }
    pose proof (zsum_submseteq _ _ Ho (fmap_submseteq' _ _ _ Hr)).
    assert (Forall (fun x => 0 <= x) (tx_weight <$> chains ins)) as Hw by by apply Forall_fmap.
    pose proof (zsum_submseteq _ _ Hw (fmap_submseteq' tx_weight _ _ (chains_submseteq _ _ Hi))).
    lia. }
  split; [|done]. split; try done; [by eapply Forall_submseteq| |lia].
  eapply Forall_submseteq; [done|]. by apply chains_submseteq.
Qed.

(** ** Unconfirmed ancestors, counted once *)

Lemma dedup_sublist seen l : dedup_ancestors seen l `sublist_of` l.
Proof.
  revert seen. induction l as [|a l IH]; intros seen; cbn; [done|].
  case_match; [by apply sublist_skip|by apply sublist_cons].
Qed.

Lemma dedup_spec seen l :
  NoDup (anc_id <$> dedup_ancestors seen l)
  /\ (forall a, a ∈ dedup_ancestors seen l -> confirmations a = 0 /\ anc_id a ∉ seen)
  /\ (forall a, a ∈ l -> confirmations a = 0 ->
      anc_id a ∈ seen \/ anc_id a ∈ (anc_id <$> dedup_ancestors seen l)).
Proof.
  revert seen. induction l as [|a l IH]; intros seen; cbn.
  { split_and!; [constructor| |]; intros a Ha; by apply not_elem_of_nil in Ha. }
  unfold in_mempool. destruct (Z.eqb_spec (confirmations a) 0) as [Hc|Hc]; cbn;
    [case_bool_decide as Hin; cbn|].
  2: { destruct (IH (anc_id a :: seen)) as (Hnd & Hk & Hall). split_and!.
       - constructor; [|done]. intros (x & Hx & Hxin)%list_elem_of_fmap.
         apply Hk in Hxin as [_ Hn]. apply Hn. rewrite Hx. left.
       - intros x [->|Hx]%elem_of_cons; [done|]. apply Hk in Hx as [? Hn].
         split; [done|]. intros ?. apply Hn. by right.
       - intros x [->|Hx]%elem_of_cons Hx0; [right; left|].
         destruct (Hall x Hx Hx0) as [[->|?]%elem_of_cons|?]; auto; right; [left|by right]. }
  all: destruct (IH seen) as (Hnd & Hk & Hall); split_and!; [done|done|].
  all: intros x [->|Hx]%elem_of_cons Hx0; auto; done.
Qed.

Lemma unconfirmed_submseteq b : unconfirmed_ancestors b ⊆+ chains (inputs b).
Proof. apply sublist_submseteq, dedup_sublist. Qed.
End builder.

(** ** Values when nothing overflows *)

Section exact.
Context `{BU : BitcoinUnits} `{BL : !BitcoinUnitsLaws}.

Implicit Type b : TransactionBuilder.

Lemma weight_sum_exact l :
  Forall (fun x => 0 <= x) l -> zsum l <= u64_max -> weight_sum l = zsum l.
Proof.
  intros. unfold weight_sum. rewrite fold_exact; try (done || lia). apply weight_add_exact.
Qed.

Lemma input_weight_Ok u :
  0 <= satisfaction_weight (spend_path u) -> input_weight_exact u <= u64_max ->
  input_weight (spend_path u) = Ok (input_weight_exact u).
Proof.
  unfold input_weight, input_weight_exact, TXIN_BASE_WEIGHT. intros.
  by rewrite weight_checked_add_exact by lia.
Qed.

Lemma zsum_elem_le l x : Forall (fun x => 0 <= x) l -> x ∈ l -> x <= zsum l.
Proof.
  intros Hl Hx. pose proof (zsum_submseteq [x] l Hl) as Hle.
  cbn in Hle. rewrite Z.add_0_r in Hle. apply Hle. by apply singleton_submseteq_l.
Qed.

Lemma input_weights_Ok ins :
  Forall (fun u => 0 <= satisfaction_weight (spend_path u)) ins ->
  zsum (input_weight_exact <$> ins) <= u64_max ->
  map_outcome (fun u => input_weight (spend_path u)) ins = Ok (input_weight_exact <$> ins).
Proof.
  intros Hs Hsum. apply map_outcome_Ok, Forall2_fmap_r, Forall_Forall2_diag, Forall_forall.
  intros u Hu. cbn. apply input_weight_Ok; [by eapply Forall_forall in Hs|].
  etrans; [|exact Hsum]. apply zsum_elem_le; [by apply input_weights_nonneg|].
  by apply list_elem_of_fmap_2.
Qed.

Lemma output_weight_Ok r : output_weight_for_recipient r = output_weight_exact r.
Proof.
  unfold output_weight_for_recipient, output_weight_exact, TXOUT_BASE_WEIGHT.
  case_match; rewrite weight_add_exact; u64_lia.
Qed.

Lemma output_weights_Ok (outs : list PendingOutput) :
  zsum (output_weight_exact <$> (request <$> outs)) <= u64_max ->
  weight_sum ((fun o => output_weight_for_recipient (request o)) <$> outs)
  = zsum (output_weight_exact <$> (request <$> outs)).
Proof.
  intros Hle. rewrite <- list_fmap_compose in *.
  replace ((fun o => output_weight_for_recipient (request o)) <$> outs)
    with (output_weight_exact ∘ request <$> outs).
  2: { apply list_fmap_ext. intros _ o _. cbn. by rewrite output_weight_Ok. }
  apply weight_sum_exact; [|done]. apply Forall_fmap, Forall_forall. intros o _. cbn.
  pose proof (output_weight_exact_bounds (request o)). lia.
Qed.

Lemma chains_nonneg ins : Forall (fun a => 0 <= tx_weight a) (chains ins) ->
  0 <= zsum (tx_weight <$> chains ins).
Proof. intros H. by apply zsum_nonneg, Forall_fmap. Qed.

(** [weight_for] with a known input weight. *)
Lemma weight_for_exact b n iw has :
  0 <= iw -> 0 <= change_script_len b ->
  34 + 36 + 36 + iw + zsum (output_weight_exact <$> (request <$> outputs b))
    + 4 * (9 + change_script_len b) <= u64_max ->
  weight_for b n iw has =
  34 + varint_weight n
  + varint_weight (Z.of_nat (length (outputs b)) + (if has then 1 else 0))
  + iw + zsum (output_weight_exact <$> (request <$> outputs b))
  + (if has then 4 * (9 + change_script_len b) else 0).
Proof.
  intros Hiw Hcl Hle.
  pose proof (zsum_outputs_nonneg (request <$> outputs b)) as Ho.
  unfold weight_for. rewrite output_weights_Ok by lia.
  pose proof (varint_weight_bounds n) as Hv1.
  set (v1 := varint_weight n) in *. clearbody v1.
  pose proof (varint_weight_bounds (Z.of_nat (length (outputs b)) + (if has then 1 else 0))) as Hv2.
  set (v2 := varint_weight (_ + _)) in *. clearbody v2.
  assert ((if has then output_weight_for_script (change_script_len b) else 0)
          = if has then 4 * (9 + change_script_len b) else 0) as ->.
  { destruct has; [|done]. unfold output_weight_for_script.
    rewrite wadd_small by u64_lia. rewrite wmul_small by u64_lia. lia. }
  set (os := zsum _) in *. clearbody os.
  assert (0 <= (if has then 4 * (9 + change_script_len b) else 0)
          <= 4 * (9 + change_script_len b)) as Hch by (destruct has; lia).
  set (ch := if has then _ else _) in *. clearbody ch.
  rewrite (weight_add_exact (32 + 2) v1), (weight_add_exact _ v2), (weight_add_exact _ iw),
    (weight_add_exact _ os), (weight_add_exact _ ch) by lia. lia.
Qed.

Lemma weight_exact b :
  weights_fit (inputs b) (request <$> outputs b) (change_script_len b) ->
  weight b = Ok (tx_weight_exact (inputs b) (request <$> outputs b) (change_script_len b)
                   (has_change b)).
Proof.
  intros [Hs Ha Hc Hb]. unfold weight_budget in Hb.
  pose proof (chains_nonneg _ Ha). pose proof (zsum_outputs_nonneg (request <$> outputs b)).
  pose proof (zsum_nonneg _ (input_weights_nonneg _ Hs)).
  unfold weight. rewrite input_weights_Ok by (done || lia). cbn.
  rewrite weight_sum_exact by (try apply input_weights_nonneg; done || lia).
  rewrite weight_for_exact by lia. unfold tx_weight_exact. by rewrite length_fmap.
Qed.

Lemma tx_weight_exact_le ins reqs L has :
  weights_fit ins reqs L ->
  0 <= tx_weight_exact ins reqs L has
  /\ tx_weight_exact ins reqs L has + zsum (tx_weight <$> chains ins)
     <= weight_budget ins reqs L.
Proof.
  intros [Hs Ha Hc Hb]. unfold tx_weight_exact, weight_budget.
  pose proof (zsum_outputs_nonneg reqs).
  pose proof (zsum_nonneg _ (input_weights_nonneg _ Hs)).
  pose proof (varint_weight_bounds (Z.of_nat (length ins))).
  pose proof (varint_weight_bounds (Z.of_nat (length reqs) + (if has then 1 else 0))).
  destruct has; lia.
Qed.

Definition ancestor_weight_exact b : Z := zsum (tx_weight <$> unconfirmed_ancestors b).
Definition ancestor_fee_exact b : Z := zsum (tx_fee <$> unconfirmed_ancestors b).

Lemma ancestor_weight_bounds b :
  Forall (fun a => 0 <= tx_weight a) (chains (inputs b)) ->
  0 <= ancestor_weight_exact b <= zsum (tx_weight <$> chains (inputs b)).
Proof.
  intros Ha. unfold ancestor_weight_exact.
  pose proof (unconfirmed_submseteq b) as Hsub. split.
  - apply zsum_nonneg, Forall_fmap. by eapply Forall_submseteq.
  - apply zsum_submseteq; [by apply Forall_fmap|]. by apply fmap_submseteq'.
Qed.

Lemma unconfirmed_ancestor_weight_Ok b :
  Forall (fun a => 0 <= tx_weight a) (chains (inputs b)) ->
  zsum (tx_weight <$> chains (inputs b)) <= u64_max ->
  weight_sum (tx_weight <$> unconfirmed_ancestors b) = ancestor_weight_exact b.
Proof.
  intros Ha Hle. pose proof (ancestor_weight_bounds b Ha). apply weight_sum_exact.
  - apply Forall_fmap. eapply Forall_submseteq; [exact Ha|]. apply unconfirmed_submseteq.
  - unfold ancestor_weight_exact in *. lia.
Qed.

(** The weight limits, in exact weights. *)
Lemma within_limits b :
  weights_fit (inputs b) (request <$> outputs b) (change_script_len b) ->
  exceeds_any_weight_limit b = Ok false ->
  let w := tx_weight_exact (inputs b) (request <$> outputs b) (change_script_len b)
             (has_change b) in
  w <= max_tx_weight (params b)
  /\ w + ancestor_weight_exact b <= max_ancestor_package_weight (params b).
Proof.
  intros Hfit H. pose proof Hfit as [Hs Ha Hc Hb].
  destruct (tx_weight_exact_le _ _ _ (has_change b) Hfit) as [Hw0 Hwb].
  pose proof (ancestor_weight_bounds b Ha).
  unfold exceeds_any_weight_limit, exceeds_max_weight, exceeds_max_ancestor_package_weight,
    unconfirmed_ancestor_weight in H.
  rewrite weight_exact in H by done. cbn in H.
  rewrite unconfirmed_ancestor_weight_Ok in H by (done || lia).
  set (w := tx_weight_exact _ _ _ _) in *.
  destruct (Z.ltb_spec (max_tx_weight (params b)) w); [done|].
  rewrite weight_add_exact in H by lia.
  match type of H with Ok (?x <? ?y) = _ => destruct (Z.ltb_spec x y) end; done.
Qed.
End exact.

(** ** Fees *)

Section fees.
Context `{BU : BitcoinUnits}.

Implicit Type b : TransactionBuilder.

Lemma check_outputs_Ok d outs :
  check_outputs d outs = Ok tt ->
  Forall (fun o => wadd d (dust_threshold o) <= request_amount (request o)) outs.
Proof.
  induction outs as [|o outs IH]; cbn; [constructor|].
  destruct (Z.ltb_spec (request_amount (request o)) (wadd d (dust_threshold o))); [done|].
  constructor; auto.
Qed.

(** A passed fee check, in terms of the required fee. *)
Lemma check_fees_Ok b :
  outputs b <> [] -> check_fees b = Ok tt ->
  exists required, required_fee b = Ok required
    /\ let d := div_ceil required (Z.of_nat (length (outputs b))) in
       d <= max_fee_per_request (params b)
       /\ Forall (fun o => wadd d (dust_threshold o) <= request_amount (request o)) (outputs b).
Proof.
  intros Hne H. unfold check_fees in H.
  destruct (Z.eqb_spec (Z.of_nat (length (outputs b))) 0) as [E|_].
  { destruct (outputs b); [done|]. cbn in E. lia. }
  inv_ok. eexists. unfold required_fee. rewrite E. cbn. rewrite E0. cbn. rewrite E1. cbn.
  split; [done|]. match type of H with (if ?c then _ else _) = _ => destruct c eqn:Ec end; [done|].
  apply Z.ltb_ge in Ec. split; [done|]. by apply check_outputs_Ok.
Qed.

Definition set_nets (d : Z) (outs : list PendingOutput) : list PendingOutput :=
  (fun o => mkPendingOutput (request o) (wsub (request_amount (request o)) d)) <$> outs.

Lemma request_set_nets d outs : request <$> set_nets d outs = request <$> outs.
Proof. unfold set_nets. rewrite <- list_fmap_compose. by apply list_fmap_ext. Qed.

(** The required fee looks at the requests only, so assigning the net amounts
    does not move it. *)
Lemma required_fee_nets b d final :
  required_fee (mkTransactionBuilder (fee_rate b) (params b) (inputs b) (set_nets d (outputs b))
                  (raw_change b) final) = required_fee b.
Proof.
  unfold required_fee, weight, has_change, weight_for, cpfp_deficit, unconfirmed_ancestors,
    change_script_len. cbn.
  assert (length (set_nets d (outputs b)) = length (outputs b)) as ->
    by (unfold set_nets; apply length_fmap).
  assert ((fun o => output_weight_for_recipient (request o)) <$> set_nets d (outputs b)
          = (fun o => output_weight_for_recipient (request o)) <$> outputs b) as ->.
  { unfold set_nets. rewrite <- list_fmap_compose. by apply list_fmap_ext. }
  done.
Qed.

Lemma net_sum d outs :
  zsum ((fun o => request_amount (request o) - d) <$> outs)
  = zsum ((fun o => request_amount (request o)) <$> outs) - Z.of_nat (length outs) * d.
Proof.
  induction outs as [|o outs IH]; [cbn; lia|].
  rewrite !fmap_cons, !zsum_cons, IH. cbn [length]. lia.
Qed.

Lemma dust_threshold_bounds o : 294 <= dust_threshold o <= 330.
Proof.
  unfold dust_threshold, WPKH_DUST_RELAY_MIN_VALUE, TR_DUST_RELAY_MIN_VALUE.
  case_match; lia.
Qed.

Lemma required_fee_range b f : required_fee b = Ok f -> is_u64 f.
Proof. unfold required_fee. intros H. inv_ok. subst f. apply wrap64_range. Qed.

Record amounts_fit (ins : list UtxoCandidate) (reqs : list WithdrawalRequest)
    (p : CoinSelectionParams) : Prop := {
  fit_inputs : Forall (fun u => 0 <= amount u) ins;
  fit_input_sum : zsum (amount <$> ins) <= u64_max;
  fit_requests : Forall (fun r => 0 <= request_amount r) reqs;
  fit_request_sum : zsum (request_amount <$> reqs) <= u64_max;
  fit_cap : max_fee_per_request p + TR_DUST_RELAY_MIN_VALUE <= u64_max;
}.

Lemma amounts_fit_sub ins reqs p ins' reqs' :
  amounts_fit ins reqs p -> ins' ⊆+ ins -> reqs' ⊆+ reqs -> amounts_fit ins' reqs' p.
Proof.
  intros [Hi His Hr Hrs Hcap] Hsi Hsr. split; try done.
  - by eapply Forall_submseteq.
  - etrans; [|exact His]. apply zsum_submseteq; [by apply Forall_fmap|by apply fmap_submseteq'].
  - by eapply Forall_submseteq.
  - etrans; [|exact Hrs]. apply zsum_submseteq; [by apply Forall_fmap|by apply fmap_submseteq'].
Qed.

Lemma input_total_exact b reqs p :
  amounts_fit (inputs b) reqs p -> input_total b = zsum (amount <$> inputs b).
Proof. intros [Hi His _ _ _]. apply usum_small; [by apply Forall_fmap|done]. Qed.

Lemma total_requested_exact b ins p :
  amounts_fit ins (request <$> outputs b) p ->
  total_requested b = zsum (request_amount <$> (request <$> outputs b)).
Proof.
  intros [_ _ Hr Hrs _]. unfold total_requested.
  rewrite <- (Forall_fmap request_amount (fun x => 0 <= x)) in Hr.
  rewrite <- list_fmap_compose in *. by apply usum_small.
Qed.

(** A request absorbs a deduction [d] if something above dust is left. *)
Definition absorbs (d : Z) (o : PendingOutput) : Prop :=
  d + dust_threshold o <= request_amount (request o)
  /\ 0 <= request_amount (request o) <= u64_max.

Lemma all_absorb b d :
  amounts_fit (inputs b) (request <$> outputs b) (params b) ->
  0 <= d <= max_fee_per_request (params b) ->
  Forall (fun o => wadd d (dust_threshold o) <= request_amount (request o)) (outputs b) ->
  Forall (absorbs d) (outputs b).
Proof.
  intros [_ _ Hr Hrs Hcap] Hd Houts. apply Forall_forall. intros o Ho.
  rewrite Forall_forall in Houts. specialize (Houts o Ho). cbn in Houts.
  pose proof (dust_threshold_bounds o). unfold TR_DUST_RELAY_MIN_VALUE in Hcap.
  rewrite wadd_small in Houts by u64_lia. split; [done|]. split; [lia|].
  etrans; [|exact Hrs]. apply zsum_elem_le; [by apply Forall_fmap|].
  by apply list_elem_of_fmap_2, list_elem_of_fmap_2.
Qed.

Lemma nets_exact d outs :
  0 <= d -> Forall (absorbs d) outs ->
  net_amount <$> set_nets d outs = (fun o => request_amount (request o) - d) <$> outs.
Proof.
  intros Hd Habs. unfold set_nets. rewrite <- list_fmap_compose. apply list_fmap_ext.
  intros i o Ho%list_elem_of_lookup_2. cbn. rewrite Forall_forall in Habs.
  destruct (Habs o Ho). pose proof (dust_threshold_bounds o). apply wsub_small. u64_lia.
Qed.

(** The net amounts add up to the requests minus one deduction each. *)
Lemma nets_total d outs :
  let tr := zsum (request_amount <$> (request <$> outs)) in
  let n := Z.of_nat (length outs) in
  0 <= d -> Forall (absorbs d) outs -> tr <= u64_max ->
  usum (net_amount <$> set_nets d outs) = tr - n * d /\ 0 <= n * d <= tr.
Proof.
  cbn zeta. intros Hd Habs Htr. rewrite nets_exact by done.
  rewrite <- list_fmap_compose in *. unfold compose in *.
  assert (Forall (fun x => 0 <= x) ((fun o => request_amount (request o) - d) <$> outs)) as Hpos.
  { apply Forall_fmap. eapply Forall_impl; [exact Habs|]. intros o [? _]. cbn.
    pose proof (dust_threshold_bounds o). lia. }
  pose proof (zsum_nonneg _ Hpos). pose proof (net_sum d outs) as Hns.
  assert (0 <= Z.of_nat (length outs) * d) by nia.
  rewrite usum_small; [lia|done|lia].
Qed.

(** Everything [finalize_fees] establishes. *)
Record finalized (b : TransactionBuilder) (miner_fee : Z) (b' : TransactionBuilder) : Prop := {
  fin_inputs : inputs b' = inputs b;
  fin_requests : request <$> outputs b' = request <$> outputs b;
  fin_change : final_change b' =
    let raw := zsum (amount <$> inputs b) - zsum (request_amount <$> (request <$> outputs b)) in
    if 0 <? raw then Some raw else None;
  fin_dust : forall c, final_change b' = Some c -> change_dust_threshold b <= c;
  fin_deduction : exists required d, required_fee b = Ok required
    /\ d = div_ceil required (Z.of_nat (length (outputs b)))
    /\ 0 <= d <= max_fee_per_request (params b)
    /\ Forall (fun o => net_amount o = request_amount (request o) - d
                        /\ dust_threshold o <= net_amount o) (outputs b')
    /\ miner_fee = Z.of_nat (length (outputs b)) * d;
}.

(** The result of the pure part of [finalize_fees]. *)
Lemma finalized_intro b required d raw :
  amounts_fit (inputs b) (request <$> outputs b) (params b) ->
  raw = zsum (amount <$> inputs b) - zsum (request_amount <$> (request <$> outputs b)) ->
  0 <= raw -> (0 < raw -> change_dust_threshold b <= raw) ->
  required_fee b = Ok required -> d = div_ceil required (Z.of_nat (length (outputs b))) ->
  0 <= d <= max_fee_per_request (params b) -> Forall (absorbs d) (outputs b) ->
  let final := if 0 <? raw then Some raw else None in
  finalized b
    (wsub (wsub (input_total b) (usum (net_amount <$> set_nets d (outputs b)))) (default 0 final))
    (mkTransactionBuilder (fee_rate b) (params b) (inputs b) (set_nets d (outputs b))
       (raw_change b) final).
Proof.
  intros Hfit Hraw Hr0 Hdust Hreq Hd Hdr Habs final.
  pose proof (input_total_exact _ _ _ Hfit) as Hit.
  pose proof Hfit as [Hi His _ Hrs _].
  pose proof (zsum_nonneg _ (proj2 (Forall_fmap _ _ _) Hi)) as Hin0.
  destruct (nets_total d (outputs b)) as [Hout Hnd]; try done; [lia|].
  split; cbn.
  - done.
  - apply request_set_nets.
  - rewrite <- Hraw. done.
  - unfold final. intros c. destruct (Z.ltb_spec 0 raw); [|done]. intros [= <-]. auto.
  - exists required, d. split_and!; try done; try lia.
    + unfold set_nets. apply Forall_fmap. eapply Forall_impl; [exact Habs|].
      intros o [? ?]. cbn. pose proof (dust_threshold_bounds o).
      rewrite wsub_small by u64_lia. unfold dust_threshold in *. cbn. lia.
    + rewrite Hout, Hit. unfold final. rewrite (wsub_small (zsum _)) by u64_lia.
      destruct (Z.ltb_spec 0 raw); cbn; rewrite wsub_small; u64_lia.
Qed.

Lemma finalize_fees_spec b fee b' :
  good b -> outputs b <> [] -> amounts_fit (inputs b) (request <$> outputs b) (params b) ->
  finalize_fees b = Ok (fee, b') -> finalized b fee b'.
Proof.
  intros Hg Hne Hfit H. pose proof Hg as [Hle Hraw Hfees _].
  destruct (check_fees_Ok b Hne Hfees) as (required & Hreq & Hcap & Houts).
  pose proof (input_total_exact _ _ _ Hfit) as Hit.
  pose proof (total_requested_exact _ _ _ Hfit) as Htr.
  assert (is_u64 (input_total b) /\ is_u64 (total_requested b)) as [Hitr Htrr]
    by (split; apply usum_range).
  unfold finalize_fees in H. apply bind_Ok in H as (raw & Hr & H).
  rewrite Hraw in Hr. injection Hr as <-. rewrite wsub_small in H by u64_lia.
  match type of H with (if ?c then _ else _) = _ => destruct c eqn:Edust end; [done|].
  rewrite Hfees, Hreq in H. cbn -[Z.eqb] in H.
  apply bind_Ok in H as ([] & Hn & H).
  apply assert_Ok, negb_true_iff, Z.eqb_neq in Hn.
  set (d := div_ceil _ _) in *.
  apply bind_Ok in H as (required' & _ & H). apply bind_Ok in H as ([] & _ & H).
  injection H as <- <-.
  assert (0 <= d <= max_fee_per_request (params b)) as Hd.
  { split; [|done]. apply required_fee_range in Hreq. apply div_ceil_nonneg; u64_lia. }
  apply (finalized_intro b required d (input_total b - total_requested b)); try done; try lia.
  by apply all_absorb.
Qed.
End fees.

(** ** The stages of a successful selection *)

Section stages.
Context `{BU : BitcoinUnits}.

Definition initial_builder (requests : list WithdrawalRequest) (p : CoinSelectionParams)
    (rate : Z) : TransactionBuilder :=
  mkTransactionBuilder (Z.max rate (min_fee_rate p)) p [] (select_requests requests p) None None.

(** The requested total, as the algorithm sums it. *)
Definition requested (requests : list WithdrawalRequest) (p : CoinSelectionParams) : Z :=
  usum ((fun o => request_amount (request o)) <$> select_requests requests p).

(** The outcome of the eligibility filter. *)
Definition eligible_utxos (utxos : list UtxoCandidate) (requests : list WithdrawalRequest)
    (p : CoinSelectionParams) (rate : Z) : outcome CoinSelectionError (list UtxoCandidate) :=
  filter_outcome (eligible (initial_builder requests p rate) (requested requests p)) utxos.

(** The builder after funding: inputs chosen, raw change known. *)
Definition funded_builder (requests : list WithdrawalRequest) (p : CoinSelectionParams)
    (rate : Z) (chosen : list UtxoCandidate) : TransactionBuilder :=
  let b := with_inputs (initial_builder requests p rate) chosen in
  with_raw_change b (wsub (input_total b) (total_requested b)).

Record stages (utxos : list UtxoCandidate) (requests : list WithdrawalRequest)
    (p : CoinSelectionParams) (rate : Z) (r : CoinSelectionResult)
    (pool extra : list UtxoCandidate) (k : nat) (b b' : TransactionBuilder) : Prop := {
  st_requests : requests <> [];
  st_max_requests : max_withdrawal_requests p <> 0;
  st_pool : exists el, eligible_utxos utxos requests p rate = Ok el
                       /\ pool = sort_by (leb_of pool_cmp) el;
  st_k : (k <= length pool)%nat;
  st_funded : requested requests p <= usum (amount <$> take k pool);
  st_minimal : forall j, (j < k)%nat -> usum (amount <$> take j pool) < requested requests p;
  st_inputs : inputs b = take k pool ++ extra;
  st_max_inputs : 0 <= max_inputs p -> Z.of_nat (length (inputs b)) <= max_inputs p;
  st_extra : extra = []
    \/ (0 < usum (amount <$> take k pool) - requested requests p
        /\ extra `prefix_of`
           take (Z.to_nat (max_consolidation (funded_builder requests p rate (take k pool))))
             (remaining_candidates (funded_builder requests p rate (take k pool)) pool));
  st_params : params b = p;
  st_outputs : outputs b = select_requests requests p;
  st_rate : fee_rate b = Z.max rate (min_fee_rate p);
  st_good : good b;
  st_final : finalize_fees b = Ok (fee r, b');
  st_result : r = mkCoinSelectionResult (inputs b')
    ((fun o => mkWithdrawalOutput (request_id (request o)) (recipient (request o)) (net_amount o))
       <$> outputs b')
    (final_change b') (fee r) (request <$> outputs b');
}.

Lemma good_raw b : good b -> default 0 (raw_change b) = input_total b - total_requested b.
Proof.
  intros [Hle -> _ _]. cbn. apply wsub_small.
  assert (is_u64 (input_total b) /\ is_u64 (total_requested b)) as [? ?]
    by (split; apply usum_range). u64_lia.
Qed.

Lemma consolidation_stage b1 pool b2 :
  good b1 ->
  (if (0 <? max_consolidation b1) && (0 <? default 0 (raw_change b1))
   then consolidate b1 (take (Z.to_nat (max_consolidation b1)) (remaining_candidates b1 pool))
   else Ok b1) = Ok b2 ->
  exists extra, inputs b2 = inputs b1 ++ extra
    /\ (Z.of_nat (length (inputs b1)) <= max_inputs (params b1) ->
        Z.of_nat (length (inputs b2)) <= max_inputs (params b1))
    /\ (extra = []
        \/ (0 < input_total b1 - total_requested b1
            /\ extra `prefix_of`
               take (Z.to_nat (max_consolidation b1)) (remaining_candidates b1 pool)))
    /\ params b2 = params b1 /\ outputs b2 = outputs b1 /\ fee_rate b2 = fee_rate b1
    /\ good b2.
Proof.
  intros Hg H. match type of H with (if ?c then _ else _) = _ => destruct c eqn:Ec end.
  - apply andb_true_iff in Ec as [_ Ec]. rewrite good_raw in Ec by done. apply Z.ltb_lt in Ec.
    apply consolidate_spec in H as (extra & ? & ? & ? & ? & ? & ? & ?); [|done].
    exists extra. split_and!; auto.
  - injection H as <-. exists []. rewrite app_nil_r. split_and!; auto.
Qed.

Lemma select_coins_stages utxos requests p rate r :
  select_coins utxos requests p rate = Ok r ->
  exists pool extra k b b', stages utxos requests p rate r pool extra k b b'.
Proof.
  intros H. unfold select_coins in H. destruct utxos as [|u0 us]; [done|].
  destruct requests as [|r0 rs]; [done|]. set (utxos := u0 :: us) in *.
  set (requests := r0 :: rs) in *.
  destruct (Z.eqb_spec (max_withdrawal_requests p) 0) as [|Hmax]; [done|].
  apply bind_Ok in H as (el & Hel & H).
  set (pool := sort_by _ el) in *.
  destruct (fund _ _ pool [] 0) as [chosen funded] eqn:Hfund.
  apply fund_spec in Hfund as (k & -> & Hk & -> & Hlen & _ & Hmin). rewrite app_nil_l in *.
  change (fold_left wadd (amount <$> take k pool) 0) with (usum (amount <$> take k pool)) in *.
  match type of H with (if ?x <? ?y then _ else _) = _ => destruct (Z.ltb_spec x y) as [|Hge] end;
    [done|].
  apply bind_Ok in H as (b1 & Hb1 & H). apply compute_raw_change_Ok in Hb1 as [Hle Hb1].
  change (b1 = funded_builder requests p rate (take k pool)) in Hb1.
  apply bind_Ok in H as ([] & Hfees & H). apply bind_Ok in H as ([] & Hw & H).
  assert (good b1) as Hg1.
  { subst b1. split; try done. by apply check_weight_not_over. }
  apply bind_Ok in H as (b2 & Hb2 & H). apply bind_Ok in H as (b3 & Hb3 & H).
  apply consolidation_stage in Hb2 as (extra & Hi & Hl & Hex & Hp & Ho & Hr & Hg); [|done].
  rewrite compute_raw_change_id in Hb3 by apply Hg. injection Hb3 as <-.
  apply bind_Ok in H as ([mf b'] & Hfin & [= <-]). subst b1.
  exists pool, extra, k, b2, b'. split; try done; [by exists el|auto].
Qed.
End stages.

Arguments st_requests {BU utxos requests p rate r pool extra k b b'} _.
Arguments st_max_requests {BU utxos requests p rate r pool extra k b b'} _.
Arguments st_pool {BU utxos requests p rate r pool extra k b b'} _.
Arguments st_k {BU utxos requests p rate r pool extra k b b'} _.
Arguments st_funded {BU utxos requests p rate r pool extra k b b'} _.
Arguments st_minimal {BU utxos requests p rate r pool extra k b b'} _.
Arguments st_inputs {BU utxos requests p rate r pool extra k b b'} _.
Arguments st_max_inputs {BU utxos requests p rate r pool extra k b b'} _.
Arguments st_extra {BU utxos requests p rate r pool extra k b b'} _.
Arguments st_params {BU utxos requests p rate r pool extra k b b'} _.
Arguments st_outputs {BU utxos requests p rate r pool extra k b b'} _.
Arguments st_rate {BU utxos requests p rate r pool extra k b b'} _.
Arguments st_good {BU utxos requests p rate r pool extra k b b'} _.
Arguments st_final {BU utxos requests p rate r pool extra k b b'} _.
Arguments st_result {BU utxos requests p rate r pool extra k b b'} _.
Arguments fin_inputs {BU b miner_fee b'} _.
Arguments fin_requests {BU b miner_fee b'} _.
Arguments fin_change {BU b miner_fee b'} _.
Arguments fin_dust {BU b miner_fee b'} _.
Arguments fin_deduction {BU b miner_fee b'} _.
