(* ===== verification/CoinSelectionTheorems.v ===== *)
(** * Coin selection: the properties of [select_coins]

    Conservation of value, the fee split and its caps, the weight and package
    limits, the CPFP package fee rate, the choice of requests and inputs, the
    completeness of the [InsufficientFunds] verdict, independence of the order of
    the pool, and the absence of panics. *)

From S2P Require Import Prelude CoinSelection CoinSelectionProofs.

(** ** The inputs come from the pool *)

(** Enter a successful selection. *)
Ltac enter_selection H :=
  let pool := fresh "pool" in let extra := fresh "extra" in let k := fresh "k" in
  let b := fresh "b" in let b' := fresh "b'" in let Hst := fresh "Hst" in
  apply select_coins_stages in H as (pool & extra & k & b & b' & Hst).

Section select.
Context `{BU : BitcoinUnits}.

Lemma remaining_from_rest b pool k :
  inputs b = take k pool -> remaining_candidates b pool ⊆+ drop k pool.
Proof.
  intros Hi. unfold remaining_candidates. rewrite sort_by_perm.
  rewrite <- (take_drop k pool) at 1. rewrite List.filter_app, bool_filter_none.
  - apply sublist_submseteq, filter_sublist.
  - intros u Hu. rewrite Hi. apply andb_false_iff. right. apply negb_false_iff, existsb_exists.
    exists u. split; [by apply list_elem_of_In|]. by apply bool_decide_eq_true_2.
Qed.

Lemma remaining_confirmed b pool u :
  u ∈ remaining_candidates b pool -> status u = Confirmed.
Proof.
  unfold remaining_candidates. rewrite elem_of_sort_by, elem_of_bool_filter.
  intros [_ [Hp _]%andb_true_iff]. unfold is_pending in Hp. by destruct (status u).
Qed.

Lemma eligible_subset utxos requests p rate el :
  eligible_utxos utxos requests p rate = Ok el -> el ⊆+ utxos.
Proof.
  intros [-> _]%filter_outcome_Ok. apply sublist_submseteq, filter_sublist.
Qed.

Section of_stages.
Context {utxos : list UtxoCandidate} {requests : list WithdrawalRequest}
        {p : CoinSelectionParams} {rate : Z} {r : CoinSelectionResult}
        {pool extra : list UtxoCandidate} {k : nat} {b b' : TransactionBuilder}.
Hypothesis Hst : stages utxos requests p rate r pool extra k b b'.

Lemma stages_pool_subset : pool ⊆+ utxos.
Proof.
  destruct (st_pool Hst) as (el & Hel & ->).
  rewrite sort_by_perm. by eapply eligible_subset.
Qed.

Lemma stages_extra_subset : extra ⊆+ drop k pool.
Proof.
  destruct (st_extra Hst) as [->|[_ Hpre]].
  { apply submseteq_nil_l. }
  etrans; [by apply prefix_submseteq|]. etrans; [|by apply (remaining_from_rest
    (funded_builder requests p rate (take k pool)) pool k)].
  apply sublist_submseteq, sublist_take.
Qed.

Lemma stages_inputs_subset_pool : inputs b ⊆+ pool.
Proof.
  rewrite (st_inputs Hst). rewrite <- (take_drop k pool) at 2.
  apply submseteq_app; [done|apply stages_extra_subset].
Qed.

Lemma stages_inputs_subset : inputs b ⊆+ utxos.
Proof. etrans; [apply stages_inputs_subset_pool|apply stages_pool_subset]. Qed.

Lemma stages_requests :
  request <$> outputs b
  = take (Z.to_nat (max_withdrawal_requests p)) (sort_by (leb_of request_cmp) requests).
Proof.
  rewrite (st_outputs Hst). unfold select_requests.
  rewrite <- list_fmap_compose. apply list_fmap_id.
Qed.

Lemma stages_requests_subset : request <$> outputs b ⊆+ requests.
Proof.
  rewrite stages_requests. etrans; [apply sublist_submseteq, sublist_take|].
  by rewrite sort_by_perm.
Qed.

Hypothesis Hfit : amounts_fit utxos requests p.
Hypothesis Hmax : 0 <= max_withdrawal_requests p.

Lemma stages_outputs_nonempty : outputs b <> [].
Proof.
  intros Hnil. pose proof stages_requests as Hr. rewrite Hnil in Hr.
  apply (f_equal length) in Hr. rewrite length_take, length_sort_by in Hr. cbn in Hr.
  pose proof (st_max_requests Hst).
  destruct requests as [|r0 rs] eqn:E; [by apply (st_requests Hst)|].
  cbn in Hr. lia.
Qed.

Lemma stages_amounts_fit : amounts_fit (inputs b) (request <$> outputs b) (params b).
Proof.
  rewrite (st_params Hst).
  eapply amounts_fit_sub; [done|apply stages_inputs_subset|apply stages_requests_subset].
Qed.

Lemma stages_finalized : finalized b (fee r) b'.
Proof.
  apply finalize_fees_spec.
  - apply (st_good Hst).
  - apply stages_outputs_nonempty.
  - apply stages_amounts_fit.
  - apply (st_final Hst).
Qed.

Lemma stages_result_inputs : res_inputs r = inputs b.
Proof.
  rewrite (st_result Hst). cbn. apply (fin_inputs stages_finalized).
Qed.

Lemma stages_result_requests : selected_requests r = request <$> outputs b.
Proof.
  rewrite (st_result Hst). cbn. apply (fin_requests stages_finalized).
Qed.

Lemma stages_result_change : change r = final_change b'.
Proof. by rewrite (st_result Hst). Qed.

Lemma stages_result_outputs :
  withdrawal_outputs r
  = (fun o => mkWithdrawalOutput (request_id (request o)) (recipient (request o)) (net_amount o))
      <$> outputs b'.
Proof. by rewrite (st_result Hst). Qed.
End of_stages.

(** ** Value *)

(** The sums of a selection. *)
Lemma selection_value utxos requests p rate r :
  amounts_fit utxos requests p -> 0 <= max_withdrawal_requests p ->
  select_coins utxos requests p rate = Ok r ->
  zsum (amount <$> res_inputs r)
    = zsum (out_amount <$> withdrawal_outputs r) + default 0 (change r) + fee r
  /\ zsum (amount <$> res_inputs r) - default 0 (change r)
     = zsum (request_amount <$> selected_requests r).
Proof.
  intros Hfit Hmax H. enter_selection H.
  pose proof (stages_finalized Hst Hfit Hmax) as Hfin.
  rewrite (stages_result_inputs Hst Hfit Hmax), (stages_result_requests Hst Hfit Hmax),
    (stages_result_outputs Hst), (stages_result_change Hst).
  destruct (fin_deduction Hfin) as (req & d & _ & _ & _ & Hnets & Hfee).
  assert (zsum (amount <$> inputs b) - default 0 (final_change b')
          = zsum (request_amount <$> (request <$> outputs b))) as Hrel.
  { rewrite (fin_change Hfin). pose proof (good_funded _ (st_good Hst)) as Hg.
    pose proof (stages_amounts_fit Hst Hfit) as Hf.
    rewrite (input_total_exact _ _ _ Hf), (total_requested_exact _ _ _ Hf) in Hg.
    cbn. match goal with |- context [0 <? ?x] => destruct (Z.ltb_spec 0 x) end; cbn; lia. }
  split; [|done].
  assert (zsum (out_amount <$> ((fun o => mkWithdrawalOutput (request_id (request o))
             (recipient (request o)) (net_amount o)) <$> outputs b'))
          = zsum (request_amount <$> (request <$> outputs b)) - fee r) as ->; [|lia].
  rewrite <- (fin_requests Hfin), Hfee.
  assert (length (outputs b) = length (outputs b')) as ->.
  { by rewrite <- (length_fmap request (outputs b)), <- (fin_requests Hfin), length_fmap. }
  rewrite <- !list_fmap_compose. etrans; [|exact (net_sum d (outputs b'))]. f_equal. apply Forall_fmap_ext. eapply Forall_impl; [exact Hnets|].
  intros o [Hn _]. exact Hn.
Qed.


Definition recipient_dust (q : WithdrawalRequest) : Z :=
  dust_threshold (mkPendingOutput q 0).

(** The fee split.  Every selected request pays the same deduction [d], at most
    the per-request cap; each output carries its request's id and recipient, its
    amount is the request amount minus [d] and is above the dust threshold of its
    address; the miner fee is one [d] per request; and a change output, if there is
    one, is above the dust threshold of the change address. *)
Theorem fee_split_fair utxos requests p rate r :
  amounts_fit utxos requests p -> 0 <= max_withdrawal_requests p ->
  select_coins utxos requests p rate = Ok r ->
  exists d, 0 <= d <= max_fee_per_request p
    /\ fee r = Z.of_nat (length (selected_requests r)) * d
    /\ Forall2 (fun q o => out_request_id o = request_id q /\ out_recipient o = recipient q
                           /\ out_amount o = request_amount q - d
                           /\ recipient_dust q <= out_amount o)
               (selected_requests r) (withdrawal_outputs r)
    /\ (forall c, change r = Some c ->
          0 < c /\ dust_threshold_for_change (script_pubkey_len (change_address p)) <= c).
Proof.
  intros Hfit Hmax H. enter_selection H.
  pose proof (stages_finalized Hst Hfit Hmax) as Hfin.
  destruct (fin_deduction Hfin) as (req & d & _ & _ & Hd & Hnets & Hfee).
  rewrite (st_params Hst) in Hd.
  exists d. split; [done|]. split; [|split].
  - by rewrite (stages_result_requests Hst Hfit Hmax), length_fmap.
  - rewrite (stages_result_requests Hst Hfit Hmax), (stages_result_outputs Hst),
      <- (fin_requests Hfin).
    apply Forall2_fmap, Forall_Forall2_diag. eapply Forall_impl; [exact Hnets|].
    intros o [Hn Hdust]. cbn. unfold recipient_dust, dust_threshold in *. cbn. done.
  - intros c Hc. rewrite (stages_result_change Hst) in Hc. split.
    + rewrite (fin_change Hfin) in Hc. cbn in Hc.
      match type of Hc with context [0 <? ?x] => destruct (Z.ltb_spec 0 x) end; [|done].
      by injection Hc as <-.
    + pose proof (fin_dust Hfin c Hc) as Hdust.
      unfold change_dust_threshold, change_script_len in Hdust.
      by rewrite (st_params Hst) in Hdust.
Qed.

(** ** Requests *)

(** Requests are served oldest first.  The selected requests are as many as the
    batch limit allows; every request left out is at least as recent as every
    selected one; and requests with the same timestamp keep their order. *)
Theorem oldest_requests_first utxos requests p rate r :
  amounts_fit utxos requests p -> 0 <= max_withdrawal_requests p ->
  select_coins utxos requests p rate = Ok r ->
  exists rest, requests ≡ₚ selected_requests r ++ rest
    /\ length (selected_requests r)
       = Nat.min (Z.to_nat (max_withdrawal_requests p)) (length requests)
    /\ Forall (fun q => Forall (fun q' => timestamp_ms q <= timestamp_ms q') rest)
              (selected_requests r)
    /\ forall t, List.filter (fun q => timestamp_ms q =? t) (selected_requests r ++ rest)
                = List.filter (fun q => timestamp_ms q =? t) requests.
Proof.
  intros Hfit Hmax H. enter_selection H.
  rewrite (stages_result_requests Hst Hfit Hmax), (stages_requests Hst).
  set (n := Z.to_nat (max_withdrawal_requests p)).
  set (sorted := sort_by (leb_of request_cmp) requests).
  exists (drop n sorted). rewrite take_drop. split_and!.
  - unfold sorted. by rewrite sort_by_perm.
  - unfold sorted. by rewrite length_take, length_sort_by.
  - pose proof (sort_by_sorted (leb_of request_cmp) request_le_total request_le_trans requests)
      as Hs. fold sorted in Hs. rewrite <- (take_drop n sorted) in Hs.
    apply Forall_forall. intros q Hq. apply Forall_forall. intros q' Hq'.
    apply request_le_spec. by apply (StronglySorted_app_1_elem_of (le_of (leb_of request_cmp))
      (take n sorted) (drop n sorted)).
  - intros t. pose proof (sort_by_stable (leb_of request_cmp) request_le_trans
      (mkWithdrawalRequest 0 [] 0 t) requests) as Hst'. fold sorted in Hst'.
    erewrite filter_ext, Hst', filter_ext; [done| |].
    all: intros q; unfold same_key, leb_of, request_cmp; cbn;
      rewrite (Z.compare_antisym t); destruct (Z.compare_spec t (timestamp_ms q)); cbn;
      destruct (Z.eqb_spec (timestamp_ms q) t); try done; lia.
Qed.

(** ** Inputs *)

(** An eligible candidate passes the depth limits. *)
Lemma eligible_depth b total u :
  eligible b total u = Ok true ->
  mempool_chain_depth (status u) <= max_mempool_chain_depth (params b)
  /\ mempool_chain_depth (status u) < MAX_ANCESTOR_DEPTH.
Proof.
  unfold eligible. intros H.
  destruct (Z.leb_spec (mempool_chain_depth (status u)) (max_mempool_chain_depth (params b)));
    [|done].
  destruct (Z.ltb_spec (mempool_chain_depth (status u)) MAX_ANCESTOR_DEPTH); [|done]. done.
Qed.

Lemma stages_pool_eligible utxos requests p rate r pool extra k b b' u :
  stages utxos requests p rate r pool extra k b b' -> u ∈ pool ->
  eligible (initial_builder requests p rate) (requested requests p) u = Ok true.
Proof.
  intros Hst Hu. destruct (st_pool Hst) as (el & [-> Hall]%filter_outcome_Ok & ->).
  rewrite elem_of_sort_by, elem_of_bool_filter in Hu. destruct Hu as [Hin Hok].
  rewrite Forall_forall in Hall. destruct (Hall u Hin) as [v Hv]. rewrite Hv in *. by subst v.
Qed.

(** The inputs of a selection. *)
Lemma selection_inputs utxos requests p rate r :
  amounts_fit utxos requests p -> 0 <= max_withdrawal_requests p -> 0 <= max_inputs p ->
  select_coins utxos requests p rate = Ok r ->
  res_inputs r ⊆+ utxos
  /\ (NoDup (utxo_id <$> utxos) -> NoDup (utxo_id <$> res_inputs r))
  /\ Z.of_nat (length (res_inputs r)) <= max_inputs p
  /\ Forall (fun u => mempool_chain_depth (status u) <= max_mempool_chain_depth p
                      /\ mempool_chain_depth (status u) < MAX_ANCESTOR_DEPTH) (res_inputs r).
Proof.
  intros Hfit Hmax Hmi H. enter_selection H. rewrite (stages_result_inputs Hst Hfit Hmax).
  pose proof (stages_inputs_subset Hst) as Hsub. split_and!.
  - done.
  - intros Hnd. eapply NoDup_submseteq_l; [exact Hnd|]. by apply fmap_submseteq'.
  - by apply (st_max_inputs Hst).
  - apply Forall_forall. intros u Hu.
    apply (eligible_depth (initial_builder requests p rate) (requested requests p) u).
    eapply stages_pool_eligible; [exact Hst|].
    eapply elem_of_submseteq; [exact Hu|]. apply (stages_inputs_subset_pool Hst).
Qed.

(** The inputs are spendable UTXOs of the pool, each used once.  They form a
    sub-multiset of the candidates, with distinct ids when the candidates have
    distinct ids; there are at most [max_inputs] of them; and none has more mempool
    ancestors than the configured depth or Bitcoin's ancestor limit allow. *)
Theorem inputs_from_pool utxos requests p rate r :
  amounts_fit utxos requests p -> 0 <= max_withdrawal_requests p -> 0 <= max_inputs p ->
  select_coins utxos requests p rate = Ok r ->
  res_inputs r ⊆+ utxos
  /\ (NoDup (utxo_id <$> utxos) -> NoDup (utxo_id <$> res_inputs r))
  /\ Z.of_nat (length (res_inputs r)) <= max_inputs p
  /\ Forall (fun u => mempool_chain_depth (status u) <= max_mempool_chain_depth p
                      /\ mempool_chain_depth (status u) < MAX_ANCESTOR_DEPTH) (res_inputs r).
Proof. apply selection_inputs. Qed.

(** Prefixes of the funding inputs sum without wrap-around. *)
Lemma prefix_sum_exact l reqs p j :
  amounts_fit l reqs p -> usum (amount <$> take j l) = zsum (amount <$> take j l).
Proof.
  intros Hfit. assert (amounts_fit (take j l) reqs p) as [Hi His _ _ _].
  { eapply amounts_fit_sub; [done|apply sublist_submseteq, sublist_take|done]. }
  apply usum_small; [by apply Forall_fmap|done].
Qed.

Section funding.
Context {utxos : list UtxoCandidate} {requests : list WithdrawalRequest}
        {p : CoinSelectionParams} {rate : Z} {r : CoinSelectionResult}
        {pool extra : list UtxoCandidate} {k : nat} {b b' : TransactionBuilder}.
Hypothesis Hst : stages utxos requests p rate r pool extra k b b'.
Hypothesis Hfit : amounts_fit utxos requests p.

Lemma stages_requested : requested requests p = zsum (request_amount <$> (request <$> outputs b)).
Proof.
  rewrite <- (total_requested_exact _ _ _ (stages_amounts_fit Hst Hfit)).
  unfold total_requested, requested. by rewrite (st_outputs Hst).
Qed.

Lemma stages_prefix_sum j : usum (amount <$> take j pool) = zsum (amount <$> take j pool).
Proof.
  eapply prefix_sum_exact, amounts_fit_sub; [exact Hfit|apply (stages_pool_subset Hst)|].
  apply (stages_requests_subset Hst).
Qed.

Lemma stages_pool_sorted : StronglySorted (fun u v => amount v <= amount u) pool.
Proof.
  destruct (st_pool Hst) as (el & _ & ->).
  eapply StronglySorted_weaken; [|apply (sort_by_sorted _ pool_le_total pool_le_trans)].
  intros u v Hle%pool_le_spec. unfold pool_le in Hle. lia.
Qed.

Lemma stages_extra_confirmed : Forall (fun u => status u = Confirmed) extra.
Proof.
  destruct (st_extra Hst) as [->|[_ Hpre]]; [constructor|].
  eapply Forall_submseteq; [|by apply prefix_submseteq]. apply Forall_take, Forall_forall.
  intros u. apply remaining_confirmed.
Qed.

(** The consolidation allowance, spelled out. *)
Lemma stages_extra_budget :
  0 <= input_budget p ->
  Z.of_nat (length (outputs b)) * input_budget p <= u64_max ->
  let R := Z.max rate (min_fee_rate p) in
  let wanted := Z.of_nat (length (outputs b)) * input_budget p in
  Z.of_nat (length extra) <= (if R <? long_term_fee_rate p then wanted
                              else if R <? high_fee_rate_threshold p then wanted / 2 else 0).
Proof.
  intros Hb0 Hbn R wanted.
  assert (0 <= wanted / 2) by (apply Z.div_pos; lia).
  destruct (st_extra Hst) as [->|[_ [rest Hpre]]].
  { cbn. repeat case_match; lia. }
  apply (f_equal length) in Hpre. rewrite length_take, length_app in Hpre.
  set (m := max_consolidation _) in Hpre. assert (Z.of_nat (length extra) <= Z.max 0 m) by lia.
  assert (m = max_consolidation (funded_builder requests p rate (take k pool))) as Hm by done.
  clearbody m. unfold max_consolidation in Hm. cbn in Hm. rewrite <- (st_outputs Hst) in Hm.
  rewrite wmul_small in Hm by u64_lia. fold R wanted in Hm. unfold sat_sub in Hm.
  repeat case_match; lia.
Qed.
End funding.

(** Funding is minimal and consolidation follows the fee policy.  The inputs are
    a funding part, the largest eligible UTXOs, none of which can be dropped from
    the end, followed by extra inputs.  Extra inputs are all confirmed, are taken
    only when there is change, number at most [input_budget] per request below the
    long-term fee rate and half of that up to the high threshold, and there are
    none from the high threshold on. *)
Theorem funding_and_consolidation utxos requests p rate r :
  amounts_fit utxos requests p -> 0 <= max_withdrawal_requests p ->
  0 <= input_budget p -> Z.of_nat (length requests) * input_budget p <= u64_max ->
  select_coins utxos requests p rate = Ok r ->
  let R := Z.max rate (min_fee_rate p) in
  let wanted := Z.of_nat (length (selected_requests r)) * input_budget p in
  let total := zsum (request_amount <$> selected_requests r) in
  exists funding extra, res_inputs r = funding ++ extra
    /\ total <= zsum (amount <$> funding)
    /\ (forall j, (j < length funding)%nat -> zsum (amount <$> take j funding) < total)
    /\ StronglySorted (fun u v => amount v <= amount u) funding
    /\ Forall (fun u => status u = Confirmed) extra
    /\ (extra <> [] -> total < zsum (amount <$> funding))
    /\ Z.of_nat (length extra) <= (if R <? long_term_fee_rate p then wanted
                                   else if R <? high_fee_rate_threshold p then wanted / 2 else 0).
Proof.
  intros Hfit Hmax Hb0 Hbn H. cbn zeta. enter_selection H.
  rewrite (stages_result_requests Hst Hfit Hmax), (stages_result_inputs Hst Hfit Hmax).
  rewrite <- (stages_requested Hst Hfit), length_fmap.
  exists (take k pool), extra. rewrite <- (stages_prefix_sum Hst Hfit k). split_and!.
  - apply (st_inputs Hst).
  - apply (st_funded Hst).
  - intros j Hj. rewrite length_take in Hj. rewrite take_take, Nat.min_l by lia.
    rewrite <- (stages_prefix_sum Hst Hfit j). apply (st_minimal Hst). lia.
  - pose proof (stages_pool_sorted Hst) as Hs. rewrite <- (take_drop k pool) in Hs.
    by apply StronglySorted_app_1_l in Hs.
  - apply (stages_extra_confirmed Hst).
  - intros Hne. destruct (st_extra Hst) as [|[? _]]; [done|lia].
  - apply (stages_extra_budget Hst Hb0).
    pose proof (submseteq_length _ _ (stages_requests_subset Hst)) as Hl.
    rewrite length_fmap in Hl. nia.
Qed.
End select.

(** ** Weight limits and the package fee rate *)

Section laws.
Context `{BU : BitcoinUnits} `{BL : !BitcoinUnitsLaws}.

(** The distinct ancestors of the inputs that are still in the mempool. *)
Definition mempool_ancestors (ins : list UtxoCandidate) : list AncestorTx :=
  dedup_ancestors [] (chains ins).

Definition change_len (p : CoinSelectionParams) : Z := script_pubkey_len (change_address p).

(** The exact weight of the transaction a selection describes. *)
Definition result_weight (p : CoinSelectionParams) (r : CoinSelectionResult) : Z :=
  tx_weight_exact (res_inputs r) (selected_requests r) (change_len p)
    (bool_decide (is_Some (change r))).

Lemma fee_for_weight_Ok rate w f :
  0 <= rate -> 0 <= w -> fee_for_weight rate w = Ok f -> rate * w <= 1000 * f < rate * w + 1000.
Proof. unfold fee_for_weight. intros ? ? Hf%expect_Ok. by apply fee_wu_rounds_up. Qed.

Section of_stages_exact.
Context {utxos : list UtxoCandidate} {requests : list WithdrawalRequest}
        {p : CoinSelectionParams} {rate : Z} {r : CoinSelectionResult}
        {pool extra : list UtxoCandidate} {k : nat} {b b' : TransactionBuilder}.
Hypothesis Hst : stages utxos requests p rate r pool extra k b b'.
Hypothesis Hfit : amounts_fit utxos requests p.
Hypothesis Hmax : 0 <= max_withdrawal_requests p.
Hypothesis Hw : weights_fit utxos requests (change_len p).

Lemma stages_weights_fit :
  weights_fit (inputs b) (request <$> outputs b) (change_script_len b)
  /\ weight_budget (inputs b) (request <$> outputs b) (change_script_len b)
     <= weight_budget utxos requests (change_len p).
Proof.
  unfold change_script_len. rewrite (st_params Hst).
  eapply weights_fit_sub; [exact Hw|apply (stages_inputs_subset Hst)|].
  apply (stages_requests_subset Hst).
Qed.

Lemma stages_has_change : has_change b = bool_decide (is_Some (change r)).
Proof.
  pose proof (st_good Hst) as Hg. pose proof (good_raw _ Hg) as Hraw.
  rewrite (stages_result_change Hst), (fin_change (stages_finalized Hst Hfit Hmax)).
  pose proof (stages_amounts_fit Hst Hfit) as Hf.
  rewrite (input_total_exact _ _ _ Hf), (total_requested_exact _ _ _ Hf) in Hraw.
  unfold has_change. rewrite (good_change _ Hg) in *. cbn in Hraw.
  rewrite Hraw. cbn zeta. destruct (0 <? _); [by rewrite bool_decide_true by eauto|].
  rewrite bool_decide_false; [done|]. by intros [? ?].
Qed.

Lemma stages_weight :
  tx_weight_exact (inputs b) (request <$> outputs b) (change_script_len b) (has_change b)
  = result_weight p r.
Proof.
  unfold result_weight, change_len, change_script_len.
  by rewrite (st_params Hst), stages_has_change, (stages_result_inputs Hst Hfit Hmax),
    (stages_result_requests Hst Hfit Hmax).
Qed.

Lemma stages_ancestors : unconfirmed_ancestors b = mempool_ancestors (res_inputs r).
Proof. by rewrite (stages_result_inputs Hst Hfit Hmax). Qed.
End of_stages_exact.

(** The weight of a selection. *)
Lemma selection_weight utxos requests p rate r :
  amounts_fit utxos requests p -> 0 <= max_withdrawal_requests p ->
  weights_fit utxos requests (change_len p) ->
  select_coins utxos requests p rate = Ok r ->
  let anc := mempool_ancestors (res_inputs r) in
  result_weight p r <= max_tx_weight p
  /\ result_weight p r + zsum (tx_weight <$> anc) <= max_ancestor_package_weight p
  /\ NoDup (anc_id <$> anc)
  /\ (forall u a, u ∈ res_inputs r -> a ∈ chain_of u -> confirmations a = 0 ->
        anc_id a ∈ (anc_id <$> anc)).
Proof.
  intros Hfit Hmax Hw H anc. enter_selection H.
  destruct (stages_weights_fit Hst Hw) as [Hwb _].
  destruct (within_limits b Hwb (good_weight _ (st_good Hst))) as [Hlim Hpkg].
  rewrite (stages_weight Hst Hfit Hmax), (st_params Hst) in Hlim, Hpkg.
  unfold ancestor_weight_exact in Hpkg. rewrite (stages_ancestors Hst Hfit Hmax) in Hpkg.
  destruct (dedup_spec [] (chains (res_inputs r))) as (Hnd & _ & Hall).
  split_and!; try done. intros u a Hu Ha Hc.
  destruct (Hall a) as [[]%elem_of_nil|?]; try done.
  apply list_elem_of_In, in_concat. exists (chain_of u).
  rewrite <- !list_elem_of_In. split; [by apply list_elem_of_fmap_2|done].
Qed.

(** The transaction fits the relay limits.  Its weight by Bitcoin's formula is at
    most the standardness limit, and together with its mempool ancestors, every
    ancestor counted exactly once whichever inputs share it, it stays within the
    ancestor package limit. *)
Theorem within_weight_limits utxos requests p rate r :
  amounts_fit utxos requests p -> 0 <= max_withdrawal_requests p ->
  weights_fit utxos requests (change_len p) ->
  select_coins utxos requests p rate = Ok r ->
  let anc := mempool_ancestors (res_inputs r) in
  result_weight p r <= max_tx_weight p
  /\ result_weight p r + zsum (tx_weight <$> anc) <= max_ancestor_package_weight p
  /\ NoDup (anc_id <$> anc)
  /\ (forall u a, u ∈ res_inputs r -> a ∈ chain_of u -> confirmations a = 0 ->
        anc_id a ∈ (anc_id <$> anc)).
Proof. apply selection_weight. Qed.

Lemma required_fee_exact b f :
  let w := tx_weight_exact (inputs b) (request <$> outputs b) (change_script_len b)
             (has_change b) in
  let R := fee_rate b in
  weights_fit (inputs b) (request <$> outputs b) (change_script_len b) ->
  0 <= R -> R * weight_budget (inputs b) (request <$> outputs b) (change_script_len b) + 2000
            <= u64_max ->
  Forall (fun a => 0 <= tx_fee a) (chains (inputs b)) ->
  zsum (tx_fee <$> chains (inputs b)) <= u64_max ->
  required_fee b = Ok f ->
  let short := R * ancestor_weight_exact b - 1000 * ancestor_fee_exact b in
  R * w + Z.max 0 short <= 1000 * f < R * w + 1000 + Z.max 0 (short + 1000).
Proof.
  intros w R Hfit HR Hbud Hf0 Hfs H short.
  pose proof Hfit as [Hs Ha Hc Hb].
  destruct (tx_weight_exact_le _ _ _ (has_change b) Hfit) as [Hw0 Hwb]. fold w in Hw0, Hwb.
  pose proof (ancestor_weight_bounds b Ha) as Haw.
  unfold required_fee in H. rewrite weight_exact in H by done. cbn in H. fold w R in H.
  apply bind_Ok in H as (own & Hown & H). apply bind_Ok in H as (def & Hdef & [= <-]).
  unfold cpfp_deficit in Hdef. apply bind_Ok in Hdef as (needed & Hneed & [= <-]).
  rewrite unconfirmed_ancestor_weight_Ok in Hneed by (done || lia). fold R in Hneed.
  apply fee_for_weight_Ok in Hown; [|done..]. apply fee_for_weight_Ok in Hneed; [|lia..].
  assert (Forall (fun a => 0 <= tx_fee a) (unconfirmed_ancestors b)) as Huf.
  { eapply Forall_submseteq; [exact Hf0|apply unconfirmed_submseteq]. }
  pose proof (zsum_nonneg _ (proj2 (Forall_fmap _ _ _) Huf)) as Haf0.
  assert (zsum (tx_fee <$> unconfirmed_ancestors b) <= u64_max) as Haf.
  { etrans; [|exact Hfs]. apply zsum_submseteq; [by apply Forall_fmap|].
    apply fmap_submseteq', unconfirmed_submseteq. }
  rewrite usum_small by (try apply Forall_fmap; done).
  fold (ancestor_fee_exact b) in Haf0, Haf |- *.
  assert (R * (w + ancestor_weight_exact b)
          <= R * weight_budget (inputs b) (request <$> outputs b) (change_script_len b)) by nia.
  unfold sat_sub. rewrite wadd_small; unfold short; unfold is_u64; lia.
Qed.

(** The fee of a selection, in thousandths of a satoshi. *)
Lemma selection_fee utxos requests p rate r :
  let R := Z.max rate (min_fee_rate p) in
  amounts_fit utxos requests p -> 0 <= max_withdrawal_requests p ->
  weights_fit utxos requests (change_len p) ->
  0 <= R -> R * weight_budget utxos requests (change_len p) + 2000 <= u64_max ->
  Forall (fun a => 0 <= tx_fee a) (chains utxos) ->
  zsum (tx_fee <$> chains utxos) <= u64_max ->
  select_coins utxos requests p rate = Ok r ->
  let w := result_weight p r in
  let anc := mempool_ancestors (res_inputs r) in
  let short := R * zsum (tx_weight <$> anc) - 1000 * zsum (tx_fee <$> anc) in
  let N := Z.of_nat (length (selected_requests r)) in
  R * w <= 1000 * fee r
  /\ R * (w + zsum (tx_weight <$> anc)) <= 1000 * (fee r + zsum (tx_fee <$> anc))
  /\ 1000 * fee r < R * w + Z.max 0 (short + 1000) + 1000 + 1000 * N.
Proof.
  intros R Hfit Hmax Hw HR Hbud Hf0 Hfs H w anc short N. enter_selection H.
  destruct (stages_weights_fit Hst Hw) as [Hwb Hble].
  pose proof (stages_finalized Hst Hfit Hmax) as Hfin.
  destruct (fin_deduction Hfin) as (req & d & Hreq & Hd & _ & _ & Hfee).
  pose proof (chains_submseteq _ _ (stages_inputs_subset Hst)) as Hsub.
  apply required_fee_exact in Hreq; rewrite ?(st_rate Hst); try done.
  - unfold ancestor_weight_exact, ancestor_fee_exact in Hreq.
    rewrite (stages_weight Hst Hfit Hmax), (stages_ancestors Hst Hfit Hmax), (st_rate Hst) in Hreq.
    fold R w anc in Hreq. fold short in Hreq.
    assert (0 < Z.of_nat (length (outputs b))) as Hn.
    { pose proof (stages_outputs_nonempty Hst Hfit Hmax). by destruct (outputs b). }
    pose proof (div_ceil_bounds req _ Hn) as Hdc. rewrite <- Hd in Hdc.
    assert (N = Z.of_nat (length (outputs b))) as HN.
    { unfold N. by rewrite (stages_result_requests Hst Hfit Hmax), length_fmap. }
    unfold short in *. nia.
  - fold R. nia.
  - by eapply Forall_submseteq.
  - etrans; [|exact Hfs]. apply zsum_submseteq; [by apply Forall_fmap|by apply fmap_submseteq'].
Qed.

(** C30: the package fee rate.  The miner fee brings the whole package, the
    transaction with its distinct mempool ancestors, to at least the selected fee
    rate (child pays for parent), and a transaction never pays less than that rate
    on its own weight.  It overpays by less than one satoshi per request, plus one
    of rounding for the transaction and one for the ancestors. *)
Theorem package_fee_rate utxos requests p rate r :
  let R := Z.max rate (min_fee_rate p) in
  amounts_fit utxos requests p -> 0 <= max_withdrawal_requests p ->
  weights_fit utxos requests (change_len p) ->
  0 <= R -> R * weight_budget utxos requests (change_len p) + 2000 <= u64_max ->
  Forall (fun a => 0 <= tx_fee a) (chains utxos) ->
  zsum (tx_fee <$> chains utxos) <= u64_max ->
  select_coins utxos requests p rate = Ok r ->
  let w := result_weight p r in
  let anc := mempool_ancestors (res_inputs r) in
  let short := R * zsum (tx_weight <$> anc) - 1000 * zsum (tx_fee <$> anc) in
  let N := Z.of_nat (length (selected_requests r)) in
  R * w <= 1000 * fee r
  /\ R * (w + zsum (tx_weight <$> anc)) <= 1000 * (fee r + zsum (tx_fee <$> anc))
  /\ 1000 * fee r < R * w + Z.max 0 (short + 1000) + 1000 + 1000 * N.
Proof. apply selection_fee. Qed.
End laws.
