(* ===== verification/CoinSelectionTotal.v ===== *)
(** * Coin selection: verdicts, order independence and absence of panics

    When [select_coins] refuses a batch for lack of funds no choice of inputs would
    have served it; its answer does not depend on the order in which the pool is
    listed; and none of its [expect]s and [assert!]s can fire.  The file ends with
    concrete selections that meet the hypotheses of the coin-selection theorems. *)

From S2P Require Import CoinSelection CoinSelectionProofs CoinSelectionTheorems Prelude.

#[local] Abbreviation M := (outcome CoinSelectionError).

(** ** Completeness of the funding step *)

Lemma greedy_optimal l : forall s n,
  StronglySorted (fun x y => y <= x) l -> Forall (fun x => 0 <= x) l ->
  s ⊆+ l -> (length s <= n)%nat -> zsum s <= zsum (take n l).
Proof.
  induction l as [|x l IH]; intros s n Hs Hpos Hsub Hlen.
  { apply submseteq_nil_r in Hsub as ->. by rewrite take_nil. }
  inversion Hs as [|? ? Hs' Hx]; inversion Hpos; subst.
  destruct s as [|y s]. { apply zsum_nonneg. by apply Forall_take. }
  destruct n as [|n]; [cbn in Hlen; lia|]. cbn in Hlen.
  cbn [take]. rewrite zsum_cons with (l := take n l).
  apply submseteq_cons_r in Hsub as [Hsub|(k & Hp & Hsub)].
  - assert (y ∈ l) as Hy by (eapply elem_of_submseteq; [left|exact Hsub]).
    rewrite Forall_forall in Hx. rewrite zsum_cons. apply Z.add_le_mono; [by apply Hx|].
    apply IH; try done; [|lia]. etrans; [|exact Hsub]. by apply submseteq_cons.
  - rewrite (zsum_perm _ _ Hp), zsum_cons. apply Permutation_length in Hp. cbn in Hp.
    apply Z.add_le_mono; [done|]. apply IH; try done; lia.
Qed.

(** The funding loop stops with the best it can do. *)
Lemma take_covers `{BU : BitcoinUnits} el reqs p s k total :
  let pool := sort_by (leb_of pool_cmp) el in
  amounts_fit pool reqs p -> s ⊆+ el -> Z.of_nat (length s) <= max_inputs p ->
  (k <= length pool)%nat ->
  (total <= zsum (amount <$> take k pool) \/ k = length pool
   \/ max_inputs p <= Z.of_nat (length (take k pool))) ->
  zsum (amount <$> take k pool) < total ->
  zsum (amount <$> s) <= zsum (amount <$> take k pool).
Proof.
  intros pool Hfit Hs Hlen Hk Hstop Hlt. rewrite length_take in Hstop.
  rewrite fmap_take. apply greedy_optimal.
  - apply StronglySorted_fmap_mono with (R := le_of (leb_of pool_cmp)).
    { intros u v Hle%pool_le_spec. unfold pool_le in Hle. lia. }
    apply sort_by_sorted; [apply pool_le_total|apply pool_le_trans].
  - apply Forall_fmap, (fit_inputs _ _ _ Hfit).
  - apply fmap_submseteq'. unfold pool. by rewrite sort_by_perm.
  - rewrite length_fmap. apply submseteq_length in Hs.
    unfold pool in *. rewrite length_sort_by in *. lia.
Qed.

(** *** The only source of [InsufficientFunds] *)

Definition is_insufficient (e : CoinSelectionError) : bool :=
  match e with InsufficientFunds _ _ _ _ _ => true | _ => false end.

(** A computation that fails for other reasons only. *)
Definition never_insufficient {A} (m : M A) : Prop :=
  forall e, m = Err e -> is_insufficient e = false.

Lemma never_insufficient_bind {A B} (m : M A) (f : A -> M B) :
  never_insufficient m -> (forall a, never_insufficient (f a)) -> never_insufficient (m ≫= f).
Proof.
  intros Hm Hf e. destruct m as [a|e'|]; cbn; intros H; [by eapply Hf|apply Hm; congruence|done].
Qed.

Lemma never_insufficient_Ok {A} (a : A) : never_insufficient (Ok a).
Proof. done. Qed.
Lemma never_insufficient_Err {A} e : is_insufficient e = false -> never_insufficient (@Err _ A e).
Proof. by intros ? ? [= <-]. Qed.
Lemma never_insufficient_expect {A} (o : option A) : never_insufficient (expect o).
Proof. by destruct o. Qed.
Lemma never_insufficient_assert c : never_insufficient (assert c).
Proof. by destruct c. Qed.
Lemma never_insufficient_succeeds m : never_insufficient (succeeds m).
Proof. by destruct m. Qed.
Lemma never_insufficient_map {A B} (f : A -> M B) l :
  (forall x, never_insufficient (f x)) -> never_insufficient (map_outcome f l).
Proof.
  intros Hf. induction l as [|x l IH]; cbn; [done|].
  repeat (apply never_insufficient_bind; [done|intros ?]). done.
Qed.

#[local] Hint Resolve never_insufficient_Ok never_insufficient_Err never_insufficient_expect
  never_insufficient_assert never_insufficient_succeeds never_insufficient_map : hashi.
#[local] Hint Extern 1 (is_insufficient _ = false) => reflexivity : hashi.

(** Walk through a monadic body. *)
Ltac never_insufficient :=
  repeat first
    [ solve [auto with hashi nocore]
    | apply never_insufficient_bind; [|intros ?]
    | match goal with |- never_insufficient (if ?c then _ else _) => destruct c end
    | match goal with |- never_insufficient (match ?c with _ => _ end) => destruct c end
    | progress cbn zeta ].

Section verdicts.
Context `{BU : BitcoinUnits}.

Lemma input_weight_never s : never_insufficient (input_weight s).
Proof. apply never_insufficient_expect. Qed.
#[local] Hint Resolve input_weight_never : hashi.

Lemma weight_never b : never_insufficient (weight b).
Proof. unfold weight. never_insufficient. Qed.
#[local] Hint Resolve weight_never : hashi.

Lemma fee_for_weight_never f w : never_insufficient (fee_for_weight f w).
Proof. apply never_insufficient_expect. Qed.
#[local] Hint Resolve fee_for_weight_never : hashi.

Lemma check_outputs_never d l : never_insufficient (check_outputs d l).
Proof. induction l; cbn; never_insufficient. Qed.
#[local] Hint Resolve check_outputs_never : hashi.

Lemma check_fees_never b : never_insufficient (check_fees b).
Proof. unfold check_fees, cpfp_deficit. never_insufficient. Qed.
#[local] Hint Resolve check_fees_never : hashi.

Lemma check_weight_never b : never_insufficient (check_weight b).
Proof. unfold check_weight. never_insufficient. Qed.
#[local] Hint Resolve check_weight_never : hashi.

Lemma compute_raw_change_never b : never_insufficient (compute_raw_change b).
Proof. unfold compute_raw_change. never_insufficient. Qed.
#[local] Hint Resolve compute_raw_change_never : hashi.

Lemma exceeds_any_weight_limit_never b : never_insufficient (exceeds_any_weight_limit b).
Proof.
  unfold exceeds_any_weight_limit, exceeds_max_weight, exceeds_max_ancestor_package_weight.
  never_insufficient.
Qed.
#[local] Hint Resolve exceeds_any_weight_limit_never : hashi.

Lemma consolidate_never l : forall b, never_insufficient (consolidate b l).
Proof. induction l; cbn; intros b; never_insufficient. Qed.
#[local] Hint Resolve consolidate_never : hashi.

Lemma finalize_fees_never b : never_insufficient (finalize_fees b).
Proof. unfold finalize_fees, required_fee, cpfp_deficit. never_insufficient. Qed.
#[local] Hint Resolve finalize_fees_never : hashi.

(** C31: the [InsufficientFunds] verdict is right.  [select_coins] reports it exactly
    when no set of at most [max_inputs] eligible UTXOs covers the selected requests:
    taking the largest UTXOs first never misses a solution, and the limit on the
    number of inputs is accounted for. *)
Theorem insufficient_funds_exact utxos requests p rate el :
  amounts_fit utxos requests p -> 0 <= max_inputs p ->
  utxos <> [] -> requests <> [] -> max_withdrawal_requests p <> 0 ->
  eligible_utxos utxos requests p rate = Ok el ->
  (exists e, select_coins utxos requests p rate = Err e /\ is_insufficient e = true)
  <-> (forall s, s ⊆+ el -> Z.of_nat (length s) <= max_inputs p ->
         zsum (amount <$> s) < requested requests p).
Proof.
  intros Hfit Hmi Hu Hr Hm Hel.
  assert (amounts_fit el requests p) as Hfe.
  { eapply amounts_fit_sub; [exact Hfit|by eapply eligible_subset|done]. }
  assert (amounts_fit (sort_by (leb_of pool_cmp) el) requests p) as Hfp.
  { eapply amounts_fit_sub; [exact Hfe|by rewrite sort_by_perm|done]. }
  unfold select_coins. destruct utxos as [|u0 us]; [done|]. destruct requests as [|r0 rs]; [done|].
  set (utxos := u0 :: us) in *. set (requests := r0 :: rs) in *.
  destruct (Z.eqb_spec (max_withdrawal_requests p) 0) as [|_]; [done|]. cbn zeta.
  change (filter_outcome _ utxos) with (eligible_utxos utxos requests p rate). rewrite Hel.
  change (total_requested _) with (requested requests p). cbn [mbind outcome_bind].
  destruct (fund _ _ _ [] 0) as [chosen funded] eqn:Hfund.
  apply fund_spec in Hfund as (k & -> & Hk & -> & Hlen & Hstop & _). rewrite app_nil_l in *.
  change (fold_left wadd (amount <$> ?l) 0) with (usum (amount <$> l)) in *.
  rewrite (prefix_sum_exact _ _ _ k Hfp) in *. split.
  - intros (e & He & Hins) s Hs Hls.
    destruct (Z.ltb_spec (zsum (amount <$> take k (sort_by (leb_of pool_cmp) el)))
                (requested requests p)) as [Hlt|Hge].
    + eapply Z.le_lt_trans; [|exact Hlt]. by eapply take_covers.
    + exfalso. enough (is_insufficient e = false) by congruence. clear Hins. revert e He.
      match goal with |- forall e, ?m = Err e -> _ => change (never_insufficient m) end.
      never_insufficient.
  - intros Hall. rewrite (proj2 (Z.ltb_lt _ _)); [by eexists|]. apply Hall.
    + etrans; [apply sublist_submseteq, sublist_take|]. by rewrite sort_by_perm.
    + by apply Hlen.
Qed.
End verdicts.

(** ** Order independence *)

Lemma filter_outcome_cases {A} (f : A -> M bool) l :
  (forall x e, f x <> Err e) ->
  filter_outcome f l =
    if forallb (fun x => is_ok (f x)) l
    then Ok (List.filter (fun x => match f x with Ok b => b | _ => false end) l) else Panic.
Proof.
  intros Hf. induction l as [|x l IH]; cbn; [done|]. rewrite IH.
  destruct (f x) as [b|e|] eqn:E; cbn; [|by apply Hf in E|done].
  destruct (forallb _ l); [|done]. cbn. by destruct b.
Qed.

Section order.
Context `{BU : BitcoinUnits}.

Lemma eligible_never_errs b total u e : eligible b total u <> Err e.
Proof.
  unfold eligible, weight_with_candidate, candidate_fits_fee_budget, input_weight, succeeds.
  destruct (negb (_ <=? _)); [done|]. destruct (negb (_ <? _)); [done|].
  destruct (weight_checked_add _ _); cbn; [|done].
  destruct (negb (_ <=? _)); [done|]. destruct (negb (is_pending u)); [done|].
  by destruct (check_fees _).
Qed.

(** The sorted pool is the same for every listing of the same UTXOs. *)
Lemma pool_order_irrelevant utxos utxos' requests p rate :
  utxos ≡ₚ utxos' -> NoDup (utxo_id <$> utxos) ->
  sort_by (leb_of pool_cmp) <$> eligible_utxos utxos requests p rate
  = sort_by (leb_of pool_cmp) <$> eligible_utxos utxos' requests p rate.
Proof.
  intros Hp Hnd. unfold eligible_utxos. rewrite !filter_outcome_cases by apply eligible_never_errs.
  rewrite (forallb_perm _ _ _ Hp). destruct (forallb _ _); [|done]. cbn. f_equal.
  apply sort_by_perm_invariant; [apply pool_le_total|apply pool_le_trans| |by apply bool_filter_perm].
  intros u v [Hu _]%elem_of_bool_filter [Hv _]%elem_of_bool_filter Huv Hvu.
  eapply NoDup_fmap_inj_on; try done. by apply pool_le_antisym.
Qed.

(** The answer is a function of the pool as a set.  Listing the same UTXOs in
    another order gives the same selection, the same fees and the same errors, so
    every validator that sees the same pool builds the same transaction. *)
Theorem pool_order_independent utxos utxos' requests p rate :
  utxos ≡ₚ utxos' -> NoDup (utxo_id <$> utxos) ->
  select_coins utxos requests p rate = select_coins utxos' requests p rate.
Proof.
  intros Hp Hnd. pose proof (pool_order_irrelevant _ _ requests p rate Hp Hnd) as Hpool.
  unfold select_coins. destruct utxos as [|u us], utxos' as [|u' us'].
  - done.
  - by apply Permutation_nil_cons in Hp.
  - symmetry in Hp. by apply Permutation_nil_cons in Hp.
  - destruct requests as [|r0 rs]; [done|]. destruct (_ =? 0); [done|]. cbn zeta.
    set (us1 := u :: us) in *. set (us2 := u' :: us') in *.
    change (filter_outcome _ us1) with (eligible_utxos us1 (r0 :: rs) p rate).
    change (filter_outcome _ us2) with (eligible_utxos us2 (r0 :: rs) p rate).
    destruct (eligible_utxos us1 _ _ _) as [e1|e1|], (eligible_utxos us2 _ _ _) as [e2|e2|];
      cbn in Hpool |- *; try done; [|congruence].
    injection Hpool as Hpool. by rewrite Hpool.
Qed.
End order.

(** ** No panics *)

Section no_panic.
Context `{BU : BitcoinUnits} `{BL : !BitcoinUnitsLaws}.
Context (utxos : list UtxoCandidate) (requests : list WithdrawalRequest)
        (p : CoinSelectionParams) (rate : Z).
Let R := Z.max rate (min_fee_rate p).
Hypothesis Hfit : amounts_fit utxos requests p.
Hypothesis Hw : weights_fit utxos requests (change_len p).
Hypothesis HR : 0 <= R.
Hypothesis Hbud : R * weight_budget utxos requests (change_len p) + 2000 <= u64_max.

(** A builder of this selection. *)
Record inside (b : TransactionBuilder) : Prop := {
  in_inputs : inputs b ⊆+ utxos;
  in_requests : request <$> outputs b ⊆+ requests;
  in_params : params b = p;
  in_rate : fee_rate b = R;
}.

Lemma inside_weights b :
  inside b -> weights_fit (inputs b) (request <$> outputs b) (change_script_len b)
  /\ weight_budget (inputs b) (request <$> outputs b) (change_script_len b)
     <= weight_budget utxos requests (change_len p).
Proof.
  intros [Hi Hr Hp _]. unfold change_script_len. rewrite Hp. by eapply weights_fit_sub.
Qed.

Lemma fee_in_range w :
  0 <= w <= weight_budget utxos requests (change_len p) -> exists f, fee_for_weight R w = Ok f.
Proof.
  intros Hwb. unfold fee_for_weight. destruct (fee_wu_defined R w) as [f ->]; try lia; [|by exists f].
  assert (R * w <= R * weight_budget utxos requests (change_len p)) by nia. lia.
Qed.

Lemma inside_weight b :
  inside b -> exists w, weight b = Ok w /\ 0 <= w <= weight_budget utxos requests (change_len p).
Proof.
  intros [Hwf Hle]%inside_weights. eexists. split; [by apply weight_exact|].
  destruct (tx_weight_exact_le _ _ _ (has_change b) Hwf).
  pose proof (chains_nonneg _ (fit_anc _ _ _ Hwf)). lia.
Qed.

Lemma inside_ancestors b :
  inside b -> 0 <= weight_sum (tx_weight <$> unconfirmed_ancestors b)
              <= weight_budget utxos requests (change_len p).
Proof.
  intros [Hwf Hle]%inside_weights. pose proof Hwf as [_ Ha _ Hb].
  destruct (tx_weight_exact_le _ _ _ (has_change b) Hwf). pose proof (ancestor_weight_bounds b Ha).
  rewrite unconfirmed_ancestor_weight_Ok by (done || lia). lia.
Qed.

Lemma inside_deficit b : inside b -> exists d, cpfp_deficit b = Ok d.
Proof.
  intros Hin. unfold cpfp_deficit. rewrite (in_rate _ Hin).
  destruct (fee_in_range _ (inside_ancestors _ Hin)) as [f ->]. by eexists.
Qed.

Lemma inside_required_fee b : inside b -> exists f, required_fee b = Ok f.
Proof.
  intros Hin. unfold required_fee. destruct (inside_weight b Hin) as (w & -> & Hwb). cbn.
  rewrite (in_rate _ Hin). destruct (fee_in_range _ Hwb) as [f ->]. cbn.
  destruct (inside_deficit b Hin) as [d ->]. by eexists.
Qed.

Lemma check_outputs_no_panic d l : check_outputs d l <> Panic.
Proof. induction l; cbn; [done|]. by case_match. Qed.

Lemma inside_check_fees b : inside b -> check_fees b <> Panic.
Proof.
  intros Hin. unfold check_fees. destruct (_ =? 0); [done|].
  destruct (inside_weight b Hin) as (w & -> & Hwb). cbn.
  rewrite (in_rate _ Hin). destruct (fee_in_range _ Hwb) as [f ->]. cbn.
  destruct (inside_deficit b Hin) as [d ->]. cbn.
  case_match; [done|]. apply check_outputs_no_panic.
Qed.

Lemma inside_check_weight b : inside b -> check_weight b <> Panic.
Proof.
  intros Hin. unfold check_weight. destruct (inside_weight b Hin) as (w & -> & _). cbn.
  by repeat case_match.
Qed.

Lemma inside_limits b : inside b -> exists c, exceeds_any_weight_limit b = Ok c.
Proof.
  intros Hin. unfold exceeds_any_weight_limit, exceeds_max_weight,
    exceeds_max_ancestor_package_weight.
  destruct (inside_weight b Hin) as (w & -> & _). cbn. case_match; by eexists.
Qed.

Lemma succeeds_total m : m <> Panic -> exists c, succeeds m = Ok c.
Proof. destruct m; cbn; eauto. done. Qed.

Lemma selected_requests_subset : request <$> select_requests requests p ⊆+ requests.
Proof.
  unfold select_requests. rewrite <- list_fmap_compose, list_fmap_id.
  etrans; [apply sublist_submseteq, sublist_take|]. by rewrite sort_by_perm.
Qed.

Lemma eligible_no_panic u :
  u ∈ utxos ->
  exists c, eligible (initial_builder requests p rate) (requested requests p) u = Ok c.
Proof.
  intros Hu. unfold eligible. destruct (negb (_ <=? _)); [by eexists|].
  destruct (negb (_ <? _)); [by eexists|].
  unfold weight_with_candidate.
  assert (inside (with_inputs (initial_builder requests p rate) [u])) as Hin.
  { split; cbn; [by apply singleton_submseteq_l|apply selected_requests_subset|done|done]. }
  destruct (inside_weight _ Hin) as (w & Hwu & _). unfold weight in Hwu. cbn in Hwu.
  destruct (input_weight (spend_path u)); cbn in Hwu |- *; try done.
  destruct (negb (_ <=? _)); [by eexists|]. unfold candidate_fits_fee_budget.
  destruct (negb (is_pending u)); [by eexists|]. apply succeeds_total, inside_check_fees.
  split; cbn; [by apply singleton_submseteq_l| |done|done].
  rewrite <- list_fmap_compose. apply selected_requests_subset.
Qed.

Lemma inside_amounts b : inside b -> amounts_fit (inputs b) (request <$> outputs b) (params b).
Proof. intros [Hi Hr -> _]. by eapply amounts_fit_sub. Qed.

(** Pushing an input keeps the requests covered. *)
Lemma push_covers b u :
  inside b -> inside (with_inputs b (inputs b ++ [u])) ->
  total_requested b <= input_total b ->
  total_requested b <= input_total (with_inputs b (inputs b ++ [u])).
Proof.
  intros Hin Hin' Hle.
  rewrite (input_total_exact _ _ _ (inside_amounts _ Hin)) in Hle.
  pose proof (inside_amounts _ Hin') as Hf.
  rewrite (input_total_exact _ _ _ Hf). etrans; [exact Hle|]. cbn in Hf |- *.
  apply zsum_submseteq; [apply Forall_fmap, (fit_inputs _ _ _ Hf)|].
  apply fmap_submseteq'. by apply submseteq_inserts_r.
Qed.

Lemma compute_raw_change_total b :
  total_requested b <= input_total b ->
  compute_raw_change b = Ok (with_raw_change b (wsub (input_total b) (total_requested b))).
Proof. intros Hle. unfold compute_raw_change. by rewrite (proj2 (Z.leb_le _ _) Hle). Qed.

Lemma consolidate_no_panic rem : forall b,
  good b -> inside b -> inputs b ++ rem ⊆+ utxos -> consolidate b rem <> Panic.
Proof.
  induction rem as [|u rem IH]; intros b Hg Hin Hsub; cbn [consolidate]; [done|].
  destruct (_ <=? _); [done|].
  replace (inputs b ++ u :: rem) with ((inputs b ++ [u]) ++ rem) in Hsub
    by by rewrite <- app_assoc.
  assert (inside (with_inputs b (inputs b ++ [u]))) as Hin'.
  { destruct Hin. split; try done. etrans; [by apply submseteq_inserts_r|exact Hsub]. }
  pose proof (push_covers b u Hin Hin' (good_funded _ Hg)) as Hcov.
  pose proof (compute_raw_change_total (with_inputs b (inputs b ++ [u])) Hcov) as Hb1.
  set (b1 := with_raw_change _ _) in Hb1.
  pose proof (undo_push _ _ _ Hg Hb1) as Hundo. rewrite Hb1.
  assert (inside b1) as Hin1 by (destruct Hin'; by split).
  cbn [mbind outcome_bind]. rewrite Hundo.
  destruct (succeeds_total _ (inside_check_fees _ Hin1)) as [ok Hok]. rewrite Hok.
  cbn [mbind outcome_bind]. destruct ok; [|done].
  destruct (inside_limits _ Hin1) as [over Hov]. rewrite Hov. cbn [mbind outcome_bind].
  destruct over; [done|]. apply IH; [|done|done].
  apply succeeds_Ok in Hok as [[_ Hok]|[? _]]; [|done]. by split.
Qed.

Lemma finalize_no_panic b :
  good b -> inside b -> outputs b <> [] -> finalize_fees b <> Panic.
Proof.
  intros Hg Hin Hne. pose proof Hg as [Hle Hraw Hfees _].
  destruct (check_fees_Ok b Hne Hfees) as (required & Hreq & Hcap & Houts).
  unfold finalize_fees. rewrite (proj2 (expect_Ok _ _) Hraw). cbn [mbind outcome_bind].
  match goal with |- (if ?c then _ else _) <> _ => destruct c eqn:Edust end; [done|].
  rewrite Hfees, Hreq. cbn [mbind outcome_bind].
  assert (0 < Z.of_nat (length (outputs b))) as Hn by by destruct (outputs b).
  rewrite (proj2 (Z.eqb_neq _ 0)) by lia. cbn [negb assert mbind outcome_bind].
  cbv zeta. fold (set_nets (div_ceil required (Z.of_nat (length (outputs b)))) (outputs b)).
  rewrite required_fee_nets, Hreq. cbn [mbind outcome_bind].
  pose proof (inside_amounts _ Hin) as Hf. set (d := div_ceil _ _) in *.
  assert (0 <= d <= max_fee_per_request (params b)) as Hd.
  { split; [|done]. apply required_fee_range in Hreq. apply div_ceil_nonneg; u64_lia. }
  set (raw := zsum (amount <$> inputs b) - zsum (request_amount <$> (request <$> outputs b))).
  assert (0 <= raw /\ wsub (input_total b) (total_requested b) = raw) as [Hraw0 Hgr].
  { pose proof (good_raw _ Hg) as Hgr. rewrite Hraw in Hgr. cbn in Hgr. rewrite Hgr.
    rewrite (input_total_exact _ _ _ Hf), (total_requested_exact _ _ _ Hf) in *.
    unfold raw. lia. }
  rewrite Hgr in Edust |- *.
  assert (0 < raw -> change_dust_threshold b <= raw) as Hdust by lia.
  pose proof (finalized_intro b required d raw Hf eq_refl Hraw0 Hdust Hreq eq_refl Hd
                (all_absorb b d Hf Hd Houts)) as Hfin.
  destruct (fin_deduction Hfin) as (req' & d' & Hr' & Hd' & _ & _ & Hmf).
  rewrite Hreq in Hr'. injection Hr' as <-. pose proof (div_ceil_bounds required _ Hn) as Hdc.
  rewrite <- Hd' in Hdc. rewrite (proj2 (Z.leb_le _ _)); [done|].
  etrans; [|apply Z.eq_le_incl; symmetry; exact Hmf]. lia.
Qed.

Hypothesis Hmr : 0 <= max_withdrawal_requests p.
Hypothesis Hne : requests <> [].
Hypothesis Hm : max_withdrawal_requests p <> 0.

Lemma selected_nonempty : select_requests requests p <> [].
Proof.
  intros E. apply (f_equal length) in E. unfold select_requests in E.
  rewrite length_fmap, length_take, length_sort_by in E.
  destruct requests; [done|]. cbn in E. lia.
Qed.

(** What follows the funding step: the checks, consolidation and the final fees. *)
Lemma after_funding_no_panic {A} (g : Z * TransactionBuilder -> M A) pool k :
  (forall x, g x <> Panic) -> pool ⊆+ utxos ->
  let b := with_inputs (initial_builder requests p rate) (take k pool) in
  total_requested b <= input_total b ->
  (b ← compute_raw_change b;
   _ ← check_fees b; _ ← check_weight b;
   b ← (if (0 <? max_consolidation b) && (0 <? default 0 (raw_change b))
        then consolidate b
               (take (Z.to_nat (max_consolidation b)) (remaining_candidates b pool))
        else Ok b);
   b ← compute_raw_change b; x ← finalize_fees b; g x) <> Panic.
Proof.
  intros Hgp Hpool b Hle. rewrite compute_raw_change_total by done. cbn [mbind outcome_bind].
  set (b1 := with_raw_change b _).
  assert (inside b1) as Hin.
  { split; cbn; [|apply selected_requests_subset|done|done].
    etrans; [apply sublist_submseteq, sublist_take|done]. }
  pose proof (inside_check_fees _ Hin). pose proof (inside_check_weight _ Hin).
  destruct (check_fees b1) as [[]| |] eqn:Hfees; [|done|done].
  destruct (check_weight b1) as [[]| |] eqn:Hwt; [|done|done]. cbn [mbind outcome_bind].
  assert (good b1) as Hg. { split; try done. by apply check_weight_not_over. }
  set (rest := take _ (remaining_candidates b1 pool)).
  assert (inputs b1 ++ rest ⊆+ utxos) as Hsub.
  { etrans; [|exact Hpool]. transitivity (take k pool ++ drop k pool); [|by rewrite take_drop].
    apply submseteq_app; [done|]. etrans; [apply sublist_submseteq, sublist_take|].
    by apply remaining_from_rest. }
  destruct (if _ && _ then consolidate b1 rest else Ok b1) as [b2| |] eqn:Hb2; [|done|].
  2: { revert Hb2. case_match; [|done]. intros Hb2. exfalso. by eapply consolidate_no_panic. }
  cbn [mbind outcome_bind].
  apply consolidation_stage in Hb2 as (extra & Hi & _ & Hex & Hp & Ho & Hr & Hg2); [|done].
  rewrite compute_raw_change_id by apply Hg2. cbn [mbind outcome_bind].
  enough (finalize_fees b2 <> Panic) as Hf by (destruct (finalize_fees b2); [apply Hgp|done|done]).
  apply finalize_no_panic; [done| |rewrite Ho; apply selected_nonempty].
  destruct Hin as [Hi1 Hr1 Hp1 Hr1']. split; [|by rewrite Ho|by rewrite Hp|by rewrite Hr].
  rewrite Hi. etrans; [|exact Hsub]. apply submseteq_app; [done|].
  destruct Hex as [->|[_ Hpre]]; [apply submseteq_nil_l|by apply prefix_submseteq].
Qed.
End no_panic.

(** Coin selection never panics.  As long as the amounts, weights and fees of the
    candidates fit in 64 bits, every [expect] and [assert!] on the way holds, the final
    check that the miner fee covers the required fee included: the result is a
    selection or one of the listed errors. *)
Theorem select_coins_no_panic `{BU : BitcoinUnits} `{BL : !BitcoinUnitsLaws}
    utxos requests p rate :
  let R := Z.max rate (min_fee_rate p) in
  amounts_fit utxos requests p -> weights_fit utxos requests (change_len p) ->
  0 <= R -> R * weight_budget utxos requests (change_len p) + 2000 <= u64_max ->
  0 <= max_withdrawal_requests p ->
  select_coins utxos requests p rate <> Panic.
Proof.
  intros R Hfit Hw HR Hbud Hmr Hpanic. unfold select_coins in Hpanic.
  destruct utxos as [|u0 us]; [done|]. destruct requests as [|r0 rs]; [done|].
  set (utxos := u0 :: us) in *. set (requests := r0 :: rs) in *.
  destruct (Z.eqb_spec (max_withdrawal_requests p) 0) as [|Hm]; [done|]. cbn zeta in Hpanic.
  change (filter_outcome _ utxos) with (eligible_utxos utxos requests p rate) in Hpanic.
  destruct (eligible_utxos utxos requests p rate) as [el| |] eqn:Hel; [|done|].
  2: { unfold eligible_utxos in Hel. rewrite filter_outcome_total in Hel; [done|].
       apply Forall_forall. intros u Hu. by apply (eligible_no_panic utxos requests p rate). }
  apply eligible_subset in Hel as Hsub. cbn [mbind outcome_bind] in Hpanic.
  set (pool := sort_by _ el) in *.
  assert (pool ⊆+ utxos) as Hpool by (unfold pool; by rewrite sort_by_perm).
  destruct (fund _ _ pool [] 0) as [chosen funded] eqn:Hfund.
  apply fund_spec in Hfund as (k & -> & _ & -> & _). rewrite app_nil_l in *.
  change (fold_left wadd (amount <$> take k pool) 0) with (usum (amount <$> take k pool)) in *.
  match type of Hpanic with (if ?x <? ?y then _ else _) = _ => destruct (Z.ltb_spec x y) as [|Hge] end;
    [done|].
  revert Hpanic. eapply (after_funding_no_panic utxos requests p rate); try done.
  by intros [? ?].
Qed.

(** * Coin selection on a concrete pool

    An instance of the [bitcoin] crate's interface that satisfies its laws, and a
    batch of two withdrawals funded by a UTXO with an unconfirmed parent, with a
    confirmed UTXO consolidated on the way.  The theorems about [select_coins] are
    applied to it. *)

(** Addresses are represented by the length of their script. *)
#[export] Instance sat_units : BitcoinUnits := {|
  BitcoinAddress := Z;
  script_pubkey_len := fun a => a;
  weight_add := wadd;
  weight_checked_add := fun a b => if a + b <=? u64_max then Some (a + b) else None;
  fee_wu := fun r w => if r * w + 999 <=? u64_max then Some ((r * w + 999) / 1000) else None;
  from_sat_per_vb_unchecked := fun v => v * 250;
  to_sat_per_vb_floor := fun r => r / 250;
|}.

#[export] Instance sat_units_laws : BitcoinUnitsLaws.
Proof.
  split; cbn; intros.
  - apply wadd_small. u64_lia.
  - by rewrite (proj2 (Z.leb_le _ _)).
  - case_match; [|done]. simplify_eq. pose proof (Z.div_mod (r * w + 999) 1000 ltac:(lia)).
    pose proof (Z.mod_pos_bound (r * w + 999) 1000 ltac:(lia)). lia.
  - rewrite (proj2 (Z.leb_le _ _)) by done. by eexists.
Qed.

Definition parent : AncestorTx := mkAncestorTx 77 0 600 200.

Definition big : UtxoCandidate :=
  mkUtxoCandidate (mkUtxoId 1 0) 900000 None TaprootScriptPath2of2 (Pending [parent]).
Definition small : UtxoCandidate :=
  mkUtxoCandidate (mkUtxoId 2 1) 40000 (Some 12) TaprootScriptPath2of2 Confirmed.
Definition deep : UtxoCandidate :=
  mkUtxoCandidate (mkUtxoId 3 0) 5000000 None TaprootScriptPath2of2
    (Pending (replicate 6 (mkAncestorTx 5 0 400 100))).

Definition pool_utxos : list UtxoCandidate := [small; big; deep].

Definition first_request : WithdrawalRequest := mkWithdrawalRequest 10 (replicate 20 0) 300000 1000.
Definition second_request : WithdrawalRequest := mkWithdrawalRequest 11 (replicate 32 0) 200000 2000.

Definition batch : list WithdrawalRequest := [second_request; first_request].
Definition batch_params : CoinSelectionParams := params_new (34 : BitcoinAddress).


Definition batch_result : CoinSelectionResult :=
  match select_coins pool_utxos batch batch_params 1000 with
  | Ok r => r
  | _ => mkCoinSelectionResult [] [] None 0 []
  end.

Lemma batch_selected : select_coins pool_utxos batch batch_params 1000 = Ok batch_result.
Proof. vm_compute. reflexivity. Qed.

Lemma batch_amounts_fit : amounts_fit pool_utxos batch batch_params.
Proof. split; vm_compute; repeat constructor; discriminate. Qed.

Lemma batch_weights_fit : weights_fit pool_utxos batch (change_len batch_params).
Proof. split; vm_compute; repeat constructor; discriminate. Qed.

#[local] Hint Resolve batch_amounts_fit batch_weights_fit batch_selected : hashi.

(** Discharge the side conditions of a theorem at the concrete batch. *)
Ltac concrete := first [ solve [auto with hashi nocore] | by vm_compute
                        | vm_compute; repeat constructor; discriminate ].


Lemma fee_split_fair_witness :
  exists d, 0 <= d <= max_fee_per_request batch_params
    /\ fee batch_result = Z.of_nat (length (selected_requests batch_result)) * d.
Proof.
  destruct (fee_split_fair pool_utxos batch batch_params 1000 batch_result) as (d & Hd & Hf & _);
    [concrete..|]. exists d. split; [exact Hd|exact Hf].
Defined.

Lemma oldest_requests_first_witness :
  exists rest, batch ≡ₚ selected_requests batch_result ++ rest
    /\ length (selected_requests batch_result) = 2%nat.
Proof.
  destruct (oldest_requests_first pool_utxos batch batch_params 1000 batch_result)
    as (rest & Hp & Hl & _); [concrete..|]. exists rest. split; [exact Hp|exact Hl].
Defined.

Lemma inputs_from_pool_witness :
  res_inputs batch_result ⊆+ pool_utxos /\ Z.of_nat (length (res_inputs batch_result)) <= 400.
Proof.
  destruct (inputs_from_pool pool_utxos batch batch_params 1000 batch_result)
    as (Hs & _ & Hl & _); [concrete..|]. split; [exact Hs|exact Hl].
Defined.

Lemma funding_and_consolidation_witness :
  exists funding extra, res_inputs batch_result = funding ++ extra
    /\ 500000 <= zsum (amount <$> funding) /\ Z.of_nat (length extra) <= 20.
Proof.
  destruct (funding_and_consolidation pool_utxos batch batch_params 1000 batch_result)
    as (funding & extra & Hi & Ht & _ & _ & _ & _ & Hl); [concrete..|].
  exists funding, extra. split; [exact Hi|]. split; [exact Ht|exact Hl].
Defined.

Lemma within_weight_limits_witness :
  result_weight batch_params batch_result <= 400000
  /\ result_weight batch_params batch_result + 600 <= 400000.
Proof.
  destruct (within_weight_limits pool_utxos batch batch_params 1000 batch_result)
    as (Hw & Hp & _); [concrete..|]. split; [exact Hw|exact Hp].
Defined.

Lemma package_fee_rate_witness :
  1000 * (result_weight batch_params batch_result + 600) <= 1000 * (fee batch_result + 200).
Proof.
  destruct (package_fee_rate pool_utxos batch batch_params 1000 batch_result)
    as (_ & Hp & _); [concrete..|]. exact Hp.
Defined.

(** A request larger than the eligible pool. *)
Definition large_batch : list WithdrawalRequest :=
  [mkWithdrawalRequest 12 (replicate 20 0) 3000000 1000].

Lemma insufficient_funds_exact_witness :
  zsum (amount <$> [small; big]) < requested large_batch batch_params.
Proof.
  apply (insufficient_funds_exact pool_utxos large_batch batch_params 1000 [small; big]);
    [split; concrete|concrete..| |done|by vm_compute].
  eexists. split; vm_compute; reflexivity.
Defined.

Lemma pool_order_independent_witness :
  select_coins pool_utxos batch batch_params 1000
  = select_coins [deep; big; small] batch batch_params 1000.
Proof.
  apply (pool_order_independent pool_utxos [deep; big; small] batch batch_params 1000).
  - apply Permutation_rev.
  - apply (bool_decide_unpack _). vm_compute. exact I.
Defined.

Lemma select_coins_no_panic_witness :
  select_coins pool_utxos batch batch_params 1000 <> Panic.
Proof. apply (select_coins_no_panic pool_utxos batch batch_params 1000); concrete. Defined.
