(* ===== verification/MonitorDomain.v ===== *)
(** * The monitor's core types

    [crates/hashi-monitor/src/domain], [findings.rs] and [timing.rs]: the events the
    monitor follows, the findings it reports and the timing bounds it applies, with
    the two fragments of [crates/hashi-types/src/bitcoin] the events are built with.

    The hash of a Bitcoin transaction ([Transaction::compute_txid]), the decoding of
    a network address and the taproot address of a derivation path belong to the
    [bitcoin] crate and to key material: they are the fields of [BtcKeys].

    A function whose source may panic returns [total A], an [outcome] that has no
    error case. *)

From S2P Require Import Prelude.
From stdpp Require Export strings.

Open Scope Z_scope.

Abbreviation total := (outcome Empty_set).

Definition UnixSeconds := Z.
Definition UnixMillis := Z.
Definition Txid := Address.
Definition WithdrawalID := Address.
Definition DerivationPath := Address.
Definition ScriptBuf := list Z.

Definition unix_millis_to_seconds (ms : UnixMillis) : UnixSeconds := ms / 1000.

(** [bitcoin::OutPoint], and [DepositId], its newtype. *)
Definition OutPoint : Type := Txid * Z.
Abbreviation DepositId := OutPoint.
Definition DepositId_new (txid : Txid) (vout : Z) : DepositId := (txid, vout).
Definition deposit_txid (d : DepositId) : Txid := d.1.
Definition deposit_vout (d : DepositId) : Z := d.2.

Record TxOut := mkTxOut { value : Z; out_script : ScriptBuf }.

#[export] Instance TxOut_eq_dec : EqDecision TxOut.
Proof. solve_decision. Defined.

(** ** Withdrawal transactions *)

(** [move_types::Utxo] and [move_types::OutputUtxo]. *)
Record MoveUtxo := mkMoveUtxo {
  mu_id : OutPoint;
  mu_amount : Z;
  derivation_path : option DerivationPath;
}.

Record OutputUtxo := mkOutputUtxo {
  ou_amount : Z;
  bitcoin_address : list Z;
}.

Record WithdrawalTx := mkWithdrawalTx {
  tx_inputs : list MoveUtxo;
  tx_withdrawal_outputs : list OutputUtxo;
  tx_change_outputs : list OutputUtxo;
}.

#[export] Instance MoveUtxo_eq_dec : EqDecision MoveUtxo.
Proof. solve_decision. Defined.
#[export] Instance OutputUtxo_eq_dec : EqDecision OutputUtxo.
Proof. solve_decision. Defined.
#[export] Instance WithdrawalTx_eq_dec : EqDecision WithdrawalTx.
Proof. solve_decision. Defined.

Definition ZERO_PATH : DerivationPath := 0.

Definition WithdrawalTx_new (inputs : list MoveUtxo)
    (withdrawal_outputs change_outputs : list OutputUtxo) : WithdrawalTx :=
  mkWithdrawalTx
    ((fun input => mkMoveUtxo (mu_id input) (mu_amount input)
                     (Some (default ZERO_PATH (derivation_path input)))) <$> inputs)
    withdrawal_outputs change_outputs.

(** A transaction as [construct_tx] builds it: version two, no lock time, and inputs
    with an empty script and the replace-by-fee sequence, so the outpoints and the
    outputs determine it. *)
Record Transaction := mkTransaction {
  input : list OutPoint;
  output : list TxOut;
}.

(** [BitcoinAddress::script_pubkey] starts with the witness version and the length of
    the program. *)
Definition witness_program_from_script (bytes : ScriptBuf) : option (list Z) :=
  match bytes with
  | 0 :: 20 :: rest => if (length rest =? 20)%nat then Some rest else None
  | 81 :: 32 :: rest => if (length rest =? 32)%nat then Some rest else None
  | _ => None
  end.

Definition script_pubkey_from_witness_program (address_bytes : list Z) : option ScriptBuf :=
  if (length address_bytes =? 32)%nat then Some (81 :: 32 :: address_bytes)
  else if (length address_bytes =? 20)%nat then Some (0 :: 20 :: address_bytes)
  else None.

Definition unsigned_withdrawal_tx (inputs : list MoveUtxo) (outputs : list OutputUtxo)
    : option Transaction :=
  outs ← mapM (fun o => script ← script_pubkey_from_witness_program (bitcoin_address o);
                        Some (mkTxOut (ou_amount o) script)) outputs;
  Some (mkTransaction (mu_id <$> inputs) outs).

Definition unsigned_tx (self : WithdrawalTx) : option Transaction :=
  unsigned_withdrawal_tx (tx_inputs self)
    (tx_withdrawal_outputs self ++ tx_change_outputs self).

(** ** Events *)

Inductive WithdrawalEventType := E1HashiApproved | E2GuardianApproved | E3BtcConfirmed.

#[export] Instance WithdrawalEventType_eq_dec : EqDecision WithdrawalEventType.
Proof. solve_decision. Defined.

#[export] Instance WithdrawalEventType_countable : Countable WithdrawalEventType.
Proof.
  refine (inj_countable'
    (fun e => match e with E1HashiApproved => 0%nat | E2GuardianApproved => 1%nat
                         | E3BtcConfirmed => 2%nat end)
    (fun n => match n with 0%nat => E1HashiApproved | 1%nat => E2GuardianApproved
                         | _ => E3BtcConfirmed end) _).
  by intros [].
Defined.

Definition NON_TERMINAL_EVENTS : list WithdrawalEventType := [E1HashiApproved; E2GuardianApproved].
Definition TERMINAL_EVENT : WithdrawalEventType := E3BtcConfirmed.

Definition successor (self : WithdrawalEventType) : option WithdrawalEventType :=
  match self with
  | E1HashiApproved => Some E2GuardianApproved
  | E2GuardianApproved => Some E3BtcConfirmed
  | E3BtcConfirmed => None
  end.

Definition predecessor (self : WithdrawalEventType) : option WithdrawalEventType :=
  match self with
  | E1HashiApproved => None
  | E2GuardianApproved => Some E1HashiApproved
  | E3BtcConfirmed => Some E2GuardianApproved
  end.

Record MonitorWithdrawalEvent := mkMonitorWithdrawalEvent {
  event_type : WithdrawalEventType;
  wid : WithdrawalID;
  timestamp_secs : UnixSeconds;
  btc_txid : Txid;
  tx : WithdrawalTx;
}.

#[export] Instance MonitorWithdrawalEvent_eq_dec : EqDecision MonitorWithdrawalEvent.
Proof. solve_decision. Defined.

Record BtcConfirmation := mkBtcConfirmation {
  block_time : UnixSeconds;
  confirmed_time : UnixSeconds;
  conf_inputs : list OutPoint;
  conf_outputs : list TxOut;
}.

#[export] Instance BtcConfirmation_eq_dec : EqDecision BtcConfirmation.
Proof. solve_decision. Defined.

(** E3 from Bitcoin's confirmation. *)
Definition from_btc (confirmation : BtcConfirmation) (w : WithdrawalID) (txid : Txid)
    (t : WithdrawalTx) : MonitorWithdrawalEvent :=
  mkMonitorWithdrawalEvent E3BtcConfirmed w (confirmed_time confirmation) txid t.

Record FinishedWithdrawal := mkFinishedWithdrawal {
  fw_txid : Txid;
  fw_confirmation : BtcConfirmation;
  first_change_vout : nat;
}.

Definition finished_from_confirmation (e2 : MonitorWithdrawalEvent)
    (confirmation : BtcConfirmation) : FinishedWithdrawal :=
  mkFinishedWithdrawal (btc_txid e2) confirmation (length (tx_withdrawal_outputs (tx e2))).

Record SuiDepositRequestedEvent := mkSuiDepositRequestedEvent {
  req_request_id : Address;
  req_timestamp_secs : UnixSeconds;
  req_deposit_id : DepositId;
  req_amount : Z;
  req_script_pubkey : ScriptBuf;
}.

Record SuiDepositApprovedEvent := mkSuiDepositApprovedEvent {
  app_timestamp_secs : UnixSeconds;
  app_request_id : Address;
  app_deposit_id : DepositId;
  app_amount : Z;
  app_script_pubkey : ScriptBuf;
}.

#[export] Instance SuiDepositRequestedEvent_eq_dec : EqDecision SuiDepositRequestedEvent.
Proof. solve_decision. Defined.
#[export] Instance SuiDepositApprovedEvent_eq_dec : EqDecision SuiDepositApprovedEvent.
Proof. solve_decision. Defined.

Inductive MonitorEvent :=
| MEWithdrawal (e : MonitorWithdrawalEvent)
| MEDepositApproved (e : SuiDepositApprovedEvent)
| MEDepositRequested (e : SuiDepositRequestedEvent).

Record BtcConfirmedDeposit := mkBtcConfirmedDeposit {
  bcd_deposit_id : DepositId;
  bcd_amount : Z;
  bcd_script_pubkey : ScriptBuf;
  bcd_block_time : UnixSeconds;
}.

#[export] Instance BtcConfirmedDeposit_eq_dec : EqDecision BtcConfirmedDeposit.
Proof. solve_decision. Defined.

Definition deposit_from_confirmation (request : SuiDepositRequestedEvent)
    (confirmation : BtcConfirmation) : option BtcConfirmedDeposit :=
  output ← conf_outputs confirmation !! Z.to_nat (deposit_vout (req_deposit_id request));
  if bool_decide (out_script output = req_script_pubkey request)
  then Some (mkBtcConfirmedDeposit (req_deposit_id request) (value output) (out_script output)
               (block_time confirmation))
  else None.

(** ** UTXO origins *)

Inductive UtxoOrigin :=
| Deposit
| UnapprovedDeposit (requested_at : UnixSeconds) (requested_amount : Z)
| Change.

#[export] Instance UtxoOrigin_eq_dec : EqDecision UtxoOrigin.
Proof. solve_decision. Defined.

Definition in_move_pool (self : UtxoOrigin) : bool :=
  match self with UnapprovedDeposit _ _ => false | _ => true end.

Definition is_change (self : UtxoOrigin) : bool := bool_decide (self = Change).

Definition updated_by (self new : UtxoOrigin) : total (option UtxoOrigin) :=
  if negb (Bool.eqb (is_change self) (is_change new)) then Ok None
  else if is_change self then Ok (Some self)
  else match self, new with
       | Deposit, (Deposit | UnapprovedDeposit _ _) => Ok (Some self)
       | UnapprovedDeposit _ _, Deposit => Ok (Some Deposit)
       | UnapprovedDeposit held_at _, UnapprovedDeposit requested_at _ =>
           Ok (Some (if held_at <? requested_at then new else self))
       | Change, _ | _, Change => Panic
       end.

(** A held UTXO, by Bitcoin's account. *)
Record Utxo := mkUtxo {
  u_amount : Z;
  u_script_pubkey : ScriptBuf;
  u_origin : UtxoOrigin;
  first_seen : UnixSeconds;
}.

#[export] Instance Utxo_eq_dec : EqDecision Utxo.
Proof. solve_decision. Defined.

Record FinishedDeposit := mkFinishedDeposit {
  fd_deposit_id : DepositId;
  fd_utxo : Utxo;
}.

Definition FinishedDeposit_new (btc : BtcConfirmedDeposit) (origin : UtxoOrigin)
    : FinishedDeposit :=
  mkFinishedDeposit (bcd_deposit_id btc)
    (mkUtxo (bcd_amount btc) (bcd_script_pubkey btc) origin (bcd_block_time btc)).

(** What Bitcoin holds at an outpoint ([rpc/btc.rs]). *)
Inductive OutpointState :=
| Missing
| Spent
| Unspent (block_time : UnixSeconds).

(** ** Cursors *)

Record Cursors := mkCursors { cur_sui : UnixSeconds; cur_guardian : UnixSeconds }.

Definition for_event_type (self : Cursors) (et : WithdrawalEventType) : total UnixSeconds :=
  match et with
  | E1HashiApproved => Ok (cur_sui self)
  | E2GuardianApproved => Ok (cur_guardian self)
  | E3BtcConfirmed => Panic
  end.

(** ** Findings *)

Inductive AlertMode := Strict | Essential.

#[export] Instance AlertMode_eq_dec : EqDecision AlertMode.
Proof. solve_decision. Defined.

Inductive EventRelation := Predecessor | Successor.

Inductive UnapprovedCause := AmountMismatch | PaidAfterExpiry | SanctionOrWithheld.

#[export] Instance UnapprovedCause_eq_dec : EqDecision UnapprovedCause.
Proof. solve_decision. Defined.

Inductive EventTiming :=
| Late (event : MonitorWithdrawalEvent)
| MissingBy (cursor : UnixSeconds).

Inductive EventDiff := DiffTxid | DiffFull | DiffTx.

Inductive WithdrawalInvalidReason :=
| TxidMismatch (event : MonitorWithdrawalEvent) (computed : Txid)
| Unbuildable (event : MonitorWithdrawalEvent)
| EventsDiffer (kind : EventDiff) (held new : MonitorWithdrawalEvent)
| InputClaimed (outpoint : OutPoint) (other : WithdrawalID).

Inductive DepositMismatchReason :=
| PaymentDiffers (sui : SuiDepositApprovedEvent) (btc : BtcConfirmedDeposit)
| ApprovalDiffers (request : SuiDepositRequestedEvent) (approval : SuiDepositApprovedEvent)
| RequestDiffers (held new : SuiDepositRequestedEvent).

Inductive BtcRpcInconsistency :=
| UtxoMismatch (outpoint : OutPoint) (held_amount seen_amount : Z)
    (held_script seen_script : ScriptBuf)
| UtxoVanished (outpoint : OutPoint) (first_seen : UnixSeconds).

Inductive GuardianInconsistency :=
| SeqDuplicate (seq : Z) (object_key : string)
| SeqGap (seq : Z) (expect_by : UnixSeconds)
| SeqJump (next_seq seq : Z) (object_key : string)
| WithdrawalLogUnreadable (object_key : string) (w : WithdrawalID).

Inductive MonitorFinding :=
| WithdrawalUnapproved (w : WithdrawalID) (event_type : WithdrawalEventType)
    (deadline : UnixSeconds) (timing : EventTiming)
| WithdrawalStuck (w : WithdrawalID) (event_type : WithdrawalEventType)
    (deadline : UnixSeconds) (timing : EventTiming)
| WithdrawalInvalid (w : WithdrawalID) (reason : WithdrawalInvalidReason)
| DepositUnbacked (sui : SuiDepositApprovedEvent)
| DepositMismatch (request_id : Address) (reason : DepositMismatchReason)
| DepositLate (sui : SuiDepositApprovedEvent) (deadline block_time : UnixSeconds)
| DepositNotApproved (outpoint : OutPoint) (requested_amount paid_amount : Z)
    (requested_at block_time : UnixSeconds) (causes : list UnapprovedCause)
| UtxoUnexpectedSpend (outpoint : OutPoint) (amount : Z)
| UtxoOutsideMovePoolSpent (outpoint : OutPoint) (txid : Txid) (held : option UtxoOrigin)
| UtxoOriginConflict (outpoint : OutPoint) (held new : UtxoOrigin)
| UtxoTooOld (outpoint : OutPoint) (age_secs threshold_secs : Z)
| HbtcSupplyExceedsPool (hbtc_supply pool_value : Z) (since : UnixSeconds)
| FBtcRpcInconsistency (i : BtcRpcInconsistency)
| FGuardianInconsistency (i : GuardianInconsistency)
| GuardianClockSkew (session_id object_key : string) (logged_at_ms stored_at_ms : UnixMillis)
| SourceStale (source : string) (checked_through : UnixSeconds) (limit_secs : Z)
| SnapshotStale (last_saved : UnixSeconds) (limit_secs : Z).

Definition withdrawal_timing (w : WithdrawalID) (et : WithdrawalEventType)
    (relation : EventRelation) (deadline : UnixSeconds) (timing : EventTiming) : MonitorFinding :=
  match relation with
  | Predecessor => WithdrawalUnapproved w et deadline timing
  | Successor => WithdrawalStuck w et deadline timing
  end.

Definition is_essential (self : MonitorFinding) : bool :=
  match self with
  | DepositNotApproved _ _ _ _ _ _ => false
  | GuardianClockSkew _ _ _ _ => false
  | WithdrawalStuck _ _ _ _ => false
  | _ => true
  end.

Definition alerts_in (self : MonitorFinding) (mode : AlertMode) : bool :=
  bool_decide (mode = Strict) || is_essential self.

(** ** Timing bounds *)

Definition WITHDRAWAL_E1_TO_E2_DELAY : Z := 60 * 60.
Definition WITHDRAWAL_E2_TO_E3_DELAY : Z := 24 * 60 * 60.
Definition WITHDRAWAL_E1_AFTER_E2_SKEW : Z := 5 * 60.
Definition WITHDRAWAL_E2_AFTER_E3_SKEW : Z := 2 * 60 * 60.
Definition DEPOSIT_APPROVAL_SKEW : Z := 2 * 60 * 60.
Definition DEPOSIT_REQUEST_WATCH : Z := 2 * 24 * 60 * 60.
Definition DEPOSIT_REQUEST_EXPIRY : Z := 24 * 60 * 60.
Definition UTXO_MAX_AGE : Z := 40 * 24 * 60 * 60.

(** A [BTreeMap] collected from the list: the last bound of a key wins. *)
Definition EventBounds : Type := gmap WithdrawalEventType Z.

Inductive BoundsError :=
| TerminalBound (e : WithdrawalEventType)
| MissingBound (e : WithdrawalEventType).

Definition event_bounds_new (bounds : list (WithdrawalEventType * Z))
    : outcome BoundsError EventBounds :=
  let m : EventBounds := fold_left (fun m b => <[b.1 := b.2]> m) bounds ∅ in
  match m !! TERMINAL_EVENT with
  | Some _ => Err (TerminalBound TERMINAL_EVENT)
  | None =>
      match List.find (fun e => bool_decide (m !! e = None)) NON_TERMINAL_EVENTS with
      | Some e => Err (MissingBound e)
      | None => Ok m
      end
  end.

Record Timing := mkTiming {
  successor_delays : EventBounds;
  predecessor_skews : EventBounds;
  deposit_approval_skew : Z;
  deposit_request_watch : Z;
  deposit_request_expiry : Z;
  utxo_max_age : Z;
}.

Definition timing_default : outcome BoundsError Timing :=
  match
    event_bounds_new [(E1HashiApproved, WITHDRAWAL_E1_TO_E2_DELAY);
                      (E2GuardianApproved, WITHDRAWAL_E2_TO_E3_DELAY)],
    event_bounds_new [(E1HashiApproved, WITHDRAWAL_E1_AFTER_E2_SKEW);
                      (E2GuardianApproved, WITHDRAWAL_E2_AFTER_E3_SKEW)]
  with
  | Ok delays, Ok skews =>
      Ok (mkTiming delays skews DEPOSIT_APPROVAL_SKEW DEPOSIT_REQUEST_WATCH
            DEPOSIT_REQUEST_EXPIRY UTXO_MAX_AGE)
  | _, _ => Panic
  end.

Definition predecessor_deadline (self : Timing) (event : MonitorWithdrawalEvent)
    : total UnixSeconds :=
  p ← expect (predecessor (event_type event));
  skew ← expect (predecessor_skews self !! p);
  Ok (wadd (timestamp_secs event) skew).

Definition successor_deadline (self : Timing) (event : MonitorWithdrawalEvent)
    : total UnixSeconds :=
  delay ← expect (successor_delays self !! event_type event);
  Ok (wadd (timestamp_secs event) delay).

(** The causes of a missing approval. *)
Definition infer (requested_amount paid_amount : Z) (requested_at block_time : UnixSeconds)
    (timing : Timing) : list UnapprovedCause :=
  let causes :=
    (if paid_amount =? requested_amount then [] else [AmountMismatch])
    ++ (if wadd requested_at (deposit_request_expiry timing) <? block_time
        then [PaidAfterExpiry] else []) in
  match causes with [] => [SanctionOrWithheld] | _ => causes end.

Definition deposit_not_approved (outpoint : OutPoint) (utxo : Utxo) (timing : Timing)
    : option MonitorFinding :=
  match u_origin utxo with
  | UnapprovedDeposit requested_at requested_amount =>
      Some (DepositNotApproved outpoint requested_amount (u_amount utxo) requested_at
              (first_seen utxo)
              (infer requested_amount (u_amount utxo) requested_at (first_seen utxo) timing))
  | _ => None
  end.

(** ** Judging a Sui approval *)

Definition matches_request (self : SuiDepositApprovedEvent) (request : SuiDepositRequestedEvent)
    : bool :=
  (app_request_id self =? req_request_id request)
  && bool_decide (app_deposit_id self = req_deposit_id request)
  && (app_amount self =? req_amount request)
  && bool_decide (app_script_pubkey self = req_script_pubkey request).

Definition judge (self : SuiDepositApprovedEvent) (btc_deposit_info : option BtcConfirmedDeposit)
    (skew : Z) : list MonitorFinding :=
  match btc_deposit_info with
  | None => [DepositUnbacked self]
  | Some paid =>
      let deadline := wadd (app_timestamp_secs self) skew in
      (if deadline <? bcd_block_time paid
       then [DepositLate self deadline (bcd_block_time paid)] else [])
      ++ (if negb (app_amount self =? bcd_amount paid)
             || negb (bool_decide (app_script_pubkey self = bcd_script_pubkey paid))
          then [DepositMismatch (app_request_id self) (PaymentDiffers self paid)] else [])
  end.

(** ** Building events from their sources *)

(** [OutputUTXOWire]: the guardian labels each output. *)
Inductive OutputUTXOWire {UncheckedAddress : Type} :=
| External (address : UncheckedAddress) (amount : Z)
| Internal (path : DerivationPath) (amount : Z).
Arguments OutputUTXOWire : clear implicits.

Class BtcKeys := {
  UncheckedAddress : Type;
  (** [Address::require_network(keys.network())] and its [script_pubkey] *)
  checked_script : UncheckedAddress -> option ScriptBuf;
  (** [HashiBTCKeys::script_pubkey]: the script of the bridge address of a path *)
  bridge_script : DerivationPath -> ScriptBuf;
  (** [Transaction::compute_txid] *)
  compute_txid : Transaction -> Txid;
}.

Section sources.
Context `{BK : BtcKeys}.

Definition checked (et : WithdrawalEventType) (w : WithdrawalID) (claimed_txid : Txid)
    (t : WithdrawalTx) (timestamp : UnixSeconds)
    : outcome (list MonitorFinding) MonitorWithdrawalEvent :=
  let event := mkMonitorWithdrawalEvent et w timestamp claimed_txid t in
  match unsigned_tx t with
  | Some built =>
      if compute_txid built =? claimed_txid then Ok event
      else Err [WithdrawalInvalid w (TxidMismatch event (compute_txid built))]
  | None => Err [WithdrawalInvalid w (Unbuildable event)]
  end.

Record WithdrawalPickedForProcessing := mkWithdrawalPickedForProcessing {
  withdrawal_txn_id : Address;
  wp_txid : Txid;
  wp_inputs : list MoveUtxo;
  wp_withdrawal_outputs : list OutputUtxo;
  wp_change_outputs : list OutputUtxo;
  wp_timestamp_ms : UnixMillis;
}.

Definition from_sui_event (event : WithdrawalPickedForProcessing)
    : outcome (list MonitorFinding) MonitorWithdrawalEvent :=
  checked E1HashiApproved (withdrawal_txn_id event) (wp_txid event)
    (WithdrawalTx_new (wp_inputs event) (wp_withdrawal_outputs event) (wp_change_outputs event))
    (unix_millis_to_seconds (wp_timestamp_ms event)).

(** The guardian's inputs, each with its outpoint, amount and path. *)
Record InputUTXO := mkInputUTXO {
  iu_outpoint : OutPoint;
  iu_amount : Z;
  iu_derivation_path : DerivationPath;
}.

Record TxUTXOsWire := mkTxUTXOsWire {
  wire_inputs : list InputUTXO;
  wire_outputs : list (OutputUTXOWire UncheckedAddress);
}.

Fixpoint split_outputs (outputs : list (OutputUTXOWire UncheckedAddress))
    : option (list OutputUtxo * list OutputUtxo) :=
  match outputs with
  | [] => Some ([], [])
  | External address amount :: rest =>
      script ← checked_script address;
      program ← witness_program_from_script script;
      '(withdrawals, changes) ← split_outputs rest;
      Some (mkOutputUtxo amount program :: withdrawals, changes)
  | Internal path amount :: rest =>
      program ← witness_program_from_script (bridge_script path);
      '(withdrawals, changes) ← split_outputs rest;
      Some (withdrawals, mkOutputUtxo amount program :: changes)
  end.

Definition tx_from_guardian (utxos : TxUTXOsWire) : option WithdrawalTx :=
  '(withdrawals, changes) ← split_outputs (wire_outputs utxos);
  Some (WithdrawalTx_new
          ((fun i => mkMoveUtxo (iu_outpoint i) (iu_amount i) (Some (iu_derivation_path i)))
             <$> wire_inputs utxos)
          withdrawals changes).

Record WithdrawalLogMessage := mkWithdrawalLogMessage {
  wl_wid : WithdrawalID;
  wl_seq : Z;
  wl_utxos : TxUTXOsWire;
  wl_txid : Txid;
}.

Definition from_guardian (withdrawal : WithdrawalLogMessage) (object_key : string)
    (timestamp_ms : UnixMillis) : outcome (list MonitorFinding) MonitorWithdrawalEvent :=
  match tx_from_guardian (wl_utxos withdrawal) with
  | None => Err [FGuardianInconsistency (WithdrawalLogUnreadable object_key (wl_wid withdrawal))]
  | Some t =>
      checked E2GuardianApproved (wl_wid withdrawal) (wl_txid withdrawal) t
        (unix_millis_to_seconds timestamp_ms)
  end.

Record DepositRequested := mkDepositRequested {
  dr_request_id : Address;
  dr_utxo_id : OutPoint;
  dr_amount : Z;
  dr_derivation_path : option DerivationPath;
  dr_timestamp_ms : UnixMillis;
}.

Record DepositApproved := mkDepositApproved {
  da_request_id : Address;
  da_utxo : MoveUtxo;
  da_approved_timestamp_ms : UnixMillis;
}.

Definition requested_event_new (event : DepositRequested) : SuiDepositRequestedEvent :=
  mkSuiDepositRequestedEvent (dr_request_id event)
    (unix_millis_to_seconds (dr_timestamp_ms event)) (dr_utxo_id event) (dr_amount event)
    (bridge_script (default ZERO_PATH (dr_derivation_path event))).

Definition approved_event_new (event : DepositApproved) : SuiDepositApprovedEvent :=
  mkSuiDepositApprovedEvent (unix_millis_to_seconds (da_approved_timestamp_ms event))
    (da_request_id event) (mu_id (da_utxo event)) (mu_amount (da_utxo event))
    (bridge_script (default ZERO_PATH (derivation_path (da_utxo event)))).
End sources.
