(* ===== verification/WithdrawalMachine.v ===== *)
(** * The withdrawal state machine

    [crates/hashi-monitor/src/state_machine/withdrawal.rs]: one machine joins the
    three events of a withdrawal, whatever order its sources are read in, and judges
    every pair of neighbours by the timing bounds.  Index accesses, [expect]s and
    [assert!]s of the source are [total] outcomes; the theorems show that none of
    them fires on a reachable machine. *)

From S2P Require Import Prelude MonitorDomain.

Record WithdrawalStateMachine := mkWithdrawalStateMachine {
  seen_events : list MonitorWithdrawalEvent;
  expected_events : list (WithdrawalEventType * UnixSeconds * EventRelation);
  btc_checked_at : option UnixSeconds;
  btc_confirmation : option BtcConfirmation;
  sm_wid : WithdrawalID;
  sm_btc_txid : Txid;
  sm_tx : WithdrawalTx;
}.

Definition with_events (self : WithdrawalStateMachine) (seen : list MonitorWithdrawalEvent)
    (expected : list (WithdrawalEventType * UnixSeconds * EventRelation))
    : WithdrawalStateMachine :=
  mkWithdrawalStateMachine seen expected (btc_checked_at self) (btc_confirmation self)
    (sm_wid self) (sm_btc_txid self) (sm_tx self).

Definition get (self : WithdrawalStateMachine) (et : WithdrawalEventType)
    : option MonitorWithdrawalEvent :=
  List.find (fun e => bool_decide (event_type e = et)) (seen_events self).

Definition finished (self : WithdrawalStateMachine) : option FinishedWithdrawal :=
  e2 ← get self E2GuardianApproved;
  confirmation ← btc_confirmation self;
  Some (finished_from_confirmation e2 confirmation).

Definition events_differ (self : WithdrawalStateMachine) (kind : EventDiff)
    (held new : MonitorWithdrawalEvent) : MonitorFinding :=
  WithdrawalInvalid (sm_wid self) (EventsDiffer kind held new).

Definition expects (self : WithdrawalStateMachine) (et : WithdrawalEventType) : bool :=
  existsb (fun x => bool_decide (x.1.1 = et)) (expected_events self).

Definition expects_btc (self : WithdrawalStateMachine) : bool :=
  bool_decide (is_Some (get self E1HashiApproved))
  && bool_decide (get self E3BtcConfirmed = None).

Definition is_ready_for_gc (self : WithdrawalStateMachine) : bool :=
  match expected_events self with [] => true | _ => false end.

Definition expected_event_types (self : WithdrawalStateMachine) : list WithdrawalEventType :=
  (fun x => x.1.1) <$> expected_events self.

(** [Iterator::min] over the timestamps. *)
Definition min_list (l : list Z) : option Z :=
  match l with [] => None | x :: l => Some (fold_left Z.min l x) end.

Definition earliest_event_at (self : WithdrawalStateMachine) : total UnixSeconds :=
  expect (min_list (timestamp_secs <$> seen_events self)).

Definition late (event : MonitorWithdrawalEvent) (relation : EventRelation)
    (deadline : UnixSeconds) : MonitorFinding :=
  withdrawal_timing (wid event) (event_type event) relation deadline (Late event).

Definition neighbor_timing_findings (pred succ : MonitorWithdrawalEvent) (timing : Timing)
    : total (list MonitorFinding) :=
  sd ← successor_deadline timing pred;
  pd ← predecessor_deadline timing succ;
  Ok ((if sd <? timestamp_secs succ then [late succ Successor sd] else [])
      ++ (if pd <? timestamp_secs pred then [late pred Predecessor pd] else [])).

(** What [add_event] does for one neighbour type: a finding if the neighbour was seen,
    otherwise an expectation. *)
Definition check_predecessor (self : WithdrawalStateMachine) (new_event : MonitorWithdrawalEvent)
    (timing : Timing)
    : total (list MonitorFinding * list (WithdrawalEventType * UnixSeconds * EventRelation)) :=
  match predecessor (event_type new_event) with
  | None => Ok ([], [])
  | Some pt =>
      match get self pt with
      | Some p => fs ← neighbor_timing_findings p new_event timing; Ok (fs, [])
      | None => d ← predecessor_deadline timing new_event; Ok ([], [(pt, d, Predecessor)])
      end
  end.

Definition check_successor (self : WithdrawalStateMachine) (new_event : MonitorWithdrawalEvent)
    (timing : Timing)
    : total (list MonitorFinding * list (WithdrawalEventType * UnixSeconds * EventRelation)) :=
  match successor (event_type new_event) with
  | None => Ok ([], [])
  | Some st =>
      match get self st with
      | Some s => fs ← neighbor_timing_findings new_event s timing; Ok (fs, [])
      | None => d ← successor_deadline timing new_event; Ok ([], [(st, d, Successor)])
      end
  end.

Definition add_event (self : WithdrawalStateMachine) (new_event : MonitorWithdrawalEvent)
    (timing : Timing) : total (list MonitorFinding * WithdrawalStateMachine) :=
  if negb (sm_btc_txid self =? btc_txid new_event) then
    first ← expect (head (seen_events self));
    Ok ([events_differ self DiffTxid first new_event], self)
  else
    match get self (event_type new_event) with
    | Some existing_event =>
        if bool_decide (existing_event = new_event) then Ok ([], self)
        else Ok ([events_differ self DiffFull existing_event new_event], self)
    | None =>
        tx_findings ←
          (if bool_decide (tx new_event = sm_tx self) then Ok []
           else (first ← expect (head (seen_events self));
                 Ok [events_differ self DiffTx first new_event]));
        '(fp, ep) ← check_predecessor self new_event timing;
        '(fs, es) ← check_successor self new_event timing;
        let expected :=
          List.filter (fun x => negb (bool_decide (x.1.1 = event_type new_event)))
            (expected_events self ++ ep ++ es) in
        Ok (tx_findings ++ fp ++ fs,
            with_events self (seen_events self ++ [new_event]) expected)
    end.

Definition machine_new (event : MonitorWithdrawalEvent) (timing : Timing)
    : total WithdrawalStateMachine :=
  let sm := mkWithdrawalStateMachine [] [] None None (wid event) (btc_txid event) (tx event) in
  '(findings, sm) ← add_event sm event timing;
  _ ← assert (match findings with [] => true | _ => false end);
  Ok sm.

(** A result that is either an RPC error, which leaves the machine alone, or the
    findings and the new machine. *)
Definition lift {E A} (m : total A) : outcome E A :=
  match m with Ok a => Ok a | Err e => match e with end | Panic => Panic end.

(** [lookup] is what the RPC client answers for this transaction. *)
Definition try_fetch_btc_tx {E} (self : WithdrawalStateMachine) (timing : Timing)
    (lookup : Txid -> outcome E (option BtcConfirmation)) (checked_at : UnixSeconds)
    : outcome E (list MonitorFinding * WithdrawalStateMachine) :=
  if negb (expects_btc self) then Ok ([], self)
  else
    confirmation ← lookup (sm_btc_txid self);
    match confirmation with
    | Some c =>
        let e_btc := from_btc c (sm_wid self) (sm_btc_txid self) (sm_tx self) in
        lift (add_event
          (mkWithdrawalStateMachine (seen_events self) (expected_events self) (Some checked_at)
             (Some c) (sm_wid self) (sm_btc_txid self) (sm_tx self)) e_btc timing)
    | None =>
        Ok ([], mkWithdrawalStateMachine (seen_events self) (expected_events self)
                  (Some checked_at) (btc_confirmation self) (sm_wid self) (sm_btc_txid self)
                  (sm_tx self))
    end.

(** The findings of one expectation. *)
Definition violation (self : WithdrawalStateMachine) (cursors : Cursors)
    (x : WithdrawalEventType * UnixSeconds * EventRelation) : total (list MonitorFinding) :=
  let '(et, deadline, relation) := x in
  cursor ← match et with
           | E3BtcConfirmed => Ok (btc_checked_at self)
           | _ => c ← for_event_type cursors et; Ok (Some c)
           end;
  match cursor with
  | None => Ok []
  | Some cursor =>
      if deadline <=? cursor
      then Ok [withdrawal_timing (sm_wid self) et relation deadline (MissingBy cursor)]
      else Ok []
  end.

Fixpoint collect {A} (f : A -> total (list MonitorFinding)) (l : list A)
    : total (list MonitorFinding) :=
  match l with
  | [] => Ok []
  | x :: l => fs ← f x; rest ← collect f l; Ok (fs ++ rest)
  end.

Definition timing_violations (self : WithdrawalStateMachine) (cursors : Cursors)
    : total (list MonitorFinding) :=
  collect (violation self cursors) (expected_events self).

(** ** Well-formed timing bounds *)

Definition bounds_ok (b : EventBounds) : Prop :=
  is_Some (b !! E1HashiApproved) /\ is_Some (b !! E2GuardianApproved)
  /\ b !! E3BtcConfirmed = None.

Definition timing_ok (t : Timing) : Prop :=
  bounds_ok (successor_delays t) /\ bounds_ok (predecessor_skews t).

(** The constructor admits exactly the well-formed bounds. *)
Lemma event_bounds_new_ok l b : event_bounds_new l = Ok b -> bounds_ok b.
Proof.
  unfold event_bounds_new, bounds_ok, TERMINAL_EVENT. set (m := fold_left _ _ _).
  destruct (m !! E3BtcConfirmed) eqn:E3; [done|]. unfold NON_TERMINAL_EVENTS. cbn [List.find].
  destruct (bool_decide (m !! E1HashiApproved = None)) eqn:E1; [done|].
  destruct (bool_decide (m !! E2GuardianApproved = None)) eqn:E2; [done|].
  intros [= <-]. apply bool_decide_eq_false in E1, E2. by rewrite <- !not_eq_None_Some.
Qed.

Lemma timing_default_ok : exists t, timing_default = Ok t /\ timing_ok t.
Proof.
  unfold timing_default.
  destruct (event_bounds_new _) as [d| |] eqn:Ed; [|by vm_compute in Ed..].
  destruct (event_bounds_new [(_, WITHDRAWAL_E1_AFTER_E2_SKEW); _]) as [s| |] eqn:Es;
    [|by vm_compute in Es..].
  eexists. split; [done|]. split; by eapply event_bounds_new_ok.
Qed.

(** The deadlines as plain numbers. *)
Definition pred_deadline (t : Timing) (e : MonitorWithdrawalEvent) : Z :=
  wadd (timestamp_secs e)
    (default 0 (predecessor (event_type e) ≫= fun p => predecessor_skews t !! p)).
Definition succ_deadline (t : Timing) (e : MonitorWithdrawalEvent) : Z :=
  wadd (timestamp_secs e) (default 0 (successor_delays t !! event_type e)).

Lemma predecessor_deadline_Ok t e p :
  timing_ok t -> predecessor (event_type e) = Some p ->
  predecessor_deadline t e = Ok (pred_deadline t e).
Proof.
  intros [_ ([s1 H1] & [s2 H2] & _)] Hp. unfold predecessor_deadline, pred_deadline.
  rewrite Hp. cbn. destruct (event_type e); cbn in Hp; simplify_eq; by rewrite ?H1, ?H2.
Qed.

Lemma successor_deadline_Ok t e s :
  timing_ok t -> successor (event_type e) = Some s ->
  successor_deadline t e = Ok (succ_deadline t e).
Proof.
  intros [([s1 H1] & [s2 H2] & _) _] Hp. unfold successor_deadline, succ_deadline.
  destruct (event_type e); cbn in Hp; simplify_eq; by rewrite ?H1, ?H2.
Qed.

Lemma predecessor_successor a b : predecessor a = Some b <-> successor b = Some a.
Proof. destruct a, b; cbn; split; congruence. Qed.

(** ** Specification: expectations and findings as functions of the events seen *)

Abbreviation expectation := (WithdrawalEventType * UnixSeconds * EventRelation)%type.

(** What one event implies about its neighbours. *)
Definition neighbors (t : Timing) (e : MonitorWithdrawalEvent) : list expectation :=
  match predecessor (event_type e) with
  | Some p => [(p, pred_deadline t e, Predecessor)] | None => [] end
  ++ match successor (event_type e) with
     | Some s => [(s, succ_deadline t e, Successor)] | None => [] end.

Definition unseen (seen : list MonitorWithdrawalEvent) (x : expectation) : bool :=
  bool_decide (x.1.1 ∉ event_type <$> seen).

Definition spec_expected (t : Timing) (seen : list MonitorWithdrawalEvent) : list expectation :=
  List.filter (unseen seen) (seen ≫= neighbors t).

(** The timing findings of an ordered pair of events. *)
Definition pair_findings (t : Timing) (a b : MonitorWithdrawalEvent) : list MonitorFinding :=
  if bool_decide (successor (event_type a) = Some (event_type b)) then
    (if succ_deadline t a <? timestamp_secs b then [late b Successor (succ_deadline t a)] else [])
    ++ (if pred_deadline t b <? timestamp_secs a
        then [late a Predecessor (pred_deadline t b)] else [])
  else [].

Definition spec_findings (t : Timing) (seen : list MonitorWithdrawalEvent) : list MonitorFinding :=
  seen ≫= fun a => seen ≫= fun b => pair_findings t a b.

(** Same events, other order: same expectations and findings. *)
#[export] Instance spec_expected_perm t : Proper ((≡ₚ) ==> (≡ₚ)) (spec_expected t).
Proof.
  intros l k H. unfold spec_expected. erewrite filter_ext.
  - apply bool_filter_perm. by rewrite H.
  - intros x. unfold unseen. apply bool_decide_ext. by rewrite H.
Qed.

#[export] Instance spec_findings_perm t : Proper ((≡ₚ) ==> (≡ₚ)) (spec_findings t).
Proof.
  intros l k H. unfold spec_findings. rewrite H.
  apply bind_pointwise_perm. intros x. by rewrite H.
Qed.

(** ** One event *)

Abbreviation types := (fmap (M:=list) event_type).

Lemma find_Some_elem (l : list MonitorWithdrawalEvent) et e :
  List.find (fun e => bool_decide (event_type e = et)) l = Some e -> e ∈ l /\ event_type e = et.
Proof.
  intros [Hin Ht]%find_some. split; [by apply list_elem_of_In|by apply bool_decide_eq_true in Ht].
Qed.

Lemma find_None_types (l : list MonitorWithdrawalEvent) et :
  List.find (fun e => bool_decide (event_type e = et)) l = None <-> et ∉ types l.
Proof.
  split.
  - intros H (e & -> & He)%list_elem_of_fmap.
    apply list_elem_of_In, (find_none _ _ H), bool_decide_eq_false in He. done.
  - intros H. destruct (find _ l) eqn:E; [|done]. apply find_Some_elem in E as [Hin <-].
    destruct H. by apply list_elem_of_fmap_2.
Qed.

Lemma get_None sm et : get sm et = None <-> et ∉ types (seen_events sm).
Proof. apply find_None_types. Qed.

(** A function of the events that looks at one type only. *)
Lemma bind_one_type {B} (f : MonitorWithdrawalEvent -> list B) (l : list MonitorWithdrawalEvent) et :
  NoDup (types l) -> (forall a, event_type a <> et -> f a = []) ->
  l ≫= f = match List.find (fun e => bool_decide (event_type e = et)) l with
           | Some p => f p | None => [] end.
Proof.
  intros Hnd Hf. induction l as [|a l IH]; cbn; [done|].
  inversion Hnd as [|? ? Hnin Hnd']; subst. case_bool_decide as Ha.
  - rewrite IH, (proj2 (find_None_types l et)); [by rewrite app_nil_r|by rewrite <- Ha|done].
  - by rewrite (Hf a Ha), IH.
Qed.

Lemma neighbor_timing_Ok t a b :
  timing_ok t -> successor (event_type a) = Some (event_type b) ->
  neighbor_timing_findings a b t = Ok (pair_findings t a b).
Proof.
  intros Ht Hs. unfold neighbor_timing_findings, pair_findings.
  rewrite (successor_deadline_Ok _ _ _ Ht Hs), bool_decide_true by done.
  apply predecessor_successor in Hs. by rewrite (predecessor_deadline_Ok _ _ _ Ht Hs).
Qed.

Lemma pair_findings_pred t e et a :
  predecessor (event_type e) = Some et -> event_type a <> et -> pair_findings t a e = [].
Proof.
  intros Hp Ha. unfold pair_findings. rewrite bool_decide_false; [done|].
  intros Hs. apply predecessor_successor in Hs. congruence.
Qed.

Lemma pair_findings_succ t e et b :
  successor (event_type e) = Some et -> event_type b <> et -> pair_findings t e b = [].
Proof. intros Hs Hb. unfold pair_findings. rewrite bool_decide_false; [done|congruence]. Qed.

Lemma bind_nil {A B} (f : A -> list B) l : (forall x, f x = []) -> l ≫= f = [].
Proof. intros Hf. induction l as [|x l IH]; cbn; [done|]. by rewrite Hf, IH. Qed.

Section one_event.
Context (t : Timing) (sm : WithdrawalStateMachine) (e : MonitorWithdrawalEvent).
Hypothesis Ht : timing_ok t.
Hypothesis Hnd : NoDup (types (seen_events sm)).

Lemma check_predecessor_Ok :
  check_predecessor sm e t =
  Ok (seen_events sm ≫= (fun a => pair_findings t a e),
      List.filter (unseen (seen_events sm))
        match predecessor (event_type e) with
        | Some p => [(p, pred_deadline t e, Predecessor)] | None => [] end).
Proof.
  unfold check_predecessor. destruct (predecessor (event_type e)) as [pt|] eqn:Hp.
  - rewrite (bind_one_type _ _ pt Hnd) by (intros; by eapply pair_findings_pred).
    unfold get. destruct (find _ (seen_events sm)) as [p|] eqn:Hg; cbn; unfold unseen; cbn.
    + apply find_Some_elem in Hg as [Hin Hpt].
      rewrite neighbor_timing_Ok by (done || by apply predecessor_successor; rewrite Hpt). cbn.
      rewrite bool_decide_false; [done|]. intros Hn. apply Hn. rewrite <- Hpt.
      by apply list_elem_of_fmap_2.
    + apply find_None_types in Hg. rewrite (predecessor_deadline_Ok _ _ _ Ht Hp). cbn.
      by rewrite bool_decide_true.
  - rewrite bind_nil; [done|]. intros a. unfold pair_findings.
    rewrite bool_decide_false; [done|]. intros Hs%predecessor_successor. congruence.
Qed.

Lemma check_successor_Ok :
  check_successor sm e t =
  Ok (seen_events sm ≫= (fun b => pair_findings t e b),
      List.filter (unseen (seen_events sm))
        match successor (event_type e) with
        | Some s => [(s, succ_deadline t e, Successor)] | None => [] end).
Proof.
  unfold check_successor. destruct (successor (event_type e)) as [st|] eqn:Hs.
  - rewrite (bind_one_type _ _ st Hnd) by (intros; by eapply pair_findings_succ).
    unfold get. destruct (find _ (seen_events sm)) as [s|] eqn:Hg; cbn; unfold unseen; cbn.
    + apply find_Some_elem in Hg as [Hin Hst]. rewrite neighbor_timing_Ok by (done || by rewrite Hst).
      cbn. rewrite bool_decide_false; [done|]. intros Hn. apply Hn. rewrite <- Hst.
      by apply list_elem_of_fmap_2.
    + apply find_None_types in Hg. rewrite (successor_deadline_Ok _ _ _ Ht Hs). cbn.
      by rewrite bool_decide_true.
  - rewrite bind_nil; [done|]. intros a. unfold pair_findings.
    rewrite bool_decide_false; [done|]. congruence.
Qed.
End one_event.

Lemma bind_bind_snoc {A B} (f : A -> A -> list B) l k e :
  l ≫= (fun a => (k ++ [e]) ≫= f a) ≡ₚ (l ≫= fun a => k ≫= f a) ++ (l ≫= fun a => f a e).
Proof.
  induction l as [|a l IH]; cbn; [done|].
  rewrite IH, bind_app. cbn. rewrite app_nil_r, <- !app_assoc. apply Permutation_app_head.
  rewrite !app_assoc. by rewrite (Permutation_app_comm (f a e)).
Qed.

(** The pairs a new event forms. *)
Lemma spec_findings_snoc t l e :
  spec_findings t (l ++ [e])
  ≡ₚ spec_findings t l
     ++ (l ≫= fun a => pair_findings t a e) ++ (l ≫= fun b => pair_findings t e b).
Proof.
  unfold spec_findings. rewrite bind_app, bind_bind_snoc. cbn. rewrite app_nil_r, bind_app. cbn.
  assert (pair_findings t e e = []) as ->.
  { unfold pair_findings. rewrite bool_decide_false; [done|]. by destruct (event_type e). }
  by rewrite !app_nil_r, <- app_assoc.
Qed.

Lemma filter_filter_bool {A} (f g : A -> bool) l :
  List.filter f (List.filter g l) = List.filter (fun x => g x && f x) l.
Proof.
  induction l as [|x l IH]; cbn; [done|]. destruct (g x); cbn; [|done]. by rewrite IH.
Qed.

Lemma spec_expected_snoc t l e :
  spec_expected t (l ++ [e])
  = List.filter (fun x => negb (bool_decide (x.1.1 = event_type e)))
      (spec_expected t l ++ List.filter (unseen l) (neighbors t e)).
Proof.
  unfold spec_expected. rewrite bind_app. cbn. rewrite app_nil_r.
  rewrite <- List.filter_app, filter_filter_bool. apply filter_ext. intros x. unfold unseen.
  rewrite fmap_app. cbn.
  destruct (bool_decide (x.1.1 ∉ types l)) eqn:H1, (bool_decide (x.1.1 = event_type e)) eqn:H2;
    rewrite ?bool_decide_eq_true, ?bool_decide_eq_false in *; cbn;
    rewrite ?bool_decide_eq_true, ?bool_decide_eq_false; set_solver.
Qed.

(** ** The invariant *)

(** The finding for a transaction that is not the one the first event stated. *)
Definition tx_findings (sm : WithdrawalStateMachine) (e : MonitorWithdrawalEvent)
    : list MonitorFinding :=
  if bool_decide (tx e = sm_tx sm) then []
  else match seen_events sm with
       | first :: _ => [events_differ sm DiffTx first e]
       | [] => []
       end.

Definition timing_part (t : Timing) (seen : list MonitorWithdrawalEvent)
    (e : MonitorWithdrawalEvent) : list MonitorFinding :=
  (seen ≫= fun a => pair_findings t a e) ++ (seen ≫= fun b => pair_findings t e b).

Record inv (t : Timing) (sm : WithdrawalStateMachine) : Prop := {
  inv_seen : exists e, e ∈ seen_events sm;
  inv_nodup : NoDup (types (seen_events sm));
  inv_txid : Forall (fun e => btc_txid e = sm_btc_txid sm) (seen_events sm);
  inv_wid : Forall (fun e => wid e = sm_wid sm) (seen_events sm);
  inv_expected : expected_events sm ≡ₚ spec_expected t (seen_events sm);
  inv_conf : is_Some (btc_confirmation sm) <-> E3BtcConfirmed ∈ types (seen_events sm);
  inv_e1 : E3BtcConfirmed ∈ types (seen_events sm) -> E1HashiApproved ∈ types (seen_events sm);
}.

(** An event of a new type with the right txid is stored. *)
Lemma add_event_stored t sm e :
  timing_ok t -> NoDup (types (seen_events sm)) ->
  expected_events sm ≡ₚ spec_expected t (seen_events sm) ->
  sm_btc_txid sm = btc_txid e -> event_type e ∉ types (seen_events sm) ->
  (tx e = sm_tx sm \/ exists e', e' ∈ seen_events sm) ->
  exists expected, expected ≡ₚ spec_expected t (seen_events sm ++ [e])
    /\ add_event sm e t = Ok (tx_findings sm e ++ timing_part t (seen_events sm) e,
                              with_events sm (seen_events sm ++ [e]) expected).
Proof.
  intros Ht Hnd Hexp Htx Hty Hfirst. unfold add_event.
  rewrite (proj2 (Z.eqb_eq _ _) Htx). cbn [negb]. rewrite (proj2 (get_None _ _) Hty).
  assert ((if bool_decide (tx e = sm_tx sm) then Ok []
           else (first ← expect (head (seen_events sm));
                 Ok [events_differ sm DiffTx first e])) = Ok (tx_findings sm e)) as ->.
  { unfold tx_findings. case_bool_decide; [done|]. destruct Hfirst as [|[e' He']]; [done|].
    destruct (seen_events sm); [by apply elem_of_nil in He'|done]. }
  rewrite check_predecessor_Ok, check_successor_Ok by done. cbn [mbind outcome_bind].
  eexists. split; [|reflexivity].
  rewrite spec_expected_snoc. apply bool_filter_perm. rewrite Hexp.
  unfold neighbors. by rewrite List.filter_app.
Qed.

(** Any event, in any state that satisfies the invariant. *)
Lemma add_event_cases t sm e :
  timing_ok t -> inv t sm ->
  (exists f, add_event sm e t = Ok ([f], sm))
  \/ (e ∈ seen_events sm /\ add_event sm e t = Ok ([], sm))
  \/ (sm_btc_txid sm = btc_txid e /\ event_type e ∉ types (seen_events sm)
      /\ exists expected, expected ≡ₚ spec_expected t (seen_events sm ++ [e])
         /\ add_event sm e t = Ok (tx_findings sm e ++ timing_part t (seen_events sm) e,
                                   with_events sm (seen_events sm ++ [e]) expected)).
Proof.
  intros Ht [Hseen Hnd Htxid Hwid Hexp Hconf He1].
  destruct (Z.eqb_spec (sm_btc_txid sm) (btc_txid e)) as [Htx|Htx].
  - destruct (get sm (event_type e)) as [x|] eqn:Hg.
    + unfold add_event. rewrite (proj2 (Z.eqb_eq _ _) Htx), Hg. cbn [negb].
      case_bool_decide as Hx; [|by left; eexists]. right. left. split; [|done].
      subst x. unfold get in Hg. by apply find_Some_elem in Hg as [? _].
    + apply get_None in Hg. right. right. split_and!; [done..|].
      apply add_event_stored; eauto.
  - left. unfold add_event. rewrite (proj2 (Z.eqb_neq _ _) Htx). cbn [negb].
    destruct Hseen as [e' He']. destruct (seen_events sm); [by apply elem_of_nil in He'|].
    by eexists.
Qed.

Lemma inv_stored t sm e expected :
  inv t sm -> wid e = sm_wid sm -> sm_btc_txid sm = btc_txid e ->
  event_type e ∉ types (seen_events sm) ->
  expected ≡ₚ spec_expected t (seen_events sm ++ [e]) ->
  (event_type e = E3BtcConfirmed -> is_Some (btc_confirmation sm)
                                    /\ E1HashiApproved ∈ types (seen_events sm)) ->
  (event_type e <> E3BtcConfirmed ->
     is_Some (btc_confirmation sm) -> E3BtcConfirmed ∈ types (seen_events sm)) ->
  inv t (with_events sm (seen_events sm ++ [e]) expected).
Proof.
  intros [Hseen Hnd Htxid Hwid Hexp Hconf He1] Hw Htx Hty Hexp' H3 Hn3.
  split; cbn; rewrite ?fmap_app, ?Forall_app; cbn.
  - exists e. set_solver.
  - apply NoDup_app. split; [done|]. split; [set_solver|]. apply NoDup_singleton.
  - split; [done|]. by repeat constructor.
  - split; [done|]. by repeat constructor.
  - done.
  - destruct (decide (event_type e = E3BtcConfirmed)) as [E|E].
    + rewrite E. destruct (H3 E). split; set_solver.
    + rewrite elem_of_app, list_elem_of_singleton. split; [auto|].
      intros [?|?]; [by apply Hconf|congruence].
  - intros [Hin|E]%elem_of_app; [set_solver|].
    apply list_elem_of_singleton in E. destruct (H3 (eq_sym E)). set_solver.
Qed.

Lemma machine_new_Ok t e :
  timing_ok t -> event_type e <> E3BtcConfirmed ->
  exists sm, machine_new e t = Ok sm /\ inv t sm /\ seen_events sm = [e]
    /\ sm_wid sm = wid e /\ sm_btc_txid sm = btc_txid e /\ sm_tx sm = tx e.
Proof.
  intros Ht Hty. unfold machine_new.
  set (sm0 := mkWithdrawalStateMachine [] [] None None (wid e) (btc_txid e) (tx e)).
  destruct (add_event_stored t sm0 e) as (ex & Hex & Hadd); cbn; try done;
    [constructor|set_solver|by left|].
  rewrite Hadd. unfold tx_findings. rewrite bool_decide_true by done. cbn.
  eexists. split_and!; try done. split; cbn.
  - exists e. set_solver.
  - apply NoDup_singleton.
  - by repeat constructor.
  - by repeat constructor.
  - done.
  - split; [by intros []|]. intros ?%list_elem_of_singleton. congruence.
  - intros ?%list_elem_of_singleton. congruence.
Qed.

(** The machines the auditor can hold: Sui and the guardian add E1 and E2, a Bitcoin
    lookup adds E3. *)
Inductive reachable (t : Timing) : WithdrawalStateMachine -> Prop :=
| reach_new e sm :
    event_type e <> E3BtcConfirmed -> machine_new e t = Ok sm -> reachable t sm
| reach_add sm e fs sm' :
    reachable t sm -> event_type e <> E3BtcConfirmed -> wid e = sm_wid sm ->
    add_event sm e t = Ok (fs, sm') -> reachable t sm'
| reach_fetch sm (lookup : Txid -> outcome unit (option BtcConfirmation)) at_ fs sm' :
    reachable t sm -> try_fetch_btc_tx sm t lookup at_ = Ok (fs, sm') -> reachable t sm'.

Lemma expects_btc_spec sm :
  expects_btc sm = true <->
  E1HashiApproved ∈ types (seen_events sm) /\ E3BtcConfirmed ∉ types (seen_events sm).
Proof.
  unfold expects_btc. rewrite andb_true_iff, !bool_decide_eq_true, <- not_eq_None_Some, !get_None.
  split; intros [H1 H2]; (split; [|done]); [by apply dec_stable in H1|tauto].
Qed.

(** A lookup that Bitcoin answered keeps the invariant, and stores E3 on a confirmation. *)
Lemma fetch_Ok {E} t sm (lookup : Txid -> outcome E (option BtcConfirmation)) at_ answer :
  timing_ok t -> inv t sm -> lookup (sm_btc_txid sm) = Ok answer ->
  exists fs sm', try_fetch_btc_tx sm t lookup at_ = Ok (fs, sm') /\ inv t sm'
    /\ (expects_btc sm = true -> btc_checked_at sm' = Some at_
        /\ btc_confirmation sm' = match answer with Some c => Some c | None => btc_confirmation sm end
        /\ (is_Some answer -> E3BtcConfirmed ∈ types (seen_events sm'))).
Proof.
  intros Ht Hinv Hl. unfold try_fetch_btc_tx.
  destruct (expects_btc sm) eqn:Hexp; cbn [negb]; [|by exists [], sm].
  rewrite Hl. cbn [mbind outcome_bind]. apply expects_btc_spec in Hexp as [H1 H3].
  destruct answer as [c|].
  - set (e := from_btc c (sm_wid sm) (sm_btc_txid sm) (sm_tx sm)).
    set (sm1 := mkWithdrawalStateMachine _ _ _ _ _ _ _).
    destruct (add_event_stored t sm1 e) as (ex & Hex & ->); try apply Hinv; try done; [by left|].
    eexists _, _. split; [reflexivity|]. split.
    + destruct Hinv as [Hs Hnd Htx Hw He Hc He1]. split; cbn; rewrite ?fmap_app, ?Forall_app; cbn.
      * exists e. set_solver.
      * apply NoDup_app. split; [done|]. split; [set_solver|]. apply NoDup_singleton.
      * split; [done|]. by repeat constructor.
      * split; [done|]. by repeat constructor.
      * done.
      * split; [set_solver|eauto].
      * set_solver.
    + intros _. split_and!; try done. intros _. cbn. rewrite fmap_app. set_solver.
  - eexists _, _. split; [reflexivity|]. split; [by destruct Hinv; split|].
    intros _. by split_and!.
Qed.

Lemma reachable_inv t sm : timing_ok t -> reachable t sm -> inv t sm.
Proof.
  intros Ht. induction 1 as [e sm Hty Hn|sm e fs sm' _ IH Hty Hw Ha|sm lookup at_ fs sm' _ IH Hf].
  - destruct (machine_new_Ok t e Ht Hty) as (sm' & Hn' & Hinv & _). rewrite Hn in Hn'.
    by injection Hn' as <-.
  - destruct (add_event_cases t sm e Ht IH) as [[f Hf]|[[_ Hf]|(Htx & Hn & ex & Hex & Hf)]];
      rewrite Hf in Ha; injection Ha as <- <-; [done|done|].
    apply inv_stored; try done. intros _. apply (inv_conf _ _ IH).
  - destruct (lookup (sm_btc_txid sm)) as [a| |] eqn:El.
    + destruct (fetch_Ok t sm lookup at_ a Ht IH El) as (fs1 & sm1 & Hf' & Hinv & _).
      rewrite Hf in Hf'. by injection Hf' as <- <-.
    + unfold try_fetch_btc_tx in Hf. destruct (negb (expects_btc sm)); [by simplify_eq|].
      by rewrite El in Hf.
    + unfold try_fetch_btc_tx in Hf. destruct (negb (expects_btc sm)); [by simplify_eq|].
      by rewrite El in Hf.
Qed.

(** ** Properties *)

Lemma min_list_Some l : l <> [] -> is_Some (min_list l).
Proof. by destruct l; cbn; eauto. Qed.

(** The cursor that decides whether an event is missing. *)
Definition cursor_for (sm : WithdrawalStateMachine) (cursors : Cursors) (et : WithdrawalEventType)
    : option UnixSeconds :=
  match et with
  | E1HashiApproved => Some (cur_sui cursors)
  | E2GuardianApproved => Some (cur_guardian cursors)
  | E3BtcConfirmed => btc_checked_at sm
  end.

Definition violation_of (sm : WithdrawalStateMachine) (cursors : Cursors) (x : expectation)
    : list MonitorFinding :=
  match cursor_for sm cursors x.1.1 with
  | Some c => if x.1.2 <=? c
              then [withdrawal_timing (sm_wid sm) x.1.1 x.2 x.1.2 (MissingBy c)] else []
  | None => []
  end.

Lemma timing_violations_Ok sm cursors :
  timing_violations sm cursors = Ok (expected_events sm ≫= violation_of sm cursors).
Proof.
  unfold timing_violations. induction (expected_events sm) as [|[[et d] r] l IH]; cbn; [done|].
  rewrite IH. unfold violation_of. destruct et; cbn; try by destruct (d <=? _).
  destruct (btc_checked_at sm); cbn; [|done]. by destruct (d <=? _).
Qed.

Lemma earliest_inv t sm : inv t sm -> exists x, earliest_event_at sm = Ok x.
Proof.
  intros Hinv. unfold earliest_event_at. destruct (inv_seen _ _ Hinv) as [e He].
  destruct (min_list_Some (timestamp_secs <$> seen_events sm)) as [m ->]; [|by eexists].
  intros E. by apply (f_equal length) in E; destruct (seen_events sm); [apply elem_of_nil in He|].
Qed.

(** An event of the machine's withdrawal keeps the invariant and the machine's identity. *)
Lemma add_event_inv t sm e :
  timing_ok t -> inv t sm -> event_type e <> E3BtcConfirmed -> wid e = sm_wid sm ->
  exists fs sm', add_event sm e t = Ok (fs, sm') /\ inv t sm' /\ sm_wid sm' = sm_wid sm.
Proof.
  intros Ht Hinv Hty Hw.
  destruct (add_event_cases t sm e Ht Hinv) as [[f ->]|[[_ ->]|(Htx & Hn & ex & Hex & ->)]];
    eexists _, _; (split; [reflexivity|]); try done. split; [|done].
  apply inv_stored; try done. intros _. apply (inv_conf _ _ Hinv).
Qed.

(** A lookup keeps the machine's identity. *)
Lemma fetch_wid {E} t sm (lookup : Txid -> outcome E (option BtcConfirmation)) at_ fs sm' :
  timing_ok t -> inv t sm -> try_fetch_btc_tx sm t lookup at_ = Ok (fs, sm') ->
  sm_wid sm' = sm_wid sm /\ sm_btc_txid sm' = sm_btc_txid sm.
Proof.
  intros Ht Hinv. unfold try_fetch_btc_tx. destruct (expects_btc sm) eqn:Hexp; cbn [negb]; [|by intros [= <- <-]].
  destruct (lookup (sm_btc_txid sm)) as [[c|]| |]; cbn [mbind outcome_bind]; try done; [|by intros [= <- <-]].
  apply expects_btc_spec in Hexp as [H1 H3].
  set (e := from_btc c (sm_wid sm) (sm_btc_txid sm) (sm_tx sm)). set (sm1 := mkWithdrawalStateMachine _ _ _ _ _ _ _).
  destruct (add_event_stored t sm1 e) as (ex & Hex & ->); try apply Hinv; try done; [by left|].
  by intros [= <- <-].
Qed.

(** The machine never panics.  On every machine the auditor can hold, adding any
    event, recording any lookup that does not itself panic, checking the deadlines
    against any cursors and reading the earliest time all return: the [expect]s on
    bounds and on the first event, the index into the events seen and the
    [unreachable!] on the E3 cursor never fire.  Creating a machine from a Sui or
    guardian event never trips its assertion. *)
Theorem withdrawal_machine_never_panics t sm :
  timing_ok t -> reachable t sm ->
  (forall e, add_event sm e t <> Panic)
  /\ (forall e, event_type e <> E3BtcConfirmed -> machine_new e t <> Panic)
  /\ (forall (lookup : Txid -> outcome unit (option BtcConfirmation)) at_,
        (forall x, lookup x <> Panic) -> try_fetch_btc_tx sm t lookup at_ <> Panic)
  /\ (forall cursors, timing_violations sm cursors <> Panic)
  /\ earliest_event_at sm <> Panic.
Proof.
  intros Ht Hr. pose proof (reachable_inv t sm Ht Hr) as Hinv. split_and!.
  - intros e. by destruct (add_event_cases t sm e Ht Hinv)
      as [[f ->]|[[_ ->]|(_ & _ & ex & _ & ->)]].
  - intros e He. by destruct (machine_new_Ok t e Ht He) as (sm' & -> & _).
  - intros lookup at_ Hl. specialize (Hl (sm_btc_txid sm)).
    destruct (lookup (sm_btc_txid sm)) as [a|u|] eqn:El; [|unfold try_fetch_btc_tx|done].
    + by destruct (fetch_Ok t sm lookup at_ a Ht Hinv El) as (? & ? & -> & _).
    + rewrite El. by destruct (negb (expects_btc sm)).
  - intros cursors. by rewrite timing_violations_Ok.
  - by destruct (earliest_inv t sm Hinv) as [x ->].
Qed.

Lemma elem_of_neighbors t e et :
  (exists d r, (et, d, r) ∈ neighbors t e)
  <-> predecessor (event_type e) = Some et \/ successor (event_type e) = Some et.
Proof.
  unfold neighbors. destruct (event_type e); cbn; set_solver.
Qed.

Lemma elem_of_spec_expected t seen x :
  x ∈ spec_expected t seen
  <-> x.1.1 ∉ types seen /\ exists e, e ∈ seen /\ x ∈ neighbors t e.
Proof.
  unfold spec_expected. rewrite elem_of_bool_filter. unfold unseen.
  rewrite bool_decide_eq_true, list_elem_of_bind. set_solver.
Qed.

(** Nothing is expected exactly when the three events are there. *)
Lemma spec_expected_nil t seen :
  (exists e, e ∈ seen) ->
  spec_expected t seen = [] <->
  E1HashiApproved ∈ types seen /\ E2GuardianApproved ∈ types seen /\ E3BtcConfirmed ∈ types seen.
Proof.
  intros [e0 He0]. split.
  - intros Hnil.
    assert (forall a b, a ∈ types seen -> (predecessor a = Some b \/ successor a = Some b) ->
              b ∈ types seen) as Hcl.
    { intros a b (e & -> & He)%list_elem_of_fmap Hab.
      apply (elem_of_neighbors t e b) in Hab as (d & r & Hin).
      destruct (decide (b ∈ types seen)); [done|].
      assert ((b, d, r) ∈ spec_expected t seen) as Hx by (apply elem_of_spec_expected; eauto).
      rewrite Hnil in Hx. by apply elem_of_nil in Hx. }
    assert (event_type e0 ∈ types seen) as Ht0 by by apply list_elem_of_fmap_2.
    destruct (event_type e0); eauto 10.
  - intros (H1 & H2 & H3). apply Permutation_nil_r, Permutation_nil_r.
    destruct (spec_expected t seen) as [|x l] eqn:E; [done|].
    assert (x ∈ spec_expected t seen) as Hx by (rewrite E; left).
    apply elem_of_spec_expected in Hx as [Hn _]. by destruct x as [[[] ?] ?].
Qed.

(** Collection, on any machine that satisfies the invariant. *)
Lemma inv_ready t sm :
  inv t sm ->
  (is_ready_for_gc sm = true <->
     is_Some (get sm E1HashiApproved) /\ is_Some (get sm E2GuardianApproved)
     /\ is_Some (get sm E3BtcConfirmed))
  /\ (is_ready_for_gc sm = true ->
      exists e2 c, get sm E2GuardianApproved = Some e2 /\ btc_confirmation sm = Some c
        /\ finished sm = Some (mkFinishedWithdrawal (sm_btc_txid sm) c
                                 (length (tx_withdrawal_outputs (tx e2))))).
Proof.
  intros Hinv.
  assert (is_ready_for_gc sm = true <-> spec_expected t (seen_events sm) = []) as Hready.
  { pose proof (inv_expected _ _ Hinv) as Hp. unfold is_ready_for_gc.
    destruct (expected_events sm) eqn:E.
    - apply Permutation_nil_l in Hp. by rewrite <- Hp.
    - split; [done|]. intros Hn. rewrite Hn in Hp. by apply Permutation_nil_r in Hp. }
  assert (forall et, is_Some (get sm et) <-> et ∈ types (seen_events sm)) as Hget.
  { intros et. rewrite <- not_eq_None_Some, get_None. destruct (decide (et ∈ types (seen_events sm))); tauto. }
  rewrite Hready, (spec_expected_nil t _ (inv_seen _ _ Hinv)), !Hget. split; [done|].
  intros (_ & H2 & H3). apply Hget in H2 as [e2 He2]. apply (inv_conf _ _ Hinv) in H3 as [c Hc].
  exists e2, c. split_and!; [done..|]. unfold finished. rewrite He2, Hc. cbn.
  unfold finished_from_confirmation. unfold get in He2. apply find_Some_elem in He2 as [Hin _].
  pose proof (inv_txid _ _ Hinv) as Htx. rewrite Forall_forall in Htx. by rewrite (Htx e2 Hin).
Qed.

(** A machine is dropped exactly when its withdrawal is complete.  It is ready for
    collection if and only if E1, E2 and E3 were all seen; it then yields a finished
    withdrawal with the confirmation Bitcoin gave, the txid every event carries and
    the guardian's change layout, so the collection's [expect]s hold. *)
Theorem ready_for_gc_iff_complete t sm :
  timing_ok t -> reachable t sm ->
  (is_ready_for_gc sm = true <->
     is_Some (get sm E1HashiApproved) /\ is_Some (get sm E2GuardianApproved)
     /\ is_Some (get sm E3BtcConfirmed))
  /\ (is_ready_for_gc sm = true ->
      exists e2 c, get sm E2GuardianApproved = Some e2 /\ btc_confirmation sm = Some c
        /\ finished sm = Some (mkFinishedWithdrawal (sm_btc_txid sm) c
                                 (length (tx_withdrawal_outputs (tx e2))))).
Proof. intros Ht Hr. by apply (inv_ready t), reachable_inv. Qed.

(** Missing events are reported exactly.  A finding of [timing_violations] is there
    if and only if some event was seen whose neighbour was not, and the neighbour's
    deadline has passed on the cursor of its own source (for E3, the last lookup of
    this withdrawal).  A missing predecessor is [WithdrawalUnapproved], a missing
    successor [WithdrawalStuck]. *)
Theorem missing_events_reported t sm cursors :
  timing_ok t -> reachable t sm ->
  exists fs, timing_violations sm cursors = Ok fs
    /\ forall f, f ∈ fs <->
         exists e et d r c, e ∈ seen_events sm /\ (et, d, r) ∈ neighbors t e
           /\ et ∉ types (seen_events sm) /\ cursor_for sm cursors et = Some c /\ d <= c
           /\ f = withdrawal_timing (sm_wid sm) et r d (MissingBy c).
Proof.
  intros Ht Hr. pose proof (reachable_inv t sm Ht Hr) as Hinv.
  eexists. split; [apply timing_violations_Ok|]. intros f. rewrite list_elem_of_bind.
  setoid_rewrite (inv_expected _ _ Hinv). setoid_rewrite elem_of_spec_expected.
  unfold violation_of. split.
  - intros ([[et d] r] & Hf & Hn & e & He & Hnb). cbn in *.
    destruct (cursor_for sm cursors et) as [c|] eqn:Hc; [|by apply elem_of_nil in Hf].
    destruct (Z.leb_spec d c); [|by apply elem_of_nil in Hf].
    apply list_elem_of_singleton in Hf. exists e, et, d, r, c. done.
  - intros (e & et & d & r & c & He & Hnb & Hn & Hc & Hd & ->).
    exists (et, d, r). cbn. rewrite Hc, (proj2 (Z.leb_le _ _) Hd).
    split; [by left|]. eauto.
Qed.

(** *** Order independence *)

(** The auditor's ingestion of the events of one withdrawal. *)
Fixpoint add_all (sm : WithdrawalStateMachine) (es : list MonitorWithdrawalEvent) (t : Timing)
    : total (list MonitorFinding * WithdrawalStateMachine) :=
  match es with
  | [] => Ok ([], sm)
  | e :: es =>
      '(fs, sm) ← add_event sm e t;
      '(fs', sm) ← add_all sm es t;
      Ok (fs ++ fs', sm)
  end.

Definition ingest_all (es : list MonitorWithdrawalEvent) (t : Timing)
    : total (list MonitorFinding * WithdrawalStateMachine) :=
  match es with
  | [] => Panic
  | e :: es => sm ← machine_new e t; add_all sm es t
  end.

(** Events of one transaction: one per type, all naming the same txid and layout. *)
Definition consistent (es : list MonitorWithdrawalEvent) (x : Txid) (l : WithdrawalTx) : Prop :=
  NoDup (types es) /\ Forall (fun e => btc_txid e = x /\ tx e = l) es.

Lemma add_all_spec t es : forall sm x l,
  timing_ok t -> consistent (seen_events sm ++ es) x l -> sm_btc_txid sm = x -> sm_tx sm = l ->
  expected_events sm ≡ₚ spec_expected t (seen_events sm) ->
  exists fs sm', add_all sm es t = Ok (fs, sm')
    /\ seen_events sm' = seen_events sm ++ es
    /\ expected_events sm' ≡ₚ spec_expected t (seen_events sm ++ es)
    /\ spec_findings t (seen_events sm) ++ fs ≡ₚ spec_findings t (seen_events sm ++ es).
Proof.
  induction es as [|e es IH]; intros sm x l Ht [Hnd Hall] Hx Hl Hexp; cbn.
  { exists [], sm. rewrite !app_nil_r. done. }
  replace (seen_events sm ++ e :: es) with ((seen_events sm ++ [e]) ++ es) in *
    by by rewrite <- app_assoc.
  rewrite fmap_app in Hnd. pose proof Hnd as (Hnd1 & _ & _)%NoDup_app.
  rewrite fmap_app in Hnd1. apply NoDup_app in Hnd1 as (Hnd0 & Hdis & _).
  assert (event_type e ∉ types (seen_events sm)) as Hnin by set_solver.
  assert (btc_txid e = x /\ tx e = l) as [He1 He2].
  { rewrite !Forall_app in Hall. destruct Hall as [[_ He] _]. by inversion He. }
  destruct (add_event_stored t sm e) as (ex & Hex & ->); try done; [congruence|left; congruence|].
  cbn [mbind outcome_bind].
  destruct (IH (with_events sm (seen_events sm ++ [e]) ex) x l) as (fs & sm' & Hall' & Hs & Hx' & Hf);
    cbn; try done.
  { split; [by rewrite fmap_app|done]. }
  rewrite Hall'. cbn [mbind outcome_bind]. eexists _, sm'. split; [reflexivity|].
  split_and!; try done. rewrite <- Hf. cbn [with_events seen_events].
  rewrite (spec_findings_snoc t (seen_events sm) e).
  unfold tx_findings. rewrite bool_decide_true by congruence. unfold timing_part.
  by rewrite <- !app_assoc.
Qed.

Lemma ingest_all_spec t e es x l :
  timing_ok t -> consistent (e :: es) x l ->
  exists fs sm, ingest_all (e :: es) t = Ok (fs, sm) /\ fs ≡ₚ spec_findings t (e :: es)
    /\ expected_events sm ≡ₚ spec_expected t (e :: es).
Proof.
  intros Ht Hc. pose proof Hc as [Hnd Hall]. inversion Hall as [|? ? [Hx Hl] _]; subst.
  unfold ingest_all, machine_new.
  set (sm0 := mkWithdrawalStateMachine [] [] None None (wid e) (btc_txid e) (tx e)).
  destruct (add_event_stored t sm0 e) as (ex & Hex & Hadd); cbn; try done;
    [constructor|set_solver|by left|].
  rewrite Hadd. unfold tx_findings. rewrite bool_decide_true by done. cbn [timing_part mbind outcome_bind].
  destruct (add_all_spec t es (with_events sm0 [e] ex) (btc_txid e) (tx e)) as (fs & sm & Ha & _ & Hx & Hf);
    try done.
  exists fs, sm. split; [exact Ha|]. split; [|exact Hx]. rewrite <- Hf.
  unfold spec_findings. cbn. unfold pair_findings. by destruct (event_type e).
Qed.

(** The findings do not depend on the order of ingestion.  Whatever order the
    sources deliver the events of a withdrawal in, the machine reports the same
    timing findings, namely those of every pair of neighbours, and is left with the
    same expectations. *)
Theorem ingestion_order_irrelevant t es es' x l :
  timing_ok t -> consistent es x l -> es <> [] -> es ≡ₚ es' ->
  exists fs sm fs' sm', ingest_all es t = Ok (fs, sm) /\ ingest_all es' t = Ok (fs', sm')
    /\ fs ≡ₚ fs' /\ fs ≡ₚ spec_findings t es
    /\ expected_events sm ≡ₚ expected_events sm'.
Proof.
  intros Ht Hc Hne Hp.
  assert (consistent es' x l) as Hc' by (destruct Hc; split; by rewrite <- Hp).
  destruct es as [|e es]; [done|]. destruct es' as [|e' es'].
  { symmetry in Hp. by apply Permutation_nil_cons in Hp. }
  destruct (ingest_all_spec t e es x l Ht Hc) as (fs & sm & Hi & Hf & Hx).
  destruct (ingest_all_spec t e' es' x l Ht Hc') as (fs' & sm' & Hi' & Hf' & Hx').
  exists fs, sm, fs', sm'. split_and!; try done.
  - by rewrite Hf, Hf', Hp.
  - by rewrite Hx, Hx', Hp.
Qed.

(** *** Disagreement *)

(** The findings that say two events contradict each other. *)
Definition disagrees (f : MonitorFinding) : bool :=
  match f with WithdrawalInvalid _ (EventsDiffer _ _ _) => true | _ => false end.

Lemma timing_part_agrees t seen e f : f ∈ timing_part t seen e -> disagrees f = false.
Proof.
  unfold timing_part. rewrite elem_of_app, !list_elem_of_bind.
  assert (forall a b, f ∈ pair_findings t a b -> disagrees f = false) as H.
  { intros a b. unfold pair_findings, late, withdrawal_timing. case_bool_decide; [|set_solver].
    repeat case_match; set_solver. }
  intros [(a & Ha & _)|(b & Hb & _)]; by eapply H.
Qed.

(** Two approvals that state different transactions are always reported.  For a Sui
    approval and a guardian signature of one withdrawal, in either order, the second
    one raises a contradiction finding if and only if their txid or their
    layout (which outputs are change) differ. *)
Theorem approvals_compared t a b sm :
  timing_ok t -> wid a = wid b -> event_type a <> event_type b ->
  event_type a <> E3BtcConfirmed -> event_type b <> E3BtcConfirmed ->
  machine_new a t = Ok sm ->
  exists fs sm', add_event sm b t = Ok (fs, sm')
    /\ (existsb disagrees fs = true <-> btc_txid a <> btc_txid b \/ tx a <> tx b).
Proof.
  intros Ht Hw Hty Ha Hb Hn.
  destruct (machine_new_Ok t a Ht Ha) as (sm' & Hn' & Hinv & Hseen & _ & Htx & Htl).
  rewrite Hn in Hn'. injection Hn' as <-.
  destruct (Z.eqb_spec (btc_txid a) (btc_txid b)) as [E|E].
  - destruct (add_event_stored t sm b) as (ex & _ & Hadd); try apply Hinv; try done.
    { congruence. }
    { rewrite Hseen. cbn. set_solver. }
    { right. rewrite Hseen. exists a. set_solver. }
    eexists _, _. split; [exact Hadd|]. unfold tx_findings. rewrite existsb_app, Htl, Hseen.
    assert (existsb disagrees (timing_part t [a] b) = false) as ->.
    { apply not_true_iff_false. intros (f & Hf%list_elem_of_In & Hd)%existsb_exists.
      by rewrite (timing_part_agrees t [a] b f Hf) in Hd. }
    rewrite orb_false_r. case_bool_decide as El; cbn; split; try done; intros; intuition congruence.
  - unfold add_event. rewrite Htx, (proj2 (Z.eqb_neq _ _) E), Hseen. cbn.
    eexists _, _. split; [reflexivity|]. cbn. tauto.
Qed.

(** ** A concrete withdrawal *)

Definition protocol_timing : Timing :=
  match timing_default with Ok t => t | _ => mkTiming ∅ ∅ 0 0 0 0 end.

Lemma protocol_timing_ok : timing_ok protocol_timing.
Proof.
  unfold protocol_timing. destruct timing_default_ok as (t & -> & Hok). exact Hok.
Qed.

Definition example_tx : WithdrawalTx :=
  WithdrawalTx_new [mkMoveUtxo (1, 0) 120000 None]
    [mkOutputUtxo 100000 (replicate 20 7)] [mkOutputUtxo 19000 (replicate 32 9)].
(** The same outputs with the payout relabelled as change. *)
Definition relabelled_tx : WithdrawalTx :=
  WithdrawalTx_new [mkMoveUtxo (1, 0) 120000 None] []
    [mkOutputUtxo 100000 (replicate 20 7); mkOutputUtxo 19000 (replicate 32 9)].

Definition example_e1 : MonitorWithdrawalEvent :=
  mkMonitorWithdrawalEvent E1HashiApproved 5 1000 42 example_tx.
Definition example_e2 : MonitorWithdrawalEvent :=
  mkMonitorWithdrawalEvent E2GuardianApproved 5 9000 42 example_tx.
Definition relabelled_e2 : MonitorWithdrawalEvent :=
  mkMonitorWithdrawalEvent E2GuardianApproved 5 1200 42 relabelled_tx.
Definition example_confirmation : BtcConfirmation :=
  mkBtcConfirmation 9500 12000 [(1, 0)] [mkTxOut 100000 []; mkTxOut 19000 []].

Definition machine_of (m : total WithdrawalStateMachine) : WithdrawalStateMachine :=
  match m with
  | Ok sm => sm
  | _ => mkWithdrawalStateMachine [] [] None None 0 0 example_tx
  end.

(** E1, then Bitcoin's confirmation; E2 is still missing. *)
Definition after_e1 : WithdrawalStateMachine := machine_of (machine_new example_e1 protocol_timing).
Definition after_e3 : WithdrawalStateMachine :=
  match try_fetch_btc_tx (E:=unit) after_e1 protocol_timing
          (fun _ => Ok (Some example_confirmation)) 13000 with
  | Ok (_, sm) => sm | _ => after_e1 end.
Definition after_e2 : WithdrawalStateMachine :=
  match add_event after_e3 example_e2 protocol_timing with Ok (_, sm) => sm | _ => after_e3 end.

Lemma after_e1_reachable : reachable protocol_timing after_e1.
Proof. apply (reach_new _ example_e1); [done|]. vm_compute. reflexivity. Qed.

Lemma after_e3_reachable : reachable protocol_timing after_e3.
Proof.
  eapply (reach_fetch _ after_e1 (fun _ => Ok (Some example_confirmation)) 13000);
    [exact after_e1_reachable|]. vm_compute. reflexivity.
Qed.

Lemma after_e2_reachable : reachable protocol_timing after_e2.
Proof.
  eapply (reach_add _ after_e3 example_e2); [exact after_e3_reachable|done|done|].
  vm_compute. reflexivity.
Qed.

Lemma withdrawal_machine_never_panics_witness : add_event after_e3 example_e2 protocol_timing <> Panic.
Proof.
  apply (withdrawal_machine_never_panics protocol_timing after_e3 protocol_timing_ok
           after_e3_reachable).
Defined.

Lemma ready_for_gc_iff_complete_witness :
  exists e2 c, get after_e2 E2GuardianApproved = Some e2 /\ btc_confirmation after_e2 = Some c
    /\ finished after_e2 = Some (mkFinishedWithdrawal 42 c (length (tx_withdrawal_outputs (tx e2)))).
Proof.
  apply (ready_for_gc_iff_complete protocol_timing after_e2 protocol_timing_ok after_e2_reachable).
  vm_compute. reflexivity.
Defined.

Lemma missing_events_reported_witness :
  exists fs, timing_violations after_e3 (mkCursors 50000 50000) = Ok fs
    /\ WithdrawalUnapproved 5 E2GuardianApproved 19200 (MissingBy 50000) ∈ fs.
Proof.
  destruct (missing_events_reported protocol_timing after_e3 (mkCursors 50000 50000)
              protocol_timing_ok after_e3_reachable) as (fs & Hfs & Hiff).
  exists fs. split; [exact Hfs|]. apply Hiff.
  exists (from_btc example_confirmation 5 42 example_tx), E2GuardianApproved, 19200,
    Predecessor, 50000.
  repeat split; try (vm_compute; reflexivity); try (vm_compute; discriminate).
  - vm_compute. right. left.
  - vm_compute. left.
  - apply (bool_decide_unpack _). vm_compute. exact I.
Defined.

Lemma ingestion_order_irrelevant_witness :
  exists fs sm fs' sm',
    ingest_all [example_e1; example_e2] protocol_timing = Ok (fs, sm)
    /\ ingest_all [example_e2; example_e1] protocol_timing = Ok (fs', sm')
    /\ fs ≡ₚ fs' /\ fs ≡ₚ spec_findings protocol_timing [example_e1; example_e2]
    /\ expected_events sm ≡ₚ expected_events sm'.
Proof.
  apply (ingestion_order_irrelevant protocol_timing [example_e1; example_e2]
           [example_e2; example_e1] 42 example_tx protocol_timing_ok).
  - split; [apply (bool_decide_unpack _); vm_compute; exact I|]. repeat constructor.
  - discriminate.
  - constructor.
Defined.

Lemma approvals_compared_witness :
  exists fs sm', add_event after_e1 relabelled_e2 protocol_timing = Ok (fs, sm')
    /\ (existsb disagrees fs = true <-> 42 <> 42 \/ example_tx <> relabelled_tx).
Proof.
  apply (approvals_compared protocol_timing example_e1 relabelled_e2 after_e1 protocol_timing_ok);
    try discriminate; vm_compute; reflexivity.
Defined.
