(* ===== verification/DepositMachine.v ===== *)
(** * The deposit state machine

    [crates/hashi-monitor/src/state_machine/deposit.rs]: one machine per deposit
    request.  It asks Bitcoin until the claimed transaction confirms or the watch
    ends, keeps the first Sui approval, and judges the approval against Bitcoin's
    answer. *)

From S2P Require Import Prelude MonitorDomain.

Definition EMPTY_LOOKUPS_BEFORE_ALERT : Z := 2.

Inductive BtcAnswer :=
| Pending
| Paid (deposit : BtcConfirmedDeposit)
| NotPaid
| Lapsed.

#[export] Instance BtcAnswer_eq_dec : EqDecision BtcAnswer.
Proof. solve_decision. Defined.

Record DepositStateMachine := mkDepositStateMachine {
  sui_request : SuiDepositRequestedEvent;
  sui_approval : option SuiDepositApprovedEvent;
  empty_lookups_since_approval : Z;
  btc_answer : BtcAnswer;
}.

Definition with_answer (self : DepositStateMachine) (a : BtcAnswer) : DepositStateMachine :=
  mkDepositStateMachine (sui_request self) (sui_approval self)
    (empty_lookups_since_approval self) a.

Definition deposit_machine_new (sui_request : SuiDepositRequestedEvent) : DepositStateMachine :=
  mkDepositStateMachine sui_request None 0 Pending.

Definition dm_request_id (self : DepositStateMachine) : Address := req_request_id (sui_request self).
Definition requested_at (self : DepositStateMachine) : UnixSeconds :=
  req_timestamp_secs (sui_request self).
Definition dm_btc_txid (self : DepositStateMachine) : Txid :=
  deposit_txid (req_deposit_id (sui_request self)).

Definition confirmed (self : DepositStateMachine) : option BtcConfirmedDeposit :=
  match btc_answer self with Paid deposit => Some deposit | _ => None end.

Definition is_approved (self : DepositStateMachine) : bool :=
  bool_decide (is_Some (sui_approval self)).

Definition into_finished (self : DepositStateMachine) : option FinishedDeposit :=
  let origin :=
    if is_approved self then Deposit
    else UnapprovedDeposit (requested_at self) (req_amount (sui_request self)) in
  match btc_answer self with
  | Paid deposit => Some (FinishedDeposit_new deposit origin)
  | _ => None
  end.

Definition add_sui_request (self : DepositStateMachine) (event : SuiDepositRequestedEvent)
    : option MonitorFinding :=
  if bool_decide (event = sui_request self) then None
  else Some (DepositMismatch (req_request_id (sui_request self))
               (RequestDiffers (sui_request self) event)).

Definition judge_held_sui_approval (self : DepositStateMachine) (timing : Timing)
    : list MonitorFinding :=
  if bool_decide (btc_answer self = Pending) then []
  else match sui_approval self with
       | None => []
       | Some sui => judge sui (confirmed self) (deposit_approval_skew timing)
       end.

Definition add_sui_approval (self : DepositStateMachine) (event : SuiDepositApprovedEvent)
    (timing : Timing) : list MonitorFinding * DepositStateMachine :=
  if negb (matches_request event (sui_request self)) then
    ([DepositMismatch (req_request_id (sui_request self))
        (ApprovalDiffers (sui_request self) event)], self)
  else match sui_approval self with
       | Some _ => ([], self)
       | None =>
           let self := mkDepositStateMachine (sui_request self) (Some event)
                         (empty_lookups_since_approval self) (btc_answer self) in
           (judge_held_sui_approval self timing, self)
       end.

Definition deposit_is_ready_for_gc (self : DepositStateMachine) : bool :=
  negb (bool_decide (btc_answer self = Pending)).

Definition deposit_expects_btc (self : DepositStateMachine) : bool :=
  bool_decide (btc_answer self = Pending).

(** The counter is a [u8] with a saturating increment. *)
Definition count_empty_lookup (self : DepositStateMachine)
    : list MonitorFinding * DepositStateMachine :=
  match sui_approval self with
  | None => ([], self)
  | Some sui =>
      let n := Z.min (empty_lookups_since_approval self + 1) 255 in
      let self := mkDepositStateMachine (sui_request self) (sui_approval self) n
                    (btc_answer self) in
      if n <? EMPTY_LOOKUPS_BEFORE_ALERT then ([], self) else ([DepositUnbacked sui], self)
  end.

Definition answer_from (self : DepositStateMachine) (confirmation : BtcConfirmation)
    : BtcAnswer :=
  match deposit_from_confirmation (sui_request self) confirmation with
  | None => NotPaid
  | Some deposit => Paid deposit
  end.

Definition record_lookup (self : DepositStateMachine) (timing : Timing) (checked_at : UnixSeconds)
    (confirmation : option BtcConfirmation) : list MonitorFinding * DepositStateMachine :=
  let self :=
    match confirmation with
    | Some c => with_answer self (answer_from self c)
    | None =>
        if wadd (req_timestamp_secs (sui_request self)) (deposit_request_watch timing)
           <=? checked_at
        then with_answer self Lapsed else self
    end in
  if bool_decide (btc_answer self = Pending) then count_empty_lookup self
  else (judge_held_sui_approval self timing, self).

Definition deposit_try_fetch_btc_tx {E} (self : DepositStateMachine) (timing : Timing)
    (lookup : Txid -> outcome E (option BtcConfirmation)) (checked_at : UnixSeconds)
    : outcome E (list MonitorFinding * DepositStateMachine) :=
  if negb (bool_decide (btc_answer self = Pending)) then Ok ([], self)
  else
    confirmation ← lookup (dm_btc_txid self);
    Ok (record_lookup self timing checked_at confirmation).

(** ** Histories

    What the auditor does to a machine between its creation and its collection. *)

Inductive deposit_op :=
| OpRequest (event : SuiDepositRequestedEvent)
| OpApproval (event : SuiDepositApprovedEvent)
| OpLookup (checked_at : UnixSeconds) (answer : outcome unit (option BtcConfirmation)).

Definition deposit_step (t : Timing) (sm : DepositStateMachine) (op : deposit_op)
    : list MonitorFinding * DepositStateMachine :=
  match op with
  | OpRequest e => (option_list (add_sui_request sm e), sm)
  | OpApproval e => add_sui_approval sm e t
  | OpLookup at_ answer =>
      match deposit_try_fetch_btc_tx sm t (fun _ => answer) at_ with
      | Ok r => r
      | _ => ([], sm)
      end
  end.

Fixpoint deposit_run (t : Timing) (sm : DepositStateMachine) (ops : list deposit_op)
    : list MonitorFinding * DepositStateMachine :=
  match ops with
  | [] => ([], sm)
  | op :: ops =>
      let '(fs, sm) := deposit_step t sm op in
      let '(fs', sm) := deposit_run t sm ops in
      (fs ++ fs', sm)
  end.

Lemma deposit_run_app t ops ops' : forall sm,
  deposit_run t sm (ops ++ ops') =
  let '(fs, sm) := deposit_run t sm ops in
  let '(fs', sm) := deposit_run t sm ops' in (fs ++ fs', sm).
Proof.
  induction ops as [|op ops IH]; intros sm; cbn; [by destruct (deposit_run t sm ops')|].
  destruct (deposit_step t sm op) as [fs sm1]. rewrite IH.
  destruct (deposit_run t sm1 ops) as [fs1 sm2]. destruct (deposit_run t sm2 ops') as [fs2 sm3].
  by rewrite app_assoc.
Qed.

Lemma deposit_run_snoc t sm ops op fs sm' :
  deposit_run t sm (ops ++ [op]) = (fs, sm') ->
  exists fs1 sm1 fs2, deposit_run t sm ops = (fs1, sm1) /\ deposit_step t sm1 op = (fs2, sm')
    /\ fs = fs1 ++ fs2.
Proof.
  rewrite deposit_run_app. destruct (deposit_run t sm ops) as [fs1 sm1]. cbn.
  destruct (deposit_step t sm1 op) as [fs2 sm2] eqn:E. intros [= <- <-]. rewrite app_nil_r.
  eauto 6.
Qed.

(** A closed machine ignores lookups, and nothing reopens it. *)
Lemma closed_step t sm op :
  btc_answer sm <> Pending -> btc_answer (deposit_step t sm op).2 = btc_answer sm.
Proof.
  intros Hc. destruct op; cbn.
  - done.
  - unfold add_sui_approval. by repeat case_match.
  - unfold deposit_try_fetch_btc_tx. by rewrite bool_decide_false.
Qed.

(** What one step does to an open machine that looks Bitcoin up. *)
Lemma lookup_step t sm at_ answer :
  btc_answer sm = Pending ->
  deposit_step t sm (OpLookup at_ (Ok answer)) = record_lookup sm t at_ answer.
Proof. intros Hp. cbn. unfold deposit_try_fetch_btc_tx. by rewrite bool_decide_true. Qed.

Lemma deposit_step_request t sm op : sui_request (deposit_step t sm op).2 = sui_request sm.
Proof.
  destruct op as [e|e|at_ answer]; cbn; [done| |].
  - unfold add_sui_approval. by repeat case_match.
  - unfold deposit_try_fetch_btc_tx. case_bool_decide; cbn; [|done].
    destruct answer as [c| |]; cbn; [|done|done].
    unfold record_lookup, count_empty_lookup, with_answer. by repeat case_match.
Qed.

(** A step that leaves an open machine open. *)
Lemma record_lookup_answer sm t at_ answer :
  btc_answer sm = Pending ->
  btc_answer (record_lookup sm t at_ answer).2 =
  match answer with
  | Some c => answer_from sm c
  | None => if wadd (req_timestamp_secs (sui_request sm)) (deposit_request_watch t) <=? at_
            then Lapsed else Pending
  end.
Proof.
  intros Hp. unfold record_lookup, count_empty_lookup, answer_from. destruct answer as [c|].
  - by destruct (deposit_from_confirmation _ c).
  - destruct (_ <=? at_); [done|]. rewrite bool_decide_true by done.
    destruct (sui_approval sm); cbn; [|done]. by case_match.
Qed.

Lemma record_lookup_approval sm t at_ answer :
  sui_approval (record_lookup sm t at_ answer).2 = sui_approval sm.
Proof.
  unfold record_lookup.
  match goal with |- context [bool_decide (btc_answer ?m = Pending)] => set (sm1 := m) end.
  assert (sui_approval sm1 = sui_approval sm) as <-.
  { unfold sm1. destruct answer; [done|]. by destruct (_ <=? at_). }
  case_bool_decide; [|done]. unfold count_empty_lookup.
  destruct (sui_approval sm1) eqn:E; [|done]. by destruct (_ <? _).
Qed.

(** Closing a machine judges the approval it holds. *)
Lemma record_lookup_judges sm t at_ answer :
  let r := record_lookup sm t at_ answer in
  btc_answer r.2 <> Pending -> r.1 = judge_held_sui_approval r.2 t.
Proof.
  cbn zeta. unfold record_lookup.
  match goal with |- context [bool_decide (btc_answer ?m = Pending)] => set (sm1 := m) end.
  case_bool_decide as Hp; [|done]. intros Hn. destruct Hn. unfold count_empty_lookup.
  by repeat case_match.
Qed.

(** Everything a history has established. *)
Record deposit_inv (t : Timing) (r : SuiDepositRequestedEvent) (ops : list deposit_op)
    (F : list MonitorFinding) (sm : DepositStateMachine) : Prop := {
  di_request : sui_request sm = r;
  di_matches : forall a, sui_approval sm = Some a -> matches_request a r = true;
  di_judged : forall a, sui_approval sm = Some a -> btc_answer sm <> Pending ->
    judge a (confirmed sm) (deposit_approval_skew t) ⊆ F;
  di_paid : forall d, btc_answer sm = Paid d ->
    exists at_ c, OpLookup at_ (Ok (Some c)) ∈ ops /\ deposit_from_confirmation r c = Some d;
}.

Lemma judge_held_closed sm t a :
  sui_approval sm = Some a -> btc_answer sm <> Pending ->
  judge_held_sui_approval sm t = judge a (confirmed sm) (deposit_approval_skew t).
Proof. intros Ha Hn. unfold judge_held_sui_approval. by rewrite bool_decide_false, Ha. Qed.

Lemma approval_step_inv t r ops F sm e :
  deposit_inv t r ops F sm ->
  deposit_inv t r (ops ++ [OpApproval e]) (F ++ (add_sui_approval sm e t).1)
    (add_sui_approval sm e t).2.
Proof.
  intros [Hr Hm Hj Hp]. unfold add_sui_approval. rewrite Hr.
  destruct (matches_request e r) eqn:Em; cbn.
  2: { split; cbn; try done; [intros; set_solver|]. intros d Hd. destruct (Hp d Hd) as (? & ? & ? & ?). set_solver. }
  destruct (sui_approval sm) as [a0|] eqn:Ea; cbn.
  { rewrite app_nil_r. split; cbn; try done; [by rewrite Ea|by rewrite Ea|].
    intros d Hd. destruct (Hp d Hd) as (? & ? & ? & ?). set_solver. }
  split; cbn; try done.
  - by intros a [= <-].
  - intros a [= <-] Hn. rewrite (judge_held_closed _ _ e) by done. set_solver.
  - intros d Hd. destruct (Hp d Hd) as (? & ? & ? & ?). set_solver.
Qed.

Lemma lookup_step_inv t r ops F sm at_ answer :
  deposit_inv t r ops F sm -> btc_answer sm = Pending ->
  deposit_inv t r (ops ++ [OpLookup at_ (Ok answer)]) (F ++ (record_lookup sm t at_ answer).1)
    (record_lookup sm t at_ answer).2.
Proof.
  intros [Hr Hm Hj Hp] Hpend.
  pose proof (lookup_step t sm at_ answer Hpend) as Hstep.
  split.
  - rewrite <- Hstep. by rewrite deposit_step_request.
  - intros a. rewrite record_lookup_approval. apply Hm.
  - intros a Ha Hn. rewrite record_lookup_judges by done.
    rewrite (judge_held_closed _ _ a Ha Hn). set_solver.
  - intros d. rewrite record_lookup_answer by done. destruct answer as [c|]; [|by case_match].
    unfold answer_from. rewrite Hr. destruct (deposit_from_confirmation r c) as [d'|] eqn:Ec; [|done].
    intros [= ->]. exists at_, c. set_solver.
Qed.

Lemma deposit_run_inv t r ops : forall F sm,
  deposit_run t (deposit_machine_new r) ops = (F, sm) -> deposit_inv t r ops F sm.
Proof.
  induction ops as [|op ops IH] using rev_ind; intros F sm H.
  { cbn in H. injection H as <- <-. split; cbn; done. }
  apply deposit_run_snoc in H as (fs1 & sm1 & fs2 & Hrun & Hstep & ->).
  apply IH in Hrun as Hinv. clear IH Hrun.
  destruct op as [e|e|at_ answer].
  - cbn in Hstep. injection Hstep as <- <-. destruct Hinv as [Hr Hm Hj Hp]. split; try done.
    + intros a Ha Hn. specialize (Hj a Ha Hn). set_solver.
    + intros d Hd. destruct (Hp d Hd) as (? & ? & ? & ?). set_solver.
  - cbn in Hstep. apply (approval_step_inv _ _ _ _ _ e) in Hinv. by rewrite Hstep in Hinv.
  - destruct (decide (btc_answer sm1 = Pending)) as [Hpend|Hn]; [destruct answer as [c| |]|].
    + rewrite lookup_step in Hstep by done. apply (lookup_step_inv _ _ _ _ _ at_ c) in Hinv; [|done].
      by rewrite Hstep in Hinv.
    + cbn in Hstep. unfold deposit_try_fetch_btc_tx in Hstep. rewrite bool_decide_true in Hstep by done.
      cbn in Hstep. injection Hstep as <- <-. rewrite app_nil_r. destruct Hinv as [Hr Hm Hj Hp].
      split; try done. intros d Hd. by rewrite Hpend in Hd.
    + cbn in Hstep. unfold deposit_try_fetch_btc_tx in Hstep. rewrite bool_decide_true in Hstep by done.
      cbn in Hstep. injection Hstep as <- <-. rewrite app_nil_r. destruct Hinv as [Hr Hm Hj Hp].
      split; try done. intros d Hd. by rewrite Hpend in Hd.
    + cbn in Hstep. unfold deposit_try_fetch_btc_tx in Hstep. rewrite bool_decide_false in Hstep by done.
      cbn in Hstep. injection Hstep as <- <-. rewrite app_nil_r. destruct Hinv as [Hr Hm Hj Hp].
      split; try done. intros d Hd. destruct (Hp d Hd) as (? & ? & ? & ?). set_solver.
Qed.

(** ** Properties *)

Lemma judge_nil a paid skew :
  judge a paid skew = [] ->
  exists d, paid = Some d /\ bcd_block_time d <= wadd (app_timestamp_secs a) skew
    /\ app_amount a = bcd_amount d /\ app_script_pubkey a = bcd_script_pubkey d.
Proof.
  unfold judge. destruct paid as [d|]; [|done]. intros [Hl Hm]%app_nil.
  exists d. split; [done|]. destruct (Z.ltb_spec (wadd (app_timestamp_secs a) skew) (bcd_block_time d));
    [done|]. split; [done|].
  destruct (Z.eqb_spec (app_amount a) (bcd_amount d)); [|done]. cbn in Hm.
  case_bool_decide; done.
Qed.

(** C22: a silent deposit is backed.  If the whole history of a request, any mix of
    repeated requests, approvals and lookups, produced no finding, and the machine
    closed holding an approval, then a Bitcoin lookup confirmed a transaction whose
    claimed output pays the claimed script exactly the approved amount, in a block
    no later than the approval plus the skew: no unbacked or wrong approval goes
    unreported. *)
Theorem silent_deposit_is_backed t r ops sm a :
  deposit_run t (deposit_machine_new r) ops = ([], sm) ->
  deposit_is_ready_for_gc sm = true -> sui_approval sm = Some a ->
  exists at_ c o,
    OpLookup at_ (Ok (Some c)) ∈ ops
    /\ conf_outputs c !! Z.to_nat (deposit_vout (app_deposit_id a)) = Some o
    /\ out_script o = app_script_pubkey a /\ value o = app_amount a
    /\ block_time c <= wadd (app_timestamp_secs a) (deposit_approval_skew t)
    /\ app_deposit_id a = req_deposit_id r.
Proof.
  intros Hrun Hready Ha. destruct (deposit_run_inv _ _ _ _ _ Hrun) as [Hr Hm Hj Hp].
  unfold deposit_is_ready_for_gc in Hready. apply negb_true_iff, bool_decide_eq_false in Hready.
  specialize (Hm a Ha). specialize (Hj a Ha Hready).
  assert (judge a (confirmed sm) (deposit_approval_skew t) = []) as (d & Hd & Ht & Hv & Hs)%judge_nil.
  { destruct (judge _ _ _) as [|f l]; [done|]. specialize (Hj f). set_solver. }
  unfold confirmed in Hd. destruct (btc_answer sm) as [|d'| |] eqn:Eb; [done| |done|done].
  injection Hd as ->. destruct (Hp d eq_refl) as (at_ & c & Hin & Hc).
  unfold matches_request in Hm. rewrite !andb_true_iff, !bool_decide_eq_true, !Z.eqb_eq in Hm.
  destruct Hm as [[[_ Hid] _] _]. unfold deposit_from_confirmation in Hc.
  destruct (conf_outputs c !! _) as [o|] eqn:Ho; [|done]. cbn in Hc.
  case_bool_decide as Hscr; [|done]. injection Hc as <-. cbn in *.
  exists at_, c, o. rewrite Hid. repeat split; try done; congruence.
Qed.

(** The pool gets a UTXO exactly when Bitcoin paid.  A UTXO a machine hands over was
    confirmed by a lookup of its history at the claimed output and script; it has
    the amount, script and block Bitcoin reported (not the user's claim), and its
    origin says whether an approval came.  Conversely, the lookup of an open machine
    that confirms the claimed output makes it hand the UTXO over. *)
Theorem finished_iff_paid t r ops F sm :
  deposit_run t (deposit_machine_new r) ops = (F, sm) ->
  let utxo_of o c :=
    mkFinishedDeposit (req_deposit_id r)
      (mkUtxo (value o) (out_script o)
         (match sui_approval sm with
          | Some _ => Deposit
          | None => UnapprovedDeposit (req_timestamp_secs r) (req_amount r)
          end) (block_time c)) in
  (forall f, into_finished sm = Some f ->
     exists at_ c o, OpLookup at_ (Ok (Some c)) ∈ ops
       /\ conf_outputs c !! Z.to_nat (deposit_vout (req_deposit_id r)) = Some o
       /\ out_script o = req_script_pubkey r /\ f = utxo_of o c)
  /\ (forall at_ c o, deposit_expects_btc sm = true ->
        conf_outputs c !! Z.to_nat (deposit_vout (req_deposit_id r)) = Some o ->
        out_script o = req_script_pubkey r ->
        into_finished (deposit_step t sm (OpLookup at_ (Ok (Some c)))).2 = Some (utxo_of o c)).
Proof.
  intros Hrun utxo_of. destruct (deposit_run_inv _ _ _ _ _ Hrun) as [Hr _ _ Hp]. split.
  - intros f Hf. unfold into_finished in Hf. destruct (btc_answer sm) as [|d| |] eqn:Eb; try done.
    destruct (Hp d eq_refl) as (at_ & c & Hin & Hc). unfold deposit_from_confirmation in Hc.
    destruct (conf_outputs c !! _) as [o|] eqn:Ho; [|done]. cbn in Hc.
    case_bool_decide as Hscr; [|done]. injection Hc as <-. injection Hf as <-.
    exists at_, c, o. split_and!; try done. unfold utxo_of, FinishedDeposit_new, is_approved, requested_at.
    cbn. rewrite Hr. by destruct (sui_approval sm).
  - intros at_ c o Hpend%bool_decide_eq_true Ho Hs. rewrite lookup_step by done.
    unfold into_finished, is_approved, requested_at. rewrite record_lookup_answer by done.
    rewrite record_lookup_approval. unfold answer_from, deposit_from_confirmation.
    rewrite <- (lookup_step t), deposit_step_request, Hr, Ho by done. cbn.
    rewrite bool_decide_true by done. unfold utxo_of, FinishedDeposit_new. cbn.
    by destruct (sui_approval sm).
Qed.

(** A closed machine is final.  Once Bitcoin answered or the watch ended, no further
    request, approval or lookup changes the answer. *)
Theorem closed_machine_final t sm ops :
  deposit_is_ready_for_gc sm = true ->
  btc_answer (deposit_run t sm ops).2 = btc_answer sm.
Proof.
  unfold deposit_is_ready_for_gc. rewrite negb_true_iff, bool_decide_eq_false.
  revert sm. induction ops as [|op ops IH]; intros sm Hc; cbn; [done|].
  pose proof (closed_step t sm op Hc) as Hs.
  destruct (deposit_step t sm op) as [fs sm1]. cbn in Hs.
  pose proof (IH sm1) as IH1. destruct (deposit_run t sm1 ops) as [fs' sm2]. cbn in *.
  rewrite IH1; congruence.
Qed.

(** *** The unbacked alert *)

(** Empty lookups while the watch is open. *)
Definition empty_lookup (at_ : UnixSeconds) : deposit_op := OpLookup at_ (Ok None).

Definition watch_open (t : Timing) (sm : DepositStateMachine) (at_ : UnixSeconds) : Prop :=
  at_ < wadd (req_timestamp_secs (sui_request sm)) (deposit_request_watch t).

Lemma empty_step t sm a at_ :
  btc_answer sm = Pending -> sui_approval sm = Some a -> watch_open t sm at_ ->
  let n := Z.min (empty_lookups_since_approval sm + 1) 255 in
  deposit_step t sm (empty_lookup at_)
  = (if n <? EMPTY_LOOKUPS_BEFORE_ALERT then [] else [DepositUnbacked a],
     mkDepositStateMachine (sui_request sm) (Some a) n Pending).
Proof.
  intros Hp Ha Ho n. unfold empty_lookup. rewrite lookup_step by done. unfold record_lookup.
  unfold watch_open in Ho. rewrite (proj2 (Z.leb_gt _ _) Ho), Hp, bool_decide_true by done.
  unfold count_empty_lookup. rewrite Ha, Hp. fold n. by destruct (n <? _).
Qed.

Lemma unbacked_run t ats : forall sm a,
  btc_answer sm = Pending -> sui_approval sm = Some a ->
  Forall (watch_open t sm) ats -> 1 <= empty_lookups_since_approval sm <= 255 ->
  (deposit_run t sm (empty_lookup <$> ats)).1 = replicate (length ats) (DepositUnbacked a).
Proof.
  induction ats as [|at_ ats IH]; intros sm a Hp Ha Ho Hn; [done|]. rewrite fmap_cons.
  inversion Ho as [|? ? Ho1 Ho']; subst. cbn [deposit_run].
  rewrite (empty_step t sm a at_ Hp Ha Ho1). cbn zeta.
  set (sm1 := mkDepositStateMachine _ _ _ _).
  assert (Z.min (empty_lookups_since_approval sm + 1) 255 <? EMPTY_LOOKUPS_BEFORE_ALERT = false)
    as -> by (unfold EMPTY_LOOKUPS_BEFORE_ALERT; lia).
  pose proof (IH sm1 a eq_refl eq_refl) as IH1.
  destruct (deposit_run t sm1 _) as [fs sm2]. cbn in *. rewrite IH1; [done|done|lia].
Qed.

(** An approval with no confirmed payment is reported at the second empty lookup.
    From the moment an open machine takes an approval, the first lookup that
    finds nothing (while the watch is open) is silent, and each one after it
    reports [DepositUnbacked]. *)
Theorem unbacked_alert_at_second_lookup t r a ats :
  matches_request a r = true ->
  Forall (fun at_ => at_ < wadd (req_timestamp_secs r) (deposit_request_watch t)) ats ->
  (deposit_run t (deposit_machine_new r) (OpApproval a :: (empty_lookup <$> ats))).1
  = replicate (length ats - 1) (DepositUnbacked a).
Proof.
  intros Hm Ho. cbn [deposit_run deposit_step].
  unfold add_sui_approval. cbn [sui_request deposit_machine_new]. rewrite Hm. cbn.
  set (sm := mkDepositStateMachine r (Some a) 0 Pending).
  destruct ats as [|at_ ats]; [done|]. inversion Ho as [|? ? Ho1 Ho']; subst.
  rewrite fmap_cons. cbn [deposit_run]. rewrite (empty_step t sm a at_ eq_refl eq_refl Ho1).
  change (Z.min (empty_lookups_since_approval sm + 1) 255) with 1.
  change (mkDepositStateMachine (sui_request sm) (Some a) 1 Pending)
    with (mkDepositStateMachine r (Some a) 1 Pending).
  change (judge_held_sui_approval sm t) with (@nil MonitorFinding).
  pose proof (unbacked_run t ats (mkDepositStateMachine r (Some a) 1 Pending) a
                eq_refl eq_refl Ho') as Hrun.
  destruct (deposit_run t _ _) as [fs sm2]. cbn in *. rewrite Hrun by lia. by rewrite Nat.sub_0_r.
Qed.

(** ** A concrete deposit *)

Definition example_timing : Timing := mkTiming ∅ ∅ 10 1000 500 100.
Definition example_request : SuiDepositRequestedEvent :=
  mkSuiDepositRequestedEvent 3 100 (77, 1) 5000 [81; 32].
Definition example_approval : SuiDepositApprovedEvent :=
  mkSuiDepositApprovedEvent 300 3 (77, 1) 5000 [81; 32].
Definition paying : BtcConfirmation :=
  mkBtcConfirmation 250 280 [] [mkTxOut 1 []; mkTxOut 5000 [81; 32]].
Definition paid_history : list deposit_op :=
  [OpLookup 200 (Ok None); OpApproval example_approval; OpLookup 310 (Err tt);
   OpLookup 320 (Ok (Some paying))].
Definition paid_machine : DepositStateMachine :=
  (deposit_run example_timing (deposit_machine_new example_request) paid_history).2.

Lemma silent_deposit_is_backed_witness :
  exists at_ c o,
    OpLookup at_ (Ok (Some c)) ∈ paid_history
    /\ conf_outputs c !! Z.to_nat (deposit_vout (app_deposit_id example_approval)) = Some o
    /\ out_script o = app_script_pubkey example_approval /\ value o = app_amount example_approval
    /\ block_time c <= wadd (app_timestamp_secs example_approval)
                          (deposit_approval_skew example_timing)
    /\ app_deposit_id example_approval = req_deposit_id example_request.
Proof.
  apply (silent_deposit_is_backed example_timing example_request paid_history paid_machine
           example_approval); vm_compute; reflexivity.
Defined.

Lemma finished_iff_paid_witness :
  exists at_ c o, OpLookup at_ (Ok (Some c)) ∈ paid_history
    /\ conf_outputs c !! Z.to_nat (deposit_vout (req_deposit_id example_request)) = Some o
    /\ out_script o = req_script_pubkey example_request
    /\ mkFinishedDeposit (77, 1) (mkUtxo 5000 [81; 32] Deposit 250)
       = mkFinishedDeposit (77, 1) (mkUtxo (value o) (out_script o) Deposit (block_time c)).
Proof.
  apply (finished_iff_paid example_timing example_request paid_history [] paid_machine);
    vm_compute; reflexivity.
Defined.

Lemma closed_machine_final_witness :
  btc_answer (deposit_run example_timing paid_machine [OpLookup 5000 (Ok None)]).2
  = btc_answer paid_machine.
Proof. apply (closed_machine_final example_timing paid_machine). vm_compute. reflexivity. Defined.

Lemma unbacked_alert_at_second_lookup_witness :
  (deposit_run example_timing (deposit_machine_new example_request)
     (OpApproval example_approval :: (empty_lookup <$> [400; 500; 600]))).1
  = replicate 2 (DepositUnbacked example_approval).
Proof.
  apply (unbacked_alert_at_second_lookup example_timing example_request example_approval
           [400; 500; 600]).
  - vm_compute. reflexivity.
  - repeat constructor; vm_compute; reflexivity.
Defined.
