(* ===== verification/MonitorPool.v ===== *)
(** * The monitor's UTXO pool

    [crates/hashi-monitor/src/domain/utxo_pool.rs]: the monitor's own record of the
    UTXOs the bridge holds.  The [BTreeMap] is a finite map; an iteration over it
    visits the keys in order ([entries]).  A [HashMap] that is only looked up is a
    finite map too. *)

From S2P Require Import Prelude MonitorDomain.

Abbreviation UtxoPool := (gmap OutPoint Utxo).

Record SuspectSpend := mkSuspectSpend {
  checked_at : UnixSeconds;
  suspect_amount : Z;
}.

#[export] Instance SuspectSpend_eq_dec : EqDecision SuspectSpend.
Proof. solve_decision. Defined.

Definition outpoint_leb (a b : OutPoint) : bool :=
  (a.1 <? b.1) || ((a.1 =? b.1) && (a.2 <=? b.2)).

Definition entries (self : UtxoPool) : list (OutPoint * Utxo) :=
  sort_by (fun a b => outpoint_leb a.1 b.1) (map_to_list self).

(** ** Storing *)

Definition UtxoWire : Type := OutPoint * Utxo.

Definition held_to_wire (self : UtxoPool) : list UtxoWire := entries self.

(** Collecting into a map: a later entry of a key replaces an earlier one. *)
Definition from_wire (held : list UtxoWire) : UtxoPool :=
  fold_left (fun m w => <[w.1 := w.2]> m) held ∅.

(** ** Reading *)

Definition holds (self : UtxoPool) (outpoint : OutPoint) : bool :=
  bool_decide (is_Some (self !! outpoint)).
Definition pool_len (self : UtxoPool) : nat := size self.
Definition in_move_pool_utxos (self : UtxoPool) : list Utxo :=
  List.filter (fun u => in_move_pool (u_origin u)) (snd <$> entries self).
Definition in_move_pool_len (self : UtxoPool) : nat := length (in_move_pool_utxos self).
Definition pool_value (self : UtxoPool) : Z :=
  fold_left (fun sum u => sat_add sum (u_amount u)) (in_move_pool_utxos self) 0.
Definition oldest_timestamp (self : UtxoPool) : option UnixSeconds :=
  match first_seen <$> in_move_pool_utxos self with
  | [] => None
  | x :: l => Some (fold_left Z.min l x)
  end.
Definition outpoints (self : UtxoPool) : list OutPoint := fst <$> entries self.

(** ** Changing *)

Definition with_origin (u : Utxo) (o : UtxoOrigin) : Utxo :=
  mkUtxo (u_amount u) (u_script_pubkey u) o (first_seen u).

Definition pool_add (self : UtxoPool) (outpoint : OutPoint) (utxo : Utxo)
    : total (list MonitorFinding * UtxoPool) :=
  match self !! outpoint with
  | None => Ok ([], <[outpoint := utxo]> self)
  | Some held =>
      upd ← updated_by (u_origin held) (u_origin utxo);
      let mismatch :=
        if negb (u_amount held =? u_amount utxo)
           || negb (bool_decide (u_script_pubkey held = u_script_pubkey utxo))
        then [FBtcRpcInconsistency (UtxoMismatch outpoint (u_amount held) (u_amount utxo)
                                      (u_script_pubkey held) (u_script_pubkey utxo))]
        else [] in
      match upd with
      | Some origin => Ok (mismatch, <[outpoint := with_origin held origin]> self)
      | None =>
          Ok (UtxoOriginConflict outpoint (u_origin held) (u_origin utxo) :: mismatch, self)
      end
  end.

Definition add_deposit (self : UtxoPool) (deposit : FinishedDeposit)
    : total (list MonitorFinding * UtxoPool) :=
  pool_add self (fd_deposit_id deposit) (fd_utxo deposit).

Definition mark_approved (self : UtxoPool) (deposit_id : DepositId) : UtxoPool :=
  match self !! deposit_id with
  | Some utxo =>
      match u_origin utxo with
      | UnapprovedDeposit _ _ => <[deposit_id := with_origin utxo Deposit]> self
      | _ => self
      end
  | None => self
  end.

Definition spend (self : UtxoPool) (outpoint : OutPoint) (txid : Txid)
    : option MonitorFinding * UtxoPool :=
  let held := self !! outpoint in
  let self := delete outpoint self in
  match held with
  | Some utxo =>
      if in_move_pool (u_origin utxo) then (None, self)
      else (Some (UtxoOutsideMovePoolSpent outpoint txid (Some (u_origin utxo))), self)
  | None => (Some (UtxoOutsideMovePoolSpent outpoint txid None), self)
  end.

(** Fold a list of adds, collecting the findings. *)
Fixpoint add_list (self : UtxoPool) (l : list (OutPoint * Utxo))
    : total (list MonitorFinding * UtxoPool) :=
  match l with
  | [] => Ok ([], self)
  | (o, u) :: l =>
      '(fs, self) ← pool_add self o u;
      '(fs', self) ← add_list self l;
      Ok (fs ++ fs', self)
  end.

(** The outputs from the first change vout on, with their outpoints. *)
Definition change_utxos (withdrawal : FinishedWithdrawal) : list (OutPoint * Utxo) :=
  imap (fun i o =>
          ((fw_txid withdrawal, Z.of_nat (first_change_vout withdrawal + i) mod 2 ^ 32),
           mkUtxo (value o) (out_script o) Change (block_time (fw_confirmation withdrawal))))
    (drop (first_change_vout withdrawal) (conf_outputs (fw_confirmation withdrawal))).

Definition add_change_outputs (self : UtxoPool) (withdrawal : FinishedWithdrawal)
    : total (list MonitorFinding * UtxoPool) :=
  add_list self (change_utxos withdrawal).

Fixpoint add_all_changes (self : UtxoPool) (ws : list FinishedWithdrawal)
    : total (list MonitorFinding * UtxoPool) :=
  match ws with
  | [] => Ok ([], self)
  | w :: ws =>
      '(fs, self) ← add_change_outputs self w;
      '(fs', self) ← add_all_changes self ws;
      Ok (fs ++ fs', self)
  end.

Fixpoint spend_list (self : UtxoPool) (l : list (OutPoint * Txid))
    : list MonitorFinding * UtxoPool :=
  match l with
  | [] => ([], self)
  | (o, x) :: l =>
      let '(f, self) := spend self o x in
      let '(fs, self) := spend_list self l in
      (option_list f ++ fs, self)
  end.

(** The inputs of a batch, each with the transaction that spends it. *)
Definition spends_of (ws : list FinishedWithdrawal) : list (OutPoint * Txid) :=
  ws ≫= fun w => (fun i => (i, fw_txid w)) <$> conf_inputs (fw_confirmation w).

Definition add_withdrawals (self : UtxoPool) (withdrawals : list FinishedWithdrawal)
    : total (list MonitorFinding * UtxoPool) :=
  '(fs, self) ← add_all_changes self withdrawals;
  let '(fs', self) := spend_list self (spends_of withdrawals) in
  Ok (fs ++ fs', self).

(** ** Judging *)

Definition unapproved_past_deadline (self : UtxoPool) (sui_cursor : UnixSeconds) (timing : Timing)
    : list MonitorFinding :=
  omap (fun e =>
          match u_origin e.2 with
          | UnapprovedDeposit requested_at _ =>
              if wadd requested_at (deposit_request_watch timing) <? sui_cursor
              then deposit_not_approved e.1 e.2 timing else None
          | _ => None
          end) (entries self).

Definition check_sui_approval (self : UtxoPool) (sui : SuiDepositApprovedEvent) (skew : Z)
    : list MonitorFinding * UtxoPool :=
  let paid :=
    utxo ← self !! app_deposit_id sui;
    if bool_decide (u_origin utxo = Change) then None
    else Some (mkBtcConfirmedDeposit (app_deposit_id sui) (u_amount utxo) (u_script_pubkey utxo)
                 (first_seen utxo)) in
  (judge sui paid skew, mark_approved self (app_deposit_id sui)).

Definition check_one (states : gmap OutPoint OutpointState) (now : UnixSeconds) (timing : Timing)
    (e : OutPoint * Utxo) : list MonitorFinding * option SuspectSpend :=
  let '(outpoint, utxo) := e in
  match states !! outpoint with
  | Some (Unspent block_time) =>
      let age_secs := sat_sub now block_time in
      (if utxo_max_age timing <=? age_secs
       then [UtxoTooOld outpoint age_secs (utxo_max_age timing)] else [], None)
  | Some Spent => ([], Some (mkSuspectSpend now (u_amount utxo)))
  | Some Missing | None =>
      ([FBtcRpcInconsistency (UtxoVanished outpoint (first_seen utxo))], None)
  end.

Definition pool_check (self : UtxoPool) (states : gmap OutPoint OutpointState)
    (now : UnixSeconds) (timing : Timing) : list MonitorFinding * gmap OutPoint SuspectSpend :=
  (entries self ≫= fun e => (check_one states now timing e).1,
   fold_left (fun m e => match (check_one states now timing e).2 with
                         | Some s => <[e.1 := s]> m | None => m end) (entries self) ∅).

(** ** Origins *)

Lemma updated_by_total a b : exists r, updated_by a b = Ok r.
Proof. destruct a, b; unfold updated_by, is_change; cbn; eauto. Qed.

(** The origin a held UTXO has after an add. *)
Definition merge_origin (held new : UtxoOrigin) : UtxoOrigin :=
  match updated_by held new with Ok (Some o) => o | _ => held end.

Definition merge_utxo (u : Utxo) (held : option Utxo) : option Utxo :=
  Some match held with
       | None => u
       | Some h => with_origin h (merge_origin (u_origin h) (u_origin u))
       end.

Lemma with_origin_id u : with_origin u (u_origin u) = u.
Proof. by destruct u. Qed.

Lemma merge_origin_change h : merge_origin h Change = h.
Proof. by destruct h. Qed.

(** An approved deposit and change stay in Move's pool. *)
Lemma merge_origin_in_move h n : in_move_pool h = true -> in_move_pool (merge_origin h n) = true.
Proof. by destruct h, n. Qed.

Definition add_findings (self : UtxoPool) (o : OutPoint) (u : Utxo) : list MonitorFinding :=
  match pool_add self o u with Ok (fs, _) => fs | _ => [] end.

Lemma merge_insert (p : UtxoPool) o u held :
  p !! o = held ->
  partial_alter (merge_utxo u) o p = <[o := default u (merge_utxo u held)]> p.
Proof.
  intros Ho. apply map_eq. intros k. destruct (decide (k = o)) as [->|Hk].
  - by rewrite lookup_partial_alter_eq, lookup_insert_eq, Ho.
  - by rewrite lookup_partial_alter_ne, lookup_insert_ne.
Qed.

(** Adding is one entry update; the reported findings never stop it. *)
Lemma pool_add_Ok p o u :
  pool_add p o u = Ok (add_findings p o u, partial_alter (merge_utxo u) o p).
Proof.
  assert (exists fs, pool_add p o u = Ok (fs, partial_alter (merge_utxo u) o p)) as [fs Hfs].
  { unfold pool_add. destruct (p !! o) as [h|] eqn:Ho.
    - destruct (updated_by_total (u_origin h) (u_origin u)) as [r Hr]. rewrite Hr. cbn.
      assert (partial_alter (merge_utxo u) o p
              = <[o := with_origin h (merge_origin (u_origin h) (u_origin u))]> p) as ->.
      { by rewrite (merge_insert p o u _ Ho). }
      unfold merge_origin. rewrite Hr. destruct r as [o'|]; eexists; [done|].
      rewrite with_origin_id, insert_id by done. done.
    - eexists. by rewrite (merge_insert p o u _ Ho). }
  unfold add_findings. by rewrite Hfs.
Qed.

Lemma add_list_Ok p l :
  exists fs, add_list p l
    = Ok (fs, fold_left (fun m e => partial_alter (merge_utxo e.2) e.1 m) l p).
Proof.
  revert p. induction l as [|[o u] l IH]; intros p; cbn; [by eexists|].
  rewrite pool_add_Ok. cbn. destruct (IH (partial_alter (merge_utxo u) o p)) as [fs ->].
  cbn. by eexists.
Qed.

Lemma add_all_changes_Ok p ws :
  exists fs, add_all_changes p ws
    = Ok (fs, fold_left (fun m e => partial_alter (merge_utxo e.2) e.1 m) (ws ≫= change_utxos) p).
Proof.
  revert p. induction ws as [|w ws IH]; intros p; cbn; [by eexists|].
  unfold add_change_outputs. destruct (add_list_Ok p (change_utxos w)) as [fs ->]. cbn.
  rewrite fold_left_app. match goal with |- context [add_all_changes ?q ws] => destruct (IH q) as [fs' ->] end.
  cbn. by eexists.
Qed.

Definition changes_of (ws : list FinishedWithdrawal) : gmap OutPoint Utxo :=
  list_to_map (ws ≫= change_utxos).

Lemma changes_are_change ws : Forall (fun e => u_origin e.2 = Change) (ws ≫= change_utxos).
Proof.
  apply Forall_forall. intros e (w & He & _)%list_elem_of_bind.
  unfold change_utxos in He. apply elem_of_lookup_imap in He as (i & o & -> & _). done.
Qed.

(** Change never replaces what the pool holds: adding it is a left-biased union. *)
Lemma add_changes_union l : forall p : UtxoPool,
  Forall (fun e => u_origin e.2 = Change) l ->
  fold_left (fun m e => partial_alter (merge_utxo e.2) e.1 m) l p = p ∪ list_to_map l.
Proof.
  induction l as [|[o u] l IH]; intros p Hl; cbn.
  { by rewrite (right_id_L ∅ (∪)). }
  inversion Hl as [|? ? Hu Hl']; subst. cbn in Hu. rewrite IH by done.
  apply map_eq. intros k. rewrite !lookup_union.
  destruct (decide (k = o)) as [->|Hk].
  - rewrite lookup_partial_alter_eq, lookup_insert_eq. unfold merge_utxo. rewrite Hu.
    destruct (p !! o) as [h|] eqn:Ho; cbn.
    + rewrite merge_origin_change, with_origin_id. by destruct (list_to_map l !! o).
    + by destruct (list_to_map l !! o).
  - by rewrite lookup_partial_alter_ne, lookup_insert_ne by done.
Qed.

(** ** Spends *)

(** The finding of one spend. *)
Definition outside (p : UtxoPool) (o : OutPoint) (x : Txid) : option MonitorFinding :=
  match p !! o with
  | Some u => if in_move_pool (u_origin u) then None
              else Some (UtxoOutsideMovePoolSpent o x (Some (u_origin u)))
  | None => Some (UtxoOutsideMovePoolSpent o x None)
  end.

Lemma spend_Ok p o x : spend p o x = (outside p o x, delete o p).
Proof. unfold spend, outside. destruct (p !! o); [by destruct (in_move_pool _)|done]. Qed.

Lemma spend_list_pool l : forall p k,
  (spend_list p l).2 !! k = if bool_decide (k ∈ fst <$> l) then None else p !! k.
Proof.
  induction l as [|[o x] l IH]; intros p k; cbn [spend_list].
  { by rewrite bool_decide_false by set_solver. }
  rewrite spend_Ok. specialize (IH (delete o p) k).
  destruct (spend_list (delete o p) l) as [fs p']. cbn in *. rewrite IH.
  destruct (decide (k = o)) as [->|Hk].
  - rewrite lookup_delete_eq, (bool_decide_true (o ∈ o :: _)) by set_solver. by case_match.
  - rewrite lookup_delete_ne by done. apply (f_equal (fun b : bool => if b then None else p !! k)).
    apply bool_decide_ext. set_solver.
Qed.

Lemma outside_delete p o (l : list (OutPoint * Txid)) :
  o ∉ fst <$> l ->
  omap (fun e => outside (delete o p) e.1 e.2) l = omap (fun e => outside p e.1 e.2) l.
Proof.
  induction l as [|[o' x'] l IH]; cbn; [done|]. intros [Hne Hnin]%not_elem_of_cons.
  rewrite IH by done. unfold outside at 1 3. by rewrite lookup_delete_ne.
Qed.

(** Spends of distinct outpoints are judged against the pool before them. *)
Lemma spend_list_findings l : forall p,
  NoDup (fst <$> l) -> (spend_list p l).1 = omap (fun e => outside p e.1 e.2) l.
Proof.
  induction l as [|[o x] l IH]; intros p Hnd; cbn [spend_list]; [done|].
  inversion Hnd as [|? ? Hnin Hnd']; subst. rewrite spend_Ok.
  specialize (IH (delete o p) Hnd'). destruct (spend_list (delete o p) l) as [fs p']. cbn in *.
  rewrite IH, outside_delete by done.
  by destruct (outside p o x).
Qed.

Definition is_outside_spend (f : MonitorFinding) : bool :=
  match f with UtxoOutsideMovePoolSpent _ _ _ => true | _ => false end.

Lemma add_findings_not_outside p o u : existsb is_outside_spend (add_findings p o u) = false.
Proof.
  unfold add_findings, pool_add. destruct (p !! o); [|done].
  destruct (updated_by_total (u_origin u0) (u_origin u)) as [[r|] ->]; cbn; by destruct (_ || _).
Qed.

Lemma add_list_not_outside l : forall p fs p',
  add_list p l = Ok (fs, p') -> existsb is_outside_spend fs = false.
Proof.
  induction l as [|[o u] l IH]; intros p fs p' H; cbn in H; [by injection H as <- <-|].
  rewrite pool_add_Ok in H. cbn in H. apply bind_Ok in H as ([fs1 p1] & H1 & [= <- <-]).
  rewrite existsb_app, add_findings_not_outside. by eapply IH.
Qed.

Lemma add_all_changes_not_outside ws : forall p fs p',
  add_all_changes p ws = Ok (fs, p') -> existsb is_outside_spend fs = false.
Proof.
  induction ws as [|w ws IH]; intros p fs p' H; cbn in H; [by injection H as <- <-|].
  apply bind_Ok in H as ([fs1 p1] & H1 & H). apply bind_Ok in H as ([fs2 p2] & H2 & [= <- <-]).
  rewrite existsb_app, (add_list_not_outside _ _ _ _ H1). by eapply IH.
Qed.

Lemma existsb_omap_none {A B} (f : A -> option B) (g : B -> bool) l :
  (forall x y, x ∈ l -> f x = Some y -> g y = false) -> existsb g (omap f l) = false.
Proof.
  induction l as [|x l IH]; intros H; cbn; [done|].
  rewrite <- IH by (intros; eapply H; [by right|done]).
  destruct (f x) eqn:E; cbn; [|done]. by rewrite (H x b (list_elem_of_here x l) E).
Qed.

(** The pool after a batch, and its spend findings, from the pool before it. *)
Lemma add_withdrawals_Ok p ws :
  exists fs fs' p', add_withdrawals p ws = Ok (fs ++ fs', p')
    /\ (forall o, p' !! o = if bool_decide (o ∈ fst <$> spends_of ws) then None
                            else (p ∪ changes_of ws) !! o)
    /\ existsb is_outside_spend fs = false
    /\ (NoDup (fst <$> spends_of ws) ->
        fs' = omap (fun e => outside (p ∪ changes_of ws) e.1 e.2) (spends_of ws)).
Proof.
  unfold add_withdrawals. destruct (add_all_changes_Ok p ws) as [fs Hadd]. rewrite Hadd. cbn.
  rewrite add_changes_union by apply changes_are_change. fold (changes_of ws).
  destruct (spend_list _ _) as [fs' p'] eqn:Hsp.
  exists fs, fs', p'. split; [reflexivity|]. split_and!.
  - intros o. pose proof (spend_list_pool (spends_of ws) (p ∪ changes_of ws) o) as H.
    by rewrite Hsp in H.
  - by apply add_all_changes_not_outside in Hadd.
  - intros Hnd. pose proof (spend_list_findings (spends_of ws) (p ∪ changes_of ws) Hnd) as H.
    by rewrite Hsp in H.
Qed.

(** An input is clean if Move's pool holds it or the batch itself creates it. *)
Definition covered (p : UtxoPool) (ws : list FinishedWithdrawal) (o : OutPoint) : Prop :=
  (exists u, p !! o = Some u /\ in_move_pool (u_origin u) = true)
  \/ (p !! o = None /\ is_Some (changes_of ws !! o)).

Lemma covered_not_outside p ws o x : covered p ws o -> outside (p ∪ changes_of ws) o x = None.
Proof.
  unfold outside. rewrite lookup_union.
  intros [(u & -> & Hm)|(-> & [c Hc])].
  - destruct (changes_of ws !! o); cbn; by rewrite Hm.
  - rewrite Hc. cbn. assert (u_origin c = Change) as ->; [|done].
    unfold changes_of in Hc. apply elem_of_list_to_map_2 in Hc.
    pose proof (changes_are_change ws) as Hall. rewrite Forall_forall in Hall. by apply Hall in Hc.
Qed.

(** The effect of a batch of confirmed withdrawals.  Every change output enters before
    any input leaves: afterwards the pool holds exactly the UTXOs it held and the
    batch's change outputs, minus the batch's inputs, and it never panics.  If every
    input is distinct and is either in Move's pool already or the change of a
    withdrawal of the same batch, no [UtxoOutsideMovePoolSpent] is reported, in
    whatever order the dependent withdrawals are listed. *)
Theorem withdrawal_batch_effect p ws :
  exists fs p', add_withdrawals p ws = Ok (fs, p')
    /\ (forall o, p' !! o = if bool_decide (o ∈ fst <$> spends_of ws) then None
                            else (p ∪ changes_of ws) !! o)
    /\ (NoDup (fst <$> spends_of ws) ->
        (forall o, o ∈ fst <$> spends_of ws -> covered p ws o) ->
        existsb is_outside_spend fs = false).
Proof.
  destruct (add_withdrawals_Ok p ws) as (fs & fs' & p' & Hw & Hp & Hfs & Hfs').
  exists (fs ++ fs'), p'. split_and!; [done..|]. intros Hnd Hcov.
  rewrite existsb_app, Hfs, (Hfs' Hnd). apply existsb_omap_none. intros [o x] f Hin Hf. cbn in Hf.
  rewrite covered_not_outside in Hf; [done|]. apply Hcov. by apply (list_elem_of_fmap_2 fst) in Hin.
Qed.

(** Change outpoints of transactions with distinct txids are distinct. *)
Lemma change_keys_nodup w :
  Z.of_nat (length (conf_outputs (fw_confirmation w))) <= 2 ^ 32 ->
  NoDup (fst <$> change_utxos w).
Proof.
  intros Hlen. apply NoDup_alt. intros i j k Hi Hj. unfold change_utxos in *.
  rewrite list_lookup_fmap, list_lookup_imap in Hi, Hj.
  destruct (drop _ _ !! i) as [oi|] eqn:Ei; [|done].
  destruct (drop _ _ !! j) as [oj|] eqn:Ej; [|done]. cbn in Hi, Hj.
  rewrite lookup_drop in Ei, Ej. apply lookup_lt_Some in Ei, Ej. simplify_eq.
  rewrite !Z.mod_small in * by lia. lia.
Qed.

Lemma changes_keys_nodup ws :
  NoDup (fw_txid <$> ws) ->
  Forall (fun w => Z.of_nat (length (conf_outputs (fw_confirmation w))) <= 2 ^ 32) ws ->
  NoDup (fst <$> (ws ≫= change_utxos)).
Proof.
  induction ws as [|w ws IH]; cbn; intros Hnd Hlen; [constructor|].
  inversion Hnd as [|? ? Hnin Hnd']; inversion Hlen; subst. rewrite fmap_app.
  apply NoDup_app. split; [by apply change_keys_nodup|]. split; [|by apply IH].
  intros k (e & -> & He)%list_elem_of_fmap (e' & Heq & He')%list_elem_of_fmap.
  apply list_elem_of_bind in He' as (w' & He' & Hw').
  apply elem_of_lookup_imap in He as (i & o & -> & _).
  apply elem_of_lookup_imap in He' as (i' & o' & -> & _). cbn in Heq. simplify_eq.
  apply Hnin. match goal with H : fw_txid w = fw_txid w' |- _ => rewrite H end.
  by apply list_elem_of_fmap_2.
Qed.

(** The batch is a set.  Listing the confirmed withdrawals of a batch in another order
    leaves the same pool. *)
Theorem batch_order_irrelevant p ws ws' :
  ws ≡ₚ ws' -> NoDup (fw_txid <$> ws) ->
  Forall (fun w => Z.of_nat (length (conf_outputs (fw_confirmation w))) <= 2 ^ 32) ws ->
  exists fs fs' p', add_withdrawals p ws = Ok (fs, p') /\ add_withdrawals p ws' = Ok (fs', p').
Proof.
  intros Hp Hnd Hlen.
  destruct (add_withdrawals_Ok p ws) as (fs & fs1 & p1 & H1 & E1 & _).
  destruct (add_withdrawals_Ok p ws') as (fs' & fs2 & p2 & H2 & E2 & _).
  exists (fs ++ fs1), (fs' ++ fs2), p1. split; [done|]. assert (p1 = p2) as ->; [|done].
  apply map_eq. intros o. rewrite E1, E2.
  assert (changes_of ws = changes_of ws') as <-.
  { unfold changes_of. apply list_to_map_proper; [by apply changes_keys_nodup|by rewrite Hp]. }
  apply (f_equal (fun b : bool => if b then None else (p ∪ changes_of ws) !! o)).
  apply bool_decide_ext. unfold spends_of. by rewrite Hp.
Qed.

(** ** Storing and loading *)

Lemma entries_perm p : entries p ≡ₚ map_to_list p.
Proof. apply sort_by_perm. Qed.

(** Reading back what was stored gives the same pool. *)
Lemma pool_wire_roundtrip p : from_wire (held_to_wire p) = p.
Proof.
  unfold from_wire, held_to_wire.
  assert (NoDup (fst <$> entries p)) as Hnd by (rewrite entries_perm; apply NoDup_fst_map_to_list).
  rewrite fold_insert_list_to_map by done. rewrite (right_id_L ∅ (∪)).
  rewrite <- (list_to_map_to_list p) at 2. apply list_to_map_proper; [done|apply entries_perm].
Qed.

(** ** What can change a held UTXO *)

(** The steps of the pool's life. *)
Inductive pool_op :=
| PAddDeposit (d : FinishedDeposit)
| PApproval (a : SuiDepositApprovedEvent) (skew : Z)
| PWithdrawals (ws : list FinishedWithdrawal).

Definition pool_step (p : UtxoPool) (op : pool_op) : total (list MonitorFinding * UtxoPool) :=
  match op with
  | PAddDeposit d => add_deposit p d
  | PApproval a skew => Ok (check_sui_approval p a skew)
  | PWithdrawals ws => add_withdrawals p ws
  end.

Definition spent_by (op : pool_op) : list OutPoint :=
  match op with PWithdrawals ws => fst <$> spends_of ws | _ => [] end.

Lemma mark_approved_lookup p d o :
  mark_approved p d !! o =
  if decide (o = d)
  then (fun u => with_origin u (if in_move_pool (u_origin u) then u_origin u else Deposit)) <$> p !! o
  else p !! o.
Proof.
  unfold mark_approved. case_decide as Ho; [subst o|].
  - destruct (p !! d) as [u|] eqn:E; [|by rewrite E].
    destruct u as [am sc [| |] fs]; cbn; rewrite ?E; cbn; try done. by rewrite lookup_insert_eq.
  - destruct (p !! d) as [u|]; [|done]. destruct (u_origin u); try done.
    by rewrite lookup_insert_ne.
Qed.

(** Only a confirmed spend removes a UTXO, and nothing rewrites one.  After a step a
    held UTXO that the step does not spend is still held with the same amount,
    script and block time; once in Move's pool it stays there; and change stays
    change.  A step never panics. *)
Theorem pool_step_preserves p op :
  exists fs p', pool_step p op = Ok (fs, p')
    /\ forall o u, p !! o = Some u -> o ∉ spent_by op ->
       exists u', p' !! o = Some u' /\ u_amount u' = u_amount u
         /\ u_script_pubkey u' = u_script_pubkey u /\ first_seen u' = first_seen u
         /\ (in_move_pool (u_origin u) = true -> in_move_pool (u_origin u') = true)
         /\ (u_origin u = Change -> u_origin u' = Change).
Proof.
  destruct op as [d|a skew|ws]; cbn.
  - unfold add_deposit. rewrite pool_add_Ok. eexists _, _. split; [reflexivity|].
    intros o u Ho _. destruct (decide (o = fd_deposit_id d)) as [->|Hne].
    + rewrite lookup_partial_alter_eq, Ho. eexists. split; [reflexivity|]. cbn.
      split_and!; try done; [apply merge_origin_in_move|]. intros ->.
      by destruct (u_origin (fd_utxo d)).
    + rewrite lookup_partial_alter_ne by done. by exists u.
  - eexists _, _. split; [reflexivity|]. intros o u Ho _. rewrite mark_approved_lookup.
    case_decide as E; [|by exists u]. rewrite Ho. eexists. split; [reflexivity|]. cbn.
    split_and!; try done; by destruct (u_origin u).
  - unfold add_withdrawals. destruct (add_all_changes_Ok p ws) as [fs ->]. cbn.
    rewrite add_changes_union by apply changes_are_change. fold (changes_of ws).
    destruct (spend_list _ _) as [fs' p'] eqn:Hsp. eexists _, p'. split; [reflexivity|].
    intros o u Ho Hs. pose proof (spend_list_pool (spends_of ws) (p ∪ changes_of ws) o) as H.
    rewrite Hsp, bool_decide_false in H by done. cbn in H. exists u. split; [|done].
    rewrite H. by apply lookup_union_Some_l.
Qed.

(** ** The daily check *)

Lemma elem_of_entries p o u : (o, u) ∈ entries p <-> p !! o = Some u.
Proof. by rewrite entries_perm, elem_of_map_to_list. Qed.

Lemma suspects_lookup (f : OutPoint * Utxo -> option SuspectSpend) (l : list (OutPoint * Utxo)) :
  forall (m : gmap OutPoint SuspectSpend) o,
  NoDup (fst <$> l) ->
  fold_left (fun m e => match f e with Some s => <[e.1 := s]> m | None => m end) l m !! o
  = match list_to_map (M:=gmap OutPoint Utxo) l !! o with
    | Some u => match f (o, u) with Some s => Some s | None => m !! o end
    | None => m !! o
    end.
Proof.
  induction l as [|[k u] l IH]; intros m o Hnd; cbn; [done|].
  inversion Hnd as [|? ? Hnin Hnd']; subst. rewrite IH by done.
  destruct (decide (o = k)) as [->|Hne].
  - rewrite (not_elem_of_list_to_map_1 l k), lookup_insert_eq by done.
    destruct (f (k, u)); [by rewrite lookup_insert_eq|done].
  - rewrite lookup_insert_ne by done.
    assert (match f (k, u) with Some s => <[k:=s]> m | None => m end !! o = m !! o) as ->; [|done].
    destruct (f (k, u)); [by rewrite lookup_insert_ne|done].
Qed.

(** The daily check accounts for every held UTXO, and only for those.  A UTXO that
    Bitcoin says is unspent is reported exactly when its age reaches the limit; one
    that is missing is always reported; one that is spent is not reported but kept
    as a suspect, with its amount and the time of the lookup; and there is no other
    finding and no other suspect. *)
Theorem pool_check_exact p states now t :
  let '(fs, suspects) := pool_check p states now t in
  (forall f, f ∈ fs <->
     exists o u, p !! o = Some u
       /\ ((exists b, states !! o = Some (Unspent b) /\ utxo_max_age t <= sat_sub now b
                      /\ f = UtxoTooOld o (sat_sub now b) (utxo_max_age t))
           \/ ((states !! o = Some Missing \/ states !! o = None)
               /\ f = FBtcRpcInconsistency (UtxoVanished o (first_seen u)))))
  /\ (forall o s, suspects !! o = Some s <->
        exists u, p !! o = Some u /\ states !! o = Some Spent
                  /\ s = mkSuspectSpend now (u_amount u)).
Proof.
  unfold pool_check. split.
  - intros f. rewrite list_elem_of_bind. split.
    + intros ([o u] & Hf & Hin%elem_of_entries). exists o, u. split; [done|].
      unfold check_one in Hf. destruct (states !! o) as [[| |b]|]; cbn in Hf; try set_solver.
      destruct (Z.leb_spec (utxo_max_age t) (sat_sub now b)); set_solver.
    + intros (o & u & Hu & Hcase). exists (o, u). rewrite elem_of_entries. split; [|done].
      unfold check_one. destruct Hcase as [(b & -> & Hle & ->)|([-> | ->] & ->)]; cbn; try set_solver.
      rewrite (proj2 (Z.leb_le _ _) Hle). set_solver.
  - intros o s.
    rewrite (suspects_lookup (fun e => (check_one states now t e).2) (entries p) ∅ o)
      by (rewrite entries_perm; apply NoDup_fst_map_to_list).
    assert (list_to_map (entries p) = p) as ->.
    { rewrite <- (list_to_map_to_list p) at 2. apply list_to_map_proper; [|apply entries_perm].
      rewrite entries_perm. apply NoDup_fst_map_to_list. }
    rewrite lookup_empty. unfold check_one. split.
    + destruct (p !! o) as [u|] eqn:Hu; [|done].
      destruct (states !! o) as [[| |b]|] eqn:Hs; cbn; try done. intros [= <-]. eauto.
    + intros (u & -> & -> & ->). done.
Qed.

(** ** Late approvals *)

(** An approval judged against the pool.  Whatever the verdict, the approved deposit is
    in Move's pool afterwards (Move mints on it), and nothing else in the pool
    changes.  A silent verdict means that the pool holds a deposit at the approved
    outpoint, not change, with the approved amount and script, in a block no later
    than the approval plus the skew. *)
Theorem check_sui_approval_sound p a skew fs p' :
  check_sui_approval p a skew = (fs, p') ->
  (forall o, o <> app_deposit_id a -> p' !! o = p !! o)
  /\ (forall u, p !! app_deposit_id a = Some u ->
        exists u', p' !! app_deposit_id a = Some u' /\ in_move_pool (u_origin u') = true
                   /\ u_amount u' = u_amount u)
  /\ (fs = [] ->
      exists u, p !! app_deposit_id a = Some u /\ u_origin u <> Change
        /\ u_amount u = app_amount a /\ u_script_pubkey u = app_script_pubkey a
        /\ first_seen u <= wadd (app_timestamp_secs a) skew).
Proof.
  unfold check_sui_approval. intros [= <- <-]. split_and!.
  - intros o Ho. rewrite mark_approved_lookup. by rewrite decide_False.
  - intros u Hu. rewrite mark_approved_lookup, decide_True, Hu by done. cbn.
    eexists. split; [reflexivity|]. cbn. by destruct (u_origin u).
  - destruct (p !! app_deposit_id a) as [u|]; cbn; [|done]. case_bool_decide as Hc; [done|].
    unfold judge. cbn. intros [Hl Hm]%app_nil. exists u. split; [done|]. split; [done|].
    destruct (Z.ltb_spec (wadd (app_timestamp_secs a) skew) (first_seen u)); [done|].
    destruct (Z.eqb_spec (app_amount a) (u_amount u)); [|done]. cbn in Hm.
    case_bool_decide; done.
Qed.

(** ** The value of Move's pool *)

Lemma fold_sat_add l : forall acc,
  0 <= acc <= u64_max -> Forall (fun u => 0 <= u_amount u) l ->
  fold_left (fun sum u => sat_add sum (u_amount u)) l acc
  = Z.min (acc + zsum (u_amount <$> l)) u64_max.
Proof.
  induction l as [|u l IH]; intros acc Hacc Hl; cbn [fold_left].
  { rewrite fmap_nil. cbn. lia. }
  inversion Hl as [|? ? Hu Hl']; subst. rewrite fmap_cons, zsum_cons.
  pose proof (zsum_nonneg _ (proj2 (Forall_fmap _ (fun x => 0 <= x) l) Hl')).
  rewrite IH by (done || u64_lia). unfold sat_add. lia.
Qed.

(** The exact value: the sum over the UTXOs in Move's pool. *)
Definition exact_value (p : UtxoPool) : Z :=
  zsum ((fun e => if in_move_pool (u_origin e.2) then u_amount e.2 else 0) <$> map_to_list p).

Lemma filter_sum (l : list (OutPoint * Utxo)) :
  zsum (u_amount <$> List.filter (fun u => in_move_pool (u_origin u)) (snd <$> l))
  = zsum ((fun e => if in_move_pool (u_origin e.2) then u_amount e.2 else 0) <$> l).
Proof.
  induction l as [|[o u] l IH]; [done|]. rewrite !fmap_cons, zsum_cons, <- IH.
  cbn [List.filter snd]. destruct (in_move_pool (u_origin u)); [|done].
  by rewrite fmap_cons, zsum_cons.
Qed.

(** The value the supply check compares is the exact sum of the amounts in Move's
    pool, clamped to 64 bits: it counts every approved deposit and change output
    once, whatever the order of the map. *)
Theorem pool_value_exact p :
  map_Forall (fun _ u => 0 <= u_amount u) p ->
  pool_value p = Z.min (exact_value p) u64_max.
Proof.
  intros Hp. unfold pool_value, in_move_pool_utxos, exact_value.
  rewrite fold_sat_add; [|u64_lia|].
  - rewrite filter_sum, Z.add_0_l. f_equal. apply zsum_perm. by rewrite entries_perm.
  - apply Forall_forall. intros u [Hu _]%elem_of_bool_filter.
    apply list_elem_of_fmap in Hu as ([o u'] & -> & Hu%elem_of_entries). by apply (Hp o).
Qed.

(** ** A concrete pool *)

Definition deposit_utxo : Utxo := mkUtxo 120000 [1] Deposit 100.
Definition unapproved_utxo : Utxo := mkUtxo 7000 [2] (UnapprovedDeposit 50 7000) 120.
Definition small_pool : UtxoPool := <[(1, 0) := deposit_utxo]> {[(2, 1) := unapproved_utxo]}.

(** [w1] spends the deposit and leaves change; [w2], listed first, spends that change. *)
Definition w1 : FinishedWithdrawal :=
  mkFinishedWithdrawal 10
    (mkBtcConfirmation 200 260 [(1, 0)] [mkTxOut 100000 [3]; mkTxOut 19000 [4]]) 1.
Definition w2 : FinishedWithdrawal :=
  mkFinishedWithdrawal 11 (mkBtcConfirmation 210 270 [(10, 1)] [mkTxOut 18000 [5]]) 1.

Lemma batch_order_irrelevant_witness :
  exists fs fs' p', add_withdrawals small_pool [w2; w1] = Ok (fs, p')
                    /\ add_withdrawals small_pool [w1; w2] = Ok (fs', p').
Proof.
  apply (batch_order_irrelevant small_pool [w2; w1] [w1; w2]).
  - constructor.
  - apply (bool_decide_unpack _). vm_compute. exact I.
  - repeat constructor; vm_compute; discriminate.
Defined.

Definition matching_approval : SuiDepositApprovedEvent :=
  mkSuiDepositApprovedEvent 150 9 (2, 1) 7000 [2].

Lemma check_sui_approval_sound_witness :
  exists u', mark_approved small_pool (2, 1) !! (2, 1) = Some u'
    /\ in_move_pool (u_origin u') = true /\ u_amount u' = 7000.
Proof.
  apply (check_sui_approval_sound small_pool matching_approval 10 []
           (mark_approved small_pool (2, 1))) with (u := unapproved_utxo);
    vm_compute; reflexivity.
Defined.

Lemma pool_value_exact_witness : pool_value small_pool = Z.min (exact_value small_pool) u64_max.
Proof.
  apply (pool_value_exact small_pool). apply (bool_decide_unpack _). vm_compute. exact I.
Defined.
