(* ===== verification/GuardianCursor.v ===== *)
(** * The guardian log cursor

    [crates/hashi-monitor/src/rpc/guardian.rs]: the bookkeeping of the guardian's
    withdrawal log, one hourly directory at a time, with the sequence rules that show
    a missing, repeated or skipped log.  Reading and verifying the S3 objects is I/O:
    a poll takes the verified logs as an argument.

    An hourly directory ([S3HourDirectory]) is the number of its hour since the
    epoch; [next_dir] fails after the last hour of the year 9999, the last one the
    calendar of the [time] crate has. *)

From S2P Require Import Prelude MonitorDomain.

Definition MAX_SEQ_SKIP : Z := 10.

Definition HourDir := Z.
Definition LAST_HOUR : HourDir := 70389527.
Definition dir_to_unix_seconds (d : HourDir) : UnixSeconds := 3600 * d.
Definition next_dir (d : HourDir) : option HourDir := if d <? LAST_HOUR then Some (d + 1) else None.

Record GuardianCursor := mkGuardianCursor {
  dir : HourDir;
  dir_keys : gset string;
  next_seq : Z;
  gaps : gset Z;
  due_gaps : gset Z;
}.

Definition guardian_cursor_new (d : HourDir) : GuardianCursor := mkGuardianCursor d ∅ 0 ∅ ∅.

Definition read_until (self : GuardianCursor) : UnixSeconds := dir_to_unix_seconds (dir self).

Definition is_new (self : GuardianCursor) (key : string) : bool :=
  negb (bool_decide (key ∈ dir_keys self)).

Definition record (self : GuardianCursor) (key : string) (seq : Z)
    : total (option GuardianInconsistency * GuardianCursor) :=
  _ ← assert (is_new self key);
  let keys := dir_keys self ∪ {[key]} in
  match seq ?= next_seq self with
  | Lt =>
      if bool_decide (seq ∈ gaps self) then
        Ok (None, mkGuardianCursor (dir self) keys (next_seq self) (gaps self ∖ {[seq]})
                    (due_gaps self))
      else if bool_decide (seq ∈ due_gaps self) then
        Ok (None, mkGuardianCursor (dir self) keys (next_seq self) (gaps self)
                    (due_gaps self ∖ {[seq]}))
      else
        Ok (Some (SeqDuplicate seq key),
            mkGuardianCursor (dir self) keys (next_seq self) (gaps self) (due_gaps self))
  | Eq =>
      Ok (None, mkGuardianCursor (dir self) keys (sat_add seq 1) (gaps self) (due_gaps self))
  | Gt =>
      if MAX_SEQ_SKIP <? seq - next_seq self then
        Ok (Some (SeqJump (next_seq self) seq key),
            mkGuardianCursor (dir self) keys (sat_add seq 1) (gaps self) (due_gaps self))
      else
        Ok (None, mkGuardianCursor (dir self) keys (sat_add seq 1)
                    (gaps self ∪ list_to_set (seqZ (next_seq self) (seq - next_seq self)))
                    (due_gaps self))
  end.

(** [None]: the calendar ends. *)
Definition finish_dir (self : GuardianCursor)
    : option (list GuardianInconsistency * GuardianCursor) :=
  d ← next_dir (dir self);
  let expect_by := dir_to_unix_seconds d in
  Some ((fun seq => SeqGap seq expect_by) <$> sort_by Z.leb (elements (due_gaps self)),
        mkGuardianCursor d ∅ (next_seq self) ∅ (gaps self)).

(** ** One poll *)

Section poll.
Context `{BK : BtcKeys}.

(** A verified log: its S3 key, the guardian's time and S3's, and its message, which is a
    withdrawal unless the log is of another kind. *)
Record VerifiedLog := mkVerifiedLog {
  session_id : string;
  object_key : string;
  logged_at_ms : UnixMillis;
  stored_at_ms : UnixMillis;
  clock_skewed : bool;
  message : option WithdrawalLogMessage;
}.

Inductive PollError := NonWithdrawalLog | CalendarEnd.

(** [Option<u64>] keys compare [None] first. *)
Definition seq_key_leb (a b : VerifiedLog) : bool :=
  match message a, message b with
  | None, _ => true
  | Some _, None => false
  | Some x, Some y => wl_seq x <=? wl_seq y
  end.

Fixpoint poll_logs (next : GuardianCursor) (logs : list VerifiedLog)
    : outcome PollError (list MonitorEvent * list MonitorFinding * GuardianCursor) :=
  match logs with
  | [] => Ok ([], [], next)
  | log :: logs =>
      let skew :=
        if clock_skewed log
        then [GuardianClockSkew (session_id log) (object_key log) (logged_at_ms log)
                (stored_at_ms log)] else [] in
      withdrawal ← match message log with Some w => Ok w | None => Err NonWithdrawalLog end;
      '(inconsistency, next) ← match record next (object_key log) (wl_seq withdrawal) with
                               | Ok r => Ok r | Err e => match e with end | Panic => Panic end;
      let '(events, found) :=
        match from_guardian withdrawal (object_key log) (logged_at_ms log) with
        | Ok event => ([MEWithdrawal event], [])
        | Err found => ([], found)
        | Panic => ([], [])
        end in
      '(events', findings', next) ← poll_logs next logs;
      Ok (events ++ events',
          skew ++ option_list (FGuardianInconsistency <$> inconsistency) ++ found ++ findings',
          next)
  end.

(** [logs] are the verified logs of the directory whose keys are new to the cursor.  An
    error leaves the caller's cursor as it was. *)
Definition poll (cursor : GuardianCursor) (dir_done : bool) (logs : list VerifiedLog)
    : outcome PollError (list MonitorEvent * list MonitorFinding * GuardianCursor) :=
  '(events, findings, next) ← poll_logs cursor (sort_by seq_key_leb logs);
  if dir_done then
    match finish_dir next with
    | None => Err CalendarEnd
    | Some (gs, next) => Ok (events, findings ++ (FGuardianInconsistency <$> gs), next)
    end
  else Ok (events, findings, next).
End poll.

(** ** Histories *)

Inductive cursor_op :=
| CRecord (key : string) (seq : Z)
| CFinish.

Definition cursor_step (c : GuardianCursor) (op : cursor_op)
    : option (list GuardianInconsistency * GuardianCursor) :=
  match op with
  | CRecord key seq => match record c key seq with
                       | Ok (f, c) => Some (option_list f, c) | _ => None end
  | CFinish => finish_dir c
  end.

Fixpoint cursor_run (c : GuardianCursor) (ops : list cursor_op)
    : option (list GuardianInconsistency * GuardianCursor) :=
  match ops with
  | [] => Some ([], c)
  | op :: ops =>
      '(fs, c) ← cursor_step c op;
      '(fs', c) ← cursor_run c ops;
      Some (fs ++ fs', c)
  end.

(** The sequence numbers of the logs read. *)
Definition seqs_of (ops : list cursor_op) : list Z :=
  omap (fun op => match op with CRecord _ s => Some s | CFinish => None end) ops.

(** ** The invariant of a silent history *)

Record cursor_inv (c : GuardianCursor) (S : list Z) : Prop := {
  ci_nodup : NoDup S;
  ci_next : 0 <= next_seq c <= u64_max;
  ci_cover : forall s, 0 <= s < next_seq c <-> s ∈ S \/ s ∈ gaps c \/ s ∈ due_gaps c;
  ci_gaps : forall s, s ∈ gaps c -> s ∉ S /\ s ∉ due_gaps c;
  ci_due : forall s, s ∈ due_gaps c -> s ∉ S;
}.

Lemma record_silent c key seq c' S :
  cursor_inv c S -> 0 <= seq < u64_max -> record c key seq = Ok (None, c') ->
  cursor_inv c' (S ++ [seq]).
Proof.
  intros [Hnd Hn Hcov Hg Hd] Hs H. unfold record in H. apply bind_Ok in H as (_ & _ & H).
  assert (seq ∉ S -> NoDup (S ++ [seq])) as Hsnoc.
  { intros. apply NoDup_app. split; [done|]. split; [set_solver|]. apply NoDup_singleton. }
  assert (sat_add seq 1 = seq + 1) as Hsat by u64_lia.
  destruct (Z.compare_spec seq (next_seq c)) as [E|E|E]; [| |].
  - injection H as <-. rewrite Hsat. split; cbn; try done; try lia.
    + apply Hsnoc. intros Hin. assert (0 <= seq < next_seq c) by (apply Hcov; auto). lia.
    + intros s. rewrite elem_of_app, list_elem_of_singleton. specialize (Hcov s).
      destruct (decide (s = seq)); [subst; split; [auto|lia]|].
      transitivity (0 <= s < next_seq c); [lia|]. rewrite Hcov. tauto.
    + intros s Hin. rewrite elem_of_app, list_elem_of_singleton.
      assert (0 <= s < next_seq c) by (apply Hcov; auto). destruct (Hg s Hin).
      split; [|done]. intros [?|?]; [done|lia].
    + intros s Hin. rewrite elem_of_app, list_elem_of_singleton.
      assert (0 <= s < next_seq c) by (apply Hcov; auto). intros [?|?]; [by eapply Hd|lia].
  - case_bool_decide as Hin; [|case_bool_decide as Hin'; [|done]]; injection H as <-.
    + destruct (Hg seq Hin). split; cbn; try done; [by apply Hsnoc| | |set_solver].
      * intros s. rewrite Hcov. destruct (decide (s = seq)); set_solver.
      * set_solver.
    + pose proof (Hd seq Hin'). split; cbn; try done; [by apply Hsnoc| |set_solver|set_solver].
      intros s. rewrite Hcov. destruct (decide (s = seq)); set_solver.
  - destruct (Z.ltb_spec MAX_SEQ_SKIP (seq - next_seq c)); [done|]. injection H as <-.
    rewrite Hsat. split; cbn; try lia.
    + apply Hsnoc. intros Hin. assert (0 <= seq < next_seq c) by (apply Hcov; auto). lia.
    + intros s. rewrite elem_of_app, list_elem_of_singleton, elem_of_union, elem_of_list_to_set,
        elem_of_seqZ. specialize (Hcov s).
      destruct (decide (0 <= s < next_seq c)) as [Hlt|Hge].
      * split; [intros _|lia]. apply Hcov in Hlt. tauto.
      * split; [|intros [[?|?]|[[?|?]|?]]; try lia; destruct Hge; tauto].
        intros. destruct (decide (s = seq)); [auto|]. right. left. right. lia.
    + intros s. rewrite elem_of_app, list_elem_of_singleton, elem_of_union, elem_of_list_to_set,
        elem_of_seqZ. intros [Hin|Hr].
      * assert (0 <= s < next_seq c) by (apply Hcov; auto). destruct (Hg s Hin).
        split; [|done]. intros [?|?]; [done|lia].
      * split; [intros [Hin|?]; [|lia]|intros Hin]; assert (0 <= s < next_seq c) by (apply Hcov; auto); lia.
    + intros s Hin. rewrite elem_of_app, list_elem_of_singleton.
      assert (0 <= s < next_seq c) by (apply Hcov; auto). intros [?|?]; [by eapply Hd|lia].
Qed.

Lemma sort_by_nil {A} (leb : A -> A -> bool) l : sort_by leb l = [] -> l = [].
Proof. intros H. apply Permutation_nil_r. rewrite <- H. by rewrite sort_by_perm. Qed.

Lemma finish_silent c c' S :
  cursor_inv c S -> finish_dir c = Some ([], c') -> cursor_inv c' S.
Proof.
  intros [Hnd Hn Hcov Hg Hd] H. unfold finish_dir in H.
  destruct (next_dir (dir c)) as [d|]; [|done]. cbn in H. injection H as Hl <-.
  apply fmap_nil_inv, sort_by_nil in Hl. apply elements_empty_inv in Hl.
  split; cbn; try done; try set_solver.
Qed.

Lemma cursor_run_snoc c ops op fs c' :
  cursor_run c (ops ++ [op]) = Some (fs, c') ->
  exists fs1 c1 fs2, cursor_run c ops = Some (fs1, c1) /\ cursor_step c1 op = Some (fs2, c')
    /\ fs = fs1 ++ fs2.
Proof.
  revert c fs. induction ops as [|o ops IH]; intros c fs; cbn [cursor_run app].
  - destruct (cursor_step c op) as [[f c1]|] eqn:E; cbn; [|done]. intros [= <- <-].
    rewrite app_nil_r. by eexists [], c, f.
  - destruct (cursor_step c o) as [[f c1]|]; cbn; [|done].
    destruct (cursor_run c1 (ops ++ [op])) as [[f2 c2]|] eqn:E; cbn; [|done]. intros [= <- <-].
    apply IH in E as (fs1 & c3 & fs2 & Hr & Hs & ->). rewrite Hr. cbn.
    eexists _, c3, fs2. split; [reflexivity|]. split; [done|]. by rewrite app_assoc.
Qed.

(** A silent guardian log is complete.  If reading the log, in any interleaving of
    records and directory changes, raised no sequence finding, then every sequence
    number below the next one was logged exactly once, except those that are still
    allowed to be late (skipped in the current directory or in the one before): no
    withdrawal was signed twice under one number and none is missing. *)
Theorem silent_log_complete d ops c :
  Forall (fun s => 0 <= s < u64_max) (seqs_of ops) ->
  cursor_run (guardian_cursor_new d) ops = Some ([], c) ->
  seqs_of ops ++ elements (gaps c) ++ elements (due_gaps c) ≡ₚ seqZ 0 (next_seq c).
Proof.
  intros Hb Hrun. assert (cursor_inv c (seqs_of ops)) as [Hnd Hn Hcov Hg Hd].
  { revert c Hb Hrun. induction ops as [|op ops IH] using rev_ind; intros c Hb Hrun.
    { cbn in Hrun. injection Hrun as <-. split; cbn; try set_solver; [constructor|u64_lia|].
      intros s. split; [lia|set_solver]. }
    apply cursor_run_snoc in Hrun as (fs1 & c1 & fs2 & Hr & Hs & Hnil).
    symmetry in Hnil. apply app_nil in Hnil as [-> ->].
    unfold seqs_of in *. rewrite omap_app, Forall_app in *. destruct Hb as [Hb1 Hb2].
    specialize (IH c1 Hb1 Hr). destruct op as [key s|]; cbn in Hs |- *.
    - destruct (record c1 key s) as [[f c2]| |] eqn:Er; [|done|done]. injection Hs as Hf <-.
      destruct f; [done|]. inversion Hb2; subst. by eapply record_silent.
    - rewrite app_nil_r. by eapply finish_silent. }
  apply NoDup_Permutation.
  - apply NoDup_app. split; [done|]. split; [set_solver|]. apply NoDup_app.
    split; [apply NoDup_elements|]. split; [set_solver|apply NoDup_elements].
  - apply NoDup_seqZ.
  - intros s. rewrite elem_of_seqZ, !elem_of_app, !elem_of_elements, Z.add_0_l. symmetry. apply Hcov.
Qed.


(** ** Gaps *)

Definition records (l : list (string * Z)) : list cursor_op := (fun ks => CRecord ks.1 ks.2) <$> l.

Lemma cursor_run_app c ops ops' fs c' :
  cursor_run c (ops ++ ops') = Some (fs, c') ->
  exists fs1 c1 fs2, cursor_run c ops = Some (fs1, c1) /\ cursor_run c1 ops' = Some (fs2, c')
    /\ fs = fs1 ++ fs2.
Proof.
  revert c fs. induction ops as [|o ops IH]; intros c fs; cbn [cursor_run app];
    [intros H; by eexists [], c, fs|].
  destruct (cursor_step c o) as [[f c1]|]; cbn; [|done].
  destruct (cursor_run c1 (ops ++ ops')) as [[f2 c2]|] eqn:E; cbn; [|done]. intros [= <- <-].
  apply IH in E as (fs1 & c3 & fs2 & -> & Hs & ->). cbn.
  eexists _, c3, fs2. split; [reflexivity|]. split; [done|]. by rewrite app_assoc.
Qed.

Lemma record_keeps_due c key seq f c' s :
  record c key seq = Ok (f, c') -> s ∈ due_gaps c -> s <> seq -> s ∈ due_gaps c'.
Proof.
  unfold record. intros H Hin Hne. apply bind_Ok in H as (_ & _ & H).
  destruct (seq ?= next_seq c); repeat case_match; simplify_eq; cbn; set_solver.
Qed.

Lemma records_keep_due l : forall c fs c' s,
  cursor_run c (records l) = Some (fs, c') -> s ∈ due_gaps c -> s ∉ l.*2 -> s ∈ due_gaps c'.
Proof.
  induction l as [|[key q] l IH]; intros c fs c' s H Hin Hnin; cbn in H.
  { by injection H as _ <-. }
  destruct (record c key q) as [[f c1]| |] eqn:Er; cbn in H; [|done|done].
  fold (records l) in H. destruct (cursor_run c1 (records l)) as [[fs2 c2]|] eqn:E; [|done]. cbn in H. injection H as _ <-.
  eapply IH; [exact E| |set_solver]. eapply record_keeps_due; [exact Er|done|set_solver].
Qed.


(** A late log after a jump is called a duplicate, although no log had its number before. *)
Theorem late_log_after_jump_called_duplicate d :
  cursor_run (guardian_cursor_new d) [CRecord "a" 20; CRecord "b" 5]
  = Some ([SeqJump 0 20 "a"; SeqDuplicate 5 "b"],
          mkGuardianCursor d {["a"; "b"]} 21 ∅ ∅).
Proof. vm_compute. do 3 f_equal. Qed.

(** ** A concrete log *)

Definition example_ops : list cursor_op :=
  [CRecord "k0" 0; CRecord "k2" 2; CFinish; CRecord "k1" 1; CRecord "k4" 4].

Definition example_cursor : GuardianCursor :=
  match cursor_run (guardian_cursor_new 100) example_ops with
  | Some (_, c) => c | None => guardian_cursor_new 0 end.

Lemma silent_log_complete_witness :
  seqs_of example_ops ++ elements (gaps example_cursor) ++ elements (due_gaps example_cursor)
  ≡ₚ seqZ 0 (next_seq example_cursor).
Proof.
  apply (silent_log_complete 100 example_ops example_cursor).
  - repeat constructor; vm_compute; (discriminate || reflexivity).
  - vm_compute. reflexivity.
Defined.

