(* ===== verification/Fencing.v ===== *)
(** * The heartbeat fence of the log writer

    [crates/hashi-guardian/src/log_writer.rs] and [s3_reader/heartbeat_checks.rs], with the
    durations of [lib.rs]: a session may start a write to the log only while the whole
    attempt fits before its last confirmed heartbeat plus the quiet period, less a budget
    for the clocks; a session is activated only when every other session has been silent
    for the whole quiet period.

    An instant of the monotonic clock is a number of milliseconds of real time, and adding a
    duration to it does not overflow.  The environment of a write says when each attempt
    starts and when and how S3 answers it.  An hourly directory is the number of its hour. *)

From Stdlib Require Import String.
From stdpp Require Import strings.
From S2P Require Import MonitorDomain GuardianCursor Prelude.

Abbreviation Instant := Z.
Abbreviation SessionID := string.

(** ** Durations (lib.rs), in milliseconds *)

Definition HEARTBEAT_INTERVAL : Z := 60000.
Definition S3_WRITE_ATTEMPT_TIMEOUT : Z := 300000.
Definition LIVE_SESSION_LATEST_HEARTBEAT_MAX_AGE : Z := 180000.
Definition OTHER_SESSION_QUIET_PERIOD : Z := 600000.
Definition ACTIVATING_READER_CLOCK_SKEW_BUDGET : Z := 60000.
Definition MAX_S3_WRITE_ATTEMPTS : nat := 5.

(** ** The writer (log_writer.rs) *)

(** [LogWriter] holds the [LatestHeartbeatTime]. *)
Record LogWriter := mkLogWriter { latest_heartbeat : option Instant }.

Definition log_writer_new : LogWriter := mkLogWriter None.

Definition next_write_deadline (self : LogWriter) : option Instant :=
  (fun heartbeat => heartbeat + OTHER_SESSION_QUIET_PERIOD - ACTIVATING_READER_CLOCK_SKEW_BUDGET)
    <$> latest_heartbeat self.

Definition renew (self : LogWriter) (heartbeat : Instant) : LogWriter := mkLogWriter (Some heartbeat).

(** One attempt as the environment runs it: when it starts, when its answer is observed, if
    ever, and whether S3 confirms. *)
Record Attempt := mkAttempt {
  at_start : Instant;
  at_answer : option (Instant * bool);
}.

Inductive AttemptResult :=
| Completed (at_ : Instant) (confirmed : bool)
| PerAttemptTimerElapsed
| CompletionObservedLate (confirmed : bool).

Definition complete_before_attempt_deadline (deadline : Instant) (a : Attempt) : AttemptResult :=
  match at_answer a with
  | None => PerAttemptTimerElapsed
  | Some (t, confirmed) =>
      if t <? deadline then Completed t confirmed else CompletionObservedLate confirmed
  end.

(** A request that was sent, and the deadline of its attempt. *)
Record Put := mkPut { put_start : Instant; put_deadline : Instant }.

(** The loop over the attempts: when the write is confirmed, or [None] when the process
    panics; and the requests that were sent. *)
Fixpoint write_with_retries (remaining : nat) (attempts : list Attempt)
    (absolute_deadline : option Instant) : option Instant * list Put :=
  match remaining, attempts with
  | S remaining, a :: attempts =>
      let attempt_deadline := at_start a + S3_WRITE_ATTEMPT_TIMEOUT in
      if match absolute_deadline with Some d => d <=? attempt_deadline | None => false end
      then (None, [])
      else
        let put := mkPut (at_start a) attempt_deadline in
        match complete_before_attempt_deadline attempt_deadline a with
        | Completed t true => (Some t, [put])
        | _ =>
            let '(r, puts) := write_with_retries remaining attempts absolute_deadline in
            (r, put :: puts)
        end
  | _, _ => (None, [])
  end.

(** One record to write: the instant [write] starts at, the time the record is signed with,
    whether it is a heartbeat, and the attempts of its environment. *)
Record WriteCall := mkWriteCall {
  wc_started : Instant;
  wc_timestamp_ms : UnixMillis;
  wc_heartbeat : bool;
  wc_attempts : list Attempt;
}.

Definition writer_write (self : LogWriter) (c : WriteCall) : option Instant * list Put * LogWriter :=
  let '(r, puts) :=
    write_with_retries MAX_S3_WRITE_ATTEMPTS (wc_attempts c) (next_write_deadline self) in
  (r, puts, match r with
            | Some _ => if wc_heartbeat c then renew self (wc_started c) else self
            | None => self
            end).

(** ** The reader (heartbeat_checks.rs) *)

Inductive HeartbeatError :=
| CurrentSessionHeartbeatNotLive (session_id : SessionID) (heartbeat_age_secs : option Z)
    (retry_after_secs : Z)
| PriorSessionHeartbeatStillRecent (session_id : SessionID) (heartbeat_age_secs required_quiet_secs : Z)
| InvalidHeartbeatLog.

(** A verified log entry, of which only heartbeats are expected. *)
Record HeartbeatLog := mkHeartbeatLog {
  hl_session_id : SessionID;
  hl_timestamp_ms : UnixMillis;
  hl_is_heartbeat : bool;
}.

Record GuardianSessionInfo := mkGuardianSessionInfo {
  si_session_id : SessionID;
  first_heartbeat : UnixMillis;
  last_heartbeat : UnixMillis;
}.

Record HeartbeatScan := mkHeartbeatScan {
  sessions : list GuardianSessionInfo;
  started_at : UnixMillis;
  completed_at : UnixMillis;
}.

Abbreviation checked_read := (outcome HeartbeatError).

Fixpoint summarize_into (m : gmap SessionID (Z * Z)) (logs : list HeartbeatLog)
    : checked_read (gmap SessionID (Z * Z)) :=
  match logs with
  | [] => Ok m
  | log :: logs =>
      let ts := hl_timestamp_ms log in
      _ ← guard (hl_is_heartbeat log) InvalidHeartbeatLog;
      summarize_into
        (<[hl_session_id log := match m !! hl_session_id log with
                                | Some (first, last) => (Z.min first ts, Z.max last ts)
                                | None => (ts, ts)
                                end]> m) logs
  end.

(** The map is iterated in the order of its keys. *)
Definition summarize_heartbeats_by_session (logs : list HeartbeatLog)
    : checked_read (list GuardianSessionInfo) :=
  m ← summarize_into ∅ logs;
  Ok ((fun e => mkGuardianSessionInfo e.1 e.2.1 e.2.2)
        <$> sort_by (fun a b => String.leb a.1 b.1) (map_to_list m)).

Definition validate_other_sessions_quiet (summary : list GuardianSessionInfo)
    (scan_started_at : UnixMillis) (live_session : SessionID) (other_session_quiet_period : Z)
    : checked_read unit :=
  match max_by_key last_heartbeat
          (List.filter (fun s => negb (String.eqb (si_session_id s) live_session)) summary) with
  | Some most_recent_other_session =>
      let heartbeat_age_ms := sat_sub scan_started_at (last_heartbeat most_recent_other_session) in
      guard (negb (heartbeat_age_ms <? other_session_quiet_period))
        (PriorSessionHeartbeatStillRecent (si_session_id most_recent_other_session)
           (unix_millis_to_seconds heartbeat_age_ms) (other_session_quiet_period / 1000))
  | None => Ok tt
  end.

Definition validate_session_live (summary : list GuardianSessionInfo) (now : UnixMillis)
    (live_session : SessionID) : checked_read GuardianSessionInfo :=
  match List.find (fun s => String.eqb (si_session_id s) live_session) summary with
  | None => Err (CurrentSessionHeartbeatNotLive live_session None (HEARTBEAT_INTERVAL / 1000))
  | Some live_session_info =>
      let live_session_age_ms := sat_sub now (last_heartbeat live_session_info) in
      _ ← guard (negb (LIVE_SESSION_LATEST_HEARTBEAT_MAX_AGE <? live_session_age_ms))
            (CurrentSessionHeartbeatNotLive live_session
               (Some (unix_millis_to_seconds live_session_age_ms)) (HEARTBEAT_INTERVAL / 1000));
      Ok live_session_info
  end.

(** [S3HourDirectory::heartbeat]: the directory of a time, as far as the calendar goes. *)
Definition heartbeat_dir (t : UnixSeconds) : option HourDir :=
  let d := t / 3600 in if d <=? LAST_HOUR then Some d else None.

(** The entries of the bucket are given with their directories. *)
Definition read_heartbeat_dir (bucket : list (HourDir * HeartbeatLog)) (d : HourDir)
    : list HeartbeatLog := (filter (fun e => e.1 = d) bucket).*2.

(** Three directories from [cursor] on; the last step forward is taken too. *)
Fixpoint read_dirs (bucket : list (HourDir * HeartbeatLog)) (n : nat) (cursor : HourDir)
    : checked_read (list HeartbeatLog) :=
  match n with
  | O => Ok []
  | S n =>
      let logs := read_heartbeat_dir bucket cursor in
      match next_dir cursor with
      | None => Err InvalidHeartbeatLog
      | Some cursor =>
          rest ← read_dirs bucket n cursor;
          Ok (logs ++ rest)
      end
  end.

Definition read_recent_heartbeat_logs (bucket : list (HourDir * HeartbeatLog))
    (reference_time : UnixMillis) : checked_read (list HeartbeatLog) :=
  let one_hour_ago := sat_sub (unix_millis_to_seconds reference_time) (60 * 60) in
  match heartbeat_dir one_hour_ago with
  | None => Err InvalidHeartbeatLog
  | Some cursor => read_dirs bucket 3 cursor
  end.

Definition read_recent_heartbeat_summary (bucket : list (HourDir * HeartbeatLog))
    (now_at_start now_at_end : UnixMillis) : checked_read HeartbeatScan :=
  recent_heartbeats ← read_recent_heartbeat_logs bucket now_at_start;
  sessions ← summarize_heartbeats_by_session recent_heartbeats;
  Ok (mkHeartbeatScan sessions now_at_start now_at_end).

Definition ensure_session_live (bucket : list (HourDir * HeartbeatLog))
    (now_at_start now_at_end : UnixMillis) (live_session : SessionID) : checked_read unit :=
  scan ← read_recent_heartbeat_summary bucket now_at_start now_at_end;
  _ ← validate_session_live (sessions scan) (completed_at scan) live_session;
  Ok tt.

Definition ensure_session_live_and_others_quiet (bucket : list (HourDir * HeartbeatLog))
    (now_at_start now_at_end : UnixMillis) (live_session : SessionID) : checked_read unit :=
  scan ← read_recent_heartbeat_summary bucket now_at_start now_at_end;
  _ ← validate_session_live (sessions scan) (completed_at scan) live_session;
  validate_other_sessions_quiet (sessions scan) (started_at scan) live_session
    OTHER_SESSION_QUIET_PERIOD.

(** ** A session's writes

    The service serializes the writes of a session; a panic ends it. *)

Record WriteRun := mkWriteRun {
  run_writer : LogWriter;
  run_call : WriteCall;
  run_confirmed : option Instant;
  run_puts : list Put;
}.

Fixpoint run_session (w : LogWriter) (calls : list WriteCall) : list WriteRun :=
  match calls with
  | [] => []
  | c :: calls =>
      let '(r, puts, w') := writer_write w c in
      mkWriteRun w c r puts :: match r with Some _ => run_session w' calls | None => [] end
  end.

(** The hour of a record. *)
Definition record_hour (ts : UnixMillis) : HourDir := unix_millis_to_seconds ts / 3600.

(** *** The writer's bounds *)

Lemma puts_before_deadline n attempts deadline p :
  p ∈ (write_with_retries n attempts (Some deadline)).2 -> put_deadline p < deadline.
Proof.
  revert attempts. induction n as [|n IH]; intros [|a attempts]; cbn;
    try (by intros ?%elem_of_nil).
  destruct (Z.leb_spec deadline (at_start a + S3_WRITE_ATTEMPT_TIMEOUT)); cbn;
    [by intros ?%elem_of_nil|].
  specialize (IH attempts). destruct (write_with_retries n attempts (Some deadline)) as [r puts].
  destruct (complete_before_attempt_deadline _ a) as [t []| |]; cbn in *;
    intros [->|Hp]%elem_of_cons; auto; by apply elem_of_nil in Hp.
Qed.

(** A later write runs with the last heartbeat that was confirmed. *)
Lemma run_session_latest calls : forall w k r h,
  run_session w calls !! k = Some r -> latest_heartbeat (run_writer r) = Some h ->
  latest_heartbeat w = Some h
  \/ exists j rj t, (j < k)%nat /\ run_session w calls !! j = Some rj
       /\ wc_heartbeat (run_call rj) = true /\ run_confirmed rj = Some t
       /\ wc_started (run_call rj) = h.
Proof.
  induction calls as [|c calls IH]; intros w k r h Hk Hh; [done|].
  cbn in Hk |- *. unfold writer_write in *.
  destruct (write_with_retries _ _ _) as [res puts].
  destruct k as [|k]; [injection Hk as <-; by left|]. cbn in Hk.
  destruct res as [t|]; [|done].
  destruct (IH _ _ _ _ Hk Hh) as [Hw|(j & rj & tj & Hj & Hrj & Hhb & Hc & Hs)].
  - destruct (wc_heartbeat c) eqn:Hb; [|by left]. cbn in Hw. injection Hw as <-.
    right. exists 0%nat. eexists _, t. split_and!; [lia|done|done|done|done].
  - right. exists (S j), rj, tj. split_and!; [lia|done..].
Qed.

(** A confirmed heartbeat fences every write after it. *)
Lemma run_session_fenced calls : forall w k r,
  run_session w calls !! k = Some r -> is_Some (latest_heartbeat w) ->
  is_Some (latest_heartbeat (run_writer r)).
Proof.
  induction calls as [|c calls IH]; intros w k r Hk Hw; [done|].
  cbn in Hk. unfold writer_write in Hk. destruct (write_with_retries _ _ _) as [res puts].
  destruct k as [|k]; [by injection Hk as <-|]. cbn in Hk. destruct res; [|done].
  eapply IH; [exact Hk|]. by destruct (wc_heartbeat c).
Qed.

Lemma heartbeat_fences calls : forall w j k rj r t,
  run_session w calls !! j = Some rj -> run_session w calls !! k = Some r -> (j < k)%nat ->
  wc_heartbeat (run_call rj) = true -> run_confirmed rj = Some t ->
  is_Some (latest_heartbeat (run_writer r)).
Proof.
  induction calls as [|c calls IH]; intros w j k rj r t Hj Hk Hlt Hb Ht; [done|].
  cbn in Hj, Hk. unfold writer_write in *. destruct (write_with_retries _ _ _) as [res puts].
  destruct k as [|k]; [lia|]. cbn in Hk. destruct res as [t0|]; [|done].
  destruct j as [|j]; cbn in Hj.
  - injection Hj as <-. cbn in Hb. eapply run_session_fenced; [exact Hk|]. by rewrite Hb.
  - eapply (IH _ j k); [done|done|lia|done|done].
Qed.

(** A session goes on only after a confirmed write. *)
Lemma run_session_confirmed calls : forall w j k rj r,
  run_session w calls !! j = Some rj -> run_session w calls !! k = Some r -> (j < k)%nat ->
  is_Some (run_confirmed rj).
Proof.
  induction calls as [|c calls IH]; intros w j k rj r Hj Hk Hlt; [done|].
  cbn in Hj, Hk. unfold writer_write in *. destruct (write_with_retries _ _ _) as [res puts].
  destruct k as [|k]; [lia|]. cbn in Hk. destruct res as [t0|]; [|done].
  destruct j as [|j]; cbn in Hj; [by injection Hj as <-|].
  eapply (IH _ j k); [done|done|lia].
Qed.

Lemma run_puts_fenced w calls k r h p :
  run_session w calls !! k = Some r -> latest_heartbeat (run_writer r) = Some h ->
  p ∈ run_puts r ->
  put_deadline p < h + OTHER_SESSION_QUIET_PERIOD - ACTIVATING_READER_CLOCK_SKEW_BUDGET.
Proof.
  revert w k. induction calls as [|c calls IH]; intros w k Hk Hh Hp; [done|].
  cbn in Hk. unfold writer_write in Hk.
  destruct (write_with_retries _ _ _) as [res puts] eqn:E.
  destruct k as [|k].
  - injection Hk as <-. cbn [run_writer run_puts] in *. unfold next_write_deadline in E.
    rewrite Hh in E. cbn [fmap option_fmap option_map] in E.
    apply (puts_before_deadline MAX_S3_WRITE_ATTEMPTS (wc_attempts c)). by rewrite E.
  - cbn in Hk. destruct res; [|done]. by eapply IH.
Qed.

(** *** The reader's verdict *)

Lemma read_dirs_spec bucket n : forall cursor logs e,
  read_dirs bucket n cursor = Ok logs -> e ∈ bucket ->
  cursor <= e.1 < cursor + Z.of_nat n -> e.2 ∈ logs.
Proof.
  induction n as [|n IH]; intros cursor logs e H He Hr; [lia|].
  cbn [read_dirs] in H. unfold next_dir in H. destruct (cursor <? LAST_HOUR); [|done].
  inv_ok. subst logs. apply elem_of_app.
  destruct (decide (e.1 = cursor)) as [Heq|Hne].
  - left. apply (list_elem_of_fmap_2 snd), list_elem_of_filter. done.
  - right. eapply IH; [exact E|done|lia].
Qed.

Lemma summarize_into_spec logs : forall m m',
  summarize_into m logs = Ok m' ->
  (forall l, l ∈ logs -> exists f t, m' !! hl_session_id l = Some (f, t) /\ hl_timestamp_ms l <= t)
  /\ forall s f t, m !! s = Some (f, t) -> exists f' t', m' !! s = Some (f', t') /\ t <= t'.
Proof.
  induction logs as [|l logs IH]; intros m m' H; cbn in H.
  { injection H as <-. split; [by intros l ?%elem_of_nil|]. intros s f t Hs. exists f, t. by split. }
  inv_ok. destruct (IH _ _ H) as [Hlogs Hm]. split.
  - intros l' [->|Hl']%elem_of_cons; [|by apply Hlogs].
    destruct (m !! hl_session_id l) as [[f t]|];
      (edestruct Hm as (f' & t' & Hf & Ht); [apply lookup_insert_eq|]; exists f', t'; split; [done|lia]).
  - intros s f t Hs. destruct (decide (hl_session_id l = s)) as [<-|Hne].
    + rewrite Hs in Hm. edestruct Hm as (f' & t' & Hf & Ht); [apply lookup_insert_eq|].
      exists f', t'. split; [done|lia].
    + eapply Hm. by rewrite lookup_insert_ne.
Qed.

(** A scan that passes: every heartbeat of another session that a reader can see is at
    least the quiet period old. *)
Lemma scan_quiet bucket scan_wall end_wall live d l :
  ensure_session_live_and_others_quiet bucket scan_wall end_wall live = Ok tt ->
  0 <= scan_wall -> (d, l) ∈ bucket -> hl_session_id l <> live ->
  d = record_hour (hl_timestamp_ms l) -> 0 <= hl_timestamp_ms l <= scan_wall + 3600000 ->
  hl_timestamp_ms l + OTHER_SESSION_QUIET_PERIOD <= scan_wall.
Proof.
  intros H Hw Hl Hne -> Hts.
  destruct (Z.le_gt_cases (hl_timestamp_ms l + OTHER_SESSION_QUIET_PERIOD) scan_wall) as [|Hlate]; [done|].
  exfalso. unfold ensure_session_live_and_others_quiet, read_recent_heartbeat_summary in H. inv_ok.
  subst v. cbn [sessions started_at completed_at] in *.
  unfold read_recent_heartbeat_logs, heartbeat_dir in E1.
  destruct (_ <=? LAST_HOUR); [|done].
  assert (l ∈ v1) as Hin.
  { apply (read_dirs_spec _ _ _ _ _ E1 Hl). cbn [fst].
    unfold record_hour, unix_millis_to_seconds, sat_sub, OTHER_SESSION_QUIET_PERIOD in *.
    Z.to_euclidean_division_equations. lia. }
  unfold summarize_heartbeats_by_session in E2.
  destruct (summarize_into ∅ v1) as [m|e|] eqn:Hs; [|done..]. injection E2 as <-.
  destruct (summarize_into_spec _ _ _ Hs) as [Hsum _].
  destruct (Hsum l Hin) as (f & t & Hm & Ht).
  unfold validate_other_sessions_quiet in H.
  pose proof (max_by_key_spec last_heartbeat (List.filter
    (fun s => negb (String.eqb (si_session_id s) live))
    ((fun e => mkGuardianSessionInfo e.1 e.2.1 e.2.2)
        <$> sort_by (fun a b => String.leb a.1 b.1) (map_to_list m)))) as Hmax.
  assert (mkGuardianSessionInfo (hl_session_id l) f t ∈ List.filter
    (fun s => negb (String.eqb (si_session_id s) live))
    ((fun e => mkGuardianSessionInfo e.1 e.2.1 e.2.2)
        <$> sort_by (fun a b => String.leb a.1 b.1) (map_to_list m))) as Hmem.
  { apply list_elem_of_In, filter_In. split.
    - apply list_elem_of_In, list_elem_of_fmap. exists (hl_session_id l, (f, t)). split; [done|].
      by apply elem_of_sort_by, elem_of_map_to_list.
    - cbn. by apply negb_true_iff, String.eqb_neq. }
  destruct (max_by_key _ _) as [latest|]; [|by rewrite Hmax in Hmem; apply elem_of_nil in Hmem].
  apply guard_Ok, negb_true_iff, Z.ltb_ge in H. destruct Hmax as [_ Hall].
  apply Hall in Hmem. cbn in Hmem. unfold sat_sub, OTHER_SESSION_QUIET_PERIOD in *. lia.
Qed.

(** *** The fence holds *)

(** The environment of one session's writes and of another session's scan. *)
Section fencing.
Context (session live : SessionID) (calls : list WriteCall).
Context (durable : nat -> option Instant) (delay skew : Z).
Context (scan_start : Instant) (scan_wall end_wall : UnixMillis).
Context (bucket : list (HourDir * HeartbeatLog)).

Let runs : list WriteRun := run_session log_writer_new calls.

(** Time passes in the order of the code: a record is constructed after its write starts and
    before its requests are sent, an answer comes after its attempt starts, and a write
    starts after the write before it has returned. *)
Record timely : Prop := {
  ti_attempts k r p : runs !! k = Some r -> p ∈ run_puts r -> wc_started (run_call r) <= put_start p;
  ti_answers k r t : runs !! k = Some r -> run_confirmed r = Some t -> wc_started (run_call r) <= t;
  ti_serial j k rj rk t : (j < k)%nat -> runs !! j = Some rj -> runs !! k = Some rk ->
    run_confirmed rj = Some t -> t <= wc_started (run_call rk);
}.

(** [durable k] is when the record of write [k] first becomes durable.  S3 confirms what is
    durable, and makes no request durable later than [delay] after its deadline. *)
Record s3_durability : Prop := {
  du_confirmed k r t : runs !! k = Some r -> run_confirmed r = Some t ->
    exists d, durable k = Some d /\ d <= t;
  du_sent k r d : runs !! k = Some r -> durable k = Some d ->
    exists p, p ∈ run_puts r /\ put_start p <= d <= put_deadline p + delay;
}.

(** The reader's clock is at most [skew] ahead of the writer's, and at most an hour behind;
    the skew and the delay fit the budget. *)
Record clocks : Prop := {
  cl_ahead k r : runs !! k = Some r -> wc_started (run_call r) <= scan_start ->
    scan_wall - wc_timestamp_ms (run_call r) <= scan_start - wc_started (run_call r) + skew;
  cl_behind k r : runs !! k = Some r -> wc_started (run_call r) <= scan_start ->
    0 <= wc_timestamp_ms (run_call r) <= scan_wall + 3600000;
  cl_epoch : 0 <= scan_wall;
  cl_budget : skew + delay <= ACTIVATING_READER_CLOCK_SKEW_BUDGET;
}.

(** The scan reads every heartbeat that is durable when it starts. *)
Definition scan_complete : Prop := forall k r d,
  runs !! k = Some r -> wc_heartbeat (run_call r) = true -> durable k = Some d -> d <= scan_start ->
  (record_hour (wc_timestamp_ms (run_call r)),
   mkHeartbeatLog session (wc_timestamp_ms (run_call r)) true) ∈ bucket.
End fencing.

(** C38: a session that passes the quiet check reads a log that no earlier session extends.
    Let a session have a heartbeat confirmed when another session's activation scan starts,
    and let that scan succeed.  Then every record the first session ever makes durable,
    before or after, by whichever attempt and whatever S3 answers, was durable when the scan
    started; the assumptions are those of the README: the clocks and the durability of a
    timed-out request together stay within the budget. *)
Theorem quiet_scan_fences_writer session live calls durable delay skew scan_start scan_wall end_wall
    bucket k0 r0 t0 :
  timely calls -> s3_durability calls durable delay -> clocks calls delay skew scan_start scan_wall ->
  scan_complete session calls durable scan_start bucket -> session <> live ->
  run_session log_writer_new calls !! k0 = Some r0 -> wc_heartbeat (run_call r0) = true ->
  run_confirmed r0 = Some t0 -> t0 <= scan_start ->
  ensure_session_live_and_others_quiet bucket scan_wall end_wall live = Ok tt ->
  forall k r d, run_session log_writer_new calls !! k = Some r -> durable k = Some d -> d <= scan_start.
Proof.
  intros [Hatt Hans Hser] [Hconf Hsent] [Hahead Hbehind Hep Hbud] Hscan Hne H0 Hb0 Hc0 Ht0 Hok k.
  induction (lt_wf k) as [k _ IH]. intros r d Hk Hd.
  destruct (latest_heartbeat (run_writer r)) as [h|] eqn:Hh.
  - destruct (run_session_latest _ _ _ _ _ Hk Hh) as [?|(j & rj & t & Hj & Hrj & Hb & Hc & <-)]; [done|].
    destruct (Hconf _ _ _ Hrj Hc) as (dj & Hdj & _).
    pose proof (IH j Hj _ _ Hrj Hdj) as Hdur.
    destruct (Hsent _ _ _ Hrj Hdj) as (pj & Hpj & Hpd & _).
    pose proof (Hatt _ _ _ Hrj Hpj) as Hst.
    pose proof (scan_quiet _ _ _ _ _ _ Hok Hep (Hscan _ _ _ Hrj Hb Hdj Hdur) Hne eq_refl
      (Hbehind _ _ Hrj ltac:(lia))) as Hq. cbn in Hq.
    pose proof (Hahead _ _ Hrj ltac:(lia)).
    destruct (Hsent _ _ _ Hk Hd) as (p & Hp & _ & Hpl).
    pose proof (run_puts_fenced _ _ _ _ _ _ Hk Hh Hp). lia.
  - destruct (lt_eq_lt_dec k k0) as [[Hlt| ->]|Hgt].
    + destruct (run_session_confirmed _ _ _ _ _ _ Hk H0 Hlt) as [t Ht].
      destruct (Hconf _ _ _ Hk Ht) as (d' & Hd' & Hle).
      pose proof (Hser _ _ _ _ _ Hlt Hk H0 Ht). pose proof (Hans _ _ _ H0 Hc0).
      assert (d' = d) by congruence. lia.
    + destruct (Hconf _ _ _ H0 Hc0) as (d' & Hd' & Hle).
      assert (d' = d) by congruence. lia.
    + destruct (heartbeat_fences _ _ _ _ _ _ _ H0 Hk Hgt Hb0 Hc0) as [? ?]. congruence.
Qed.

(** ** A session that loses its fence

    Session [a] writes a heartbeat and then a record whose request times out; S3 makes it
    durable 50 seconds after its deadline, and the retry finds the fence closed.  Session [b]
    scans twenty seconds after the quiet period. *)

Module SmallFence.
Open Scope string_scope.

Definition calls : list WriteCall :=
  [mkWriteCall 0 7200000 true [mkAttempt 10 (Some (100, true))];
   mkWriteCall 200000 7400000 false [mkAttempt 200000 None; mkAttempt 510000 (Some (510100, true))]].

Definition durable (k : nat) : option Instant := [90; 550000] !! k.

Definition bucket : list (HourDir * HeartbeatLog) :=
  [(2, mkHeartbeatLog "a" 7200000 true); (2, mkHeartbeatLog "b" 7800000 true)].

Definition runs : list WriteRun := Eval vm_compute in run_session log_writer_new calls.

Example second_write_panics : run_confirmed <$> runs = [Some 100; None].
Proof. reflexivity. Qed.

Lemma calls_run : run_session log_writer_new calls = runs.
Proof. reflexivity. Qed.

Ltac each_run k H := destruct k as [|[|k]]; cbn in H; try discriminate H; injection H as <-.

Lemma calls_timely : timely calls.
Proof.
  split; rewrite calls_run.
  - intros k r p Hk Hp. each_run k Hk; cbn in Hp; apply list_elem_of_singleton in Hp as ->; cbn; lia.
  - intros k r t Hk Ht. each_run k Hk; cbn in Ht; try discriminate Ht. injection Ht as <-. cbn. lia.
  - intros j k rj rk t Hlt Hj Hk Ht. each_run k Hk; [lia|]. each_run j Hj; [|cbn in Ht; discriminate Ht].
    cbn in Ht |- *. injection Ht as <-. lia.
Qed.

Lemma calls_durability : s3_durability calls durable 50000.
Proof.
  split; rewrite calls_run.
  - intros k r t Hk Ht. each_run k Hk; cbn in Ht; try discriminate Ht. injection Ht as <-.
    exists 90. split; [reflexivity|lia].
  - intros k r d Hk Hd. each_run k Hk; cbn in Hd; injection Hd as <-; eexists; (split; [left|cbn; lia]).
Qed.

Lemma calls_clocks : clocks calls 50000 5000 620000 7823000.
Proof.
  split; rewrite ?calls_run.
  - intros k r Hk _. each_run k Hk; cbn; lia.
  - intros k r Hk _. each_run k Hk; cbn; lia.
  - lia.
  - vm_compute. discriminate.
Qed.

Lemma bucket_complete : scan_complete "a" calls durable 620000 bucket.
Proof. intros k r d Hk Hb. rewrite calls_run in Hk. each_run k Hk; [left|done]. Qed.

Lemma quiet_scan_fences_writer_witness : durable 1 = Some 550000 /\ 550000 <= 620000.
Proof.
  split; [reflexivity|].
  destruct (runs !! 0%nat) as [r0|] eqn:H0; [|discriminate H0].
  destruct (runs !! 1%nat) as [r1|] eqn:H1; [|discriminate H1].
  apply (quiet_scan_fences_writer "a" "b" calls durable 50000 5000 620000 7823000 7823500 bucket
           0 r0 100 calls_timely calls_durability calls_clocks bucket_complete) with (k := 1%nat) (r := r1).
  - discriminate.
  - rewrite calls_run. exact H0.
  - injection H0 as <-. reflexivity.
  - injection H0 as <-. reflexivity.
  - lia.
  - vm_compute. reflexivity.
  - rewrite calls_run. exact H1.
  - reflexivity.
Defined.
End SmallFence.
