(* ===== verification/BtcTransport.v ===== *)
(** * The monitor's Bitcoin JSON-RPC transport

    [HttpJsonRpcTransport] of [crates/hashi-monitor/src/rpc/btc.rs].  The node, its HTTP
    client and the JSON and Bitcoin decoders are the interface [BtcNode]: every request is
    a step of an arbitrary world.  What is modelled is what the transport makes of the
    answers: the retries, the batches and their response ids, the confirmation depth, and
    the worker threads that share the batches of one lookup.

    A worker's lookup of one batch is one step; which worker runs next is the world's
    choice. *)

From S2P Require Import Prelude MonitorDomain.

Definition HTTP_JSON_RPC_BATCH_SIZE : nat := 100.
Definition HTTP_JSON_RPC_BATCHES_IN_FLIGHT : nat := 8.
Definition MAX_REQUEST_RETRIES : nat := 6.
Definition MAINNET_MIN_CONFIRMATIONS : Z := 6.

Definition BlockHash := Z.

(** One constructor per [bail!], [ensure!] and [context] of the source. *)
Inductive BtcError :=
| ThresholdTooLow (threshold : Z)
| RetriesExhausted
| UndecodableBody
| RpcFailed (code : Z)
| MissingResult
| UnparsableResult
| BadResponseId
| DuplicateResponse (index : nat)
| IncompleteBatch
| InvalidBlockHash
| InvalidTransactionHex
| WrongTransaction (returned : Txid)
| MissingBlockHash (height : Z)
| MissingBlockHeader (hash : BlockHash)
| MissingLookupResult (txid : Txid)
| MissingTxOutResult (outpoint : OutPoint)
| WrongChain (chain : string)
| NotSynced
| TipTooOld
| NoTxindex
| NoTxindexSynced
| TxindexBuilding.

Record JsonRpcEnvelope {Value : Type} := mkEnvelope {
  env_id : Value;
  result : option Value;
  error_code : option Z;
}.
Arguments JsonRpcEnvelope : clear implicits.
Arguments mkEnvelope {Value}.

Record RawTransactionInfo := mkRawTransactionInfo {
  hex : string;
  blockhash : option string;
  raw_confirmations : Z;
}.

Record RawBlockHeader := mkRawBlockHeader { header_time : Z; header_height : Z }.

Record BlockchainInfo := mkBlockchainInfo {
  chain : string;
  blocks : Z;
  chain_headers : Z;
  tip_time : UnixSeconds;
  initialblockdownload : bool;
}.

(** A decoded transaction: its computed txid, its inputs and its outputs. *)
Record DecodedTx := mkDecodedTx {
  computed_txid : Txid;
  dtx_inputs : list OutPoint;
  dtx_outputs : list TxOut;
}.

Record MinedTx := mkMinedTx {
  block_hash : BlockHash;
  mined_inputs : list OutPoint;
  mined_outputs : list TxOut;
}.

Inductive Method :=
| GetBlockchainInfo
| GetIndexInfo
| GetRawTransaction (txid : Txid)
| GetBlockHeader (hash : BlockHash)
| GetBlockHash (height : Z)
| GetTxOut (outpoint : OutPoint) (include_mempool : bool).

(** A request body: one call, or a batch of calls with their ids. *)
Inductive Body :=
| Single (m : Method)
| Batch (calls : list (nat * Method)).

(** The code the transport calls: the HTTP client ([send] gives no response, or a status
    and the body if it is JSON), the JSON values and their decoders, the Bitcoin decoders,
    the thread scheduler and the clock. *)
Class BtcNode := {
  World : Type;
  Value : Type;
  send : Body -> World -> option (Z * option Value) * World;
  sleep : Z -> World -> World;
  pick : nat -> World -> nat * World;
  clock : World -> UnixSeconds * World;
  value_get : string -> Value -> option Value;
  as_u64 : Value -> option N;
  as_i64 : Value -> option Z;
  as_bool : Value -> option bool;
  as_array : Value -> option (list Value);
  decode_envelope : Value -> option (JsonRpcEnvelope Value);
  decode_envelopes : Value -> option (list (JsonRpcEnvelope Value));
  decode_transaction_info : Value -> option RawTransactionInfo;
  decode_block_header : Value -> option RawBlockHeader;
  decode_string : Value -> option string;
  decode_blockchain_info : Value -> option BlockchainInfo;
  block_hash_from_str : string -> option BlockHash;
  deserialize_hex : string -> option DecodedTx;
}.

Inductive Network := Bitcoin | Testnet | Testnet4 | Signet | Regtest.
#[export] Instance Network_eq_dec : EqDecision Network.
Proof. solve_decision. Defined.

Definition to_core_arg (n : Network) : string :=
  match n with
  | Bitcoin => "main" | Testnet => "test" | Testnet4 => "testnet4"
  | Signet => "signet" | Regtest => "regtest"
  end.

Definition checked_confirmation_threshold (threshold : Z) (network : Network)
    : outcome BtcError Z :=
  if negb (bool_decide (network = Bitcoin)) || (MAINNET_MIN_CONFIRMATIONS <=? threshold)
  then Ok threshold else Err (ThresholdTooLow threshold).

(** [slice::chunks]; the fuel is the length, of which every chunk takes at least one. *)
Fixpoint chunks_from {A} (fuel n : nat) (l : list A) : list (list A) :=
  match fuel, l with
  | _, [] => []
  | O, _ => []
  | S fuel, _ => take n l :: chunks_from fuel n (drop n l)
  end.
Definition chunks {A} (n : nat) (l : list A) : list (list A) := chunks_from (length l) n l.

Section transport.
Context `{BN : BtcNode}.

Definition rpc (A : Type) : Type := M World BtcError A.

(** ** One request *)

Definition wait_before_retry (attempt : nat) : rpc unit :=
  if bool_decide (attempt = MAX_REQUEST_RETRIES) then throw RetriesExhausted
  else modify (sleep (Z.shiftl 1 (Z.of_nat (attempt `min` 5)))).

Definition envelope_rate_limited (envelope : Value) : bool :=
  bool_decide ((error ← value_get "error" envelope;
                code ← value_get "code" error;
                as_i64 code) = Some 429).

Definition json_rpc_rate_limited (response : Value) : bool :=
  match as_array response with
  | Some envelopes => existsb envelope_rate_limited envelopes
  | None => envelope_rate_limited response
  end.

Definition post : Body -> rpc (option (Z * option Value)) :=
  fun body w => let '(r, w) := send body w in (Ok r, w).

(** [for attempt in 0..=MAX_REQUEST_RETRIES]; [remaining] counts the attempts left. *)
Fixpoint post_from (remaining attempt : nat) (body : Body) : rpc Value :=
  match remaining with
  | O => of_outcome Panic
  | S remaining =>
      response ← post body;
      match response with
      | None => _ ← wait_before_retry attempt; post_from remaining (S attempt) body
      | Some (status, content) =>
          if bool_decide (status ∈ [429; 502; 503; 504]) then
            _ ← wait_before_retry attempt; post_from remaining (S attempt) body
          else
            match content with
            | None => throw UndecodableBody
            | Some v =>
                if json_rpc_rate_limited v then
                  _ ← wait_before_retry attempt; post_from remaining (S attempt) body
                else mret v
            end
      end
  end.

Definition post_json (body : Body) : rpc Value := post_from (S MAX_REQUEST_RETRIES) 0 body.

Definition from_option {A} (o : option A) (e : BtcError) : rpc A :=
  match o with Some a => mret a | None => throw e end.

Definition call (m : Method) : rpc (JsonRpcEnvelope Value) :=
  v ← post_json (Single m); from_option (decode_envelope v) UndecodableBody.

Definition call_batch (calls : list (nat * Method)) : rpc (list (JsonRpcEnvelope Value)) :=
  v ← post_json (Batch calls); from_option (decode_envelopes v) UndecodableBody.

(** ** Batches *)

(** [usize] is 64 bits wide, so the conversion of a [u64] never fails. *)
Definition response_index (response : JsonRpcEnvelope Value) (batch_len : nat) : rpc nat :=
  index ← from_option (as_u64 (env_id response)) BadResponseId;
  let index := N.to_nat index in
  _ ← ensure (bool_decide (index < batch_len)%nat) BadResponseId;
  mret index.

(** The loop the four batch calls share: each response names its request by index, once;
    [handle] makes the answer for that request's key. *)
Section batch.
Context {K V : Type} `{Countable K}.
Variables (keys : list K) (method : K -> Method).
Variable handle : K -> JsonRpcEnvelope Value -> rpc V.

Fixpoint read_responses (responses : list (JsonRpcEnvelope Value)) (seen : gset nat)
    (answers : gmap K V) : rpc (gset nat * gmap K V) :=
  match responses with
  | [] => mret (seen, answers)
  | response :: responses =>
      index ← response_index response (length keys);
      _ ← ensure (negb (bool_decide (index ∈ seen))) (DuplicateResponse index);
      key ← match keys !! index with Some k => mret k | None => of_outcome Panic end;
      answer ← handle key response;
      read_responses responses ({[index]} ∪ seen) (<[key := answer]> answers)
  end.

Definition read_batch : rpc (gmap K V) :=
  responses ← call_batch (imap (fun id k => (id, method k)) keys);
  '(seen, answers) ← read_responses responses ∅ ∅;
  _ ← ensure (bool_decide (size seen = length keys)) IncompleteBatch;
  mret answers.
End batch.

(** A call that any JSON-RPC error fails. *)
Definition result_of (response : JsonRpcEnvelope Value) : rpc Value :=
  match error_code response with
  | Some code => throw (RpcFailed code)
  | None => from_option (result response) MissingResult
  end.

Definition mined (self : RawTransactionInfo) (txid : Txid) : rpc (option MinedTx) :=
  match blockhash self with
  | None => mret None
  | Some bh =>
      if raw_confirmations self =? 0 then mret None
      else
        block_hash ← from_option (block_hash_from_str bh) InvalidBlockHash;
        tx ← from_option (deserialize_hex (hex self)) InvalidTransactionHex;
        _ ← ensure (computed_txid tx =? txid) (WrongTransaction (computed_txid tx));
        mret (Some (mkMinedTx block_hash (dtx_inputs tx) (dtx_outputs tx)))
  end.

Definition read_transaction (txid : Txid) (response : JsonRpcEnvelope Value)
    : rpc (option MinedTx) :=
  match error_code response with
  | Some code => if code =? -5 then mret None else throw (RpcFailed code)
  | None =>
      v ← from_option (result response) MissingResult;
      info ← from_option (decode_transaction_info v) UnparsableResult;
      mined info txid
  end.

Definition mined_batch (txids : list Txid) : rpc (gmap Txid (option MinedTx)) :=
  read_batch txids GetRawTransaction read_transaction.

Definition read_header (hash : BlockHash) (response : JsonRpcEnvelope Value)
    : rpc RawBlockHeader :=
  v ← result_of response; from_option (decode_block_header v) UnparsableResult.

(** [HashMap::extend] over the chunks: a later answer for a key replaces an earlier one. *)
Definition read_chunks {K V} `{Countable K} (f : list K -> rpc (gmap K V)) (keys : list K)
    : rpc (gmap K V) :=
  foldM (fun acc chunk => m ← f chunk; mret (m ∪ acc)) (chunks HTTP_JSON_RPC_BATCH_SIZE keys) ∅.

Definition block_headers (hashes : list BlockHash) : rpc (gmap BlockHash RawBlockHeader) :=
  read_chunks (fun chunk => read_batch chunk GetBlockHeader read_header) hashes.

Definition read_hash (height : Z) (response : JsonRpcEnvelope Value) : rpc BlockHash :=
  v ← result_of response;
  s ← from_option (decode_string v) UnparsableResult;
  from_option (block_hash_from_str s) InvalidBlockHash.

Definition block_hashes (heights : list Z) : rpc (gmap Z BlockHash) :=
  read_chunks (fun chunk => read_batch chunk GetBlockHash read_hash) heights.

(** [gettxout] answers null, decoded as no result, for an output that is spent. *)
Definition read_txout (outpoint : OutPoint) (response : JsonRpcEnvelope Value) : rpc bool :=
  match error_code response with
  | Some code => throw (RpcFailed code)
  | None => mret (bool_decide (is_Some (result response)))
  end.

Definition lookup_unspent (outpoints : list OutPoint) (include_mempool : bool)
    : rpc (gmap OutPoint bool) :=
  read_chunks (fun chunk => read_batch chunk (fun o => GetTxOut o include_mempool) read_txout)
    outpoints.

(** ** Confirmations *)

Section confirmations.
Variable required_confirmations : Z.

Definition confirming_height (header : RawBlockHeader) : Z :=
  wsub (wadd (header_height header) required_confirmations) 1.

(** The time of one deep enough block and of the block that confirms it. *)
Definition block_times (confirming_hashes : gmap Z BlockHash)
    (confirming_headers : gmap BlockHash RawBlockHeader) (header : RawBlockHeader)
    : rpc (UnixSeconds * UnixSeconds) :=
  let height := confirming_height header in
  confirming_hash ← from_option (confirming_hashes !! height) (MissingBlockHash height);
  confirming ← from_option (confirming_headers !! confirming_hash)
                 (MissingBlockHeader confirming_hash);
  mret (header_time header, header_time confirming).

Definition confirmed_block_times (hashes : list BlockHash) (tip_height : Z)
    : rpc (gmap BlockHash (UnixSeconds * UnixSeconds)) :=
  headers ← block_headers hashes;
  let headers := filter (fun e => confirming_height e.2 <= tip_height) headers in
  let heights : gset Z :=
    list_to_set (confirming_height <$> (map_to_list headers).*2) in
  confirming_hashes ← block_hashes (elements heights);
  confirming_headers ← block_headers (map_to_list confirming_hashes).*2;
  foldM (fun acc e => times ← block_times confirming_hashes confirming_headers e.2;
                      mret (<[e.1 := times]> acc)) (map_to_list headers) ∅.

Definition confirmation_of (times : gmap BlockHash (UnixSeconds * UnixSeconds))
    (transaction : option MinedTx) : option BtcConfirmation :=
  tx ← transaction;
  t ← times !! block_hash tx;
  Some (mkBtcConfirmation t.1 t.2 (mined_inputs tx) (mined_outputs tx)).

Definition lookup_confirmation_batch (txids : list Txid) (tip_height : Z)
    : rpc (gmap Txid (option BtcConfirmation)) :=
  mined ← mined_batch txids;
  let hashes : gset BlockHash :=
    list_to_set (omap (fun t => block_hash <$> t) (map_to_list mined).*2) in
  times ← confirmed_block_times (elements hashes) tip_height;
  mret (confirmation_of times <$> mined).

Definition transport_lookup_confirmation (txid : Txid) (tip_height : Z)
    : rpc (option BtcConfirmation) :=
  answers ← lookup_confirmation_batch [txid] tip_height;
  from_option (answers !! txid) (MissingLookupResult txid).

(** ** The worker threads of one lookup *)

Record LookupOutcome := mkLookupOutcome {
  confirmations : gmap Txid (option BtcConfirmation);
  lookup_error : option BtcError;
}.

(** A worker is about to take a batch, or looks the batch it took up. *)
Inductive worker := Idle | Busy (batch : nat).

Record workers := mkWorkers {
  next_batch : nat;
  threads : list worker;
  results : list (outcome BtcError (gmap Txid (option BtcConfirmation)));
}.

Definition is_err {E A} (m : outcome E A) : bool := match m with Err _ => true | _ => false end.

(** One step of the thread at position [i]: [fetch_add] on the shared counter, or the
    lookup of its batch, which moves the counter past the last batch when it fails. *)
Definition worker_step (batches : list (list Txid)) (tip_height : Z) (i : nat) (p : workers)
    : rpc workers :=
  match threads p !! i with
  | None => mret p
  | Some Idle =>
      let b := next_batch p in
      mret (mkWorkers (S b)
              (if bool_decide (b < length batches)%nat then <[i := Busy b]> (threads p)
               else delete i (threads p))
              (results p))
  | Some (Busy b) => fun w =>
      let '(r, w) := lookup_confirmation_batch (default [] (batches !! b)) tip_height w in
      (Ok (mkWorkers (if is_err r then length batches else next_batch p)
             (<[i := Idle]> (threads p)) (results p ++ [r])), w)
  end.

(** Run until every thread is done.  Every step takes a batch, finishes one or ends a
    thread, so the fuel [2 * batches + threads] is enough. *)
Fixpoint run_workers (fuel : nat) (batches : list (list Txid)) (tip_height : Z) (p : workers)
    : rpc workers :=
  match fuel, threads p with
  | _, [] => mret p
  | O, _ => mret p
  | S fuel, ts => fun w =>
      let '(i, w) := pick (length ts) w in
      (p ← worker_step batches tip_height (i mod length ts) p;
       run_workers fuel batches tip_height p) w
  end.

Definition spawn (batches : list (list Txid)) : workers :=
  mkWorkers 0 (replicate (HTTP_JSON_RPC_BATCHES_IN_FLIGHT `min` length batches) Idle) [].

(** Later answers extend earlier ones; the first error stays. *)
Fixpoint collect_results (rs : list (outcome BtcError (gmap Txid (option BtcConfirmation))))
    (acc : LookupOutcome) : outcome BtcError LookupOutcome :=
  match rs with
  | [] => Ok acc
  | Ok m :: rs => collect_results rs (mkLookupOutcome (m ∪ confirmations acc) (lookup_error acc))
  | Err e :: rs =>
      collect_results rs (mkLookupOutcome (confirmations acc)
                            (match lookup_error acc with Some e' => Some e' | None => Some e end))
  | Panic :: _ => Panic
  end.

Definition lookup_confirmations (txids : list Txid) (tip_height : Z) : rpc LookupOutcome :=
  let batches := chunks HTTP_JSON_RPC_BATCH_SIZE txids in
  p ← run_workers (2 * length batches + HTTP_JSON_RPC_BATCHES_IN_FLIGHT) batches tip_height
        (spawn batches);
  of_outcome (collect_results (results p) (mkLookupOutcome ∅ None)).

End confirmations.
End transport.
