(* ===== verification/BtcTransportProofs.v ===== *)
(** * The Bitcoin transport: theorems

    What a lookup answers, whatever the node does and whichever way the worker threads
    interleave, and what it answers when the node serves one chain. *)

From S2P Require Import Prelude MonitorDomain BtcTransport.

(** ** Chunks *)

Lemma concat_chunks_from {A} (n : nat) fuel : forall l : list A,
  (0 < n)%nat -> (length l <= fuel)%nat -> concat (chunks_from fuel n l) = l.
Proof.
  induction fuel as [|fuel IH]; intros [|x l] Hn Hl; cbn [chunks_from]; try done; cbn in Hl; [lia|].
  cbn [concat]. rewrite IH; [apply take_drop|done|].
  rewrite length_drop. cbn. lia.
Qed.

Lemma concat_chunks {A} (n : nat) (l : list A) : (0 < n)%nat -> concat (chunks n l) = l.
Proof. intros. by apply concat_chunks_from. Qed.

Section proofs.
Context `{BN : BtcNode}.

(** ** One request *)

Lemma no_panic_from_option {A} (o : option A) e : no_panic (from_option o e).
Proof. destruct o; [apply no_panic_ret|apply no_panic_throw]. Qed.
Hint Resolve no_panic_from_option : hashi.

Lemma no_panic_post body : no_panic (post body).
Proof. intros w w'. unfold post. by destruct (send body w). Qed.

Lemma post_from_no_panic body n : forall attempt,
  (0 < n)%nat -> (n + attempt = S MAX_REQUEST_RETRIES)%nat -> no_panic (post_from n attempt body).
Proof.
  induction n as [|n IH]; intros a Hn Ha; [lia|]. cbn [post_from].
  assert (no_panic (_ ← wait_before_retry a; post_from n (S a) body)) as Hretry.
  { unfold wait_before_retry. case_bool_decide as Ha6.
    - by intros w w'.
    - apply no_panic_bind; [apply no_panic_modify|]. intros _. apply IH; lia. }
  apply no_panic_bind; [apply no_panic_post|]. intros [[status [v|]]|]; [| |done].
  - repeat case_match; first [apply Hretry | apply no_panic_ret].
  - case_match; [apply Hretry|apply no_panic_throw].
Qed.

Lemma post_json_no_panic body : no_panic (post_json body).
Proof. apply post_from_no_panic; unfold MAX_REQUEST_RETRIES; lia. Qed.
Hint Resolve post_json_no_panic : hashi.

Lemma call_batch_no_panic calls : no_panic (call_batch calls).
Proof. apply no_panic_bind; eauto with hashi. Qed.
Hint Resolve call_batch_no_panic : hashi.

(** ** Batches *)

Lemma from_option_Ok {A} (o : option A) e w a w' :
  from_option o e w = (Ok a, w') <-> o = Some a /\ w' = w.
Proof. unfold from_option. destruct o; split; [intros [= <- <-]|intros [[= <-] ->]| |intros [? _]]; done. Qed.

Lemma response_index_Ok r n w i w' :
  response_index r n w = (Ok i, w') ->
  (i < n)%nat /\ as_u64 (env_id r) = Some (N.of_nat i) /\ w' = w.
Proof.
  unfold response_index. intros H. inv_M. apply from_option_Ok in E as [E ->].
  apply bool_decide_eq_true in Heqb. split_and!; [done| |done].
  by rewrite N2Nat.id.
Qed.

Lemma response_index_id r n i w :
  as_u64 (env_id r) = Some (N.of_nat i) -> (i < n)%nat -> response_index r n w = (Ok i, w).
Proof.
  intros Hid Hi. unfold response_index, mbind, M_bind. rewrite Hid. cbn.
  by rewrite Nat2N.id, bool_decide_true.
Qed.

Lemma response_index_no_panic r n : no_panic (response_index r n).
Proof. unfold response_index. eauto 10 with hashi. Qed.

Section batch.
Context {K V : Type} `{Countable K}.
Variables (keys : list K) (method : K -> Method).
Variable handle : K -> JsonRpcEnvelope Value -> rpc V.
Hypothesis handle_no_panic : forall k r, no_panic (handle k r).

Lemma read_responses_no_panic rs : forall seen answers,
  no_panic (read_responses keys handle rs seen answers).
Proof.
  induction rs as [|r rs IH]; intros seen answers; cbn [read_responses]; [apply no_panic_ret|].
  intros w w' [Hp|(i & w1 & Hi & Hp)]%M_bind_Panic; [by apply response_index_no_panic in Hp|].
  apply response_index_Ok in Hi as (Hi & _ & ->). revert Hp. apply no_panic_bind; [eauto with hashi|].
  intros _. apply no_panic_bind; [|intros k; apply no_panic_bind; [done|intros a; apply IH]].
  apply lookup_lt_is_Some in Hi as [k ->]. apply no_panic_ret.
Qed.

Lemma read_batch_no_panic : no_panic (read_batch keys method handle).
Proof.
  apply no_panic_bind; [eauto with hashi|]. intros rs.
  apply no_panic_bind; [apply read_responses_no_panic|]. intros [seen answers]. eauto with hashi.
Qed.

(** Every answer is what [handle] made of a response that names its key by index. *)
Definition handled (rs : list (JsonRpcEnvelope Value)) (k : K) (v : V) : Prop :=
  exists r i w w', r ∈ rs /\ as_u64 (env_id r) = Some (N.of_nat i) /\ keys !! i = Some k
    /\ handle k r w = (Ok v, w').

Lemma read_responses_Ok all rs : forall seen answers w seen' answers' w',
  (forall r, r ∈ rs -> r ∈ all) ->
  (forall k, k ∈ dom answers <-> exists i, i ∈ seen /\ keys !! i = Some k) ->
  (forall k v, answers !! k = Some v -> handled all k v) ->
  (forall i, i ∈ seen -> (i < length keys)%nat) ->
  read_responses keys handle rs seen answers w = (Ok (seen', answers'), w') ->
  (forall k, k ∈ dom answers' <-> exists i, i ∈ seen' /\ keys !! i = Some k)
  /\ (forall k v, answers' !! k = Some v -> handled all k v)
  /\ (forall i, i ∈ seen' -> (i < length keys)%nat).
Proof.
  induction rs as [|r rs IH]; intros seen answers w seen' answers' w' Hin Hdom Hval Hlt Hr;
    cbn [read_responses] in Hr; inv_M; [by simplify_eq|].
  apply response_index_Ok in E as (Hi & Hid & ->). destruct (keys !! v) as [k|] eqn:Hk; [|done]. inv_M.
  revert Hr. apply IH.
  - intros r' Hr'. apply Hin. by right.
  - intros k'. rewrite dom_insert, elem_of_union, elem_of_singleton, Hdom. split.
    + intros [->|(i & ? & ?)]; [exists v|exists i]; split; try done; apply elem_of_union;
        [left; by apply elem_of_singleton|by right].
    + intros (i & [->%elem_of_singleton|?]%elem_of_union & ?); [left; congruence|eauto].
  - intros k' v'. destruct (decide (k' = v1)) as [->|Hne].
    + rewrite lookup_insert_eq. intros [= <-]. exists r, v. eexists _, _.
      split_and!; eauto. apply Hin. left.
    + rewrite lookup_insert_ne by done. apply Hval.
  - intros i [->%elem_of_singleton|?]%elem_of_union; auto.
Qed.

(** A batch that succeeds answers every request, each from the response with its id. *)
Lemma read_batch_Ok w m w' :
  read_batch keys method handle w = (Ok m, w') ->
  dom m = list_to_set keys
  /\ exists rs, forall k v, m !! k = Some v -> handled rs k v.
Proof.
  unfold read_batch. intros Hb. apply M_bind_Ok in Hb as (rs & w1 & _ & Hb).
  apply M_bind_Ok in Hb as ([seen answers] & w2 & Hr & Hb). inv_M.
  apply bool_decide_eq_true in Heqb.
  apply (read_responses_Ok rs) in Hr as (Hdom & Hval & Hlt); [|done| |done|].
  2: { intros k. rewrite dom_empty. split; [by intros ?%elem_of_empty|]. by intros (i & ?%elem_of_empty & _). }
  2: { by intros i ?%elem_of_empty. }
  assert (seen = set_seq 0 (length keys)) as ->.
  { apply set_subseteq_size_eq; [|rewrite size_set_seq; lia]. intros i Hi%Hlt.
    apply elem_of_set_seq. lia. }
  split; [|eauto]. apply set_eq. intros k. rewrite Hdom, elem_of_list_to_set. split.
  - intros (i & _ & ?). by eapply list_elem_of_lookup_2.
  - intros (i & Hi)%list_elem_of_lookup. exists i. split; [|done].
    apply elem_of_set_seq. apply lookup_lt_Some in Hi. lia.
Qed.
End batch.

Lemma read_chunks_no_panic {K V} `{Countable K} (f : list K -> rpc (gmap K V)) keys :
  (forall l, no_panic (f l)) -> no_panic (read_chunks f keys).
Proof. intros Hf. apply no_panic_foldM. intros acc l. eauto with hashi. Qed.

(** The chunks together answer every key. *)
Lemma read_chunks_dom {K V} `{Countable K} (f : list K -> rpc (gmap K V)) keys w m w' :
  (forall l w m w', f l w = (Ok m, w') -> dom m = list_to_set l) ->
  read_chunks f keys w = (Ok m, w') -> dom m = list_to_set keys.
Proof.
  intros Hf. unfold read_chunks.
  rewrite <- (concat_chunks HTTP_JSON_RPC_BATCH_SIZE keys) at 2 by (unfold HTTP_JSON_RPC_BATCH_SIZE; lia).
  generalize (chunks HTTP_JSON_RPC_BATCH_SIZE keys) as cs.
  assert (forall cs acc w, foldM (fun acc chunk => m ← f chunk; mret (m ∪ acc)) cs acc w = (Ok m, w') ->
            dom m = list_to_set (concat cs) ∪ dom acc) as Hgen.
  { induction cs as [|c cs IH]; intros acc w1 Hr; cbn [foldM] in Hr; inv_M.
    - cbn. by rewrite (left_id_L ∅ (∪)).
    - apply IH in Hr. apply Hf in E0. rewrite Hr. cbn. rewrite list_to_set_app_L, dom_union_L, E0.
      clear. set_solver. }
  intros cs Hr. apply Hgen in Hr. by rewrite Hr, dom_empty_L, (right_id_L ∅ (∪)).
Qed.

Lemma result_of_no_panic r : no_panic (result_of r).
Proof. unfold result_of. destruct (error_code r); eauto with hashi. Qed.
Hint Resolve result_of_no_panic : hashi.

Lemma read_header_no_panic k r : no_panic (read_header k r).
Proof. unfold read_header. eauto with hashi. Qed.

Lemma read_hash_no_panic k r : no_panic (read_hash k r).
Proof. unfold read_hash. eauto with hashi. Qed.

Lemma read_txout_no_panic k r : no_panic (read_txout k r).
Proof. unfold read_txout. destruct (error_code r); eauto with hashi. Qed.

Lemma read_transaction_no_panic k r : no_panic (read_transaction k r).
Proof.
  unfold read_transaction, mined. destruct (error_code r) as [c|]; [case_match; eauto with hashi|].
  apply no_panic_bind; [eauto with hashi|]. intros v. apply no_panic_bind; [eauto with hashi|].
  intros info. destruct (blockhash info); [|eauto with hashi]. case_match; eauto 8 with hashi.
Qed.

Lemma block_headers_dom hs w m w' : block_headers hs w = (Ok m, w') -> dom m = list_to_set hs.
Proof. apply read_chunks_dom. intros l w1 m1 w1' H%read_batch_Ok. apply H. Qed.

Lemma block_hashes_dom hs w m w' : block_hashes hs w = (Ok m, w') -> dom m = list_to_set hs.
Proof. apply read_chunks_dom. intros l w1 m1 w1' H%read_batch_Ok. apply H. Qed.

Lemma lookup_unspent_dom os b w m w' : lookup_unspent os b w = (Ok m, w') -> dom m = list_to_set os.
Proof. apply read_chunks_dom. intros l w1 m1 w1' H%read_batch_Ok. apply H. Qed.

Lemma lookup_unspent_no_panic os b : no_panic (lookup_unspent os b).
Proof.
  apply read_chunks_no_panic. intros l. apply read_batch_no_panic. apply read_txout_no_panic.
Qed.

Section confirmations.
Variable required_confirmations : Z.
Abbreviation confirming_height := (confirming_height required_confirmations).
Abbreviation lookup_batch := (lookup_confirmation_batch required_confirmations).

Lemma lookup_confirmation_batch_dom txids tip w m w' :
  lookup_batch txids tip w = (Ok m, w') -> dom m = list_to_set txids.
Proof.
  unfold lookup_confirmation_batch. intros H. inv_M. simplify_eq. rewrite dom_fmap_L.
  by apply read_batch_Ok in E as [? _].
Qed.

Lemma lookup_confirmation_batch_no_panic txids tip : no_panic (lookup_batch txids tip).
Proof.
  apply no_panic_bind; [apply read_batch_no_panic, read_transaction_no_panic|]. intros m.
  apply no_panic_bind; [|intros; apply no_panic_ret].
  assert (forall hs, no_panic (block_headers hs)) as Hbh.
  { intros hs. apply read_chunks_no_panic. intros l. apply read_batch_no_panic, read_header_no_panic. }
  apply no_panic_bind; [apply Hbh|]. intros hs. apply no_panic_bind.
  { apply read_chunks_no_panic. intros l. apply read_batch_no_panic, read_hash_no_panic. }
  intros chs. apply no_panic_bind; [apply Hbh|]. intros chd. apply no_panic_foldM. intros acc e.
  unfold block_times. eauto with hashi.
Qed.

(** ** The worker threads *)

Section workers.
Variables (batches : list (list Txid)) (tip : Z).
Abbreviation n := (length batches).

Definition busy (w : worker) : option nat := match w with Busy b => Some b | Idle => None end.
Definition thread_weight (w : worker) : nat := match w with Busy _ => 2 | Idle => 1 end.
Definition steps_left (p : workers) : nat :=
  2 * (n - next_batch p) + sum_list_with thread_weight (threads p).

(** The batches taken so far, in the order of the counter: the finished ones, whose
    results are collected, and those in flight.  [done] lists the finished ones. *)
Record workers_inv (p : workers) (done : list nat) : Prop := {
  wi_taken : exists k, (k <= n)%nat /\ done ++ omap busy (threads p) ≡ₚ seq 0 k
    /\ (k = next_batch p `min` n \/ existsb is_err (results p) = true)%nat;
  wi_err : existsb is_err (results p) = true -> (n <= next_batch p)%nat;
  wi_end : threads p = [] -> (n <= next_batch p)%nat;
  wi_results : Forall2 (fun b r => exists w w', lookup_batch (default [] (batches !! b)) tip w = (r, w'))
                 done (results p);
}.

Lemma omap_insert_busy (ts : list worker) (i : nat) b :
  ts !! i = Some Idle -> omap busy (<[i := Busy b]> ts) ≡ₚ b :: omap busy ts.
Proof.
  intros Hi. rewrite insert_take_drop by (by eapply lookup_lt_Some).
  rewrite <- (take_drop_middle ts i Idle Hi) at 3. rewrite !omap_app. cbn.
  by rewrite Permutation_middle.
Qed.

Lemma omap_insert_idle (ts : list worker) (i : nat) b :
  ts !! i = Some (Busy b) -> b :: omap busy (<[i := Idle]> ts) ≡ₚ omap busy ts.
Proof.
  intros Hi. rewrite insert_take_drop by (by eapply lookup_lt_Some).
  rewrite <- (take_drop_middle ts i _ Hi) at 3. rewrite !omap_app. cbn.
  by rewrite Permutation_middle.
Qed.

Lemma omap_delete_idle (ts : list worker) (i : nat) :
  ts !! i = Some Idle -> omap busy (delete i ts) = omap busy ts.
Proof.
  intros Hi. rewrite delete_take_drop. rewrite <- (take_drop_middle ts i _ Hi) at 3.
  by rewrite !omap_app.
Qed.

Lemma weight_insert (ts : list worker) (i : nat) x y :
  ts !! i = Some x ->
  (sum_list_with thread_weight (<[i := y]> ts) + thread_weight x = sum_list_with thread_weight ts + thread_weight y)%nat.
Proof.
  intros Hi. rewrite insert_take_drop by (by eapply lookup_lt_Some).
  rewrite <- (take_drop_middle ts i _ Hi) at 3. rewrite !sum_list_with_app. cbn. lia.
Qed.

Lemma weight_delete (ts : list worker) (i : nat) x :
  ts !! i = Some x ->
  (sum_list_with thread_weight (delete i ts) + thread_weight x = sum_list_with thread_weight ts)%nat.
Proof.
  intros Hi. rewrite delete_take_drop. rewrite <- (take_drop_middle ts i _ Hi) at 3.
  rewrite !sum_list_with_app. cbn. lia.
Qed.

Lemma spawn_inv : workers_inv (spawn batches) [].
Proof.
  unfold spawn. split; cbn [next_batch threads results].
  - exists 0%nat. split_and!; [lia| |by left].
    assert (forall m, omap busy (replicate m Idle) = []) as -> by (by induction m).
    done.
  - done.
  - intros H. apply (f_equal length) in H. rewrite length_replicate in H.
    unfold HTTP_JSON_RPC_BATCHES_IN_FLIGHT in H. cbn [length] in H. lia.
  - constructor.
Qed.

(** Every step keeps the invariant and uses up the measure. *)
Lemma worker_step_inv p done i w :
  workers_inv p done -> (i < length (threads p))%nat ->
  exists p' done' w', worker_step required_confirmations batches tip i p w = (Ok p', w')
    /\ workers_inv p' done' /\ (steps_left p' < steps_left p)%nat.
Proof.
  intros [(k & Hk & Hperm & Hnext) Herr Hend Hres] Hlt. unfold worker_step, steps_left.
  assert (forall x, length (<[i := x]> (threads p)) <> 0%nat) as Hne
    by (intros x; rewrite length_insert; lia).
  apply lookup_lt_is_Some in Hlt as [[|b] Hi]; rewrite Hi.
  - case_bool_decide as Hb; eexists _, done, w; (split; [reflexivity|]); cbn [next_batch threads results].
    + pose proof (weight_insert _ _ _ (Busy (next_batch p)) Hi) as Hsum. cbn [thread_weight] in Hsum.
      split; [|cbn [next_batch threads]; lia]. split; cbn [next_batch threads results].
      * destruct Hnext as [->|He]; [|apply Herr in He; lia].
        exists (S (next_batch p)). split_and!; [lia| |left; lia].
        rewrite omap_insert_busy, <- Permutation_middle, Hperm by done.
        rewrite Nat.min_l, seq_S by lia. by rewrite Permutation_cons_append.
      * intros He%Herr. lia.
      * intros Ht. by apply (f_equal length), Hne in Ht.
      * done.
    + pose proof (weight_delete _ _ _ Hi) as Hsum. cbn [thread_weight] in Hsum.
      split; [|cbn [next_batch threads]; lia]. split; cbn [next_batch threads results]; try done; try lia.
      exists k. rewrite omap_delete_idle by done. split_and!; try done.
      destruct Hnext as [->|]; [left; lia|by right].
  - destruct (lookup_batch _ tip w) as [r w'] eqn:Hr.
    pose proof (weight_insert _ _ _ Idle Hi) as Hsum. cbn [thread_weight] in Hsum.
    assert (exists nb, (if is_err r then n else next_batch p) = nb
              /\ (next_batch p `min` n <= nb)%nat) as (nb & Hnb & Hle)
      by (eexists; split; [done|]; case_match; lia).
    eexists _, (done ++ [b]), w'. split; [reflexivity|]. cbn [next_batch threads].
    split; [|cbn; lia]. split; cbn [next_batch threads results]; rewrite ?existsb_app; cbn [existsb].
    + exists k. split_and!; [done| |].
      * rewrite <- app_assoc. cbn [app]. by rewrite omap_insert_idle.
      * destruct Hnext as [->|He]; [|rewrite He; by right].
        destruct (is_err r); [right; by rewrite orb_true_r|]. by left.
    + destruct (is_err r); [done|]. rewrite !orb_false_r. apply Herr.
    + intros Ht. by apply (f_equal length), Hne in Ht.
    + apply Forall2_app; [done|]. constructor; [eauto|constructor].
Qed.

(** Enough fuel runs every thread to its end. *)
Lemma run_workers_done fuel : forall p done w,
  workers_inv p done -> (steps_left p <= fuel)%nat ->
  exists p' done' w', run_workers required_confirmations fuel batches tip p w = (Ok p', w')
    /\ workers_inv p' done' /\ threads p' = [].
Proof.
  induction fuel as [|fuel IH]; intros p done w Hinv Hf.
  - exists p, done, w. destruct (threads p) as [|x ts] eqn:Ht; cbn; rewrite Ht; [done|].
    unfold steps_left in Hf. rewrite Ht in Hf. destruct x; cbn in Hf; lia.
  - cbn [run_workers]. destruct (threads p) as [|x ts] eqn:Ht; [by exists p, done, w|].
    rewrite <- Ht. destruct (pick (length (threads p)) w) as [i w1].
    destruct (worker_step_inv p done (i mod length (threads p)) w1 Hinv) as (p1 & done1 & w2 & Hs & Hinv1 & Hm).
    { apply Nat.mod_upper_bound. by rewrite Ht. }
    destruct (IH p1 done1 w2 Hinv1 ltac:(lia)) as (p2 & done2 & w3 & Hr & ?).
    exists p2, done2, w3. split; [|done]. unfold mbind, M_bind. by rewrite Hs.
Qed.
End workers.

(** ** The outcome of a lookup *)

Lemma collect_results_spec (P : Txid -> option BtcConfirmation -> Prop) rs : forall acc,
  Forall (fun r => r <> Panic) rs ->
  (forall m t a, Ok m ∈ rs -> m !! t = Some a -> P t a) ->
  (forall t a, confirmations acc !! t = Some a -> P t a) ->
  exists o, collect_results rs acc = Ok o
    /\ (forall t a, confirmations o !! t = Some a -> P t a)
    /\ (forall t, t ∈ dom (confirmations acc) -> t ∈ dom (confirmations o))
    /\ (forall m t, Ok m ∈ rs -> t ∈ dom m -> t ∈ dom (confirmations o))
    /\ (lookup_error o = None <-> lookup_error acc = None /\ existsb is_err rs = false).
Proof.
  induction rs as [|r rs IH]; intros acc Hnp HP Hacc; cbn [collect_results existsb].
  { exists acc. split_and!; try done; [by intros m t ?%elem_of_nil|tauto]. }
  inversion Hnp as [|? ? Hr Hnp']; subst.
  assert (forall m t a, Ok m ∈ rs -> m !! t = Some a -> P t a) as HP'.
  { intros m t a Hm. apply HP. by right. }
  destruct r as [m|e|]; [| |done].
  - destruct (IH (mkLookupOutcome (m ∪ confirmations acc) (lookup_error acc)) Hnp' HP') as (o & -> & H1 & H2 & H3 & H4).
    { intros t a [?|[_ ?]]%lookup_union_Some_raw; [|by apply Hacc]. eapply HP; [by left|done]. }
    exists o. cbn in *. split_and!; try done.
    + intros t Ht. apply H2. rewrite dom_union. set_solver.
    + intros m' t Hm' Ht. apply elem_of_cons in Hm' as [[= ->]|Hm']; [|by eapply H3].
      apply H2. rewrite dom_union. set_solver.
  - destruct (IH (mkLookupOutcome (confirmations acc)
                    (match lookup_error acc with Some e' => Some e' | None => Some e end)) Hnp' HP' Hacc)
      as (o & -> & H1 & H2 & H3 & H4).
    exists o. cbn in *. split_and!; try done.
    + intros m' t Hm' Ht. apply elem_of_cons in Hm' as [[=]|Hm']. by eapply H3.
    + rewrite H4. destruct (lookup_error acc); naive_solver.
Qed.

(** A batch of a lookup holds only txids of the lookup, and every txid is in one. *)
Lemma elem_of_batches (txids : list Txid) (t : Txid) :
  t ∈ txids <-> exists b l, chunks HTTP_JSON_RPC_BATCH_SIZE txids !! b = Some l /\ t ∈ l.
Proof.
  rewrite <- (concat_chunks HTTP_JSON_RPC_BATCH_SIZE txids) at 1
    by (unfold HTTP_JSON_RPC_BATCH_SIZE; lia).
  rewrite list_elem_of_In, in_concat. setoid_rewrite <- list_elem_of_In. split.
  - intros (l & [b Hb]%list_elem_of_lookup & Ht). eauto.
  - intros (b & l & Hb%list_elem_of_lookup_2 & Ht). eauto.
Qed.

Lemma lookup_confirmations_run txids tip w (P : Txid -> option BtcConfirmation -> Prop) :
  (forall l w m w' t a, lookup_batch l tip w = (Ok m, w') -> m !! t = Some a -> P t a) ->
  exists o w', lookup_confirmations required_confirmations txids tip w = (Ok o, w')
    /\ (forall t a, confirmations o !! t = Some a -> t ∈ txids /\ P t a)
    /\ (lookup_error o = None -> dom (confirmations o) = list_to_set txids)
    /\ (lookup_error o <> None -> exists l w e w', lookup_batch l tip w = (Err e, w')).
Proof.
  intros HP. unfold lookup_confirmations. set (bs := chunks _ txids).
  destruct (run_workers_done bs tip (2 * length bs + HTTP_JSON_RPC_BATCHES_IN_FLIGHT) (spawn bs) [] w)
    as (p & done & w' & Hrun & Hinv & Hend).
  { apply spawn_inv. }
  { unfold steps_left, spawn. cbn [next_batch threads].
    assert (forall m, sum_list_with thread_weight (replicate m Idle) = m) as -> by (induction m; cbn; lia).
    lia. }
  destruct Hinv as [(k & Hk & Hperm & Hnext) _ Hn Hres].
  rewrite Hend, app_nil_r in Hperm. specialize (Hn Hend).
  assert (forall r, r ∈ results p -> exists b l w w', bs !! b = Some l /\ lookup_batch l tip w = (r, w')) as Hfrom.
  { intros r [j Hj]%list_elem_of_lookup. destruct (Forall2_lookup_r _ _ _ _ _ Hres Hj) as (b & Hb & w1 & w2 & Hl).
    apply list_elem_of_lookup_2 in Hb. rewrite Hperm, elem_of_seq in Hb.
    destruct (lookup_lt_is_Some_2 bs b) as [l El]; [lia|]. rewrite El in Hl. by eexists b, l, w1, w2. }
  destruct (collect_results_spec (fun t a => t ∈ txids /\ P t a) (results p) (mkLookupOutcome ∅ None))
    as (o & Ho & H1 & _ & H3 & H4).
  { apply Forall_forall. intros r (b & l & w1 & w2 & _ & Hl)%Hfrom ->.
    by apply lookup_confirmation_batch_no_panic in Hl. }
  { intros m t a (b & l & w1 & w2 & Hb & Hl)%Hfrom Ht. split; [|by eapply HP].
    apply elem_of_batches. exists b, l. split; [done|].
    apply lookup_confirmation_batch_dom in Hl. apply (elem_of_list_to_set (C := gset Txid)).
    rewrite <- Hl. by apply elem_of_dom_2 in Ht. }
  { intros t a. cbn. by rewrite lookup_empty. }
  exists o, w'. split; [|split_and!].
  - unfold mbind, M_bind. rewrite Hrun. unfold of_outcome. by rewrite Ho.
  - done.
  - intros [_ Hne]%H4. destruct Hnext as [->|]; [|congruence].
    rewrite Nat.min_r in Hperm by done.
    apply set_eq. intros t. rewrite elem_of_list_to_set. split.
    + intros [a Ha]%elem_of_dom. by apply H1 in Ha as [? _].
    + intros (b & l & Hb & Ht)%elem_of_batches. fold bs in Hb.
      assert (b ∈ done) as [j Hj]%list_elem_of_lookup.
      { rewrite Hperm, elem_of_seq. apply lookup_lt_Some in Hb. lia. }
      destruct (Forall2_lookup_l _ _ _ _ _ Hres Hj) as (r & Hr & w1 & w2 & Hl).
      rewrite Hb in Hl. cbn in Hl. apply list_elem_of_lookup_2 in Hr.
      destruct r as [m|e|].
      * apply (H3 m t Hr). apply lookup_confirmation_batch_dom in Hl. rewrite Hl.
        by apply elem_of_list_to_set.
      * exfalso. apply not_true_iff_false in Hne. apply Hne, existsb_exists.
        exists (Err e). split; [by apply list_elem_of_In|done].
      * by apply lookup_confirmation_batch_no_panic in Hl.
  - intros Herr. destruct (existsb is_err (results p)) eqn:He; [|by exfalso; apply Herr, H4].
    apply existsb_exists in He as (r & Hr%list_elem_of_In & He).
    destruct r as [|e|]; try done. apply Hfrom in Hr as (b & l & w1 & w2 & _ & Hl). eauto.
Qed.

(** A confirmation lookup under every node and every schedule of its worker threads.
    The threads share one atomic counter of batches and stop at the first failure.
    Whatever the node answers and in whichever order the threads run, the lookup ends
    without a panic; every answer it returns is for a txid it was asked about and was
    returned by the lookup of a batch; and if it reports no error, it answers every txid
    it was asked about. *)
Theorem lookup_outcome_complete txids tip w :
  exists o w', lookup_confirmations required_confirmations txids tip w = (Ok o, w')
    /\ (forall t a, confirmations o !! t = Some a ->
          t ∈ txids /\ exists l w m w', lookup_batch l tip w = (Ok m, w') /\ m !! t = Some a)
    /\ (lookup_error o = None -> dom (confirmations o) = list_to_set txids)
    /\ (lookup_error o <> None -> exists l w e w', lookup_batch l tip w = (Err e, w')).
Proof.
  apply lookup_confirmations_run. intros l w1 m w2 t a Hl Ht. by exists l, w1, m, w2.
Qed.
End confirmations.

(** ** A node that serves one chain

    [Bitcoin Core]'s documented answers about a fixed chain: [getrawtransaction] gives the
    block and the bytes of a mined transaction, error -5 for an unknown one, and no block
    for one in the mempool; [getblockheader] and [getblockhash] describe the blocks. *)

Record Chain := mkChain {
  tx_at : Txid -> option MinedTx;
  header_at : BlockHash -> option RawBlockHeader;
  hash_at : Z -> option BlockHash;
}.

Definition answers_ok (c : Chain) (m : Method) (e : JsonRpcEnvelope Value) : Prop :=
  match m with
  | GetRawTransaction txid =>
      match tx_at c txid with
      | None =>
          error_code e = Some (-5)
          \/ (error_code e = None /\ exists v info, result e = Some v
              /\ decode_transaction_info v = Some info
              /\ (blockhash info = None \/ raw_confirmations info = 0))
      | Some tx =>
          error_code e = None /\ exists v info s, result e = Some v
          /\ decode_transaction_info v = Some info
          /\ blockhash info = Some s /\ block_hash_from_str s = Some (block_hash tx)
          /\ raw_confirmations info <> 0
          /\ deserialize_hex (hex info)
             = Some (mkDecodedTx txid (mined_inputs tx) (mined_outputs tx))
      end
  | GetBlockHeader hash => forall hd, header_at c hash = Some hd ->
      error_code e = None /\ exists v, result e = Some v /\ decode_block_header v = Some hd
  | GetBlockHash height => forall h, hash_at c height = Some h ->
      error_code e = None /\ exists v s, result e = Some v /\ decode_string v = Some s
      /\ block_hash_from_str s = Some h
  | _ => True
  end.

(** A batch is answered once per call, in any order. *)
Definition serves (c : Chain) : Prop :=
  forall calls w, exists v rs es w', send (Batch calls) w = (Some (200, Some v), w')
    /\ json_rpc_rate_limited v = false /\ decode_envelopes v = Some rs /\ rs ≡ₚ es
    /\ Forall2 (fun call e => as_u64 (env_id e) = Some (N.of_nat call.1)
                 /\ answers_ok c call.2 e) calls es.

Lemma post_json_first body w v w' :
  send body w = (Some (200, Some v), w') -> json_rpc_rate_limited v = false ->
  post_json body w = (Ok v, w').
Proof.
  intros Hs Hr. unfold post_json. cbn [post_from]. unfold mbind, M_bind, post. rewrite Hs. cbn.
  by rewrite Hr.
Qed.

Section served_batch.
Context {K V : Type} `{Countable K}.
Variables (c : Chain) (keys : list K) (method : K -> Method).
Variable handle : K -> JsonRpcEnvelope Value -> rpc V.
Variable f : K -> V.
Hypothesis Hserves : serves c.
Hypothesis handle_ok : forall k e w, k ∈ keys -> answers_ok c (method k) e -> handle k e w = (Ok (f k), w).

Definition idx (e : JsonRpcEnvelope Value) : nat :=
  match as_u64 (env_id e) with Some i => N.to_nat i | None => 0 end.

Lemma read_responses_served rs : forall seen answers w,
  Forall (fun e => exists k, as_u64 (env_id e) = Some (N.of_nat (idx e))
                   /\ keys !! idx e = Some k /\ answers_ok c (method k) e) rs ->
  NoDup (idx <$> rs) -> (forall e, e ∈ rs -> idx e ∉ seen) ->
  (forall k v, answers !! k = Some v -> v = f k) ->
  exists answers', read_responses keys handle rs seen answers w
      = (Ok (list_to_set (idx <$> rs) ∪ seen, answers'), w)
    /\ (forall k v, answers' !! k = Some v -> v = f k).
Proof.
  induction rs as [|e rs IH]; intros seen answers w Hrs Hnd Hseen Hans; cbn [read_responses].
  { exists answers. split; [|done]. cbn. by rewrite (left_id_L ∅ (∪)). }
  inversion Hrs as [|? ? (k & Hid & Hk & He) Hrs']; subst.
  inversion Hnd as [|? ? Hnin Hnd']; subst.
  unfold mbind, M_bind. rewrite (response_index_id _ _ _ _ Hid) by (by eapply lookup_lt_Some).
  rewrite bool_decide_false by (apply Hseen; left). cbn [negb ensure of_outcome guard]. rewrite Hk.
  cbn [mret M_ret].
  rewrite handle_ok by (done || by eapply list_elem_of_lookup_2).
  destruct (IH ({[idx e]} ∪ seen) (<[k := f k]> answers) w Hrs' Hnd') as (answers' & Hr & Ha).
  - intros e' He' [Heq%elem_of_singleton|Hin]%elem_of_union.
    + apply Hnin. rewrite <- Heq. by apply list_elem_of_fmap_2.
    + eapply Hseen; [by right|done].
  - intros k' v'. destruct (decide (k' = k)) as [->|]; [rewrite lookup_insert_eq; congruence|].
    rewrite lookup_insert_ne by done. apply Hans.
  - exists answers'. split; [|done]. rewrite Hr. cbn [fmap list_fmap list_to_set].
    do 3 f_equal. set_solver.
Qed.

Lemma read_batch_served w :
  exists m w', read_batch keys method handle w = (Ok m, w')
    /\ dom m = list_to_set keys /\ (forall k v, m !! k = Some v -> v = f k).
Proof.
  destruct (Hserves (imap (fun id k => (id, method k)) keys) w)
    as (v & rs & es & w' & Hsend & Hlim & Hdec & Hperm & Hes).
  assert (Forall2 (fun call e => idx e = call.1) (imap (fun id k => (id, method k)) keys) es) as Hidx.
  { eapply Forall2_impl; [exact Hes|]. intros call e [Hid _]. unfold idx. by rewrite Hid, Nat2N.id. }
  assert (idx <$> es = seq 0 (length keys)) as Hes_idx.
  { assert (idx <$> es = fst <$> imap (fun id k => (id, method k)) keys) as ->.
    { clear -Hidx. induction Hidx; cbn; congruence. }
    apply list_eq. intros i. rewrite list_lookup_fmap, list_lookup_imap.
    destruct (keys !! i) eqn:Hi; cbn.
    - rewrite lookup_seq_lt; [done|by eapply lookup_lt_Some].
    - rewrite lookup_seq_ge; [done|by apply lookup_ge_None]. }
  assert (idx <$> rs ≡ₚ seq 0 (length keys)) as Hrs_idx by (rewrite <- Hes_idx; by apply fmap_Permutation).
  assert (Forall (fun e => exists k, as_u64 (env_id e) = Some (N.of_nat (idx e))
                   /\ keys !! idx e = Some k /\ answers_ok c (method k) e) rs) as Hrs.
  { rewrite Hperm. apply Forall_forall. intros e [j Hj]%list_elem_of_lookup.
    destruct (Forall2_lookup_r _ _ _ _ _ Hes Hj) as ([id m'] & Hcall & Hid & Ha).
    rewrite list_lookup_imap in Hcall. destruct (keys !! j) as [k|] eqn:Hk; [|done].
    cbn in Hcall. injection Hcall as <- <-. cbn in *. exists k.
    unfold idx. rewrite Hid, Nat2N.id. done. }
  destruct (read_responses_served rs ∅ ∅ w' Hrs) as (answers & Hr & Hans).
  { rewrite Hrs_idx. apply NoDup_seq. }
  { set_solver. }
  { intros k v'. by rewrite lookup_empty. }
  exists answers, w'. assert (read_batch keys method handle w = (Ok answers, w')) as Hb.
  { unfold read_batch, call_batch. unfold mbind, M_bind. rewrite (post_json_first _ _ _ _ Hsend Hlim).
    cbn. rewrite Hdec. cbn. rewrite Hr. cbn. rewrite bool_decide_true; [done|].
    rewrite (right_id_L ∅ (∪)), size_list_to_set by (rewrite Hrs_idx; apply NoDup_seq).
    by rewrite Hrs_idx, length_seq. }
  split; [done|]. split; [|done]. by apply read_batch_Ok in Hb as [? _].
Qed.
End served_batch.

Lemma read_chunks_served {K V} `{Countable K} (g : list K -> rpc (gmap K V)) (f : K -> V) keys w :
  (forall l w, (forall k, k ∈ l -> k ∈ keys) -> exists m w', g l w = (Ok m, w') /\ dom m = list_to_set l
     /\ forall k v, m !! k = Some v -> v = f k) ->
  exists m w', read_chunks g keys w = (Ok m, w') /\ dom m = list_to_set keys
    /\ forall k v, m !! k = Some v -> v = f k.
Proof.
  intros Hg. unfold read_chunks.
  assert (forall cs acc w, (forall l k, l ∈ cs -> k ∈ l -> k ∈ keys) ->
            (forall k v, acc !! k = Some v -> v = f k) ->
            exists m w', foldM (fun acc chunk => m ← g chunk; mret (m ∪ acc)) cs acc w = (Ok m, w')
              /\ dom m = list_to_set (concat cs) ∪ dom acc
              /\ forall k v, m !! k = Some v -> v = f k) as Hgen.
  { induction cs as [|l cs IH]; intros acc w1 Hcs Hacc; cbn [foldM].
    - exists acc, w1. cbn. by rewrite (left_id_L ∅ (∪)).
    - destruct (Hg l w1) as (m & w2 & Hm & Hd & Hv).
      { intros k. apply Hcs. left. }
      destruct (IH (m ∪ acc) w2) as (m' & w3 & Hr & Hd' & Hv').
      { intros l' k Hl'. apply Hcs. by right. }
      { intros k v [?|[_ ?]]%lookup_union_Some_raw; auto. }
      exists m', w3. split_and!; [|rewrite Hd'; cbn; rewrite list_to_set_app_L, dom_union_L, Hd; clear; set_solver|done].
      unfold mbind, M_bind. rewrite Hm. cbn. exact Hr. }
  destruct (Hgen (chunks HTTP_JSON_RPC_BATCH_SIZE keys) ∅ w) as (m & w' & Hr & Hd & Hv).
  { intros l k Hl Hk. rewrite <- (concat_chunks HTTP_JSON_RPC_BATCH_SIZE keys)
      by (unfold HTTP_JSON_RPC_BATCH_SIZE; lia).
    rewrite list_elem_of_In, in_concat. exists l. by rewrite <- !list_elem_of_In. }
  { intros k v. by rewrite lookup_empty. }
  exists m, w'. split_and!; [done| |done].
  rewrite Hd, concat_chunks, dom_empty_L by (unfold HTTP_JSON_RPC_BATCH_SIZE; lia).
  by rewrite (right_id_L ∅ (∪)).
Qed.

Section served.
Variables (c : Chain) (required_confirmations tip : Z).
Hypothesis Hserves : serves c.

(** The chain up to the captured height: every mined transaction is in a known block, every
    height up to the tip has one, and heights are far from the end of a [u64]. *)
Record chain_ok : Prop := {
  chain_required : 1 <= required_confirmations;
  chain_blocks : forall t x, tx_at c t = Some x -> is_Some (header_at c (block_hash x));
  chain_heights : forall h hd, header_at c h = Some hd ->
    0 <= header_height hd /\ header_height hd + required_confirmations <= u64_max;
  chain_hashes : forall n, 0 <= n <= tip -> exists h hd, hash_at c n = Some h /\ header_at c h = Some hd;
}.

(** A transaction is confirmed when the block [required_confirmations - 1] above its own is
    at most the tip; that block gives the time of the confirmation. *)
Definition chain_times (hash : BlockHash) : option (UnixSeconds * UnixSeconds) :=
  hd ← header_at c hash;
  let height := header_height hd + required_confirmations - 1 in
  if height <=? tip then
    ch ← hash_at c height; chd ← header_at c ch; Some (header_time hd, header_time chd)
  else None.

Definition chain_confirmation (t : Txid) : option BtcConfirmation :=
  x ← tx_at c t;
  times ← chain_times (block_hash x);
  Some (mkBtcConfirmation times.1 times.2 (mined_inputs x) (mined_outputs x)).

Hypothesis Hchain : chain_ok.

Lemma mined_batch_served txids w :
  exists m w', mined_batch txids w = (Ok m, w') /\ dom m = list_to_set txids
    /\ forall t a, m !! t = Some a -> a = tx_at c t.
Proof.
  apply (read_batch_served c txids GetRawTransaction read_transaction (tx_at c) Hserves).
  intros t e w1 _. cbn. unfold read_transaction, mined. destruct (tx_at c t) as [x|].
  - intros (-> & v & info & s & Hv & Hi & Hs & Hh & Hn & Hx).
    unfold mbind, M_bind. rewrite Hv. cbn. rewrite Hi. cbn. rewrite Hs, (proj2 (Z.eqb_neq _ _) Hn).
    cbn. rewrite Hh. cbn. rewrite Hx. cbn. rewrite Z.eqb_refl. cbn. by destruct x.
  - intros [->|(-> & v & info & Hv & Hi & Hn)]; [done|].
    unfold mbind, M_bind. rewrite Hv. cbn. rewrite Hi. cbn.
    destruct Hn as [->|Hn]; [done|]. rewrite Hn. by destruct (blockhash info).
Qed.

Lemma block_headers_served hashes w :
  (forall h, h ∈ hashes -> is_Some (header_at c h)) ->
  exists m w', block_headers hashes w = (Ok m, w') /\ dom m = list_to_set hashes
    /\ forall h a, m !! h = Some a -> header_at c h = Some a.
Proof.
  intros Hk. set (f h := default (mkRawBlockHeader 0 0) (header_at c h)).
  destruct (read_chunks_served (fun l => read_batch l GetBlockHeader read_header) f hashes w)
    as (m & w' & Hm & Hd & Hv).
  { intros l w1 Hl. apply (read_batch_served c l GetBlockHeader read_header f Hserves).
    intros h e w2 Hh Ha. destruct (Hk h (Hl h Hh)) as [hd Hhd]. destruct (Ha hd Hhd) as (He & v & Hres & Hdec).
    unfold read_header, result_of, mbind, M_bind. rewrite He, Hres. cbn. rewrite Hdec. cbn.
    unfold f. by rewrite Hhd. }
  exists m, w'. split_and!; try done. intros h a Ha.
  assert (h ∈ hashes) as Hin.
  { apply (elem_of_list_to_set (C := gset BlockHash)). rewrite <- Hd. by apply elem_of_dom_2 in Ha. }
  rewrite (Hv h a Ha). unfold f. by destruct (Hk h Hin) as [hd ->].
Qed.

Lemma block_hashes_served heights w :
  (forall n, n ∈ heights -> is_Some (hash_at c n)) ->
  exists m w', block_hashes heights w = (Ok m, w') /\ dom m = list_to_set heights
    /\ forall n a, m !! n = Some a -> hash_at c n = Some a.
Proof.
  intros Hk. set (f n := default 0 (hash_at c n)).
  destruct (read_chunks_served (fun l => read_batch l GetBlockHash read_hash) f heights w)
    as (m & w' & Hm & Hd & Hv).
  { intros l w1 Hl. apply (read_batch_served c l GetBlockHash read_hash f Hserves).
    intros h e w2 Hh Ha. destruct (Hk h (Hl h Hh)) as [hh Hhh].
    destruct (Ha hh Hhh) as (He & v & s & Hres & Hdec & Hfrom).
    unfold read_hash, result_of, mbind, M_bind. rewrite He, Hres. cbn. rewrite Hdec. cbn.
    rewrite Hfrom. cbn. unfold f. by rewrite Hhh. }
  exists m, w'. split_and!; try done. intros h a Ha.
  assert (h ∈ heights) as Hin.
  { apply (elem_of_list_to_set (C := gset Z)). rewrite <- Hd. by apply elem_of_dom_2 in Ha. }
  rewrite (Hv h a Ha). unfold f. by destruct (Hk h Hin) as [hd ->].
Qed.
Lemma confirming_height_exact h hd :
  header_at c h = Some hd ->
  confirming_height required_confirmations hd = header_height hd + required_confirmations - 1.
Proof.
  intros Hh. destruct (chain_heights Hchain h hd Hh). pose proof (chain_required Hchain).
  unfold confirming_height. unwrap. done.
Qed.

Lemma fold_times_served (g : RawBlockHeader -> rpc (UnixSeconds * UnixSeconds))
    (l : list (BlockHash * RawBlockHeader)) : forall (acc : gmap BlockHash (UnixSeconds * UnixSeconds)) w,
  (forall e w, e ∈ l -> exists t, chain_times e.1 = Some t /\ g e.2 w = (Ok t, w)) ->
  (forall h t, acc !! h = Some t -> chain_times h = Some t) ->
  exists m, foldM (fun acc e => times ← g e.2; mret (<[e.1 := times]> acc)) l acc w = (Ok m, w)
    /\ (forall h t, m !! h = Some t -> chain_times h = Some t)
    /\ (forall h, is_Some (acc !! h) -> is_Some (m !! h))
    /\ (forall e, e ∈ l -> is_Some (m !! e.1)).
Proof.
  induction l as [|e l IH]; intros acc w Hg Hacc; cbn [foldM].
  { exists acc. split_and!; try done. by intros e ?%elem_of_nil. }
  destruct (Hg e w (list_elem_of_here e l)) as (t & Ht & He).
  destruct (IH (<[e.1 := t]> acc) w) as (m & Hm & H1 & H2 & H3).
  { intros e' w' He'. apply Hg. by right. }
  { intros h t'. destruct (decide (h = e.1)) as [->|]; [rewrite lookup_insert_eq; congruence|].
    rewrite lookup_insert_ne by done. apply Hacc. }
  exists m. split_and!; try done.
  - unfold mbind, M_bind. rewrite He. cbn. exact Hm.
  - intros h Hh. apply H2. by apply lookup_insert_is_Some'; right.
  - intros e' [->|He']%elem_of_cons; [|by apply H3]. apply H2. by apply lookup_insert_is_Some'; left.
Qed.

(** One pass over the headers [m1] of some blocks: those deep enough, the heights that
    confirm them, and their times. *)
Section one_pass.
Variable m1 : gmap BlockHash RawBlockHeader.
Hypothesis Hv1 : forall h a, m1 !! h = Some a -> header_at c h = Some a.

Abbreviation deep :=
  (filter (fun e => confirming_height required_confirmations e.2 <= tip) m1).
Abbreviation heights :=
  (list_to_set (confirming_height required_confirmations <$> (map_to_list deep).*2) : gset Z).

Lemma deep_lookup h hd :
  deep !! h = Some hd <-> m1 !! h = Some hd /\ header_height hd + required_confirmations - 1 <= tip.
Proof.
  rewrite map_lookup_filter_Some. cbn. split; intros [Hh Hle];
    (split; [done|]); by rewrite (confirming_height_exact h) in * by auto.
Qed.

Lemma elem_of_heights n :
  n ∈ heights <-> exists h hd, deep !! h = Some hd /\ n = header_height hd + required_confirmations - 1.
Proof.
  rewrite elem_of_list_to_set, list_elem_of_fmap. split.
  - intros (hd & -> & ([h hd'] & -> & Hin%elem_of_map_to_list)%list_elem_of_fmap).
    exists h, hd'. split; [done|]. cbn. eapply confirming_height_exact, Hv1. by apply deep_lookup.
  - intros (h & hd & Hh & ->). exists hd. split.
    + symmetry. eapply confirming_height_exact, Hv1. by apply deep_lookup.
    + apply list_elem_of_fmap. exists (h, hd). split; [done|]. by apply elem_of_map_to_list.
Qed.

Lemma heights_known n :
  n ∈ heights -> exists h hd, hash_at c n = Some h /\ header_at c h = Some hd.
Proof.
  intros (h & hd & [Hh Hle]%deep_lookup & ->)%elem_of_heights. apply (chain_hashes Hchain).
  destruct (chain_heights Hchain h hd (Hv1 _ _ Hh)). pose proof (chain_required Hchain). lia.
Qed.

Lemma block_times_served m2 m3 h hd w :
  (forall n, n ∈ heights -> m2 !! n = hash_at c n) ->
  (forall n x, n ∈ heights -> hash_at c n = Some x -> m3 !! x = header_at c x) ->
  deep !! h = Some hd ->
  exists t, chain_times h = Some t /\ block_times required_confirmations m2 m3 hd w = (Ok t, w).
Proof.
  intros Hm2 Hm3 Hd. pose proof Hd as [Hh Hle]%deep_lookup. pose proof (Hv1 _ _ Hh) as Hhd.
  set (n := header_height hd + required_confirmations - 1) in *.
  assert (n ∈ heights) as Hn by (apply elem_of_heights; eauto).
  destruct (heights_known n Hn) as (h2 & hd2 & Hh2 & Hhd2).
  exists (header_time hd, header_time hd2). split.
  - unfold chain_times. rewrite Hhd. cbn. fold n. rewrite (proj2 (Z.leb_le _ _) Hle), Hh2. cbn.
    by rewrite Hhd2.
  - unfold block_times, mbind, M_bind. rewrite (confirming_height_exact h) by done. fold n.
    rewrite (Hm2 n Hn), Hh2. cbn. by rewrite (Hm3 n h2 Hn Hh2), Hhd2.
Qed.
End one_pass.

Lemma dom_list_lookup {K V} `{Countable K} (m : gmap K V) (l : list K) k :
  dom m = list_to_set l -> k ∈ l -> exists v, m !! k = Some v.
Proof.
  intros Hd Hk. apply (elem_of_list_to_set (C := gset K)) in Hk. rewrite <- Hd in Hk.
  by apply elem_of_dom in Hk.
Qed.

Lemma confirmed_block_times_served hashes w :
  (forall h, h ∈ hashes -> is_Some (header_at c h)) ->
  exists m w', confirmed_block_times required_confirmations hashes tip w = (Ok m, w')
    /\ forall h, h ∈ hashes -> m !! h = chain_times h.
Proof.
  intros Hk. unfold confirmed_block_times.
  destruct (block_headers_served hashes w Hk) as (m1 & w1 & Hm1 & Hd1 & Hv1).
  unfold mbind at 1, M_bind at 1. rewrite Hm1. cbn zeta.
  set (deep := filter _ m1). set (heights := list_to_set _ : gset Z).
  destruct (block_hashes_served (elements heights) w1) as (m2 & w2 & Hm2 & Hd2 & Hv2).
  { intros n (h & hd & -> & _)%elem_of_elements%(heights_known m1 Hv1). eauto. }
  unfold mbind at 1, M_bind at 1. rewrite Hm2.
  assert (forall n, n ∈ heights -> m2 !! n = hash_at c n) as Hm2n.
  { intros n Hn%elem_of_elements. destruct (dom_list_lookup _ _ _ Hd2 Hn) as [h Hh].
    by rewrite Hh, (Hv2 _ _ Hh). }
  destruct (block_headers_served (map_to_list m2).*2 w2) as (m3 & w3 & Hm3 & Hd3 & Hv3).
  { intros h ([n h'] & -> & Hin%elem_of_map_to_list)%list_elem_of_fmap. cbn.
    assert (n ∈ heights) as (h2 & hd & Hh2 & ?)%(heights_known m1 Hv1).
    { apply elem_of_elements, (elem_of_list_to_set (C := gset Z)). rewrite <- Hd2.
      by apply elem_of_dom_2 in Hin. }
    rewrite (Hv2 _ _ Hin) in Hh2. injection Hh2 as ->. eauto. }
  unfold mbind at 1, M_bind at 1. rewrite Hm3.
  destruct (fold_times_served (block_times required_confirmations m2 m3) (map_to_list deep) ∅ w3)
    as (m & Hm & H1 & _ & H3).
  { intros [h hd] w4 Hin%elem_of_map_to_list. apply (block_times_served m1 Hv1); try done.
    intros n x Hn Hx. destruct (dom_list_lookup m3 (map_to_list m2).*2 x Hd3) as [hd' Hhd'].
    { apply list_elem_of_fmap. exists (n, x). split; [done|]. apply elem_of_map_to_list. by rewrite Hm2n. }
    by rewrite Hhd', (Hv3 _ _ Hhd'). }
  { intros h t'. by rewrite lookup_empty. }
  exists m, w3. split; [exact Hm|]. intros h Hh.
  destruct (m !! h) as [t'|] eqn:Hmh; [symmetry; by apply H1|].
  destruct (dom_list_lookup _ _ _ Hd1 Hh) as [hd Hhd].
  unfold chain_times. rewrite (Hv1 _ _ Hhd). cbn. destruct (_ <=? tip) eqn:Hle; [|done].
  destruct (H3 (h, hd)) as [? Hin]; [|cbn in Hin; congruence].
  apply elem_of_map_to_list, (deep_lookup m1 Hv1). by apply Z.leb_le in Hle.
Qed.

Lemma lookup_confirmation_batch_served txids w :
  exists m w', lookup_confirmation_batch required_confirmations txids tip w = (Ok m, w')
    /\ forall t a, m !! t = Some a -> a = chain_confirmation t.
Proof.
  unfold lookup_confirmation_batch.
  destruct (mined_batch_served txids w) as (m & w1 & Hm & Hd & Hv).
  unfold mbind at 1, M_bind at 1. rewrite Hm. cbn zeta. set (hashes := list_to_set _ : gset BlockHash).
  assert (forall t x, m !! t = Some (Some x) -> block_hash x ∈ hashes) as Hin.
  { intros t x Ht. apply elem_of_list_to_set, list_elem_of_omap. exists (Some x). split; [|done].
    apply list_elem_of_fmap. exists (t, Some x). split; [done|]. by apply elem_of_map_to_list. }
  destruct (confirmed_block_times_served (elements hashes) w1) as (times & w2 & Ht & Hv2).
  { intros h Hh%elem_of_elements. unfold hashes in Hh.
    apply elem_of_list_to_set, list_elem_of_omap in Hh as (o & Ho & Heq).
    apply list_elem_of_fmap in Ho as ([t o'] & -> & Ho%elem_of_map_to_list). cbn in Heq.
    destruct o' as [x|]; [|done]. injection Heq as <-. apply (chain_blocks Hchain t).
    symmetry. by apply Hv. }
  unfold mbind at 1, M_bind at 1. rewrite Ht. eexists _, w2. split; [reflexivity|].
  intros t a. rewrite lookup_fmap. intros (o & Ho & ->)%fmap_Some_1.
  unfold confirmation_of, chain_confirmation. rewrite <- (Hv t o Ho). destruct o as [x|]; [|done].
  cbn. by rewrite Hv2 by (apply elem_of_elements; by eapply Hin).
Qed.

(** Where a transaction is mined. *)
Definition mined_height (t : Txid) : option Z :=
  x ← tx_at c t; header_height <$> header_at c (block_hash x).

Lemma chain_confirmation_iff t :
  is_Some (chain_confirmation t) <->
  exists n, mined_height t = Some n /\ n + required_confirmations - 1 <= tip.
Proof.
  unfold chain_confirmation, mined_height, chain_times. destruct (tx_at c t) as [x|]; cbn;
    [|split; [by intros [? ?]|by intros (? & ? & _)]].
  destruct (header_at c (block_hash x)) as [hd|] eqn:Hh; cbn;
    [|split; [by intros [? ?]|by intros (? & ? & _)]].
  destruct (_ <=? tip) eqn:Hle; cbn.
  - apply Z.leb_le in Hle. destruct (chain_heights Hchain _ _ Hh). pose proof (chain_required Hchain).
    destruct (chain_hashes Hchain (header_height hd + required_confirmations - 1)) as (h2 & hd2 & -> & Hh2); [lia|].
    cbn. rewrite Hh2. cbn. split; eauto.
  - apply Z.leb_gt in Hle. split; [by intros [? ?]|]. intros (n & [= <-] & ?). lia.
Qed.
End served.

(** C39: confirmations are exact, at one height.  If the node serves one chain, a lookup of
    any number of txids, over any number of batches and under any schedule of the worker
    threads, succeeds and answers each txid with the chain's confirmation of it: the times
    of its block and of the block that gives it the required depth, its inputs and its
    outputs, if that depth is reached at the captured height, and nothing otherwise.  So at
    one height a transaction is never confirmed while one mined at its height or below is
    not. *)
Theorem lookup_confirmations_exact c required tip txids w :
  serves c -> chain_ok c required tip ->
  exists m w', lookup_confirmations required txids tip w = (Ok (mkLookupOutcome m None), w')
    /\ dom m = list_to_set txids
    /\ (forall t, t ∈ txids -> m !! t = Some (chain_confirmation c required tip t))
    /\ (forall t, is_Some (chain_confirmation c required tip t)
          <-> exists n, mined_height c t = Some n /\ n + required - 1 <= tip)
    /\ (forall parent child np nc, mined_height c parent = Some np -> mined_height c child = Some nc ->
          np <= nc -> is_Some (chain_confirmation c required tip child) ->
          is_Some (chain_confirmation c required tip parent)).
Proof.
  intros Hs Hc.
  destruct (lookup_confirmations_run required txids tip w
              (fun t a => a = chain_confirmation c required tip t)) as (o & w' & Ho & H1 & H2 & H3).
  { intros l w1 m w2 t a Hl. destruct (lookup_confirmation_batch_served c required tip Hs Hc l w1)
      as (m' & w2' & Hl' & Hv). rewrite Hl in Hl'. injection Hl' as <- <-. apply Hv. }
  destruct o as [m err]. cbn [confirmations lookup_error] in *. assert (err = None) as ->.
  { destruct err as [e|]; [|done]. destruct H3 as (l & w1 & e' & w2 & Hl); [done|].
    destruct (lookup_confirmation_batch_served c required tip Hs Hc l w1) as (m' & w2' & Hl' & _).
    by rewrite Hl in Hl'. }
  specialize (H2 eq_refl). exists m, w'. split_and!; try done.
  - intros t Ht. destruct (dom_list_lookup m txids t H2 Ht) as [a Ha]. rewrite Ha.
    by destruct (H1 t a Ha) as [_ ->].
  - intros t. by apply chain_confirmation_iff.
  - intros parent child np nc Hp Hcd Hle (n & Hn & Hn')%chain_confirmation_iff; [|done].
    apply chain_confirmation_iff; [done|]. exists np. split; [done|]. rewrite Hcd in Hn.
    injection Hn as ->. lia.
Qed.
End proofs.

(** ** A small chain

    Transaction 1 is mined at height 0 and transaction 2 at height 1, the tip; two
    confirmations are required. *)

Module SmallChain.

Inductive value :=
| VId (n : N)
| VTx (info : RawTransactionInfo)
| VHeader (h : RawBlockHeader)
| VHash (s : string)
| VInfo (i : BlockchainInfo)
| VOne (res : option value) (err : option Z)
| VBatch (l : list (N * (option value * option Z))).

Definition chain : Chain := mkChain
  (fun t => if t =? 1 then Some (mkMinedTx 100 [] [mkTxOut 5 []])
            else if t =? 2 then Some (mkMinedTx 101 [(1, 0)] [mkTxOut 4 []]) else None)
  (fun h => if h =? 100 then Some (mkRawBlockHeader 1000 0)
            else if h =? 101 then Some (mkRawBlockHeader 1600 1) else None)
  (fun n => if n =? 0 then Some 100 else if n =? 1 then Some 101 else None).

Definition hash_str (h : BlockHash) : string := if h =? 100 then "block 0" else "block 1".

Definition answer (m : Method) : option value * option Z :=
  match m with
  | GetRawTransaction t =>
      match tx_at chain t with
      | Some x => (Some (VTx (mkRawTransactionInfo (if t =? 1 then "tx 1" else "tx 2")
                                (Some (hash_str (block_hash x))) 1)), None)
      | None => (None, Some (-5))
      end
  | GetBlockHeader h =>
      match header_at chain h with Some hd => (Some (VHeader hd), None) | None => (None, Some (-5)) end
  | GetBlockHash n =>
      match hash_at chain n with Some h => (Some (VHash (hash_str h)), None) | None => (None, Some (-8)) end
  | GetTxOut o _ => (if bool_decide (o = (2, 0)) then Some (VId 1) else None, None)
  | GetBlockchainInfo => (Some (VInfo (mkBlockchainInfo "regtest" 1 1 1600 false)), None)
  | GetIndexInfo => (None, Some (-32601))
  end.

#[export] Instance node : BtcNode := {|
  World := nat;
  Value := value;
  send := fun body w =>
    match body with
    | Batch calls => (Some (200, Some (VBatch ((fun c => (N.of_nat c.1, answer c.2)) <$> reverse calls))), w)
    | Single m => (Some (200, Some (VOne (answer m).1 (answer m).2)), w)
    end;
  sleep := fun _ w => w;
  pick := fun _ w => (w, S w);
  clock := fun w => (1650, w);
  value_get := fun _ _ => None;
  as_u64 := fun v => match v with VId n => Some n | _ => None end;
  as_i64 := fun _ => None;
  as_bool := fun _ => None;
  as_array := fun _ => None;
  decode_envelope := fun v => match v with VOne r e => Some (mkEnvelope (VId 0) r e) | _ => None end;
  decode_envelopes := fun v =>
    match v with VBatch l => Some ((fun e => mkEnvelope (VId e.1) e.2.1 e.2.2) <$> l) | _ => None end;
  decode_transaction_info := fun v => match v with VTx i => Some i | _ => None end;
  decode_block_header := fun v => match v with VHeader h => Some h | _ => None end;
  decode_string := fun v => match v with VHash s => Some s | _ => None end;
  decode_blockchain_info := fun v => match v with VInfo i => Some i | _ => None end;
  block_hash_from_str := fun s =>
    if bool_decide (s = "block 0"%string) then Some 100
    else if bool_decide (s = "block 1"%string) then Some 101 else None;
  deserialize_hex := fun s =>
    if bool_decide (s = "tx 1"%string) then Some (mkDecodedTx 1 [] [mkTxOut 5 []])
    else if bool_decide (s = "tx 2"%string) then Some (mkDecodedTx 2 [(1, 0)] [mkTxOut 4 []]) else None;
|}.

Lemma node_serves : serves chain.
Proof.
  intros calls w. eexists _, _, ((fun c => mkEnvelope (VId (N.of_nat c.1)) (answer c.2).1 (answer c.2).2) <$> calls), _.
  split; [reflexivity|]. split; [done|]. split; [reflexivity|]. split.
  { rewrite <- list_fmap_compose. apply fmap_Permutation, reverse_Permutation. }
  apply Forall2_fmap_r, Forall_Forall2_diag, Forall_forall. intros [i m] _. split; [done|].
  destruct m as [| |t|h|n|]; cbn -[Z.eqb]; try done.
  - destruct (Z.eqb_spec t 1) as [->|]; [split; [done|]; by eexists _, _, _|].
    destruct (Z.eqb_spec t 2) as [->|]; [split; [done|]; by eexists _, _, _|]. by left.
  - intros hd. destruct (h =? 100); [intros [= <-]; eauto|].
    destruct (h =? 101); [intros [= <-]; eauto|done].
  - intros h. destruct (n =? 0); [intros [= <-]; split; [done|]; by eexists _, _|].
    destruct (n =? 1); [intros [= <-]; split; [done|]; by eexists _, _|done].
Qed.

Lemma chain_at_tip : chain_ok chain 2 1.
Proof.
  split; cbn -[Z.eqb].
  - lia.
  - intros t x. destruct (t =? 1); [intros [= <-]; eauto|]. destruct (t =? 2); [intros [= <-]; eauto|done].
  - intros h hd. destruct (h =? 100); [intros [= <-]; cbn; u64_lia|].
    destruct (h =? 101); [intros [= <-]; cbn; u64_lia|done].
  - intros n Hn. assert (n = 0 \/ n = 1) as [->| ->] by lia; by eexists _, _.
Qed.

(** The older transaction is confirmed at the tip, the newer one and an unknown one are not. *)
Lemma lookup_confirmations_exact_witness :
  (exists m w', lookup_confirmations (BN := node) 2 [2; 1; 7] 1 (0%nat : World (BtcNode := node)) = (Ok (mkLookupOutcome m None), w')
    /\ m !! 1 = Some (Some (mkBtcConfirmation 1000 1600 [] [mkTxOut 5 []]))
    /\ m !! 2 = Some None /\ m !! 7 = Some None).
Proof.
  destruct (@lookup_confirmations_exact node chain 2 1 [2; 1; 7] 0%nat node_serves chain_at_tip)
    as (m & w' & Hm & _ & Hv & _).
  exists m, w'. split; [exact Hm|]. split; [|split].
  - apply (Hv 1). do 2 constructor.
  - apply (Hv 2). constructor.
  - apply (Hv 7). do 3 constructor.
Defined.
End SmallChain.
