(* ===== verification/BtcClient.v ===== *)
(** * The monitor's Bitcoin client

    [BtcRpcClient] of [crates/hashi-monitor/src/rpc/btc.rs]: the checks a node passes before
    a pass, the confirmation cache, and the outpoint lookups, on top of the transport.  The
    client is interior-mutable in the source; here its state and the node's world are one
    state.  [BtcLookups] is the interface the auditor uses, and its laws are what the
    auditor relies on. *)

From S2P Require Import Prelude MonitorDomain BtcTransport BtcTransportProofs.

(** ** What the auditor sees of a client with state [C] *)

Class BtcLookups (C : Type) := {
  btc_synced_height : M C BtcError Z;
  btc_forget_unconfirmed : M C BtcError unit;
  btc_prefetch_confirmations : list Txid -> Z -> M C BtcError unit;
  btc_lookup_confirmation : Txid -> M C BtcError (option BtcConfirmation);
  btc_lookup_mined : list Txid -> M C BtcError (gset Txid);
  btc_lookup_outpoint_states :
    list OutPoint -> Z -> bool -> M C BtcError (gmap OutPoint OutpointState);
}.

Class BtcLookupsOk (C : Type) `{BtcLookups C} := {
  synced_height_no_panic : no_panic btc_synced_height;
  forget_unconfirmed_no_panic : no_panic btc_forget_unconfirmed;
  prefetch_no_panic : forall txids tip, no_panic (btc_prefetch_confirmations txids tip);
  lookup_confirmation_no_panic : forall txid, no_panic (btc_lookup_confirmation txid);
  lookup_mined_no_panic : forall txids, no_panic (btc_lookup_mined txids);
  outpoint_states_no_panic : forall os tip b, no_panic (btc_lookup_outpoint_states os tip b);
  (** After a prefetch that succeeded, the asked txids are answered without the node. *)
  prefetch_answers : forall txids tip c c', btc_prefetch_confirmations txids tip c = (Ok tt, c') ->
    forall t, t ∈ txids -> exists a, btc_lookup_confirmation t c' = (Ok a, c');
  (** A successful outpoint lookup answers exactly the asked outpoints. *)
  outpoint_states_dom : forall os tip b c m c',
    btc_lookup_outpoint_states os tip b c = (Ok m, c') -> dom m = list_to_set os;
}.

(** ** The client *)

Record BtcRpcClient := mkBtcRpcClient {
  required_confirmations : Z;
  confirmation_cache : gmap Txid (option BtcConfirmation);
  network : Network;
  max_tip_age : Z;
  txindex_checked : bool;
}.

Definition btc_client_new (required : Z) (net : Network) (max_age : Z) : BtcRpcClient :=
  mkBtcRpcClient required ∅ net max_age false.

Definition with_cache (self : BtcRpcClient) (cache : gmap Txid (option BtcConfirmation))
    : BtcRpcClient :=
  mkBtcRpcClient (required_confirmations self) cache (network self) (max_tip_age self)
    (txindex_checked self).

Definition with_txindex_checked (self : BtcRpcClient) : BtcRpcClient :=
  mkBtcRpcClient (required_confirmations self) (confirmation_cache self) (network self)
    (max_tip_age self) true.

Definition ensure_synced {S} (self : BlockchainInfo) (network : Network) (max_tip_age : Z)
    (now : UnixSeconds) : M S BtcError unit :=
  _ ← ensure (bool_decide (chain self = to_core_arg network)) (WrongChain (chain self));
  _ ← ensure (negb (initialblockdownload self) && (chain_headers self <=? blocks self)) NotSynced;
  ensure (sat_sub now (tip_time self) <=? max_tip_age) TipTooOld.

Section client.
Context `{BN : BtcNode}.

Definition Client : Type := BtcRpcClient * World.
Definition client (A : Type) : Type := M Client BtcError A.

Definition on_world {A} (m : rpc A) : client A := zoom snd (fun w s => (s.1, w)) m.
Definition on_cache (f : gmap Txid (option BtcConfirmation) -> gmap Txid (option BtcConfirmation))
    : client unit :=
  modify (fun s => (with_cache s.1 (f (confirmation_cache s.1)), s.2)).
Definition read_clock : rpc UnixSeconds := fun w => let '(t, w) := clock w in (Ok t, w).
Definition now_timestamp_secs : client UnixSeconds := on_world read_clock.

Definition ensure_txindex (index_info : Value) : client unit :=
  index ← on_world (from_option (value_get "txindex" index_info) NoTxindex);
  synced ← on_world (from_option (v ← value_get "synced" index; as_bool v) NoTxindexSynced);
  ensure synced TxindexBuilding.

Definition check_txindex : client unit :=
  response ← on_world (call GetIndexInfo);
  match error_code response with
  | Some code => if code =? -32601 then mret tt else throw (RpcFailed code)
  | None =>
      v ← on_world (from_option (result response) MissingResult);
      ensure_txindex v
  end.

Definition synced_height : client Z :=
  response ← on_world (call GetBlockchainInfo);
  v ← on_world (result_of response);
  info ← on_world (from_option (decode_blockchain_info v) UnparsableResult);
  now ← now_timestamp_secs;
  self ← read fst;
  _ ← ensure_synced info (network self) (max_tip_age self) now;
  _ ← (if negb (txindex_checked self) then
         _ ← check_txindex;
         modify (fun s => (with_txindex_checked s.1, s.2))
       else mret tt);
  mret (blocks info).

Definition forget_unconfirmed : client unit :=
  on_cache (filter (fun e => is_Some e.2)).

Definition prefetch_confirmations (txids : list Txid) (tip_height : Z) : client unit :=
  self ← read fst;
  let missing :=
    List.filter (fun t => match confirmation_cache self !! t with
                          | Some (Some _) => false | _ => true end) txids in
  outcome ← on_world (lookup_confirmations (required_confirmations self) missing tip_height);
  _ ← on_cache (fun cache => filter (fun e => e.1 ∈ txids) (confirmations outcome ∪ cache));
  match lookup_error outcome with
  | None => mret tt
  | Some e => throw e
  end.

Definition lookup_confirmation (txid : Txid) : client (option BtcConfirmation) :=
  self ← read fst;
  match confirmation_cache self !! txid with
  | Some answer => mret answer
  | None =>
      tip_height ← synced_height;
      answer ← on_world (transport_lookup_confirmation (required_confirmations self) txid tip_height);
      _ ← on_cache (<[txid := answer]>);
      mret answer
  end.

(** The mined transactions of one batch's answers. *)
Definition mined_txids (answers : gmap Txid (option MinedTx)) : gset Txid :=
  dom (filter (fun e => is_Some e.2) answers).

Definition lookup_mined (txids : list Txid) : client (gset Txid) :=
  if bool_decide (txids = []) then mret ∅
  else
    _ ← synced_height;
    foldM (fun mined batch => answers ← on_world (mined_batch batch);
                              mret (mined ∪ mined_txids answers))
      (chunks HTTP_JSON_RPC_BATCH_SIZE txids) ∅.

(** The first loop: an output that does not exist is missing, the others are looked up. *)
Definition existing_outputs (answers : gmap Txid (option BtcConfirmation))
    (acc : gmap OutPoint OutpointState * list (OutPoint * UnixSeconds)) (outpoint : OutPoint)
    : client (gmap OutPoint OutpointState * list (OutPoint * UnixSeconds)) :=
  confirmation ← on_world (from_option (answers !! outpoint.1) (MissingLookupResult outpoint.1));
  match confirmation with
  | Some c =>
      if outpoint.2 <? Z.of_nat (length (conf_outputs c))
      then mret (acc.1, acc.2 ++ [(outpoint, block_time c)])
      else mret (<[outpoint := Missing]> acc.1, acc.2)
  | None => mret (<[outpoint := Missing]> acc.1, acc.2)
  end.

Definition spent_or_unspent (unspent : gmap OutPoint bool)
    (states : gmap OutPoint OutpointState) (e : OutPoint * UnixSeconds)
    : client (gmap OutPoint OutpointState) :=
  match unspent !! e.1 with
  | Some true => mret (<[e.1 := Unspent e.2]> states)
  | Some false => mret (<[e.1 := Spent]> states)
  | None => throw (MissingTxOutResult e.1)
  end.

Definition lookup_outpoint_states (outpoints : list OutPoint) (tip_height : Z)
    (include_mempool : bool) : client (gmap OutPoint OutpointState) :=
  self ← read fst;
  let txids : gset Txid := list_to_set outpoints.*1 in
  outcome ← on_world (lookup_confirmations (required_confirmations self) (elements txids) tip_height);
  match lookup_error outcome with
  | Some e => throw e
  | None =>
      '(states, existing) ← foldM (existing_outputs (confirmations outcome)) outpoints (∅, []);
      unspent ← on_world (lookup_unspent existing.*1 include_mempool);
      foldM (spent_or_unspent unspent) existing states
  end.

#[export] Instance client_lookups : BtcLookups Client := {|
  btc_synced_height := synced_height;
  btc_forget_unconfirmed := forget_unconfirmed;
  btc_prefetch_confirmations := prefetch_confirmations;
  btc_lookup_confirmation := lookup_confirmation;
  btc_lookup_mined := lookup_mined;
  btc_lookup_outpoint_states := lookup_outpoint_states;
|}.

(** ** No panics *)

Lemma no_panic_on_world {A} (m : rpc A) : no_panic m -> no_panic (on_world m).
Proof.
  intros Hm s s'. unfold on_world, zoom. destruct (m s.2) as [r w] eqn:E. intros [= -> _].
  by apply Hm in E.
Qed.
Hint Resolve no_panic_on_world no_panic_from_option post_json_no_panic result_of_no_panic
  lookup_unspent_no_panic : hashi.

Lemma on_world_Ok {A} (m : rpc A) s a s' :
  on_world m s = (Ok a, s') <-> m s.2 = (Ok a, s'.2) /\ s'.1 = s.1.
Proof.
  unfold on_world, zoom. destruct (m s.2) as [r w], s' as [k w']. cbn. split.
  - by intros [= -> <- <-].
  - by intros [[= -> ->] ->].
Qed.

Lemma call_no_panic m : no_panic (call m).
Proof. apply no_panic_bind; eauto with hashi. Qed.
Hint Resolve call_no_panic : hashi.

Lemma lookup_confirmations_no_panic required txids tip :
  no_panic (lookup_confirmations required txids tip).
Proof.
  intros w w' H. destruct (lookup_confirmations_run required txids tip w (fun _ _ => True))
    as (o & w1 & Ho & _); [done|]. by rewrite H in Ho.
Qed.
Hint Resolve lookup_confirmations_no_panic : hashi.

Lemma mined_batch_no_panic txids : no_panic (mined_batch txids).
Proof. apply read_batch_no_panic, read_transaction_no_panic. Qed.
Hint Resolve mined_batch_no_panic : hashi.

Lemma client_synced_height_no_panic : no_panic synced_height.
Proof.
  unfold synced_height, now_timestamp_secs, ensure_synced, check_txindex, ensure_txindex.
  assert (no_panic read_clock) as Hclock.
  { intros w w'. unfold read_clock. by destruct (clock w). }
  repeat (apply no_panic_bind; [eauto 6 with hashi|intros ?]); [|apply no_panic_ret].
  destruct (negb _); [|apply no_panic_ret].
  apply no_panic_bind; [|eauto with hashi]. apply no_panic_bind; [eauto with hashi|]. intros r.
  destruct (error_code r); [case_match; eauto with hashi|]. eauto 8 with hashi.
Qed.
Hint Resolve client_synced_height_no_panic : hashi.

Lemma client_prefetch_no_panic txids tip : no_panic (prefetch_confirmations txids tip).
Proof.
  apply no_panic_bind; [eauto with hashi|]. intros self.
  apply no_panic_bind; [eauto with hashi|]. intros o.
  apply no_panic_bind; [apply no_panic_modify|]. intros _. destruct (lookup_error o); eauto with hashi.
Qed.

Lemma client_lookup_confirmation_no_panic txid : no_panic (lookup_confirmation txid).
Proof.
  apply no_panic_bind; [eauto with hashi|]. intros self.
  destruct (confirmation_cache self !! txid); [eauto with hashi|].
  apply no_panic_bind; [eauto with hashi|]. intros tip. apply no_panic_bind.
  { apply no_panic_on_world, no_panic_bind; [apply lookup_confirmation_batch_no_panic|eauto with hashi]. }
  intros a. apply no_panic_bind; [apply no_panic_modify|eauto with hashi].
Qed.

Lemma client_lookup_mined_no_panic txids : no_panic (lookup_mined txids).
Proof. unfold lookup_mined. case_bool_decide; eauto 10 with hashi. Qed.

Lemma client_outpoint_states_no_panic os tip b : no_panic (lookup_outpoint_states os tip b).
Proof.
  apply no_panic_bind; [eauto with hashi|]. intros self.
  apply no_panic_bind; [eauto with hashi|]. intros o. destruct (lookup_error o); [eauto with hashi|].
  apply no_panic_bind.
  { apply no_panic_foldM. intros acc x. apply no_panic_bind; [eauto with hashi|].
    intros [c|]; [case_match|]; eauto with hashi. }
  intros [states existing]. apply no_panic_bind; [eauto with hashi|]. intros u.
  apply no_panic_foldM. intros acc e. unfold spent_or_unspent.
  destruct (u !! e.1) as [[|]|]; eauto with hashi.
Qed.

(** ** The confirmation cache *)

(** What a prefetch leaves in the cache. *)
Lemma prefetch_cache txids tip s r s' :
  prefetch_confirmations txids tip s = (r, s') ->
  (forall t a, confirmation_cache s'.1 !! t = Some a -> t ∈ txids)
  /\ (forall t c, t ∈ txids -> confirmation_cache s.1 !! t = Some (Some c) ->
        confirmation_cache s'.1 !! t = Some (Some c))
  /\ (r = Ok tt -> forall t, t ∈ txids -> exists a, confirmation_cache s'.1 !! t = Some a).
Proof.
  intros Hp. unfold prefetch_confirmations in Hp. unfold mbind at 1, M_bind at 1 in Hp. cbn [read] in Hp.
  set (missing := List.filter _ txids) in Hp.
  destruct (lookup_confirmations_run (required_confirmations s.1) missing tip s.2 (fun _ _ => True))
    as (o & w' & Ho & H1 & H2 & _); [done|].
  unfold mbind at 1, M_bind at 1 in Hp. unfold on_world, zoom in Hp. rewrite Ho in Hp.
  unfold mbind, M_bind in Hp. cbn [on_cache modify fst snd] in Hp.
  set (cache' := filter _ (confirmations o ∪ confirmation_cache s.1)) in Hp.
  assert (s' = (with_cache s.1 cache', w') /\ (r = Ok tt -> lookup_error o = None)) as [-> Hr].
  { destruct (lookup_error o); cbn in Hp; injection Hp as <- <-; by split. }
  cbn [fst snd with_cache confirmation_cache].
  assert (forall t a, cache' !! t = Some a <->
            (confirmations o ∪ confirmation_cache s.1) !! t = Some a /\ t ∈ txids) as Hc.
  { intros t a. unfold cache'. by rewrite map_lookup_filter_Some. }
  assert (forall t c, confirmation_cache s.1 !! t = Some (Some c) -> confirmations o !! t = None) as Hnew.
  { intros t c Ht. destruct (confirmations o !! t) as [a|] eqn:Ha; [|done].
    apply H1 in Ha as [Hin _]. unfold missing in Hin. apply elem_of_bool_filter in Hin as [_ Hin].
    by rewrite Ht in Hin. }
  split_and!.
  - intros t a Ht. by apply Hc in Ht as [_ ?].
  - intros t c Hin Ht. apply Hc. split; [|done]. rewrite lookup_union_r; [done|]. by eapply Hnew.
  - intros Hok t Hin. specialize (H2 (Hr Hok)).
    assert (exists a, (confirmations o ∪ confirmation_cache s.1) !! t = Some a) as [a Ha].
    { destruct (decide (t ∈ missing)) as [Hm|Hm].
      - destruct (dom_list_lookup _ _ _ H2 Hm) as [a Ha]. exists a. by apply lookup_union_Some_l.
      - unfold missing in Hm. rewrite elem_of_bool_filter in Hm.
        destruct (confirmation_cache s.1 !! t) as [[c|]|] eqn:Ht; try (exfalso; by apply Hm).
        exists (Some c). rewrite lookup_union_r; [done|]. by eapply Hnew. }
    exists a. by apply Hc.
Qed.

Lemma lookup_cached t s a :
  confirmation_cache s.1 !! t = Some a -> lookup_confirmation t s = (Ok a, s).
Proof. intros Ht. unfold lookup_confirmation, mbind, M_bind. cbn. by rewrite Ht. Qed.

(** The confirmation cache.  After a prefetch that succeeds, the cache holds an answer for
    exactly the asked txids, each of them is answered from it without the node and without
    a change, and a confirmation that was already cached is the answer.  After a prefetch
    that fails, the cache still holds nothing but asked txids, and no confirmation of an
    asked txid is lost. *)
Theorem prefetch_serves_lookups txids tip s r s' :
  prefetch_confirmations txids tip s = (r, s') ->
  r <> Panic
  /\ (forall t a, confirmation_cache s'.1 !! t = Some a -> t ∈ txids)
  /\ (forall t c, t ∈ txids -> confirmation_cache s.1 !! t = Some (Some c) ->
        confirmation_cache s'.1 !! t = Some (Some c))
  /\ (r = Ok tt -> forall t, t ∈ txids -> exists a, confirmation_cache s'.1 !! t = Some a
        /\ lookup_confirmation t s' = (Ok a, s')).
Proof.
  intros Hp. destruct (prefetch_cache txids tip s r s' Hp) as (H1 & H2 & H3).
  split_and!; [intros ->; by apply client_prefetch_no_panic in Hp|done|done|].
  intros Hr t Ht. destruct (H3 Hr t Ht) as [a Ha]. exists a. split; [done|]. by apply lookup_cached.
Qed.

(** ** Outpoint states *)

(** The block time of an output that exists. *)
Definition exists_at (answers : gmap Txid (option BtcConfirmation)) (o : OutPoint) : option UnixSeconds :=
  match answers !! o.1 with
  | Some (Some c) => if o.2 <? Z.of_nat (length (conf_outputs c)) then Some (block_time c) else None
  | _ => None
  end.

Lemma existing_outputs_Ok answers os : forall acc s acc' s',
  foldM (existing_outputs answers) os acc s = (Ok acc', s') ->
  s' = s /\ acc'.2 = acc.2 ++ omap (fun o => (o,.) <$> exists_at answers o) os
  /\ forall o, acc'.1 !! o = if bool_decide (o ∈ os /\ exists_at answers o = None) then Some Missing
                             else acc.1 !! o.
Proof.
  induction os as [|o os IH]; intros acc s acc' s' H; cbn [foldM] in H; inv_M.
  { split_and!; [done|by rewrite app_nil_r|]. intros o. rewrite bool_decide_false; [done|].
    by intros [?%elem_of_nil _]. }
  assert (s0 = s /\ v = match exists_at answers o with
                       | Some bt => (acc.1, acc.2 ++ [(o, bt)])
                       | None => (<[o := Missing]> acc.1, acc.2) end) as [-> ->].
  { unfold existing_outputs in E. inv_M. apply on_world_Ok in E0 as [[Ha Hs2]%from_option_Ok Hs1].
    assert (s1 = s) as -> by (destruct s, s1; cbn in *; congruence). unfold exists_at. rewrite Ha.
    destruct v0 as [c|]; [|by inv_M]. destruct (o.2 <? _); by inv_M. }
  apply IH in H as (-> & He & Hst). split; [done|]. cbn [omap list_omap].
  destruct (exists_at answers o) as [bt|] eqn:Hx; cbn in *; (split; [rewrite He; by rewrite <- ?app_assoc|]);
    intros o'; rewrite Hst.
  - apply (f_equal (fun b : bool => if b then _ else _)). apply bool_decide_ext. set_solver.
  - destruct (decide (o' = o)) as [->|Hne].
    + rewrite lookup_insert_eq, (bool_decide_true (o ∈ o :: os /\ _)) by set_solver. by case_match.
    + rewrite lookup_insert_ne by done. apply (f_equal (fun b : bool => if b then _ else _)).
      apply bool_decide_ext. set_solver.
Qed.

Lemma spent_or_unspent_Ok unspent l : forall states s m s',
  foldM (spent_or_unspent unspent) l states s = (Ok m, s') ->
  s' = s /\ (forall o, o ∉ l.*1 -> m !! o = states !! o)
  /\ (forall o, o ∈ l.*1 -> exists bt u, (o, bt) ∈ l /\ unspent !! o = Some u
        /\ m !! o = Some (if u : bool then Unspent bt else Spent)).
Proof.
  induction l as [|[o bt] l IH]; intros states s m s' H; cbn [foldM] in H; inv_M.
  { split_and!; [done..|]. by intros o ?%elem_of_nil. }
  unfold spent_or_unspent in E. cbn [fst snd] in E.
  assert (exists u, unspent !! o = Some u /\ s0 = s
            /\ v = <[o := if u : bool then Unspent bt else Spent]> states) as (u & Hu & -> & ->).
  { destruct (unspent !! o) as [[|]|]; inv_M; eauto. }
  apply IH in H as (-> & Hn & Hin). split; [done|]. split.
  - intros o' Ho'. rewrite Hn by set_solver. apply lookup_insert_ne. set_solver.
  - intros o' Ho'. destruct (decide (o' ∈ l.*1)) as [Hl|Hl].
    + destruct (Hin o' Hl) as (bt' & u' & ? & ? & ?). exists bt', u'. split_and!; try done. by right.
    + assert (o' = o) as -> by set_solver. exists bt, u. split_and!; [left|done|].
      rewrite Hn by done. apply lookup_insert_eq.
Qed.

Lemma outpoint_states_spec os tip b s m s' :
  lookup_outpoint_states os tip b s = (Ok m, s') ->
  dom m = list_to_set os /\ s'.1 = s.1
  /\ exists answers w existing unspent,
       lookup_confirmations (required_confirmations s.1) (elements (list_to_set os.*1 : gset Txid)) tip s.2
         = (Ok (mkLookupOutcome answers None), w)
       /\ lookup_unspent existing b w = (Ok unspent, s'.2)
       /\ (forall o, o ∈ existing <-> o ∈ os /\ is_Some (exists_at answers o))
       /\ forall o, o ∈ os -> m !! o = Some (match exists_at answers o, unspent !! o with
                                            | None, _ => Missing
                                            | Some bt, Some true => Unspent bt
                                            | Some _, _ => Spent
                                            end).
Proof.
  unfold lookup_outpoint_states. intros H. inv_M. set (txids := elements _) in *.
  apply on_world_Ok in E0 as [Ho Hs1]. destruct v0 as [answers [e|]]; cbn [lookup_error confirmations] in H; [done|].
  apply M_bind_Ok in H as ([states existing] & s2 & He & H). inv_M.
  apply existing_outputs_Ok in He as (-> & Hex & Hst). cbn in Hex, Hst.
  apply on_world_Ok in E as [Hu Hs2]. apply spent_or_unspent_Ok in H as (-> & Hn & Hin).
  assert (forall o, o ∈ existing.*1 <-> o ∈ os /\ is_Some (exists_at answers o)) as Hexist.
  { intros o. rewrite Hex, list_elem_of_fmap. split.
    - intros ([o' bt] & -> & (o'' & Ho'' & Heq)%list_elem_of_omap).
      destruct (exists_at answers o'') eqn:E; [|done]. cbn in Heq. injection Heq as -> ->. cbn. by rewrite E.
    - intros [Ho' [bt Hbt]]. exists (o, bt). split; [done|]. apply list_elem_of_omap. exists o.
      split; [done|]. by rewrite Hbt. }
  assert (forall o bt, (o, bt) ∈ existing -> exists_at answers o = Some bt) as Hbt.
  { intros o bt. rewrite Hex. intros (o' & _ & Heq)%list_elem_of_omap.
    destruct (exists_at answers o') eqn:E; [|done]. cbn in Heq. injection Heq as <- <-. done. }
  assert (forall o, o ∈ os -> m !! o = Some (match exists_at answers o, v !! o with
            | None, _ => Missing | Some bt, Some true => Unspent bt | Some _, _ => Spent end)) as Hm.
  { intros o Hos. destruct (decide (o ∈ existing.*1)) as [Hl|Hl].
    - destruct (Hin o Hl) as (bt & u & Hb & Hu' & ->). rewrite (Hbt _ _ Hb), Hu'. by destruct u.
    - rewrite (Hn o Hl), Hst. destruct (exists_at answers o) eqn:E; [exfalso; apply Hl, Hexist; by rewrite E|].
      by rewrite bool_decide_true. }
  split_and!; [|congruence|].
  - apply set_eq. intros o. rewrite elem_of_list_to_set. split; [|intros Hos; apply elem_of_dom; rewrite Hm; eauto].
    intros [st Hst']%elem_of_dom. destruct (decide (o ∈ os)) as [|Hos]; [done|]. exfalso.
    rewrite Hn, Hst, bool_decide_false in Hst'; [by rewrite lookup_empty in Hst'|by intros [? _]|].
    rewrite Hexist. by intros [? _].
  - exists answers, s1.2, existing.*1, v. split_and!; [|done|done|done].
    rewrite Ho. done.
Qed.

(** Computations that leave the client's own fields alone. *)
Definition keeps_client {A} (m : client A) : Prop := forall s, (m s).2.1 = s.1.

Lemma keeps_ret {A} (a : A) : keeps_client (mret a).
Proof. done. Qed.
Lemma keeps_read {A} (f : Client -> A) : keeps_client (read f).
Proof. done. Qed.
Lemma keeps_throw {A} e : keeps_client (A := A) (throw e).
Proof. done. Qed.
Lemma keeps_on_world {A} (m : rpc A) : keeps_client (on_world m).
Proof. intros s. unfold on_world, zoom. by destruct (m s.2). Qed.
Lemma keeps_bind {A B} (m : client A) (f : A -> client B) :
  keeps_client m -> (forall a, keeps_client (f a)) -> keeps_client (m ≫= f).
Proof.
  intros Hm Hf s. unfold mbind, M_bind. specialize (Hm s). destruct (m s) as [[a|e|] s1]; cbn in *; [|done..].
  by rewrite Hf.
Qed.
Lemma keeps_foldM {A B} (f : B -> A -> client B) l :
  (forall b a, keeps_client (f b a)) -> forall acc, keeps_client (foldM f l acc).
Proof.
  intros Hf. induction l as [|x l IH]; intros acc; cbn; [done|]. by apply keeps_bind.
Qed.
Hint Resolve keeps_ret keeps_read keeps_throw keeps_on_world keeps_bind keeps_foldM : hashi.

Lemma lookup_outpoint_states_keeps os tip b : keeps_client (lookup_outpoint_states os tip b).
Proof.
  apply keeps_bind; [eauto with hashi|]. intros self.
  apply keeps_bind; [eauto with hashi|]. intros o. destruct (lookup_error o); [eauto with hashi|].
  apply keeps_bind.
  { apply keeps_foldM. intros acc x. apply keeps_bind; [eauto with hashi|].
    intros [c|]; [case_match|]; eauto with hashi. }
  intros [states existing]. apply keeps_bind; [eauto with hashi|]. intros u.
  apply keeps_foldM. intros acc e. unfold spent_or_unspent.
  destruct (u !! e.1) as [[|]|]; eauto with hashi.
Qed.

(** The states of outpoints.  A lookup that succeeds answers exactly the asked outpoints.
    One confirmation lookup and one look at the UTXO set decide every state: an outpoint is
    missing if its transaction is not confirmed at the captured height or has no such
    output, otherwise it is unspent, with the time of its block, if the UTXO set holds it
    and spent if not.  It never panics, and whatever its result the client's cache is
    untouched. *)
Theorem outpoint_states_exact os tip b s r s' :
  lookup_outpoint_states os tip b s = (r, s') ->
  r <> Panic /\ s'.1 = s.1 /\ forall m, r = Ok m -> dom m = list_to_set os
  /\ exists answers w existing unspent,
       lookup_confirmations (required_confirmations s.1) (elements (list_to_set os.*1 : gset Txid)) tip s.2
         = (Ok (mkLookupOutcome answers None), w)
       /\ lookup_unspent existing b w = (Ok unspent, s'.2)
       /\ (forall o, o ∈ existing <-> o ∈ os /\ is_Some (exists_at answers o))
       /\ forall o, o ∈ os -> m !! o = Some (match exists_at answers o, unspent !! o with
                                            | None, _ => Missing
                                            | Some bt, Some true => Unspent bt
                                            | Some _, _ => Spent
                                            end).
Proof.
  intros H. split_and!.
  - intros ->. by apply client_outpoint_states_no_panic in H.
  - pose proof (lookup_outpoint_states_keeps os tip b s) as Hk. by rewrite H in Hk.
  - intros m ->. by apply outpoint_states_spec in H as (? & _ & ?).
Qed.

(** ** The client implements the interface *)

#[export] Instance client_lookups_ok : BtcLookupsOk Client.
Proof.
  split; cbn; try typeclasses eauto.
  - apply client_synced_height_no_panic.
  - apply no_panic_modify.
  - apply client_prefetch_no_panic.
  - apply client_lookup_confirmation_no_panic.
  - apply client_lookup_mined_no_panic.
  - apply client_outpoint_states_no_panic.
  - intros txids tip c c' Hp t Ht. destruct (prefetch_cache _ _ _ _ _ Hp) as (_ & _ & H).
    destruct (H eq_refl t Ht) as [a Ha]. exists a. by apply lookup_cached.
  - intros os tip b c m c' H. by apply outpoint_states_spec in H as [? _].
Qed.
End client.

(** ** Witnesses on the small chain *)

Module SmallClient.
Import SmallChain.

Definition fresh_client : Client := (btc_client_new 2 Regtest 100, 0%nat : World).

Lemma prefetch_serves_lookups_witness :
  exists s', prefetch_confirmations [2; 1; 7] 1 fresh_client = (Ok tt, s')
    /\ exists a, lookup_confirmation 1 s' = (Ok a, s').
Proof.
  eexists. split; [vm_compute; reflexivity|].
  match goal with |- exists a, lookup_confirmation _ ?s = _ =>
    destruct (prefetch_serves_lookups [2; 1; 7] 1 fresh_client (Ok tt) s) as (_ & _ & _ & H) end.
  { vm_compute. reflexivity. }
  destruct (H eq_refl 1) as (a & _ & Ha); [do 2 constructor|]. exists a. exact Ha.
Defined.

Definition shallow_client : Client := (btc_client_new 1 Regtest 100, 0%nat : World).

(** Output 1:0 is spent by transaction 2, output 2:0 is unspent and 9:0 does not exist. *)
Lemma outpoint_states_exact_witness :
  exists m s', lookup_outpoint_states [(1, 0); (2, 0); (9, 0)] 1 false shallow_client = (Ok m, s')
    /\ s'.1 = shallow_client.1 /\ m !! (1, 0) = Some Spent /\ m !! (9, 0) = Some Missing.
Proof.
  eexists _, _. split; [vm_compute; reflexivity|].
  match goal with |- ?s'.1 = _ /\ ?m !! _ = _ /\ _ =>
    destruct (outpoint_states_exact [(1, 0); (2, 0); (9, 0)] 1 false shallow_client (Ok m) s') as (_ & Hs & _)
  end; [vm_compute; reflexivity|].
  split; [exact Hs|]. split; reflexivity.
Defined.
End SmallClient.
