(* ===== verification/Auditor.v ===== *)
(** * The auditor

    [crates/hashi-monitor/src/audit]: the state the monitor keeps and the ticks that change
    it.  The Bitcoin client is any implementation of [BtcLookups]; the answers of the Sui
    node, of the guardian's log and of the snapshot store, and the readings of the clock,
    are arguments of the tick that asks for them.  Log lines are not modelled; the findings
    a tick logs and those it counts as alerts are.

    A [HashMap] is a finite map, and an iteration over it visits its entries in the order of
    [map_to_list]. *)

From S2P Require Import Prelude MonitorDomain WithdrawalMachine DepositMachine MonitorPool GuardianCursor BtcTransport BtcClient.

(** ** Constants, in seconds *)

Definition SNAPSHOT_SAVE_INTERVAL : Z := 60 * 60.
Definition SNAPSHOT_STALE_LIMIT : Z := 12 * 60 * 60.
Definition UTXO_CHECK_INTERVAL : Z := 24 * 60 * 60.
Definition SOURCE_STALE_LIMIT : Z := 3 * 60 * 60.
Definition DELAY_END_MARGIN : Z := 2 * 60.
Definition HBTC_SUPPLY_GRACE : Z := SOURCE_STALE_LIMIT.

Definition SOURCE_SUI : string := "sui".
Definition SOURCE_GUARDIAN : string := "guardian".
Definition SOURCE_BTC : string := "btc".
Definition SOURCE_UTXO : string := "utxo".
Definition SOURCE_HBTC_SUPPLY : string := "hbtc_supply".

(** ** State *)

Record RpcPollers {C : Type} := mkRpcPollers {
  sui_next_checkpoint : Z;
  sui_read_until : UnixSeconds;
  guardian_cursor : GuardianCursor;
  btc_client : C;
  btc_checked_through : UnixSeconds;
  deposit_delay_secs : Z;
}.
Arguments RpcPollers : clear implicits.
Arguments mkRpcPollers {C}.

(** The findings logged, and those recorded as alerts. *)
Record Reports := mkReports { logged : list MonitorFinding; alerted : list MonitorFinding }.

Record Auditor {C : Type} := mkAuditor {
  cfg_timing : Timing;
  cfg_alert_mode : AlertMode;
  pending_withdrawals : gmap WithdrawalID WithdrawalStateMachine;
  pending_deposits : gmap Address DepositStateMachine;
  utxo_pool : UtxoPool;
  suspect_spends : gmap OutPoint SuspectSpend;
  fresh_approvals : gmap OutPoint SuiDepositApprovedEvent;
  rpc_pollers : RpcPollers C;
  last_successful_pool_check : option UnixSeconds;
  started_at : UnixSeconds;
  last_snapshot_save : UnixSeconds;
  hbtc_supply_above_pool_since : option UnixSeconds;
  last_hbtc_supply_read : UnixSeconds;
  reports : Reports;
}.
Arguments Auditor : clear implicits.
Arguments mkAuditor {C}.

(** What the snapshot keeps apart from the pool ([store.rs]). *)
Record AuditState := mkAuditState {
  as_sui_next_checkpoint : Z;
  as_guardian_cursor : GuardianCursor;
  as_withdrawals : list WithdrawalStateMachine;
  as_deposits : list DepositStateMachine;
  as_suspect_spends : list (OutPoint * SuspectSpend);
  as_hbtc_supply_above_pool_since : option UnixSeconds;
}.

Section auditor.
Context {C : Type} `{BL : BtcLookups C}.

Abbreviation auditor := (Auditor C).
Definition audit (A : Type) : Type := M auditor BtcError A.

(** ** Field updates *)

Definition set_withdrawals (x : gmap WithdrawalID WithdrawalStateMachine) (a : auditor) : auditor :=
  mkAuditor (cfg_timing a) (cfg_alert_mode a) x (pending_deposits a) (utxo_pool a)
    (suspect_spends a) (fresh_approvals a) (rpc_pollers a) (last_successful_pool_check a)
    (started_at a) (last_snapshot_save a) (hbtc_supply_above_pool_since a)
    (last_hbtc_supply_read a) (reports a).
Definition set_deposits (x : gmap Address DepositStateMachine) (a : auditor) : auditor :=
  mkAuditor (cfg_timing a) (cfg_alert_mode a) (pending_withdrawals a) x (utxo_pool a)
    (suspect_spends a) (fresh_approvals a) (rpc_pollers a) (last_successful_pool_check a)
    (started_at a) (last_snapshot_save a) (hbtc_supply_above_pool_since a)
    (last_hbtc_supply_read a) (reports a).
Definition set_pool (x : UtxoPool) (a : auditor) : auditor :=
  mkAuditor (cfg_timing a) (cfg_alert_mode a) (pending_withdrawals a) (pending_deposits a) x
    (suspect_spends a) (fresh_approvals a) (rpc_pollers a) (last_successful_pool_check a)
    (started_at a) (last_snapshot_save a) (hbtc_supply_above_pool_since a)
    (last_hbtc_supply_read a) (reports a).
Definition set_suspects (x : gmap OutPoint SuspectSpend) (a : auditor) : auditor :=
  mkAuditor (cfg_timing a) (cfg_alert_mode a) (pending_withdrawals a) (pending_deposits a)
    (utxo_pool a) x (fresh_approvals a) (rpc_pollers a) (last_successful_pool_check a)
    (started_at a) (last_snapshot_save a) (hbtc_supply_above_pool_since a)
    (last_hbtc_supply_read a) (reports a).
Definition set_fresh (x : gmap OutPoint SuiDepositApprovedEvent) (a : auditor) : auditor :=
  mkAuditor (cfg_timing a) (cfg_alert_mode a) (pending_withdrawals a) (pending_deposits a)
    (utxo_pool a) (suspect_spends a) x (rpc_pollers a) (last_successful_pool_check a)
    (started_at a) (last_snapshot_save a) (hbtc_supply_above_pool_since a)
    (last_hbtc_supply_read a) (reports a).
Definition set_pollers (x : RpcPollers C) (a : auditor) : auditor :=
  mkAuditor (cfg_timing a) (cfg_alert_mode a) (pending_withdrawals a) (pending_deposits a)
    (utxo_pool a) (suspect_spends a) (fresh_approvals a) x (last_successful_pool_check a)
    (started_at a) (last_snapshot_save a) (hbtc_supply_above_pool_since a)
    (last_hbtc_supply_read a) (reports a).
Definition set_pool_check (x : option UnixSeconds) (a : auditor) : auditor :=
  mkAuditor (cfg_timing a) (cfg_alert_mode a) (pending_withdrawals a) (pending_deposits a)
    (utxo_pool a) (suspect_spends a) (fresh_approvals a) (rpc_pollers a) x
    (started_at a) (last_snapshot_save a) (hbtc_supply_above_pool_since a)
    (last_hbtc_supply_read a) (reports a).
Definition set_snapshot_save (x : UnixSeconds) (a : auditor) : auditor :=
  mkAuditor (cfg_timing a) (cfg_alert_mode a) (pending_withdrawals a) (pending_deposits a)
    (utxo_pool a) (suspect_spends a) (fresh_approvals a) (rpc_pollers a)
    (last_successful_pool_check a) (started_at a) x (hbtc_supply_above_pool_since a)
    (last_hbtc_supply_read a) (reports a).
Definition set_supply (since : option UnixSeconds) (read_at : UnixSeconds) (a : auditor) : auditor :=
  mkAuditor (cfg_timing a) (cfg_alert_mode a) (pending_withdrawals a) (pending_deposits a)
    (utxo_pool a) (suspect_spends a) (fresh_approvals a) (rpc_pollers a)
    (last_successful_pool_check a) (started_at a) (last_snapshot_save a) since read_at (reports a).
Definition set_reports (x : Reports) (a : auditor) : auditor :=
  mkAuditor (cfg_timing a) (cfg_alert_mode a) (pending_withdrawals a) (pending_deposits a)
    (utxo_pool a) (suspect_spends a) (fresh_approvals a) (rpc_pollers a)
    (last_successful_pool_check a) (started_at a) (last_snapshot_save a)
    (hbtc_supply_above_pool_since a) (last_hbtc_supply_read a) x.

Definition set_client (c : C) (p : RpcPollers C) : RpcPollers C :=
  mkRpcPollers (sui_next_checkpoint p) (sui_read_until p) (guardian_cursor p) c
    (btc_checked_through p) (deposit_delay_secs p).
Definition set_btc_checked (t : UnixSeconds) (p : RpcPollers C) : RpcPollers C :=
  mkRpcPollers (sui_next_checkpoint p) (sui_read_until p) (guardian_cursor p) (btc_client p)
    t (deposit_delay_secs p).
Definition set_sui (next : Z) (read_until : UnixSeconds) (p : RpcPollers C) : RpcPollers C :=
  mkRpcPollers next read_until (guardian_cursor p) (btc_client p) (btc_checked_through p)
    (deposit_delay_secs p).
Definition set_guardian (cursor : GuardianCursor) (p : RpcPollers C) : RpcPollers C :=
  mkRpcPollers (sui_next_checkpoint p) (sui_read_until p) cursor (btc_client p)
    (btc_checked_through p) (deposit_delay_secs p).

Definition modify_pollers (f : RpcPollers C -> RpcPollers C) : audit unit :=
  modify (fun a => set_pollers (f (rpc_pollers a)) a).

(** A call of the Bitcoin client. *)
Definition on_btc {A} (m : M C BtcError A) : audit A :=
  zoom (fun a => btc_client (rpc_pollers a))
    (fun c a => set_pollers (set_client c (rpc_pollers a)) a) m.

Definition guardian_read_until (p : RpcPollers C) : UnixSeconds := read_until (guardian_cursor p).

Definition cursors (p : RpcPollers C) : Cursors := mkCursors (sui_read_until p) (guardian_read_until p).

(** Log every finding; record those that alert in the configured mode. *)
Definition report_findings (fs : list MonitorFinding) : audit unit :=
  modify (fun a => set_reports
    (mkReports (logged (reports a) ++ fs)
       (alerted (reports a) ++ List.filter (fun f => alerts_in f (cfg_alert_mode a)) fs)) a).

(** ** Fresh approvals *)

Definition is_fresh (self : auditor) (event : SuiDepositApprovedEvent) (now : UnixSeconds) : bool :=
  sat_add now DELAY_END_MARGIN
  <? sat_add (app_timestamp_secs event) (deposit_delay_secs (rpc_pollers self)).

Definition note_fresh_approval (event : SuiDepositApprovedEvent) (now : UnixSeconds) : audit unit :=
  modify (fun a =>
    if is_fresh a event now
    then match fresh_approvals a !! app_deposit_id event with
         | Some _ => a
         | None => set_fresh (<[app_deposit_id event := event]> (fresh_approvals a)) a
         end
    else a).

Definition drop_stale_approvals (now : UnixSeconds) : audit unit :=
  modify (fun a => set_fresh (filter (fun e => is_fresh a e.2 now = true) (fresh_approvals a)) a).

(** Whether the approval stays for the next tick. *)
Definition not_shown (states : gmap OutPoint OutpointState) (o : OutPoint) : bool :=
  match states !! o with Some Spent | Some (Unspent _) => false | Some Missing | None => true end.

Definition judge_fresh_approvals (states : gmap OutPoint OutpointState) (finished : UnixSeconds)
    : audit (list MonitorFinding) :=
  _ ← drop_stale_approvals finished;
  approvals ← read fresh_approvals;
  let findings :=
    omap (fun e => match states !! e.1 with Some Spent => Some (DepositUnbacked e.2) | _ => None end)
      (map_to_list approvals) in
  _ ← modify (fun a => set_fresh (filter (fun e => not_shown states e.1 = true) approvals) a);
  mret findings.

(** [now] is the tick's start, [finished] the clock when the lookup returned. *)
Definition check_fresh_approvals (tip_height : Z) (now finished : UnixSeconds)
    : audit (list MonitorFinding) :=
  _ ← drop_stale_approvals now;
  approvals ← read fresh_approvals;
  if bool_decide (approvals = ∅) then mret []
  else
    states ← on_btc (btc_lookup_outpoint_states (map_to_list approvals).*1 tip_height true);
    judge_fresh_approvals states finished.

(** ** Ingesting events *)

Definition ingest_deposit_request (event : SuiDepositRequestedEvent) : audit (list MonitorFinding) :=
  a ← read id;
  match pending_deposits a !! req_request_id event with
  | Some sm => mret (option_list (add_sui_request sm event))
  | None =>
      _ ← modify (set_deposits
            (<[req_request_id event := deposit_machine_new event]> (pending_deposits a)));
      mret []
  end.

Definition ingest_withdrawal (event : MonitorWithdrawalEvent) : audit (list MonitorFinding) :=
  a ← read id;
  match pending_withdrawals a !! wid event with
  | Some sm =>
      '(fs, sm) ← of_outcome (lift (add_event sm event (cfg_timing a)));
      _ ← modify (set_withdrawals (<[wid event := sm]> (pending_withdrawals a)));
      mret fs
  | None =>
      sm ← of_outcome (lift (machine_new event (cfg_timing a)));
      _ ← modify (set_withdrawals (<[wid event := sm]> (pending_withdrawals a)));
      mret []
  end.

Definition ingest_deposit_approved (event : SuiDepositApprovedEvent) (now : UnixSeconds)
    : audit (list MonitorFinding) :=
  _ ← note_fresh_approval event now;
  a ← read id;
  match pending_deposits a !! app_request_id event with
  | Some sm =>
      let '(fs, sm) := add_sui_approval sm event (cfg_timing a) in
      _ ← modify (set_deposits (<[app_request_id event := sm]> (pending_deposits a)));
      mret fs
  | None =>
      let '(fs, pool) :=
        check_sui_approval (utxo_pool a) event (deposit_approval_skew (cfg_timing a)) in
      _ ← modify (set_pool pool);
      mret fs
  end.

Definition ingest (event : MonitorEvent) (now : UnixSeconds) : audit (list MonitorFinding) :=
  match event with
  | MEWithdrawal e => ingest_withdrawal e
  | MEDepositApproved e => ingest_deposit_approved e now
  | MEDepositRequested e => ingest_deposit_request e
  end.

(** Each event with the clock when it is ingested. *)
Definition ingest_batch (events : list (MonitorEvent * UnixSeconds)) : audit (list MonitorFinding) :=
  findings ← foldM (fun acc e => fs ← ingest e.1 e.2; mret (acc ++ fs)) events [];
  _ ← report_findings findings;
  mret findings.

(** ** Timing and staleness *)

Definition detect_timing_violations (self : auditor) : total (list MonitorFinding) :=
  collect (fun sm => timing_violations sm (cursors (rpc_pollers self)))
    (map_to_list (pending_withdrawals self)).*2.

Definition stale_snapshot (self : auditor) (now : UnixSeconds) : option MonitorFinding :=
  if SNAPSHOT_STALE_LIMIT <? sat_sub now (last_snapshot_save self)
  then Some (SnapshotStale (last_snapshot_save self) SNAPSHOT_STALE_LIMIT) else None.

Definition stale_sources (self : RpcPollers C) (now : UnixSeconds) : list MonitorFinding :=
  (fun s => SourceStale s.1 s.2 SOURCE_STALE_LIMIT) <$>
  List.filter (fun s => SOURCE_STALE_LIMIT <? sat_sub now s.2)
    [(SOURCE_SUI, sui_read_until self); (SOURCE_GUARDIAN, guardian_read_until self);
     (SOURCE_BTC, btc_checked_through self)].

Definition pool_check_due (self : auditor) (now : UnixSeconds) : bool :=
  match last_successful_pool_check self with
  | None => true
  | Some last => UTXO_CHECK_INTERVAL <=? sat_sub now last
  end.

Definition stale_pool_check (self : auditor) (now : UnixSeconds) : option MonitorFinding :=
  let checked_through := default (started_at self) (last_successful_pool_check self) in
  let limit_secs := UTXO_CHECK_INTERVAL + SOURCE_STALE_LIMIT in
  if limit_secs <? sat_sub now checked_through
  then Some (SourceStale SOURCE_UTXO checked_through limit_secs) else None.

Definition stale_hbtc_supply (self : auditor) (now : UnixSeconds) : option MonitorFinding :=
  let checked_through := Z.max (last_hbtc_supply_read self) (started_at self) in
  if SOURCE_STALE_LIMIT <? sat_sub now checked_through
  then Some (SourceStale SOURCE_HBTC_SUPPLY checked_through SOURCE_STALE_LIMIT) else None.

Definition check_timing : audit unit :=
  a ← read id;
  violations ← of_outcome (lift (detect_timing_violations a));
  report_findings violations.

Definition check_staleness (now : UnixSeconds) : audit unit :=
  a ← read id;
  report_findings (stale_sources (rpc_pollers a) now
                   ++ option_list (stale_pool_check a now)
                   ++ option_list (stale_hbtc_supply a now)).

(** ** The hBTC supply *)

Definition judge_hbtc_supply (above_since : option UnixSeconds) (hbtc_supply pool_value : Z)
    (now : UnixSeconds) : option UnixSeconds * option MonitorFinding :=
  if hbtc_supply <=? pool_value then (None, None)
  else
    let since := default now above_since in
    (Some since,
     if HBTC_SUPPLY_GRACE <=? sat_sub now since
     then Some (HbtcSupplyExceedsPool hbtc_supply pool_value since) else None).

(** [supply] is what Sui answers, if the read succeeds at [read_at]; [now] is the clock when
    it is judged. *)
Definition check_hbtc_supply (supply : option Z) (read_at now : UnixSeconds) : audit unit :=
  match supply with
  | None => mret tt
  | Some supply =>
      a ← read id;
      let '(since, finding) :=
        judge_hbtc_supply (hbtc_supply_above_pool_since a) supply (pool_value (utxo_pool a)) now in
      _ ← modify (set_supply since read_at);
      report_findings (option_list finding)
  end.

(** ** Pool maintenance *)

Definition take_closed_deposits : audit (list FinishedDeposit) :=
  a ← read id;
  let closed := filter (fun e => deposit_is_ready_for_gc e.2 = true) (pending_deposits a) in
  _ ← modify (set_deposits
        (filter (fun e => deposit_is_ready_for_gc e.2 = false) (pending_deposits a)));
  mret (omap into_finished (map_to_list closed).*2).

(** The [expect]s of one closed withdrawal. *)
Definition closed_withdrawal (sm : WithdrawalStateMachine) : total (list FinishedWithdrawal) :=
  _ ← expect (get sm E1HashiApproved);
  _ ← expect (get sm E2GuardianApproved);
  _ ← expect (get sm E3BtcConfirmed);
  Ok (option_list (finished sm)).

Definition take_closed_withdrawals : audit (list FinishedWithdrawal) :=
  a ← read id;
  let closed := filter (fun e => is_ready_for_gc e.2 = true) (pending_withdrawals a) in
  _ ← modify (set_withdrawals
        (filter (fun e => is_ready_for_gc e.2 = false) (pending_withdrawals a)));
  foldM (fun acc sm => ws ← of_outcome (lift (closed_withdrawal sm)); mret (acc ++ ws))
    (map_to_list closed).*2 [].

(** Adding the deposits one by one. *)
Fixpoint add_deposits (pool : UtxoPool) (ds : list FinishedDeposit)
    : total (list MonitorFinding * UtxoPool) :=
  match ds with
  | [] => Ok ([], pool)
  | d :: ds =>
      '(fs, pool) ← add_deposit pool d;
      '(fs', pool) ← add_deposits pool ds;
      Ok (fs ++ fs', pool)
  end.

(** The open flows' log line computes [earliest_event_at] of every open withdrawal. *)
Fixpoint log_open_withdrawals (sms : list WithdrawalStateMachine) : total unit :=
  match sms with
  | [] => Ok tt
  | sm :: sms => _ ← earliest_event_at sm; log_open_withdrawals sms
  end.

Definition gc_and_update_pool : audit (list MonitorFinding) :=
  deposits ← take_closed_deposits;
  withdrawals ← take_closed_withdrawals;
  a ← read id;
  '(fs, pool) ← of_outcome (lift (add_deposits (utxo_pool a) deposits));
  '(fs', pool) ← of_outcome (lift (add_withdrawals pool withdrawals));
  _ ← modify (set_pool pool);
  _ ← of_outcome (lift (log_open_withdrawals (map_to_list (pending_withdrawals a)).*2));
  _ ← report_findings (fs ++ fs');
  mret (fs ++ fs').

(** ** Pool checks *)

(** [now] is the clock when the lookups returned. *)
Definition check_utxo_pool (now : UnixSeconds) : audit unit :=
  tip_height ← on_btc btc_synced_height;
  a ← read id;
  states ← on_btc (btc_lookup_outpoint_states (outpoints (utxo_pool a)) tip_height false);
  let '(findings, suspects) := pool_check (utxo_pool a) states now (cfg_timing a) in
  let findings := findings ++ unapproved_past_deadline (utxo_pool a)
                                (sui_read_until (rpc_pollers a)) (cfg_timing a) in
  _ ← modify (fun a => set_suspects (suspect_spends a ∪ suspects) a);
  _ ← report_findings findings;
  modify (set_pool_check (Some now)).

(** An error is logged and the tick goes on. *)
Definition ignore_error (m : audit unit) : audit unit :=
  fun a => match m a with (Err _, a) => (Ok tt, a) | r => r end.

Definition check_utxo_pool_if_due (now now' : UnixSeconds) : audit unit :=
  a ← read id;
  if pool_check_due a now then ignore_error (check_utxo_pool now') else mret tt.

(** One input of one pending withdrawal: the newest claim stands, and a second one is
    reported. *)
Definition claim (sm : WithdrawalStateMachine)
    (acc : gmap OutPoint (WithdrawalID * Txid) * list MonitorFinding) (input : MoveUtxo)
    : gmap OutPoint (WithdrawalID * Txid) * list MonitorFinding :=
  let outpoint := mu_id input in
  (<[outpoint := (sm_wid sm, sm_btc_txid sm)]> acc.1,
   acc.2 ++ match acc.1 !! outpoint with
            | Some (other, _) => [WithdrawalInvalid (sm_wid sm) (InputClaimed outpoint other)]
            | None => []
            end).

Definition pending_spenders (self : auditor)
    : gmap OutPoint (WithdrawalID * Txid) * list MonitorFinding :=
  let machines :=
    sort_by (fun a b => sm_wid a <=? sm_wid b) (map_to_list (pending_withdrawals self)).*2 in
  fold_left (fun acc sm => fold_left (claim sm) (tx_inputs (sm_tx sm)) acc) machines (∅, []).

Definition explained (spenders : gmap OutPoint (WithdrawalID * Txid)) (mined : gset Txid)
    (o : OutPoint) : bool :=
  match spenders !! o with Some (_, txid) => bool_decide (txid ∈ mined) | None => false end.

(** Ask Bitcoin about the spenders; on an error the suspects wait for the next tick. *)
Definition judge_suspects (ready : gmap OutPoint SuspectSpend)
    (spenders : gmap OutPoint (WithdrawalID * Txid)) : audit (list MonitorFinding) :=
  let txids : gset Txid :=
    list_to_set (omap (fun e => snd <$> spenders !! e.1) (map_to_list ready)) in
  fun a =>
    match on_btc (btc_lookup_mined (elements txids)) a with
    | (Err _, a) => (Ok [], set_suspects (ready ∪ suspect_spends a) a)
    | (Panic, a) => (Panic, a)
    | (Ok mined, a) =>
        let findings :=
          omap (fun e => if explained spenders mined e.1 then None
                         else Some (UtxoUnexpectedSpend e.1 (suspect_amount e.2)))
            (map_to_list ready) in
        (_ ← report_findings findings; mret findings) a
    end.

Definition check_suspect_spends : audit (list MonitorFinding) :=
  _ ← modify (fun a => set_suspects
        (filter (fun e => holds (utxo_pool a) e.1 = true) (suspect_spends a)) a);
  a ← read id;
  let sui_cursor := sui_read_until (rpc_pollers a) in
  let ready := filter (fun e => checked_at e.2 < sui_cursor) (suspect_spends a) in
  _ ← modify (set_suspects (filter (fun e => ~ checked_at e.2 < sui_cursor) (suspect_spends a)));
  let '(spenders, claims) := pending_spenders a in
  _ ← report_findings claims;
  judge_suspects ready spenders.

(** ** The ticks *)

Definition txids_to_poll (self : auditor) : list Txid :=
  let withdrawals := List.filter expects_btc (map_to_list (pending_withdrawals self)).*2 in
  let deposits := List.filter deposit_expects_btc (map_to_list (pending_deposits self)).*2 in
  elements (list_to_set ((sm_btc_txid <$> withdrawals) ++ (dm_btc_txid <$> deposits)) : gset Txid).

(** [sm.try_fetch_btc_tx(..)] with the client: the lookup may change the client's cache. *)
Definition fetch_withdrawal (timing : Timing) (at_ : UnixSeconds) (sm : WithdrawalStateMachine)
    : audit (list MonitorFinding * WithdrawalStateMachine) :=
  if negb (expects_btc sm) then mret ([], sm)
  else
    answer ← on_btc (btc_lookup_confirmation (sm_btc_txid sm));
    of_outcome (try_fetch_btc_tx sm timing (fun _ => Ok answer) at_).

Definition fetch_deposit (timing : Timing) (at_ : UnixSeconds) (sm : DepositStateMachine)
    : audit (list MonitorFinding * DepositStateMachine) :=
  if negb (deposit_expects_btc sm) then mret ([], sm)
  else
    answer ← on_btc (btc_lookup_confirmation (dm_btc_txid sm));
    of_outcome (deposit_try_fetch_btc_tx sm timing (fun _ => Ok answer) at_).

Definition fetch_btc_info (started_at finished : UnixSeconds) : audit (list MonitorFinding) :=
  tip_height ← on_btc btc_synced_height;
  fresh ← check_fresh_approvals tip_height started_at finished;
  _ ← report_findings fresh;
  _ ← on_btc btc_forget_unconfirmed;
  a ← read id;
  _ ← on_btc (btc_prefetch_confirmations (txids_to_poll a) tip_height);
  findings ← foldM (fun acc e =>
      '(fs, sm) ← fetch_withdrawal (cfg_timing a) started_at e.2;
      _ ← modify (fun a => set_withdrawals (<[e.1 := sm]> (pending_withdrawals a)) a);
      mret (acc ++ fs)) (map_to_list (pending_withdrawals a)) [];
  foldM (fun acc e =>
      '(fs, sm) ← fetch_deposit (cfg_timing a) started_at e.2;
      _ ← modify (fun a => set_deposits (<[e.1 := sm]> (pending_deposits a)) a);
      mret (acc ++ fs)) (map_to_list (pending_deposits a)) findings.

Definition tick_btc (started_at finished : UnixSeconds) : audit unit :=
  findings ← fetch_btc_info started_at finished;
  _ ← report_findings findings;
  modify_pollers (set_btc_checked started_at).

(** One poll of the Sui poller: its findings, its events, and the position after it. *)
Record SuiPoll := mkSuiPoll {
  sui_findings : list MonitorFinding;
  sui_events : list (MonitorEvent * UnixSeconds);
  sui_next : Z;
  sui_until : UnixSeconds;
}.

(** The polls of one tick; an error ends it. *)
Definition tick_sui (polls : list (outcome BtcError SuiPoll)) : audit unit :=
  foldM (fun _ poll =>
    p ← of_outcome poll;
    _ ← modify_pollers (set_sui (sui_next p) (sui_until p));
    _ ← report_findings (sui_findings p);
    _ ← ingest_batch (sui_events p);
    mret tt) polls tt.

Record GuardianPoll := mkGuardianPoll {
  g_events : list (MonitorEvent * UnixSeconds);
  g_findings : list MonitorFinding;
  g_cursor : GuardianCursor;
}.

(** Directories are read until one is not done. *)
Definition tick_guardian (polls : list (outcome BtcError GuardianPoll)) : audit unit :=
  foldM (fun _ poll =>
    p ← of_outcome poll;
    _ ← modify_pollers (set_guardian (g_cursor p));
    _ ← report_findings (g_findings p);
    _ ← ingest_batch (g_events p);
    mret tt) polls tt.

(** [saved] is whether the store took the snapshot, [saved_at] the clock then. *)
Definition save_snapshot_if_due (now : UnixSeconds) (saved : bool) (saved_at now' : UnixSeconds)
    : audit unit :=
  a ← read id;
  _ ← (if (SNAPSHOT_SAVE_INTERVAL <=? sat_sub now (last_snapshot_save a)) && saved
       then modify (set_snapshot_save saved_at) else mret tt);
  a ← read id;
  report_findings (option_list (stale_snapshot a now')).

(** The readings of one maintenance tick. *)
Record TickInputs := mkTickInputs {
  t_due : UnixSeconds;
  t_checked : UnixSeconds;
  t_supply : option Z;
  t_supply_read : UnixSeconds;
  t_supply_judged : UnixSeconds;
  t_stale : UnixSeconds;
  t_save_due : UnixSeconds;
  t_saved : bool;
  t_saved_at : UnixSeconds;
  t_save_stale : UnixSeconds;
}.

Definition tick_maintenance (i : TickInputs) : audit unit :=
  _ ← gc_and_update_pool;
  _ ← check_utxo_pool_if_due (t_due i) (t_checked i);
  _ ← check_hbtc_supply (t_supply i) (t_supply_read i) (t_supply_judged i);
  _ ← check_timing;
  _ ← check_suspect_spends;
  _ ← check_staleness (t_stale i);
  save_snapshot_if_due (t_save_due i) (t_saved i) (t_saved_at i) (t_save_stale i).

(** ** Snapshots *)

Definition state (self : auditor) : AuditState :=
  mkAuditState (sui_next_checkpoint (rpc_pollers self)) (guardian_cursor (rpc_pollers self))
    (map_to_list (pending_withdrawals self)).*2 (map_to_list (pending_deposits self)).*2
    (map_to_list (suspect_spends self)) (hbtc_supply_above_pool_since self).

Definition restore (st : AuditState) (self : auditor) : auditor :=
  let self := set_withdrawals
    (fold_left (fun m sm => <[sm_wid sm := sm]> m) (as_withdrawals st) (pending_withdrawals self)) self in
  let self := set_deposits
    (fold_left (fun m sm => <[dm_request_id sm := sm]> m) (as_deposits st) (pending_deposits self)) self in
  let self := set_suspects
    (fold_left (fun m e => <[e.1 := e.2]> m) (as_suspect_spends st) (suspect_spends self)) self in
  set_supply (as_hbtc_supply_above_pool_since st) (last_hbtc_supply_read self) self.

(** The auditor of a start, before its first tick: with a snapshot's state and pool, the
    pollers resume at the saved positions. *)
Definition auditor_start (timing : Timing) (mode : AlertMode) (client : C)
    (sui_time started : UnixSeconds) (delay : Z) (st : AuditState) (pool : UtxoPool) : auditor :=
  restore st
    (mkAuditor timing mode ∅ ∅ pool ∅ ∅
       (mkRpcPollers (as_sui_next_checkpoint st) sui_time (as_guardian_cursor st) client started delay)
       None started 0 None 0 (mkReports [] [])).

End auditor.
