(* ===== verification/AuditorProofs.v ===== *)
(** * The auditor: theorems

    The auditor's invariant under every tick, and what each tick reports. *)

From S2P Require Import Prelude MonitorDomain WithdrawalMachine DepositMachine MonitorPool GuardianCursor BtcTransport BtcClient Auditor.

Section proofs.
Context {C : Type} {BL : BtcLookups C} {BO : BtcLookupsOk C}.

Abbreviation auditor := (Auditor C).

(** ** The invariant

    Every open machine satisfies its own invariant and is filed under its own id. *)

Record machines_inv (t : Timing) (ws : gmap WithdrawalID WithdrawalStateMachine)
    (ds : gmap Address DepositStateMachine) : Prop := {
  ai_timing : timing_ok t;
  ai_withdrawals : map_Forall (fun w sm => inv t sm /\ sm_wid sm = w) ws;
  ai_deposits : map_Forall (fun r sm => dm_request_id sm = r) ds;
}.

Definition audit_inv (a : auditor) : Prop :=
  machines_inv (cfg_timing a) (pending_withdrawals a) (pending_deposits a).

(** A run that does not panic and leaves the invariant. *)
Definition safe_at {A} (m : audit A) (a : auditor) : Prop :=
  match m a with (Panic, _) => False | (_, a') => audit_inv a' end.
Definition safe {A} (m : audit A) : Prop := forall a, audit_inv a -> safe_at m a.

Lemma safe_bind {A B} (m : audit A) (f : A -> audit B) a :
  safe_at m a -> (forall x a', m a = (Ok x, a') -> audit_inv a' -> safe_at (f x) a') ->
  safe_at (m ≫= f) a.
Proof.
  unfold safe_at, mbind, M_bind. destruct (m a) as [[x|e|] a'] eqn:E; [|done|done].
  intros Ha Hf. by apply Hf.
Qed.

Lemma safe_seq {A B} (m : audit A) (f : A -> audit B) :
  safe m -> (forall x, safe (f x)) -> safe (m ≫= f).
Proof. intros Hm Hf a Ha. apply safe_bind; [by apply Hm|]. intros x a' _ Ha'. by apply Hf. Qed.

Lemma safe_ret {A} (x : A) : safe (mret x).
Proof. by intros a Ha. Qed.

Lemma safe_modify (f : auditor -> auditor) :
  (forall a, audit_inv a -> audit_inv (f a)) -> safe (modify f).
Proof. intros Hf a Ha. by apply Hf. Qed.

Lemma safe_read {A} (f : auditor -> A) : safe (read f).
Proof. by intros a Ha. Qed.

Lemma safe_of_outcome {A} (o : outcome BtcError A) : o <> Panic -> safe (of_outcome o).
Proof. intros Ho a Ha. unfold safe_at, of_outcome. by destruct o. Qed.

Lemma safe_foldM {A B} (f : B -> A -> audit B) l :
  (forall b x, x ∈ l -> safe (f b x)) -> forall acc, safe (foldM f l acc).
Proof.
  induction l as [|x l IH]; intros Hf acc; cbn; [apply safe_ret|].
  apply safe_seq; [apply Hf; left|]. intros b. apply IH. intros b' y Hy. apply Hf. by right.
Qed.

Lemma safe_on_btc {A} (m : M C BtcError A) : no_panic m -> safe (on_btc m).
Proof.
  intros Hm a Ha. unfold safe_at, on_btc, zoom. destruct (m _) as [r c] eqn:E.
  destruct r; [exact Ha..|by apply Hm in E].
Qed.

Lemma safe_report fs : safe (report_findings fs).
Proof. by apply safe_modify. Qed.

Hint Resolve safe_seq safe_ret safe_read safe_on_btc safe_report synced_height_no_panic
  forget_unconfirmed_no_panic prefetch_no_panic lookup_confirmation_no_panic
  lookup_mined_no_panic outpoint_states_no_panic : hashi.

Lemma inv_set_withdrawal a w sm :
  audit_inv a -> inv (cfg_timing a) sm -> sm_wid sm = w ->
  audit_inv (set_withdrawals (<[w := sm]> (pending_withdrawals a)) a).
Proof. intros [Ht Hw Hd] Hi Hid. split; cbn; [done| |done]. by apply map_Forall_insert_2. Qed.

Lemma inv_set_deposit a r sm :
  audit_inv a -> dm_request_id sm = r ->
  audit_inv (set_deposits (<[r := sm]> (pending_deposits a)) a).
Proof. intros [Ht Hw Hd] Hid. split; cbn; [done|done|]. by apply map_Forall_insert_2. Qed.

(** ** Each step is safe *)

Lemma safe_note_fresh e now : safe (note_fresh_approval e now).
Proof. apply safe_modify. intros a Ha. destruct (is_fresh a e now); [|done]. by case_match. Qed.

Lemma safe_drop_stale now : safe (drop_stale_approvals now).
Proof. by apply safe_modify. Qed.
Hint Resolve safe_note_fresh safe_drop_stale : hashi.

Lemma safe_check_fresh tip now finished : safe (check_fresh_approvals tip now finished).
Proof.
  apply safe_seq; [eauto with hashi|]. intros _. apply safe_seq; [eauto with hashi|]. intros ap.
  case_bool_decide; [eauto with hashi|]. apply safe_seq; [eauto with hashi|]. intros st.
  apply safe_seq; [eauto with hashi|]. intros _. apply safe_seq; [eauto with hashi|]. intros ap'.
  apply safe_seq; [by apply safe_modify|eauto with hashi].
Qed.

(** The events the sources deliver: Bitcoin's event does not come from them. *)
Definition source_event (e : MonitorEvent) : Prop :=
  match e with MEWithdrawal e => event_type e <> E3BtcConfirmed | _ => True end.

Lemma safe_ingest e now : source_event e -> safe (ingest e now).
Proof.
  intros He a Ha. destruct e as [e|e|e]; cbn [ingest].
  - apply safe_bind; [done|]. intros a0 a1 [= -> ->] _.
    destruct (pending_withdrawals a1 !! wid e) as [sm|] eqn:Hsm.
    + destruct (ai_withdrawals _ _ _ Ha _ _ Hsm) as [Hi Hid].
      destruct (add_event_inv _ _ e (ai_timing _ _ _ Ha) Hi He (eq_sym Hid)) as (fs & sm' & Hadd & Hi' & Hid').
      rewrite Hadd. cbn. unfold safe_at. cbn. apply inv_set_withdrawal; [done..|congruence].
    + destruct (machine_new_Ok _ e (ai_timing _ _ _ Ha) He) as (sm & Hnew & Hi & _ & Hid & _).
      rewrite Hnew. unfold safe_at. cbn. by apply inv_set_withdrawal.
  - apply safe_bind; [by apply safe_note_fresh|]. intros _ a' _ Ha'.
    apply safe_bind; [done|]. intros a0 a1 [= -> ->] _.
    destruct (pending_deposits a1 !! app_request_id e) as [sm|] eqn:Hsm.
    + pose proof (ai_deposits _ _ _ Ha' _ _ Hsm) as Hid. cbn in Hid.
      pose proof (deposit_step_request (cfg_timing a1) sm (OpApproval e)) as Hreq. cbn in Hreq.
      destruct (add_sui_approval sm e (cfg_timing a1)) as [fs sm']. cbn in *.
      unfold safe_at. cbn. apply inv_set_deposit; [done|]. unfold dm_request_id in *. congruence.
    + destruct (check_sui_approval _ e _) as [fs pool]. exact Ha'.
  - apply safe_bind; [done|]. intros a0 a1 [= -> ->] _.
    destruct (pending_deposits a1 !! req_request_id e) as [sm|]; [exact Ha|].
    unfold safe_at. cbn. by apply inv_set_deposit.
Qed.

Lemma safe_ingest_batch es :
  Forall (fun e => source_event e.1) es -> safe (ingest_batch es).
Proof.
  intros He. apply safe_seq.
  - apply safe_foldM. intros b x Hx. rewrite Forall_forall in He.
    apply safe_seq; [by apply safe_ingest, He|eauto with hashi].
  - intros fs. eauto with hashi.
Qed.

Lemma detect_timing_total (a : auditor) : exists fs, detect_timing_violations a = Ok fs.
Proof.
  unfold detect_timing_violations. induction ((map_to_list (pending_withdrawals a)).*2) as [|sm l [fs IH]];
    cbn; [by eexists|]. rewrite timing_violations_Ok. cbn. rewrite IH. by eexists.
Qed.

Lemma safe_check_timing : safe check_timing.
Proof.
  apply safe_seq; [apply safe_read|]. intros a. apply safe_seq; [|apply safe_report].
  apply safe_of_outcome. destruct (detect_timing_total a) as [fs Hfs]. unfold id. by rewrite Hfs.
Qed.

Lemma safe_hbtc supply read_at now : safe (check_hbtc_supply supply read_at now).
Proof.
  destruct supply as [s|]; [|apply safe_ret]. apply safe_seq; [apply safe_read|]. intros a.
  destruct (judge_hbtc_supply _ _ _ _) as [since f]. apply safe_seq; [by apply safe_modify|]. intros _.
  apply safe_report.
Qed.

(** ** Maintenance *)

Lemma closed_withdrawal_Ok t sm :
  inv t sm -> is_ready_for_gc sm = true ->
  exists w, finished sm = Some w /\ fw_txid w = sm_btc_txid sm /\ closed_withdrawal sm = Ok [w].
Proof.
  intros Hi Hr. destruct (inv_ready t sm Hi) as [Hiff Hfin].
  destruct (proj1 Hiff Hr) as ([e1 H1] & _ & [e3 H3]). destruct (Hfin Hr) as (e2 & c & H2 & Hc & Hf).
  eexists. split; [exact Hf|]. split; [done|]. unfold closed_withdrawal. by rewrite H1, H2, H3, Hf.
Qed.

Lemma closed_withdrawals_Ok (l : list WithdrawalStateMachine) t (a : auditor) : forall acc,
  Forall (fun sm => inv t sm /\ is_ready_for_gc sm = true) l ->
  foldM (E := BtcError) (fun acc sm => ws ← of_outcome (lift (closed_withdrawal sm)); mret (acc ++ ws))
    l acc a
    = (Ok (acc ++ omap finished l), a).
Proof.
  induction l as [|sm l IH]; intros acc Hl; cbn [foldM omap list_omap].
  { by rewrite app_nil_r. }
  inversion Hl as [|? ? [Hi Hr] Hl']; subst.
  destruct (closed_withdrawal_Ok t sm Hi Hr) as (w & Hf & _ & Hcw). rewrite Hf.
  unfold mbind at 1, M_bind at 1. unfold mbind at 1, M_bind at 1. rewrite Hcw. cbn.
  rewrite IH by done. by rewrite <- app_assoc.
Qed.

Definition closed_deposits (a : auditor) : list FinishedDeposit :=
  omap into_finished (map_to_list (filter (fun e => deposit_is_ready_for_gc e.2 = true) (pending_deposits a))).*2.
Definition closed_withdrawals (a : auditor) : list FinishedWithdrawal :=
  omap finished (map_to_list (filter (fun e => is_ready_for_gc e.2 = true) (pending_withdrawals a))).*2.

Lemma add_deposits_Ok ds : forall p,
  exists fs, add_deposits p ds
    = Ok (fs, fold_left (fun m d => partial_alter (merge_utxo (fd_utxo d)) (fd_deposit_id d) m) ds p).
Proof.
  induction ds as [|d ds IH]; intros p; cbn; [by eexists|]. unfold add_deposit. rewrite pool_add_Ok. cbn.
  destruct (IH (partial_alter (merge_utxo (fd_utxo d)) (fd_deposit_id d) p)) as [fs ->]. cbn. by eexists.
Qed.

Lemma add_deposits_not_outside ds : forall p fs p',
  add_deposits p ds = Ok (fs, p') -> existsb is_outside_spend fs = false.
Proof.
  induction ds as [|d ds IH]; intros p fs p' Hadd; cbn in Hadd; [by injection Hadd as <- <-|].
  unfold add_deposit in Hadd. rewrite pool_add_Ok in Hadd. cbn in Hadd.
  apply bind_Ok in Hadd as ([fs1 p1] & H1 & [= <- <-]).
  rewrite existsb_app, add_findings_not_outside. by eapply IH.
Qed.

Lemma log_open_Ok t (l : list WithdrawalStateMachine) :
  Forall (fun sm => inv t sm) l -> log_open_withdrawals l = Ok tt.
Proof.
  induction 1 as [|sm l Hi _ IH]; cbn; [done|]. destruct (earliest_inv t sm Hi) as [x ->]. cbn. exact IH.
Qed.

Lemma Forall_map_snd {K V} `{Countable K} (P : V -> Prop) (m : gmap K V) :
  map_Forall (fun _ v => P v) m -> Forall P (map_to_list m).*2.
Proof.
  intros Hm. apply Forall_forall. intros v ([k v'] & -> & Hin%elem_of_map_to_list)%list_elem_of_fmap.
  by apply (Hm k).
Qed.

(** The whole step: the closed machines leave, their deposits enter the pool, then their
    withdrawals are applied. *)
Lemma gc_Ok a :
  audit_inv a ->
  exists fs fs' pool pool' a', gc_and_update_pool a = (Ok (fs ++ fs'), a')
    /\ add_deposits (utxo_pool a) (closed_deposits a) = Ok (fs, pool)
    /\ add_withdrawals pool (closed_withdrawals a) = Ok (fs', pool')
    /\ audit_inv a' /\ utxo_pool a' = pool'
    /\ pending_withdrawals a' = filter (fun e => is_ready_for_gc e.2 = false) (pending_withdrawals a)
    /\ pending_deposits a' = filter (fun e => deposit_is_ready_for_gc e.2 = false) (pending_deposits a).
Proof.
  intros Ha. pose proof Ha as [Ht Hw Hd].
  destruct (add_deposits_Ok (closed_deposits a) (utxo_pool a)) as [fs Hfs].
  set (pool := fold_left _ _ _) in Hfs.
  destruct (add_withdrawals_Ok pool (closed_withdrawals a)) as (fs1 & fs2 & pool' & Hfs' & _).
  set (open_ws := filter (fun e => is_ready_for_gc e.2 = false) (pending_withdrawals a)).
  set (open_ds := filter (fun e => deposit_is_ready_for_gc e.2 = false) (pending_deposits a)).
  set (a1 := set_withdrawals open_ws (set_deposits open_ds a)).
  assert (take_closed_withdrawals (set_deposits open_ds a) = (Ok (closed_withdrawals a), a1)) as Htake.
  { unfold take_closed_withdrawals, mbind, M_bind. cbn [read id modify]. fold a1.
    rewrite (closed_withdrawals_Ok _ (cfg_timing a)); [done|]. apply Forall_map_snd.
    intros w sm [Hsm Hr]%map_lookup_filter_Some. cbn in Hr. split; [|done]. by apply (Hw w). }
  assert (log_open_withdrawals (map_to_list (pending_withdrawals a1)).*2 = Ok tt) as Hlog.
  { apply (log_open_Ok (cfg_timing a)). apply Forall_map_snd.
    intros w sm [Hsm _]%map_lookup_filter_Some. by apply (Hw w). }
  eexists fs, (fs1 ++ fs2), pool, pool', _. split; [|split; [exact Hfs|split; [exact Hfs'|]]].
  - unfold gc_and_update_pool. unfold mbind at 1, M_bind at 1.
    change (take_closed_deposits a) with (Ok (E := BtcError) (closed_deposits a), set_deposits open_ds a).
    unfold mbind at 1, M_bind at 1. rewrite Htake. unfold mbind, M_bind. cbn [read id].
    unfold of_outcome. change (utxo_pool a1) with (utxo_pool a). rewrite Hfs. cbn [lift].
    rewrite Hfs'. cbn [lift modify]. rewrite Hlog. reflexivity.
  - split; [|split_and!; reflexivity]. split; cbn; [done| |].
    + intros w sm [Hsm _]%map_lookup_filter_Some. by apply Hw.
    + intros r sm [Hsm _]%map_lookup_filter_Some. by apply Hd.
Qed.

Lemma safe_gc : safe gc_and_update_pool.
Proof.
  intros a Ha. destruct (gc_Ok a Ha) as (? & ? & ? & ? & a' & Hgc & _ & _ & Ha' & _).
  unfold safe_at. by rewrite Hgc.
Qed.

(** ** Checks *)

Lemma safe_ignore m : safe m -> safe (ignore_error m).
Proof.
  intros Hm a Ha. specialize (Hm a Ha). unfold safe_at, ignore_error in *.
  by destruct (m a) as [[| |] a'].
Qed.

Lemma safe_check_pool now now' : safe (check_utxo_pool_if_due now now').
Proof.
  apply safe_seq; [apply safe_read|]. intros a. case_match; [|apply safe_ret]. apply safe_ignore.
  apply safe_seq; [eauto with hashi|]. intros tip. apply safe_seq; [apply safe_read|]. intros a'.
  apply safe_seq; [eauto with hashi|]. intros st. destruct (pool_check _ _ _ _) as [fs sus].
  apply safe_seq; [by apply safe_modify|]. intros _. apply safe_seq; [apply safe_report|]. intros _.
  by apply safe_modify.
Qed.

Lemma safe_judge_suspects ready spenders : safe (judge_suspects ready spenders).
Proof.
  intros a Ha. unfold safe_at, judge_suspects.
  match goal with |- context [on_btc ?m a] => pose proof (safe_on_btc m (lookup_mined_no_panic _) a Ha) as Hs end.
  unfold safe_at in Hs. destruct (on_btc _ a) as [[mined|e|] a']; [|exact Hs|done].
  exact Hs.
Qed.

Lemma safe_check_suspects : safe check_suspect_spends.
Proof.
  apply safe_seq; [by apply safe_modify|]. intros _. apply safe_seq; [apply safe_read|]. intros a.
  apply safe_seq; [by apply safe_modify|]. intros _. destruct (pending_spenders _) as [sp cl].
  apply safe_seq; [apply safe_report|]. intros _. apply safe_judge_suspects.
Qed.

Lemma safe_save now saved saved_at now' : safe (save_snapshot_if_due now saved saved_at now').
Proof.
  apply safe_seq; [apply safe_read|]. intros a. apply safe_seq; [case_match; [by apply safe_modify|apply safe_ret]|].
  intros _. apply safe_seq; [apply safe_read|]. intros a'. apply safe_report.
Qed.

Lemma safe_maintenance i : safe (tick_maintenance i).
Proof.
  apply safe_seq; [apply safe_gc|]. intros _.
  apply safe_seq; [apply safe_check_pool|]. intros _.
  apply safe_seq; [apply safe_hbtc|]. intros _.
  apply safe_seq; [apply safe_check_timing|]. intros _.
  apply safe_seq; [apply safe_check_suspects|]. intros _.
  apply safe_seq; [|intros _; apply safe_save].
  apply safe_seq; [apply safe_read|]. intros a. apply safe_report.
Qed.

(** ** The Bitcoin tick *)

Lemma set_client_id (a : auditor) :
  set_pollers (set_client (btc_client (rpc_pollers a)) (rpc_pollers a)) a = a.
Proof. by destruct a as [? ? ? ? ? ? ? [] ? ? ? ? ? ?]. Qed.

(** A client call answered without a change of the client. *)
Lemma on_btc_pure {A} (m : M C BtcError A) (a : auditor) x :
  m (btc_client (rpc_pollers a)) = (Ok x, btc_client (rpc_pollers a)) -> on_btc m a = (Ok x, a).
Proof. intros Hm. unfold on_btc, zoom. by rewrite Hm, set_client_id. Qed.

(** One loop over the machines of a map, each replaced under its key. *)
Section loop.
Context {K V : Type} `{Countable K}.
Variables (g : V -> audit (C := C) (list MonitorFinding * V)) (proj : auditor -> gmap K V)
  (put : gmap K V -> auditor -> auditor) (R : V -> V -> Prop) (a : auditor).
Hypothesis proj_put : forall m, proj (put m a) = m.
Hypothesis put_put : forall m m', put m (put m' a) = put m a.

Lemma loop_Ok (l : list (K * V)) : forall (m : gmap K V) acc,
  NoDup l.*1 ->
  (forall m e, e ∈ l -> exists fs v', g e.2 (put m a) = (Ok (fs, v'), put m a) /\ R e.2 v') ->
  exists fs m', foldM (fun acc e =>
      '(fs, v) ← g e.2; _ ← modify (fun a => put (<[e.1 := v]> (proj a)) a); mret (acc ++ fs)) l acc (put m a)
      = (Ok fs, put m' a)
    /\ (forall k v, (k, v) ∈ l -> exists v', m' !! k = Some v' /\ R v v')
    /\ (forall k, k ∉ l.*1 -> m' !! k = m !! k).
Proof.
  induction l as [|[k v] l IH]; intros m acc Hnd Hg; cbn [foldM].
  { exists acc, m. split_and!; [done| |done]. by intros k v ?%elem_of_nil. }
  inversion Hnd as [|? ? Hnin Hnd']; subst.
  destruct (Hg m (k, v) (list_elem_of_here _ _)) as (fs & v' & Hgv & HR). cbn in Hgv, HR.
  destruct (IH (<[k := v']> m) (acc ++ fs) Hnd') as (fs' & m' & Hf & H1 & H2).
  { intros m1 e He. apply Hg. by right. }
  exists fs', m'. split_and!.
  - unfold mbind at 1, M_bind at 1. unfold mbind at 1, M_bind at 1. cbn [snd fst]. rewrite Hgv.
    unfold mbind at 1, M_bind at 1. cbn [modify mret M_ret]. rewrite proj_put, put_put. exact Hf.
  - intros k' w [[= -> ->]|Hin]%elem_of_cons; [|by apply H1].
    exists v'. split; [|done]. rewrite H2 by done. apply lookup_insert_eq.
  - intros k' [Hne Hk']%not_elem_of_cons. rewrite H2 by done. cbn in Hne. by apply lookup_insert_ne.
Qed.
End loop.

(** How one tick changes a machine: not at all if it does not wait for Bitcoin, otherwise
    by one answer of the client [c]. *)
Definition fetched_withdrawal (t : Timing) (c : C) (at_ : UnixSeconds)
    (sm sm' : WithdrawalStateMachine) : Prop :=
  if expects_btc sm then
    exists answer fs, btc_lookup_confirmation (sm_btc_txid sm) c = (Ok answer, c)
      /\ try_fetch_btc_tx (E := BtcError) sm t (fun _ => Ok answer) at_ = Ok (fs, sm')
      /\ btc_checked_at sm' = Some at_
  else sm' = sm.

Definition fetched_deposit (t : Timing) (c : C) (at_ : UnixSeconds) (sm sm' : DepositStateMachine)
    : Prop :=
  if deposit_expects_btc sm then
    exists answer, btc_lookup_confirmation (dm_btc_txid sm) c = (Ok answer, c)
      /\ sm' = (record_lookup sm t at_ answer).2
  else sm' = sm.

Lemma fetch_withdrawal_Ok t at_ sm (a : auditor) :
  timing_ok t -> inv t sm ->
  (expects_btc sm = true -> exists answer,
     btc_lookup_confirmation (sm_btc_txid sm) (btc_client (rpc_pollers a)) = (Ok answer, btc_client (rpc_pollers a))) ->
  exists fs sm', fetch_withdrawal t at_ sm a = (Ok (fs, sm'), a)
    /\ (inv t sm' /\ sm_wid sm' = sm_wid sm) /\ fetched_withdrawal t (btc_client (rpc_pollers a)) at_ sm sm'.
Proof.
  intros Ht Hi Hl. unfold fetch_withdrawal, fetched_withdrawal.
  destruct (expects_btc sm) eqn:He; cbn [negb]; [|by exists [], sm].
  destruct (Hl eq_refl) as [answer Ha].
  destruct (fetch_Ok (E := BtcError) t sm (fun _ => Ok answer) at_ answer Ht Hi eq_refl) as (fs & sm' & Hf & Hi' & Hc).
  destruct (fetch_wid t sm (fun _ => Ok (E := BtcError) answer) at_ fs sm' Ht Hi Hf) as [Hw _].
  exists fs, sm'. split; [|split; [done|]].
  - unfold mbind, M_bind. rewrite (on_btc_pure _ a answer Ha). unfold of_outcome. by rewrite Hf.
  - exists answer, fs. split_and!; [done..|]. by apply Hc.
Qed.

Lemma fetch_deposit_Ok t at_ sm (a : auditor) :
  (deposit_expects_btc sm = true -> exists answer,
     btc_lookup_confirmation (dm_btc_txid sm) (btc_client (rpc_pollers a)) = (Ok answer, btc_client (rpc_pollers a))) ->
  exists fs sm', fetch_deposit t at_ sm a = (Ok (fs, sm'), a)
    /\ dm_request_id sm' = dm_request_id sm /\ fetched_deposit t (btc_client (rpc_pollers a)) at_ sm sm'.
Proof.
  intros Hl. unfold fetch_deposit, fetched_deposit.
  destruct (deposit_expects_btc sm) eqn:He; cbn [negb]; [|by exists [], sm].
  destruct (Hl eq_refl) as [answer Ha]. unfold mbind, M_bind. rewrite (on_btc_pure _ a answer Ha).
  unfold of_outcome, deposit_try_fetch_btc_tx. unfold deposit_expects_btc in He. rewrite He. cbn [negb].
  destruct (record_lookup sm t at_ answer) as [fs sm'] eqn:Hr. exists fs, sm'.
  split; [unfold mbind, outcome_bind; by rewrite Hr|]. split.
  - pose proof (deposit_step_request t sm (OpLookup at_ (Ok answer))) as Hs. cbn in Hs.
    unfold deposit_try_fetch_btc_tx in Hs. rewrite He in Hs. cbn [negb mbind outcome_bind] in Hs.
    rewrite Hr in Hs. cbn in Hs. unfold dm_request_id. by rewrite Hs.
  - exists answer. by rewrite Hr.
Qed.

(** Computations that leave the flows and the pool alone. *)
Definition flows (a : auditor) :=
  (cfg_timing a, pending_withdrawals a, pending_deposits a, utxo_pool a, suspect_spends a).
Definition keeps_flows {A} (m : audit A) : Prop := forall a, flows (m a).2 = flows a.

Lemma keeps_flows_bind {A B} (m : audit A) (f : A -> audit B) :
  keeps_flows m -> (forall x, keeps_flows (f x)) -> keeps_flows (m ≫= f).
Proof.
  intros Hm Hf a. unfold mbind, M_bind. specialize (Hm a). destruct (m a) as [[x|e|] a']; cbn in *; [|done..].
  by rewrite Hf.
Qed.
Lemma keeps_flows_on_btc {A} (m : M C BtcError A) : keeps_flows (on_btc m).
Proof. intros a. unfold on_btc, zoom. by destruct (m _). Qed.

Lemma keeps_flows_check_fresh tip now fin : keeps_flows (check_fresh_approvals tip now fin).
Proof.
  apply keeps_flows_bind; [by intros a|]. intros _. apply keeps_flows_bind; [by intros a|]. intros ap.
  case_bool_decide; [by intros a|]. apply keeps_flows_bind; [apply keeps_flows_on_btc|]. intros st.
  by intros a.
Qed.

(** The lookups of the tick are among the prefetched ones. *)
Lemma txids_to_poll_withdrawals (a : auditor) w sm :
  pending_withdrawals a !! w = Some sm -> expects_btc sm = true -> sm_btc_txid sm ∈ txids_to_poll a.
Proof.
  intros Hw He. unfold txids_to_poll. apply elem_of_elements, elem_of_list_to_set, elem_of_app. left.
  apply list_elem_of_fmap. exists sm. split; [done|]. apply elem_of_bool_filter. split; [|done].
  apply list_elem_of_fmap. exists (w, sm). split; [done|]. by apply elem_of_map_to_list.
Qed.

Lemma txids_to_poll_deposits (a : auditor) r sm :
  pending_deposits a !! r = Some sm -> deposit_expects_btc sm = true -> dm_btc_txid sm ∈ txids_to_poll a.
Proof.
  intros Hw He. unfold txids_to_poll. apply elem_of_elements, elem_of_list_to_set, elem_of_app. right.
  apply list_elem_of_fmap. exists sm. split; [done|]. apply elem_of_bool_filter. split; [|done].
  apply list_elem_of_fmap. exists (r, sm). split; [done|]. by apply elem_of_map_to_list.
Qed.

(** The two loops of the tick, once the prefetch has filled the cache. *)
Lemma fetch_loops_Ok (a : auditor) at_ :
  audit_inv a ->
  (forall t, t ∈ txids_to_poll a -> exists answer,
     btc_lookup_confirmation t (btc_client (rpc_pollers a)) = (Ok answer, btc_client (rpc_pollers a))) ->
  exists fs ws ds,
    (findings ← foldM (fun acc e =>
        '(fs, sm) ← fetch_withdrawal (cfg_timing a) at_ e.2;
        _ ← modify (fun a => set_withdrawals (<[e.1 := sm]> (pending_withdrawals a)) a);
        mret (acc ++ fs)) (map_to_list (pending_withdrawals a)) [];
     foldM (fun acc e =>
        '(fs, sm) ← fetch_deposit (cfg_timing a) at_ e.2;
        _ ← modify (fun a => set_deposits (<[e.1 := sm]> (pending_deposits a)) a);
        mret (acc ++ fs)) (map_to_list (pending_deposits a)) findings) a
      = (Ok fs, set_deposits ds (set_withdrawals ws a))
    /\ map_Forall2 (fun w sm sm' => (inv (cfg_timing a) sm' /\ sm_wid sm' = w)
          /\ fetched_withdrawal (cfg_timing a) (btc_client (rpc_pollers a)) at_ sm sm')
         (pending_withdrawals a) ws
    /\ map_Forall2 (fun r sm sm' => dm_request_id sm' = r
          /\ fetched_deposit (cfg_timing a) (btc_client (rpc_pollers a)) at_ sm sm')
         (pending_deposits a) ds.
Proof.
  intros [Ht Hw Hd] Hl.
  destruct (loop_Ok (fetch_withdrawal (cfg_timing a) at_) pending_withdrawals set_withdrawals
     (fun sm sm' => (inv (cfg_timing a) sm' /\ sm_wid sm' = sm_wid sm)
        /\ fetched_withdrawal (cfg_timing a) (btc_client (rpc_pollers a)) at_ sm sm') a
     (fun _ => eq_refl) (fun _ _ => eq_refl) (map_to_list (pending_withdrawals a)) (pending_withdrawals a) [])
    as (fs & ws & Hf & H1 & H2).
  { apply NoDup_fst_map_to_list. }
  { intros m [w sm] Hin%elem_of_map_to_list. cbn [snd].
    apply (fetch_withdrawal_Ok (cfg_timing a) at_ sm (set_withdrawals m a)); [done|by apply (Hw w)|].
    intros He. apply Hl. by eapply txids_to_poll_withdrawals. }
  destruct (loop_Ok (fetch_deposit (cfg_timing a) at_) pending_deposits set_deposits
     (fun sm sm' => dm_request_id sm' = dm_request_id sm
        /\ fetched_deposit (cfg_timing a) (btc_client (rpc_pollers a)) at_ sm sm') (set_withdrawals ws a)
     (fun _ => eq_refl) (fun _ _ => eq_refl) (map_to_list (pending_deposits a)) (pending_deposits a) fs)
    as (fs' & ds & Hf' & H3 & H4).
  { apply NoDup_fst_map_to_list. }
  { intros m [r sm] Hin%elem_of_map_to_list. cbn [snd].
    apply (fetch_deposit_Ok (cfg_timing a) at_ sm (set_deposits m (set_withdrawals ws a))).
    intros He. apply Hl. by eapply txids_to_poll_deposits. }
  exists fs', ws, ds. split; [|split].
  - replace (set_withdrawals (pending_withdrawals a) a) with a in Hf by by destruct a.
    unfold mbind at 1, M_bind at 1. rewrite Hf.
    change (set_deposits (pending_deposits a) (set_withdrawals ws a)) with
      (set_deposits (pending_deposits (set_withdrawals ws a)) (set_withdrawals ws a)) in Hf'.
    replace (set_deposits (pending_deposits (set_withdrawals ws a)) (set_withdrawals ws a))
      with (set_withdrawals ws a) in Hf' by by destruct a.
    exact Hf'.
  - intros w. destruct (pending_withdrawals a !! w) as [sm|] eqn:Hsm.
    + destruct (H1 w sm) as (sm' & -> & [Hi Hid] & Hft); [by apply elem_of_map_to_list|]. cbn.
      destruct (Hw w sm Hsm) as [_ Hwid]. constructor. split; [split; [done|congruence]|done].
    + rewrite H2; [rewrite Hsm; constructor|]. intros ([k v] & -> & Hin%elem_of_map_to_list)%list_elem_of_fmap. cbn in Hsm. congruence.
  - intros r. destruct (pending_deposits a !! r) as [sm|] eqn:Hsm.
    + destruct (H3 r sm) as (sm' & -> & Hid & Hft); [by apply elem_of_map_to_list|]. cbn.
      constructor. split; [|done]. rewrite Hid. by apply (Hd r sm).
    + rewrite H4; [rewrite Hsm; constructor|]. intros ([k v] & -> & Hin%elem_of_map_to_list)%list_elem_of_fmap. cbn in Hsm. congruence.
Qed.

(** The tick up to the prefetch: no machine changes, and after a success every lookup the
    machines need is answered. *)
Definition fetch_prefix (started_at finished : UnixSeconds) : audit unit :=
  tip_height ← on_btc btc_synced_height;
  fresh ← check_fresh_approvals tip_height started_at finished;
  _ ← report_findings fresh;
  _ ← on_btc btc_forget_unconfirmed;
  a ← read id;
  on_btc (btc_prefetch_confirmations (txids_to_poll a) tip_height).

Lemma fetch_prefix_keeps at_ fin : keeps_flows (fetch_prefix at_ fin).
Proof.
  apply keeps_flows_bind; [apply keeps_flows_on_btc|]. intros tip.
  apply keeps_flows_bind; [apply keeps_flows_check_fresh|]. intros fresh.
  apply keeps_flows_bind; [by intros a|]. intros _.
  apply keeps_flows_bind; [apply keeps_flows_on_btc|]. intros _.
  apply keeps_flows_bind; [by intros a|]. intros a. apply keeps_flows_on_btc.
Qed.

Lemma fetch_prefix_safe at_ fin : safe (fetch_prefix at_ fin).
Proof.
  apply safe_seq; [eauto with hashi|]. intros tip.
  apply safe_seq; [apply safe_check_fresh|]. intros fresh. eauto 10 with hashi.
Qed.

(** The client after a successful prefix. *)
Lemma fetch_prefix_answers at_ fin (a a' : auditor) :
  fetch_prefix at_ fin a = (Ok tt, a') ->
  forall t, t ∈ txids_to_poll a' -> exists answer,
    btc_lookup_confirmation t (btc_client (rpc_pollers a')) = (Ok answer, btc_client (rpc_pollers a')).
Proof.
  unfold fetch_prefix. intros H. inv_M. unfold id in *.
  match goal with H : on_btc (btc_prefetch_confirmations _ _) ?s = _ |- _ =>
    unfold on_btc, zoom in H; destruct (btc_prefetch_confirmations _ _ _) as [r c] eqn:Hp end.
  injection H as -> <-. apply (prefetch_answers _ _ _ _ Hp).
Qed.

(** The tick is its prefix, then the two loops over the machines the prefix left alone. *)
Lemma fetch_btc_split at_ fin (a : auditor) :
  fetch_btc_info at_ fin a =
  (_ ← fetch_prefix at_ fin;
   a ← read id;
   findings ← foldM (fun acc e =>
       '(fs, sm) ← fetch_withdrawal (cfg_timing a) at_ e.2;
       _ ← modify (fun a => set_withdrawals (<[e.1 := sm]> (pending_withdrawals a)) a);
       mret (acc ++ fs)) (map_to_list (pending_withdrawals a)) [];
   foldM (fun acc e =>
       '(fs, sm) ← fetch_deposit (cfg_timing a) at_ e.2;
       _ ← modify (fun a => set_deposits (<[e.1 := sm]> (pending_deposits a)) a);
       mret (acc ++ fs)) (map_to_list (pending_deposits a)) findings) a.
Proof.
  unfold fetch_btc_info, fetch_prefix. unfold mbind, M_bind. cbn [read id report_findings modify].
  destruct (on_btc btc_synced_height a) as [[tip|e|] a1]; [|done..].
  destruct (check_fresh_approvals _ _ _ a1) as [[fresh|e|] a2]; [|done..].
  destruct (on_btc btc_forget_unconfirmed _) as [[[]|e|] a3]; [|done..]. unfold id.
  pose proof (keeps_flows_on_btc (btc_prefetch_confirmations (txids_to_poll a3) tip) a3) as Hk.
  destruct (on_btc (btc_prefetch_confirmations _ _) a3) as [[[]|e|] a4]; [|done..].
  cbn in Hk. injection Hk as -> -> -> _ _. done.
Qed.

(** The Bitcoin tick is all or nothing for the flows.  The prefetch asks for every txid an
    open machine waits for, so once it has succeeded no machine can fail: if the tick
    fails, no machine, no pool entry and no suspect spend has changed and no answer is
    lost; if it succeeds, every open withdrawal and deposit that waits for Bitcoin has been
    given exactly one answer of the client, stamped with the start of the tick, and the
    others are as they were.  It never panics. *)
Theorem btc_tick_all_or_nothing (a : auditor) started finished :
  audit_inv a ->
  match fetch_btc_info started finished a with
  | (Panic, _) => False
  | (Err _, a') => flows a' = flows a
  | (Ok _, a') => exists c,
      map_Forall2 (fun _ sm sm' => fetched_withdrawal (cfg_timing a) c started sm sm')
        (pending_withdrawals a) (pending_withdrawals a')
      /\ map_Forall2 (fun _ sm sm' => fetched_deposit (cfg_timing a) c started sm sm')
          (pending_deposits a) (pending_deposits a')
      /\ utxo_pool a' = utxo_pool a /\ suspect_spends a' = suspect_spends a
  end.
Proof.
  intros Ha. rewrite fetch_btc_split. unfold mbind at 1, M_bind at 1.
  pose proof (fetch_prefix_keeps started finished a) as Hk.
  pose proof (fetch_prefix_safe started finished a Ha) as Hs. unfold safe_at in Hs.
  destruct (fetch_prefix started finished a) as [[[]|e|] a1] eqn:Hp; [|exact Hk|done].
  cbn in Hk. destruct (fetch_loops_Ok a1 started Hs) as (fs & ws & ds & Hl & Hws & Hds).
  { by eapply fetch_prefix_answers. }
  unfold mbind at 1, M_bind at 1. cbn [read]. unfold id. rewrite Hl.
  unfold flows in Hk. injection Hk as E1 E2 E3 E4 E5. exists (btc_client (rpc_pollers a1)).
  rewrite <- E1, <- E2, <- E3, <- E4, <- E5. split_and!; try done.
  - eapply map_Forall2_impl; [exact Hws|]. by intros w sm sm' [_ ?].
  - eapply map_Forall2_impl; [exact Hds|]. by intros r sm sm' [_ ?].
Qed.

Lemma safe_fetch_btc at_ fin : safe (fetch_btc_info at_ fin).
Proof.
  intros a Ha. unfold safe_at. rewrite fetch_btc_split. unfold mbind at 1, M_bind at 1.
  pose proof (fetch_prefix_safe at_ fin a Ha) as Hs. unfold safe_at in Hs.
  destruct (fetch_prefix at_ fin a) as [[[]|e|] a1] eqn:Hp; [|exact Hs|done].
  destruct (fetch_loops_Ok a1 at_ Hs) as (fs & ws & ds & Hl & Hws & Hds).
  { by eapply fetch_prefix_answers. }
  unfold mbind at 1, M_bind at 1. cbn [read]. unfold id. rewrite Hl.
  split; [apply Hs|..]; cbn.
  - intros w sm' Hsm'. specialize (Hws w). rewrite Hsm' in Hws. inversion Hws as [? ? [? _]|]; subst. done.
  - intros r sm' Hsm'. specialize (Hds r). rewrite Hsm' in Hds. inversion Hds as [? ? [? _]|]; subst. done.
Qed.
End proofs.
