(* ===== verification/AuditorTheorems.v ===== *)
(** * The auditor: histories, snapshots and judgements

    The histories of an auditor, restarts included, and what its checks report: spends
    outside the bridge, approvals of spent deposits, and an unbacked hBTC supply. *)

From S2P Require Import Prelude MonitorDomain WithdrawalMachine DepositMachine MonitorPool GuardianCursor BtcTransport BtcTransportProofs BtcClient Auditor AuditorProofs.

Section theorems.
Context {C : Type} {BL : BtcLookups C} {BO : BtcLookupsOk C}.

Abbreviation auditor := (Auditor C).

(** ** Snapshots *)

(** What a restart brings back. *)
Lemma restart_restores (a : auditor) timing mode (client : C) sui_time started delay pool :
  audit_inv a ->
  let b := auditor_start timing mode client sui_time started delay (state a) pool in
  pending_withdrawals b = pending_withdrawals a /\ pending_deposits b = pending_deposits a
  /\ suspect_spends b = suspect_spends a.
Proof.
  intros [_ Hw Hd]. cbn. split_and!.
  - apply fold_insert_values. intros w sm Hsm. by apply Hw.
  - apply fold_insert_values. intros r sm Hsm. by apply Hd.
  - apply fold_insert_pairs.
Qed.

(** ** Histories *)

Inductive audit_op :=
| OpSui (polls : list (outcome BtcError SuiPoll))
| OpGuardian (polls : list (outcome BtcError GuardianPoll))
| OpBtc (started finished : UnixSeconds)
| OpMaintenance (i : TickInputs).

Definition run_op (op : audit_op) : audit (C := C) unit :=
  match op with
  | OpSui polls => tick_sui polls
  | OpGuardian polls => tick_guardian polls
  | OpBtc started finished => tick_btc started finished
  | OpMaintenance i => tick_maintenance i
  end.

(** The pollers return or fail, and deliver no Bitcoin event. *)
Definition op_ok (op : audit_op) : Prop :=
  match op with
  | OpSui polls => Forall (fun o => match o with
      | Ok p => Forall (fun e => source_event e.1) (sui_events p) | Err _ => True | Panic => False end) polls
  | OpGuardian polls => Forall (fun o => match o with
      | Ok p => Forall (fun e => source_event e.1) (g_events p) | Err _ => True | Panic => False end) polls
  | _ => True
  end.

(** The auditor of a first run, any tick in any order with any result, and a restart with
    the same timing bounds from the snapshot of any point. *)
Inductive audited : auditor -> Prop :=
| audited_first timing mode (client : C) sui_time started delay sui_start guardian_start :
    timing_ok timing ->
    audited (auditor_start timing mode client sui_time started delay
      (mkAuditState sui_start guardian_start [] [] [] None) ∅)
| audited_tick a op r a' :
    audited a -> op_ok op -> run_op op a = (r, a') -> audited a'
| audited_restart a mode (client : C) sui_time started delay :
    audited a ->
    audited (auditor_start (cfg_timing a) mode client sui_time started delay (state a)
      (from_wire (held_to_wire (utxo_pool a)))).

Lemma safe_poll {P} (o : outcome BtcError P) (f : P -> audit (C := C) unit) :
  o <> Panic -> (forall p, o = Ok p -> safe (f p)) -> safe (p ← of_outcome o; f p).
Proof.
  intros Ho Hf a Ha. apply safe_bind; [by apply safe_of_outcome|]. intros p a' Hp Ha'.
  unfold of_outcome in Hp. injection Hp as Hp _. by apply Hf.
Qed.

Lemma safe_pollers f : safe (modify_pollers (C := C) f).
Proof. by apply safe_modify. Qed.

Lemma safe_run_op op : op_ok op -> safe (run_op op).
Proof.
  destruct op as [polls|polls|started fin|i]; cbn; intros Hok.
  - apply safe_foldM. intros _ o Ho. rewrite Forall_forall in Hok. specialize (Hok o Ho).
    apply safe_poll; [by intros ->|]. intros p ->. apply safe_seq; [apply safe_pollers|]. intros _.
    apply safe_seq; [apply safe_report|]. intros _.
    apply safe_seq; [by apply safe_ingest_batch|]. intros _. apply safe_ret.
  - apply safe_foldM. intros _ o Ho. rewrite Forall_forall in Hok. specialize (Hok o Ho).
    apply safe_poll; [by intros ->|]. intros p ->. apply safe_seq; [apply safe_pollers|]. intros _.
    apply safe_seq; [apply safe_report|]. intros _.
    apply safe_seq; [by apply safe_ingest_batch|]. intros _. apply safe_ret.
  - apply safe_seq; [apply safe_fetch_btc|]. intros fs.
    apply safe_seq; [apply safe_report|]. intros _. apply safe_pollers.
  - apply safe_maintenance.
Qed.

Lemma audited_inv a : audited a -> audit_inv a.
Proof.
  induction 1 as [|a op r a' _ IH Hok Hr|a mode client sui_time started delay _ IH].
  - split; cbn; [done|apply map_Forall_empty..].
  - pose proof (safe_run_op op Hok a IH) as Hs. unfold safe_at in Hs. rewrite Hr in Hs. by destruct r.
  - destruct (restart_restores a (cfg_timing a) mode client sui_time started delay
      (from_wire (held_to_wire (utxo_pool a))) IH) as (Hw & Hd & _).
    unfold audit_inv. rewrite Hw, Hd. exact IH.
Qed.

(** C29: the auditor never panics.  Take any history of Sui, guardian, Bitcoin and maintenance
    ticks in any order, with any answers of the sources and any failures, and with restarts
    from the snapshot in between.  Every open machine is then filed under its own id and
    satisfies its machine's invariant, and no further tick panics: the [expect]s on the
    events of a completed withdrawal, on the timing bounds and on the earliest event of an
    open withdrawal never fire. *)
Theorem auditor_never_panics a :
  audited a -> audit_inv a /\ forall op, op_ok op -> (run_op op a).1 <> Panic.
Proof.
  intros Ha%audited_inv. split; [done|]. intros op Hok Hp.
  pose proof (safe_run_op op Hok a Ha) as Hs. unfold safe_at in Hs.
  destruct (run_op op a) as [r a']. cbn in Hp. by rewrite Hp in Hs.
Qed.

(** A restart continues the audit.  The auditor started from the snapshot of any reachable
    auditor holds the same open withdrawals and deposits under the same ids, the same
    suspect spends, the same pool and the same supply clock, and its pollers resume at the
    saved positions.  The fresh approvals are not kept. *)
Theorem snapshot_restart (a : auditor) mode (client : C) sui_time started delay :
  audited a ->
  let b := auditor_start (cfg_timing a) mode client sui_time started delay (state a)
             (from_wire (held_to_wire (utxo_pool a))) in
  pending_withdrawals b = pending_withdrawals a /\ pending_deposits b = pending_deposits a
  /\ suspect_spends b = suspect_spends a /\ utxo_pool b = utxo_pool a
  /\ hbtc_supply_above_pool_since b = hbtc_supply_above_pool_since a
  /\ sui_next_checkpoint (rpc_pollers b) = sui_next_checkpoint (rpc_pollers a)
  /\ guardian_cursor (rpc_pollers b) = guardian_cursor (rpc_pollers a)
  /\ fresh_approvals b = ∅ /\ audit_inv b.
Proof.
  intros Ha. pose proof (audited_inv _ Ha) as Hi.
  destruct (restart_restores a (cfg_timing a) mode client sui_time started delay
    (from_wire (held_to_wire (utxo_pool a))) Hi) as (Hw & Hd & Hs).
  cbn zeta. split_and!; try done; [apply pool_wire_roundtrip|]. by apply audited_inv, audited_restart.
Qed.

(** ** Suspect spends *)

(** The inputs that the open withdrawals list, with the withdrawal, in order of its id. *)
Definition listed_inputs (a : auditor) : list (WithdrawalStateMachine * MoveUtxo) :=
  sort_by (fun a b => sm_wid a <=? sm_wid b) (map_to_list (pending_withdrawals a)).*2
    ≫= fun sm => (sm,.) <$> tx_inputs (sm_tx sm).

Lemma pending_spenders_flat (a : auditor) :
  pending_spenders a = fold_left (fun acc e => claim e.1 acc e.2) (listed_inputs a) (∅, []).
Proof.
  unfold pending_spenders, listed_inputs. generalize (∅ : gmap OutPoint (WithdrawalID * Txid), [] : list MonitorFinding).
  induction (sort_by _ _) as [|sm l IH]; intros acc; cbn; [done|]. rewrite fold_left_app, IH. f_equal.
  clear IH. revert acc. induction (tx_inputs (sm_tx sm)) as [|x xs IH]; intros acc; cbn; [done|]. by rewrite IH.
Qed.

Abbreviation listed_outpoints l := ((fun e : WithdrawalStateMachine * MoveUtxo => mu_id e.2) <$> l).

(** An input maps to one of the withdrawals that list it. *)
Lemma claim_lookup (l : list (WithdrawalStateMachine * MoveUtxo)) : forall acc o,
  (o ∉ listed_outpoints l -> (fold_left (fun acc e => claim e.1 acc e.2) l acc).1 !! o = acc.1 !! o)
  /\ (o ∈ listed_outpoints l -> exists e, e ∈ l /\ mu_id e.2 = o
       /\ (fold_left (fun acc e => claim e.1 acc e.2) l acc).1 !! o = Some (sm_wid e.1, sm_btc_txid e.1)).
Proof.
  induction l as [|e l IH]; intros acc o; cbn [fold_left fmap list_fmap].
  { split; [done|]. by intros ?%elem_of_nil. }
  destruct (IH (claim e.1 acc e.2) o) as [Hn Hy]. split.
  - intros [Hne Hl]%not_elem_of_cons. rewrite (Hn Hl). cbn. by apply lookup_insert_ne.
  - intros Ho. destruct (decide (o ∈ listed_outpoints l)) as [Hl|Hl].
    + destruct (Hy Hl) as (e' & He' & ? & ?). exists e'. split_and!; try done. by right.
    + apply elem_of_cons in Ho as [->|]; [|done]. exists e. split_and!; [left|done|].
      rewrite (Hn Hl). cbn. apply lookup_insert_eq.
Qed.

(** No claim is reported exactly when no outpoint is listed twice. *)
Lemma claims_nil (l : list (WithdrawalStateMachine * MoveUtxo)) : forall acc,
  (fold_left (fun acc e => claim e.1 acc e.2) l acc).2 = []
  <-> acc.2 = [] /\ NoDup (listed_outpoints l) /\ (forall o, o ∈ listed_outpoints l -> acc.1 !! o = None).
Proof.
  induction l as [|e l IH]; intros acc; cbn [fold_left fmap list_fmap].
  { split; [|tauto]. intros ->. split_and!; [done|constructor|by intros o ?%elem_of_nil]. }
  rewrite IH, NoDup_cons. cbn [claim fst snd]. split.
  - intros ([Ha Hc]%app_nil & Hnd & Hd).
    assert (mu_id e.2 ∉ listed_outpoints l) as Hnin.
    { intros Hin. specialize (Hd _ Hin). by rewrite lookup_insert_eq in Hd. }
    split_and!; try done. intros o [->|Ho]%elem_of_cons.
    + by destruct (acc.1 !! mu_id e.2) as [[other x]|].
    + rewrite <- (Hd o Ho). symmetry. apply lookup_insert_ne. by intros <-.
  - intros (Ha & [Hnin Hnd] & Hd). pose proof (Hd (mu_id e.2) (list_elem_of_here _ _)) as He.
    rewrite Ha, He. split_and!; [done..|].
    intros o Ho. rewrite lookup_insert_ne by (by intros <-). apply Hd. by right.
Qed.

Lemma elem_of_listed (a : auditor) e :
  e ∈ listed_inputs a <-> (exists w, pending_withdrawals a !! w = Some e.1) /\ e.2 ∈ tx_inputs (sm_tx e.1).
Proof.
  unfold listed_inputs. rewrite list_elem_of_bind. destruct e as [sm x]. cbn.
  assert (forall s, s ∈ sort_by (fun a b => sm_wid a <=? sm_wid b) (map_to_list (pending_withdrawals a)).*2
            <-> exists w, pending_withdrawals a !! w = Some s) as Hs.
  { intros s. rewrite elem_of_sort_by, list_elem_of_fmap. split.
    - intros ([w s'] & -> & Hin%elem_of_map_to_list). eauto.
    - intros [w Hw]. exists (w, s). split; [done|]. by apply elem_of_map_to_list. }
  setoid_rewrite Hs. split.
  - intros (sm' & Hin & Hw). apply list_elem_of_fmap in Hin as (x' & [= -> ->] & Hx). done.
  - intros [Hw Hx]. exists sm. split; [|done]. by apply list_elem_of_fmap_2.
Qed.

Lemma explained_sound (a : auditor) m o :
  explained (pending_spenders a).1 m o = true ->
  exists w sm, pending_withdrawals a !! w = Some sm /\ o ∈ mu_id <$> tx_inputs (sm_tx sm)
    /\ sm_btc_txid sm ∈ m.
Proof.
  unfold explained. rewrite pending_spenders_flat.
  destruct (claim_lookup (listed_inputs a) (∅, []) o) as [Hn Hy].
  destruct (decide (o ∈ listed_outpoints (listed_inputs a))) as [Hl|Hl].
  - destruct (Hy Hl) as (e & [[w Hw] Hx]%elem_of_listed & <- & ->).
    intros Hm%bool_decide_eq_true. exists w, e.1. split_and!; try done. by apply list_elem_of_fmap_2.
  - rewrite (Hn Hl). cbn. by rewrite lookup_empty.
Qed.

(** With one claim per input, a mined claimant explains the spend. *)
Lemma explained_complete (a : auditor) m o w sm :
  (pending_spenders a).2 = [] ->
  pending_withdrawals a !! w = Some sm -> o ∈ mu_id <$> tx_inputs (sm_tx sm) -> sm_btc_txid sm ∈ m ->
  explained (pending_spenders a).1 m o = true.
Proof.
  unfold explained. rewrite pending_spenders_flat. intros (_ & Hnd & _)%claims_nil Hw (x & -> & Hx)%list_elem_of_fmap Hm.
  assert ((sm, x) ∈ listed_inputs a) as He by (apply elem_of_listed; eauto).
  destruct (claim_lookup (listed_inputs a) (∅, []) (mu_id x)) as [_ Hy].
  destruct Hy as (e' & He' & Hid & ->); [by apply (list_elem_of_fmap_2 (fun e => mu_id e.2) _ _ He)|].
  assert (e' = (sm, x)) as -> by (by eapply NoDup_fmap_inj_on). by apply bool_decide_eq_true.
Qed.

Definition ready_suspects (a : auditor) : gmap OutPoint SuspectSpend :=
  filter (fun e => checked_at e.2 < sui_read_until (rpc_pollers a))
    (filter (fun e => holds (utxo_pool a) e.1 = true) (suspect_spends a)).

Lemma ready_suspects_lookup a o s :
  ready_suspects a !! o = Some s <->
  suspect_spends a !! o = Some s /\ is_Some (utxo_pool a !! o) /\ checked_at s < sui_read_until (rpc_pollers a).
Proof.
  unfold ready_suspects, holds. rewrite !map_lookup_filter_Some. cbn. rewrite bool_decide_eq_true. tauto.
Qed.

(** The state [check_suspect_spends] judges in, and its judgement. *)
Lemma check_suspects_run (a : auditor) :
  exists a1, check_suspect_spends a = judge_suspects (ready_suspects a) (pending_spenders a).1 a1
    /\ btc_client (rpc_pollers a1) = btc_client (rpc_pollers a)
    /\ (forall o s, suspect_spends a1 !! o = Some s <-> suspect_spends a !! o = Some s
         /\ is_Some (utxo_pool a !! o) /\ sui_read_until (rpc_pollers a) <= checked_at s).
Proof.
  set (sui := sui_read_until (rpc_pollers a)).
  set (a0 := set_suspects (filter (fun e => holds (utxo_pool a) e.1 = true) (suspect_spends a)) a).
  set (a1 := set_suspects (filter (fun e => ~ checked_at e.2 < sui) (suspect_spends a0)) a0).
  exists (report_findings (pending_spenders a).2 a1).2. split; [|split; [done|]].
  - unfold check_suspect_spends, mbind, M_bind. cbn [modify read id]. fold a0.
    change (pending_spenders a0) with (pending_spenders a).
    destruct (pending_spenders a) as [sp cl]. reflexivity.
  - intros o s. unfold a1, a0, holds. cbn. rewrite !map_lookup_filter_Some. cbn.
    rewrite bool_decide_eq_true, Z.nlt_ge. tauto.
Qed.

Lemma judge_suspects_cases ready sp (a1 : auditor) :
  exists fs a' mined, judge_suspects ready sp a1 = (Ok fs, a')
    /\ suspect_spends a' = match mined with Some _ => suspect_spends a1 | None => ready ∪ suspect_spends a1 end
    /\ (forall f, f ∈ fs <-> exists o s m, mined = Some m /\ ready !! o = Some s
          /\ explained sp m o = false /\ f = UtxoUnexpectedSpend o (suspect_amount s))
    /\ (forall m, mined = Some m -> exists l c', btc_lookup_mined l (btc_client (rpc_pollers a1)) = (Ok m, c')
          /\ forall o s w x, ready !! o = Some s -> sp !! o = Some (w, x) -> x ∈ l).
Proof.
  unfold judge_suspects. set (txids := list_to_set _ : gset Txid). unfold on_btc, zoom.
  destruct (btc_lookup_mined (elements txids) (btc_client (rpc_pollers a1))) as [[m|e|] c] eqn:Hm.
  - eexists _, _, (Some m). split; [reflexivity|]. split; [done|]. split.
    + intros f. rewrite list_elem_of_omap. split.
      * intros ([o s] & Hin%elem_of_map_to_list & Hf). cbn in Hf.
        destruct (explained sp m o) eqn:He; [done|]. injection Hf as <-. eauto 10.
      * intros (o & s & m' & [= <-] & Hr & He & ->). exists (o, s). rewrite elem_of_map_to_list. cbn.
        by rewrite He.
    + intros m' [= <-]. exists (elements txids), c. split; [done|]. intros o s w x Hr Hx.
      apply elem_of_elements, elem_of_list_to_set, list_elem_of_omap. exists (o, s).
      rewrite elem_of_map_to_list. cbn. by rewrite Hx.
  - eexists _, _, None. split; [reflexivity|]. split; [done|]. split; [|done].
    intros f. split; [by intros ?%elem_of_nil|]. by intros (? & ? & ? & ? & _).
  - by apply lookup_mined_no_panic in Hm.
Qed.

(** Suspect spends are judged once, and exactly.  A spend the pool check saw is dropped
    when the pool no longer holds the outpoint, and it waits while the Sui cursor has not
    passed the time of the check or while Bitcoin cannot be asked.  Otherwise it is
    reported as unexpected unless an open withdrawal that lists the outpoint as an input is
    mined.  An open withdrawal that is mined always explains the spends of its inputs, as
    long as no input is listed twice, which is itself reported. *)
Theorem suspect_spends_judged (a : auditor) :
  exists fs a' mined, check_suspect_spends a = (Ok fs, a')
    /\ (forall o s, suspect_spends a' !! o = Some s <->
          suspect_spends a !! o = Some s /\ is_Some (utxo_pool a !! o)
          /\ (sui_read_until (rpc_pollers a) <= checked_at s \/ mined = None))
    /\ (forall f, f ∈ fs <-> exists o s m, mined = Some m /\ ready_suspects a !! o = Some s
          /\ explained (pending_spenders a).1 m o = false /\ f = UtxoUnexpectedSpend o (suspect_amount s))
    /\ (forall m, mined = Some m -> exists l c',
          btc_lookup_mined l (btc_client (rpc_pollers a)) = (Ok m, c')
          /\ forall o s w x, ready_suspects a !! o = Some s ->
               (pending_spenders a).1 !! o = Some (w, x) -> x ∈ l)
    /\ (forall m o, explained (pending_spenders a).1 m o = true ->
          exists w sm, pending_withdrawals a !! w = Some sm /\ o ∈ mu_id <$> tx_inputs (sm_tx sm)
            /\ sm_btc_txid sm ∈ m)
    /\ (forall m o w sm, (pending_spenders a).2 = [] -> pending_withdrawals a !! w = Some sm ->
          o ∈ mu_id <$> tx_inputs (sm_tx sm) -> sm_btc_txid sm ∈ m ->
          explained (pending_spenders a).1 m o = true)
    /\ ((pending_spenders a).2 = [] <-> NoDup (listed_outpoints (listed_inputs a))).
Proof.
  destruct (check_suspects_run a) as (a1 & -> & Hc & Hw).
  destruct (judge_suspects_cases (ready_suspects a) (pending_spenders a).1 a1) as (fs & a' & mined & -> & Hs & Hf & Hm).
  rewrite Hc in Hm. exists fs, a', mined. split; [done|]. split; [|split; [done|split; [done|]]].
  - intros o s. rewrite Hs. destruct mined as [m|]; [rewrite Hw; naive_solver|].
    rewrite lookup_union_Some_raw, ready_suspects_lookup, Hw. split; [naive_solver|].
    intros (Ho & Hp & _). destruct (Z.lt_ge_cases (checked_at s) (sui_read_until (rpc_pollers a))); [by left|].
    right. split; [|done]. apply eq_None_not_Some. intros [s' (Hs' & _ & ?)%ready_suspects_lookup].
    simplify_eq. lia.
  - split_and!; [apply explained_sound|intros; by eapply explained_complete|].
    rewrite pending_spenders_flat, claims_nil. cbn. split; [by intros (_ & ? & _)|].
    intros Hnd. split_and!; [done..|]. intros o _. apply lookup_empty.
Qed.

(** ** Fresh approvals *)

(** A fresh approval of a spent outpoint is reported before its mint.  A Bitcoin tick
    forgets the approvals whose delay is about to end, asks Bitcoin about the outpoints of
    the others, and reports exactly the approvals that are still fresh when the answer
    arrives and whose outpoint is spent, in a block or in the mempool.  An approval is kept
    for the next tick exactly if it is still fresh and Bitcoin does not show its outpoint;
    after a failed lookup every fresh approval is kept. *)
Theorem fresh_approvals_judged (a : auditor) tip now finished :
  match check_fresh_approvals tip now finished a with
  | (Panic, _) => False
  | (Err _, a') => forall o e, fresh_approvals a' !! o = Some e <->
      fresh_approvals a !! o = Some e /\ is_fresh a e now = true
  | (Ok fs, a') => exists states,
      (forall f, f ∈ fs <-> exists o e, fresh_approvals a !! o = Some e /\ is_fresh a e now = true
         /\ is_fresh a e finished = true /\ states !! o = Some Spent /\ f = DepositUnbacked e)
      /\ (forall o e, fresh_approvals a' !! o = Some e <-> fresh_approvals a !! o = Some e
         /\ is_fresh a e now = true /\ is_fresh a e finished = true
         /\ (states !! o = None \/ states !! o = Some Missing))
      /\ ((forall o e, fresh_approvals a !! o = Some e -> is_fresh a e now = false)
          \/ exists l c', btc_lookup_outpoint_states l tip true (btc_client (rpc_pollers a)) = (Ok states, c')
               /\ forall o, o ∈ l <-> exists e, fresh_approvals a !! o = Some e /\ is_fresh a e now = true)
  end.
Proof.
  unfold check_fresh_approvals, mbind, M_bind. cbn [drop_stale_approvals modify read].
  set (ap := filter (fun e => is_fresh a e.2 now = true) (fresh_approvals a)).
  assert (forall o e, ap !! o = Some e <-> fresh_approvals a !! o = Some e /\ is_fresh a e now = true) as Hap.
  { intros o e. apply map_lookup_filter_Some. }
  change (fresh_approvals (set_fresh ap a)) with ap. case_bool_decide as He.
  - cbn. exists ∅. rewrite He in *. split_and!.
    + intros f. split; [by intros ?%elem_of_nil|]. intros (o & e & Ho & Hf & _).
      pose proof (proj2 (Hap o e) (conj Ho Hf)) as Hx. by rewrite lookup_empty in Hx.
    + intros o e. rewrite lookup_empty. split; [done|]. intros (Ho & Hf & _).
      pose proof (proj2 (Hap o e) (conj Ho Hf)) as Hx. by rewrite lookup_empty in Hx.
    + left. intros o e Ho. apply not_true_iff_false. intros Hf.
      pose proof (proj2 (Hap o e) (conj Ho Hf)) as Hx. by rewrite lookup_empty in Hx.
  - unfold on_btc, zoom. cbn [rpc_pollers set_fresh].
    destruct (btc_lookup_outpoint_states _ tip true _) as [[states|e|] c] eqn:Hl; cbn;
      [|done|by apply outpoint_states_no_panic in Hl].
    exists states. split_and!.
    + intros f. rewrite list_elem_of_omap. split.
      * intros ([o e] & Hin%elem_of_map_to_list & Hs).
        apply map_lookup_filter_Some in Hin as [Ho Hf]. cbn in Hf, Hs.
        apply Hap in Ho as [Ho Hn]. destruct (states !! o) as [[| |]|] eqn:Hst; try done.
        injection Hs as <-. eauto 10.
      * intros (o & e & Ho & Hn & Hf & Hst & ->). exists (o, e). rewrite elem_of_map_to_list. cbn.
        rewrite Hst. split; [|done]. apply map_lookup_filter_Some. split; [by apply Hap|done].
    + intros o e. cbn [fresh_approvals set_fresh set_pollers]. rewrite !map_lookup_filter_Some.
      cbn [fst snd]. rewrite Hap. unfold not_shown.
      change (is_fresh (set_pollers _ _) e finished) with (is_fresh a e finished).
      destruct (states !! o) as [[| |]|]; intuition discriminate.
    + right. exists (map_to_list ap).*1, c. split; [done|]. intros o. rewrite list_elem_of_fmap. split.
      * intros ([o' e] & -> & Hin%elem_of_map_to_list). exists e. by apply Hap.
      * intros (e & Hoe). exists (o, e). split; [done|]. by apply elem_of_map_to_list, Hap.
Qed.

(** ** The hBTC supply *)

(** One reading: the supply, the pool value and the clock. *)
Definition reading : Type := Z * Z * UnixSeconds.
Definition excess (r : reading) : bool := negb (r.1.1 <=? r.1.2).

Definition supply_since (rs : list reading) (since : option UnixSeconds) : option UnixSeconds :=
  fold_left (fun since r => (judge_hbtc_supply since r.1.1 r.1.2 r.2).1) rs since.

Lemma supply_since_cons r rs since :
  supply_since (r :: rs) since
  = supply_since rs (if excess r then Some (default r.2 since) else None).
Proof.
  unfold supply_since, excess. cbn [fold_left]. f_equal. unfold judge_hbtc_supply.
  by destruct (r.1.1 <=? r.1.2).
Qed.

Lemma supply_since_app rs rs' since :
  supply_since (rs ++ rs') since = supply_since rs' (supply_since rs since).
Proof. apply fold_left_app. Qed.

Lemma supply_since_run rs : forall since,
  Forall (fun r => excess r = true) rs ->
  supply_since rs since = match since with Some t => Some t | None => snd <$> head rs end.
Proof.
  induction rs as [|r rs IH]; intros since Hrs; [by destruct since|].
  inversion Hrs as [|? ? Hr Hrs']; subst. rewrite supply_since_cons, Hr, IH by done. by destruct since.
Qed.

(** The hBTC alert.  Over any sequence of readings, the finding is raised at a reading
    exactly when the supply exceeds the pool value there and has exceeded it at every
    reading since one at least [HBTC_SUPPLY_GRACE] earlier, and it names the first reading
    of that unbroken run; one reading that is backed resets the clock. *)
Theorem hbtc_alert_exact before run s p now :
  (before = [] \/ exists before' r, before = before' ++ [r] /\ excess r = false) ->
  Forall (fun r => excess r = true) run ->
  (judge_hbtc_supply (supply_since (before ++ run) None) s p now).2 =
    let since := default now (snd <$> head run) in
    if excess (s, p, now) && (HBTC_SUPPLY_GRACE <=? sat_sub now since)
    then Some (HbtcSupplyExceedsPool s p since) else None.
Proof.
  intros Hb Hr. rewrite supply_since_app. assert (supply_since before None = None) as ->.
  { destruct Hb as [->|(before' & r & -> & He)]; [done|].
    by rewrite supply_since_app, supply_since_cons, He. }
  rewrite (supply_since_run run None Hr).
  unfold judge_hbtc_supply, excess. cbn. by destruct (s <=? p).
Qed.

(** ** Maintenance *)

Lemma after_deposits ds o : forall p : UtxoPool,
  let q := fold_left (fun m d => partial_alter (merge_utxo (fd_utxo d)) (fd_deposit_id d) m) ds p in
  (((exists u, p !! o = Some u /\ in_move_pool (u_origin u) = true)
    \/ exists d, d ∈ ds /\ fd_deposit_id d = o /\ u_origin (fd_utxo d) = Deposit) ->
   exists u, q !! o = Some u /\ in_move_pool (u_origin u) = true)
  /\ (p !! o = None -> o ∉ fd_deposit_id <$> ds -> q !! o = None).
Proof.
  induction ds as [|d ds IH]; intros p; cbn.
  { split; [|done]. intros [?|(d & ?%elem_of_nil & _)]; done. }
  destruct (IH (partial_alter (merge_utxo (fd_utxo d)) (fd_deposit_id d) p)) as [IH1 IH2]. split.
  - intros Hor. apply IH1. destruct (decide (fd_deposit_id d = o)) as [<-|Hne].
    + rewrite lookup_partial_alter_eq. unfold merge_utxo.
      destruct Hor as [(u & Hu & Hm)|(d' & [->|Hd']%elem_of_cons & Hid & Ho)].
      * left. rewrite Hu. eexists. split; [reflexivity|]. by apply merge_origin_in_move.
      * left. destruct (p !! fd_deposit_id d) as [h|]; eexists; (split; [reflexivity|]); [|by rewrite Ho].
        cbn. rewrite Ho. by destruct (u_origin h).
      * right. eauto.
    + rewrite lookup_partial_alter_ne by done.
      destruct Hor as [?|(d' & [->|Hd']%elem_of_cons & Hid & Ho)]; [by left|done|right; eauto].
  - intros Hp [Hne Hnin]%not_elem_of_cons. apply IH2; [|done]. by rewrite lookup_partial_alter_ne.
Qed.

(** Maintenance closes flows in order.  One pass removes exactly the machines that are
    ready, adds every paid deposit to the pool, and then applies the confirmed withdrawals
    to it: afterwards the pool holds what it held, the deposits and the change outputs,
    minus every input of the withdrawals.  No [UtxoOutsideMovePoolSpent] is reported if
    each input, spent once, was held in Move's pool, is an approved deposit that closes in
    the same pass, or is the change of a withdrawal of the pass that nothing else holds,
    whichever order the machines are visited in. *)
Theorem maintenance_closes_flows (a : auditor) :
  audit_inv a ->
  exists fs pool a', gc_and_update_pool a = (Ok fs, a')
    /\ audit_inv a'
    /\ (forall w sm, pending_withdrawals a' !! w = Some sm <->
          pending_withdrawals a !! w = Some sm /\ is_ready_for_gc sm = false)
    /\ (forall r sm, pending_deposits a' !! r = Some sm <->
          pending_deposits a !! r = Some sm /\ deposit_is_ready_for_gc sm = false)
    /\ pool = fold_left (fun m d => partial_alter (merge_utxo (fd_utxo d)) (fd_deposit_id d) m)
                (closed_deposits a) (utxo_pool a)
    /\ (forall o, utxo_pool a' !! o =
          if bool_decide (o ∈ fst <$> spends_of (closed_withdrawals a)) then None
          else (pool ∪ changes_of (closed_withdrawals a)) !! o)
    /\ (NoDup (fst <$> spends_of (closed_withdrawals a)) ->
        (forall o, o ∈ fst <$> spends_of (closed_withdrawals a) ->
           (exists u, utxo_pool a !! o = Some u /\ in_move_pool (u_origin u) = true)
           \/ (exists d, d ∈ closed_deposits a /\ fd_deposit_id d = o /\ u_origin (fd_utxo d) = Deposit)
           \/ (utxo_pool a !! o = None /\ o ∉ fd_deposit_id <$> closed_deposits a
               /\ is_Some (changes_of (closed_withdrawals a) !! o))) ->
        existsb is_outside_spend fs = false).
Proof.
  intros Ha. destruct (gc_Ok a Ha) as (fs & fs' & pool & pool' & a' & Hgc & Hd & Hw & Hi & Hp & Hpw & Hpd).
  destruct (add_deposits_Ok (closed_deposits a) (utxo_pool a)) as [gs Hgs].
  rewrite Hgs in Hd. injection Hd as -> Hpool.
  destruct (add_withdrawals_Ok pool (closed_withdrawals a)) as (f1 & f2 & p2 & Hw' & Hlk & Hf1 & Hf2).
  rewrite Hw' in Hw. injection Hw as <- <-.
  exists (fs ++ f1 ++ f2), pool, a'. split; [done|]. split; [done|]. split_and!.
  - intros w sm. rewrite Hpw. apply map_lookup_filter_Some.
  - intros r sm. rewrite Hpd. apply map_lookup_filter_Some.
  - by rewrite Hpool.
  - by rewrite Hp.
  - intros Hnd Hcov. rewrite !existsb_app, Hf1, (Hf2 Hnd).
    rewrite (add_deposits_not_outside _ _ _ _ Hgs). apply existsb_omap_none. intros [o x] f Hin Hf. cbn in Hf.
    rewrite covered_not_outside in Hf; [done|]. rewrite <- Hpool.
    destruct (after_deposits (closed_deposits a) o (utxo_pool a)) as [Had1 Had2].
    destruct (Hcov o) as [?|[?|(Hn & Hnd' & Hch)]]; [by apply (list_elem_of_fmap_2 fst) in Hin|left; auto..|].
    right. auto.
Qed.
End theorems.

(** * The auditor on a small history

    The witnesses of the auditor's theorems.  The Bitcoin node serves the two-block chain of
    [SmallChain] with one required confirmation.  Sui requests and approves a deposit of
    output 1:0 and picks a withdrawal that spends it; the guardian approves the
    withdrawal; both transactions are confirmed; the deposit and the withdrawal close in
    the same maintenance pass. *)

Module SmallAudit.
Import SmallChain SmallClient.

Abbreviation auditor := (Auditor Client).

Definition request : SuiDepositRequestedEvent := mkSuiDepositRequestedEvent 3 900 (1, 0) 5 [].
Definition approval : SuiDepositApprovedEvent := mkSuiDepositApprovedEvent 905 3 (1, 0) 5 [].
(** An approval so late that its output is spent before the delay ends. *)
Definition hasty_approval : SuiDepositApprovedEvent := mkSuiDepositApprovedEvent 1500 3 (1, 0) 5 [].
Definition spending : WithdrawalTx := WithdrawalTx_new [mkMoveUtxo (1, 0) 5 None] [] [mkOutputUtxo 4 []].
Definition picked : MonitorWithdrawalEvent := mkMonitorWithdrawalEvent E1HashiApproved 8 1510 2 spending.
Definition signed : MonitorWithdrawalEvent := mkMonitorWithdrawalEvent E2GuardianApproved 8 1520 2 spending.

Definition first_run : auditor :=
  auditor_start protocol_timing Strict shallow_client 800 800 600
    (mkAuditState 10 (guardian_cursor_new 0) [] [] [] None) ∅.

Definition sui_tick : audit_op := OpSui [Ok (mkSuiPoll []
  [(MEDepositRequested request, 1530); (MEDepositApproved approval, 1530); (MEWithdrawal picked, 1530)] 20 1525)].
Definition guardian_tick : audit_op := OpGuardian [Ok (mkGuardianPoll [(MEWithdrawal signed, 1540)] [] (guardian_cursor_new 0))].

Definition after (op : audit_op) (a : auditor) : auditor := (run_op op a).2.
Definition ingested : auditor := after guardian_tick (after sui_tick first_run).
Definition answered : auditor := after (OpBtc 1650 1651) ingested.

Lemma after_audited op (a : auditor) : audited a -> op_ok op -> audited (after op a).
Proof. intros Ha Hop. unfold after. destruct (run_op op a) as [r a'] eqn:E. by eapply audited_tick. Qed.

Lemma ingested_audited : audited ingested.
Proof.
  apply after_audited; [apply after_audited; [apply audited_first, protocol_timing_ok|]|];
    repeat constructor; done.
Qed.

Lemma answered_audited : audited answered.
Proof. apply after_audited; [apply ingested_audited|done]. Qed.

(** The whole history runs without a finding and leaves the change in the pool. *)
Example small_history :
  let a := (gc_and_update_pool answered).2 in
  logged (reports a) = [] /\ outpoints (utxo_pool a) = [(2, 0)]
  /\ pending_withdrawals a = ∅ /\ pending_deposits a = ∅.
Proof. vm_compute. done. Qed.

Lemma auditor_never_panics_witness :
  audit_inv answered /\ (run_op (OpBtc 1700 1700) answered).1 <> Panic.
Proof.
  destruct (auditor_never_panics answered answered_audited) as [Hi Hn]. split; [exact Hi|].
  apply Hn. exact I.
Defined.

Lemma snapshot_restart_witness :
  pending_withdrawals (auditor_start (cfg_timing answered) Strict fresh_client 0 0 0 (state answered)
    (from_wire (held_to_wire (utxo_pool answered)))) = pending_withdrawals answered.
Proof. exact (proj1 (snapshot_restart answered Strict fresh_client 0 0 0 answered_audited)). Defined.

Lemma btc_tick_all_or_nothing_witness :
  exists c, map_Forall2 (fun _ sm sm' => fetched_deposit (cfg_timing ingested) c 1650 sm sm')
    (pending_deposits ingested) (pending_deposits (fetch_btc_info 1650 1651 ingested).2).
Proof.
  pose proof (btc_tick_all_or_nothing ingested 1650 1651 (audited_inv _ ingested_audited)) as Ht.
  assert (is_ok (fetch_btc_info 1650 1651 ingested).1 = true) as Hok by (vm_compute; reflexivity).
  destruct (fetch_btc_info 1650 1651 ingested) as [[fs|e|] a'];
    [|discriminate Hok|discriminate Hok].
  destruct Ht as (c & _ & Hd & _). exists c. exact Hd.
Defined.

Lemma suspect_spends_judged_witness :
  exists fs a', check_suspect_spends answered = (Ok fs, a').
Proof.
  destruct (suspect_spends_judged answered) as (fs & a' & mined & Hr & _). exists fs, a'. exact Hr.
Defined.

Definition hasty : auditor :=
  after (OpSui [Ok (mkSuiPoll [] [(MEDepositRequested request, 1530); (MEDepositApproved hasty_approval, 1530)]
                  20 1525)]) first_run.

Lemma fresh_approvals_judged_witness :
  exists fs, (check_fresh_approvals 1 1540 1541 hasty).1 = Ok fs /\ DepositUnbacked hasty_approval ∈ fs.
Proof.
  pose proof (fresh_approvals_judged hasty 1 1540 1541) as Ht.
  assert (is_ok (check_fresh_approvals 1 1540 1541 hasty).1 = true) as Hok by (vm_compute; reflexivity).
  destruct (check_fresh_approvals 1 1540 1541 hasty) as [[fs|err|] a'] eqn:E;
    [|discriminate Hok|discriminate Hok].
  exists fs. split; [reflexivity|]. destruct Ht as (states & Hf & _ & [Hno|(l & c' & Hl & _)]).
  - exfalso. specialize (Hno (1, 0) hasty_approval eq_refl). vm_compute in Hno. discriminate Hno.
  - assert (fs = [DepositUnbacked hasty_approval]) as ->; [|left].
    vm_compute in E. injection E as <- _. reflexivity.
Defined.

Lemma hbtc_alert_exact_witness :
  (judge_hbtc_supply (supply_since ([(5, 7, 100)] ++ [(8, 7, 200); (9, 7, 300)]) None) 8 7 11000).2
  = Some (HbtcSupplyExceedsPool 8 7 200).
Proof.
  apply (hbtc_alert_exact [(5, 7, 100)] [(8, 7, 200); (9, 7, 300)] 8 7 11000).
  - right. exists [], (5, 7, 100). split; reflexivity.
  - repeat constructor.
Defined.

Lemma maintenance_closes_flows_witness :
  exists fs a', gc_and_update_pool answered = (Ok fs, a') /\ existsb is_outside_spend fs = false
    /\ utxo_pool a' !! (1, 0) = None.
Proof.
  destruct (maintenance_closes_flows answered (audited_inv _ answered_audited))
    as (fs & pool & a' & Hr & _ & _ & _ & _ & Hp & Hf).
  assert (fst <$> spends_of (closed_withdrawals answered) = [(1, 0)]) as Hin by (vm_compute; reflexivity).
  assert (closed_deposits answered = [mkFinishedDeposit (1, 0) (mkUtxo 5 [] Deposit 1000)]) as Hdep
    by (vm_compute; reflexivity).
  exists fs, a'. split; [exact Hr|]. split.
  - apply Hf; rewrite Hin; [apply NoDup_singleton|]. intros o ->%list_elem_of_singleton. right. left.
    exists (mkFinishedDeposit (1, 0) (mkUtxo 5 [] Deposit 1000)). rewrite Hdep. split; [left|split; reflexivity].
  - rewrite Hp, bool_decide_true; [reflexivity|]. rewrite Hin. left.
Defined.
End SmallAudit.
