(* ===== verification/Bitmap.v ===== *)
(** * The signers bitmap

    [BitMap] of [crates/hashi-types/src/committee.rs]: the members that signed a
    certificate, one bit per member, the first member in the highest bit of the first
    byte.  A bitmap can come from a peer, so nothing is assumed of its bytes. *)

From Stdlib Require Import ZifyNat.
From S2P Require Import Prelude.

Abbreviation BitMap := (list Z).

Definition bitmap_new : BitMap := [].

(** [1 << (7 - bit_index)] *)
Definition bit_mask (b : nat) : Z := Z.shiftl 1 (Z.of_nat (7 - b mod 8)).

(** Set the given index and return the previous value. *)
Definition bitmap_insert {E} (b : nat) : M BitMap E bool :=
  let byte_index := (b / 8)%nat in
  _ ← modify (fun bm => if (length bm <=? byte_index)%nat then resize (S byte_index) 0 bm else bm);
  byte ← (fun bm => (expect (bm !! byte_index), bm));
  _ ← modify (fun bm => <[byte_index := Z.lor byte (bit_mask b)]> bm);
  mret (negb (Z.land byte (bit_mask b) =? 0)).

Definition byte_iter (byte_index : nat) (byte : Z) : list nat :=
  (fun bit_index => byte_index * 8 + bit_index)%nat <$>
    filter (fun bit_index => Z.land byte (bit_mask bit_index) <> 0) (seq 0 8).

Definition bitmap_iter (bm : BitMap) : list nat := mjoin (imap byte_iter bm).

Definition bitmap_contains (bm : BitMap) (b : nat) : bool :=
  let byte_index := (b / 8)%nat in
  match bm !! byte_index with
  | Some byte => negb (Z.land byte (bit_mask b) =? 0)
  | None => false
  end.

(** [lia] with division by constants. *)
Ltac div_lia := Z.to_euclidean_division_equations; lia.
Ltac nat_div_lia := zify; div_lia.

(** ** A bit of a byte *)

Lemma land_mask_testbit x b :
  negb (Z.land x (bit_mask b) =? 0) = Z.testbit x (Z.of_nat (7 - b mod 8)).
Proof.
  unfold bit_mask. set (k := Z.of_nat _). assert (0 <= k) by lia.
  destruct (Z.testbit x k) eqn:E.
  - apply negb_true_iff, Z.eqb_neq. intros Hz.
    assert (Z.testbit (Z.land x (Z.shiftl 1 k)) k = true) as Ht; [|by rewrite Hz, Z.bits_0 in Ht].
    by rewrite Z.land_spec, E, Z.shiftl_spec, Z.sub_diag by done.
  - apply negb_false_iff, Z.eqb_eq, Z.bits_inj'. intros n Hn.
    rewrite Z.land_spec, Z.bits_0, Z.shiftl_spec by done.
    destruct (decide (n = k)) as [->|]; [by rewrite E|].
    destruct (decide (n < k)); [rewrite (Z.testbit_neg_r 1) by lia; by rewrite andb_false_r|].
    replace (Z.testbit 1 (n - k)) with false; [by rewrite andb_false_r|].
    symmetry. apply Z.bits_above_log2; [done|]. rewrite Z.log2_1. lia.
Qed.

(** The bit of index [b], with the bits after the last byte clear. *)
Lemma contains_testbit bm b :
  bitmap_contains bm b = Z.testbit (default 0 (bm !! (b / 8)%nat)) (Z.of_nat (7 - b mod 8)).
Proof.
  unfold bitmap_contains. destruct (bm !! _) as [x|]; cbn; [apply land_mask_testbit|].
  by rewrite Z.bits_0.
Qed.

(** ** What [iter] visits *)

Lemma elem_of_byte_iter i x b :
  b ∈ byte_iter i x <-> (b / 8)%nat = i /\ Z.land x (bit_mask b) <> 0.
Proof.
  unfold byte_iter. rewrite list_elem_of_fmap. split.
  - intros (j & -> & [Hj Hin]%list_elem_of_filter). apply elem_of_seq in Hin.
    assert ((i * 8 + j) mod 8 = j)%nat as Hm by nat_div_lia.
    split; [nat_div_lia|]. unfold bit_mask in *. rewrite Hm. rewrite (Nat.mod_small j) in Hj by lia. done.
  - intros [Hi Hx]. exists (b mod 8)%nat. split; [nat_div_lia|].
    apply list_elem_of_filter. split; [|apply elem_of_seq; nat_div_lia].
    unfold bit_mask in *. by rewrite Nat.Div0.mod_mod.
Qed.

(** [iter] visits exactly the indexes [contains] accepts. *)
Lemma elem_of_iter bm b : b ∈ bitmap_iter bm <-> bitmap_contains bm b = true.
Proof.
  unfold bitmap_iter, bitmap_contains. cbn zeta. rewrite list_elem_of_join. split.
  - intros (l & Hb & (i & x & -> & Hx)%elem_of_lookup_imap_1).
    apply elem_of_byte_iter in Hb as [<- Hb]. rewrite Hx. by apply negb_true_iff, Z.eqb_neq.
  - destruct (bm !! _) as [x|] eqn:Hx; [|done]. intros Hb%negb_true_iff%Z.eqb_neq.
    exists (byte_iter (b / 8) x). split; [by apply elem_of_byte_iter|].
    by apply elem_of_lookup_imap_2.
Qed.

(** [iter] goes upwards, so it visits no index twice. *)
Lemma byte_iter_sorted i x : StronglySorted lt (byte_iter i x).
Proof.
  unfold byte_iter. apply (StronglySorted_fmap_mono lt); [lia|].
  assert (StronglySorted lt (seq 0 8)) as Hs by (repeat constructor).
  induction Hs as [|y l _ IH Hy]; [constructor|].
  rewrite filter_cons. destruct (decide _); [|done]. constructor; [done|].
  apply Forall_forall. intros z [_ Hz]%list_elem_of_filter. by eapply Forall_forall in Hy.
Qed.

Lemma iter_sorted bm : StronglySorted lt (bitmap_iter bm).
Proof.
  unfold bitmap_iter.
  assert (forall off, StronglySorted lt (mjoin (imap (fun i => byte_iter (off + i)) bm))) as H;
    [|exact (H O)].
  induction bm as [|x bm IH]; intros off; [constructor|]. rewrite imap_cons. cbn [mjoin list_join].
  apply StronglySorted_app_2; [|apply byte_iter_sorted|].
  2:{ specialize (IH (S off)). erewrite imap_ext; [exact IH|].
      intros i y _. unfold compose. by rewrite Nat.add_succ_r. }
  intros a b Ha%elem_of_byte_iter (l & Hb & (j & y & -> & _)%elem_of_lookup_imap_1)%list_elem_of_join.
  apply elem_of_byte_iter in Hb as [Hb _]. destruct Ha as [Ha _]. unfold compose in Hb. clear -Ha Hb.
  nat_div_lia.
Qed.

Lemma iter_NoDup bm : NoDup (bitmap_iter bm).
Proof.
  induction (iter_sorted bm) as [|x l _ IH Hx]; constructor; [|done].
  intros Hin. eapply Forall_forall in Hx; [|exact Hin]. lia.
Qed.

(** ** Setting a bit *)

Lemma default_resize (bm : BitMap) n j :
  (length bm <= n)%nat -> default 0 (resize n 0 bm !! j) = default 0 (bm !! j).
Proof.
  intros Hn. destruct (decide (j < length bm)%nat); [by rewrite lookup_resize by lia|].
  rewrite (lookup_ge_None_2 bm) by lia. cbn.
  destruct (decide (j < n)%nat); [by rewrite lookup_resize_new by lia|].
  by rewrite lookup_resize_old by lia.
Qed.

(** [insert] answers whether the bit was set, sets it and no other, and never fails. *)
Lemma bitmap_insert_spec {E} b bm :
  exists bm', bitmap_insert (E:=E) b bm = (Ok (bitmap_contains bm b), bm')
    /\ forall i, bitmap_contains bm' i = bool_decide (i = b) || bitmap_contains bm i.
Proof.
  set (g := if (length bm <=? b / 8)%nat then resize (S (b / 8)) 0 bm else bm).
  assert (b / 8 < length g)%nat as Hlen.
  { unfold g. destruct (Nat.leb_spec (length bm) (b / 8)); [rewrite length_resize|]; lia. }
  assert (forall j, default 0 (g !! j) = default 0 (bm !! j)) as Hdef.
  { intros j. unfold g. destruct (Nat.leb_spec (length bm) (b / 8)); [apply default_resize; lia|done]. }
  destruct (lookup_lt_is_Some_2 g _ Hlen) as [x Hx].
  pose proof (Hdef (b / 8)%nat) as Hd. rewrite Hx in Hd. cbn [default from_option id] in Hd.
  exists (<[(b / 8)%nat := Z.lor x (bit_mask b)]> g). split.
  - unfold bitmap_insert, modify, mbind, M_bind, mret, M_ret. fold g. cbn beta iota zeta.
    fold g. rewrite Hx. cbn [expect]. cbn beta iota. f_equal. f_equal. by rewrite land_mask_testbit, contains_testbit, <- Hd.
  - intros i. rewrite !contains_testbit, <- Hdef.
    destruct (decide (i / 8 = b / 8)%nat) as [Hib|Hib].
    + rewrite Hib, list_lookup_insert_eq, Hx by done. cbn [default from_option id].
      rewrite Z.lor_spec, orb_comm. f_equal. unfold bit_mask.
      rewrite Z.shiftl_spec by lia.
      case_bool_decide as Hi.
      * subst. by rewrite Z.sub_diag.
      * set (n := Z.of_nat (7 - i mod 8)). set (k := Z.of_nat (7 - b mod 8)).
        assert (n <> k) by (subst n k; nat_div_lia).
        destruct (decide (n < k)); [by rewrite (Z.testbit_neg_r 1) by lia|].
        apply Z.bits_above_log2; [done|]. rewrite Z.log2_1. lia.
    + rewrite list_lookup_insert_ne by done. rewrite bool_decide_false; [done|]. by intros ->.
Qed.
