(* ===== verification/Committee.v ===== *)
(** * The signing committee

    [crates/hashi-types/src/committee.rs] with the intents of [intent.rs] and the pinned
    configuration of [move_types/mod.rs]: what a member signs, when a certificate is
    accepted, and how the signatures of the members are aggregated into one.

    The BLS scheme belongs to [fastcrypto] and the reduced weights ([Nodes]) to
    [fastcrypto_tbls]; they are the fields of [Bls] and of [Nodes].  A message is whatever
    type has an intent and a BCS encoding.  [SignatureError] wraps a text in the source; it
    has a constructor per text here. *)

From stdpp Require Import strings.
From S2P Require Import Prelude Bitmap.

(** ** Intents and preimages *)

Inductive Intent :=
| ProofOfPossession
| CommitteeTransition
| ReconfigCompletion
| DealerMessagesHash
| AvssVoteMessagesHash
| AvidVoteMessagesHash
| TlsProofOfPossession
| PresigDealerSet
| DepositConfirmation
| WithdrawalRequestApproval
| WithdrawalCommitment
| MpcInputSignatures
| WithdrawalSigned
| WithdrawalConfirmation
| GuardianWithdrawalRequest.

Definition as_u16 (self : Intent) : Z :=
  match self with
  | ProofOfPossession => 0x0000
  | CommitteeTransition => 0x0001
  | ReconfigCompletion => 0x0002
  | DealerMessagesHash => 0x0003
  | AvssVoteMessagesHash => 0x0004
  | AvidVoteMessagesHash => 0x0005
  | TlsProofOfPossession => 0x0006
  | PresigDealerSet => 0x0007
  | DepositConfirmation => 0x0100
  | WithdrawalRequestApproval => 0x0101
  | WithdrawalCommitment => 0x0102
  | MpcInputSignatures => 0x0103
  | WithdrawalSigned => 0x0104
  | WithdrawalConfirmation => 0x0105
  | GuardianWithdrawalRequest => 0x0106
  end.

(** [trait IntentMessage: Serialize]; [to_bcs] is the encoding [serde] and [bcs] derive. *)
Class IntentMessage (T : Type) := {
  INTENT : Intent;
  to_bcs : T -> list Z;
}.

(** BCS writes an integer of [n] bytes in little-endian order and an address, an array,
    as its 32 bytes. *)
Fixpoint le_bytes (n : nat) (x : Z) : list Z :=
  match n with
  | O => []
  | S n => (x mod 256) :: le_bytes n (x / 256)
  end.
Definition address_bytes (a : Address) : list Z := rev (le_bytes 32 a).

Definition signing_message {T} `{IntentMessage T} (hashi_id : Address) (epoch : Z) (message : T)
    : list Z :=
  le_bytes 2 (as_u16 (INTENT (T:=T))) ++ address_bytes hashi_id ++ le_bytes 8 epoch
  ++ to_bcs message.

Definition tls_proof_of_possession_preimage (hashi_id address : Address)
    (tls_public_key : list Z) : list Z :=
  le_bytes 2 (as_u16 TlsProofOfPossession) ++ address_bytes hashi_id
  ++ (address_bytes address ++ tls_public_key).

(** ** The pinned configuration (move_types/mod.rs) *)

Inductive ConfigValue :=
| U64 (n : Z)
| U128 (n : Z)
| U256 (bytes : list Z)
| AddressValue (a : Address)
| StringValue (s : string)
| Bool (b : bool)
| Bytes (bytes : list Z).

Abbreviation Config := (list (string * ConfigValue)).

Definition KEY_MPC_WEIGHT_REDUCTION_ALLOWED_DELTA : string := "mpc_weight_reduction_allowed_delta".
Definition KEY_MPC_MAX_FAULTY_IN_BASIS_POINTS : string := "mpc_max_faulty_in_basis_points".
Definition KEY_MPC_NONCE_ACCUMULATION_WINDOW_MS : string := "mpc_nonce_accumulation_window_ms".

Definition DEFAULT_MPC_WEIGHT_REDUCTION_ALLOWED_DELTA : Z := 800.
Definition DEFAULT_MPC_MAX_FAULTY_IN_BASIS_POINTS : Z := 3333.
Definition DEFAULT_MPC_NONCE_ACCUMULATION_WINDOW_MS : Z := 2000.

Definition get_u64 (self : Config) (key : string) (default_value : Z) : Z :=
  match List.find (fun e => bool_decide (e.1 = key)) self with
  | Some (_, U64 n) => n
  | _ => default_value
  end.

Definition get_bool (self : Config) (key : string) (default_value : bool) : bool :=
  match List.find (fun e => bool_decide (e.1 = key)) self with
  | Some (_, Bool b) => b
  | _ => default_value
  end.

Definition from_mpc_params (weight_reduction_allowed_delta max_faulty_in_basis_points
    nonce_accumulation_window_ms : Z) : Config :=
  [(KEY_MPC_WEIGHT_REDUCTION_ALLOWED_DELTA, U64 weight_reduction_allowed_delta);
   (KEY_MPC_MAX_FAULTY_IN_BASIS_POINTS, U64 max_faulty_in_basis_points);
   (KEY_MPC_NONCE_ACCUMULATION_WINDOW_MS, U64 nonce_accumulation_window_ms)].

Definition mpc_param {E} (self : Config) (key : string) (default_value : Z) : outcome E Z :=
  let n := get_u64 self key default_value in
  if n <=? 65535 then Ok n else Panic.

Definition mpc_weight_reduction_allowed_delta {E} (self : Config) : outcome E Z :=
  mpc_param self KEY_MPC_WEIGHT_REDUCTION_ALLOWED_DELTA
    DEFAULT_MPC_WEIGHT_REDUCTION_ALLOWED_DELTA.

Definition mpc_max_faulty_in_basis_points {E} (self : Config) : outcome E Z :=
  mpc_param self KEY_MPC_MAX_FAULTY_IN_BASIS_POINTS DEFAULT_MPC_MAX_FAULTY_IN_BASIS_POINTS.

Definition mpc_nonce_accumulation_window_ms (self : Config) : Z :=
  get_u64 self KEY_MPC_NONCE_ACCUMULATION_WINDOW_MS DEFAULT_MPC_NONCE_ACCUMULATION_WINDOW_MS.

(** ** The certificate threshold *)

Definition CERTIFICATE_THRESHOLD_BPS : Z := 6667.
Definition MAX_BPS : Z := 10000.

Definition certificate_threshold (total_weight : Z) : Z :=
  div_ceil (wmul total_weight CERTIFICATE_THRESHOLD_BPS) MAX_BPS.

(** ** The signature scheme *)

Class Bls := {
  BlsPublicKey : Type;
  BlsSignature : Type;
  BlsAggregateSignature : Type;
  EncryptionPublicKey : Type;
  EncryptionPublicKey_eq :: EqDecision EncryptionPublicKey;
  (** [VerifyingKey::verify] *)
  pk_verify : BlsPublicKey -> list Z -> BlsSignature -> bool;
  (** [BLS12381AggregateSignature::from] a signature, [add_signature], [verify] and
      [from_bytes] *)
  aggregate_from : BlsSignature -> BlsAggregateSignature;
  aggregate_add : BlsAggregateSignature -> BlsSignature -> option BlsAggregateSignature;
  aggregate_verify : BlsAggregateSignature -> list BlsPublicKey -> list Z -> bool;
  aggregate_from_bytes : list Z -> option BlsAggregateSignature;
}.

(** What the scheme documents: a valid signature can be aggregated, and the aggregate of
    valid signatures of one message verifies against the keys that signed. *)
Class BlsLaws `{Bls} := {
  aggregate_add_valid pk m s agg :
    pk_verify pk m s = true -> is_Some (aggregate_add agg s);
  aggregate_complete m (s0 : BlsPublicKey * BlsSignature) ss agg pks :
    Forall (fun e => pk_verify e.1 m e.2 = true) (s0 :: ss) ->
    fold_left (fun agg s => agg ≫= fun a => aggregate_add a s.2) ss (Some (aggregate_from s0.2))
      = Some agg ->
    pks ≡ₚ (s0 :: ss).*1 ->
    aggregate_verify agg pks m = true;
}.

Inductive SignatureError :=
| UnknownAddress (a : Address)
| SignatureEpochMismatch (signature_epoch committee_epoch : Z)
| InvalidSignature
| CommitteeMismatch
| InsufficientWeight (signed required : Z)
| InsufficientReducedWeight (signed required : Z)
| NodeCountMismatch (nodes members : nat)
| NodeLookupFailed (index : Z)
| NodeKeyMismatch (index : nat) (member : Address)
| DuplicateSignature
| AggregationFailed
| NoSignatures
| MalformedAggregate.

Section committee.
Context `{B : Bls}.

(** ** Members and the committee *)

Record CommitteeMember := mkCommitteeMember {
  cm_address : Address;
  public_key : BlsPublicKey;
  encryption_public_key : EncryptionPublicKey;
  cm_weight : Z;
}.

Record Committee := mkCommittee {
  c_epoch : Z;
  c_members : list CommitteeMember;
  address_to_index : gmap Address nat;
  total_weight : Z;
  c_config : Config;
}.

Record MemberSignature := mkMemberSignature {
  ms_epoch : Z;
  ms_address : Address;
  ms_signature : BlsSignature;
}.

(** Collecting into a [HashMap] keeps the last entry of an address. *)
Definition with_config (members : list CommitteeMember) (epoch : Z) (config : Config)
    : Committee :=
  mkCommittee epoch members
    (fold_left (fun m e => <[e.1 := e.2]> m)
       (imap (fun index member => (cm_address member, index)) members) ∅)
    (usum (cm_weight <$> members)) config.

Definition committee_new (members : list CommitteeMember)
    (epoch mpc_weight_reduction_allowed_delta mpc_max_faulty_in_basis_points : Z) : Committee :=
  with_config members epoch
    (from_mpc_params mpc_weight_reduction_allowed_delta mpc_max_faulty_in_basis_points 0).

Definition size (self : Committee) : nat := length (c_members self).

Definition member (self : Committee) (address : Address) : outcome SignatureError CommitteeMember :=
  match address_to_index self !! address with
  | Some index => expect (c_members self !! index)
  | None => Err (UnknownAddress address)
  end.

Definition weight_of (self : Committee) (address : Address) : outcome SignatureError Z :=
  cm_weight <$> member self address.

Definition index_of (self : Committee) (address : Address) : option nat :=
  address_to_index self !! address.

Definition committee_verify {T} `{IntentMessage T} (self : Committee) (hashi_id : Address)
    (message : T) (signature : MemberSignature) : outcome SignatureError unit :=
  _ ← guard (c_epoch self =? ms_epoch signature)
        (SignatureEpochMismatch (ms_epoch signature) (c_epoch self));
  let message_bytes := signing_message hashi_id (ms_epoch signature) message in
  m ← member self (ms_address signature);
  guard (pk_verify (public_key m) message_bytes (ms_signature signature)) InvalidSignature.

(** ** Certificates *)

Record CommitteeSignature := mkCommitteeSignature {
  cs_epoch : Z;
  cs_signature : BlsAggregateSignature;
  signers_bitmap : BitMap;
}.

Record SignedMessage {T : Type} := mkSignedMessage {
  sm_signature : CommitteeSignature;
  sm_message : T;
}.

Definition verify_committee (self : CommitteeSignature) (committee : Committee)
    : outcome SignatureError unit :=
  guard (negb (negb (c_epoch committee =? cs_epoch self)
               || existsb (fun i => size committee <=? i)%nat (bitmap_iter (signers_bitmap self))))
    CommitteeMismatch.

(** [members[index]] for every bit that is set. *)
Definition signing_members (self : CommitteeSignature) (committee : Committee)
    : outcome SignatureError (list CommitteeMember) :=
  mapM (fun index => expect (c_members committee !! index)) (bitmap_iter (signers_bitmap self)).

Definition signers (self : CommitteeSignature) (committee : Committee)
    : outcome SignatureError (list Address) :=
  _ ← verify_committee self committee;
  ms ← signing_members self committee;
  Ok (cm_address <$> (ms : list _)).

Definition signature_weight (self : CommitteeSignature) (committee : Committee)
    : outcome SignatureError Z :=
  _ ← verify_committee self committee;
  ms ← signing_members self committee;
  Ok (usum (cm_weight <$> (ms : list _))).

Definition is_signer (self : CommitteeSignature) (address : Address) (committee : Committee)
    : outcome SignatureError bool :=
  _ ← verify_committee self committee;
  match address_to_index committee !! address with
  | Some index => Ok (bitmap_contains (signers_bitmap self) index)
  | None => Err (UnknownAddress address)
  end.

Definition verify_signature_any_weight {T} `{IntentMessage T} (self : Committee)
    (hashi_id : Address) (signed_message : SignedMessage (T:=T)) : outcome SignatureError unit :=
  let sig := sm_signature signed_message in
  _ ← verify_committee sig self;
  ms ← signing_members sig self;
  let message_bytes := signing_message hashi_id (cs_epoch sig) (sm_message signed_message) in
  guard (aggregate_verify (cs_signature sig) (public_key <$> (ms : list _)) message_bytes) InvalidSignature.

Definition verify_signature_and_weight {T} `{IntentMessage T} (self : Committee)
    (hashi_id : Address) (signed_message : SignedMessage (T:=T)) (required_weight : Z)
    : outcome SignatureError unit :=
  signed_weight ← signature_weight (sm_signature signed_message) self;
  _ ← guard (negb (signed_weight <? required_weight))
        (InsufficientWeight signed_weight required_weight);
  verify_signature_any_weight self hashi_id signed_message.

Definition signed_message_new {T} (epoch : Z) (message : T)
    (signature_bytes signers_bitmap_bytes : list Z) : outcome SignatureError (SignedMessage (T:=T)) :=
  match aggregate_from_bytes signature_bytes with
  | Some signature =>
      Ok (mkSignedMessage T (mkCommitteeSignature epoch signature signers_bitmap_bytes) message)
  | None => Err MalformedAggregate
  end.

Definition try_from_parts {T} `{IntentMessage T} (hashi_id : Address) (epoch : Z) (message : T)
    (signature_bytes signers_bitmap_bytes : list Z) (committee : Committee) (threshold : Z)
    : outcome SignatureError (SignedMessage (T:=T)) :=
  signed_message ← signed_message_new epoch message signature_bytes signers_bitmap_bytes;
  _ ← verify_signature_and_weight committee hashi_id signed_message threshold;
  Ok signed_message.

(** ** Reduced weights

    [Nodes] of [fastcrypto_tbls]: the key and the [u16] weight of every node id. *)

Record Nodes := mkNodes {
  num_nodes : nat;
  node_id_to_node : Z -> option EncryptionPublicKey;
  node_weight_of : Z -> option Z;
}.

(** [index as u16] *)
Definition as_party_id (index : nat) : Z := Z.of_nat index mod 2 ^ 16.

Definition bind_nodes_to_committee (committee : Committee) (nodes : Nodes)
    : outcome SignatureError unit :=
  _ ← guard (num_nodes nodes =? size committee)%nat
        (NodeCountMismatch (num_nodes nodes) (size committee));
  _ ← mapM (fun '(index, member) =>
         match node_id_to_node nodes (as_party_id index) with
         | None => Err (NodeLookupFailed (as_party_id index))
         | Some pk => guard (bool_decide (pk = encryption_public_key member))
                        (NodeKeyMismatch index (cm_address member))
         end) (imap pair (c_members committee));
  Ok tt.

(** [Iterator::sum::<u32>] *)
Definition usum32 (l : list Z) : Z := fold_left (fun a b => (a + b) mod 2 ^ 32) l 0.

Definition reduced_weight (self : CommitteeSignature) (committee : Committee) (nodes : Nodes)
    : outcome SignatureError Z :=
  _ ← verify_committee self committee;
  _ ← bind_nodes_to_committee committee nodes;
  ws ← mapM (fun index => expect (node_weight_of nodes (as_party_id index)))
         (bitmap_iter (signers_bitmap self));
  Ok (usum32 ws).

Definition verify_signature_and_reduced_weight {T} `{IntentMessage T} (self : Committee)
    (hashi_id : Address) (signed_message : SignedMessage (T:=T)) (nodes : Nodes)
    (required_weight : Z) : outcome SignatureError Z :=
  signed_weight ← reduced_weight (sm_signature signed_message) self nodes;
  _ ← guard (negb (signed_weight <? required_weight))
        (InsufficientReducedWeight signed_weight required_weight);
  _ ← verify_signature_any_weight self hashi_id signed_message;
  Ok signed_weight.

(** ** Aggregation

    [WeightDomain] is how an aggregator counts what its signers weigh. *)

Class WeightDomain (W : Type) := {
  add_signer : Committee -> nat -> M W SignatureError unit;
}.

Record CommitteeWeight := mkCommitteeWeight { cw_signed : Z }.

Record ReducedWeight := mkReducedWeight {
  rw_nodes : Nodes;
  rw_signed : Z;
}.

#[export] Instance committee_weight_domain : WeightDomain CommitteeWeight := {|
  add_signer committee index := fun w =>
    match c_members committee !! index with
    | Some m => (Ok tt, mkCommitteeWeight (wadd (cw_signed w) (cm_weight m)))
    | None => (Panic, w)
    end
|}.

#[export] Instance reduced_weight_domain : WeightDomain ReducedWeight := {|
  add_signer committee index := fun w =>
    match node_weight_of (rw_nodes w) (as_party_id index) with
    | Some x => (Ok tt, mkReducedWeight (rw_nodes w) ((rw_signed w + x) mod 2 ^ 16))
    | None => (Panic, w)
    end
|}.

Definition reduced_weight_new (committee : Committee) (nodes : Nodes)
    : outcome SignatureError ReducedWeight :=
  _ ← bind_nodes_to_committee committee nodes;
  Ok (mkReducedWeight nodes 0).

Section aggregator.
Context {T W : Type} `{IntentMessage T}.

Record BlsSignatureAggregator := mkBlsSignatureAggregator {
  ag_committee : Committee;
  ag_hashi_id : Address;
  aggregate_signature : option BlsAggregateSignature;
  ag_bitmap : BitMap;
  ag_message : T;
  ag_domain : W;
}.

Definition set_bitmap (bm : BitMap) (a : BlsSignatureAggregator) : BlsSignatureAggregator :=
  mkBlsSignatureAggregator (ag_committee a) (ag_hashi_id a) (aggregate_signature a) bm
    (ag_message a) (ag_domain a).
Definition set_aggregate (s : BlsAggregateSignature) (a : BlsSignatureAggregator)
    : BlsSignatureAggregator :=
  mkBlsSignatureAggregator (ag_committee a) (ag_hashi_id a) (Some s) (ag_bitmap a)
    (ag_message a) (ag_domain a).
Definition set_domain (w : W) (a : BlsSignatureAggregator) : BlsSignatureAggregator :=
  mkBlsSignatureAggregator (ag_committee a) (ag_hashi_id a) (aggregate_signature a) (ag_bitmap a)
    (ag_message a) w.

Definition aggregator_with (hashi_id : Address) (committee : Committee) (message : T) (w : W)
    : BlsSignatureAggregator :=
  mkBlsSignatureAggregator committee hashi_id None bitmap_new message w.

Definition add_signature `{WeightDomain W} (signature : MemberSignature)
    : M BlsSignatureAggregator SignatureError unit := fun self =>
  let committee := ag_committee self in
  (_ ← of_outcome (committee_verify committee (ag_hashi_id self) (ag_message self) signature);
   index ← of_outcome (match address_to_index committee !! ms_address signature with
                       | Some index => Ok index
                       | None => Err (UnknownAddress (ms_address signature))
                       end);
   previous ← zoom ag_bitmap set_bitmap (bitmap_insert index);
   _ ← ensure (negb previous) DuplicateSignature;
   _ ← (fun self =>
          match aggregate_signature self with
          | None => (Ok tt, set_aggregate (aggregate_from (ms_signature signature)) self)
          | Some agg =>
              match aggregate_add agg (ms_signature signature) with
              | Some agg => (Ok tt, set_aggregate agg self)
              | None => (Err AggregationFailed, self)
              end
          end);
   zoom ag_domain set_domain (add_signer committee index)) self.

Definition add_signature_from `{WeightDomain W} (signer : Address) (signature : BlsSignature)
    : M BlsSignatureAggregator SignatureError unit := fun self =>
  add_signature (mkMemberSignature (c_epoch (ag_committee self)) signer signature) self.

Definition finish (self : BlsSignatureAggregator) : outcome SignatureError (SignedMessage (T:=T)) :=
  match aggregate_signature self with
  | None => Err NoSignatures
  | Some signature =>
      let signed_message :=
        mkSignedMessage T (mkCommitteeSignature (c_epoch (ag_committee self)) signature
                             (ag_bitmap self)) (ag_message self) in
      _ ← verify_signature_any_weight (ag_committee self) (ag_hashi_id self) signed_message;
      Ok signed_message
  end.
End aggregator.

Arguments BlsSignatureAggregator : clear implicits.

Definition aggregator_new {T} (hashi_id : Address) (committee : Committee) (message : T)
    : BlsSignatureAggregator T CommitteeWeight :=
  aggregator_with hashi_id committee message (mkCommitteeWeight 0).

Definition aggregator_weight {T} (self : BlsSignatureAggregator T CommitteeWeight) : Z :=
  cw_signed (ag_domain self).

Definition new_reduced {T} (hashi_id : Address) (committee : Committee) (message : T)
    (nodes : Nodes) : outcome SignatureError (BlsSignatureAggregator T ReducedWeight) :=
  w ← reduced_weight_new committee nodes;
  Ok (aggregator_with hashi_id committee message w).

Definition aggregator_reduced_weight {T} (self : BlsSignatureAggregator T ReducedWeight) : Z :=
  rw_signed (ag_domain self).

Definition reduced_weight_reached {T} (self : BlsSignatureAggregator T ReducedWeight)
    (weight : Z) : bool :=
  weight <=? rw_signed (ag_domain self).

End committee.
Arguments SignedMessage {B} T : rename.
Arguments BlsSignatureAggregator {B} T W.
