(* ===== verification/CommitteeProofs.v ===== *)
(** * The signing committee: theorems

    What an accepted certificate means, that two certificates share an honest signer, that
    the aggregator's certificates are accepted at the weight it reports, and that a
    signature belongs to one kind of message, one deployment and one epoch. *)

From S2P Require Import Prelude Bitmap Committee.

(** ** Lists *)

Lemma mapM_Ok {E A B} (f : A -> outcome E B) l k :
  mapM f l = Ok k <-> Forall2 (fun x y => f x = Ok y) l k.
Proof.
  split.
  - revert k. induction l as [|x l IH]; intros k H; cbn in H; [injection H as <-; constructor|].
    inv_ok. injection H as <-. constructor; eauto.
  - induction 1 as [|x y l k Hx _ IH]; cbn; [done|]. by rewrite Hx; cbn; rewrite IH.
Qed.

Lemma mapM_expect {E A B} (f : A -> option B) l :
  (forall x, x ∈ l -> is_Some (f x)) -> mapM (fun x => expect (E:=E) (f x)) l = Ok (omap f l).
Proof.
  induction l as [|x l IH]; intros H; cbn; [done|].
  destruct (H x ltac:(left)) as [y Hy]. rewrite Hy. cbn. rewrite IH; [done|].
  intros z Hz. apply H. by right.
Qed.

Lemma lookup_fold_insert {K V} `{Countable K} (l : list (K * V)) : forall (m : gmap K V) k v,
  fold_left (fun m e => <[e.1 := e.2]> m) l m !! k = Some v -> (k, v) ∈ l \/ m !! k = Some v.
Proof.
  induction l as [|[k' v'] l IH]; intros m k v Hk; cbn in Hk; [by right|].
  apply IH in Hk as [Hk|Hk]; [left; by right|].
  apply lookup_insert_Some in Hk as [[<- <-]|[_ Hk]]; [left; by left|by right].
Qed.

(** ** Sums over distinct indexes *)

Section sums.
Context (w : nat -> Z) (n : nat).
Hypothesis w_nonneg : forall i, 0 <= w i.

Lemma w_all_nonneg l : Forall (fun x => 0 <= x) (w <$> l).
Proof. apply Forall_fmap, Forall_true. intros i. cbn. apply w_nonneg. Qed.

Lemma sum_distinct_le l k : NoDup l -> l ⊆ k -> zsum (w <$> l) <= zsum (w <$> k).
Proof.
  intros Hl Hsub. apply zsum_submseteq; [apply w_all_nonneg|].
  apply fmap_submseteq', NoDup_submseteq; done.
Qed.

(** Two sets below [n] that together weigh more than everything below [n] overlap by at
    least the excess. *)
Lemma sum_overlap l k :
  NoDup l -> NoDup k -> (forall i, i ∈ l -> (i < n)%nat) -> (forall i, i ∈ k -> (i < n)%nat) ->
  zsum (w <$> l) + zsum (w <$> k)
  <= zsum (w <$> filter (.∈ k) l) + zsum (w <$> seq 0 n).
Proof.
  intros Hl Hk Hln Hkn.
  assert (zsum (w <$> k)
          = zsum (w <$> filter (.∈ l) k) + zsum (w <$> filter (.∉ l) k)) as Hsplit.
  { rewrite <- zsum_app, <- fmap_app. apply zsum_perm, fmap_Permutation.
    symmetry. apply (filter_app_complement (.∈ l)). }
  assert (zsum (w <$> filter (.∈ l) k) = zsum (w <$> filter (.∈ k) l)) as Hcom.
  { apply zsum_perm, fmap_Permutation, NoDup_Permutation; [by apply NoDup_filter..|].
    intros i. rewrite !list_elem_of_filter. tauto. }
  assert (zsum (w <$> l ++ filter (.∉ l) k) <= zsum (w <$> seq 0 n)) as Hun.
  { apply sum_distinct_le.
    - apply NoDup_app. split_and!; [done| |by apply NoDup_filter].
      intros i Hi [Hni _]%list_elem_of_filter. done.
    - intros i [Hi|[_ Hi]%list_elem_of_filter]%elem_of_app; apply elem_of_seq;
        [apply Hln in Hi|apply Hkn in Hi]; lia. }
  rewrite fmap_app, zsum_app in Hun. lia.
Qed.
End sums.

Section proofs.
Context `{B : Bls}.

(** ** Well-formed committees

    The fields of a committee are private: every committee comes from [with_config]. *)

Definition committee_wf (c : Committee) : Prop :=
  c = with_config (c_members c) (c_epoch c) (c_config c).

Definition weight_at (c : Committee) (i : nat) : Z := from_option cm_weight 0 (c_members c !! i).

(** The weights are [u64]s whose sum is one too. *)
Definition weights_fit (c : Committee) : Prop :=
  Forall (fun m => 0 <= cm_weight m) (c_members c)
  /\ zsum (cm_weight <$> c_members c) <= u64_max.

Lemma weight_at_nonneg c i : weights_fit c -> 0 <= weight_at c i.
Proof.
  intros [Hw _]. unfold weight_at. destruct (c_members c !! i) as [m|] eqn:Hm; cbn; [|done].
  by eapply Forall_lookup in Hw.
Qed.

Lemma weights_seq c : weight_at c <$> seq 0 (size c) = cm_weight <$> c_members c.
Proof.
  apply list_eq. intros i. rewrite !list_lookup_fmap. unfold weight_at, size.
  destruct (decide (i < length (c_members c))%nat) as [Hi|Hi].
  - rewrite lookup_seq_lt by done. cbn.
    destruct (lookup_lt_is_Some_2 _ _ Hi) as [m ->]. done.
  - rewrite lookup_seq_ge, lookup_ge_None_2 by lia. done.
Qed.

Lemma total_weight_exact c :
  committee_wf c -> weights_fit c -> total_weight c = zsum (weight_at c <$> seq 0 (size c)).
Proof.
  intros -> [Hw Hs]. cbn in *. rewrite weights_seq. cbn. apply usum_small; [|done].
  by apply Forall_fmap.
Qed.

Lemma index_member c a i :
  committee_wf c -> address_to_index c !! a = Some i ->
  exists m, c_members c !! i = Some m /\ cm_address m = a.
Proof.
  intros -> [Hin|Hin]%lookup_fold_insert; [|by rewrite lookup_empty in Hin].
  apply elem_of_lookup_imap_1 in Hin as (j & m & Heq & Hm). cbn.
  injection Heq as -> ->. eauto.
Qed.

Lemma member_index c i m :
  committee_wf c -> NoDup (cm_address <$> c_members c) ->
  c_members c !! i = Some m -> address_to_index c !! cm_address m = Some i.
Proof.
  intros -> Hnd Hm. cbn in *.
  set (l := imap (fun index member => (cm_address member, index)) (c_members c)).
  assert (NoDup l.*1) as Hl.
  { unfold l. rewrite fmap_imap. erewrite imap_ext; [by rewrite (imap_const cm_address)|done]. }
  rewrite fold_insert_list_to_map, (right_id_L ∅ (∪)) by done.
  apply elem_of_list_to_map_1; [done|]. unfold l.
  by apply (elem_of_lookup_imap_2 (fun index member => (cm_address member, index))).
Qed.

Lemma member_Ok c a m :
  committee_wf c ->
  member c a = Ok m <-> exists i, address_to_index c !! a = Some i /\ c_members c !! i = Some m.
Proof.
  intros Hwf. unfold member. destruct (address_to_index c !! a) as [i|].
  - rewrite expect_Ok. split; [eauto|]. by intros (j & [= ->] & ?).
  - split; [done|]. by intros (j & ? & _).
Qed.

(** ** Certificates *)

Lemma verify_committee_Ok s c :
  verify_committee s c = Ok tt <->
  c_epoch c = cs_epoch s
  /\ forall i, bitmap_contains (signers_bitmap s) i = true -> (i < size c)%nat.
Proof.
  unfold verify_committee.
  rewrite guard_Ok, negb_true_iff, orb_false_iff, negb_false_iff, Z.eqb_eq.
  apply and_iff_compat_l. setoid_rewrite <- elem_of_iter.
  rewrite <- not_true_iff_false, existsb_exists. split.
  - intros H i Hi. destruct (decide (i < size c)%nat); [done|]. destruct H. exists i.
    rewrite <- list_elem_of_In. split; [done|]. apply Nat.leb_le. lia.
  - intros H (i & Hi%list_elem_of_In & Hle%Nat.leb_le). apply H in Hi. lia.
Qed.

Definition signing_members_of (c : Committee) (bm : BitMap) : list CommitteeMember :=
  omap (fun i => c_members c !! i) (bitmap_iter bm).

(** Once the bitmap is checked against the committee no index is out of range. *)
Lemma signing_members_eq s c :
  verify_committee s c = Ok tt ->
  signing_members s c = Ok (signing_members_of c (signers_bitmap s)).
Proof.
  intros [_ Hlt]%verify_committee_Ok. apply mapM_expect. intros i Hi.
  apply lookup_lt_is_Some_2, Hlt, elem_of_iter, Hi.
Qed.

Lemma signers_bounded s c i :
  verify_committee s c = Ok tt -> i ∈ bitmap_iter (signers_bitmap s) -> (i < size c)%nat.
Proof. intros [_ Hlt]%verify_committee_Ok Hi. apply Hlt, elem_of_iter, Hi. Qed.

Lemma weights_of_signers s c :
  verify_committee s c = Ok tt ->
  cm_weight <$> signing_members_of c (signers_bitmap s)
  = weight_at c <$> bitmap_iter (signers_bitmap s).
Proof.
  intros Hv. unfold signing_members_of. pose proof (fun i => signers_bounded s c i Hv) as Hb.
  induction (bitmap_iter (signers_bitmap s)) as [|i l IH]; [done|]. cbn.
  destruct (lookup_lt_is_Some_2 (c_members c) i (Hb i ltac:(left))) as [m Hm].
  rewrite Hm. cbn. unfold weight_at at 1. rewrite Hm. cbn. f_equal. apply IH.
  intros j Hj. apply Hb. by right.
Qed.

Lemma signer_weight_le c l :
  weights_fit c -> NoDup l -> (forall i, i ∈ l -> (i < size c)%nat) ->
  0 <= zsum (weight_at c <$> l) <= u64_max.
Proof.
  intros Hw Hnd Hl. split; [by apply zsum_nonneg, w_all_nonneg; intros; apply weight_at_nonneg|].
  etrans; [|apply Hw]. rewrite <- weights_seq.
  apply sum_distinct_le; [by intros; apply weight_at_nonneg|done|].
  intros i Hi%Hl. apply elem_of_seq. lia.
Qed.

Lemma signature_weight_Ok s c w :
  signature_weight s c = Ok w <->
  verify_committee s c = Ok tt /\ w = usum (weight_at c <$> bitmap_iter (signers_bitmap s)).
Proof.
  unfold signature_weight. split.
  - intros H. inv_ok. destruct v. rewrite signing_members_eq in E0 by done. injection E0 as <-.
    by rewrite weights_of_signers in H.
  - intros [Hv ->]. rewrite Hv. cbn. rewrite signing_members_eq by done. cbn.
    by rewrite weights_of_signers.
Qed.

(** An exact weight, as the signers are distinct. *)
Lemma signature_weight_exact s c w :
  weights_fit c -> signature_weight s c = Ok w ->
  w = zsum (weight_at c <$> bitmap_iter (signers_bitmap s)).
Proof.
  intros Hw [Hv ->]%signature_weight_Ok.
  pose proof (signer_weight_le c (bitmap_iter (signers_bitmap s)) Hw (iter_NoDup _)
                (fun i => signers_bounded s c i Hv)).
  apply usum_small; [apply w_all_nonneg; intros; by apply weight_at_nonneg|lia].
Qed.

Lemma verify_weight_Ok {T} `{IntentMessage T} c h (sm : SignedMessage T) required :
  verify_signature_and_weight c h sm required = Ok tt <->
  exists w, signature_weight (sm_signature sm) c = Ok w /\ required <= w
    /\ verify_signature_any_weight c h sm = Ok tt.
Proof.
  unfold verify_signature_and_weight. split.
  - intros H'. inv_ok. apply negb_true_iff, Z.ltb_ge in E0. eauto.
  - intros (w & Hw & Hle & Hv). rewrite Hw. cbn.
    replace (w <? required) with false by (symmetry; apply Z.ltb_ge; lia). cbn. done.
Qed.

(** ** Two certificates share an honest signer *)

(** The weight of the members whose address is in [faulty]. *)
Definition weight_in (c : Committee) (faulty : gset Address) : Z :=
  zsum (cm_weight <$> filter (fun m => cm_address m ∈ faulty) (c_members c)).

Definition address_in (faulty : gset Address) (m : option CommitteeMember) : bool :=
  from_option (fun m => bool_decide (cm_address m ∈ faulty)) false m.

Lemma weight_in_indexes c faulty :
  weight_in c faulty
  = zsum (weight_at c <$> filter (fun i => address_in faulty (c_members c !! i) = true)
                            (seq 0 (size c))).
Proof.
  unfold weight_in, size, weight_at. generalize (c_members c). intros l. clear.
  assert (forall k, zsum (cm_weight <$> filter (fun m => cm_address m ∈ faulty) l)
    = zsum ((fun i => from_option cm_weight 0 ((k ++ l) !! i)) <$>
        filter (fun i => address_in faulty ((k ++ l) !! i) = true)
          (seq (length k) (length l)))) as Hgen; [|exact (Hgen [])].
  induction l as [|m l IH]; intros k; [done|]. specialize (IH (k ++ [m])).
  rewrite length_app, <- app_assoc in IH. cbn [length app] in IH. rewrite Nat.add_1_r in IH.
  cbn [length seq]. rewrite !filter_cons.
  assert ((k ++ m :: l) !! length k = Some m) as Hm by by apply list_lookup_middle.
  destruct (decide (cm_address m ∈ faulty)) as [Hin|Hin].
  - rewrite decide_True by (rewrite Hm; by apply bool_decide_eq_true).
    cbn [fmap list_fmap]. rewrite !zsum_cons, Hm. cbn [from_option]. by rewrite IH.
  - rewrite decide_False; [done|]. rewrite Hm. cbn. by rewrite bool_decide_eq_true.
Qed.

Lemma threshold_bounds t :
  0 <= t -> t * CERTIFICATE_THRESHOLD_BPS <= u64_max ->
  6667 * t <= 10000 * certificate_threshold t.
Proof.
  intros Ht Hfit. unfold certificate_threshold, CERTIFICATE_THRESHOLD_BPS, MAX_BPS in *.
  rewrite wmul_small by u64_lia.
  pose proof (div_ceil_bounds (t * 6667) 10000 ltac:(lia)). lia.
Qed.

Lemma signers_Ok s c l :
  signers s c = Ok l <->
  verify_committee s c = Ok tt /\ l = cm_address <$> signing_members_of c (signers_bitmap s).
Proof.
  unfold signers. split.
  - intros H. inv_ok. destruct v. rewrite signing_members_eq in E0 by done. by injection E0 as <-.
  - intros [Hv ->]. rewrite Hv. cbn. by rewrite signing_members_eq.
Qed.

(** C10: As long as the faulty members hold at most a third of the weight, any two
    certificates of one committee at the certificate threshold, whatever they certify, name
    a common signer that is not faulty. *)
Theorem quorum_intersection {T1 T2} `{IntentMessage T1, IntentMessage T2} c h1 h2
    (m1 : SignedMessage T1) (m2 : SignedMessage T2) (faulty : gset Address) :
  committee_wf c -> weights_fit c -> 0 < total_weight c ->
  total_weight c * CERTIFICATE_THRESHOLD_BPS <= u64_max ->
  3 * weight_in c faulty <= total_weight c ->
  verify_signature_and_weight c h1 m1 (certificate_threshold (total_weight c)) = Ok tt ->
  verify_signature_and_weight c h2 m2 (certificate_threshold (total_weight c)) = Ok tt ->
  exists m l1 l2, m ∈ c_members c /\ cm_address m ∉ faulty
    /\ signers (sm_signature m1) c = Ok l1 /\ cm_address m ∈ l1
    /\ signers (sm_signature m2) c = Ok l2 /\ cm_address m ∈ l2.
Proof.
  intros Hwf Hfit Hpos Hbps Hfaulty (w1 & Hw1 & Hle1 & _)%verify_weight_Ok
    (w2 & Hw2 & Hle2 & _)%verify_weight_Ok.
  pose proof (signature_weight_exact _ _ _ Hfit Hw1) as E1.
  pose proof (signature_weight_exact _ _ _ Hfit Hw2) as E2.
  apply signature_weight_Ok in Hw1 as [Hv1 _], Hw2 as [Hv2 _].
  set (b1 := bitmap_iter (signers_bitmap (sm_signature m1))) in *.
  set (b2 := bitmap_iter (signers_bitmap (sm_signature m2))) in *.
  pose proof (threshold_bounds (total_weight c) ltac:(lia) Hbps) as Hth.
  pose proof (sum_overlap (weight_at c) (size c) (fun i => weight_at_nonneg c i Hfit) b1 b2
    (iter_NoDup _) (iter_NoDup _) (fun i => signers_bounded _ c i Hv1)
    (fun i => signers_bounded _ c i Hv2)) as Hov.
  rewrite <- total_weight_exact in Hov by done.
  set (common := filter (.∈ b2) b1) in *.
  destruct (decide (Exists (fun i => address_in faulty (c_members c !! i) = false) common))
    as [Hex|Hex].
  - apply Exists_exists in Hex as (i & [Hi2 Hi1]%list_elem_of_filter & Hi).
    destruct (lookup_lt_is_Some_2 (c_members c) i (signers_bounded _ c i Hv1 Hi1)) as [m Hm].
    rewrite Hm in Hi. apply bool_decide_eq_false in Hi as Hnf.
    exists m, (cm_address <$> signing_members_of c (signers_bitmap (sm_signature m1))),
      (cm_address <$> signing_members_of c (signers_bitmap (sm_signature m2))).
    split_and!; [by eapply list_elem_of_lookup_2|done|by apply signers_Ok| |by apply signers_Ok|];
      apply list_elem_of_fmap_2; apply list_elem_of_omap; eauto.
  - exfalso. rewrite weight_in_indexes in Hfaulty.
    assert (zsum (weight_at c <$> common) <= zsum (weight_at c <$> filter
      (fun i => address_in faulty (c_members c !! i) = true) (seq 0 (size c)))) as Hle; [|lia].
    apply sum_distinct_le; [by intros; apply weight_at_nonneg|apply NoDup_filter, iter_NoDup|].
    intros i Hi. apply list_elem_of_filter. split.
    + destruct (address_in faulty _) eqn:Hin; [done|]. destruct Hex. apply Exists_exists. eauto.
    + apply list_elem_of_filter in Hi as [_ Hi%(signers_bounded _ c i Hv1)]. apply elem_of_seq. lia.
Qed.

(** ** The views of a certificate *)

Lemma verify_committee_no_panic s c : verify_committee s c <> Panic.
Proof. unfold verify_committee, guard. by destruct (negb _). Qed.

Lemma verify_committee_cases s c :
  verify_committee s c = Ok tt \/ verify_committee s c = Err CommitteeMismatch.
Proof. unfold verify_committee, guard. destruct (negb _); auto. Qed.

Lemma verify_any_no_panic {T} `{IntentMessage T} c h (sm : SignedMessage T) :
  verify_signature_any_weight c h sm <> Panic.
Proof.
  unfold verify_signature_any_weight.
  destruct (verify_committee_cases (sm_signature sm) c) as [Hv|Hv]; rewrite Hv; [|done].
  rewrite (signing_members_eq _ c Hv). cbn. unfold guard. by destruct (aggregate_verify _ _ _).
Qed.

Lemma verify_weight_no_panic {T} `{IntentMessage T} c h (sm : SignedMessage T) required :
  verify_signature_and_weight c h sm required <> Panic.
Proof.
  unfold verify_signature_and_weight, signature_weight.
  destruct (verify_committee_cases (sm_signature sm) c) as [Hv|Hv]; rewrite Hv; [|done].
  rewrite (signing_members_eq _ c Hv). cbn [mbind outcome_bind]. unfold guard.
  destruct (negb _); [apply verify_any_no_panic|done].
Qed.

(** Whatever bytes a peer sends as signature and bitmap, building and checking the
    certificate ends without a panic: a bit beyond the committee is an error. *)
Theorem certificate_check_total {T} `{IntentMessage T} c h epoch (message : T) sig_bytes bitmap_bytes
    threshold :
  try_from_parts h epoch message sig_bytes bitmap_bytes c threshold <> Panic.
Proof.
  unfold try_from_parts, signed_message_new. destruct (aggregate_from_bytes _) as [sig|]; [|done].
  unfold mbind at 1, outcome_bind at 1.
  set (sm := mkSignedMessage _ _ _). pose proof (verify_weight_no_panic c h sm threshold).
  by destruct (verify_signature_and_weight c h sm threshold).
Qed.

Lemma signers_distinct c bm :
  NoDup (cm_address <$> c_members c) ->
  (forall i, i ∈ bitmap_iter bm -> (i < size c)%nat) ->
  NoDup (cm_address <$> signing_members_of c bm).
Proof.
  intros Hnd Hb. unfold signing_members_of. pose proof (iter_NoDup bm) as Hl.
  induction Hl as [|i l Hi Hl IH]; [constructor|]. cbn.
  destruct (lookup_lt_is_Some_2 (c_members c) i (Hb i ltac:(left))) as [m Hm]. rewrite Hm. cbn.
  constructor; [|apply IH; intros j Hj; apply Hb; by right].
  intros (m' & Hmm & (j & Hj & Hm')%list_elem_of_omap)%list_elem_of_fmap.
  assert (i = j) as ->; [|done].
  eapply NoDup_lookup; [exact Hnd| |]; rewrite list_lookup_fmap; [by rewrite Hm|].
  rewrite Hm'. cbn. by rewrite Hmm.
Qed.

(** The three views of a certificate agree for a committee with distinct addresses:
    [signers] lists distinct members, [is_signer] answers membership in that list, and
    [weight] is the sum of the weights [weight_of] gives for it. *)
Theorem certificate_views_agree c s :
  committee_wf c -> NoDup (cm_address <$> c_members c) -> verify_committee s c = Ok tt ->
  exists l ws, signers s c = Ok l /\ NoDup l
    /\ (forall a, is_Some (index_of c a) -> is_signer s a c = Ok (bool_decide (a ∈ l)))
    /\ mapM (weight_of c) l = Ok ws /\ signature_weight s c = Ok (usum ws).
Proof.
  intros Hwf Hnd Hv. pose proof (fun i => signers_bounded s c i Hv) as Hb.
  exists (cm_address <$> signing_members_of c (signers_bitmap s)),
    (weight_at c <$> bitmap_iter (signers_bitmap s)).
  split_and!; [by apply signers_Ok|by apply signers_distinct| | |by apply signature_weight_Ok].
  - intros a [i Hi]. unfold is_signer. rewrite Hv. cbn. unfold index_of in Hi. rewrite Hi.
    f_equal. apply eq_true_iff_eq. rewrite <- elem_of_iter, bool_decide_eq_true.
    destruct (index_member c a i Hwf Hi) as (m & Hm & <-).
    rewrite list_elem_of_fmap. unfold signing_members_of. setoid_rewrite list_elem_of_omap. split.
    + eauto.
    + intros (m' & Heq & j & Hj & Hm').
      assert (i = j) as ->; [|done]. eapply NoDup_lookup; [exact Hnd| |];
        rewrite list_lookup_fmap; [by rewrite Hm|]. rewrite Hm'. cbn. by rewrite Heq.
  - rewrite <- (weights_of_signers s c Hv). apply mapM_Ok, Forall2_fmap, Forall_Forall2_diag.
    apply Forall_forall. intros m (i & Hi & Hm)%list_elem_of_omap.
    unfold weight_of, member. rewrite (member_index c i m Hwf Hnd Hm), Hm. done.
Qed.

(** ** Weight domains

    What an aggregator relies on: adding a member below the committee's size never panics
    and adds its weight, modulo the width of the counter. *)

Class WeightDomainLaws (W : Type) `{WeightDomain W} := {
  dom_ok : Committee -> W -> Prop;
  dom_weigh : Committee -> W -> nat -> Z;
  dom_signed : W -> Z;
  dom_modulus : Z;
  add_signer_spec c w i :
    dom_ok c w -> (i < size c)%nat ->
    exists w', add_signer c i w = (Ok tt, w') /\ dom_ok c w' /\ dom_weigh c w' = dom_weigh c w
      /\ dom_signed w' = (dom_signed w + dom_weigh c w i) mod dom_modulus;
}.

#[export] Program Instance committee_weight_laws : WeightDomainLaws CommitteeWeight := {|
  dom_ok _ _ := True;
  dom_weigh c _ := weight_at c;
  dom_signed := cw_signed;
  dom_modulus := 2 ^ 64;
|}.
Next Obligation.
  intros c w i _ Hi. destruct (lookup_lt_is_Some_2 (c_members c) i Hi) as [m Hm].
  cbn. rewrite Hm. eexists. split_and!; [done..|]. cbn. unfold weight_at. by rewrite Hm.
Qed.

(** What [fastcrypto_tbls] promises of its [Nodes]: ids count up from 0, every node has a key
    and a weight, and the total weight is a [u16]. *)
Definition node_weight (n : Nodes) (i : nat) : Z :=
  default 0 (node_weight_of n (as_party_id i)).

Record nodes_ok (n : Nodes) : Prop := {
  nodes_few : Z.of_nat (num_nodes n) <= 65536;
  nodes_weighed i : (i < num_nodes n)%nat -> is_Some (node_weight_of n (Z.of_nat i));
  nodes_nonneg i : 0 <= node_weight n i;
  nodes_total : zsum (node_weight n <$> seq 0 (num_nodes n)) <= 65535;
}.

Lemma as_party_id_small i : Z.of_nat i < 65536 -> as_party_id i = Z.of_nat i.
Proof. intros Hi. unfold as_party_id. apply Z.mod_small. lia. Qed.

Lemma node_weight_some n i :
  nodes_ok n -> (i < num_nodes n)%nat -> node_weight_of n (as_party_id i) = Some (node_weight n i).
Proof.
  intros Hn Hi. unfold node_weight. pose proof (nodes_few n Hn).
  rewrite as_party_id_small by lia. by destruct (nodes_weighed n Hn i Hi) as [x ->].
Qed.

#[export] Program Instance reduced_weight_laws : WeightDomainLaws ReducedWeight := {|
  dom_ok c w := nodes_ok (rw_nodes w) /\ num_nodes (rw_nodes w) = size c;
  dom_weigh _ w := node_weight (rw_nodes w);
  dom_signed := rw_signed;
  dom_modulus := 2 ^ 16;
|}.
Next Obligation.
  intros c w i [Hn Hs] Hi. rewrite <- Hs in Hi. cbn. rewrite (node_weight_some _ _ Hn Hi). by eexists.
Qed.

(** ** Aggregation *)

Section aggregation.
Context {BLw : BlsLaws}.
Context {T W : Type} {IM : IntentMessage T} {WD : WeightDomain W} {WL : WeightDomainLaws W}.
Context (c : Committee) (h : Address) (msg : T) (w0 : W).
Hypothesis c_wf : committee_wf c.

Abbreviation aggregator := (BlsSignatureAggregator T W).

Definition valid_share (e : nat * BlsSignature) : Prop :=
  exists m, c_members c !! e.1 = Some m
    /\ pk_verify (public_key m) (signing_message h (c_epoch c) msg) e.2 = true.

Definition aggregate_of (shares : list BlsSignature) : option BlsAggregateSignature :=
  match shares with
  | [] => None
  | s :: ss => fold_left (fun agg s => agg ≫= fun a => aggregate_add a s) ss (Some (aggregate_from s))
  end.

(** The aggregator holds exactly the shares [acc], in the order they were accepted. *)
Record holds_bit (a : aggregator) (acc : list (nat * BlsSignature)) : Prop := {
  h_committee : ag_committee a = c;
  h_hashi_id : ag_hashi_id a = h;
  h_message : ag_message a = msg;
  h_bitmap : bitmap_iter (ag_bitmap a) ≡ₚ acc.*1;
  h_valid : Forall valid_share acc;
  h_aggregate : aggregate_signature a = aggregate_of acc.*2;
  h_some : acc <> [] -> is_Some (aggregate_of acc.*2);
  h_dom : dom_ok c (ag_domain a);
  h_weigh : dom_weigh c (ag_domain a) = dom_weigh c w0;
  h_signed : dom_signed (ag_domain a) = zsum (dom_weigh c w0 <$> acc.*1) mod dom_modulus;
}.

Lemma valid_share_lt e : valid_share e -> (e.1 < size c)%nat.
Proof. intros (m & Hm & _). by eapply lookup_lt_Some. Qed.

Lemma aggregate_of_snoc shares s :
  aggregate_of (shares ++ [s])
  = match shares with [] => Some (aggregate_from s)
                 | _ => aggregate_of shares ≫= fun a => aggregate_add a s end.
Proof. destruct shares as [|s' ss]; [done|]. cbn. by rewrite fold_left_app. Qed.

(** The signature of a member that passes [verify]. *)
Lemma verified_share sig :
  committee_verify c h msg sig = Ok tt ->
  exists i, address_to_index c !! ms_address sig = Some i /\ valid_share (i, ms_signature sig).
Proof.
  unfold committee_verify. intros H'. inv_ok. apply Z.eqb_eq in E.
  apply member_Ok in E0 as (i & Hi & Hm); [|done]. exists i. split; [done|].
  exists v0. by rewrite E.
Qed.

Lemma insert_bitmap_perm {E} i (bm bm' : BitMap) b :
  bitmap_insert (E:=E) i bm = (Ok b, bm') ->
  b = bitmap_contains bm i
  /\ bitmap_iter bm' ≡ₚ (if b then bitmap_iter bm else bitmap_iter bm ++ [i]).
Proof.
  destruct (bitmap_insert_spec (E:=E) i bm) as (bm'' & Heq & Hc). rewrite Heq.
  intros [= <- <-]. split; [done|].
  apply NoDup_Permutation; [apply iter_NoDup| |].
  { destruct (bitmap_contains bm i) eqn:Hi; [apply iter_NoDup|].
    apply NoDup_app. split_and!; [apply iter_NoDup| |apply NoDup_singleton].
    intros j Hj Hij%list_elem_of_singleton. subst. apply elem_of_iter in Hj. congruence. }
  intros j. rewrite elem_of_iter, Hc, orb_true_iff, bool_decide_eq_true, <- elem_of_iter.
  destruct (bitmap_contains bm i) eqn:Hi.
  - split; [|by right]. intros [->|?]; [by apply elem_of_iter|done].
  - rewrite elem_of_app, list_elem_of_singleton. tauto.
Qed.

Lemma holds_contains a acc i :
  holds_bit a acc -> bitmap_contains (ag_bitmap a) i = bool_decide (i ∈ acc.*1).
Proof.
  intros Ha. apply eq_true_iff_eq. rewrite <- elem_of_iter, bool_decide_eq_true.
  by rewrite (h_bitmap _ _ Ha).
Qed.

(** A valid share can always be added to the aggregate. *)
Lemma aggregate_grows a acc i s :
  holds_bit a acc -> valid_share (i, s) ->
  exists agg, aggregate_of (acc.*2 ++ [s]) = Some agg
    /\ Some agg = match aggregate_signature a with
                  | None => Some (aggregate_from s)
                  | Some agg => aggregate_add agg s
                  end.
Proof.
  intros Ha (m & _ & Hpk). rewrite (h_aggregate _ _ Ha), aggregate_of_snoc.
  pose proof (h_some _ _ Ha) as Hs. destruct acc as [|e acc]; [eauto|].
  destruct Hs as [x Hx]; [done|]. rewrite Hx. cbn [mbind option_bind fmap list_fmap].
  destruct (aggregate_add_valid _ _ _ x Hpk) as [agg Hagg]. eauto.
Qed.

(** One signature: rejected, a duplicate, or one more share. *)
Lemma add_signature_step a acc sig :
  holds_bit a acc ->
  match committee_verify c h msg sig with
  | Ok _ => exists i, address_to_index c !! ms_address sig = Some i
      /\ if bool_decide (i ∈ acc.*1)
         then exists a', add_signature sig a = (Err DuplicateSignature, a') /\ holds_bit a' acc
         else exists a', add_signature sig a = (Ok tt, a')
                /\ holds_bit a' (acc ++ [(i, ms_signature sig)])
  | r => add_signature sig a = (r, a)
  end.
Proof.
  intros Ha. unfold add_signature, of_outcome, mbind, M_bind.
  rewrite (h_committee _ _ Ha), (h_hashi_id _ _ Ha), (h_message _ _ Ha).
  destruct (committee_verify c h msg sig) as [[]|e|] eqn:Hv; [|done..].
  destruct (verified_share sig Hv) as (i & Hi & Hshare). exists i. split; [done|]. rewrite Hi.
  unfold zoom. destruct (bitmap_insert_spec (E:=SignatureError) i (ag_bitmap a)) as (bm & Hbm & _).
  rewrite Hbm. destruct (insert_bitmap_perm _ _ _ _ Hbm) as [_ Hperm].
  rewrite (holds_contains _ _ _ Ha) in *. pose proof Ha as Ha'. destruct Ha' as [Hc Hh Hm Hb Hval Hagg Hs Hd Hw Hsg].
  case_bool_decide as Hin; cbn [ensure of_outcome guard negb].
  - eexists. split; [done|]. constructor; cbn; try done. by rewrite Hperm, Hb.
  - destruct (aggregate_grows a acc i (ms_signature sig)) as (agg & Hsome & Hnew); [done..|].
    destruct (add_signer_spec c (ag_domain a) i Hd (valid_share_lt _ Hshare))
      as (w' & Hadd & Hd' & Hweq & Hw').
    assert (dom_signed w'
            = zsum (dom_weigh c w0 <$> (acc ++ [(i, ms_signature sig)]).*1) mod dom_modulus)
      as Hsg'.
    { rewrite Hw', fmap_app, fmap_app, zsum_app. cbn. rewrite Z.add_0_r, Hw, Hsg.
      by rewrite Zplus_mod_idemp_l. }
    cbn [aggregate_signature set_bitmap].
    exists (set_domain w' (set_aggregate agg (set_bitmap bm a))). split.
    { destruct (aggregate_signature a) as [x|]; [rewrite <- Hnew|injection Hnew as <-];
        cbn [ag_domain set_aggregate set_bitmap]; by rewrite Hadd. }
    constructor; rewrite ?(fmap_app snd); try done.
    + cbn. by rewrite Hperm, (fmap_app fst), Hb.
    + apply Forall_app. by split; [|constructor].
    + cbn. by rewrite Hweq.
Qed.

(** ** Feeding an aggregator *)

Definition add_all (sigs : list MemberSignature) (a : aggregator) : aggregator :=
  fold_left (fun a sig => (add_signature sig a).2) sigs a.

Definition signed_by (sigs : list MemberSignature) (i : nat) : Prop :=
  exists sig, sig ∈ sigs /\ committee_verify c h msg sig = Ok tt
    /\ address_to_index c !! ms_address sig = Some i.

Lemma add_all_holds sigs : forall a acc,
  holds_bit a acc ->
  exists acc', holds_bit (add_all sigs a) acc'
    /\ forall i, i ∈ acc'.*1 <-> i ∈ acc.*1 \/ signed_by sigs i.
Proof.
  induction sigs as [|sig sigs IH]; intros a acc Ha; cbn.
  { exists acc. split; [done|]. intros i. split; [by left|].
    intros [?|(sig & Hin & _)]; [done|by apply elem_of_nil in Hin]. }
  assert (exists acc1, holds_bit (add_signature sig a).2 acc1
            /\ forall i, i ∈ acc1.*1 <-> i ∈ acc.*1 \/ signed_by [sig] i) as (acc1 & H1 & Hset).
  { assert (forall i, signed_by [sig] i <-> committee_verify c h msg sig = Ok tt
              /\ address_to_index c !! ms_address sig = Some i) as Hone.
    { intros i. split; [by intros (s & ->%list_elem_of_singleton & ?)|].
      intros []. exists sig. by rewrite list_elem_of_singleton. }
    setoid_rewrite Hone. pose proof (add_signature_step a acc sig Ha) as Hstep.
    destruct (committee_verify c h msg sig) as [[]|e|].
    - destruct Hstep as (j & Hj & Hstep). rewrite Hj. case_bool_decide as Hin.
      + destruct Hstep as (a' & -> & Ha'). exists acc. split; [done|]. naive_solver.
      + destruct Hstep as (a' & -> & Ha'). eexists. split; [exact Ha'|]. intros i.
        rewrite fmap_app, elem_of_app. cbn. rewrite list_elem_of_singleton. naive_solver.
    - rewrite Hstep. exists acc. split; [done|]. naive_solver.
    - rewrite Hstep. exists acc. split; [done|]. naive_solver. }
  destruct (IH _ _ H1) as (acc' & Ha' & Hset'). exists acc'. split; [done|].
  intros i. rewrite Hset', Hset. unfold signed_by.
  setoid_rewrite elem_of_cons. setoid_rewrite elem_of_nil. naive_solver.
Qed.

Lemma holds_init a :
  a = aggregator_with h c msg w0 -> dom_ok c w0 -> dom_signed w0 = 0 -> holds_bit a [].
Proof. intros -> Hd Hs. by constructor. Qed.

(** The keys of the shares. *)
Definition key_of (e : nat * BlsSignature) : option (BlsPublicKey * BlsSignature) :=
  (fun m => (public_key m, e.2)) <$> c_members c !! e.1.

Lemma keys_of_shares acc :
  Forall valid_share acc ->
  (omap key_of acc).*2 = acc.*2
  /\ (omap key_of acc).*1 = public_key <$> omap (fun i => c_members c !! i) acc.*1
  /\ Forall (fun e => pk_verify e.1 (signing_message h (c_epoch c) msg) e.2 = true)
       (omap key_of acc).
Proof.
  induction 1 as [|[i s] acc (m & Hm & Hpk) _ (IH2 & IH1 & IHv)]; [done|].
  assert (omap key_of ((i, s) :: acc) = (public_key m, s) :: omap key_of acc) as ->.
  { cbn in *. unfold key_of at 1. cbn. by rewrite Hm. }
  cbn in *. rewrite Hm, IH2, IH1. split_and!; [done..|]. by constructor.
Qed.

Lemma aggregate_of_fold (shares : list (BlsPublicKey * BlsSignature)) e :
  aggregate_of (e :: shares).*2
  = fold_left (fun agg s => agg ≫= fun a => aggregate_add a s.2) shares (Some (aggregate_from e.2)).
Proof.
  cbn. generalize (Some (aggregate_from e.2)). induction shares as [|x l IH]; intros o; [done|].
  cbn. apply IH.
Qed.

(** The aggregate of the shares held verifies against the keys the bitmap names. *)
Lemma aggregate_verifies a acc agg :
  holds_bit a acc -> aggregate_of acc.*2 = Some agg ->
  aggregate_verify agg (public_key <$> signing_members_of c (ag_bitmap a))
    (signing_message h (c_epoch c) msg) = true.
Proof.
  intros Ha Hagg. destruct (keys_of_shares acc (h_valid _ _ Ha)) as (H2 & H1 & Hv).
  rewrite <- H2 in Hagg. destruct (omap key_of acc) as [|e ks] eqn:Hks; [done|].
  rewrite aggregate_of_fold in Hagg. eapply aggregate_complete; [exact Hv|exact Hagg|].
  rewrite H1. unfold signing_members_of. apply fmap_Permutation, omap_Permutation, Ha.
Qed.

(** The certificate of the shares held: it passes the check of the aggregate, and its
    signers are those of the shares. *)
Lemma finish_holds a acc :
  holds_bit a acc ->
  match finish a with
  | Ok cert => acc <> [] /\ sm_message cert = msg /\ signers_bitmap (sm_signature cert) = ag_bitmap a
      /\ verify_committee (sm_signature cert) c = Ok tt
      /\ verify_signature_any_weight c h cert = Ok tt
  | Err e => e = NoSignatures /\ acc = []
  | Panic => False
  end.
Proof.
  intros Ha. unfold finish. rewrite (h_aggregate _ _ Ha).
  destruct acc as [|[i s] acc]; [done|].
  destruct (h_some _ _ Ha) as [agg Hagg]; [done|]. rewrite Hagg.
  rewrite (h_committee _ _ Ha), (h_hashi_id _ _ Ha), (h_message _ _ Ha).
  set (sig := mkCommitteeSignature (c_epoch c) agg (ag_bitmap a)).
  assert (verify_committee sig c = Ok tt) as Hv.
  { apply verify_committee_Ok. split; [done|]. intros j Hj%elem_of_iter.
    cbn in Hj. rewrite (h_bitmap _ _ Ha) in Hj.
    apply list_elem_of_fmap in Hj as (e & -> & He).
    pose proof (h_valid _ _ Ha) as Hval. eapply Forall_forall in Hval; [|exact He].
    by apply valid_share_lt. }
  assert (verify_signature_any_weight c h (mkSignedMessage _ sig msg) = Ok tt) as Hany.
  { unfold verify_signature_any_weight. cbn [sm_signature sm_message]. rewrite Hv.
    cbn [mbind outcome_bind]. rewrite (signing_members_eq sig c Hv). cbn [mbind outcome_bind].
    apply guard_Ok. by apply (aggregate_verifies a ((i, s) :: acc)). }
  rewrite Hany. done.
Qed.

(** All of it for an aggregator that starts empty. *)
Lemma add_all_finish sigs :
  dom_ok c w0 -> dom_signed w0 = 0 ->
  let a := add_all sigs (aggregator_with h c msg w0) in
  (forall i, bitmap_contains (ag_bitmap a) i = true <-> signed_by sigs i)
  /\ dom_signed (ag_domain a)
     = zsum (dom_weigh c w0 <$> bitmap_iter (ag_bitmap a)) mod dom_modulus
  /\ match finish a with
     | Ok cert => sm_message cert = msg /\ signers_bitmap (sm_signature cert) = ag_bitmap a
         /\ verify_committee (sm_signature cert) c = Ok tt
         /\ verify_signature_any_weight c h cert = Ok tt
     | Err e => e = NoSignatures /\ forall i, ~ signed_by sigs i
     | Panic => False
     end.
Proof.
  intros Hd Hs a.
  destruct (add_all_holds sigs _ [] (holds_init _ eq_refl Hd Hs)) as (acc & Ha & Hset).
  fold a in Ha. split_and!.
  - intros i. rewrite (holds_contains _ _ _ Ha), bool_decide_eq_true, Hset. cbn.
    rewrite elem_of_nil. tauto.
  - rewrite (h_signed _ _ Ha). f_equal. apply zsum_perm, fmap_Permutation. symmetry. apply Ha.
  - pose proof (finish_holds a acc Ha) as Hf. destruct (finish a); [tauto| |done].
    destruct Hf as [-> ->]. split; [done|]. intros i Hi.
    assert (i ∈ ([] : list (nat * BlsSignature)).*1) as []%elem_of_nil. apply Hset. by right.
Qed.
End aggregation.

(** The certificate of an aggregator that was offered some signatures. *)
Lemma offered_certificate {BLw : BlsLaws} {T} {IM : IntentMessage T} c h (msg : T) sigs :
  committee_wf c -> weights_fit c ->
  let a := add_all sigs (aggregator_new h c msg) in
  (forall i, bitmap_contains (ag_bitmap a) i = true <-> signed_by c h msg sigs i)
  /\ match finish a with
     | Ok cert => sm_message cert = msg
         /\ signature_weight (sm_signature cert) c = Ok (aggregator_weight a)
         /\ verify_signature_and_weight c h cert (aggregator_weight a) = Ok tt
     | Err e => e = NoSignatures /\ forall i, ~ signed_by c h msg sigs i
     | Panic => False
     end.
Proof.
  intros Hwf Hfit a.
  destruct (add_all_finish c h msg (mkCommitteeWeight 0) Hwf sigs) as (Hset & Hw & Hf); [done..|].
  fold (aggregator_new h c msg) in Hset, Hw, Hf. fold a in Hset, Hw, Hf.
  split; [exact Hset|]. destruct (finish a) as [cert| |]; [|exact Hf..].
  destruct Hf as (Hm & Hbm & Hv & Hany). split; [done|].
  assert (signature_weight (sm_signature cert) c = Ok (aggregator_weight a)) as Hsw.
  { pose proof (signer_weight_le c (bitmap_iter (ag_bitmap a)) Hfit (iter_NoDup _)) as Hle.
    rewrite <- Hbm in Hle. specialize (Hle (fun i => signers_bounded _ c i Hv)).
    apply signature_weight_Ok. split; [done|]. unfold aggregator_weight. cbn in Hw.
    rewrite Hw, <- Hbm, usum_small.
    - unfold u64_max in Hle. apply Z.mod_small. lia.
    - apply w_all_nonneg. intros. by apply weight_at_nonneg.
    - lia. }
  split; [done|]. apply verify_weight_Ok. eexists. split_and!; [exact Hsw|lia|done].
Qed.

(** Whatever signatures are offered to an aggregator, in whatever order and however
    often, its signers are exactly the members with a valid one.  If there is any, [finish]
    returns a certificate that the committee accepts at exactly the weight the aggregator
    reports; otherwise it reports that there is none. *)
Theorem aggregated_certificate_accepted {BLw : BlsLaws} {T} {IM : IntentMessage T} c h (msg : T) sigs :
  committee_wf c -> weights_fit c ->
  let a := add_all sigs (aggregator_new h c msg) in
  (forall i, bitmap_contains (ag_bitmap a) i = true <-> signed_by c h msg sigs i)
  /\ match finish a with
     | Ok cert => sm_message cert = msg
         /\ signature_weight (sm_signature cert) c = Ok (aggregator_weight a)
         /\ verify_signature_and_weight c h cert (aggregator_weight a) = Ok tt
     | Err e => e = NoSignatures /\ forall i, ~ signed_by c h msg sigs i
     | Panic => False
     end.
Proof. apply offered_certificate. Qed.

(** ** Reduced weights *)

Lemma bind_nodes_count c nodes :
  bind_nodes_to_committee c nodes = Ok tt -> num_nodes nodes = size c.
Proof. unfold bind_nodes_to_committee. intros H. inv_ok. by apply Nat.eqb_eq in E. Qed.

Lemma fold_mod32 l : forall acc,
  Forall (fun x => 0 <= x) l -> 0 <= acc -> acc + zsum l < 2 ^ 32 ->
  fold_left (fun a b => (a + b) mod 2 ^ 32) l acc = acc + zsum l.
Proof.
  induction l as [|x l IH]; intros acc Hl Hacc Hle; cbn [fold_left]; [cbn; lia|].
  rewrite zsum_cons in *. inversion Hl as [|? ? Hx Hl']; subst.
  pose proof (zsum_nonneg l Hl'). rewrite Z.mod_small by lia. rewrite IH; auto; lia.
Qed.

Lemma reduced_weight_exact s c nodes :
  nodes_ok nodes -> bind_nodes_to_committee c nodes = Ok tt -> verify_committee s c = Ok tt ->
  reduced_weight s c nodes = Ok (zsum (node_weight nodes <$> bitmap_iter (signers_bitmap s)))
  /\ 0 <= zsum (node_weight nodes <$> bitmap_iter (signers_bitmap s)) <= 65535.
Proof.
  intros Hn Hb Hv. pose proof (bind_nodes_count c nodes Hb) as Hcount.
  pose proof (fun i => signers_bounded s c i Hv) as Hlt.
  set (it := bitmap_iter (signers_bitmap s)) in *.
  assert (Forall (fun x => 0 <= x) (node_weight nodes <$> it)) as Hnn
    by (apply w_all_nonneg, nodes_nonneg, Hn).
  assert (zsum (node_weight nodes <$> it) <= 65535) as Hsum.
  { etrans; [|apply (nodes_total nodes Hn)]. apply sum_distinct_le; [apply Hn|apply iter_NoDup|].
    intros i Hi. apply elem_of_seq. rewrite Hcount. apply Hlt in Hi. lia. }
  split; [|split; [by apply zsum_nonneg|done]].
  unfold reduced_weight. rewrite Hv. cbn [mbind outcome_bind]. rewrite Hb. cbn [mbind outcome_bind].
  fold it. rewrite mapM_expect.
  - replace (omap _ it) with (node_weight nodes <$> it).
    + cbn [mbind outcome_bind]. f_equal. unfold usum32. rewrite fold_mod32; [done|done|done|lia].
    + clear Hsum Hnn. induction it as [|i l IH]; [done|]. cbn.
      rewrite (node_weight_some nodes i Hn) by (rewrite Hcount; apply Hlt; left). cbn. f_equal.
      apply IH. intros j Hj. apply Hlt. by right.
  - intros i Hi%Hlt. rewrite <- Hcount in Hi. rewrite node_weight_some by done. eauto.
Qed.

(** The same with reduced weights: the [u16] an aggregator counts is the weight the
    certificate is accepted at, and neither that counter nor the [u32] of the check
    overflows. *)
Theorem reduced_certificate_accepted {BLw : BlsLaws} {T} {IM : IntentMessage T} c h (msg : T) sigs
    nodes a0 :
  committee_wf c -> nodes_ok nodes -> new_reduced h c msg nodes = Ok a0 ->
  let a := add_all sigs a0 in
  (forall i, bitmap_contains (ag_bitmap a) i = true <-> signed_by c h msg sigs i)
  /\ 0 <= aggregator_reduced_weight a <= 65535
  /\ match finish a with
     | Ok cert => sm_message cert = msg
         /\ verify_signature_and_reduced_weight c h cert nodes (aggregator_reduced_weight a)
            = Ok (aggregator_reduced_weight a)
     | Err e => e = NoSignatures /\ forall i, ~ signed_by c h msg sigs i
     | Panic => False
     end.
Proof.
  intros Hwf Hn H0 a. unfold new_reduced, reduced_weight_new in H0.
  destruct (bind_nodes_to_committee c nodes) as [[]| |] eqn:Hb; [|done..].
  injection H0 as <-.
  destruct (add_all_finish c h msg (mkReducedWeight nodes 0) Hwf sigs) as (Hset & Hw & Hf);
    [split; [done|by apply bind_nodes_count]|done|].
  fold a in Hset, Hw, Hf. cbn in Hw. fold (aggregator_reduced_weight a) in Hw.
  split; [exact Hset|]. destruct (finish a) as [cert|e|]; [| |done].
  - destruct Hf as (Hm & Hbm & Hv & Hany).
    destruct (reduced_weight_exact _ c nodes Hn Hb Hv) as [Hrw Hrange].
    rewrite Hbm in Hrw, Hrange. rewrite Z.mod_small in Hw by lia. rewrite <- Hw in Hrw, Hrange.
    split_and!; [lia..|done|]. unfold verify_signature_and_reduced_weight.
    rewrite Hrw. cbn [mbind outcome_bind]. rewrite Z.ltb_irrefl. cbn. by rewrite Hany.
  - destruct Hf as [-> Hnone].
    assert (bitmap_iter (ag_bitmap a) = []) as Hnil.
    { apply elem_of_nil_inv. intros i Hi%elem_of_iter%Hset. by eapply Hnone. }
    rewrite Hnil in Hw. cbn in Hw. rewrite Hw. split_and!; done.
Qed.
End proofs.

(** ** Signing domains *)

Lemma length_le_bytes n : forall x, length (le_bytes n x) = n.
Proof. induction n as [|n IH]; intros x; cbn; [done|]. by rewrite IH. Qed.

Lemma le_bytes_inj n : forall x y,
  0 <= x < 256 ^ Z.of_nat n -> 0 <= y < 256 ^ Z.of_nat n -> le_bytes n x = le_bytes n y -> x = y.
Proof.
  induction n as [|n IH]; intros x y Hx Hy H; [cbn in *; lia|].
  rewrite Nat2Z.inj_succ, Z.pow_succ_r in Hx, Hy by lia.
  cbn [le_bytes] in H. injection H as Hm Hd.
  apply IH in Hd; [|split; [apply Z.div_pos|apply Z.div_lt_upper_bound]; lia..].
  rewrite (Z.div_mod x 256), (Z.div_mod y 256) by lia. congruence.
Qed.

Lemma as_u16_range i : 0 <= as_u16 i < 256 ^ Z.of_nat 2.
Proof. by destruct i; cbn. Qed.

Lemma as_u16_inj i j : as_u16 i = as_u16 j -> i = j.
Proof. by destruct i, j. Qed.

Definition is_address (a : Address) : Prop := 0 <= a < 2 ^ 256.

Lemma address_bytes_inj a b :
  is_address a -> is_address b -> address_bytes a = address_bytes b -> a = b.
Proof.
  unfold is_address, address_bytes. intros Ha Hb H%(f_equal (@rev Z)).
  rewrite !rev_involutive in H. apply le_bytes_inj in H; [done|..];
    change (256 ^ Z.of_nat 32) with (2 ^ 256); done.
Qed.

Lemma preimage_prefix i j a b (x y : list Z) :
  is_address a -> is_address b ->
  le_bytes 2 (as_u16 i) ++ address_bytes a ++ x = le_bytes 2 (as_u16 j) ++ address_bytes b ++ y ->
  i = j /\ a = b /\ x = y.
Proof.
  intros Ha Hb [Hi H]%app_inj_1; [|by rewrite !length_le_bytes].
  apply app_inj_1 in H as [Hab Hxy]; [|by unfold address_bytes; rewrite !length_rev, !length_le_bytes].
  apply address_bytes_inj in Hab; [|done..].
  apply le_bytes_inj in Hi; [|apply as_u16_range..]. by apply as_u16_inj in Hi.
Qed.

(** A signature belongs to one domain: two messages have the same signing preimage only
    if they agree on the intent, the deployment, the epoch and the encoded content; and the
    preimage of a TLS key proof is that of no other message. *)
Theorem signing_domains_separate {T1 T2} `{IntentMessage T1, IntentMessage T2} h1 h2 e1 e2
    (m1 : T1) (m2 : T2) a key :
  is_address h1 -> is_address h2 -> is_u64 e1 -> is_u64 e2 ->
  (signing_message h1 e1 m1 = signing_message h2 e2 m2 ->
   INTENT (T:=T1) = INTENT (T:=T2) /\ h1 = h2 /\ e1 = e2 /\ to_bcs m1 = to_bcs m2)
  /\ (INTENT (T:=T1) <> TlsProofOfPossession ->
      signing_message h1 e1 m1 <> tls_proof_of_possession_preimage h2 a key).
Proof.
  intros Hh1 Hh2 He1 He2. split.
  - intros (Hi & Hh & Ht)%preimage_prefix; [|done..].
    apply app_inj_1 in Ht as [He Ht]; [|by rewrite !length_le_bytes].
    apply le_bytes_inj in He; [done|..];
      change (256 ^ Z.of_nat 8) with (2 ^ 64); unfold is_u64, u64_max in *; lia.
  - by intros Hne (Hi & _)%preimage_prefix.
Qed.

(** * A small committee

    A signature scheme that satisfies [BlsLaws], in which a signature is the pair of the key
    and the message and an aggregate is the list of its signatures, and a committee of four
    members of weight 25, two of whose certificates meet the hypotheses of the theorems. *)

Module SmallCommittee.

#[export] Instance pair_bls : Bls := {|
  BlsPublicKey := Z;
  BlsSignature := Z * list Z;
  BlsAggregateSignature := list (Z * list Z);
  EncryptionPublicKey := Z;
  EncryptionPublicKey_eq := _;
  pk_verify pk m s := bool_decide (s = (pk, m));
  aggregate_from s := [s];
  aggregate_add agg s := Some (agg ++ [s]);
  aggregate_verify agg pks m := bool_decide (agg ≡ₚ (fun pk => (pk, m)) <$> pks);
  aggregate_from_bytes _ := Some [];
|}.

Lemma pair_fold (ss : list (Z * (Z * list Z))) : forall agg,
  fold_left (fun agg s => agg ≫= fun a => aggregate_add a s.2) ss (Some agg) = Some (agg ++ ss.*2).
Proof.
  induction ss as [|s ss IH]; intros agg; cbn; [by rewrite app_nil_r|].
  rewrite IH. by rewrite <- app_assoc.
Qed.

#[export] Instance pair_bls_laws : BlsLaws.
Proof.
  split; [intros; cbn; eauto|]. intros m s0 ss agg pks Hv Hf Hp.
  pose proof (eq_trans (eq_sym Hf) (pair_fold ss [s0.2])) as Heq. injection Heq as ->.
  cbn. apply bool_decide_eq_true. rewrite Hp. cbn -[fmap].
  change ((s0 :: ss).*2 ≡ₚ (fun pk => (pk, m)) <$> (s0 :: ss).*1).
  rewrite <- list_fmap_compose. apply (reflexive_eq (R:=(≡ₚ))), list_fmap_ext.
  intros i x Hx. eapply Forall_lookup in Hv; [|exact Hx]. by apply bool_decide_eq_true in Hv.
Qed.

(** Two kinds of messages. *)
Record Confirm := mkConfirm { confirm_id : Z }.
Record Approve := mkApprove { approve_id : Z }.
#[export] Instance Confirm_intent : IntentMessage Confirm :=
  {| INTENT := WithdrawalConfirmation; to_bcs m := le_bytes 8 (confirm_id m) |}.
#[export] Instance Approve_intent : IntentMessage Approve :=
  {| INTENT := WithdrawalRequestApproval; to_bcs m := le_bytes 8 (approve_id m) |}.

Definition members : list CommitteeMember :=
  (fun i => mkCommitteeMember (10 + i) (20 + i) (30 + i) 25) <$> [0; 1; 2; 3].

Definition committee : Committee := with_config members 7 (from_mpc_params 800 3333 0).

Definition share {T} `{IntentMessage T} (m : T) (i : Z) : MemberSignature :=
  mkMemberSignature 7 (10 + i) (20 + i, signing_message 99 7 m).

(** The certificates of members 0, 1, 2 and of members 3, 1, 2, with a signature that is
    offered twice and one of an unknown member. *)
Definition confirm_cert : SignedMessage Confirm :=
  mkSignedMessage _ (mkCommitteeSignature 7 ((fun i => ms_signature (share (mkConfirm 5) i)) <$> [0; 1; 2])
                       [224]) (mkConfirm 5).
Definition approve_cert : SignedMessage Approve :=
  mkSignedMessage _ (mkCommitteeSignature 7 ((fun i => ms_signature (share (mkApprove 6) i)) <$> [3; 1; 2])
                       [112]) (mkApprove 6).

Example approve_cert_aggregated :
  finish (add_all (share (mkApprove 6) <$> [3; 1; 3; 9; 2]) (aggregator_new 99 committee (mkApprove 6)))
  = Ok approve_cert.
Proof. vm_compute. reflexivity. Qed.

Lemma committee_fits : weights_fit committee.
Proof. split; [repeat constructor; done|]. vm_compute. discriminate. Qed.

Definition small_nodes : Nodes :=
  mkNodes 4 (fun i => if (0 <=? i) && (i <? 4) then Some (30 + i) else None)
    (fun i => if (0 <=? i) && (i <? 4) then Some 2 else None).

Lemma small_nodes_ok : nodes_ok small_nodes.
Proof.
  split.
  - cbn. lia.
  - intros i Hi. cbn in *. destruct (_ && _) eqn:E; [eauto|]. lia.
  - intros i. unfold node_weight. cbn. by destruct (_ && _).
  - vm_compute. discriminate.
Qed.

Lemma quorum_intersection_witness :
  exists m l1 l2, m ∈ c_members committee /\ cm_address m ∉ ({[ 11 ]} : gset Address)
    /\ signers (sm_signature confirm_cert) committee = Ok l1 /\ cm_address m ∈ l1
    /\ signers (sm_signature approve_cert) committee = Ok l2 /\ cm_address m ∈ l2.
Proof.
  apply (quorum_intersection committee 99 99 confirm_cert approve_cert {[ 11 ]}).
  - reflexivity.
  - exact committee_fits.
  - vm_compute. reflexivity.
  - vm_compute. discriminate.
  - vm_compute. discriminate.
  - vm_compute. reflexivity.
  - vm_compute. reflexivity.
Defined.

Lemma certificate_views_agree_witness :
  exists l ws, signers (sm_signature approve_cert) committee = Ok l /\ NoDup l
    /\ (forall a, is_Some (index_of committee a) ->
          is_signer (sm_signature approve_cert) a committee = Ok (bool_decide (a ∈ l)))
    /\ mapM (weight_of committee) l = Ok ws
    /\ signature_weight (sm_signature approve_cert) committee = Ok (usum ws).
Proof.
  apply (certificate_views_agree committee (sm_signature approve_cert)).
  - reflexivity.
  - apply (bool_decide_unpack _). vm_compute. exact I.
  - vm_compute. reflexivity.
Defined.

Lemma aggregated_certificate_accepted_witness :
  verify_signature_and_weight committee 99 approve_cert 75 = Ok tt.
Proof.
  pose proof (aggregated_certificate_accepted committee 99 (mkApprove 6)
    (share (mkApprove 6) <$> [3; 1; 3; 9; 2]) eq_refl committee_fits) as [_ H].
  rewrite approve_cert_aggregated in H. apply H.
Defined.

Lemma reduced_certificate_accepted_witness :
  verify_signature_and_reduced_weight committee 99 approve_cert small_nodes 6 = Ok 6.
Proof.
  pose proof (reduced_certificate_accepted committee 99 (mkApprove 6)
    (share (mkApprove 6) <$> [3; 1; 3; 9; 2]) small_nodes
    (aggregator_with 99 committee (mkApprove 6) (mkReducedWeight small_nodes 0))
    eq_refl small_nodes_ok ltac:(vm_compute; reflexivity)) as (_ & _ & H).
  vm_compute in H. apply H.
Defined.

Lemma signing_domains_separate_witness :
  signing_message 99 7 (mkConfirm 5) <> signing_message 99 7 (mkApprove 5).
Proof.
  intros H. apply (signing_domains_separate 99 99 7 7 (mkConfirm 5) (mkApprove 5) 0 []) in H
    as [H _]; [discriminate H|vm_compute; split; discriminate || reflexivity..].
Defined.

End SmallCommittee.
