(* ===== verification/TxUtxos.v ===== *)
(** * The UTXOs of a withdrawal transaction

    [TxUTXOs] of [crates/hashi-types/src/bitcoin/utxo.rs]: the gate every withdrawal passes
    before the guardian counts and signs it, and the amount the guardian's limiter is
    charged.

    The check of an address against a network is the [bitcoin] crate's; an [Amount] is its
    number of satoshis.  Summing [Amount]s wraps around, subtracting them panics below
    zero, and [checked_sum] fails above [u64::MAX]. *)

From S2P Require Import MonitorDomain Prelude.

Class BtcAddresses := {
  Network : Type;
  AddressUnchecked : Type;
  AddressChecked : Type;
  (** [Address::require_network] and [Address::into_unchecked] *)
  require_network : AddressUnchecked -> Network -> option AddressChecked;
  into_unchecked : AddressChecked -> AddressUnchecked;
}.

Section utxos.
Context `{BA : BtcAddresses}.

(** An output with a checked address. *)
Abbreviation OutputUTXO := (OutputUTXOWire AddressChecked).

Record TxUTXOs := mkTxUTXOs {
  tu_inputs : list InputUTXO;
  tu_outputs : list OutputUTXO;
}.

Record UncheckedUTXOs := mkUncheckedUTXOs {
  uu_inputs : list InputUTXO;
  uu_outputs : list (OutputUTXOWire AddressUnchecked);
}.

Inductive TxError :=
| EmptyInputs
| EmptyOutputs
| InvalidAddress (address : AddressUnchecked)
| ZeroInput
| ZeroOutput
| DuplicateInput (outpoint : OutPoint)
| InputsOverflow
| OutputsOverflow
| FeeNotPositive (input_sum output_sum : Z).

Definition output_amount {A} (o : OutputUTXOWire A) : Z :=
  match o with External _ amount => amount | Internal _ amount => amount end.

Definition validate_address_for_network (address : AddressUnchecked) (network : Network)
    : outcome TxError AddressChecked :=
  match require_network address network with
  | Some checked => Ok checked
  | None => Err (InvalidAddress address)
  end.

Definition check_output (network : Network) (output : OutputUTXOWire AddressUnchecked)
    : outcome TxError OutputUTXO :=
  match output with
  | External address amount =>
      checked ← validate_address_for_network address network;
      Ok (External checked amount)
  | Internal path amount => Ok (Internal path amount)
  end.

(** The loop that inserts into the [HashSet] of inputs seen so far. *)
Fixpoint check_distinct (seen : gset OutPoint) (inputs : list InputUTXO) : outcome TxError unit :=
  match inputs with
  | [] => Ok tt
  | utxo :: rest =>
      _ ← guard (negb (bool_decide (iu_outpoint utxo ∈ seen))) (DuplicateInput (iu_outpoint utxo));
      check_distinct ({[iu_outpoint utxo]} ∪ seen) rest
  end.

Fixpoint checked_sum_from (acc : Z) (l : list Z) : option Z :=
  match l with
  | [] => Some acc
  | x :: l => if acc + x <=? u64_max then checked_sum_from (acc + x) l else None
  end.
Definition checked_sum (l : list Z) : option Z := checked_sum_from 0 l.

Definition assert_positive_fees (self : TxUTXOs) : outcome TxError unit :=
  match checked_sum (iu_amount <$> tu_inputs self) with
  | None => Err InputsOverflow
  | Some input_sum =>
      match checked_sum (output_amount <$> tu_outputs self) with
      | None => Err OutputsOverflow
      | Some output_sum =>
          guard (negb (input_sum <=? output_sum)) (FeeNotPositive input_sum output_sum)
      end
  end.

Definition TxUTXOs_new (inputs : list InputUTXO) (outputs : list (OutputUTXOWire AddressUnchecked))
    (network : Network) : outcome TxError TxUTXOs :=
  _ ← guard (match inputs with [] => false | _ => true end) EmptyInputs;
  _ ← guard (match outputs with [] => false | _ => true end) EmptyOutputs;
  outputs ← mapM (check_output network) outputs;
  _ ← guard (forallb (fun utxo => negb (iu_amount utxo =? 0)) inputs) ZeroInput;
  _ ← guard (forallb (fun utxo => negb (output_amount utxo =? 0)) outputs) ZeroOutput;
  _ ← check_distinct ∅ inputs;
  let tx_info := mkTxUTXOs inputs outputs in
  _ ← assert_positive_fees tx_info;
  Ok tx_info.

Definition internal_amounts (outputs : list OutputUTXO) : list Z :=
  omap (fun o => match o with Internal _ amount => Some amount | External _ _ => None end) outputs.

Definition gross_outflow_amount {E} (self : TxUTXOs) : outcome E Z :=
  let inputs := usum (iu_amount <$> tu_inputs self) in
  let internal := usum (internal_amounts (tu_outputs self)) in
  if internal <=? inputs then Ok (inputs - internal) else Panic.

Definition output_into_unchecked (o : OutputUTXO) : OutputUTXOWire AddressUnchecked :=
  match o with
  | External address amount => External (into_unchecked address) amount
  | Internal path amount => Internal path amount
  end.

Definition into_wire (self : TxUTXOs) : UncheckedUTXOs :=
  mkUncheckedUTXOs (tu_inputs self) (output_into_unchecked <$> tu_outputs self).

(** ** The gate *)

Lemma checked_sum_from_Some l : forall acc s,
  Forall (fun x => 0 <= x) l -> acc <= u64_max ->
  checked_sum_from acc l = Some s -> s = acc + zsum l /\ s <= u64_max.
Proof.
  induction l as [|x l IH]; intros acc s Hl Hacc H; cbn in H; [injection H as <-; cbn; lia|].
  inversion Hl as [|? ? Hx Hl']; subst.
  destruct (Z.leb_spec (acc + x) u64_max); [|done].
  apply IH in H; [|done|lia]. rewrite zsum_cons. lia.
Qed.

Lemma check_distinct_Ok inputs : forall seen,
  check_distinct seen inputs = Ok tt ->
  NoDup (iu_outpoint <$> inputs) /\ forall u, u ∈ inputs -> iu_outpoint u ∉ seen.
Proof.
  induction inputs as [|u inputs IH]; intros seen H; cbn in H.
  { split; [constructor|]. by intros u ?%elem_of_nil. }
  inv_ok. apply negb_true_iff, bool_decide_eq_false in E. apply IH in H as [Hnd Hseen].
  split.
  - cbn. constructor; [|done]. intros (u' & Heq & Hin)%list_elem_of_fmap.
    apply (Hseen u' Hin). rewrite <- Heq. set_solver.
  - intros u' [->|Hin]%elem_of_cons; [done|]. apply Hseen in Hin. set_solver.
Qed.

Lemma check_outputs_amounts network outputs checked :
  mapM (check_output network) outputs = Ok checked ->
  output_amount <$> checked = output_amount <$> outputs.
Proof.
  revert checked. induction outputs as [|o outputs IH]; intros checked H; cbn in H.
  { by injection H as <-. }
  inv_ok. injection H as <-. cbn. rewrite (IH _ E0). f_equal.
  destruct o as [a n|q n]; cbn in E; [|by injection E as <-].
  destruct (validate_address_for_network a network); inv_ok; done || by subst.
Qed.

Definition external_amounts (outputs : list OutputUTXO) : list Z :=
  omap (fun o => match o with External _ amount => Some amount | Internal _ _ => None end) outputs.

Lemma outputs_split (outputs : list OutputUTXO) :
  zsum (output_amount <$> outputs) = zsum (external_amounts outputs) + zsum (internal_amounts outputs).
Proof.
  unfold external_amounts, internal_amounts.
  induction outputs as [|[a n|q n] l IH]; [done|..]; rewrite fmap_cons, zsum_cons, IH;
    cbn [output_amount omap list_omap]; rewrite zsum_cons; lia.
Qed.

Lemma amounts_nonneg (f : OutputUTXO -> option Z) outputs :
  (forall o n, f o = Some n -> n = output_amount o) ->
  Forall (fun x => 0 <= x) (output_amount <$> outputs) ->
  Forall (fun x => 0 <= x) (omap f outputs).
Proof.
  intros Hf. rewrite Forall_fmap, !Forall_forall. intros H n (o & Ho & ->%Hf)%list_elem_of_omap.
  by apply (H o).
Qed.

Lemma check_output_safe network o : check_output network o <> Panic.
Proof.
  destruct o as [a n|]; cbn; [|done]. unfold validate_address_for_network.
  by destruct (require_network a network).
Qed.

Lemma check_distinct_safe inputs : forall seen, check_distinct seen inputs <> Panic.
Proof.
  induction inputs as [|u l IH]; intros seen; cbn; [done|].
  apply bind_safe; [apply guard_safe|intros _ _; apply IH].
Qed.

Lemma assert_positive_fees_safe t : assert_positive_fees t <> Panic.
Proof.
  unfold assert_positive_fees. destruct (checked_sum _); [|done].
  destruct (checked_sum _); [|done]. apply guard_safe.
Qed.
Hint Resolve check_output_safe check_distinct_safe assert_positive_fees_safe : hashi.

(** The gate itself never panics. *)
Lemma TxUTXOs_new_no_panic inputs outputs network : TxUTXOs_new inputs outputs network <> Panic.
Proof.
  unfold TxUTXOs_new. repeat (apply bind_safe; [eauto with hashi|intros ? _]). done.
Qed.

(** What a gated transaction is. *)
Record gated (t : TxUTXOs) : Prop := {
  gated_distinct : NoDup (iu_outpoint <$> tu_inputs t);
  gated_nonneg : Forall (fun x => 0 <= x) (iu_amount <$> tu_inputs t)
                 /\ Forall (fun x => 0 <= x) (output_amount <$> tu_outputs t);
  gated_inputs : zsum (iu_amount <$> tu_inputs t) <= u64_max;
  gated_fee : zsum (output_amount <$> tu_outputs t) < zsum (iu_amount <$> tu_inputs t);
}.

Lemma TxUTXOs_new_gated inputs outputs network t :
  Forall (fun x => 0 <= x) (iu_amount <$> inputs) ->
  Forall (fun x => 0 <= x) (output_amount <$> outputs) ->
  TxUTXOs_new inputs outputs network = Ok t ->
  gated t /\ tu_inputs t = inputs /\ output_amount <$> tu_outputs t = output_amount <$> outputs.
Proof.
  intros Hi Ho H. unfold TxUTXOs_new in H. inv_ok. subst t. destruct v4.
  apply check_outputs_amounts in E1. unfold assert_positive_fees in E5.
  cbn [tu_inputs tu_outputs] in *.
  destruct (checked_sum (iu_amount <$> inputs)) as [si|] eqn:Hsi; [|done].
  destruct (checked_sum (output_amount <$> v1)) as [so|] eqn:Hso; [|done].
  apply guard_Ok, negb_true_iff, Z.leb_gt in E5. rewrite E1 in Hso.
  apply checked_sum_from_Some in Hsi as [-> ?], Hso as [-> ?]; [|done..].
  apply check_distinct_Ok in E4 as [Hnd _].
  split_and!; [|done|done]. constructor; cbn [tu_inputs tu_outputs]; rewrite ?E1; done.
Qed.

(** The charge of a gated transaction: what leaves the bridge, miner fee included. *)
Lemma gross_outflow_gated {E} t :
  gated t ->
  gross_outflow_amount (E:=E) t
  = Ok (zsum (external_amounts (tu_outputs t))
        + (zsum (iu_amount <$> tu_inputs t) - zsum (output_amount <$> tu_outputs t)))
  /\ 0 <= zsum (external_amounts (tu_outputs t)).
Proof.
  intros [_ [Hi Ho] Hmax Hfee]. pose proof (outputs_split (tu_outputs t)) as Hsplit.
  assert (0 <= zsum (external_amounts (tu_outputs t))) as Hext.
  { apply zsum_nonneg, amounts_nonneg; [|done]. by intros [] ? [= ->]. }
  assert (Forall (fun x => 0 <= x) (internal_amounts (tu_outputs t))) as Hint.
  { apply amounts_nonneg; [|done]. by intros [] ? [= ->]. }
  pose proof (zsum_nonneg _ Hint). split; [|done]. unfold gross_outflow_amount.
  rewrite !usum_small by (done || lia).
  destruct (Z.leb_spec (zsum (internal_amounts (tu_outputs t)))
              (zsum (iu_amount <$> tu_inputs t))); [f_equal; lia|lia].
Qed.

(** The guardian charges exactly what leaves the bridge.  For a transaction that passes
    the gate, whatever its amounts, the sums do not wrap around, no input is spent twice,
    the miner fee is positive, and the amount the limiter is charged is the external outputs
    plus the fee; change is not charged. *)
Theorem outflow_charged_exactly {E} inputs outputs network t :
  Forall (fun x => 0 <= x) (iu_amount <$> inputs) ->
  Forall (fun x => 0 <= x) (output_amount <$> outputs) ->
  TxUTXOs_new inputs outputs network = Ok t ->
  let fee := zsum (iu_amount <$> inputs) - zsum (output_amount <$> outputs) in
  NoDup (iu_outpoint <$> inputs) /\ 0 < fee /\ tu_inputs t = inputs
  /\ output_amount <$> tu_outputs t = output_amount <$> outputs
  /\ gross_outflow_amount (E:=E) t = Ok (zsum (external_amounts (tu_outputs t)) + fee)
  /\ is_u64 (zsum (external_amounts (tu_outputs t)) + fee).
Proof.
  intros Hi Ho H fee. destruct (TxUTXOs_new_gated _ _ _ _ Hi Ho H) as (Hg & Hin & Hout).
  destruct (gross_outflow_gated (E:=E) t Hg) as [Hgr Hext]. rewrite Hin, Hout in Hgr.
  destruct Hg as [Hnd [_ Hnn] Hmax Hfee]. pose proof (outputs_split (tu_outputs t)) as Hsplit.
  assert (0 <= zsum (internal_amounts (tu_outputs t))).
  { apply zsum_nonneg, amounts_nonneg; [|done]. by intros [] ? [= ->]. }
  rewrite Hin, Hout in *. split_and!; try done; unfold fee; u64_lia.
Qed.
End utxos.
