(* ===== verification/SecretSharing.v ===== *)
(** * Sharing the Bitcoin key

    [crates/hashi-types/src/guardian/crypto/primitives/secret_sharing.rs]: the guardian's
    Bitcoin key is split into [n] Shamir shares of which any [t] reconstruct it, and a share
    is bound by a commitment.

    The scalars and the curve are [k256]'s: a field in which the share ids are distinct and
    non-zero, and a map to the compressed points that is injective.  A [SecretKey] is its
    non-zero scalar.  The random coefficients of a split are an argument. *)

From Stdlib Require Import Ring.
From S2P Require Import Prelude.

(** [k256::Scalar] and the encoding of [GENERATOR * s]. *)
Class ScalarField := {
  Scalar : Type;
  Scalar_eq :: EqDecision Scalar;
  s_zero : Scalar;
  s_one : Scalar;
  s_add : Scalar -> Scalar -> Scalar;
  s_mul : Scalar -> Scalar -> Scalar;
  s_sub : Scalar -> Scalar -> Scalar;
  s_negate : Scalar -> Scalar;
  s_invert : Scalar -> option Scalar;
  s_from : Z -> Scalar;
  DigestBytes : Type;
  DigestBytes_eq :: EqDecision DigestBytes;
  exp_g : Scalar -> DigestBytes;
}.

(** What [k256] documents of them; a share id fits a [u16]. *)
Class ScalarFieldLaws `{ScalarField} := {
  s_ring : ring_theory s_zero s_one s_add s_mul s_sub s_negate (@eq Scalar);
  s_invert_spec x : x <> s_zero -> exists y, s_invert x = Some y /\ s_mul y x = s_one;
  s_from_inj i j : 0 <= i <= 65535 -> 0 <= j <= 65535 -> s_from i = s_from j -> i = j;
  s_from_zero : s_from 0 = s_zero;
  exp_g_inj x y : exp_g x = exp_g y -> x = y;
}.

(** A non-zero [u16]. *)
Abbreviation ShareID := Z.

Inductive SharingError :=
| ThresholdBelowMinimum (threshold : Z)
| FewerSharesThanThreshold (num_shares threshold : Z)
| TooManyShares (num_shares : Z)
| CommitmentCount (expected : Z) (actual : nat)
| CommitmentIds (ids : list ShareID)
| DuplicateShareId
| NoMatchingShare
| NotEnoughShares (have : nat) (t : Z).

Definition MIN_THRESHOLD : Z := 2.
Definition MAX_NUM_SHARES : Z := 65535.

Record SecretSharingParams := mkSecretSharingParams { p_num_shares : Z; p_threshold : Z }.

Definition sharing_params_new (num_shares threshold : Z) : outcome SharingError SecretSharingParams :=
  _ ← guard (negb (threshold <? MIN_THRESHOLD)) (ThresholdBelowMinimum threshold);
  _ ← guard (negb (num_shares <? threshold)) (FewerSharesThanThreshold num_shares threshold);
  _ ← guard (negb (MAX_NUM_SHARES <? num_shares)) (TooManyShares num_shares);
  Ok (mkSecretSharingParams num_shares threshold).

Section sharing.
Context `{SF : ScalarField}.

Record Share := mkShare { sh_id : ShareID; sh_value : Scalar }.

(** [ShareCommitments] is a map ordered by id. *)
Abbreviation ShareCommitments := (gmap ShareID DigestBytes).

Record SecretSharingInstance := mkSecretSharingInstance {
  commitments : ShareCommitments;
  params : SecretSharingParams;
  sharing_seq : Z;
}.

Definition commitment_ids (c : ShareCommitments) : list ShareID :=
  sort_by Z.leb (map_to_list c).*1.

Definition num_shares (self : SecretSharingInstance) : Z := p_num_shares (params self).
Definition threshold (self : SecretSharingInstance) : Z := p_threshold (params self).

Definition instance_new (c : ShareCommitments) (num_shares threshold sharing_seq : Z)
    : outcome SharingError SecretSharingInstance :=
  p ← sharing_params_new num_shares threshold;
  _ ← guard (Z.of_nat (size c) =? p_num_shares p) (CommitmentCount (p_num_shares p) (size c));
  let ids := commitment_ids c in
  _ ← guard (bool_decide (ids = seqZ 1 (p_num_shares p))) (CommitmentIds ids);
  Ok (mkSecretSharingInstance c p sharing_seq).

(** ** Commitments *)

Definition commit_share (share : Share) : ShareID * DigestBytes :=
  (sh_id share, exp_g (sh_value share)).

Fixpoint commitments_insert (m : ShareCommitments) (l : list (ShareID * DigestBytes))
    : outcome SharingError ShareCommitments :=
  match l with
  | [] => Ok m
  | (id, digest) :: l =>
      match m !! id with
      | Some _ => Err DuplicateShareId
      | None => commitments_insert (<[id := digest]> m) l
      end
  end.

Definition commitments_new (l : list (ShareID * DigestBytes)) : outcome SharingError ShareCommitments :=
  commitments_insert ∅ l.

Definition from_shares (shares : list Share) : outcome SharingError ShareCommitments :=
  commitments_new (commit_share <$> shares).

Definition commitments_contains (self : ShareCommitments) (commitment : ShareID * DigestBytes) : bool :=
  match self !! commitment.1 with
  | Some digest => bool_decide (digest = commitment.2)
  | None => false
  end.

Definition verify_share (self : ShareCommitments) (share : Share) : outcome SharingError unit :=
  guard (commitments_contains self (commit_share share)) NoMatchingShare.

(** ** Splitting and combining *)

Definition to_scalar (id : ShareID) : Scalar := s_from id.

(** The loop keeps the sum and the power of [x]. *)
Definition eval_poly (pos : ShareID) (coefficients : list Scalar) : Scalar :=
  let x := to_scalar pos in
  (fold_left (fun acc c => (s_add acc.1 (s_mul c acc.2), s_mul acc.2 x)) coefficients
     (s_zero, s_one)).1.

(** [random] are the [threshold - 1] scalars drawn from the generator. *)
Definition split_secret (sk : Scalar) (p : SecretSharingParams) (random : list Scalar) : list Share :=
  (fun i => mkShare i (eval_poly i (sk :: random))) <$> seqZ 1 (p_num_shares p).

Definition s_product (l : list Scalar) : Scalar := fold_left s_mul l s_one.

Fixpoint check_distinct_ids (seen : gset ShareID) (shares : list Share)
    : outcome SharingError (gset ShareID) :=
  match shares with
  | [] => Ok seen
  | share :: shares =>
      if bool_decide (sh_id share ∈ seen) then Err DuplicateShareId
      else check_distinct_ids ({[sh_id share]} ∪ seen) shares
  end.

Definition lagrange_basis (ids : list Scalar) (cur : Scalar) : outcome SharingError Scalar :=
  let others := filter (fun id => cur <> id) ids in
  let numerator := s_product (s_negate <$> others) in
  let denominator := s_product ((fun id => s_sub cur id) <$> others) in
  inverse ← expect (s_invert denominator);
  Ok (s_mul numerator inverse).

Fixpoint interpolate (ids : list Scalar) (result : Scalar) (shares : list Share)
    : outcome SharingError Scalar :=
  match shares with
  | [] => Ok result
  | share :: shares =>
      basis ← lagrange_basis ids (to_scalar (sh_id share));
      interpolate ids (s_add result (s_mul (sh_value share) basis)) shares
  end.

(** The zero scalar is not a secret key. *)
Definition combine_shares (shares : list Share) (t : Z) : outcome SharingError Scalar :=
  seen ← check_distinct_ids ∅ shares;
  _ ← guard (negb (Z.of_nat (size seen) <? t)) (NotEnoughShares (size seen) t);
  let ids := (fun s => to_scalar (sh_id s)) <$> shares in
  result ← interpolate ids s_zero shares;
  _ ← assert (negb (bool_decide (result = s_zero)));
  Ok result.
End sharing.
