(* ===== verification/SecretSharingProofs.v ===== *)
(** * Sharing the Bitcoin key: theorems

    Polynomials as lists of coefficients: a polynomial with as many roots as coefficients is
    zero, so the interpolation of [combine_shares] through any [t] shares returns the
    constant term.  Shares that match the commitments of a split are the shares of that
    split, so a batch of them reconstructs the key that was split or is refused. *)

From Stdlib Require Import Ring.
From Stdlib Require Import Zmod.
From S2P Require Import SecretSharing Prelude.

Section polynomials.
Context `{SF : ScalarField} {SL : ScalarFieldLaws}.

Add Ring scalar_ring : s_ring.

Declare Scope scalar_scope.
Local Infix "+" := s_add : scalar_scope.
Local Infix "*" := s_mul : scalar_scope.
Local Infix "-" := s_sub : scalar_scope.
Local Notation "0" := s_zero : scalar_scope.
Local Notation "1" := s_one : scalar_scope.
Local Notation "- x" := (s_negate x) : scalar_scope.
Local Open Scope scalar_scope.

Lemma s_mul_zero x y : x * y = 0 -> x = 0 \/ y = 0.
Proof.
  intros H. destruct (decide (x = 0)) as [|Hx]; [by left|right].
  destruct (s_invert_spec x Hx) as (z & _ & Hz).
  assert (y = z * (x * y)) as -> by (transitivity (z * x * y); [rewrite Hz|]; ring).
  rewrite H. ring.
Qed.

Lemma s_mul_zero_l x : 0 * x = 0.
Proof. ring. Qed.
Lemma s_mul_zero_r x : x * 0 = 0.
Proof. ring. Qed.
Lemma s_add_zero_r x : x + 0 = x.
Proof. ring. Qed.

Lemma s_sub_zero x y : x - y = 0 -> x = y.
Proof. intros H. assert (x = (x - y) + y) as -> by ring. rewrite H. ring. Qed.

Lemma s_sub_nonzero x y : x <> y -> x - y <> 0.
Proof. intros Hne H. by apply Hne, s_sub_zero. Qed.

(** ** Evaluation *)

Fixpoint peval (cs : list Scalar) (x : Scalar) : Scalar :=
  match cs with
  | [] => 0
  | c :: cs => c + x * peval cs x
  end.

Lemma eval_poly_loop x cs : forall out xpow,
  (fold_left (fun acc c => (acc.1 + c * acc.2, acc.2 * x)) cs (out, xpow)).1
  = out + xpow * peval cs x.
Proof.
  induction cs as [|c cs IH]; intros out xpow; cbn; [ring|]. rewrite IH. ring.
Qed.

Lemma eval_poly_peval pos cs : eval_poly pos cs = peval cs (to_scalar pos).
Proof. unfold eval_poly. rewrite eval_poly_loop. ring. Qed.

(** ** Roots *)

(** The quotient by [x - a]. *)
Fixpoint pquot (a : Scalar) (cs : list Scalar) : list Scalar :=
  match cs with
  | [] => []
  | _ :: cs' => match cs' with [] => [] | _ => peval cs' a :: pquot a cs' end
  end.

Lemma length_pquot a cs : length (pquot a cs) = pred (length cs).
Proof. induction cs as [|c [|c' cs] IH]; [done|done|]. cbn in *. by rewrite IH. Qed.

Lemma pquot_spec a cs x : peval cs x - peval cs a = (x - a) * peval (pquot a cs) x.
Proof.
  induction cs as [|c [|c' cs] IH]; [cbn; ring|cbn; ring|].
  transitivity (x * (peval (c' :: cs) x - peval (c' :: cs) a) + (x - a) * peval (c' :: cs) a).
  { cbn. ring. }
  rewrite IH. cbn. ring.
Qed.

(** As many roots as coefficients: the zero polynomial. *)
Lemma roots_zero xs : forall cs,
  NoDup xs -> (length cs <= length xs)%nat -> (forall x, x ∈ xs -> peval cs x = 0) ->
  forall x, peval cs x = 0.
Proof.
  induction xs as [|a xs IH]; intros cs Hnd Hlen Hroots x.
  { destruct cs; [done|cbn in Hlen; lia]. }
  apply NoDup_cons in Hnd as [Ha Hnd].
  assert (forall y, peval cs y = (y - a) * peval (pquot a cs) y) as Hdiv.
  { intros y. rewrite <- pquot_spec, (Hroots a) by left. ring. }
  rewrite Hdiv, (IH (pquot a cs)); [ring|done|rewrite length_pquot; cbn in Hlen; lia|].
  intros y Hy. pose proof (Hroots y ltac:(by right)) as Hr. rewrite Hdiv in Hr.
  apply s_mul_zero in Hr as [Hr|Hr]; [|done]. apply s_sub_zero in Hr as ->. done.
Qed.

(** ** Sums, multiples and products of linear factors *)

Fixpoint padd (ps qs : list Scalar) : list Scalar :=
  match ps, qs with
  | [], _ => qs
  | _, [] => ps
  | p :: ps, q :: qs => (p + q) :: padd ps qs
  end.

Lemma peval_padd ps : forall qs x, peval (padd ps qs) x = peval ps x + peval qs x.
Proof.
  induction ps as [|p ps IH]; intros [|q qs] x; cbn; [ring..|]. rewrite IH. ring.
Qed.

Lemma length_padd ps : forall qs, length (padd ps qs) = Nat.max (length ps) (length qs).
Proof. induction ps as [|p ps IH]; intros [|q qs]; cbn; [done..|]. by rewrite IH. Qed.

Definition pscale (k : Scalar) (ps : list Scalar) : list Scalar := s_mul k <$> ps.

Lemma peval_pscale k ps x : peval (pscale k ps) x = k * peval ps x.
Proof. induction ps as [|p ps IH]; cbn; [ring|]. unfold pscale in IH. rewrite IH. ring. Qed.

(** [(x - a) * ps] *)
Definition plinear (a : Scalar) (ps : list Scalar) : list Scalar := padd (pscale (- a) ps) (0 :: ps).

Lemma peval_plinear a ps x : peval (plinear a ps) x = (x - a) * peval ps x.
Proof. unfold plinear. rewrite peval_padd, peval_pscale. cbn. ring. Qed.

Fixpoint proots (xs : list Scalar) : list Scalar :=
  match xs with
  | [] => [1]
  | x :: xs => plinear x (proots xs)
  end.

Lemma length_proots xs : length (proots xs) = S (length xs).
Proof.
  induction xs as [|x xs IH]; [done|]. cbn. unfold plinear, pscale.
  rewrite length_padd, length_fmap. cbn. lia.
Qed.

Lemma s_product_from l : forall acc, fold_left s_mul l acc = acc * s_product l.
Proof.
  unfold s_product. induction l as [|x l IH]; intros acc; cbn; [ring|].
  rewrite IH, (IH (1 * x)). ring.
Qed.

Lemma s_product_cons x l : s_product (x :: l) = x * s_product l.
Proof. unfold s_product at 1. cbn. rewrite s_product_from. ring. Qed.

Lemma peval_proots xs x : peval (proots xs) x = s_product ((fun y => x - y) <$> xs).
Proof.
  induction xs as [|y xs IH]; cbn [proots fmap list_fmap]; [cbn; ring|].
  rewrite peval_plinear, IH. symmetry. apply s_product_cons.
Qed.

Lemma s_product_zero l : 0 ∈ l -> s_product l = 0.
Proof.
  induction l as [|x l IH]; [by intros ?%elem_of_nil|]. rewrite s_product_cons.
  intros [<-|H]%elem_of_cons; [ring|]. rewrite IH by done. ring.
Qed.

Lemma s_product_nonzero l : 1 <> 0 -> (forall x, x ∈ l -> x <> 0) -> s_product l <> 0.
Proof.
  intros H1. induction l as [|x l IH]; intros Hall; [done|]. rewrite s_product_cons.
  intros [H|H]%s_mul_zero; [by eapply Hall; [left|]|]. revert H. apply IH. intros y Hy. apply Hall. by right.
Qed.

(** ** Interpolation *)

Lemma one_not_zero : 1 <> 0.
Proof.
  intros H. assert (forall x, x = 0) as Hall.
  { intros x. assert (x = 1 * x) as -> by ring. rewrite H. ring. }
  pose proof (s_from_inj 1%Z 0%Z ltac:(lia) ltac:(lia)) as Hinj.
  rewrite (Hall (s_from 1%Z)), (Hall (s_from 0%Z)) in Hinj. by specialize (Hinj eq_refl).
Qed.

Definition others (ids : list Scalar) (cur : Scalar) : list Scalar := filter (fun id => cur <> id) ids.

Lemma length_others ids cur : NoDup ids -> cur ∈ ids -> S (length (others ids cur)) = length ids.
Proof.
  unfold others. induction ids as [|x ids IH]; intros Hnd Hin; [by apply elem_of_nil in Hin|].
  apply NoDup_cons in Hnd as [Hx Hnd]. rewrite filter_cons.
  destruct (decide (cur <> x)) as [Hne|Heq].
  - apply elem_of_cons in Hin as [->|Hin]; [done|]. cbn. by rewrite IH.
  - apply dec_stable in Heq as ->. cbn. f_equal.
    assert (forall l : list Scalar, x ∉ l -> filter (fun id => x <> id) l = l) as Hall.
    { induction l as [|y l IHl]; [done|]. rewrite not_elem_of_cons. intros [Hne Hl].
      rewrite filter_cons_True by done. by rewrite IHl. }
    by rewrite Hall.
Qed.

(** The basis of [cur] evaluates the polynomial with the other ids as roots, scaled to one
    at [cur]. *)
Lemma lagrange_basis_spec ids cur :
  exists inverse, lagrange_basis ids cur = Ok (peval (proots (others ids cur)) 0 * inverse)
    /\ inverse * peval (proots (others ids cur)) cur = 1.
Proof.
  unfold lagrange_basis. fold (others ids cur).
  rewrite !peval_proots. set (d := s_product ((fun y => cur - y) <$> others ids cur)).
  assert (d <> 0) as Hd.
  { apply s_product_nonzero; [apply one_not_zero|].
    intros x (y & -> & [Hy _]%list_elem_of_filter)%list_elem_of_fmap. by apply s_sub_nonzero. }
  destruct (s_invert_spec d Hd) as (i & Hi & Hid). exists i. split; [|done].
  cbn zeta. fold d. rewrite Hi. cbn. do 3 f_equal.
  apply list_fmap_ext. intros _ y _. ring.
Qed.

(** The values of the shares at [x]. *)
Fixpoint values_at (shares : list Share) (x : Scalar) : Scalar :=
  match shares with
  | [] => 0
  | s :: shares => (if decide (to_scalar (sh_id s) = x) then sh_value s else 0) + values_at shares x
  end.

Lemma interpolate_spec ids shares : forall result,
  NoDup ids -> (forall s, s ∈ shares -> to_scalar (sh_id s) ∈ ids) ->
  exists cs, interpolate ids result shares = Ok (result + peval cs 0)
    /\ (length cs <= length ids)%nat
    /\ forall x, x ∈ ids -> peval cs x = values_at shares x.
Proof.
  induction shares as [|s shares IH]; intros result Hnd Hin.
  { exists []. cbn. split_and!; [f_equal; ring|lia|done]. }
  set (cur := to_scalar (sh_id s)).
  destruct (lagrange_basis_spec ids cur) as (i & Hb & Hi).
  set (ps := proots (others ids cur)) in *.
  destruct (IH (result + sh_value s * (peval ps 0 * i)) Hnd) as (cs & Hcs & Hlen & Hval).
  { intros s' Hs'. apply Hin. by right. }
  exists (padd (pscale (sh_value s * i) ps) cs). split_and!.
  - cbn. fold cur. rewrite Hb. cbn. rewrite Hcs, peval_padd, peval_pscale. f_equal. ring.
  - rewrite length_padd. unfold pscale, ps. rewrite length_fmap, length_proots, length_others;
      [lia|done|apply Hin; left].
  - intros x Hx. rewrite peval_padd, peval_pscale, Hval by done. cbn. fold cur. f_equal.
    destruct (decide (cur = x)) as [<-|Hne].
    + transitivity (sh_value s * (i * peval ps cur)); [ring|]. rewrite Hi. ring.
    + unfold ps. rewrite peval_proots, s_product_zero; [ring|].
      apply list_elem_of_fmap. exists x. split; [ring|]. by apply list_elem_of_filter.
Qed.

Lemma values_at_absent shares x :
  x ∉ ((fun s => to_scalar (sh_id s)) <$> shares) -> values_at shares x = 0.
Proof.
  induction shares as [|s l IH]; [done|]. cbn. rewrite not_elem_of_cons. intros [Hne Hl].
  rewrite decide_False by done. rewrite IH by done. ring.
Qed.

Lemma values_at_member shares s :
  NoDup ((fun s => to_scalar (sh_id s)) <$> shares) -> s ∈ shares ->
  values_at shares (to_scalar (sh_id s)) = sh_value s.
Proof.
  induction shares as [|s' shares IH]; intros Hnd Hs; [by apply elem_of_nil in Hs|].
  cbn in Hnd |- *. apply NoDup_cons in Hnd as [Hs' Hnd]. apply elem_of_cons in Hs as [->|Hs].
  - rewrite decide_True, values_at_absent by done. ring.
  - rewrite decide_False, IH by (done || by intros Heq; rewrite Heq in Hs'; apply Hs',
      (list_elem_of_fmap_2 (fun s => to_scalar (sh_id s)))). ring.
Qed.

(** Interpolating points of a polynomial with no more coefficients than points gives its
    value at zero. *)
Lemma interpolate_on_poly cs shares :
  let ids := (fun s => to_scalar (sh_id s)) <$> shares in
  NoDup ids -> (length cs <= length shares)%nat ->
  (forall s, s ∈ shares -> sh_value s = peval cs (to_scalar (sh_id s))) ->
  interpolate ids 0 shares = Ok (peval cs 0).
Proof.
  intros ids Hnd Hlen Hval.
  destruct (interpolate_spec ids shares 0 Hnd) as (ps & Hps & Hl & Hat).
  { intros s Hs. by apply (list_elem_of_fmap_2 (fun s => to_scalar (sh_id s))). }
  rewrite Hps. f_equal.
  assert (peval (padd ps (pscale (- (1)) cs)) 0 = 0) as Hz.
  { apply (roots_zero ids); [done| |].
    - rewrite length_padd. unfold pscale, ids in *. rewrite !length_fmap in *. lia.
    - intros x Hx. rewrite peval_padd, peval_pscale, Hat by done.
      apply list_elem_of_fmap in Hx as (s & -> & Hs).
      rewrite values_at_member, Hval by done. ring. }
  rewrite peval_padd, peval_pscale in Hz.
  transitivity (peval ps 0 + - (1) * peval cs 0 + peval cs 0); [ring|]. rewrite Hz. ring.
Qed.
End polynomials.

Section theorems.
Context `{SF : ScalarField} {SL : ScalarFieldLaws}.

Abbreviation ShareCommitments := (gmap ShareID DigestBytes).

(** ** The checks *)

Lemma check_distinct_ids_spec shares : forall seen,
  check_distinct_ids seen shares
  = if bool_decide (NoDup (sh_id <$> shares) /\ Forall (fun s => sh_id s ∉ seen) shares)
    then Ok (list_to_set (sh_id <$> shares) ∪ seen) else Err DuplicateShareId.
Proof.
  induction shares as [|s shares IH]; intros seen; cbn [check_distinct_ids].
  { rewrite bool_decide_true; [cbn; f_equal; set_solver|].
    split; constructor. }
  rewrite fmap_cons. case_bool_decide as Hs.
  { rewrite bool_decide_false; [done|]. by intros [_ [H _]%Forall_cons]. }
  rewrite IH. case_bool_decide as H1; case_bool_decide as H2; try done.
  - cbn. f_equal. set_solver.
  - destruct H2. destruct H1 as [Hnd H1]. rewrite Forall_forall in H1. split.
    + apply NoDup_cons. split; [|done]. intros (s' & Heq & Hs')%list_elem_of_fmap.
      apply H1 in Hs'. set_solver.
    + constructor; [done|]. apply Forall_forall. intros s' Hs'%H1. set_solver.
  - destruct H1. destruct H2 as [[Hn Hnd]%NoDup_cons [_ H2]%Forall_cons]. split; [done|].
    rewrite Forall_forall in *. intros s' Hs'.
    rewrite not_elem_of_union, not_elem_of_singleton. split; [|by apply H2].
    intros Heq. apply Hn. rewrite <- Heq. by apply list_elem_of_fmap_2.
Qed.

Lemma params_new_Ok n t p :
  sharing_params_new n t = Ok p -> p = mkSecretSharingParams n t /\ 2 <= t <= n /\ n <= 65535.
Proof.
  unfold sharing_params_new, MIN_THRESHOLD, MAX_NUM_SHARES. intros H. inv_ok.
  rewrite negb_true_iff, Z.ltb_ge in *. subst. split; [done|lia].
Qed.

Lemma elem_of_split sk p random s :
  s ∈ split_secret sk p random <->
  1 <= sh_id s <= p_num_shares p /\ sh_value s = peval (sk :: random) (to_scalar (sh_id s)).
Proof.
  unfold split_secret. rewrite list_elem_of_fmap. setoid_rewrite elem_of_seqZ. split.
  - intros (i & -> & Hi). cbn [sh_id sh_value]. rewrite eval_poly_peval. split; [lia|done].
  - intros [Hi Hv]. exists (sh_id s). rewrite eval_poly_peval, <- Hv. split; [by destruct s|lia].
Qed.

Lemma to_scalar_NoDup (ids : list ShareID) :
  Forall (fun i => 0 <= i <= 65535) ids -> NoDup ids -> NoDup (to_scalar <$> ids).
Proof.
  intros Hall Hnd. apply NoDup_fmap_2_strong; [|done]. rewrite Forall_forall in Hall.
  intros x y Hx Hy. apply s_from_inj; by apply Hall.
Qed.

(** Shares of one split: the secret from a threshold of them, an error otherwise. *)
Lemma combine_split sk n t p random shares :
  sharing_params_new n t = Ok p -> sk <> s_zero -> Z.of_nat (length random) = t - 1 ->
  (forall s, s ∈ shares -> s ∈ split_secret sk p random) ->
  combine_shares shares t
  = if bool_decide (NoDup (sh_id <$> shares)) then
      if t <=? Z.of_nat (length shares) then Ok sk
      else Err (NotEnoughShares (length shares) t)
    else Err DuplicateShareId.
Proof.
  intros [-> [Ht Hn]]%params_new_Ok Hsk Hlen Hin. unfold combine_shares.
  rewrite check_distinct_ids_spec. destruct (decide (NoDup (sh_id <$> shares))) as [Hnd|Hnd].
  2:{ rewrite !bool_decide_false by tauto. done. }
  rewrite (bool_decide_true (NoDup _ /\ _)) by (split; [done|apply Forall_forall; set_solver]).
  rewrite bool_decide_true by done. cbn [mbind outcome_bind].
  rewrite (right_id_L ∅ (∪)), size_list_to_set, length_fmap by done.
  destruct (Z.leb_spec t (Z.of_nat (length shares))) as [Hle|Hlt].
  2:{ rewrite (proj2 (Z.ltb_lt _ _)) by done. done. }
  rewrite (proj2 (Z.ltb_ge _ _)) by done. cbn [negb guard mbind outcome_bind].
  rewrite (interpolate_on_poly (sk :: random) shares).
  - cbn [mbind outcome_bind peval].
    assert (s_add sk (s_mul s_zero (peval random s_zero)) = sk) as ->.
    { by rewrite s_mul_zero_l, s_add_zero_r. }
    rewrite bool_decide_false by done. done.
  - change (NoDup (to_scalar ∘ sh_id <$> shares)).
    rewrite (list_fmap_compose sh_id to_scalar shares). apply to_scalar_NoDup; [|done].
    apply Forall_fmap, Forall_forall. intros s Hs%Hin%elem_of_split. cbn in *. lia.
  - cbn. lia.
  - intros s Hs%Hin%elem_of_split. apply Hs.
Qed.

(** ** Commitments *)

Lemma commitments_insert_spec l : forall (m : ShareCommitments),
  NoDup l.*1 -> (forall i, i ∈ l.*1 -> m !! i = None) ->
  commitments_insert m l = Ok (list_to_map l ∪ m).
Proof.
  induction l as [|[i d] l IH]; intros m Hnd Hnone; cbn; [by rewrite (left_id_L ∅ (∪))|].
  apply NoDup_cons in Hnd as [Hi Hnd]. rewrite (Hnone i) by left.
  rewrite IH; [|done|].
  - f_equal. rewrite <- insert_union_l. symmetry. apply insert_union_r.
    by apply not_elem_of_list_to_map_1.
  - intros j Hj. rewrite lookup_insert_ne by (by intros ->). apply Hnone. by right.
Qed.

Lemma split_ids sk p random : sh_id <$> split_secret sk p random = seqZ 1 (p_num_shares p).
Proof. unfold split_secret. rewrite <- list_fmap_compose. apply list_fmap_id. Qed.

Definition split_commitments (sk : Scalar) (p : SecretSharingParams) (random : list Scalar)
    : ShareCommitments := list_to_map (commit_share <$> split_secret sk p random).

Lemma split_commitment_ids sk p random :
  (commit_share <$> split_secret sk p random).*1 = seqZ 1 (p_num_shares p).
Proof. rewrite <- list_fmap_compose. apply split_ids. Qed.

Lemma from_shares_split sk p random :
  from_shares (split_secret sk p random) = Ok (split_commitments sk p random).
Proof.
  unfold from_shares, commitments_new. rewrite commitments_insert_spec.
  - by rewrite (right_id_L ∅ (∪)).
  - rewrite split_commitment_ids. apply NoDup_seqZ.
  - intros i _. apply lookup_empty.
Qed.

(** A share matches the commitments of a split exactly when it is one of its shares. *)
Lemma verify_share_split sk p random s :
  verify_share (split_commitments sk p random) s = Ok tt <-> s ∈ split_secret sk p random.
Proof.
  unfold verify_share, commitments_contains. rewrite guard_Ok. cbn [commit_share fst snd].
  assert (NoDup (commit_share <$> split_secret sk p random).*1) as Hnd.
  { rewrite split_commitment_ids. apply NoDup_seqZ. }
  destruct (split_commitments sk p random !! sh_id s) as [d|] eqn:Hd; unfold split_commitments in Hd.
  - apply elem_of_list_to_map_2 in Hd as Hin.
    apply list_elem_of_fmap in Hin as (s' & [= Hid ->] & Hs'). rewrite bool_decide_eq_true. split.
    + intros Heq%exp_g_inj. destruct s, s'; cbn in *; by subst.
    + intros Hs. assert (list_to_map (M:=ShareCommitments) (commit_share <$> split_secret sk p random) !! sh_id s
        = Some (exp_g (sh_value s))) as Hs2.
      { apply elem_of_list_to_map_1; [done|]. by apply (list_elem_of_fmap_2 commit_share). }
      congruence.
  - split; [done|]. intros Hs. apply not_elem_of_list_to_map_2 in Hd. destruct Hd.
    apply (list_elem_of_fmap_2 commit_share) in Hs. by apply (list_elem_of_fmap_2 fst) in Hs.
Qed.

Lemma seqZ_sorted n : forall m, StronglySorted (le_of Z.leb) (seqZ m n).
Proof.
  destruct (Z.le_gt_cases n 0) as [|Hn]; [intros m; rewrite seqZ_nil by lia; constructor|].
  rewrite <- (Z2Nat.id n) by lia. induction (Z.to_nat n) as [|k IH]; intros m.
  { rewrite seqZ_nil by lia. constructor. }
  rewrite seqZ_cons by lia. replace (Z.pred (Z.of_nat (S k))) with (Z.of_nat k) by lia.
  constructor; [apply IH|]. apply Forall_forall. intros x ?%elem_of_seqZ.
  apply Z.leb_le. lia.
Qed.

Lemma split_commitments_ids sk p random :
  commitment_ids (split_commitments sk p random) = seqZ 1 (p_num_shares p).
Proof.
  unfold commitment_ids. assert ((map_to_list (split_commitments sk p random)).*1 ≡ₚ seqZ 1 (p_num_shares p)) as Hp.
  { unfold split_commitments. rewrite map_to_list_to_map; [by rewrite split_commitment_ids|].
    rewrite split_commitment_ids. apply NoDup_seqZ. }
  apply (StronglySorted_unique_strong (le_of Z.leb)).
  - unfold le_of. intros x y _ _ ?%Z.leb_le ?%Z.leb_le. lia.
  - apply sort_by_sorted; intros; rewrite ?Z.leb_le in *; lia.
  - apply seqZ_sorted.
  - by rewrite sort_by_perm.
Qed.

Lemma instance_new_split sk n t p random sharing_seq :
  sharing_params_new n t = Ok p ->
  instance_new (split_commitments sk p random) n t sharing_seq
  = Ok (mkSecretSharingInstance (split_commitments sk p random) p sharing_seq).
Proof.
  intros Hp. unfold instance_new. rewrite Hp. cbn [mbind outcome_bind].
  rewrite split_commitments_ids, bool_decide_true by done.
  apply params_new_Ok in Hp as [-> [Ht Hn]].
  assert (size (split_commitments sk (mkSecretSharingParams n t) random) = Z.to_nat n) as ->.
  { rewrite <- length_map_to_list. unfold split_commitments. rewrite map_to_list_to_map.
    - unfold split_secret. by rewrite !length_fmap, length_seqZ.
    - rewrite split_commitment_ids. apply NoDup_seqZ. }
  cbn. by rewrite Z2Nat.id, Z.eqb_refl by lia.
Qed.

(** ** The theorems *)

(** C6: the key comes back from the shares.  Split any key with any coefficients under
    accepted parameters; the dealt commitments form an instance that accepts exactly the
    shares of the split.  Whatever list of accepted shares is combined, the result is the
    key if the ids are distinct and there are at least [t] of them, and otherwise the
    error that says which of these fails; no other key and no panic. *)
Theorem committed_shares_reconstruct sk n t p random sharing_seq :
  sharing_params_new n t = Ok p -> sk <> s_zero -> Z.of_nat (length random) = t - 1 ->
  exists c instance,
    from_shares (split_secret sk p random) = Ok c
    /\ instance_new c n t sharing_seq = Ok instance
    /\ (forall s, verify_share (commitments instance) s = Ok tt <-> s ∈ split_secret sk p random)
    /\ forall shares,
         Forall (fun s => verify_share (commitments instance) s = Ok tt) shares ->
         combine_shares shares (threshold instance)
         = if bool_decide (NoDup (sh_id <$> shares)) then
             if t <=? Z.of_nat (length shares) then Ok sk
             else Err (NotEnoughShares (length shares) t)
           else Err DuplicateShareId.
Proof.
  intros Hp Hsk Hlen. eexists _, _. split_and!.
  - apply from_shares_split.
  - by apply instance_new_split.
  - apply verify_share_split.
  - intros shares Hall. cbn [commitments threshold params] in *. unfold threshold. cbn [params].
    destruct (params_new_Ok _ _ _ Hp) as [-> _]. cbn [p_threshold].
    eapply combine_split; [done..|]. intros s Hs. rewrite Forall_forall in Hall.
    by apply verify_share_split, Hall.
Qed.

(** A polynomial padded with zero coefficients. *)
Lemma peval_pad cs k x : peval (cs ++ replicate k s_zero) x = peval cs x.
Proof.
  induction cs as [|c cs IH]; cbn [app peval]; [|by rewrite IH].
  induction k as [|k IH]; cbn; [done|]. by rewrite IH, s_mul_zero_r, s_add_zero_r.
Qed.

(** C7: fewer shares than the threshold say nothing about the key.  Whatever key was split,
    with whatever coefficients, and whichever fewer than [t] shares an observer holds: for
    every other key there are as many coefficients that deal the very same shares. *)
Theorem fewer_shares_hide_key sk sk' n t p random (ids : list ShareID) :
  sharing_params_new n t = Ok p -> Z.of_nat (length random) = t - 1 ->
  NoDup ids -> Z.of_nat (length ids) < t -> Forall (fun i => 1 <= i <= n) ids ->
  exists random', length random' = length random
    /\ forall s, sh_id s ∈ ids -> s ∈ split_secret sk p random <-> s ∈ split_secret sk' p random'.
Proof.
  intros [-> [Ht Hn]]%params_new_Ok Hlen Hnd Hfew Hids. rewrite Forall_forall in Hids.
  set (known := mkShare 0 sk' :: ((fun i => mkShare i (eval_poly i (sk :: random))) <$> ids)).
  assert (sh_id <$> known = 0 :: ids) as Hkn.
  { unfold known. cbn. f_equal. rewrite <- list_fmap_compose. apply list_fmap_id. }
  assert (NoDup (to_scalar <$> 0 :: ids)) as Hnd'.
  { apply to_scalar_NoDup; [constructor; [lia|]; apply Forall_forall; intros i Hi%Hids; lia|].
    constructor; [|done]. intros Hi%Hids. lia. }
  destruct (interpolate_spec (to_scalar <$> 0 :: ids) known s_zero Hnd') as (cs & _ & Hcs & Hat).
  { intros s Hs%(list_elem_of_fmap_2 sh_id). rewrite Hkn in Hs. by apply list_elem_of_fmap_2. }
  rewrite length_fmap in Hcs. cbn in Hcs.
  set (cs' := cs ++ replicate (S (length random) - length cs) s_zero).
  assert (length cs' = S (length random)) as Hl'.
  { unfold cs'. rewrite length_app, length_replicate. lia. }
  assert (forall s, s ∈ known -> peval cs' (to_scalar (sh_id s)) = sh_value s) as Hon.
  { intros s Hs. unfold cs'. rewrite peval_pad, Hat.
    - apply values_at_member; [|done].
      change (NoDup (to_scalar ∘ sh_id <$> known)). by rewrite list_fmap_compose, Hkn.
    - apply (list_elem_of_fmap_2 sh_id) in Hs. rewrite Hkn in Hs. by apply list_elem_of_fmap_2. }
  destruct cs' as [|c random']; [done|]. exists random'. split; [by injection Hl'|].
  assert (c = sk') as ->.
  { specialize (Hon (mkShare 0 sk') ltac:(left)). cbn in Hon. unfold to_scalar in Hon.
    by rewrite s_from_zero, s_mul_zero_l, s_add_zero_r in Hon. }
  intros s Hs. rewrite !elem_of_split. cbn [p_num_shares].
  assert (peval (sk' :: random') (to_scalar (sh_id s)) = eval_poly (sh_id s) (sk :: random)) as ->.
  { apply (Hon (mkShare (sh_id s) _)). right.
    by apply (list_elem_of_fmap_2 (fun i => mkShare i (eval_poly i (sk :: random)))). }
  by rewrite eval_poly_peval.
Qed.
End theorems.

(** * A small field of shares

    The integers modulo 65537 satisfy [ScalarFieldLaws]; a key is split three ways with
    threshold two. *)

Module SmallSharing.

Abbreviation F := (Zmod 65537).

#[export] Instance F_eq_dec : EqDecision F.
Proof.
  intros x y. destruct (decide (Zmod.to_Z x = Zmod.to_Z y)) as [H|H];
    [left; by apply Zmod.to_Z_inj|right; by intros ->].
Defined.

Definition F_invert (x : F) : option F := if decide (x = Zmod.zero) then None else Some (Zmod.inv x).

#[export] Instance small_field : ScalarField := {|
  Scalar := F;
  Scalar_eq := F_eq_dec;
  s_zero := Zmod.zero;
  s_one := Zmod.one;
  s_add := Zmod.add;
  s_mul := Zmod.mul;
  s_sub := Zmod.sub;
  s_negate := Zmod.opp;
  s_invert := F_invert;
  s_from := Zmod.of_Z 65537;
  DigestBytes := F;
  DigestBytes_eq := F_eq_dec;
  exp_g x := x;
|}.

Fixpoint all_coprime (n : nat) (z : Z) : bool :=
  match n with
  | O => true
  | S n => (Z.gcd z 65537 =? 1) && all_coprime n (z + 1)
  end.

Lemma all_coprime_spec n : forall z x,
  all_coprime n z = true -> z <= x < z + Z.of_nat n -> Z.gcd x 65537 = 1.
Proof.
  induction n as [|n IH]; intros z x H Hx; [lia|].
  cbn in H. apply andb_true_iff in H as [Hz H]. destruct (decide (x = z)) as [->|]; [lia|].
  apply (IH (z + 1)); [done|lia].
Qed.

Lemma all_coprime_field : all_coprime (Z.to_nat 65536) 1 = true.
Proof. exact (eq_refl true <: all_coprime (Z.to_nat 65536) 1 = true). Qed.

Lemma F_coprime (x : F) : x <> Zmod.zero -> Z.gcd (Zmod.to_Z x) 65537 = 1.
Proof.
  intros Hx. pose proof (Zmod.unsigned_pos_bound x ltac:(lia)) as Hr.
  assert (Zmod.to_Z x <> 0) as Hz.
  { intros H. apply Hx, Zmod.to_Z_inj. by rewrite H. }
  apply (all_coprime_spec _ _ _ all_coprime_field). rewrite Z2Nat.id by lia. lia.
Qed.

#[export] Instance small_field_laws : ScalarFieldLaws.
Proof.
  split.
  - apply Zmod.ring_theory.
  - intros x Hx. cbn in *. unfold F_invert. rewrite decide_False by done.
    eexists. split; [done|]. by apply Zmod.mul_inv_same_l_coprime, F_coprime.
  - intros i j Hi Hj H%(f_equal Zmod.to_Z).
    change (Zmod.to_Z (Zmod.of_Z 65537 i) = Zmod.to_Z (Zmod.of_Z 65537 j)) in H.
    rewrite !Zmod.to_Z_of_Z in H.
    rewrite !Z.mod_small in H by lia. done.
  - reflexivity.
  - done.
Qed.

Definition key : Scalar := Zmod.of_Z 65537 1234.
Definition dealt : list Share := split_secret key (mkSecretSharingParams 3 2) [Zmod.of_Z 65537 777].

Example dealt_values : (fun s => Zmod.to_Z (sh_value s)) <$> dealt = [2011; 2788; 3565].
Proof. vm_compute. reflexivity. Qed.

Lemma committed_shares_reconstruct_witness :
  exists c instance,
    from_shares dealt = Ok c /\ instance_new c 3 2 9 = Ok instance
    /\ (forall s, verify_share (commitments instance) s = Ok tt <-> s ∈ dealt)
    /\ forall shares, Forall (fun s => verify_share (commitments instance) s = Ok tt) shares ->
         combine_shares shares (threshold instance)
         = if bool_decide (NoDup (sh_id <$> shares)) then
             if 2 <=? Z.of_nat (length shares) then Ok key
             else Err (NotEnoughShares (length shares) 2)
           else Err DuplicateShareId.
Proof.
  apply (committed_shares_reconstruct key 3 2 (mkSecretSharingParams 3 2) [Zmod.of_Z 65537 777] 9).
  - reflexivity.
  - intros H%(f_equal Zmod.to_Z). vm_compute in H. discriminate H.
  - reflexivity.
Defined.

(** The second share alone fits every key. *)
Lemma fewer_shares_hide_key_witness :
  exists random', length random' = 1%nat
    /\ forall s, sh_id s ∈ [2] ->
         s ∈ dealt <-> s ∈ split_secret (Zmod.of_Z 65537 4321) (mkSecretSharingParams 3 2) random'.
Proof.
  apply (fewer_shares_hide_key key (Zmod.of_Z 65537 4321) 3 2 (mkSecretSharingParams 3 2)
           [Zmod.of_Z 65537 777] [2]).
  - reflexivity.
  - reflexivity.
  - apply NoDup_singleton.
  - vm_compute. reflexivity.
  - repeat constructor; lia.
Defined.
End SmallSharing.
