(* ===== verification/KpShares.v ===== *)
(** * Shares of the key provisioners

    [crates/hashi-types/src/guardian/crypto/encryption.rs] with the KP-signed envelope of
    [crypto/signing.rs] and [session.rs]: who holds which share of the Bitcoin
    key, how the enclave deals shares and how it takes them back.

    OpenPGP, HPKE and the byte encodings are the class [KpCrypto].  A text in an error is its
    constructor here; a fingerprint is its hexadecimal text. *)

From Stdlib Require Import String.
From stdpp Require Import strings.
From Stdlib Require Import String Ascii.
From S2P Require Import SecretSharing SecretSharingProofs Prelude.

Abbreviation KPFingerprint := string.
Abbreviation SessionID := string.

Class KpCrypto `{ScalarField} := {
  AttestedKpCert : Type;
  AttestedKpCert_eq :: EqDecision AttestedKpCert;
  cert_fingerprint : AttestedKpCert -> KPFingerprint;
  (** [encrypt_armored_for_key] of a scalar's bytes *)
  encrypt_share_for_provisioner : Scalar -> AttestedKpCert -> string;
  Ciphertext : Type;
  EncSecKey : Type;
  (** HPKE without associated data, and [ScalarPrimitive::from_slice] *)
  hpke_decrypt : Ciphertext -> EncSecKey -> option (list Z);
  scalar_from_slice : list Z -> option Scalar;
  (** [verify_detached_signature_for_key] *)
  verify_detached_signature : list Z -> string -> AttestedKpCert -> bool;
  (** [pgp_message_recipients], and whether a key handle names the attested encryption key *)
  KeyHandle : Type;
  pgp_message_recipients : string -> option (list KeyHandle);
  encryption_key_aliases : AttestedKpCert -> KeyHandle -> bool;
}.

Inductive KpError :=
| Sharing (e : SharingError)
| DuplicateCertificate (fingerprint : KPFingerprint)
| RosterTooLong (n : nat)
| RosterIds (ids : list ShareID)
| DuplicateRecipient (fingerprint : KPFingerprint)
| NotInRoster (fingerprint : KPFingerprint)
| RecipientDiffers (id : ShareID) (expected got : KPFingerprint)
| RecipientsUnparsed (id : ShareID)
| RecipientCount (id : ShareID) (count : nat)
| WrongEncryptionKey (id : ShareID) (recipient : KPFingerprint)
| RecipientCountMismatch (num_kps share_count : nat)
| WrongShareId (fingerprint : KPFingerprint) (assigned submitted : ShareID)
| ReplacementNotNew (fingerprint : KPFingerprint)
| ReplacementPresent (fingerprint : KPFingerprint)
| DecryptionFailed
| ShareNotAScalar
| TooFewSubmissions (threshold : Z) (count : nat)
| TooManySubmissions (num_shares : Z) (count : nat)
| DuplicateSubmission
| SharingSeqMismatch (kp_shares ceremony : Z)
| ShareCountMismatch (encrypted : nat) (num_shares : Z)
| WrongSession (expected live : SessionID)
| BadKpSignature.

Abbreviation kp_result := (outcome KpError).

Definition lift_sharing {A} (o : outcome SharingError A) : kp_result A :=
  match o with Ok a => Ok a | Err e => Err (Sharing e) | Panic => Panic end.

Section kp.
Context `{KC : KpCrypto}.

(** ** Rosters *)

(** Sorted by fingerprint, which are distinct. *)
Definition KpCertRoster : Type := list AttestedKpCert.

Fixpoint adjacent_distinct (certs : KpCertRoster) : kp_result unit :=
  match certs with
  | a :: ((b :: _) as rest) =>
      _ ← guard (negb (String.eqb (cert_fingerprint a) (cert_fingerprint b)))
            (DuplicateCertificate (cert_fingerprint a));
      adjacent_distinct rest
  | _ => Ok tt
  end.

Definition cert_roster_new (kp_certs : list AttestedKpCert) : kp_result KpCertRoster :=
  let kp_certs := sort_by (fun a b => String.leb (cert_fingerprint a) (cert_fingerprint b)) kp_certs in
  _ ← adjacent_distinct kp_certs;
  Ok kp_certs.

Definition num_kps (self : KpCertRoster) : nat := length self.

Definition fingerprints (self : KpCertRoster) : list KPFingerprint := cert_fingerprint <$> self.

Definition cert_for_fingerprint (self : KpCertRoster) (fingerprint : KPFingerprint)
    : option AttestedKpCert :=
  List.find (fun cert => String.eqb (cert_fingerprint cert) fingerprint) self.

(** The first certificate with the fingerprint is changed in place. *)
Fixpoint replace_first_cert (certs : list AttestedKpCert) (current : KPFingerprint)
    (new_cert : AttestedKpCert) : option (list AttestedKpCert) :=
  match certs with
  | [] => None
  | cert :: certs =>
      if String.eqb (cert_fingerprint cert) current then Some (new_cert :: certs)
      else rest ← replace_first_cert certs current new_cert; Some (cert :: rest)
  end.

Definition replace_cert (self : KpCertRoster) (current_fingerprint : KPFingerprint)
    (new_cert : AttestedKpCert) : kp_result KpCertRoster :=
  let new_fingerprint := cert_fingerprint new_cert in
  _ ← guard (negb (String.eqb new_fingerprint current_fingerprint)) (ReplacementNotNew new_fingerprint);
  match replace_first_cert self current_fingerprint new_cert with
  | None => Err (NotInRoster current_fingerprint)
  | Some kp_certs => cert_roster_new kp_certs
  end.

Record KpEncryptedShare := mkKpEncryptedShare {
  ks_id : ShareID;
  recipient_fingerprint : KPFingerprint;
  armored_ciphertext : string;
}.

Definition verify_recipient (self : KpEncryptedShare) (cert : AttestedKpCert) : kp_result unit :=
  let expected_fingerprint := cert_fingerprint cert in
  _ ← guard (String.eqb (recipient_fingerprint self) expected_fingerprint)
        (RecipientDiffers (ks_id self) expected_fingerprint (recipient_fingerprint self));
  match pgp_message_recipients (armored_ciphertext self) with
  | None => Err (RecipientsUnparsed (ks_id self))
  | Some [handle] =>
      guard (encryption_key_aliases cert handle)
        (WrongEncryptionKey (ks_id self) (recipient_fingerprint self))
  | Some recipients => Err (RecipientCount (ks_id self) (length recipients))
  end.

(** In the order of the share ids. *)
Definition KpEncryptedShareRoster : Type := list KpEncryptedShare.

Fixpoint check_recipients (seen : gset KPFingerprint) (shares : list KpEncryptedShare)
    : kp_result unit :=
  match shares with
  | [] => Ok tt
  | share :: shares =>
      _ ← guard (negb (bool_decide (recipient_fingerprint share ∈ seen)))
            (DuplicateRecipient (recipient_fingerprint share));
      check_recipients ({[recipient_fingerprint share]} ∪ seen) shares
  end.

Definition share_roster_new (shares : list KpEncryptedShare) : kp_result KpEncryptedShareRoster :=
  let shares := sort_by (fun a b => ks_id a <=? ks_id b) shares in
  _ ← guard (negb (MAX_NUM_SHARES <? Z.of_nat (length shares))) (RosterTooLong (length shares));
  _ ← guard (bool_decide (ks_id <$> shares = seqZ 1 (Z.of_nat (length shares))))
        (RosterIds (ks_id <$> shares));
  _ ← check_recipients ∅ shares;
  Ok shares.

Definition find_by_fingerprint (self : KpEncryptedShareRoster) (fingerprint : KPFingerprint)
    : option KpEncryptedShare :=
  List.find (fun share => String.eqb (recipient_fingerprint share) fingerprint) self.

Definition validate_share_assignment (self : KpEncryptedShareRoster) (fingerprint : KPFingerprint)
    (submitted_share_id : ShareID) : kp_result unit :=
  match find_by_fingerprint self fingerprint with
  | None => Err (NotInRoster fingerprint)
  | Some assigned_share =>
      guard (ks_id assigned_share =? submitted_share_id)
        (WrongShareId fingerprint (ks_id assigned_share) submitted_share_id)
  end.

Fixpoint verify_each_recipient (self : KpEncryptedShareRoster) (certs : list AttestedKpCert)
    : kp_result unit :=
  match certs with
  | [] => Ok tt
  | cert :: certs =>
      match find_by_fingerprint self (cert_fingerprint cert) with
      | None => Err (NotInRoster (cert_fingerprint cert))
      | Some share =>
          _ ← verify_recipient share cert;
          verify_each_recipient self certs
      end
  end.

Definition verify_recipients (self : KpEncryptedShareRoster) (certs_roster : KpCertRoster)
    : kp_result unit :=
  _ ← guard (length self =? num_kps certs_roster)%nat
        (RecipientCountMismatch (num_kps certs_roster) (length self));
  verify_each_recipient self certs_roster.

(** The first share of the recipient is changed in place. *)
Fixpoint replace_first (shares : list KpEncryptedShare) (current new_fingerprint : KPFingerprint)
    (new_ciphertext : string) : option (list KpEncryptedShare * KpEncryptedShare) :=
  match shares with
  | [] => None
  | share :: shares =>
      if String.eqb (recipient_fingerprint share) current then
        let changed := mkKpEncryptedShare (ks_id share) new_fingerprint new_ciphertext in
        Some (changed :: shares, changed)
      else
        '(rest, changed) ← replace_first shares current new_fingerprint new_ciphertext;
        Some (share :: rest, changed)
  end.

Definition replace_recipient (self : KpEncryptedShareRoster)
    (current_fingerprint new_fingerprint : KPFingerprint) (new_ciphertext : string)
    : kp_result (KpEncryptedShareRoster * KpEncryptedShare) :=
  _ ← guard (negb (String.eqb new_fingerprint current_fingerprint)) (ReplacementNotNew new_fingerprint);
  _ ← guard (match find_by_fingerprint self new_fingerprint with Some _ => false | None => true end)
        (ReplacementPresent new_fingerprint);
  match replace_first self current_fingerprint new_fingerprint new_ciphertext with
  | None => Err (NotInRoster current_fingerprint)
  | Some r => Ok r
  end.

(** ** Dealing *)

(** [random] are the coefficients of the split. *)
Definition split_and_encrypt_for_kps (sk : Scalar) (kp_certs_roster : KpCertRoster)
    (params : SecretSharingParams) (random : list Scalar)
    : kp_result (KpEncryptedShareRoster * gmap ShareID DigestBytes) :=
  _ ← assert (Z.of_nat (length kp_certs_roster) =? p_num_shares params);
  let shares := split_secret sk params random in
  let dealt := zip shares kp_certs_roster in
  let encrypted_shares :=
    (fun e => mkKpEncryptedShare (sh_id e.1) (cert_fingerprint e.2)
                (encrypt_share_for_provisioner (sh_value e.1) e.2)) <$> dealt in
  let commitments := (fun e => commit_share e.1) <$> dealt in
  match share_roster_new encrypted_shares, commitments_new commitments with
  | Ok encrypted_shares, Ok commitments => Ok (encrypted_shares, commitments)
  | _, _ => Panic
  end.

(** ** Submitted shares *)

Record GuardianEncryptedShare := mkGuardianEncryptedShare { ge_id : ShareID; ge_ciphertext : Ciphertext }.

Definition decrypt_share (encrypted_share : GuardianEncryptedShare) (sk : EncSecKey) : kp_result Share :=
  match hpke_decrypt (ge_ciphertext encrypted_share) sk with
  | None => Err DecryptionFailed
  | Some serialized_share =>
      match scalar_from_slice serialized_share with
      | None => Err ShareNotAScalar
      | Some value => Ok (mkShare (ge_id encrypted_share) value)
      end
  end.

(** The loop: [shares] are those accepted so far. *)
Fixpoint decrypt_each (encrypted : list GuardianEncryptedShare) (sk : EncSecKey)
    (instance : SecretSharingInstance) (shares : list Share) : kp_result (list Share) :=
  match encrypted with
  | [] => Ok shares
  | enc :: encrypted =>
      share ← decrypt_share enc sk;
      _ ← lift_sharing (verify_share (commitments instance) share);
      _ ← guard (negb (existsb (fun s => sh_id s =? sh_id share) shares)) DuplicateSubmission;
      decrypt_each encrypted sk instance (shares ++ [share])
  end.

Definition decrypt_verify_shares (encrypted : list GuardianEncryptedShare) (sk : EncSecKey)
    (instance : SecretSharingInstance) : kp_result (list Share) :=
  let share_count := Z.of_nat (length encrypted) in
  _ ← guard (negb (share_count <? threshold instance))
        (TooFewSubmissions (threshold instance) (length encrypted));
  _ ← guard (negb (num_shares instance <? share_count))
        (TooManySubmissions (num_shares instance) (length encrypted));
  decrypt_each encrypted sk instance [].

(** ** KP-signed requests *)

(** [trait KpSigningIntent: Serialize + SessionBoundRequest] *)
Class KpSigningIntent (T : Type) := {
  KP_INTENT : Z;
  kp_to_bcs : T -> list Z;
  expected_session : T -> SessionID;
}.

Record KpSigned {T : Type} := mkKpSigned {
  kp_data : T;
  signer_cert : AttestedKpCert;
  kp_signature : string;
}.
#[global] Arguments KpSigned : clear implicits.

Definition signed_bytes {T} `{KpSigningIntent T} (data : T) : list Z := KP_INTENT (T:=T) :: kp_to_bcs data.

Definition signer_fingerprint {T} (self : KpSigned T) : KPFingerprint :=
  cert_fingerprint (signer_cert self).

Definition kp_verify_signature {T} `{KpSigningIntent T} (self : KpSigned T) : kp_result T :=
  _ ← guard (verify_detached_signature (signed_bytes (kp_data self)) (kp_signature self)
               (signer_cert self)) BadKpSignature;
  Ok (kp_data self).

Definition validate_session {T} `{KpSigningIntent T} (self : T) (live_session : SessionID) : kp_result unit :=
  guard (String.eqb (expected_session self) live_session)
    (WrongSession (expected_session self) live_session).
End kp.

(** * Shares of the key provisioners: theorems

    Rosters are well formed however they come about; dealing gives every key provisioner one
    share and commits to the split of the key; the shares a batch of submissions passes are
    shares of that split, so a batch that passes reconstructs the key. *)

(** ** The order of fingerprints *)

Lemma ascii_compare_trans a b c o :
  Ascii.compare a b = o -> Ascii.compare b c = o -> Ascii.compare a c = o.
Proof.
  unfold Ascii.compare. destruct o.
  - intros ->%N.compare_eq ->%N.compare_eq. apply N.compare_refl.
  - rewrite !N.compare_lt_iff. lia.
  - rewrite !N.compare_gt_iff. lia.
Qed.

Lemma ascii_compare_eq a b : Ascii.compare a b = Eq -> a = b.
Proof.
  unfold Ascii.compare. intros H%N.compare_eq.
  rewrite <- (ascii_N_embedding a), <- (ascii_N_embedding b). by rewrite H.
Qed.

Lemma string_leb_trans : forall a b c,
  String.leb a b = true -> String.leb b c = true -> String.leb a c = true.
Proof.
  unfold String.leb. induction a as [|x a IH]; intros [|y b] [|z c] Hab Hbc; try done.
  cbn in *. specialize (IH b c).
  destruct (Ascii.compare x y) eqn:Exy, (Ascii.compare y z) eqn:Eyz; try done.
  - by rewrite (ascii_compare_trans _ _ _ _ Exy Eyz), IH.
  - apply ascii_compare_eq in Exy as ->. by rewrite Eyz.
  - apply ascii_compare_eq in Eyz as <-. by rewrite Exy.
  - by rewrite (ascii_compare_trans _ _ _ _ Exy Eyz).
Qed.

(** Sorting a list that is sorted. *)
Lemma sort_by_id {A} (leb : A -> A -> bool) l :
  StronglySorted (le_of leb) l -> sort_by leb l = l.
Proof.
  induction 1 as [|x l Hl IH Hx]; [done|]. cbn. fold (sort_by leb l). rewrite IH.
  destruct Hx as [|y l Hxy _]; [done|]. cbn. by rewrite Hxy.
Qed.

Lemma sorted_of_keys {A B} (key : A -> B) (leb : B -> B -> bool) l :
  StronglySorted (le_of leb) (key <$> l) ->
  StronglySorted (le_of (fun a b => leb (key a) (key b))) l.
Proof.
  induction l as [|x l IH]; [constructor|]. rewrite fmap_cons. intros [Hs Hx]%StronglySorted_inv.
  constructor; [by apply IH|]. by rewrite Forall_fmap in Hx.
Qed.

Section rosters.
Context `{SF : ScalarField} {KC : KpCrypto}.

(** ** Rosters *)

Definition cert_roster_wf (r : KpCertRoster) : Prop := NoDup (cert_fingerprint <$> r).

(** Every share id from 1 to [n] has one holder, and every key provisioner one share. *)
Record share_roster_wf (r : KpEncryptedShareRoster) : Prop := {
  sr_ids : ks_id <$> r = seqZ 1 (Z.of_nat (length r));
  sr_recipients : NoDup (recipient_fingerprint <$> r);
  sr_short : Z.of_nat (length r) <= MAX_NUM_SHARES;
}.

Lemma adjacent_distinct_NoDup certs :
  StronglySorted (le_of (fun a b => String.leb (cert_fingerprint a) (cert_fingerprint b))) certs ->
  adjacent_distinct certs = Ok tt -> cert_roster_wf certs.
Proof.
  unfold cert_roster_wf. induction 1 as [|a certs Hs IH Ha]; [by constructor|]. intros H.
  destruct certs as [|b certs]; [apply NoDup_singleton|].
  cbn [adjacent_distinct] in H. inv_ok. rewrite fmap_cons. constructor; [|by apply IH].
  apply negb_true_iff, String.eqb_neq in E.
  intros (c & Hc & Hin)%list_elem_of_fmap. apply E. apply String.leb_antisym.
  - by inversion Ha.
  - rewrite Hc. apply elem_of_cons in Hin as [->|Hin].
    + by destruct (String.leb_total (cert_fingerprint b) (cert_fingerprint b)).
    + inversion Hs as [|? ? _ Hall]; subst. eapply Forall_forall in Hall; [exact Hall|done].
Qed.

Lemma cert_roster_new_wf certs r : cert_roster_new certs = Ok r -> cert_roster_wf r /\ r ≡ₚ certs.
Proof.
  unfold cert_roster_new. intros H. inv_ok. subst r. destruct v. split; [|apply sort_by_perm].
  apply adjacent_distinct_NoDup; [|done].
  apply sort_by_sorted; [intros; apply String.leb_total|eauto using string_leb_trans].
Qed.

Lemma check_recipients_spec shares : forall seen,
  check_recipients seen shares = Ok tt <->
  NoDup (recipient_fingerprint <$> shares)
  /\ forall s, s ∈ shares -> recipient_fingerprint s ∉ seen.
Proof.
  induction shares as [|s shares IH]; intros seen; cbn [check_recipients].
  { split; [|done]. intros _. split; [constructor|by intros s ?%elem_of_nil]. }
  rewrite fmap_cons, NoDup_cons. destruct (decide (recipient_fingerprint s ∈ seen)) as [Hs|Hs].
  - rewrite bool_decide_true by done. cbn. split; [done|]. intros [_ H]. by destruct (H s (list_elem_of_here _ _)).
  - rewrite bool_decide_false by done. cbn. rewrite IH. split.
    + intros [Hnd Hall]. split_and!; [|done|].
      * intros (x & Hx & Hin)%list_elem_of_fmap. apply (Hall x Hin). set_solver.
      * intros x [->|Hx]%elem_of_cons; [done|]. specialize (Hall x Hx). set_solver.
    + intros [[Hn Hnd] Hall]. split; [done|]. intros x Hx.
      assert (recipient_fingerprint x ∉ seen) by (apply Hall; by right).
      assert (recipient_fingerprint x <> recipient_fingerprint s).
      { intros Heq. apply Hn. rewrite <- Heq. by apply list_elem_of_fmap_2. }
      set_solver.
Qed.

Lemma share_roster_new_spec shares r :
  share_roster_new shares = Ok r <->
  share_roster_wf r /\ r = sort_by (fun a b => ks_id a <=? ks_id b) shares.
Proof.
  unfold share_roster_new. split.
  - intros H. inv_ok. subst r. destruct v1. apply check_recipients_spec in E1 as [? _].
    apply negb_true_iff, Z.ltb_ge in E. apply bool_decide_eq_true in E0. by split.
  - intros [[Hid Hnd Hle] ->]. set (l := sort_by _ shares) in *.
    assert ((MAX_NUM_SHARES <? Z.of_nat (length l)) = false) as -> by (apply Z.ltb_ge; lia).
    cbn [negb guard mbind outcome_bind]. rewrite bool_decide_true by done. cbn [guard mbind outcome_bind].
    destruct (check_recipients ∅ l) as [[]| |] eqn:E; [done|exfalso..].
    all: assert (check_recipients ∅ l = Ok tt) as Hok by (apply check_recipients_spec; set_solver); congruence.
Qed.

Lemma find_by_fingerprint_spec r f s :
  share_roster_wf r ->
  (find_by_fingerprint r f = Some s <-> s ∈ r /\ recipient_fingerprint s = f).
Proof.
  intros [_ Hnd _]. unfold find_by_fingerprint. split.
  - intros [Hin Heq]%find_some. apply list_elem_of_In in Hin. by apply String.eqb_eq in Heq.
  - intros [Hin <-]. destruct (List.find _ r) as [s'|] eqn:E.
    + apply find_some in E as [Hin' Heq%String.eqb_eq]. apply list_elem_of_In in Hin'.
      by rewrite (NoDup_fmap_inj_on recipient_fingerprint r s' s).
    + apply list_elem_of_In in Hin. eapply find_none in E; [|exact Hin]. cbn in E.
      by rewrite String.eqb_refl in E.
Qed.

Lemma replace_first_spec shares cur new ct r s :
  replace_first shares cur new ct = Some (r, s) ->
  exists pre old post, shares = pre ++ old :: post /\ recipient_fingerprint old = cur
    /\ s = mkKpEncryptedShare (ks_id old) new ct /\ r = pre ++ s :: post.
Proof.
  revert r. induction shares as [|x shares IH]; intros r H; [done|]. cbn in H.
  destruct (String.eqb (recipient_fingerprint x) cur) eqn:E.
  - injection H as <- <-. apply String.eqb_eq in E. by exists [], x, shares.
  - destruct (replace_first shares cur new ct) as [[rest s']|]; [|done]. cbn in H. injection H as <- <-.
    destruct (IH rest eq_refl) as (pre & old & post & -> & ? & ? & ->). by exists (x :: pre), old, post.
Qed.

(** Replacing a recipient changes one entry, and its holder. *)
Lemma replace_recipient_wf self cur new ct r s :
  share_roster_wf self -> replace_recipient self cur new ct = Ok (r, s) ->
  share_roster_wf r /\ length r = length self
  /\ exists pre old post, self = pre ++ old :: post /\ recipient_fingerprint old = cur
       /\ s = mkKpEncryptedShare (ks_id old) new ct /\ r = pre ++ s :: post.
Proof.
  intros Hwf H. unfold replace_recipient in H. inv_ok.
  destruct (find_by_fingerprint self new) as [|] eqn:Hf; [done|].
  destruct (replace_first self cur new ct) as [[r' s']|] eqn:Hr; [|done]. injection H as -> ->.
  destruct (replace_first_spec _ _ _ _ _ _ Hr) as (pre & old & post & -> & Hold & -> & ->).
  destruct (Hwf) as [Hid Hnd Hle].
  split_and!; [|by rewrite !length_app|by exists pre, old, post]. constructor.
  - rewrite fmap_app, fmap_cons in *. rewrite !length_app in *. exact Hid.
  - assert (forall x, x ∈ pre ++ old :: post -> recipient_fingerprint x <> new) as Hnew.
    { intros x Hx Heq. pose proof (proj2 (find_by_fingerprint_spec _ new x Hwf) (conj Hx Heq)).
      congruence. }
    rewrite fmap_app, fmap_cons in *. rewrite NoDup_app, NoDup_cons in *.
    destruct Hnd as (Hpre & Hdis & Hn & Hpost). split_and!; [done| | |done].
    + intros x Hx [->|Hx']%elem_of_cons.
      * apply list_elem_of_fmap in Hx as (y & Hy & Hin). eapply Hnew; [|by rewrite <- Hy].
        apply elem_of_app. by left.
      * apply (Hdis x Hx). by right.
    + intros (y & Hy & Hin)%list_elem_of_fmap. eapply (Hnew y); [|done].
      apply elem_of_app. right. by right.
  - by rewrite !length_app in *.
Qed.
End rosters.

Section shares.
Context `{SF : ScalarField} {KC : KpCrypto} {SL : ScalarFieldLaws}.

(** ** Dealing *)

(** The instance commits to a split of [sk] with its own parameters. *)
Definition sharing_of (sk : Scalar) (instance : SecretSharingInstance) : Prop :=
  exists n t random,
    sharing_params_new n t = Ok (params instance) /\ Z.of_nat (length random) = t - 1
    /\ commitments instance = split_commitments sk (params instance) random.

Lemma num_shares_new n t p : sharing_params_new n t = Ok p -> 2 <= t <= n /\ n <= 65535 /\ p = mkSecretSharingParams n t.
Proof. intros [-> Hb]%params_new_Ok. split_and!; try done; lia. Qed.

Lemma split_and_encrypt_spec sk roster n t p random :
  sharing_params_new n t = Ok p -> cert_roster_wf roster -> Z.of_nat (length roster) = n ->
  exists shares,
    split_and_encrypt_for_kps sk roster p random = Ok (shares, split_commitments sk p random)
    /\ share_roster_wf shares /\ Z.of_nat (length shares) = n
    /\ recipient_fingerprint <$> shares = cert_fingerprint <$> roster.
Proof.
  intros Hp Hr Hlen. destruct (num_shares_new _ _ _ Hp) as (Ht & Hn & ->). unfold split_and_encrypt_for_kps.
  cbn [p_num_shares]. rewrite Hlen, Z.eqb_refl. cbn [assert mbind outcome_bind].
  set (shares := split_secret sk _ random). set (dealt := zip shares roster).
  assert (length shares = length roster) as Hl.
  { unfold shares, split_secret. rewrite length_fmap, length_seqZ. cbn. lia. }
  assert (dealt.*1 = shares) as H1 by (apply fst_zip; lia).
  assert (dealt.*2 = roster) as H2 by (apply snd_zip; lia).
  set (enc := (fun e => mkKpEncryptedShare _ _ _) <$> dealt).
  assert (ks_id <$> enc = seqZ 1 n) as Hids.
  { unfold enc. rewrite <- list_fmap_compose. change (ks_id ∘ _) with (sh_id ∘ (fst (A:=Share) (B:=AttestedKpCert))).
    rewrite list_fmap_compose, H1. apply split_ids. }
  assert (length enc = length roster) as Henc by (unfold enc; rewrite length_fmap, <- H2, length_fmap; done).
  assert (recipient_fingerprint <$> enc = cert_fingerprint <$> roster) as Hrec.
  { unfold enc. transitivity (cert_fingerprint <$> dealt.*2); [|by rewrite H2].
    by rewrite <- !list_fmap_compose. }
  exists enc.
  assert (share_roster_wf enc) as Hwf.
  { constructor; [by rewrite Henc, Hlen|by rewrite Hrec|rewrite Henc, Hlen; unfold MAX_NUM_SHARES; lia]. }
  assert (share_roster_new enc = Ok enc) as ->.
  { apply share_roster_new_spec. split; [done|]. symmetry. apply sort_by_id.
    apply (sorted_of_keys ks_id Z.leb). rewrite Hids. apply seqZ_sorted. }
  assert (commitments_new ((fun e => commit_share e.1) <$> dealt)
          = Ok (split_commitments sk (mkSecretSharingParams n t) random)) as ->.
  { change ((fun e => commit_share e.1) <$> dealt) with (commit_share ∘ fst <$> dealt).
    rewrite list_fmap_compose, H1. apply from_shares_split. }
  split_and!; try done. lia.
Qed.

Lemma instance_of_split sk n t p random seq :
  sharing_params_new n t = Ok p -> Z.of_nat (length random) = t - 1 ->
  exists instance, instance_new (split_commitments sk p random) (p_num_shares p) (p_threshold p) seq
                   = Ok instance
    /\ sharing_of sk instance /\ sharing_seq instance = seq /\ params instance = p.
Proof.
  intros Hp Hlen. destruct (num_shares_new _ _ _ Hp) as (_ & _ & ->). cbn [p_num_shares p_threshold].
  eexists. split; [by apply instance_new_split|]. split; [|done]. by exists n, t, random.
Qed.

(** ** Taking shares back *)

Lemma decrypt_share_id enc key s : decrypt_share enc key = Ok s -> sh_id s = ge_id enc.
Proof.
  unfold decrypt_share. destruct (hpke_decrypt _ _) as [b|]; [|done].
  destruct (scalar_from_slice b); [|done]. by intros [= <-].
Qed.

Lemma decrypt_each_spec enc key instance : forall acc shares,
  NoDup (sh_id <$> acc) -> decrypt_each enc key instance acc = Ok shares ->
  exists new, shares = acc ++ new /\ sh_id <$> new = ge_id <$> enc /\ NoDup (sh_id <$> shares)
    /\ Forall (fun s => verify_share (commitments instance) s = Ok tt) new.
Proof.
  induction enc as [|e enc IH]; intros acc shares Hnd H; cbn [decrypt_each] in H.
  { injection H as <-. exists []. by rewrite app_nil_r. }
  inv_ok. destruct v0. destruct (verify_share _ v) as [[]| |] eqn:Hv; try done.
  apply negb_true_iff in E1. assert (sh_id v ∉ sh_id <$> acc) as Hni.
  { intros (s & Hs & Hin)%list_elem_of_fmap. apply list_elem_of_In in Hin.
    assert (existsb (fun s => sh_id s =? sh_id v) acc = true); [|congruence].
    apply existsb_exists. exists s. split; [done|]. rewrite Hs. apply Z.eqb_refl. }
  destruct (IH (acc ++ [v]) shares) as (new & -> & Hids & Hnd' & Hall); [|done|].
  { rewrite fmap_app. apply NoDup_app. split_and!; [done| |apply NoDup_singleton].
    intros x Hx ->%list_elem_of_singleton. done. }
  exists (v :: new). rewrite <- app_assoc in *. split_and!; [done| |done|by constructor].
  cbn. by rewrite Hids, (decrypt_share_id _ _ _ E).
Qed.

Lemma decrypt_verify_spec enc key instance shares :
  decrypt_verify_shares enc key instance = Ok shares ->
  sh_id <$> shares = ge_id <$> enc /\ NoDup (sh_id <$> shares)
  /\ Forall (fun s => verify_share (commitments instance) s = Ok tt) shares
  /\ threshold instance <= Z.of_nat (length shares) <= num_shares instance.
Proof.
  unfold decrypt_verify_shares. intros H. inv_ok.
  apply decrypt_each_spec in H as (new & -> & Hids & Hnd & Hall); [|constructor].
  rewrite negb_true_iff, Z.ltb_ge in *. cbn in *. split_and!; try done.
  all: apply (f_equal length) in Hids; rewrite !length_fmap in Hids; lia.
Qed.

Lemma decrypt_each_safe enc key instance : forall acc, decrypt_each enc key instance acc <> Panic.
Proof.
  induction enc as [|e enc IH]; intros acc; cbn [decrypt_each]; [done|].
  apply bind_safe.
  { unfold decrypt_share. destruct (hpke_decrypt _ _); [|done]. by destruct (scalar_from_slice _). }
  intros s _. apply bind_safe; [by unfold lift_sharing, verify_share, guard; destruct (commitments_contains _ _)|].
  intros _ _. apply bind_safe; [auto with hashi|]. intros _ _. apply IH.
Qed.

Lemma decrypt_verify_safe enc key instance : decrypt_verify_shares enc key instance <> Panic.
Proof.
  unfold decrypt_verify_shares. apply bind_safe; [auto with hashi|]. intros _ _.
  apply bind_safe; [auto with hashi|]. intros _ _. apply decrypt_each_safe.
Qed.

(** A batch that passes reconstructs the key that was split. *)
Lemma combine_verified sk instance enc key shares :
  sk <> s_zero -> sharing_of sk instance -> decrypt_verify_shares enc key instance = Ok shares ->
  combine_shares shares (threshold instance) = Ok sk.
Proof.
  intros Hsk (n & t & random & Hp & Hlen & Hc) (_ & Hnd & Hall & Ht)%decrypt_verify_spec.
  destruct (num_shares_new _ _ _ Hp) as (_ & _ & Hpe).
  assert (threshold instance = t) as Heq by (unfold threshold; by rewrite Hpe).
  rewrite Heq in *. rewrite (SecretSharingProofs.combine_split sk n t (params instance) random) by
    (try done; rewrite Hc in Hall; intros s Hs; apply verify_share_split; by eapply Forall_forall in Hall).
  rewrite bool_decide_true by done. by rewrite (proj2 (Z.leb_le t _)) by lia.
Qed.

(** A share that the instance accepts is one of the split. *)
Lemma validate_assignment_spec r f id :
  share_roster_wf r ->
  (validate_share_assignment r f id = Ok tt <->
   exists s, s ∈ r /\ recipient_fingerprint s = f /\ ks_id s = id).
Proof.
  intros Hwf. unfold validate_share_assignment. destruct (find_by_fingerprint r f) as [s|] eqn:E.
  - apply (find_by_fingerprint_spec _ _ _ Hwf) in E as [Hin Hf]. rewrite guard_Ok, Z.eqb_eq. split.
    + intros <-. by exists s.
    + intros (s' & Hin' & Hf' & <-). f_equal.
      eapply (NoDup_fmap_inj_on recipient_fingerprint r); [apply Hwf|done..|congruence].
  - split; [done|]. intros (s & Hin & Hf & _).
    by rewrite (proj2 (find_by_fingerprint_spec _ _ s Hwf)) in E.
Qed.
End shares.
