(* ===== verification/Guardian.v ===== *)
(** * The guardian enclave

    The serving part of [crates/hashi-guardian]: the state of the enclave ([enclave.rs],
    [init_once.rs]) with the lifecycle of [hashi-types/src/guardian/lifecycle.rs], the
    co-signing of a withdrawal, the handover between committees and the activation from
    the log ([withdraw_mode]), and the recovery of the limiter and of the committee from the
    log ([s3_reader]).

    The control lock of the service makes a handler one step on the enclave and the S3 log.
    A write to S3 either succeeds or aborts the process, in which case the record may or
    may not be stored; which of these happens, and the hour the record is filed under, is
    the argument [Write] of the handler.  A record in the log is one that a reader
    verifies.  An hourly directory is the number of its hour since the epoch.

    The types and functions of other crates are the classes [GuardianTypes] and
    [GuardianCrypto].  Initialization and ceremonies are in [GuardianInit] and
    [GuardianCeremony].  The response's session signature is not modelled. *)

From S2P Require Import MonitorDomain TxUtxos Limiter Bitmap Committee SecretSharing KpShares Prelude.

Abbreviation HourDir := Z.

(** ** Lifecycle (lifecycle.rs) *)

Inductive EnclaveMode := CeremonyMode | WithdrawMode.

Inductive CeremonyStage := CeremonyInitialized | AwaitingKeyProvisionerConfirmations | Completed.
Inductive WithdrawStage := OperatorInitialized | ProvisionerInitialized | Activated.

Inductive EnclaveLifecycle :=
| Ceremony (stage : CeremonyStage)
| Withdraw (stage : WithdrawStage).

#[export] Instance EnclaveMode_eq_dec : EqDecision EnclaveMode.
Proof. solve_decision. Defined.
#[export] Instance CeremonyStage_eq_dec : EqDecision CeremonyStage.
Proof. solve_decision. Defined.
#[export] Instance WithdrawStage_eq_dec : EqDecision WithdrawStage.
Proof. solve_decision. Defined.
#[export] Instance EnclaveLifecycle_eq_dec : EqDecision EnclaveLifecycle.
Proof. solve_decision. Defined.

Definition lifecycle_mode (self : EnclaveLifecycle) : EnclaveMode :=
  match self with Ceremony _ => CeremonyMode | Withdraw _ => WithdrawMode end.

Definition ceremony_predecessor (self : CeremonyStage) : option CeremonyStage :=
  match self with
  | CeremonyInitialized => None
  | AwaitingKeyProvisionerConfirmations => Some CeremonyInitialized
  | Completed => Some AwaitingKeyProvisionerConfirmations
  end.

Definition withdraw_predecessor (self : WithdrawStage) : option WithdrawStage :=
  match self with
  | OperatorInitialized => None
  | ProvisionerInitialized => Some OperatorInitialized
  | Activated => Some ProvisionerInitialized
  end.

Definition lifecycle_predecessor (self : EnclaveLifecycle) : option EnclaveLifecycle :=
  match self with
  | Ceremony stage => Ceremony <$> ceremony_predecessor stage
  | Withdraw stage => Withdraw <$> withdraw_predecessor stage
  end.

(** ** Committees as Move stores them (move_types/mod.rs) *)

Record MoveCommitteeMember := mkMoveCommitteeMember {
  validator_address : Address;
  mv_public_key : list Z;
  mv_encryption_public_key : list Z;
  mv_weight : Z;
  extra_fields : Config;
}.

Record MoveCommittee := mkMoveCommittee {
  mc_epoch : Z;
  mc_members : list MoveCommitteeMember;
  mc_total_weight : Z;
  mc_config : Config;
}.

Record CommitteeTransitionRequest := mkCommitteeTransitionRequest {
  new_committee : MoveCommittee;
}.

(** ** What the enclave takes from other crates *)

(** The types of other crates; a [DeploymentPolicy] is the bucket, the retention environment
    and the PCR allowlist of a deployment. *)
Class GuardianTypes := {
  gt_bls :: Bls;
  gt_addresses :: BtcAddresses;
  gt_scalars :: ScalarField;
  gt_kp :: KpCrypto;
  BtcKeypair : Type;
  BtcPubkey : Type;
  BtcPubkey_eq :: EqDecision BtcPubkey;
  HashiMasterG : Type;
  SighashMessage : Type;
  BitcoinSignature : Type;
  Hash : Type;
  Hash_eq :: EqDecision Hash;
  NitroAttestation : Type;
  DeploymentPolicy : Type;
}.

Section types.
Context `{GT : GuardianTypes}.

(** [deployment.rs] *)
Record DeploymentConfig := mkDeploymentConfig {
  bitcoin_network_of : Network;
  deployment_policy : DeploymentPolicy;
}.

Record InitConfig := mkInitConfig {
  ic_limiter_config : LimiterConfig;
  ic_deployment : DeploymentConfig;
}.

Record GenesisState := mkGenesisState {
  gs_committee : MoveCommittee;
  gs_hashi_object_id : Address;
  gs_mpc_master_g : HashiMasterG;
}.

(** [ceremony_state.rs] *)
Record CeremonyState := mkCeremonyState {
  cs_instance : SecretSharingInstance;
  cs_btc_master_pubkey : BtcPubkey;
  cs_cert_seq : Z;
  cs_encrypted_shares : KpEncryptedShareRoster;
}.

(** The requests key provisioners sign. *)
Record ProvisionerInitRequest := mkProvisionerInitRequest {
  pi_expected_session_id : SessionID;
  expected_config_hash : Hash;
  expected_genesis_state_hash : option Hash;
  pi_encrypted_share : GuardianEncryptedShare;
}.

Record ProvisionerRotateCertRequest := mkProvisionerRotateCertRequest {
  rc_expected_session_id : SessionID;
  expected_cert_seq : Z;
  new_kp_pgp_cert : AttestedKpCert;
  rc_encrypted_share : GuardianEncryptedShare;
}.

Record CeremonyConfirmationRequest := mkCeremonyConfirmationRequest {
  cc_expected_session_id : SessionID;
  cc_ceremony_artifacts_digest : Hash;
}.

Record ProvisionerRotateKpSetRequest := mkProvisionerRotateKpSetRequest {
  rk_expected_session_id : SessionID;
  expected_deployment_config_hash : Hash;
  encrypted_old_share : GuardianEncryptedShare;
  new_kp_certs_roster : KpCertRoster;
  new_params : SecretSharingParams;
}.
End types.

Class GuardianCrypto `{GT : GuardianTypes} := {
  (** Bitcoin keys and signing; [k256_sk_to_btc_keypair] *)
  btc_keypair_of : Scalar -> BtcKeypair;
  x_only_public_key : BtcKeypair -> BtcPubkey;
  signing_messages_and_txid : TxUTXOs -> BtcPubkey -> HashiMasterG -> list SighashMessage * Txid;
  sign_btc_tx : list SighashMessage -> BtcKeypair -> list BitcoinSignature;
  (** The session's keys *)
  encryption_public_key_bytes : EncSecKey -> list Z;
  (** Keys in a Move committee *)
  bls_public_key_from_bytes : list Z -> option BlsPublicKey;
  encryption_key_from_bcs : list Z -> option EncryptionPublicKey;
  encryption_key_to_bcs : EncryptionPublicKey -> list Z;
  fallback_encryption_public_key : EncryptionPublicKey;
  (** BCS *)
  withdrawal_request_bcs : WithdrawalID -> TxUTXOs -> Z -> Z -> list Z;
  transition_request_bcs : CommitteeTransitionRequest -> list Z;
  provisioner_init_bcs : ProvisionerInitRequest -> list Z;
  rotate_cert_bcs : ProvisionerRotateCertRequest -> list Z;
  confirmation_bcs : CeremonyConfirmationRequest -> list Z;
  rotate_kp_set_bcs : ProvisionerRotateKpSetRequest -> list Z;
  (** Blake2b digests of a BCS encoding *)
  deployment_digest : DeploymentConfig -> Hash;
  init_config_digest : InitConfig -> Hash;
  genesis_digest : GenesisState -> Hash;
  artifacts_digest : DeploymentConfig -> CeremonyState -> Hash;
  activation_digest : Hash -> SecretSharingInstance -> Committee -> LimiterState -> Hash;
}.

Section guardian.
Context `{GC : GuardianCrypto}.

(** ** Requests *)

Record StandardWithdrawalRequest := mkStandardWithdrawalRequest {
  wr_wid : WithdrawalID;
  wr_utxos : TxUTXOs;
  wr_timestamp_secs : UnixSeconds;
  wr_seq : Z;
}.

#[export] Instance withdrawal_request_intent : IntentMessage StandardWithdrawalRequest := {|
  INTENT := GuardianWithdrawalRequest;
  to_bcs r := withdrawal_request_bcs (wr_wid r) (wr_utxos r) (wr_timestamp_secs r) (wr_seq r);
|}.

#[export] Instance transition_request_intent : IntentMessage CommitteeTransitionRequest := {|
  INTENT := CommitteeTransition;
  to_bcs := transition_request_bcs;
|}.

Record StandardWithdrawalRequestWire := mkStandardWithdrawalRequestWire {
  rw_wid : WithdrawalID;
  rw_utxos : UncheckedUTXOs;
  rw_timestamp_secs : UnixSeconds;
  rw_seq : Z;
}.

(** The request with the certificate as Move encodes it. *)
Record SignedStandardWithdrawalRequestWire := mkSignedStandardWithdrawalRequestWire {
  sw_data : StandardWithdrawalRequestWire;
  sw_epoch : Z;
  sw_signature : list Z;
  sw_signers_bitmap : list Z;
}.

Record StandardWithdrawalResponse := mkStandardWithdrawalResponse {
  enclave_signatures : list BitcoinSignature;
}.

Definition request_into_wire (m : StandardWithdrawalRequest) : StandardWithdrawalRequestWire :=
  mkStandardWithdrawalRequestWire (wr_wid m) (into_wire (wr_utxos m)) (wr_timestamp_secs m) (wr_seq m).

(** ** The log *)

Record GuardianWithdrawalLog := mkGuardianWithdrawalLog {
  gl_txid : Txid;
  gl_request_data : StandardWithdrawalRequestWire;
  gl_request_sign : CommitteeSignature;
  gl_response : StandardWithdrawalResponse;
  gl_post_state : LimiterState;
}.

Record CommitteeUpdateLogMessage := mkCommitteeUpdateLogMessage {
  from_epoch : Z;
  cu_new_committee : MoveCommittee;
  cu_request_sign : CommitteeSignature;
}.

Record GenesisLogMessage := mkGenesisLogMessage {
  gn_committee : MoveCommittee;
  gn_hashi_object_id : Address;
  gn_mpc_master_g : HashiMasterG;
}.

Record WithdrawOperatorInitInfo := mkWithdrawOperatorInitInfo {
  oi_instance : SecretSharingInstance;
  oi_config_hash : Hash;
  oi_limiter_config : LimiterConfig;
  oi_hashi_object_id : Address;
  oi_mpc_master_g : HashiMasterG;
  oi_genesis_state_hash : option Hash;
}.

(** [OperatorInitMode]: no withdraw information in ceremony mode. *)
Record OperatorInitInfo := mkOperatorInitInfo {
  oi_deployment : DeploymentConfig;
  oi_encryption_pubkey : list Z;
  oi_mode : option WithdrawOperatorInitInfo;
}.

(** The session of a record stands for its signing key. *)
Inductive InitLogMessage :=
| OIAttestation (attestation : NitroAttestation)
| OIGuardianInfo (info : OperatorInitInfo)
| PIEnclaveFullyInitialized (sharing_seq : Z) (share_ids : list ShareID) (enclave_btc_pubkey : BtcPubkey)
| OAActivated (state_hash config_hash : Hash) (sharing_seq committee_epoch : Z)
    (limiter_state : LimiterState).

Inductive CeremonyLogMessage :=
| NewKey (instance : SecretSharingInstance) (btc_master_pubkey : BtcPubkey)
| Rotate (old_instance new_instance : SecretSharingInstance) (btc_master_pubkey : BtcPubkey).

Record CeremonyProposalLogMessage := mkCeremonyProposalLogMessage {
  cp_ceremony : CeremonyLogMessage;
  cp_encrypted_shares : KpEncryptedShareRoster;
}.

Record KpShareStateLogMessage := mkKpShareStateLogMessage {
  kss_sharing_seq : Z;
  kss_cert_seq : Z;
  kss_encrypted_shares : KpEncryptedShareRoster;
}.

Inductive LogMessage :=
| LInit (message : InitLogMessage)
| LWithdrawal (message : GuardianWithdrawalLog)
| LCommitteeUpdate (message : CommitteeUpdateLogMessage)
| LGenesis (message : GenesisLogMessage)
| LHeartbeat (seq : Z)
| LCeremonyProposal (message : CeremonyProposalLogMessage)
| LKpShareState (message : KpShareStateLogMessage)
| LCeremony (message : CeremonyLogMessage).

Record LogRecord := mkLogRecord { record_dir : HourDir; record_message : LogMessage }.

(** What becomes of a write and the hour its record is filed under. *)
Inductive WriteFate := Written | AbortedUnwritten | AbortedWritten.
Record Write := mkWrite { write_dir : HourDir; write_fate : WriteFate }.

(** ** Errors *)

Inductive InvalidRequest :=
| DeploymentUninitialized
| LimiterConfigUninitialized
| HashiObjectIdUninitialized
| BitcoinKeyUninitialized
| HashiKeyUnset
| S3LoggerUninitialized
| CommitteeUninitialized
| CommitteeAlreadySet
| RateLimiterAlreadySet
| CommitteeEpochMismatch (expected actual : Z)
| TemporaryStateMissing
| TemporaryStateAlreadySet
| InvalidUtxos (e : TxError)
| MalformedCertificate (e : SignatureError)
| TimestampInFuture (request now : UnixSeconds)
| TimestampTooOld (request now : UnixSeconds)
| InvalidNewCommittee
| NewEpochMismatch (actual proposed : Z)
| NoCommitteeRecord
| InvalidServingCommittee
| StateHashMismatch (expected actual : Hash)
| DeploymentAlreadySet
| HashiKeyAlreadySet
| LimiterConfigAlreadySet
| HashiObjectIdAlreadySet
| BitcoinKeyAlreadySet
| S3LoggerAlreadySet
| AttestationCheckFailed
| NoCeremonyRecord
| NoGenesisRecord
| GenesisAfterCommittee
| ConfigHashMismatch (expected live : Hash)
| GenesisHashMismatch (expected live : option Hash)
| BtcPubkeyMismatch (reconstructed ceremony : BtcPubkey)
| CeremonyExists
| PendingCeremonyAlreadySet
| PendingCeremonyNotSet
| ConfirmationDigestMismatch
| ConfirmationCountTooLarge
| RosterSizeMismatch (expected actual : Z)
| EmptyRotation
| DeploymentHashMismatch
| SubmissionsDisagree
| CertSeqMismatch (expected latest : Z)
| CertSeqOverflow.

(** The [GuardianError] values the handlers return; those of the limiter are wrapped. *)
Inductive EnclaveError :=
| LimiterError (e : GuardianError)
| InvalidRequestError (e : InvalidRequest)
| InternalError
| Unauthenticated (e : SignatureError)
| LifecycleMismatch (expected actual : option EnclaveLifecycle)
| InvalidS3Log
| SessionsNotQuiet
| KpFailure (e : KpError)
| UnknownProvisioner (fingerprint : KPFingerprint)
| S3Unavailable.

Definition lift_kp {A} (o : kp_result A) : outcome EnclaveError A :=
  match o with Ok a => Ok a | Err e => Err (KpFailure e) | Panic => Panic end.

(** ** The enclave *)

(** The S3 client has no state of its own; the session id is that of the signing key. *)
Record EnclaveConfig := mkEnclaveConfig {
  s3_session_id : SessionID;
  encryption_secret_key : EncSecKey;
  s3_logger : option unit;
  enclave_btc_keypair : option BtcKeypair;
  deployment : option DeploymentConfig;
  hashi_btc_master_pubkey : option HashiMasterG;
  limiter_config : option LimiterConfig;
  hashi_object_id : option Address;
}.

Record TemporaryInitState := mkTemporaryInitState {
  ceremony_state : CeremonyState;
  genesis_state : option GenesisState;
  config_hash : Hash;
}.

Record PendingCeremony := mkPendingCeremony {
  proposal : CeremonyProposalLogMessage;
  ceremony_artifacts_digest : Hash;
  confirmed_share_ids : gset ShareID;
}.

Record EnclaveState := mkEnclaveState {
  next_heartbeat_seq : Z;
  lifecycle : option EnclaveLifecycle;
  committee : option Committee;
  rate_limiter : option RateLimiter;
  temporary_init_state : option TemporaryInitState;
  pending_ceremony : option PendingCeremony;
}.

Record Enclave := mkEnclave { e_config : EnclaveConfig; e_state : EnclaveState }.

(** The keys a process generates at boot. *)
Definition SessionKeys : Type := SessionID * EncSecKey.

Definition enclave_new (keys : SessionKeys) : Enclave :=
  mkEnclave (mkEnclaveConfig keys.1 keys.2 None None None None None None)
    (mkEnclaveState 0 None None None None None).

(** The enclave and the S3 log it writes to. *)
Record World := mkWorld { w_enclave : Enclave; w_s3 : list LogRecord }.

Abbreviation handler := (M World EnclaveError).

Definition get_or {A} (f : Enclave -> option A) (e : EnclaveError) : handler A := fun w =>
  (match f (w_enclave w) with Some a => Ok a | None => Err e end, w).

Definition set_state (f : EnclaveState -> EnclaveState) : handler unit :=
  modify (fun w => mkWorld (mkEnclave (e_config (w_enclave w)) (f (e_state (w_enclave w)))) (w_s3 w)).

(** [Result::expect] *)
Definition expect_ok {A} (m : handler A) : handler A := fun w =>
  match m w with (Err _, w) => (Panic, w) | r => r end.

Definition with_lifecycle (l : option EnclaveLifecycle) (s : EnclaveState) : EnclaveState :=
  mkEnclaveState (next_heartbeat_seq s) l (committee s) (rate_limiter s) (temporary_init_state s)
    (pending_ceremony s).
Definition with_committee (c : Committee) (s : EnclaveState) : EnclaveState :=
  mkEnclaveState (next_heartbeat_seq s) (lifecycle s) (Some c) (rate_limiter s)
    (temporary_init_state s) (pending_ceremony s).
Definition with_rate_limiter (l : RateLimiter) (s : EnclaveState) : EnclaveState :=
  mkEnclaveState (next_heartbeat_seq s) (lifecycle s) (committee s) (Some l)
    (temporary_init_state s) (pending_ceremony s).
Definition with_temporary_init_state (t : option TemporaryInitState) (s : EnclaveState)
    : EnclaveState :=
  mkEnclaveState (next_heartbeat_seq s) (lifecycle s) (committee s) (rate_limiter s) t
    (pending_ceremony s).
Definition with_heartbeat_seq (n : Z) (s : EnclaveState) : EnclaveState :=
  mkEnclaveState n (lifecycle s) (committee s) (rate_limiter s) (temporary_init_state s)
    (pending_ceremony s).

(** ** Configuration and lifecycle (enclave.rs) *)

Definition bitcoin_network : handler Network :=
  d ← get_or (fun e => deployment (e_config e)) (InvalidRequestError DeploymentUninitialized);
  mret (bitcoin_network_of d).

Definition get_limiter_config : handler LimiterConfig :=
  get_or (fun e => limiter_config (e_config e)) (InvalidRequestError LimiterConfigUninitialized).

Definition get_hashi_object_id : handler Address :=
  get_or (fun e => hashi_object_id (e_config e)) (InvalidRequestError HashiObjectIdUninitialized).

Definition btc_sign (tx_utxos : TxUTXOs) : handler (Txid * list BitcoinSignature) :=
  enclave_keypair ← get_or (fun e => enclave_btc_keypair (e_config e))
                      (InvalidRequestError BitcoinKeyUninitialized);
  hashi_btc_pk ← get_or (fun e => hashi_btc_master_pubkey (e_config e))
                   (InvalidRequestError HashiKeyUnset);
  let '(messages, txid) :=
    signing_messages_and_txid tx_utxos (x_only_public_key enclave_keypair) hashi_btc_pk in
  mret (txid, sign_btc_tx messages enclave_keypair).

Definition require_lifecycle (expected : option EnclaveLifecycle) : handler unit :=
  actual ← read (fun w => lifecycle (e_state (w_enclave w)));
  ensure (bool_decide (actual = expected)) (LifecycleMismatch expected actual).

Definition require_fully_initialized : handler unit := require_lifecycle (Some (Withdraw Activated)).

Definition operator_init_state_installed (self : Enclave) (mode : EnclaveMode) : bool :=
  if bool_decide (s3_logger (e_config self) = None)
     || negb (match deployment (e_config self) with Some _ => true | None => false end)
  then false
  else
    match mode with
    | CeremonyMode => true
    | WithdrawMode =>
        match limiter_config (e_config self), temporary_init_state (e_state self),
          hashi_btc_master_pubkey (e_config self), hashi_object_id (e_config self) with
        | Some _, Some _, Some _, Some _ => true
        | _, _, _, _ => false
        end
    end.

(** [CeremonyConfirmationResponse] counts in [u32]. *)
Definition confirmation_status (self : PendingCeremony) : option (Z * Z * bool) :=
  let have := Z.of_nat (base.size (confirmed_share_ids self)) in
  let need := Z.of_nat (length (cp_encrypted_shares (proposal self))) in
  if (have <? 2 ^ 32) && (need <? 2 ^ 32) then Some (have, need, have =? need) else None.

Definition ceremony_is_complete (self : PendingCeremony) : bool :=
  match confirmation_status self with Some (_, _, completed) => completed | None => false end.

Definition state_installed_for (self : Enclave) (next : EnclaveLifecycle) : bool :=
  match next with
  | Ceremony CeremonyInitialized => operator_init_state_installed self CeremonyMode
  | Ceremony AwaitingKeyProvisionerConfirmations =>
      match pending_ceremony (e_state self) with Some _ => true | None => false end
  | Ceremony Completed =>
      match pending_ceremony (e_state self) with
      | Some p => ceremony_is_complete p
      | None => false
      end
  | Withdraw OperatorInitialized => operator_init_state_installed self WithdrawMode
  | Withdraw ProvisionerInitialized =>
      match enclave_btc_keypair (e_config self), temporary_init_state (e_state self) with
      | Some _, Some _ => true
      | _, _ => false
      end
  | Withdraw Activated =>
      match committee (e_state self), rate_limiter (e_state self),
        temporary_init_state (e_state self) with
      | Some _, Some _, None => true
      | _, _, _ => false
      end
  end.

Definition advance_lifecycle_into (next : EnclaveLifecycle) : handler unit :=
  let expected := lifecycle_predecessor next in
  actual ← read (fun w => lifecycle (e_state (w_enclave w)));
  _ ← ensure (bool_decide (actual = expected)) (LifecycleMismatch expected actual);
  self ← read w_enclave;
  _ ← of_outcome (assert (state_installed_for self next));
  set_state (with_lifecycle (Some next)).

(** ** Committee and limiter of the enclave *)

Definition get_committee : handler Committee :=
  get_or (fun e => committee (e_state e)) (InvalidRequestError CommitteeUninitialized).

Definition set_committee (c : Committee) : handler unit :=
  current ← read (fun w => committee (e_state (w_enclave w)));
  match current with
  | Some _ => throw (InvalidRequestError CommitteeAlreadySet)
  | None => set_state (with_committee c)
  end.

Definition replace_committee (c : Committee) (expected_current_epoch : Z) : handler unit :=
  current ← get_committee;
  _ ← ensure (c_epoch current =? expected_current_epoch)
        (InvalidRequestError (CommitteeEpochMismatch expected_current_epoch (c_epoch current)));
  set_state (with_committee c).

Definition set_rate_limiter (l : RateLimiter) : handler unit :=
  current ← read (fun w => rate_limiter (e_state (w_enclave w)));
  match current with
  | Some _ => throw (InvalidRequestError RateLimiterAlreadySet)
  | None => set_state (with_rate_limiter l)
  end.

Definition state_init (c : Committee) (l : RateLimiter) : handler unit :=
  _ ← set_committee c;
  set_rate_limiter l.

Definition consume_from_limiter (seq timestamp amount_sats : Z) : handler LimiterState :=
  limiter ← get_or (fun e => rate_limiter (e_state e)) InternalError;
  let '(r, limiter) := consume limiter seq timestamp amount_sats in
  _ ← set_state (with_rate_limiter limiter);
  match r with
  | inl e => throw (LimiterError e)
  | inr _ => mret (rl_state limiter)
  end.

Definition clear_temporary_init_state : handler unit :=
  _ ← expect_ok (get_or (fun e => temporary_init_state (e_state e))
                   (InvalidRequestError TemporaryStateMissing));
  set_state (with_temporary_init_state None).

(** ** Logging *)

Definition append_record (w : Write) (message : LogMessage) (world : World) : World :=
  mkWorld (w_enclave world) (w_s3 world ++ [mkLogRecord (write_dir w) message]).

(** [LogWriter::write] retries, and panics in the end. *)
Definition write_record (w : Write) (message : LogMessage) : handler unit := fun world =>
  match write_fate w with
  | Written => (Ok tt, append_record w message world)
  | AbortedUnwritten => (Panic, world)
  | AbortedWritten => (Panic, append_record w message world)
  end.

Definition write_log (w : Write) (message : LogMessage) : handler unit :=
  _ ← get_or (fun e => s3_logger (e_config e)) (InvalidRequestError S3LoggerUninitialized);
  write_record w message.

Definition heartbeat (w : Write) : handler unit :=
  l ← read (fun world => lifecycle (e_state (w_enclave world)));
  match lifecycle_mode <$> l with
  | Some WithdrawMode =>
      seq ← read (fun world => next_heartbeat_seq (e_state (w_enclave world)));
      _ ← write_log w (LHeartbeat seq);
      set_state (fun s => with_heartbeat_seq (wadd (next_heartbeat_seq s) 1) s)
  | _ => mret tt
  end.

(** ** Certificates *)

Definition verify_hashi_cert {T} `{IntentMessage T} (hashi_id : Address) (committee : Committee)
    (signed_request : SignedMessage T) : outcome EnclaveError unit :=
  let threshold := certificate_threshold (total_weight committee) in
  match verify_signature_and_weight committee hashi_id signed_request threshold with
  | Ok u => Ok u
  | Err e => Err (Unauthenticated e)
  | Panic => Panic
  end.

(** ** Withdrawals (standard_withdrawal.rs) *)

Definition MAX_CLOCK_SKEW_SECS : Z := 5 * 60.
Definition MAX_REQUEST_AGE_SECS : Z := 30 * 60.

Definition validate_request_timestamp (request_timestamp_secs guardian_now : UnixSeconds)
    : outcome EnclaveError unit :=
  _ ← guard (negb (wadd guardian_now MAX_CLOCK_SKEW_SECS <? request_timestamp_secs))
        (InvalidRequestError (TimestampInFuture request_timestamp_secs guardian_now));
  guard (negb (MAX_REQUEST_AGE_SECS <? sat_sub guardian_now request_timestamp_secs))
    (InvalidRequestError (TimestampTooOld request_timestamp_secs guardian_now)).

Definition validate_addr (wire_value : SignedStandardWithdrawalRequestWire) (network : Network)
    : outcome EnclaveError (SignedMessage StandardWithdrawalRequest) :=
  let data := sw_data wire_value in
  match TxUTXOs_new (uu_inputs (rw_utxos data)) (uu_outputs (rw_utxos data)) network with
  | Ok utxos =>
      match signed_message_new (sw_epoch wire_value)
              (mkStandardWithdrawalRequest (rw_wid data) utxos (rw_timestamp_secs data) (rw_seq data))
              (sw_signature wire_value) (sw_signers_bitmap wire_value) with
      | Ok m => Ok m
      | Err e => Err (InvalidRequestError (MalformedCertificate e))
      | Panic => Panic
      end
  | Err e => Err (InvalidRequestError (InvalidUtxos e))
  | Panic => Panic
  end.

Definition standard_withdrawal (now : UnixSeconds) (w : Write)
    (signed_request : SignedStandardWithdrawalRequestWire) : handler StandardWithdrawalResponse :=
  network ← bitcoin_network;
  signed_request ← of_outcome (validate_addr signed_request network);
  _ ← require_fully_initialized;
  committee ← get_committee;
  hashi_id ← get_hashi_object_id;
  _ ← of_outcome (verify_hashi_cert hashi_id committee signed_request);
  let request_sign := sm_signature signed_request in
  let request := sm_message signed_request in
  _ ← of_outcome (validate_request_timestamp (wr_timestamp_secs request) now);
  consumed_amount_sats ← of_outcome (gross_outflow_amount (wr_utxos request));
  post_state ← consume_from_limiter (wr_seq request) (wr_timestamp_secs request)
                 consumed_amount_sats;
  '(txid, signatures) ← expect_ok (btc_sign (wr_utxos request));
  let response := mkStandardWithdrawalResponse signatures in
  _ ← expect_ok (write_log w (LWithdrawal (mkGuardianWithdrawalLog txid (request_into_wire request)
                                             request_sign response post_state)));
  mret response.

(** ** Committee handover (committee_update.rs, committee/runtime.rs) *)

Definition member_try_from (m : MoveCommitteeMember) : option CommitteeMember :=
  pk ← bls_public_key_from_bytes (mv_public_key m);
  enc ← encryption_key_from_bcs (mv_encryption_public_key m);
  Some (mkCommitteeMember (validator_address m) pk enc (mv_weight m)).

Definition committee_try_from (c : MoveCommittee) : option Committee :=
  members ← mapM member_try_from (mc_members c);
  Some (with_config members (mc_epoch c) (mc_config c)).

Definition with_encryption_fallback (m : MoveCommitteeMember) : MoveCommitteeMember :=
  match encryption_key_from_bcs (mv_encryption_public_key m) with
  | Some _ => m
  | None =>
      mkMoveCommitteeMember (validator_address m) (mv_public_key m)
        (encryption_key_to_bcs fallback_encryption_public_key) (mv_weight m) (extra_fields m)
  end.

Definition from_move_with_encryption_key_fallback (c : MoveCommittee) : option Committee :=
  committee_try_from (mkMoveCommittee (mc_epoch c) (with_encryption_fallback <$> mc_members c)
                        (mc_total_weight c) (mc_config c)).

Definition or_error {A} (o : option A) (e : InvalidRequest) : handler A :=
  match o with Some a => mret a | None => throw (InvalidRequestError e) end.

Definition update_committee (w : Write) (signed : SignedMessage CommitteeTransitionRequest)
    : handler Z :=
  _ ← require_fully_initialized;
  current ← get_committee;
  let current_epoch := c_epoch current in
  let proposed := new_committee (sm_message signed) in
  let proposed_epoch := mc_epoch proposed in
  if proposed_epoch <=? current_epoch then mret current_epoch
  else
    hashi_id ← get_hashi_object_id;
    _ ← of_outcome (verify_hashi_cert hashi_id current signed);
    runtime ← or_error (from_move_with_encryption_key_fallback proposed) InvalidNewCommittee;
    _ ← ensure (c_epoch runtime =? proposed_epoch)
          (InvalidRequestError (NewEpochMismatch (c_epoch runtime) proposed_epoch));
    _ ← write_log w (LCommitteeUpdate (mkCommitteeUpdateLogMessage current_epoch proposed
                                         (sm_signature signed)));
    _ ← expect_ok (replace_committee runtime current_epoch);
    mret proposed_epoch.

Definition update_committee_chain
    (transitions : list (Write * SignedMessage CommitteeTransitionRequest)) : handler Z :=
  current ← get_committee;
  foldM (fun _ t => update_committee t.1 t.2) transitions (c_epoch current).

(** ** Reading the log (s3_reader) *)

Definition withdrawal_of (r : LogRecord) : option (HourDir * GuardianWithdrawalLog) :=
  match record_message r with
  | LWithdrawal m => Some (record_dir r, m)
  | _ => None
  end.

(** The records under [withdraw/]. *)
Definition withdrawals (s3 : list LogRecord) : list (HourDir * GuardianWithdrawalLog) :=
  omap withdrawal_of s3.

Definition read_logs_in_dir (s3 : list LogRecord) (d : HourDir) : list GuardianWithdrawalLog :=
  (filter (fun e => e.1 = d) (withdrawals s3)).*2.

(** The descent through years, months, days and hours, each from the highest, visits the
    hours from the latest; S3 lists only directories that hold a key. *)
Definition find_latest_withdrawal_bucket (s3 : list LogRecord) : option HourDir :=
  List.find (fun d => negb (bool_decide (length (read_logs_in_dir s3 d) = O)))
    (sort_by (fun a b => b <=? a) (withdrawals s3).*1).

Definition prev_dir (d : HourDir) : HourDir := Z.max (d - 1) 0.

Definition bucket_max_post_state (logs : list GuardianWithdrawalLog) : option LimiterState :=
  max_by_key next_seq (gl_post_state <$> logs).

Definition recover_limiter_state (s3 : list LogRecord) (config : LimiterConfig)
    : outcome EnclaveError LimiterState :=
  match find_latest_withdrawal_bucket s3 with
  | None => Ok (genesis config)
  | Some cursor =>
      let hit := bucket_max_post_state (read_logs_in_dir s3 cursor) in
      let peek := bucket_max_post_state (read_logs_in_dir s3 (prev_dir cursor)) in
      match max_by_key next_seq (omap id [hit; peek]) with
      | None => Err InvalidS3Log
      | Some recovered_state => Ok (capped_to recovered_state config)
      end
  end.

Definition committee_updates (s3 : list LogRecord) : list MoveCommittee :=
  omap (fun r => match record_message r with
                 | LCommitteeUpdate m => Some (cu_new_committee m)
                 | _ => None
                 end) s3.

Definition genesis_records (s3 : list LogRecord) : list GenesisLogMessage :=
  omap (fun r => match record_message r with LGenesis m => Some m | _ => None end) s3.

(** A committee-update key is its epoch, so a listing has one key per epoch. *)
Definition read_latest_committee_update (s3 : list LogRecord) : option MoveCommittee :=
  max_by_key mc_epoch (committee_updates s3).

Definition read_genesis (s3 : list LogRecord) : option GenesisLogMessage := head (genesis_records s3).

Definition read_latest_committee (s3 : list LogRecord) : option MoveCommittee :=
  match read_latest_committee_update s3 with
  | Some c => Some c
  | None => gn_committee <$> read_genesis s3
  end.

(** ** Activation (operator_activate.rs) *)

Record OAInstall := mkOAInstall {
  in_committee : Committee;
  in_rate_limiter : RateLimiter;
  in_completion_log : InitLogMessage;
}.

Definition limiter_result {A} (r : GuardianError + A) : handler A :=
  match r with inl e => throw (LimiterError e) | inr a => mret a end.

(** [sessions_quiet] is the verdict of [ensure_session_live_and_others_quiet]. *)
Definition oa_install_from_request (sessions_quiet : bool) (expected_state_hash : Hash)
    : handler OAInstall :=
  config ← get_limiter_config;
  initialization ← get_or (fun e => temporary_init_state (e_state e))
                     (InvalidRequestError TemporaryStateMissing);
  _ ← get_or (fun e => s3_logger (e_config e)) (InvalidRequestError S3LoggerUninitialized);
  _ ← get_or (fun e => deployment (e_config e)) (InvalidRequestError DeploymentUninitialized);
  _ ← ensure sessions_quiet SessionsNotQuiet;
  s3 ← read w_s3;
  stored ← or_error (read_latest_committee s3) NoCommitteeRecord;
  committee ← or_error (from_move_with_encryption_key_fallback stored) InvalidServingCommittee;
  limiter_state ← of_outcome (recover_limiter_state s3 config);
  limiter ← limiter_result (rate_limiter_new config limiter_state);
  let instance := cs_instance (ceremony_state initialization) in
  let state_hash := activation_digest (config_hash initialization) instance committee limiter_state in
  _ ← ensure (bool_decide (state_hash = expected_state_hash))
        (InvalidRequestError (StateHashMismatch expected_state_hash state_hash));
  mret (mkOAInstall committee limiter
          (OAActivated state_hash (config_hash initialization) (sharing_seq instance)
             (c_epoch committee) limiter_state)).

Definition commit_operator_activate (w : Write) (install : OAInstall) : handler unit :=
  _ ← expect_ok (state_init (in_committee install) (in_rate_limiter install));
  _ ← expect_ok (write_log w (LInit (in_completion_log install)));
  _ ← clear_temporary_init_state;
  expect_ok (advance_lifecycle_into (Withdraw Activated)).

Definition operator_activate (sessions_quiet : bool) (expected_state_hash : Hash) (w : Write)
    : handler unit :=
  _ ← require_lifecycle (Some (Withdraw ProvisionerInitialized));
  install ← oa_install_from_request sessions_quiet expected_state_hash;
  commit_operator_activate w install.

End guardian.
