(* ===== verification/GuardianInit.v ===== *)
(** * The guardian enclave: initialization

    [crates/hashi-guardian/src/operator_init.rs] and [withdraw_mode/provisioner_init.rs], with
    the setters of [enclave.rs] and [init_once.rs] they use, the ceremony state of
    [hashi-types/src/guardian/ceremony_state.rs] and its records in the log
    ([s3/log_messages/], [s3_reader/mod.rs]).

    The operator arms a booted enclave with a configuration; the key provisioners of the
    latest ceremony then hand it the shares of the Bitcoin key.  The verdict of the Nitro
    attestation and whether S3 can be reached are arguments. *)

From stdpp Require Import strings.
From S2P Require Import MonitorDomain TxUtxos Limiter Bitmap Committee SecretSharing KpShares Guardian Prelude.

Section guardian.
Context `{GC : GuardianCrypto}.

Abbreviation handler := (M World EnclaveError).

(** ** Ceremony state (ceremony_state.rs, log_messages) *)

Definition ceremony_sharing_seq (self : CeremonyLogMessage) : Z :=
  match self with
  | NewKey instance _ => sharing_seq instance
  | Rotate _ new_instance _ => sharing_seq new_instance
  end.

Definition into_instance_and_pubkey (self : CeremonyLogMessage)
    : outcome EnclaveError (SecretSharingInstance * BtcPubkey) :=
  match self with
  | NewKey instance btc_master_pubkey => Ok (instance, btc_master_pubkey)
  | Rotate old_instance new_instance btc_master_pubkey =>
      _ ← assert (sharing_seq old_instance <? sharing_seq new_instance);
      Ok (new_instance, btc_master_pubkey)
  end.

Definition ceremony_state_from_parts (instance : SecretSharingInstance) (btc_master_pubkey : BtcPubkey)
    (cert_seq : Z) (encrypted_shares : KpEncryptedShareRoster) : outcome EnclaveError CeremonyState :=
  _ ← guard (Z.of_nat (length encrypted_shares) =? num_shares instance) InternalError;
  Ok (mkCeremonyState instance btc_master_pubkey cert_seq encrypted_shares).

Definition ceremony_state_new (ceremony : CeremonyLogMessage) (kp_share_state : KpShareStateLogMessage)
    : outcome EnclaveError CeremonyState :=
  '(instance, btc_master_pubkey) ← into_instance_and_pubkey ceremony;
  _ ← guard (kss_sharing_seq kp_share_state =? sharing_seq instance) InternalError;
  ceremony_state_from_parts instance btc_master_pubkey (kss_cert_seq kp_share_state)
    (kss_encrypted_shares kp_share_state).

Definition from_proposal (p : CeremonyProposalLogMessage) : outcome EnclaveError CeremonyState :=
  '(instance, btc_master_pubkey) ← into_instance_and_pubkey (cp_ceremony p);
  ceremony_state_from_parts instance btc_master_pubkey 0 (cp_encrypted_shares p).

(** ** Reading ceremonies (s3_reader/mod.rs) *)

Definition ceremony_logs (s3 : list LogRecord) : list CeremonyLogMessage :=
  omap (fun r => match record_message r with LCeremony m => Some m | _ => None end) s3.

Definition kp_share_logs (s3 : list LogRecord) : list KpShareStateLogMessage :=
  omap (fun r => match record_message r with LKpShareState m => Some m | _ => None end) s3.

(** A ceremony's key is its sharing sequence number, a share state's key also its
    certificate sequence number. *)
Definition read_latest_ceremony_log (s3 : list LogRecord) : option CeremonyLogMessage :=
  max_by_key ceremony_sharing_seq (ceremony_logs s3).

Definition read_latest_kp_share_state_log (s3 : list LogRecord) (seq : Z)
    : option KpShareStateLogMessage :=
  max_by_key kss_cert_seq (filter (fun m => kss_sharing_seq m = seq) (kp_share_logs s3)).

(** [Result::expect] *)
Definition expect_result {A} (o : outcome EnclaveError A) : outcome EnclaveError A :=
  match o with Err _ => Panic | _ => o end.

Definition read_latest_ceremony_state (s3 : list LogRecord) : outcome EnclaveError CeremonyState :=
  match read_latest_ceremony_log s3 with
  | None => Err (InvalidRequestError NoCeremonyRecord)
  | Some ceremony =>
      match read_latest_kp_share_state_log s3 (ceremony_sharing_seq ceremony) with
      | None => Err InvalidS3Log
      | Some kp_share_state => expect_result (ceremony_state_new ceremony kp_share_state)
      end
  end.

Definition max_opt (a b : option Z) : option Z :=
  match a, b with
  | Some a, Some b => Some (Z.max a b)
  | Some a, None => Some a
  | None, b => b
  end.

(** The directories under [kp-shares/] are those of the share states. *)
Definition next_sharing_seq (s3 : list LogRecord) : outcome EnclaveError Z :=
  let max_ceremony_sharing_seq := ceremony_sharing_seq <$> read_latest_ceremony_log s3 in
  let max_kp_share_sharing_seq :=
    fold_left (fun acc m => max_opt acc (Some (kss_sharing_seq m))) (kp_share_logs s3) None in
  match max_opt max_ceremony_sharing_seq max_kp_share_sharing_seq with
  | None => Ok 0
  | Some seq => if seq <? u64_max then Ok (seq + 1) else Err InvalidS3Log
  end.

(** ** Fields that are set once (enclave.rs, init_once.rs) *)

Definition set_config (f : EnclaveConfig -> EnclaveConfig) : handler unit :=
  modify (fun w => mkWorld (mkEnclave (f (e_config (w_enclave w))) (e_state (w_enclave w))) (w_s3 w)).

(** [InitOnce::set] on a field of the configuration *)
Definition set_once {A} (field : EnclaveConfig -> option A)
    (install : A -> EnclaveConfig -> EnclaveConfig) (already : InvalidRequest) (value : A)
    : handler unit :=
  current ← read (fun w => field (e_config (w_enclave w)));
  match current with
  | Some _ => throw (InvalidRequestError already)
  | None => set_config (install value)
  end.

Definition with_s3_logger (v : unit) (c : EnclaveConfig) : EnclaveConfig :=
  mkEnclaveConfig (s3_session_id c) (encryption_secret_key c) (Some v) (enclave_btc_keypair c)
    (deployment c) (hashi_btc_master_pubkey c) (limiter_config c) (hashi_object_id c).
Definition with_btc_keypair (v : BtcKeypair) (c : EnclaveConfig) : EnclaveConfig :=
  mkEnclaveConfig (s3_session_id c) (encryption_secret_key c) (s3_logger c) (Some v)
    (deployment c) (hashi_btc_master_pubkey c) (limiter_config c) (hashi_object_id c).
Definition with_deployment (v : DeploymentConfig) (c : EnclaveConfig) : EnclaveConfig :=
  mkEnclaveConfig (s3_session_id c) (encryption_secret_key c) (s3_logger c) (enclave_btc_keypair c)
    (Some v) (hashi_btc_master_pubkey c) (limiter_config c) (hashi_object_id c).
Definition with_master_pubkey (v : HashiMasterG) (c : EnclaveConfig) : EnclaveConfig :=
  mkEnclaveConfig (s3_session_id c) (encryption_secret_key c) (s3_logger c) (enclave_btc_keypair c)
    (deployment c) (Some v) (limiter_config c) (hashi_object_id c).
Definition with_limiter_config (v : LimiterConfig) (c : EnclaveConfig) : EnclaveConfig :=
  mkEnclaveConfig (s3_session_id c) (encryption_secret_key c) (s3_logger c) (enclave_btc_keypair c)
    (deployment c) (hashi_btc_master_pubkey c) (Some v) (hashi_object_id c).
Definition with_hashi_object_id (v : Address) (c : EnclaveConfig) : EnclaveConfig :=
  mkEnclaveConfig (s3_session_id c) (encryption_secret_key c) (s3_logger c) (enclave_btc_keypair c)
    (deployment c) (hashi_btc_master_pubkey c) (limiter_config c) (Some v).

Definition set_s3_logger : unit -> handler unit :=
  set_once s3_logger with_s3_logger S3LoggerAlreadySet.
Definition set_deployment : DeploymentConfig -> handler unit :=
  set_once deployment with_deployment DeploymentAlreadySet.
Definition set_btc_keypair : BtcKeypair -> handler unit :=
  set_once enclave_btc_keypair with_btc_keypair BitcoinKeyAlreadySet.

Definition install_config (master : HashiMasterG) (limits : LimiterConfig) (object_id : Address)
    : handler unit :=
  _ ← set_once hashi_btc_master_pubkey with_master_pubkey HashiKeyAlreadySet master;
  _ ← set_once limiter_config with_limiter_config LimiterConfigAlreadySet limits;
  set_once hashi_object_id with_hashi_object_id HashiObjectIdAlreadySet object_id.

Definition set_temporary_init_state (state : TemporaryInitState) : handler unit :=
  current ← read (fun w => temporary_init_state (e_state (w_enclave w)));
  match current with
  | Some _ => throw (InvalidRequestError TemporaryStateAlreadySet)
  | None => set_state (with_temporary_init_state (Some state))
  end.

(** ** Operator initialization (operator_init.rs) *)

(** The S3 credentials serve only to connect. *)
Inductive OperatorInitRequest :=
| CeremonyOperatorInit (deployment : DeploymentConfig)
| WithdrawOperatorInit (init_config : InitConfig) (genesis_state : option GenesisState).

Record OIWithdrawModeInstall := mkOIWithdrawModeInstall {
  wi_init_config : InitConfig;
  wi_ceremony_state : CeremonyState;
  wi_genesis_state : option GenesisState;
  wi_hashi_object_id : Address;
  wi_mpc_master_g : HashiMasterG;
}.

Record OIInstall := mkOIInstall {
  oi_install_deployment : DeploymentConfig;
  oi_attestation : NitroAttestation;
  oi_withdraw_mode : option OIWithdrawModeInstall;
}.

Definition from_ceremony_state (s3 : list LogRecord) (config : InitConfig) (state : CeremonyState)
    (genesis : option GenesisState) : outcome EnclaveError OIWithdrawModeInstall :=
  '(object_id, master) ←
    match genesis with
    | Some g =>
        match read_latest_committee s3 with
        | Some _ => Err (InvalidRequestError GenesisAfterCommittee)
        | None => Ok (gs_hashi_object_id g, gs_mpc_master_g g)
        end
    | None =>
        match read_genesis s3 with
        | None => Err (InvalidRequestError NoGenesisRecord)
        | Some g => Ok (gn_hashi_object_id g, gn_mpc_master_g g)
        end
    end;
  Ok (mkOIWithdrawModeInstall config state genesis object_id master).

Definition install_into (self : OIWithdrawModeInstall) : handler unit :=
  _ ← expect_ok (set_temporary_init_state
        (mkTemporaryInitState (wi_ceremony_state self) (wi_genesis_state self)
           (init_config_digest (wi_init_config self))));
  expect_ok (install_config (wi_mpc_master_g self) (ic_limiter_config (wi_init_config self))
               (wi_hashi_object_id self)).

Definition oi_info (encryption_pubkey : list Z) (install : OIInstall) : OperatorInitInfo :=
  mkOperatorInitInfo (oi_install_deployment install) encryption_pubkey
    ((fun wm => mkWithdrawOperatorInitInfo (cs_instance (wi_ceremony_state wm))
                  (init_config_digest (wi_init_config wm)) (ic_limiter_config (wi_init_config wm))
                  (wi_hashi_object_id wm) (wi_mpc_master_g wm)
                  (genesis_digest <$> wi_genesis_state wm))
       <$> oi_withdraw_mode install).

Definition commit_operator_init (w1 w2 : Write) (install : OIInstall) : handler unit :=
  sk ← read (fun w => encryption_secret_key (e_config (w_enclave w)));
  let info := oi_info (encryption_public_key_bytes sk) install in
  _ ← expect_ok (set_s3_logger tt);
  _ ← expect_ok (set_deployment (oi_install_deployment install));
  let initialized := match oi_withdraw_mode install with
                     | Some _ => Withdraw OperatorInitialized
                     | None => Ceremony CeremonyInitialized
                     end in
  _ ← match oi_withdraw_mode install with Some wm => install_into wm | None => mret tt end;
  _ ← expect_ok (write_log w1 (LInit (OIAttestation (oi_attestation install))));
  _ ← expect_ok (write_log w2 (LInit (OIGuardianInfo info)));
  expect_ok (advance_lifecycle_into initialized).

(** What the platform answers: the attestation document, if one can be had, whether it
    verifies against the deployment's current build, and whether S3 can be reached. *)
Record Platform := mkPlatform {
  pf_attestation : option NitroAttestation;
  pf_attestation_live : bool;
  pf_s3_connects : bool;
}.

Definition operator_init (platform : Platform) (w1 w2 : Write) (request : OperatorInitRequest)
    : handler unit :=
  _ ← require_lifecycle None;
  let '(deployment, withdraw_inputs) :=
    match request with
    | CeremonyOperatorInit deployment => (deployment, None)
    | WithdrawOperatorInit config genesis => (ic_deployment config, Some (config, genesis))
    end in
  attestation ← match pf_attestation platform with
                | Some a => mret a
                | None => throw InternalError
                end;
  _ ← ensure (pf_attestation_live platform) (InvalidRequestError AttestationCheckFailed);
  _ ← ensure (pf_s3_connects platform) S3Unavailable;
  s3 ← read w_s3;
  withdraw_mode ←
    match withdraw_inputs with
    | Some (config, genesis) =>
        state ← of_outcome (read_latest_ceremony_state s3);
        install ← of_outcome (from_ceremony_state s3 config state genesis);
        mret (Some install)
    | None => mret None
    end;
  commit_operator_init w1 w2 (mkOIInstall deployment attestation withdraw_mode).

(** ** Provisioner initialization (provisioner_init.rs) *)

#[export] Instance provisioner_init_intent : KpSigningIntent ProvisionerInitRequest := {|
  KP_INTENT := 0;
  kp_to_bcs := provisioner_init_bcs;
  expected_session := pi_expected_session_id;
|}.

Record PIInstall := mkPIInstall {
  pi_btc_keypair : BtcKeypair;
  pi_genesis_log : option GenesisLogMessage;
  pi_completion_log : InitLogMessage;
}.

Definition verify_submission (session : SessionID) (live_config_hash : Hash)
    (live_genesis_hash : option Hash) (roster : KpEncryptedShareRoster)
    (signed : KpSigned ProvisionerInitRequest) : outcome EnclaveError GuardianEncryptedShare :=
  submission ← lift_kp (kp_verify_signature signed);
  _ ← lift_kp (validate_session submission session);
  _ ← guard (bool_decide (expected_config_hash submission = live_config_hash))
        (InvalidRequestError (ConfigHashMismatch (expected_config_hash submission) live_config_hash));
  _ ← guard (bool_decide (expected_genesis_state_hash submission = live_genesis_hash))
        (InvalidRequestError
           (GenesisHashMismatch (expected_genesis_state_hash submission) live_genesis_hash));
  _ ← lift_kp (validate_share_assignment roster (signer_fingerprint signed)
                 (ge_id (pi_encrypted_share submission)));
  Ok (pi_encrypted_share submission).

Definition verify_signed_submissions (request : list (KpSigned ProvisionerInitRequest))
    (session : SessionID) (live_config_hash : Hash) (live_genesis_hash : option Hash)
    (roster : KpEncryptedShareRoster) : outcome EnclaveError (list GuardianEncryptedShare) :=
  mapM (verify_submission session live_config_hash live_genesis_hash roster) request.

Definition genesis_log_of (g : GenesisState) : GenesisLogMessage :=
  mkGenesisLogMessage (gs_committee g) (gs_hashi_object_id g) (gs_mpc_master_g g).

Definition ensure_no_serving_committee : handler unit :=
  _ ← get_or (fun e => s3_logger (e_config e)) (InvalidRequestError S3LoggerUninitialized);
  _ ← get_or (fun e => deployment (e_config e)) (InvalidRequestError DeploymentUninitialized);
  s3 ← read w_s3;
  match read_latest_committee s3 with
  | Some _ => throw (InvalidRequestError GenesisAfterCommittee)
  | None => mret tt
  end.

Definition pi_install_from_request (request : list (KpSigned ProvisionerInitRequest))
    : handler PIInstall :=
  initialization ← expect_ok (get_or (fun e => temporary_init_state (e_state e))
                                (InvalidRequestError TemporaryStateMissing));
  let state := ceremony_state initialization in
  let instance := cs_instance state in
  session ← read (fun w => s3_session_id (e_config (w_enclave w)));
  sk ← read (fun w => encryption_secret_key (e_config (w_enclave w)));
  encrypted_shares ← of_outcome
    (verify_signed_submissions request session (config_hash initialization)
       (genesis_digest <$> genesis_state initialization) (cs_encrypted_shares state));
  shares ← of_outcome (lift_kp (decrypt_verify_shares encrypted_shares sk instance));
  enclave_k256_sk ← of_outcome (lift_kp (lift_sharing (combine_shares shares (threshold instance))));
  let keypair := btc_keypair_of enclave_k256_sk in
  let pubkey := x_only_public_key keypair in
  _ ← ensure (bool_decide (pubkey = cs_btc_master_pubkey state))
        (InvalidRequestError (BtcPubkeyMismatch pubkey (cs_btc_master_pubkey state)));
  _ ← match genesis_state initialization with
      | Some _ => ensure_no_serving_committee
      | None => mret tt
      end;
  mret (mkPIInstall keypair (genesis_log_of <$> genesis_state initialization)
          (PIEnclaveFullyInitialized (sharing_seq instance) (sh_id <$> shares) pubkey)).

Definition commit_provisioner_init (w1 w2 : Write) (install : PIInstall) : handler unit :=
  _ ← expect_ok (set_btc_keypair (pi_btc_keypair install));
  _ ← match pi_genesis_log install with
      | Some genesis_log => expect_ok (write_log w1 (LGenesis genesis_log))
      | None => mret tt
      end;
  _ ← expect_ok (write_log w2 (LInit (pi_completion_log install)));
  expect_ok (advance_lifecycle_into (Withdraw ProvisionerInitialized)).

Definition provisioner_init (w1 w2 : Write) (request : list (KpSigned ProvisionerInitRequest))
    : handler unit :=
  _ ← require_lifecycle (Some (Withdraw OperatorInitialized));
  install ← pi_install_from_request request;
  commit_provisioner_init w1 w2 install.
End guardian.
