(* ===== verification/GuardianCeremony.v ===== *)
(** * The guardian enclave: ceremonies

    [crates/hashi-guardian/src/ceremony_mode] and [withdraw_mode/provisioner_rotate_cert.rs]:
    an enclave in ceremony mode generates the Bitcoin key or takes its shares back, deals
    shares to a set of key provisioners, and publishes the ceremony once every one of them
    has confirmed it; a serving enclave replaces the certificate of one key provisioner.

    The key and the coefficients a ceremony draws are arguments.  The session signature of a
    response is not modelled. *)

From stdpp Require Import strings.
From S2P Require Import MonitorDomain TxUtxos Limiter Bitmap Committee SecretSharing KpShares Guardian GuardianInit Prelude.

#[export] Instance SecretSharingParams_eq_dec : EqDecision SecretSharingParams.
Proof. solve_decision. Defined.

Section guardian.
Context `{GC : GuardianCrypto}.

Abbreviation handler := (M World EnclaveError).

(** ** The pending ceremony (enclave.rs) *)

Definition pending_ceremony_new (p : CeremonyProposalLogMessage) (d : DeploymentConfig)
    : outcome EnclaveError PendingCeremony :=
  state ← from_proposal p;
  Ok (mkPendingCeremony p (artifacts_digest d state) ∅).

Definition validate_confirmation (self : PendingCeremony) (fingerprint : KPFingerprint) (digest : Hash)
    : outcome EnclaveError (ShareID * bool) :=
  _ ← guard (bool_decide (digest = ceremony_artifacts_digest self))
        (InvalidRequestError ConfirmationDigestMismatch);
  match find_by_fingerprint (cp_encrypted_shares (proposal self)) fingerprint with
  | None => Err (UnknownProvisioner fingerprint)
  | Some share => Ok (ks_id share, bool_decide (ks_id share ∈ confirmed_share_ids self))
  end.

Record CeremonyConfirmationResponse := mkCeremonyConfirmationResponse {
  have : Z;
  need : Z;
  completed : bool;
}.

(** [PendingCeremony::status] *)
Definition pending_status (self : PendingCeremony) : outcome EnclaveError CeremonyConfirmationResponse :=
  match confirmation_status self with
  | Some (have, need, completed) => Ok (mkCeremonyConfirmationResponse have need completed)
  | None => Err (InvalidRequestError ConfirmationCountTooLarge)
  end.

Definition record_confirmation (share_id : ShareID) (self : PendingCeremony) : PendingCeremony :=
  mkPendingCeremony (proposal self) (ceremony_artifacts_digest self)
    ({[share_id]} ∪ confirmed_share_ids self).

Definition with_pending_ceremony (p : PendingCeremony) (s : EnclaveState) : EnclaveState :=
  mkEnclaveState (next_heartbeat_seq s) (lifecycle s) (committee s) (rate_limiter s)
    (temporary_init_state s) (Some p).

Definition install_pending_ceremony (d : DeploymentConfig) (p : CeremonyProposalLogMessage)
    : handler unit :=
  current ← read (fun w => pending_ceremony (e_state (w_enclave w)));
  match current with
  | Some _ => throw (InvalidRequestError PendingCeremonyAlreadySet)
  | None =>
      pending ← of_outcome (pending_ceremony_new p d);
      set_state (with_pending_ceremony pending)
  end.

Definition get_pending_ceremony : handler PendingCeremony :=
  get_or (fun e => pending_ceremony (e_state e)) (InvalidRequestError PendingCeremonyNotSet).

Definition get_deployment : handler DeploymentConfig :=
  get_or (fun e => deployment (e_config e)) (InvalidRequestError DeploymentUninitialized).

(** A reader needs the S3 client and the deployment. *)
Definition reader_log : handler (list LogRecord) :=
  _ ← get_or (fun e => s3_logger (e_config e)) (InvalidRequestError S3LoggerUninitialized);
  _ ← get_deployment;
  read w_s3.

(** ** A new key (setup.rs) *)

Record SetupNewKeyRequest := mkSetupNewKeyRequest {
  key_provisioner_certs_roster : KpCertRoster;
  setup_params : SecretSharingParams;
}.

Definition setup_request_new (roster : KpCertRoster) (n t : Z) : outcome EnclaveError SetupNewKeyRequest :=
  params ← lift_kp (lift_sharing (sharing_params_new n t));
  _ ← guard (Z.of_nat (num_kps roster) =? p_num_shares params)
        (InvalidRequestError (RosterSizeMismatch (p_num_shares params) (Z.of_nat (num_kps roster))));
  Ok (mkSetupNewKeyRequest roster params).

Record SetupNewKeyResponse := mkSetupNewKeyResponse {
  sr_encrypted_shares : KpEncryptedShareRoster;
  sr_instance : SecretSharingInstance;
  sr_btc_master_pubkey : BtcPubkey;
}.

Definition setup_new_key (sk : Scalar) (random : list Scalar) (w : Write)
    (request : SetupNewKeyRequest) : handler SetupNewKeyResponse :=
  _ ← require_lifecycle (Some (Ceremony CeremonyInitialized));
  _ ← get_or (fun e => s3_logger (e_config e)) (InvalidRequestError S3LoggerUninitialized);
  s3 ← read w_s3;
  _ ← ensure (match ceremony_logs s3 with [] => true | _ => false end)
        (InvalidRequestError CeremonyExists);
  s3 ← reader_log;
  seq ← of_outcome (next_sharing_seq s3);
  let params := setup_params request in
  '(encrypted_shares, commitments) ← of_outcome
    (lift_kp (split_and_encrypt_for_kps sk (key_provisioner_certs_roster request) params random));
  let btc_master_pubkey := x_only_public_key (btc_keypair_of sk) in
  instance ← expect_ok (of_outcome
    (lift_kp (lift_sharing (instance_new commitments (p_num_shares params) (p_threshold params) seq))));
  let p := mkCeremonyProposalLogMessage (NewKey instance btc_master_pubkey) encrypted_shares in
  _ ← write_log w (LCeremonyProposal p);
  d ← get_deployment;
  _ ← install_pending_ceremony d p;
  _ ← expect_ok (advance_lifecycle_into (Ceremony AwaitingKeyProvisionerConfirmations));
  mret (mkSetupNewKeyResponse encrypted_shares instance btc_master_pubkey).

(** ** Confirmations (confirm.rs) *)

#[export] Instance confirmation_intent : KpSigningIntent CeremonyConfirmationRequest := {|
  KP_INTENT := 3;
  kp_to_bcs := confirmation_bcs;
  expected_session := cc_expected_session_id;
|}.

(** The share state is written first, the ceremony record commits. *)
Definition publish_pending_ceremony (w1 w2 : Write) : handler unit :=
  pending ← get_pending_ceremony;
  let ceremony := cp_ceremony (proposal pending) in
  _ ← write_log w1 (LKpShareState (mkKpShareStateLogMessage (ceremony_sharing_seq ceremony) 0
                                     (cp_encrypted_shares (proposal pending))));
  write_log w2 (LCeremony ceremony).

Definition confirm_ceremony (w1 w2 : Write) (signed : KpSigned CeremonyConfirmationRequest)
    : handler CeremonyConfirmationResponse :=
  _ ← require_lifecycle (Some (Ceremony AwaitingKeyProvisionerConfirmations));
  pending ← get_pending_ceremony;
  request ← of_outcome (lift_kp (kp_verify_signature signed));
  session ← read (fun w => s3_session_id (e_config (w_enclave w)));
  _ ← of_outcome (lift_kp (validate_session request session));
  '(share_id, already_confirmed) ← of_outcome
    (validate_confirmation pending (signer_fingerprint signed) (cc_ceremony_artifacts_digest request));
  if already_confirmed : bool then of_outcome (pending_status pending)
  else
    let pending := record_confirmation share_id pending in
    _ ← set_state (with_pending_ceremony pending);
    status ← of_outcome (pending_status pending);
    if completed status then
      _ ← publish_pending_ceremony w1 w2;
      _ ← expect_ok (advance_lifecycle_into (Ceremony Completed));
      mret status
    else mret status.

(** ** A new set of key provisioners (rotate.rs) *)

#[export] Instance rotate_kp_set_intent : KpSigningIntent ProvisionerRotateKpSetRequest := {|
  KP_INTENT := 2;
  kp_to_bcs := rotate_kp_set_bcs;
  expected_session := rk_expected_session_id;
|}.

Definition rotate_request_new (session : SessionID) (deployment_hash : Hash)
    (share : GuardianEncryptedShare) (roster : KpCertRoster) (n t : Z)
    : outcome EnclaveError ProvisionerRotateKpSetRequest :=
  params ← lift_kp (lift_sharing (sharing_params_new n t));
  _ ← guard (Z.of_nat (num_kps roster) =? p_num_shares params)
        (InvalidRequestError (RosterSizeMismatch (p_num_shares params) (Z.of_nat (num_kps roster))));
  Ok (mkProvisionerRotateKpSetRequest session deployment_hash share roster params).

(** [BatchProvisionerRotateKpSetRequest::new] *)
Definition rotate_batch_new (submissions : list (KpSigned ProvisionerRotateKpSetRequest))
    : outcome EnclaveError (list (KpSigned ProvisionerRotateKpSetRequest)) :=
  match submissions with
  | [] => Err (InvalidRequestError EmptyRotation)
  | _ => Ok submissions
  end.

Record VerifiedShareSubmission := mkVerifiedShareSubmission {
  vs_signer_fingerprint : KPFingerprint;
  vs_encrypted_share : GuardianEncryptedShare;
}.

Record VerifiedRotationProposal := mkVerifiedRotationProposal {
  share_submissions : list VerifiedShareSubmission;
  vr_new_kp_certs_roster : KpCertRoster;
  vr_new_params : SecretSharingParams;
}.

Definition require_agreement {A} `{EqDecision A} (agreed : option A) (submitted : A)
    : outcome EnclaveError (option A) :=
  match agreed with
  | Some expected =>
      _ ← guard (bool_decide (expected = submitted)) (InvalidRequestError SubmissionsDisagree);
      Ok agreed
  | None => Ok (Some submitted)
  end.

(** The loop: the roster and the parameters agreed on so far and the verified shares. *)
Fixpoint verify_rotation_submissions (submissions : list (KpSigned ProvisionerRotateKpSetRequest))
    (session : SessionID) (deployment_config_hash : Hash) (agreed_roster : option KpCertRoster)
    (agreed_params : option SecretSharingParams) (verified : list VerifiedShareSubmission)
    : outcome EnclaveError VerifiedRotationProposal :=
  match submissions with
  | [] =>
      roster ← expect agreed_roster;
      params ← expect agreed_params;
      Ok (mkVerifiedRotationProposal verified roster params)
  | signed :: submissions =>
      submission ← lift_kp (kp_verify_signature signed);
      _ ← lift_kp (validate_session submission session);
      _ ← guard (bool_decide (expected_deployment_config_hash submission = deployment_config_hash))
            (InvalidRequestError DeploymentHashMismatch);
      agreed_roster ← require_agreement agreed_roster (new_kp_certs_roster submission);
      agreed_params ← require_agreement agreed_params (new_params submission);
      verify_rotation_submissions submissions session deployment_config_hash agreed_roster agreed_params
        (verified ++ [mkVerifiedShareSubmission (signer_fingerprint signed)
                        (encrypted_old_share submission)])
  end.

Definition authorize_share_submissions (submissions : list VerifiedShareSubmission)
    (old_kp_encrypted_shares : KpEncryptedShareRoster)
    : outcome EnclaveError (list GuardianEncryptedShare) :=
  mapM (fun s =>
    _ ← lift_kp (validate_share_assignment old_kp_encrypted_shares (vs_signer_fingerprint s)
                   (ge_id (vs_encrypted_share s)));
    Ok (vs_encrypted_share s)) submissions.

Record RotateKpSetResponse := mkRotateKpSetResponse {
  rr_encrypted_shares : KpEncryptedShareRoster;
  rr_new_instance : SecretSharingInstance;
}.

Definition finalize_rotation (w : Write) (random : list Scalar) (old_shares : list Share)
    (old_instance : SecretSharingInstance) (expected_btc_master_pubkey : BtcPubkey)
    (roster : KpCertRoster) (params : SecretSharingParams) (new_sharing_seq : Z)
    : handler RotateKpSetResponse :=
  k256_sk ← expect_ok (of_outcome
    (lift_kp (lift_sharing (combine_shares old_shares (threshold old_instance)))));
  let btc_master_pubkey := x_only_public_key (btc_keypair_of k256_sk) in
  _ ← ensure (bool_decide (btc_master_pubkey = expected_btc_master_pubkey))
        (InvalidRequestError (BtcPubkeyMismatch btc_master_pubkey expected_btc_master_pubkey));
  '(encrypted_shares, commitments) ← of_outcome
    (lift_kp (split_and_encrypt_for_kps k256_sk roster params random));
  new_instance ← of_outcome (lift_kp (lift_sharing
    (instance_new commitments (p_num_shares params) (p_threshold params) new_sharing_seq)));
  let p := mkCeremonyProposalLogMessage (Rotate old_instance new_instance btc_master_pubkey)
             encrypted_shares in
  _ ← write_log w (LCeremonyProposal p);
  d ← get_deployment;
  _ ← install_pending_ceremony d p;
  mret (mkRotateKpSetResponse encrypted_shares new_instance).

Definition complete_rotation (w : Write) (random : list Scalar) (p : VerifiedRotationProposal)
    (latest_s3_state : CeremonyState) (new_sharing_seq : Z) : handler RotateKpSetResponse :=
  let old_instance := cs_instance latest_s3_state in
  encrypted_old_shares ← of_outcome
    (authorize_share_submissions (share_submissions p) (cs_encrypted_shares latest_s3_state));
  sk ← read (fun w => encryption_secret_key (e_config (w_enclave w)));
  old_shares ← of_outcome (lift_kp (decrypt_verify_shares encrypted_old_shares sk old_instance));
  response ← finalize_rotation w random old_shares old_instance (cs_btc_master_pubkey latest_s3_state)
               (vr_new_kp_certs_roster p) (vr_new_params p) new_sharing_seq;
  _ ← expect_ok (advance_lifecycle_into (Ceremony AwaitingKeyProvisionerConfirmations));
  mret response.

Definition rotate_kp_set (random : list Scalar) (w : Write)
    (submissions : list (KpSigned ProvisionerRotateKpSetRequest)) : handler RotateKpSetResponse :=
  _ ← require_lifecycle (Some (Ceremony CeremonyInitialized));
  d ← get_deployment;
  session ← read (fun w => s3_session_id (e_config (w_enclave w)));
  p ← of_outcome (verify_rotation_submissions submissions session (deployment_digest d) None None []);
  s3 ← reader_log;
  latest_s3_state ← of_outcome (read_latest_ceremony_state s3);
  new_sharing_seq ← of_outcome (next_sharing_seq s3);
  complete_rotation w random p latest_s3_state new_sharing_seq.

(** ** A new certificate of a key provisioner (provisioner_rotate_cert.rs) *)

#[export] Instance rotate_cert_intent : KpSigningIntent ProvisionerRotateCertRequest := {|
  KP_INTENT := 1;
  kp_to_bcs := rotate_cert_bcs;
  expected_session := rc_expected_session_id;
|}.

Record ProvisionerRotateCertResponse := mkProvisionerRotateCertResponse {
  rc_cert_seq : Z;
  rc_changed_share : KpEncryptedShare;
}.

Definition apply_cert_rotation (w : Write) (fingerprint : KPFingerprint)
    (request : ProvisionerRotateCertRequest) (latest : CeremonyState)
    : handler ProvisionerRotateCertResponse :=
  let share_id := ge_id (rc_encrypted_share request) in
  keypair ← get_or (fun e => enclave_btc_keypair (e_config e))
              (InvalidRequestError BitcoinKeyUninitialized);
  let pubkey := x_only_public_key keypair in
  _ ← ensure (bool_decide (cs_btc_master_pubkey latest = pubkey))
        (InvalidRequestError (BtcPubkeyMismatch pubkey (cs_btc_master_pubkey latest)));
  _ ← ensure (cs_cert_seq latest =? expected_cert_seq request)
        (InvalidRequestError (CertSeqMismatch (expected_cert_seq request) (cs_cert_seq latest)));
  _ ← of_outcome (lift_kp (validate_share_assignment (cs_encrypted_shares latest) fingerprint share_id));
  _ ← ensure (cs_cert_seq latest <? u64_max) (InvalidRequestError CertSeqOverflow);
  let next_cert_seq := cs_cert_seq latest + 1 in
  sk ← read (fun w => encryption_secret_key (e_config (w_enclave w)));
  share ← of_outcome (lift_kp (decrypt_share (rc_encrypted_share request) sk));
  _ ← of_outcome (lift_kp (lift_sharing (verify_share (commitments (cs_instance latest)) share)));
  '(encrypted_shares, changed_entry) ← of_outcome
    (lift_kp (replace_recipient (cs_encrypted_shares latest) fingerprint
                (cert_fingerprint (new_kp_pgp_cert request))
                (encrypt_share_for_provisioner (sh_value share) (new_kp_pgp_cert request))));
  _ ← write_log w (LKpShareState (mkKpShareStateLogMessage (sharing_seq (cs_instance latest))
                                    next_cert_seq encrypted_shares));
  mret (mkProvisionerRotateCertResponse next_cert_seq changed_entry).

Definition provisioner_rotate_cert (w : Write) (signed_request : KpSigned ProvisionerRotateCertRequest)
    : handler ProvisionerRotateCertResponse :=
  _ ← require_fully_initialized;
  request ← of_outcome (lift_kp (kp_verify_signature signed_request));
  session ← read (fun w => s3_session_id (e_config (w_enclave w)));
  _ ← of_outcome (lift_kp (validate_session request session));
  s3 ← reader_log;
  latest_state ← of_outcome (read_latest_ceremony_state s3);
  apply_cert_rotation w (signer_fingerprint signed_request) request latest_state.
End guardian.
