(* ===== verification/GuardianProofs.v ===== *)
(** * The guardian enclave: the serving session

    What the log of a serving guardian says, that the limiter and the committee are recovered
    from it exactly, and what each serving handler does, case by case. *)

From S2P Require Import MonitorDomain TxUtxos Limiter Bitmap Committee CommitteeProofs SecretSharing KpShares Guardian Prelude.

Section guardian.
Context `{GC : GuardianCrypto}.

(** ** What the log says *)

Definition log_entries (s3 : list LogRecord) : list GuardianWithdrawalLog := (withdrawals s3).*2.

(** What leaves the bridge by a logged request: its inputs less its change. *)
Definition wire_outflow (u : UncheckedUTXOs) : Z :=
  zsum (iu_amount <$> uu_inputs u)
  - zsum (omap (fun o => match o with Internal _ amount => Some amount | External _ _ => None end)
            (uu_outputs u)).

Definition log_request (e : GuardianWithdrawalLog) : Request :=
  mkRequest (rw_seq (gl_request_data e)) (rw_timestamp_secs (gl_request_data e))
    (wire_outflow (rw_utxos (gl_request_data e))).

(** The limiter's state after the last logged withdrawal. *)
Definition log_state (cfg : LimiterConfig) (s3 : list LogRecord) : LimiterState :=
  from_option gl_post_state (genesis cfg) (last (log_entries s3)).

Lemma withdrawals_app s3 r :
  withdrawals (s3 ++ [r]) = withdrawals s3 ++ option_list (withdrawal_of r).
Proof. unfold withdrawals. rewrite omap_app. f_equal. Qed.

(** The clocks of two sessions differ by less than an hour: a record is filed at most one
    directory before any record that precedes it. *)
Definition skew_bounded (dirs : list HourDir) : Prop :=
  Forall (fun d => 0 <= d) dirs
  /\ forall i j d e, dirs !! i = Some d -> dirs !! j = Some e -> (i < j)%nat -> d <= e + 1.

Record log_ok (cfg : LimiterConfig) (s3 : list LogRecord) : Prop := {
  lo_skew : skew_bounded (withdrawals s3).*1;
  lo_seqs i e : log_entries s3 !! i = Some e -> next_seq (gl_post_state e) = Z.of_nat i + 1;
  lo_chain : chain (mkRateLimiter cfg (genesis cfg)) (log_request <$> log_entries s3)
               (mkRateLimiter cfg (log_state cfg s3));
  lo_wf : Forall wf_request (log_request <$> log_entries s3);
  lo_few : Z.of_nat (length (log_entries s3)) <= u64_max;
}.

(** ** Recovery *)

Section recovery.
Context (cfg : LimiterConfig) (s3 : list LogRecord).
Hypothesis cfg_wf : wf_config cfg.
Hypothesis s3_ok : log_ok cfg s3.

Lemma genesis_wf : wf_bucket (mkRateLimiter cfg (genesis cfg)).
Proof.
  split; [done|]. destruct cfg_wf as [_ ?]. unfold wf_state. cbn. split_and!; try done; u64_lia.
Qed.

Lemma log_state_wf : wf_state cfg (log_state cfg s3).
Proof.
  destruct (chain_budget _ _ _ genesis_wf (lo_wf _ _ s3_ok) (lo_chain _ _ s3_ok)) as (Hwf & _).
  apply Hwf.
Qed.

(** A logged state whose number is that of the last one is the last one. *)
Lemma last_state_unique e :
  e ∈ log_entries s3 ->
  (forall l, last (log_entries s3) = Some l ->
             next_seq (gl_post_state l) <= next_seq (gl_post_state e)) ->
  gl_post_state e = log_state cfg s3.
Proof.
  intros (i & Hi)%list_elem_of_lookup Hmax. unfold log_state.
  destruct (last (log_entries s3)) as [l|] eqn:Hl.
  2:{ apply last_None in Hl. by rewrite Hl in Hi. }
  specialize (Hmax l eq_refl). rewrite last_lookup in Hl.
  rewrite (lo_seqs _ _ s3_ok _ _ Hi), (lo_seqs _ _ s3_ok _ _ Hl) in Hmax.
  apply lookup_lt_Some in Hi as Hlt. cbn.
  assert (i = pred (length (log_entries s3))) as -> by lia. congruence.
Qed.

Lemma elem_of_dir e d :
  e ∈ read_logs_in_dir s3 d <-> (d, e) ∈ withdrawals s3.
Proof.
  unfold read_logs_in_dir. rewrite list_elem_of_fmap. split.
  - intros ([d' e'] & -> & [Hd Hin]%list_elem_of_filter). cbn in *. by subst.
  - intros Hin. exists (d, e). split; [done|]. by apply list_elem_of_filter.
Qed.

(** The latest directory: every withdrawal is filed at or before it. *)
Lemma latest_bucket_spec :
  match find_latest_withdrawal_bucket s3 with
  | Some d => d ∈ (withdrawals s3).*1 /\ forall d', d' ∈ (withdrawals s3).*1 -> d' <= d
  | None => withdrawals s3 = []
  end.
Proof.
  unfold find_latest_withdrawal_bucket. set (ds := (withdrawals s3).*1).
  assert (StronglySorted (le_of (fun a b => b <=? a)) (sort_by (fun a b => b <=? a) ds)) as Hs.
  { apply sort_by_sorted; intros; rewrite ?Z.leb_le in *; lia. }
  pose proof (fun x => elem_of_sort_by (fun a b : Z => b <=? a) x ds) as Hin.
  destruct (sort_by _ ds) as [|d rest] eqn:E; cbn.
  { destruct (withdrawals s3) as [|e l]; [done|]. exfalso.
    apply (not_elem_of_nil e.1). apply Hin. left. }
  assert (d ∈ ds) as Hd by (apply Hin; left).
  rewrite bool_decide_false.
  - cbn. split; [done|]. intros d' [->|Hd']%Hin%elem_of_cons; [done|].
    inversion Hs as [|? ? _ Hall]; subst. eapply Forall_forall in Hall; [|exact Hd'].
    by apply Z.leb_le in Hall.
  - apply list_elem_of_fmap in Hd as ([d' e] & -> & He). cbn.
    intros Hlen%nil_length_inv. apply elem_of_dir in He. rewrite Hlen in He.
    by apply elem_of_nil in He.
Qed.

(** The last withdrawal is in the latest directory or in the one before it. *)
Lemma last_in_window d h l :
  find_latest_withdrawal_bucket s3 = Some d -> last (withdrawals s3) = Some (h, l) ->
  h = d \/ h = prev_dir d.
Proof.
  intros Hd Hl. pose proof latest_bucket_spec as Hspec. rewrite Hd in Hspec.
  destruct Hspec as [Hin Hmax]. destruct (lo_skew _ _ s3_ok) as [Hnn Hskew].
  rewrite last_lookup in Hl. assert ((withdrawals s3).*1 !! pred (length (withdrawals s3)) = Some h) as Hh
    by (rewrite list_lookup_fmap, Hl; done).
  assert (h <= d) by (apply Hmax; by eapply list_elem_of_lookup_2).
  assert (0 <= h) by (by eapply Forall_lookup in Hnn).
  apply list_elem_of_lookup in Hin as [i Hi]. apply lookup_lt_Some in Hi as Hlt.
  rewrite length_fmap in Hlt.
  destruct (decide (i = pred (length (withdrawals s3)))) as [->|Hne]; [left; congruence|].
  assert (d <= h + 1) by (eapply Hskew; [exact Hi|exact Hh|lia]).
  unfold prev_dir. lia.
Qed.

Lemma bucket_max_spec d :
  match bucket_max_post_state (read_logs_in_dir s3 d) with
  | Some m => (exists e, e ∈ log_entries s3 /\ m = gl_post_state e)
      /\ forall e, (d, e) ∈ withdrawals s3 -> next_seq (gl_post_state e) <= next_seq m
  | None => forall e, (d, e) ∉ withdrawals s3
  end.
Proof.
  unfold bucket_max_post_state.
  pose proof (max_by_key_spec next_seq (gl_post_state <$> read_logs_in_dir s3 d)) as Hm.
  destruct (max_by_key _ _) as [m|].
  - destruct Hm as [(e & -> & He)%list_elem_of_fmap Hall]. split.
    + exists e. split; [|done]. apply elem_of_dir in He. unfold log_entries.
      apply (list_elem_of_fmap_2 snd) in He. exact He.
    + intros e' He'. apply Hall, list_elem_of_fmap_2, elem_of_dir, He'.
  - intros e He%elem_of_dir. apply fmap_nil_inv in Hm. rewrite Hm in He. by apply elem_of_nil in He.
Qed.

Lemma capped_log_state : capped_to (log_state cfg s3) cfg = log_state cfg s3.
Proof.
  pose proof log_state_wf as (_ & _ & _ & Hle). unfold capped_to. rewrite Z.min_l by done.
  by destruct (log_state cfg s3).
Qed.

Lemma recover_log_state : recover_limiter_state s3 cfg = Ok (log_state cfg s3).
Proof.
  unfold recover_limiter_state. pose proof latest_bucket_spec as Hb.
  destruct (find_latest_withdrawal_bucket s3) as [d|] eqn:Hd.
  2:{ unfold log_state, log_entries. by rewrite Hb. }
  destruct Hb as [Hin _].
  destruct (last (withdrawals s3)) as [[h l]|] eqn:Hl.
  2:{ apply last_None in Hl. rewrite Hl in Hin. by apply elem_of_nil in Hin. }
  pose proof (last_in_window d h l Hd Hl) as Hwin.
  assert ((h, l) ∈ withdrawals s3) as Hlin.
  { rewrite last_lookup in Hl. by eapply list_elem_of_lookup_2. }
  assert (last (log_entries s3) = Some l) as Hlast.
  { unfold log_entries. by rewrite fmap_last, Hl. }
  pose proof (bucket_max_spec d) as Hhit. pose proof (bucket_max_spec (prev_dir d)) as Hpeek.
  set (hit := bucket_max_post_state (read_logs_in_dir s3 d)) in *.
  set (peek := bucket_max_post_state (read_logs_in_dir s3 (prev_dir d))) in *.
  pose proof (max_by_key_spec next_seq (omap id [hit; peek])) as Hm.
  destruct (max_by_key _ _) as [r|].
  - destruct Hm as [Hr Hall]. rewrite <- capped_log_state. do 2 f_equal.
    assert (exists e, e ∈ log_entries s3 /\ r = gl_post_state e) as (e & He & ->).
    { apply list_elem_of_omap in Hr as (o & [->|[->|[]%elem_of_nil]%elem_of_cons]%elem_of_cons & Ho);
        cbn in Ho; [rewrite Ho in Hhit; apply Hhit|rewrite Ho in Hpeek; apply Hpeek]. }
    apply last_state_unique; [done|]. intros l' Hl'. assert (l' = l) as -> by congruence.
    destruct Hwin as [->| ->].
    + destruct hit as [m|]; [|by apply Hhit in Hlin]. etrans; [by apply Hhit|].
      apply Hall, list_elem_of_omap. exists (Some m). split; [left|done].
    + destruct peek as [m|]; [|by apply Hpeek in Hlin]. etrans; [by apply Hpeek|].
      apply Hall, list_elem_of_omap. exists (Some m). split; [right; left|done].
  - exfalso. destruct Hwin as [->| ->].
    + destruct hit; [done|]. by apply Hhit in Hlin.
    + destruct peek; [by destruct hit|]. by apply Hpeek in Hlin.
Qed.
End recovery.

(** ** Sessions

    A session is armed by the operator and the key provisioners, is activated from the log,
    and serves until its process dies; a dead process serves nothing. *)

Abbreviation handler := (M World EnclaveError).

Record armed_config (cfg : LimiterConfig) (hid : Address) (c : EnclaveConfig) : Prop := {
  ac_logger : s3_logger c = Some tt;
  ac_keypair : is_Some (enclave_btc_keypair c);
  ac_deployment : is_Some (deployment c);
  ac_master : is_Some (hashi_btc_master_pubkey c);
  ac_limiter : limiter_config c = Some cfg;
  ac_hashi_id : hashi_object_id c = Some hid;
}.

(** What operator and provisioner initialization leave. *)
Record standby (cfg : LimiterConfig) (hid : Address) (e : Enclave) : Prop := {
  sb_config : armed_config cfg hid (e_config e);
  sb_lifecycle : lifecycle (e_state e) = Some (Withdraw ProvisionerInitialized);
  sb_committee : committee (e_state e) = None;
  sb_limiter : rate_limiter (e_state e) = None;
  sb_temporary : is_Some (temporary_init_state (e_state e));
}.

(** The committee a handover record installs was certified by the one before it. *)
Record certified (hid : Address) (outgoing : MoveCommittee) (u : CommitteeUpdateLogMessage) : Prop := {
  ce_epoch : from_epoch u = mc_epoch outgoing;
  ce_newer : mc_epoch outgoing < mc_epoch (cu_new_committee u);
  ce_valid : is_Some (from_move_with_encryption_key_fallback (cu_new_committee u));
  ce_cert : exists c (m : SignedMessage CommitteeTransitionRequest),
    from_move_with_encryption_key_fallback outgoing = Some c
    /\ new_committee (sm_message m) = cu_new_committee u
    /\ sm_signature m = cu_request_sign u
    /\ verify_signature_and_weight c hid m (certificate_threshold (total_weight c)) = Ok tt;
}.

Definition handover_records (s3 : list LogRecord) : list CommitteeUpdateLogMessage :=
  omap (fun r => match record_message r with LCommitteeUpdate m => Some m | _ => None end) s3.

Definition latest_of (g : MoveCommittee) (us : list CommitteeUpdateLogMessage) : MoveCommittee :=
  from_option cu_new_committee g (last us).

(** From the committee [g], each handover is certified by the committee it replaces. *)
Fixpoint handovers (hid : Address) (g : MoveCommittee) (us : list CommitteeUpdateLogMessage) : Prop :=
  match us with
  | [] => True
  | u :: us => certified hid g u /\ handovers hid (cu_new_committee u) us
  end.

Lemma latest_of_cons g u us : latest_of g (u :: us) = latest_of (cu_new_committee u) us.
Proof. unfold latest_of. rewrite last_cons. by destruct (last us). Qed.

Lemma latest_of_snoc g us u : latest_of g (us ++ [u]) = cu_new_committee u.
Proof. unfold latest_of. by rewrite last_snoc. Qed.

Lemma handovers_snoc hid us u : forall g,
  handovers hid g (us ++ [u]) <-> handovers hid g us /\ certified hid (latest_of g us) u.
Proof.
  induction us as [|v us IH]; intros g; cbn.
  - unfold latest_of. cbn. tauto.
  - rewrite IH, latest_of_cons. tauto.
Qed.

(** The committee before the updates is the oldest, and the last one the newest. *)
Lemma handovers_epochs hid us : forall g,
  handovers hid g us ->
  mc_epoch g <= mc_epoch (latest_of g us)
  /\ forall u, u ∈ us -> mc_epoch (cu_new_committee u) <= mc_epoch (latest_of g us).
Proof.
  induction us as [|v us IH]; intros g H.
  { split; [unfold latest_of; cbn; lia|by intros u ?%elem_of_nil]. }
  destruct H as [[_ Hlt _ _] H]. destruct (IH _ H) as [Hg Hall]. rewrite latest_of_cons. split; [lia|].
  intros u [->|Hu]%elem_of_cons; [done|by apply Hall].
Qed.

Lemma committee_updates_records s3 : committee_updates s3 = cu_new_committee <$> handover_records s3.
Proof.
  unfold committee_updates, handover_records. induction s3 as [|[d m] s3 IH]; [done|].
  cbn. destruct m; cbn; rewrite ?IH; done.
Qed.

(** What the log says of committees: a genesis record and certified handovers. *)
Record committees_ok (hid : Address) (g : MoveCommittee) (s3 : list LogRecord) : Prop := {
  co_genesis : gn_committee <$> read_genesis s3 = Some g;
  co_valid : is_Some (from_move_with_encryption_key_fallback g);
  co_handovers : handovers hid g (handover_records s3);
}.

(** The reader finds the committee of the last handover. *)
Lemma read_latest_committee_last hid g s3 :
  committees_ok hid g s3 -> read_latest_committee s3 = Some (latest_of g (handover_records s3)).
Proof.
  intros [Hg _ Hh]. unfold read_latest_committee, read_latest_committee_update.
  rewrite committee_updates_records. destruct (handover_records s3) as [|u us _] using rev_ind;
    [by cbn|].
  rewrite fmap_app, latest_of_snoc. cbn [fmap list_fmap]. rewrite max_by_key_snoc; [done|].
  intros y (v & -> & Hv)%list_elem_of_fmap. apply handovers_snoc in Hh as [Hh [_ Hlt _ _]].
  destruct (handovers_epochs _ _ _ Hh) as [_ Hall]. apply Hall in Hv. lia.
Qed.

Lemma latest_valid hid us : forall g,
  is_Some (from_move_with_encryption_key_fallback g) -> handovers hid g us ->
  is_Some (from_move_with_encryption_key_fallback (latest_of g us)).
Proof.
  induction us as [|u us IH]; intros g Hg; [by unfold latest_of|].
  intros [[_ _ Hv _] H]. rewrite latest_of_cons. by apply IH.
Qed.

Record serving (cfg : LimiterConfig) (hid : Address) (g : MoveCommittee) (e : Enclave)
    (s3 : list LogRecord) (c : Committee) : Prop := {
  sv_config : armed_config cfg hid (e_config e);
  sv_lifecycle : lifecycle (e_state e) = Some (Withdraw Activated);
  sv_committee : committee (e_state e) = Some c;
  sv_limiter : rate_limiter (e_state e) = Some (mkRateLimiter cfg (log_state cfg s3));
  sv_stored : from_move_with_encryption_key_fallback (latest_of g (handover_records s3)) = Some c;
}.

Lemma from_move_wf mc c :
  from_move_with_encryption_key_fallback mc = Some c ->
  committee_wf c /\ c_epoch c = mc_epoch mc.
Proof.
  unfold from_move_with_encryption_key_fallback, committee_try_from. cbn.
  destruct (mapM member_try_from _) as [ms|]; [|done]. by intros [= <-].
Qed.

Lemma require_lifecycle_ok w l :
  lifecycle (e_state (w_enclave w)) = l -> require_lifecycle l w = (Ok tt, w).
Proof.
  intros Hl. unfold require_lifecycle, mbind, M_bind, read. rewrite Hl.
  unfold ensure, of_outcome. by rewrite bool_decide_true.
Qed.

(** A session that does not serve refuses what a serving session answers. *)
Lemma require_lifecycle_err w l :
  lifecycle (e_state (w_enclave w)) <> l -> exists e, require_lifecycle l w = (Err e, w).
Proof.
  intros Hl. unfold require_lifecycle, mbind, M_bind, read, ensure, of_outcome.
  rewrite bool_decide_false by done. by eexists.
Qed.

Lemma get_or_some {A} (f : Enclave -> option A) err a w :
  f (w_enclave w) = Some a -> get_or f err w = (Ok a, w).
Proof. intros H. unfold get_or. by rewrite H. Qed.

(** A limiter that is put back changes nothing. *)
Lemma with_same_limiter l s : rate_limiter s = Some l -> with_rate_limiter l s = s.
Proof. destruct s. cbn. by intros ->. Qed.

Lemma set_same_limiter l w :
  rate_limiter (e_state (w_enclave w)) = Some l ->
  mkWorld (mkEnclave (e_config (w_enclave w)) (with_rate_limiter l (e_state (w_enclave w)))) (w_s3 w)
  = w.
Proof. intros H. rewrite with_same_limiter by done. by destruct w as [[] ]. Qed.

Lemma consume_from_limiter_cases w l seq ts amount :
  rate_limiter (e_state (w_enclave w)) = Some l ->
  match consume l seq ts amount with
  | (inl e, _) => consume_from_limiter seq ts amount w = (Err (LimiterError e), w)
  | (inr _, l') => consume_from_limiter seq ts amount w
      = (Ok (rl_state l'), mkWorld (mkEnclave (e_config (w_enclave w))
                                      (with_rate_limiter l' (e_state (w_enclave w)))) (w_s3 w))
  end.
Proof.
  intros Hl. unfold consume_from_limiter.
  erewrite M_bind_eval by (apply get_or_some; exact Hl).
  destruct (consume l seq ts amount) as [r l'] eqn:E.
  erewrite M_bind_eval by reflexivity. destruct r as [e|[]]; [|done].
  pose proof (consume_rejected (S:=RateLimiter) l seq ts amount l') as Hrej. cbn in Hrej.
  rewrite E in Hrej. cbn in Hrej. rewrite (Hrej eq_refl). unfold throw, of_outcome.
  by rewrite (set_same_limiter l).
Qed.

(** The request a wire request and its certificate stand for. *)
Lemma validate_addr_Ok req network m :
  validate_addr req network = Ok m ->
  exists utxos agg, TxUTXOs_new (uu_inputs (rw_utxos (sw_data req)))
                      (uu_outputs (rw_utxos (sw_data req))) network = Ok utxos
    /\ sm_message m = mkStandardWithdrawalRequest (rw_wid (sw_data req)) utxos
                        (rw_timestamp_secs (sw_data req)) (rw_seq (sw_data req))
    /\ sm_signature m = mkCommitteeSignature (sw_epoch req) agg (sw_signers_bitmap req).
Proof.
  unfold validate_addr, signed_message_new. cbn zeta.
  destruct (TxUTXOs_new _ _ _) as [utxos| |]; [|done..].
  destruct (aggregate_from_bytes _) as [agg|]; [|done]. intros [= <-]. eauto.
Qed.

(** The fields of a wire request are unsigned integers. *)
Record wire_ok (r : StandardWithdrawalRequestWire) : Prop := {
  wo_inputs : Forall (fun x => 0 <= x) (iu_amount <$> uu_inputs (rw_utxos r));
  wo_outputs : Forall (fun x => 0 <= x) (output_amount <$> uu_outputs (rw_utxos r));
  wo_timestamp : is_u64 (rw_timestamp_secs r);
}.

Lemma into_wire_outflow t :
  wire_outflow (into_wire t)
  = zsum (iu_amount <$> tu_inputs t) - zsum (internal_amounts (tu_outputs t)).
Proof.
  unfold wire_outflow. cbn [uu_inputs uu_outputs into_wire]. f_equal. f_equal.
  unfold internal_amounts. induction (tu_outputs t) as [|[a n|q n] l IH]; [done|..];
    cbn [fmap list_fmap omap list_omap output_into_unchecked]; [exact IH|]. by rewrite <- IH.
Qed.

Lemma gated_outflow {E} t :
  gated t -> gross_outflow_amount (E:=E) t = Ok (wire_outflow (into_wire t))
             /\ is_u64 (wire_outflow (into_wire t)).
Proof.
  intros Hg. rewrite into_wire_outflow.
  destruct (gross_outflow_gated (E:=E) t Hg) as [-> Hext].
  destruct Hg as [_ [_ Ho] Hmax Hfee]. pose proof (outputs_split (tu_outputs t)).
  assert (0 <= zsum (internal_amounts (tu_outputs t))).
  { apply zsum_nonneg, amounts_nonneg; [|done]. by intros [] ? [= ->]. }
  split; [f_equal; lia|]. u64_lia.
Qed.

(** ** A withdrawal *)

(** The signatures of an entry are the enclave's on the transaction of its request. *)
Definition enclave_signed (ec : EnclaveConfig) (utxos : TxUTXOs) (txid : Txid)
    (response : StandardWithdrawalResponse) : Prop :=
  exists kp master, enclave_btc_keypair ec = Some kp /\ hashi_btc_master_pubkey ec = Some master
    /\ let (messages, id) := signing_messages_and_txid utxos (x_only_public_key kp) master in
       txid = id /\ response = mkStandardWithdrawalResponse (sign_btc_tx messages kp).

(** What was checked before the guardian signed [entry] with committee [c] at time [now]. *)
Record authorized (cfg : LimiterConfig) (hid : Address) (ec : EnclaveConfig) (c : Committee)
    (s3 : list LogRecord) (now : UnixSeconds) (entry : GuardianWithdrawalLog) : Prop := {
  au_cert : exists m : SignedMessage StandardWithdrawalRequest,
    request_into_wire (sm_message m) = gl_request_data entry
    /\ sm_signature m = gl_request_sign entry
    /\ enclave_signed ec (wr_utxos (sm_message m)) (gl_txid entry) (gl_response entry)
    /\ verify_signature_and_weight c hid m (certificate_threshold (total_weight c)) = Ok tt;
  au_time : validate_request_timestamp (rw_timestamp_secs (gl_request_data entry)) now = Ok tt;
  au_consumed : bucket_consume (mkRateLimiter cfg (log_state cfg s3)) (r_seq (log_request entry))
      (r_ts (log_request entry)) (r_amount (log_request entry))
    = (true, mkRateLimiter cfg (gl_post_state entry));
  au_wf : wf_request (log_request entry);
}.

Lemma consume_config l seq ts amount r l' : consume l seq ts amount = (r, l') -> rl_config l' = rl_config l.
Proof. unfold consume. intros H. split_tests; by injection H as <- <-. Qed.

Lemma write_log_armed w wr message :
  s3_logger (e_config (w_enclave w)) = Some tt ->
  write_log wr message w = write_record wr message w.
Proof.
  intros Hc. unfold write_log. by erewrite M_bind_eval by (apply get_or_some; apply Hc).
Qed.

Lemma btc_sign_armed cfg hid w utxos :
  armed_config cfg hid (e_config (w_enclave w)) ->
  exists txid sigs, expect_ok (btc_sign utxos) w = (Ok (txid, sigs), w)
    /\ enclave_signed (e_config (w_enclave w)) utxos txid (mkStandardWithdrawalResponse sigs).
Proof.
  intros [_ [kp Hk] _ [g Hg] _ _]. unfold expect_ok, btc_sign.
  erewrite M_bind_eval by (apply get_or_some; exact Hk).
  erewrite M_bind_eval by (apply get_or_some; exact Hg).
  destruct (signing_messages_and_txid _ _ _) as [ms txid] eqn:E. do 2 eexists. split; [done|].
  exists kp, g. by rewrite E.
Qed.

(** What a write leaves behind. *)
Definition after_write (wr : Write) (message : LogMessage) (s3 s3' : list LogRecord) : Prop :=
  match write_fate wr with
  | AbortedUnwritten => s3' = s3
  | _ => s3' = s3 ++ [mkLogRecord (write_dir wr) message]
  end.

Lemma verify_cert_cases {T} `{IntentMessage T} hid c (m : SignedMessage T) :
  (verify_signature_and_weight c hid m (certificate_threshold (total_weight c)) = Ok tt
   /\ verify_hashi_cert hid c m = Ok tt)
  \/ exists e, verify_hashi_cert hid c m = Err e.
Proof.
  unfold verify_hashi_cert.
  pose proof (verify_weight_no_panic c hid m (certificate_threshold (total_weight c))).
  destruct (verify_signature_and_weight _ _ _ _) as [[]| |]; eauto. done.
Qed.

Lemma timestamp_cases ts now :
  validate_request_timestamp ts now = Ok tt \/ exists e, validate_request_timestamp ts now = Err e.
Proof.
  unfold validate_request_timestamp, guard.
  destruct (wadd now MAX_CLOCK_SKEW_SECS <? ts); cbn [negb mbind outcome_bind]; [eauto|].
  destruct (MAX_REQUEST_AGE_SECS <? sat_sub now ts); cbn [negb]; eauto.
Qed.

Lemma validate_addr_no_panic req network : validate_addr req network <> Panic.
Proof.
  unfold validate_addr, signed_message_new. cbn zeta.
  destruct (TxUTXOs_new _ _ _) as [utxos| |] eqn:E; [|done|].
  - by destruct (aggregate_from_bytes _).
  - exfalso. by eapply TxUTXOs_new_no_panic.
Qed.

(** A write of an initialized session. *)
Lemma write_cases w wr message :
  s3_logger (e_config (w_enclave w)) = Some tt ->
  exists w', write_log wr message w = (match write_fate wr with Written => Ok tt | _ => Panic end, w')
    /\ after_write wr message (w_s3 w) (w_s3 w')
    /\ w_enclave w' = w_enclave w.
Proof.
  intros Hc. unfold after_write. rewrite (write_log_armed _ _ _ Hc).
  unfold write_record. destruct (write_fate wr); eauto.
Qed.

Lemma expect_write_cases w wr message :
  s3_logger (e_config (w_enclave w)) = Some tt ->
  exists w', expect_ok (write_log wr message) w
             = (match write_fate wr with Written => Ok tt | _ => Panic end, w')
    /\ after_write wr message (w_s3 w) (w_s3 w')
    /\ w_enclave w' = w_enclave w.
Proof.
  intros Hc. destruct (write_cases w wr message Hc) as (w' & Hw & ? & ?). exists w'.
  unfold expect_ok. rewrite Hw. by destruct (write_fate wr).
Qed.

(** The end of the handler: nothing after the consume fails but the write. *)
Definition withdrawal_commit (wr : Write) (m : SignedMessage StandardWithdrawalRequest)
    (post_state : LimiterState) : handler StandardWithdrawalResponse :=
  '(txid, signatures) ← expect_ok (btc_sign (wr_utxos (sm_message m)));
  _ ← expect_ok (write_log wr (LWithdrawal
        (mkGuardianWithdrawalLog txid (request_into_wire (sm_message m)) (sm_signature m)
           (mkStandardWithdrawalResponse signatures) post_state)));
  mret (mkStandardWithdrawalResponse signatures).

Lemma withdrawal_commit_cases cfg hid w wr m post_state r w' :
  armed_config cfg hid (e_config (w_enclave w)) ->
  withdrawal_commit wr m post_state w = (r, w') ->
  exists txid response,
    let entry := mkGuardianWithdrawalLog txid (request_into_wire (sm_message m)) (sm_signature m)
                   response post_state in
    enclave_signed (e_config (w_enclave w)) (wr_utxos (sm_message m)) txid response
    /\ after_write wr (LWithdrawal entry) (w_s3 w) (w_s3 w')
    /\ match write_fate wr with
       | Written => r = Ok response /\ w_enclave w' = w_enclave w
       | _ => r = Panic
       end.
Proof.
  intros Hc H. unfold withdrawal_commit in H.
  destruct (btc_sign_armed cfg hid w (wr_utxos (sm_message m)) Hc) as (txid & sigs & Hsign & Hby).
  erewrite M_bind_eval in H by exact Hsign. cbn beta iota zeta in H.
  exists txid, (mkStandardWithdrawalResponse sigs). cbn zeta. split; [done|].
  set (entry := mkGuardianWithdrawalLog _ _ _ _ _) in *.
  destruct (expect_write_cases w wr (LWithdrawal entry) (ac_logger _ _ _ Hc)) as (w2 & Hwrite & Hs3 & Hen).
  destruct (write_fate wr) eqn:Hf;
    [erewrite M_bind_eval in H by exact Hwrite|erewrite M_bind_panic in H by exact Hwrite..];
    by injection H as <- <-.
Qed.

(** What a request passed when the handler reaches its end with limiter [l']. *)
Record admitted (cfg : LimiterConfig) (hid : Address) (c : Committee) (s3 : list LogRecord)
    (now : UnixSeconds) (m : SignedMessage StandardWithdrawalRequest) (l' : RateLimiter) : Prop := {
  ad_cert : verify_signature_and_weight c hid m (certificate_threshold (total_weight c)) = Ok tt;
  ad_time : validate_request_timestamp (wr_timestamp_secs (sm_message m)) now = Ok tt;
  ad_gated : gated (wr_utxos (sm_message m));
  ad_ts : is_u64 (wr_timestamp_secs (sm_message m));
  ad_consume : consume (mkRateLimiter cfg (log_state cfg s3)) (wr_seq (sm_message m))
      (wr_timestamp_secs (sm_message m)) (wire_outflow (into_wire (wr_utxos (sm_message m))))
    = (inr tt, l');
}.

Definition with_limiter (l : RateLimiter) (e : Enclave) : Enclave :=
  mkEnclave (e_config e) (with_rate_limiter l (e_state e)).

Lemma withdrawal_admission cfg hid g c w now wr req :
  serving cfg hid g (w_enclave w) (w_s3 w) c -> wire_ok (sw_data req) ->
  (exists e, standard_withdrawal now wr req w = (Err e, w))
  \/ exists m l', admitted cfg hid c (w_s3 w) now m l'
       /\ standard_withdrawal now wr req w
          = withdrawal_commit wr m (rl_state l')
              (mkWorld (with_limiter l' (w_enclave w)) (w_s3 w)).
Proof.
  intros Hsv Hwire. unfold standard_withdrawal, bitcoin_network.
  destruct (ac_deployment _ _ _ (sv_config _ _ _ _ _ _ Hsv)) as [d Hd].
  rewrite (M_bind_eval _ _ w (bitcoin_network_of d) w)
    by (by erewrite M_bind_eval by (apply get_or_some; exact Hd)).
  pose proof (validate_addr_no_panic req (bitcoin_network_of d)) as Hnp.
  destruct (validate_addr req (bitcoin_network_of d)) as [m|e|] eqn:Hm; [|left; by exists e|done].
  erewrite M_bind_eval by reflexivity.
  erewrite M_bind_eval by (apply require_lifecycle_ok, Hsv).
  do 2 erewrite M_bind_eval by (apply get_or_some, Hsv).
  destruct (verify_cert_cases hid c m) as [[Hcert Hv]|[e Hv]];
    [|left; exists e; by apply M_bind_err, of_outcome_eval].
  erewrite M_bind_eval by (apply of_outcome_eval, Hv).
  destruct (timestamp_cases (wr_timestamp_secs (sm_message m)) now) as [Ht|[e Ht]];
    [|left; exists e; by apply M_bind_err, of_outcome_eval].
  erewrite M_bind_eval by (apply of_outcome_eval, Ht).
  destruct (validate_addr_Ok _ _ _ Hm) as (utxos & agg & Hnew & Hmsg & Hsig).
  destruct (TxUTXOs_new_gated _ _ _ _ (wo_inputs _ Hwire) (wo_outputs _ Hwire) Hnew) as (Hg & _ & _).
  assert (wr_utxos (sm_message m) = utxos) as Hu by (by rewrite Hmsg).
  destruct (gated_outflow (E:=EnclaveError) utxos Hg) as [Hout _]. rewrite <- Hu in Hout.
  erewrite M_bind_eval by (apply of_outcome_eval, Hout).
  pose proof (consume_from_limiter_cases w _ (wr_seq (sm_message m)) (wr_timestamp_secs (sm_message m))
    (wire_outflow (into_wire (wr_utxos (sm_message m)))) (sv_limiter _ _ _ _ _ _ Hsv)) as Hcons.
  destruct (consume _ _ _ _) as [res l'] eqn:Hconsume. destruct res as [e|[]].
  { left. eexists. by apply M_bind_err. }
  right. exists m, l'. split; [|by erewrite M_bind_eval by exact Hcons].
  constructor; try done; [by rewrite Hu|rewrite Hmsg; apply Hwire].
Qed.

(** A withdrawal is refused and changes nothing; or it is authorized, and its record is
    written before the signatures are released. *)
Lemma withdrawal_cases cfg hid g c w now wr req r w' :
  serving cfg hid g (w_enclave w) (w_s3 w) c -> wire_ok (sw_data req) ->
  standard_withdrawal now wr req w = (r, w') ->
  (exists e, r = Err e /\ w' = w)
  \/ exists entry,
       authorized cfg hid (e_config (w_enclave w)) c (w_s3 w) now entry
       /\ after_write wr (LWithdrawal entry) (w_s3 w) (w_s3 w')
       /\ match write_fate wr with
          | Written => r = Ok (gl_response entry)
              /\ w_enclave w' = with_limiter (mkRateLimiter cfg (gl_post_state entry)) (w_enclave w)
          | _ => r = Panic
          end.
Proof.
  intros Hsv Hwire H.
  destruct (withdrawal_admission _ _ _ _ _ now wr _ Hsv Hwire) as [[e He]|(m & l' & Had & Hrun)].
  { left. exists e. rewrite He in H. by injection H as <- <-. }
  right. rewrite Hrun in H.
  apply (withdrawal_commit_cases cfg hid) in H as (txid & response & Hby & Hs3 & Hres);
    [|apply Hsv].
  destruct Had as [Hcert Ht Hg Hts Hcons].
  pose proof (consume_config _ _ _ _ _ _ Hcons) as Hcfg. cbn in Hcfg.
  assert (mkRateLimiter cfg (rl_state l') = l') as Hl' by (by destruct l'; cbn in *; subst).
  eexists. split_and!; [|exact Hs3|cbn; by rewrite Hl'].
  constructor; [by exists m|done|cbn; by rewrite Hcons, Hl'|].
  split; [done|]. by apply (gated_outflow (E:=EnclaveError)).
Qed.
(** ** Committee handover *)

Definition with_serving_committee (c : Committee) (e : Enclave) : Enclave :=
  mkEnclave (e_config e) (with_committee c (e_state e)).

(** An update is refused or stale and changes nothing; or the handover is certified by the
    committee in office, and recorded before the new committee is installed. *)
Lemma update_cases cfg hid g c w wr signed r w' :
  serving cfg hid g (w_enclave w) (w_s3 w) c ->
  update_committee wr signed w = (r, w') ->
  (r <> Panic /\ w' = w)
  \/ exists u c',
       certified hid (latest_of g (handover_records (w_s3 w))) u
       /\ from_move_with_encryption_key_fallback (cu_new_committee u) = Some c'
       /\ after_write wr (LCommitteeUpdate u) (w_s3 w) (w_s3 w')
       /\ match write_fate wr with
          | Written => r = Ok (c_epoch c')
              /\ w_enclave w' = with_serving_committee c' (w_enclave w)
          | _ => r = Panic
          end.
Proof.
  intros Hsv H. unfold update_committee in H.
  erewrite M_bind_eval in H by (apply require_lifecycle_ok, Hsv).
  erewrite M_bind_eval in H by (apply get_or_some, Hsv). cbn zeta in H.
  destruct (from_move_wf _ _ (sv_stored _ _ _ _ _ _ Hsv)) as [_ Hep].
  destruct (Z.leb_spec (mc_epoch (new_committee (sm_message signed))) (c_epoch c)) as [|Hnew].
  { left. by injection H as <- <-. }
  erewrite M_bind_eval in H by (apply get_or_some, Hsv).
  destruct (verify_cert_cases hid c signed) as [[Hcert Hv]|[e Hv]].
  2:{ left. erewrite M_bind_err in H by (apply of_outcome_eval, Hv). by injection H as <- <-. }
  erewrite M_bind_eval in H by (apply of_outcome_eval, Hv).
  destruct (from_move_with_encryption_key_fallback _) as [c'|] eqn:Hmv.
  2:{ left. erewrite M_bind_err in H by reflexivity. by injection H as <- <-. }
  erewrite M_bind_eval in H by reflexivity.
  destruct (from_move_wf _ _ Hmv) as [_ Hep'].
  erewrite M_bind_eval in H by (apply of_outcome_eval; rewrite Hep', Z.eqb_refl; reflexivity).
  set (u := mkCommitteeUpdateLogMessage _ _ _) in H.
  destruct (write_cases w wr (LCommitteeUpdate u) (ac_logger _ _ _ (sv_config _ _ _ _ _ _ Hsv)))
    as (w2 & Hwrite & Hs3 & Hen).
  right. exists u, c'. split; [|split; [done|]].
  { constructor; cbn; [done|lia|by exists c'|]. exists c, signed. split; [apply Hsv|done]. }
  destruct (write_fate wr) eqn:Hf;
    [erewrite M_bind_eval in H by exact Hwrite|erewrite M_bind_panic in H by exact Hwrite..];
    [|by injection H as <- <-..].
  assert (replace_committee c' (c_epoch c) w2
          = (Ok tt, mkWorld (with_serving_committee c' (w_enclave w2)) (w_s3 w2))) as Hrep.
  { unfold replace_committee. erewrite M_bind_eval by (apply get_or_some; rewrite Hen; apply Hsv).
    by erewrite M_bind_eval by (apply of_outcome_eval; rewrite Z.eqb_refl; reflexivity). }
  erewrite M_bind_eval in H by (unfold expect_ok; by rewrite Hrep).
  injection H as <- <-. split_and!; [done|by rewrite Hep'|by rewrite <- Hen].
Qed.

(** A heartbeat writes a heartbeat and nothing else. *)
Lemma heartbeat_cases w wr r w' :
  s3_logger (e_config (w_enclave w)) = Some tt ->
  heartbeat wr w = (r, w') ->
  (r = Ok tt /\ w' = w)
  \/ exists seq, after_write wr (LHeartbeat seq) (w_s3 w) (w_s3 w')
       /\ match write_fate wr with
          | Written => r = Ok tt /\ w_enclave w' = mkEnclave (e_config (w_enclave w))
                         (with_heartbeat_seq (wadd seq 1) (e_state (w_enclave w)))
          | _ => r = Panic
          end.
Proof.
  intros Hc H. unfold heartbeat in H. erewrite M_bind_eval in H by reflexivity.
  destruct (lifecycle_mode <$> _) as [[]|]; [left; by injection H as <- <-| |left; by injection H as <- <-].
  erewrite M_bind_eval in H by reflexivity. right.
  exists (next_heartbeat_seq (e_state (w_enclave w))).
  destruct (write_cases w wr (LHeartbeat (next_heartbeat_seq (e_state (w_enclave w)))) Hc)
    as (w2 & Hwrite & Hs3 & Hen).
  destruct (write_fate wr) eqn:Hf;
    [erewrite M_bind_eval in H by exact Hwrite|erewrite M_bind_panic in H by exact Hwrite..];
    injection H as <- <-; [|done..]. cbn [w_s3 w_enclave]. by rewrite Hen.
Qed.
End guardian.
