(* ===== verification/CeremonyProofs.v ===== *)
(** * The guardian enclave: what ceremonies leave in the log

    Every published ceremony shares the same Bitcoin key, has the shares of its key
    provisioners beside it in the log, and was confirmed by every one of them; so reading
    the latest ceremony never fails on a log that ceremonies have written. *)

From stdpp Require Import strings.
From S2P Require Import MonitorDomain TxUtxos Limiter Bitmap Committee SecretSharing SecretSharingProofs KpShares Guardian GuardianInit GuardianCeremony GuardianProofs Prelude.

Section guardian.
Context `{GC : GuardianCrypto} {SL : ScalarFieldLaws}.

(** ** Views of the log *)

(** The logs agree on what the serving enclave reads. *)
Record served_alike (s3 s3' : list LogRecord) : Prop := {
  sa_withdrawals : withdrawals s3' = withdrawals s3;
  sa_handovers : handover_records s3' = handover_records s3;
  sa_genesis : genesis_records s3' = genesis_records s3;
}.

(** They also agree on the ceremonies. *)
Record same_log (s3 s3' : list LogRecord) : Prop := {
  sl_served : served_alike s3 s3';
  sl_ceremonies : ceremony_logs s3' = ceremony_logs s3;
  sl_shares : kp_share_logs s3' = kp_share_logs s3;
}.

#[export] Instance served_alike_preorder : PreOrder served_alike.
Proof.
  split; [by constructor|]. intros x y z [] []. constructor; congruence.
Qed.

#[export] Instance same_log_preorder : PreOrder same_log.
Proof.
  split; [by constructor|]. intros x y z [] []. constructor; [by etrans|congruence..].
Qed.

(** Records that no reader of the enclave looks for. *)
Definition inert (m : LogMessage) : Prop :=
  match m with LInit _ | LHeartbeat _ | LCeremonyProposal _ => True | _ => False end.

(** Records that the serving enclave does not read. *)
Definition ceremonial (m : LogMessage) : Prop :=
  match m with LKpShareState _ | LCeremony _ => True | _ => inert m end.

Lemma ceremonial_alike s3 d m : ceremonial m -> served_alike s3 (s3 ++ [mkLogRecord d m]).
Proof.
  intros Hm. constructor; unfold withdrawals, handover_records, genesis_records;
    rewrite omap_app; destruct m; try done; cbn; apply app_nil_r.
Qed.

Lemma inert_same s3 d m : inert m -> same_log s3 (s3 ++ [mkLogRecord d m]).
Proof.
  intros Hm. constructor; [apply ceremonial_alike; by destruct m|..]; unfold ceremony_logs, kp_share_logs;
    rewrite omap_app; destruct m; try done; cbn; apply app_nil_r.
Qed.

Lemma after_inert wr m s3 s3' : inert m -> after_write wr m s3 s3' -> same_log s3 s3'.
Proof.
  intros Hm. unfold after_write. destruct (write_fate wr); intros ->; [by apply inert_same|done|by apply inert_same].
Qed.

(** ** Ceremonies *)

Definition pubkey_of (sk : Scalar) : BtcPubkey := x_only_public_key (btc_keypair_of sk).

Definition instance_of (c : CeremonyLogMessage) : SecretSharingInstance :=
  match c with NewKey i _ => i | Rotate _ i _ => i end.

Definition ceremony_pubkey (c : CeremonyLogMessage) : BtcPubkey :=
  match c with NewKey _ pk => pk | Rotate _ _ pk => pk end.

Lemma sharing_seq_instance c : sharing_seq (instance_of c) = ceremony_sharing_seq c.
Proof. by destruct c. Qed.

(** The ceremony shares the key [sk]. *)
Record shares_key (sk : Scalar) (c : CeremonyLogMessage) : Prop := {
  sk_pubkey : ceremony_pubkey c = pubkey_of sk;
  sk_sharing : sharing_of sk (instance_of c);
  sk_advances : match c with
                | NewKey _ _ => True
                | Rotate old new _ => sharing_seq old < sharing_seq new
                end;
}.

Lemma into_instance_ok sk c :
  shares_key sk c -> into_instance_and_pubkey c = Ok (instance_of c, pubkey_of sk).
Proof.
  intros [Hpk _ Hadv]. destruct c; cbn in *; subst; [done|]. by rewrite (proj2 (Z.ltb_lt _ _) Hadv).
Qed.

(** The holder of a share has signed the confirmation of a digest in a session. *)
Definition confirmed_by (session : SessionID) (digest : Hash) (s : KpEncryptedShare) : Prop :=
  exists signed : KpSigned CeremonyConfirmationRequest,
    kp_verify_signature signed = Ok (kp_data signed)
    /\ signer_fingerprint signed = recipient_fingerprint s
    /\ cc_expected_session_id (kp_data signed) = session
    /\ cc_ceremony_artifacts_digest (kp_data signed) = digest.

(** Every holder has confirmed the ceremony, with its shares, for one deployment. *)
Definition unanimous (c : CeremonyLogMessage) (shares : KpEncryptedShareRoster) : Prop :=
  exists session d state,
    from_proposal (mkCeremonyProposalLogMessage c shares) = Ok state
    /\ Forall (confirmed_by session (artifacts_digest d state)) shares.

Record ceremonies_ok (sk : Scalar) (s3 : list LogRecord) : Prop := {
  ce_keys : Forall (shares_key sk) (ceremony_logs s3);
  ce_unanimous c : c ∈ ceremony_logs s3 ->
    exists shares, mkKpShareStateLogMessage (ceremony_sharing_seq c) 0 shares ∈ kp_share_logs s3
      /\ unanimous c shares;
  ce_sizes c m : c ∈ ceremony_logs s3 -> m ∈ kp_share_logs s3 ->
    kss_sharing_seq m = ceremony_sharing_seq c ->
    Z.of_nat (length (kss_encrypted_shares m)) = num_shares (instance_of c);
  ce_rosters : Forall (fun m => share_roster_wf (kss_encrypted_shares m)) (kp_share_logs s3);
  ce_distinct c c' : c ∈ ceremony_logs s3 -> c' ∈ ceremony_logs s3 ->
    ceremony_sharing_seq c = ceremony_sharing_seq c' -> c = c';
}.

Lemma ceremonies_ext sk s3 s3' :
  ceremony_logs s3' = ceremony_logs s3 -> kp_share_logs s3' = kp_share_logs s3 ->
  ceremonies_ok sk s3 -> ceremonies_ok sk s3'.
Proof. intros Hc Hs []. constructor; intros; rewrite ?Hc, ?Hs in *; eauto. Qed.

Lemma ceremonies_same sk s3 s3' : same_log s3 s3' -> ceremonies_ok sk s3 -> ceremonies_ok sk s3'.
Proof. intros [_ ? ?]. by apply ceremonies_ext. Qed.

Lemma ceremonies_none sk s3 :
  ceremony_logs s3 = [] -> Forall (fun m => share_roster_wf (kss_encrypted_shares m)) (kp_share_logs s3) ->
  ceremonies_ok sk s3.
Proof.
  intros Hc Hr. constructor; rewrite ?Hc; try done; intros *; by intros ?%elem_of_nil.
Qed.

(** ** Reading the latest ceremony *)

Record state_ok (sk : Scalar) (s : CeremonyState) : Prop := {
  so_pubkey : cs_btc_master_pubkey s = pubkey_of sk;
  so_sharing : sharing_of sk (cs_instance s);
  so_roster : share_roster_wf (cs_encrypted_shares s);
  so_size : Z.of_nat (length (cs_encrypted_shares s)) = num_shares (cs_instance s);
}.

(** What is read is the latest ceremony with its latest share state. *)
Lemma read_ceremony_cases sk s3 :
  ceremonies_ok sk s3 ->
  (ceremony_logs s3 = [] /\ exists e, read_latest_ceremony_state s3 = Err e)
  \/ exists c m state,
       c ∈ ceremony_logs s3 /\ m ∈ kp_share_logs s3
       /\ kss_sharing_seq m = ceremony_sharing_seq c
       /\ read_latest_ceremony_state s3 = Ok state /\ state_ok sk state
       /\ state = mkCeremonyState (instance_of c) (pubkey_of sk) (kss_cert_seq m) (kss_encrypted_shares m).
Proof.
  intros [Hk Hu Hsz Hr _]. unfold read_latest_ceremony_state, read_latest_ceremony_log.
  pose proof (max_by_key_spec ceremony_sharing_seq (ceremony_logs s3)) as Hm.
  destruct (max_by_key _ _) as [c|]; [|left; by eauto]. destruct Hm as [Hc _]. right.
  unfold read_latest_kp_share_state_log. set (l := filter _ (kp_share_logs s3)).
  pose proof (max_by_key_spec kss_cert_seq l) as Hl. destruct (max_by_key kss_cert_seq l) as [m|].
  - destruct Hl as [[Hseq Hin]%list_elem_of_filter _].
    rewrite Forall_forall in Hk. rewrite Forall_forall in Hr. pose proof (Hk c Hc) as Hkc. pose proof (Hsz c m Hc Hin Hseq) as Hlen.
    exists c, m. eexists. split_and!; [done..| | |reflexivity].
    + unfold ceremony_state_new. rewrite (into_instance_ok _ _ Hkc). cbn [mbind outcome_bind].
      rewrite sharing_seq_instance, Hseq, Z.eqb_refl. cbn [guard mbind outcome_bind].
      unfold ceremony_state_from_parts. by rewrite Hlen, Z.eqb_refl.
    + constructor; cbn; [done|apply Hkc|by apply Hr|done].
  - destruct (Hu c Hc) as (shares & Hin & _). exfalso. apply (not_elem_of_nil (mkKpShareStateLogMessage (ceremony_sharing_seq c) 0 shares)).
    rewrite <- Hl. by apply list_elem_of_filter.
Qed.

Lemma fold_max_spec l : forall acc,
  match fold_left (fun acc m => max_opt acc (Some (kss_sharing_seq m))) l acc with
  | Some s => (forall m, m ∈ l -> kss_sharing_seq m <= s) /\ (forall a, acc = Some a -> a <= s)
  | None => l = [] /\ acc = None
  end.
Proof.
  induction l as [|m l IH]; intros acc; cbn [fold_left].
  { destruct acc; [|done]. split; [by intros m ?%elem_of_nil|intros ? [= ->]; lia]. }
  specialize (IH (max_opt acc (Some (kss_sharing_seq m)))). destruct (fold_left _ l _) as [s|].
  - destruct IH as [Hl Ha]. destruct acc as [a|]; cbn in Ha; specialize (Ha _ eq_refl).
    + split; [intros x [->|Hx]%elem_of_cons; [lia|by apply Hl]|intros ? [= ->]; lia].
    + split; [intros x [->|Hx]%elem_of_cons; [lia|by apply Hl]|done].
  - destruct IH as [_ Hn]. by destruct acc.
Qed.

(** The next sequence number is new, for ceremonies and for share directories. *)
Definition unused (s3 : list LogRecord) (seq : Z) : Prop :=
  (forall c, c ∈ ceremony_logs s3 -> ceremony_sharing_seq c < seq)
  /\ (forall m, m ∈ kp_share_logs s3 -> kss_sharing_seq m < seq).

Lemma next_sharing_seq_unused s3 seq : next_sharing_seq s3 = Ok seq -> unused s3 seq.
Proof.
  unfold next_sharing_seq, read_latest_ceremony_log.
  pose proof (max_by_key_spec ceremony_sharing_seq (ceremony_logs s3)) as Hc.
  pose proof (fold_max_spec (kp_share_logs s3) None) as Hs.
  destruct (max_by_key _ _) as [c|], (fold_left _ _ None) as [s|]; cbn; intros H; split.
  all: repeat match goal with H : (if ?b then _ else _) = Ok _ |- _ => destruct b eqn:?; [|done] end.
  all: injection H as <-; intros x Hx.
  all: try (destruct Hc as [_ Hc]; apply Hc in Hx; lia).
  all: try (destruct Hs as [Hs _]; apply Hs in Hx; lia).
  all: try (rewrite Hc in Hx); try (destruct Hs as [Hs _]; rewrite Hs in Hx); by apply elem_of_nil in Hx.
Qed.

Lemma next_sharing_seq_safe s3 : next_sharing_seq s3 <> Panic.
Proof. unfold next_sharing_seq. destruct (max_opt _ _); [|done]. by destruct (_ <? _). Qed.

(** ** Writing ceremonies *)

Lemma ceremony_logs_snoc s3 d m :
  ceremony_logs (s3 ++ [mkLogRecord d m])
  = ceremony_logs s3 ++ match m with LCeremony c => [c] | _ => [] end.
Proof. unfold ceremony_logs. rewrite omap_app. f_equal. by destruct m. Qed.

Lemma kp_share_logs_snoc s3 d m :
  kp_share_logs (s3 ++ [mkLogRecord d m])
  = kp_share_logs s3 ++ match m with LKpShareState c => [c] | _ => [] end.
Proof. unfold kp_share_logs. rewrite omap_app. f_equal. by destruct m. Qed.

(** A share state for a ceremony of the log, or for a number not used yet. *)
Lemma ceremonies_share_state sk s3 d m :
  ceremonies_ok sk s3 -> share_roster_wf (kss_encrypted_shares m) ->
  (forall c, c ∈ ceremony_logs s3 -> kss_sharing_seq m = ceremony_sharing_seq c ->
     Z.of_nat (length (kss_encrypted_shares m)) = num_shares (instance_of c)) ->
  ceremonies_ok sk (s3 ++ [mkLogRecord d (LKpShareState m)]).
Proof.
  intros [Hk Hu Hsz Hr Hd] Hwf Hm. constructor; rewrite ?ceremony_logs_snoc, ?kp_share_logs_snoc, ?app_nil_r.
  - done.
  - intros c Hc. destruct (Hu c Hc) as (shares & Hin & Hun). exists shares. split; [|done].
    apply elem_of_app. by left.
  - intros c m' Hc [Hin| ->%list_elem_of_singleton]%elem_of_app; [by apply Hsz|by apply Hm].
  - apply Forall_app. split; [done|by constructor].
  - done.
Qed.

Lemma ceremonies_publish sk s3 d c shares :
  ceremonies_ok sk s3 -> shares_key sk c ->
  (forall c', c' ∈ ceremony_logs s3 -> ceremony_sharing_seq c' < ceremony_sharing_seq c) ->
  (forall m, m ∈ kp_share_logs s3 -> kss_sharing_seq m = ceremony_sharing_seq c ->
     m = mkKpShareStateLogMessage (ceremony_sharing_seq c) 0 shares) ->
  mkKpShareStateLogMessage (ceremony_sharing_seq c) 0 shares ∈ kp_share_logs s3 ->
  Z.of_nat (length shares) = num_shares (instance_of c) -> unanimous c shares ->
  ceremonies_ok sk (s3 ++ [mkLogRecord d (LCeremony c)]).
Proof.
  intros [Hk Hu Hsz Hr Hd] Hc Hnew Honly Hin Hlen Hun.
  constructor; rewrite ?ceremony_logs_snoc, ?kp_share_logs_snoc, ?app_nil_r.
  - apply Forall_app. split; [done|by constructor].
  - intros c' [Hc'| ->%list_elem_of_singleton]%elem_of_app; [by apply Hu|by exists shares].
  - intros c' m [Hc'| ->%list_elem_of_singleton]%elem_of_app Hm Heq; [by apply Hsz|].
    by rewrite (Honly m Hm Heq).
  - done.
  - intros c1 c2 [H1| ->%list_elem_of_singleton]%elem_of_app [H2| ->%list_elem_of_singleton]%elem_of_app Heq;
      [by apply Hd| | |done]; [apply Hnew in H1|apply Hnew in H2]; lia.
Qed.
End guardian.
