(* ===== verification/GuardianInitProofs.v ===== *)
(** * The guardian enclave: initialization and ceremonies

    The invariant of a guardian's histories, and that operator and provisioner
    initialization, the ceremonies and the rotation of a certificate preserve it and abort
    only on a failed write.

    What the key provisioners approve is one configuration and one genesis state; they are
    the only part of an initialization that the operator cannot choose alone. *)

From stdpp Require Import strings.
From S2P Require Import MonitorDomain TxUtxos Limiter Bitmap Committee CommitteeProofs SecretSharing SecretSharingProofs KpShares Guardian GuardianInit GuardianCeremony GuardianProofs CeremonyProofs Prelude.

Section guardian.
Context `{GC : GuardianCrypto} {SL : ScalarFieldLaws}.

(** ** What the key provisioners approve *)

Record Approved := mkApproved { ap_config : InitConfig; ap_genesis : GenesisState }.

Definition ap_limits (ap : Approved) : LimiterConfig := ic_limiter_config (ap_config ap).
Definition ap_hashi_id (ap : Approved) : Address := gs_hashi_object_id (ap_genesis ap).
Definition ap_committee (ap : Approved) : MoveCommittee := gs_committee (ap_genesis ap).

(** The approved values make sense, and their digests have no second preimage. *)
Record approved_ok (ap : Approved) : Prop := {
  ao_limits : wf_config (ap_limits ap);
  ao_committee : is_Some (from_move_with_encryption_key_fallback (ap_committee ap));
  ao_config ic : init_config_digest ic = init_config_digest (ap_config ap) -> ic = ap_config ap;
  ao_genesis g : genesis_digest g = genesis_digest (ap_genesis ap) -> g = ap_genesis ap;
}.

(** A batch in which every signature is valid has one of a key provisioner that approves
    what it signs: with fewer than a threshold of dishonest ones this is every batch. *)
Definition approves (ap : Approved) (r : ProvisionerInitRequest) : Prop :=
  expected_config_hash r = init_config_digest (ap_config ap)
  /\ match expected_genesis_state_hash r with
     | None => True
     | Some h => h = genesis_digest (ap_genesis ap)
     end.

Definition honest_batch (ap : Approved) (request : list (KpSigned ProvisionerInitRequest)) : Prop :=
  Forall (fun s => kp_verify_signature s = Ok (kp_data s)) request -> request <> [] ->
  Exists (fun s => approves ap (kp_data s)) request.

(** ** The invariant *)

Definition unserved (s3 : list LogRecord) : Prop :=
  withdrawals s3 = [] /\ handover_records s3 = [] /\ genesis_records s3 = [].

Record governed (ap : Approved) (s3 : list LogRecord) : Prop := {
  gv_genesis : read_genesis s3 = Some (genesis_log_of (ap_genesis ap));
  gv_committees : committees_ok (ap_hashi_id ap) (ap_committee ap) s3;
}.

Record log_inv (ap : Approved) (sk : Scalar) (s3 : list LogRecord) : Prop := {
  li_key : sk <> s_zero;
  li_log : log_ok (ap_limits ap) s3;
  li_committees : unserved s3 \/ governed ap s3;
  li_ceremonies : ceremonies_ok sk s3;
}.

Record pending_ok (sk : Scalar) (s3 : list LogRecord) (session : SessionID) (p : PendingCeremony)
    : Prop := {
  pe_key : shares_key sk (cp_ceremony (proposal p));
  pe_unused : unused s3 (ceremony_sharing_seq (cp_ceremony (proposal p)));
  pe_roster : share_roster_wf (cp_encrypted_shares (proposal p));
  pe_digest : exists d state, from_proposal (proposal p) = Ok state
    /\ ceremony_artifacts_digest p = artifacts_digest d state;
  pe_confirmed id : id ∈ confirmed_share_ids p ->
    exists s, s ∈ cp_encrypted_shares (proposal p) /\ ks_id s = id
      /\ confirmed_by session (ceremony_artifacts_digest p) s;
}.

Definition ceremony_enclave (keys : SessionKeys) (d : DeploymentConfig) (stage : CeremonyStage)
    (pending : option PendingCeremony) : Enclave :=
  mkEnclave (mkEnclaveConfig keys.1 keys.2 (Some tt) None (Some d) None None None)
    (mkEnclaveState 0 (Some (Ceremony stage)) None None None pending).

Definition stage_ok (sk : Scalar) (s3 : list LogRecord) (session : SessionID) (stage : CeremonyStage)
    (pending : option PendingCeremony) : Prop :=
  match stage, pending with
  | CeremonyInitialized, None => True
  | AwaitingKeyProvisionerConfirmations, Some p => pending_ok sk s3 session p
  | Completed, Some p => ceremony_is_complete p = true
  | _, _ => False
  end.

Definition armed_enclave (keys : SessionKeys) (ic : InitConfig) (hid : Address) (master : HashiMasterG)
    (init : TemporaryInitState) (heartbeats : Z) : Enclave :=
  mkEnclave (mkEnclaveConfig keys.1 keys.2 (Some tt) None (Some (ic_deployment ic)) (Some master)
               (Some (ic_limiter_config ic)) (Some hid))
    (mkEnclaveState heartbeats (Some (Withdraw OperatorInitialized)) None None (Some init) None).

(** The bindings of an armed session come from the supplied or from the logged genesis. *)
Record armed_ok (sk : Scalar) (s3 : list LogRecord) (ic : InitConfig) (hid : Address)
    (master : HashiMasterG) (init : TemporaryInitState) : Prop := {
  ar_hash : config_hash init = init_config_digest ic;
  ar_state : state_ok sk (ceremony_state init);
  ar_binding : match genesis_state init with
    | Some g => hid = gs_hashi_object_id g /\ master = gs_mpc_master_g g /\ unserved s3
    | None => exists gl, read_genesis s3 = Some gl /\ hid = gn_hashi_object_id gl
                /\ master = gn_mpc_master_g gl
    end;
}.

Inductive enclave_ok (ap : Approved) (sk : Scalar) (s3 : list LogRecord) : Enclave -> Prop :=
| en_new keys : enclave_ok ap sk s3 (enclave_new keys)
| en_ceremony keys d stage pending : stage_ok sk s3 keys.1 stage pending ->
    enclave_ok ap sk s3 (ceremony_enclave keys d stage pending)
| en_armed keys ic hid master init heartbeats : armed_ok sk s3 ic hid master init ->
    enclave_ok ap sk s3 (armed_enclave keys ic hid master init heartbeats)
| en_standby e : standby (ap_limits ap) (ap_hashi_id ap) e -> governed ap s3 ->
    enclave_btc_keypair (e_config e) = Some (btc_keypair_of sk) ->
    pending_ceremony (e_state e) = None -> enclave_ok ap sk s3 e
| en_serving e c : serving (ap_limits ap) (ap_hashi_id ap) (ap_committee ap) e s3 c -> governed ap s3 ->
    enclave_btc_keypair (e_config e) = Some (btc_keypair_of sk) ->
    temporary_init_state (e_state e) = None -> pending_ceremony (e_state e) = None ->
    enclave_ok ap sk s3 e.

Definition history_ok (ap : Approved) (w : World) : Prop :=
  exists sk, log_inv ap sk (w_s3 w) /\ enclave_ok ap sk (w_s3 w) (w_enclave w).

(** *** Records that no reader looks for *)

Lemma log_ok_ext cfg s3 s3' : withdrawals s3' = withdrawals s3 -> log_ok cfg s3 -> log_ok cfg s3'.
Proof.
  intros Hw Hok. assert (log_entries s3' = log_entries s3) as He by (unfold log_entries; by rewrite Hw).
  destruct Hok as [H1 H2 H3 H4 H5]. constructor; unfold log_state in *; rewrite ?Hw, ?He; done.
Qed.

Lemma log_state_alike cfg s3 s3' : served_alike s3 s3' -> log_state cfg s3' = log_state cfg s3.
Proof. intros [Hw _ _]. unfold log_state, log_entries. by rewrite Hw. Qed.

Lemma read_genesis_alike s3 s3' : served_alike s3 s3' -> read_genesis s3' = read_genesis s3.
Proof. intros [_ _ Hg]. unfold read_genesis. by rewrite Hg. Qed.

Lemma unserved_alike s3 s3' : served_alike s3 s3' -> unserved s3 -> unserved s3'.
Proof. intros [Hw Hh Hg] (? & ? & ?). unfold unserved. by rewrite Hw, Hh, Hg. Qed.

Lemma governed_ext ap s3 s3' :
  handover_records s3' = handover_records s3 -> genesis_records s3' = genesis_records s3 ->
  governed ap s3 -> governed ap s3'.
Proof.
  intros Hh Hg [Hr [H1 H2 H3]].
  assert (read_genesis s3' = read_genesis s3) as Heq by (unfold read_genesis; by rewrite Hg).
  constructor; [by rewrite Heq|]. constructor; rewrite ?Heq, ?Hh; done.
Qed.

Lemma governed_alike ap s3 s3' : served_alike s3 s3' -> governed ap s3 -> governed ap s3'.
Proof. intros []. by apply governed_ext. Qed.

Lemma serving_alike cfg hid g e s3 s3' c :
  served_alike s3 s3' -> serving cfg hid g e s3 c -> serving cfg hid g e s3' c.
Proof.
  intros Hs []. constructor; rewrite ?(log_state_alike _ _ _ Hs), ?(sa_handovers _ _ Hs); done.
Qed.

(** A log that is served alike and whose ceremonies are in order. *)
Lemma log_inv_alike ap sk s3 s3' :
  served_alike s3 s3' -> ceremonies_ok sk s3' -> log_inv ap sk s3 -> log_inv ap sk s3'.
Proof.
  intros Hs He [Hk Hl Hc _]. constructor; [done|by eapply log_ok_ext; [apply Hs|]| |done].
  destruct Hc; [left; by eapply unserved_alike|right; by eapply governed_alike].
Qed.

Lemma log_inv_same ap sk s3 s3' : same_log s3 s3' -> log_inv ap sk s3 -> log_inv ap sk s3'.
Proof.
  intros Hs Hl. eapply log_inv_alike; [apply Hs| |exact Hl]. eapply ceremonies_same; [exact Hs|apply Hl].
Qed.

Lemma unused_same s3 s3' q : same_log s3 s3' -> unused s3 q -> unused s3' q.
Proof. intros [_ Hc Hk] [? ?]. split; by rewrite ?Hc, ?Hk. Qed.

Lemma pending_same sk s3 s3' session p :
  same_log s3 s3' -> pending_ok sk s3 session p -> pending_ok sk s3' session p.
Proof. intros Hs []. constructor; eauto using unused_same. Qed.

Lemma enclave_same ap sk s3 s3' e :
  same_log s3 s3' -> enclave_ok ap sk s3 e -> enclave_ok ap sk s3' e.
Proof.
  intros Hs [keys|keys d stage pending Hst|keys ic hid master init hb [Hh Hstate Hb]|e' ? ? ? ?|e' c ? ? ? ? ?].
  - constructor.
  - constructor. destruct stage, pending; cbn in *; eauto using pending_same.
  - constructor. constructor; [done|done|]. destruct (genesis_state init) as [g|].
    + destruct Hb as (? & ? & ?). split_and!; eauto using unserved_alike, sl_served.
    + by rewrite (read_genesis_alike _ _ (sl_served _ _ Hs)).
  - apply en_standby; eauto using governed_alike, sl_served.
  - eapply en_serving; eauto using governed_alike, serving_alike, sl_served.
Qed.

(** ** Steps *)

(** A handler that panics takes the process down; only the log survives, and a process
    with new keys is started in its place. *)
Definition settle {A} (boot : SessionKeys) (run : outcome EnclaveError A * World) : option A * World :=
  match run with
  | (Ok a, w) => (Some a, w)
  | (Err _, w) => (None, w)
  | (Panic, w) => (None, mkWorld (enclave_new boot) (w_s3 w))
  end.

Definition all_written (ws : list Write) : Prop := Forall (fun w => write_fate w = Written) ws.

(** The invariant holds after a handler, and it panics only if a write fails. *)
Definition handled {A} (ap : Approved) (boot : SessionKeys) (ws : list Write)
    (run : outcome EnclaveError A * World) : Prop :=
  history_ok ap (snd (settle boot run)) /\ (all_written ws -> fst run <> Panic).

Lemma handled_err {A} ap boot ws w e :
  history_ok ap w -> handled (A:=A) ap boot ws (Err e, w).
Proof. by split. Qed.

Lemma handled_panic {A} ap boot ws w sk :
  log_inv ap sk (w_s3 w) -> ~ all_written ws -> handled (A:=A) ap boot ws (Panic, w).
Proof. intros Hl Hn. split; [|done]. exists sk. split; [done|constructor]. Qed.

Lemma handled_ok {A} ap boot ws w sk (a : A) :
  log_inv ap sk (w_s3 w) -> enclave_ok ap sk (w_s3 w) (w_enclave w) -> handled ap boot ws (Ok a, w).
Proof. intros. split; [by exists sk|done]. Qed.

(** An outcome that fails ends the handler without a change. *)
Lemma handled_outcome {A B} ap boot ws w (o : outcome EnclaveError A) (f : A -> M World EnclaveError B) :
  history_ok ap w -> o <> Panic -> (forall a, o = Ok a -> handled ap boot ws (f a w)) ->
  handled ap boot ws ((of_outcome o ≫= f) w).
Proof.
  intros Hh Hp Hf. destruct o as [a|e|]; [|by apply handled_err|done].
  erewrite M_bind_eval by reflexivity. by apply Hf.
Qed.

Lemma handled_lifecycle {A} ap boot ws w l (f : unit -> M World EnclaveError A) :
  history_ok ap w -> (lifecycle (e_state (w_enclave w)) = l -> handled ap boot ws (f tt w)) ->
  handled ap boot ws ((require_lifecycle l ≫= f) w).
Proof.
  intros Hh Hf. destruct (decide (lifecycle (e_state (w_enclave w)) = l)) as [Hl|Hl].
  - erewrite M_bind_eval by (by apply require_lifecycle_ok). by apply Hf.
  - destruct (require_lifecycle_err _ _ Hl) as [e He]. erewrite M_bind_err by exact He.
    by apply handled_err.
Qed.

Lemma handled_some {A B} ap boot ws w (f : Enclave -> option A) e a (k : A -> M World EnclaveError B) :
  f (w_enclave w) = Some a -> handled ap boot ws (k a w) -> handled ap boot ws ((get_or f e ≫= k) w).
Proof. intros Hf Hk. by erewrite M_bind_eval by (by apply get_or_some). Qed.

Lemma handled_read {A B} ap boot ws w (f : World -> A) (k : A -> M World EnclaveError B) :
  handled ap boot ws (k (f w) w) -> handled ap boot ws ((read f ≫= k) w).
Proof. done. Qed.

Lemma handled_assoc {A B C} ap boot ws w (m : M World EnclaveError A) (k : A -> M World EnclaveError B)
    (f : B -> M World EnclaveError C) :
  handled ap boot ws ((m ≫= (fun a => k a ≫= f)) w) -> handled ap boot ws (((m ≫= k) ≫= f) w).
Proof. unfold mbind, M_bind. by destruct (m w) as [[] ?]. Qed.

Lemma handled_eval {A B} ap boot ws w (m : M World EnclaveError A) (f : A -> M World EnclaveError B) a w1 :
  m w = (Ok a, w1) -> handled ap boot ws (f a w1) -> handled ap boot ws ((m ≫= f) w).
Proof. intros Hm Hf. by erewrite M_bind_eval by exact Hm. Qed.

Lemma lift_kp_safe {A} (o : kp_result A) : o <> Panic -> lift_kp o <> Panic.
Proof. by destruct o. Qed.

Lemma verify_signature_safe {T} `{KpSigningIntent T} (s : KpSigned T) : kp_verify_signature s <> Panic.
Proof. apply bind_safe; auto with hashi. Qed.
Lemma validate_session_safe {T} `{KpSigningIntent T} (r : T) session : validate_session r session <> Panic.
Proof. apply guard_safe. Qed.
Lemma validate_assignment_safe r f id : validate_share_assignment r f id <> Panic.
Proof. unfold validate_share_assignment. destruct (find_by_fingerprint r f); auto with hashi. Qed.

#[local] Hint Resolve lift_kp_safe verify_signature_safe validate_session_safe validate_assignment_safe
  decrypt_verify_safe : hashi.

(** ** Operator initialization *)

(** The enclave an operator initialization leaves. *)
Definition initialized (keys : SessionKeys) (install : OIInstall) : Enclave :=
  match oi_withdraw_mode install with
  | None => ceremony_enclave keys (oi_install_deployment install) CeremonyInitialized None
  | Some wm =>
      mkEnclave (mkEnclaveConfig keys.1 keys.2 (Some tt) None (Some (oi_install_deployment install))
                   (Some (wi_mpc_master_g wm)) (Some (ic_limiter_config (wi_init_config wm)))
                   (Some (wi_hashi_object_id wm)))
        (mkEnclaveState 0 (Some (Withdraw OperatorInitialized)) None None
           (Some (mkTemporaryInitState (wi_ceremony_state wm) (wi_genesis_state wm)
                    (init_config_digest (wi_init_config wm)))) None)
  end.

Lemma commit_oi_cases keys s3 w1 w2 install r w' :
  commit_operator_init w1 w2 install (mkWorld (enclave_new keys) s3) = (r, w') ->
  same_log s3 (w_s3 w')
  /\ ((r = Panic /\ ~ all_written [w1; w2]) \/ (r = Ok tt /\ w_enclave w' = initialized keys install)).
Proof.
  destruct keys as [sid esk], install as [d att wm], w1 as [d1 f1], w2 as [d2 f2]. intros H.
  assert (forall s3 d m d' m', inert m -> inert m' ->
            same_log s3 ((s3 ++ [mkLogRecord d m]) ++ [mkLogRecord d' m'])) as Htwo.
  { intros. etrans; by apply inert_same. }
  assert (forall f, f <> Written -> ~ all_written [mkWrite d1 Written; mkWrite d2 f]) as Hn2.
  { intros f Hf Hall. inversion Hall as [|? ? _ Hall']; subst. by inversion Hall'. }
  assert (forall f, f <> Written -> ~ all_written [mkWrite d1 f; mkWrite d2 f2]) as Hn1.
  { intros f Hf Hall. by inversion Hall. }
  destruct wm as [wm|], f1; try (injection H as <- <-; split; [apply inert_same || reflexivity; done|left; split; [done|by apply Hn1]]);
    destruct f2; injection H as <- <-; split;
    try (by apply Htwo); try (by apply inert_same);
    (left; split; [done|by apply Hn2]) || (right; done).
Qed.

Lemma oi_install_ok ap sk s3 config genesis state install :
  log_inv ap sk s3 -> state_ok sk state ->
  from_ceremony_state s3 config state genesis = Ok install ->
  wi_init_config install = config
  /\ armed_ok sk s3 config (wi_hashi_object_id install) (wi_mpc_master_g install)
       (mkTemporaryInitState (wi_ceremony_state install) (wi_genesis_state install)
          (init_config_digest config)).
Proof.
  intros [_ _ Hc _] Hst H. unfold from_ceremony_state in H. inv_ok. destruct v as [hid master].
  injection H as <-. cbn. split; [done|]. constructor; [done|done|]. cbn. destruct genesis as [g|].
  - destruct (read_latest_committee s3) eqn:Hr; [done|]. injection E as <- <-. split_and!; [done|done|].
    destruct Hc as [|[_ Hc]]; [done|]. by rewrite (read_latest_committee_last _ _ _ Hc) in Hr.
  - destruct (read_genesis s3) as [gl|]; [|done]. injection E as <- <-. by exists gl.
Qed.

Lemma from_ceremony_state_safe s3 config state genesis :
  from_ceremony_state s3 config state genesis <> Panic.
Proof.
  apply bind_safe; [|by intros [] _]. destruct genesis; [by destruct (read_latest_committee s3)|].
  by destruct (read_genesis s3).
Qed.

Lemma read_ceremony_safe sk s3 : ceremonies_ok sk s3 -> read_latest_ceremony_state s3 <> Panic.
Proof. intros [[_ [e ->]]|(c & m & st & _ & _ & _ & -> & _)]%read_ceremony_cases; done. Qed.

Lemma read_ceremony_ok sk s3 state :
  ceremonies_ok sk s3 -> read_latest_ceremony_state s3 = Ok state -> state_ok sk state.
Proof. intros [[_ [e ->]]|(c & m & st & _ & _ & _ & -> & Hst & _)]%read_ceremony_cases; [done|by intros [= <-]]. Qed.

(** The end of the handler. *)
Lemma commit_oi_handled ap sk boot w1 w2 keys s3 install :
  log_inv ap sk s3 -> (forall s3', same_log s3 s3' -> enclave_ok ap sk s3' (initialized keys install)) ->
  handled ap boot [w1; w2] (commit_operator_init w1 w2 install (mkWorld (enclave_new keys) s3)).
Proof.
  intros Hlog Hen. destruct (commit_operator_init _ _ _ _) as [r w'] eqn:H.
  apply commit_oi_cases in H as [Hs [[-> Hn]|[-> He]]].
  - apply (handled_panic _ _ _ _ sk); [by eapply log_inv_same|done].
  - apply (handled_ok _ _ _ _ sk); [by eapply log_inv_same|]. rewrite He. by apply Hen.
Qed.

Lemma enclave_uninitialized ap sk s3 e :
  enclave_ok ap sk s3 e -> lifecycle (e_state e) = None -> exists keys, e = enclave_new keys.
Proof. intros [keys| | |? [] |? ? []] ?; try done; [by exists keys|congruence|congruence]. Qed.

Lemma operator_init_handled ap boot pf w1 w2 req w :
  history_ok ap w -> handled ap boot [w1; w2] (operator_init pf w1 w2 req w).
Proof.
  intros Hh. apply handled_lifecycle; [done|]. intros Hl. destruct (Hh) as (sk & Hlog & Hen).
  destruct (enclave_uninitialized _ _ _ _ Hen Hl) as [keys Hkeys].
  destruct w as [e s3]; cbn [w_s3 w_enclave] in *. subst e.
  set (inputs := match req with CeremonyOperatorInit d => (d, None) | WithdrawOperatorInit c g => (ic_deployment c, Some (c, g)) end).
  assert (match inputs.2 with Some (c, _) => inputs.1 = ic_deployment c | None => True end) as Hd by (by destruct req).
  destruct inputs as [d inputs]. cbn [fst snd] in Hd.
  destruct pf as [[att|] live conn]; [|by apply handled_err].
  cbn [pf_attestation]. erewrite M_bind_eval by reflexivity.
  apply handled_outcome; [done|apply guard_safe|]. intros _ _.
  apply handled_outcome; [done|apply guard_safe|]. intros _ _.
  apply handled_read. cbn [w_s3]. destruct inputs as [[config genesis]|].
  - destruct (read_latest_ceremony_state s3) as [state|e|] eqn:Hr;
      [|by apply handled_err|by apply (read_ceremony_safe sk) in Hr; [|apply Hlog]].
    destruct (from_ceremony_state s3 config state genesis) as [install|e|] eqn:Hf;
      [|eapply handled_err in Hh; rewrite (M_bind_err _ _ _ e _ ) by (by erewrite M_bind_eval by reflexivity; apply M_bind_err, of_outcome_eval); exact Hh
       |by apply from_ceremony_state_safe in Hf].
    apply (read_ceremony_ok sk) in Hr; [|apply Hlog].
    destruct (oi_install_ok _ _ _ _ _ _ _ Hlog Hr Hf) as [Hc Har].
    erewrite M_bind_eval by (erewrite M_bind_eval by reflexivity; erewrite M_bind_eval by (by apply of_outcome_eval); reflexivity).
    apply (commit_oi_handled _ sk); [done|]. intros s3' Hs.
    eapply enclave_same; [exact Hs|]. cbn in Hd |- *. subst d. unfold initialized. cbn [oi_withdraw_mode oi_install_deployment].
    rewrite Hc. by apply en_armed.
  - erewrite M_bind_eval by reflexivity. apply (commit_oi_handled _ sk); [done|]. intros s3' Hs. by constructor.
Qed.

(** ** Provisioner initialization *)

Lemma mapM_outcome_Forall2 {A B} (f : A -> outcome EnclaveError B) l k :
  mapM f l = Ok k -> Forall2 (fun a b => f a = Ok b) l k.
Proof.
  revert k. induction l as [|a l IH]; intros k H; cbn in H.
  - injection H as <-. constructor.
  - inv_ok. injection H as <-. constructor; [done|by apply IH].
Qed.

(** What a verified submission says, and whose it is. *)
Record submission_ok (session : SessionID) (ch : Hash) (gh : option Hash)
    (roster : KpEncryptedShareRoster) (s : KpSigned ProvisionerInitRequest) (enc : GuardianEncryptedShare)
    : Prop := {
  su_signature : kp_verify_signature s = Ok (kp_data s);
  su_session : pi_expected_session_id (kp_data s) = session;
  su_config : expected_config_hash (kp_data s) = ch;
  su_genesis : expected_genesis_state_hash (kp_data s) = gh;
  su_holder : validate_share_assignment roster (signer_fingerprint s) (ge_id enc) = Ok tt;
  su_share : pi_encrypted_share (kp_data s) = enc;
}.

Lemma lift_kp_Ok {A} (o : kp_result A) a : lift_kp o = Ok a <-> o = Ok a.
Proof. destruct o; cbn; split; congruence. Qed.

Lemma verify_signature_data {T} `{KpSigningIntent T} (s : KpSigned T) x :
  kp_verify_signature s = Ok x -> x = kp_data s.
Proof. unfold kp_verify_signature. intros Hv. by inv_ok. Qed.

Lemma verify_submission_ok session ch gh roster s enc :
  verify_submission session ch gh roster s = Ok enc -> submission_ok session ch gh roster s enc.
Proof.
  unfold verify_submission. intros H. inv_ok. subst enc.
  repeat match goal with H : lift_kp _ = Ok _ |- _ => apply lift_kp_Ok in H end.
  apply verify_signature_data in E as Hd. subst v. unfold validate_session in *. inv_ok.
  rewrite String.eqb_eq, !bool_decide_eq_true in *. destruct v3. by constructor.
Qed.

Lemma submissions_ok request session ch gh roster enc :
  verify_signed_submissions request session ch gh roster = Ok enc ->
  Forall2 (submission_ok session ch gh roster) request enc.
Proof.
  intros H%mapM_outcome_Forall2. eapply Forall2_impl; [exact H|]. apply verify_submission_ok.
Qed.

Lemma verify_submissions_safe request session ch gh roster :
  verify_signed_submissions request session ch gh roster <> Panic.
Proof.
  apply mapM_safe. intros s. unfold verify_submission.
  repeat (apply bind_safe; [auto with hashi|intros ? _]). done.
Qed.

(** The batch speaks for the approved configuration and genesis state. *)
Lemma batch_approved ap session ch gh roster request enc :
  honest_batch ap request -> Forall2 (submission_ok session ch gh roster) request enc -> enc <> [] ->
  ch = init_config_digest (ap_config ap)
  /\ match gh with None => True | Some h => h = genesis_digest (ap_genesis ap) end.
Proof.
  intros Hb Hall Hne. assert (request <> []) as Hr by (destruct Hall; congruence).
  assert (Forall (fun s => submission_ok session ch gh roster s (pi_encrypted_share (kp_data s))) request) as Hf.
  { clear -Hall. induction Hall as [|s e ? ? Hs]; constructor; [|done]. by destruct (su_share _ _ _ _ _ _ Hs). }
  assert (Forall (fun s => kp_verify_signature s = Ok (kp_data s)) request) as Hv.
  { eapply Forall_impl; [exact Hf|]. by intros s []. }
  apply (Hb Hv) in Hr. apply Exists_exists in Hr as (s & Hin & Hc & Hg).
  eapply Forall_forall in Hf; [|exact Hin]. destruct Hf as [_ _ <- <- _ _]. done.
Qed.

(** The enclave a provisioner initialization leaves. *)
Definition provisioned (keys : SessionKeys) (ic : InitConfig) (hid : Address) (master : HashiMasterG)
    (init : TemporaryInitState) (heartbeats : Z) (kp : BtcKeypair) : Enclave :=
  mkEnclave (mkEnclaveConfig keys.1 keys.2 (Some tt) (Some kp) (Some (ic_deployment ic)) (Some master)
               (Some (ic_limiter_config ic)) (Some hid))
    (mkEnclaveState heartbeats (Some (Withdraw ProvisionerInitialized)) None None (Some init) None).

(** The genesis record, if any, and then the completion record. *)
Definition genesis_written (genesis : option GenesisLogMessage) (w1 : Write) (s3 s3' : list LogRecord)
    : Prop :=
  match genesis with
  | Some g => after_write w1 (LGenesis g) s3 s3'
  | None => s3' = s3
  end.

Lemma commit_pi_cases keys ic hid master init hb s3 w1 w2 install r w' :
  commit_provisioner_init w1 w2 install (mkWorld (armed_enclave keys ic hid master init hb) s3) = (r, w') ->
  exists s3', genesis_written (pi_genesis_log install) w1 s3 s3' /\ same_log s3' (w_s3 w')
    /\ ((r = Panic /\ ~ all_written [w1; w2])
        \/ (r = Ok tt /\ w_enclave w' = provisioned keys ic hid master init hb (pi_btc_keypair install)
            /\ (pi_genesis_log install <> None -> write_fate w1 = Written))).
Proof.
  destruct install as [kp [g|] c], w1 as [d1 f1], w2 as [d2 f2]; intros H; destruct f1; try destruct f2;
    injection H as <- <-;
    (eexists; split; [reflexivity|]; split; [by first [apply inert_same|done]|]);
    first [right; done | left; split; [done|]; intros Hall; inversion Hall as [|? ? ? Hall']; subst; by inversion Hall'].
Qed.

(** The approved genesis record puts the approved committee in office. *)
Lemma genesis_governs ap d s3 :
  approved_ok ap -> unserved s3 ->
  governed ap (s3 ++ [mkLogRecord d (LGenesis (genesis_log_of (ap_genesis ap)))]).
Proof.
  intros Hap (Hw & Hh & Hg).
  assert (read_genesis (s3 ++ [mkLogRecord d (LGenesis (genesis_log_of (ap_genesis ap)))])
          = Some (genesis_log_of (ap_genesis ap))) as Hr.
  { unfold read_genesis, genesis_records in *. rewrite omap_app, Hg. done. }
  constructor; [done|]. constructor; [by rewrite Hr|apply Hap|].
  unfold handover_records in *. rewrite omap_app, Hh. done.
Qed.

Lemma genesis_log_inv ap sk d s3 :
  approved_ok ap -> log_inv ap sk s3 -> unserved s3 ->
  log_inv ap sk (s3 ++ [mkLogRecord d (LGenesis (genesis_log_of (ap_genesis ap)))]).
Proof.
  intros Hap [Hk Hl _ Hc] Hu. constructor; [done| |right; by apply genesis_governs|].
  - eapply log_ok_ext; [|exact Hl]. unfold withdrawals. rewrite omap_app. apply app_nil_r.
  - eapply ceremonies_ext; [..|exact Hc]; [rewrite ceremony_logs_snoc|rewrite kp_share_logs_snoc]; apply app_nil_r.
Qed.

Lemma enclave_armed ap sk s3 e :
  enclave_ok ap sk s3 e -> lifecycle (e_state e) = Some (Withdraw OperatorInitialized) ->
  exists keys ic hid master init hb, e = armed_enclave keys ic hid master init hb
    /\ armed_ok sk s3 ic hid master init.
Proof.
  intros [| |keys ic hid master init hb Har|? []|? ? []] ?; try done; [by exists keys, ic, hid, master, init, hb|congruence|congruence].
Qed.

(** What the bindings of an armed session are once the batch has approved them. *)
Lemma armed_bindings ap sk s3 ic hid master init :
  approved_ok ap -> log_inv ap sk s3 -> armed_ok sk s3 ic hid master init ->
  config_hash init = init_config_digest (ap_config ap) ->
  match genesis_digest <$> genesis_state init with None => True | Some h => h = genesis_digest (ap_genesis ap) end ->
  ic = ap_config ap /\ hid = ap_hashi_id ap
  /\ match genesis_state init with
     | Some g => g = ap_genesis ap /\ unserved s3
     | None => governed ap s3
     end.
Proof.
  intros Hap Hlog [Hh _ Hb] Hc Hg. rewrite Hh in Hc. apply Hap in Hc as ->. split; [done|].
  destruct (genesis_state init) as [g|]; cbn in Hg.
  - apply Hap in Hg as ->. destruct Hb as (-> & _ & ?). done.
  - destruct Hb as (gl & Hr & -> & _). destruct (li_committees _ _ _ Hlog) as [(_ & _ & Hn)|Hgov].
    + unfold read_genesis in Hr. by rewrite Hn in Hr.
    + rewrite (gv_genesis _ _ Hgov) in Hr. injection Hr as <-. done.
Qed.

Lemma provisioned_standby ap keys ic hid master init hb kp :
  ic = ap_config ap -> hid = ap_hashi_id ap ->
  standby (ap_limits ap) (ap_hashi_id ap) (provisioned keys ic hid master init hb kp).
Proof. intros -> ->. by repeat constructor. Qed.

Lemma commit_pi_handled ap sk boot w1 w2 keys ic hid master init hb s3 m :
  approved_ok ap -> log_inv ap sk s3 -> armed_ok sk s3 ic hid master init ->
  ic = ap_config ap -> hid = ap_hashi_id ap ->
  match genesis_state init with
  | Some g => g = ap_genesis ap /\ unserved s3
  | None => governed ap s3
  end ->
  handled ap boot [w1; w2]
    (commit_provisioner_init w1 w2
       (mkPIInstall (btc_keypair_of sk) (genesis_log_of <$> genesis_state init) m)
       (mkWorld (armed_enclave keys ic hid master init hb) s3)).
Proof.
  intros Hap Hlog Har Hic Hhid Hg. destruct (commit_provisioner_init _ _ _ _) as [r w'] eqn:H.
  apply commit_pi_cases in H as (s3' & Hs3 & Hsame & Hr). cbn [pi_genesis_log pi_btc_keypair] in *.
  assert (log_inv ap sk s3' /\ (r = Ok tt -> governed ap s3')) as [Hlog' Hgov].
  { destruct (genesis_state init) as [g|]; cbn in Hs3, Hr |- *.
    - destruct Hg as [-> Hu]. unfold after_write in Hs3. destruct (write_fate w1) eqn:Hf; subst s3'.
      + split; [by apply genesis_log_inv|]. intros _. by apply genesis_governs.
      + split; [done|]. intros ->. destruct Hr as [[[=] _]|(_ & _ & Hw)]. by discriminate Hw.
      + split; [by apply genesis_log_inv|]. intros _. by apply genesis_governs.
    - subst s3'. done. }
  destruct Hr as [[-> Hn]|(-> & He & _)].
  - apply (handled_panic _ _ _ _ sk); [by eapply log_inv_same|done].
  - apply (handled_ok _ _ _ _ sk); [by eapply log_inv_same|]. rewrite He. apply en_standby; [|..|done|done].
    + by apply provisioned_standby.
    + eapply governed_alike; [apply Hsame|by apply Hgov].
Qed.

Lemma provisioner_init_handled ap boot w1 w2 request w :
  approved_ok ap -> history_ok ap w -> honest_batch ap request ->
  handled ap boot [w1; w2] (provisioner_init w1 w2 request w).
Proof.
  intros Hap Hh Hb. apply handled_lifecycle; [done|]. intros Hl. destruct (Hh) as (sk & Hlog & Hen).
  destruct (enclave_armed _ _ _ _ Hen Hl) as (keys & ic & hid & master & init & hb & He & Har).
  destruct w as [e s3]; cbn [w_s3 w_enclave] in *. subst e.
  set (w := mkWorld (armed_enclave keys ic hid master init hb) s3) in *.
  apply handled_assoc. eapply handled_eval; [reflexivity|]. cbn beta zeta.
  do 2 (apply handled_assoc, handled_read). cbn [s3_session_id encryption_secret_key e_config w_enclave w armed_enclave].
  apply handled_assoc, handled_outcome; [done|apply verify_submissions_safe|]. intros enc Henc.
  apply handled_assoc, handled_outcome; [done|auto with hashi|]. intros shares Hsh%lift_kp_Ok.
  destruct (decrypt_verify_spec _ _ _ _ Hsh) as (Hids & _ & _ & Ht & _).
  rewrite (combine_verified sk) with (enc := enc) (key := keys.2); [|apply Hlog|apply Har|done].
  apply handled_assoc, handled_outcome; [done|done|]. intros ? [= <-].
  rewrite (so_pubkey _ _ (ar_state _ _ _ _ _ _ Har)).
  apply handled_assoc, handled_outcome; [done|apply guard_safe|]. intros _ _.
  apply submissions_ok in Henc.
  assert (enc <> []) as Hne.
  { intros ->. destruct (so_sharing _ _ (ar_state _ _ _ _ _ _ Har)) as (n & t & random & Hp & _ & _).
    apply num_shares_new in Hp as (Ht2 & _ & Hp). unfold threshold in Ht. rewrite Hp in Ht. cbn in Ht.
    apply (f_equal length) in Hids. rewrite !length_fmap in Hids. cbn in Hids. lia. }
  destruct (batch_approved _ _ _ _ _ _ _ Hb Henc Hne) as [Hch Hgh].
  destruct (armed_bindings _ _ _ _ _ _ _ Hap Hlog Har Hch Hgh) as (Hic & Hhid & Hg).
  pose proof (commit_pi_handled ap sk boot w1 w2 keys ic hid master init hb s3) as Hcommit.
  destruct (genesis_state init) as [g|] eqn:Hgen; cbn [fmap option_fmap option_map] in *.
  - unfold ensure_no_serving_committee. apply handled_assoc, handled_assoc. eapply handled_some; [reflexivity|].
    apply handled_assoc. eapply handled_some; [reflexivity|]. apply handled_assoc, handled_read. cbn [w_s3 w].
    destruct (read_latest_committee s3); [by apply handled_err|]. by apply Hcommit.
  - by apply Hcommit.
Qed.
End guardian.
