(* ===== verification/CeremonyTheorems.v ===== *)
(** * The guardian enclave: ceremonies preserve the invariant

    A new key, a new set of key provisioners, a confirmation and a new certificate: each
    leaves the log and the enclave as the invariant says, and aborts only on a failed
    write. *)

From stdpp Require Import strings.
From S2P Require Import MonitorDomain TxUtxos Limiter Bitmap Committee CommitteeProofs SecretSharing SecretSharingProofs KpShares Guardian GuardianInit GuardianCeremony GuardianProofs CeremonyProofs GuardianInitProofs Prelude.

Section guardian.
Context `{GC : GuardianCrypto} {SL : ScalarFieldLaws}.

#[local] Hint Resolve lift_kp_safe verify_signature_safe validate_session_safe validate_assignment_safe
  decrypt_verify_safe next_sharing_seq_safe : hashi.

(** ** Writes and proposals *)

Lemma handled_write {A} ap sk boot ws w wr m (f : unit -> M World EnclaveError A) :
  s3_logger (e_config (w_enclave w)) = Some tt -> wr ∈ ws -> log_inv ap sk (w_s3 w) ->
  log_inv ap sk (w_s3 w ++ [mkLogRecord (write_dir wr) m]) ->
  handled ap boot ws (f tt (mkWorld (w_enclave w) (w_s3 w ++ [mkLogRecord (write_dir wr) m]))) ->
  handled ap boot ws ((write_log wr m ≫= f) w).
Proof.
  intros Hl Hin H0 H1 Hf. destruct (write_cases w wr m Hl) as ([e s3] & Hw & Hs & He).
  cbn in He, Hs. subst e. unfold after_write in Hs.
  assert (write_fate wr <> Written -> ~ all_written ws) as Hn.
  { intros Hne Hall. eapply Forall_forall in Hall; [|exact Hin]. done. }
  destruct (write_fate wr) eqn:Hfate; subst s3.
  - by erewrite M_bind_eval by exact Hw.
  - erewrite M_bind_panic by exact Hw. apply (handled_panic _ _ _ _ sk); [done|by apply Hn].
  - erewrite M_bind_panic by exact Hw. apply (handled_panic _ _ _ _ sk); [done|by apply Hn].
Qed.

Lemma from_proposal_ok sk c shares :
  shares_key sk c -> Z.of_nat (length shares) = num_shares (instance_of c) ->
  from_proposal (mkCeremonyProposalLogMessage c shares)
  = Ok (mkCeremonyState (instance_of c) (pubkey_of sk) 0 shares).
Proof.
  intros Hk Hlen. unfold from_proposal. cbn [cp_ceremony cp_encrypted_shares].
  rewrite (into_instance_ok _ _ Hk). cbn [mbind outcome_bind].
  unfold ceremony_state_from_parts. by rewrite Hlen, Z.eqb_refl.
Qed.

(** The pending ceremony of a proposal that nobody has confirmed. *)
Definition proposed (d : DeploymentConfig) (p : CeremonyProposalLogMessage) (state : CeremonyState)
    : PendingCeremony := mkPendingCeremony p (artifacts_digest d state) ∅.

Lemma install_pending_eval sk keys d s3 c shares :
  shares_key sk c -> Z.of_nat (length shares) = num_shares (instance_of c) ->
  install_pending_ceremony d (mkCeremonyProposalLogMessage c shares)
    (mkWorld (ceremony_enclave keys d CeremonyInitialized None) s3)
  = (Ok tt, mkWorld (ceremony_enclave keys d CeremonyInitialized
       (Some (proposed d (mkCeremonyProposalLogMessage c shares)
                (mkCeremonyState (instance_of c) (pubkey_of sk) 0 shares)))) s3).
Proof.
  intros Hk Hlen. unfold install_pending_ceremony. erewrite M_bind_eval by reflexivity. cbn.
  unfold pending_ceremony_new. rewrite (from_proposal_ok _ _ _ Hk Hlen). reflexivity.
Qed.

Lemma proposed_ok sk s3 session d c shares :
  shares_key sk c -> unused s3 (ceremony_sharing_seq c) -> share_roster_wf shares ->
  Z.of_nat (length shares) = num_shares (instance_of c) ->
  pending_ok sk s3 session (proposed d (mkCeremonyProposalLogMessage c shares)
                (mkCeremonyState (instance_of c) (pubkey_of sk) 0 shares)).
Proof.
  intros Hk Hun Hr Hlen. constructor; cbn; try done. eexists d, _. split; [|done]. by apply from_proposal_ok.
Qed.

Lemma enclave_ceremony ap sk s3 e stage :
  enclave_ok ap sk s3 e -> lifecycle (e_state e) = Some (Ceremony stage) ->
  exists keys d pending, e = ceremony_enclave keys d stage pending /\ stage_ok sk s3 keys.1 stage pending.
Proof.
  intros [|keys d st pending Hst| |? []|? ? []] Hl; try done; try congruence.
  injection Hl as <-. by exists keys, d, pending.
Qed.

Lemma log_inv_new_key ap sk sk' s3 :
  log_inv ap sk s3 -> sk' <> s_zero -> ceremony_logs s3 = [] -> log_inv ap sk' s3.
Proof. intros [_ Hl Hc He] Hk Hn. constructor; try done. apply ceremonies_none; [done|apply He]. Qed.

(** ** A new key *)

(** What the wire layer builds: a validated roster of as many certificates as shares. *)
Definition setup_request_ok (request : SetupNewKeyRequest) : Prop :=
  exists certs roster n t, cert_roster_new certs = Ok roster /\ setup_request_new roster n t = Ok request.

Lemma setup_request_spec request :
  setup_request_ok request ->
  exists n t, sharing_params_new n t = Ok (setup_params request)
    /\ cert_roster_wf (key_provisioner_certs_roster request)
    /\ Z.of_nat (length (key_provisioner_certs_roster request)) = n.
Proof.
  intros (certs & roster & n & t & [Hwf _]%cert_roster_new_wf & H).
  unfold setup_request_new in H. inv_ok. subst request. apply lift_kp_Ok in E. unfold lift_sharing in E.
  destruct (sharing_params_new n t) as [p| |] eqn:Hp; try done. injection E as ->.
  apply Z.eqb_eq in E0. exists n, t. apply num_shares_new in Hp as Hb. destruct Hb as (_ & _ & ->). done.
Qed.

Definition coefficients_ok (params : SecretSharingParams) (random : list Scalar) : Prop :=
  Z.of_nat (length random) = p_threshold params - 1.

Lemma setup_handled ap boot sk random wr request w :
  history_ok ap w -> setup_request_ok request -> sk <> s_zero ->
  coefficients_ok (setup_params request) random ->
  handled ap boot [wr] (setup_new_key sk random wr request w).
Proof.
  intros Hh Hreq Hsk Hco. apply handled_lifecycle; [done|]. intros Hl. destruct (Hh) as (sk0 & Hlog0 & Hen).
  destruct (enclave_ceremony _ _ _ _ _ Hen Hl) as (keys & d & pending & He & Hst).
  destruct pending; [done|]. destruct w as [e s3]; cbn [w_s3 w_enclave] in *. subst e.
  eapply handled_some; [reflexivity|]. apply handled_read. cbn [w_s3].
  apply handled_outcome; [done|apply guard_safe|]. intros _ Hnone%guard_Ok.
  destruct (ceremony_logs s3) eqn:Hcl; [|done].
  pose proof (log_inv_new_key _ _ _ _ Hlog0 Hsk Hcl) as Hlog.
  apply handled_assoc. eapply handled_some; [reflexivity|].
  apply handled_assoc. eapply handled_some; [reflexivity|]. apply handled_read. cbn [w_s3].
  apply handled_outcome; [done|auto with hashi|]. intros seq Hseq%next_sharing_seq_unused.
  destruct (setup_request_spec _ Hreq) as (n & t & Hp & Hr & Hn).
  destruct (split_and_encrypt_spec sk _ n t _ random Hp Hr Hn) as (shares & Hsplit & Hwf & Hlen & _).
  destruct (num_shares_new _ _ _ Hp) as (_ & _ & Hpe).
  assert (Z.of_nat (length random) = t - 1) as Hrand by (unfold coefficients_ok in Hco; by rewrite Hpe in Hco).
  destruct (instance_of_split sk n t _ random seq Hp Hrand) as (inst & Hi & Hsh & Hsq & Hpi).
  rewrite Hsplit. eapply handled_eval; [reflexivity|]. cbn beta iota zeta.
  rewrite Hi. eapply handled_eval; [reflexivity|]. cbn zeta.
  set (c := NewKey inst (pubkey_of sk)). assert (shares_key sk c) as Hk by done.
  assert (Z.of_nat (length shares) = num_shares (instance_of c)) as Hnum.
  { cbn. unfold num_shares. by rewrite Hpi, Hpe, Hlen. }
  pose proof (inert_same s3 (write_dir wr) (LCeremonyProposal (mkCeremonyProposalLogMessage c shares)) I) as Hs.
  pose proof (log_inv_same _ _ _ _ Hs Hlog) as Hlog'.
  apply (handled_write _ sk); [done|by apply list_elem_of_singleton|done|done|].
  eapply handled_some; [reflexivity|]. eapply handled_eval; [by apply (install_pending_eval sk)|].
  eapply handled_eval; [reflexivity|]. apply (handled_ok _ _ _ _ sk); [done|]. apply en_ceremony.
  apply proposed_ok; [done| |done|done]. eapply unused_same; [exact Hs|]. cbn. by rewrite Hsq.
Qed.

(** ** A new set of key provisioners *)

(** What the wire layer builds, and as many coefficients as the threshold asks for. *)
Definition rotation_request_ok (random : list Scalar) (r : ProvisionerRotateKpSetRequest) : Prop :=
  (exists certs roster n t, cert_roster_new certs = Ok roster
     /\ rotate_request_new (rk_expected_session_id r) (expected_deployment_config_hash r)
          (encrypted_old_share r) roster n t = Ok r)
  /\ coefficients_ok (new_params r) random.

Definition rotation_batch_ok (random : list Scalar)
    (submissions : list (KpSigned ProvisionerRotateKpSetRequest)) : Prop :=
  rotate_batch_new submissions = Ok submissions
  /\ Forall (fun s => rotation_request_ok random (kp_data s)) submissions.

(** Shares can be dealt to the roster with the parameters. *)
Definition dealable (random : list Scalar) (roster : KpCertRoster) (params : SecretSharingParams) : Prop :=
  exists n t, sharing_params_new n t = Ok params /\ cert_roster_wf roster
    /\ Z.of_nat (length roster) = n /\ Z.of_nat (length random) = t - 1.

Lemma rotation_request_spec random r :
  rotation_request_ok random r -> dealable random (new_kp_certs_roster r) (new_params r).
Proof.
  intros [(certs & roster & n & t & [Hwf _]%cert_roster_new_wf & H) Hco].
  unfold rotate_request_new in H. inv_ok. apply lift_kp_Ok in E. unfold lift_sharing in E.
  destruct (sharing_params_new n t) as [p| |] eqn:Hp; try done. injection E as ->.
  apply Z.eqb_eq in E0. rewrite <- H in *. cbn in *. exists n, t.
  apply num_shares_new in Hp as Hb. destruct Hb as (_ & _ & ->). done.
Qed.

(** The agreed roster and parameters are those of the submissions. *)
Lemma verify_rotation_spec (P : KpCertRoster -> SecretSharingParams -> Prop) subs session h :
  forall agreed verified,
  Forall (fun s => P (new_kp_certs_roster (kp_data s)) (new_params (kp_data s))) subs ->
  match agreed with Some a => P a.1 a.2 | None => subs <> [] end ->
  let run := verify_rotation_submissions subs session h (fst <$> agreed) (snd <$> agreed) verified in
  run <> Panic
  /\ forall p, run = Ok p -> P (vr_new_kp_certs_roster p) (vr_new_params p).
Proof.
  induction subs as [|s subs IH]; intros agreed verified Hall Ha; cbn [verify_rotation_submissions].
  { destruct agreed as [[r q]|]; [|done]. split; [done|]. intros p [= <-]. exact Ha. }
  apply Forall_cons in Hall as [Hs Hall].
  destruct (kp_verify_signature s) as [x|e|] eqn:Hv; [|done|by apply verify_signature_safe in Hv].
  apply verify_signature_data in Hv as ->. cbn [lift_kp mbind outcome_bind].
  destruct (validate_session (kp_data s) session) as [[]|e|] eqn:Hse; [|done|by apply validate_session_safe in Hse].
  cbn [lift_kp mbind outcome_bind]. destruct (bool_decide (_ = h)); [|done]. cbn [guard mbind outcome_bind].
  destruct agreed as [[r q]|]; cbn [fmap option_fmap option_map fst snd require_agreement].
  - destruct (bool_decide (r = _)); [|done]. cbn [guard mbind outcome_bind].
    destruct (bool_decide (q = _)); [|done]. cbn [guard mbind outcome_bind]. by apply (IH (Some (r, q))).
  - cbn [mbind outcome_bind].
    apply (IH (Some (new_kp_certs_roster (kp_data s), new_params (kp_data s)))); [done|exact Hs].
Qed.

Lemma authorize_safe subs roster : authorize_share_submissions subs roster <> Panic.
Proof. apply mapM_safe. intros s. apply bind_safe; [auto with hashi|done]. Qed.

Lemma complete_rotation_handled ap sk boot wr random keys d s3 p c m state seq :
  history_ok ap (mkWorld (ceremony_enclave keys d CeremonyInitialized None) s3) ->
  log_inv ap sk s3 -> dealable random (vr_new_kp_certs_roster p) (vr_new_params p) ->
  c ∈ ceremony_logs s3 -> state_ok sk state ->
  state = mkCeremonyState (instance_of c) (pubkey_of sk) (kss_cert_seq m) (kss_encrypted_shares m) ->
  unused s3 seq ->
  handled ap boot [wr] (complete_rotation wr random p state seq
    (mkWorld (ceremony_enclave keys d CeremonyInitialized None) s3)).
Proof.
  intros Hh Hlog (n & t & Hp & Hr & Hn & Hrand) Hc Hst Hstate Hun.
  apply handled_outcome; [done|apply authorize_safe|]. intros enc _. apply handled_read.
  apply handled_outcome; [done|auto with hashi|]. intros shares Hsh%lift_kp_Ok.
  apply handled_assoc. rewrite (combine_verified sk) with (enc := enc) (key := keys.2);
    [|apply Hlog|apply Hst|done].
  eapply handled_eval; [reflexivity|]. cbn zeta. apply handled_assoc.
  apply handled_outcome; [done|apply guard_safe|]. intros _ _.
  destruct (split_and_encrypt_spec sk _ n t _ random Hp Hr Hn) as (new_shares & Hsplit & Hwf & Hlen & _).
  destruct (num_shares_new _ _ _ Hp) as (_ & _ & Hpe).
  destruct (instance_of_split sk n t _ random seq Hp Hrand) as (inst & Hi & Hshof & Hsq & Hpi).
  apply handled_assoc. rewrite Hsplit. eapply handled_eval; [reflexivity|]. cbn beta iota.
  apply handled_assoc. rewrite Hi. eapply handled_eval; [reflexivity|]. cbn zeta.
  set (c' := Rotate (cs_instance state) inst (pubkey_of sk)).
  assert (shares_key sk c') as Hk.
  { constructor; [done|done|]. cbn. rewrite Hsq, Hstate. cbn. rewrite sharing_seq_instance. by apply Hun. }
  assert (Z.of_nat (length new_shares) = num_shares (instance_of c')) as Hnum.
  { cbn. unfold num_shares. by rewrite Hpi, Hpe, Hlen. }
  pose proof (inert_same s3 (write_dir wr) (LCeremonyProposal (mkCeremonyProposalLogMessage c' new_shares)) I) as Hs.
  pose proof (log_inv_same _ _ _ _ Hs Hlog) as Hlog'.
  apply handled_assoc, (handled_write _ sk); [done|by apply list_elem_of_singleton|done|done|].
  apply handled_assoc. eapply handled_some; [reflexivity|].
  apply handled_assoc. eapply handled_eval; [by apply (install_pending_eval sk)|].
  eapply handled_eval; [reflexivity|]. eapply handled_eval; [reflexivity|].
  apply (handled_ok _ _ _ _ sk); [done|]. apply en_ceremony.
  apply proposed_ok; [done| |done|done]. eapply unused_same; [exact Hs|]. cbn. by rewrite Hsq.
Qed.

Lemma rotate_handled ap boot random wr submissions w :
  history_ok ap w -> rotation_batch_ok random submissions ->
  handled ap boot [wr] (rotate_kp_set random wr submissions w).
Proof.
  intros Hh [Hne Hall]. apply handled_lifecycle; [done|]. intros Hl. destruct (Hh) as (sk & Hlog & Hen).
  destruct (enclave_ceremony _ _ _ _ _ Hen Hl) as (keys & d & pending & He & Hst).
  destruct pending; [done|]. destruct w as [e s3]; cbn [w_s3 w_enclave] in *. subst e.
  eapply handled_some; [reflexivity|]. apply handled_read.
  destruct (verify_rotation_spec (dealable random) submissions keys.1 (deployment_digest d) None []) as [Hsafe Hdeal].
  { eapply Forall_impl; [exact Hall|]. intros s. apply rotation_request_spec. }
  { by destruct submissions. }
  apply handled_outcome; [done|exact Hsafe|]. intros p Hp%Hdeal.
  apply handled_assoc. eapply handled_some; [reflexivity|].
  apply handled_assoc. eapply handled_some; [reflexivity|]. apply handled_read. cbn [w_s3].
  destruct (read_ceremony_cases _ _ (li_ceremonies _ _ _ Hlog))
    as [[_ [e Hr]]|(c & m & state & Hc & _ & _ & Hr & Hst' & Hstate)]; rewrite Hr; [by apply handled_err|].
  eapply handled_eval; [reflexivity|].
  apply handled_outcome; [done|auto with hashi|]. intros seq Hseq%next_sharing_seq_unused.
  by eapply complete_rotation_handled.
Qed.

(** ** Confirmations *)

Lemma validate_confirmation_safe p f digest : validate_confirmation p f digest <> Panic.
Proof. apply bind_safe; [auto with hashi|]. intros _ _. by destruct (find_by_fingerprint _ f). Qed.

Lemma validate_confirmation_ok p f digest id already :
  share_roster_wf (cp_encrypted_shares (proposal p)) ->
  validate_confirmation p f digest = Ok (id, already) ->
  digest = ceremony_artifacts_digest p
  /\ exists s, s ∈ cp_encrypted_shares (proposal p) /\ recipient_fingerprint s = f /\ ks_id s = id.
Proof.
  intros Hwf H. unfold validate_confirmation in H. inv_ok. apply bool_decide_eq_true in E.
  split; [done|]. destruct (find_by_fingerprint _ f) as [s|] eqn:Hf; [|done]. injection H as <- _.
  apply (find_by_fingerprint_spec _ _ _ Hwf) in Hf as [? ?]. by exists s.
Qed.

Lemma pending_status_safe p : pending_status p <> Panic.
Proof. unfold pending_status. by destruct (confirmation_status p) as [[[]]|]. Qed.

Lemma pending_status_complete p status :
  pending_status p = Ok status -> completed status = true -> ceremony_is_complete p = true.
Proof.
  unfold pending_status, ceremony_is_complete. destruct (confirmation_status p) as [[[]]|]; [|done].
  by intros [= <-].
Qed.

(** A verified confirmation of a holder counts for its share. *)
Lemma record_confirmation_ok sk s3 session p s signed :
  pending_ok sk s3 session p -> s ∈ cp_encrypted_shares (proposal p) ->
  kp_verify_signature signed = Ok (kp_data signed) -> signer_fingerprint signed = recipient_fingerprint s ->
  cc_expected_session_id (kp_data signed) = session ->
  cc_ceremony_artifacts_digest (kp_data signed) = ceremony_artifacts_digest p ->
  pending_ok sk s3 session (record_confirmation (ks_id s) p).
Proof.
  intros [Hk Hu Hr Hd Hc] Hs Hv Hf Hse Hdi. constructor; cbn; try done.
  intros id [->%elem_of_singleton|Hid]%elem_of_union; [|by apply Hc].
  exists s. split_and!; [done|done|]. by exists signed.
Qed.

Lemma roster_ids_NoDup r : share_roster_wf r -> NoDup (ks_id <$> r).
Proof. intros [-> _ _]. apply NoDup_seqZ. Qed.

(** When as many shares are confirmed as there are, every one is. *)
Lemma complete_unanimous sk s3 session p :
  pending_ok sk s3 session p -> ceremony_is_complete p = true ->
  unanimous (cp_ceremony (proposal p)) (cp_encrypted_shares (proposal p)).
Proof.
  intros [Hk Hu Hr (d & state & Hstate & Hd) Hc] Hcomplete.
  pose proof (roster_ids_NoDup _ Hr) as Hnd. set (shares := cp_encrypted_shares (proposal p)) in *.
  assert (base.size (confirmed_share_ids p) = length shares) as Hsize.
  { unfold ceremony_is_complete, confirmation_status in Hcomplete. destruct (_ && _); [|done]. fold shares in Hcomplete. lia. }
  assert (confirmed_share_ids p ⊆ list_to_set (ks_id <$> shares)) as Hsub.
  { intros id (s & Hs & <- & _)%Hc. apply elem_of_list_to_set, list_elem_of_fmap_2, Hs. }
  assert (list_to_set (ks_id <$> shares) ⊆ confirmed_share_ids p) as Hsup.
  { destruct (decide (list_to_set (ks_id <$> shares) ⊆ confirmed_share_ids p)) as [|Hn]; [done|].
    assert (confirmed_share_ids p ⊂ list_to_set (C:=gset ShareID) (ks_id <$> shares)) as Hlt by done.
    apply subset_size in Hlt. rewrite size_list_to_set, length_fmap in Hlt by done. lia. }
  exists session, d, state. split; [by destruct (proposal p)|]. apply Forall_forall. intros s Hs.
  destruct (Hc (ks_id s)) as (s' & Hs' & Hid & Hconf).
  { apply Hsup, elem_of_list_to_set, list_elem_of_fmap_2, Hs. }
  rewrite <- Hd. by rewrite <- (NoDup_fmap_inj_on ks_id shares s' s).
Qed.

(** A record of a ceremony changes nothing else that is read. *)
Lemma log_inv_ceremonial ap sk s3 d m :
  ceremonial m -> log_inv ap sk s3 -> ceremonies_ok sk (s3 ++ [mkLogRecord d m]) ->
  log_inv ap sk (s3 ++ [mkLogRecord d m]).
Proof. intros Hm Hl He. eapply log_inv_alike; [by apply ceremonial_alike|done|exact Hl]. Qed.

Lemma publish_handled {A} ap sk boot w1 w2 keys d s3 p (k : unit -> M World EnclaveError A) :
  log_inv ap sk s3 -> pending_ok sk s3 keys.1 p -> ceremony_is_complete p = true ->
  let w := mkWorld (ceremony_enclave keys d AwaitingKeyProvisionerConfirmations (Some p)) s3 in
  (forall s3', log_inv ap sk s3' -> handled ap boot [w1; w2] (k tt (mkWorld (w_enclave w) s3'))) ->
  handled ap boot [w1; w2] ((publish_pending_ceremony w1 w2 ≫= k) w).
Proof.
  intros Hlog Hp Hcomplete w Hk. destruct (Hp) as [Hkey [Huc Hus] Hr (dep & state & Hstate & _) _].
  set (c := cp_ceremony (proposal p)) in *. set (shares := cp_encrypted_shares (proposal p)) in *.
  assert (Z.of_nat (length shares) = num_shares (instance_of c)) as Hlen.
  { unfold from_proposal in Hstate. fold c shares in Hstate. rewrite (into_instance_ok _ _ Hkey) in Hstate.
    cbn [mbind outcome_bind] in Hstate. unfold ceremony_state_from_parts in Hstate. inv_ok. lia. }
  apply handled_assoc. eapply handled_some; [reflexivity|]. cbn zeta. fold c shares.
  set (m := mkKpShareStateLogMessage (ceremony_sharing_seq c) 0 shares).
  set (s1 := s3 ++ [mkLogRecord (write_dir w1) (LKpShareState m)]).
  assert (ceremonies_ok sk s1) as Hc1.
  { apply ceremonies_share_state; [apply Hlog|done|]. intros c' Hc'%Huc Heq. cbn in Heq. lia. }
  assert (log_inv ap sk s1) as Hlog1 by (by apply log_inv_ceremonial).
  apply handled_assoc, (handled_write _ sk); [done|by left|done|done|]. cbn [w_s3 w_enclave]. fold s1.
  assert (ceremonies_ok sk (s1 ++ [mkLogRecord (write_dir w2) (LCeremony c)])) as Hc2.
  { apply (ceremonies_publish _ _ _ _ shares); [done|done| | | |done|by eapply complete_unanimous].
    - intros c' Hc'. unfold s1 in Hc'. rewrite ceremony_logs_snoc, app_nil_r in Hc'. by apply Huc.
    - intros m' Hm' Heq. unfold s1 in Hm'. rewrite kp_share_logs_snoc in Hm'.
      apply elem_of_app in Hm' as [Hm'|Hm']; [apply Hus in Hm'; lia|by apply list_elem_of_singleton in Hm'].
    - unfold s1. rewrite kp_share_logs_snoc. apply elem_of_app. right. by left. }
  apply (handled_write _ sk); [done|by right; left|done|by apply log_inv_ceremonial|].
  apply Hk. by apply log_inv_ceremonial.
Qed.

Lemma confirm_handled ap boot w1 w2 signed w :
  history_ok ap w -> handled ap boot [w1; w2] (confirm_ceremony w1 w2 signed w).
Proof.
  intros Hh. apply handled_lifecycle; [done|]. intros Hl. destruct (Hh) as (sk & Hlog & Hen).
  destruct (enclave_ceremony _ _ _ _ _ Hen Hl) as (keys & d & pending & He & Hst).
  destruct pending as [p|]; [|done]. destruct w as [e s3]; cbn [w_s3 w_enclave] in *. subst e.
  eapply handled_some; [reflexivity|].
  apply handled_outcome; [done|auto with hashi|]. intros request Hv%lift_kp_Ok.
  apply verify_signature_data in Hv as Hreq. subst request. apply handled_read. cbn [s3_session_id e_config w_enclave ceremony_enclave].
  apply handled_outcome; [done|auto with hashi|]. intros [] Hse%lift_kp_Ok.
  apply handled_outcome; [done|apply validate_confirmation_safe|]. intros [id already] Hvc.
  destruct (validate_confirmation_ok _ _ _ _ _ (pe_roster _ _ _ _ Hst) Hvc) as (Hdig & s & Hs & Hf & <-).
  unfold validate_session in Hse. apply guard_Ok, String.eqb_eq in Hse. cbn in Hse.
  destruct already.
  { pose proof (pending_status_safe p). split; [|by destruct (pending_status p)].
    by destruct (pending_status p); [exists sk|exists sk|]. }
  pose proof (record_confirmation_ok _ _ _ _ s signed Hst Hs Hv (eq_sym Hf) Hse Hdig) as Hrec.
  set (p' := record_confirmation (ks_id s) p) in *. cbn zeta.
  eapply handled_eval; [reflexivity|]. cbn [w_s3 w_enclave e_config e_state ceremony_enclave with_pending_ceremony
    next_heartbeat_seq lifecycle committee rate_limiter temporary_init_state].
  fold (ceremony_enclave keys d AwaitingKeyProvisionerConfirmations (Some p')).
  assert (history_ok ap (mkWorld (ceremony_enclave keys d AwaitingKeyProvisionerConfirmations (Some p')) s3)) as Hh'.
  { exists sk. split; [done|]. by apply en_ceremony. }
  apply handled_outcome; [done|apply pending_status_safe|]. intros status Hstatus.
  destruct (completed status) eqn:Hdone; [|by split].
  pose proof (pending_status_complete _ _ Hstatus Hdone) as Hcomplete.
  apply (publish_handled _ sk); [done|done|done|]. intros s3' Hlog'. cbn [w_enclave].
  assert (expect_ok (advance_lifecycle_into (Ceremony Completed))
            (mkWorld (ceremony_enclave keys d AwaitingKeyProvisionerConfirmations (Some p')) s3')
          = (Ok tt, mkWorld (ceremony_enclave keys d Completed (Some p')) s3')) as Hadv.
  { unfold expect_ok, advance_lifecycle_into. erewrite M_bind_eval by reflexivity.
    erewrite M_bind_eval by reflexivity. erewrite M_bind_eval by reflexivity. cbn. by rewrite Hcomplete. }
  eapply handled_eval; [exact Hadv|]. apply (handled_ok _ _ _ _ sk); [done|]. by apply en_ceremony.
Qed.

(** ** A new certificate *)

Lemma enclave_active ap sk s3 e :
  enclave_ok ap sk s3 e -> lifecycle (e_state e) = Some (Withdraw Activated) ->
  exists c, serving (ap_limits ap) (ap_hashi_id ap) (ap_committee ap) e s3 c /\ governed ap s3
    /\ enclave_btc_keypair (e_config e) = Some (btc_keypair_of sk)
    /\ temporary_init_state (e_state e) = None /\ pending_ceremony (e_state e) = None.
Proof. intros [| | |? [] |? c] ?; try done; [congruence|by exists c]. Qed.

Lemma replace_recipient_safe r cur new ct : replace_recipient r cur new ct <> Panic.
Proof.
  unfold replace_recipient. do 2 (apply bind_safe; [auto with hashi|intros _ _]).
  by destruct (replace_first _ _ _ _).
Qed.

Lemma rotate_cert_handled ap boot wr signed w :
  history_ok ap w -> handled ap boot [wr] (provisioner_rotate_cert wr signed w).
Proof.
  intros Hh. apply handled_lifecycle; [done|]. intros Hl. destruct (Hh) as (sk & Hlog & Hen).
  destruct (enclave_active _ _ _ _ Hen Hl) as (c & Hsv & Hgov & Hkp & Htemp & Hpend).
  apply handled_outcome; [done|auto with hashi|]. intros request Hv%lift_kp_Ok. apply handled_read.
  apply handled_outcome; [done|auto with hashi|]. intros _ _.
  destruct (sv_config _ _ _ _ _ _ Hsv) as [Hlogger _ [d Hd] _ _ _].
  apply handled_assoc. eapply handled_some; [exact Hlogger|].
  apply handled_assoc. eapply handled_some; [exact Hd|]. apply handled_read.
  destruct (read_ceremony_cases _ _ (li_ceremonies _ _ _ Hlog))
    as [[_ [e Hr]]|(cer & m & state & Hcer & Hm & Hseq & Hr & Hst & Hstate)]; rewrite Hr; [by apply handled_err|].
  eapply handled_eval; [reflexivity|]. unfold apply_cert_rotation. cbn zeta.
  eapply handled_some; [exact Hkp|].
  do 2 (apply handled_outcome; [done|apply guard_safe|]; intros _ _).
  apply handled_outcome; [done|auto with hashi|]. intros _ _.
  apply handled_outcome; [done|apply guard_safe|]. intros _ _. apply handled_read.
  apply handled_outcome; [done|apply lift_kp_safe|].
  { unfold decrypt_share. destruct (hpke_decrypt _ _); [|done]. by destruct (scalar_from_slice _). }
  intros share _. apply handled_outcome; [done| |].
  { unfold lift_sharing, verify_share, guard. by destruct (commitments_contains _ _). }
  intros _ _. apply handled_outcome; [done|apply lift_kp_safe, replace_recipient_safe|].
  intros [shares changed] Hrep%lift_kp_Ok.
  destruct (replace_recipient_wf _ _ _ _ _ _ (so_roster _ _ Hst) Hrep) as (Hwf & Hlen & _).
  assert (forall x, log_inv ap sk (w_s3 w ++ [mkLogRecord (write_dir wr)
    (LKpShareState (mkKpShareStateLogMessage (sharing_seq (cs_instance state)) x shares))])) as Hlog'.
  { intros x. apply log_inv_ceremonial; [done|done|]. apply ceremonies_share_state; [apply Hlog|done|].
    intros c' Hc' Heq. cbn in Heq |- *.
    assert (c' = cer) as ->.
    { apply (ce_distinct _ _ (li_ceremonies _ _ _ Hlog)); [done|done|]. rewrite Hstate in Heq. cbn in Heq.
      by rewrite sharing_seq_instance in Heq. }
    rewrite Hlen, (so_size _ _ Hst), Hstate. done. }
  apply (handled_write _ sk); [done|by apply list_elem_of_singleton|done|apply Hlog'|].
  apply (handled_ok _ _ _ _ sk); [apply Hlog'|]. eapply (en_serving _ _ _ _ c); [|..|done|done|done].
  - eapply serving_alike; [by apply ceremonial_alike|exact Hsv].
  - eapply governed_alike; [by apply ceremonial_alike|exact Hgov].
Qed.
End guardian.
