(* ===== verification/GuardianTheorems.v ===== *)
(** * The guardian enclave: histories

    A history of the guardian is a sequence of requests, heartbeats and activations, with
    sessions that die at any write and sessions that take over from the log.  What the log
    holds along every history, what a released signature means, that a session takes over
    exactly where the one before it stopped, and that only a failed write aborts a
    handler. *)

From S2P Require Import MonitorDomain TxUtxos Limiter Bitmap Committee CommitteeProofs SecretSharing SecretSharingProofs KpShares Guardian GuardianInit GuardianCeremony GuardianProofs CeremonyProofs GuardianInitProofs CeremonyTheorems Prelude.

Section guardian.
Context `{GC : GuardianCrypto} {SL : ScalarFieldLaws}.

(** ** Activation *)

(** The enclave an activation leaves. *)
Definition activated (e : Enclave) (c : Committee) (l : RateLimiter) : Enclave :=
  mkEnclave (e_config e)
    (mkEnclaveState (next_heartbeat_seq (e_state e)) (Some (Withdraw Activated)) (Some c) (Some l)
       None (pending_ceremony (e_state e))).

Lemma commit_cases cfg hid w wr inst r w' :
  standby cfg hid (w_enclave w) ->
  commit_operator_activate wr inst w = (r, w') ->
  after_write wr (LInit (in_completion_log inst)) (w_s3 w) (w_s3 w')
  /\ match write_fate wr with
     | Written => r = Ok tt
         /\ w_enclave w' = activated (w_enclave w) (in_committee inst) (in_rate_limiter inst)
     | _ => r = Panic
     end.
Proof.
  intros [Hcfg Hlc Hcom Hlim [init Hinit]] H.
  destruct w as [[ec [hb lc cm rl tmp pc]] s3]. cbn in *. subst lc cm rl tmp.
  unfold commit_operator_activate in H. erewrite M_bind_eval in H by reflexivity.
  match type of H with (_ ≫= _) ?w1 = _ =>
    destruct (expect_write_cases w1 wr (LInit (in_completion_log inst)) (ac_logger _ _ _ Hcfg))
      as ([e2 s2] & Hwrite & Hs3 & Hen) end.
  cbn in Hen, Hs3. subst e2.
  destruct (write_fate wr) eqn:Hf;
    [erewrite M_bind_eval in H by exact Hwrite
    |erewrite M_bind_panic in H by exact Hwrite..]; by injection H as <- <-.
Qed.

Section activation.
Context (cfg : LimiterConfig) (hid : Address) (g : MoveCommittee) (w : World).
Hypothesis cfg_wf : wf_config cfg.
Hypothesis w_standby : standby cfg hid (w_enclave w).
Hypothesis w_log : log_ok cfg (w_s3 w).
Hypothesis w_committees : committees_ok hid g (w_s3 w).

(** The committee and the digest an activation installs and checks. *)
Definition stored_committee : option Committee :=
  from_move_with_encryption_key_fallback (latest_of g (handover_records (w_s3 w))).

Definition digest_of (init : TemporaryInitState) (c : Committee) : Hash :=
  activation_digest (config_hash init) (cs_instance (ceremony_state init)) c (log_state cfg (w_s3 w)).

Definition install_of (init : TemporaryInitState) (c : Committee) : OAInstall :=
  mkOAInstall c (mkRateLimiter cfg (log_state cfg (w_s3 w)))
    (OAActivated (digest_of init c) (config_hash init) (sharing_seq (cs_instance (ceremony_state init)))
       (c_epoch c) (log_state cfg (w_s3 w))).

Lemma rate_limiter_new_log :
  rate_limiter_new cfg (log_state cfg (w_s3 w)) = inr (mkRateLimiter cfg (log_state cfg (w_s3 w))).
Proof.
  destruct (log_state_wf cfg (w_s3 w) cfg_wf w_log) as (_ & _ & _ & Hle).
  unfold rate_limiter_new. by rewrite bool_decide_false by lia.
Qed.

(** Reading the log fails only on sessions that are not quiet and on an unexpected digest. *)
Lemma oa_install_eval quiet expected init c :
  temporary_init_state (e_state (w_enclave w)) = Some init -> stored_committee = Some c ->
  oa_install_from_request quiet expected w
  = (if quiet then
       if bool_decide (digest_of init c = expected) then Ok (install_of init c)
       else Err (InvalidRequestError (StateHashMismatch expected (digest_of init c)))
     else Err SessionsNotQuiet, w).
Proof.
  intros Hinit Hc. destruct w_standby as [[Hl _ [d Hd] _ Hcfg _] _ _ _ _].
  unfold oa_install_from_request, get_limiter_config.
  erewrite M_bind_eval by (apply get_or_some, Hcfg). erewrite M_bind_eval by (apply get_or_some, Hinit).
  erewrite M_bind_eval by (apply get_or_some, Hl). erewrite M_bind_eval by (apply get_or_some, Hd).
  destruct quiet; [|done]. do 2 erewrite M_bind_eval by reflexivity.
  rewrite (read_latest_committee_last _ _ _ w_committees).
  erewrite M_bind_eval by reflexivity. unfold stored_committee in Hc. rewrite Hc.
  erewrite M_bind_eval by reflexivity.
  erewrite M_bind_eval by (apply of_outcome_eval, recover_log_state; done).
  erewrite M_bind_eval by (rewrite rate_limiter_new_log; reflexivity). cbn zeta.
  fold (digest_of init c). by destruct (bool_decide (digest_of init c = expected)).
Qed.

(** An activation refused changes nothing; one that is committed serves from the log. *)
Lemma activate_cases quiet expected wr r w' :
  operator_activate quiet expected wr w = (r, w') ->
  (exists e, r = Err e /\ w' = w)
  \/ exists init c,
       temporary_init_state (e_state (w_enclave w)) = Some init /\ stored_committee = Some c
       /\ after_write wr (LInit (in_completion_log (install_of init c))) (w_s3 w) (w_s3 w')
       /\ match write_fate wr with
          | Written => r = Ok tt
              /\ w_enclave w' = activated (w_enclave w) c (mkRateLimiter cfg (log_state cfg (w_s3 w)))
          | _ => r = Panic
          end.
Proof.
  intros H. destruct (sb_temporary _ _ _ w_standby) as [init Hinit].
  destruct w_committees as [_ Hvalid Hh].
  destruct (latest_valid _ _ _ Hvalid Hh) as [c Hc].
  unfold operator_activate in H.
  erewrite M_bind_eval in H by (apply require_lifecycle_ok, w_standby).
  pose proof (oa_install_eval quiet expected init c Hinit Hc) as Hev.
  destruct quiet, (bool_decide (digest_of init c = expected));
    try (left; erewrite M_bind_err in H by exact Hev; injection H as <- <-; by eexists).
  erewrite M_bind_eval in H by exact Hev.
  right. exists init, c. do 2 (split; [done|]). by apply (commit_cases cfg hid) in H.
Qed.

(** The digest of the log's state activates. *)
Lemma activate_succeeds init c wr :
  temporary_init_state (e_state (w_enclave w)) = Some init -> stored_committee = Some c ->
  write_fate wr = Written ->
  exists w', operator_activate true (digest_of init c) wr w = (Ok tt, w')
    /\ w_enclave w' = activated (w_enclave w) c (mkRateLimiter cfg (log_state cfg (w_s3 w))).
Proof.
  intros Hinit Hc Hf. destruct (operator_activate true (digest_of init c) wr w) as [r w'] eqn:H.
  exists w'. unfold operator_activate in H.
  erewrite M_bind_eval in H by (apply require_lifecycle_ok, w_standby).
  pose proof (oa_install_eval true (digest_of init c) init c Hinit Hc) as Hev.
  rewrite bool_decide_true in Hev by done.
  erewrite M_bind_eval in H by exact Hev. eapply commit_cases in H as [_ Hr]; [|done].
  rewrite Hf in Hr. destruct Hr as [-> ->]. done.
Qed.
End activation.
(** ** The log grows *)

Lemma committees_ok_update hid g s3 d u :
  certified hid (latest_of g (handover_records s3)) u -> committees_ok hid g s3 ->
  committees_ok hid g (s3 ++ [mkLogRecord d (LCommitteeUpdate u)])
  /\ handover_records (s3 ++ [mkLogRecord d (LCommitteeUpdate u)]) = handover_records s3 ++ [u].
Proof.
  intros Hu [Hg Hv Hh].
  assert (handover_records (s3 ++ [mkLogRecord d (LCommitteeUpdate u)]) = handover_records s3 ++ [u])
    as He by (unfold handover_records; by rewrite omap_app).
  split; [|done]. constructor; [|done|rewrite He; by apply handovers_snoc].
  unfold read_genesis, genesis_records in *. rewrite omap_app. by destruct (omap _ s3).
Qed.

(** The hour of a write is at most one before that of any recorded withdrawal. *)
Definition filed (s3 : list LogRecord) (d : HourDir) : Prop :=
  0 <= d /\ forall d', d' ∈ (withdrawals s3).*1 -> d' <= d + 1.

Lemma skew_bounded_snoc dirs d :
  skew_bounded dirs -> 0 <= d -> (forall d', d' ∈ dirs -> d' <= d + 1) -> skew_bounded (dirs ++ [d]).
Proof.
  intros [Hnn Hsk] Hd Hall. split; [by apply Forall_app; auto|].
  intros i j x y Hi Hj Hlt. apply lookup_lt_Some in Hj as Hjl. rewrite length_app in Hjl. cbn in Hjl.
  rewrite lookup_app_l in Hi by lia.
  apply lookup_snoc_Some in Hj as [[_ Hj]|[_ <-]]; [by eapply Hsk|].
  by apply Hall; eapply list_elem_of_lookup_2.
Qed.

Lemma log_state_seq cfg s3 :
  log_ok cfg s3 -> next_seq (log_state cfg s3) = Z.of_nat (length (log_entries s3)).
Proof.
  intros Hok. unfold log_state. destruct (last (log_entries s3)) as [e|] eqn:Hl.
  - rewrite last_lookup in Hl. cbn. rewrite (lo_seqs _ _ Hok _ _ Hl).
    apply lookup_lt_Some in Hl. lia.
  - apply last_None in Hl. by rewrite Hl.
Qed.

(** An authorized withdrawal extends the log. *)
Lemma log_ok_withdrawal cfg hid ec c s3 now d entry :
  authorized cfg hid ec c s3 now entry -> log_ok cfg s3 -> filed s3 d ->
  Z.of_nat (length (log_entries s3)) < u64_max ->
  let s3' := s3 ++ [mkLogRecord d (LWithdrawal entry)] in
  log_ok cfg s3' /\ log_state cfg s3' = gl_post_state entry
  /\ log_entries s3' = log_entries s3 ++ [entry].
Proof.
  intros [_ _ Hcons Hwf] Hok [Hd Hdirs] Hfew s3'.
  assert (withdrawals s3' = withdrawals s3 ++ [(d, entry)]) as Hw
    by (unfold s3'; by rewrite withdrawals_app).
  assert (log_entries s3' = log_entries s3 ++ [entry]) as He.
  { unfold log_entries. by rewrite Hw, fmap_app. }
  assert (log_state cfg s3' = gl_post_state entry) as Hst.
  { unfold log_state. by rewrite He, last_snoc. }
  split_and!; [|done|done]. pose proof (log_state_seq _ _ Hok) as Hseq.
  constructor.
  - rewrite Hw, fmap_app. apply skew_bounded_snoc; [apply Hok|done|done].
  - intros i e Hi. rewrite He in Hi. apply lookup_snoc_Some in Hi as [[_ Hi]|[-> <-]];
      [by apply (lo_seqs _ _ Hok)|].
    apply consume_accepted in Hcons as (_ & _ & _ & _ & Hpost). cbn in Hpost. rewrite Hpost. cbn.
    rewrite Hseq. apply wadd_small. u64_lia.
  - rewrite He, fmap_app, Hst. eapply chain_snoc; [apply Hok|exact Hcons].
  - rewrite He, fmap_app. apply Forall_app. split; [apply Hok|]. by constructor.
  - rewrite He, length_app. cbn. lia.
Qed.
(** ** Serving sessions *)

Record active (ap : Approved) (sk : Scalar) (w : World) (c : Committee) : Prop := {
  act_log : log_inv ap sk (w_s3 w);
  act_serving : serving (ap_limits ap) (ap_hashi_id ap) (ap_committee ap) (w_enclave w) (w_s3 w) c;
  act_governed : governed ap (w_s3 w);
  act_key : enclave_btc_keypair (e_config (w_enclave w)) = Some (btc_keypair_of sk);
  act_temporary : temporary_init_state (e_state (w_enclave w)) = None;
  act_pending : pending_ceremony (e_state (w_enclave w)) = None;
}.

Lemma history_active ap w :
  history_ok ap w -> lifecycle (e_state (w_enclave w)) = Some (Withdraw Activated) ->
  exists sk c, active ap sk w c.
Proof.
  intros (sk & Hlog & Hen) Hl. destruct (enclave_active _ _ _ _ Hen Hl) as (c & ? & ? & ? & ? & ?).
  exists sk, c. by constructor.
Qed.

(** A serving session in a world is a history. *)
Lemma active_history ap sk w c : active ap sk w c -> history_ok ap w.
Proof. intros []. exists sk. split; [done|]. by eapply en_serving. Qed.

Lemma update_refused wr signed w :
  lifecycle (e_state (w_enclave w)) <> Some (Withdraw Activated) ->
  exists e, update_committee wr signed w = (Err e, w).
Proof.
  intros [e He]%require_lifecycle_err. exists e. by apply M_bind_err.
Qed.

Lemma withdrawal_refused now wr req w :
  lifecycle (e_state (w_enclave w)) <> Some (Withdraw Activated) ->
  exists e, standard_withdrawal now wr req w = (Err e, w).
Proof.
  intros [e He]%require_lifecycle_err. unfold standard_withdrawal, bitcoin_network.
  destruct (deployment (e_config (w_enclave w))) as [d|] eqn:Hd.
  2:{ eexists. apply M_bind_err, M_bind_err. unfold get_or. by rewrite Hd. }
  erewrite M_bind_eval by (by erewrite M_bind_eval by (by apply get_or_some)).
  pose proof (validate_addr_no_panic req (bitcoin_network_of d)) as Hnp.
  destruct (validate_addr req (bitcoin_network_of d)) as [m|e'|]; [|by exists e'|done].
  exists e. erewrite M_bind_eval by reflexivity. by apply M_bind_err.
Qed.

(** What each handler of a serving session does along a history, whatever its stage. *)

Lemma history_withdrawal ap w now wr req r w' :
  history_ok ap w -> wire_ok (sw_data req) -> standard_withdrawal now wr req w = (r, w') ->
  (exists e, r = Err e /\ w' = w)
  \/ exists sk c entry,
       active ap sk w c
       /\ authorized (ap_limits ap) (ap_hashi_id ap) (e_config (w_enclave w)) c (w_s3 w) now entry
       /\ after_write wr (LWithdrawal entry) (w_s3 w) (w_s3 w')
       /\ match write_fate wr with
          | Written => r = Ok (gl_response entry)
              /\ w_enclave w' = with_limiter (mkRateLimiter (ap_limits ap) (gl_post_state entry)) (w_enclave w)
          | _ => r = Panic
          end.
Proof.
  intros Hh Hwire H.
  destruct (decide (lifecycle (e_state (w_enclave w)) = Some (Withdraw Activated))) as [Hl|Hl].
  - destruct (history_active _ _ Hh Hl) as (sk & c & Hact).
    destruct (withdrawal_cases _ _ _ _ _ _ _ _ _ _ (act_serving _ _ _ _ Hact) Hwire H) as [|(entry & ?)]; [by left|].
    right. by exists sk, c, entry.
  - left. destruct (withdrawal_refused now wr req w Hl) as [e He]. rewrite He in H.
    injection H as <- <-. by exists e.
Qed.

Lemma history_update ap w wr signed r w' :
  history_ok ap w -> update_committee wr signed w = (r, w') ->
  (r <> Panic /\ w' = w)
  \/ exists sk c u c',
       active ap sk w c
       /\ certified (ap_hashi_id ap) (latest_of (ap_committee ap) (handover_records (w_s3 w))) u
       /\ from_move_with_encryption_key_fallback (cu_new_committee u) = Some c'
       /\ after_write wr (LCommitteeUpdate u) (w_s3 w) (w_s3 w')
       /\ match write_fate wr with
          | Written => r = Ok (c_epoch c')
              /\ w_enclave w' = with_serving_committee c' (w_enclave w)
          | _ => r = Panic
          end.
Proof.
  intros Hh H.
  destruct (decide (lifecycle (e_state (w_enclave w)) = Some (Withdraw Activated))) as [Hl|Hl].
  - destruct (history_active _ _ Hh Hl) as (sk & c & Hact).
    destruct (update_cases _ _ _ _ _ _ _ _ _ (act_serving _ _ _ _ Hact) H) as [|(u & c' & ?)]; [by left|].
    right. by exists sk, c, u, c'.
  - left. destruct (update_refused wr signed w Hl) as [e He]. rewrite He in H. by injection H as <- <-.
Qed.

(** ** The serving handlers preserve the invariant *)

Lemma not_written wr : write_fate wr <> Written -> ~ all_written [wr].
Proof. intros Hn Hall. by inversion Hall. Qed.

(** A record of one kind leaves the views of the others alone. *)
Lemma withdrawal_views s3 d entry :
  let s3' := s3 ++ [mkLogRecord d (LWithdrawal entry)] in
  handover_records s3' = handover_records s3 /\ genesis_records s3' = genesis_records s3
  /\ ceremony_logs s3' = ceremony_logs s3 /\ kp_share_logs s3' = kp_share_logs s3.
Proof.
  unfold handover_records, genesis_records, ceremony_logs, kp_share_logs.
  rewrite !omap_app. cbn. by rewrite !app_nil_r.
Qed.

Lemma update_views s3 d u :
  let s3' := s3 ++ [mkLogRecord d (LCommitteeUpdate u)] in
  withdrawals s3' = withdrawals s3 /\ genesis_records s3' = genesis_records s3
  /\ ceremony_logs s3' = ceremony_logs s3 /\ kp_share_logs s3' = kp_share_logs s3.
Proof.
  unfold withdrawals, genesis_records, ceremony_logs, kp_share_logs.
  rewrite !omap_app. cbn. by rewrite !app_nil_r.
Qed.

Lemma withdraw_handled ap boot now wr req w :
  history_ok ap w -> wire_ok (sw_data req) -> filed (w_s3 w) (write_dir wr) ->
  Z.of_nat (length (log_entries (w_s3 w))) < u64_max ->
  handled ap boot [wr] (standard_withdrawal now wr req w).
Proof.
  intros Hh Hwire Hfiled Hfew. destruct (standard_withdrawal now wr req w) as [r w'] eqn:H.
  destruct (history_withdrawal _ _ _ _ _ _ _ Hh Hwire H)
    as [(e & -> & ->)|(sk & c & entry & Hact & Hau & Hs3 & Hr)]; [by apply handled_err|].
  destruct (Hact) as [[Hkey Hlog Hcom Hcer] Hsv Hgov Hkp Ht Hp].
  destruct (log_ok_withdrawal _ _ _ _ _ _ _ _ Hau Hlog Hfiled Hfew) as (Hlog' & Hst & _).
  destruct (withdrawal_views (w_s3 w) (write_dir wr) entry) as (Hh' & Hg' & Hc' & Hk').
  set (s3' := w_s3 w ++ [mkLogRecord (write_dir wr) (LWithdrawal entry)]) in *.
  assert (governed ap s3') as Hgov' by (by eapply governed_ext).
  assert (log_inv ap sk s3') as Hinv by (constructor; [done|done|by right|by eapply ceremonies_ext]).
  unfold after_write in Hs3. fold s3' in Hs3. destruct (write_fate wr) eqn:Hf.
  - destruct Hr as [-> Hen']. apply (handled_ok _ _ _ _ sk); rewrite Hs3; [done|]. rewrite Hen'.
    apply (en_serving _ _ _ _ c); [|done..]. destruct Hsv. constructor; cbn; rewrite ?Hst, ?Hh'; done.
  - subst r. apply (handled_panic _ _ _ _ sk); [by rewrite Hs3|]. apply not_written. by rewrite Hf.
  - subst r. apply (handled_panic _ _ _ _ sk); [by rewrite Hs3|]. apply not_written. by rewrite Hf.
Qed.

Lemma update_handled ap boot wr signed w :
  history_ok ap w -> handled ap boot [wr] (update_committee wr signed w).
Proof.
  intros Hh. destruct (update_committee wr signed w) as [r w'] eqn:H.
  destruct (history_update _ _ _ _ _ _ Hh H)
    as [[Hr ->]|(sk & c & u & c' & Hact & Hu & Hmv & Hs3 & Hr)]; [by split; [destruct r|]|].
  destruct (Hact) as [[Hkey Hlog Hcom Hcer] Hsv Hgov Hkp Ht Hp].
  destruct (update_views (w_s3 w) (write_dir wr) u) as (Hw' & Hg' & Hc' & Hk').
  destruct (committees_ok_update _ _ (w_s3 w) (write_dir wr) u Hu (gv_committees _ _ Hgov)) as [Hcom' Hrec].
  set (s3' := w_s3 w ++ [mkLogRecord (write_dir wr) (LCommitteeUpdate u)]) in *.
  assert (governed ap s3') as Hgov'.
  { constructor; [|done]. unfold read_genesis. rewrite Hg'. apply Hgov. }
  assert (log_inv ap sk s3') as Hinv
    by (constructor; [done|by eapply log_ok_ext|by right|by eapply ceremonies_ext]).
  assert (log_state (ap_limits ap) s3' = log_state (ap_limits ap) (w_s3 w)) as Hst
    by (unfold log_state, log_entries; by rewrite Hw').
  unfold after_write in Hs3. fold s3' in Hs3. destruct (write_fate wr) eqn:Hf.
  - destruct Hr as [-> Hen']. apply (handled_ok _ _ _ _ sk); rewrite Hs3; [done|]. rewrite Hen'.
    apply (en_serving _ _ _ _ c'); [|done..]. destruct Hsv.
    constructor; cbn; rewrite ?Hst, ?Hrec, ?latest_of_snoc; done.
  - subst r. apply (handled_panic _ _ _ _ sk); [by rewrite Hs3|]. apply not_written. by rewrite Hf.
  - subst r. apply (handled_panic _ _ _ _ sk); [by rewrite Hs3|]. apply not_written. by rewrite Hf.
Qed.

(** A heartbeat changes the number of heartbeats. *)
Lemma heartbeat_enclave ap sk s3 e n :
  enclave_ok ap sk s3 e -> lifecycle_mode <$> lifecycle (e_state e) = Some WithdrawMode ->
  s3_logger (e_config e) = Some tt
  /\ enclave_ok ap sk s3 (mkEnclave (e_config e) (with_heartbeat_seq n (e_state e))).
Proof.
  intros [keys|keys d stage p|keys ic hid master init hb Har|e' Hsb ? ? ?|e' c Hsv ? ? ? ?] Hm; try done.
  - split; [done|]. by apply (en_armed _ _ _ keys ic hid master init n).
  - split; [apply Hsb|]. destruct Hsb. by apply en_standby.
  - split; [apply Hsv|]. destruct Hsv. by apply (en_serving _ _ _ _ c).
Qed.

Lemma heartbeat_handled ap boot wr w :
  history_ok ap w -> handled ap boot [wr] (heartbeat wr w).
Proof.
  intros Hh. destruct (Hh) as (sk & Hlog & Hen).
  destruct (decide (lifecycle_mode <$> lifecycle (e_state (w_enclave w)) = Some WithdrawMode)) as [Hm|Hm].
  - destruct (heartbeat_enclave _ _ _ _ 0 Hen Hm) as [Hl _].
    destruct (heartbeat wr w) as [r w'] eqn:H.
    apply (heartbeat_cases _ _ _ _ Hl) in H as [[-> ->]|(q & Hs3 & Hr)]; [by split|].
    apply after_inert in Hs3 as Hs; [|done]. pose proof (log_inv_same _ _ _ _ Hs Hlog) as Hlog'.
    destruct (write_fate wr) eqn:Hf; [|subst r; apply (handled_panic _ _ _ _ sk); [done|apply not_written; by rewrite Hf]..].
    destruct Hr as [-> He]. apply (handled_ok _ _ _ _ sk); [done|]. rewrite He.
    apply heartbeat_enclave; [by eapply enclave_same|done].
  - replace (heartbeat wr w) with (Ok tt : outcome EnclaveError unit, w); [by split|].
    unfold heartbeat. erewrite M_bind_eval by reflexivity.
    destruct (lifecycle_mode <$> lifecycle (e_state (w_enclave w))) as [[]|]; done.
Qed.

Lemma activate_handled ap boot quiet expected wr w :
  approved_ok ap -> history_ok ap w -> handled ap boot [wr] (operator_activate quiet expected wr w).
Proof.
  intros Hap Hh. destruct (Hh) as (sk & Hlog & Hen).
  destruct (decide (lifecycle (e_state (w_enclave w)) = Some (Withdraw ProvisionerInitialized))) as [Hl|Hl].
  2:{ apply require_lifecycle_err in Hl as [e He].
      unfold operator_activate. erewrite M_bind_err by exact He. by apply handled_err. }
  assert (standby (ap_limits ap) (ap_hashi_id ap) (w_enclave w) /\ governed ap (w_s3 w)
    /\ enclave_btc_keypair (e_config (w_enclave w)) = Some (btc_keypair_of sk)
    /\ pending_ceremony (e_state (w_enclave w)) = None) as (Hsb & Hgov & Hkp & Hp).
  { destruct Hen as [| | |? []|? ? []]; try done. congruence. }
  destruct (operator_activate quiet expected wr w) as [r w'] eqn:H.
  destruct (activate_cases _ _ _ w (ao_limits _ Hap) Hsb (li_log _ _ _ Hlog) (gv_committees _ _ Hgov) quiet expected wr r w' H)
    as [(e & -> & ->)|(init & c & _ & Hc & Hs3 & Hr)]; [by apply handled_err|].
  apply after_inert in Hs3 as Hs; [|done]. pose proof (log_inv_same _ _ _ _ Hs Hlog) as Hlog'.
  destruct (write_fate wr) eqn:Hf; [|subst r; apply (handled_panic _ _ _ _ sk); [done|apply not_written; by rewrite Hf]..].
  destruct Hr as [-> He]. apply (handled_ok _ _ _ _ sk); [done|]. eapply enclave_same; [exact Hs|].
  rewrite He. destruct Hsb. apply (en_serving _ _ _ _ c); [|done..]. by constructor.
Qed.

(** ** Histories *)

Inductive GuardianOp :=
| OpRestart
| OpOperatorInit (platform : Platform) (w1 w2 : Write) (request : OperatorInitRequest)
| OpProvisionerInit (w1 w2 : Write) (request : list (KpSigned ProvisionerInitRequest))
| OpActivate (sessions_quiet : bool) (expected_state_hash : Hash) (wr : Write)
| OpHeartbeat (wr : Write)
| OpWithdraw (now : UnixSeconds) (wr : Write) (request : SignedStandardWithdrawalRequestWire)
| OpUpdate (wr : Write) (signed : SignedMessage CommitteeTransitionRequest)
| OpSetup (sk : Scalar) (random : list Scalar) (wr : Write) (request : SetupNewKeyRequest)
| OpConfirm (w1 w2 : Write) (signed : KpSigned CeremonyConfirmationRequest)
| OpRotate (random : list Scalar) (wr : Write) (submissions : list (KpSigned ProvisionerRotateKpSetRequest))
| OpRotateCert (wr : Write) (signed : KpSigned ProvisionerRotateCertRequest).

(** An operation: the signatures it releases, if any, and the world after it.  [boot] are
    the keys of the process that is started when this one dies or is restarted. *)
Definition run_op (boot : SessionKeys) (op : GuardianOp) (w : World)
    : option StandardWithdrawalResponse * World :=
  match op with
  | OpRestart => (None, mkWorld (enclave_new boot) (w_s3 w))
  | OpOperatorInit platform w1 w2 request => (None, snd (settle boot (operator_init platform w1 w2 request w)))
  | OpProvisionerInit w1 w2 request => (None, snd (settle boot (provisioner_init w1 w2 request w)))
  | OpActivate quiet expected wr => (None, snd (settle boot (operator_activate quiet expected wr w)))
  | OpHeartbeat wr => (None, snd (settle boot (heartbeat wr w)))
  | OpWithdraw now wr request => settle boot (standard_withdrawal now wr request w)
  | OpUpdate wr signed => (None, snd (settle boot (update_committee wr signed w)))
  | OpSetup sk random wr request => (None, snd (settle boot (setup_new_key sk random wr request w)))
  | OpConfirm w1 w2 signed => (None, snd (settle boot (confirm_ceremony w1 w2 signed w)))
  | OpRotate random wr submissions => (None, snd (settle boot (rotate_kp_set random wr submissions w)))
  | OpRotateCert wr signed => (None, snd (settle boot (provisioner_rotate_cert wr signed w)))
  end.

(** Whether the handler of an operation panics, and the writes it may make. *)
Definition op_panics (op : GuardianOp) (w : World) : Prop :=
  match op with
  | OpRestart => False
  | OpOperatorInit platform w1 w2 request => fst (operator_init platform w1 w2 request w) = Panic
  | OpProvisionerInit w1 w2 request => fst (provisioner_init w1 w2 request w) = Panic
  | OpActivate quiet expected wr => fst (operator_activate quiet expected wr w) = Panic
  | OpHeartbeat wr => fst (heartbeat wr w) = Panic
  | OpWithdraw now wr request => fst (standard_withdrawal now wr request w) = Panic
  | OpUpdate wr signed => fst (update_committee wr signed w) = Panic
  | OpSetup sk random wr request => fst (setup_new_key sk random wr request w) = Panic
  | OpConfirm w1 w2 signed => fst (confirm_ceremony w1 w2 signed w) = Panic
  | OpRotate random wr submissions => fst (rotate_kp_set random wr submissions w) = Panic
  | OpRotateCert wr signed => fst (provisioner_rotate_cert wr signed w) = Panic
  end.

Definition op_writes (op : GuardianOp) : list Write :=
  match op with
  | OpRestart => []
  | OpOperatorInit _ w1 w2 _ | OpProvisionerInit w1 w2 _ | OpConfirm w1 w2 _ => [w1; w2]
  | OpActivate _ _ wr | OpHeartbeat wr | OpWithdraw _ wr _ | OpUpdate wr _
  | OpSetup _ _ wr _ | OpRotate _ wr _ | OpRotateCert wr _ => [wr]
  end.

(** The environment's part: a request's integers are unsigned, clocks are within an hour of
    each other, a [u64] of sequence numbers does not run out, requests are built by their
    constructors, a key is drawn with as many coefficients as it needs, and a batch of
    provisioners has an honest one. *)
Definition op_ok (ap : Approved) (w : World) (op : GuardianOp) : Prop :=
  match op with
  | OpWithdraw _ wr request =>
      wire_ok (sw_data request) /\ filed (w_s3 w) (write_dir wr)
      /\ Z.of_nat (length (log_entries (w_s3 w))) < u64_max
  | OpProvisionerInit _ _ request => honest_batch ap request
  | OpSetup sk random _ request =>
      setup_request_ok request /\ sk <> s_zero /\ coefficients_ok (setup_params request) random
  | OpRotate random _ submissions => rotation_batch_ok random submissions
  | _ => True
  end.

(** From an empty log and a process that was just started. *)
Inductive reachable (ap : Approved) : World -> Prop :=
| reach_start boot : reachable ap (mkWorld (enclave_new boot) [])
| reach_op boot w op : reachable ap w -> op_ok ap w op -> reachable ap (snd (run_op boot op w)).

Lemma log_ok_fresh cfg : log_ok cfg [].
Proof. constructor; try done; by repeat constructor. Qed.

Lemma start_ok ap boot : history_ok ap (mkWorld (enclave_new boot) []).
Proof.
  exists s_one. split; [|constructor]. constructor; [apply one_not_zero|apply log_ok_fresh|by left|].
  by apply ceremonies_none; [|constructor].
Qed.

Lemma op_handled ap boot w op :
  approved_ok ap -> history_ok ap w -> op_ok ap w op ->
  history_ok ap (snd (run_op boot op w)) /\ (all_written (op_writes op) -> ~ op_panics op w).
Proof.
  intros Hap Hh Hop. destruct op; cbn [run_op op_writes op_panics snd] in *.
  - split; [|tauto]. destruct Hh as (sk & Hlog & _). exists sk. split; [done|constructor].
  - apply operator_init_handled; done.
  - apply provisioner_init_handled; done.
  - apply activate_handled; done.
  - apply heartbeat_handled; done.
  - destruct Hop as (? & ? & ?). apply withdraw_handled; done.
  - apply update_handled; done.
  - destruct Hop as (? & ? & ?). apply setup_handled; done.
  - apply confirm_handled; done.
  - apply rotate_handled; done.
  - apply rotate_cert_handled; done.
Qed.

Lemma reachable_ok ap w : approved_ok ap -> reachable ap w -> history_ok ap w.
Proof.
  intros Hap. induction 1 as [boot|boot w op _ IH Hop]; [apply start_ok|].
  by apply (op_handled ap boot w op).
Qed.
(** ** The theorems *)

Lemma timestamp_window ts now :
  is_u64 now -> is_u64 (now + MAX_CLOCK_SKEW_SECS) -> is_u64 ts ->
  validate_request_timestamp ts now = Ok tt ->
  now - MAX_REQUEST_AGE_SECS <= ts <= now + MAX_CLOCK_SKEW_SECS.
Proof.
  intros Hn Hs Ht H. unfold validate_request_timestamp in H. inv_ok.
  rewrite negb_true_iff, Z.ltb_ge in *. rewrite wadd_small in E by done.
  unfold sat_sub in H. lia.
Qed.

Lemma handovers_increase hid us : forall m,
  handovers hid m us ->
  StronglySorted Z.lt (mc_epoch m :: (mc_epoch ∘ cu_new_committee <$> us)).
Proof.
  induction us as [|u us IH]; intros m H; cbn; [by repeat constructor|].
  destruct H as [[_ Hlt _ _] H]. specialize (IH _ H). constructor; [exact IH|].
  inversion IH as [|? ? _ Hall]; subst. constructor; [done|].
  eapply Forall_impl; [exact Hall|]. cbn. intros; lia.
Qed.

(** A session that has a committee serves. *)
Lemma serving_of_committee ap sk s3 e c :
  enclave_ok ap sk s3 e -> committee (e_state e) = Some c ->
  serving (ap_limits ap) (ap_hashi_id ap) (ap_committee ap) e s3 c /\ governed ap s3.
Proof.
  intros [| | |? []|? c' Hsv] Hc; try done; [congruence|]. destruct (Hsv) as [_ _ Hc' _ _].
  by assert (c' = c) as <- by congruence.
Qed.

(** C2: the rate limit holds across sessions.  Along every history of the guardian, with
    crashes at any write, lost acknowledgements, restarts and handovers, every run of
    consecutive logged withdrawals takes at most the bucket's capacity plus the refill over
    the time between its first and last request out of the bridge, miner fees included. *)
Theorem guardian_rate_limit (ap : Approved) (w : World)
    (pre mid post : list GuardianWithdrawalLog) (first final : GuardianWithdrawalLog) :
  approved_ok ap -> reachable ap w ->
  log_entries (w_s3 w) = pre ++ (first :: mid) ++ post ->
  last (first :: mid) = Some final ->
  zsum ((fun e => wire_outflow (rw_utxos (gl_request_data e))) <$> first :: mid)
  <= max_bucket_capacity (ap_limits ap)
     + refill_rate (ap_limits ap) * (rw_timestamp_secs (gl_request_data final)
                          - rw_timestamp_secs (gl_request_data first)).
Proof.
  intros Hap (sk & [_ Hlog _ _] & _)%reachable_ok Hsplit Hlast; [|done].
  pose proof (ao_limits _ Hap) as Hcfg. set (cfg := ap_limits ap) in *. destruct Hlog as [_ _ Hch Hwf _]. rewrite Hsplit, !fmap_app in *.
  rewrite !Forall_app in Hwf. destruct Hwf as (Hpre & Hmid & _).
  apply chain_app in Hch as (m & Hm & Hch). apply chain_app in Hch as (m' & Hm' & _).
  destruct (chain_budget _ _ _ (genesis_wf cfg Hcfg) Hpre Hm) as (Hwfm & Hc & _).
  pose proof (chain_window _ _ _ _ Hwfm Hmid Hm') as Hbound.
  apply last_Some in Hlast as (init & Hinit). rewrite Hinit, fmap_app in Hm', Hmid.
  rewrite (chain_last _ _ _ _ Hwfm Hmid Hm'), Hc in Hbound.
  replace (zsum _) with (amounts (log_request <$> first :: mid)); [exact Hbound|].
  unfold amounts. by rewrite <- list_fmap_compose.
Qed.

(** C3: what a released signature means.  Whenever the guardian answers a request with
    signatures, the request carries a certificate of the committee in office, the last one
    the log installs, for the bridge's own object; its timestamp is within the allowed age
    and clock skew; its sequence number is the number of withdrawals logged before it; the
    limiter paid its outflow; the signatures are the enclave's on the request's transaction;
    and the log already holds the withdrawal with these signatures. *)
Theorem released_signatures_logged (ap : Approved) (boot : SessionKeys)
    (w w' : World) (op : GuardianOp) (response : StandardWithdrawalResponse) :
  approved_ok ap -> reachable ap w -> op_ok ap w op ->
  run_op boot op w = (Some response, w') ->
  exists now wr req c (m : SignedMessage StandardWithdrawalRequest) txid post,
    op = OpWithdraw now wr req
    /\ from_move_with_encryption_key_fallback (latest_of (ap_committee ap) (handover_records (w_s3 w))) = Some c
    /\ committee (e_state (w_enclave w)) = Some c
    /\ verify_signature_and_weight c (ap_hashi_id ap) m (certificate_threshold (total_weight c)) = Ok tt
    /\ (is_u64 now -> is_u64 (now + MAX_CLOCK_SKEW_SECS) ->
        now - MAX_REQUEST_AGE_SECS <= wr_timestamp_secs (sm_message m) <= now + MAX_CLOCK_SKEW_SECS)
    /\ wr_seq (sm_message m) = Z.of_nat (length (log_entries (w_s3 w)))
    /\ wire_outflow (into_wire (wr_utxos (sm_message m)))
       <= capacity_at (log_state (ap_limits ap) (w_s3 w)) (ap_limits ap) (wr_timestamp_secs (sm_message m))
    /\ enclave_signed (e_config (w_enclave w)) (wr_utxos (sm_message m)) txid response
    /\ log_entries (w_s3 w') = log_entries (w_s3 w)
         ++ [mkGuardianWithdrawalLog txid (request_into_wire (sm_message m)) (sm_signature m)
               response post].
Proof.
  intros Hap Hh%reachable_ok Hop Hrun; [|done].
  destruct op as [| | | | |now wr req| | | | |]; try (by injection Hrun). destruct Hop as (Hwire & Hfiled & Hfew).
  cbn in Hrun. destruct (standard_withdrawal now wr req w) as [r w1] eqn:H.
  destruct (history_withdrawal _ _ _ _ _ _ _ Hh Hwire H)
    as [(e & -> & ->)|(sk & c & entry & [[_ Hlog _ _] Hsv _ _ _ _] & Hau & Hs3 & Hr)]; [done|].
  destruct (log_ok_withdrawal _ _ _ _ _ _ _ _ Hau Hlog Hfiled Hfew) as (_ & _ & He).
  destruct Hau as [(m & Hwm & Hsm & Hby & Hv) Ht Hcons [Hts _]].
  unfold after_write in Hs3. destruct (write_fate wr); [|by subst r..]. destruct Hr as [-> _].
  injection Hrun as <- <-. apply consume_accepted in Hcons as (Hq & _ & Hcap & _ & _). cbn in Hq, Hcap, Hts.
  exists now, wr, req, c, m, (gl_txid entry), (gl_post_state entry).
  rewrite <- Hwm in Ht, Hq, Hcap, Hts. rewrite <- (log_state_seq _ _ Hlog).
  split_and!; try done; [apply Hsv|apply Hsv|intros; by apply timestamp_window|].
  rewrite Hs3, He, Hwm, Hsm. by destruct entry.
Qed.

(** C4: a session takes over exactly where the one before it stopped.  Whatever the history
    of a serving session, another armed session that is activated from the log with the
    digest of the logged state serves with the same limiter, token for token and number for
    number, and with the same committee. *)
Theorem failover_exact (ap : Approved) (w : World) (l : RateLimiter) (c : Committee)
    (standby_session : Enclave) (init : TemporaryInitState) (wr : Write) :
  approved_ok ap -> reachable ap w ->
  rate_limiter (e_state (w_enclave w)) = Some l -> committee (e_state (w_enclave w)) = Some c ->
  standby (ap_limits ap) (ap_hashi_id ap) standby_session ->
  temporary_init_state (e_state standby_session) = Some init ->
  write_fate wr = Written ->
  exists w', operator_activate true
               (activation_digest (config_hash init) (cs_instance (ceremony_state init)) c (rl_state l)) wr
               (mkWorld standby_session (w_s3 w)) = (Ok tt, w')
    /\ rate_limiter (e_state (w_enclave w')) = Some l
    /\ committee (e_state (w_enclave w')) = Some c
    /\ lifecycle (e_state (w_enclave w')) = Some (Withdraw Activated).
Proof.
  intros Hap (sk & Hlog & Hen)%reachable_ok Hl Hc Hsb Hinit Hf; [|done].
  destruct (serving_of_committee _ _ _ _ _ Hen Hc) as [[_ _ _ Hl' Hst] Hgov].
  rewrite Hl' in Hl. injection Hl as <-.
  destruct (activate_succeeds _ _ _ (mkWorld standby_session (w_s3 w)) (ao_limits _ Hap) Hsb
              (li_log _ _ _ Hlog) (gv_committees _ _ Hgov) init c wr Hinit Hst Hf) as (w' & Hrun & Hen').
  exists w'. by rewrite Hen'.
Qed.

(** C32: committees change only by certified handover.  Along every history, once the
    approved genesis record is in the log, each committee the log installs was certified by
    a quorum of the one before it, starting from the approved genesis committee; epochs
    strictly increase; and a serving session serves the last. *)
Theorem committee_handover (ap : Approved) (w : World) :
  approved_ok ap -> reachable ap w ->
  handovers (ap_hashi_id ap) (ap_committee ap) (handover_records (w_s3 w))
  /\ StronglySorted Z.lt (mc_epoch (ap_committee ap)
                            :: (mc_epoch ∘ cu_new_committee <$> handover_records (w_s3 w)))
  /\ read_latest_committee (w_s3 w)
     = match genesis_records (w_s3 w) with
       | [] => None
       | _ => Some (latest_of (ap_committee ap) (handover_records (w_s3 w)))
       end
  /\ forall c, committee (e_state (w_enclave w)) = Some c ->
       from_move_with_encryption_key_fallback
         (latest_of (ap_committee ap) (handover_records (w_s3 w))) = Some c.
Proof.
  intros Hap (sk & Hlog & Hen)%reachable_ok; [|done].
  assert (handovers (ap_hashi_id ap) (ap_committee ap) (handover_records (w_s3 w))
    /\ read_latest_committee (w_s3 w) = match genesis_records (w_s3 w) with
         [] => None | _ => Some (latest_of (ap_committee ap) (handover_records (w_s3 w))) end) as [Hh Hr].
  { destruct (li_committees _ _ _ Hlog) as [(_ & Hh & Hg)|[Hg Hc]].
    - unfold read_latest_committee, read_latest_committee_update, read_genesis.
      by rewrite committee_updates_records, Hh, Hg.
    - split; [apply Hc|]. rewrite (read_latest_committee_last _ _ _ Hc).
      unfold read_genesis in Hg. by destruct (genesis_records (w_s3 w)). }
  split_and!; [done|by apply (handovers_increase (ap_hashi_id ap))|done|].
  intros c Hc. by destruct (serving_of_committee _ _ _ _ _ Hen Hc) as [[] _].
Qed.

(** Only a failed write aborts the enclave.  Along every history no handler of the
    enclave, in any stage and on any request, panics when its writes to the log succeed. *)
Theorem guardian_aborts_only_on_write (ap : Approved) (w : World) (op : GuardianOp) :
  approved_ok ap -> reachable ap w -> op_ok ap w op -> all_written (op_writes op) ->
  ~ op_panics op w.
Proof.
  intros Hap Hh%reachable_ok Hop Hw; [|done].
  by apply (op_handled ap (s3_session_id (e_config (w_enclave w)), encryption_secret_key (e_config (w_enclave w)))).
Qed.
End guardian.
