(* ===== verification/LifecycleTheorems.v ===== *)
(** * The guardian enclave: keys, ceremonies and lifecycle

    What holds of the Bitcoin key, of the published ceremonies and of the installed state
    along every history, from an empty log on, and what an initialization guarantees. *)

From stdpp Require Import strings.
From S2P Require Import MonitorDomain TxUtxos Limiter Bitmap Committee CommitteeProofs SecretSharing SecretSharingProofs KpShares Guardian GuardianInit GuardianCeremony GuardianProofs CeremonyProofs GuardianInitProofs CeremonyTheorems GuardianTheorems Prelude.

Section guardian.
Context `{GC : GuardianCrypto} {SL : ScalarFieldLaws}.

(** C5: one Bitcoin key for ever.  Along every history there is one key that every
    published ceremony shares, whatever sets of key provisioners it went through: its
    public key is the one each ceremony records, any batch of submissions that passes the
    checks of a ceremony reconstructs it, and an enclave that has a key has this one. *)
Theorem bitcoin_key_constant (ap : Approved) (w : World) :
  approved_ok ap -> reachable ap w ->
  exists sk, sk <> s_zero
    /\ (forall c, c ∈ ceremony_logs (w_s3 w) ->
          ceremony_pubkey c = x_only_public_key (btc_keypair_of sk)
          /\ forall enc key shares,
               decrypt_verify_shares enc key (instance_of c) = Ok shares ->
               combine_shares shares (threshold (instance_of c)) = Ok sk)
    /\ forall kp, enclave_btc_keypair (e_config (w_enclave w)) = Some kp -> kp = btc_keypair_of sk.
Proof.
  intros Hap (sk & [Hk _ _ Hc] & Hen)%reachable_ok; [|done]. exists sk. split_and!; [done| |].
  - intros c Hin. pose proof (ce_keys _ _ Hc) as Hall. eapply Forall_forall in Hall; [|exact Hin].
    split; [apply Hall|]. intros enc key shares. apply combine_verified; [done|apply Hall].
  - intros kp Hkp. destruct Hen; try done; congruence.
Qed.

(** C8: a ceremony is published only with everybody's consent.  Along every history, each
    ceremony in the log has its first share state beside it, and for every share in it the
    key provisioner who holds it has signed, in one session, a confirmation of the digest of
    the deployment, the ceremony and these shares. *)
Theorem published_ceremonies_unanimous (ap : Approved) (w : World) (c : CeremonyLogMessage) :
  approved_ok ap -> reachable ap w -> c ∈ ceremony_logs (w_s3 w) ->
  exists shares session d state,
    mkKpShareStateLogMessage (ceremony_sharing_seq c) 0 shares ∈ kp_share_logs (w_s3 w)
    /\ Z.of_nat (length shares) = num_shares (instance_of c)
    /\ from_proposal (mkCeremonyProposalLogMessage c shares) = Ok state
    /\ forall s, s ∈ shares ->
         exists signed : KpSigned CeremonyConfirmationRequest,
           kp_verify_signature signed = Ok (kp_data signed)
           /\ signer_fingerprint signed = recipient_fingerprint s
           /\ cc_expected_session_id (kp_data signed) = session
           /\ cc_ceremony_artifacts_digest (kp_data signed) = artifacts_digest d state.
Proof.
  intros Hap (sk & [_ _ _ Hc] & _)%reachable_ok Hin; [|done].
  destruct (ce_unanimous _ _ Hc c Hin) as (shares & Hs & session & d & state & Hst & Hall).
  exists shares, session, d, state. split_and!; [done|by apply (ce_sizes _ _ Hc c _ Hin Hs)|done|].
  intros s Hins. by eapply Forall_forall in Hall.
Qed.

(** What a stage says of the whole enclave. *)
Definition well_typed (e : Enclave) : Prop :=
  match lifecycle (e_state e) with
  | None => e = enclave_new (s3_session_id (e_config e), encryption_secret_key (e_config e))
  | Some stage =>
      state_installed_for e stage = true
      /\ operator_init_state_installed e CeremonyMode = true
      /\ match lifecycle_mode stage with
         | CeremonyMode =>
             enclave_btc_keypair (e_config e) = None /\ limiter_config (e_config e) = None
             /\ committee (e_state e) = None /\ rate_limiter (e_state e) = None
             /\ temporary_init_state (e_state e) = None
         | WithdrawMode =>
             is_Some (limiter_config (e_config e)) /\ is_Some (hashi_object_id (e_config e))
             /\ is_Some (hashi_btc_master_pubkey (e_config e)) /\ pending_ceremony (e_state e) = None
             /\ (is_Some (enclave_btc_keypair (e_config e)) <-> stage <> Withdraw OperatorInitialized)
             /\ (is_Some (rate_limiter (e_state e)) <-> stage = Withdraw Activated)
             /\ (is_Some (temporary_init_state (e_state e)) <-> stage <> Withdraw Activated)
         end
  end.

Lemma installed_logger e : s3_logger (e_config e) = Some tt -> is_Some (deployment (e_config e)) ->
  operator_init_state_installed e CeremonyMode = true.
Proof. intros Hl [d Hd]. unfold operator_init_state_installed. by rewrite Hl, Hd. Qed.

Lemma enclave_typed ap sk s3 e : enclave_ok ap sk s3 e -> well_typed e.
Proof.
  intros [keys|keys d stage p Hst|keys ic hid master init hb Har
         |e' [[Hl Hk Hd Hm Hc Hi] Hlc Hcm Hrl Ht] _ Hkp Hp|e' c [[Hl Hk Hd Hm Hc Hi] Hlc Hcm Hrl Hst] _ Hkp Ht Hp];
    unfold well_typed.
  - by destruct keys.
  - cbn. destruct stage, p; cbn in *; try done.
  - cbn. split_and!; try done; split; intros; try done; by eexists.
  - rewrite Hlc. destruct Ht as [init Ht]. cbn [lifecycle_mode state_installed_for].
    pose proof (installed_logger e' Hl Hd). rewrite Hkp, Ht, Hc, Hi, Hrl, Hp. split_and!;
      first [done|by eexists|split; intros Hx; first [done|by eexists|by destruct Hx]].
  - rewrite Hlc. cbn [lifecycle_mode state_installed_for].
    pose proof (installed_logger e' Hl Hd). rewrite Hcm, Hrl, Ht, Hkp, Hc, Hi, Hp. split_and!;
      first [done|by eexists|split; intros Hx; first [done|by eexists|by destruct Hx]].
Qed.

(** C37: the lifecycle types the enclave.  Along every history the stage an enclave reports
    determines what is installed in it: everything the stage and the stages before it
    install, and nothing of a later stage or of the other mode; before operator
    initialization there is nothing but the keys of the process; and every share state in
    the log gives each share id from 1 to [n] to one key provisioner. *)
Theorem lifecycle_typed (ap : Approved) (w : World) :
  approved_ok ap -> reachable ap w ->
  well_typed (w_enclave w)
  /\ forall m, m ∈ kp_share_logs (w_s3 w) -> share_roster_wf (kss_encrypted_shares m).
Proof.
  intros Hap (sk & [_ _ _ Hc] & Hen)%reachable_ok; [|done]. split; [by eapply enclave_typed|].
  intros m Hm. pose proof (ce_rosters _ _ Hc) as Hall. by eapply Forall_forall in Hall.
Qed.

(** ** Errors of an initialization *)

Definition reads_only {A} (m : M World EnclaveError A) : Prop := forall w, snd (m w) = w.
Definition never_errs {A} (m : M World EnclaveError A) : Prop := forall w e w', m w <> (Err e, w').

Lemma reads_bind {A B} (m : M World EnclaveError A) (f : A -> M World EnclaveError B) :
  reads_only m -> (forall a, reads_only (f a)) -> reads_only (m ≫= f).
Proof.
  intros Hm Hf w. specialize (Hm w). unfold mbind, M_bind. destruct (m w) as [[a| |] w1]; cbn in *; subst; [apply Hf|done|done].
Qed.
Lemma reads_outcome {A} (o : outcome EnclaveError A) : reads_only (of_outcome o).
Proof. done. Qed.
Lemma reads_get_or {A} (f : Enclave -> option A) e : reads_only (get_or f e).
Proof. done. Qed.
Lemma reads_read {A} (f : World -> A) : reads_only (read f).
Proof. done. Qed.
Lemma reads_ret {A} (a : A) : reads_only (mret a).
Proof. done. Qed.
Lemma reads_expect {A} (m : M World EnclaveError A) : reads_only m -> reads_only (expect_ok m).
Proof. intros Hm w. specialize (Hm w). unfold expect_ok. by destruct (m w) as [[] ?]. Qed.
Lemma reads_lifecycle l : reads_only (require_lifecycle l).
Proof. by apply reads_bind. Qed.

Lemma errs_bind {A B} (m : M World EnclaveError A) (f : A -> M World EnclaveError B) :
  never_errs m -> (forall a, never_errs (f a)) -> never_errs (m ≫= f).
Proof.
  intros Hm Hf w e w'. specialize (Hm w). unfold mbind, M_bind.
  destruct (m w) as [[a| |] w1]; [apply Hf|by destruct (Hm e0 w1)|done].
Qed.
Lemma errs_expect {A} (m : M World EnclaveError A) : never_errs (expect_ok m).
Proof. intros w e w'. unfold expect_ok. by destruct (m w) as [[] ?]. Qed.
Lemma errs_ret {A} (a : A) : never_errs (mret a).
Proof. done. Qed.
Lemma errs_read {A} (f : World -> A) : never_errs (read f).
Proof. done. Qed.
Lemma errs_clear : never_errs clear_temporary_init_state.
Proof. apply errs_bind; [apply errs_expect|done]. Qed.

(** An error is reported before anything is changed: checks first, and then a commit that
    does not fail. *)
Definition clean_errors {A} (m : M World EnclaveError A) : Prop :=
  forall w e w', m w = (Err e, w') -> w' = w.

Lemma clean_bind {A B} (m : M World EnclaveError A) (f : A -> M World EnclaveError B) :
  reads_only m -> (forall a, clean_errors (f a)) -> clean_errors (m ≫= f).
Proof.
  intros Hm Hf w e w' H. specialize (Hm w). unfold mbind, M_bind in H.
  destruct (m w) as [[a| |] w1]; cbn in *; subst; [by apply (Hf a _ e)|by injection H|done].
Qed.
Lemma clean_commit {A} (m : M World EnclaveError A) : never_errs m -> clean_errors m.
Proof. intros Hm w e w' H. by destruct (Hm w e w'). Qed.

#[local] Hint Resolve reads_outcome reads_get_or reads_read reads_ret reads_expect reads_lifecycle
  errs_expect errs_ret errs_read errs_clear : hashi.

Lemma commit_oi_never_errs w1 w2 install : never_errs (commit_operator_init w1 w2 install).
Proof.
  unfold commit_operator_init. apply errs_bind; [auto with hashi|intros sk].
  apply errs_bind; [auto with hashi|intros _]. apply errs_bind; [auto with hashi|intros _].
  apply errs_bind.
  { destruct (oi_withdraw_mode install); [|auto with hashi]. apply errs_bind; auto with hashi. }
  intros _. repeat (apply errs_bind; [auto with hashi|intros _]). auto with hashi.
Qed.

Lemma commit_pi_never_errs w1 w2 install : never_errs (commit_provisioner_init w1 w2 install).
Proof.
  unfold commit_provisioner_init. apply errs_bind; [auto with hashi|intros _].
  apply errs_bind; [destruct (pi_genesis_log install); auto with hashi|intros _].
  apply errs_bind; auto with hashi.
Qed.

Lemma commit_oa_never_errs wr install : never_errs (commit_operator_activate wr install).
Proof. unfold commit_operator_activate. repeat (apply errs_bind; [auto with hashi|intros _]). auto with hashi. Qed.

Lemma pi_install_reads request : reads_only (pi_install_from_request request).
Proof.
  unfold pi_install_from_request, ensure_no_serving_committee.
  do 6 (apply reads_bind; [auto with hashi|intros ?]). apply reads_bind; [apply reads_outcome|intros _].
  apply reads_bind; [|auto with hashi]. destruct (genesis_state _); [|done].
  repeat (apply reads_bind; [auto with hashi|intros ?]). by destruct (read_latest_committee _).
Qed.

Lemma oa_install_reads quiet expected : reads_only (oa_install_from_request quiet expected).
Proof.
  unfold oa_install_from_request, get_limiter_config.
  do 4 (apply reads_bind; [auto with hashi|intros ?]). apply reads_bind; [apply reads_outcome|intros _].
  apply reads_bind; [auto with hashi|intros s3].
  apply reads_bind; [by destruct (read_latest_committee s3)|intros stored].
  apply reads_bind; [by destruct (from_move_with_encryption_key_fallback stored)|intros c].
  apply reads_bind; [auto with hashi|intros st].
  apply reads_bind; [by destruct (rate_limiter_new _ st)|intros l].
  apply reads_bind; [apply reads_outcome|auto with hashi].
Qed.

Lemma operator_init_clean platform w1 w2 request : clean_errors (operator_init platform w1 w2 request).
Proof.
  unfold operator_init. apply clean_bind; [auto with hashi|intros _].
  destruct (match request with CeremonyOperatorInit _ => _ | WithdrawOperatorInit _ _ => _ end) as [d inputs].
  apply clean_bind; [by destruct (pf_attestation platform)|intros att].
  do 2 (apply clean_bind; [apply reads_outcome|intros _]). apply clean_bind; [auto with hashi|intros s3].
  apply clean_bind; [|intros wm; apply clean_commit, commit_oi_never_errs].
  destruct inputs as [[config genesis]|]; [|done].
  do 2 (apply reads_bind; [auto with hashi|intros ?]). auto with hashi.
Qed.

(** An initialization that fails leaves nothing behind.  Whatever the state, when operator
    initialization, provisioner initialization or activation answers an error, the enclave
    and the log are exactly as they were, so that the request can be repeated: everything is
    checked before the first field is set and the first record is written, and from there on
    a failure aborts the enclave. *)
Theorem init_errors_change_nothing (platform : Platform) (w1 w2 : Write) (request : OperatorInitRequest)
    (batch : list (KpSigned ProvisionerInitRequest)) (quiet : bool) (expected : Hash) (w : World) :
  (forall e w', operator_init platform w1 w2 request w = (Err e, w') -> w' = w)
  /\ (forall e w', provisioner_init w1 w2 batch w = (Err e, w') -> w' = w)
  /\ (forall e w', operator_activate quiet expected w1 w = (Err e, w') -> w' = w).
Proof.
  split_and!; intros e w'.
  - apply operator_init_clean.
  - unfold provisioner_init. apply clean_bind; [auto with hashi|intros _].
    apply clean_bind; [apply pi_install_reads|intros install]. apply clean_commit, commit_pi_never_errs.
  - unfold operator_activate. apply clean_bind; [auto with hashi|intros _].
    apply clean_bind; [apply oa_install_reads|intros install]. apply clean_commit, commit_oa_never_errs.
Qed.

(** ** What an initialization is authorized by *)

Lemma holder_id roster f i j :
  validate_share_assignment roster f i = Ok tt -> validate_share_assignment roster f j = Ok tt -> i = j.
Proof.
  unfold validate_share_assignment. destruct (find_by_fingerprint roster f) as [a|]; [|done].
  rewrite !guard_Ok, !Z.eqb_eq. congruence.
Qed.

(** Distinct shares have distinct holders. *)
Lemma holders_distinct session ch gh roster request enc :
  Forall2 (submission_ok session ch gh roster) request enc -> NoDup (ge_id <$> enc) ->
  NoDup (signer_fingerprint <$> request).
Proof.
  induction 1 as [|s e request enc Hs Hall IH]; intros Hnd; [constructor|].
  rewrite fmap_cons in *. apply NoDup_cons in Hnd as [Hni Hnd]. apply NoDup_cons. split; [|by apply IH].
  intros (s' & Hf & Hin)%list_elem_of_fmap. apply Hni.
  apply list_elem_of_lookup in Hin as [k Hk]. destruct (Forall2_lookup_l _ _ _ _ _ Hall Hk) as (e' & He' & Hs').
  apply list_elem_of_fmap. exists e'. split; [|by eapply list_elem_of_lookup_2].
  eapply (holder_id roster); [apply Hs|]. rewrite Hf. apply Hs'.
Qed.

Lemma expect_ok_run {A} (m : M World EnclaveError A) w a w' : expect_ok m w = (Ok a, w') -> m w = (Ok a, w').
Proof. unfold expect_ok. destruct (m w) as [[] ?]; congruence. Qed.
Lemma get_or_Ok {A} (f : Enclave -> option A) e w a w' :
  get_or f e w = (Ok a, w') -> f (w_enclave w) = Some a /\ w' = w.
Proof. unfold get_or. destruct (f (w_enclave w)); [|done]. by intros [= <- <-]. Qed.
Lemma of_outcome_Ok {A} (o : outcome EnclaveError A) (w : World) a w' :
  of_outcome o w = (Ok a, w') -> o = Ok a /\ w' = w.
Proof. unfold of_outcome. by intros [= -> ->]. Qed.
Lemma write_log_Ok wr m w w' : write_log wr m w = (Ok tt, w') -> w_enclave w' = w_enclave w.
Proof.
  intros ([] & w1 & [_ ->]%get_or_Ok & H)%M_bind_Ok. unfold write_record in H.
  by destruct (write_fate wr); [injection H as <-| |].
Qed.
Lemma require_lifecycle_Ok l w w' :
  require_lifecycle l w = (Ok tt, w') -> lifecycle (e_state (w_enclave w)) = l /\ w' = w.
Proof.
  unfold require_lifecycle. intros (l' & w1 & [= <- <-] & H)%M_bind_Ok. apply of_outcome_Ok in H as [H ->].
  by apply guard_Ok, bool_decide_eq_true in H.
Qed.

Lemma commit_pi_Ok w1 w2 install w w' :
  commit_provisioner_init w1 w2 install w = (Ok tt, w') ->
  enclave_btc_keypair (e_config (w_enclave w')) = Some (pi_btc_keypair install)
  /\ lifecycle (e_state (w_enclave w')) = Some (Withdraw ProvisionerInitialized).
Proof.
  unfold commit_provisioner_init. intros H. inv_M. destruct v, v0, v1. apply expect_ok_run in E, E1, H.
  assert (w_enclave s0 = w_enclave s) as Hs0.
  { destruct (pi_genesis_log install); [by apply expect_ok_run, write_log_Ok in E0|by injection E0 as <-]. }
  apply write_log_Ok in E1. unfold set_btc_keypair, set_once, set_config in E. inv_M.
  destruct (enclave_btc_keypair _); [done|]. injection E as <-.
  unfold advance_lifecycle_into, set_state in H. inv_M. apply of_outcome_Ok in E4 as [_ ->].
  cbn. by rewrite E1, Hs0.
Qed.

(** C9: who gives an enclave the Bitcoin key.  When provisioner initialization succeeds, at
    least the ceremony's threshold of different key provisioners, each the holder of the
    share it submits, have signed for this session, for the configuration and for the
    genesis state the enclave was armed with; and the key that is installed is the one whose
    public key the ceremony records. *)
Theorem provisioning_authorized (w1 w2 : Write) (request : list (KpSigned ProvisionerInitRequest))
    (w w' : World) :
  provisioner_init w1 w2 request w = (Ok tt, w') ->
  exists init sk,
    lifecycle (e_state (w_enclave w)) = Some (Withdraw OperatorInitialized)
    /\ temporary_init_state (e_state (w_enclave w)) = Some init
    /\ threshold (cs_instance (ceremony_state init)) <= Z.of_nat (length request)
    /\ NoDup (signer_fingerprint <$> request)
    /\ Forall (fun s => kp_verify_signature s = Ok (kp_data s)
         /\ pi_expected_session_id (kp_data s) = s3_session_id (e_config (w_enclave w))
         /\ expected_config_hash (kp_data s) = config_hash init
         /\ expected_genesis_state_hash (kp_data s) = genesis_digest <$> genesis_state init
         /\ validate_share_assignment (cs_encrypted_shares (ceremony_state init)) (signer_fingerprint s)
              (ge_id (pi_encrypted_share (kp_data s))) = Ok tt) request
    /\ x_only_public_key (btc_keypair_of sk) = cs_btc_master_pubkey (ceremony_state init)
    /\ enclave_btc_keypair (e_config (w_enclave w')) = Some (btc_keypair_of sk)
    /\ lifecycle (e_state (w_enclave w')) = Some (Withdraw ProvisionerInitialized).
Proof.
  unfold provisioner_init, pi_install_from_request. intros H. inv_M. destruct v.
  apply require_lifecycle_Ok in E as [Hl ->]. apply commit_pi_Ok in H as [Hkp Hl'].
  apply expect_ok_run, get_or_Ok in E1 as [Hinit ->]. apply of_outcome_Ok in E4 as [Henc%submissions_ok ->].
  apply of_outcome_Ok in E5 as [Hsh%lift_kp_Ok ->]. apply of_outcome_Ok in E6 as [_ ->].
  apply decrypt_verify_spec in Hsh as (Hids & Hnd & _ & Ht & _). rewrite Hids in Hnd.
  apply (f_equal length) in Hids. rewrite !length_fmap in Hids. apply Forall2_length in Henc as Hlen.
  exists v1, v6. split_and!; try done.
  - lia.
  - by eapply holders_distinct.
  - apply Forall_forall. intros s Hs. apply list_elem_of_lookup in Hs as [k Hk].
    destruct (Forall2_lookup_l _ _ _ _ _ Henc Hk) as (e & _ & [? ? ? ? ? <-]). done.
  - by apply bool_decide_eq_true in Heqb.
Qed.
End guardian.
