(* ===== verification/GuardianExamples.v ===== *)
(** * A small guardian

    A guardian whose cryptography is made of checksums over the small field of shares, and
    its history from an empty log: a ceremony that makes the key and shares it three ways, a
    rotation to two other key provisioners, a session that is armed, provisioned and
    activated, serves a withdrawal, a handover and a change of certificate and dies while it
    writes the next withdrawal, and a session that takes over from the log. *)

From Stdlib Require Import Zmod String Ascii.
From stdpp Require Import strings.
From S2P Require Import MonitorDomain TxUtxos Limiter Bitmap Committee SecretSharing SecretSharingProofs KpShares Guardian GuardianInit GuardianCeremony GuardianProofs CeremonyProofs GuardianInitProofs CeremonyTheorems GuardianTheorems LifecycleTheorems Prelude.

Module SmallGuardian.
Import SmallSharing.

(** A signature of a key on a message is a number; an aggregate is the list of its bytes. *)
#[export] Instance checksum_bls : Bls := {|
  BlsPublicKey := Z;
  BlsSignature := Z;
  BlsAggregateSignature := list Z;
  EncryptionPublicKey := Z;
  EncryptionPublicKey_eq := _;
  pk_verify pk m s := s =? pk * 100000 + zsum m;
  aggregate_from s := [s];
  aggregate_add agg s := Some (agg ++ [s]);
  aggregate_verify agg pks m := bool_decide (agg ≡ₚ (fun pk => pk * 100000 + zsum m) <$> pks);
  aggregate_from_bytes b := Some b;
|}.

(** An address is a number and belongs to the network its parity names. *)
#[export] Instance parity_addresses : BtcAddresses := {|
  Network := Z;
  AddressUnchecked := Z;
  AddressChecked := Z;
  require_network a n := if a mod 2 =? n mod 2 then Some a else None;
  into_unchecked a := a;
|}.

(** A key provisioner's signature repeats the message; a ciphertext starts with its key. *)
Definition text (message : list Z) : string :=
  foldr (fun z s => String (ascii_of_N (Z.to_N (z mod 256))) s) EmptyString message.

Definition kp_sign (cert : string) (message : list Z) : string := cert +:+ text message.

#[export] Instance named_kps : KpCrypto (H := small_field) := {|
  AttestedKpCert := string;
  AttestedKpCert_eq := _;
  cert_fingerprint c := c;
  encrypt_share_for_provisioner value cert := cert +:+ text [Zmod.to_Z value];
  Ciphertext := list Z;
  EncSecKey := Z;
  hpke_decrypt c k := match c with z :: bytes => if z =? k then Some bytes else None | [] => None end;
  scalar_from_slice b := match b with [z] => Some (Zmod.of_Z 65537 z) | _ => None end;
  verify_detached_signature m s cert := String.eqb s (kp_sign cert m);
  KeyHandle := string;
  pgp_message_recipients _ := Some [];
  encryption_key_aliases := String.eqb;
|}.

(** A digest has its preimage inside, or is a checksum. *)
Inductive Digest :=
| ConfigDigest (rate capacity network policy : Z)
| GenesisDigest (committee : MoveCommittee) (object_id master : Z)
| Checksum (n : Z).

#[export] Instance ConfigValue_eq_dec : EqDecision ConfigValue.
Proof. solve_decision. Defined.
#[export] Instance MoveCommitteeMember_eq_dec : EqDecision MoveCommitteeMember.
Proof. solve_decision. Defined.
#[export] Instance MoveCommittee_eq_dec : EqDecision MoveCommittee.
Proof. solve_decision. Defined.
#[export] Instance Digest_eq_dec : EqDecision Digest.
Proof. solve_decision. Defined.

Definition digest_bytes (d : Digest) : list Z :=
  match d with
  | ConfigDigest r c n p => [1; r; c; n; p]
  | GenesisDigest m o g => [2; mc_epoch m; o; g]
  | Checksum n => [3; n]
  end.

#[export] Instance small_types : GuardianTypes := {|
  gt_bls := checksum_bls;
  gt_addresses := parity_addresses;
  gt_scalars := small_field;
  gt_kp := named_kps;
  BtcKeypair := Z;
  BtcPubkey := Z;
  BtcPubkey_eq := _;
  HashiMasterG := Z;
  SighashMessage := Z;
  BitcoinSignature := Z;
  Hash := Digest;
  Hash_eq := _;
  NitroAttestation := unit;
  DeploymentPolicy := Z;
|}.

#[export] Instance checksum_crypto : GuardianCrypto := {|
  btc_keypair_of x := Zmod.to_Z (x : F);
  x_only_public_key (k : Z) := k + 1;
  signing_messages_and_txid t pk g :=
    ((fun u => iu_amount u + pk + g) <$> tu_inputs t, zsum (iu_amount <$> tu_inputs t));
  sign_btc_tx ms k := (fun m => m * 10 + k) <$> ms;
  encryption_public_key_bytes (k : Z) := [k];
  bls_public_key_from_bytes := head;
  encryption_key_from_bcs := head;
  encryption_key_to_bcs k := [k];
  fallback_encryption_public_key := 77;
  withdrawal_request_bcs wid t ts sq := [wid; zsum (iu_amount <$> tu_inputs t); ts; sq];
  transition_request_bcs r := [mc_epoch (new_committee r)];
  provisioner_init_bcs r := digest_bytes (expected_config_hash r) ++ [ge_id (pi_encrypted_share r)];
  rotate_cert_bcs r := [expected_cert_seq r; ge_id (rc_encrypted_share r)];
  confirmation_bcs r := digest_bytes (cc_ceremony_artifacts_digest r);
  rotate_kp_set_bcs r := [ge_id (encrypted_old_share r); p_num_shares (new_params r)];
  deployment_digest d := Checksum (bitcoin_network_of d + deployment_policy d);
  init_config_digest c := ConfigDigest (refill_rate (ic_limiter_config c))
    (max_bucket_capacity (ic_limiter_config c)) (bitcoin_network_of (ic_deployment c))
    (deployment_policy (ic_deployment c));
  genesis_digest g := GenesisDigest (gs_committee g) (gs_hashi_object_id g) (gs_mpc_master_g g);
  artifacts_digest d s := Checksum (deployment_policy d * 1000000 + sharing_seq (cs_instance s) * 100000
                                    + cs_btc_master_pubkey s);
  activation_digest h i c l := Checksum (zsum (digest_bytes h) + sharing_seq i + c_epoch c
                                         + num_tokens_available l + next_seq l);
|}.

(** ** What is approved *)

(** The third member's encryption key does not parse. *)
Definition move_committee (epoch : Z) : MoveCommittee :=
  mkMoveCommittee epoch
    ((fun i => mkMoveCommitteeMember (10 + i) [20 + i] (if i =? 2 then [] else [30 + i]) 25 [])
       <$> [0; 1; 2; 3]) 100 (from_mpc_params 800 3333 0).

Definition hid : Address := 99.
Definition cfg : LimiterConfig := mkLimiterConfig 10 100000.
Definition genesis_committee : MoveCommittee := move_committee 7.
Definition site : DeploymentConfig := mkDeploymentConfig (0 : Network) (6 : DeploymentPolicy).
Definition genesis : GenesisState := mkGenesisState genesis_committee hid (5 : HashiMasterG).
Definition ap : Approved := mkApproved (mkInitConfig cfg site) genesis.

Lemma cfg_wf : wf_config cfg.
Proof. split; cbn; u64_lia. Qed.

Lemma ap_ok : approved_ok ap.
Proof.
  constructor; [exact cfg_wf|vm_compute; by eexists| |].
  - intros [[r c] [n p]] H. cbn in H. injection H as -> -> -> ->. done.
  - intros [m o g] H. injection H as -> -> ->. done.
Qed.

(** ** Ceremonies *)

Definition ok_write (d : HourDir) : Write := mkWrite d Written.
Definition platform : Platform := mkPlatform (Some tt : option NitroAttestation) true true.

Definition scalar (z : Z) : Scalar := Zmod.of_Z 65537 z.

Definition sealed (session_key id value : Z) : GuardianEncryptedShare :=
  mkGuardianEncryptedShare id ([session_key; value] : Ciphertext).

Definition sign_as {T} (cert : string) (data : T) `{KpSigningIntent T} : KpSigned T :=
  mkKpSigned T data (cert : AttestedKpCert) (kp_sign cert (signed_bytes data)).

Definition setup_request : SetupNewKeyRequest :=
  mkSetupNewKeyRequest ["alice"; "bob"; "carol"] (mkSecretSharingParams 3 2).

Definition confirm (session cert : string) (digest : Z) : GuardianOp :=
  OpConfirm (ok_write 0) (ok_write 0)
    (sign_as cert (mkCeremonyConfirmationRequest session (Checksum digest : Hash))).

Definition rotation (cert : string) (id value : Z) : KpSigned ProvisionerRotateKpSetRequest :=
  sign_as cert (mkProvisionerRotateKpSetRequest "s2" (Checksum 6 : Hash) (sealed 12 id value)
                  ["alice"; "erin"] (mkSecretSharingParams 2 2)).

Definition keys (n : Z) : SessionKeys :=
  (match n with 1 => "s1" | 2 => "s2" | 3 => "s3" | 4 => "s4" | _ => "s5" end, (10 + n) : EncSecKey).

(** The first ceremony shares 1234 as 2011, 2788 and 3565, the second as 1789 and 2344. *)
Definition ceremonies : list GuardianOp :=
  [OpOperatorInit platform (ok_write 0) (ok_write 0) (CeremonyOperatorInit site);
   OpSetup (scalar 1234) [scalar 777] (ok_write 0) setup_request;
   confirm "s1" "alice" 6001235; confirm "s1" "carol" 6001235; confirm "s1" "bob" 6001235;
   OpRestart;
   OpOperatorInit platform (ok_write 0) (ok_write 0) (CeremonyOperatorInit site);
   OpRotate [scalar 555] (ok_write 0) [rotation "alice" 1 2011; rotation "carol" 3 3565];
   confirm "s2" "erin" 6101235; confirm "s2" "alice" 6101235;
   OpRestart].

(** ** Sessions *)

(** Members 0, 1 and 2 sign. *)
Definition certificate (message : list Z) : list Z :=
  (fun pk => pk * 100000 + zsum message) <$> [20; 21; 22].

Definition utxos (n : Z) : UncheckedUTXOs :=
  mkUncheckedUTXOs [mkInputUTXO (n, 0) 30000 0; mkInputUTXO (n, 1) 20000 0]
    [External 8 40000; Internal 0 9000].

Definition withdrawal (epoch seq ts : Z) : SignedStandardWithdrawalRequestWire :=
  mkSignedStandardWithdrawalRequestWire
    (mkStandardWithdrawalRequestWire (50 + seq) (utxos seq) ts seq) epoch
    (certificate (le_bytes 2 0x106 ++ address_bytes hid ++ le_bytes 8 epoch
                  ++ [50 + seq; 50000; ts; seq])) [224].

Definition handover : SignedMessage CommitteeTransitionRequest :=
  mkSignedMessage _
    (mkCommitteeSignature 7 (certificate (le_bytes 2 1 ++ address_bytes hid ++ le_bytes 8 7 ++ [8])) [224])
    (mkCommitteeTransitionRequest (move_committee 8)).

Definition submission (session cert : string) (genesis_hash : option Hash) (key id value : Z)
    : KpSigned ProvisionerInitRequest :=
  sign_as cert (mkProvisionerInitRequest session (init_config_digest (ap_config ap)) genesis_hash
                  (sealed key id value)).

Definition first_batch : list (KpSigned ProvisionerInitRequest) :=
  [submission "s3" "alice" (Some (genesis_digest genesis)) 13 1 1789;
   submission "s3" "erin" (Some (genesis_digest genesis)) 13 2 2344].

Definition second_batch : list (KpSigned ProvisionerInitRequest) :=
  [submission "s4" "alice" None 14 1 1789; submission "s4" "frank" None 14 2 2344].

(** The digest the operator expects an activation to find. *)
Definition activation (epoch tokens seq : Z) : Hash := Checksum (1 + 10 + 100000 + 6 + 1 + epoch + tokens + seq).

Definition arming (genesis : option GenesisState) (batch : list (KpSigned ProvisionerInitRequest))
    : list GuardianOp :=
  [OpOperatorInit platform (ok_write 0) (ok_write 0) (WithdrawOperatorInit (ap_config ap) genesis);
   OpProvisionerInit (ok_write 1) (ok_write 1) batch].

Definition first_service : list GuardianOp :=
  [OpActivate true (activation 7 100000 0) (ok_write 1); OpHeartbeat (ok_write 1);
   OpWithdraw 10000 (ok_write 2) (withdrawal 7 0 10005); OpUpdate (ok_write 3) handover;
   OpRotateCert (ok_write 3)
     (sign_as "erin" (mkProvisionerRotateCertRequest "s3" 0 ("frank" : AttestedKpCert) (sealed 13 2 2344)))].

Definition crash : GuardianOp := OpWithdraw 20000 (mkWrite 5 AbortedWritten) (withdrawal 8 1 20000).

Definition take_over : list GuardianOp :=
  crash :: arming None second_batch ++ [OpActivate true (activation 8 (100000 - 41000) 2) (ok_write 4)].

(** The [n]th process is started with [keys n]. *)
Fixpoint run_ops (n : Z) (ops : list GuardianOp) (w : World) : World :=
  match ops with
  | [] => w
  | op :: ops =>
      let w' := snd (run_op (keys (n + 1)) op w) in
      run_ops (match lifecycle (e_state (w_enclave w')) with None => n + 1 | _ => n end) ops w'
  end.

Definition start : World := mkWorld (enclave_new (keys 1)) [].
Definition after_ceremonies : World := run_ops 1 ceremonies start.
Definition armed_world : World :=
  run_ops 3 [OpOperatorInit platform (ok_write 0) (ok_write 0) (WithdrawOperatorInit (ap_config ap) (Some genesis))]
    after_ceremonies.
Definition standby_world : World :=
  run_ops 3 [OpProvisionerInit (ok_write 1) (ok_write 1) first_batch] armed_world.
Definition before_crash : World := run_ops 3 first_service standby_world.
Definition taken_over : World := run_ops 3 take_over before_crash.
Definition last_withdrawal : GuardianOp := OpWithdraw 30000 (ok_write 4) (withdrawal 8 2 30000).
Definition final_world : World := snd (run_op (keys 5) last_withdrawal taken_over).

Example stages :
  (fun w => lifecycle (e_state (w_enclave w))) <$> [after_ceremonies; armed_world; standby_world; before_crash; taken_over; final_world]
  = [None; Some (Withdraw OperatorInitialized); Some (Withdraw ProvisionerInitialized);
     Some (Withdraw Activated); Some (Withdraw Activated); Some (Withdraw Activated)].
Proof. vm_compute. reflexivity. Qed.

(** ** Every operation of the history is one of the environment's *)

Fixpoint ops_ok (n : Z) (ops : list GuardianOp) (w : World) : Prop :=
  match ops with
  | [] => True
  | op :: ops =>
      op_ok ap w op /\
      let w' := snd (run_op (keys (n + 1)) op w) in
      ops_ok (match lifecycle (e_state (w_enclave w')) with None => n + 1 | _ => n end) ops w'
  end.

Lemma reachable_run ops : forall n w, reachable ap w -> ops_ok n ops w -> reachable ap (run_ops n ops w).
Proof.
  induction ops as [|op ops IH]; intros n w Hw; [done|]. intros [Hop Hops].
  apply IH; [by constructor|done].
Qed.

(** Only withdrawals depend on the world they meet. *)
Lemma ops_ok_anywhere ops : Forall (fun op => forall w, op_ok ap w op) ops -> forall n w, ops_ok n ops w.
Proof. induction 1 as [|op ops Hop _ IH]; intros n w; [done|]. split; [apply Hop|apply IH]. Qed.

Lemma withdrawal_wire epoch q ts : is_u64 ts -> wire_ok (sw_data (withdrawal epoch q ts)).
Proof. constructor; [by repeat constructor..|done]. Qed.

Lemma filed_by_computation s3 d :
  (0 <=? d) && forallb (fun d' => d' <=? d + 1) (withdrawals s3).*1 = true -> filed s3 d.
Proof.
  intros [Hd Hall]%andb_true_iff. split; [lia|]. intros d' Hin%list_elem_of_In.
  rewrite forallb_forall in Hall. apply Hall in Hin. lia.
Qed.

Lemma withdraw_op_ok w now wr epoch q ts :
  is_u64 ts -> (0 <=? write_dir wr) && forallb (fun d' => d' <=? write_dir wr + 1) (withdrawals (w_s3 w)).*1 = true ->
  (Z.of_nat (length (log_entries (w_s3 w))) <? u64_max) = true ->
  op_ok ap w (OpWithdraw now wr (withdrawal epoch q ts)).
Proof.
  intros Hts Hd Hn. split_and!; [by apply withdrawal_wire|by apply filed_by_computation|lia].
Qed.

Lemma setup_op_ok w : op_ok ap w (OpSetup (scalar 1234) [scalar 777] (ok_write 0) setup_request).
Proof.
  split_and!; [|intros H%(f_equal (fun x : F => Zmod.to_Z x)); vm_compute in H; discriminate H|done].
  exists ["carol"; "alice"; "bob"], ["alice"; "bob"; "carol"], 3, 2. done.
Qed.

Lemma rotation_ok cert id value : rotation_request_ok [scalar 555] (kp_data (rotation cert id value)).
Proof. split; [|done]. by exists ["erin"; "alice"], ["alice"; "erin"], 2, 2. Qed.

Lemma honest_submissions session cert gh key id value rest :
  match gh with None => True | Some h => h = genesis_digest genesis end ->
  honest_batch ap (submission session cert gh key id value :: rest).
Proof. intros H _ _. by constructor. Qed.

Ltac session_ok :=
  repeat (split; [first
    [ exact I
    | by apply honest_submissions
    | apply withdraw_op_ok; [split; vm_compute; congruence|vm_compute; reflexivity..]]|]); exact I.

Lemma after_ceremonies_reachable : reachable ap after_ceremonies.
Proof.
  apply reachable_run; [constructor|]. apply ops_ok_anywhere.
  repeat (constructor; [intros w; first [exact I|apply setup_op_ok|split; [reflexivity|repeat constructor; apply rotation_ok]]|]).
  constructor.
Qed.

Lemma armed_reachable : reachable ap armed_world.
Proof. apply reachable_run; [apply after_ceremonies_reachable|]. cbn [ops_ok]. session_ok. Qed.

Lemma standby_reachable : reachable ap standby_world.
Proof. apply reachable_run; [apply armed_reachable|]. cbn [ops_ok first_batch]. session_ok. Qed.

Lemma before_crash_reachable : reachable ap before_crash.
Proof. apply reachable_run; [apply standby_reachable|]. cbn [ops_ok first_service]. session_ok. Qed.

Lemma taken_over_reachable : reachable ap taken_over.
Proof.
  apply reachable_run; [apply before_crash_reachable|].
  cbn [ops_ok take_over crash arming second_batch app]. session_ok.
Qed.

Lemma last_withdrawal_ok : op_ok ap taken_over last_withdrawal.
Proof. apply withdraw_op_ok; [split; vm_compute; congruence|vm_compute; reflexivity..]. Qed.

Lemma final_world_reachable : reachable ap final_world.
Proof. apply reach_op; [apply taken_over_reachable|apply last_withdrawal_ok]. Qed.

(** ** Witnesses *)

Definition entries : list GuardianWithdrawalLog := Eval vm_compute in log_entries (w_s3 final_world).
Lemma final_entries : log_entries (w_s3 final_world) = entries.
Proof. exact (eq_refl entries <: log_entries (w_s3 final_world) = entries). Qed.

Definition entry (i : nat) : GuardianWithdrawalLog :=
  default (mkGuardianWithdrawalLog 0 (mkStandardWithdrawalRequestWire 0 (utxos 0) 0 0)
             (mkCommitteeSignature 0 [] []) (mkStandardWithdrawalResponse []) (Limiter.genesis cfg))
    (entries !! i).

Lemma guardian_rate_limit_witness :
  zsum ((fun e => wire_outflow (rw_utxos (gl_request_data e))) <$> [entry 0; entry 1; entry 2])
  <= max_bucket_capacity cfg
     + refill_rate cfg * (rw_timestamp_secs (gl_request_data (entry 2))
                          - rw_timestamp_secs (gl_request_data (entry 0))).
Proof.
  apply (guardian_rate_limit ap final_world [] [entry 1; entry 2] [] (entry 0)).
  - exact ap_ok.
  - exact final_world_reachable.
  - rewrite final_entries. reflexivity.
  - reflexivity.
Defined.

Definition released : StandardWithdrawalResponse := mkStandardWithdrawalResponse [313634; 213634].
Lemma last_withdrawal_released : fst (run_op (keys 5) last_withdrawal taken_over) = Some released.
Proof.
  assert (match fst (run_op (keys 5) last_withdrawal taken_over) with
          | Some r => bool_decide ((enclave_signatures r : list Z) = [313634; 213634])
          | None => false
          end = true) as H by (vm_compute; reflexivity).
  destruct (fst _) as [[]|]; [|done]. cbn in H. by apply bool_decide_eq_true in H as ->.
Qed.

Lemma released_signatures_logged_witness :
  exists now wr req c (m : SignedMessage StandardWithdrawalRequest) txid post,
    last_withdrawal = OpWithdraw now wr req
    /\ from_move_with_encryption_key_fallback
         (latest_of genesis_committee (handover_records (w_s3 taken_over))) = Some c
    /\ Guardian.committee (e_state (w_enclave taken_over)) = Some c
    /\ verify_signature_and_weight c hid m (certificate_threshold (total_weight c)) = Ok tt
    /\ (is_u64 now -> is_u64 (now + MAX_CLOCK_SKEW_SECS) ->
        now - MAX_REQUEST_AGE_SECS <= wr_timestamp_secs (sm_message m) <= now + MAX_CLOCK_SKEW_SECS)
    /\ wr_seq (sm_message m) = Z.of_nat (length (log_entries (w_s3 taken_over)))
    /\ wire_outflow (into_wire (wr_utxos (sm_message m)))
       <= capacity_at (log_state cfg (w_s3 taken_over)) cfg (wr_timestamp_secs (sm_message m))
    /\ enclave_signed (e_config (w_enclave taken_over)) (wr_utxos (sm_message m)) txid released
    /\ log_entries (w_s3 final_world) = log_entries (w_s3 taken_over)
         ++ [mkGuardianWithdrawalLog txid (request_into_wire (sm_message m)) (sm_signature m)
               released post].
Proof.
  apply (released_signatures_logged ap (keys 5) taken_over final_world last_withdrawal released).
  - exact ap_ok.
  - exact taken_over_reachable.
  - exact last_withdrawal_ok.
  - unfold final_world. apply injective_projections; cbn [fst snd];
      [exact last_withdrawal_released|reflexivity].
Defined.

Definition serving_limiter : RateLimiter := mkRateLimiter cfg (mkLimiterState 59000 10005 1).
Definition serving_committee : Committee :=
  default (with_config [] 0 []) (from_move_with_encryption_key_fallback (move_committee 8)).

(** A session that has been armed and provisioned takes over the log before the crash. *)
Definition spare : Enclave :=
  mkEnclave (mkEnclaveConfig "spare" (15 : EncSecKey) (Some tt) (Some 1234 : option BtcKeypair) (Some site)
               (Some 5 : option HashiMasterG) (Some cfg) (Some hid))
    (mkEnclaveState 0 (Some (Withdraw ProvisionerInitialized)) None None
       (temporary_init_state (e_state (w_enclave standby_world))) None).

Definition spare_init : TemporaryInitState :=
  default (mkTemporaryInitState (mkCeremonyState (mkSecretSharingInstance ∅ (mkSecretSharingParams 2 2) 0) (0 : BtcPubkey) 0 [])
             None (Checksum 0 : Hash))
    (temporary_init_state (e_state (w_enclave standby_world))).

Definition is_set {A} (o : option A) : bool := match o with Some _ => true | None => false end.
Lemma set_default {A} (o : option A) (d : A) : is_set o = true -> o = Some (default d o).
Proof. by destruct o. Qed.

Lemma spare_temporary : temporary_init_state (e_state spare) = Some spare_init.
Proof.
  apply set_default.
  exact (eq_refl true <: is_set (temporary_init_state (e_state (w_enclave standby_world))) = true).
Qed.

Lemma spare_standby : standby cfg hid spare.
Proof. constructor; [repeat (constructor || eexists)|done..|eexists; apply spare_temporary]. Qed.

Lemma failover_exact_witness :
  exists w', operator_activate true
               (activation_digest (config_hash spare_init) (cs_instance (ceremony_state spare_init))
                  serving_committee (rl_state serving_limiter)) (ok_write 3)
               (mkWorld spare (w_s3 before_crash)) = (Ok tt, w')
    /\ rate_limiter (e_state (w_enclave w')) = Some serving_limiter
    /\ Guardian.committee (e_state (w_enclave w')) = Some serving_committee
    /\ lifecycle (e_state (w_enclave w')) = Some (Withdraw Activated).
Proof.
  apply (failover_exact ap before_crash serving_limiter serving_committee spare spare_init (ok_write 3)).
  - exact ap_ok.
  - exact before_crash_reachable.
  - exact (eq_refl (Some serving_limiter) <: rate_limiter (e_state (w_enclave before_crash)) = Some serving_limiter).
  - exact (eq_refl (Some serving_committee) <: Guardian.committee (e_state (w_enclave before_crash)) = Some serving_committee).
  - exact spare_standby.
  - exact spare_temporary.
  - reflexivity.
Defined.

Lemma committee_handover_witness :
  handovers hid genesis_committee (handover_records (w_s3 final_world))
  /\ mc_epoch ∘ cu_new_committee <$> handover_records (w_s3 final_world) = [8].
Proof.
  split; [|vm_compute; reflexivity].
  exact (proj1 (committee_handover ap final_world ap_ok final_world_reachable)).
Defined.

Lemma guardian_aborts_only_on_write_witness : ~ op_panics last_withdrawal taken_over.
Proof.
  apply (guardian_aborts_only_on_write ap taken_over last_withdrawal).
  - exact ap_ok.
  - exact taken_over_reachable.
  - exact last_withdrawal_ok.
  - by repeat constructor.
Defined.

Lemma bitcoin_key_constant_witness :
  exists sk, sk <> s_zero
    /\ (forall c, c ∈ ceremony_logs (w_s3 taken_over) ->
          ceremony_pubkey c = x_only_public_key (btc_keypair_of sk)
          /\ forall enc key shares,
               decrypt_verify_shares enc key (instance_of c) = Ok shares ->
               combine_shares shares (threshold (instance_of c)) = Ok sk)
    /\ forall kp, enclave_btc_keypair (e_config (w_enclave taken_over)) = Some kp -> kp = btc_keypair_of sk.
Proof. exact (bitcoin_key_constant ap taken_over ap_ok taken_over_reachable). Defined.

(** The second ceremony in the log. *)
Definition rotated : CeremonyLogMessage :=
  default (NewKey (mkSecretSharingInstance ∅ (mkSecretSharingParams 2 2) 0) (0 : BtcPubkey))
    (last (ceremony_logs (w_s3 final_world))).

Lemma rotated_logged : rotated ∈ ceremony_logs (w_s3 final_world).
Proof.
  assert (last (ceremony_logs (w_s3 final_world)) = Some rotated) as H.
  { apply set_default. exact (eq_refl true <: is_set (last (ceremony_logs (w_s3 final_world))) = true). }
  apply last_Some_elem_of in H. exact H.
Qed.

Lemma published_ceremonies_unanimous_witness :
  ceremony_sharing_seq rotated = 1
  /\ exists shares session d state,
    mkKpShareStateLogMessage (ceremony_sharing_seq rotated) 0 shares ∈ kp_share_logs (w_s3 final_world)
    /\ Z.of_nat (length shares) = num_shares (instance_of rotated)
    /\ from_proposal (mkCeremonyProposalLogMessage rotated shares) = Ok state
    /\ forall s, s ∈ shares ->
         exists signed : KpSigned CeremonyConfirmationRequest,
           kp_verify_signature signed = Ok (kp_data signed)
           /\ signer_fingerprint signed = recipient_fingerprint s
           /\ cc_expected_session_id (kp_data signed) = session
           /\ cc_ceremony_artifacts_digest (kp_data signed) = artifacts_digest d state.
Proof.
  split; [vm_compute; reflexivity|].
  exact (published_ceremonies_unanimous ap final_world rotated ap_ok final_world_reachable rotated_logged).
Defined.

Lemma lifecycle_typed_witness :
  well_typed (w_enclave final_world)
  /\ forall m, m ∈ kp_share_logs (w_s3 final_world) -> share_roster_wf (kss_encrypted_shares m).
Proof. exact (lifecycle_typed ap final_world ap_ok final_world_reachable). Defined.

Definition is_refusal {E A} (o : outcome E A) : bool := match o with Err _ => true | _ => false end.
Lemma refusal_err {E A S} (r : outcome E A * S) : is_refusal (fst r) = true -> exists e, r = (Err e, snd r).
Proof. destruct r as [[]]; cbn; intros; [done|by eexists|done]. Qed.

(** Too few submissions. *)
Lemma init_errors_change_nothing_witness :
  snd (provisioner_init (ok_write 1) (ok_write 1) [] armed_world) = armed_world.
Proof.
  destruct (refusal_err (provisioner_init (ok_write 1) (ok_write 1) [] armed_world)) as [e He];
    [vm_compute; reflexivity|].
  exact (proj1 (proj2 (init_errors_change_nothing platform (ok_write 1) (ok_write 1) (CeremonyOperatorInit site) []
              true (Checksum 0) armed_world)) e _ He).
Defined.

Lemma provisioning_authorized_witness :
  exists init sk,
    lifecycle (e_state (w_enclave armed_world)) = Some (Withdraw OperatorInitialized)
    /\ temporary_init_state (e_state (w_enclave armed_world)) = Some init
    /\ threshold (cs_instance (ceremony_state init)) <= 2
    /\ NoDup (signer_fingerprint <$> first_batch)
    /\ Forall (fun s => kp_verify_signature s = Ok (kp_data s)
         /\ pi_expected_session_id (kp_data s) = s3_session_id (e_config (w_enclave armed_world))
         /\ expected_config_hash (kp_data s) = config_hash init
         /\ expected_genesis_state_hash (kp_data s) = genesis_digest <$> genesis_state init
         /\ validate_share_assignment (cs_encrypted_shares (ceremony_state init)) (signer_fingerprint s)
              (ge_id (pi_encrypted_share (kp_data s))) = Ok tt) first_batch
    /\ x_only_public_key (btc_keypair_of sk) = cs_btc_master_pubkey (ceremony_state init)
    /\ enclave_btc_keypair (e_config (w_enclave standby_world)) = Some (btc_keypair_of sk)
    /\ lifecycle (e_state (w_enclave standby_world)) = Some (Withdraw ProvisionerInitialized).
Proof.
  apply (provisioning_authorized (GT := small_types) (ok_write 1) (ok_write 1) first_batch armed_world standby_world).
  unfold standby_world. cbn [run_ops run_op snd].
  assert (match fst (provisioner_init (ok_write 1) (ok_write 1) first_batch armed_world) with
          | Ok _ => true | _ => false end = true) as H by (vm_compute; reflexivity).
  destruct (provisioner_init _ _ _ _) as [[[]| |] w']; done.
Defined.

Definition checked_utxos : TxUTXOs :=
  mkTxUTXOs (uu_inputs (utxos 3)) [External 8 40000; Internal 0 9000].

Lemma outflow_charged_exactly_witness :
  gross_outflow_amount (E:=EnclaveError) checked_utxos = Ok (40000 + 1000).
Proof.
  refine (proj1 (proj2 (proj2 (proj2 (proj2
    (outflow_charged_exactly (uu_inputs (utxos 3)) (uu_outputs (utxos 3)) 0 checked_utxos _ _ _)))))).
  - by repeat constructor.
  - by repeat constructor.
  - vm_compute. reflexivity.
Defined.
End SmallGuardian.
