(* ===== verification/Retry.v ===== *)
(** * Retry trackers of the leader

    [crates/hashi/src/leader/retry.rs]: how long the leader leaves a failed item alone.  A kind
    of error carries a policy; a tracker keeps, for each item or for all of them together, the
    attempts made with the same kind of error in a row and the time of the next one. *)

From S2P Require Import Prelude.

Definition u32_max : Z := 2 ^ 32 - 1.

(** [trait RetryPolicy] *)
Class RetryPolicy (K : Type) := {
  retry_base_delay_ms : K -> Z;
  max_delay_ms : K -> Z;
  max_retries : K -> Z;
  kind_eq_dec :: EqDecision K;
}.

(** The policies are u64 and u32 constants. *)
Class RetryPolicyRange (K : Type) `{RetryPolicy K} := {
  base_range k : is_u64 (retry_base_delay_ms k);
  max_delay_range k : is_u64 (max_delay_ms k);
  max_retries_range k : 0 <= max_retries k <= u32_max;
}.

Section retry.
Context `{RP : RetryPolicy K}.

Definition retry_delay_ms (self : K) (attempt : Z) : Z :=
  let exponent := Z.min (sat_sub attempt 1) 63 in
  let multiplier := Z.shiftl 1 exponent in
  Z.min (sat_mul (retry_base_delay_ms self) multiplier) (max_delay_ms self).

Record RetryState := mkRetryState {
  attempt : Z;
  next_retry_at_ms : Z;
  last_error_kind : K;
}.

Definition next_retry_state (previous : option RetryState) (error_kind : K)
    (checkpoint_timestamp_ms : Z) : RetryState :=
  let attempt :=
    match previous with
    | Some state =>
        if bool_decide (last_error_kind state = error_kind)
        then Z.min (attempt state + 1) u32_max else 1
    | None => 1
    end in
  let next_retry_at_ms :=
    if max_retries error_kind <=? attempt then checkpoint_timestamp_ms
    else sat_add checkpoint_timestamp_ms (retry_delay_ms error_kind attempt) in
  mkRetryState attempt next_retry_at_ms error_kind.

Definition skips (state : RetryState) (checkpoint_timestamp_ms : Z) : bool :=
  (max_retries (last_error_kind state) <=? attempt state)
  || (checkpoint_timestamp_ms <? next_retry_at_ms state).

(** *** One state for each request *)

Abbreviation RetryTracker := (gmap Address RetryState).

Definition should_skip (self : RetryTracker) (request_id : Address) (checkpoint_timestamp_ms : Z)
    : bool :=
  match self !! request_id with
  | Some state => skips state checkpoint_timestamp_ms
  | None => false
  end.
Definition prune (self : RetryTracker) (active_ids : list Address) : RetryTracker :=
  filter (fun '(id, _) => id ∈ active_ids) self.
Definition clear (self : RetryTracker) (request_id : Address) : RetryTracker :=
  delete request_id self.
Definition record_failure (self : RetryTracker) (error_kind : K) (request_id : Address)
    (checkpoint_timestamp_ms : Z) : RetryTracker :=
  <[request_id := next_retry_state (self !! request_id) error_kind checkpoint_timestamp_ms]> self.

(** *** One state for all *)

Abbreviation GlobalRetryTracker := (option RetryState).

Definition global_should_skip (self : GlobalRetryTracker) (checkpoint_timestamp_ms : Z) : bool :=
  match self with
  | Some state => skips state checkpoint_timestamp_ms
  | None => false
  end.
Definition global_clear (self : GlobalRetryTracker) : GlobalRetryTracker := None.
Definition global_record_failure (self : GlobalRetryTracker) (error_kind : K)
    (checkpoint_timestamp_ms : Z) : GlobalRetryTracker :=
  Some (next_retry_state self error_kind checkpoint_timestamp_ms).
End retry.
Arguments RetryState K : clear implicits.

(** ** Backoff *)

Section backoff.
Context `{RP : RetryPolicy K} `{RR : !RetryPolicyRange K}.

Lemma retry_delay_bounds (k : K) n : 0 <= retry_delay_ms k n <= max_delay_ms k.
Proof.
  pose proof (max_delay_range k). pose proof (base_range k).
  unfold retry_delay_ms, sat_mul, is_u64 in *. rewrite Z.shiftl_1_l.
  assert (0 < 2 ^ Z.min (sat_sub n 1) 63) by (apply Z.pow_pos_nonneg; unfold sat_sub; lia).
  pose proof (Z.mul_nonneg_nonneg (retry_base_delay_ms k) (2 ^ Z.min (sat_sub n 1) 63)). lia.
Qed.

(** The delay doubles with each attempt until it meets its cap. *)
Lemma retry_delay_exact (k : K) n :
  1 <= n ->
  retry_delay_ms k n = Z.min (retry_base_delay_ms k * 2 ^ Z.min (n - 1) 63) (max_delay_ms k).
Proof.
  intros Hn. pose proof (max_delay_range k).
  unfold retry_delay_ms, sat_mul, sat_sub, is_u64 in *. rewrite Z.shiftl_1_l.
  replace (Z.max (n - 1) 0) with (n - 1) by lia. lia.
Qed.

(** The failures of one request in a row, all of the same kind, at the given times. *)
Definition fail_all (t : gmap Address (RetryState K)) (k : K) (id : Address) (times : list Z)
    : gmap Address (RetryState K) :=
  fold_left (fun t now => record_failure t k id now) times t.

Lemma fail_all_attempt k id times : forall t,
  times <> [] -> t !! id = None ->
  exists s, fail_all t k id times !! id = Some s
    /\ attempt s = Z.min (Z.of_nat (length times)) u32_max /\ last_error_kind s = k.
Proof.
  intros t Hne Ht. induction times as [|now times IH] using rev_ind; [done|].
  unfold fail_all. rewrite fold_left_app. cbn [fold_left]. fold (fail_all t k id times).
  unfold record_failure. rewrite lookup_insert_eq. eexists. split; [done|].
  rewrite length_app. unfold next_retry_state. cbn [attempt last_error_kind length].
  destruct times as [|u times'].
  { cbn. rewrite Ht. unfold u32_max. split; [lia|done]. }
  destruct IH as (s & -> & Ha & Hk); [done|]. rewrite bool_decide_true by done. rewrite Ha.
  unfold u32_max. split; [lia|done].
Qed.

(** Backoff.  After [n] failures in a row of a kind that may be retried, the request is left
    alone for exactly the policy's delay for [n] attempts (the base doubled each time, up to its
    cap) and is taken up again as soon as that has passed; after as many failures as the policy
    allows it is never taken up again.  A success, or the request leaving the queue, clears it. *)
Theorem retry_backoff (t : gmap Address (RetryState K)) k id times now later :
  let n := Z.of_nat (length times) + 1 in
  let t' := record_failure (fail_all t k id times) k id now in
  t !! id = None -> n <= u32_max -> 0 <= now -> is_u64 (now + max_delay_ms k) ->
  should_skip t' id later
    = (max_retries k <=? n) || (later <? now + retry_delay_ms k n)
  /\ retry_delay_ms k n = Z.min (retry_base_delay_ms k * 2 ^ Z.min (n - 1) 63) (max_delay_ms k)
  /\ should_skip (clear t' id) id later = false
  /\ (forall active, id ∉ active -> should_skip (prune t' active) id later = false).
Proof.
  intros n t' Ht Hn Hnow Hfit.
  assert (exists s, t' !! id = Some s /\ attempt s = n /\ last_error_kind s = k
                    /\ next_retry_at_ms s = if max_retries k <=? n then now
                                            else sat_add now (retry_delay_ms k n))
    as (s & Hs & Ha & Hk & Hnext).
  { unfold t', record_failure. rewrite lookup_insert_eq. eexists. split; [done|].
    unfold next_retry_state. cbn [attempt next_retry_at_ms last_error_kind].
    destruct times as [|u times].
    { cbn. rewrite Ht. unfold n. cbn. done. }
    destruct (fail_all_attempt k id (u :: times) t) as (s & -> & Ha & Hk); [done..|].
    rewrite bool_decide_true by done.
    replace (Z.min (attempt s + 1) u32_max) with n by (rewrite Ha; unfold n in *; lia). done. }
  pose proof (retry_delay_bounds k n).
  split_and!; [|apply retry_delay_exact; unfold n; lia|unfold should_skip, clear; by rewrite lookup_delete_eq|].
  - unfold should_skip, skips. rewrite Hs, Ha, Hk, Hnext.
    destruct (max_retries k <=? n); [done|]. cbn. unfold sat_add, is_u64 in *.
    f_equal. lia.
  - intros active Hin. unfold should_skip, prune.
    destruct (filter _ t' !! id) as [s'|] eqn:E; [|done]. apply map_lookup_filter_Some in E as [_ ?]. done.
Qed.
End backoff.

(** * Turns of the leader

    [crates/hashi/src/leader/mod.rs]: the members of a committee lead in turn, each for a run of
    checkpoints; work that takes long is not begun at the end of a turn. *)

Definition NUM_CONSECUTIVE_LEADER_CHECKPOINTS : Z := 100.
Definition TURN_EDGE_CHECKPOINTS : Z := 10.

Definition leader_turn (checkpoint_height : Z) : Z :=
  checkpoint_height / NUM_CONSECUTIVE_LEADER_CHECKPOINTS.

Definition turn_has_room (checkpoint_height : Z) : bool :=
  TURN_EDGE_CHECKPOINTS
  <? NUM_CONSECUTIVE_LEADER_CHECKPOINTS - checkpoint_height mod NUM_CONSECUTIVE_LEADER_CHECKPOINTS.
