(* ===== verification/Withdrawals.v ===== *)
(** * The withdrawals of a node

    [crates/hashi/src/withdrawals.rs] with the Move types it works on
    ([crates/hashi-types/src/move_types/mod.rs]), the accessors of the on-chain mirror
    ([crates/hashi/src/onchain/types.rs]) and of the configuration
    ([crates/hashi/src/config.rs]): the budgets of a batch, the walk over unconfirmed
    ancestors, and the check every validator makes before it signs a commitment.  The
    leader's side is in [WithdrawalBatch].

    A node's reads of its state before and after an [await] may differ, so the check has
    two halves that take a state each.  Log lines, metrics and the text of a refusal are
    left out.  Machine integers wrap around where the code does not saturate. *)

From S2P Require Import Limiter CoinSelection MonitorDomain Prelude.

(** ** Move types *)

Record MoveWithdrawalRequest := mkMoveWithdrawalRequest {
  wr_id : Address;
  wr_sender : Address;
  btc_amount : Z;
  wr_bitcoin_address : list Z;
  created_timestamp_ms : Z;
  (** the bytes of the committee's certificate *)
  approval_cert : option (list Z);
  approved_timestamp_ms : option Z;
  wr_withdrawal_txn_id : option Address;
  wr_sui_tx_digest : Z;
  (** balance in satoshis *)
  wr_btc : Z;
}.

Definition is_approved (self : MoveWithdrawalRequest) : bool :=
  bool_decide (is_Some (approval_cert self)).
Definition is_committed (self : MoveWithdrawalRequest) : bool :=
  bool_decide (is_Some (wr_withdrawal_txn_id self)).
Definition awaits_commitment (self : MoveWithdrawalRequest) : bool :=
  is_approved self && negb (is_committed self).

Inductive MpcSig :=
| SigPending (presig_index : Z)
| SigSigned (signature : list Z).

Record SigningBatch := mkSigningBatch {
  signatures : list MpcSig;
  sb_epoch : Z;
}.

Definition is_signed (s : MpcSig) : bool :=
  match s with SigSigned _ => true | SigPending _ => false end.

Definition num_inputs (self : SigningBatch) : Z := Z.of_nat (length (signatures self)).
Definition is_complete (self : SigningBatch) : bool := forallb is_signed (signatures self).
Definition pending_count (self : SigningBatch) : Z :=
  Z.of_nat (length (List.filter (fun s => negb (is_signed s)) (signatures self))).
Definition pending_index (self : SigningBatch) (i : Z) : option Z :=
  if i <? 0 then None
  else match signatures self !! Z.to_nat i with
       | Some (SigPending idx) => Some idx
       | _ => None
       end.
Definition unsigned_indices (self : SigningBatch) : list Z :=
  omap (fun '(i, s) => if is_signed s then None else Some i)
    (imap (fun i s => (Z.of_nat i, s)) (signatures self)).
Definition dense_signatures (self : SigningBatch) : option (list (list Z)) :=
  mapM (fun s => match s with SigSigned b => Some b | SigPending _ => None end)
    (signatures self).

Record WithdrawalTransaction := mkWithdrawalTransaction {
  wt_id : Address;
  wt_txid : Txid;
  wt_request_ids : list Address;
  wt_inputs : list MoveUtxo;
  wt_withdrawal_outputs : list OutputUtxo;
  wt_change_outputs : list OutputUtxo;
  wt_created_timestamp_ms : Z;
  wt_signed_timestamp_ms : option Z;
  wt_confirmed_timestamp_ms : option Z;
  wt_randomness : list Z;
  signing : SigningBatch;
  guardian_signatures : option (list (list Z));
}.

Definition all_outputs (self : WithdrawalTransaction) : list OutputUtxo :=
  wt_withdrawal_outputs self ++ wt_change_outputs self.
Definition is_fully_signed (self : WithdrawalTransaction) : bool :=
  is_complete (signing self) && bool_decide (is_Some (guardian_signatures self)).
Definition mpc_signatures (self : WithdrawalTransaction) : option (list (list Z)) :=
  if is_fully_signed self then dense_signatures (signing self) else None.

Record UtxoRecord := mkUtxoRecord {
  rec_utxo : MoveUtxo;
  produced_by : option Address;
  spent_by : option Address;
  spent_epoch : option Z;
}.

(** ** The mirror of the on-chain state *)

Abbreviation WithdrawalTxns := (gmap Address WithdrawalTransaction).
Abbreviation UtxoRecords := (gmap OutPoint UtxoRecord).

Record OnchainState := mkOnchainState {
  requests : gmap Address MoveWithdrawalRequest;
  withdrawal_txns : WithdrawalTxns;
  utxo_records : UtxoRecords;
  (** the [bitcoin_withdrawal_minimum] entry of the on-chain configuration, if a [u64] *)
  cfg_withdrawal_minimum : option Z;
  caught_up_with_scrape : bool;
  latest_checkpoint_timestamp_ms : Z;
  onchain_epoch : Z;
}.

Definition bitcoin_withdrawal_minimum (self : OnchainState) : Z :=
  match cfg_withdrawal_minimum self with
  | Some v => Z.max v (DUST_RELAY_MIN_VALUE + 1)
  | None => DUST_RELAY_MIN_VALUE + 1
  end.
Definition worst_case_network_fee (self : OnchainState) : Z :=
  bitcoin_withdrawal_minimum self - DUST_RELAY_MIN_VALUE.
Definition has_unsigned_txn (self : OnchainState) : bool :=
  existsb (fun t => negb (is_fully_signed t)) (map_to_list (withdrawal_txns self)).*2.
Definition active_utxo (self : OnchainState) (id : OutPoint) : option MoveUtxo :=
  match utxo_records self !! id with
  | Some r => match spent_by r with None => Some (rec_utxo r) | Some _ => None end
  | None => None
  end.

(** ** Budgets of a batch *)

Definition FEE_RATE_TOLERANCE_MULTIPLIER : Z := 3.
Definition WITHDRAWAL_RUNTIME_OBJECT_BUDGET : Z := 922.
Definition WITHDRAWAL_COMMIT_FIXED_RUNTIME_OBJECTS : Z := 12.
Definition WITHDRAWAL_COMMIT_RUNTIME_OBJECTS_PER_REQUEST : Z := 2.
Definition WITHDRAWAL_COMMIT_RUNTIME_OBJECTS_PER_INPUT : Z := 1.
Definition WITHDRAWAL_COMMIT_MIN_FUNDING_INPUTS : Z := 16.
Definition WITHDRAWAL_CONFIRM_FIXED_RUNTIME_OBJECTS : Z := 43.
Definition WITHDRAWAL_CONFIRM_RUNTIME_OBJECTS_PER_REQUEST : Z := 0.
Definition WITHDRAWAL_CONFIRM_RUNTIME_OBJECTS_PER_INPUT : Z := 1.
Definition WITHDRAWAL_MAX_CHANGE_OUTPUTS : Z := 2.
Definition CONSOLIDATION_MODE_MAX_REQUESTS : Z := 40.
Definition LIMITER_CAPACITY_SLACK_SECS : Z := 60.

Definition runtime_object_input_budget (fixed_objects objects_per_request objects_per_input
    request_count : Z) : Z :=
  let request_objects := sat_mul request_count objects_per_request in
  let input_objects :=
    sat_sub (sat_sub WITHDRAWAL_RUNTIME_OBJECT_BUDGET fixed_objects) request_objects in
  input_objects / objects_per_input.

Definition safe_withdrawal_commit_max_inputs (request_count configured_max_inputs : Z) : Z :=
  Z.min configured_max_inputs
    (runtime_object_input_budget WITHDRAWAL_COMMIT_FIXED_RUNTIME_OBJECTS
       WITHDRAWAL_COMMIT_RUNTIME_OBJECTS_PER_REQUEST
       WITHDRAWAL_COMMIT_RUNTIME_OBJECTS_PER_INPUT request_count).

Definition safe_withdrawal_confirm_max_inputs (request_count configured_max_inputs : Z) : Z :=
  Z.min configured_max_inputs
    (runtime_object_input_budget WITHDRAWAL_CONFIRM_FIXED_RUNTIME_OBJECTS
       WITHDRAWAL_CONFIRM_RUNTIME_OBJECTS_PER_REQUEST
       WITHDRAWAL_CONFIRM_RUNTIME_OBJECTS_PER_INPUT request_count).

Definition safe_withdrawal_flow_max_inputs (request_count configured_max_inputs : Z) : Z :=
  let request_input_budget := sat_mul request_count DEFAULT_INPUT_BUDGET in
  Z.min (Z.min (Z.min configured_max_inputs request_input_budget)
           (safe_withdrawal_commit_max_inputs request_count configured_max_inputs))
    (safe_withdrawal_confirm_max_inputs request_count configured_max_inputs).

Definition withdrawal_batch_request_cap (pending_requests available_utxos : Z) : Z :=
  if available_utxos <? pending_requests then MAX_WITHDRAWAL_REQUESTS
  else CONSOLIDATION_MODE_MAX_REQUESTS.

(** ** Weights *)

Definition SCRIPT_PATH_2OF2_TXIN_WEIGHT : Z := 164 + 268.
Definition TX_FIXED_WEIGHT_WU : Z := 34.
Definition P2TR_OUTPUT_WEIGHT_WU : Z := 172.
Definition P2WPKH_OUTPUT_WEIGHT_WU : Z := 124.

Definition output_weight_for_witness_program (bitcoin_address : list Z) : option Z :=
  if (length bitcoin_address =? 32)%nat then Some P2TR_OUTPUT_WEIGHT_WU
  else if (length bitcoin_address =? 20)%nat then Some P2WPKH_OUTPUT_WEIGHT_WU
  else None.

(** The loop over the outputs: their count and weight. *)
Fixpoint count_outputs (outputs : list OutputUtxo) (output_count output_weight : Z)
    : option (Z * Z) :=
  match outputs with
  | [] => Some (output_count, output_weight)
  | output :: outputs =>
      w ← output_weight_for_witness_program (bitcoin_address output);
      count_outputs outputs (wadd output_count 1) (wadd output_weight w)
  end.

Record Ancestor := mkAncestor {
  an_depth : Z;
  an_weight : Z;
  an_fee : Z;
}.

(** [UnconfirmedAncestry]: the two maps are borrowed for the life of the walk, so its
    state is [walked].  The set of pending txids is computed once, at its first use. *)
Abbreviation Walked := (gmap Address Ancestor).

Section weights.
Context `{BU : BitcoinUnits}.

Definition estimated_withdrawal_tx_weight (input_count : Z) (outputs : list OutputUtxo)
    : option Z :=
  let input_weight := wmul SCRIPT_PATH_2OF2_TXIN_WEIGHT input_count in
  '(output_count, output_weight) ← count_outputs outputs 0 0;
  Some (weight_add
          (weight_add (wadd (wadd TX_FIXED_WEIGHT_WU input_weight) output_weight)
             (varint_weight input_count))
          (varint_weight output_count)).

Definition withdrawal_txn_weight (txn : WithdrawalTransaction) : option Z :=
  estimated_withdrawal_tx_weight (Z.of_nat (length (wt_inputs txn)))
    (wt_withdrawal_outputs txn ++ wt_change_outputs txn).

Definition withdrawal_txn_fee (txn : WithdrawalTransaction) : Z :=
  let input_total := usum (mu_amount <$> wt_inputs txn) in
  let output_total := usum (ou_amount <$> wt_withdrawal_outputs txn ++ wt_change_outputs txn) in
  sat_sub input_total output_total.

(** ** Unconfirmed ancestors *)

Section ancestry.
Context (txns : WithdrawalTxns) (records : UtxoRecords).

Definition pending_txids : gset Txid :=
  list_to_set (wt_txid <$> (map_to_list txns).*2).

Definition parent (input : MoveUtxo) : option Address :=
  if bool_decide ((mu_id input).1 ∈ pending_txids)
  then match records !! mu_id input with Some r => produced_by r | None => None end
  else None.

(** The loop over the inputs of a transaction, [rec] being the recursive call. *)
Fixpoint deepest_parent (rec : Address -> Walked -> option (Z * Walked)) (inputs : list MoveUtxo)
    (deepest : Z) (walked : Walked) : option (Z * Walked) :=
  match inputs with
  | [] => Some (deepest, walked)
  | input :: inputs =>
      match parent input with
      | Some p =>
          '(d, walked) ← rec p walked;
          deepest_parent rec inputs (Z.max deepest d) walked
      | None => deepest_parent rec inputs deepest walked
      end
  end.

(** [chain_depth], [None] when the fuel runs out. *)
Fixpoint walk_depth (fuel : nat) (wid : Address) (walked : Walked) : option (Z * Walked) :=
  match fuel with
  | O => None
  | S fuel =>
      match walked !! wid with
      | Some ancestor => Some (an_depth ancestor, walked)
      | None =>
          match txns !! wid with
          | None => Some (0, walked)
          | Some txn =>
              let '(weight, fee) :=
                match withdrawal_txn_weight txn with
                | Some weight => (weight, withdrawal_txn_fee txn)
                | None => (0, 0)
                end in
              '(deepest, walked) ←
                deepest_parent (walk_depth fuel) (wt_inputs txn) 0
                  (<[wid := mkAncestor MAX_ANCESTOR_DEPTH weight fee]> walked);
              let depth := 1 + deepest in
              Some (depth, <[wid := mkAncestor depth weight fee]> walked)
          end
      end
  end.

(** Every call below another one walks a transaction for the first time. *)
Definition walk_fuel : nat := S (size txns).

Definition ancestry_depth (record : UtxoRecord) (walked : Walked) : option (Z * Walked) :=
  match produced_by record with
  | None => Some (0, walked)
  | Some producing_id => walk_depth walk_fuel producing_id walked
  end.
End ancestry.

(** The fold over the [HashMap]'s values. *)
Definition ancestry_package (walked : Walked) : Z * Z :=
  fold_left (fun '(weight, fee) a => (weight_add weight (an_weight a), sat_add fee (an_fee a)))
    (map_to_list walked).*2 (0, 0).
End weights.

(** ** The node *)

(** [bitcoin::Network] *)
Inductive BtcNetwork := Bitcoin | Testnet | Testnet4 | Signet | Regtest.

(** What a node takes from the [bitcoin] and [fastcrypto] crates, and the derivation of
    the bridge's taproot addresses from the two keys. *)
Class NodeEnv `{BU : BitcoinUnits} := {
  (** [FeeRate::from_sat_per_vb] *)
  from_sat_per_vb : Z -> option Z;
  (** [Address::script_pubkey] *)
  script_pubkey : BitcoinAddress -> ScriptBuf;
  (** [Transaction::compute_txid] and [Transaction::weight] of an unsigned transaction *)
  compute_txid : Transaction -> Txid;
  transaction_weight : Transaction -> Z;
  MpcKey : Type;
  GuardianBtcPubkey : Type;
  (** [XOnlyPublicKey::from_slice] *)
  xonly_from_slice : list Z -> option GuardianBtcPubkey;
  taproot_address : GuardianBtcPubkey -> MpcKey -> DerivationPath -> BtcNetwork -> BitcoinAddress;
}.

Class NodeEnvLaws `{NE : NodeEnv} := {
  script_pubkey_length a : Z.of_nat (length (script_pubkey a)) = script_pubkey_len a;
  (** an unsigned transaction has no witness: four weight units for each of its bytes *)
  transaction_weight_unsigned tx :
    transaction_weight tx
    = 32 + varint_weight (Z.of_nat (length (input tx)))
      + varint_weight (Z.of_nat (length (output tx)))
      + TXIN_BASE_WEIGHT * Z.of_nat (length (input tx))
      + zsum ((fun o => 4 * (8 + 1 + Z.of_nat (length (out_script o)))) <$> output tx);
}.

Record NodeConfig := mkNodeConfig {
  bitcoin_network : BtcNetwork;
  withdrawal_min_fee_rate_sat_vb : option Z;
  cfg_withdrawal_max_batch_size : option Z;
  cfg_max_mempool_chain_depth : option Z;
  cfg_withdrawal_batching_delay_ms : option Z;
}.

Section node.
Context `{NE : NodeEnv}.

Definition withdrawal_min_fee_rate (self : NodeConfig) : Z :=
  default DEFAULT_MIN_FEE_RATE (withdrawal_min_fee_rate_sat_vb self ≫= from_sat_per_vb).
Definition withdrawal_max_batch_size (self : NodeConfig) : Z :=
  Z.min (default MAX_WITHDRAWAL_REQUESTS (cfg_withdrawal_max_batch_size self))
    MAX_WITHDRAWAL_REQUESTS.
Definition cfg_mempool_chain_depth (self : NodeConfig) : Z :=
  default DEFAULT_MAX_MEMPOOL_CHAIN_DEPTH (cfg_max_mempool_chain_depth self).
Definition withdrawal_batching_delay_ms (self : NodeConfig) : Z :=
  default 300000 (cfg_withdrawal_batching_delay_ms self).

Definition MAINNET_MAX_FEE_RATE : Z := from_sat_per_vb_unchecked 100.
Definition SIGNET_MAX_FEE_RATE : Z := from_sat_per_vb_unchecked 9.

Definition withdrawal_fee_rate (config : NodeConfig) (estimate : Z) : Z :=
  let estimate :=
    match bitcoin_network config with
    | Bitcoin => Z.min estimate MAINNET_MAX_FEE_RATE
    | Signet => Z.min estimate SIGNET_MAX_FEE_RATE
    | _ => estimate
    end in
  Z.max estimate (withdrawal_min_fee_rate config).

Record Hashi := mkHashi {
  config : NodeConfig;
  onchain_state : OnchainState;
  local_limiter : option LocalLimiter;
  (** the key of the local signing manager and the one on chain *)
  signing_verifying_key : option MpcKey;
  onchain_verifying_key_g : option MpcKey;
  (** the pinned key of the guardian and the bytes of the one on chain *)
  guardian_btc_pubkey : option GuardianBtcPubkey;
  guardian_btc_public_key : option (list Z);
}.

(** *** Addresses (deposits.rs) *)

Definition mpc_master_g (self : Hashi) : option MpcKey :=
  match signing_verifying_key self with
  | Some key => Some key
  | None => onchain_verifying_key_g self
  end.

Definition require_guardian_btc_pubkey (self : Hashi) : option GuardianBtcPubkey :=
  match guardian_btc_pubkey self with
  | Some pinned => Some pinned
  | None => guardian_btc_public_key self ≫= xonly_from_slice
  end.

Definition normalized_derivation_path (derivation_path : option Address) : Address :=
  default ZERO_PATH derivation_path.

Definition get_deposit_address (self : Hashi) (derivation_path : option Address)
    : option BitcoinAddress :=
  mpc_g ← mpc_master_g self;
  guardian_pubkey ← require_guardian_btc_pubkey self;
  Some (taproot_address guardian_pubkey mpc_g (normalized_derivation_path derivation_path)
          (bitcoin_network (config self))).

Definition witness_program_from_address (address : BitcoinAddress) : option (list Z) :=
  witness_program_from_script (script_pubkey address).

(** ** Commitments *)

Record WithdrawalTxCommitment := mkWithdrawalTxCommitment {
  ap_request_ids : list Address;
  selected_utxos : list OutPoint;
  ap_outputs : list OutputUtxo;
  ap_txid : Txid;
}.

Inductive CommitmentItem :=
| ItemRequest (id : Address)
| ItemInput (id : OutPoint).

Inductive RefusalReason :=
| input_missing | input_locked | input_ancestor_depth
| request_missing | request_committed | request_unapproved
| output_below_dust.

Record RefusedItem := mkRefusedItem {
  item : CommitmentItem;
  reason : RefusalReason;
}.

(** The refusals of a commitment: the error types of the file, and a constructor for each
    message of the others. *)
Inductive CommitmentRefusal :=
| NoRequestIds | NoSelectedUtxos | NoOutputs
| TooManyRequests (request_count : Z)
| TooManyInputs (input_count max_inputs : Z)
| UnsupportedAddress
| TooHeavy (tx_weight : Z)
| TooManyChangeOutputs (change_count : Z)
| DuplicateRequestIds | DuplicateUtxoIds
| RefusedItems (refused : list RefusedItem)
| TooFewOutputs (request_count output_count : Z)
| InputsBelowOutputs (input_total output_total : Z)
| MinerFeeAboveWorstCase (per_user_miner_fee max_network_fee : Z)
| OutputAmountMismatch (i : nat)
| OutputAddressMismatch (i : nat)
| NoDepositAddress
| ChangeNotToBridge (j : nat)
| ChangeBelowDust (j : nat)
| NoLocalLimiter
| OutflowAboveBucket (outflow max_bucket_capacity : Z)
| FeeBelowMinimum (fee min_fee : Z)
| FeeEstimateUnavailable
| FeeAboveMaximum (fee max_fee : Z)
| CommitmentTxidMismatch (expected : Txid)
| MirrorCatchingUp
| WithdrawalStillUnsigned
| OldestRequestMissing (id : Address)
| AboveLimiterCapacity (outflow capacity : Z).

#[local] Abbreviation C := (outcome CommitmentRefusal).

Definition validate_commitment_shape (request_count input_count : Z) (outputs : list OutputUtxo)
    : C unit :=
  _ ← guard (request_count <=? MAX_WITHDRAWAL_REQUESTS) (TooManyRequests request_count);
  let max_inputs := safe_withdrawal_flow_max_inputs request_count DEFAULT_MAX_INPUTS in
  _ ← guard (input_count <=? max_inputs) (TooManyInputs input_count max_inputs);
  match estimated_withdrawal_tx_weight input_count outputs with
  | None => Err UnsupportedAddress
  | Some tx_weight =>
      _ ← guard (tx_weight <=? DEFAULT_MAX_TX_WEIGHT) (TooHeavy tx_weight);
      let change_count := sat_sub (Z.of_nat (length outputs)) request_count in
      guard (change_count <=? WITHDRAWAL_MAX_CHANGE_OUTPUTS) (TooManyChangeOutputs change_count)
  end.

Definition nonempty {A} (l : list A) : bool := match l with [] => false | _ => true end.

(** As many distinct elements, in a [BTreeSet], as elements. *)
Definition all_distinct `{Countable A} (l : list A) : bool :=
  (size (list_to_set l : gset A) =? length l)%nat.

Definition check_commitment_shape (approval : WithdrawalTxCommitment) : C unit :=
  _ ← guard (nonempty (ap_request_ids approval)) NoRequestIds;
  _ ← guard (nonempty (selected_utxos approval)) NoSelectedUtxos;
  _ ← guard (nonempty (ap_outputs approval)) NoOutputs;
  _ ← validate_commitment_shape (Z.of_nat (length (ap_request_ids approval)))
        (Z.of_nat (length (selected_utxos approval))) (ap_outputs approval);
  _ ← guard (all_distinct (ap_request_ids approval)) DuplicateRequestIds;
  guard (all_distinct (selected_utxos approval)) DuplicateUtxoIds.

(** *** Requests and inputs *)

Definition commitment_request (self : Hashi) (id : Address)
    : RefusedItem + MoveWithdrawalRequest :=
  match requests (onchain_state self) !! id with
  | None => inl (mkRefusedItem (ItemRequest id) request_missing)
  | Some request =>
      if is_committed request then inl (mkRefusedItem (ItemRequest id) request_committed)
      else if negb (is_approved request) then
        inl (mkRefusedItem (ItemRequest id) request_unapproved)
      else inr request
  end.

(** The loop over the request ids: the refusals and the requests found. *)
Fixpoint commitment_requests (self : Hashi) (ids : list Address)
    : list RefusedItem * list MoveWithdrawalRequest :=
  match ids with
  | [] => ([], [])
  | id :: ids =>
      let '(refused, found) := commitment_requests self ids in
      match commitment_request self id with
      | inr request => (refused, request :: found)
      | inl refusal => (refusal :: refused, found)
      end
  end.

Inductive InputCheck :=
| Refused (items : list RefusedItem)
| Passed (utxos : list MoveUtxo) (ancestors : Z * Z).

Section check.
Context (records : UtxoRecords) (txns : WithdrawalTxns).

(** The loop over the selected UTXOs; [None] when the walk runs out of fuel. *)
Fixpoint check_inputs (selected : list OutPoint) (walked : Walked) (utxos : list MoveUtxo)
    (refused : list RefusedItem) : option (Walked * list MoveUtxo * list RefusedItem) :=
  match selected with
  | [] => Some (walked, utxos, refused)
  | id :: selected =>
      let refuse reason := refused ++ [mkRefusedItem (ItemInput id) reason] in
      match records !! id with
      | None => check_inputs selected walked utxos (refuse input_missing)
      | Some record =>
          match spent_by record with
          | Some _ => check_inputs selected walked utxos (refuse input_locked)
          | None =>
              '(depth, walked) ← ancestry_depth txns records record walked;
              if MAX_ANCESTOR_DEPTH <=? depth
              then check_inputs selected walked utxos (refuse input_ancestor_depth)
              else check_inputs selected walked (utxos ++ [rec_utxo record]) refused
          end
      end
  end.

Definition check_selected_inputs (selected : list OutPoint) (refused : list RefusedItem)
    : option InputCheck :=
  '(walked, utxos, refused) ← check_inputs selected ∅ [] refused;
  Some (match refused with
        | [] => Passed utxos (ancestry_package walked)
        | _ => Refused refused
        end).
End check.

(** *** Amounts *)

Record PreparedCommitment := mkPreparedCommitment {
  pc_selected_utxos : list MoveUtxo;
  pc_fee : Z;
  pc_outflow : Z;
  pc_max_bucket_capacity : Z;
  pc_tx_weight : Z;
  pc_ancestor_weight : Z;
  pc_ancestor_fee : Z;
}.

Definition below_withdrawal_dust (amount : Z) : bool := amount <? DUST_RELAY_MIN_VALUE.

Definition limiter_outflow (input_total : Z) (change_outputs : list OutputUtxo) : Z :=
  sat_sub input_total (usum (ou_amount <$> change_outputs)).

Definition check_commitment_outflow (input_total : Z) (change_outputs : list OutputUtxo)
    (max_bucket_capacity : option Z) : C (Z * Z) :=
  match max_bucket_capacity with
  | None => Err NoLocalLimiter
  | Some max_bucket_capacity =>
      let outflow := limiter_outflow input_total change_outputs in
      _ ← guard (outflow <=? max_bucket_capacity) (OutflowAboveBucket outflow max_bucket_capacity);
      Ok (outflow, max_bucket_capacity)
  end.

Definition check_commitment_capacity (outflow : Z) (limiter : LimiterView) (timestamp_ms : Z)
    : C unit :=
  let capacity :=
    view_capacity_at limiter (sat_add (timestamp_ms / 1000) LIMITER_CAPACITY_SLACK_SECS) in
  if capacity <? outflow then Err (AboveLimiterCapacity outflow capacity) else Ok tt.

(** The loop over the requests and their positional outputs: the refused items. *)
Fixpoint check_payouts (per_user_miner_fee : Z) (outputs : list OutputUtxo) (i : nat)
    (requests : list MoveWithdrawalRequest) (refused : list RefusedItem) : C (list RefusedItem) :=
  match requests with
  | [] => Ok refused
  | request :: requests =>
      output ← expect (outputs !! i);
      let expected_amount := sat_sub (btc_amount request) per_user_miner_fee in
      if below_withdrawal_dust expected_amount then
        check_payouts per_user_miner_fee outputs (S i) requests
          (refused ++ [mkRefusedItem (ItemRequest (wr_id request)) output_below_dust])
      else
        _ ← guard (ou_amount output =? expected_amount) (OutputAmountMismatch i);
        _ ← guard (bool_decide (bitcoin_address output = wr_bitcoin_address request))
              (OutputAddressMismatch i);
        check_payouts per_user_miner_fee outputs (S i) requests refused
  end.

Fixpoint check_change (expected_address : list Z) (j : nat) (change_outputs : list OutputUtxo)
    : C unit :=
  match change_outputs with
  | [] => Ok tt
  | change_output :: change_outputs =>
      _ ← guard (bool_decide (bitcoin_address change_output = expected_address))
            (ChangeNotToBridge j);
      _ ← guard (TR_DUST_RELAY_MIN_VALUE <=? ou_amount change_output) (ChangeBelowDust j);
      check_change expected_address (S j) change_outputs
  end.

(** *** The order of commitment *)

Definition eligible_for_commitment (request : MoveWithdrawalRequest) (max_bucket_capacity : Z)
    : bool :=
  awaits_commitment request && bool_decide (is_Some (approved_timestamp_ms request))
  && (btc_amount request <=? max_bucket_capacity).

(** The order of [commit_order_key]. *)
Definition commit_order_cmp (a b : MoveWithdrawalRequest) : comparison :=
  then_with (option_cmp (approved_timestamp_ms a) (approved_timestamp_ms b))
    (then_with (created_timestamp_ms a ?= created_timestamp_ms b) (wr_id a ?= wr_id b)).

(** [Iterator::position] *)
Fixpoint position {A} (f : A -> bool) (l : list A) : option nat :=
  match l with
  | [] => None
  | x :: l => if f x then Some 0%nat else S <$> position f l
  end.

(** [requests[..=first].rotate_right(1)] *)
Definition promote_first_at_minimum (requests : list MoveWithdrawalRequest) (minimum : Z)
    : list MoveWithdrawalRequest :=
  match position (fun r => minimum <=? btc_amount r) requests with
  | None => requests
  | Some first =>
      match requests !! first with
      | Some r => r :: take first requests ++ drop (S first) requests
      | None => requests
      end
  end.

Definition withdrawal_commit_order (requests : list MoveWithdrawalRequest)
    (max_bucket_capacity minimum : Z) : list MoveWithdrawalRequest :=
  promote_first_at_minimum
    (sort_by (leb_of commit_order_cmp)
       (List.filter (fun r => eligible_for_commitment r max_bucket_capacity) requests))
    minimum.

(** [Iterator::min_by_key]: the first of the least elements. *)
Definition min_by {A} (cmp : A -> A -> comparison) (l : list A) : option A :=
  match l with
  | [] => None
  | x :: l => Some (fold_left (fun best y => match cmp y best with Lt => y | _ => best end) l x)
  end.

Definition oldest_at_minimum (requests : list MoveWithdrawalRequest)
    (max_bucket_capacity minimum : Z) : option MoveWithdrawalRequest :=
  min_by commit_order_cmp
    (List.filter (fun r => eligible_for_commitment r max_bucket_capacity
                           && (minimum <=? btc_amount r)) requests).

Definition check_commitment_against_queue (request_ids : list Address) (unsigned : bool)
    (requests : list MoveWithdrawalRequest) (max_bucket_capacity minimum : Z) : C unit :=
  if unsigned then Err WithdrawalStillUnsigned
  else
    match oldest_at_minimum requests max_bucket_capacity minimum with
    | Some oldest =>
        if bool_decide (wr_id oldest ∈ request_ids) then Ok tt
        else Err (OldestRequestMissing (wr_id oldest))
    | None => Ok tt
    end.

(** *** The two halves of the check *)

(** [None] when the walk over the ancestors runs out of fuel. *)
Definition prepare_withdrawal_tx_commitment (self : Hashi) (approval : WithdrawalTxCommitment)
    : option (C PreparedCommitment) :=
  match check_commitment_shape approval with
  | Err e => Some (Err e)
  | Panic => Some Panic
  | Ok _ =>
    let st := onchain_state self in
    let '(refused, requests) := commitment_requests self (ap_request_ids approval) in
    checked ← check_selected_inputs (utxo_records st) (withdrawal_txns st)
                (selected_utxos approval) refused;
    Some
      ('(selected_utxos, (ancestor_weight, ancestor_fee)) ←
         match checked with
         | Refused refused => Err (RefusedItems refused)
         | Passed utxos ancestors => Ok (utxos, ancestors)
         end;
       let request_count := length requests in
       let outputs := ap_outputs approval in
       _ ← guard (request_count <=? length outputs)%nat
             (TooFewOutputs (Z.of_nat request_count) (Z.of_nat (length outputs)));
       let input_total := usum (mu_amount <$> selected_utxos) in
       let output_total := usum (ou_amount <$> outputs) in
       _ ← guard (output_total <=? input_total) (InputsBelowOutputs input_total output_total);
       let fee := input_total - output_total in
       _ ← assert (negb (request_count =? 0)%nat);
       let per_user_miner_fee := fee / Z.of_nat request_count in
       let max_network_fee := worst_case_network_fee st in
       _ ← guard (per_user_miner_fee <=? max_network_fee)
             (MinerFeeAboveWorstCase per_user_miner_fee max_network_fee);
       refused ← check_payouts per_user_miner_fee outputs 0 requests [];
       _ ← guard (negb (nonempty refused)) (RefusedItems refused);
       let change_outputs := drop request_count outputs in
       _ ← (if nonempty change_outputs then
              match get_deposit_address self None ≫= witness_program_from_address with
              | None => Err NoDepositAddress
              | Some expected_address => check_change expected_address 0 change_outputs
              end
            else Ok tt);
       '(outflow, max_bucket) ←
         check_commitment_outflow input_total change_outputs
           ((fun limiter => max_bucket_capacity (lv_config limiter)) <$> local_limiter self);
       match estimated_withdrawal_tx_weight (Z.of_nat (length selected_utxos)) outputs with
       | None => Err UnsupportedAddress
       | Some tx_weight =>
           let min_rate :=
             Z.max (withdrawal_min_fee_rate (config self)) (from_sat_per_vb_unchecked 1) in
           let min_fee := default 0 (fee_wu min_rate tx_weight) in
           _ ← guard (min_fee <=? fee) (FeeBelowMinimum fee min_fee);
           Ok {| pc_selected_utxos := selected_utxos;
                 pc_fee := fee;
                 pc_outflow := outflow;
                 pc_max_bucket_capacity := max_bucket;
                 pc_tx_weight := tx_weight;
                 pc_ancestor_weight := ancestor_weight;
                 pc_ancestor_fee := ancestor_fee |}
       end)
  end.

Definition build_unsigned_withdrawal_tx {E} (selected_utxos : list MoveUtxo)
    (outputs : list OutputUtxo) : outcome E Transaction :=
  expect (unsigned_withdrawal_tx selected_utxos outputs).

Definition finish_withdrawal_tx_commitment (self : Hashi) (approval : WithdrawalTxCommitment)
    (prepared : PreparedCommitment) (clamped_fee_rate : Z) : C unit :=
  let fee := pc_fee prepared in
  let cpfp_deficit :=
    sat_sub (default 0 (fee_wu clamped_fee_rate (pc_ancestor_weight prepared)))
      (pc_ancestor_fee prepared) in
  let estimated_fee :=
    sat_add (default 0 (fee_wu clamped_fee_rate (pc_tx_weight prepared))) cpfp_deficit in
  let max_fee := sat_mul estimated_fee FEE_RATE_TOLERANCE_MULTIPLIER in
  _ ← guard (fee <=? max_fee) (FeeAboveMaximum fee max_fee);
  tx ← build_unsigned_withdrawal_tx (pc_selected_utxos prepared) (ap_outputs approval);
  let expected_txid := compute_txid tx in
  _ ← guard (ap_txid approval =? expected_txid) (CommitmentTxidMismatch expected_txid);
  let st := onchain_state self in
  _ ← (if caught_up_with_scrape st then
         check_commitment_against_queue (ap_request_ids approval) (has_unsigned_txn st)
           (map_to_list (requests st)).*2 (pc_max_bucket_capacity prepared)
           (bitcoin_withdrawal_minimum st)
       else Err MirrorCatchingUp);
  match local_limiter self with
  | None => Err NoLocalLimiter
  | Some limiter =>
      check_commitment_capacity (pc_outflow prepared) limiter (latest_checkpoint_timestamp_ms st)
  end.

Definition withdrawal_commitment_fee_rate (self : Hashi) (recent_fee_rate : option Z) : C Z :=
  match recent_fee_rate with
  | None => Err FeeEstimateUnavailable
  | Some kyoto_fee_rate => Ok (withdrawal_fee_rate (config self) kyoto_fee_rate)
  end.

(** [before] and [after] are the node around the [await] of the fee estimate. *)
Definition validate_withdrawal_tx_commitment (before after : Hashi)
    (recent_fee_rate : option Z) (approval : WithdrawalTxCommitment) : option (C unit) :=
  prepared ← prepare_withdrawal_tx_commitment before approval;
  Some (prepared ← prepared;
        fee_rate ← withdrawal_commitment_fee_rate before recent_fee_rate;
        finish_withdrawal_tx_commitment after approval prepared fee_rate).
End node.
