(* ===== verification/WithdrawalAncestry.v ===== *)
(** * The walk over unconfirmed ancestors

    The memoised depth-first walk of [UnconfirmedAncestry] against a naive definition of
    the ancestors of a transaction.  The walk terminates on every graph, cycles included;
    below Bitcoin's ancestor limit its depth is the length of the longest chain of in-flight
    transactions; and after the walk, [walked] holds every in-flight ancestor once. *)

From S2P Require Import Limiter CoinSelection MonitorDomain Withdrawals Prelude.

Section ancestry.
Context `{BU : BitcoinUnits}.
Context (txns : WithdrawalTxns) (records : UtxoRecords).

(** ** The reference *)

(** Whether a chain of [n] in-flight transactions starts at [wid], each spending an output
    of the next one. *)
Fixpoint has_chain (n : nat) (wid : Address) : bool :=
  match n with
  | O => true
  | S n' =>
      match txns !! wid with
      | None => false
      | Some txn =>
          (n' =? 0)%nat
          || existsb (fun i => match parent txns records i with
                               | Some p => has_chain n' p
                               | None => false
                               end) (wt_inputs txn)
      end
  end.

(** [wid] spends an output of [p]. *)
Definition edge (wid p : Address) : Prop :=
  exists txn i, txns !! wid = Some txn /\ i ∈ wt_inputs txn /\ parent txns records i = Some p.

Definition ancestor_cost (txn : WithdrawalTransaction) : Z * Z :=
  match withdrawal_txn_weight txn with
  | Some weight => (weight, withdrawal_txn_fee txn)
  | None => (0, 0)
  end.

Lemma has_chain_edge n w p : edge w p -> has_chain n p = true -> has_chain (S n) w = true.
Proof.
  intros (txn & i & Ht & Hi & Hp) H. cbn. rewrite Ht. apply orb_true_iff. right.
  apply existsb_exists. exists i. rewrite Hp. by split; [apply list_elem_of_In|].
Qed.

Lemma has_chain_S n w :
  has_chain (S n) w = true ->
  is_Some (txns !! w) /\ (n = 0%nat \/ exists p, edge w p /\ has_chain n p = true).
Proof.
  cbn. destruct (txns !! w) as [txn|] eqn:Ht; [|done]. intros H. split; [done|].
  apply orb_true_iff in H as [H%Nat.eqb_eq|H]; [by left|right].
  apply existsb_exists in H as (i & Hi & H). destruct (parent txns records i) as [p|] eqn:Hp; [|done].
  exists p. split; [|done]. exists txn, i. by rewrite list_elem_of_In.
Qed.

Lemma has_chain_pred n : forall w, has_chain (S n) w = true -> has_chain n w = true.
Proof.
  induction n as [|n IH]; [done|]. intros w H. apply has_chain_S in H as [[txn Ht] [?|(p & He & Hc)]];
    [done|]. apply IH in Hc. by apply (has_chain_edge n w p).
Qed.

Lemma has_chain_le n m w : (m <= n)%nat -> has_chain n w = true -> has_chain m w = true.
Proof. induction 1 as [|n Hle IH]; [done|]. intros H%has_chain_pred. by apply IH. Qed.

(** Around a cycle there are chains of every length. *)
Lemma cycle_has_chain s : tc edge s s -> forall n w p, edge w p -> rtc edge p s -> has_chain n w = true.
Proof.
  intros Hs. induction n as [|n IH]; intros w p He Hr; [done|].
  apply (has_chain_edge n w p He).
  apply rtc_inv in Hr as [->|(q & Hq & Hr)]; [|by apply (IH p q)].
  apply tc_rtc_l with (x := s) in Hs as Hs'; [|done].
  inversion Hs as [? ? H1|? q ? H1 H2]; subst; [by apply (IH s s)|].
  apply (IH s q); [done|by apply tc_rtc].
Qed.

Lemma cycle_long s n : tc edge s s -> has_chain n s = true.
Proof.
  intros Hs. inversion Hs as [? ? H1|? q ? H1 H2]; subst.
  - by apply (cycle_has_chain s Hs n s s).
  - apply (cycle_has_chain s Hs n s q); [done|by apply tc_rtc].
Qed.

(** ** What a depth means *)

Definition depth_ok (d : Z) (w : Address) : Prop :=
  0 <= d
  /\ (d < MAX_ANCESTOR_DEPTH -> forall n, has_chain n w = (Z.of_nat n <=? d))
  /\ (MAX_ANCESTOR_DEPTH <= d -> has_chain (Z.to_nat MAX_ANCESTOR_DEPTH) w = true).

Lemma depth_ok_missing w : txns !! w = None -> depth_ok 0 w.
Proof.
  intros H. split_and!; [done| |unfold MAX_ANCESTOR_DEPTH; lia].
  intros _ [|n]; [done|]. cbn. rewrite H. symmetry. apply Z.leb_gt. lia.
Qed.

Lemma depth_ok_chain d w n :
  depth_ok d w -> Z.of_nat n <= d -> (n <= 25)%nat -> has_chain n w = true.
Proof.
  intros (_ & Hlt & Hge) Hn H25. destruct (Z.lt_ge_cases d MAX_ANCESTOR_DEPTH).
  - rewrite Hlt by done. lia.
  - apply (has_chain_le 25); [lia|]. by apply Hge.
Qed.

(** The depth of a transaction from the depths of its parents. *)
Lemma depth_ok_step w txn D :
  txns !! w = Some txn -> 0 <= D ->
  (forall p, edge w p -> exists d, depth_ok d p /\ d <= D) ->
  (0 < D -> exists p, edge w p /\ depth_ok D p) ->
  depth_ok (1 + D) w.
Proof.
  intros Ht HD Hall Hmax. split_and!; [lia| |].
  - unfold MAX_ANCESTOR_DEPTH. intros Hlt n. apply eq_iff_eq_true. rewrite Z.leb_le. split.
    + destruct n as [|n]; [lia|]. intros [_ [->|(p & He & Hc)]]%has_chain_S; [lia|].
      destruct (Hall p He) as (d & (_ & Hd & _) & Hle).
      rewrite Hd in Hc by (unfold MAX_ANCESTOR_DEPTH; lia). lia.
    + intros Hn. destruct n as [|[|n]]; [done| |].
      { cbn. by rewrite Ht. }
      destruct (Hmax ltac:(lia)) as (p & He & Hp). apply (has_chain_edge _ _ p He).
      apply (depth_ok_chain D); [done|lia|lia].
  - unfold MAX_ANCESTOR_DEPTH. intros Hge. destruct (Hmax ltac:(lia)) as (p & He & Hp).
    change (Z.to_nat 25) with (S 24). apply (has_chain_edge _ _ p He).
    apply (depth_ok_chain D); [done|lia|lia].
Qed.

(** ** The invariant of the walk *)

(** [stack] holds the transactions whose walk has not returned. *)
Record walk_inv (stack : gset Address) (walked : Walked) : Prop := {
  wi_stack : stack ⊆ dom walked;
  wi_cost : forall w a, walked !! w = Some a ->
    exists txn, txns !! w = Some txn /\ (an_weight a, an_fee a) = ancestor_cost txn;
  wi_depth : forall w a, walked !! w = Some a -> w ∉ stack -> depth_ok (an_depth a) w;
  wi_busy : forall w a, walked !! w = Some a -> w ∈ stack -> an_depth a = MAX_ANCESTOR_DEPTH;
  wi_closed : forall w p, w ∈ dom walked -> w ∉ stack -> edge w p -> p ∈ dom txns -> p ∈ dom walked;
}.

(** What a call returns: the depth of [wid], and the walk extended with ancestors of it. *)
Record walk_post (stack : gset Address) (wid : Address) (walked : Walked) (d : Z)
    (walked' : Walked) : Prop := {
  wp_inv : walk_inv stack walked';
  wp_depth : depth_ok d wid;
  wp_grows : dom walked ⊆ dom walked';
  wp_self : wid ∈ dom txns -> wid ∈ dom walked';
  wp_new : forall w, w ∈ dom walked' -> w ∈ dom walked \/ rtc edge wid w;
}.

Definition walk_spec (fuel : nat) (rec : Address -> Walked -> option (Z * Walked)) : Prop :=
  forall stack wid walked,
    walk_inv stack walked -> (forall s, s ∈ stack -> tc edge s wid) ->
    (size (dom txns ∖ dom walked) < fuel)%nat ->
    exists d walked', rec wid walked = Some (d, walked') /\ walk_post stack wid walked d walked'.

(** The loop over the inputs of [w]; [done] holds the parents already walked. *)
Record loop_inv (w : Address) (done : list Address) (deepest : Z) : Prop := {
  li_nonneg : 0 <= deepest;
  li_all : forall p, p ∈ done -> exists d, depth_ok d p /\ d <= deepest;
  li_max : 0 < deepest -> exists p, p ∈ done /\ depth_ok deepest p;
}.

Lemma deepest_parent_spec fuel rec stack w txn :
  walk_spec fuel rec -> txns !! w = Some txn -> w ∈ stack ->
  (forall s, s ∈ stack -> rtc edge s w) ->
  forall ins don deepest walked,
    ins ⊆ wt_inputs txn ->
    loop_inv w don deepest -> walk_inv stack walked ->
    (forall p, p ∈ don -> p ∈ dom txns -> p ∈ dom walked) ->
    (size (dom txns ∖ dom walked) < fuel)%nat ->
    exists D walked', deepest_parent txns records rec ins deepest walked = Some (D, walked')
      /\ loop_inv w (don ++ omap (parent txns records) ins) D
      /\ walk_inv stack walked' /\ dom walked ⊆ dom walked'
      /\ (forall p, p ∈ don ++ omap (parent txns records) ins -> p ∈ dom txns -> p ∈ dom walked')
      /\ (forall x, x ∈ dom walked' -> x ∈ dom walked \/ tc edge w x).
Proof.
  intros Hrec Ht Hw Hst. induction ins as [|i ins IH]; intros don deepest walked Hsub Hli Hinv Hdon Hf;
    cbn [deepest_parent omap list_omap].
  { exists deepest, walked. rewrite app_nil_r. by split_and!; auto. }
  assert (ins ⊆ wt_inputs txn) as Hsub' by set_solver.
  destruct (parent txns records i) as [p|] eqn:Hp; [|by apply IH].
  assert (edge w p) as He by (exists txn, i; split_and!; [done|set_solver|done]).
  destruct (Hrec stack p walked Hinv) as (d & walked1 & -> & [Hinv1 Hd Hg1 Hs1 Hn1]); [|done|].
  { intros s Hs. eapply tc_rtc_l; [by apply Hst|by apply tc_once]. }
  cbn. destruct (IH (don ++ [p]) (Z.max deepest d) walked1) as (D & walked2 & -> & H2); [done|..].
  - destruct Hli as [Hn Ha Hm]. split; [lia| |].
    + intros q [Hq|Hq%list_elem_of_singleton]%elem_of_app; [|subst q; exists d; split; [done|lia]].
      destruct (Ha q Hq) as (e & ? & ?). exists e. split; [done|lia].
    + intros Hpos. destruct (Z.max_spec deepest d) as [[_ E]|[_ E]]; rewrite E in *.
      * exists p. split; [set_solver|done].
      * destruct Hm as (q & ? & ?); [lia|]. exists q. split; [set_solver|done].
  - done.
  - intros q [Hq|Hq%list_elem_of_singleton]%elem_of_app Hd'; [|subst q; by apply Hs1]. by apply Hg1, Hdon.
  - eapply Nat.le_lt_trans; [|exact Hf]. apply subseteq_size. set_solver.
  - rewrite <- app_assoc in H2. destruct H2 as (? & ? & ? & ? & H2).
    exists D, walked2. split_and!; [done..|set_solver|done|].
    intros x [Hx|?]%H2; [|by right]. apply Hn1 in Hx as [?|Hx]; [by left|right].
    by eapply tc_rtc_r; [apply tc_once|].
Qed.

Lemma walk_inv_enter stack walked w txn wt fee :
  walk_inv stack walked -> walked !! w = None -> txns !! w = Some txn ->
  (wt, fee) = ancestor_cost txn ->
  walk_inv ({[w]} ∪ stack) (<[w := mkAncestor MAX_ANCESTOR_DEPTH wt fee]> walked).
Proof.
  intros [Hs Hc Hd Hb Hcl] Hw Ht Hcost.
  assert (w ∉ stack) as Hns by (intros [a Ha]%Hs%elem_of_dom; congruence).
  split.
  - rewrite dom_insert_L. set_solver.
  - intros x a [[<- <-]|[Hne Hx]]%lookup_insert_Some; [by exists txn|by apply Hc].
  - intros x a [[<- <-]|[Hne Hx]]%lookup_insert_Some Hn; [set_solver|apply Hd; set_solver].
  - intros x a [[<- <-]|[Hne Hx]]%lookup_insert_Some Hn; [done|apply (Hb x); set_solver].
  - intros x p. rewrite dom_insert_L. intros Hx Hn He Hp. assert (x ∈ dom walked) by set_solver.
    apply elem_of_union_r, (Hcl x); set_solver.
Qed.

Lemma walk_inv_leave stack walked w txn wt fee D :
  walk_inv ({[w]} ∪ stack) walked -> w ∉ stack -> txns !! w = Some txn ->
  (wt, fee) = ancestor_cost txn -> depth_ok D w ->
  (forall p, edge w p -> p ∈ dom txns -> p ∈ dom walked) ->
  walk_inv stack (<[w := mkAncestor D wt fee]> walked).
Proof.
  intros [Hs Hc Hd Hb Hcl] Hns Ht Hcost HD Hpar.
  assert (w ∈ dom walked) as Hw by set_solver. split.
  - rewrite dom_insert_L. set_solver.
  - intros x a [[<- <-]|[Hne Hx]]%lookup_insert_Some; [by exists txn|by apply Hc].
  - intros x a [[<- <-]|[Hne Hx]]%lookup_insert_Some Hn; [done|apply Hd; set_solver].
  - intros x a [[<- <-]|[Hne Hx]]%lookup_insert_Some Hn; [done|apply (Hb x); set_solver].
  - intros x p. rewrite dom_insert_L. intros Hx Hn He Hp. apply elem_of_union_r.
    destruct (decide (x = w)) as [->|Hne]; [by apply Hpar|]. apply (Hcl x); set_solver.
Qed.

Lemma edge_parents w txn p :
  txns !! w = Some txn -> edge w p <-> p ∈ omap (parent txns records) (wt_inputs txn).
Proof.
  intros Ht. rewrite list_elem_of_omap. split.
  - intros (txn' & i & Ht' & Hi & Hp). exists i. naive_solver.
  - intros (i & Hi & Hp). by exists txn, i.
Qed.

(** The walk meets its specification, whatever the graph. *)
Lemma walk_depth_spec fuel : walk_spec fuel (walk_depth txns records fuel).
Proof.
  induction fuel as [|fuel IH]; intros stack wid walked Hinv Hst Hf; [lia|]. cbn [walk_depth].
  destruct (walked !! wid) as [a|] eqn:Hw.
  { exists (an_depth a), walked. split; [done|]. pose proof (elem_of_dom_2 _ _ _ Hw).
    split; [done| |done|done|by left]. destruct (decide (wid ∈ stack)) as [Hs|Hs].
    - rewrite (wi_busy _ _ Hinv _ _ Hw Hs). split_and!; [done|done|].
      intros _. by apply cycle_long, Hst.
    - by apply (wi_depth _ _ Hinv _ _ Hw). }
  destruct (txns !! wid) as [txn|] eqn:Ht.
  2:{ exists 0, walked. split; [done|]. split; [done|by apply depth_ok_missing|done| |by left].
      intros []%elem_of_dom. congruence. }
  assert (wid ∉ stack) as Hns.
  { intros Hs%(wi_stack _ _ Hinv)%elem_of_dom. rewrite Hw in Hs. by destruct Hs. }
  destruct (match withdrawal_txn_weight txn with
            | Some weight => (weight, withdrawal_txn_fee txn) | None => (0, 0) end)
    as [wt fee] eqn:Hcost. symmetry in Hcost.
  change ((wt, fee) = ancestor_cost txn) in Hcost.
  set (entered := <[wid:=_]> walked).
  assert (dom entered = {[wid]} ∪ dom walked) as Hdom by apply dom_insert_L.
  assert (wid ∈ dom txns) as Hin by by eapply elem_of_dom_2.
  assert (wid ∉ dom walked) as Hnin by by apply not_elem_of_dom.
  destruct (deepest_parent_spec fuel (walk_depth txns records fuel) ({[wid]} ∪ stack) wid txn
              IH Ht ltac:(set_solver)) with (ins := wt_inputs txn) (don := @nil Address)
              (deepest := 0) (walked := entered)
    as (D & walked' & -> & Hli & Hinv' & Hg & Hpar & Hnew).
  - intros s [->%elem_of_singleton|Hs]%elem_of_union; [done|by apply tc_rtc, Hst].
  - done.
  - split; [done|by intros p ?%elem_of_nil|lia].
  - by apply (walk_inv_enter _ _ _ txn).
  - by intros p ?%elem_of_nil.
  - eapply Nat.lt_le_trans; [apply (subset_size _ (dom txns ∖ dom walked))|lia]. set_solver.
  - exists (1 + D), (<[wid := mkAncestor (1 + D) wt fee]> walked'). split; [done|].
    rewrite app_nil_l in *. destruct Hli as [HD0 Hall Hmax].
    assert (depth_ok (1 + D) wid) as HD.
    { apply (depth_ok_step _ txn); [done|done| |].
      - intros p Hp%(edge_parents _ txn); [|done]. by apply Hall.
      - intros (p & Hp & ?)%Hmax. exists p. split; [by apply (edge_parents _ txn)|done]. }
    split; [|done|rewrite dom_insert_L; set_solver|rewrite dom_insert_L; set_solver|].
    + apply (walk_inv_leave _ _ _ txn); [done..|].
      intros p Hp%(edge_parents _ txn) ?; [|done]. by apply Hpar.
    + intros x. rewrite dom_insert_L. intros [->%elem_of_singleton|Hx]%elem_of_union; [by right|].
      apply Hnew in Hx as [Hx|Hx]; [|right; by apply tc_rtc]. rewrite Hdom in Hx.
      apply elem_of_union in Hx as [->%elem_of_singleton|Hx]; [by right|by left].
Qed.

(** ** The check of the selected inputs *)

(** Why an input is refused, by the naive definition. *)
Definition input_refusal (id : OutPoint) : option RefusalReason :=
  match records !! id with
  | None => Some input_missing
  | Some r =>
      match spent_by r, produced_by r with
      | Some _, _ => Some input_locked
      | None, Some p =>
          if has_chain (Z.to_nat MAX_ANCESTOR_DEPTH) p then Some input_ancestor_depth else None
      | None, None => None
      end
  end.

Definition refused_inputs (selected : list OutPoint) : list RefusedItem :=
  omap (fun id => mkRefusedItem (ItemInput id) <$> input_refusal id) selected.

Definition passed_inputs (selected : list OutPoint) : list MoveUtxo :=
  omap (fun id => match input_refusal id with
                  | None => rec_utxo <$> records !! id
                  | Some _ => None
                  end) selected.

(** The in-flight ancestors of the unlocked UTXOs of [selected]. *)
Definition in_flight_ancestor (selected : list OutPoint) (w : Address) : Prop :=
  w ∈ dom txns /\ exists id r p, id ∈ selected /\ records !! id = Some r /\ spent_by r = None
                                /\ produced_by r = Some p /\ rtc edge p w.

Lemma walk_inv_empty : walk_inv ∅ ∅.
Proof. split; [done|..]; intros ? ?; rewrite ?lookup_empty; set_solver. Qed.

Lemma depth_ok_limit d p :
  depth_ok d p -> (MAX_ANCESTOR_DEPTH <=? d) = has_chain (Z.to_nat MAX_ANCESTOR_DEPTH) p.
Proof.
  intros (_ & Hlt & Hge). destruct (Z.leb_spec MAX_ANCESTOR_DEPTH d) as [H|H].
  - by rewrite Hge.
  - rewrite (Hlt H). unfold MAX_ANCESTOR_DEPTH in *. symmetry. apply Z.leb_gt. lia.
Qed.

Lemma ancestry_depth_spec r walked :
  walk_inv ∅ walked ->
  exists d walked', ancestry_depth txns records r walked = Some (d, walked')
    /\ walk_inv ∅ walked' /\ dom walked ⊆ dom walked'
    /\ (MAX_ANCESTOR_DEPTH <=? d)
       = match produced_by r with
         | Some p => has_chain (Z.to_nat MAX_ANCESTOR_DEPTH) p
         | None => false
         end
    /\ (forall p, produced_by r = Some p -> p ∈ dom txns -> p ∈ dom walked')
    /\ (forall w, w ∈ dom walked' ->
          w ∈ dom walked \/ exists p, produced_by r = Some p /\ rtc edge p w).
Proof.
  intros Hinv. unfold ancestry_depth. destruct (produced_by r) as [p|]; [|by exists 0, walked; split_and!; auto].
  destruct (walk_depth_spec (walk_fuel txns) ∅ p walked Hinv) as (d & walked' & -> & [? Hd ? Hs Hn]);
    [set_solver| |].
  { unfold walk_fuel. rewrite <- size_dom.
    apply Nat.lt_succ_r, subseteq_size. set_solver. }
  exists d, walked'. split_and!; [done..|by apply depth_ok_limit| |].
  - by intros ? [= <-].
  - intros w [?|?]%Hn; [by left|right]. by exists p.
Qed.

(** [dom walked] holds every in-flight ancestor of [seen]. *)
Record walked_for (seen : list OutPoint) (walked : Walked) : Prop := {
  wf_inv : walk_inv ∅ walked;
  wf_sound : forall w, w ∈ dom walked -> in_flight_ancestor seen w;
  wf_producers : forall id r p, id ∈ seen -> records !! id = Some r -> spent_by r = None ->
    produced_by r = Some p -> p ∈ dom txns -> p ∈ dom walked;
}.

Lemma edge_dom w p : edge w p -> w ∈ dom txns.
Proof. intros (txn & _ & Ht & _). by eapply elem_of_dom_2. Qed.

Lemma walked_for_all seen walked w :
  walked_for seen walked -> w ∈ dom walked <-> in_flight_ancestor seen w.
Proof.
  intros [Hinv Hs Hp]. split; [apply Hs|]. intros (Hw & id & r & p & Hid & Hr & Hu & Hpr & Hreach).
  assert (forall x, rtc edge x w -> x ∈ dom walked -> w ∈ dom walked) as Hclosed.
  { intros x Hx. induction Hx as [x|x y z Hxy Hyz IH]; [done|]. intros Hin. apply IH; [done..|].
    apply (wi_closed _ _ Hinv x y); [done|set_solver|done|].
    apply rtc_inv in Hyz as [->|(q & Hq & _)]; [done|by eapply edge_dom]. }
  apply (Hclosed p Hreach). apply (Hp id r p); [done..|].
  apply rtc_inv in Hreach as [->|(q & Hq & _)]; [done|by eapply edge_dom].
Qed.

Lemma in_flight_ancestor_mono sel sel' w :
  sel ⊆ sel' -> in_flight_ancestor sel w -> in_flight_ancestor sel' w.
Proof. intros Hsub (? & id & r & p & ? & ?). split; [done|]. exists id, r, p. split; [set_solver|done]. Qed.

Lemma walked_for_skip seen walked id :
  walked_for seen walked -> (forall r, records !! id = Some r -> spent_by r = None -> produced_by r = None) ->
  walked_for (seen ++ [id]) walked.
Proof.
  intros [Hinv Hs Hp] Hid. split; [done| |].
  - intros w Hw%Hs. eapply in_flight_ancestor_mono; [|done]. set_solver.
  - intros id' r p [?| ->%list_elem_of_singleton]%elem_of_app Hr Hu Hpr; [by eapply Hp|].
    rewrite (Hid r) in Hpr by done. done.
Qed.

Lemma app_cons_snoc {A} (l : list A) x k : l ++ x :: k = (l ++ [x]) ++ k.
Proof. by rewrite <- app_assoc. Qed.

Lemma check_inputs_spec selected : forall seen walked utxos refused,
  walked_for seen walked ->
  exists walked', check_inputs records txns selected walked utxos refused
      = Some (walked', utxos ++ passed_inputs selected, refused ++ refused_inputs selected)
    /\ walked_for (seen ++ selected) walked'.
Proof.
  induction selected as [|id sel IH]; intros seen walked utxos refused Hwf; cbn [check_inputs].
  { exists walked. by rewrite !app_nil_r. }
  unfold passed_inputs, refused_inputs. cbn [omap list_omap]. fold (passed_inputs sel) (refused_inputs sel).
  unfold input_refusal at 1 2. rewrite (app_cons_snoc seen).
  destruct (records !! id) as [r|] eqn:Hr; cbn.
  2:{ rewrite (app_cons_snoc refused _ (refused_inputs sel)). apply IH, walked_for_skip; [done|congruence]. }
  destruct (spent_by r) as [s|] eqn:Hsp; cbn.
  { rewrite (app_cons_snoc refused _ (refused_inputs sel)). apply IH, walked_for_skip; [done|]. intros r'. congruence. }
  destruct (ancestry_depth_spec r walked (wf_inv _ _ Hwf)) as (d & walked1 & -> & Hinv1 & Hg & Hd & Hp & Hn).
  cbn. rewrite Hd.
  assert (walked_for (seen ++ [id]) walked1) as Hwf1.
  { split; [done| |].
    - intros w Hw. destruct (Hn w Hw) as [Hold|(p & Hpr & Hreach)].
      + apply (wf_sound _ _ Hwf) in Hold. eapply in_flight_ancestor_mono; [|done]. set_solver.
      + split; [|exists id, r, p; split_and!; [set_solver|done..]].
        apply elem_of_dom in Hw as [a Ha]. apply (wi_cost _ _ Hinv1) in Ha as (txn & Ht & _).
        by eapply elem_of_dom_2.
    - intros id' r' p [Hin| ->%list_elem_of_singleton]%elem_of_app Hr' Hu Hpr Hdom.
      + apply Hg. by eapply (wf_producers _ _ Hwf).
      + simplify_eq. by apply Hp. }
  destruct (produced_by r) as [p|]; [destruct (has_chain _ p)|]; cbn.
  - rewrite (app_cons_snoc refused _ (refused_inputs sel)). by apply IH.
  - rewrite (app_cons_snoc utxos _ (passed_inputs sel)). by apply IH.
  - rewrite (app_cons_snoc utxos _ (passed_inputs sel)). by apply IH.
Qed.

(** ** The package of ancestors *)

Definition weight_of (w : Address) : Z :=
  match txns !! w with Some txn => (ancestor_cost txn).1 | None => 0 end.
Definition fee_of (w : Address) : Z :=
  match txns !! w with Some txn => (ancestor_cost txn).2 | None => 0 end.

Context `{BL : !BitcoinUnitsLaws}.

Lemma package_fold l : forall weight fee,
  0 <= weight -> 0 <= fee <= u64_max ->
  Forall (fun a => 0 <= an_weight a /\ 0 <= an_fee a) l ->
  weight + zsum (an_weight <$> l) <= u64_max ->
  fold_left (fun '(weight, fee) a => (weight_add weight (an_weight a), sat_add fee (an_fee a)))
    l (weight, fee)
  = (weight + zsum (an_weight <$> l), Z.min (fee + zsum (an_fee <$> l)) u64_max).
Proof.
  induction l as [|a l IH]; intros weight fee Hw Hf Hl Hs; cbn [fold_left].
  { cbn. f_equal; lia. }
  rewrite fmap_cons, zsum_cons in Hs. inversion Hl as [|? ? [Haw Haf] Hl']; subst.
  pose proof (zsum_nonneg (an_weight <$> l)) as Hnw.
  rewrite Forall_fmap in Hnw. specialize (Hnw ltac:(eapply Forall_impl; [done|by intros ? []])).
  pose proof (zsum_nonneg (an_fee <$> l)) as Hnf.
  rewrite Forall_fmap in Hnf. specialize (Hnf ltac:(eapply Forall_impl; [done|by intros ? []])).
  rewrite weight_add_exact by lia. rewrite IH; [|lia|unfold sat_add; lia|done|lia].
  rewrite !fmap_cons, !zsum_cons. unfold sat_add. f_equal; lia.
Qed.

Lemma walked_costs (walked : Walked) (f : Ancestor -> Z) (g : Address -> Z) anc :
  (forall w a, walked !! w = Some a -> f a = g w) ->
  NoDup anc -> (forall w, w ∈ anc <-> w ∈ dom walked) ->
  f <$> (map_to_list walked).*2 ≡ₚ g <$> anc.
Proof.
  intros Hf Hnd Hanc.
  assert (f <$> (map_to_list walked).*2 = g <$> (map_to_list walked).*1) as ->.
  { rewrite <- !list_fmap_compose. apply list_fmap_ext. intros i [w a] Hi. cbn. apply Hf.
    apply elem_of_map_to_list. by eapply list_elem_of_lookup_2. }
  apply fmap_Permutation, NoDup_Permutation; [apply NoDup_fst_map_to_list|done|].
  intros w. rewrite Hanc, elem_of_dom, list_elem_of_fmap. split.
  - intros ([w' a] & -> & Hin%elem_of_map_to_list). by exists a.
  - intros [a Ha]. exists (w, a). by rewrite elem_of_map_to_list.
Qed.

Lemma walked_package seen walked anc :
  walked_for seen walked -> NoDup anc -> (forall w, w ∈ anc <-> in_flight_ancestor seen w) ->
  Forall (fun w => 0 <= weight_of w /\ 0 <= fee_of w) anc ->
  zsum (weight_of <$> anc) <= u64_max ->
  ancestry_package walked = (zsum (weight_of <$> anc), Z.min (zsum (fee_of <$> anc)) u64_max).
Proof.
  intros Hwf Hnd Hanc Hpos Hsum.
  assert (forall w a, walked !! w = Some a -> an_weight a = weight_of w /\ an_fee a = fee_of w) as Hc.
  { intros w a Ha. destruct (wi_cost _ _ (wf_inv _ _ Hwf) _ _ Ha) as (txn & Ht & Hcost).
    unfold weight_of, fee_of. rewrite Ht, <- Hcost. done. }
  assert (forall w, w ∈ anc <-> w ∈ dom walked) as Hdom.
  { intros w. rewrite Hanc. symmetry. by apply walked_for_all. }
  assert (forall f g, (forall w a, walked !! w = Some a -> f a = g w) ->
            zsum (f <$> (map_to_list walked).*2) = zsum (g <$> anc)) as Hz.
  { intros f g Hfg. by apply zsum_perm, walked_costs. }
  assert (zsum (an_weight <$> (map_to_list walked).*2) = zsum (weight_of <$> anc)) as Ew.
  { apply Hz. intros ? ? []%Hc. done. }
  assert (zsum (an_fee <$> (map_to_list walked).*2) = zsum (fee_of <$> anc)) as Ef.
  { apply Hz. intros ? ? []%Hc. done. }
  unfold ancestry_package. rewrite package_fold; [by rewrite Ew, Ef|done|unfold u64_max; lia| |lia].
  apply Forall_forall. intros a ([w a'] & -> & Ha%elem_of_map_to_list)%list_elem_of_fmap. cbn.
  destruct (Hc _ _ Ha) as [-> ->]. rewrite Forall_forall in Hpos. apply Hpos, Hdom.
  by eapply elem_of_dom_2.
Qed.

(** The in-flight ancestors fit the machine integers the walk adds them up in. *)
Record ancestors_fit (anc : list Address) : Prop := {
  af_nonneg : Forall (fun w => 0 <= weight_of w /\ 0 <= fee_of w) anc;
  af_weight : zsum (weight_of <$> anc) <= u64_max;
  af_fee : zsum (fee_of <$> anc) <= u64_max;
}.

Lemma check_selected_inputs_exact selected refused :
  exists package anc,
    check_selected_inputs records txns selected refused
    = Some (match refused ++ refused_inputs selected with
            | [] => Passed (passed_inputs selected) package
            | l => Refused l
            end)
    /\ NoDup anc /\ (forall w, w ∈ anc <-> in_flight_ancestor selected w)
    /\ (ancestors_fit anc -> package = (zsum (weight_of <$> anc), zsum (fee_of <$> anc))).
Proof.
  destruct (check_inputs_spec selected [] ∅ [] refused) as (walked & Hc & Hwf).
  { split; [apply walk_inv_empty|set_solver|by intros ? ? ? ?%elem_of_nil]. }
  exists (ancestry_package walked), (elements (dom walked)).
  unfold check_selected_inputs. rewrite Hc. cbn.
  assert (forall w, w ∈ elements (dom walked) <-> in_flight_ancestor selected w) as Hanc.
  { intros w. rewrite elem_of_elements. by apply walked_for_all. }
  split_and!; [by destruct (refused ++ _)|apply NoDup_elements|done|].
  intros [Hn Hw Hf]. rewrite (walked_package selected _ (elements (dom walked)));
    [f_equal; lia|done|apply NoDup_elements|done..].
Qed.

Lemma refused_inputs_nil selected :
  refused_inputs selected = [] ->
  Forall2 (fun id u => exists r, records !! id = Some r /\ spent_by r = None
                    /\ (forall p, produced_by r = Some p ->
                          has_chain (Z.to_nat MAX_ANCESTOR_DEPTH) p = false)
                    /\ rec_utxo r = u) selected (passed_inputs selected).
Proof.
  induction selected as [|id sel IH]; [constructor|].
  unfold refused_inputs, passed_inputs. cbn [omap list_omap].
  fold (passed_inputs sel) (refused_inputs sel).
  unfold input_refusal at 1 2. destruct (records !! id) as [r|] eqn:Hr; [|done].
  destruct (spent_by r) eqn:Hs; [done|]. destruct (produced_by r) as [p|] eqn:Hp.
  - destruct (has_chain _ p) eqn:Hc; [done|]. cbn. intros H. constructor; [|by apply IH].
    exists r. split_and!; [done..| |done]. intros q. rewrite Hp. by intros [= <-].
  - cbn. intros H. constructor; [|by apply IH]. exists r. by rewrite Hp.
Qed.

(** The memoised walk checks the inputs of a commitment exactly.  On every graph of
    in-flight withdrawals, cycles included, the check returns; it refuses an input, in the
    order of the commitment, exactly when it is missing, locked, or starts a chain of 25
    in-flight transactions by the naive definition; and when it refuses nothing, the weight
    and the fee it reports are those of the distinct in-flight ancestors, each counted once
    whichever inputs share it. *)
Theorem input_check_exact selected refused :
  exists package anc,
    check_selected_inputs records txns selected refused
    = Some (match refused ++ refused_inputs selected with
            | [] => Passed (passed_inputs selected) package
            | l => Refused l
            end)
    /\ NoDup anc /\ (forall w, w ∈ anc <-> in_flight_ancestor selected w)
    /\ (ancestors_fit anc -> package = (zsum (weight_of <$> anc), zsum (fee_of <$> anc))).
Proof. apply check_selected_inputs_exact. Qed.
End ancestry.
