(* ===== verification/WithdrawalTheorems.v ===== *)
(** * What a validator certifies

    The checks of [validate_withdrawal_tx_commitment] one by one, and what they add up to:
    the meaning of a validator's signature on a withdrawal commitment. *)

From S2P Require Import Limiter CoinSelection CoinSelectionProofs MonitorDomain Withdrawals WithdrawalAncestry Prelude.

(** ** Generic facts *)

Lemma all_distinct_spec `{Countable A} (l : list A) : all_distinct l = true <-> NoDup l.
Proof.
  unfold all_distinct. rewrite Nat.eqb_eq. split; [|apply size_list_to_set].
  induction l as [|x l IH]; [constructor|]. cbn [list_to_set length]. intros Hsz.
  assert (size (list_to_set l : gset A) <= length l)%nat as Hle.
  { clear. induction l as [|y l IH]; cbn; [by rewrite size_empty|].
    rewrite size_union_alt. pose proof (subseteq_size (list_to_set l ∖ {[y]} : gset A) (list_to_set l)
      ltac:(set_solver)). rewrite size_singleton. lia. }
  destruct (decide (x ∈ l)) as [Hin|Hin].
  - replace ({[x]} ∪ list_to_set l : gset A) with (list_to_set l : gset A) in Hsz by set_solver. lia.
  - constructor; [done|]. apply IH. rewrite size_union, size_singleton in Hsz by set_solver. lia.
Qed.

Lemma lookups_submseteq `{Countable K} {V B} (m : gmap K V) (f : V -> B) ks bs :
  NoDup ks -> Forall2 (fun k b => exists v, m !! k = Some v /\ f v = b) ks bs ->
  bs ⊆+ f <$> (map_to_list m).*2.
Proof.
  intros Hnd Hall.
  assert (exists kvs, kvs.*1 = ks /\ f <$> kvs.*2 = bs /\ kvs ⊆ map_to_list m) as (kvs & <- & <- & Hsub).
  { clear Hnd. induction Hall as [|k b ks bs (v & Hv & <-) _ (kvs & <- & <- & Hsub)].
    { exists []. split_and!; [done|done|set_solver]. }
    exists ((k, v) :: kvs). split_and!; [done..|].
    intros kv [->|Hin]%elem_of_cons; [by apply elem_of_map_to_list|by apply Hsub]. }
  apply fmap_submseteq, fmap_submseteq, NoDup_submseteq; [by eapply NoDup_fmap_1|done].
Qed.

(** ** Orders given by a comparison *)

Record good_cmp {A} (cmp : A -> A -> comparison) : Prop := {
  gc_sym : forall x y, cmp y x = CompOpp (cmp x y);
  gc_eq : forall x y z, cmp x y = Eq -> cmp x z = cmp y z;
  gc_lt : forall x y z, cmp x y = Lt -> cmp y z = Lt -> cmp x z = Lt;
}.

Lemma good_cmp_key {A} (f : A -> Z) : good_cmp (fun x y => f x ?= f y).
Proof.
  split; intros x y; [by rewrite Z.compare_antisym| |].
  - intros z ->%Z.compare_eq_iff. done.
  - intros z. rewrite !Z.compare_lt_iff. lia.
Qed.

Lemma good_cmp_option {A} (f : A -> option Z) : good_cmp (fun x y => option_cmp (f x) (f y)).
Proof.
  split; intros x y.
  - destruct (f x), (f y); cbn; [by rewrite Z.compare_antisym|done..].
  - intros z. destruct (f x), (f y), (f z); cbn; try done. by intros ->%Z.compare_eq_iff.
  - intros z. destruct (f x), (f y), (f z); cbn; try done. rewrite !Z.compare_lt_iff. lia.
Qed.

Lemma gc_eq_r {A} (cmp : A -> A -> comparison) x y z :
  good_cmp cmp -> cmp y z = Eq -> cmp x y = cmp x z.
Proof.
  intros Hg H. rewrite (gc_sym _ Hg y x), (gc_sym _ Hg z x). f_equal. by apply (gc_eq _ Hg).
Qed.

Lemma good_cmp_then {A} (c d : A -> A -> comparison) :
  good_cmp c -> good_cmp d -> good_cmp (fun x y => then_with (c x y) (d x y)).
Proof.
  intros Hc Hd. unfold then_with. split; intros x y.
  - rewrite (gc_sym _ Hc), (gc_sym _ Hd). by destruct (c x y).
  - intros z. destruct (c x y) eqn:E; [|done..]. intros E'.
    by rewrite (gc_eq _ Hc _ _ _ E), (gc_eq _ Hd _ _ _ E').
  - intros z. destruct (c x y) eqn:E; [|..|done].
    + intros H. rewrite (gc_eq _ Hc _ _ _ E). destruct (c y z); try done. by apply (gc_lt _ Hd).
    + intros _. destruct (c y z) eqn:E'; [|..|done].
      * by rewrite <- (gc_eq_r _ x _ _ Hc E'), E.
      * by rewrite (gc_lt _ Hc _ _ _ E E').
Qed.

Section order.
Context {A} {cmp : A -> A -> comparison} (Hg : good_cmp cmp).

Lemma gc_refl x : cmp x x = Eq.
Proof. pose proof (gc_sym _ Hg x x). by destruct (cmp x x). Qed.

Lemma gc_trans x y z : cmp x y <> Gt -> cmp y z <> Gt -> cmp x z <> Gt.
Proof.
  destruct (cmp x y) eqn:E; [|..|done]; intros _.
  - by rewrite (gc_eq _ Hg _ _ _ E).
  - destruct (cmp y z) eqn:E'; [|..|done]; intros _.
    + by rewrite <- (gc_eq_r _ x _ _ Hg E'), E.
    + by rewrite (gc_lt _ Hg _ _ _ E E').
Qed.

Lemma gc_total x y : cmp x y <> Lt -> cmp y x <> Gt.
Proof. rewrite (gc_sym _ Hg x y). by destruct (cmp x y). Qed.

Lemma leb_of_spec x y : leb_of cmp x y = true <-> cmp x y <> Gt.
Proof. unfold leb_of. by destruct (cmp x y). Qed.

Lemma leb_of_total x y : leb_of cmp x y = true \/ leb_of cmp y x = true.
Proof.
  rewrite !leb_of_spec. destruct (cmp x y) eqn:E; [by left|by left|right].
  apply gc_total. congruence.
Qed.

Lemma leb_of_trans x y z :
  leb_of cmp x y = true -> leb_of cmp y z = true -> leb_of cmp x z = true.
Proof. rewrite !leb_of_spec. apply gc_trans. Qed.

(** [min_by] returns a least element. *)
Lemma min_by_spec l best :
  min_by cmp l = Some best -> best ∈ l /\ Forall (fun x => cmp best x <> Gt) l.
Proof.
  destruct l as [|x l]; [done|]. cbn. intros [= <-].
  set (step := fun best y => match cmp y best with Lt => y | _ => best end).
  assert (forall l b, (fold_left step l b = b \/ fold_left step l b ∈ l)
                 /\ cmp (fold_left step l b) b <> Gt
                 /\ Forall (fun y => cmp (fold_left step l b) y <> Gt) l) as H.
  { clear x l. induction l as [|y l IH]; intros b; cbn [fold_left].
    { split_and!; [by left|by rewrite gc_refl|constructor]. }
    destruct (IH (step b y)) as (Hin & Hb & Hl).
    assert (cmp (step b y) b <> Gt /\ cmp (step b y) y <> Gt /\ (step b y = b \/ step b y = y))
      as (H1 & H2 & H3).
    { unfold step. destruct (cmp y b) eqn:E; rewrite ?gc_refl; split_and!; auto; try congruence;
        apply gc_total; congruence. }
    split_and!.
    - destruct Hin as [->|Hin]; [|right; set_solver].
      destruct H3 as [->| ->]; [by left|right; set_solver].
    - by eapply gc_trans.
    - constructor; [by eapply gc_trans|done]. }
  destruct (H l x) as (Hin & Hx & Hl). split; [set_solver|]. by constructor.
Qed.
End order.

Lemma commit_order_good : good_cmp commit_order_cmp.
Proof.
  unfold commit_order_cmp.
  apply (good_cmp_then (fun a b => option_cmp (approved_timestamp_ms a) (approved_timestamp_ms b))
           (fun a b => then_with (created_timestamp_ms a ?= created_timestamp_ms b) (wr_id a ?= wr_id b))).
  - apply good_cmp_option.
  - apply (good_cmp_then (fun a b => created_timestamp_ms a ?= created_timestamp_ms b)
             (fun a b => wr_id a ?= wr_id b)); apply good_cmp_key.
Qed.

(** ** Checks without the node *)

Section checks.
Context `{NE : NodeEnv}.

Lemma commitment_requests_found self ids reqs :
  commitment_requests self ids = ([], reqs) ->
  Forall2 (fun id r => requests (onchain_state self) !! id = Some r
                       /\ is_approved r = true /\ is_committed r = false) ids reqs.
Proof.
  revert reqs. induction ids as [|id ids IH]; intros reqs; cbn; [by intros [= <-]|].
  destruct (commitment_requests self ids) as [refused found].
  unfold commitment_request.
  destruct (requests (onchain_state self) !! id) as [r|] eqn:Hr; [|done].
  destruct (is_committed r) eqn:Hc; [done|]. destruct (is_approved r) eqn:Ha; [|done]. cbn.
  intros [= -> <-]. constructor; [done|]. by apply IH.
Qed.

Lemma check_payouts_Ok f outs : forall i reqs refused,
  check_payouts f outs i reqs refused = Ok [] ->
  refused = [] /\ (length reqs <= length (drop i outs))%nat
  /\ Forall2 (fun r o => ou_amount o = sat_sub (btc_amount r) f
                         /\ DUST_RELAY_MIN_VALUE <= ou_amount o
                         /\ bitcoin_address o = wr_bitcoin_address r)
       reqs (take (length reqs) (drop i outs)).
Proof.
  intros i reqs. revert i. induction reqs as [|r reqs IH]; intros i refused H; cbn in H.
  { injection H as ->. rewrite take_0. split_and!; [done|cbn; lia|constructor]. }
  inv_ok. destruct (below_withdrawal_dust _) eqn:Hd.
  { apply IH in H as [H _]. by apply app_eq_nil in H as [_ ?]. }
  inv_ok. apply Z.eqb_eq in E0. apply bool_decide_eq_true in E1. apply Z.ltb_ge in Hd.
  apply IH in H as (-> & Hlen & Hall). rewrite (drop_S _ _ _ E). cbn [length take].
  split_and!; [done|cbn; lia|]. constructor; [|done]. by rewrite E0.
Qed.

Lemma check_change_Ok addr outs : forall j,
  check_change addr j outs = Ok tt ->
  Forall (fun o => bitcoin_address o = addr /\ TR_DUST_RELAY_MIN_VALUE <= ou_amount o) outs.
Proof.
  induction outs as [|o outs IH]; intros j H; cbn in H; [constructor|]. inv_ok.
  apply bool_decide_eq_true in E. apply Z.leb_le in E0. constructor; [done|]. by eapply IH.
Qed.

Lemma output_weight_bounds a w : output_weight_for_witness_program a = Some w -> 124 <= w <= 172.
Proof.
  unfold output_weight_for_witness_program, P2TR_OUTPUT_WEIGHT_WU, P2WPKH_OUTPUT_WEIGHT_WU.
  repeat case_match; intros [= <-]; lia.
Qed.

(** A 20- or 32-byte witness program. *)
Definition supported (o : OutputUtxo) : Prop :=
  length (bitcoin_address o) = 20%nat \/ length (bitcoin_address o) = 32%nat.

(** Four units for the value, the length of the script, and the script itself. *)
Definition script_weight (o : OutputUtxo) : Z :=
  4 * (8 + 1 + (2 + Z.of_nat (length (bitcoin_address o)))).

Lemma output_weight_supported o w :
  output_weight_for_witness_program (bitcoin_address o) = Some w <->
  supported o /\ w = script_weight o.
Proof.
  unfold output_weight_for_witness_program, supported, script_weight, P2TR_OUTPUT_WEIGHT_WU,
    P2WPKH_OUTPUT_WEIGHT_WU.
  destruct (Nat.eqb_spec (length (bitcoin_address o)) 32) as [->|].
  { split; [intros [= <-]; by auto|by intros [_ ->]]. }
  destruct (Nat.eqb_spec (length (bitcoin_address o)) 20) as [->|].
  { split; [intros [= <-]; by auto|by intros [_ ->]]. }
  split; [done|tauto].
Qed.

Lemma script_weight_bounds o : supported o -> 124 <= script_weight o <= 172.
Proof. unfold supported, script_weight. lia. Qed.

Lemma script_weights_bounds outs :
  Forall supported outs ->
  124 * Z.of_nat (length outs) <= zsum (script_weight <$> outs) <= 172 * Z.of_nat (length outs).
Proof.
  induction 1 as [|o outs Ho _ IH]; [cbn; lia|]. rewrite fmap_cons, zsum_cons.
  pose proof (script_weight_bounds o Ho). cbn [length]. lia.
Qed.

Lemma count_outputs_exact outs : forall n w,
  0 <= n -> 0 <= w -> n + Z.of_nat (length outs) <= 2 ^ 40 ->
  w + 172 * Z.of_nat (length outs) <= u64_max ->
  forall r, count_outputs outs n w = Some r <->
  Forall supported outs /\ r = (n + Z.of_nat (length outs), w + zsum (script_weight <$> outs)).
Proof.
  induction outs as [|o outs IH]; intros n w Hn Hw Hb Hs r; cbn [count_outputs].
  { cbn. rewrite !Z.add_0_r. naive_solver. }
  cbn [length] in *. rewrite fmap_cons, zsum_cons, Forall_cons.
  destruct (output_weight_for_witness_program _) as [ow|] eqn:How; cbn.
  - apply output_weight_supported in How as [Ho ->].
    pose proof (script_weight_bounds o Ho).
    rewrite !wadd_small by (unfold is_u64, u64_max in *; lia).
    rewrite IH by (unfold u64_max in *; lia).
    split; intros [H1 ->]; (split; [tauto|f_equal; lia]).
  - split; [done|]. intros [[Ho _] _].
    assert (output_weight_for_witness_program (bitcoin_address o) = Some (script_weight o)) as E
      by by apply output_weight_supported. congruence.
Qed.

(** The weight of a withdrawal transaction by Bitcoin's formula. *)
Definition weight_exact (n : Z) (outs : list OutputUtxo) : Z :=
  34 + 432 * n + zsum (script_weight <$> outs) + varint_weight n
  + varint_weight (Z.of_nat (length outs)).

Context `{BL : !BitcoinUnitsLaws}.

Lemma estimated_weight n outs w :
  0 <= n <= 2 ^ 40 -> Z.of_nat (length outs) <= 2 ^ 40 ->
  estimated_withdrawal_tx_weight n outs = Some w <->
  Forall supported outs /\ w = weight_exact n outs.
Proof.
  intros Hn Hl. unfold estimated_withdrawal_tx_weight, SCRIPT_PATH_2OF2_TXIN_WEIGHT, TX_FIXED_WEIGHT_WU.
  pose proof (count_outputs_exact outs 0 0 ltac:(done) ltac:(done) ltac:(lia)
                ltac:(unfold u64_max; lia)) as Hc.
  destruct (count_outputs outs 0 0) as [[c s]|]; cbn.
  - destruct (Hc (c, s)) as [(Hsup & [= -> ->]) _]; [done|].
    pose proof (script_weights_bounds outs Hsup). pose proof (varint_weight_bounds n).
    pose proof (varint_weight_bounds (0 + Z.of_nat (length outs))). rewrite !Z.add_0_l in *.
    rewrite (wmul_small _ n) by (unfold is_u64, u64_max; lia).
    rewrite (wadd_small 34) by (unfold is_u64, u64_max; lia).
    rewrite wadd_small by (unfold is_u64, u64_max; lia).
    rewrite (weight_add_exact _ (varint_weight n)) by (unfold u64_max; lia).
    rewrite weight_add_exact by (unfold u64_max; lia).
    unfold weight_exact. split; [intros [= <-]; split; [done|lia]|intros [_ ->]; f_equal; lia].
  - split; [done|]. intros [Hsup _].
    assert (@None (Z * Z) = Some (0 + Z.of_nat (length outs), 0 + zsum (script_weight <$> outs)))
      by (apply Hc; done). done.
Qed.

Lemma weight_exact_bounds n outs :
  0 <= n -> Forall supported outs ->
  42 + 432 * n + 124 * Z.of_nat (length outs) <= weight_exact n outs
  <= 106 + 432 * n + 172 * Z.of_nat (length outs).
Proof.
  intros Hn Hs. unfold weight_exact. pose proof (script_weights_bounds outs Hs).
  pose proof (varint_weight_bounds n). pose proof (varint_weight_bounds (Z.of_nat (length outs))). lia.
Qed.
End checks.

(** * The meaning of a certified commitment

    What a validator has established when it signs a withdrawal commitment: which requests
    it pays and how much, which UTXOs it spends, what the miner takes, and what the guardian's
    limiter will be asked for. *)

Section certified.
Context `{NE : NodeEnv} `{BL : !BitcoinUnitsLaws}.

(** The in-flight transactions of a state fit the integers they are added up in. *)
Definition txn_weight (txn : WithdrawalTransaction) : Z := (ancestor_cost txn).1.
Definition txn_fee (txn : WithdrawalTransaction) : Z := (ancestor_cost txn).2.

(** The amounts of a state's pool and of its in-flight transactions are those of a chain
    with a bounded supply. *)
Record state_fits (st : OnchainState) : Prop := {
  sf_amounts : Forall (fun r => 0 <= mu_amount (rec_utxo r)) (map_to_list (utxo_records st)).*2;
  sf_total : zsum ((fun r => mu_amount (rec_utxo r)) <$> (map_to_list (utxo_records st)).*2)
             <= u64_max;
  sf_txns : Forall (fun t => 0 <= txn_weight t /\ 0 <= txn_fee t)
              (map_to_list (withdrawal_txns st)).*2;
  sf_weights : zsum (txn_weight <$> (map_to_list (withdrawal_txns st)).*2) <= u64_max;
  sf_fees : zsum (txn_fee <$> (map_to_list (withdrawal_txns st)).*2) <= u64_max;
}.

(** The outputs a commitment proposes are u64 and add up to one. *)
Record outputs_fit (outs : list OutputUtxo) : Prop := {
  of_nonneg : Forall (fun o => 0 <= ou_amount o) outs;
  of_total : zsum (ou_amount <$> outs) <= u64_max;
}.

(** What the signature on [approval] says of the states before and after the fee estimate. *)
Record certified (before after : Hashi) (approval : WithdrawalTxCommitment) (rate : Z)
    (reqs : list MoveWithdrawalRequest) (utxos : list MoveUtxo) (fee : Z) : Prop := {
  (** the requests: distinct, approved, not yet in a transaction *)
  ce_requests : Forall2 (fun id r => requests (onchain_state before) !! id = Some r
                          /\ is_approved r = true /\ is_committed r = false)
                  (ap_request_ids approval) reqs;
  ce_distinct_requests : NoDup (ap_request_ids approval) /\ reqs <> []
                         /\ (length reqs <= Z.to_nat MAX_WITHDRAWAL_REQUESTS)%nat;
  (** the inputs: distinct, unlocked, below Bitcoin's ancestor limit *)
  ce_inputs : Forall2 (fun id u => exists r, utxo_records (onchain_state before) !! id = Some r
                        /\ spent_by r = None
                        /\ (forall p, produced_by r = Some p ->
                              has_chain (withdrawal_txns (onchain_state before))
                                (utxo_records (onchain_state before))
                                (Z.to_nat MAX_ANCESTOR_DEPTH) p = false)
                        /\ rec_utxo r = u) (selected_utxos approval) utxos;
  ce_distinct_inputs : NoDup (selected_utxos approval) /\ utxos <> []
                       /\ Z.of_nat (length utxos)
                          <= safe_withdrawal_flow_max_inputs (Z.of_nat (length reqs))
                               DEFAULT_MAX_INPUTS;
  (** every request is paid its amount less the same share of the fee, above dust *)
  ce_payouts : Forall2 (fun r o => ou_amount o = btc_amount r - fee / Z.of_nat (length reqs)
                                   /\ DUST_RELAY_MIN_VALUE <= ou_amount o
                                   /\ bitcoin_address o = wr_bitcoin_address r)
                 reqs (take (length reqs) (ap_outputs approval));
  (** the rest goes back to the bridge *)
  ce_change : Forall (fun o => get_deposit_address before None ≫= witness_program_from_address
                                = Some (bitcoin_address o)
                               /\ TR_DUST_RELAY_MIN_VALUE <= ou_amount o)
                (drop (length reqs) (ap_outputs approval));
  ce_change_count : Z.of_nat (length (drop (length reqs) (ap_outputs approval)))
                    <= WITHDRAWAL_MAX_CHANGE_OUTPUTS;
  (** value is conserved, and the miner's share is bounded on both sides *)
  ce_value : zsum (mu_amount <$> utxos) = zsum (ou_amount <$> ap_outputs approval) + fee;
  ce_fee_share : 0 <= fee
                 /\ fee / Z.of_nat (length reqs) <= worst_case_network_fee (onchain_state before);
  ce_weight : Forall supported (ap_outputs approval)
              /\ weight_exact (Z.of_nat (length utxos)) (ap_outputs approval)
                 <= DEFAULT_MAX_TX_WEIGHT;
  ce_fee_min : default 0 (fee_wu (Z.max (withdrawal_min_fee_rate (config before))
                                    (from_sat_per_vb_unchecked 1))
                            (weight_exact (Z.of_nat (length utxos)) (ap_outputs approval)))
               <= fee;
  ce_fee_max : exists anc, NoDup anc
    /\ (forall w, w ∈ anc <-> in_flight_ancestor (withdrawal_txns (onchain_state before))
                                (utxo_records (onchain_state before)) (selected_utxos approval) w)
    /\ fee <= FEE_RATE_TOLERANCE_MULTIPLIER
              * (default 0 (fee_wu rate (weight_exact (Z.of_nat (length utxos)) (ap_outputs approval)))
                 + sat_sub
                     (default 0 (fee_wu rate
                        (zsum (weight_of (withdrawal_txns (onchain_state before)) <$> anc))))
                     (zsum (fee_of (withdrawal_txns (onchain_state before)) <$> anc)));
  (** the transaction that will be signed is the one with this txid *)
  ce_txid : exists tx, unsigned_withdrawal_tx utxos (ap_outputs approval) = Some tx
                       /\ compute_txid tx = ap_txid approval;
  (** one transaction at a time, and the oldest request is served *)
  ce_queue : caught_up_with_scrape (onchain_state after) = true
             /\ has_unsigned_txn (onchain_state after) = false;
  ce_limiter : exists before_limiter limiter,
    local_limiter before = Some before_limiter /\ local_limiter after = Some limiter
    /\ (let outflow := zsum (mu_amount <$> utxos)
                       - zsum (ou_amount <$> drop (length reqs) (ap_outputs approval)) in
        outflow <= max_bucket_capacity (lv_config before_limiter)
        /\ outflow <= view_capacity_at limiter
             (sat_add (latest_checkpoint_timestamp_ms (onchain_state after) / 1000)
                LIMITER_CAPACITY_SLACK_SECS))
    /\ forall id r, requests (onchain_state after) !! id = Some r ->
         eligible_for_commitment r (max_bucket_capacity (lv_config before_limiter)) = true ->
         bitcoin_withdrawal_minimum (onchain_state after) <= btc_amount r ->
         exists q, q ∈ (map_to_list (requests (onchain_state after))).*2
                   /\ wr_id q ∈ ap_request_ids approval /\ commit_order_cmp q r <> Gt;
}.

(** ** Sums over the pool *)

Lemma passed_total st sel utxos :
  state_fits st -> NoDup sel ->
  Forall2 (fun id u => exists r, utxo_records st !! id = Some r /\ rec_utxo r = u) sel utxos ->
  usum (mu_amount <$> utxos) = zsum (mu_amount <$> utxos)
  /\ Forall (fun u => 0 <= mu_amount u) utxos /\ zsum (mu_amount <$> utxos) <= u64_max.
Proof.
  intros Hst Hnd Hall. pose proof (lookups_submseteq _ _ _ _ Hnd Hall) as Hsub.
  assert (Forall (fun u => 0 <= mu_amount u) (rec_utxo <$> (map_to_list (utxo_records st)).*2)) as Hp
    by (apply Forall_fmap, Hst).
  assert (Forall (fun u => 0 <= mu_amount u) utxos) as Hn by by eapply Forall_submseteq.
  assert (zsum (mu_amount <$> utxos) <= u64_max) as Hle.
  { etrans; [|exact (sf_total _ Hst)]. rewrite (list_fmap_compose rec_utxo mu_amount).
    apply zsum_submseteq; [by apply Forall_fmap|by apply fmap_submseteq']. }
  split_and!; [|done..]. apply usum_small; [by apply Forall_fmap|done].
Qed.

(** Distinct in-flight transactions weigh and pay no more than all of them. *)
Lemma txns_bound st anc :
  state_fits st -> NoDup anc -> (forall w, w ∈ anc -> w ∈ dom (withdrawal_txns st)) ->
  Forall (fun w => 0 <= weight_of (withdrawal_txns st) w /\ 0 <= fee_of (withdrawal_txns st) w) anc
  /\ zsum (weight_of (withdrawal_txns st) <$> anc)
     <= zsum (txn_weight <$> (map_to_list (withdrawal_txns st)).*2)
  /\ zsum (fee_of (withdrawal_txns st) <$> anc)
     <= zsum (txn_fee <$> (map_to_list (withdrawal_txns st)).*2).
Proof.
  intros Hst Hnd Hin. set (txns := withdrawal_txns st) in *.
  assert (exists ts, Forall2 (fun w t => exists v, txns !! w = Some v /\ v = t) anc ts) as [ts Hts].
  { clear Hnd. induction anc as [|w anc IH]; [by exists []|].
    destruct IH as [ts Hts]; [intros; apply Hin; set_solver|].
    assert (w ∈ dom txns) as [t Ht]%elem_of_dom by (apply Hin; set_solver).
    exists (t :: ts). constructor; [by exists t|done]. }
  pose proof (lookups_submseteq txns id anc ts Hnd Hts) as Hsub. rewrite list_fmap_id in Hsub.
  assert (Forall2 (fun w t => weight_of txns w = txn_weight t /\ fee_of txns w = txn_fee t) anc ts) as He.
  { eapply Forall2_impl; [exact Hts|]. intros w t (v & Hv & ->). unfold weight_of, fee_of. by rewrite Hv. }
  assert (weight_of txns <$> anc = txn_weight <$> ts /\ fee_of txns <$> anc = txn_fee <$> ts) as [Ew Ef].
  { clear -He. induction He as [|w t anc ts [H1 H2] _ [IH1 IH2]]; [done|].
    by rewrite !fmap_cons, H1, H2, IH1, IH2. }
  assert (Forall (fun t => 0 <= txn_weight t /\ 0 <= txn_fee t) ts) as Hpos
    by by eapply Forall_submseteq; [apply Hst|].
  split_and!.
  - clear -He Hpos. induction He as [|w t anc ts [H1 H2] _ IH]; [constructor|].
    apply Forall_cons in Hpos as [? ?]. constructor; [by rewrite H1, H2|by apply IH].
  - rewrite Ew. apply zsum_submseteq; [|by apply fmap_submseteq'].
    apply Forall_fmap. eapply Forall_impl; [apply Hst|by intros ? []].
  - rewrite Ef. apply zsum_submseteq; [|by apply fmap_submseteq'].
    apply Forall_fmap. eapply Forall_impl; [apply Hst|by intros ? []].
Qed.

Lemma state_ancestors_fit st anc :
  state_fits st -> NoDup anc -> (forall w, w ∈ anc -> w ∈ dom (withdrawal_txns st)) ->
  ancestors_fit (withdrawal_txns st) anc.
Proof.
  intros Hst Hnd Hin. destruct (txns_bound st anc Hst Hnd Hin) as (? & ? & ?). destruct Hst.
  split; [done|lia|lia].
Qed.

(** ** The two halves *)

Lemma shape_Ok ap u :
  check_commitment_shape ap = Ok u ->
  ap_request_ids ap <> [] /\ selected_utxos ap <> []
  /\ NoDup (ap_request_ids ap) /\ NoDup (selected_utxos ap)
  /\ Z.of_nat (length (ap_request_ids ap)) <= MAX_WITHDRAWAL_REQUESTS
  /\ Z.of_nat (length (selected_utxos ap))
     <= safe_withdrawal_flow_max_inputs (Z.of_nat (length (ap_request_ids ap))) DEFAULT_MAX_INPUTS
  /\ sat_sub (Z.of_nat (length (ap_outputs ap))) (Z.of_nat (length (ap_request_ids ap)))
     <= WITHDRAWAL_MAX_CHANGE_OUTPUTS
  /\ exists w, estimated_withdrawal_tx_weight (Z.of_nat (length (selected_utxos ap))) (ap_outputs ap)
               = Some w /\ w <= DEFAULT_MAX_TX_WEIGHT.
Proof.
  unfold check_commitment_shape, validate_commitment_shape. intros H. inv_ok.
  destruct (estimated_withdrawal_tx_weight _ _) as [w|] eqn:Hw; [|done]. inv_ok.
  apply all_distinct_spec in H.
  repeat match goal with H : (_ <=? _) = true |- _ => apply Z.leb_le in H end.
  split_and!; try done;
    [by destruct (ap_request_ids ap)|by destruct (selected_utxos ap)|by apply all_distinct_spec|].
  by exists w.
Qed.

(** What [prepare] establishes, before any rounding or wrap-around is resolved. *)
Record prepared_facts (self : Hashi) (ap : WithdrawalTxCommitment) (pc : PreparedCommitment)
    (reqs : list MoveWithdrawalRequest) : Prop := {
  pf_shape : check_commitment_shape ap = Ok tt;
  pf_requests : commitment_requests self (ap_request_ids ap) = ([], reqs);
  pf_inputs : check_selected_inputs (utxo_records (onchain_state self))
                (withdrawal_txns (onchain_state self)) (selected_utxos ap) []
              = Some (Passed (pc_selected_utxos pc) (pc_ancestor_weight pc, pc_ancestor_fee pc));
  pf_length : (length reqs <= length (ap_outputs ap))%nat;
  pf_fee : usum (ou_amount <$> ap_outputs ap) <= usum (mu_amount <$> pc_selected_utxos pc)
           /\ pc_fee pc = usum (mu_amount <$> pc_selected_utxos pc) - usum (ou_amount <$> ap_outputs ap);
  pf_share : pc_fee pc / Z.of_nat (length reqs) <= worst_case_network_fee (onchain_state self);
  pf_payouts : check_payouts (pc_fee pc / Z.of_nat (length reqs)) (ap_outputs ap) 0 reqs [] = Ok [];
  pf_change : drop (length reqs) (ap_outputs ap) = []
    \/ exists a, get_deposit_address self None ≫= witness_program_from_address = Some a
                 /\ check_change a 0 (drop (length reqs) (ap_outputs ap)) = Ok tt;
  pf_limiter : exists limiter, local_limiter self = Some limiter
    /\ pc_max_bucket_capacity pc = max_bucket_capacity (lv_config limiter)
    /\ pc_outflow pc <= pc_max_bucket_capacity pc;
  pf_outflow : pc_outflow pc = limiter_outflow (usum (mu_amount <$> pc_selected_utxos pc))
                                 (drop (length reqs) (ap_outputs ap));
  pf_weight : estimated_withdrawal_tx_weight (Z.of_nat (length (pc_selected_utxos pc)))
                (ap_outputs ap) = Some (pc_tx_weight pc);
  pf_min_fee : default 0 (fee_wu (Z.max (withdrawal_min_fee_rate (config self))
                                    (from_sat_per_vb_unchecked 1)) (pc_tx_weight pc)) <= pc_fee pc;
}.

Lemma checked_refused self ap reqs refused u package :
  check_selected_inputs (utxo_records (onchain_state self)) (withdrawal_txns (onchain_state self))
    (selected_utxos ap) refused = Some (Passed u package) ->
  commitment_requests self (ap_request_ids ap) = (refused, reqs) -> refused = [].
Proof.
  intros H _. destruct (check_selected_inputs_exact (withdrawal_txns (onchain_state self))
    (utxo_records (onchain_state self)) (selected_utxos ap) refused) as (? & ? & Hc & _).
  rewrite Hc in H. by destruct refused.
Qed.

Lemma prepare_Ok self ap pc :
  prepare_withdrawal_tx_commitment self ap = Some (Ok pc) ->
  exists reqs, prepared_facts self ap pc reqs.
Proof.
  unfold prepare_withdrawal_tx_commitment. intros H.
  destruct (check_commitment_shape ap) as [[]|e|] eqn:Hshape; [|done..].
  destruct (commitment_requests self (ap_request_ids ap)) as [refused reqs] eqn:Hr.
  destruct (check_selected_inputs _ _ _ refused) as [checked|] eqn:Hc; [|done]. cbn in H.
  injection H as H. destruct checked as [l|utxos [aw af]]; [done|]. cbn in H.
  pose proof (checked_refused _ _ _ _ _ _ Hc Hr) as ->.
  exists reqs. inv_ok.
  unfold check_commitment_outflow in E6.
  destruct (local_limiter self) as [limiter|] eqn:Hlim; cbn in E6; [|done]. inv_ok. subst v6.
  destruct (estimated_withdrawal_tx_weight _ _) as [w|] eqn:Hw; [|done]. inv_ok. subst pc.
  destruct v3; [|done]. destruct v5.
  repeat match goal with H : (_ <=? _) = true |- _ => apply Z.leb_le in H end.
  split; cbn [pc_selected_utxos pc_fee pc_outflow pc_max_bucket_capacity pc_tx_weight
              pc_ancestor_weight pc_ancestor_fee]; try done.
  - by apply Nat.leb_le.
  - destruct (drop (length reqs) (ap_outputs ap)) as [|c cs]; [by left|right]. cbn [nonempty] in *.
    destruct (get_deposit_address self None ≫= _) as [a|]; [|done]. by exists a.
  - by exists limiter.
Qed.

Section of_prepared.
Context {before : Hashi} {ap : WithdrawalTxCommitment} {pc : PreparedCommitment}
        {reqs : list MoveWithdrawalRequest}.
Hypothesis Hst : state_fits (onchain_state before).
Hypothesis Hout : outputs_fit (ap_outputs ap).
Hypothesis Hpf : prepared_facts before ap pc reqs.

Lemma pf_found :
  Forall2 (fun id r => requests (onchain_state before) !! id = Some r
                       /\ is_approved r = true /\ is_committed r = false) (ap_request_ids ap) reqs.
Proof. apply commitment_requests_found, Hpf. Qed.

Lemma pf_passed :
  Forall2 (fun id u => exists r, utxo_records (onchain_state before) !! id = Some r
             /\ spent_by r = None
             /\ (forall p, produced_by r = Some p ->
                   has_chain (withdrawal_txns (onchain_state before))
                     (utxo_records (onchain_state before)) (Z.to_nat MAX_ANCESTOR_DEPTH) p = false)
             /\ rec_utxo r = u) (selected_utxos ap) (pc_selected_utxos pc)
  /\ exists anc, NoDup anc
     /\ (forall w, w ∈ anc <-> in_flight_ancestor (withdrawal_txns (onchain_state before))
                                 (utxo_records (onchain_state before)) (selected_utxos ap) w)
     /\ pc_ancestor_weight pc = zsum (weight_of (withdrawal_txns (onchain_state before)) <$> anc)
     /\ pc_ancestor_fee pc = zsum (fee_of (withdrawal_txns (onchain_state before)) <$> anc).
Proof.
  destruct (check_selected_inputs_exact (withdrawal_txns (onchain_state before))
    (utxo_records (onchain_state before)) (selected_utxos ap) [])
    as (package & anc & Hc & Hnd & Hanc & Hpk).
  rewrite (pf_inputs _ _ _ _ Hpf) in Hc. cbn in Hc.
  destruct (refused_inputs _ _ (selected_utxos ap)) as [|x l] eqn:Hr; [|done].
  injection Hc as -> Hpkg. split; [by apply refused_inputs_nil|]. exists anc.
  rewrite Hpk in Hpkg; [by injection Hpkg as -> ->|].
  apply state_ancestors_fit; [done..|]. by intros w [? _]%Hanc.
Qed.

Lemma pf_lengths :
  length (ap_request_ids ap) = length reqs
  /\ length (selected_utxos ap) = length (pc_selected_utxos pc).
Proof. split; eapply Forall2_length; [apply pf_found|apply pf_passed]. Qed.

Lemma pf_inputs_exact :
  usum (mu_amount <$> pc_selected_utxos pc) = zsum (mu_amount <$> pc_selected_utxos pc).
Proof.
  pose proof (shape_Ok _ _ (pf_shape _ _ _ _ Hpf)) as (_ & _ & _ & Hnd & _).
  eapply passed_total; [exact Hst|exact Hnd|]. eapply Forall2_impl; [apply pf_passed|].
  intros id u (r & ? & _ & _ & ?). by exists r.
Qed.

Lemma pf_outputs_exact :
  usum (ou_amount <$> ap_outputs ap) = zsum (ou_amount <$> ap_outputs ap)
  /\ usum (ou_amount <$> drop (length reqs) (ap_outputs ap))
     = zsum (ou_amount <$> drop (length reqs) (ap_outputs ap))
  /\ 0 <= zsum (ou_amount <$> drop (length reqs) (ap_outputs ap))
       <= zsum (ou_amount <$> ap_outputs ap).
Proof.
  destruct Hout as [Hn Ht]. assert (Forall (fun x => 0 <= x) (ou_amount <$> ap_outputs ap)) as Hn'
    by by apply Forall_fmap.
  assert (Forall (fun x => 0 <= x) (ou_amount <$> drop (length reqs) (ap_outputs ap))) as Hd
    by by apply Forall_fmap, Forall_drop.
  assert (zsum (ou_amount <$> drop (length reqs) (ap_outputs ap)) <= zsum (ou_amount <$> ap_outputs ap)).
  { apply zsum_submseteq; [done|]. apply fmap_submseteq', sublist_submseteq, sublist_drop. }
  split_and!; [by apply usum_small|apply usum_small; [done|lia]|by apply zsum_nonneg|done].
Qed.

Lemma pf_weight_exact :
  Forall supported (ap_outputs ap)
  /\ pc_tx_weight pc = weight_exact (Z.of_nat (length (pc_selected_utxos pc))) (ap_outputs ap)
  /\ pc_tx_weight pc <= DEFAULT_MAX_TX_WEIGHT.
Proof.
  pose proof (shape_Ok _ _ (pf_shape _ _ _ _ Hpf)) as (_ & _ & _ & _ & Hm & Hi & Hc & w & Hw & Hmax).
  destruct pf_lengths as [Hl1 Hl2]. pose proof (pf_weight _ _ _ _ Hpf) as Hpw.
  rewrite Hl2, Hpw in Hw. injection Hw as <-. rewrite Hl1, Hl2 in *.
  unfold safe_withdrawal_flow_max_inputs, DEFAULT_MAX_INPUTS, MAX_WITHDRAWAL_REQUESTS,
    WITHDRAWAL_MAX_CHANGE_OUTPUTS, sat_sub in *.
  apply estimated_weight in Hpw as [? ?]; [done|lia|lia].
Qed.
End of_prepared.

Lemma finish_Ok after ap pc rate :
  finish_withdrawal_tx_commitment after ap pc rate = Ok tt ->
  let st := onchain_state after in
  pc_fee pc <= FEE_RATE_TOLERANCE_MULTIPLIER
    * (default 0 (fee_wu rate (pc_tx_weight pc))
       + sat_sub (default 0 (fee_wu rate (pc_ancestor_weight pc))) (pc_ancestor_fee pc))
  /\ (exists tx, unsigned_withdrawal_tx (pc_selected_utxos pc) (ap_outputs ap) = Some tx
                 /\ compute_txid tx = ap_txid ap)
  /\ caught_up_with_scrape st = true /\ has_unsigned_txn st = false
  /\ (forall id r, requests st !! id = Some r ->
        eligible_for_commitment r (pc_max_bucket_capacity pc) = true ->
        bitcoin_withdrawal_minimum st <= btc_amount r ->
        exists q, q ∈ (map_to_list (requests st)).*2 /\ wr_id q ∈ ap_request_ids ap
                  /\ commit_order_cmp q r <> Gt)
  /\ exists limiter, local_limiter after = Some limiter
       /\ pc_outflow pc <= view_capacity_at limiter
            (sat_add (latest_checkpoint_timestamp_ms st / 1000) LIMITER_CAPACITY_SLACK_SECS).
Proof.
  intros H st. unfold finish_withdrawal_tx_commitment, build_unsigned_withdrawal_tx in H.
  fold st in H. inv_ok.
  apply Z.leb_le in E. apply Z.eqb_eq in E1.
  destruct (caught_up_with_scrape st) eqn:Hcu; [|done].
  unfold check_commitment_against_queue in E2. destruct (has_unsigned_txn st) eqn:Hus; [done|].
  destruct (local_limiter after) as [limiter|]; [|done]. unfold check_commitment_capacity in H.
  destruct (Z.ltb_spec (view_capacity_at limiter
    (sat_add (latest_checkpoint_timestamp_ms st / 1000) LIMITER_CAPACITY_SLACK_SECS)) (pc_outflow pc));
    [done|].
  split_and!; [|by exists v0|done|done| |by exists limiter].
  { unfold sat_mul, sat_add in E. unfold FEE_RATE_TOLERANCE_MULTIPLIER in *. lia. }
  intros id r Hr He Hmin.
  assert (r ∈ List.filter (fun r => eligible_for_commitment r (pc_max_bucket_capacity pc)
            && (bitcoin_withdrawal_minimum st <=? btc_amount r)) (map_to_list (requests st)).*2) as Hin.
  { apply elem_of_bool_filter. split; [|rewrite He; by apply Z.leb_le].
    apply list_elem_of_fmap. exists (id, r). by rewrite elem_of_map_to_list. }
  destruct (oldest_at_minimum _ _ _) as [q|] eqn:Hq; unfold oldest_at_minimum in Hq.
  - apply (min_by_spec commit_order_good) in Hq as [Hqin Hall].
    destruct (bool_decide (wr_id q ∈ ap_request_ids ap)) eqn:Hb; [|done].
    apply bool_decide_eq_true in Hb. exists q. split_and!; [|done|].
    + by apply elem_of_bool_filter in Hqin as [? _].
    + rewrite Forall_forall in Hall. by apply Hall.
  - destruct (List.filter _ _); [by apply elem_of_nil in Hin|done].
Qed.

Lemma commitment_certified before after estimate ap :
  state_fits (onchain_state before) -> outputs_fit (ap_outputs ap) ->
  validate_withdrawal_tx_commitment before after (Some estimate) ap = Some (Ok tt) ->
  exists reqs utxos fee,
    certified before after ap (withdrawal_fee_rate (config before) estimate) reqs utxos fee.
Proof.
  intros Hst Hout H. unfold validate_withdrawal_tx_commitment in H.
  destruct (prepare_withdrawal_tx_commitment before ap) as [[pc|e|]|] eqn:Hp; cbn in H; try done.
  injection H as H. apply prepare_Ok in Hp as [reqs Hpf].
  exists reqs, (pc_selected_utxos pc), (pc_fee pc).
  pose proof (shape_Ok _ _ (pf_shape _ _ _ _ Hpf)) as (Hne & Hne' & Hnd & Hnd' & Hm & Hi & Hc & _).
  destruct (pf_lengths Hst Hpf) as [Hl1 Hl2]. rewrite Hl1, ?Hl2 in *.
  destruct (pf_outputs_exact (reqs:=reqs) Hout) as (Ho1 & Ho2 & Ho3).
  pose proof (pf_fee _ _ _ _ Hpf) as [Hle Hfee]. rewrite (pf_inputs_exact Hst Hpf), Ho1 in Hle, Hfee.
  destruct (pf_passed Hst Hpf) as (Hpass & anc & Hanc1 & Hanc2 & Haw & Haf).
  destruct (pf_weight_exact Hst Hpf) as (Hsup & Hw & Hwm).
  apply finish_Ok in H as (Hmaxfee & Htx & Hcu & Hus & Hq & limiter & Hlim & Hcap).
  destruct (pf_limiter _ _ _ _ Hpf) as (lim & Hlb & Hmb & Hob).
  pose proof (pf_outflow _ _ _ _ Hpf) as Hof. unfold limiter_outflow, sat_sub in Hof.
  rewrite (pf_inputs_exact Hst Hpf), Ho2 in Hof.
  pose proof (check_payouts_Ok _ _ _ _ _ (pf_payouts _ _ _ _ Hpf)) as (_ & Hlen & Hpay).
  rewrite drop_0 in Hlen, Hpay.
  assert (selected_utxos ap <> [] -> pc_selected_utxos pc <> []) as Hpne.
  { intros Hn E. rewrite E in Hl2. by destruct (selected_utxos ap). }
  assert (reqs <> []) as Hrne by (intros ->; by destruct (ap_request_ids ap)).
  split; try done.
  - apply (pf_found Hpf).
  - split_and!; [done..|]. unfold MAX_WITHDRAWAL_REQUESTS in *. lia.
  - split_and!; [done|by apply Hpne|done].
  - eapply Forall2_impl; [exact Hpay|]. intros r o (Ha & Hd & Had).
    unfold sat_sub, DUST_RELAY_MIN_VALUE in *. split_and!; [lia|lia|done].
  - destruct (pf_change _ _ _ _ Hpf) as [->|(a & Ha & Hch)]; [constructor|].
    apply check_change_Ok in Hch. eapply Forall_impl; [exact Hch|]. intros o [-> ?]. by rewrite Ha.
  - rewrite length_drop. unfold sat_sub in Hc. lia.
  - lia.
  - split; [lia|apply (pf_share _ _ _ _ Hpf)].
  - by rewrite <- Hw.
  - rewrite <- Hw. apply (pf_min_fee _ _ _ _ Hpf).
  - exists anc. split_and!; [done..|]. by rewrite <- Hw, <- Haw, <- Haf.
  - exists lim, limiter. rewrite Hmb in *. cbn zeta. split_and!; [done..|lia|lia|done].
Qed.

End certified.
