(* ===== verification/WithdrawalBatch.v ===== *)
(** * The leader's withdrawal batches

    The leader's side of [crates/hashi/src/withdrawals.rs] and the batch flow of
    [crates/hashi/src/leader/withdrawal_request_flow.rs]: the choice of a batch that fits the
    guardian's limiter, the candidates with their unconfirmed ancestors, the loop that shrinks
    the batch until coin selection succeeds, and the leader's own check of what it proposes.

    What Bitcoin answers (transaction statuses, a snapshot of heights, a fee estimate) are
    arguments.  The [seen] sets and queues are those of the code. *)

From S2P Require Import Limiter CoinSelection MonitorDomain Withdrawals Retry Prelude.

(** ** Answers of the Bitcoin node *)

Inductive TxStatus :=
| StatusConfirmed (confirmations : Z)
| StatusInMempool
| StatusNotFound.

Record UtxoHeightSnapshot := mkUtxoHeightSnapshot {
  tip_height : Z;
  confirmation_height_by_txid : gmap Txid Z;
}.

Definition utxo_id_of (id : OutPoint) : UtxoId := mkUtxoId id.1 id.2.

(** The order of [UtxoId], in which a [BTreeMap] iterates. *)
Definition outpoint_cmp (a b : OutPoint) : comparison :=
  then_with (a.1 ?= b.1) (a.2 ?= b.2).
Definition record_values (records : UtxoRecords) : list UtxoRecord :=
  (sort_by (leb_of (fun a b => outpoint_cmp a.1 b.1)) (map_to_list records)).*2.

Definition confirmed_unlocked_utxo_ids (records : UtxoRecords) (txns : WithdrawalTxns)
    : list OutPoint :=
  (fun r => mu_id (rec_utxo r))
    <$> List.filter
          (fun r => bool_decide (spent_by r = None)
                    && match produced_by r with
                       | None => true
                       | Some producer => bool_decide (txns !! producer = None)
                       end)
          (record_values records).

Definition confirmation_age_blocks_by_utxo_id (ids : list OutPoint)
    (snapshot : UtxoHeightSnapshot) : option (gmap OutPoint Z) :=
  list_to_map <$>
    mapM (fun id : OutPoint =>
            confirmation_height ← confirmation_height_by_txid snapshot !! id.1;
            Some (id, sat_sub (tip_height snapshot) confirmation_height)) ids.

(** Best effort: no answer is no ages. *)
Definition resolve_confirmed_utxo_ages (snapshot : option UtxoHeightSnapshot)
    (ids : list OutPoint) : gmap OutPoint Z :=
  match ids with
  | [] => ∅
  | _ => default ∅ (snapshot ≫= confirmation_age_blocks_by_utxo_id ids)
  end.

Definition fetch_withdrawal_tx_confirmations (status_of : Txid -> option TxStatus)
    (txns : WithdrawalTxns) : gmap Address Z :=
  (fun txn => match status_of (wt_txid txn) with
              | Some (StatusConfirmed confirmations) => confirmations
              | _ => 0
              end) <$> txns.

(** ** Errors *)

Section batch.
Context `{NE : NodeEnv}.

Inductive WithdrawalCommitmentError :=
| BtcTxBuildFailed
| FeeEstimateFailed
| UtxoSelectionFailed (last : option CoinSelectionError)
| CommitmentCheckFailed (refusal : option CommitmentRefusal)
| NotOldest (refusal : CommitmentRefusal)
| OverCapacity (refusal : CommitmentRefusal).

#[local] Abbreviation L := (outcome WithdrawalCommitmentError).

(** ** Ancestor chains *)

Definition signed_weight_of (unsigned : Transaction) (input_count : Z) : L Z :=
  let satisfaction := satisfaction_weight TaprootScriptPath2of2 * input_count in
  _ ← assert (satisfaction <=? u64_max);
  Ok (weight_add (weight_add (transaction_weight unsigned) satisfaction) 2).

Section chain.
Context (txns : WithdrawalTxns) (tx_confirmations : gmap Address Z) (records : UtxoRecords).

(** One transaction of the chain. *)
Definition ancestor_tx (wid : Address) (txn : WithdrawalTransaction) : L AncestorTx :=
  tx ← build_unsigned_withdrawal_tx (wt_inputs txn) (all_outputs txn);
  w ← signed_weight_of tx (Z.of_nat (length (wt_inputs txn)));
  Ok (mkAncestorTx wid (default 0 (tx_confirmations !! wid)) w
        (sat_sub (usum (mu_amount <$> wt_inputs txn)) (usum (ou_amount <$> all_outputs txn)))).

Definition parents_at (depth : nat) (txn : WithdrawalTransaction) : list (Address * nat) :=
  omap (fun input => record ← records !! mu_id input;
                     parent_id ← produced_by record;
                     Some (parent_id, S depth)) (wt_inputs txn).

(** The [while let] over the queue; [None] when the fuel runs out. *)
Fixpoint ancestor_bfs (fuel : nat) (queue : list (Address * nat)) (seen : gset Address)
    (chain : list AncestorTx) : option (L (list AncestorTx)) :=
  match fuel with
  | O => None
  | S fuel =>
      match queue with
      | [] => Some (Ok chain)
      | (wid, depth) :: queue =>
          if MAX_ANCESTOR_DEPTH <=? Z.of_nat depth then ancestor_bfs fuel queue seen chain
          else if bool_decide (wid ∈ seen) then ancestor_bfs fuel queue seen chain
          else
            let seen := {[wid]} ∪ seen in
            match txns !! wid with
            | None => ancestor_bfs fuel queue seen chain
            | Some txn =>
                match ancestor_tx wid txn with
                | Ok a => ancestor_bfs fuel (queue ++ parents_at depth txn) seen (chain ++ [a])
                | Err e => Some (Err e)
                | Panic => Some Panic
                end
            end
      end
  end.

(** A transaction is expanded at most once, so there are at most as many pushes as inputs. *)
Definition bfs_fuel : nat :=
  2 + sum_list ((fun txn => length (wt_inputs txn)) <$> (map_to_list txns).*2).

Definition build_ancestor_chain (producing_id : Address) : option (L (list AncestorTx)) :=
  ancestor_bfs bfs_fuel [(producing_id, 0%nat)] ∅ [].

Definition build_utxo_status (record : UtxoRecord) : option (L UtxoStatus) :=
  match produced_by record with
  | None => Some (Ok Confirmed)
  | Some producing_id =>
      chain ← build_ancestor_chain producing_id;
      Some (chain ← chain;
            Ok (match chain with [] => Confirmed | _ => Pending chain end))
  end.
End chain.

(** ** Candidates *)

(** The [filter] over the records, with the walk it advances. *)
Fixpoint spendable_records (txns : WithdrawalTxns) (records : UtxoRecords)
    (excluded_inputs : gset OutPoint) (l : list UtxoRecord) (walked : Walked)
    : option (list UtxoRecord) :=
  match l with
  | [] => Some []
  | r :: l =>
      if bool_decide (spent_by r = None)
         && negb (bool_decide (mu_id (rec_utxo r) ∈ excluded_inputs)) then
        '(depth, walked) ← ancestry_depth txns records r walked;
        rest ← spendable_records txns records excluded_inputs l walked;
        Some (if depth <? MAX_ANCESTOR_DEPTH then r :: rest else rest)
      else spendable_records txns records excluded_inputs l walked
  end.

Definition utxo_candidate (txns : WithdrawalTxns) (tx_confirmations : gmap Address Z)
    (records : UtxoRecords) (ages : gmap OutPoint Z) (r : UtxoRecord)
    : option (L UtxoCandidate) :=
  status ← build_utxo_status txns tx_confirmations records r;
  Some (status ← status;
        Ok {| utxo_id := utxo_id_of (mu_id (rec_utxo r));
              amount := mu_amount (rec_utxo r);
              confirmation_age_blocks := ages !! mu_id (rec_utxo r);
              spend_path := TaprootScriptPath2of2;
              status := status |}).

(** [map] of a function that may panic and may run out of fuel. *)
Fixpoint map_fuel {E A B} (f : A -> option (outcome E B)) (l : list A) : option (outcome E (list B)) :=
  match l with
  | [] => Some (Ok [])
  | x :: l =>
      y ← f x;
      match y with
      | Ok y => ys ← map_fuel f l; Some (ys ← ys; Ok (y :: ys))
      | Err e => Some (Err e)
      | Panic => Some Panic
      end
  end.

(** ** The selection loop *)

Definition next_request_count (error : CoinSelectionError) (requests : list WithdrawalRequest)
    (request_count : Z) : list WithdrawalRequest * Z :=
  match error with
  | RequestAmountTooSmall id _ _ =>
      if existsb (fun r => request_id r =? id) requests then
        let kept := List.filter (fun r => negb (request_id r =? id)) requests in
        (kept, Z.min request_count (Z.of_nat (length kept)))
      else (requests, request_count - 1)
  | _ => (requests, request_count - 1)
  end.

Section loop.
Context (self : Hashi) (candidates : list UtxoCandidate) (change_addr : BitcoinAddress) (rate : Z).

Definition selection_params (max_in request_count : Z) : CoinSelectionParams :=
  let d := params_new change_addr in
  {| max_tx_weight := max_tx_weight d;
     max_ancestor_package_weight := max_ancestor_package_weight d;
     max_inputs := max_in;
     max_withdrawal_requests := request_count;
     max_fee_per_request := worst_case_network_fee (onchain_state self);
     min_fee_rate := withdrawal_min_fee_rate (config self);
     long_term_fee_rate := DEFAULT_LONG_TERM_FEE_RATE;
     high_fee_rate_threshold := high_fee_rate_threshold d;
     input_budget := input_budget d;
     max_mempool_chain_depth := cfg_mempool_chain_depth (config self);
     change_address := change_addr |}.

(** [mapped_requests[..request_count]] *)
Definition slice {E A} (l : list A) (n : Z) : outcome E (list A) :=
  _ ← assert (n <=? Z.of_nat (length l)); Ok (take (Z.to_nat n) l).

Fixpoint selection_loop (fuel : nat) (mapped_requests : list WithdrawalRequest)
    (request_count : Z) (last : option CoinSelectionError) : option (L CoinSelectionResult) :=
  match fuel with
  | O => None
  | S fuel =>
      if request_count <=? 0 then Some (Err (UtxoSelectionFailed last))
      else
        let max_inputs := safe_withdrawal_flow_max_inputs request_count DEFAULT_MAX_INPUTS in
        if max_inputs =? 0 then selection_loop fuel mapped_requests (request_count - 1) last
        else
          match slice mapped_requests request_count
                ≫= fun batch => select_coins candidates batch
                                  (selection_params max_inputs request_count) rate with
          | Ok selection => Some (Ok selection)
          | Panic => Some Panic
          | Err e =>
              let '(kept, next) := next_request_count e mapped_requests request_count in
              selection_loop fuel kept next (Some e)
          end
  end.
End loop.

(** A round drops a request or lowers the count. *)
Definition loop_fuel (mapped_requests : list WithdrawalRequest) (request_count : Z) : nat :=
  S (length mapped_requests + Z.to_nat request_count).

Definition mapped_request (r : MoveWithdrawalRequest) : WithdrawalRequest :=
  {| request_id := wr_id r;
     recipient := wr_bitcoin_address r;
     request_amount := btc_amount r;
     timestamp_ms := created_timestamp_ms r |}.

(** ** The commitment *)

(** What Bitcoin answers while the commitment is built. *)
Record BtcAnswers := mkBtcAnswers {
  recent_fee_rate : option Z;
  height_snapshot : option UtxoHeightSnapshot;
  status_of : Txid -> option TxStatus;
}.

Definition commitment_outputs (change_addr : BitcoinAddress) (result : CoinSelectionResult)
    : L (list OutputUtxo) :=
  let payouts :=
    (fun o => mkOutputUtxo (out_amount o) (out_recipient o)) <$> withdrawal_outputs result in
  match change result with
  | None => Ok payouts
  | Some change_amount =>
      match witness_program_from_address change_addr with
      | Some program => Ok (payouts ++ [mkOutputUtxo change_amount program])
      | None => Err BtcTxBuildFailed
      end
  end.

Definition resolve_inputs (self : Hashi) (ins : list UtxoCandidate) : L (list MoveUtxo) :=
  match mapM (fun c => active_utxo (onchain_state self) (txid (utxo_id c), vout (utxo_id c))) ins with
  | Some utxos => Ok utxos
  | None => Err BtcTxBuildFailed
  end.

(** [snapshot] is the node when it clones the two maps, [self] when it selects and builds. *)
Definition build_withdrawal_tx_commitment (snapshot self : Hashi) (btc : BtcAnswers)
    (reqs : list MoveWithdrawalRequest) (excluded_inputs : gset OutPoint)
    : option (L WithdrawalTxCommitment) :=
  match recent_fee_rate btc with
  | None => Some (Err FeeEstimateFailed)
  | Some kyoto_fee_rate =>
    let rate := withdrawal_fee_rate (config snapshot) kyoto_fee_rate in
    match get_deposit_address snapshot None with
    | None => Some (Err BtcTxBuildFailed)
    | Some change_addr =>
      let txns := withdrawal_txns (onchain_state snapshot) in
      let records := utxo_records (onchain_state snapshot) in
      let ages :=
        if rate <? DEFAULT_HIGH_FEE_RATE_THRESHOLD
        then resolve_confirmed_utxo_ages (height_snapshot btc)
               (confirmed_unlocked_utxo_ids records txns)
        else ∅ in
      let tx_confirmations := fetch_withdrawal_tx_confirmations (status_of btc) txns in
      spendable ← spendable_records txns records excluded_inputs (record_values records) ∅;
      candidates ← map_fuel (utxo_candidate txns tx_confirmations records ages) spendable;
      match candidates with
      | Panic => Some Panic
      | Err e => Some (Err e)
      | Ok candidates =>
        let n := Z.of_nat (length reqs) in
        let batch_request_cap :=
          withdrawal_batch_request_cap n (Z.of_nat (length candidates)) in
        let configured_max_requests :=
          Z.min (Z.min (withdrawal_max_batch_size (config self)) batch_request_cap) n in
        let mapped := mapped_request <$> reqs in
        result ← selection_loop self candidates change_addr rate
                   (loop_fuel mapped configured_max_requests) mapped configured_max_requests None;
        Some
          (result ← result;
           outputs ← commitment_outputs change_addr result;
           utxos ← resolve_inputs self (res_inputs result);
           tx ← build_unsigned_withdrawal_tx utxos outputs;
           Ok {| ap_request_ids := request_id <$> selected_requests result;
                 selected_utxos :=
                   (fun u => (txid (utxo_id u), vout (utxo_id u))) <$> res_inputs result;
                 ap_outputs := outputs;
                 ap_txid := compute_txid tx |})
      end
    end
  end.

(** ** The leader's own check *)

Definition COMMITMENT_CHECK_ROUNDS : nat := 4.

Definition leave_out (refused : list RefusedItem) (reqs : list MoveWithdrawalRequest)
    (excluded_inputs : gset OutPoint) (minimum : Z)
    : list MoveWithdrawalRequest * gset OutPoint :=
  let '(reqs, excluded_inputs) :=
    fold_left
      (fun '(reqs, excluded_inputs) i =>
         match item i with
         | ItemRequest id => (List.filter (fun r => negb (wr_id r =? id)) reqs, excluded_inputs)
         | ItemInput id => (reqs, {[id]} ∪ excluded_inputs)
         end) refused (reqs, excluded_inputs) in
  (promote_first_at_minimum reqs minimum, excluded_inputs).

Definition commit_gate_open (self : Hashi) : bool :=
  negb (has_unsigned_txn (onchain_state self)) && caught_up_with_scrape (onchain_state self).

(** The states of the node a round reads, in order, and what Bitcoin answers in it. *)
Record Round := mkRound {
  ro_snapshot : Hashi;
  ro_build : Hashi;
  ro_before : Hashi;
  ro_after : Hashi;
  ro_gate : Hashi;
  ro_btc : BtcAnswers;
  ro_estimate : option Z;
}.

(** A refusal that is not a list of items ends the rounds. *)
Definition refusal_error (refusal : CommitmentRefusal) : WithdrawalCommitmentError :=
  match refusal with
  | FeeEstimateUnavailable => FeeEstimateFailed
  | OldestRequestMissing _ => NotOldest refusal
  | AboveLimiterCapacity _ _ => OverCapacity refusal
  | _ => CommitmentCheckFailed (Some refusal)
  end.

Fixpoint check_rounds (rounds : list Round) (minimum : Z) (reqs : list MoveWithdrawalRequest)
    (excluded_inputs : gset OutPoint) : option (L (option WithdrawalTxCommitment)) :=
  match rounds with
  | [] => Some (Err (CommitmentCheckFailed None))
  | r :: rounds =>
      built ← build_withdrawal_tx_commitment (ro_snapshot r) (ro_build r) (ro_btc r) reqs
                excluded_inputs;
      match built with
      | Panic => Some Panic
      | Err e => Some (if commit_gate_open (ro_gate r) then Err e else Ok None)
      | Ok approval =>
          verdict ← validate_withdrawal_tx_commitment (ro_before r) (ro_after r) (ro_estimate r)
                      approval;
          match verdict with
          | Panic => Some Panic
          | Ok _ => Some (Ok (if commit_gate_open (ro_gate r) then Some approval else None))
          | Err WithdrawalStillUnsigned | Err MirrorCatchingUp => Some (Ok None)
          | Err refusal =>
              if negb (commit_gate_open (ro_gate r)) then Some (Ok None)
              else
                match refusal with
                | RefusedItems refused =>
                    let '(reqs, excluded_inputs) :=
                      leave_out refused reqs excluded_inputs minimum in
                    match reqs with
                    | [] => Some (Err (CommitmentCheckFailed None))
                    | _ => check_rounds rounds minimum reqs excluded_inputs
                    end
                | _ => Some (Err (refusal_error refusal))
                end
          end
      end
  end.

Definition build_checked_commitment (self : Hashi) (rounds : list Round)
    (reqs : list MoveWithdrawalRequest) : option (L (option WithdrawalTxCommitment)) :=
  check_rounds (take COMMITMENT_CHECK_ROUNDS rounds)
    (bitcoin_withdrawal_minimum (onchain_state self)) reqs ∅.

(** ** The batch of a checkpoint *)

Inductive WithdrawalCommitmentErrorKind :=
| KBtcTxBuildFailed | KCommitmentCheckFailed | KNotOldest | KOverCapacity | KFailedQuorum
| KFeeEstimateFailed | KUtxoSelectionFailed | KTimedOut | KTaskFailed.

#[export] Instance WithdrawalCommitmentErrorKind_eq_dec : EqDecision WithdrawalCommitmentErrorKind.
Proof. solve_decision. Defined.

Definition commitment_error_kind (self : WithdrawalCommitmentError)
    : WithdrawalCommitmentErrorKind :=
  match self with
  | BtcTxBuildFailed => KBtcTxBuildFailed
  | FeeEstimateFailed => KFeeEstimateFailed
  | UtxoSelectionFailed _ => KUtxoSelectionFailed
  | CommitmentCheckFailed _ => KCommitmentCheckFailed
  | NotOldest _ => KNotOldest
  | OverCapacity _ => KOverCapacity
  end.

#[export] Instance commitment_retry_policy : RetryPolicy WithdrawalCommitmentErrorKind := {
  retry_base_delay_ms _ := 5 * 1000;
  max_delay_ms _ := 60 * 1000;
  max_retries _ := u32_max;
}.

(** The longest prefix that fits, and whether a request was left out. *)
Fixpoint capacity_prefix (capacity : Z) (l : list MoveWithdrawalRequest) (cumulative : Z)
    : list MoveWithdrawalRequest * bool :=
  match l with
  | [] => ([], false)
  | req :: l =>
      let next := cumulative + btc_amount req in
      if u64_max <? next then ([], true)
      else if capacity <? next then ([], true)
      else let '(batch, at_capacity) := capacity_prefix capacity l next in (req :: batch, at_capacity)
  end.

Definition withdrawal_fire_threshold (config_max : Z) : Z :=
  Z.min config_max MAX_WITHDRAWAL_REQUESTS.

(** [Iterator::min] of the creation times. *)
Definition oldest_created (batch : list MoveWithdrawalRequest) : option Z :=
  match batch with
  | [] => None
  | r :: l => Some (fold_left (fun m q => Z.min m (created_timestamp_ms q)) l (created_timestamp_ms r))
  end.

Record LeaderState := mkLeaderState {
  withdrawal_commitment_task : bool;
  withdrawal_commitment_retry_tracker : option (RetryState WithdrawalCommitmentErrorKind);
  stuck_withdrawal_warned : gset Address;
}.

Definition with_warned (ld : LeaderState) (warned : gset Address) : LeaderState :=
  mkLeaderState (withdrawal_commitment_task ld) (withdrawal_commitment_retry_tracker ld) warned.

(** The leader after the call, and the batch it starts a task for. *)
Definition process_approved_withdrawal_requests (self : Hashi) (is_reconfiguring : bool)
    (ld : LeaderState) (checkpoint_height checkpoint_timestamp_ms : Z)
    : LeaderState * option (list MoveWithdrawalRequest) :=
  let st := onchain_state self in
  if is_reconfiguring then (ld, None)
  else if withdrawal_commitment_task ld then (ld, None)
  else if has_unsigned_txn st then (ld, None)
  else if negb (caught_up_with_scrape st) then (ld, None)
  else if negb (turn_has_room checkpoint_height) then (ld, None)
  else
    let approved := List.filter awaits_commitment (map_to_list (requests st)).*2 in
    let pending_ids : gset Address := list_to_set (wr_id <$> approved) in
    let ld := with_warned ld (stuck_withdrawal_warned ld ∩ pending_ids) in
    if global_should_skip (withdrawal_commitment_retry_tracker ld) checkpoint_timestamp_ms
    then (ld, None)
    else
      match approved, local_limiter self with
      | [], _ => (ld, None)
      | _, None => (ld, None)
      | _, Some view =>
          let max_bucket := max_bucket_capacity (lv_config view) in
          let capacity := view_capacity_at view (checkpoint_timestamp_ms / 1000) in
          let oversize := List.filter (fun r => max_bucket <? btc_amount r) approved in
          let ld :=
            with_warned ld (list_to_set (wr_id <$> oversize) ∪ stuck_withdrawal_warned ld) in
          let minimum := bitcoin_withdrawal_minimum st in
          let '(batch, at_capacity) :=
            capacity_prefix capacity (withdrawal_commit_order approved max_bucket minimum) 0 in
          match batch with
          | [] => (ld, None)
          | _ =>
              let max_batch := withdrawal_fire_threshold (withdrawal_max_batch_size (config self)) in
              let delay_ms := withdrawal_batching_delay_ms (config self) in
              let batch_is_full := max_batch <=? Z.of_nat (length batch) in
              let oldest_has_waited :=
                match oldest_created batch with
                | Some ms => wadd ms delay_ms <=? checkpoint_timestamp_ms
                | None => false
                end in
              if negb batch_is_full && negb oldest_has_waited && negb at_capacity then (ld, None)
              else (mkLeaderState true (withdrawal_commitment_retry_tracker ld)
                      (stuck_withdrawal_warned ld), Some batch)
          end
      end.

(** What a finished check does to the tracker, and the commitment the leader proposes. *)
Definition record_checked (tracker : option (RetryState WithdrawalCommitmentErrorKind))
    (result : L (option WithdrawalTxCommitment)) (checkpoint_timestamp_ms : Z)
    : option (RetryState WithdrawalCommitmentErrorKind) * option WithdrawalTxCommitment :=
  match result with
  | Ok approval => (global_clear tracker, approval)
  | Err e => (global_record_failure tracker (commitment_error_kind e) checkpoint_timestamp_ms, None)
  | Panic => (tracker, None)
  end.
End batch.
