(* ===== verification/WithdrawalLeader.v ===== *)
(** * The leader's batches: lemmas

    The breadth-first search for the ancestors of a candidate, and the loop that shrinks a
    batch.  Both return on every input; under Bitcoin's ancestor limit the search finds exactly
    the in-flight ancestors the validators' walk finds, each with the same weight and fee. *)

From S2P Require Import Limiter CoinSelection CoinSelectionProofs MonitorDomain Withdrawals WithdrawalAncestry WithdrawalTheorems WithdrawalBatch Retry Prelude.

(** ** The fuel of the search *)

Section bfs.
Context `{NE : NodeEnv}.
Context (txns : WithdrawalTxns) (confs : gmap Address Z) (records : UtxoRecords).

(** The inputs of the transactions not seen yet. *)
Definition unseen (seen : gset Address) : WithdrawalTxns := filter (fun '(w, _) => w ∉ seen) txns.
Definition unseen_inputs (seen : gset Address) : nat :=
  sum_list ((fun txn => length (wt_inputs txn)) <$> (map_to_list (unseen seen)).*2).

Lemma unseen_inputs_pop seen w txn :
  txns !! w = Some txn -> w ∉ seen ->
  unseen_inputs seen = (length (wt_inputs txn) + unseen_inputs ({[w]} ∪ seen))%nat.
Proof.
  intros Ht Hw. unfold unseen_inputs.
  assert (unseen seen = <[w := txn]> (unseen ({[w]} ∪ seen))) as ->.
  { apply map_eq. intros x. unfold unseen. destruct (decide (x = w)) as [->|Hne].
    - rewrite lookup_insert_eq. by apply map_lookup_filter_Some.
    - rewrite lookup_insert_ne by done. apply option_eq. intros t.
      rewrite !map_lookup_filter_Some. set_solver. }
  rewrite (map_to_list_insert (unseen ({[w]} ∪ seen)) w txn); [done|].
  apply map_lookup_filter_None. right. intros t _. set_solver.
Qed.

Lemma unseen_inputs_mono seen w : (unseen_inputs ({[w]} ∪ seen) <= unseen_inputs seen)%nat.
Proof.
  destruct (decide (w ∈ seen)) as [Hin|Hin].
  { replace ({[w]} ∪ seen) with seen by set_solver. done. }
  destruct (txns !! w) as [txn|] eqn:Ht; [rewrite (unseen_inputs_pop seen w txn); [lia|done..]|].
  replace (unseen_inputs ({[w]} ∪ seen)) with (unseen_inputs seen); [done|].
  unfold unseen_inputs. do 4 f_equal. apply map_filter_ext. intros x t Hx.
  assert (x <> w) by congruence. set_solver.
Qed.

Lemma length_parents_at d txn : (length (parents_at records d txn) <= length (wt_inputs txn))%nat.
Proof.
  unfold parents_at. induction (wt_inputs txn) as [|i l IH]; [done|]. cbn [omap list_omap length].
  case_match; cbn [length]; lia.
Qed.

Lemma ancestor_tx_no_err wid txn e : ancestor_tx confs wid txn <> Err e.
Proof.
  unfold ancestor_tx, build_unsigned_withdrawal_tx, signed_weight_of, expect, assert.
  destruct (unsigned_withdrawal_tx _ _); cbn; [|done]. by destruct (_ <=? _).
Qed.

Lemma ancestor_bfs_returns fuel : forall queue seen chain,
  (length queue + unseen_inputs seen < fuel)%nat ->
  exists r, ancestor_bfs txns confs records fuel queue seen chain = Some r.
Proof.
  induction fuel as [|fuel IH]; intros queue seen chain Hf; [lia|]. cbn [ancestor_bfs].
  destruct queue as [|[w d] queue]; [by eexists|]. cbn [length] in Hf.
  destruct (MAX_ANCESTOR_DEPTH <=? Z.of_nat d); [apply IH; lia|].
  destruct (bool_decide (w ∈ seen)) eqn:Hs; [apply IH; lia|]. apply bool_decide_eq_false in Hs.
  pose proof (unseen_inputs_mono seen w).
  destruct (txns !! w) as [txn|] eqn:Ht; [|apply IH; lia].
  destruct (ancestor_tx confs w txn); [|by eexists|by eexists]. apply IH.
  rewrite length_app. pose proof (length_parents_at d txn).
  pose proof (unseen_inputs_pop seen w txn Ht Hs). lia.
Qed.

Lemma build_ancestor_chain_returns p :
  exists r, build_ancestor_chain txns confs records p = Some r.
Proof.
  apply ancestor_bfs_returns. unfold bfs_fuel, unseen_inputs, unseen. cbn [length].
  rewrite map_filter_id by set_solver. lia.
Qed.

(** ** What the search finds *)

(** A change output names the in-flight transaction that created it. *)
Definition provenance : Prop :=
  forall id r p t, records !! id = Some r -> produced_by r = Some p -> txns !! p = Some t ->
                   wt_txid t = id.1.

Lemma parents_at_edge w txn d q e :
  provenance -> txns !! w = Some txn -> q ∈ dom txns ->
  (q, e) ∈ parents_at records d txn <-> e = S d /\ edge txns records w q.
Proof.
  intros Hprov Ht [t Hq]%elem_of_dom. unfold parents_at. rewrite list_elem_of_omap. split.
  - intros (i & Hi & H). destruct (records !! mu_id i) as [r|] eqn:Hr; [|done]. cbn in H.
    destruct (produced_by r) as [p|] eqn:Hp; [|done]. injection H as -> <-. split; [done|].
    exists txn, i. split_and!; [done..|]. unfold parent. rewrite Hr, bool_decide_true; [done|].
    apply elem_of_list_to_set, list_elem_of_fmap. exists t. split; [by erewrite <- Hprov|].
    apply list_elem_of_fmap. exists (q, t). by rewrite elem_of_map_to_list.
  - intros [-> (txn' & i & Ht' & Hi & Hp)]. simplify_eq. exists i. split; [done|].
    unfold parent in Hp. case_bool_decide; [|done].
    destruct (records !! mu_id i) as [r|]; [|done]. cbn. by rewrite Hp.
Qed.

Lemma nsteps_has_chain d : forall root w,
  nsteps (edge txns records) d root w -> w ∈ dom txns -> has_chain txns records (S d) root = true.
Proof.
  induction d as [|d IH]; intros root w Hn Hw; inversion Hn as [|? ? y ? He Hn']; subst.
  - apply elem_of_dom in Hw as [t Ht]. cbn. by rewrite Ht.
  - apply (has_chain_edge _ _ _ _ y He). by apply (IH y w).
Qed.

Record bfs_inv (root : Address) (queue : list (Address * nat)) (seen : gset Address)
    (chain : list AncestorTx) : Prop := {
  bi_nodup : NoDup (anc_id <$> chain);
  bi_ids : forall w, w ∈ (anc_id <$> chain) <-> w ∈ seen /\ w ∈ dom txns;
  bi_costs : Forall (fun a => exists txn, txns !! anc_id a = Some txn
                                /\ ancestor_tx confs (anc_id a) txn = Ok a) chain;
  bi_queue : forall w d, (w, d) ∈ queue -> w ∈ dom txns -> nsteps (edge txns records) d root w;
  bi_seen : forall w, w ∈ seen -> w ∈ dom txns -> rtc (edge txns records) root w;
  bi_closed : forall w q, w ∈ seen -> edge txns records w q -> q ∈ dom txns ->
                          q ∈ seen \/ q ∈ queue.*1;
  bi_root : root ∈ dom txns -> root ∈ seen \/ root ∈ queue.*1;
}.

Lemma bfs_inv_drop root w d queue seen chain :
  bfs_inv root ((w, d) :: queue) seen chain -> (w ∈ dom txns -> w ∈ seen) ->
  bfs_inv root queue seen chain.
Proof.
  intros [H1 H2 H3 H4 H5 H6 H7] Hw. split; try done.
  - intros x e Hx. apply H4. set_solver.
  - intros x q Hx He Hq. destruct (H6 x q Hx He Hq) as [?|[->|?]%elem_of_cons]; auto.
  - intros Hr. destruct (H7 Hr) as [?|[->|?]%elem_of_cons]; auto.
Qed.

Lemma bfs_inv_skip root queue seen chain w d :
  bfs_inv root ((w, d) :: queue) seen chain -> w ∉ dom txns -> bfs_inv root queue ({[w]} ∪ seen) chain.
Proof.
  intros Hinv Hw. apply bfs_inv_drop in Hinv as [H1 H2 H3 H4 H5 H6 H7]; [|done]. split; try done.
  - intros x. rewrite H2. set_solver.
  - intros x Hx Hd. apply H5; [set_solver|done].
  - intros x q [->%elem_of_singleton|Hx]%elem_of_union He Hq; [by apply edge_dom in He|].
    destruct (H6 x q Hx He Hq); [left; set_solver|by right].
  - intros Hr. destruct (H7 Hr); [left; set_solver|by right].
Qed.

Lemma bfs_inv_expand root queue seen chain w d txn a :
  provenance -> bfs_inv root ((w, d) :: queue) seen chain -> w ∉ seen -> txns !! w = Some txn ->
  ancestor_tx confs w txn = Ok a -> anc_id a = w ->
  bfs_inv root (queue ++ parents_at records d txn) ({[w]} ∪ seen) (chain ++ [a]).
Proof.
  intros Hprov [H1 H2 H3 H4 H5 H6 H7] Hw Ht Ha Hid.
  assert (w ∈ dom txns) as Hd by by eapply elem_of_dom_2.
  assert (nsteps (edge txns records) d root w) as Hn by (apply H4; [set_solver|done]).
  split.
  - rewrite fmap_app. apply NoDup_app. split_and!; [done| |apply NoDup_singleton].
    intros x [Hx _]%H2. cbn. rewrite list_elem_of_singleton, Hid. by intros ->.
  - intros x. rewrite fmap_app, elem_of_app, H2. cbn. rewrite list_elem_of_singleton, Hid.
    set_solver.
  - apply Forall_app. split; [done|]. constructor; [|done]. exists txn. by rewrite Hid.
  - intros x e [Hx|Hx]%elem_of_app Hxd; [apply H4; set_solver|].
    apply (parents_at_edge w) in Hx as [-> He]; [|done..]. by eapply nsteps_r.
  - intros x [->%elem_of_singleton|Hx]%elem_of_union Hxd; [|by apply H5]. by apply (rtc_nsteps_2 d).
  - intros x q Hx He Hq. rewrite fmap_app, elem_of_app.
    apply elem_of_union in Hx as [->%elem_of_singleton|Hx].
    + right. right. apply list_elem_of_fmap. exists (q, S d). split; [done|].
      by apply (parents_at_edge w).
    + destruct (H6 x q Hx He Hq) as [?|[->|?]%elem_of_cons]; [left; set_solver|left; set_solver|].
      right. by left.
  - intros Hr. rewrite fmap_app, elem_of_app.
    destruct (H7 Hr) as [?|[->|?]%elem_of_cons]; [left; set_solver|left; set_solver|]. right. by left.
Qed.

Lemma ancestor_tx_id w txn a : ancestor_tx confs w txn = Ok a -> anc_id a = w.
Proof. unfold ancestor_tx. intros H. inv_ok. by subst a. Qed.

Lemma ancestor_bfs_exact fuel root : forall queue seen chain result,
  provenance -> has_chain txns records (Z.to_nat MAX_ANCESTOR_DEPTH) root = false ->
  bfs_inv root queue seen chain ->
  ancestor_bfs txns confs records fuel queue seen chain = Some (Ok result) ->
  exists seen', bfs_inv root [] seen' result.
Proof.
  induction fuel as [|fuel IH]; intros queue seen chain result Hprov Hlim Hinv H; [done|].
  cbn [ancestor_bfs] in H. destruct queue as [|[w d] queue]; [injection H as ->; by exists seen|].
  destruct (Z.leb_spec MAX_ANCESTOR_DEPTH (Z.of_nat d)) as [Hd|Hd].
  { apply (IH _ _ _ _ Hprov Hlim) in H; [done|]. eapply bfs_inv_drop; [done|]. intros Hw. exfalso.
    assert (nsteps (edge txns records) d root w) as Hn
      by (apply (bi_queue _ _ _ _ Hinv); [set_solver|done]).
    apply nsteps_has_chain in Hn; [|done].
    apply (has_chain_le _ _ _ (Z.to_nat MAX_ANCESTOR_DEPTH)) in Hn; [congruence|lia]. }
  case_bool_decide as Hs.
  { apply (IH _ _ _ _ Hprov Hlim) in H; [done|]. by eapply bfs_inv_drop. }
  destruct (txns !! w) as [txn|] eqn:Ht.
  - destruct (ancestor_tx confs w txn) as [a|e|] eqn:Ha; [|done..].
    apply (IH _ _ _ _ Hprov Hlim) in H; [done|]. eapply bfs_inv_expand; try done.
    by eapply ancestor_tx_id.
  - apply (IH _ _ _ _ Hprov Hlim) in H; [done|]. eapply bfs_inv_skip; [done|].
    by apply not_elem_of_dom.
Qed.

(** The chain of a candidate: its in-flight ancestors, each once. *)
Lemma build_ancestor_chain_exact root chain :
  provenance -> has_chain txns records (Z.to_nat MAX_ANCESTOR_DEPTH) root = false ->
  build_ancestor_chain txns confs records root = Some (Ok chain) ->
  NoDup (anc_id <$> chain)
  /\ (forall w, w ∈ (anc_id <$> chain) <-> w ∈ dom txns /\ rtc (edge txns records) root w)
  /\ Forall (fun a => exists txn, txns !! anc_id a = Some txn
                        /\ ancestor_tx confs (anc_id a) txn = Ok a) chain.
Proof.
  intros Hprov Hlim H. apply ancestor_bfs_exact with (root := root) in H as (seen & Hinv); [|done..|].
  - destruct Hinv as [H1 H2 H3 _ H5 H6 H7]. split_and!; [done| |done]. intros w. rewrite H2. split.
    + intros [Hw Hd]. split; [done|by apply H5].
    + intros [Hd Hr]. split; [|done].
      assert (forall x, rtc (edge txns records) x w -> x ∈ seen -> w ∈ seen) as Hcl.
      { intros x Hx. induction Hx as [x|x y z Hxy Hyz IH]; [done|]. intros Hin. apply IH; [done..|].
        destruct (H6 x y Hin Hxy) as [?|?%elem_of_nil]; [|done..].
        apply rtc_inv in Hyz as [->|(q & Hq & _)]; [done|by eapply edge_dom]. }
      apply (Hcl root Hr). destruct H7 as [?|?%elem_of_nil]; [|done..].
      apply rtc_inv in Hr as [->|(q & Hq & _)]; [done|by eapply edge_dom].
  - split; cbn; [constructor|set_solver|constructor| |set_solver|set_solver|right; set_solver].
    intros w d Hw. apply list_elem_of_singleton in Hw as [= -> ->]. constructor.
Qed.
End bfs.

(** ** The weight of an ancestor *)

Section cost.
Context `{NE : NodeEnv} `{BL : !BitcoinUnitsLaws} `{NL : !NodeEnvLaws}.

Lemma unsigned_tx_shape ins outs tx :
  unsigned_withdrawal_tx ins outs = Some tx ->
  input tx = mu_id <$> ins /\ length (output tx) = length outs /\ Forall supported outs
  /\ (fun o => 4 * (8 + 1 + Z.of_nat (length (out_script o)))) <$> output tx = script_weight <$> outs.
Proof.
  unfold unsigned_withdrawal_tx. intros H.
  destruct (mapM _ outs) as [l|] eqn:Hm; [|done]. injection H as <-. cbn [input output].
  split; [done|]. clear ins. revert l Hm. induction outs as [|o outs IH]; intros l Hm; cbn in Hm.
  { injection Hm as <-. by split_and!. }
  destruct (script_pubkey_from_witness_program (bitcoin_address o)) as [sc|] eqn:Hsc; [|done].
  cbn in Hm. destruct (mapM _ outs) as [l'|]; [|done]. injection Hm as <-.
  destruct (IH l' eq_refl) as (Hl & Hs & Hw). rewrite !fmap_cons, Hw. cbn [length].
  assert (supported o /\ length sc = (2 + length (bitcoin_address o))%nat) as [Hso Hlen].
  { unfold script_pubkey_from_witness_program in Hsc. unfold supported.
    destruct (Nat.eqb_spec (length (bitcoin_address o)) 32) as [E|]; [injection Hsc as <-; auto|].
    destruct (Nat.eqb_spec (length (bitcoin_address o)) 20) as [E|]; [injection Hsc as <-; auto|done]. }
  split_and!; [by rewrite Hl|by constructor|]. f_equal. unfold script_weight. cbn [out_script].
  rewrite Hlen. lia.
Qed.

(** Sizes a transaction of this system cannot exceed. *)
Definition txn_sizes (txn : WithdrawalTransaction) : Prop :=
  Z.of_nat (length (wt_inputs txn)) <= 2 ^ 40 /\ Z.of_nat (length (all_outputs txn)) <= 2 ^ 40.

(** The leader weighs a signed ancestor and the validators estimate it: the two agree. *)
Lemma ancestor_tx_cost confs w txn a :
  txn_sizes txn -> ancestor_tx confs w txn = Ok a ->
  (tx_weight a, tx_fee a) = ancestor_cost txn
  /\ confirmations a = default 0 (confs !! w) /\ Forall supported (all_outputs txn).
Proof.
  intros [Hi Ho] H. unfold ancestor_tx, build_unsigned_withdrawal_tx, signed_weight_of in H. inv_ok.
  subst a. cbn [tx_weight tx_fee confirmations].
  destruct (unsigned_tx_shape _ _ _ E) as (Hin & Hlo & Hsup & Hsw).
  split_and!; [|done|done]. unfold ancestor_cost, withdrawal_txn_weight.
  assert (estimated_withdrawal_tx_weight (Z.of_nat (length (wt_inputs txn))) (all_outputs txn)
          = Some (weight_exact (Z.of_nat (length (wt_inputs txn))) (all_outputs txn))) as Hest
    by (apply estimated_weight; [lia|done|done]).
  unfold all_outputs in Hest. rewrite Hest. fold (all_outputs txn). f_equal.
  subst v0. pose proof (script_weights_bounds _ Hsup) as Hb.
  pose proof (varint_weight_bounds (Z.of_nat (length (wt_inputs txn)))).
  pose proof (varint_weight_bounds (Z.of_nat (length (all_outputs txn)))).
  assert (transaction_weight v
          = 32 + varint_weight (Z.of_nat (length (wt_inputs txn)))
            + varint_weight (Z.of_nat (length (all_outputs txn)))
            + 164 * Z.of_nat (length (wt_inputs txn)) + zsum (script_weight <$> all_outputs txn)) as Htw.
  { rewrite transaction_weight_unsigned, Hin, Hlo, Hsw, length_fmap. unfold TXIN_BASE_WEIGHT. done. }
  cbn [satisfaction_weight] in *.
  rewrite (weight_add_exact (transaction_weight v)) by (rewrite ?Htw; unfold u64_max; lia).
  rewrite weight_add_exact by (rewrite ?Htw; unfold u64_max; lia).
  rewrite Htw. unfold weight_exact. lia.
Qed.
End cost.

(** ** The selection loop *)

Lemma filter_length_lt {A} (f : A -> bool) l x :
  x ∈ l -> f x = false -> (length (List.filter f l) < length l)%nat.
Proof.
  intros Hin Hx. induction l as [|y l IH]; [by apply elem_of_nil in Hin|]. cbn.
  pose proof (List.filter_length_le f l).
  apply elem_of_cons in Hin as [<-|Hin]; [rewrite Hx; lia|]. specialize (IH Hin).
  destruct (f y); cbn; lia.
Qed.

Lemma flow_max_inputs_nonneg rc : 0 <= rc -> 0 <= safe_withdrawal_flow_max_inputs rc DEFAULT_MAX_INPUTS <= 400.
Proof.
  intros H. unfold safe_withdrawal_flow_max_inputs, safe_withdrawal_commit_max_inputs,
    safe_withdrawal_confirm_max_inputs, runtime_object_input_budget, DEFAULT_MAX_INPUTS,
    DEFAULT_INPUT_BUDGET, WITHDRAWAL_COMMIT_RUNTIME_OBJECTS_PER_INPUT,
    WITHDRAWAL_CONFIRM_RUNTIME_OBJECTS_PER_INPUT. rewrite !Z.div_1_r.
  unfold sat_mul, sat_sub, u64_max. lia.
Qed.

Section loop.
Context `{NE : NodeEnv}.

Lemma next_request_count_bound e mapped rc kept next :
  0 < rc <= Z.of_nat (length mapped) -> next_request_count e mapped rc = (kept, next) ->
  kept `sublist_of` mapped /\ 0 <= next <= Z.of_nat (length kept) /\ next <= rc
  /\ Z.of_nat (length kept) + next < Z.of_nat (length mapped) + rc.
Proof.
  intros Hrc. unfold next_request_count.
  destruct e as [| | | | | | |id amt d]; try (intros [= <- <-]; split_and!; [done|lia..]).
  destruct (existsb _ mapped) eqn:He; [|intros [= <- <-]; split_and!; [done|lia..]].
  intros [= <- <-]. split_and!; [apply filter_sublist|lia|lia|lia|].
  apply existsb_exists in He as (r & Hr%list_elem_of_In & Hid).
  pose proof (filter_length_lt (fun r => negb (request_id r =? id)) mapped r Hr) as Hlt.
  cbn beta in Hlt. rewrite Hid in Hlt. specialize (Hlt eq_refl). lia.
Qed.

Context (self : Hashi) (candidates : list UtxoCandidate) (change_addr : BitcoinAddress) (rate : Z).

Lemma selection_loop_returns fuel : forall mapped rc last,
  rc <= Z.of_nat (length mapped) -> (length mapped + Z.to_nat rc < fuel)%nat ->
  exists r, selection_loop self candidates change_addr rate fuel mapped rc last = Some r.
Proof.
  induction fuel as [|fuel IH]; intros mapped rc last Hrc Hf; [lia|]. cbn [selection_loop].
  destruct (Z.leb_spec rc 0); [by eexists|].
  destruct (_ =? 0); [apply IH; lia|].
  destruct (slice mapped rc ≫= _) as [sel|e|]; [by eexists| |by eexists].
  destruct (next_request_count e mapped rc) as [kept next] eqn:Hn.
  apply next_request_count_bound in Hn as (_ & ? & ? & ?); [|lia]. apply IH; lia.
Qed.

(** A batch that is selected: a non-empty prefix of what the earlier attempts left. *)
Lemma selection_loop_Ok fuel : forall mapped rc last sel,
  rc <= Z.of_nat (length mapped) ->
  selection_loop self candidates change_addr rate fuel mapped rc last = Some (Ok sel) ->
  exists kept rc', kept `sublist_of` mapped /\ 0 < rc' <= rc /\ rc' <= Z.of_nat (length kept)
    /\ 0 < safe_withdrawal_flow_max_inputs rc' DEFAULT_MAX_INPUTS
    /\ select_coins candidates (take (Z.to_nat rc') kept)
         (selection_params self change_addr
            (safe_withdrawal_flow_max_inputs rc' DEFAULT_MAX_INPUTS) rc') rate = Ok sel.
Proof.
  induction fuel as [|fuel IH]; intros mapped rc last sel Hrc H; [done|]. cbn [selection_loop] in H.
  destruct (Z.leb_spec rc 0); [done|].
  destruct (Z.eqb_spec (safe_withdrawal_flow_max_inputs rc DEFAULT_MAX_INPUTS) 0) as [|Hne].
  { apply IH in H as (kept & rc' & ? & ? & ? & ? & ?); [|lia].
    exists kept, rc'. split_and!; done || lia. }
  destruct (slice mapped rc ≫= _) as [sel'|e|] eqn:Hs; [|clear Hs|done].
  - injection H as ->. unfold slice in Hs. inv_ok. subst v. exists mapped, rc. split_and!; try done.
    pose proof (flow_max_inputs_nonneg rc ltac:(lia)). lia.
  - destruct (next_request_count e mapped rc) as [kept next] eqn:Hn.
    apply next_request_count_bound in Hn as (Hsub & ? & ? & ?); [|lia].
    apply IH in H as (kept' & rc' & ? & ? & ? & ? & ?); [|lia]. exists kept', rc'.
    split_and!; done || lia || by etrans.
Qed.
End loop.

(** ** Candidates *)

Section candidates.
Context `{NE : NodeEnv}.
Context (txns : WithdrawalTxns) (records : UtxoRecords) (excluded : gset OutPoint).

(** A record the leader may spend, by the naive definition. *)
Definition spendable (r : UtxoRecord) : bool :=
  bool_decide (spent_by r = None) && negb (bool_decide (mu_id (rec_utxo r) ∈ excluded))
  && match produced_by r with
     | Some p => negb (has_chain txns records (Z.to_nat MAX_ANCESTOR_DEPTH) p)
     | None => true
     end.

Lemma spendable_records_exact l : forall walked,
  walk_inv txns records ∅ walked ->
  spendable_records txns records excluded l walked = Some (List.filter spendable l).
Proof.
  induction l as [|r l IH]; intros walked Hinv; [done|]. cbn [spendable_records List.filter].
  unfold spendable at 1. destruct (bool_decide (spent_by r = None) && _); cbn [andb]; [|by apply IH].
  destruct (ancestry_depth_spec txns records r walked Hinv) as (d & walked' & -> & Hinv' & _ & Hd & _).
  cbn. rewrite (IH _ Hinv'). cbn. rewrite Z.ltb_antisym, Hd. by destruct (produced_by r).
Qed.

Lemma build_utxo_status_returns confs r :
  exists s, build_utxo_status txns confs records r = Some s.
Proof.
  unfold build_utxo_status. destruct (produced_by r) as [p|]; [|by eexists].
  destruct (build_ancestor_chain_returns txns confs records p) as [c ->]. by eexists.
Qed.
End candidates.

Lemma map_fuel_returns {E A B} (f : A -> option (outcome E B)) l :
  (forall x, exists r, f x = Some r) -> exists r, map_fuel f l = Some r.
Proof.
  intros Hf. induction l as [|x l [r IH]]; [by eexists|]. cbn.
  destruct (Hf x) as [[y|e|] ->]; cbn; [rewrite IH| |]; by eexists.
Qed.

Lemma map_fuel_Ok {E A B} (f : A -> option (outcome E B)) l ys :
  map_fuel f l = Some (Ok ys) <-> Forall2 (fun x y => f x = Some (Ok y)) l ys.
Proof.
  split.
  - revert ys. induction l as [|x l IH]; intros ys H; cbn in H; [injection H as <-; constructor|].
    destruct (f x) as [[y|e|]|] eqn:Hx; cbn in H; try done.
    destruct (map_fuel f l) as [[ys'|e|]|] eqn:Hl; cbn in H; try done.
    injection H as <-. constructor; [done|by apply IH].
  - induction 1 as [|x y l ys Hx _ IH]; [done|]. cbn. by rewrite Hx; cbn; rewrite IH.
Qed.

(** ** The checks return *)

Section returns.
Context `{NE : NodeEnv}.

Lemma build_commitment_returns snapshot self btc reqs excluded :
  exists r, build_withdrawal_tx_commitment snapshot self btc reqs excluded = Some r.
Proof.
  unfold build_withdrawal_tx_commitment. destruct (recent_fee_rate btc); [|by eexists].
  destruct (get_deposit_address snapshot None) as [change_addr|]; [|by eexists]. cbn zeta.
  rewrite spendable_records_exact by apply walk_inv_empty. cbn -[selection_loop].
  set (txns := withdrawal_txns _). set (records := utxo_records _).
  set (confs := fetch_withdrawal_tx_confirmations _ _). set (ages := if _ <? _ then _ else _).
  destruct (map_fuel_returns (utxo_candidate txns confs records ages)
    (List.filter (spendable txns records excluded) (record_values records))) as [[c|e|] ->];
    cbn -[selection_loop]; [intros r| |by eexists..].
  { unfold utxo_candidate. destruct (build_utxo_status_returns txns records confs r) as [s ->].
    by eexists. }
  match goal with |- context [selection_loop ?a ?b ?c ?d ?f ?m ?n ?l] =>
    destruct (selection_loop_returns a b c d f m n l) as [r ->] end.
  - rewrite length_fmap. lia.
  - unfold loop_fuel. lia.
  - by eexists.
Qed.

Lemma validate_commitment_returns before after estimate ap :
  exists r, validate_withdrawal_tx_commitment before after estimate ap = Some r.
Proof.
  unfold validate_withdrawal_tx_commitment, prepare_withdrawal_tx_commitment.
  destruct (check_commitment_shape ap); [|by eexists..].
  destruct (commitment_requests before (ap_request_ids ap)) as [refused reqs].
  destruct (check_inputs_spec (withdrawal_txns (onchain_state before))
              (utxo_records (onchain_state before)) (selected_utxos ap) [] ∅ [] refused)
    as (walked & Hc & _).
  { split; [apply walk_inv_empty|set_solver|by intros ? ? ? ?%elem_of_nil]. }
  unfold check_selected_inputs. rewrite Hc. cbn. by eexists.
Qed.

Lemma check_rounds_returns rounds minimum : forall reqs excluded,
  exists r, check_rounds rounds minimum reqs excluded = Some r.
Proof.
  induction rounds as [|r rounds IH]; intros reqs excluded; cbn [check_rounds]; [by eexists|].
  destruct (build_commitment_returns (ro_snapshot r) (ro_build r) (ro_btc r) reqs excluded)
    as [[ap|e|] ->]; cbn; [|by eexists..].
  destruct (validate_commitment_returns (ro_before r) (ro_after r) (ro_estimate r) ap)
    as [[u|refusal|] ->]; cbn; [by eexists| |by eexists].
  destruct (commit_gate_open (ro_gate r)); cbn; destruct refusal; try by eexists.
  destruct (leave_out refused reqs excluded minimum) as [[|q qs] ex]; [by eexists|apply IH].
Qed.

(** A round ends with a commitment only if that round's own check passed. *)
Lemma check_rounds_checked rounds minimum : forall reqs excluded ap,
  check_rounds rounds minimum reqs excluded = Some (Ok (Some ap)) ->
  exists r reqs' excluded', r ∈ rounds
    /\ build_withdrawal_tx_commitment (ro_snapshot r) (ro_build r) (ro_btc r) reqs' excluded'
       = Some (Ok ap)
    /\ validate_withdrawal_tx_commitment (ro_before r) (ro_after r) (ro_estimate r) ap
       = Some (Ok tt)
    /\ commit_gate_open (ro_gate r) = true.
Proof.
  induction rounds as [|r rounds IH]; intros reqs excluded ap H; cbn [check_rounds] in H; [done|].
  destruct (build_withdrawal_tx_commitment _ _ _ _ _) as [[ap'|e|]|] eqn:Hb; cbn in H; try done.
  2:{ by destruct (commit_gate_open (ro_gate r)). }
  destruct (validate_withdrawal_tx_commitment _ _ _ ap') as [[[]|refusal|]|] eqn:Hv; cbn in H; try done.
  - destruct (commit_gate_open (ro_gate r)) eqn:Hg; [|done]. injection H as ->.
    exists r, reqs, excluded. by split_and!; [set_solver|..].
  - assert (exists reqs' ex', check_rounds rounds minimum reqs' ex' = Some (Ok (Some ap)))
      as (reqs' & ex' & H').
    { destruct (commit_gate_open (ro_gate r)); cbn in H; destruct refusal; try done.
      destruct (leave_out refused reqs excluded minimum) as [[|q qs] ex]; [done|]. by eexists _, _. }
    apply IH in H' as (r' & a & b & Hin & ?). exists r', a, b. split; [set_solver|done].
Qed.

(** The leader's construction returns.  Whatever the in-flight transactions, the pool, the
    requests, the answers of Bitcoin and the changes of the state between the rounds, building a
    commitment and checking it return after at most four rounds, and a commitment is proposed
    only if it was built and passed the validators' check in the same round, with no unsigned
    withdrawal and the mirror caught up. *)
Theorem leader_check_returns self rounds reqs :
  (exists r, build_checked_commitment self rounds reqs = Some r)
  /\ forall ap, build_checked_commitment self rounds reqs = Some (Ok (Some ap)) ->
     exists r reqs' excluded, r ∈ take 4 rounds
       /\ build_withdrawal_tx_commitment (ro_snapshot r) (ro_build r) (ro_btc r) reqs' excluded
          = Some (Ok ap)
       /\ validate_withdrawal_tx_commitment (ro_before r) (ro_after r) (ro_estimate r) ap
          = Some (Ok tt)
       /\ commit_gate_open (ro_gate r) = true.
Proof.
  split; [apply check_rounds_returns|]. intros ap. apply check_rounds_checked.
Qed.
End returns.
