(* ===== verification/WithdrawalAgreement.v ===== *)
(** * The leader and the validators agree

    A commitment an honest leader builds passes the check of every validator that sees the same
    state: the two sides share no code for the ancestors, the fees and the weights, and each
    bound of the one has to imply the check of the other. *)

From S2P Require Import Limiter CoinSelection CoinSelectionProofs CoinSelectionTheorems CoinSelectionTotal MonitorDomain Withdrawals WithdrawalAncestry WithdrawalTheorems Retry WithdrawalBatch WithdrawalLeader Prelude.

(** ** A request is too small only if it cannot carry the worst fee *)

Section too_small.
Context `{BU : BitcoinUnits}.
Context (reqs : list WithdrawalRequest) (cap : Z).

(** What a computation returns or fails with. *)
Definition runs {A} (m : outcome CoinSelectionError A) (ok : CoinSelectionError -> Prop)
    (post : A -> Prop) : Prop :=
  match m with Ok a => post a | Err e => ok e | Panic => True end.

Lemma runs_bind {A B} (m : outcome CoinSelectionError A) (f : A -> outcome CoinSelectionError B)
    ok post post' :
  runs m ok post -> (forall a, post a -> runs (f a) ok post') -> runs (m ≫= f) ok post'.
Proof. intros Hm Hf. destruct m; cbn in *; [by apply Hf|done..]. Qed.

Definition small_excused (e : CoinSelectionError) : Prop :=
  match e with
  | RequestAmountTooSmall id _ d =>
      exists q, q ∈ reqs /\ request_id q = id /\ 0 <= d <= cap
                /\ request_amount q < wadd d (recipient_dust q)
  | _ => True
  end.

Definition keeps (b : TransactionBuilder) : Prop :=
  (forall o, o ∈ outputs b -> request o ∈ reqs) /\ max_fee_per_request (params b) = cap.

Lemma runs_any {A} (m : outcome CoinSelectionError A) :
  (forall e, m <> Err e) -> runs m small_excused (fun _ => True).
Proof. destruct m; cbn; naive_solver. Qed.

Lemma weight_runs b : runs (weight b) small_excused (fun _ => True).
Proof.
  unfold weight. eapply runs_bind with (post := fun _ => True); [|done].
  induction (inputs b) as [|u l IH]; cbn; [done|].
  eapply runs_bind with (post := fun _ => True); [apply runs_any; unfold input_weight, expect; by case_match|].
  intros w _. by eapply runs_bind.
Qed.

Lemma fee_runs r w : runs (fee_for_weight r w) small_excused (fun _ => True).
Proof. apply runs_any. unfold fee_for_weight, expect. by case_match. Qed.

Lemma deficit_runs b : runs (cpfp_deficit b) small_excused (fun _ => True).
Proof. unfold cpfp_deficit. eapply runs_bind; [apply fee_runs|done]. Qed.

Lemma check_outputs_runs d l :
  0 <= d <= cap -> (forall o, o ∈ l -> request o ∈ reqs) ->
  runs (check_outputs d l) small_excused (fun _ => True).
Proof.
  intros Hd. induction l as [|o l IH]; intros Hl; cbn; [done|].
  destruct (Z.ltb_spec (request_amount (request o)) (wadd d (dust_threshold o))) as [Hlt|].
  - exists (request o). split_and!; [apply Hl; set_solver|done|lia|lia|done].
  - apply IH. intros o' Ho'. apply Hl. set_solver.
Qed.

Lemma check_fees_runs b : keeps b -> runs (check_fees b) small_excused (fun _ => True).
Proof.
  intros [Hk Hcap]. unfold check_fees.
  destruct (Z.eqb_spec (Z.of_nat (length (outputs b))) 0); [done|].
  eapply runs_bind; [apply weight_runs|intros w _].
  eapply runs_bind; [apply fee_runs|intros tf _].
  eapply runs_bind; [apply deficit_runs|intros df _]. cbn zeta.
  destruct (Z.ltb_spec (max_fee_per_request (params b)) (div_ceil (wadd tf df) (Z.of_nat (length (outputs b)))));
    [done|]. apply check_outputs_runs; [|done].
  split; [|lia]. apply div_ceil_nonneg; [apply wrap64_range|lia].
Qed.

Lemma raw_change_runs b : keeps b -> runs (compute_raw_change b) small_excused keeps.
Proof. intros Hk. unfold compute_raw_change, assert. by destruct (_ <=? _). Qed.

Lemma limits_runs b : runs (exceeds_any_weight_limit b) small_excused (fun _ => True).
Proof.
  unfold exceeds_any_weight_limit, exceeds_max_weight, exceeds_max_ancestor_package_weight.
  eapply runs_bind with (post := fun _ => True); [by eapply runs_bind; [apply weight_runs|]|].
  intros [] _; [done|]. by eapply runs_bind; [apply weight_runs|].
Qed.

Lemma consolidate_runs l : forall b, keeps b -> runs (consolidate b l) small_excused keeps.
Proof.
  induction l as [|u l IH]; intros b Hk; cbn [consolidate]; [done|]. destruct (_ <=? _); [done|].
  eapply runs_bind; [by apply raw_change_runs|intros pushed Hp].
  eapply runs_bind with (post := fun _ => True); [apply runs_any; by destruct (check_fees pushed)|].
  intros ok _. eapply runs_bind with (post := fun _ => True);
    [destruct ok; [apply limits_runs|done]|].
  intros [] _; [by apply raw_change_runs|by apply IH].
Qed.

Lemma finalize_runs b : keeps b -> runs (finalize_fees b) small_excused (fun _ => True).
Proof.
  intros Hk. unfold finalize_fees.
  eapply runs_bind with (post := fun _ => True); [apply runs_any; unfold expect; by case_match|].
  intros raw _. cbn zeta. destruct (_ && _); [done|].
  eapply runs_bind; [by apply check_fees_runs|intros _ _].
  assert (forall b', runs (required_fee b') small_excused (fun _ => True)) as Hreq.
  { intros b'. unfold required_fee. eapply runs_bind; [apply weight_runs|intros w _].
    eapply runs_bind; [apply fee_runs|intros f _]. by eapply runs_bind; [apply deficit_runs|]. }
  eapply runs_bind; [apply Hreq|intros req _].
  eapply runs_bind with (post := fun _ => True); [apply runs_any; unfold assert; by case_match|].
  intros _ _. cbn zeta. eapply runs_bind; [apply Hreq|intros req' _].
  eapply runs_bind with (post := fun _ => True); [apply runs_any; unfold assert; by case_match|done].
Qed.
End too_small.

Lemma select_coins_too_small `{BU : BitcoinUnits} utxos reqs p rate id a d :
  select_coins utxos reqs p rate = Err (RequestAmountTooSmall id a d) ->
  exists q, q ∈ reqs /\ request_id q = id /\ 0 <= d <= max_fee_per_request p
            /\ request_amount q < wadd d (recipient_dust q).
Proof.
  intros H. enough (runs (select_coins utxos reqs p rate)
    (small_excused reqs (max_fee_per_request p)) (fun _ => True)) as Hr by by rewrite H in Hr.
  clear H. unfold select_coins. destruct utxos as [|u0 us]; [done|]. destruct reqs as [|r0 rs]; [done|].
  destruct (_ =? 0); [done|]. cbn zeta.
  assert (forall ins, keeps (r0 :: rs) (max_fee_per_request p)
    (with_inputs (initial_builder (r0 :: rs) p rate) ins)) as Hk.
  { intros ins. split; [|done]. cbn. intros o Ho. apply list_elem_of_fmap in Ho as (q & -> & Hq).
    eapply elem_of_sort_by, elem_of_sublist;
      [exact Hq|apply sublist_take]. }
  eapply runs_bind with (post := fun _ => True).
  { apply runs_any. rewrite filter_outcome_cases by (intros; apply eligible_never_errs).
    by case_match. }
  intros pool _. destruct (fund _ _ _ _ _) as [chosen funded]. destruct (_ <? _); [done|].
  eapply runs_bind; [by apply raw_change_runs|intros b1 Hb1].
  eapply runs_bind; [by apply check_fees_runs|intros _ _].
  eapply runs_bind with (post := fun _ => True).
  { unfold check_weight. eapply runs_bind; [apply weight_runs|intros w _].
    by repeat case_match. }
  intros _ _. eapply runs_bind with (post := keeps (r0 :: rs) (max_fee_per_request p)).
  { destruct (_ && _); [by apply consolidate_runs|done]. }
  intros b2 Hb2. eapply runs_bind; [by apply raw_change_runs|intros b3 Hb3].
  eapply runs_bind; [by apply finalize_runs|]. by intros [].
Qed.

#[local] Arguments build_ancestor_chain : simpl never.
#[local] Arguments selection_loop : simpl never.

(** ** The state the two sides share *)

Section agreement.
Context `{NE : NodeEnv} `{BL : !BitcoinUnitsLaws} `{NL : !NodeEnvLaws}.

(** What the chain guarantees of a mirrored state, and the configuration of a node that follows
    Bitcoin's relay floor. *)
Record shared_state (self : Hashi) : Prop := {
  ss_fits : state_fits (onchain_state self);
  ss_record_keys : forall id r, utxo_records (onchain_state self) !! id = Some r ->
    mu_id (rec_utxo r) = id;
  ss_request_keys : forall id r, requests (onchain_state self) !! id = Some r -> wr_id r = id;
  (** the chain accepts no other addresses and no request below its minimum, which has not
      been raised since *)
  ss_requests : forall id r, requests (onchain_state self) !! id = Some r ->
    (length (wr_bitcoin_address r) = 20%nat \/ length (wr_bitcoin_address r) = 32%nat)
    /\ bitcoin_withdrawal_minimum (onchain_state self) <= btc_amount r;
  ss_provenance : provenance (withdrawal_txns (onchain_state self)) (utxo_records (onchain_state self));
  ss_txns : forall w t, withdrawal_txns (onchain_state self) !! w = Some t -> txn_sizes t;
  ss_minimum : bitcoin_withdrawal_minimum (onchain_state self) <= 2 ^ 62;
  (** the bridge's own address is pay-to-taproot *)
  ss_taproot : forall a, get_deposit_address self None = Some a ->
    exists program, script_pubkey a = 81 :: 32 :: program /\ length program = 32%nat;
  ss_floor : from_sat_per_vb_unchecked 1 <= withdrawal_min_fee_rate (config self)
             /\ 250 <= from_sat_per_vb_unchecked 1;
}.

Section candidates.
Context (st : OnchainState) (confs : gmap Address Z) (ages : gmap OutPoint Z)
        (excluded : gset OutPoint).
#[local] Abbreviation txns := (withdrawal_txns st).
#[local] Abbreviation records := (utxo_records st).

(** A candidate stands for a record, and its chain for the record's in-flight ancestors. *)
Record stands_for (r : UtxoRecord) (c : UtxoCandidate) : Prop := {
  sf_id : utxo_id c = utxo_id_of (mu_id (rec_utxo r));
  sf_amount : amount c = mu_amount (rec_utxo r);
  sf_path : spend_path c = TaprootScriptPath2of2;
  sf_nodup : NoDup (anc_id <$> chain_of c);
  sf_chain : forall w, w ∈ (anc_id <$> chain_of c) <->
    w ∈ dom txns /\ exists p, produced_by r = Some p /\ rtc (edge txns records) p w;
  sf_costs : Forall (fun a => anc_id a ∈ dom txns /\ tx_weight a = weight_of txns (anc_id a)
                              /\ tx_fee a = fee_of txns (anc_id a)
                              /\ confirmations a = default 0 (confs !! anc_id a)) (chain_of c);
}.

Lemma candidate_stands_for r c :
  provenance txns records -> (forall w t, txns !! w = Some t -> txn_sizes t) ->
  spendable txns records excluded r = true ->
  utxo_candidate txns confs records ages r = Some (Ok c) -> stands_for r c.
Proof.
  intros Hprov Hsz Hsp H. unfold utxo_candidate, build_utxo_status in H.
  unfold spendable in Hsp. apply andb_true_iff in Hsp as [_ Hlim].
  destruct (produced_by r) as [p|] eqn:Hp; cbn in H.
  2:{ injection H as <-. split; cbn; try done; [constructor|].
      intros w. rewrite elem_of_nil. naive_solver. }
  apply negb_true_iff in Hlim.
  destruct (build_ancestor_chain txns confs records p) as [[chain|e|]|] eqn:Hc; cbn in H; try done.
  injection H as <-.
  destruct (build_ancestor_chain_exact _ _ _ p chain Hprov Hlim Hc) as (Hnd & Hids & Hcosts).
  assert (chain_of (mkUtxoCandidate (utxo_id_of (mu_id (rec_utxo r))) (mu_amount (rec_utxo r))
    (ages !! mu_id (rec_utxo r)) TaprootScriptPath2of2
    match chain with [] => Confirmed | _ => Pending chain end) = chain) as Hch by by destruct chain.
  split; rewrite ?Hch; try done.
  - intros w. rewrite Hids. split; intros [? Hx]; (split; [done|]).
    + by exists p.
    + destruct Hx as (q & Hq & ?). simplify_eq. done.
  - eapply Forall_impl; [exact Hcosts|]. intros a (txn & Ht & Ha).
    destruct (ancestor_tx_cost confs (anc_id a) txn a (Hsz _ _ Ht) Ha) as (Hcost & Hconf & _).
    unfold weight_of, fee_of. rewrite Ht, <- Hcost. split_and!; [by eapply elem_of_dom_2|done..].
Qed.

Lemma record_values_perm : record_values records ≡ₚ (map_to_list records).*2.
Proof. unfold record_values. by rewrite sort_by_perm. Qed.

Lemma elem_of_record_values r : r ∈ record_values records <-> exists id, records !! id = Some r.
Proof.
  rewrite record_values_perm, list_elem_of_fmap. split.
  - intros ([id r'] & -> & H%elem_of_map_to_list). by exists id.
  - intros [id H]. exists (id, r). by rewrite elem_of_map_to_list.
Qed.

Context (Hst : state_fits st).
Context (Hkeys : forall id r, records !! id = Some r -> mu_id (rec_utxo r) = id).

Definition outpoint_of (c : UtxoCandidate) : OutPoint := (txid (utxo_id c), vout (utxo_id c)).

Lemma stands_for_outpoint r c : stands_for r c -> outpoint_of c = mu_id (rec_utxo r).
Proof. intros H. unfold outpoint_of. rewrite (sf_id _ _ H). by destruct (mu_id (rec_utxo r)). Qed.

Context {spend : list UtxoRecord} {cands : list UtxoCandidate}.
Context (Hspend : spend = List.filter (spendable txns records excluded) (record_values records)).
Context (Hall : Forall2 stands_for spend cands).

Lemma spend_known r : r ∈ spend -> records !! mu_id (rec_utxo r) = Some r.
Proof.
  rewrite Hspend, elem_of_bool_filter. intros [[id Hid]%elem_of_record_values _].
  by rewrite (Hkeys _ _ Hid).
Qed.

Lemma spend_submseteq : spend ⊆+ (map_to_list records).*2.
Proof. rewrite Hspend, <- record_values_perm. apply sublist_submseteq, filter_sublist. Qed.

Lemma candidate_of c : c ∈ cands -> exists r, r ∈ spend /\ stands_for r c.
Proof.
  intros (i & Hi)%list_elem_of_lookup. destruct (Forall2_lookup_r _ _ _ _ _ Hall Hi) as (r & Hr & ?).
  exists r. split; [by eapply list_elem_of_lookup_2|done].
Qed.

Lemma candidates_amounts : amount <$> cands = (fun r => mu_amount (rec_utxo r)) <$> spend.
Proof.
  clear -Hall. induction Hall as [|r c ? ? H Hl IH]; [done|].
  by rewrite !fmap_cons, (IH Hl), (sf_amount _ _ H).
Qed.

Lemma candidates_amounts_fit :
  Forall (fun c => 0 <= amount c) cands /\ zsum (amount <$> cands) <= u64_max.
Proof.
  assert (Forall (fun x => 0 <= x) (amount <$> cands)) as Hn.
  { rewrite candidates_amounts, Forall_fmap.
    eapply Forall_submseteq; [apply (sf_amounts _ Hst)|apply spend_submseteq]. }
  split; [by rewrite Forall_fmap in Hn|]. rewrite candidates_amounts.
  etrans; [|exact (sf_total _ Hst)]. apply zsum_submseteq; [apply Forall_fmap, Hst|].
  apply fmap_submseteq', spend_submseteq.
Qed.

Lemma candidates_distinct : NoDup (outpoint_of <$> cands) /\ NoDup (utxo_id <$> cands).
Proof.
  assert (outpoint_of <$> cands = (fun r => mu_id (rec_utxo r)) <$> spend) as E.
  { clear -Hall. induction Hall as [|r c ? ? H Hl IH]; [done|].
    by rewrite !fmap_cons, (IH Hl), (stands_for_outpoint _ _ H). }
  assert (NoDup (outpoint_of <$> cands)) as Hnd.
  { rewrite E. eapply NoDup_submseteq_l;
      [|apply (fmap_submseteq' (fun r => mu_id (rec_utxo r))), spend_submseteq].
    rewrite <- list_fmap_compose. erewrite list_fmap_ext; [apply NoDup_fst_map_to_list|].
    intros i [id r] Hi. cbn. apply Hkeys. apply elem_of_map_to_list.
    by eapply list_elem_of_lookup_2. }
  split; [done|]. apply (NoDup_fmap_1 (fun u => (txid u, vout u))). by rewrite <- list_fmap_compose.
Qed.

(** ** The ancestors both sides count *)

Lemma chains_elem ins a : a ∈ chains ins <-> exists c, c ∈ ins /\ a ∈ chain_of c.
Proof.
  unfold chains. rewrite list_elem_of_In, in_concat. split.
  - intros (l & Hl & Ha). apply list_elem_of_In, list_elem_of_fmap in Hl as (c & -> & Hc).
    exists c. split; [done|by apply list_elem_of_In].
  - intros (c & Hc & Ha). exists (chain_of c). rewrite <- !list_elem_of_In. split; [|done].
    apply list_elem_of_fmap. by exists c.
Qed.

Lemma chain_bound c :
  c ∈ cands ->
  Forall (fun a => 0 <= tx_weight a /\ 0 <= tx_fee a) (chain_of c)
  /\ zsum (tx_weight <$> chain_of c) <= zsum (txn_weight <$> (map_to_list txns).*2)
  /\ zsum (tx_fee <$> chain_of c) <= zsum (txn_fee <$> (map_to_list txns).*2).
Proof.
  intros (r & _ & H)%candidate_of.
  destruct (txns_bound st (anc_id <$> chain_of c) Hst (sf_nodup _ _ H)) as (Hpos & Hw & Hf).
  { by intros w [? _]%(sf_chain _ _ H). }
  assert (tx_weight <$> chain_of c = weight_of txns <$> (anc_id <$> chain_of c)
          /\ tx_fee <$> chain_of c = fee_of txns <$> (anc_id <$> chain_of c)) as [-> ->].
  { rewrite <- !list_fmap_compose. split; apply Forall_fmap_ext;
      (eapply Forall_impl; [apply (sf_costs _ _ H)|by intros a (_ & ? & ? & _)]). }
  split_and!; [|done|done]. pose proof (sf_costs _ _ H) as Hc.
  rewrite Forall_forall in Hc. rewrite Forall_forall in Hpos. apply Forall_forall.
  intros a Ha. destruct (Hc a Ha) as (_ & -> & -> & _). apply Hpos. apply list_elem_of_fmap.
  by exists a.
Qed.

Lemma chains_cons c l : chains (c :: l) = chain_of c ++ chains l.
Proof. done. Qed.

Lemma chains_bound l :
  (forall c, c ∈ l -> c ∈ cands) ->
  Forall (fun a => 0 <= tx_weight a /\ 0 <= tx_fee a) (chains l)
  /\ zsum (tx_weight <$> chains l)
     <= Z.of_nat (length l) * zsum (txn_weight <$> (map_to_list txns).*2)
  /\ zsum (tx_fee <$> chains l)
     <= Z.of_nat (length l) * zsum (txn_fee <$> (map_to_list txns).*2).
Proof.
  induction l as [|c l IH]; intros Hl; [by split_and!|].
  destruct (chain_bound c) as (? & ? & ?); [apply Hl; set_solver|].
  destruct IH as (? & ? & ?); [intros; apply Hl; set_solver|].
  rewrite chains_cons, !fmap_app, !zsum_app. cbn [length].
  split_and!; [by apply Forall_app|lia|lia].
Qed.

Context (Hconfs : forall w, default 0 (confs !! w) = 0).

(** The mempool ancestors of the inputs are the in-flight ancestors of their outpoints. *)
Lemma mempool_in_flight ins w :
  (forall c, c ∈ ins -> c ∈ cands) ->
  w ∈ (anc_id <$> mempool_ancestors ins)
  <-> in_flight_ancestor txns records (outpoint_of <$> ins) w.
Proof.
  intros Hins. destruct (dedup_spec [] (chains ins)) as (_ & Hmem & Hcov). split.
  - intros (a & -> & Ha)%list_elem_of_fmap.
    pose proof (elem_of_sublist _ _ _ Ha (dedup_sublist [] (chains ins))) as Hc.
    apply chains_elem in Hc as (c & Hc & Hac). destruct (candidate_of c (Hins c Hc)) as (r & Hr & H).
    assert (anc_id a ∈ (anc_id <$> chain_of c)) as (Hd & p & Hp & Hreach)%(sf_chain _ _ H)
      by (apply list_elem_of_fmap; by exists a).
    split; [done|]. exists (outpoint_of c), r, p. rewrite (stands_for_outpoint _ _ H).
    split_and!; [|by apply spend_known| |done|done].
    + apply list_elem_of_fmap. exists c. by rewrite (stands_for_outpoint _ _ H).
    + rewrite Hspend in Hr. apply elem_of_bool_filter in Hr as [_ Hs]. unfold spendable in Hs.
      apply andb_true_iff in Hs as [[Hs _]%andb_true_iff _]. by apply bool_decide_eq_true in Hs.
  - intros (Hd & id & r & p & Hid & Hr & Hs & Hp & Hreach).
    apply list_elem_of_fmap in Hid as (c & -> & Hc).
    destruct (candidate_of c (Hins c Hc)) as (r' & Hr' & H).
    rewrite (stands_for_outpoint _ _ H), (spend_known _ Hr') in Hr. injection Hr as <-.
    assert (w ∈ (anc_id <$> chain_of c)) as (a & -> & Ha)%list_elem_of_fmap.
    { apply (sf_chain _ _ H). split; [done|by exists p]. }
    destruct (Hcov a) as [?%elem_of_nil|?]; [|..|done|done].
    + apply chains_elem. by exists c.
    + pose proof (sf_costs _ _ H) as Hcs. rewrite Forall_forall in Hcs.
      destruct (Hcs a Ha) as (_ & _ & _ & ->). apply Hconfs.
Qed.

(** Whatever order the validators count them in, the sums agree. *)
Lemma ancestors_agree ins anc :
  (forall c, c ∈ ins -> c ∈ cands) -> NoDup anc ->
  (forall w, w ∈ anc <-> in_flight_ancestor txns records (outpoint_of <$> ins) w) ->
  zsum (weight_of txns <$> anc) = zsum (tx_weight <$> mempool_ancestors ins)
  /\ zsum (fee_of txns <$> anc) = zsum (tx_fee <$> mempool_ancestors ins).
Proof.
  intros Hins Hnd Hanc.
  assert (anc ≡ₚ anc_id <$> mempool_ancestors ins) as Hperm.
  { apply NoDup_Permutation; [done|apply dedup_spec|]. intros w. rewrite Hanc.
    symmetry. by apply mempool_in_flight. }
  rewrite (zsum_perm _ _ (fmap_Permutation (weight_of txns) _ _ Hperm)).
  rewrite (zsum_perm _ _ (fmap_Permutation (fee_of txns) _ _ Hperm)).
  rewrite <- !list_fmap_compose.
  assert (Forall (fun a => tx_weight a = weight_of txns (anc_id a)
                           /\ tx_fee a = fee_of txns (anc_id a)) (mempool_ancestors ins)) as Hc.
  { apply Forall_forall. intros a Ha.
    pose proof (elem_of_sublist _ _ _ Ha (dedup_sublist [] (chains ins))) as Hac.
    apply chains_elem in Hac as (c & Hc & Hac). destruct (candidate_of c (Hins c Hc)) as (r & _ & H).
    pose proof (sf_costs _ _ H) as Hcs. rewrite Forall_forall in Hcs.
    by destruct (Hcs a Hac) as (_ & ? & ? & _). }
  split; f_equal; apply Forall_fmap_ext; (eapply Forall_impl; [exact Hc|by intros a [? ?]]).
Qed.
End candidates.

(** ** The leader's side *)

Section leader.
Context {self : Hashi} (Hss : shared_state self).
#[local] Abbreviation st := (onchain_state self).

(** A request that can carry the worst fee is never dropped. *)
Lemma never_too_small cands batch a m n rate id x d :
  (forall q, q ∈ batch -> bitcoin_withdrawal_minimum st <= request_amount q) ->
  select_coins cands batch (selection_params self a m n) rate <> Err (RequestAmountTooSmall id x d).
Proof.
  intros Hmin (q & Hq & _ & Hd & Hlt)%select_coins_too_small. apply Hmin in Hq. revert Hlt Hd.
  cbn [selection_params max_fee_per_request]. unfold worst_case_network_fee.
  pose proof (ss_minimum _ Hss). intros Hlt Hd.
  assert (recipient_dust q <= 330 /\ 0 <= recipient_dust q).
  { unfold recipient_dust, dust_threshold, WPKH_DUST_RELAY_MIN_VALUE, TR_DUST_RELAY_MIN_VALUE.
    case_match; lia. }
  unfold DUST_RELAY_MIN_VALUE in *.
  rewrite wadd_small in Hlt by (unfold is_u64, u64_max; lia). lia.
Qed.

Lemma selection_loop_whole cands a rate fuel mapped : forall rc last sel,
  (forall q, q ∈ mapped -> bitcoin_withdrawal_minimum st <= request_amount q) ->
  selection_loop self cands a rate fuel mapped rc last = Some (Ok sel) ->
  exists rc', 0 < rc' <= rc /\ rc' <= Z.of_nat (length mapped)
    /\ 0 < safe_withdrawal_flow_max_inputs rc' DEFAULT_MAX_INPUTS
    /\ select_coins cands (take (Z.to_nat rc') mapped)
         (selection_params self a (safe_withdrawal_flow_max_inputs rc' DEFAULT_MAX_INPUTS) rc') rate
       = Ok sel.
Proof.
  induction fuel as [|fuel IH]; intros rc last sel Hmin H; [done|].
  unfold selection_loop in H; fold (@selection_loop BU NE) in H.
  destruct (Z.leb_spec rc 0); [done|].
  pose proof (flow_max_inputs_nonneg rc ltac:(lia)).
  destruct (Z.eqb_spec (safe_withdrawal_flow_max_inputs rc DEFAULT_MAX_INPUTS) 0).
  { apply IH in H as (rc' & ? & ? & ? & ?); [|done]. exists rc'. split_and!; done || lia. }
  destruct (slice mapped rc ≫= _) as [sel'|e|] eqn:Hs; [|..|done].
  - injection H as ->. unfold slice, assert in Hs.
    destruct (Z.leb_spec rc (Z.of_nat (length mapped))); cbn in Hs; [|done].
    exists rc. split_and!; done || lia.
  - assert (next_request_count e mapped rc = (mapped, rc - 1)) as Hn.
    { unfold slice, assert in Hs. destruct (_ <=? _); cbn in Hs; [|done].
      destruct e as [| | | | | | |id x d]; try done. exfalso.
      eapply never_too_small; [|exact Hs]. intros q Hq. apply Hmin.
      by eapply elem_of_sublist; [|apply sublist_take]. }
    rewrite Hn in H. apply IH in H as (rc' & ? & ? & ? & ?); [|done].
    exists rc'. split_and!; done || lia.
Qed.

(** *** The batch *)

Lemma minimum_bound (s : OnchainState) : 547 <= bitcoin_withdrawal_minimum s.
Proof. unfold bitcoin_withdrawal_minimum, DUST_RELAY_MIN_VALUE. case_match; lia. Qed.

Lemma capacity_prefix_spec capacity l : forall cumulative batch at_capacity,
  Forall (fun r => 0 <= btc_amount r) l ->
  capacity_prefix capacity l cumulative = (batch, at_capacity) ->
  batch `prefix_of` l
  /\ (batch <> [] -> cumulative + zsum (btc_amount <$> batch) <= Z.min capacity u64_max).
Proof.
  induction l as [|r l IH]; intros cum batch b Hl H; cbn in H.
  { injection H as <- <-. split; [apply prefix_nil|done]. }
  apply Forall_cons in Hl as [Hr Hl].
  destruct (Z.ltb_spec u64_max (cum + btc_amount r)); [injection H as <- <-; split; [apply prefix_nil|done]|].
  destruct (Z.ltb_spec capacity (cum + btc_amount r)); [injection H as <- <-; split; [apply prefix_nil|done]|].
  destruct (capacity_prefix capacity l (cum + btc_amount r)) as [batch' b'] eqn:Hc.
  injection H as <- <-. destruct (IH _ _ _ Hl Hc) as [Hpre Hsum].
  split; [by apply prefix_cons|]. intros _. rewrite fmap_cons, zsum_cons.
  destruct batch' as [|q qs]; [cbn; lia|]. specialize (Hsum ltac:(done)). lia.
Qed.

(** What the leader's pass over the queue hands on. *)
Record batch_facts (batch : list MoveWithdrawalRequest) (now : Z) : Prop := {
  bf_nonempty : batch <> [];
  bf_known : forall q, q ∈ batch -> requests st !! wr_id q = Some q /\ awaits_commitment q = true;
  bf_distinct : NoDup (wr_id <$> batch);
  bf_signed : has_unsigned_txn st = false;
  bf_caught_up : caught_up_with_scrape st = true;
  bf_limiter : exists view, local_limiter self = Some view
    /\ zsum (btc_amount <$> batch) <= Z.min (view_capacity_at view (now / 1000)) u64_max
    /\ forall q oldest, head batch = Some q ->
         oldest_at_minimum (map_to_list (requests st)).*2 (max_bucket_capacity (lv_config view))
           (bitcoin_withdrawal_minimum st) = Some oldest -> wr_id oldest = wr_id q;
}.

Lemma requests_elem r : r ∈ (map_to_list (requests st)).*2 <-> requests st !! wr_id r = Some r.
Proof.
  rewrite list_elem_of_fmap. split.
  - intros ([id r'] & -> & H%elem_of_map_to_list). cbn. by rewrite (ss_request_keys _ Hss _ _ H).
  - intros H. exists (wr_id r, r). by rewrite elem_of_map_to_list.
Qed.

Lemma promote_all minimum l :
  Forall (fun r => minimum <= btc_amount r) l -> promote_first_at_minimum l minimum = l.
Proof.
  unfold promote_first_at_minimum. destruct l as [|r l]; [done|]. intros [Hr _]%Forall_cons.
  cbn [position]. rewrite (proj2 (Z.leb_le _ _)) by done. cbn. by rewrite drop_0.
Qed.

Lemma commit_order_cmp_id a b : commit_order_cmp a b = Eq -> wr_id a = wr_id b.
Proof.
  unfold commit_order_cmp, then_with. destruct (option_cmp _ _); try done.
  destruct (created_timestamp_ms a ?= created_timestamp_ms b); try done. apply Z.compare_eq.
Qed.

(** The first request in the order of commitment is the oldest that can be served. *)
Lemma order_head_oldest bucket l q qs oldest :
  let elig := List.filter (fun r => eligible_for_commitment r bucket)
                (List.filter awaits_commitment (map_to_list (requests st)).*2) in
  q :: qs `prefix_of` sort_by (leb_of commit_order_cmp) elig ->
  l = (map_to_list (requests st)).*2 ->
  oldest_at_minimum l bucket (bitcoin_withdrawal_minimum st) = Some oldest ->
  wr_id oldest = wr_id q.
Proof.
  intros elig [k Hk] -> Hold. apply (min_by_spec commit_order_good) in Hold as [Hin Hmin].
  pose proof (sort_by_sorted (leb_of commit_order_cmp) (leb_of_total commit_order_good)
    (leb_of_trans commit_order_good) elig) as Hs. rewrite Hk in Hs. cbn in Hs.
  apply StronglySorted_inv in Hs as [_ Hs]. rewrite Forall_forall in Hs.
  assert (forall r, r ∈ elig <-> r = q \/ r ∈ qs ++ k) as Hel.
  { intros r. rewrite <- (elem_of_sort_by (leb_of commit_order_cmp)), Hk. cbn. apply elem_of_cons. }
  assert (commit_order_cmp q oldest <> Gt) as H1.
  { apply elem_of_bool_filter in Hin as [Hr [He _]%andb_true_iff].
    assert (oldest ∈ elig) as [->|Ho]%Hel; [|by rewrite (gc_refl commit_order_good)|by apply leb_of_spec, Hs].
    apply elem_of_bool_filter. split; [|done]. apply elem_of_bool_filter. split; [done|].
    unfold eligible_for_commitment in He. by apply andb_true_iff in He as [[? _]%andb_true_iff _]. }
  assert (commit_order_cmp oldest q <> Gt) as H2.
  { rewrite Forall_forall in Hmin. apply Hmin, elem_of_bool_filter.
    assert (q ∈ elig) as [[Hr _]%elem_of_bool_filter He]%elem_of_bool_filter by (apply Hel; by left).
    split; [done|]. apply andb_true_iff. split; [done|]. apply Z.leb_le.
    apply requests_elem in Hr. by apply (ss_requests _ Hss) in Hr as [_ ?]. }
  symmetry. apply commit_order_cmp_id. rewrite (gc_sym _ commit_order_good q oldest) in H2.
  by destruct (commit_order_cmp q oldest).
Qed.

Lemma requests_distinct (f g : MoveWithdrawalRequest -> bool) :
  NoDup (wr_id <$> List.filter f (List.filter g (map_to_list (requests st)).*2)).
Proof.
  eapply NoDup_submseteq_l; [|apply fmap_submseteq', sublist_submseteq; etrans; apply filter_sublist].
  rewrite <- list_fmap_compose. erewrite list_fmap_ext; [apply NoDup_fst_map_to_list|].
  intros i [id r] Hi. cbn. apply (ss_request_keys _ Hss). apply elem_of_map_to_list.
  by eapply list_elem_of_lookup_2.
Qed.

Lemma process_batch reconfiguring ld height now ld' batch :
  process_approved_withdrawal_requests self reconfiguring ld height now = (ld', Some batch) ->
  batch_facts batch now.
Proof.
  unfold process_approved_withdrawal_requests. intros H.
  destruct reconfiguring; [done|]. destruct (withdrawal_commitment_task ld); [done|].
  destruct (has_unsigned_txn st) eqn:Hus; [done|].
  destruct (caught_up_with_scrape st) eqn:Hcu; cbn [negb] in H; [|done].
  destruct (turn_has_room height); cbn [negb] in H; [|done]. cbn zeta in H.
  destruct (global_should_skip _ _); [done|].
  set (approved := List.filter awaits_commitment (map_to_list (requests st)).*2) in *.
  destruct approved as [|a0 as0] eqn:Happ; [done|]. rewrite <- Happ in H.
  destruct (local_limiter self) as [view|] eqn:Hlim; [|done].
  set (bucket := max_bucket_capacity (lv_config view)) in *.
  set (order := withdrawal_commit_order approved bucket (bitcoin_withdrawal_minimum st)) in *.
  destruct (capacity_prefix _ order 0) as [b0 at_cap] eqn:Hcp.
  destruct b0 as [|q0 qs0]; [done|]. case_match; [done|]. injection H as _ <-.
  set (elig := List.filter (fun r => eligible_for_commitment r bucket) approved).
  assert (forall r, r ∈ elig -> requests st !! wr_id r = Some r /\ awaits_commitment r = true) as Hel.
  { intros r [Hr _]%elem_of_bool_filter. unfold approved in Hr.
    apply elem_of_bool_filter in Hr as [Hr%requests_elem Ha]. done. }
  assert (order = sort_by (leb_of commit_order_cmp) elig) as Hord.
  { apply promote_all. rewrite sort_by_perm. apply Forall_forall. intros r [Hr _]%Hel.
    by apply (ss_requests _ Hss) in Hr as [_ ?]. }
  assert (Forall (fun r => 0 <= btc_amount r) order) as Hpos.
  { rewrite Hord, sort_by_perm. apply Forall_forall. intros r [Hr _]%Hel.
    apply (ss_requests _ Hss) in Hr as [_ Hm]. pose proof (minimum_bound st). lia. }
  destruct (capacity_prefix_spec _ _ _ _ _ Hpos Hcp) as [Hpre Hsum].
  split; try done.
  - intros q Hq. apply Hel. rewrite <- (elem_of_sort_by (leb_of commit_order_cmp)), <- Hord.
    by eapply prefix_submseteq in Hpre; eapply elem_of_submseteq.
  - eapply NoDup_submseteq_l; [|apply fmap_submseteq', prefix_submseteq, Hpre].
    rewrite Hord, sort_by_perm. apply requests_distinct.
  - exists view. split_and!; [done|by specialize (Hsum ltac:(done)); rewrite Z.add_0_l in Hsum|].
    intros q oldest [= <-] Hold. rewrite Hord in Hpre.
    by apply (order_head_oldest bucket _ q0 qs0 oldest Hpre eq_refl).
Qed.
End leader.
End agreement.
