(* ===== verification/WithdrawalAccepted.v ===== *)
(** * An honest commitment is accepted

    The bounds the leader's selection guarantees, read as the validators' checks, one check at a
    time; then the theorem. *)

From S2P Require Import Limiter CoinSelection CoinSelectionProofs CoinSelectionTheorems CoinSelectionTotal MonitorDomain Withdrawals WithdrawalAncestry WithdrawalTheorems WithdrawalBatch WithdrawalLeader WithdrawalAgreement Retry Prelude.

#[local] Arguments build_ancestor_chain : simpl never.
#[local] Arguments selection_loop : simpl never.

(** ** The checks that pass *)

Section passes.
Context `{NE : NodeEnv}.

Lemma commitment_requests_all self qs :
  (forall q, q ∈ qs -> requests (onchain_state self) !! wr_id q = Some q /\ awaits_commitment q = true) ->
  commitment_requests self (wr_id <$> qs) = ([], qs).
Proof.
  induction qs as [|q qs IH]; intros H; [done|]. rewrite fmap_cons. cbn [commitment_requests].
  rewrite IH by (intros; apply H; set_solver).
  destruct (H q ltac:(set_solver)) as [Hq Ha]. unfold commitment_request. rewrite Hq.
  apply andb_true_iff in Ha as [-> ->%negb_true_iff]. done.
Qed.

Lemma check_payouts_pass f outs : forall qs i,
  Forall2 (fun q o => ou_amount o = btc_amount q - f /\ DUST_RELAY_MIN_VALUE <= ou_amount o
                      /\ bitcoin_address o = wr_bitcoin_address q) qs (take (length qs) (drop i outs)) ->
  check_payouts f outs i qs [] = Ok [].
Proof.
  induction qs as [|q qs IH]; intros i H; [done|]. cbn [check_payouts length] in *.
  destruct (drop i outs) as [|o os] eqn:Hd; cbn [take] in H; [by inversion H|].
  inversion H as [|? ? ? ? (Ha & Hdust & Had) Hall]; subst.
  assert (outs !! i = Some o) as Ho.
  { rewrite <- (Nat.add_0_r i), <- lookup_drop, Hd. done. }
  assert (drop (S i) outs = os) as Hd'.
  { rewrite <- Nat.add_1_r, <- drop_drop, Hd. done. }
  rewrite Ho. cbn [expect mbind outcome_bind].
  replace (sat_sub (btc_amount q) f) with (ou_amount o)
    by (unfold sat_sub, DUST_RELAY_MIN_VALUE in *; lia).
  unfold below_withdrawal_dust. rewrite (proj2 (Z.ltb_ge _ _)) by done.
  rewrite Z.eqb_refl. cbn. rewrite bool_decide_true by done. cbn. apply IH. by rewrite Hd'.
Qed.

Lemma check_change_pass a outs : forall j,
  Forall (fun o => bitcoin_address o = a /\ TR_DUST_RELAY_MIN_VALUE <= ou_amount o) outs ->
  check_change a j outs = Ok tt.
Proof.
  induction outs as [|o outs IH]; intros j H; [done|]. apply Forall_cons in H as [[Ha Hd] H].
  cbn. rewrite bool_decide_true by done. cbn. rewrite (proj2 (Z.leb_le _ _)) by done. cbn.
  by apply IH.
Qed.

Lemma check_shape_pass ap w :
  ap_request_ids ap <> [] -> selected_utxos ap <> [] -> ap_outputs ap <> [] ->
  NoDup (ap_request_ids ap) -> NoDup (selected_utxos ap) ->
  Z.of_nat (length (ap_request_ids ap)) <= MAX_WITHDRAWAL_REQUESTS ->
  Z.of_nat (length (selected_utxos ap))
    <= safe_withdrawal_flow_max_inputs (Z.of_nat (length (ap_request_ids ap))) DEFAULT_MAX_INPUTS ->
  estimated_withdrawal_tx_weight (Z.of_nat (length (selected_utxos ap))) (ap_outputs ap) = Some w ->
  w <= DEFAULT_MAX_TX_WEIGHT ->
  Z.of_nat (length (ap_outputs ap)) - Z.of_nat (length (ap_request_ids ap))
    <= WITHDRAWAL_MAX_CHANGE_OUTPUTS ->
  check_commitment_shape ap = Ok tt.
Proof.
  intros H1 H2 H3 H4 H5 H6 H7 Hw H8 H9. unfold check_commitment_shape, validate_commitment_shape.
  destruct (ap_request_ids ap) as [|i ids] eqn:Ei; [done|]. destruct (selected_utxos ap) as [|u us] eqn:Eu; [done|].
  destruct (ap_outputs ap) as [|o os] eqn:Eo; [done|]. cbn [nonempty guard mbind outcome_bind].
  rewrite (proj2 (Z.leb_le _ _) H6). cbn [guard mbind outcome_bind].
  rewrite (proj2 (Z.leb_le _ _) H7). cbn [guard mbind outcome_bind].
  rewrite Hw, (proj2 (Z.leb_le _ _) H8). cbn [guard mbind outcome_bind].
  rewrite (proj2 (Z.leb_le _ _)) by (unfold sat_sub, WITHDRAWAL_MAX_CHANGE_OUTPUTS in *; lia).
  cbn [guard mbind outcome_bind].
  by rewrite (proj2 (all_distinct_spec _) H4), (proj2 (all_distinct_spec _) H5).
Qed.
End passes.

(** ** What the leader built *)

Lemma Forall2_filter_l {A B} (P : A -> B -> Prop) (f : A -> bool) l k :
  Forall2 P (List.filter f l) k -> Forall2 (fun x y => f x = true /\ P x y) (List.filter f l) k.
Proof.
  intros H. assert (Forall (fun x => f x = true) (List.filter f l)) as Hf.
  { apply Forall_forall. by intros x [_ ?]%elem_of_bool_filter. }
  induction H; [constructor|]. apply Forall_cons in Hf as [? ?]. constructor; [done|auto].
Qed.

Section built.
Context `{NE : NodeEnv} `{BL : !BitcoinUnitsLaws} `{NL : !NodeEnvLaws}.

Lemma get_taproot self a :
  shared_state self -> get_deposit_address self None = Some a ->
  script_pubkey_len a = 34
  /\ exists program, witness_program_from_address a = Some program /\ length program = 32%nat.
Proof.
  intros Hss Ha. destruct (ss_taproot _ Hss a Ha) as (program & Hs & Hl).
  rewrite <- script_pubkey_length. unfold witness_program_from_address. rewrite Hs. cbn [length].
  rewrite Hl. split; [done|]. exists program. cbn. by rewrite Hl.
Qed.

(** The stages of a commitment that was built. *)
Record built (self : Hashi) (btc : BtcAnswers) (batch : list MoveWithdrawalRequest)
    (excluded : gset OutPoint) (ap : WithdrawalTxCommitment) (rate : Z) (a : BitcoinAddress)
    (cands : list UtxoCandidate) (rc : Z) (sel : CoinSelectionResult) (utxos : list MoveUtxo)
    : Prop := {
  bt_rate : exists estimate, recent_fee_rate btc = Some estimate
              /\ rate = withdrawal_fee_rate (config self) estimate;
  bt_address : get_deposit_address self None = Some a;
  bt_candidates : Forall2 (stands_for (onchain_state self)
      (fetch_withdrawal_tx_confirmations (status_of btc) (withdrawal_txns (onchain_state self))))
    (List.filter (spendable (withdrawal_txns (onchain_state self)) (utxo_records (onchain_state self))
       excluded) (record_values (utxo_records (onchain_state self)))) cands;
  bt_count : 0 < rc <= MAX_WITHDRAWAL_REQUESTS /\ rc <= Z.of_nat (length batch);
  bt_selection : select_coins cands (take (Z.to_nat rc) (mapped_request <$> batch))
      (selection_params self a (safe_withdrawal_flow_max_inputs rc DEFAULT_MAX_INPUTS) rc) rate
      = Ok sel;
  bt_outputs : commitment_outputs a sel = Ok (ap_outputs ap);
  bt_inputs : resolve_inputs self (res_inputs sel) = Ok utxos;
  bt_txid : exists tx, unsigned_withdrawal_tx utxos (ap_outputs ap) = Some tx
                       /\ ap_txid ap = compute_txid tx;
  bt_requests : ap_request_ids ap = request_id <$> selected_requests sel;
  bt_selected : selected_utxos ap = outpoint_of <$> res_inputs sel;
}.

Lemma build_built self btc batch excluded ap :
  shared_state self ->
  (forall q, q ∈ batch -> bitcoin_withdrawal_minimum (onchain_state self) <= btc_amount q) ->
  build_withdrawal_tx_commitment self self btc batch excluded = Some (Ok ap) ->
  exists rate a cands rc sel utxos, built self btc batch excluded ap rate a cands rc sel utxos.
Proof.
  intros Hss Hmin H. unfold build_withdrawal_tx_commitment in H.
  destruct (recent_fee_rate btc) as [estimate|] eqn:Hest; [|done].
  destruct (get_deposit_address self None) as [a|] eqn:Ha; [|done]. cbn zeta in H.
  rewrite spendable_records_exact in H by apply walk_inv_empty. cbn [mbind option_bind] in H.
  set (rate := withdrawal_fee_rate (config self) estimate) in *.
  destruct (map_fuel _ _) as [[cands|e|]|] eqn:Hc; cbn [mbind option_bind] in H; try done.
  destruct (selection_loop _ _ _ _ _ _ _ _) as [[sel|e|]|] eqn:Hsel; cbn in H; try done.
  assert (forall q, q ∈ (mapped_request <$> batch) ->
            bitcoin_withdrawal_minimum (onchain_state self) <= request_amount q) as Hmin'.
  { intros q (r & -> & Hr)%list_elem_of_fmap. by apply Hmin. }
  apply (selection_loop_whole Hss) in Hsel as (rc & Hrc & Hrcl & _ & Hsel); [|done].
  rewrite length_fmap in Hrcl. injection H as H. inv_ok.
  exists rate, a, cands, rc, sel, v0. unfold build_unsigned_withdrawal_tx in *. inv_ok. subst ap.
  split; cbn [ap_outputs ap_request_ids selected_utxos ap_txid]; try done.
  - by exists estimate.
  - apply map_fuel_Ok in Hc.
    eapply Forall2_impl; [exact (Forall2_filter_l _ _ _ _ Hc)|]. intros r c [Hr Hrc'].
    eapply candidate_stands_for; [apply (ss_provenance _ Hss)|apply (ss_txns _ Hss)|done|done].
  - unfold withdrawal_batch_request_cap, MAX_WITHDRAWAL_REQUESTS, CONSOLIDATION_MODE_MAX_REQUESTS in Hrc.
    case_match; unfold MAX_WITHDRAWAL_REQUESTS; lia.
  - by exists v1.
Qed.
End built.

(** ** From the selection to the checks *)

(** A fee that overpays by less than a satoshi per request is within three times the estimate. *)
Lemma fee_tolerance R Rv w aw af N fee f1 f2 :
  250 <= R <= Rv -> 0 <= N -> 474 + 124 * N <= w -> 0 <= aw -> 0 <= af -> fee <= u64_max ->
  1000 * fee < R * w + Z.max 0 (R * aw - 1000 * af + 1000) + 1000 + 1000 * N ->
  Rv * w <= 1000 * f1 -> Rv * aw <= 1000 * f2 ->
  fee <= sat_mul (sat_add f1 (sat_sub f2 af)) 3.
Proof.
  intros HR HN Hw Haw Haf Hu Hfee H1 H2. unfold sat_mul, sat_add, sat_sub, u64_max in *.
  assert (R * w <= Rv * w /\ R * aw <= Rv * aw) as [? ?] by nia.
  assert (250 * (474 + 124 * N) <= R * w) by (apply Z.mul_le_mono_nonneg; lia). lia.
Qed.

(** Room in a u64 for the fee of everything at once: the pool, the batch, and for each UTXO all
    the in-flight transactions. *)
Definition weight_room `{NE : NodeEnv} (st : OnchainState) (n : nat) : Z :=
  500 + 432 * Z.of_nat (size (utxo_records st)) + 172 * Z.of_nat n
  + Z.of_nat (size (utxo_records st)) * zsum (txn_weight <$> (map_to_list (withdrawal_txns st)).*2).
Record fee_room `{NE : NodeEnv} (st : OnchainState) (rate : Z) (n : nat) : Prop := {
  fr_weight : rate * weight_room st n + 2000 <= u64_max;
  fr_fee : Z.of_nat (size (utxo_records st)) * zsum (txn_fee <$> (map_to_list (withdrawal_txns st)).*2)
           <= u64_max;
}.

Section of_built.
Context `{NE : NodeEnv} `{BL : !BitcoinUnitsLaws} `{NL : !NodeEnvLaws}.
Context {self : Hashi} {btc : BtcAnswers} {batch : list MoveWithdrawalRequest}
        {excluded : gset OutPoint} {ap : WithdrawalTxCommitment} {rate : Z} {a : BitcoinAddress}
        {cands : list UtxoCandidate} {rc : Z} {sel : CoinSelectionResult} {utxos : list MoveUtxo}
        {now : Z}.
#[local] Abbreviation st := (onchain_state self).
#[local] Abbreviation txns := (withdrawal_txns st).
#[local] Abbreviation records := (utxo_records st).
#[local] Abbreviation chosen := (take (Z.to_nat rc) (mapped_request <$> batch)).
#[local] Abbreviation params_of :=
  (selection_params self a (safe_withdrawal_flow_max_inputs rc DEFAULT_MAX_INPUTS) rc).
#[local] Abbreviation confs := (fetch_withdrawal_tx_confirmations (status_of btc) txns).

Hypothesis Hss : shared_state self.
Hypothesis Hbf : batch_facts (self:=self) batch now.
Hypothesis Hb : built self btc batch excluded ap rate a cands rc sel utxos.
(** Bitcoin has confirmed no transaction the chain still has in flight. *)
Hypothesis Hunconfirmed : forall w t n,
  txns !! w = Some t -> status_of btc (wt_txid t) <> Some (StatusConfirmed n).
Hypothesis Hroom : fee_room st rate (length batch).

#[local] Abbreviation Hcands := (bt_candidates _ _ _ _ _ _ _ _ _ _ _ Hb).
#[local] Abbreviation Hsel := (bt_selection _ _ _ _ _ _ _ _ _ _ _ Hb).

Lemma pool_positive :
  0 <= zsum (txn_weight <$> (map_to_list txns).*2) /\ 0 <= zsum (txn_fee <$> (map_to_list txns).*2).
Proof.
  pose proof (sf_txns _ (ss_fits _ Hss)) as H.
  split; apply zsum_nonneg, Forall_fmap; (eapply Forall_impl; [exact H|by intros ? []]).
Qed.

Lemma weight_room_nonneg n : 0 <= weight_room st n.
Proof.
  destruct pool_positive as [H _]. unfold weight_room.
  pose proof (Z.mul_nonneg_nonneg (Z.of_nat (size records)) _ ltac:(lia) H). lia.
Qed.

Lemma confs_zero w : default 0 (confs !! w) = 0.
Proof.
  unfold fetch_withdrawal_tx_confirmations. rewrite lookup_fmap.
  destruct (txns !! w) as [t|] eqn:Ht; [|done]. cbn.
  destruct (status_of btc (wt_txid t)) as [[n| |]|] eqn:Hs; [|done..]. by destruct (Hunconfirmed w t n).
Qed.

Lemma batch_amounts : Forall (fun q => bitcoin_withdrawal_minimum st <= btc_amount q) batch.
Proof.
  apply Forall_forall. intros q [Hq _]%(bf_known _ _ Hbf). by apply (ss_requests _ Hss) in Hq as [_ ?].
Qed.

Lemma chosen_eq : chosen = mapped_request <$> take (Z.to_nat rc) batch.
Proof. by rewrite fmap_take. Qed.

Lemma chosen_total :
  zsum (request_amount <$> chosen) = zsum (btc_amount <$> take (Z.to_nat rc) batch)
  /\ zsum (btc_amount <$> take (Z.to_nat rc) batch) <= zsum (btc_amount <$> batch).
Proof.
  rewrite chosen_eq, <- list_fmap_compose. split; [done|].
  apply zsum_submseteq; [|apply fmap_submseteq', sublist_submseteq, sublist_take].
  apply Forall_fmap. eapply Forall_impl; [exact batch_amounts|]. cbn. intros q Hq.
  pose proof (minimum_bound st). lia.
Qed.

Lemma built_amounts_fit : amounts_fit cands chosen params_of.
Proof.
  destruct (candidates_amounts_fit st confs excluded (ss_fits _ Hss) eq_refl Hcands)
    as [Hn Ht].
  destruct (bf_limiter _ _ Hbf) as (view & _ & Hcap & _). destruct chosen_total as [Hc Hle].
  split; [done|done| |lia|].
  - rewrite chosen_eq, Forall_fmap. apply Forall_take. eapply Forall_impl; [exact batch_amounts|].
    cbn. intros q Hq. pose proof (minimum_bound st). lia.
  - cbn [selection_params max_fee_per_request]. unfold worst_case_network_fee.
    pose proof (ss_minimum _ Hss).
    unfold DUST_RELAY_MIN_VALUE, TR_DUST_RELAY_MIN_VALUE, u64_max. lia.
Qed.

Lemma candidates_count : (length cands <= size records)%nat.
Proof.
  rewrite <- (Forall2_length _ _ _ Hcands).
  etrans; [apply List.filter_length_le|]. rewrite (record_values_perm st), length_fmap.
  by rewrite length_map_to_list.
Qed.

Lemma zsum_const {A} (f : A -> Z) (c : Z) (l : list A) :
  Forall (fun x => f x = c) l -> zsum (f <$> l) = c * Z.of_nat (length l).
Proof. induction 1 as [|x l Hx _ IH]; [cbn; lia|]. rewrite fmap_cons, zsum_cons. cbn [length]. lia. Qed.

Lemma cands_path : Forall (fun c => spend_path c = TaprootScriptPath2of2) cands.
Proof.
  apply Forall_forall. intros c Hc.
  destruct (candidate_of st confs Hcands c Hc)
    as (r & _ & Hr). apply (sf_path _ _ _ _ Hr).
Qed.

Lemma change_len_34 : change_len params_of = 34.
Proof.
  unfold change_len. cbn [selection_params change_address].
  by destruct (get_taproot self a Hss (bt_address _ _ _ _ _ _ _ _ _ _ _ Hb)) as [-> _].
Qed.

Lemma input_weights (l : list UtxoCandidate) :
  (forall c, c ∈ l -> c ∈ cands) ->
  zsum (input_weight_exact <$> l) = 432 * Z.of_nat (length l).
Proof.
  intros Hl. apply zsum_const, Forall_forall. intros c Hc%Hl. unfold input_weight_exact.
  pose proof cands_path as Hp. rewrite Forall_forall in Hp. by rewrite (Hp c Hc).
Qed.

Lemma output_weights_bound (l : list WithdrawalRequest) :
  124 * Z.of_nat (length l) <= zsum (output_weight_exact <$> l) <= 172 * Z.of_nat (length l).
Proof.
  induction l as [|q l IH]; [cbn; lia|]. rewrite fmap_cons, zsum_cons. cbn [length].
  pose proof (output_weight_exact_bounds q). lia.
Qed.

Lemma rate_floor : 250 <= rate /\ withdrawal_min_fee_rate (config self) <= rate.
Proof.
  destruct (bt_rate _ _ _ _ _ _ _ _ _ _ _ Hb) as (est & _ & ->). unfold withdrawal_fee_rate.
  pose proof (ss_floor _ Hss). lia.
Qed.

Lemma built_weights_fit :
  weights_fit cands chosen (change_len params_of)
  /\ weight_budget cands chosen (change_len params_of) <= weight_room st (length batch).
Proof.
  rewrite change_len_34. pose proof rate_floor as [Hrate _].
  destruct (chains_bound st confs excluded (ss_fits _ Hss) (ss_record_keys _ Hss) eq_refl Hcands cands)
    as (Hpos & Hw & _); [done|].
  pose proof candidates_count as Hcount.
  pose proof (zsum_nonneg (txn_weight <$> (map_to_list txns).*2)) as H0.
  rewrite Forall_fmap in H0. specialize (H0 ltac:(eapply Forall_impl; [apply (sf_txns _ (ss_fits _ Hss))|by intros ? []])).
  assert (weight_budget cands chosen 34 <= weight_room st (length batch)) as Hle.
  { unfold weight_budget, weight_room. rewrite input_weights by done.
    pose proof (output_weights_bound chosen). rewrite length_take, length_fmap in *. nia. }
  split; [|done]. split; [| |done|].
  - eapply Forall_impl; [apply cands_path|]. by intros c ->.
  - eapply Forall_impl; [exact Hpos|]. by intros ? [].
  - destruct Hroom as [Hr _]. unfold weight_room in *. nia.
Qed.

Lemma count_nonneg : 0 <= max_withdrawal_requests params_of /\ 0 <= max_inputs params_of.
Proof.
  destruct (bt_count _ _ _ _ _ _ _ _ _ _ _ Hb). cbn. split; [lia|]. apply flow_max_inputs_nonneg. lia.
Qed.

(** *** The requests *)

Lemma sel_requests :
  exists qs, qs ≡ₚ take (Z.to_nat rc) batch /\ selected_requests sel = mapped_request <$> qs
             /\ Z.of_nat (length qs) = rc.
Proof.
  destruct (oldest_requests_first _ _ _ _ _ built_amounts_fit (proj1 count_nonneg) Hsel)
    as (rest & Hperm & Hlen & _). destruct (bt_count _ _ _ _ _ _ _ _ _ _ _ Hb) as [Hrc Hle].
  assert (rest = []) as ->.
  { apply Permutation_length in Hperm. rewrite length_app in Hperm. cbn in Hlen.
    rewrite length_take, length_fmap in *. destruct rest; [done|]. cbn in Hperm. lia. }
  rewrite app_nil_r, chosen_eq in Hperm. symmetry in Hperm.
  apply Permutation_map_inv in Hperm as (qs & Hqs & Hp%symmetry).
  exists qs. split_and!; [done|done|].
  apply Permutation_length in Hp. rewrite length_take in Hp. lia.
Qed.

(** *** The inputs *)

Lemma sel_inputs :
  (forall c, c ∈ res_inputs sel -> c ∈ cands) /\ NoDup (outpoint_of <$> res_inputs sel)
  /\ Z.of_nat (length (res_inputs sel)) <= safe_withdrawal_flow_max_inputs rc DEFAULT_MAX_INPUTS.
Proof.
  destruct (selection_inputs _ _ _ _ _ built_amounts_fit (proj1 count_nonneg) (proj2 count_nonneg) Hsel)
    as (Hsub & _ & Hmax & _).
  destruct (candidates_distinct st confs excluded (ss_record_keys _ Hss) eq_refl Hcands) as [Hnd _].
  split_and!; [|by eapply NoDup_submseteq_l; [|apply fmap_submseteq', Hsub]|done].
  intros c Hc. by eapply elem_of_submseteq.
Qed.

(** A candidate is a record the validators let pass. *)
Lemma cand_passes c :
  c ∈ cands ->
  exists r, records !! outpoint_of c = Some r /\ spent_by r = None
            /\ amount c = mu_amount (rec_utxo r) /\ input_refusal txns records (outpoint_of c) = None.
Proof.
  intros Hc. destruct (candidate_of st confs Hcands c Hc) as (r & Hr & Hsf).
  pose proof (spend_known st excluded (ss_record_keys _ Hss) eq_refl r Hr) as Hk.
  rewrite <- (stands_for_outpoint st confs r c Hsf) in Hk.
  apply elem_of_bool_filter in Hr as [_ Hs]. unfold spendable in Hs.
  apply andb_true_iff in Hs as [[Hs1%bool_decide_eq_true _]%andb_true_iff Hs2].
  exists r. split_and!; [done|done|apply (sf_amount _ _ _ _ Hsf)|].
  unfold input_refusal. rewrite Hk, Hs1. destruct (produced_by r); [|done].
  by apply negb_true_iff in Hs2 as ->.
Qed.

Lemma inputs_pass l us :
  (forall c, c ∈ l -> c ∈ cands) ->
  mapM (fun c => active_utxo st (txid (utxo_id c), vout (utxo_id c))) l = Some us ->
  refused_inputs txns records (outpoint_of <$> l) = []
  /\ passed_inputs txns records (outpoint_of <$> l) = us
  /\ mu_amount <$> us = amount <$> l.
Proof.
  revert us. induction l as [|c l IH]; intros us Hl Hm; cbn in Hm; [by injection Hm as <-|].
  destruct (active_utxo st _) as [u|] eqn:Hu; [|done]. cbn in Hm.
  destruct (mapM _ l) as [us'|] eqn:Hm'; [|done]. injection Hm as <-.
  destruct (IH us') as (Hr & Hp & Ha); [set_solver|done|].
  destruct (cand_passes c) as (r & Hk & Hs & Hamt & Href); [set_solver|].
  unfold refused_inputs, passed_inputs in *. cbn [fmap list_fmap omap list_omap].
  rewrite Href. cbn. rewrite Hk. cbn.
  fold (outpoint_of c) in Hu. unfold active_utxo in Hu. rewrite Hk, Hs in Hu. injection Hu as <-.
  unfold fmap in *. rewrite Hr, Hp, Hamt, Ha. done.
Qed.

Lemma utxos_pass :
  refused_inputs txns records (selected_utxos ap) = []
  /\ passed_inputs txns records (selected_utxos ap) = utxos
  /\ mu_amount <$> utxos = amount <$> res_inputs sel.
Proof.
  rewrite (bt_selected _ _ _ _ _ _ _ _ _ _ _ Hb). pose proof (bt_inputs _ _ _ _ _ _ _ _ _ _ _ Hb) as H.
  unfold resolve_inputs in H. destruct (mapM _ _) as [us|] eqn:Hm; [|done]. injection H as ->.
  apply inputs_pass; [apply sel_inputs|done].
Qed.

(** *** The outputs *)

(** The outputs: a payout for each request, in the order of their ids, and at most one change
    output. *)
Record paid (qs : list MoveWithdrawalRequest) (d : Z) (payouts changes : list OutputUtxo) : Prop := {
  pd_chosen : qs ≡ₚ take (Z.to_nat rc) batch;
  pd_count : Z.of_nat (length qs) = rc;
  pd_ids : ap_request_ids ap = wr_id <$> qs;
  pd_outputs : ap_outputs ap = payouts ++ changes;
  pd_payouts : Forall2 (fun q o => ou_amount o = btc_amount q - d
                                   /\ DUST_RELAY_MIN_VALUE <= ou_amount o
                                   /\ bitcoin_address o = wr_bitcoin_address q) qs payouts;
  pd_changes : (length changes <= 1)%nat
    /\ Forall (fun o => witness_program_from_address a = Some (bitcoin_address o)
                        /\ length (bitcoin_address o) = 32%nat
                        /\ TR_DUST_RELAY_MIN_VALUE <= ou_amount o) changes;
  pd_share : 0 <= d <= worst_case_network_fee st /\ fee sel = rc * d;
  pd_change : zsum (ou_amount <$> changes) = default 0 (change sel)
              /\ bool_decide (is_Some (change sel)) = nonempty changes;
  pd_selected : selected_requests sel = mapped_request <$> qs;
}.

Lemma chosen_known q :
  q ∈ take (Z.to_nat rc) batch ->
  requests st !! wr_id q = Some q /\ awaits_commitment q = true
  /\ bitcoin_withdrawal_minimum st <= btc_amount q
  /\ (length (wr_bitcoin_address q) = 20%nat \/ length (wr_bitcoin_address q) = 32%nat).
Proof.
  intros Hq. assert (q ∈ batch) as [Hk Ha]%(bf_known _ _ Hbf)
    by by eapply elem_of_sublist; [|apply sublist_take].
  by destruct (ss_requests _ Hss _ _ Hk).
Qed.

Lemma sel_paid : exists qs d payouts changes, paid qs d payouts changes.
Proof.
  destruct sel_requests as (qs & Hp & Hsr & Hlen).
  destruct (fee_split_fair _ _ _ _ _ built_amounts_fit (proj1 count_nonneg) Hsel)
    as (d & Hd & Hfee & Hout & Hch). cbn [selection_params max_fee_per_request change_address] in *.
  destruct (get_taproot self a Hss (bt_address _ _ _ _ _ _ _ _ _ _ _ Hb)) as [H34 (prog & Hprog & Hpl)].
  pose proof (bt_outputs _ _ _ _ _ _ _ _ _ _ _ Hb) as Ho. unfold commitment_outputs in Ho.
  rewrite Hprog in Ho.
  set (payouts := (fun o => mkOutputUtxo (out_amount o) (out_recipient o)) <$> withdrawal_outputs sel) in *.
  exists qs, d, payouts, (match change sel with Some c => [mkOutputUtxo c prog] | None => [] end).
  split; [done|done| | | | | | |done].
  - rewrite (bt_requests _ _ _ _ _ _ _ _ _ _ _ Hb), Hsr, <- list_fmap_compose. done.
  - destruct (change sel); injection Ho as <-; [done|]. by rewrite app_nil_r.
  - rewrite Hsr in Hout. apply Forall2_fmap_r. apply Forall2_fmap_l in Hout.
    assert (Forall (fun q => bitcoin_withdrawal_minimum st <= btc_amount q) qs) as Hmin.
    { rewrite Hp. apply Forall_take, batch_amounts. }
    clear -Hout Hmin Hd. induction Hout as [|q o qs outs (_ & Hr & Ha & _) _ IH]; [constructor|].
    apply Forall_cons in Hmin as [Hq Hmin]. constructor; [|by apply IH].
    cbn in *. unfold worst_case_network_fee in Hd. split_and!; [done|lia|done].
  - destruct (change sel) as [c|]; [|split; [cbn; lia|constructor]]. split; [done|].
    destruct (Hch c eq_refl) as [_ Hc]. rewrite H34 in Hc. cbn in Hc. by repeat constructor.
  - split; [done|]. rewrite Hfee, Hsr, length_fmap. by rewrite Hlen.
  - destruct (change sel); cbn; [|done]. by rewrite Z.add_0_r.
Qed.

Section of_paid.
Context {qs : list MoveWithdrawalRequest} {d : Z} {payouts changes : list OutputUtxo}.
Hypothesis Hpd : paid qs d payouts changes.

Lemma paid_known q :
  q ∈ qs ->
  requests st !! wr_id q = Some q /\ awaits_commitment q = true
  /\ bitcoin_withdrawal_minimum st <= btc_amount q
  /\ (length (wr_bitcoin_address q) = 20%nat \/ length (wr_bitcoin_address q) = 32%nat).
Proof. rewrite (pd_chosen _ _ _ _ Hpd). apply chosen_known. Qed.

Lemma paid_payouts_weight :
  Forall supported payouts
  /\ zsum (script_weight <$> payouts) = zsum (output_weight_exact <$> selected_requests sel)
  /\ zsum (ou_amount <$> payouts) = zsum (btc_amount <$> qs) - rc * d.
Proof.
  rewrite (pd_selected _ _ _ _ Hpd), <- (pd_count _ _ _ _ Hpd).
  pose proof (pd_payouts _ _ _ _ Hpd) as Hp.
  assert (Forall (fun q => length (wr_bitcoin_address q) = 20%nat
                           \/ length (wr_bitcoin_address q) = 32%nat) qs) as Hk.
  { apply Forall_forall. by intros q (_ & _ & _ & ?)%paid_known. }
  clear Hpd. induction Hp as [|q o qs' outs (Ha & _ & Had) _ IH]; [by split_and!; cbn; lia || constructor|].
  apply Forall_cons in Hk as [Hl Hk]. destruct (IH Hk) as (H1 & H2 & H3).
  assert (supported o) by (unfold supported; by rewrite Had).
  rewrite !fmap_cons, !zsum_cons, H2, H3. cbn [length]. split_and!; [by constructor| |lia].
  unfold output_weight_exact, script_weight, TXOUT_BASE_WEIGHT. cbn [mapped_request recipient].
  rewrite Had. destruct Hl as [->| ->]; cbn; lia.
Qed.

Lemma paid_weight :
  Forall supported (ap_outputs ap)
  /\ weight_exact (Z.of_nat (length (selected_utxos ap))) (ap_outputs ap) = result_weight params_of sel.
Proof.
  destruct paid_payouts_weight as (Hsup & Hsw & _). destruct (pd_changes _ _ _ _ Hpd) as [Hl Hch].
  rewrite (pd_outputs _ _ _ _ Hpd). split.
  - apply Forall_app. split; [done|]. eapply Forall_impl; [exact Hch|]. intros o (_ & ? & _). by right.
  - unfold weight_exact, result_weight, tx_weight_exact.
    rewrite (bt_selected _ _ _ _ _ _ _ _ _ _ _ Hb), length_fmap, change_len_34, fmap_app, zsum_app, Hsw.
    rewrite (input_weights _ (proj1 sel_inputs)), (proj2 (pd_change _ _ _ _ Hpd)), length_app.
    rewrite <- (Forall2_length _ _ _ (pd_payouts _ _ _ _ Hpd)), (pd_selected _ _ _ _ Hpd), length_fmap.
    destruct changes as [|o [|? ?]]; cbn [nonempty length fmap list_fmap] in *; [| |lia].
    + rewrite Nat.add_0_r, !Z.add_0_r. cbn. lia.
    + rewrite Nat2Z.inj_add. apply Forall_cons in Hch as [(_ & Ho & _) _].
      assert (script_weight o = 172) as E by (unfold script_weight; by rewrite Ho).
      rewrite zsum_cons, E. change (Z.of_nat 1) with 1. change (zsum []) with 0. lia.
Qed.

Lemma paid_value :
  zsum (mu_amount <$> utxos) = zsum (ou_amount <$> ap_outputs ap) + fee sel
  /\ zsum (mu_amount <$> utxos) = zsum (btc_amount <$> qs) + zsum (ou_amount <$> changes)
  /\ zsum (mu_amount <$> utxos) <= u64_max.
Proof.
  destruct utxos_pass as (_ & _ & ->).
  destruct (selection_value _ _ _ _ _ built_amounts_fit (proj1 count_nonneg) Hsel) as [_ H2].
  destruct paid_payouts_weight as (_ & _ & Hp). destruct (pd_share _ _ _ _ Hpd) as [_ Hf].
  rewrite (pd_outputs _ _ _ _ Hpd), fmap_app, zsum_app, Hp, (proj1 (pd_change _ _ _ _ Hpd)), Hf.
  rewrite (pd_selected _ _ _ _ Hpd), <- list_fmap_compose in H2.
  change (request_amount ∘ mapped_request) with btc_amount in H2.
  split_and!; [lia|lia|].
  - destruct built_amounts_fit as [Hn Ht _ _ _]. etrans; [|exact Ht].
    apply zsum_submseteq; [by apply Forall_fmap|]. apply fmap_submseteq'.
    apply (selection_inputs _ _ _ _ _ built_amounts_fit (proj1 count_nonneg) (proj2 count_nonneg) Hsel).
Qed.

(** *** The fee *)

#[local] Abbreviation own := (result_weight params_of sel).
#[local] Abbreviation anc_weight := (zsum (tx_weight <$> mempool_ancestors (res_inputs sel))).
#[local] Abbreviation anc_fee := (zsum (tx_fee <$> mempool_ancestors (res_inputs sel))).

Lemma ancestors_room :
  0 <= anc_weight <= Z.of_nat (size records) * zsum (txn_weight <$> (map_to_list txns).*2)
  /\ 0 <= anc_fee <= u64_max.
Proof.
  destruct (chains_bound st confs excluded (ss_fits _ Hss) (ss_record_keys _ Hss) eq_refl Hcands
    (res_inputs sel) (proj1 sel_inputs)) as (Hpos & Hw & Hf).
  pose proof (dedup_sublist [] (chains (res_inputs sel))) as Hsub%sublist_submseteq.
  fold (mempool_ancestors (res_inputs sel)) in Hsub.
  assert (length (res_inputs sel) <= size records)%nat as Hlen.
  { etrans; [|exact candidates_count]. apply submseteq_length.
    apply (selection_inputs _ _ _ _ _ built_amounts_fit (proj1 count_nonneg) (proj2 count_nonneg) Hsel). }
  pose proof (Forall_submseteq _ _ _ Hpos Hsub) as Hpos'.
  assert (forall f : AncestorTx -> Z, Forall (fun x => 0 <= f x) (chains (res_inputs sel)) ->
    0 <= zsum (f <$> mempool_ancestors (res_inputs sel)) <= zsum (f <$> chains (res_inputs sel))) as Hz.
  { intros f Hf0. split.
    - apply zsum_nonneg, Forall_fmap. by eapply Forall_submseteq.
    - apply zsum_submseteq; [by apply Forall_fmap|by apply fmap_submseteq']. }
  destruct (Hz tx_weight) as [? ?]; [by eapply Forall_impl; [exact Hpos|]; intros ? []|].
  destruct (Hz tx_fee) as [? ?]; [by eapply Forall_impl; [exact Hpos|]; intros ? []|].
  destruct pool_positive. destruct Hroom as [_ Hr]. split; nia.
Qed.

Lemma paid_total_pos : 0 < zsum (btc_amount <$> qs).
Proof.
  assert (Forall (fun q => 0 < btc_amount q) qs) as Hq.
  { apply Forall_forall. intros x (_ & _ & ? & _)%paid_known. pose proof (minimum_bound st). lia. }
  assert (qs <> []) as Hne.
  { intros E. pose proof (pd_count _ _ _ _ Hpd) as Hc. rewrite E in Hc. cbn in Hc.
    destruct (bt_count _ _ _ _ _ _ _ _ _ _ _ Hb). lia. }
  destruct Hq as [|q l Hq Hl]; [done|]. rewrite fmap_cons, zsum_cons.
  assert (0 <= zsum (btc_amount <$> l)); [|lia].
  apply zsum_nonneg, Forall_fmap. eapply Forall_impl; [exact Hl|]. cbn. lia.
Qed.

Lemma outputs_positive : Forall (fun o => 0 <= ou_amount o) (ap_outputs ap).
Proof.
  rewrite (pd_outputs _ _ _ _ Hpd). apply Forall_app. split.
  - eapply Forall_impl; [apply (Forall2_Forall_r _ (fun o => DUST_RELAY_MIN_VALUE <= ou_amount o) _ _ (pd_payouts _ _ _ _ Hpd))|].
    + apply Forall_forall. by intros q _ o (_ & ? & _).
    + unfold DUST_RELAY_MIN_VALUE. cbn. lia.
  - eapply Forall_impl; [apply (pd_changes _ _ _ _ Hpd)|]. intros o (_ & _ & ?).
    unfold TR_DUST_RELAY_MIN_VALUE in *. cbn. lia.
Qed.

Lemma inputs_nonempty : (1 <= length (res_inputs sel))%nat.
Proof.
  destruct (res_inputs sel) as [|c l] eqn:E; [|cbn; lia]. exfalso.
  destruct paid_value as (_ & Hv & _). destruct utxos_pass as (_ & _ & Ha). rewrite E in Ha.
  rewrite Ha in Hv. cbn in Hv.
  assert (0 <= zsum (ou_amount <$> changes)).
  { apply zsum_nonneg, Forall_fmap. destruct (pd_changes _ _ _ _ Hpd) as [_ Hch].
    eapply Forall_impl; [exact Hch|]. intros o (_ & _ & ?). unfold TR_DUST_RELAY_MIN_VALUE in *. cbn. lia. }
  pose proof paid_total_pos. lia.
Qed.

Lemma own_room :
  474 + 124 * rc <= own <= 500 + 432 * Z.of_nat (size records) + 172 * Z.of_nat (length batch).
Proof.
  destruct paid_weight as [Hsup <-]. pose proof sel_inputs as (Hin & _ & _).
  rewrite (bt_selected _ _ _ _ _ _ _ _ _ _ _ Hb), length_fmap.
  pose proof (weight_exact_bounds (Z.of_nat (length (res_inputs sel))) (ap_outputs ap) ltac:(lia) Hsup) as H.
  rewrite (pd_outputs _ _ _ _ Hpd), length_app in *.
  rewrite <- (Forall2_length _ _ _ (pd_payouts _ _ _ _ Hpd)) in H.
  pose proof (pd_count _ _ _ _ Hpd). destruct (pd_changes _ _ _ _ Hpd) as [Hc _].
  destruct (bt_count _ _ _ _ _ _ _ _ _ _ _ Hb).
  assert (length (res_inputs sel) <= size records)%nat.
  { etrans; [|exact candidates_count]. apply submseteq_length.
    apply (selection_inputs _ _ _ _ _ built_amounts_fit (proj1 count_nonneg) (proj2 count_nonneg) Hsel). }
  pose proof inputs_nonempty. lia.
Qed.

(** The fee is above the floor, and within the tolerance of a validator whose rate is no
    lower. *)
Lemma paid_fee r_v min_rate :
  rate <= r_v -> fee_room st r_v (length batch) -> 0 <= min_rate <= rate ->
  default 0 (fee_wu min_rate own) <= fee sel
  /\ fee sel <= sat_mul (sat_add (default 0 (fee_wu r_v own))
                          (sat_sub (default 0 (fee_wu r_v anc_weight)) anc_fee)) 3.
Proof.
  intros Hrv [Hrw _] Hmin. destruct built_weights_fit as [Hwf Hwb]. pose proof rate_floor as [H250 _].
  pose proof ancestors_room as [Haw Haf]. pose proof own_room as Hown.
  destruct (chains_bound st confs excluded (ss_fits _ Hss) (ss_record_keys _ Hss) eq_refl Hcands
    cands) as (Hpos & _ & Hf); [done|]. pose proof candidates_count as Hcount.
  assert (Z.max rate (min_fee_rate params_of) = rate) as HR.
  { cbn [selection_params min_fee_rate]. pose proof rate_floor. lia. }
  destruct pool_positive as [Hp1 Hp2].
  pose proof (selection_fee cands chosen params_of rate sel built_amounts_fit
    (proj1 count_nonneg) Hwf) as Hfee.
  cbn zeta in Hfee. rewrite HR in Hfee.
  destruct Hfee as (Hlow & _ & Hhigh); [lia| | |destruct Hroom; nia|exact Hsel|].
  { destruct Hroom as [Hr _]. nia. }
  { eapply Forall_impl; [exact Hpos|]. by intros ? []. }
  rewrite (pd_selected _ _ _ _ Hpd), length_fmap, (pd_count _ _ _ _ Hpd) in Hhigh.
  destruct (bt_count _ _ _ _ _ _ _ _ _ _ _ Hb) as [Hrc _]. unfold weight_room in Hrw.
  destruct (fee_wu_defined r_v own) as [f1 E1]; [lia|lia|nia|].
  destruct (fee_wu_defined r_v anc_weight) as [f2 E2]; [lia|lia|nia|].
  rewrite E1, E2. cbn [default from_option]; unfold id.
  apply fee_wu_rounds_up in E1; [|lia..]. apply fee_wu_rounds_up in E2; [|lia..].
  split.
  - destruct (fee_wu min_rate own) as [f|] eqn:E; cbn [default from_option]; unfold id.
    + apply fee_wu_rounds_up in E; [|lia..].
      assert (min_rate * own <= rate * own) by (apply Z.mul_le_mono_nonneg_r; lia). lia.
    + assert (0 <= rate * own) by (apply Z.mul_nonneg_nonneg; lia). lia.
  - apply (fee_tolerance rate r_v own anc_weight anc_fee rc); try lia.
    destruct paid_value as (Hv & _ & Hu).
    pose proof (zsum_nonneg (ou_amount <$> ap_outputs ap)) as Hz. rewrite Forall_fmap in Hz.
    specialize (Hz outputs_positive). lia.
Qed.

(** *** The validator's side *)

(** A validator that has caught up with the leader. *)
Record same_view (v : Hashi) : Prop := {
  sv_state : onchain_state v = st;
  sv_limiter : local_limiter v = local_limiter self;
  sv_address : get_deposit_address v None = get_deposit_address self None;
  sv_floor : withdrawal_min_fee_rate (config v) <= withdrawal_min_fee_rate (config self);
}.

Lemma paid_shape : check_commitment_shape ap = Ok tt.
Proof.
  destruct paid_weight as [Hsup Hw]. pose proof sel_inputs as (_ & Hnd & Hmax).
  pose proof own_room as Hown. pose proof (pd_count _ _ _ _ Hpd) as Hc.
  destruct (bt_count _ _ _ _ _ _ _ _ _ _ _ Hb) as [Hrc Hle].
  pose proof (flow_max_inputs_nonneg rc ltac:(lia)) as Hflow.
  assert (length (ap_outputs ap) = length qs + length changes)%nat as Hlo.
  { rewrite (pd_outputs _ _ _ _ Hpd), length_app. f_equal. symmetry.
    eapply Forall2_length, (pd_payouts _ _ _ _ Hpd). }
  destruct (pd_changes _ _ _ _ Hpd) as [Hch _].
  assert (Z.of_nat (length (selected_utxos ap)) <= safe_withdrawal_flow_max_inputs rc DEFAULT_MAX_INPUTS)
    as Hin by by rewrite (bt_selected _ _ _ _ _ _ _ _ _ _ _ Hb), length_fmap.
  apply (check_shape_pass ap own);
    rewrite ?(pd_ids _ _ _ _ Hpd), ?length_fmap, ?Hc; try done.
  - intros E%(f_equal length). rewrite length_fmap in E. cbn in E. lia.
  - rewrite (bt_selected _ _ _ _ _ _ _ _ _ _ _ Hb). intros E%(f_equal length).
    rewrite length_fmap in E. pose proof inputs_nonempty. cbn in E. lia.
  - intros E%(f_equal length). cbn in E. lia.
  - rewrite (fmap_Permutation wr_id _ _ (pd_chosen _ _ _ _ Hpd)).
    eapply NoDup_submseteq_l; [apply (bf_distinct _ _ Hbf)|].
    apply fmap_submseteq', sublist_submseteq, sublist_take.
  - by rewrite (bt_selected _ _ _ _ _ _ _ _ _ _ _ Hb).
  - lia.
  - apply estimated_weight; [lia|unfold MAX_WITHDRAWAL_REQUESTS in *; lia|done].
  - apply (selection_weight _ _ _ _ _ built_amounts_fit (proj1 count_nonneg) (proj1 built_weights_fit) Hsel).
  - rewrite Hlo. unfold WITHDRAWAL_MAX_CHANGE_OUTPUTS. lia.
Qed.

Lemma paid_inputs_checked :
  check_selected_inputs records txns (selected_utxos ap) []
  = Some (Passed utxos (anc_weight, anc_fee)).
Proof.
  destruct (check_selected_inputs_exact txns records (selected_utxos ap) [])
    as (package & anc & -> & Hnd & Hanc & Hpk).
  destruct utxos_pass as (-> & -> & _). cbn [app]. rewrite (bt_selected _ _ _ _ _ _ _ _ _ _ _ Hb) in Hanc.
  destruct (ancestors_agree st confs excluded (ss_record_keys _ Hss) eq_refl Hcands confs_zero
    (res_inputs sel) anc (proj1 sel_inputs) Hnd Hanc) as [<- <-].
  rewrite Hpk; [done|]. apply state_ancestors_fit; [apply (ss_fits _ Hss)|done|].
  by intros w [? _]%Hanc.
Qed.

Lemma paid_sums :
  usum (mu_amount <$> utxos) = zsum (mu_amount <$> utxos)
  /\ usum (ou_amount <$> ap_outputs ap) = zsum (ou_amount <$> ap_outputs ap)
  /\ usum (ou_amount <$> changes) = zsum (ou_amount <$> changes)
  /\ 0 <= fee sel /\ fee sel / rc = d.
Proof.
  destruct paid_value as (Hv & Hv' & Hu). pose proof outputs_positive as Hop.
  destruct (pd_share _ _ _ _ Hpd) as [Hd Hf]. destruct (bt_count _ _ _ _ _ _ _ _ _ _ _ Hb) as [Hrc _].
  assert (0 <= fee sel) by (rewrite Hf; nia).
  split_and!; [|apply usum_small; [by apply Forall_fmap|lia]| |done|].
  - apply usum_small; [|done]. rewrite (proj2 (proj2 utxos_pass)).
    destruct built_amounts_fit as [Hn _ _ _ _]. apply Forall_fmap. eapply Forall_submseteq; [exact Hn|].
    apply (selection_inputs _ _ _ _ _ built_amounts_fit (proj1 count_nonneg) (proj2 count_nonneg) Hsel).
  - rewrite (pd_outputs _ _ _ _ Hpd) in Hop. apply Forall_app in Hop as [_ Hop].
    apply usum_small; [by apply Forall_fmap|]. pose proof paid_total_pos. lia.
  - rewrite Hf, Z.mul_comm. apply Z.div_mul. lia.
Qed.

Lemma paid_outflow view :
  local_limiter self = Some view ->
  0 < zsum (btc_amount <$> qs) <= view_capacity_at view (now / 1000)
  /\ zsum (btc_amount <$> qs) <= max_bucket_capacity (lv_config view).
Proof.
  intros Hl. destruct (bf_limiter _ _ Hbf) as (view' & Hl' & Hcap & _). rewrite Hl in Hl'.
  injection Hl' as <-. pose proof paid_total_pos.
  assert (zsum (btc_amount <$> qs) <= zsum (btc_amount <$> batch)) as Hle.
  { rewrite (zsum_perm _ _ (fmap_Permutation btc_amount _ _ (pd_chosen _ _ _ _ Hpd))). apply chosen_total. }
  pose proof (capacity_at_le_max (lv_state view) (lv_config view) (now / 1000)).
  unfold view_capacity_at in *. lia.
Qed.

(** What the validator hands on to the second half of its check. *)
Definition paid_prepared (view : LimiterView) : PreparedCommitment :=
  {| pc_selected_utxos := utxos;
     pc_fee := fee sel;
     pc_outflow := zsum (btc_amount <$> qs);
     pc_max_bucket_capacity := max_bucket_capacity (lv_config view);
     pc_tx_weight := own;
     pc_ancestor_weight := anc_weight;
     pc_ancestor_fee := anc_fee |}.

Context {v : Hashi} (Hv : same_view v).

Lemma paid_requests_found : commitment_requests v (ap_request_ids ap) = ([], qs).
Proof.
  rewrite (pd_ids _ _ _ _ Hpd). apply commitment_requests_all. rewrite (sv_state _ Hv).
  intros q (? & ? & _)%paid_known. done.
Qed.

Lemma paid_drop : take (length qs) (ap_outputs ap) = payouts /\ drop (length qs) (ap_outputs ap) = changes.
Proof.
  rewrite (pd_outputs _ _ _ _ Hpd), (Forall2_length _ _ _ (pd_payouts _ _ _ _ Hpd)).
  split; [by rewrite take_app_length|by rewrite drop_app_length].
Qed.

Lemma paid_change_check :
  (if nonempty changes then
     match get_deposit_address v None ≫= witness_program_from_address with
     | None => Err NoDepositAddress
     | Some expected_address => check_change expected_address 0 changes
     end
   else Ok tt) = Ok tt.
Proof.
  destruct (nonempty changes); [|done].
  rewrite (sv_address _ Hv), (bt_address _ _ _ _ _ _ _ _ _ _ _ Hb).
  cbn [mbind option_bind].
  destruct (get_taproot self a Hss (bt_address _ _ _ _ _ _ _ _ _ _ _ Hb)) as [_ (prog & Hp & _)].
  rewrite Hp. apply check_change_pass. eapply Forall_impl; [apply (pd_changes _ _ _ _ Hpd)|].
  intros o (E & _ & ?). rewrite Hp in E. by injection E as ->.
Qed.

Lemma paid_min_fee :
  default 0 (fee_wu (Z.max (withdrawal_min_fee_rate (config v)) (from_sat_per_vb_unchecked 1)) own)
  <= fee sel.
Proof.
  apply (paid_fee rate); [done|done|]. pose proof rate_floor. pose proof (ss_floor _ Hss).
  pose proof (sv_floor _ Hv). lia.
Qed.

Lemma paid_estimate :
  estimated_withdrawal_tx_weight (Z.of_nat (length utxos)) (ap_outputs ap) = Some own.
Proof.
  destruct paid_weight as [Hsup Hw]. pose proof sel_inputs as (_ & _ & Hmax).
  destruct (bt_count _ _ _ _ _ _ _ _ _ _ _ Hb) as [Hrc _].
  pose proof (flow_max_inputs_nonneg rc ltac:(lia)).
  assert (length utxos = length (res_inputs sel)) as Hl.
  { rewrite <- (length_fmap mu_amount), (proj2 (proj2 utxos_pass)). apply length_fmap. }
  rewrite (bt_selected _ _ _ _ _ _ _ _ _ _ _ Hb), length_fmap, <- Hl in Hw.
  rewrite <- Hw. apply estimated_weight; [lia| |done].
  rewrite (pd_outputs _ _ _ _ Hpd), length_app, <- (Forall2_length _ _ _ (pd_payouts _ _ _ _ Hpd)).
  pose proof (pd_count _ _ _ _ Hpd). destruct (pd_changes _ _ _ _ Hpd) as [? _].
  unfold MAX_WITHDRAWAL_REQUESTS in *. lia.
Qed.

Lemma paid_prepare view :
  local_limiter self = Some view ->
  prepare_withdrawal_tx_commitment v ap = Some (Ok (paid_prepared view)).
Proof.
  intros Hl. unfold prepare_withdrawal_tx_commitment. rewrite paid_shape. cbn zeta.
  rewrite paid_requests_found, (sv_state _ Hv), paid_inputs_checked. cbn [mbind option_bind outcome_bind].
  destruct paid_sums as (Hs1 & Hs2 & Hs3 & Hf0 & Hdiv). destruct paid_value as (Hval & Hval' & Hu).
  destruct (pd_share _ _ _ _ Hpd) as [Hd _]. pose proof (pd_count _ _ _ _ Hpd) as Hcount.
  destruct (bt_count _ _ _ _ _ _ _ _ _ _ _ Hb) as [Hrc _].
  destruct (paid_outflow view Hl) as [[Hpos Hout] Hbucket].
  rewrite Hs1, Hs2, Hcount.
  replace (zsum (mu_amount <$> utxos) - zsum (ou_amount <$> ap_outputs ap)) with (fee sel) by lia.
  rewrite Hdiv.
  destruct paid_drop as [Htake Hdrop]. rewrite Hdrop.
  rewrite (proj2 (Nat.leb_le _ _)) by (rewrite (pd_outputs _ _ _ _ Hpd), length_app,
    (Forall2_length _ _ _ (pd_payouts _ _ _ _ Hpd)); lia). cbn [guard mbind outcome_bind].
  rewrite (proj2 (Z.leb_le _ _)) by lia. cbn [guard mbind outcome_bind].
  rewrite (proj2 (Nat.eqb_neq _ _)) by lia. cbn [negb assert mbind outcome_bind].
  rewrite (proj2 (Z.leb_le _ _)) by lia. cbn [guard mbind outcome_bind].
  rewrite check_payouts_pass by (rewrite drop_0, Htake; apply (pd_payouts _ _ _ _ Hpd)).
  cbn [nonempty negb guard mbind outcome_bind]. rewrite paid_change_check. cbn [mbind outcome_bind].
  unfold check_commitment_outflow, limiter_outflow. rewrite (sv_limiter _ Hv), Hl, Hs3.
  cbn [fmap option_fmap option_map].
  replace (sat_sub (zsum (mu_amount <$> utxos)) (zsum (ou_amount <$> changes)))
    with (zsum (btc_amount <$> qs)) by (unfold sat_sub; lia).
  rewrite (proj2 (Z.leb_le _ _) Hbucket). cbn [guard mbind outcome_bind].
  rewrite paid_estimate, (proj2 (Z.leb_le _ _) paid_min_fee). done.
Qed.

(** The leader put the oldest request that can be served at the head of its batch, and the
    selection keeps the head. *)
Lemma paid_oldest view :
  local_limiter self = Some view ->
  check_commitment_against_queue (ap_request_ids ap) (has_unsigned_txn st)
    (map_to_list (requests st)).*2 (max_bucket_capacity (lv_config view))
    (bitcoin_withdrawal_minimum st) = Ok tt.
Proof.
  intros Hl. unfold check_commitment_against_queue. rewrite (bf_signed _ _ Hbf).
  destruct (oldest_at_minimum _ _ _) as [oldest|] eqn:Hold; [|done].
  rewrite bool_decide_true; [done|].
  destruct (bf_limiter _ _ Hbf) as (view' & Hl' & _ & Hhead). rewrite Hl in Hl'. injection Hl' as <-.
  assert (exists q l, batch = q :: l) as (q & l & Eb).
  { pose proof (bf_nonempty _ _ Hbf). destruct batch as [|q l]; [done|by exists q, l]. }
  rewrite (Hhead q oldest); [|by rewrite Eb|done]. rewrite (pd_ids _ _ _ _ Hpd).
  apply list_elem_of_fmap_2. rewrite (pd_chosen _ _ _ _ Hpd), Eb.
  destruct (bt_count _ _ _ _ _ _ _ _ _ _ _ Hb) as [Hrc _].
  destruct (Z.to_nat rc) eqn:E; [lia|]. apply elem_of_cons. by left.
Qed.

Lemma capacity_mono view t t' :
  0 <= refill_rate (lv_config view) -> t <= t' -> view_capacity_at view t <= view_capacity_at view t'.
Proof.
  intros Hr Ht. unfold view_capacity_at, capacity_at.
  assert (sat_sub t (last_updated_at (lv_state view)) * refill_rate (lv_config view)
          <= sat_sub t' (last_updated_at (lv_state view)) * refill_rate (lv_config view)).
  { apply Z.mul_le_mono_nonneg_r; [done|]. unfold sat_sub. lia. }
  unfold sat_mul, sat_add. lia.
Qed.

Lemma paid_finish view r_v :
  local_limiter self = Some view -> 0 <= refill_rate (lv_config view) ->
  now <= latest_checkpoint_timestamp_ms st <= u64_max ->
  rate <= r_v -> fee_room st r_v (length batch) ->
  finish_withdrawal_tx_commitment v ap (paid_prepared view) r_v = Ok tt.
Proof.
  intros Hl Hrefill Hnow Hr Hrv. pose proof rate_floor as [H250 _].
  destruct (paid_fee r_v 0 Hr Hrv ltac:(lia)) as [_ Hmax].
  destruct (bt_txid _ _ _ _ _ _ _ _ _ _ _ Hb) as (tx & Htx & Hid).
  destruct (paid_outflow view Hl) as [[_ Hout] _].
  unfold finish_withdrawal_tx_commitment, build_unsigned_withdrawal_tx, paid_prepared.
  cbn [pc_fee pc_ancestor_weight pc_ancestor_fee pc_tx_weight pc_selected_utxos
       pc_max_bucket_capacity pc_outflow]. unfold FEE_RATE_TOLERANCE_MULTIPLIER.
  rewrite (proj2 (Z.leb_le _ _) Hmax), Htx. cbn [guard expect mbind outcome_bind].
  rewrite (proj2 (Z.eqb_eq _ _) Hid), (sv_state _ Hv), (bf_caught_up _ _ Hbf), (paid_oldest view Hl).
  cbn [guard mbind outcome_bind]. rewrite (sv_limiter _ Hv), Hl. unfold check_commitment_capacity.
  rewrite (proj2 (Z.ltb_ge _ _)); [done|]. etrans; [exact Hout|]. apply capacity_mono; [done|].
  assert (now / 1000 <= latest_checkpoint_timestamp_ms st / 1000) by (apply Z.div_le_mono; lia).
  assert (latest_checkpoint_timestamp_ms st / 1000 <= u64_max / 1000) by (apply Z.div_le_mono; lia).
  assert (u64_max / 1000 <= u64_max) by by vm_compute.
  unfold sat_add, LIMITER_CAPACITY_SLACK_SECS. lia.
Qed.
End of_paid.
End of_built.

(** ** The theorem *)

Section accepted.
Context `{NE : NodeEnv} `{BL : !BitcoinUnitsLaws} `{NL : !NodeEnvLaws}.

End accepted.
