(* ===== verification/WithdrawalExamples.v ===== *)
(** * A batch of withdrawals on a concrete state

    An instance of a node's environment that satisfies its laws, and a state with two approved
    requests, a change output of a transaction still in flight and a confirmed UTXO.  The leader
    takes the batch, builds a commitment and the validators accept it; the theorems about
    withdrawals are applied to the run.  A commitment whose change outputs add up past 2^64 is
    checked at the end. *)

From S2P Require Import Limiter CoinSelection CoinSelectionProofs CoinSelectionTheorems CoinSelectionTotal MonitorDomain Withdrawals WithdrawalAncestry WithdrawalTheorems WithdrawalBatch WithdrawalLeader WithdrawalAgreement WithdrawalAccepted Retry Prelude.

(** ** An environment *)

(** An address is its script. *)
#[local] Instance script_units : BitcoinUnits := {|
  BitcoinAddress := list Z;
  script_pubkey_len := fun a => Z.of_nat (length a);
  weight_add := wadd;
  weight_checked_add := fun a b => if a + b <=? u64_max then Some (a + b) else None;
  fee_wu := fun r w => if r * w + 999 <=? u64_max then Some ((r * w + 999) / 1000) else None;
  from_sat_per_vb_unchecked := fun v => v * 250;
  to_sat_per_vb_floor := fun r => r / 250;
|}.

#[local] Instance script_units_laws : BitcoinUnitsLaws.
Proof.
  split; cbn; intros.
  - apply wadd_small. u64_lia.
  - by rewrite (proj2 (Z.leb_le _ _)).
  - case_match; [|done]. simplify_eq. pose proof (Z.div_mod (r * w + 999) 1000 ltac:(lia)).
    pose proof (Z.mod_pos_bound (r * w + 999) 1000 ltac:(lia)). lia.
  - rewrite (proj2 (Z.leb_le _ _)) by done. by eexists.
Qed.

Definition bridge_program : list Z := replicate 32 7.

(** A transaction is identified by its inputs, a key by nothing. *)
#[local] Instance script_env : NodeEnv := {|
  from_sat_per_vb := fun v => if v * 250 <=? u64_max then Some (v * 250) else None;
  script_pubkey := fun a => a;
  compute_txid := fun tx => fold_left (fun h '(t, v) => (h * 31 + t * 7 + v) mod 2 ^ 64) (input tx) 1;
  transaction_weight := fun tx =>
    32 + varint_weight (Z.of_nat (length (input tx))) + varint_weight (Z.of_nat (length (output tx)))
    + TXIN_BASE_WEIGHT * Z.of_nat (length (input tx))
    + zsum ((fun o => 4 * (8 + 1 + Z.of_nat (length (out_script o)))) <$> output tx);
  MpcKey := unit;
  GuardianBtcPubkey := unit;
  xonly_from_slice := fun _ => None;
  taproot_address := fun _ _ _ _ => 81 :: 32 :: bridge_program;
|}.

#[local] Instance script_env_laws : NodeEnvLaws.
Proof. by split. Qed.

(** ** A state *)

Definition request_of (id amount approved created : Z) (addr : list Z) : MoveWithdrawalRequest :=
  {| wr_id := id; wr_sender := 1; btc_amount := amount; wr_bitcoin_address := addr;
     created_timestamp_ms := created; approval_cert := Some []; approved_timestamp_ms := Some approved;
     wr_withdrawal_txn_id := None; wr_sui_tx_digest := 0; wr_btc := amount |}.

Definition older : MoveWithdrawalRequest := request_of 10 300000 5000 1000 (replicate 20 3).
Definition newer : MoveWithdrawalRequest := request_of 11 200000 6000 900 (replicate 32 4).

(** A signed transaction whose change is in the pool. *)
Definition in_flight : WithdrawalTransaction :=
  {| wt_id := 77; wt_txid := 500; wt_request_ids := [9];
     wt_inputs := [mkMoveUtxo (400, 0) 1000000 None];
     wt_withdrawal_outputs := [mkOutputUtxo 99000 (replicate 20 5)];
     wt_change_outputs := [mkOutputUtxo 900000 bridge_program];
     wt_created_timestamp_ms := 100; wt_signed_timestamp_ms := Some 200;
     wt_confirmed_timestamp_ms := None; wt_randomness := [];
     signing := mkSigningBatch [SigSigned []] 0; guardian_signatures := Some [[]] |}.

Definition pool_records : UtxoRecords :=
  list_to_map
    [((400, 0), mkUtxoRecord (mkMoveUtxo (400, 0) 1000000 None) None (Some 77) None);
     ((500, 1), mkUtxoRecord (mkMoveUtxo (500, 1) 900000 None) (Some 77) None None);
     ((600, 0), mkUtxoRecord (mkMoveUtxo (600, 0) 40000 None) None None None)].

Definition chain_state : OnchainState :=
  {| requests := list_to_map [(10, older); (11, newer)];
     withdrawal_txns := {[77 := in_flight]};
     utxo_records := pool_records;
     cfg_withdrawal_minimum := Some 50000;
     caught_up_with_scrape := true;
     latest_checkpoint_timestamp_ms := 2000000;
     onchain_epoch := 3 |}.

Definition bucket : LimiterView :=
  mkLimiterView (mkLimiterConfig 10 1000000) (mkLimiterState 600000 1900 4).

Definition node : Hashi :=
  {| config := mkNodeConfig Bitcoin None None None None;
     onchain_state := chain_state;
     local_limiter := Some bucket;
     signing_verifying_key := Some tt;
     onchain_verifying_key_g := None;
     guardian_btc_pubkey := Some tt;
     guardian_btc_public_key := None |}.

(** A validator with a stricter floor of its own and another key source. *)
Definition validator : Hashi :=
  {| config := mkNodeConfig Bitcoin (Some 2) None None None;
     onchain_state := chain_state;
     local_limiter := Some bucket;
     signing_verifying_key := None;
     onchain_verifying_key_g := Some tt;
     guardian_btc_pubkey := Some tt;
     guardian_btc_public_key := None |}.

Definition answers : BtcAnswers :=
  mkBtcAnswers (Some 1000) None (fun txid => if txid =? 500 then Some StatusInMempool else None).

Definition idle_leader : LeaderState := mkLeaderState false None ∅.

Definition taken : LeaderState * option (list MoveWithdrawalRequest) :=
  process_approved_withdrawal_requests node false idle_leader 5 1999000.

Definition commitment : WithdrawalTxCommitment :=
  match build_withdrawal_tx_commitment node node answers [older; newer] ∅ with
  | Some (Ok ap) => ap
  | _ => mkWithdrawalTxCommitment [] [] [] 0
  end.

Lemma batch_taken : taken = (taken.1, Some [older; newer]).
Proof. vm_compute. reflexivity. Qed.

Lemma commitment_built :
  build_withdrawal_tx_commitment node node answers [older; newer] ∅ = Some (Ok commitment).
Proof. vm_compute. reflexivity. Qed.

(** The older request was created later: the outputs come in the order of creation. *)
Example commitment_shape :
  (ap_request_ids commitment, selected_utxos commitment, ou_amount <$> ap_outputs commitment)
  = ([11; 10], [(500, 1); (600, 0)], [199313; 299313; 440000]).
Proof. vm_compute. reflexivity. Qed.

(** ** The hypotheses hold *)

Lemma lookup_requests id r :
  requests chain_state !! id = Some r -> (id, r) = (10, older) \/ (id, r) = (11, newer).
Proof.
  cbn. intros [[<- <-]|[_ [[<- <-]|[_ H]]%lookup_insert_Some]]%lookup_insert_Some; auto.
  by rewrite lookup_empty in H.
Qed.

Lemma lookup_txns w t : withdrawal_txns chain_state !! w = Some t -> w = 77 /\ t = in_flight.
Proof. cbn. by intros [<- <-]%lookup_singleton_Some. Qed.

Lemma lookup_records id r :
  utxo_records chain_state !! id = Some r ->
  mu_id (rec_utxo r) = id /\ (produced_by r = None \/ (produced_by r = Some 77 /\ id = (500, 1))).
Proof.
  cbn. intros [[<- <-]|[_ [[<- <-]|[_ [[<- <-]|[_ H]]%lookup_insert_Some]]%lookup_insert_Some]]%lookup_insert_Some;
    cbn; auto. by rewrite lookup_empty in H.
Qed.

Lemma chain_state_fits : state_fits chain_state.
Proof.
  split.
  - apply (Forall_fmap (fun r => mu_amount (rec_utxo r)) (fun x => 0 <= x)).
    vm_compute. repeat constructor; discriminate.
  - vm_compute. discriminate.
  - apply (Forall_fmap ancestor_cost (fun c => 0 <= c.1 /\ 0 <= c.2)).
    vm_compute. repeat constructor; discriminate.
  - vm_compute. discriminate.
  - vm_compute. discriminate.
Qed.

Lemma node_shared : shared_state node.
Proof.
  split.
  - apply chain_state_fits.
  - by intros id r [? _]%lookup_records.
  - by intros id r [[= -> ->]|[= -> ->]]%lookup_requests.
  - intros id r [[= -> ->]|[= -> ->]]%lookup_requests; split; vm_compute; auto; discriminate.
  - intros id r p t [_ [H|[H ->]]]%lookup_records Hp Ht; [congruence|].
    by apply lookup_txns in Ht as [_ ->].
  - intros w t [-> ->]%lookup_txns. by split.
  - by vm_compute.
  - intros a [= <-]. by exists bridge_program.
  - by vm_compute.
Qed.

Lemma validator_view : same_view (self:=node) validator.
Proof. split; [done..|]. vm_compute. discriminate. Qed.

(** ** Witnesses *)



(** The rounds of the leader on an unchanging state: the first one ends. *)
Definition round : Round := mkRound node node node node node answers (Some 1000).

Example leader_proposes :
  build_checked_commitment node [round] [older; newer] = Some (Ok (Some commitment)).
Proof. vm_compute. reflexivity. Qed.

Lemma input_check_exact_witness :
  exists package anc,
    check_selected_inputs pool_records {[77 := in_flight]} [(500, 1); (600, 0)] []
    = Some (Passed [mkMoveUtxo (500, 1) 900000 None; mkMoveUtxo (600, 0) 40000 None] package)
    /\ NoDup anc
    /\ forall w, w ∈ anc <-> in_flight_ancestor {[77 := in_flight]} pool_records [(500, 1); (600, 0)] w.
Proof.
  destruct (input_check_exact {[77 := in_flight]} pool_records [(500, 1); (600, 0)] [])
    as (package & anc & Hc & Hnd & Hanc & _).
  exists package, anc. split; [rewrite Hc; vm_compute; reflexivity|]. split; [exact Hnd|exact Hanc].
Defined.

#[local] Instance commitment_range : RetryPolicyRange WithdrawalCommitmentErrorKind.
Proof. split; intros []; vm_compute; split; discriminate. Qed.

(** Three failures in a row: twenty seconds. *)
Lemma retry_backoff_witness :
  should_skip (record_failure (fail_all ∅ KTimedOut 10 [1000; 7000]) KTimedOut 10 18000) 10 37999 = true
  /\ should_skip (record_failure (fail_all ∅ KTimedOut 10 [1000; 7000]) KTimedOut 10 18000) 10 38000 = false.
Proof.
  split.
  - rewrite (proj1 (retry_backoff ∅ KTimedOut 10 [1000; 7000] 18000 37999 (lookup_empty 10)
      ltac:(by vm_compute) ltac:(by vm_compute) ltac:(by vm_compute))). reflexivity.
  - rewrite (proj1 (retry_backoff ∅ KTimedOut 10 [1000; 7000] 18000 38000 (lookup_empty 10)
      ltac:(by vm_compute) ltac:(by vm_compute) ltac:(by vm_compute))). reflexivity.
Defined.

(** ** Change outputs that wrap around *)

(** The commitment above with its change replaced by two outputs of about 2^63 satoshis each,
    which add up to the same amount modulo 2^64. *)
Definition wrapped : WithdrawalTxCommitment :=
  {| ap_request_ids := ap_request_ids commitment;
     selected_utxos := selected_utxos commitment;
     ap_outputs :=
       take 2 (ap_outputs commitment)
         ++ [mkOutputUtxo (2 ^ 63) bridge_program; mkOutputUtxo (2 ^ 63 + 440000) bridge_program];
     ap_txid := ap_txid commitment |}.

(** The sums of the check wrap around in a release build: the validators certify outputs worth
    more than the inputs.  The Move contract adds with overflow checks and aborts. *)
Theorem wrapped_change_certified :
  validate_withdrawal_tx_commitment validator validator (Some 1000) wrapped = Some (Ok tt)
  /\ zsum (mu_amount <$> [mkMoveUtxo (500, 1) 900000 None; mkMoveUtxo (600, 0) 40000 None])
     < zsum (ou_amount <$> ap_outputs wrapped).
Proof. split; vm_compute; reflexivity. Qed.
