(* ===== verification/FinalizeCheck.v ===== *)
(** * bitcoind's opinion on a finalized withdrawal

    [crates/hashi/src/finalize_bitcoin_check.rs]: the classification of what
    [testmempoolaccept] answers, the check that asks once per transaction for all who wait and
    remembers script failures for five minutes, and the record of the probes that tell
    whether the check can see at all.

    The check is shared by the handlers of a node and by the tasks they spawn.  Its state
    holds the two maps under their locks, the watch channels, the tasks by where they stand
    between two awaits, and the handlers that wait; a step of any of them is one event, and
    time passes between events.  A channel knows the transaction it was opened for, which
    the code has in the task.  The texts of errors are constructors; an error of the RPC
    keeps its text.  Metrics and log lines are left out. *)

From stdpp Require Import strings.
From S2P Require Import Prelude.

(** ** Verdicts *)

(** The texts of [Unavailable]. *)
Inductive CheckError :=
| WrongCount (results : nat)
| RpcFailed (error : string)
| EndedWithoutAnswer
| NotWithinWait
| NotAssembled.

Inductive Verdict :=
| Accepted
| ScriptFailure (reason : string) (details : option string)
| RejectedOther (reason : string)
| Unavailable (error : CheckError).

#[export] Instance CheckError_eq_dec : EqDecision CheckError.
Proof. solve_decision. Defined.

(** An entry of the answer to [testmempoolaccept]. *)
Record MempoolAcceptance := mkMempoolAcceptance {
  allowed : bool;
  reject_reason : option string;
  reject_details : option string;
}.

(** [str::contains] *)
Fixpoint contains (s needle : string) : bool :=
  String.prefix needle s || match s with String.String _ s' => contains s' needle | EmptyString => false end.

Definition fails_script_check (reason : string) : bool := contains reason "script-verify-flag".

Definition is_script_failure (reason : string) : bool :=
  fails_script_check reason
  || bool_decide (reason = "scriptsig-not-pushonly")
  || bool_decide (reason = "scriptsig-size")
  || bool_decide (reason = "bad-witness-nonstandard").

Definition classify (results : list MempoolAcceptance) : Verdict :=
  match results with
  | [result] =>
      if allowed result then Accepted
      else
        let reason := default "" (reject_reason result) in
        if is_script_failure reason then ScriptFailure reason (reject_details result)
        else RejectedOther reason
  | _ => Unavailable (WrongCount (length results))
  end.

Definition script_failed (self : Verdict) : bool :=
  match self with ScriptFailure _ _ => true | _ => false end.

(** ** The shared check *)

Abbreviation Wtxid := Z (only parsing).
Abbreviation Instant := Z (only parsing).

(** Milliseconds. *)
Definition MEMBER_WAIT : Z := 10 * 1000.
Definition FAILURE_TTL : Z := 5 * 60 * 1000.

(** Where a spawned task stands: before the answer, before it sends the verdict, before its
    entry is dropped, before its sender is dropped. *)
Inductive Stage :=
| Asking
| Answered (verdict : Verdict)
| Sent
| Unregistered.

Record Running := mkRunning { rn_wtxid : Wtxid; rn_stage : Stage }.
Record Channel := mkChannel { ch_wtxid : Wtxid; ch_value : option Verdict; ch_open : bool }.
Record Waiter := mkWaiter { wa_wtxid : Wtxid; wa_channel : nat; wa_deadline : Instant }.

Record FinalizeBitcoinCheck := mkFinalizeBitcoinCheck {
  failures : gmap Wtxid (Instant * Verdict);
  in_flight : gmap Wtxid nat;
  running : gmap nat Running;
  channels : gmap nat Channel;
  waiters : gmap nat Waiter;
  next_channel : nat;
}.

Definition check_new : FinalizeBitcoinCheck := mkFinalizeBitcoinCheck ∅ ∅ ∅ ∅ ∅ 0.

Definition cached_failure (self : FinalizeBitcoinCheck) (now : Instant) (wtxid : Wtxid)
    : option Verdict :=
  '(at_, verdict) ← failures self !! wtxid;
  if now - at_ <? FAILURE_TTL then Some verdict else None.

Definition wait_on (self : FinalizeBitcoinCheck) (now : Instant) (waiter : nat) (wtxid : Wtxid)
    (channel : nat) : FinalizeBitcoinCheck :=
  mkFinalizeBitcoinCheck (failures self) (in_flight self) (running self) (channels self)
    (<[waiter := mkWaiter wtxid channel (now + MEMBER_WAIT)]> (waiters self)) (next_channel self).

(** The channel of a new task. *)
Definition spawn_run (self : FinalizeBitcoinCheck) (wtxid : Wtxid) : FinalizeBitcoinCheck :=
  let channel := next_channel self in
  mkFinalizeBitcoinCheck (failures self) (<[wtxid := channel]> (in_flight self))
    (<[channel := mkRunning wtxid Asking]> (running self))
    (<[channel := mkChannel wtxid None true]> (channels self)) (waiters self) (S channel).

(** [check_uncounted] up to its await: a remembered failure, or a wait on the task of this
    transaction, which is spawned if there is none. *)
Definition check_uncounted (self : FinalizeBitcoinCheck) (now : Instant) (waiter : nat)
    (wtxid : Wtxid) : FinalizeBitcoinCheck * option Verdict :=
  match cached_failure self now wtxid with
  | Some verdict => (self, Some verdict)
  | None =>
      match in_flight self !! wtxid with
      | Some channel => (wait_on self now waiter wtxid channel, None)
      | None => (wait_on (spawn_run self wtxid) now waiter wtxid (next_channel self), None)
      end
  end.

(** The value is looked at before the clock. *)
Definition wait_for (self : FinalizeBitcoinCheck) (now : Instant) (w : Waiter) : option Verdict :=
  channel ← channels self !! wa_channel w;
  match ch_value channel with
  | Some verdict => Some verdict
  | None =>
      if negb (ch_open channel) then Some (Unavailable EndedWithoutAnswer)
      else if wa_deadline w <=? now then Some (Unavailable NotWithinWait)
      else None
  end.

Definition check_woken (self : FinalizeBitcoinCheck) (now : Instant) (waiter : nat)
    : option (FinalizeBitcoinCheck * Verdict) :=
  w ← waiters self !! waiter;
  verdict ← wait_for self now w;
  Some (mkFinalizeBitcoinCheck (failures self) (in_flight self) (running self) (channels self)
          (delete waiter (waiters self)) (next_channel self), verdict).

(** An error of the RPC is its text. *)
Definition run_verdict (answer : list MempoolAcceptance + string) : Verdict :=
  match answer with
  | inl results => classify results
  | inr error => Unavailable (RpcFailed error)
  end.

Definition set_stage (self : FinalizeBitcoinCheck) (task : nat) (r : Running) (s : Stage)
    : gmap nat Running :=
  <[task := mkRunning (rn_wtxid r) s]> (running self).

(** [run] from the answer to the send: a script failure is stored, old ones are dropped. *)
Definition run_answered (self : FinalizeBitcoinCheck) (now : Instant) (task : nat)
    (answer : list MempoolAcceptance + string) : option FinalizeBitcoinCheck :=
  r ← running self !! task;
  match rn_stage r with
  | Asking =>
      let verdict := run_verdict answer in
      let failures :=
        if script_failed verdict
        then <[rn_wtxid r := (now, verdict)]>
               (filter (fun e => now - e.2.1 < FAILURE_TTL) (failures self))
        else failures self in
      Some (mkFinalizeBitcoinCheck failures (in_flight self) (set_stage self task r (Answered verdict))
              (channels self) (waiters self) (next_channel self))
  | _ => None
  end.

(** [send_replace] *)
Definition run_send (self : FinalizeBitcoinCheck) (task : nat) : option FinalizeBitcoinCheck :=
  r ← running self !! task;
  match rn_stage r with
  | Answered verdict =>
      Some (mkFinalizeBitcoinCheck (failures self) (in_flight self) (set_stage self task r Sent)
              (<[task := mkChannel (rn_wtxid r) (Some verdict) true]> (channels self)) (waiters self)
              (next_channel self))
  | _ => None
  end.

(** [InFlightEntry::drop], at the end of the task or, when the call panics, before. *)
Definition entry_drop (self : FinalizeBitcoinCheck) (task : nat) : option FinalizeBitcoinCheck :=
  r ← running self !! task;
  match rn_stage r with
  | Asking | Sent =>
      Some (mkFinalizeBitcoinCheck (failures self) (delete (rn_wtxid r) (in_flight self))
              (set_stage self task r Unregistered) (channels self) (waiters self) (next_channel self))
  | _ => None
  end.

(** The sender is dropped last. *)
Definition sender_drop (self : FinalizeBitcoinCheck) (task : nat) : option FinalizeBitcoinCheck :=
  r ← running self !! task;
  match rn_stage r with
  | Unregistered =>
      channel ← channels self !! task;
      Some (mkFinalizeBitcoinCheck (failures self) (in_flight self) (delete task (running self))
              (<[task := mkChannel (ch_wtxid channel) (ch_value channel) false]> (channels self))
              (waiters self) (next_channel self))
  | _ => None
  end.

(** ** Events *)

Inductive Event :=
| CheckCalled (waiter : nat) (wtxid : Wtxid)
| WaiterWoken (waiter : nat)
| AnswerArrived (task : nat) (answer : list MempoolAcceptance + string)
| VerdictSent (task : nat)
| EntryDropped (task : nat)
| SenderDropped (task : nat).

(** A verdict, of what transaction. *)
Abbreviation Opinion := (Instant * Wtxid * Verdict)%type (only parsing).

(** The state after an event and the verdict it returns to a handler, if it can happen. *)
Definition step (self : FinalizeBitcoinCheck) (now : Instant) (e : Event)
    : option (FinalizeBitcoinCheck * list Opinion) :=
  match e with
  | CheckCalled waiter wtxid =>
      match waiters self !! waiter with
      | Some _ => None
      | None =>
          let '(self, verdict) := check_uncounted self now waiter wtxid in
          Some (self, match verdict with Some v => [(now, wtxid, v)] | None => [] end)
      end
  | WaiterWoken waiter =>
      w ← waiters self !! waiter;
      '(self, verdict) ← check_woken self now waiter;
      Some (self, [(now, wa_wtxid w, verdict)])
  | AnswerArrived task answer => (., []) <$> run_answered self now task answer
  | VerdictSent task => (., []) <$> run_send self task
  | EntryDropped task => (., []) <$> entry_drop self task
  | SenderDropped task => (., []) <$> sender_drop self task
  end.

(** What bitcoind said in an event. *)
Definition said (self : FinalizeBitcoinCheck) (now : Instant) (e : Event) : list Opinion :=
  match e with
  | AnswerArrived task answer =>
      match running self !! task with
      | Some r => [(now, rn_wtxid r, run_verdict answer)]
      | None => []
      end
  | _ => []
  end.

(** The states of a check with what bitcoind said and what the handlers were told. *)
Inductive history : Instant -> FinalizeBitcoinCheck -> list Opinion -> list Opinion -> Prop :=
| history_new now : history now check_new [] []
| history_step now now' c c' e answers told out :
    history now c answers told -> now <= now' -> step c now' e = Some (c', out) ->
    history now' c' (answers ++ said c now' e) (told ++ out).

(** ** The invariant *)

(** A task whose entry is in the map. *)
Definition registered (s : Stage) : Prop := s <> Unregistered.

Record check_inv (now : Instant) (c : FinalizeBitcoinCheck) (answers : list Opinion) : Prop := {
  (** the entries are the tasks that have not dropped theirs *)
  ci_flight w i : in_flight c !! w = Some i <->
    exists s, running c !! i = Some (mkRunning w s) /\ registered s;
  ci_running i r : running c !! i = Some r ->
    exists ch, channels c !! i = Some ch /\ ch_wtxid ch = rn_wtxid r;
  ci_answered i w v : running c !! i = Some (mkRunning w (Answered v)) ->
    exists t, t <= now /\ (t, w, v) ∈ answers;
  ci_value i ch v : channels c !! i = Some ch -> ch_value ch = Some v ->
    exists t, t <= now /\ (t, ch_wtxid ch, v) ∈ answers;
  ci_waiter k w : waiters c !! k = Some w ->
    exists ch, channels c !! wa_channel w = Some ch /\ ch_wtxid ch = wa_wtxid w;
  ci_cached w at_ v : failures c !! w = Some (at_, v) ->
    at_ <= now /\ script_failed v = true /\ (at_, w, v) ∈ answers;
  ci_sticky t w v : (t, w, v) ∈ answers -> script_failed v = true -> now < t + FAILURE_TTL ->
    exists at_ v', failures c !! w = Some (at_, v') /\ t <= at_;
  ci_past t w v : (t, w, v) ∈ answers -> t <= now;
  ci_fresh i : (next_channel c <= i)%nat -> channels c !! i = None;
}.

Lemma check_new_inv now : check_inv now check_new [].
Proof.
  split; cbn; try (intros *; rewrite lookup_empty; done); try set_solver.
Qed.

(** Time passes. *)
Lemma check_inv_later now now' c answers :
  now <= now' -> check_inv now c answers -> check_inv now' c answers.
Proof.
  intros Hle []. split; try done.
  - intros i w v H. destruct (ci_answered0 _ _ _ H) as (t & ? & ?). exists t. split; [lia|done].
  - intros i ch v H H'. destruct (ci_value0 _ _ _ H H') as (t & ? & ?). exists t. split; [lia|done].
  - intros w a v H. destruct (ci_cached0 _ _ _ H) as (? & ? & ?). split_and!; [lia|done..].
  - intros t w v H Hs Hn. apply (ci_sticky0 t w v); [done..|lia].
  - intros t w v H. specialize (ci_past0 _ _ _ H). lia.
Qed.

Lemma set_stage_Some c task r s i r' :
  set_stage c task r s !! i = Some r' <->
  (task = i /\ mkRunning (rn_wtxid r) s = r') \/ (task <> i /\ running c !! i = Some r').
Proof. apply lookup_insert_Some. Qed.

(** A channel keeps its transaction when its value or its sender changes. *)
Lemma channel_keeps (m : gmap nat Channel) task ch0 new i ch :
  m !! task = Some ch0 -> ch_wtxid new = ch_wtxid ch0 -> m !! i = Some ch ->
  exists ch', <[task := new]> m !! i = Some ch' /\ ch_wtxid ch' = ch_wtxid ch.
Proof.
  intros H0 Hw Hch. destruct (decide (i = task)) as [->|].
  - exists new. rewrite lookup_insert_eq. split; congruence.
  - exists ch. by rewrite lookup_insert_ne.
Qed.

Section steps.
Context (now : Instant) (c : FinalizeBitcoinCheck) (answers : list Opinion)
        (Hinv : check_inv now c answers).

Lemma wait_on_inv k w i ch :
  channels c !! i = Some ch -> ch_wtxid ch = w -> check_inv now (wait_on c now k w i) answers.
Proof using Hinv.
  intros Hch Hw. destruct Hinv. split; try done. cbn. intros k' w'.
  intros [[<- <-]|[_ H]]%lookup_insert_Some; [by exists ch|by eapply ci_waiter0].
Qed.

Lemma running_bound i r : running c !! i = Some r -> (i < next_channel c)%nat.
Proof using Hinv.
  intros Hr. destruct (Nat.lt_ge_cases i (next_channel c)) as [?|Hge]; [done|].
  destruct (ci_running _ _ _ Hinv _ _ Hr) as (ch & Hch & _).
  by rewrite (ci_fresh _ _ _ Hinv _ Hge) in Hch.
Qed.

Lemma spawn_run_inv w : in_flight c !! w = None -> check_inv now (spawn_run c w) answers.
Proof using Hinv.
  intros Hnone. pose proof running_bound as Hb. destruct Hinv. split; try done; cbn.
  - intros w' i. split.
    + intros [[<- <-]|[Hw H]]%lookup_insert_Some.
      * exists Asking. by rewrite lookup_insert_eq.
      * apply ci_flight0 in H as (s & Hr & Hs). exists s. split; [|done].
        rewrite lookup_insert_ne; [done|]. apply Hb in Hr. lia.
    + intros (s & [[<- [= <- <-]]|[Hi H]]%lookup_insert_Some & Hs); [apply lookup_insert_eq|].
      assert (in_flight c !! w' = Some i) as Hf by (apply ci_flight0; by exists s).
      rewrite lookup_insert_ne; [done|]. intros ->. congruence.
  - intros i r [[<- <-]|[Hi H]]%lookup_insert_Some.
    + eexists. by rewrite lookup_insert_eq.
    + rewrite lookup_insert_ne by done. by apply ci_running0.
  - intros i w' v [[_ [=]]|[_ H]]%lookup_insert_Some. by eapply ci_answered0.
  - intros i ch v [[_ <-]|[_ H]]%lookup_insert_Some; [done|]. by eapply ci_value0.
  - intros k w' H. destruct (ci_waiter0 _ _ H) as (ch & Hch & Hw).
    exists ch. split; [|done]. rewrite lookup_insert_ne; [done|]. intros E.
    rewrite <- E, ci_fresh0 in Hch by lia. done.
  - intros i Hi. rewrite lookup_insert_ne by lia. apply ci_fresh0. lia.
Qed.

Lemma check_uncounted_inv k w : check_inv now (check_uncounted c now k w).1 answers.
Proof using Hinv.
  unfold check_uncounted. destruct (cached_failure c now w); [done|].
  destruct (in_flight c !! w) as [i|] eqn:E; cbn.
  - apply (ci_flight _ _ _ Hinv) in E as (s & Hr & _).
    destruct (ci_running _ _ _ Hinv _ _ Hr) as (ch & Hch & Hw). by eapply wait_on_inv.
  - pose proof (spawn_run_inv w E) as Hs. destruct Hs. split; try done. cbn.
    intros k' w' [[<- <-]|[_ H]]%lookup_insert_Some; [|by eapply ci_waiter0].
    eexists. cbn. by rewrite lookup_insert_eq.
Qed.

(** A task moves on without touching what is registered. *)
Lemma set_stage_flight task r s w i :
  running c !! task = Some r -> registered (rn_stage r) -> registered s ->
  in_flight c !! w = Some i <->
  exists s', set_stage c task r s !! i = Some (mkRunning w s') /\ registered s'.
Proof using Hinv.
  intros Hr Hreg Hs. rewrite (ci_flight _ _ _ Hinv). unfold set_stage. destruct r as [w0 s0]. cbn in *.
  destruct (decide (i = task)) as [->|Hi].
  - rewrite lookup_insert_eq, Hr. split; intros (s' & [= -> ->] & ?); by eexists.
  - by rewrite lookup_insert_ne by done.
Qed.

Lemma set_stage_running task r s i r' :
  running c !! task = Some r -> set_stage c task r s !! i = Some r' ->
  exists ch, channels c !! i = Some ch /\ ch_wtxid ch = rn_wtxid r'.
Proof using Hinv.
  intros Hr [[<- <-]|[_ H]]%set_stage_Some; [|by apply (ci_running _ _ _ Hinv)].
  by apply (ci_running _ _ _ Hinv _ _ Hr).
Qed.

Lemma run_answered_inv task answer c' r :
  run_answered c now task answer = Some c' -> running c !! task = Some r ->
  check_inv now c' (answers ++ [(now, rn_wtxid r, run_verdict answer)]).
Proof using Hinv.
  unfold run_answered. intros H Hr. rewrite Hr in H. cbn in H.
  destruct (rn_stage r) eqn:Hs; try done. injection H as <-.
  assert (registered (rn_stage r)) as Hreg by by rewrite Hs.
  pose proof (set_stage_flight task r (Answered (run_verdict answer)) ) as Hfl.
  pose proof (set_stage_running task r (Answered (run_verdict answer))) as Hrun.
  destruct Hinv. split; cbn.
  - intros w i. by apply Hfl.
  - intros i r'. by apply Hrun.
  - intros i w v [[<- [= <- <-]]|[_ H]]%set_stage_Some.
    + exists now. split; [lia|set_solver].
    + destruct (ci_answered0 _ _ _ H) as (t & ? & ?). exists t. set_solver.
  - intros i ch v Hch Hv. destruct (ci_value0 _ _ _ Hch Hv) as (t & ? & ?). exists t. set_solver.
  - done.
  - intros w a v H. destruct (script_failed (run_verdict answer)) eqn:Hf.
    + apply lookup_insert_Some in H as [[<- [= <- <-]]|[_ [H _]%map_lookup_filter_Some]].
      * split_and!; [lia|done|set_solver].
      * destruct (ci_cached0 _ _ _ H) as (? & ? & ?). set_solver.
    + destruct (ci_cached0 _ _ _ H) as (? & ? & ?). set_solver.
  - intros t w v [H|[= -> -> ->]%list_elem_of_singleton]%elem_of_app Hv Ht.
    + destruct (ci_sticky0 _ _ _ H Hv Ht) as (a & v' & Ha & Hle).
      destruct (script_failed (run_verdict answer)); [|by exists a, v'].
      destruct (decide (rn_wtxid r = w)) as [->|Hw].
      * eexists _, _. rewrite lookup_insert_eq. split; [done|]. by eapply ci_past0.
      * exists a, v'. rewrite lookup_insert_ne by done. split; [|done].
        apply map_lookup_filter_Some. split; [done|]. cbn. lia.
    + rewrite Hv. eexists _, _. rewrite lookup_insert_eq. split; [done|lia].
  - intros t w v [H|[= -> -> ->]%list_elem_of_singleton]%elem_of_app; [by eapply ci_past0|lia].
  - done.
Qed.

Lemma run_send_inv task c' : run_send c task = Some c' -> check_inv now c' answers.
Proof using Hinv.
  unfold run_send. intros H. destruct (running c !! task) as [r|] eqn:Hr; [|done]. cbn in H.
  destruct (rn_stage r) as [|v| |] eqn:Hs; try done. injection H as <-.
  assert (registered (rn_stage r)) as Hreg by by rewrite Hs.
  pose proof (set_stage_flight task r Sent) as Hfl. pose proof (set_stage_running task r Sent) as Hrun.
  destruct r as [w0 s0]. cbn in Hs. subst s0. destruct Hinv.
  destruct (ci_answered0 _ _ _ Hr) as (t0 & Ht0 & Hin0).
  destruct (ci_running0 _ _ Hr) as (ch0 & Hch0 & Hw0). cbn in Hw0.
  pose proof (channel_keeps (channels c) task ch0 (mkChannel w0 (Some v) true)) as Hkeep.
  split; cbn; try done.
  - intros w i. by apply Hfl.
  - intros i r' H. apply Hrun in H as (ch & Hch & Hw); [|done].
    destruct (Hkeep _ _ Hch0 ltac:(by cbn; congruence) Hch) as (ch' & ? & ?). exists ch'. split; congruence.
  - intros i w v' [[_ [=]]|[_ H]]%set_stage_Some. by eapply ci_answered0.
  - intros i ch v' [[<- <-]|[_ H]]%lookup_insert_Some; [|by eapply ci_value0].
    intros [= <-]. by exists t0.
  - intros k w H. destruct (ci_waiter0 _ _ H) as (ch & Hch & Hw).
    destruct (Hkeep _ _ Hch0 ltac:(by cbn; congruence) Hch) as (ch' & ? & ?). exists ch'. split; congruence.
  - intros i Hi. rewrite lookup_insert_ne; [by apply ci_fresh0|]. intros <-.
    by rewrite ci_fresh0 in Hch0.
Qed.

Lemma entry_drop_inv task c' : entry_drop c task = Some c' -> check_inv now c' answers.
Proof using Hinv.
  unfold entry_drop. intros H. destruct (running c !! task) as [[w0 s0]|] eqn:Hr; [|done]. cbn in H.
  assert (registered s0 /\ c' = mkFinalizeBitcoinCheck (failures c) (delete w0 (in_flight c))
            (set_stage c task (mkRunning w0 s0) Unregistered) (channels c) (waiters c) (next_channel c))
    as [Hreg ->] by by destruct s0; try done; injection H as <-.
  clear H. pose proof (set_stage_running task (mkRunning w0 s0) Unregistered) as Hrun.
  destruct Hinv. split; cbn; try done.
  - intros w i. rewrite lookup_delete_Some, ci_flight0. split.
    + intros (Hw & s & H & Hs). exists s. split; [|done].
      apply set_stage_Some. right. split; congruence.
    + intros (s & [[_ [= _ <-]]|[Hi H]]%set_stage_Some & Hs); [by destruct Hs|].
      split; [|by exists s]. intros <-.
      assert (in_flight c !! w0 = Some i) as E1 by (apply ci_flight0; by exists s).
      assert (in_flight c !! w0 = Some task) as E2 by (apply ci_flight0; by exists s0).
      congruence.
  - intros i r'. by apply Hrun.
  - intros i w v [[_ [=]]|[_ H]]%set_stage_Some. by eapply ci_answered0.
Qed.

Lemma sender_drop_inv task c' : sender_drop c task = Some c' -> check_inv now c' answers.
Proof using Hinv.
  unfold sender_drop. intros H. destruct (running c !! task) as [[w0 s0]|] eqn:Hr; [|done]. cbn in H.
  destruct s0; try done. destruct (channels c !! task) as [ch0|] eqn:Hch0; [|done]. injection H as <-.
  destruct Hinv.
  pose proof (channel_keeps (channels c) task ch0
    (mkChannel (ch_wtxid ch0) (ch_value ch0) false)) as Hkeep.
  split; cbn; try done.
  - intros w i. rewrite ci_flight0. split; intros (s & H & Hs); exists s; (split; [|done]).
    + rewrite lookup_delete_ne; [done|]. intros <-. rewrite Hr in H. injection H as <- <-. done.
    + by apply lookup_delete_Some in H as [_ ?].
  - intros i r' [_ H]%lookup_delete_Some. destruct (ci_running0 _ _ H) as (ch & Hch & Hw).
    destruct (Hkeep _ _ Hch0 ltac:(by cbn; congruence) Hch) as (ch' & ? & ?). exists ch'. split; congruence.
  - intros i w v [_ H]%lookup_delete_Some. by eapply ci_answered0.
  - intros i ch v [[<- <-]|[_ H]]%lookup_insert_Some Hv; [|by eapply ci_value0].
    cbn in Hv |- *. by eapply ci_value0.
  - intros k w H. destruct (ci_waiter0 _ _ H) as (ch & Hch & Hw).
    destruct (Hkeep _ _ Hch0 ltac:(by cbn; congruence) Hch) as (ch' & ? & ?). exists ch'. split; congruence.
  - intros i Hi. rewrite lookup_insert_ne; [by apply ci_fresh0|]. intros <-.
    by rewrite ci_fresh0 in Hch0.
Qed.
End steps.

(** ** Every history *)

Lemma step_inv now c answers e c' out :
  check_inv now c answers -> step c now e = Some (c', out) -> check_inv now c' (answers ++ said c now e).
Proof.
  intros Hinv H. destruct e as [k w|k|task answer|task|task|task]; cbn in H; cbn [said].
  - rewrite app_nil_r. destruct (waiters c !! k); [done|].
    pose proof (check_uncounted_inv _ _ _ Hinv k w) as Hc.
    destruct (check_uncounted c now k w) as [c2 v]. by injection H as <- _.
  - rewrite app_nil_r. destruct (waiters c !! k) as [w|] eqn:Hw; [|done]. cbn in H.
    unfold check_woken in H. rewrite Hw in H. cbn in H. destruct (wait_for c now w); [|done].
    injection H as <- _. destruct Hinv. split; try done. cbn.
    intros k' w' [_ Hk]%lookup_delete_Some. by eapply ci_waiter0.
  - destruct (run_answered c now task answer) as [c2|] eqn:E; [|done]. injection H as <- _.
    assert (exists r, running c !! task = Some r) as [r Hr].
    { unfold run_answered in E. destruct (running c !! task) as [r|]; [by exists r|done]. }
    rewrite Hr. by eapply run_answered_inv.
  - rewrite app_nil_r. destruct (run_send c task) as [c2|] eqn:E; [|done]. injection H as <- _.
    by eapply run_send_inv.
  - rewrite app_nil_r. destruct (entry_drop c task) as [c2|] eqn:E; [|done]. injection H as <- _.
    by eapply entry_drop_inv.
  - rewrite app_nil_r. destruct (sender_drop c task) as [c2|] eqn:E; [|done]. injection H as <- _.
    by eapply sender_drop_inv.
Qed.

(** A verdict a handler is told is one of bitcoind's, or none was had. *)
Definition backed (answers : list Opinion) (o : Opinion) : Prop :=
  (exists error, o.2 = Unavailable error) \/ exists t, t <= o.1.1 /\ (t, o.1.2, o.2) ∈ answers.

Lemma step_backed now c answers e c' out :
  check_inv now c answers -> step c now e = Some (c', out) -> Forall (backed answers) out.
Proof.
  intros Hinv H. destruct e as [k w|k|task answer|task|task|task]; cbn in H.
  - destruct (waiters c !! k); [done|]. unfold check_uncounted, cached_failure in H.
    destruct (failures c !! w) as [[a v]|] eqn:Hf; cbn in H.
    + destruct (now - a <? FAILURE_TTL).
      * injection H as _ <-. apply Forall_singleton. right.
        destruct (ci_cached _ _ _ Hinv _ _ _ Hf) as (Ha & _ & Hin). by exists a.
      * destruct (in_flight c !! w); injection H as _ <-; constructor.
    + destruct (in_flight c !! w); injection H as _ <-; constructor.
  - destruct (waiters c !! k) as [w|] eqn:Hw; [|done]. cbn in H. unfold check_woken in H.
    rewrite Hw in H. cbn in H. destruct (wait_for c now w) as [v|] eqn:Hv; [|done].
    injection H as _ <-. apply Forall_singleton. unfold wait_for in Hv.
    destruct (ci_waiter _ _ _ Hinv _ _ Hw) as (ch & Hch & <-). rewrite Hch in Hv. cbn in Hv.
    destruct (ch_value ch) as [v'|] eqn:Hval.
    + injection Hv as ->. right. by eapply ci_value.
    + left. repeat case_match; try done; injection Hv as <-; by eexists.
  - destruct (run_answered c now task answer); [|done]. injection H as _ <-. constructor.
  - destruct (run_send c task); [|done]. injection H as _ <-. constructor.
  - destruct (entry_drop c task); [|done]. injection H as _ <-. constructor.
  - destruct (sender_drop c task); [|done]. injection H as _ <-. constructor.
Qed.

Lemma history_inv now c answers told :
  history now c answers told -> check_inv now c answers /\ Forall (backed answers) told.
Proof.
  induction 1 as [now|now now' c c' e answers told out _ [Hinv Htold] Hle Hstep].
  { split; [apply check_new_inv|constructor]. }
  apply (check_inv_later _ now') in Hinv; [|done]. split; [by eapply step_inv|].
  apply Forall_app. split; eapply Forall_impl; [exact Htold| |by eapply step_backed|];
    (intros o [H|(t & ? & ?)]; [by left|right; exists t; set_solver]).
Qed.

(** The shared check of bitcoind, under every interleaving of the handlers and of the tasks
    they spawn.  A handler is told what bitcoind said of its own transaction, or that nothing
    was had; so it refuses only where bitcoind failed these scripts.  At most one call per
    transaction is under way.  Once bitcoind has failed the scripts of a transaction, every
    handler that asks within five minutes is refused at once, without another call.  And a
    handler that has waited its ten seconds is woken. *)
Theorem bitcoin_check_sound now c answers told :
  history now c answers told ->
  Forall (backed answers) told
  /\ (forall i j w, running c !! i = Some (mkRunning w Asking) ->
        running c !! j = Some (mkRunning w Asking) -> i = j)
  /\ (forall t w v k now', (t, w, v) ∈ answers -> script_failed v = true ->
        now <= now' < t + FAILURE_TTL ->
        exists v', check_uncounted c now' k w = (c, Some v') /\ script_failed v' = true)
  /\ (forall k w now', waiters c !! k = Some w -> wa_deadline w <= now' ->
        exists c' v, check_woken c now' k = Some (c', v)).
Proof.
  intros [Hinv Htold]%history_inv. split_and!; [done|..].
  - intros i j w Hi Hj.
    assert (in_flight c !! w = Some i) as E1 by (apply (ci_flight _ _ _ Hinv); by exists Asking).
    assert (in_flight c !! w = Some j) as E2 by (apply (ci_flight _ _ _ Hinv); by exists Asking).
    congruence.
  - intros t w v k now' Hin Hv Ht.
    destruct (ci_sticky _ _ _ Hinv _ _ _ Hin Hv) as (a & v' & Hf & Ha); [lia|].
    exists v'. split; [|by apply (ci_cached _ _ _ Hinv _ _ _ Hf)].
    unfold check_uncounted, cached_failure. rewrite Hf. cbn.
    by rewrite (proj2 (Z.ltb_lt _ _)) by lia.
  - intros k w now' Hk Hd. unfold check_woken, wait_for. rewrite Hk. cbn.
    destruct (ci_waiter _ _ _ Hinv _ _ Hk) as (ch & Hch & _). rewrite Hch. cbn.
    rewrite (proj2 (Z.leb_le _ _) Hd). destruct (ch_value ch); cbn; [by eexists _, _|].
    destruct (ch_open ch); by eexists _, _.
Qed.

(** Two handlers ask about transaction 7, bitcoind fails its scripts, and a third one asks a
    minute later. *)
Definition bad_scripts : list MempoolAcceptance :=
  [mkMempoolAcceptance false (Some "mandatory-script-verify-flag-failed") None].

Definition story : list (Instant * Event) :=
  [(0, CheckCalled 0 7); (50, CheckCalled 1 7); (900, AnswerArrived 0 (inl bad_scripts));
   (901, VerdictSent 0); (902, EntryDropped 0); (903, WaiterWoken 0); (904, SenderDropped 0);
   (905, WaiterWoken 1); (60000, CheckCalled 2 7)].

(** The last state of a story, with what was said and told. *)
Fixpoint play (c : FinalizeBitcoinCheck) (answers told : list Opinion) (l : list (Instant * Event))
    : option (FinalizeBitcoinCheck * list Opinion * list Opinion) :=
  match l with
  | [] => Some (c, answers, told)
  | (now, e) :: l =>
      '(c', out) ← step c now e;
      play c' (answers ++ said c now e) (told ++ out) l
  end.

Lemma play_history l : forall now c answers told c' answers' told',
  history now c answers told -> StronglySorted (fun a b => a <= b) (now :: l.*1) ->
  play c answers told l = Some (c', answers', told') ->
  history (List.last l.*1 now) c' answers' told'.
Proof.
  induction l as [|[t e] l IH]; intros now c answers told c' answers' told' Hh Hs H; cbn in H.
  { by injection H as <- <- <-. }
  destruct (step c t e) as [[c2 out]|] eqn:E; [|done]. cbn in H, Hs.
  apply StronglySorted_inv in Hs as [Hs Hle]. apply Forall_cons in Hle as [Hle _].
  replace (List.last ((t, e) :: l).*1 now) with (List.last l.*1 t).
  - eapply IH; [by eapply history_step|done..].
  - cbn. destruct (l.*1) as [|x xs] eqn:El; [done|]. clear. revert x. induction xs as [|y ys IHx]; [done|].
    intros x. apply (IHx y).
Qed.

Definition ending : FinalizeBitcoinCheck * list Opinion * list Opinion :=
  default (check_new, [], []) (play check_new [] [] story).

Lemma story_history : history 60000 ending.1.1 ending.1.2 ending.2.
Proof.
  apply (play_history story 0 check_new [] []); [constructor| |vm_compute; reflexivity].
  repeat constructor; discriminate.
Qed.

(** All three are refused, the last one without a call. *)
Lemma bitcoin_check_sound_witness :
  ending.2 = (fun t => (t, 7, ScriptFailure "mandatory-script-verify-flag-failed" None)) <$> [903; 905; 60000]
  /\ Forall (backed ending.1.2) ending.2.
Proof.
  split; [vm_compute; reflexivity|]. apply (bitcoin_check_sound 60000 _ _ _ story_history).
Defined.

(** ** Probes *)

Definition PROBE_INTERVAL : Z := 60 * 60 * 1000.
Definition PROBE_POLL : Z := 60 * 1000.

(** Why a probe did not pass: the texts of [Missed] and [Unanswered]. *)
Inductive ProbeError :=
| StandardSpendRejected (reason : string)
| ScriptsPassed (reason : string)
| ScriptsNotReached (reason : string)
| BadSpendAccepted
| NoAnswer (error : CheckError).

#[export] Instance ProbeError_eq_dec : EqDecision ProbeError.
Proof. solve_decision. Defined.

Inductive Probed :=
| Refused
| ProbeAnswered
| Missed (error : ProbeError)
| Unanswered (error : ProbeError).

Definition spend_probe_result (results : list MempoolAcceptance) : Probed :=
  match classify results with
  | ScriptFailure reason _ =>
      if fails_script_check reason then Refused else Missed (StandardSpendRejected reason)
  | RejectedOther reason =>
      if bool_decide (reason = "max-fee-exceeded") then Missed (ScriptsPassed reason)
      else Missed (ScriptsNotReached reason)
  | Accepted => Missed BadSpendAccepted
  | Unavailable error => Unanswered (NoAnswer error)
  end.

Record Probes := mkProbes {
  pr_answers : option bool;
  refuses_bad_spend : option bool;
  blind : Z;
  logged : option (ProbeError * Instant);
}.

Definition probes_default : Probes := mkProbes None None (-1) None.

(** [Probes::record]; the gauge is set to [blind]. *)
Definition probes_record (self : Probes) (now : Instant) (probed : Probed) : Probes :=
  let '(answers, refuses, error) :=
    match probed with
    | Refused => (Some true, Some true, None)
    | ProbeAnswered => (Some true, refuses_bad_spend self, None)
    | Missed error => (Some true, Some false, Some error)
    | Unanswered error => (Some false, refuses_bad_spend self, Some error)
    end in
  let blind' :=
    match answers, refuses with
    | Some false, _ | _, Some false => 1
    | _, Some true => 0
    | _, _ => -1
    end in
  let logged' :=
    match error with
    | Some error =>
        if match logged self with
           | None => true
           | Some (last, at_) => negb (bool_decide (last = error)) || (PROBE_INTERVAL <=? now - at_)
           end
        then Some (error, now) else logged self
    | None => if blind' =? 1 then logged self else if blind self =? 1 then None else logged self
    end in
  mkProbes answers refuses blind' logged'.

(** The last probe that spent: whether bitcoind refused the spend. *)
Definition spend_seen (p : Instant * Probed) : option bool :=
  match p.2 with Refused => Some true | Missed _ => Some false | _ => None end.
Definition unanswered (p : Probed) : bool := match p with Unanswered _ => true | _ => false end.

Definition record_all (ps : list (Instant * Probed)) : Probes :=
  fold_left (fun self '(now, p) => probes_record self now p) ps probes_default.

(** The gauge says what the probes saw: blind exactly when the last probe had no answer or the
    last spend with invalid signatures was not refused, seeing when it was, and unknown
    before the first spend. *)
Theorem blind_exact ps now p :
  let self := record_all (ps ++ [(now, p)]) in
  blind self = match last (omap spend_seen (ps ++ [(now, p)])) with
               | Some false => 1
               | Some true => if unanswered p then 1 else 0
               | None => if unanswered p then 1 else -1
               end.
Proof.
  assert (forall l, refuses_bad_spend (record_all l) = last (omap spend_seen l)) as Hl.
  { intros l. induction l as [|[t q] l IH] using rev_ind; [done|].
    unfold record_all. rewrite fold_left_app, omap_app. cbn. fold (record_all l).
    destruct q; cbn; rewrite ?last_snoc, ?app_nil_r; done. }
  cbn zeta. pose proof (Hl ps) as Hps. unfold record_all. rewrite fold_left_app, omap_app.
  cbn [fold_left]. fold (record_all ps). destruct p; cbn; rewrite ?last_snoc, ?app_nil_r, <- ?Hps; try done;
    by destruct (refuses_bad_spend (record_all ps)) as [[]|].
Qed.
