(* ===== verification/WithdrawalSigning.v ===== *)
(** * Signing withdrawals

    The signing half of [crates/hashi/src/withdrawals.rs]: what a validator checks before it
    puts its BLS signature under each message of a withdrawal (the approval of a request, the
    request to the guardian, a chunk of MPC signatures, the finalized transaction, its
    confirmation, a committee transition), the preparation of the MPC signing of the inputs,
    and the order in which its results are forwarded.

    Schnorr and BLS signatures, taproot leaves, sighashes, hashes and BCS are the fields of
    [SigningEnv].  The messages of errors are constructors; metrics and log lines are left
    out.  What bitcoind and the screening service answer are arguments. *)

From stdpp Require Import strings.
From S2P Require Import Limiter CoinSelection Committee TxUtxos Guardian MonitorDomain Withdrawals Retry WithdrawalBatch FinalizeCheck Prelude.

(** ** Messages *)

Record WithdrawalRequestApproval := mkWithdrawalRequestApproval { wa_request_id : Address }.

Record WithdrawalTxSigning := mkWithdrawalTxSigning {
  ws_withdrawal_id : Address;
  ws_signatures : list (list Z);
  ws_guardian_signatures : list (list Z);
}.

Record MpcInputSignaturesMessage := mkMpcInputSignaturesMessage {
  mi_withdrawal_id : Address;
  mi_indices : list Z;
  mi_signatures : list (list Z);
}.

Record WithdrawalConfirmation := mkWithdrawalConfirmation { wc_withdrawal_id : Address }.

(** ** What signing takes from other crates *)

Class SigningEnv `{NE : NodeEnv} `{GC : GuardianCrypto} := {
  (** fastcrypto's Schnorr signatures over x-only keys *)
  SchnorrPublicKey : Type;
  SchnorrSignature : Type;
  schnorr_pk_from_byte_array : GuardianBtcPubkey -> option SchnorrPublicKey;
  schnorr_sig_from_byte_array : list Z -> option SchnorrSignature;
  schnorr_verify : SchnorrPublicKey -> list Z -> SchnorrSignature -> bool;
  (** [derive_verifying_key] and [XOnlyPublicKey::from_slice] *)
  derive_verifying_key : MpcKey -> DerivationPath -> option GuardianBtcPubkey;
  (** the script, the control block and the leaf hash of a bridge output *)
  TapLeafHash : Type;
  taproot_2of2_witness_artifacts :
    GuardianBtcPubkey -> MpcKey -> DerivationPath -> list Z * list Z * TapLeafHash;
  (** [SighashCache::taproot_script_spend_signature_hash] of an input *)
  taproot_script_spend_signature_hash :
    Transaction -> list TxOut -> nat -> TapLeafHash -> option (list Z);
  (** Blake2b of the BCS of a transaction id and an input index *)
  signing_id_digest : Address -> Z -> Address;
  (** the random oracle of the signing delta *)
  Delta : Type;
  message_delta : list Z -> Z -> list Z -> Delta;
  (** BLS *)
  BlsPrivateKey : Type;
  bls_public_key : BlsPrivateKey -> BlsPublicKey;
  bls_sign : BlsPrivateKey -> list Z -> BlsSignature;
  (** [Address::from_script] *)
  from_script : ScriptBuf -> Network -> option AddressChecked;
  network_of : BtcNetwork -> Network;
  (** BCS *)
  approval_bcs : WithdrawalRequestApproval -> list Z;
  commitment_bcs : WithdrawalTxCommitment -> list Z;
  signing_bcs : WithdrawalTxSigning -> list Z;
  input_signatures_bcs : MpcInputSignaturesMessage -> list Z;
  withdrawal_confirmation_bcs : WithdrawalConfirmation -> list Z;
}.

(** What these crates document. *)
Class SigningEnvLaws `{SE : SigningEnv} := {
  bls_sign_valid k m : pk_verify (bls_public_key k) m (bls_sign k m) = true;
  (** an address made for a network is an address of that network *)
  from_script_network s n a : from_script s n = Some a -> require_network (into_unchecked a) n = Some a;
  from_script_witness p s n : script_pubkey_from_witness_program p = Some s -> is_Some (from_script s n);
  (** fails only on an index out of range or another number of prevouts *)
  sighash_defined tx prevouts i leaf :
    (i < length (input tx))%nat -> length prevouts = length (input tx) ->
    is_Some (taproot_script_spend_signature_hash tx prevouts i leaf);
}.

Section signing.
Context `{SE : SigningEnv}.

#[export] Instance approval_intent : IntentMessage WithdrawalRequestApproval := {|
  INTENT := Committee.WithdrawalRequestApproval; to_bcs := approval_bcs |}.
#[export] Instance commitment_intent : IntentMessage WithdrawalTxCommitment := {|
  INTENT := WithdrawalCommitment; to_bcs := commitment_bcs |}.
#[export] Instance signing_intent : IntentMessage WithdrawalTxSigning := {|
  INTENT := WithdrawalSigned; to_bcs := signing_bcs |}.
#[export] Instance input_signatures_intent : IntentMessage MpcInputSignaturesMessage := {|
  INTENT := MpcInputSignatures; to_bcs := input_signatures_bcs |}.
#[export] Instance withdrawal_confirmation_intent : IntentMessage WithdrawalConfirmation := {|
  INTENT := Committee.WithdrawalConfirmation; to_bcs := withdrawal_confirmation_bcs |}.

(** A node with what it signs with. *)
Record Signer := mkSigner {
  sg_hashi : Hashi;
  cfg_validator_address : option Address;
  hashi_object_id : Address;
  committees : gmap Z Committee;
  raw_committees : gmap Z MoveCommittee;
  (** [Database::find_signing_key_matching]; [None] is a failing or corrupt database *)
  find_signing_key_matching : BlsPublicKey -> option (option BlsPrivateKey);
  (** the epoch of the signing manager, if there is one *)
  signing_manager : option Z;
  (** the [bitcoin_confirmation_threshold] entry of the on-chain configuration, if a [u64] *)
  cfg_confirmation_threshold : option Z;
}.

Inductive Refusal :=
| NoValidatorAddress
| NoCommittee (epoch : Z)
| NotInCommittee (epoch : Z)
| SigningKeyLookupFailed
| NoMatchingSigningKey
| RequestNotFound (id : Address)
| TransactionNotFound (id : Address)
| WithdrawalAlreadyFinalized (id : Address)
| NotMpcSigned (pending : Z)
| NotFullySigned
| NotConfirmed (status : TxStatus)
| StatusUnavailable
| StaleSigningEpoch (signing_epoch current : Z)
| NoSigningManager (epoch : Z)
| TimestampDrift (drift : Z)
| DuplicateIndex (input_index : Z)
| IndexOutOfRange (input_index : Z)
| ChunkLengths (indices signatures : Z)
| EmptyChunk
| SignatureCounts (mpc guardian input_count : Z)
| SignatureLength (input_index : Z)
| IndexAlreadySigned (input_index : Z)
| NothingToSign
| RandomnessLength
| LimiterRejected (e : LocalLimiterError)
| LimiterSeqMissing
| LimiterSeqUnexpected
| NoBridgeKey
| NoGuardianKey
| InvalidSchnorrKey
| InvalidMpcSignature (i : nat)
| MpcVerificationFailed (i : nat)
| InvalidGuardianSignature (i : nat)
| GuardianVerificationFailed (i : nat)
| TxidMismatch (rebuilt : Txid)
| WitnessCounts
| ScriptFailed
| BadOutputScript
| BadGuardianUtxos (e : TxError)
| NoTransition (from_epoch : Z)
| CallerNotMember (caller : Address)
| NoProbeUtxo
| ProbeNotRefused (probed : Probed).

#[local] Abbreviation R := (outcome Refusal).

(** ** Shapes *)

(** A [for] loop over a [BTreeSet] of seen indices. *)
Fixpoint check_indices (seen : gset Z) (requested : list Z) (input_count : nat) : R unit :=
  match requested with
  | [] => Ok tt
  | input_index :: requested =>
      _ ← guard (negb (bool_decide (input_index ∈ seen))) (DuplicateIndex input_index);
      _ ← guard (negb (Z.of_nat input_count <=? input_index)) (IndexOutOfRange input_index);
      check_indices ({[input_index]} ∪ seen) requested input_count
  end.
Definition check_requested_input_indices (requested : list Z) (input_count : nat) : R unit :=
  check_indices ∅ requested input_count.

Definition SIGNATURE_SIZE_IN_BYTES : nat := 64.

(** The first signature of another length, by its index. *)
Definition check_signature_lengths (signatures : list (list Z)) (input_indices : list Z) : R unit :=
  match List.find (fun e : list Z * Z => negb (length e.1 =? SIGNATURE_SIZE_IN_BYTES)%nat)
          (zip signatures input_indices) with
  | Some (_, input_index) => Err (SignatureLength input_index)
  | None => Ok tt
  end.

Definition check_mpc_input_signatures_shape (indices : list Z) (signatures : list (list Z))
    (input_count : nat) : R unit :=
  _ ← guard (length indices =? length signatures)%nat
        (ChunkLengths (Z.of_nat (length indices)) (Z.of_nat (length signatures)));
  _ ← guard (nonempty indices) EmptyChunk;
  _ ← check_requested_input_indices indices input_count;
  check_signature_lengths signatures indices.

Definition check_withdrawal_tx_signing_shape (signatures guardian_signatures : list (list Z))
    (input_count : nat) : R unit :=
  _ ← guard ((length signatures =? input_count)%nat && (length guardian_signatures =? input_count)%nat)
        (SignatureCounts (Z.of_nat (length signatures)) (Z.of_nat (length guardian_signatures))
           (Z.of_nat input_count));
  _ ← check_signature_lengths signatures (Z.of_nat <$> seq 0 (length signatures));
  check_signature_lengths guardian_signatures (Z.of_nat <$> seq 0 (length guardian_signatures)).

(** [map(..).collect::<Result<_>>] stops at the first index that is signed. *)
Definition select_withdrawal_signing_indices (sb : SigningBatch) (requested : list Z)
    : R (list Z) :=
  match requested with
  | [] => Ok (unsigned_indices sb)
  | _ =>
      _ ← check_requested_input_indices requested (length (signatures sb));
      mapM (fun i => match pending_index sb i with
                     | Some _ => Ok i
                     | None => Err (IndexAlreadySigned i)
                     end) requested
  end.

Definition ensure_ready_to_finalize (txn : WithdrawalTransaction) : R unit :=
  _ ← guard (negb (is_fully_signed txn)) (WithdrawalAlreadyFinalized (wt_id txn));
  guard (is_complete (signing txn)) (NotMpcSigned (pending_count (signing txn))).

Definition ensure_current_signing_epoch (txn : WithdrawalTransaction) (epoch : Z) : R unit :=
  guard (sb_epoch (signing txn) =? epoch) (StaleSigningEpoch (sb_epoch (signing txn)) epoch).

Definition withdrawal_limiter_consumption_amount (txn : WithdrawalTransaction) : Z :=
  limiter_outflow (usum (mu_amount <$> wt_inputs txn)) (wt_change_outputs txn).

Definition ensure_committed_txid (txn : WithdrawalTransaction) (tx : Transaction) : R unit :=
  guard (wt_txid txn =? compute_txid tx) (TxidMismatch (compute_txid tx)).

(** ** Keys and sighashes *)

Definition deposit_pubkey (self : Hashi) (path : option Address) : option GuardianBtcPubkey :=
  verifying_key ← mpc_master_g self;
  derive_verifying_key verifying_key (normalized_derivation_path path).

Definition deposit_spend_artifacts (self : Hashi) (path : option Address)
    : option (list Z * list Z * TapLeafHash) :=
  mpc_g ← mpc_master_g self;
  guardian_pubkey ← require_guardian_btc_pubkey self;
  Some (taproot_2of2_witness_artifacts guardian_pubkey mpc_g (normalized_derivation_path path)).

(** A sighash that cannot be computed, or a missing leaf hash, panics. *)
Definition taproot_script_spend_sighashes {E} (tx : Transaction) (prevouts : list TxOut)
    (leaf_hashes : list TapLeafHash) : outcome E (list (list Z)) :=
  mapM (fun index =>
          leaf ← expect (leaf_hashes !! index);
          expect (taproot_script_spend_signature_hash tx prevouts index leaf))
    (seq 0 (length (input tx))).

Definition spend_input (self : Hashi) (u : MoveUtxo) : option (TxOut * TapLeafHash) :=
  address ← get_deposit_address self (derivation_path u);
  '(_, _, leaf_hash) ← deposit_spend_artifacts self (derivation_path u);
  Some (mkTxOut (mu_amount u) (script_pubkey address), leaf_hash).

Definition withdrawal_signing_messages (self : Hashi) (unsigned_tx : Transaction)
    (inputs : list MoveUtxo) : R (list (list Z)) :=
  match mapM (spend_input self) inputs with
  | None => Err NoBridgeKey
  | Some spend_inputs =>
      taproot_script_spend_sighashes unsigned_tx spend_inputs.*1 spend_inputs.*2
  end.

(** ** BLS signatures *)

(** The signature with the key that made it, as it is sent to the leader. *)
Record SignatureProto := mkSignatureProto {
  sp_signature : MemberSignature;
  sp_public_key : BlsPublicKey;
}.

Definition find_signing_key_for_committee (self : Signer) (committee : Committee)
    (validator : Address) (epoch : Z) : R BlsPrivateKey :=
  match List.find (fun m => cm_address m =? validator) (c_members committee) with
  | None => Err (NotInCommittee epoch)
  | Some m =>
      match find_signing_key_matching self (public_key m) with
      | None => Err SigningKeyLookupFailed
      | Some None => Err NoMatchingSigningKey
      | Some (Some key) => Ok key
      end
  end.

Definition private_key_sign {T} `{IntentMessage T} (key : BlsPrivateKey) (hashi_id : Address)
    (epoch : Z) (address : Address) (message : T) : MemberSignature :=
  mkMemberSignature epoch address (bls_sign key (signing_message hashi_id epoch message)).

Definition sign_message_proto_at_epoch {T} `{IntentMessage T} (self : Signer) (message : T)
    (epoch : Z) : R SignatureProto :=
  match cfg_validator_address self with
  | None => Err NoValidatorAddress
  | Some validator =>
      match committees self !! epoch with
      | None => Err (NoCommittee epoch)
      | Some committee =>
          key ← find_signing_key_for_committee self committee validator epoch;
          Ok (mkSignatureProto (private_key_sign key (hashi_object_id self) epoch validator message)
                (bls_public_key key))
      end
  end.

Definition sign_message_proto {T} `{IntentMessage T} (self : Signer) (message : T)
    : R SignatureProto :=
  sign_message_proto_at_epoch self message (onchain_epoch (onchain_state (sg_hashi self))).

Definition withdrawal_txn (self : Signer) (id : Address) : R WithdrawalTransaction :=
  match withdrawal_txns (onchain_state (sg_hashi self)) !! id with
  | Some txn => Ok txn
  | None => Err (TransactionNotFound id)
  end.

(** ** Approval of a request *)

(** The answers of the screening service. *)
Inductive TrmVerdict := TrmApproved | TrmPending | TrmRejected.
Inductive TrmError := TrmTransient | TrmPermanent.

Inductive WithdrawalApprovalError :=
| AlreadyApproved
| AmlServiceError
| SanctionsCheckRejected
| NeverRetry.

Inductive WithdrawalApprovalErrorKind :=
| WKAlreadyApproved | WKAmlServiceError | WKFailedQuorum | WKSubmitFailed | WKTimedOut | WKTaskFailed
| WKNeverRetry.

#[export] Instance WithdrawalApprovalErrorKind_eq_dec : EqDecision WithdrawalApprovalErrorKind.
Proof. solve_decision. Defined.

Definition approval_error_kind (self : WithdrawalApprovalError) : WithdrawalApprovalErrorKind :=
  match self with
  | AlreadyApproved => WKAlreadyApproved
  | AmlServiceError => WKAmlServiceError
  | SanctionsCheckRejected | NeverRetry => WKNeverRetry
  end.

#[export] Instance approval_retry_policy : RetryPolicy WithdrawalApprovalErrorKind := {
  retry_base_delay_ms k := match k with WKNeverRetry => u64_max | _ => 5 * 1000 end;
  max_delay_ms _ := 2 * 60 * 1000;
  max_retries k := match k with WKNeverRetry => 0 | _ => u32_max end;
}.

Inductive WithdrawalBroadcastErrorKind := BitcoinRpc | SuiConfirmation | BroadcastTaskFailed.

#[export] Instance WithdrawalBroadcastErrorKind_eq_dec : EqDecision WithdrawalBroadcastErrorKind.
Proof. solve_decision. Defined.

#[export] Instance broadcast_retry_policy : RetryPolicy WithdrawalBroadcastErrorKind := {
  retry_base_delay_ms _ := 30 * 1000;
  max_delay_ms _ := 10 * 60 * 1000;
  max_retries _ := u32_max;
}.

Definition ensure_awaits_approval (request : MoveWithdrawalRequest)
    : outcome WithdrawalApprovalError unit :=
  _ ← guard (negb (is_committed request)) AlreadyApproved;
  guard (negb (is_approved request)) AlreadyApproved.

Definition withdrawal_screening_outcome (result : TrmVerdict + TrmError)
    : outcome WithdrawalApprovalError unit :=
  match result with
  | inl TrmApproved => Ok tt
  | inl TrmPending => Err AmlServiceError
  | inl TrmRejected => Err SanctionsCheckRejected
  | inr TrmTransient => Err AmlServiceError
  | inr TrmPermanent => Err SanctionsCheckRejected
  end.

(** [trm] is the client, if one is configured: what it answers for an address and a sender. *)
Definition screen_withdrawal (self : Signer)
    (trm : option (AddressChecked -> Address -> TrmVerdict + TrmError))
    (request : MoveWithdrawalRequest) : outcome WithdrawalApprovalError unit :=
  match trm with
  | None => Ok tt
  | Some screen =>
      match script_pubkey_from_witness_program (wr_bitcoin_address request)
            ≫= fun script => from_script script (network_of (bitcoin_network (config (sg_hashi self))))
      with
      | None => Err NeverRetry
      | Some bitcoin_address =>
          withdrawal_screening_outcome (screen bitcoin_address (wr_sender request))
      end
  end.

Definition validate_and_sign_withdrawal_request_approval (self : Signer)
    (trm : option (AddressChecked -> Address -> TrmVerdict + TrmError))
    (approval : WithdrawalRequestApproval) : outcome WithdrawalApprovalError SignatureProto :=
  match requests (onchain_state (sg_hashi self)) !! wa_request_id approval with
  | None => Err NeverRetry
  | Some request =>
      _ ← ensure_awaits_approval request;
      _ ← screen_withdrawal self trm request;
      match sign_message_proto self approval with
      | Ok s => Ok s
      | Err _ => Err NeverRetry
      | Panic => Panic
      end
  end.

Definition sign_withdrawal_tx_commitment (self : Signer) (approval : WithdrawalTxCommitment)
    : R SignatureProto :=
  sign_message_proto self approval.

(** ** Confirmation *)

Definition bitcoin_confirmation_threshold (self : Signer) : Z :=
  match cfg_confirmation_threshold self with
  | Some v => if v <=? u32_max then v else u32_max
  | None => 6
  end.

(** [status] is what bitcoind answers for a txid; [None] is an error. *)
Definition sign_withdrawal_confirmation (self : Signer) (id : Address)
    (status : Txid -> option TxStatus) : R SignatureProto :=
  txn ← withdrawal_txn self id;
  _ ← guard (is_fully_signed txn) NotFullySigned;
  _ ← match status (wt_txid txn) with
      | None => Err StatusUnavailable
      | Some (StatusConfirmed confirmations) =>
          guard (bitcoin_confirmation_threshold self <=? confirmations)
            (NotConfirmed (StatusConfirmed confirmations))
      | Some s => Err (NotConfirmed s)
      end;
  sign_message_proto self (mkWithdrawalConfirmation (wt_id txn)).

(** ** The request to the guardian *)

Definition GUARDIAN_TIMESTAMP_TOLERANCE_SECS : Z := 600.

Definition bound_leader_timestamp (self : Hashi) (timestamp_secs : Z) : R unit :=
  let latest := latest_checkpoint_timestamp_ms (onchain_state self) / 1000 in
  let drift := Z.abs (timestamp_secs - latest) in
  guard (drift <=? GUARDIAN_TIMESTAMP_TOLERANCE_SECS) (TimestampDrift drift).

(** [InputUTXO::from] *)
Definition input_utxo_of (u : MoveUtxo) : InputUTXO :=
  mkInputUTXO (mu_id u) (mu_amount u) (default ZERO_PATH (derivation_path u)).

(** An output by its position: a payout of a request, or change. *)
Definition guardian_output (num_requests : nat) (network : Network) (i : nat) (output : OutputUtxo)
    : R (OutputUTXOWire AddressUnchecked) :=
  if (i <? num_requests)%nat then
    match script_pubkey_from_witness_program (bitcoin_address output)
          ≫= fun script => from_script script network with
    | Some address => Ok (External (into_unchecked address) (ou_amount output))
    | None => Err BadOutputScript
    end
  else Ok (Internal ZERO_PATH (ou_amount output)).

(** [enumerate().map(..).collect::<Result<_>>()] *)
Fixpoint guardian_outputs (num_requests : nat) (network : Network) (i : nat)
    (outputs : list OutputUtxo) : R (list (OutputUTXOWire AddressUnchecked)) :=
  match outputs with
  | [] => Ok []
  | o :: outputs =>
      o ← guardian_output num_requests network i o;
      rest ← guardian_outputs num_requests network (S i) outputs;
      Ok (o :: rest)
  end.

Definition from_withdrawal_txn (txn : WithdrawalTransaction) (network : Network) : R TxUTXOs :=
  outputs ← guardian_outputs (length (wt_request_ids txn)) network 0 (all_outputs txn);
  match TxUTXOs_new (input_utxo_of <$> wt_inputs txn) outputs network with
  | Ok t => Ok t
  | Err e => Err (BadGuardianUtxos e)
  | Panic => Panic
  end.

Definition build_guardian_withdrawal_request (self : Hashi) (txn : WithdrawalTransaction)
    (timestamp_secs seq : Z) : R StandardWithdrawalRequest :=
  utxos ← from_withdrawal_txn txn (network_of (bitcoin_network (config self)));
  Ok (mkStandardWithdrawalRequest (wt_id txn) utxos timestamp_secs seq).

Definition validate_and_sign_guardian_withdrawal_request (self : Signer) (id : Address)
    (timestamp_secs seq : Z) : R SignatureProto :=
  _ ← bound_leader_timestamp (sg_hashi self) timestamp_secs;
  txn ← withdrawal_txn self id;
  _ ← ensure_ready_to_finalize txn;
  guardian_request ← build_guardian_withdrawal_request (sg_hashi self) txn timestamp_secs seq;
  sign_message_proto self guardian_request.

(** ** The finalized transaction *)

Definition unfinalized_withdrawal_txn (self : Signer) (id : Address) : R WithdrawalTransaction :=
  txn ← withdrawal_txn self id;
  _ ← guard (negb (is_fully_signed txn)) (WithdrawalAlreadyFinalized id);
  Ok txn.

Definition check_withdrawal_tx_signing_request (self : Signer) (message : WithdrawalTxSigning)
    : R WithdrawalTransaction :=
  txn ← unfinalized_withdrawal_txn self (ws_withdrawal_id message);
  _ ← check_withdrawal_tx_signing_shape (ws_signatures message) (ws_guardian_signatures message)
        (length (wt_inputs txn));
  Ok txn.

(** The gate of the rate limit: the timestamp is the leader's, or that of the transaction. *)
Definition check_limiter (self : Hashi) (txn : WithdrawalTransaction)
    (expected_limiter_seq timestamp_secs : option Z) : R unit :=
  match local_limiter self, expected_limiter_seq with
  | Some limiter, Some expected_seq =>
      let amount_sats := withdrawal_limiter_consumption_amount txn in
      timestamp_secs ←
        match timestamp_secs with
        | Some ts => _ ← bound_leader_timestamp self ts; Ok ts
        | None => Ok (wt_created_timestamp_ms txn / 1000)
        end;
      match validate_consume limiter expected_seq timestamp_secs amount_sats with
      | inl e => Err (LimiterRejected e)
      | inr _ => Ok tt
      end
  | None, None => Ok tt
  | Some _, None => Err LimiterSeqMissing
  | None, Some _ => Err LimiterSeqUnexpected
  end.

(** The key under which the MPC signature of an input must verify. *)
Definition mpc_input_key (self : Hashi) (u : MoveUtxo) : R SchnorrPublicKey :=
  match deposit_pubkey self (derivation_path u) with
  | None => Err NoBridgeKey
  | Some input_pubkey =>
      match schnorr_pk_from_byte_array input_pubkey with
      | Some pk => Ok pk
      | None => Err InvalidSchnorrKey
      end
  end.

(** [as_slice().try_into::<&[u8; 64]>()] and [SchnorrSignature::from_byte_array] *)
Definition parse_signature (bytes : list Z) (length_error parse_error : Refusal)
    : R SchnorrSignature :=
  _ ← guard (length bytes =? SIGNATURE_SIZE_IN_BYTES)%nat length_error;
  match schnorr_sig_from_byte_array bytes with
  | Some sig => Ok sig
  | None => Err parse_error
  end.

Definition verify_mpc_signature (self : Hashi) (u : MoveUtxo) (i : nat) (bytes sighash : list Z)
    : R unit :=
  mpc_sig ← parse_signature bytes (SignatureLength (Z.of_nat i)) (InvalidMpcSignature i);
  pk ← mpc_input_key self u;
  guard (schnorr_verify pk sighash mpc_sig) (MpcVerificationFailed i).

Definition verify_guardian_signature (pk : SchnorrPublicKey) (i : nat) (bytes sighash : list Z)
    : R unit :=
  guardian_sig ← parse_signature bytes (SignatureLength (Z.of_nat i)) (InvalidGuardianSignature i);
  guard (schnorr_verify pk sighash guardian_sig) (GuardianVerificationFailed i).

(** The loop over the zipped signatures and sighashes; an input out of range panics. *)
Fixpoint verify_signatures (self : Hashi) (inputs : list MoveUtxo) (pk : SchnorrPublicKey) (i : nat)
    (l : list (list Z * list Z * list Z)) : R unit :=
  match l with
  | [] => Ok tt
  | (mpc, guardian, sighash) :: l =>
      (** the bytes of the MPC signature are parsed before the input is looked up *)
      _ ← parse_signature mpc (SignatureLength (Z.of_nat i)) (InvalidMpcSignature i);
      u ← expect (inputs !! i);
      _ ← verify_mpc_signature self u i mpc sighash;
      _ ← verify_guardian_signature pk i guardian sighash;
      verify_signatures self inputs pk (S i) l
  end.

(** A transaction with the witness of each input. *)
Record SignedTransaction := mkSignedTransaction {
  st_tx : Transaction;
  st_witnesses : list (list (list Z));
}.

Definition withdrawal_input_witness (self : Hashi) (path : option Address)
    (mpc_signature guardian_signature : list Z) : R (list (list Z)) :=
  match deposit_spend_artifacts self path with
  | None => Err NoBridgeKey
  | Some (script, control_block, _) =>
      Ok [mpc_signature; guardian_signature; script; control_block]
  end.

Definition signed_withdrawal_tx (self : Hashi) (txn : WithdrawalTransaction) (tx : Transaction)
    (mpc guardian : list (list Z)) : R SignedTransaction :=
  _ ← ensure_committed_txid txn tx;
  _ ← guard (length mpc =? length (input tx))%nat WitnessCounts;
  _ ← guard (length guardian =? length (input tx))%nat WitnessCounts;
  _ ← guard (length (input tx) =? length (wt_inputs txn))%nat WitnessCounts;
  witnesses ← mapM (fun '(u, m, g) => withdrawal_input_witness self (derivation_path u) m g)
                (zip (zip (wt_inputs txn) mpc) guardian);
  Ok (mkSignedTransaction tx witnesses).

Record VerifiedWithdrawalTxSigning := mkVerifiedWithdrawalTxSigning {
  vw_message : WithdrawalTxSigning;
  vw_txid : Txid;
  vw_signed : R SignedTransaction;
}.

Definition verify_withdrawal_tx_signing (self : Signer) (message : WithdrawalTxSigning)
    (expected_limiter_seq timestamp_secs : option Z) : R VerifiedWithdrawalTxSigning :=
  let node := sg_hashi self in
  txn ← check_withdrawal_tx_signing_request self message;
  _ ← check_limiter node txn expected_limiter_seq timestamp_secs;
  tx ← build_unsigned_withdrawal_tx (wt_inputs txn) (all_outputs txn);
  signing_messages ← withdrawal_signing_messages node tx (wt_inputs txn);
  match guardian_btc_pubkey node with
  | None => Err NoGuardianKey
  | Some key =>
      match schnorr_pk_from_byte_array key with
      | None => Err InvalidSchnorrKey
      | Some pk =>
          _ ← verify_signatures node (wt_inputs txn) pk 0
                (zip (zip (ws_signatures message) (ws_guardian_signatures message)) signing_messages);
          _ ← ensure_committed_txid txn tx;
          Ok (mkVerifiedWithdrawalTxSigning message (compute_txid tx)
                (signed_withdrawal_tx node txn tx (ws_signatures message)
                   (ws_guardian_signatures message)))
      end
  end.

(** *** bitcoind's opinion (finalize_bitcoin_check.rs) *)

Definition ensure_signable (self : Verdict) : R unit :=
  match self with ScriptFailure _ _ => Err ScriptFailed | _ => Ok tt end.

(** [check] is what the check of bitcoind answers; [later] is the node after it. *)
Definition sign_verified_withdrawal_tx_signing (later : Signer)
    (verified : VerifiedWithdrawalTxSigning) (check : SignedTransaction -> Verdict)
    : R SignatureProto :=
  verdict ← match vw_signed verified with
            | Ok signed => Ok (check signed)
            | Err _ => Ok (Unavailable NotAssembled)
            | Panic => Panic
            end;
  _ ← ensure_signable verdict;
  let id := ws_withdrawal_id (vw_message verified) in
  _ ← guard (match withdrawal_txns (onchain_state (sg_hashi later)) !! id with
             | Some latest => negb (is_fully_signed latest)
             | None => true
             end) (WithdrawalAlreadyFinalized id);
  sign_message_proto later (vw_message verified).

(** ** Chunks of MPC signatures *)

Definition check_mpc_input_signatures_request (self : Signer) (message : MpcInputSignaturesMessage)
    : R WithdrawalTransaction :=
  txn ← unfinalized_withdrawal_txn self (mi_withdrawal_id message);
  _ ← check_mpc_input_signatures_shape (mi_indices message) (mi_signatures message)
        (length (wt_inputs txn));
  Ok txn.

(** The loop over the chunk; an index beyond the sighashes panics. *)
Fixpoint verify_chunk (self : Hashi) (inputs : list MoveUtxo) (signing_messages : list (list Z))
    (l : list (Z * list Z)) : R unit :=
  match l with
  | [] => Ok tt
  | (input_index, bytes) :: l =>
      let i := Z.to_nat input_index in
      _ ← guard (i <? length inputs)%nat (IndexOutOfRange input_index);
      sighash ← expect (signing_messages !! i);
      u ← expect (inputs !! i);
      _ ← verify_mpc_signature self u i bytes sighash;
      verify_chunk self inputs signing_messages l
  end.

Definition validate_and_sign_mpc_input_signatures (self : Signer)
    (message : MpcInputSignaturesMessage) : R SignatureProto :=
  let node := sg_hashi self in
  txn ← check_mpc_input_signatures_request self message;
  tx ← build_unsigned_withdrawal_tx (wt_inputs txn) (all_outputs txn);
  signing_messages ← withdrawal_signing_messages node tx (wt_inputs txn);
  _ ← verify_chunk node (wt_inputs txn) signing_messages
        (zip (mi_indices message) (mi_signatures message));
  sign_message_proto self message.

(** ** Committee transitions *)

(** The first epoch at or after [from] that has a committee. *)
Definition next_epoch (self : Signer) (from : Z) : option Z :=
  min_by Z.compare (List.filter (fun e => from <=? e) (map_to_list (committees self)).*1).

Definition committee_transition (self : Signer) (from_epoch : Z)
    : option (Committee * MoveCommittee) :=
  from ← committees self !! from_epoch;
  to_epoch ← next_epoch self (wadd from_epoch 1);
  to ← raw_committees self !! to_epoch;
  Some (from, to).

Definition validate_and_sign_committee_transition (self : Signer) (from_epoch : Z)
    (caller : Address) : R SignatureProto :=
  match cfg_validator_address self with
  | None => Err NoValidatorAddress
  | Some validator =>
      match committee_transition self from_epoch with
      | None => Err (NoTransition from_epoch)
      | Some (from_committee, new_committee) =>
          let is_member a := existsb (fun m => cm_address m =? a) (c_members from_committee) in
          _ ← guard (is_member caller) (CallerNotMember caller);
          _ ← guard (is_member validator) (NotInCommittee from_epoch);
          sign_message_proto_at_epoch self (mkCommitteeTransitionRequest new_committee) from_epoch
      end
  end.

(** ** MPC signing of the inputs *)

(** The manager is kept for one epoch. *)
Definition require_signing_manager (self : Signer) (epoch : Z) : R unit :=
  guard (bool_decide (signing_manager self = Some epoch)) (NoSigningManager epoch).

Definition check_withdrawal_signing_request (self : Signer) (id : Address) (requested : list Z)
    : R unit :=
  txn ← withdrawal_txn self id;
  let epoch := onchain_epoch (onchain_state (sg_hashi self)) in
  _ ← ensure_current_signing_epoch txn epoch;
  _ ← require_signing_manager self epoch;
  selected ← select_withdrawal_signing_indices (signing txn) requested;
  guard (nonempty selected) NothingToSign.

Record SignInput := mkSignInput {
  si_signing_id : Address;
  si_message : list Z;
  si_global_presig_index : Z;
  si_derivation_address : DerivationPath;
  si_message_delta : Delta;
}.

Record PreparedWithdrawalSigning := mkPreparedWithdrawalSigning {
  pw_epoch : Z;
  pw_requests : list SignInput;
  index_by_id : gmap Address Z;
}.

Definition withdrawal_input_derivation_address (u : MoveUtxo) : DerivationPath :=
  normalized_derivation_path (derivation_path u).

(** [input_index as u32] *)
Definition as_u32 (x : Z) : Z := x mod 2 ^ 32.

Definition withdrawal_input_signing_id (id : Address) (input_index : Z) : Address :=
  signing_id_digest id (as_u32 input_index).

(** The request of one input; what was checked before is expected. *)
Definition sign_input (txn : WithdrawalTransaction) (signing_messages : list (list Z))
    (input_index : Z) : R SignInput :=
  message ← expect (signing_messages !! Z.to_nat input_index);
  global_presig_index ← expect (pending_index (signing txn) input_index);
  u ← expect (wt_inputs txn !! Z.to_nat input_index);
  Ok {| si_signing_id := withdrawal_input_signing_id (wt_id txn) input_index;
        si_message := message;
        si_global_presig_index := global_presig_index;
        si_derivation_address := withdrawal_input_derivation_address u;
        si_message_delta := message_delta (wt_randomness txn) (as_u32 input_index) message |}.

Fixpoint sign_inputs (txn : WithdrawalTransaction) (signing_messages : list (list Z))
    (selected : list Z) : R (list SignInput * gmap Address Z) :=
  match selected with
  | [] => Ok ([], ∅)
  | input_index :: selected =>
      request ← sign_input txn signing_messages input_index;
      '(requests, ids) ← sign_inputs txn signing_messages selected;
      (** a later entry of the same id wins *)
      Ok (request :: requests,
          match ids !! si_signing_id request with
          | Some _ => ids
          | None => <[si_signing_id request := input_index]> ids
          end)
  end.

Definition prepare_withdrawal_signing (self : Signer) (id : Address) (requested : list Z)
    : R PreparedWithdrawalSigning :=
  txn ← withdrawal_txn self id;
  unsigned_tx ← build_unsigned_withdrawal_tx (wt_inputs txn) (all_outputs txn);
  _ ← ensure_committed_txid txn unsigned_tx;
  let epoch := onchain_epoch (onchain_state (sg_hashi self)) in
  _ ← ensure_current_signing_epoch txn epoch;
  _ ← require_signing_manager self epoch;
  _ ← guard (length (wt_randomness txn) =? 32)%nat RandomnessLength;
  signing_messages ← withdrawal_signing_messages (sg_hashi self) unsigned_tx (wt_inputs txn);
  selected ← select_withdrawal_signing_indices (signing txn) requested;
  '(requests, ids) ← sign_inputs txn signing_messages selected;
  Ok (mkPreparedWithdrawalSigning epoch requests ids).

(** ** Forwarding the results *)

(** A result of the signing, in the order in which they arrive, and what is sent to the
    caller: a partial signature, or the failure of an input. *)
Inductive Forwarded :=
| Partial (input_index : Z) (signature : list Z)
| Failed (input_index : Z).

(** [index_by_id[&id]] panics on an id that was not requested. *)
Fixpoint forward_results (ids : gmap Address Z) (results : list (Address * option (list Z)))
    (deferred_failure : option Z) : R (list Forwarded) :=
  match results with
  | [] => Ok (match deferred_failure with Some i => [Failed i] | None => [] end)
  | (signing_id, sign_result) :: results =>
      input_index ← expect (ids !! signing_id);
      match sign_result with
      | Some sig =>
          rest ← forward_results ids results deferred_failure;
          Ok (Partial (as_u32 input_index) sig :: rest)
      | None =>
          forward_results ids results
            (match deferred_failure with Some i => Some i | None => Some input_index end)
      end
  end.

Definition forward_signing_results (ids : gmap Address Z)
    (results : list (Address * option (list Z))) : R (list Forwarded) :=
  forward_results ids results None.
End signing.
