(* ===== verification/WithdrawalSigningProofs.v ===== *)
(** * What the signatures of a withdrawal say

    Each handler of [WithdrawalSigning] signs only what it has checked; the signatures verify
    under the committee; the guardian is asked for the amount the validators checked; and the
    MPC signing is asked for exactly the inputs that still miss a signature. *)

From S2P Require Import Limiter CoinSelection CoinSelectionProofs MonitorDomain Committee CommitteeProofs TxUtxos Guardian Retry Withdrawals WithdrawalAncestry WithdrawalTheorems WithdrawalBatch FinalizeCheck WithdrawalSigning Prelude.

(** ** Member signatures *)

Section members.
Context `{SE : SigningEnv} `{SL : !SigningEnvLaws}.

(** The committees of a node: one per epoch, each member under one address; and a database
    that stores a key under its own public key. *)
Record signer_wf (self : Signer) : Prop := {
  sw_committee : forall epoch c, committees self !! epoch = Some c ->
    committee_wf c /\ c_epoch c = epoch /\ NoDup (cm_address <$> c_members c);
  sw_keys : forall pk k, find_signing_key_matching self pk = Some (Some k) -> bls_public_key k = pk;
}.

(** What [sign_message_proto] returns: a signature by the node, at its epoch, of the message. *)
Definition signed_by {T} `{IntentMessage T} (self : Signer) (epoch : Z) (message : T)
    (sp : SignatureProto) : Prop :=
  exists validator c key,
    cfg_validator_address self = Some validator /\ committees self !! epoch = Some c
    /\ find_signing_key_for_committee self c validator epoch = Ok key
    /\ sp_public_key sp = bls_public_key key
    /\ sp_signature sp = private_key_sign key (hashi_object_id self) epoch validator message.

Lemma sign_at_epoch_Ok {T} `{IntentMessage T} self (message : T) epoch sp :
  sign_message_proto_at_epoch self message epoch = Ok sp -> signed_by self epoch message sp.
Proof.
  unfold sign_message_proto_at_epoch, signed_by. intros E.
  destruct (cfg_validator_address self) as [validator|]; [|done].
  destruct (committees self !! epoch) as [c|]; [|done]. inv_ok. subst sp.
  exists validator, c, v. by split_and!.
Qed.

Lemma find_lookup {A} (f : A -> bool) l x :
  List.find f l = Some x -> f x = true /\ exists i, l !! i = Some x.
Proof.
  induction l as [|y l IH]; cbn; [done|]. destruct (f y) eqn:Hy.
  - intros [= ->]. split; [done|by exists 0%nat].
  - intros H. destruct (IH H) as [? [i ?]]. split; [done|by exists (S i)].
Qed.

Lemma signed_by_member {T} `{IntentMessage T} self epoch (message : T) sp :
  signer_wf self -> signed_by self epoch message sp ->
  exists c m, committees self !! epoch = Some c /\ member c (ms_address (sp_signature sp)) = Ok m
    /\ sp_public_key sp = public_key m
    /\ committee_verify c (hashi_object_id self) message (sp_signature sp) = Ok tt.
Proof.
  intros [Hc Hk] (validator & c & key & Hv & Hce & Hkey & Hpk & Hsig).
  destruct (Hc _ _ Hce) as (Hwf & Hep & Hnd). unfold find_signing_key_for_committee in Hkey.
  destruct (List.find _ _) as [m|] eqn:Hm; [|done].
  destruct (find_signing_key_matching self (public_key m)) as [[k|]|] eqn:Hdb; [|done..].
  injection Hkey as ->. apply Hk in Hdb. apply find_lookup in Hm as [Ha%Z.eqb_eq [i Hi]].
  pose proof (member_index c i m Hwf Hnd Hi) as Hidx. rewrite Ha in Hidx.
  assert (member c validator = Ok m) as Hmem by (apply member_Ok; [done|by exists i]).
  exists c, m. rewrite Hsig, Hpk, Hdb. cbn [private_key_sign ms_address]. split_and!; [done..|].
  unfold committee_verify, private_key_sign. cbn [ms_epoch ms_address ms_signature].
  rewrite Hep, Z.eqb_refl. cbn. rewrite Hmem. cbn. by rewrite <- Hdb, bls_sign_valid.
Qed.

(** A validator's signatures count.  Whatever a handler signs, at the current epoch or an
    earlier one, the signature is by the member of that epoch's committee the node is
    configured as, carries that member's public key, and verifies for exactly this message
    under that committee. *)
Theorem member_signature_verifies {T} `{IntentMessage T} self (message : T) epoch sp :
  signer_wf self -> sign_message_proto_at_epoch self message epoch = Ok sp ->
  exists c m, committees self !! epoch = Some c /\ member c (ms_address (sp_signature sp)) = Ok m
    /\ cfg_validator_address self = Some (ms_address (sp_signature sp))
    /\ sp_public_key sp = public_key m
    /\ committee_verify c (hashi_object_id self) message (sp_signature sp) = Ok tt.
Proof.
  intros Hwf Hs%sign_at_epoch_Ok. destruct (signed_by_member _ _ _ _ Hwf Hs) as (c & m & ? & ? & ? & ?).
  exists c, m. split_and!; try done. destruct Hs as (validator & ? & ? & Hv & _ & _ & _ & ->). done.
Qed.
End members.

(** ** The finalized transaction *)

Section finalize.
Context `{SE : SigningEnv}.

(** A Schnorr signature in 64 bytes that verifies. *)
Definition schnorr_valid (pk : SchnorrPublicKey) (sighash bytes : list Z) : Prop :=
  length bytes = 64%nat /\ exists sig, schnorr_sig_from_byte_array bytes = Some sig
                                      /\ schnorr_verify pk sighash sig = true.

Lemma parse_signature_Ok bytes e e' sig :
  parse_signature bytes e e' = Ok sig ->
  length bytes = 64%nat /\ schnorr_sig_from_byte_array bytes = Some sig.
Proof.
  unfold parse_signature. intros H. inv_ok. apply Nat.eqb_eq in E.
  by destruct (schnorr_sig_from_byte_array bytes); [injection H as ->|].
Qed.

Lemma verify_mpc_Ok self u i bytes sighash :
  verify_mpc_signature self u i bytes sighash = Ok tt ->
  exists pk, mpc_input_key self u = Ok pk /\ schnorr_valid pk sighash bytes.
Proof.
  unfold verify_mpc_signature. intros H. inv_ok. apply parse_signature_Ok in E as [? ?].
  exists v0. split; [done|]. split; [done|by exists v].
Qed.

Lemma verify_guardian_Ok pk i bytes sighash :
  verify_guardian_signature pk i bytes sighash = Ok tt -> schnorr_valid pk sighash bytes.
Proof.
  unfold verify_guardian_signature. intros H. inv_ok. apply parse_signature_Ok in E as [? ?].
  split; [done|by exists v].
Qed.

Lemma verify_signatures_Ok self inputs pk l : forall i,
  verify_signatures self inputs pk i l = Ok tt ->
  forall j m g h, l !! j = Some (m, g, h) ->
  exists u mpk, inputs !! (i + j)%nat = Some u /\ mpc_input_key self u = Ok mpk
    /\ schnorr_valid mpk h m /\ schnorr_valid pk h g.
Proof.
  induction l as [|[[m0 g0] h0] l IH]; intros i H j m g h Hj; [done|]. cbn in H. inv_ok.
  destruct v1, v2. apply verify_mpc_Ok in E1 as (mpk & Hk & Hm). apply verify_guardian_Ok in E2.
  destruct j as [|j].
  - injection Hj as <- <- <-. rewrite Nat.add_0_r. by exists v0, mpk.
  - rewrite <- Nat.add_succ_comm. by apply (IH _ H j).
Qed.

Lemma mapM_length {E A B} (f : A -> outcome E B) l k : mapM f l = Ok k -> length k = length l.
Proof. intros H%mapM_Ok. by rewrite (Forall2_length _ _ _ H). Qed.

Lemma signing_messages_length self ins outs tx msgs :
  unsigned_withdrawal_tx ins outs = Some tx -> withdrawal_signing_messages self tx ins = Ok msgs ->
  length msgs = length ins.
Proof.
  unfold withdrawal_signing_messages, taproot_script_spend_sighashes, unsigned_withdrawal_tx.
  intros Htx H. destruct (mapM (spend_input self) ins) as [l|]; [|done].
  apply mapM_length in H. rewrite H, length_seq.
  destruct (mapM _ outs) as [o|]; [|done]. cbn in Htx. injection Htx as <-. cbn. apply length_fmap.
Qed.

(** What the mirror of the limiter has accepted, if there is one. *)
Definition limiter_passed (self : Hashi) (txn : WithdrawalTransaction)
    (seq timestamp : option Z) : Prop :=
  match local_limiter self with
  | None => seq = None
  | Some limiter =>
      exists expected_seq ts, seq = Some expected_seq
        /\ validate_consume limiter expected_seq ts (withdrawal_limiter_consumption_amount txn) = inr tt
        /\ match timestamp with
           | Some t => ts = t
               /\ Z.abs (t - latest_checkpoint_timestamp_ms (onchain_state self) / 1000) <= 600
           | None => ts = wt_created_timestamp_ms txn / 1000
           end
  end.

Lemma check_limiter_Ok self txn seq timestamp :
  check_limiter self txn seq timestamp = Ok tt -> limiter_passed self txn seq timestamp.
Proof.
  unfold check_limiter, limiter_passed. intros H.
  destruct (local_limiter self) as [limiter|], seq as [expected_seq|]; try done.
  apply bind_Ok in H as (ts & Hts & H). exists expected_seq, ts. split; [done|].
  destruct (validate_consume _ _ _ _) as [e|[]] eqn:Hv; [done|]. split; [done|].
  destruct timestamp as [t|]; [|by injection Hts as <-]. apply bind_Ok in Hts as ([] & Hb & [= <-]).
  split; [done|]. unfold bound_leader_timestamp in Hb. apply guard_Ok, Z.leb_le in Hb. exact Hb.
Qed.

Lemma unfinalized_Ok self id txn :
  unfinalized_withdrawal_txn self id = Ok txn ->
  withdrawal_txns (onchain_state (sg_hashi self)) !! id = Some txn /\ is_fully_signed txn = false.
Proof.
  unfold unfinalized_withdrawal_txn, withdrawal_txn. intros H. inv_ok. subst v.
  destruct (_ !! id) as [t|]; [|done]. injection E as ->. by apply negb_true_iff in E0.
Qed.

Lemma signing_request_Ok self message txn :
  check_withdrawal_tx_signing_request self message = Ok txn ->
  withdrawal_txns (onchain_state (sg_hashi self)) !! ws_withdrawal_id message = Some txn
  /\ is_fully_signed txn = false
  /\ length (ws_signatures message) = length (wt_inputs txn)
  /\ length (ws_guardian_signatures message) = length (wt_inputs txn).
Proof.
  unfold check_withdrawal_tx_signing_request, check_withdrawal_tx_signing_shape. intros H. inv_ok.
  subst v. apply unfinalized_Ok in E as [? ?]. apply andb_true_iff in E1 as [?%Nat.eqb_eq ?%Nat.eqb_eq].
  done.
Qed.

(** What the signature of a finalized transaction says. *)
Record finalized (self later : Signer) (message : WithdrawalTxSigning) (seq timestamp : option Z)
    (check : SignedTransaction -> Verdict) (txn : WithdrawalTransaction) (tx : Transaction)
    (sighashes : list (list Z)) (guardian_pk : SchnorrPublicKey) : Prop := {
  (** the transaction is on chain and not finalized, before and after bitcoind was asked *)
  fz_txn : withdrawal_txns (onchain_state (sg_hashi self)) !! ws_withdrawal_id message = Some txn;
  fz_open : is_fully_signed txn = false;
  fz_still_open : forall latest,
    withdrawal_txns (onchain_state (sg_hashi later)) !! ws_withdrawal_id message = Some latest ->
    is_fully_signed latest = false;
  (** the Bitcoin transaction is the committed one *)
  fz_tx : unsigned_withdrawal_tx (wt_inputs txn) (all_outputs txn) = Some tx;
  fz_txid : compute_txid tx = wt_txid txn;
  fz_sighashes : withdrawal_signing_messages (sg_hashi self) tx (wt_inputs txn) = Ok sighashes;
  fz_guardian : exists key, guardian_btc_pubkey (sg_hashi self) = Some key
                            /\ schnorr_pk_from_byte_array key = Some guardian_pk;
  (** one signature of each party per input *)
  fz_counts : length (ws_signatures message) = length (wt_inputs txn)
              /\ length (ws_guardian_signatures message) = length (wt_inputs txn)
              /\ length sighashes = length (wt_inputs txn);
  (** and both verify on every input *)
  fz_valid : forall i u, wt_inputs txn !! i = Some u ->
    exists mpc guardian sighash mpc_pk,
      ws_signatures message !! i = Some mpc /\ ws_guardian_signatures message !! i = Some guardian
      /\ sighashes !! i = Some sighash /\ mpc_input_key (sg_hashi self) u = Ok mpc_pk
      /\ schnorr_valid mpc_pk sighash mpc /\ schnorr_valid guardian_pk sighash guardian;
  fz_limiter : limiter_passed (sg_hashi self) txn seq timestamp;
  (** bitcoind does not fail the scripts of the signed transaction *)
  fz_bitcoind : forall signed,
    signed_withdrawal_tx (sg_hashi self) txn tx (ws_signatures message)
      (ws_guardian_signatures message) = Ok signed ->
    forall reason details, check signed <> ScriptFailure reason details;
}.

End finalize.

(** ** The charge of a withdrawal *)

Section charge.
Context `{SE : SigningEnv} `{BL : !BitcoinUnitsLaws} `{SL : !SigningEnvLaws}.

(** What the contract stores when it commits a batch: the UTXOs the ids stand for, and the
    outputs split at the number of requests. *)
Record committed_as (st : OnchainState) (ap : WithdrawalTxCommitment)
    (txn : WithdrawalTransaction) : Prop := {
  ca_requests : wt_request_ids txn = ap_request_ids ap;
  ca_inputs : Forall2 (fun id u => rec_utxo <$> utxo_records st !! id = Some u)
                (selected_utxos ap) (wt_inputs txn);
  ca_payouts : wt_withdrawal_outputs txn = take (length (ap_request_ids ap)) (ap_outputs ap);
  ca_change : wt_change_outputs txn = drop (length (ap_request_ids ap)) (ap_outputs ap);
  ca_txid : wt_txid txn = ap_txid ap;
}.

Lemma guardian_output_pass n network i o :
  ((i < n)%nat -> supported o) ->
  exists wire checked, guardian_output n network i o = Ok wire
    /\ check_output network wire = Ok checked /\ output_amount checked = ou_amount o
    /\ internal_amounts [checked] = (if (i <? n)%nat then [] else [ou_amount o]).
Proof.
  intros Hs. unfold guardian_output. destruct (Nat.ltb_spec i n) as [Hi|]; [|by eexists _, _].
  assert (is_Some (script_pubkey_from_witness_program (bitcoin_address o))) as [sc Hsc].
  { unfold script_pubkey_from_witness_program. destruct (Hs Hi) as [->| ->]; by eexists. }
  rewrite Hsc. cbn [mbind option_bind]. destruct (from_script_witness _ _ network Hsc) as [a Ha].
  rewrite Ha. eexists _, _. split; [done|]. cbn. unfold validate_address_for_network.
  by rewrite (from_script_network _ _ _ Ha).
Qed.

Lemma guardian_outputs_pass n network outs : forall i,
  Forall supported (take (n - i) outs) ->
  exists wire checked, guardian_outputs n network i outs = Ok wire
    /\ mapM (check_output network) wire = Ok checked
    /\ output_amount <$> checked = ou_amount <$> outs
    /\ internal_amounts checked = ou_amount <$> drop (n - i) outs.
Proof.
  induction outs as [|o outs IH]; intros i Hs.
  { exists [], []. rewrite drop_nil. done. }
  assert ((i < n)%nat -> supported o) as Ho.
  { intros Hi. destruct (n - i)%nat eqn:E; [lia|]. cbn in Hs. by apply Forall_cons in Hs as [? _]. }
  destruct (guardian_output_pass n network i o Ho) as (w & c & Hw & Hc & Ha & Hin).
  destruct (IH (S i)) as (ws & cs & Hws & Hcs & Has & Hins).
  { destruct (n - i)%nat eqn:E; [replace (n - S i)%nat with 0%nat by lia; constructor|].
    replace (n - S i)%nat with n0 by lia. cbn in Hs. by apply Forall_cons in Hs as [_ ?]. }
  assert (internal_amounts (c :: cs) = internal_amounts [c] ++ internal_amounts cs) as Happ
    by (destruct c; done).
  exists (w :: ws), (c :: cs). rewrite Happ, Hin, Hins. cbn [guardian_outputs]. rewrite Hw.
  cbn [mbind outcome_bind]. rewrite Hws. split_and!; [done| |by rewrite !fmap_cons, Has, Ha|].
  { apply mapM_Ok. apply mapM_Ok in Hcs. by constructor. }
  destruct (Nat.ltb_spec i n).
  - destruct (n - i)%nat eqn:E; [lia|]. by replace (n - S i)%nat with n0 by lia.
  - replace (n - i)%nat with 0%nat by lia. by replace (n - S i)%nat with 0%nat by lia.
Qed.

Lemma checked_sum_pass l : forall acc,
  Forall (fun x => 0 <= x) l -> acc + zsum l <= u64_max -> checked_sum_from acc l = Some (acc + zsum l).
Proof.
  induction l as [|x l IH]; intros acc Hl Hs; [cbn; f_equal; lia|].
  apply Forall_cons in Hl as [Hx Hl]. rewrite zsum_cons in *. pose proof (zsum_nonneg _ Hl). cbn.
  rewrite (proj2 (Z.leb_le _ _)) by lia. rewrite IH by (done || lia). f_equal. lia.
Qed.

Lemma check_distinct_pass ins : forall seen,
  NoDup (iu_outpoint <$> ins) -> (forall u, u ∈ ins -> iu_outpoint u ∉ seen) ->
  check_distinct seen ins = Ok tt.
Proof.
  induction ins as [|u ins IH]; intros seen Hnd Hs; [done|]. cbn in Hnd |- *.
  apply NoDup_cons in Hnd as [Hu Hnd]. rewrite bool_decide_false by (apply Hs; set_solver). cbn.
  apply IH; [done|]. intros x Hx [H%elem_of_singleton|H]%elem_of_union.
  - apply Hu. rewrite <- H. by apply list_elem_of_fmap_2.
  - revert H. apply Hs. set_solver.
Qed.

Lemma nonzero_pass {A} (f : A -> Z) l :
  Forall (fun x => 0 < x) (f <$> l) -> forallb (fun x => negb (f x =? 0)) l = true.
Proof.
  rewrite Forall_fmap, Forall_forall. intros H. apply forallb_forall. intros x Hx%list_elem_of_In.
  specialize (H x Hx). cbn in H. apply negb_true_iff, Z.eqb_neq. lia.
Qed.

Lemma TxUTXOs_new_pass ins wire checked network :
  ins <> [] -> wire <> [] -> mapM (check_output network) wire = Ok checked ->
  Forall (fun x => 0 < x) (iu_amount <$> ins) ->
  Forall (fun x => 0 < x) (output_amount <$> checked) ->
  NoDup (iu_outpoint <$> ins) -> zsum (iu_amount <$> ins) <= u64_max ->
  zsum (output_amount <$> checked) < zsum (iu_amount <$> ins) ->
  TxUTXOs_new ins wire network = Ok (mkTxUTXOs ins checked).
Proof.
  intros Hi Hw Hc Hpi Hpo Hnd Hmax Hlt. unfold TxUTXOs_new, assert_positive_fees, checked_sum.
  destruct ins as [|u us] eqn:Ei; [done|]. rewrite <- Ei in *. destruct wire as [|w ws] eqn:Ew; [done|].
  rewrite <- Ew in *. rewrite Hc. cbn [guard mbind outcome_bind].
  assert (forall l : list Z, Forall (fun x => 0 < x) l -> Forall (fun x => 0 <= x) l) as Hw0.
  { intros l Hl. eapply Forall_impl; [exact Hl|]. cbn. lia. }
  rewrite (nonzero_pass iu_amount) by done. cbn [guard mbind outcome_bind].
  rewrite (nonzero_pass output_amount) by done.
  cbn [guard mbind outcome_bind]. rewrite check_distinct_pass by (done || set_solver).
  cbn [mbind outcome_bind tu_inputs tu_outputs]. rewrite !checked_sum_pass by (auto || lia).
  rewrite (proj2 (Z.leb_gt _ _)) by lia. done.
Qed.

(** A committed transaction makes a request the guardian can charge. *)
Lemma guardian_request_pass self txn timestamp seq :
  wt_inputs txn <> [] -> all_outputs txn <> [] ->
  length (wt_request_ids txn) = length (wt_withdrawal_outputs txn) ->
  NoDup (mu_id <$> wt_inputs txn) -> Forall (fun u => 0 < mu_amount u) (wt_inputs txn) ->
  Forall supported (wt_withdrawal_outputs txn) -> Forall (fun o => 0 < ou_amount o) (all_outputs txn) ->
  zsum (mu_amount <$> wt_inputs txn) <= u64_max ->
  zsum (ou_amount <$> all_outputs txn) < zsum (mu_amount <$> wt_inputs txn) ->
  exists req, build_guardian_withdrawal_request self txn timestamp seq = Ok req
    /\ wr_wid req = wt_id txn
    /\ gross_outflow_amount (E:=Refusal) (wr_utxos req)
       = Ok (zsum (mu_amount <$> wt_inputs txn) - zsum (ou_amount <$> wt_change_outputs txn)).
Proof.
  intros Hin Hout Hlen Hnd Hpi Hs Hpo Hmax Hlt.
  destruct (guardian_outputs_pass (length (wt_request_ids txn))
              (network_of (bitcoin_network (config self))) (all_outputs txn) 0)
    as (wire & checked & Hw & Hc & Ha & Hi).
  { rewrite Nat.sub_0_r, Hlen. unfold all_outputs. by rewrite take_app_length. }
  rewrite Nat.sub_0_r, Hlen in Hi. unfold all_outputs in Hi. rewrite drop_app_length in Hi.
  assert (iu_amount <$> (input_utxo_of <$> wt_inputs txn) = mu_amount <$> wt_inputs txn) as Ei
    by by rewrite <- list_fmap_compose.
  assert (TxUTXOs_new (input_utxo_of <$> wt_inputs txn) wire
            (network_of (bitcoin_network (config self)))
          = Ok (mkTxUTXOs (input_utxo_of <$> wt_inputs txn) checked)) as Hnew.
  { apply TxUTXOs_new_pass; rewrite ?Ei, ?Ha; try done.
    - by destruct (wt_inputs txn).
    - intros ->. injection Hc as <-. by destruct (all_outputs txn).
    - by apply Forall_fmap.
    - by apply Forall_fmap.
    - by rewrite <- list_fmap_compose. }
  unfold build_guardian_withdrawal_request, from_withdrawal_txn. rewrite Hw.
  cbn [mbind outcome_bind]. rewrite Hnew. eexists. split_and!; [done|done|].
  unfold gross_outflow_amount. cbn [wr_utxos tu_inputs tu_outputs]. rewrite Hi, Ei.
  pose proof Hpo as Hp. unfold all_outputs in Hp, Hlt. apply Forall_app in Hp as [Hp1 Hp2].
  rewrite fmap_app, zsum_app in Hlt.
  assert (forall l, Forall (fun o => 0 < ou_amount o) l -> Forall (fun x => 0 <= x) (ou_amount <$> l)) as Hw0.
  { intros l Hl. apply Forall_fmap. eapply Forall_impl; [exact Hl|]. cbn. lia. }
  pose proof (zsum_nonneg _ (Hw0 _ Hp1)). pose proof (zsum_nonneg _ (Hw0 _ Hp2)).
  rewrite !usum_small by (auto || lia || (apply Forall_fmap; eapply Forall_impl; [exact Hpi|cbn; lia])).
  by rewrite (proj2 (Z.leb_le _ _)) by lia.
Qed.
Lemma consumption_exact txn :
  Forall (fun u => 0 <= mu_amount u) (wt_inputs txn) -> zsum (mu_amount <$> wt_inputs txn) <= u64_max ->
  Forall (fun o => 0 <= ou_amount o) (wt_change_outputs txn) ->
  zsum (ou_amount <$> wt_change_outputs txn) <= zsum (mu_amount <$> wt_inputs txn) ->
  withdrawal_limiter_consumption_amount txn
  = zsum (mu_amount <$> wt_inputs txn) - zsum (ou_amount <$> wt_change_outputs txn).
Proof.
  intros Hi Hmax Hc Hle. unfold withdrawal_limiter_consumption_amount, limiter_outflow, sat_sub.
  rewrite !usum_small by (by apply Forall_fmap || lia). lia.
Qed.

Lemma certified_inputs before after ap rate reqs utxos fee :
  certified before after ap rate reqs utxos fee -> state_fits (onchain_state before) ->
  (forall id r, utxo_records (onchain_state before) !! id = Some r -> mu_id (rec_utxo r) = id) ->
  NoDup (mu_id <$> utxos) /\ zsum (mu_amount <$> utxos) <= u64_max.
Proof.
  intros Hce Hst Hkeys. pose proof (ce_inputs _ _ _ _ _ _ _ Hce) as Hin.
  destruct (ce_distinct_inputs _ _ _ _ _ _ _ Hce) as (Hnd & _).
  destruct (passed_total _ _ utxos Hst Hnd) as (_ & _ & ?).
  { eapply Forall2_impl; [exact Hin|]. intros id u (r & ? & ? & ? & ?). by exists r. }
  split; [|done]. replace (mu_id <$> utxos) with (selected_utxos ap); [done|].
  clear -Hin Hkeys. induction Hin as [|id u ids us (r & Hid & _ & _ & <-) _ IH]; [done|].
  cbn. by rewrite (Hkeys _ _ Hid), IH.
Qed.

Lemma stored_inputs before after ap rate reqs utxos fee txn :
  certified before after ap rate reqs utxos fee -> committed_as (onchain_state before) ap txn ->
  wt_inputs txn = utxos.
Proof.
  intros Hce Hca. pose proof (ce_inputs _ _ _ _ _ _ _ Hce) as Hin.
  pose proof (ca_inputs _ _ _ Hca) as Hst. clear Hce Hca. revert Hst. generalize (wt_inputs txn).
  induction Hin as [|id u ids us (r & Hid & _ & _ & <-) _ IH]; intros l Hst.
  { by apply Forall2_nil_inv_l in Hst. }
  apply Forall2_cons_inv_l in Hst as (v & l' & Hv & Hl & ->). rewrite Hid in Hv.
  injection Hv as <-. by rewrite (IH _ Hl).
Qed.

(** C13: the guardian is asked to charge what the committee checked.  A batch the validators
    accepted, once the contract has stored it, rebuilds to the Bitcoin transaction whose id
    was certified, and makes a request the guardian's gate lets through; the amount the
    guardian takes from its bucket and the amount the validators check against their mirror
    before they sign are the same: the payouts plus the miner's fee, no more than the bucket
    holds. *)
Theorem certified_charge_agrees before after estimate ap txn timestamp seq :
  state_fits (onchain_state before) -> outputs_fit (ap_outputs ap) ->
  validate_withdrawal_tx_commitment before after (Some estimate) ap = Some (Ok tt) ->
  committed_as (onchain_state before) ap txn ->
  (forall id r, utxo_records (onchain_state before) !! id = Some r -> mu_id (rec_utxo r) = id) ->
  Forall (fun u => 0 < mu_amount u) (wt_inputs txn) ->
  let fee := zsum (mu_amount <$> wt_inputs txn) - zsum (ou_amount <$> all_outputs txn) in
  0 < fee ->
  exists tx req limiter,
    let charge := zsum (ou_amount <$> wt_withdrawal_outputs txn) + fee in
    unsigned_withdrawal_tx (wt_inputs txn) (all_outputs txn) = Some tx
    /\ ensure_committed_txid txn tx = Ok tt
    /\ build_guardian_withdrawal_request after txn timestamp seq = Ok req
    /\ gross_outflow_amount (E:=Refusal) (wr_utxos req) = Ok charge
    /\ withdrawal_limiter_consumption_amount txn = charge
    /\ local_limiter before = Some limiter /\ charge <= max_bucket_capacity (lv_config limiter).
Proof.
  intros Hst Hof Hval Hca Hkeys Hpos fee' Hfee.
  destruct (commitment_certified _ _ _ _ Hst Hof Hval) as (reqs & utxos & fee & Hce).
  pose proof (stored_inputs _ _ _ _ _ _ _ _ Hce Hca) as Hi.
  destruct Hca as [Hr _ Hp Hc Hid]. subst utxos. clear Hval.
  pose proof (Forall2_length _ _ _ (ce_requests _ _ _ _ _ _ _ Hce)) as Hlen.
  assert (all_outputs txn = ap_outputs ap) as Hall
    by (unfold all_outputs; rewrite Hp, Hc; apply take_drop).
  destruct (ce_limiter _ _ _ _ _ _ _ Hce) as (limiter & _ & Hl & _ & [Hcap _] & _).
  rewrite <- Hlen, <- Hc in Hcap.
  pose proof (ce_payouts _ _ _ _ _ _ _ Hce) as Hpay. rewrite <- Hlen, <- Hp in Hpay.
  pose proof (ce_change _ _ _ _ _ _ _ Hce) as Hch. rewrite <- Hlen, <- Hc in Hch.
  pose proof (ce_value _ _ _ _ _ _ _ Hce) as Hval. rewrite <- Hall in Hval. unfold all_outputs in Hval.
  unfold fee', all_outputs in *. rewrite fmap_app, zsum_app in *.
  destruct (certified_inputs _ _ _ _ _ _ _ Hce Hst Hkeys) as [Hnd Hmax].
  destruct (ce_txid _ _ _ _ _ _ _ Hce) as (tx & Htx & Htxid).
  assert (Forall (fun o => 0 < ou_amount o) (wt_withdrawal_outputs txn)) as Hpp.
  { clear -Hpay. induction Hpay as [|r o rs os (_ & ? & _)]; constructor; [|done].
    unfold DUST_RELAY_MIN_VALUE in *. lia. }
  assert (Forall (fun o => 0 < ou_amount o) (wt_change_outputs txn)) as Hpc.
  { eapply Forall_impl; [exact Hch|]. cbn. intros o [_ ?]. unfold TR_DUST_RELAY_MIN_VALUE in *. lia. }
  assert (0 <= zsum (ou_amount <$> wt_withdrawal_outputs txn)) as Hpn.
  { apply zsum_nonneg, Forall_fmap. eapply Forall_impl; [exact Hpp|]. cbn. lia. }
  destruct (guardian_request_pass after txn timestamp seq) as (req & Hreq & _ & Hgross); try done.
  - apply (ce_distinct_inputs _ _ _ _ _ _ _ Hce).
  - unfold all_outputs. destruct (ce_distinct_requests _ _ _ _ _ _ _ Hce) as (_ & Hne & _).
    apply Forall2_length in Hpay. destruct reqs, (wt_withdrawal_outputs txn); done.
  - rewrite Hr, <- (Forall2_length _ _ _ Hpay). done.
  - rewrite Hp. apply Forall_take, (ce_weight _ _ _ _ _ _ _ Hce).
  - unfold all_outputs. by apply Forall_app.
  - unfold all_outputs. rewrite fmap_app, zsum_app. lia.
  - exists tx, req, limiter. cbn zeta. rewrite Hgross, consumption_exact; try done.
    + unfold ensure_committed_txid. rewrite Hid, Htxid, Z.eqb_refl.
      split_and!; try done; [by rewrite Hall|f_equal; lia|lia|lia].
    + eapply Forall_impl; [exact Hpos|]. cbn. lia.
    + eapply Forall_impl; [exact Hpc|]. cbn. lia.
    + lia.
Qed.
End charge.

(** ** The requests to the MPC signing *)

Section requests.
Context `{SE : SigningEnv}.

Lemma check_indices_Ok requested n : forall seen,
  check_indices seen requested n = Ok tt ->
  NoDup requested /\ (forall i, i ∈ requested -> i ∉ seen) /\ Forall (fun i => i < Z.of_nat n) requested.
Proof.
  induction requested as [|i l IH]; intros seen H.
  { split_and!; [constructor|set_solver|constructor]. }
  cbn in H. inv_ok. apply negb_true_iff, bool_decide_eq_false in E.
  apply negb_true_iff, Z.leb_gt in E0. apply IH in H as (Hnd & Hs & Hl).
  split_and!; [constructor; [|done]; intros Hi; specialize (Hs i Hi); set_solver
              |set_solver|by constructor].
Qed.

Lemma elem_unsigned_indices sb i : i ∈ unsigned_indices sb <-> is_Some (pending_index sb i).
Proof.
  unfold unsigned_indices, pending_index. rewrite list_elem_of_omap. split.
  - intros ([j s] & Hj & Hi). apply elem_of_lookup_imap in Hj as (k & x & [= -> ->] & Hk).
    destruct x as [p|]; [|done]. injection Hi as <-.
    rewrite (proj2 (Z.ltb_ge _ _)), Nat2Z.id, Hk by lia. by exists p.
  - intros [p H]. destruct (Z.ltb_spec i 0); [done|].
    destruct (signatures sb !! Z.to_nat i) as [[q|]|] eqn:E; try done.
    exists (i, SigPending q). split; [|done]. apply elem_of_lookup_imap.
    exists (Z.to_nat i), (SigPending q). by rewrite Z2Nat.id.
Qed.

Lemma NoDup_pending_positions (l : list MpcSig) : forall k,
  let idx := omap (fun '(i, s) => if is_signed s then None else Some i)
               (imap (fun i s => (Z.of_nat (k + i), s)) l) in
  NoDup idx /\ Forall (fun i => Z.of_nat k <= i) idx.
Proof.
  induction l as [|s l IH]; intros k; [by split; constructor|].
  assert (imap (fun i s => (Z.of_nat (k + i), s)) (s :: l)
          = (Z.of_nat k, s) :: imap (fun i s => (Z.of_nat (S k + i), s)) l) as ->.
  { rewrite imap_cons, Nat.add_0_r. f_equal. apply imap_ext. intros i x _. cbn. f_equal. lia. }
  destruct (IH (S k)) as [Hnd Hge].
  assert (Forall (fun i => Z.of_nat k <= i)
            (omap (fun '(i, s) => if is_signed s then None else Some i)
               (imap (fun i s => (Z.of_nat (S k + i), s)) l))) as Hk
    by (eapply Forall_impl; [exact Hge|cbn; lia]).
  cbn [omap list_omap]. destruct (is_signed s); [done|].
  split; constructor; try done. intros Hin. rewrite Forall_forall in Hge.
  specialize (Hge _ Hin). lia.
Qed.

(** What is signed next: each input once, none of them signed; all of them when the caller
    names none. *)
Lemma selected_pending sb requested selected :
  select_withdrawal_signing_indices sb requested = Ok selected ->
  NoDup selected /\ Forall (fun i => is_Some (pending_index sb i)) selected
  /\ (if nonempty requested then selected = requested
      else forall i, is_Some (pending_index sb i) -> i ∈ selected).
Proof.
  unfold select_withdrawal_signing_indices. destruct requested as [|i l].
  { intros [= <-]. split_and!; [apply (NoDup_pending_positions _ 0)| |].
    - apply Forall_forall. intros i. apply elem_unsigned_indices.
    - intros i. apply elem_unsigned_indices. }
  cbn [nonempty]. generalize (i :: l) as req. intros req H. apply bind_Ok in H as ([] & Hc & H).
  apply check_indices_Ok in Hc as (Hnd & _). apply mapM_Ok in H.
  assert (selected = req /\ Forall (fun i => is_Some (pending_index sb i)) req) as [-> Hp]; [|done].
  clear Hnd. induction H as [|x y xs ys Hx _ [-> IH]]; [done|].
  destruct (pending_index sb x) eqn:E; [|done]. injection Hx as ->. split; [done|].
  constructor; [|done]. by rewrite E.
Qed.

(** The request of an input. *)
Definition asked_for (txn : WithdrawalTransaction) (sighashes : list (list Z)) (i : Z)
    (r : SignInput) : Prop :=
  exists sighash presig u,
    sighashes !! Z.to_nat i = Some sighash /\ pending_index (signing txn) i = Some presig
    /\ wt_inputs txn !! Z.to_nat i = Some u
    /\ r = {| si_signing_id := withdrawal_input_signing_id (wt_id txn) i;
              si_message := sighash; si_global_presig_index := presig;
              si_derivation_address := default ZERO_PATH (derivation_path u);
              si_message_delta := message_delta (wt_randomness txn) (as_u32 i) sighash |}.

Lemma sign_input_Ok txn sighashes i r :
  sign_input txn sighashes i = Ok r <-> asked_for txn sighashes i r.
Proof.
  unfold sign_input, asked_for, withdrawal_input_derivation_address, normalized_derivation_path.
  split.
  - intros H. inv_ok. subst r. by exists v, v0, v1.
  - intros (? & ? & ? & -> & -> & -> & ->). done.
Qed.

Lemma sign_inputs_Ok txn sighashes selected : forall reqs ids,
  sign_inputs txn sighashes selected = Ok (reqs, ids) ->
  Forall2 (asked_for txn sighashes) selected reqs
  /\ dom ids = list_to_set (si_signing_id <$> reqs)
  /\ (NoDup (si_signing_id <$> reqs) ->
      forall k i r, selected !! k = Some i -> reqs !! k = Some r -> ids !! si_signing_id r = Some i).
Proof.
  induction selected as [|i l IH]; intros reqs ids H; cbn in H.
  { injection H as <- <-. split_and!; [constructor|set_solver|done]. }
  apply bind_Ok in H as (r & Hr%sign_input_Ok & H). apply bind_Ok in H as ([rs m] & Hrs & H).
  injection H as <- <-. destruct (IH _ _ Hrs) as (Hall & Hdom & Hmap). split_and!.
  - by constructor.
  - rewrite fmap_cons. cbn. destruct (m !! si_signing_id r) as [j|] eqn:E.
    + apply elem_of_dom_2 in E. set_solver.
    + rewrite dom_insert_L. set_solver.
  - rewrite fmap_cons. intros [Hr' Hnd]%NoDup_cons. assert (m !! si_signing_id r = None) as E.
    { apply not_elem_of_dom. by rewrite Hdom, elem_of_list_to_set. }
    rewrite E. intros [|k] j q Hj Hq; cbn in Hj, Hq.
    + injection Hj as <-. injection Hq as <-. apply lookup_insert_eq.
    + rewrite lookup_insert_ne; [by apply (Hmap Hnd k)|]. intros Heq. apply Hr'. rewrite Heq.
      by eapply list_elem_of_fmap_2, list_elem_of_lookup_2.
Qed.
(** What a prepared signing asks of the MPC. *)
Record asked (self : Signer) (id : Address) (requested : list Z)
    (prepared : PreparedWithdrawalSigning) (txn : WithdrawalTransaction) (tx : Transaction)
    (sighashes : list (list Z)) (selected : list Z) : Prop := {
  as_txn : withdrawal_txns (onchain_state (sg_hashi self)) !! id = Some txn;
  (** the committed transaction, in the epoch its presignatures belong to *)
  as_tx : unsigned_withdrawal_tx (wt_inputs txn) (all_outputs txn) = Some tx;
  as_txid : compute_txid tx = wt_txid txn;
  as_epoch : pw_epoch prepared = sb_epoch (signing txn)
             /\ pw_epoch prepared = onchain_epoch (onchain_state (sg_hashi self))
             /\ signing_manager self = Some (pw_epoch prepared);
  as_sighashes : withdrawal_signing_messages (sg_hashi self) tx (wt_inputs txn) = Ok sighashes;
  (** no input twice, no input that has a signature, all the others if none is named *)
  as_distinct : NoDup selected;
  as_pending : Forall (fun i => is_Some (pending_index (signing txn) i)) selected;
  as_selected : if nonempty requested then selected = requested
                else forall i, is_Some (pending_index (signing txn) i) -> i ∈ selected;
  (** for each, its own sighash, presignature and key *)
  as_requests : Forall2 (asked_for txn sighashes) selected (pw_requests prepared);
  (** and the way back from the answer *)
  as_ids : dom (index_by_id prepared) = list_to_set (si_signing_id <$> pw_requests prepared);
  as_index : NoDup (si_signing_id <$> pw_requests prepared) ->
    forall k i r, selected !! k = Some i -> pw_requests prepared !! k = Some r ->
    index_by_id prepared !! si_signing_id r = Some i;
}.

Lemma prepared_asked self id requested prepared :
  prepare_withdrawal_signing self id requested = Ok prepared ->
  exists txn tx sighashes selected, asked self id requested prepared txn tx sighashes selected.
Proof.
  unfold prepare_withdrawal_signing, withdrawal_txn, build_unsigned_withdrawal_tx,
    ensure_committed_txid, ensure_current_signing_epoch, require_signing_manager.
  cbn zeta. intros H. destruct (_ !! id) as [txn|] eqn:Htxn; [|done]. cbn [mbind outcome_bind] in H.
  apply bind_Ok in H as (tx & Htx%expect_Ok & H).
  apply bind_Ok in H as ([] & Hid%guard_Ok%Z.eqb_eq & H).
  apply bind_Ok in H as ([] & Hep%guard_Ok%Z.eqb_eq & H).
  apply bind_Ok in H as ([] & Hsm%guard_Ok%bool_decide_eq_true & H).
  apply bind_Ok in H as ([] & _ & H). apply bind_Ok in H as (sighashes & Hsig & H).
  apply bind_Ok in H as (selected & Hsel%selected_pending & H).
  apply bind_Ok in H as ([reqs ids] & Hreqs%sign_inputs_Ok & [= <-]).
  destruct Hsel as (Hnd & Hpend & Hsel), Hreqs as (Hall & Hdom & Hmap).
  exists txn, tx, sighashes, selected. by split.
Qed.

(** *** Forwarding *)

(** The answers by the inputs they are for. *)
Definition partials (ids : gmap Address Z) (results : list (Address * option (list Z)))
    : list Forwarded :=
  omap (fun '(id, result) => i ← ids !! id; Partial (as_u32 i) <$> result) results.
Definition failed_inputs (ids : gmap Address Z) (results : list (Address * option (list Z))) : list Z :=
  omap (fun '(id, result) => match result with None => ids !! id | Some _ => None end) results.

Lemma forward_results_exact ids results : forall deferred,
  Forall (fun e => e.1 ∈ dom ids) results ->
  forward_results ids results deferred
  = Ok (partials ids results
        ++ (Failed <$> option_list (from_option Some (head (failed_inputs ids results)) deferred))).
Proof.
  induction results as [|[id result] l IH]; intros deferred Hin; cbn.
  { by destruct deferred. }
  apply Forall_cons in Hin as [Hid Hl]. apply elem_of_dom in Hid as [i Hi]. cbn in Hi.
  rewrite Hi. cbn. destruct result as [sig|]; cbn.
  - by rewrite IH.
  - rewrite IH by done. by destruct deferred.
Qed.

(** A round of MPC signing.  A prepared signing is of the committed transaction, in the
    epoch its presignatures belong to; it asks for no input twice and for none that has a
    signature, for exactly the named inputs or else for all that miss one; each request
    carries that input's sighash, its own presignature and its own key.  Whatever answers to
    these requests arrive, in any order, the caller receives every signature under the index
    of its input, in the order in which they arrive; a failure holds back nothing: the first
    one is reported, once, after all signatures. *)
Theorem signing_round_exact self id requested prepared :
  prepare_withdrawal_signing self id requested = Ok prepared ->
  exists txn tx sighashes selected,
    asked self id requested prepared txn tx sighashes selected
    /\ forall results, results.*1 ⊆ (si_signing_id <$> pw_requests prepared) ->
       forward_signing_results (index_by_id prepared) results
       = Ok (partials (index_by_id prepared) results
             ++ (Failed <$> option_list (head (failed_inputs (index_by_id prepared) results)))).
Proof.
  intros (txn & tx & sighashes & selected & Ha)%prepared_asked.
  exists txn, tx, sighashes, selected. split; [done|]. intros results Hsub.
  apply forward_results_exact, Forall_forall. intros e He.
  rewrite (as_ids _ _ _ _ _ _ _ _ Ha), elem_of_list_to_set. by apply Hsub, list_elem_of_fmap_2.
Qed.

(** *** No panics *)

Lemma expect_safe {E A} (o : option A) : is_Some o -> expect (E:=E) o <> Panic.
Proof. by intros [x ->]. Qed.

Lemma mapM_in_safe {E A B} (f : A -> outcome E B) l :
  (forall x, x ∈ l -> f x <> Panic) -> mapM f l <> Panic.
Proof.
  induction l as [|x l IH]; intros H; [done|]. cbn. apply bind_safe; [apply H; set_solver|intros y _].
  apply bind_safe; [|done]. apply IH. intros z Hz. apply H. set_solver.
Qed.

Context `{SL : !SigningEnvLaws}.

Lemma signing_messages_safe self ins outs tx :
  unsigned_withdrawal_tx ins outs = Some tx -> withdrawal_signing_messages self tx ins <> Panic.
Proof.
  unfold withdrawal_signing_messages, taproot_script_spend_sighashes, unsigned_withdrawal_tx.
  intros Htx. destruct (mapM (spend_input self) ins) as [l|] eqn:El; [|done].
  assert (length (input tx) = length l) as Hlen.
  { destruct (mapM _ outs) as [o|]; [|done]. cbn in Htx. injection Htx as <-. cbn.
    rewrite length_fmap. by eapply length_mapM. }
  apply mapM_in_safe. intros i Hi%elem_of_seq. apply bind_safe.
  - apply expect_safe, lookup_lt_is_Some. rewrite length_fmap. lia.
  - intros leaf _. apply expect_safe, sighash_defined; [lia|by rewrite length_fmap].
Qed.

Lemma select_safe sb requested : select_withdrawal_signing_indices sb requested <> Panic.
Proof.
  unfold select_withdrawal_signing_indices. destruct requested as [|i l]; [done|].
  apply bind_safe.
  - unfold check_requested_input_indices. generalize (∅ : gset Z). generalize (i :: l).
    intros req. induction req as [|j req IH]; intros seen; [done|]. cbn.
    repeat (apply bind_safe; [apply guard_safe|intros _ _]). apply IH.
  - intros _ _. apply mapM_safe. intros j. by destruct (pending_index sb j).
Qed.

Lemma sign_inputs_safe txn sighashes selected :
  length (signatures (signing txn)) = length (wt_inputs txn) ->
  length sighashes = length (wt_inputs txn) ->
  Forall (fun i => is_Some (pending_index (signing txn) i)) selected ->
  sign_inputs txn sighashes selected <> Panic.
Proof.
  intros Hs Hh. induction 1 as [|i l [p Hp] _ IH]; [done|]. cbn. apply bind_safe.
  - assert ((Z.to_nat i < length (wt_inputs txn))%nat) as Hi.
    { rewrite <- Hs. unfold pending_index in Hp. destruct (i <? 0); [done|].
      destruct (_ !! Z.to_nat i) eqn:E; [|done]. by eapply lookup_lt_Some. }
    unfold sign_input. rewrite Hp. apply bind_safe; [apply expect_safe, lookup_lt_is_Some; lia|intros m _].
    cbn [expect mbind outcome_bind]. by apply bind_safe; [apply expect_safe, lookup_lt_is_Some|].
  - intros r _. apply bind_safe; [done|]. by intros [].
Qed.

(** The preparation for a transaction the chain can hold never panics: it pays supported
    scripts and has a slot for the signature of every input. *)
Lemma prepare_no_panic self id requested :
  (forall txn, withdrawal_txns (onchain_state (sg_hashi self)) !! id = Some txn ->
     is_Some (unsigned_withdrawal_tx (wt_inputs txn) (all_outputs txn))
     /\ length (signatures (signing txn)) = length (wt_inputs txn)) ->
  prepare_withdrawal_signing self id requested <> Panic.
Proof.
  unfold prepare_withdrawal_signing, withdrawal_txn, build_unsigned_withdrawal_tx. cbn zeta.
  destruct (_ !! id) as [txn|]; [|done]. intros H. destruct (H txn eq_refl) as [[tx Htx] Hlen].
  cbn [mbind outcome_bind]. rewrite Htx. cbn [mbind outcome_bind expect].
  unfold ensure_committed_txid, ensure_current_signing_epoch, require_signing_manager.
  repeat (apply bind_safe; [apply guard_safe|intros _ _]).
  apply bind_safe; [by eapply signing_messages_safe|]. intros sighashes Hsig.
  apply bind_safe; [apply select_safe|]. intros selected (_ & Hp & _)%selected_pending.
  apply bind_safe; [|by intros []]. apply sign_inputs_safe; [done| |done].
  by eapply signing_messages_length.
Qed.
End requests.

(** * The probe of the finalize check

    The part of [crates/hashi/src/finalize_bitcoin_check.rs] that keeps asking bitcoind about
    a spend it must refuse: which UTXO is spent, the spend itself, what an answer means and
    how long the loop sleeps. *)

Section probe.
Context `{SE : SigningEnv}.

#[local] Abbreviation R := (outcome Refusal).

Definition PROBE_OUTPUT_SATS : Z := 1000.
Definition PROBE_MIN_SATS : Z := 30000.

(** The largest of the free confirmed UTXOs that can pay for a spend. *)
Definition probe_utxo (self : OnchainState) : option MoveUtxo :=
  let records := utxo_records self in
  rec_utxo <$>
    max_by_key (fun r => mu_amount (rec_utxo r))
      (List.filter (fun r => PROBE_MIN_SATS <=? mu_amount (rec_utxo r))
         (omap (fun id => records !! id)
            (confirmed_unlocked_utxo_ids records (withdrawal_txns self)))).

(** A spend back to the bridge with signatures that cannot be valid. *)
Definition probe_spend (self : Hashi) (utxo : MoveUtxo) : R SignedTransaction :=
  match get_deposit_address self None ≫= witness_program_from_address with
  | None => Err NoBridgeKey
  | Some program =>
      tx ← build_unsigned_withdrawal_tx [utxo] [mkOutputUtxo PROBE_OUTPUT_SATS program];
      witness ← withdrawal_input_witness self (derivation_path utxo) (replicate 64 1) (replicate 64 2);
      _ ← expect (input tx !! 0%nat);
      Ok (mkSignedTransaction tx [witness])
  end.

(** [answer] is that of bitcoind, or an error, the timeout included. *)
Definition probe_spend_answer (answer : list MempoolAcceptance + CheckError) : Probed :=
  match answer with
  | inl results => spend_probe_result results
  | inr error => Unanswered (NoAnswer error)
  end.

Definition probe_answers (answer : list MempoolAcceptance + CheckError) : Probed :=
  match answer with
  | inl results =>
      match classify results with
      | Unavailable error => Unanswered (NoAnswer error)
      | _ => ProbeAnswered
      end
  | inr error => Unanswered (NoAnswer error)
  end.

(** How long the loop sleeps before its next turn. *)
Inductive Pause := PauseFor (ms : Z) | PauseUntilUtxo (deadline : Z).

(** A turn of the loop: the answer is to the spend, or to the transaction that only asks. *)
Definition probe_turn (self : Hashi) (probes : Probes) (now : Z)
    (spend_answer : SignedTransaction -> list MempoolAcceptance + CheckError)
    (null_answer : list MempoolAcceptance + CheckError) : R (Probes * Pause) :=
  let finish probed :=
    Ok (probes_record probes now probed,
        match probed with
        | Refused => PauseFor PROBE_INTERVAL
        | ProbeAnswered => PauseUntilUtxo (now + PROBE_INTERVAL)
        | _ => PauseFor PROBE_POLL
        end) in
  match probe_utxo (onchain_state self) with
  | None => finish (probe_answers null_answer)
  | Some utxo =>
      match probe_spend self utxo with
      | Ok spend => finish (probe_spend_answer (spend_answer spend))
      | Err _ => Ok (probes, PauseFor PROBE_POLL)
      | Panic => Panic
      end
  end.

(** [probe_withdrawal_script_check]: passes only on a refusal. *)
Definition probe_withdrawal_script_check (self : Hashi)
    (spend_answer : SignedTransaction -> list MempoolAcceptance + CheckError) : R unit :=
  match probe_utxo (onchain_state self) with
  | None => Err NoProbeUtxo
  | Some utxo =>
      spend ← probe_spend self utxo;
      match probe_spend_answer (spend_answer spend) with
      | Refused => Ok tt
      | other => Err (ProbeNotRefused other)
      end
  end.

(** The probed UTXO can be spent and is large enough; no larger one is passed over. *)
Lemma probe_utxo_sound self u :
  probe_utxo self = Some u ->
  PROBE_MIN_SATS <= mu_amount u
  /\ exists id r, utxo_records self !! id = Some r /\ rec_utxo r = u
     /\ id ∈ confirmed_unlocked_utxo_ids (utxo_records self) (withdrawal_txns self).
Proof.
  unfold probe_utxo. intros H.
  match type of H with context [max_by_key ?k ?l] => pose proof (max_by_key_spec k l) as Hm end.
  destruct (max_by_key _ _) as [r|]; [|done]. injection H as <-. destruct Hm as [Hr _].
  apply list_elem_of_In, filter_In in Hr as [Hr Hmin%Z.leb_le]. split; [done|].
  apply list_elem_of_In, list_elem_of_omap in Hr as (id & Hid & Hr). by exists id, r.
Qed.

(** The spend pays the bridge and nobody else: its one output is the change address. *)
Lemma probe_spend_harmless self u spend :
  probe_spend self u = Ok spend ->
  input (st_tx spend) = [mu_id u]
  /\ exists a program script, get_deposit_address self None = Some a
     /\ witness_program_from_address a = Some program
     /\ script_pubkey_from_witness_program program = Some script
     /\ output (st_tx spend) = [mkTxOut PROBE_OUTPUT_SATS script].
Proof.
  unfold probe_spend, build_unsigned_withdrawal_tx, unsigned_withdrawal_tx. intros H.
  destruct (get_deposit_address self None) as [a|] eqn:Ha; [|done]. cbn [mbind option_bind] in H.
  destruct (witness_program_from_address a) as [program|] eqn:Hp; [|done]. cbn in H.
  destruct (script_pubkey_from_witness_program program) as [script|] eqn:Hs; cbn in H; [|done].
  apply bind_Ok in H as (w & _ & H). injection H as <-. split; [done|]. by exists a, program, script.
Qed.
End probe.
