(* ===== verification/WithdrawalSigningExamples.v ===== *)
(** * Signing a withdrawal on a concrete state

    The batch of [WithdrawalExamples] after the contract has stored it: a validator prepares
    the MPC signing of its two inputs, the guardian's request is built and charged, and the
    transaction with all signatures is verified and signed. *)

From S2P Require Import Limiter CoinSelection Committee CommitteeProofs TxUtxos Guardian GuardianExamples MonitorDomain Withdrawals WithdrawalAncestry WithdrawalTheorems WithdrawalBatch WithdrawalExamples FinalizeCheck WithdrawalSigning WithdrawalSigningProofs Prelude.

Import SmallGuardian.

#[local] Existing Instance script_units.
#[local] Existing Instance script_units_laws.
#[local] Existing Instance script_env.

(** ** An environment *)

(** A Schnorr signature is a checksum in 64 bytes, a sighash the amount of its input. *)
#[local] Instance checksum_signing : SigningEnv := {|
  SchnorrPublicKey := Z;
  SchnorrSignature := Z;
  schnorr_pk_from_byte_array _ := Some 9;
  schnorr_sig_from_byte_array b := Some (zsum b);
  schnorr_verify pk h s := s =? pk * 10000000 + zsum h;
  derive_verifying_key _ _ := Some tt;
  TapLeafHash := unit;
  taproot_2of2_witness_artifacts _ _ _ := ([1], [2], tt);
  taproot_script_spend_signature_hash tx prevouts i _ :=
    if (i <? length (input tx))%nat && (length prevouts =? length (input tx))%nat
    then o ← prevouts !! i; Some [Z.of_nat i; value o] else None;
  signing_id_digest a i := a * 2 ^ 32 + i;
  Delta := list Z;
  message_delta r i m := i :: r ++ m;
  BlsPrivateKey := Z;
  bls_public_key k := k;
  bls_sign k m := k * 100000 + zsum m;
  from_script s n := Some (2 * zsum s + n);
  network_of n := match n with Bitcoin => 0 | _ => 1 end;
  approval_bcs m := [wa_request_id m];
  commitment_bcs m := ap_request_ids m ++ [ap_txid m];
  signing_bcs m := ws_withdrawal_id m :: concat (ws_signatures m) ++ concat (ws_guardian_signatures m);
  input_signatures_bcs m := mi_withdrawal_id m :: mi_indices m ++ concat (mi_signatures m);
  withdrawal_confirmation_bcs m := [wc_withdrawal_id m];
|}.

#[local] Instance checksum_signing_laws : SigningEnvLaws.
Proof.
  split; cbn -[Nat.ltb Nat.eqb].
  - intros k m. apply Z.eqb_refl.
  - intros s n a [= <-]. rewrite (Z.add_comm _ n), (Z.mul_comm 2), Z.mod_add by lia.
    by rewrite Z.eqb_refl.
  - by eexists.
  - intros tx prevouts i _ Hi Hl. rewrite (proj2 (Nat.ltb_lt _ _) Hi), Hl, Nat.eqb_refl. cbn.
    destruct (lookup_lt_is_Some_2 prevouts i) as [o ->]; [lia|]. by eexists.
Qed.

(** ** The state after the commitment *)

Definition committed_txn : WithdrawalTransaction :=
  {| wt_id := 78; wt_txid := ap_txid commitment; wt_request_ids := ap_request_ids commitment;
     wt_inputs := [mkMoveUtxo (500, 1) 900000 None; mkMoveUtxo (600, 0) 40000 None];
     wt_withdrawal_outputs := take 2 (ap_outputs commitment);
     wt_change_outputs := drop 2 (ap_outputs commitment);
     wt_created_timestamp_ms := 1999000; wt_signed_timestamp_ms := None;
     wt_confirmed_timestamp_ms := None; wt_randomness := replicate 32 6;
     signing := mkSigningBatch [SigPending 40; SigPending 41] 3; guardian_signatures := None |}.

Definition committee_3 : Committee :=
  with_config ((fun i => mkCommitteeMember (10 + i) (20 + i : BlsPublicKey) (30 + i) 25) <$> [0; 1; 2; 3])
    3 (from_mpc_params 800 3333 0).

Definition signer : Signer :=
  {| sg_hashi :=
       {| config := config node;
          onchain_state :=
            {| requests := requests chain_state;
               withdrawal_txns := <[78 := committed_txn]> (withdrawal_txns chain_state);
               utxo_records := utxo_records chain_state;
               cfg_withdrawal_minimum := Some 50000;
               caught_up_with_scrape := true;
               latest_checkpoint_timestamp_ms := 2000000;
               onchain_epoch := 3 |};
          local_limiter := Some bucket;
          signing_verifying_key := Some tt;
          onchain_verifying_key_g := None;
          guardian_btc_pubkey := Some tt;
          guardian_btc_public_key := None |};
     cfg_validator_address := Some 12;
     hashi_object_id := hid;
     committees := {[3 := committee_3]};
     raw_committees := ∅;
     find_signing_key_matching pk := Some (if pk =? 22 then Some (22 : BlsPrivateKey) else None);
     signing_manager := Some 3;
     cfg_confirmation_threshold := None |}.

(** The checksum over the first and the second input. *)
Definition signature_of (i amount : Z) : list Z := (90000000 + i + amount) :: replicate 63 0.
Definition all_signed : WithdrawalTxSigning :=
  mkWithdrawalTxSigning 78 [signature_of 0 900000; signature_of 1 40000]
    [signature_of 0 900000; signature_of 1 40000].

Lemma signer_ok : signer_wf signer.
Proof.
  split.
  - cbn [committees signer]. intros epoch c [<- <-]%lookup_singleton_Some. split_and!; [done..|].
    change (NoDup [10; 11; 12; 13]). by repeat (constructor; [set_solver|]); constructor.
  - cbn. intros pk k [= H]. destruct (Z.eqb_spec pk 22) as [->|]; [|done]. by injection H as <-.
Qed.

(** ** Witnesses *)

Lemma member_signature_verifies_witness :
  exists sp, sign_message_proto_at_epoch signer (mkWithdrawalConfirmation 78) 3 = Ok sp
  /\ exists c m, committees signer !! 3 = Some c /\ member c (ms_address (sp_signature sp)) = Ok m
    /\ cfg_validator_address signer = Some (ms_address (sp_signature sp))
    /\ sp_public_key sp = public_key m
    /\ committee_verify c (hashi_object_id signer) (mkWithdrawalConfirmation 78) (sp_signature sp) = Ok tt.
Proof.
  eexists. split; [reflexivity|].
  apply (member_signature_verifies signer (mkWithdrawalConfirmation 78) 3 _ signer_ok). reflexivity.
Defined.

Definition verified : VerifiedWithdrawalTxSigning :=
  match verify_withdrawal_tx_signing signer all_signed (Some 4) (Some 2000) with
  | Ok v => v
  | _ => mkVerifiedWithdrawalTxSigning all_signed 0 (Err NoGuardianKey)
  end.

Definition finalize_signature : SignatureProto :=
  match sign_verified_withdrawal_tx_signing signer verified (fun _ => Accepted) with
  | Ok s => s
  | _ => mkSignatureProto (mkMemberSignature 0 0 (0 : BlsSignature)) (0 : BlsPublicKey)
  end.

Lemma request_verified :
  verify_withdrawal_tx_signing signer all_signed (Some 4) (Some 2000) = Ok verified.
Proof. vm_cast_no_check (eq_refl (Ok (E:=Refusal) verified)). Qed.

Lemma request_signed :
  sign_verified_withdrawal_tx_signing signer verified (fun _ => Accepted) = Ok finalize_signature.
Proof. vm_cast_no_check (eq_refl (Ok (E:=Refusal) finalize_signature)). Qed.


Definition prepared : PreparedWithdrawalSigning :=
  match prepare_withdrawal_signing signer 78 [] with
  | Ok p => p
  | _ => mkPreparedWithdrawalSigning 0 [] ∅
  end.

Lemma signing_prepared : prepare_withdrawal_signing signer 78 [] = Ok prepared.
Proof. vm_cast_no_check (eq_refl (Ok (E:=Refusal) prepared)). Qed.

(** Both inputs, each with its presignature. *)
Example both_inputs_asked :
  (fun r => (si_signing_id r, si_global_presig_index r)) <$> pw_requests prepared
  = [(78 * 2 ^ 32, 40); (78 * 2 ^ 32 + 1, 41)].
Proof. vm_cast_no_check (eq_refl [(78 * 2 ^ 32, 40); (78 * 2 ^ 32 + 1, 41)]). Qed.

Lemma signing_round_exact_witness :
  exists txn tx sighashes selected,
    asked signer 78 [] prepared txn tx sighashes selected
    /\ forall results, results.*1 ⊆ (si_signing_id <$> pw_requests prepared) ->
       forward_signing_results (index_by_id prepared) results
       = Ok (partials (index_by_id prepared) results
             ++ (Failed <$> option_list (head (failed_inputs (index_by_id prepared) results)))).
Proof. exact (signing_round_exact signer 78 [] prepared signing_prepared). Defined.

Lemma commitment_committed : committed_as chain_state commitment committed_txn.
Proof.
  split; try (vm_compute; reflexivity). cbn [wt_inputs committed_txn].
  change (selected_utxos commitment) with (fst (selected_utxos commitment, tt)).
  replace (selected_utxos commitment) with [(500, 1); (600, 0)] by (vm_compute; reflexivity).
  repeat constructor.
Qed.

(** The charge of the batch: the two requests. *)
Lemma certified_charge_agrees_witness :
  exists tx req limiter,
    unsigned_withdrawal_tx (wt_inputs committed_txn) (all_outputs committed_txn) = Some tx
    /\ ensure_committed_txid committed_txn tx = Ok tt
    /\ build_guardian_withdrawal_request validator committed_txn 2000 4 = Ok req
    /\ gross_outflow_amount (E:=Refusal) (wr_utxos req) = Ok 500000
    /\ withdrawal_limiter_consumption_amount committed_txn = 500000
    /\ local_limiter validator = Some limiter /\ 500000 <= max_bucket_capacity (lv_config limiter).
Proof.
  refine (certified_charge_agrees validator validator 1000 commitment committed_txn 2000 4
            _ _ _ commitment_committed _ _ _).
  - apply chain_state_fits.
  - split; vm_compute; repeat constructor; discriminate.
  - vm_compute. reflexivity.
  - by intros id r [? _]%lookup_records.
  - repeat constructor.
  - vm_compute. reflexivity.
Defined.

(** The second input fails, a stray failure of the first follows: one report, at the end. *)
Example failure_last :
  forward_signing_results {[5 := 0; 6 := 1; 7 := 2]} [(6, None); (5, Some [1]); (7, None)]
  = Ok [Partial 0 [1]; Failed 1].
Proof. reflexivity. Qed.
