(* ===== verification/DepositTracker.v ===== *)
(** * The deposit tracker

    [crates/hashi/src/deposit_tracker.rs]: the requests of the deposit queue by the outpoint
    they name, what is known of each outpoint on Bitcoin, the index of the outpoints a block
    scan looks for, and the discovery of outpoints nothing is known of yet.  A discovery runs
    outside of the lock and comes back with a token; a reset or a reorganization of the chain
    takes the token from every entry.

    An operation is the body under the lock with the flag whether it wakes the leader
    ([notify_work]).  A map of the code is iterated in the order of its keys here; an index or
    an [unwrap] that fails is a panic.  The gauges of the metrics are part of the state; the
    counter of coinbase deposits and the log lines are left out. *)

From S2P Require Import MonitorDomain Retry Prelude.

(** ** What is known of an outpoint *)

Record HashCheckpoint := mkHashCheckpoint { cp_height : Z; cp_hash : Z }.

Definition DEPOSIT_SCRIPT_LEN : nat := 34.

Inductive RecordedOutput :=
| Kept (txout : TxOut)
| LongScript (value : Z) (script_start : list Z) (script_len : nat).

(** [RecordedOutput::new] *)
Definition recorded_output (txout : TxOut) : RecordedOutput :=
  let script := out_script txout in
  if (DEPOSIT_SCRIPT_LEN <? length script)%nat
  then LongScript (value txout) (take DEPOSIT_SCRIPT_LEN script) (length script)
  else Kept txout.

Inductive DepositStatus :=
| Unchecked
| NotFound
| InMempool
| InBlock (checkpoint : HashCheckpoint) (is_coinbase : bool) (output : RecordedOutput)
| InvalidVout (checkpoint : HashCheckpoint).

#[export] Instance HashCheckpoint_eq_dec : EqDecision HashCheckpoint.
Proof. solve_decision. Defined.
#[export] Instance RecordedOutput_eq_dec : EqDecision RecordedOutput.
Proof. solve_decision. Defined.
#[export] Instance DepositStatus_eq_dec : EqDecision DepositStatus.
Proof. solve_decision. Defined.

Definition is_unchecked (status : DepositStatus) : bool :=
  match status with Unchecked => true | _ => false end.
Definition is_scan_candidate (status : DepositStatus) : bool :=
  match status with Unchecked | NotFound | InMempool => true | _ => false end.

(** u32, saturating at both ends *)
Definition confirmations (block_height tip_height : Z) : Z :=
  Z.max 0 (Z.min u32_max (tip_height + 1) - block_height).

Definition COINBASE_MATURITY : Z := 100.
Definition effective_deposit_confirmation_threshold (configured : Z) (is_coinbase : bool) : Z :=
  if is_coinbase then Z.max configured COINBASE_MATURITY else configured.

Definition in_block_bucket (block_height tip_height : Z) : nat :=
  4 + Z.to_nat (Z.min (confirmations block_height tip_height) 6).

Definition status_bucket (status : DepositStatus) (tip : option HashCheckpoint) : nat :=
  match status with
  | Unchecked => 0
  | NotFound => 1
  | InMempool => 2
  | InvalidVout _ => 3
  | InBlock checkpoint _ _ => in_block_bucket (cp_height checkpoint) (from_option cp_height 0 tip)
  end.

(** ** The state *)

Record Entry := mkEntry {
  e_requests : gset Address;
  e_status : DepositStatus;
  e_discovery_id : option Z;
}.

Record TrackerState := mkTrackerState {
  ts_metrics : option (gmap nat Z);
  entries : gmap OutPoint Entry;
  scan_candidates_by_txid : gmap Txid (gset OutPoint);
  request_outpoints : gmap Address OutPoint;
  ts_tip : option HashCheckpoint;
  bitcoin_generation : Z;
  next_discovery_id : Z;
}.

Definition with_entries (self : TrackerState) (m : gmap OutPoint Entry) : TrackerState :=
  mkTrackerState (ts_metrics self) m (scan_candidates_by_txid self) (request_outpoints self)
    (ts_tip self) (bitcoin_generation self) (next_discovery_id self).
Definition with_candidates (self : TrackerState) (m : gmap Txid (gset OutPoint)) : TrackerState :=
  mkTrackerState (ts_metrics self) (entries self) m (request_outpoints self)
    (ts_tip self) (bitcoin_generation self) (next_discovery_id self).
Definition with_requests (self : TrackerState) (m : gmap Address OutPoint) : TrackerState :=
  mkTrackerState (ts_metrics self) (entries self) (scan_candidates_by_txid self) m
    (ts_tip self) (bitcoin_generation self) (next_discovery_id self).
Definition with_metrics (self : TrackerState) (m : option (gmap nat Z)) : TrackerState :=
  mkTrackerState m (entries self) (scan_candidates_by_txid self) (request_outpoints self)
    (ts_tip self) (bitcoin_generation self) (next_discovery_id self).
Definition with_tip (self : TrackerState) (tip : option HashCheckpoint) : TrackerState :=
  mkTrackerState (ts_metrics self) (entries self) (scan_candidates_by_txid self)
    (request_outpoints self) tip (bitcoin_generation self) (next_discovery_id self).
Definition with_counters (self : TrackerState) (generation next : Z) : TrackerState :=
  mkTrackerState (ts_metrics self) (entries self) (scan_candidates_by_txid self)
    (request_outpoints self) (ts_tip self) generation next.

(** [CONFIRMATION_STATUS_LABELS] *)
Definition STATUS_LABELS : nat := 11.

Definition tracker_new (instrumented : bool) : TrackerState :=
  mkTrackerState
    (if instrumented then Some (list_to_map ((fun i => (i, 0)) <$> seq 0 STATUS_LABELS)) else None)
    ∅ ∅ ∅ None 0 0.

#[local] Abbreviation T := (outcome Empty_set).

(** ** Operations of the state *)

(** A label out of range panics. *)
Definition adjust_metric_bucket (self : TrackerState) (bucket : nat) (delta : Z) : T TrackerState :=
  match ts_metrics self with
  | None => Ok self
  | Some gauges =>
      gauge ← expect (gauges !! bucket);
      Ok (with_metrics self (Some (<[bucket := gauge + delta]> gauges)))
  end.

Definition adjust_metric (self : TrackerState) (status : DepositStatus) (delta : Z) : T TrackerState :=
  adjust_metric_bucket self (status_bucket status (ts_tip self)) delta.

Definition insert_scan_candidate (self : TrackerState) (outpoint : OutPoint) : TrackerState :=
  let outpoints := default ∅ (scan_candidates_by_txid self !! outpoint.1) in
  with_candidates self
    (<[outpoint.1 := {[outpoint]} ∪ outpoints]> (scan_candidates_by_txid self)).

Definition remove_scan_candidate (self : TrackerState) (outpoint : OutPoint) : TrackerState :=
  match scan_candidates_by_txid self !! outpoint.1 with
  | None => self
  | Some outpoints =>
      let outpoints := outpoints ∖ {[outpoint]} in
      with_candidates self
        (if decide (outpoints = ∅) then delete outpoint.1 (scan_candidates_by_txid self)
         else <[outpoint.1 := outpoints]> (scan_candidates_by_txid self))
  end.

Definition rebuild_scan_candidate_index (self : TrackerState) : TrackerState :=
  fold_left insert_scan_candidate
    (omap (fun '(outpoint, entry) => if is_scan_candidate (e_status entry) then Some outpoint else None)
       (map_to_list (entries self)))
    (with_candidates self ∅).

(** Whether the status changed. *)
Definition transition (self : TrackerState) (outpoint : OutPoint) (status : DepositStatus)
    : T (TrackerState * bool) :=
  entry ← expect (entries self !! outpoint);
  let old_status := e_status entry in
  if decide (old_status = status) then Ok (self, false)
  else
    self ← adjust_metric self old_status (-1);
    self ← adjust_metric self status 1;
    let self :=
      match is_scan_candidate old_status, is_scan_candidate status with
      | true, false => remove_scan_candidate self outpoint
      | false, true => insert_scan_candidate self outpoint
      | _, _ => self
      end in
    Ok (with_entries self (<[outpoint := mkEntry (e_requests entry) status None]> (entries self)), true).

Definition without_discovery (entry : Entry) : Entry :=
  mkEntry (e_requests entry) (e_status entry) None.

Definition reset_entry (self : TrackerState) (outpoint : OutPoint) : T TrackerState :=
  entry ← expect (entries self !! outpoint);
  if is_unchecked (e_status entry)
  then Ok (with_entries self (<[outpoint := without_discovery entry]> (entries self)))
  else '(self, _) ← transition self outpoint Unchecked; Ok self.

Definition remove_entry (self : TrackerState) (outpoint : OutPoint) : T TrackerState :=
  entry ← expect (entries self !! outpoint);
  self ← adjust_metric (with_entries self (delete outpoint (entries self))) (e_status entry) (-1);
  Ok (remove_scan_candidate self outpoint).

Definition new_entry (requests : gset Address) : Entry := mkEntry requests Unchecked None.

Definition insert_request (self : TrackerState) (request : Address) (outpoint : OutPoint)
    : T TrackerState :=
  self ← match entries self !! outpoint with
         | Some _ => Ok self
         | None =>
             adjust_metric
               (insert_scan_candidate (with_entries self (<[outpoint := new_entry ∅]> (entries self)))
                  outpoint) Unchecked 1
         end;
  entry ← expect (entries self !! outpoint);
  let entry := mkEntry ({[request]} ∪ e_requests entry) (e_status entry) (e_discovery_id entry) in
  Ok (with_requests (with_entries self (<[outpoint := entry]> (entries self)))
        (<[request := outpoint]> (request_outpoints self))).

(** Whether the request was there. *)
Definition remove_request (self : TrackerState) (request : Address) : T (TrackerState * bool) :=
  match request_outpoints self !! request with
  | None => Ok (self, false)
  | Some outpoint =>
      let self := with_requests self (delete request (request_outpoints self)) in
      entry ← expect (entries self !! outpoint);
      let requests := e_requests entry ∖ {[request]} in
      let self := with_entries self
        (<[outpoint := mkEntry requests (e_status entry) (e_discovery_id entry)]> (entries self)) in
      self ← (if decide (requests = ∅) then remove_entry self outpoint else Ok self);
      Ok (self, true)
  end.

(** The counter is a u64. *)
Definition checked_succ (n : Z) : T Z := if n <? u64_max then Ok (n + 1) else Panic.

Definition bump_bitcoin_generation (self : TrackerState) : T TrackerState :=
  generation ← checked_succ (bitcoin_generation self);
  Ok (with_entries (with_counters self generation (next_discovery_id self))
        (without_discovery <$> entries self)).

(** A transaction of a block. *)
Record BlockTx := mkBlockTx { bt_coinbase : bool; bt_output : list TxOut }.

Definition scanned_status (checkpoint : HashCheckpoint) (tx : BlockTx) (outpoint : OutPoint)
    : DepositStatus :=
  match bt_output tx !! Z.to_nat outpoint.2 with
  | None => InvalidVout checkpoint
  | Some txout => InBlock checkpoint (bt_coinbase tx) (recorded_output txout)
  end.

Fixpoint apply_outpoints (self : TrackerState) (checkpoint : HashCheckpoint) (tx : BlockTx)
    (outpoints : list OutPoint) : T (TrackerState * bool) :=
  match outpoints with
  | [] => Ok (self, false)
  | outpoint :: outpoints =>
      '(self, changed) ← transition self outpoint (scanned_status checkpoint tx outpoint);
      '(self, changed') ← apply_outpoints self checkpoint tx outpoints;
      Ok (self, changed || changed')
  end.

Fixpoint apply_block (self : TrackerState) (checkpoint : HashCheckpoint)
    (block : list (BlockTx * Txid)) : T (TrackerState * bool) :=
  match block with
  | [] => Ok (self, false)
  | (tx, txid) :: block =>
      '(self, changed) ←
        match scan_candidates_by_txid self !! txid with
        | None => Ok (self, false)
        | Some outpoints => apply_outpoints self checkpoint tx (elements outpoints)
        end;
      '(self, changed') ← apply_block self checkpoint block;
      Ok (self, changed || changed')
  end.

(** ** Operations of the tracker *)

Fixpoint remove_entries (self : TrackerState) (removed : list OutPoint) : T TrackerState :=
  match removed with
  | [] => Ok self
  | outpoint :: removed => self ← remove_entry self outpoint; remove_entries self removed
  end.

(** An entry that is there keeps what is known of it. *)
Fixpoint take_requests (self : TrackerState) (desired : list (OutPoint * gset Address))
    : T TrackerState :=
  match desired with
  | [] => Ok self
  | (outpoint, request_ids) :: desired =>
      self ←
        match entries self !! outpoint with
        | Some entry =>
            Ok (with_entries self
                  (<[outpoint := mkEntry request_ids (e_status entry) (e_discovery_id entry)]>
                     (entries self)))
        | None =>
            self ← adjust_metric self Unchecked 1;
            Ok (with_entries self (<[outpoint := new_entry request_ids]> (entries self)))
        end;
      take_requests self desired
  end.

(** The requests of each outpoint. *)
Definition by_outpoint (desired : gmap Address OutPoint) : gmap OutPoint (gset Address) :=
  fold_left (fun m '(request, outpoint) =>
               <[outpoint := {[request]} ∪ default ∅ (m !! outpoint)]> m)
    (map_to_list desired) ∅.

Definition replace_requests (self : TrackerState) (desired : gmap Address OutPoint)
    : T (TrackerState * bool) :=
  if decide (request_outpoints self = desired) then Ok (self, false)
  else
    let desired_by_outpoint := by_outpoint desired in
    let removed :=
      List.filter (fun outpoint => bool_decide (desired_by_outpoint !! outpoint = None))
        (map_to_list (entries self)).*1 in
    self ← remove_entries self removed;
    self ← take_requests self (map_to_list desired_by_outpoint);
    Ok (rebuild_scan_candidate_index (with_requests self desired), true).

Definition upsert_request (self : TrackerState) (request : Address) (outpoint : OutPoint)
    : T (TrackerState * bool) :=
  if decide (request_outpoints self !! request = Some outpoint) then Ok (self, false)
  else
    '(self, _) ← remove_request self request;
    self ← insert_request self request outpoint;
    Ok (self, true).

Definition contains_request (self : TrackerState) (request : Address) : bool :=
  bool_decide (is_Some (request_outpoints self !! request)).

Record ObservationToken := mkObservationToken { ot_outpoint : OutPoint; ot_discovery_id : Z }.

Inductive DepositDiscovery :=
| Known (status : DepositStatus)
| Discover (token : ObservationToken)
| DiscoveryPending
| Untracked.

Definition discovery (self : TrackerState) (outpoint : OutPoint)
    : T (TrackerState * DepositDiscovery) :=
  match entries self !! outpoint with
  | None => Ok (self, Untracked)
  | Some entry =>
      if is_unchecked (e_status entry) then
        match e_discovery_id entry with
        | Some _ => Ok (self, DiscoveryPending)
        | None =>
            let discovery_id := next_discovery_id self in
            next ← checked_succ discovery_id;
            let self := with_counters self (bitcoin_generation self) next in
            Ok (with_entries self
                  (<[outpoint := mkEntry (e_requests entry) (e_status entry) (Some discovery_id)]>
                     (entries self)),
                Discover (mkObservationToken outpoint discovery_id))
        end
      else Ok (self, Known (e_status entry))
  end.

Definition recorded_status (self : TrackerState) (outpoint : OutPoint) : option DepositStatus :=
  entry ← entries self !! outpoint;
  if is_unchecked (e_status entry) then None else Some (e_status entry).

Inductive DiscoveryResolution (E : Type) :=
| Complete (result : DepositStatus + E)
| ResolutionPending
| ResolutionUntracked.
Arguments Complete {E} result.
Arguments ResolutionPending {E}.
Arguments ResolutionUntracked {E}.

Definition resolve_discovery {E} (self : TrackerState) (token : ObservationToken)
    (result : DepositStatus + E) : T (TrackerState * DiscoveryResolution E * bool) :=
  if match result with inl status => is_unchecked status | inr _ => false end then Panic
  else
    match entries self !! ot_outpoint token with
    | None => Ok (self, ResolutionUntracked, false)
    | Some entry =>
        if decide (e_discovery_id entry = Some (ot_discovery_id token)) then
          match result with
          | inl status =>
              '(self, _) ← transition self (ot_outpoint token) status;
              Ok (self, Complete (inl status), true)
          | inr error =>
              Ok (with_entries self (<[ot_outpoint token := without_discovery entry]> (entries self)),
                  Complete (inr error), false)
          end
        else if negb (is_unchecked (e_status entry)) then
          Ok (self, Complete (inl (e_status entry)), false)
        else match e_discovery_id entry with
             | Some _ => Ok (self, ResolutionPending, false)
             | None => Ok (self, Complete result, false)
             end
    end.

Definition apply_block_if_current (self : TrackerState) (generation : Z)
    (checkpoint : HashCheckpoint) (block : list (BlockTx * Txid)) : T (TrackerState * bool) :=
  if negb (bitcoin_generation self =? generation) then Ok (self, false)
  else apply_block self checkpoint block.

(** The gauges move with the tip. *)
Definition move_gauge (self : TrackerState) (tip : HashCheckpoint) (entry : Entry) : T TrackerState :=
  match e_status entry with
  | InBlock checkpoint _ _ =>
      let old_bucket := status_bucket (e_status entry) (ts_tip self) in
      let new_bucket := in_block_bucket (cp_height checkpoint) (cp_height tip) in
      if (old_bucket =? new_bucket)%nat then Ok self
      else
        self ← adjust_metric_bucket self old_bucket (-1);
        adjust_metric_bucket self new_bucket 1
  | _ => Ok self
  end.

Fixpoint move_gauges (self : TrackerState) (tip : HashCheckpoint)
    (tracked : list (OutPoint * Entry)) : T TrackerState :=
  match tracked with
  | [] => Ok self
  | (_, entry) :: tracked => self ← move_gauge self tip entry; move_gauges self tip tracked
  end.

Definition set_tip (self : TrackerState) (tip : HashCheckpoint) : T (TrackerState * bool) :=
  if decide (ts_tip self = Some tip) then Ok (self, false)
  else
    self ← move_gauges self tip (map_to_list (entries self));
    Ok (with_tip self (Some tip), true).

Fixpoint reset_entries (self : TrackerState) (outpoints : list OutPoint) : T TrackerState :=
  match outpoints with
  | [] => Ok self
  | outpoint :: outpoints => self ← reset_entry self outpoint; reset_entries self outpoints
  end.

Definition reset_bitcoin_state (self : TrackerState) : T (TrackerState * bool) :=
  self ← bump_bitcoin_generation self;
  self ← reset_entries self (map_to_list (entries self)).*1;
  Ok (with_tip self None, true).

(** The entries recorded in a block that is disconnected. *)
Definition disconnected_entries (self : TrackerState) (disconnected : list HashCheckpoint)
    : list OutPoint :=
  omap (fun '(outpoint, entry) =>
          match e_status entry with
          | InBlock checkpoint _ _ | InvalidVout checkpoint =>
              if decide (checkpoint ∈ disconnected) then Some outpoint else None
          | _ => None
          end) (map_to_list (entries self)).

Definition apply_reorg (self : TrackerState) (disconnected : list HashCheckpoint)
    : T (TrackerState * bool) :=
  self ← bump_bitcoin_generation self;
  self ← reset_entries self (disconnected_entries self disconnected);
  Ok (self, true).

Definition has_scan_candidates (self : TrackerState) : bool :=
  negb (bool_decide (scan_candidates_by_txid self = ∅)).

Definition actionable (threshold : Z) (tip : option HashCheckpoint) (status : DepositStatus) : bool :=
  match status with
  | Unchecked => true
  | InBlock checkpoint is_coinbase _ =>
      match tip with
      | Some tip =>
          effective_deposit_confirmation_threshold threshold is_coinbase
          <=? confirmations (cp_height checkpoint) (cp_height tip)
      | None => false
      end
  | NotFound | InMempool | InvalidVout _ => false
  end.

Definition actionable_requests (self : TrackerState) (threshold : Z) : gset Address :=
  ⋃ ((fun e : OutPoint * Entry => if actionable threshold (ts_tip self) (e_status e.2)
                                  then e_requests e.2 else ∅)
     <$> map_to_list (entries self)).
