(* ===== verification/DepositTrackerProofs.v ===== *)
(** * The deposit tracker keeps its books

    The index of the scan candidates and the gauges follow from the entries; the operations
    keep both, so no index or [unwrap] of the tracker fails.  Tokens of a discovery are given
    out once and die with a change of the chain. *)

From S2P Require Import MonitorDomain Retry DepositTracker Prelude.

(** ** Gauges *)

Definition here (tip : option HashCheckpoint) (i : nat) (e : Entry) : Z :=
  if decide (status_bucket (e_status e) tip = i) then 1 else 0.

(** The entries of a bucket. *)
Definition bucket_count (tip : option HashCheckpoint) (m : gmap OutPoint Entry) (i : nat) : Z :=
  map_fold (fun _ e n => here tip i e + n) 0 m.

Lemma bucket_count_insert tip m o e i :
  bucket_count tip (<[o := e]> m) i = here tip i e + bucket_count tip (delete o m) i.
Proof.
  unfold bucket_count. rewrite <- insert_delete_eq. rewrite map_fold_insert_L; [done| |apply lookup_delete_eq].
  intros. lia.
Qed.

Lemma bucket_count_delete tip m o e i :
  m !! o = Some e -> bucket_count tip m i = here tip i e + bucket_count tip (delete o m) i.
Proof. intros H. rewrite <- (insert_id m o e H) at 1. apply bucket_count_insert. Qed.

Lemma bucket_range status tip : (status_bucket status tip < STATUS_LABELS)%nat.
Proof. unfold STATUS_LABELS. destruct status; cbn; unfold in_block_bucket; lia. Qed.

(** The gauges show [f]. *)
Definition gauges_show (g : option (gmap nat Z)) (f : nat -> Z) : Prop :=
  match g with
  | None => True
  | Some g => forall i, g !! i = if decide (i < STATUS_LABELS)%nat then Some (f i) else None
  end.

Lemma gauges_ext g f f' : (forall i, f i = f' i) -> gauges_show g f -> gauges_show g f'.
Proof. intros H. destruct g; [|done]. cbn. intros Hg i. by rewrite Hg, H. Qed.

Lemma adjust_bucket_ok s b d f :
  gauges_show (ts_metrics s) f -> (b < STATUS_LABELS)%nat ->
  exists g, adjust_metric_bucket s b d = Ok (with_metrics s g)
            /\ gauges_show g (fun i => f i + if decide (b = i) then d else 0).
Proof.
  intros Hg Hb. unfold adjust_metric_bucket. destruct (ts_metrics s) as [g|] eqn:E.
  - cbn in Hg. rewrite Hg, decide_True by done. eexists. split; [done|]. intros i.
    destruct (decide (b = i)) as [<-|Hi].
    + by rewrite lookup_insert_eq, decide_True by done.
    + by rewrite lookup_insert_ne, Hg, Z.add_0_r by done.
  - exists None. split; [|done]. by destruct s; cbn in E |- *; rewrite E.
Qed.

Lemma adjust_metric_ok s status d f :
  gauges_show (ts_metrics s) f ->
  exists g, adjust_metric s status d = Ok (with_metrics s g)
            /\ gauges_show g (fun i => f i + if decide (status_bucket status (ts_tip s) = i) then d else 0).
Proof. intros Hg. apply adjust_bucket_ok; [done|apply bucket_range]. Qed.

(** ** The index *)

(** The index lists the outpoints of [P], each under its transaction. *)
Record lists (idx : gmap Txid (gset OutPoint)) (P : OutPoint -> Prop) : Prop := {
  li_txid t l o : idx !! t = Some l -> o ∈ l -> o.1 = t;
  li_nonempty t l : idx !! t = Some l -> l <> ∅;
  li_all o : P o <-> exists l, idx !! o.1 = Some l /\ o ∈ l;
}.

Lemma lists_ext idx P Q : (forall o, P o <-> Q o) -> lists idx P -> lists idx Q.
Proof. intros H [? ? Ha]. split; [done|done|]. intros o. by rewrite <- H. Qed.

Lemma lists_insert s o P :
  lists (scan_candidates_by_txid s) P ->
  lists (scan_candidates_by_txid (insert_scan_candidate s o)) (fun o' => o' = o \/ P o').
Proof.
  intros [Ht Hn Ha]. cbn. set (idx := scan_candidates_by_txid s) in *. split.
  - intros t l o' [[<- <-]|[_ H]]%lookup_insert_Some Ho'; [|by eapply Ht].
    apply elem_of_union in Ho' as [->%elem_of_singleton|Ho']; [done|].
    destruct (idx !! o.1) as [l|] eqn:E; cbn in Ho'; [by eapply Ht|set_solver].
  - intros t l [[<- <-]|[_ H]]%lookup_insert_Some; [set_solver|by eapply Hn].
  - intros o'. rewrite Ha. destruct (decide (o'.1 = o.1)) as [E|E].
    + rewrite E, lookup_insert_eq. split.
      * intros [->|(l & -> & Hl)]; (eexists; split; [done|]; set_solver).
      * intros (l & [= <-] & [->%elem_of_singleton|Hl]%elem_of_union); [by left|].
        right. destruct (idx !! o.1) as [l|]; cbn in Hl; [by exists l|set_solver].
    + rewrite lookup_insert_ne by congruence. split; [|by right]. intros [->|H]; done.
Qed.

Lemma lists_remove s o P :
  lists (scan_candidates_by_txid s) P ->
  lists (scan_candidates_by_txid (remove_scan_candidate s o)) (fun o' => o' <> o /\ P o').
Proof.
  intros [Ht Hn Ha]. unfold remove_scan_candidate. set (idx := scan_candidates_by_txid s) in *.
  destruct (idx !! o.1) as [l0|] eqn:E0.
  2:{ fold idx. split; [done|done|]. intros o'. rewrite Ha. split; [by intros [_ ?]|].
      intros (l & Hl & Ho'). split; [|by exists l]. intros ->. congruence. }
  cbn. destruct (decide (l0 ∖ {[o]} = ∅)) as [Hemp|Hne]; split.
  - intros t l o' [_ H]%lookup_delete_Some. by eapply Ht.
  - intros t l [_ H]%lookup_delete_Some. by eapply Hn.
  - intros o'. rewrite Ha. split.
    + intros (Hne & l & Hl & Ho'). exists l. split; [|done]. rewrite lookup_delete_ne; [done|].
      intros E. rewrite <- E, E0 in Hl. injection Hl as <-. set_solver.
    + intros (l & [E H]%lookup_delete_Some & Ho'). split; [congruence|by exists l].
  - intros t l o' [[<- <-]|[_ H]]%lookup_insert_Some Ho'; [|by eapply Ht].
    eapply Ht; [done|set_solver].
  - intros t l [[<- <-]|[_ H]]%lookup_insert_Some; [done|by eapply Hn].
  - intros o'. rewrite Ha. destruct (decide (o'.1 = o.1)) as [E|E].
    + rewrite E, lookup_insert_eq, E0. split.
      * intros (Ho & l & [= <-] & Hl). eexists. split; [done|].
        apply elem_of_difference. by rewrite elem_of_singleton.
      * intros (l & [= <-] & [Hl Ho]%elem_of_difference). rewrite elem_of_singleton in Ho.
        split; [done|by exists l0].
    + rewrite lookup_insert_ne by congruence. split; [by intros [_ ?]|].
      intros H. split; [congruence|done].
Qed.

(** ** Books *)

Definition candidate (s : gmap OutPoint Entry) (o : OutPoint) : Prop :=
  exists e, s !! o = Some e /\ is_scan_candidate (e_status e) = true.

(** The index and the gauges are those of the entries. *)
Record books (s : TrackerState) : Prop := {
  bk_index : lists (scan_candidates_by_txid s) (candidate (entries s));
  bk_gauges : gauges_show (ts_metrics s) (bucket_count (ts_tip s) (entries s));
}.

(** Nothing but the entries, the index and the gauges differs. *)
Record same_rest (s s' : TrackerState) : Prop := {
  sr_requests : request_outpoints s' = request_outpoints s;
  sr_tip : ts_tip s' = ts_tip s;
  sr_generation : bitcoin_generation s' = bitcoin_generation s;
  sr_next : next_discovery_id s' = next_discovery_id s;
}.

Lemma same_rest_trans a b c : same_rest a b -> same_rest b c -> same_rest a c.
Proof. intros [] []. split; congruence. Qed.

Lemma same_rest_refl s : same_rest s s.
Proof. by split. Qed.
#[export] Hint Resolve same_rest_refl : hashi.

(** An entry changes in place but not its status. *)
Lemma books_same_status s m :
  books s ->
  (forall o, (e_status <$> m !! o) = (e_status <$> entries s !! o)) ->
  books (with_entries s m).
Proof.
  intros [Hi Hg] Hm. split; cbn.
  - eapply lists_ext; [|exact Hi]. intros o. unfold candidate. specialize (Hm o).
    destruct (m !! o) as [e|], (entries s !! o) as [e'|]; cbn in Hm; try done.
    injection Hm as Hm. split; intros (e0 & [= <-] & H); eexists; (split; [done|]); congruence.
  - eapply gauges_ext; [|exact Hg]. intros i. clear Hi Hg. revert Hm. generalize (entries s).
    induction m as [|o e m Hnone IH] using map_ind; intros m' Hm.
    + assert (m' = ∅) as ->; [|done]. apply map_empty. intros o. specialize (Hm o).
      rewrite lookup_empty in Hm. cbn in Hm. by destruct (m' !! o).
    + specialize (Hm o) as Ho. rewrite lookup_insert_eq in Ho. destruct (m' !! o) as [e'|] eqn:E; [|done].
      cbn in Ho. injection Ho as Ho. rewrite (bucket_count_delete _ _ _ _ i E), bucket_count_insert.
      rewrite (delete_id m) by done. unfold here. rewrite Ho. f_equal. apply IH. intros o'.
      destruct (decide (o = o')) as [<-|].
      * by rewrite lookup_delete_eq, Hnone.
      * rewrite lookup_delete_ne by done. rewrite <- Hm. by rewrite lookup_insert_ne.
Qed.

(** ** The parts of an operation *)

Lemma transition_ok s o status e :
  books s -> entries s !! o = Some e ->
  exists s', transition s o status = Ok (s', negb (bool_decide (e_status e = status)))
    /\ books s' /\ same_rest s s'
    /\ entries s' = if decide (e_status e = status) then entries s
                    else <[o := mkEntry (e_requests e) status None]> (entries s).
Proof.
  intros [Hi Hg] He. unfold transition. rewrite He. cbn [expect mbind outcome_bind].
  destruct (decide (e_status e = status)) as [Heq|Hne].
  { exists s. rewrite bool_decide_true by done. by split_and!; [|split|split|]. }
  destruct (adjust_metric_ok s (e_status e) (-1) _ Hg) as (g1 & -> & Hg1). cbn [mbind outcome_bind].
  destruct (adjust_metric_ok (with_metrics s g1) status 1 _ Hg1) as (g2 & -> & Hg2).
  cbn [mbind outcome_bind]. cbn in Hg2. eexists. rewrite bool_decide_false by done. split; [done|].
  set (s0 := with_metrics _ g2).
  assert (scan_candidates_by_txid s0 = scan_candidates_by_txid s) as Hs0 by done.
  set (s1 := match is_scan_candidate (e_status e), is_scan_candidate status with
             | true, false => _ | false, true => _ | _, _ => _ end).
  assert (same_rest s s1 /\ ts_metrics s1 = g2 /\ entries s1 = entries s
    /\ lists (scan_candidates_by_txid s1)
         (candidate (<[o := mkEntry (e_requests e) status None]> (entries s)))) as (Hr & Hm1 & He1 & Hl1).
  { assert (forall o', candidate (<[o := mkEntry (e_requests e) status None]> (entries s)) o' <->
      (o' = o /\ is_scan_candidate status = true) \/ (o' <> o /\ candidate (entries s) o')) as Hc.
    { intros o'. unfold candidate. destruct (decide (o' = o)) as [->|Ho].
      - rewrite lookup_insert_eq. split; [intros (? & [= <-] & ?); by left|].
        intros [[_ H]|[? _]]; [by eexists|done].
      - rewrite lookup_insert_ne by done. naive_solver. }
    assert (candidate (entries s) o <-> is_scan_candidate (e_status e) = true) as Ho.
    { unfold candidate. rewrite He. split; [by intros (? & [= <-] & ?)|by eexists]. }
    subst s1. destruct (is_scan_candidate (e_status e)) eqn:E1, (is_scan_candidate status) eqn:E2.
    - split_and!; [by split|done..|]. rewrite Hs0. eapply lists_ext; [|exact Hi].
      intros o'. rewrite Hc. destruct (decide (o' = o)) as [->|]; naive_solver.
    - unfold remove_scan_candidate. split_and!; try (destruct (_ !! o.1); done || by split).
      eapply lists_ext; [|apply (lists_remove s0 o _ Hi)]. intros o'. rewrite Hc. naive_solver.
    - split_and!; [by split|done..|]. eapply lists_ext; [|apply (lists_insert s0 o _ Hi)].
      intros o'. rewrite Hc. destruct (decide (o' = o)); naive_solver.
    - split_and!; [by split|done..|]. rewrite Hs0. eapply lists_ext; [|exact Hi].
      intros o'. rewrite Hc. destruct (decide (o' = o)) as [->|]; naive_solver. }
  rewrite He1. split_and!; [|by destruct Hr|done]. split; cbn.
  - done.
  - rewrite Hm1, (sr_tip _ _ Hr). eapply gauges_ext; [|exact Hg2]. intros i. cbn.
    rewrite (bucket_count_delete _ _ _ _ i He), bucket_count_insert. unfold here. cbn.
    repeat destruct (decide _); lia.
Qed.

Lemma reset_entry_ok s o e :
  books s -> entries s !! o = Some e ->
  exists s', reset_entry s o = Ok s' /\ books s' /\ same_rest s s'
    /\ entries s' = <[o := mkEntry (e_requests e) Unchecked None]> (entries s).
Proof.
  intros Hb He. unfold reset_entry. rewrite He. cbn [expect mbind outcome_bind].
  destruct (is_unchecked (e_status e)) eqn:Hu.
  - assert (e_status e = Unchecked) as Hs by by destruct (e_status e).
    eexists. split; [done|]. unfold without_discovery. rewrite Hs. split_and!; [|by split|done].
    apply books_same_status; [done|]. intros o'. destruct (decide (o' = o)) as [->|].
    + by rewrite lookup_insert_eq, He; cbn; rewrite Hs.
    + by rewrite lookup_insert_ne.
  - destruct (transition_ok s o Unchecked e Hb He) as (s' & -> & Hb' & Hr & Hm).
    exists s'. rewrite decide_False in Hm by (intros E; by rewrite E in Hu). done.
Qed.

Lemma remove_entry_ok s o e :
  books s -> entries s !! o = Some e ->
  exists s', remove_entry s o = Ok s' /\ books s' /\ same_rest s s'
    /\ entries s' = delete o (entries s).
Proof.
  intros [Hi Hg] He. unfold remove_entry. rewrite He. cbn [expect mbind outcome_bind].
  destruct (adjust_metric_ok (with_entries s (delete o (entries s))) (e_status e) (-1) _ Hg)
    as (g & -> & Hg1). cbn [mbind outcome_bind]. eexists. split; [done|].
  set (s0 := with_metrics _ g).
  pose proof (lists_remove s0 o _ Hi) as Hl.
  assert (same_rest s (remove_scan_candidate s0 o) /\ ts_metrics (remove_scan_candidate s0 o) = g
    /\ entries (remove_scan_candidate s0 o) = delete o (entries s)) as (Hr & Hm & Hen).
  { unfold remove_scan_candidate. destruct (_ !! o.1); [destruct (decide _)|]; by split_and!; [split|..]. }
  split_and!; [|done|done]. split; rewrite Hen.
  - eapply lists_ext; [|exact Hl]. intros o'. unfold candidate. rewrite lookup_delete. case_decide; naive_solver.
  - rewrite Hm, (sr_tip _ _ Hr). eapply gauges_ext; [|exact Hg1]. intros i. cbn.
    rewrite (bucket_count_delete _ _ _ _ i He). unfold here. repeat destruct (decide _); lia.
Qed.

(** A new entry, listed and counted as unchecked. *)
Lemma new_entry_ok s o :
  books s -> entries s !! o = None -> forall rs,
  exists s', adjust_metric
      (insert_scan_candidate (with_entries s (<[o := new_entry rs]> (entries s))) o) Unchecked 1 = Ok s'
    /\ books s' /\ same_rest s s' /\ entries s' = <[o := new_entry rs]> (entries s).
Proof.
  intros [Hi Hg] He rs.
  destruct (adjust_metric_ok
    (insert_scan_candidate (with_entries s (<[o := new_entry rs]> (entries s))) o) Unchecked 1 _ Hg)
    as (g & -> & Hg1). eexists. split; [done|]. split_and!; [|by split|done]. split; cbn.
  - eapply lists_ext; [|apply (lists_insert s o _ Hi)]. intros o'. unfold candidate.
    destruct (decide (o' = o)) as [->|].
    + rewrite lookup_insert_eq. split; [by eexists|by left].
    + rewrite lookup_insert_ne by done. naive_solver.
  - eapply gauges_ext; [|exact Hg1]. intros i. cbn -[decide].
    rewrite bucket_count_insert, (delete_id (entries s)) by done. unfold here. cbn -[decide].
    destruct (decide _); lia.
Qed.

(** ** The invariant *)

Record tracker_inv (s : TrackerState) : Prop := {
  ti_books : books s;
  (** a request is under the outpoint it names, and nowhere else *)
  ti_requests r o : request_outpoints s !! r = Some o <->
    exists e, entries s !! o = Some e /\ r ∈ e_requests e;
  ti_nonempty o e : entries s !! o = Some e -> e_requests e <> ∅;
  (** a discovery under way is of an unchecked outpoint, and has its own id *)
  ti_unchecked o e d : entries s !! o = Some e -> e_discovery_id e = Some d -> e_status e = Unchecked;
  ti_issued o e d : entries s !! o = Some e -> e_discovery_id e = Some d -> d < next_discovery_id s;
  ti_distinct o o' e e' d : entries s !! o = Some e -> entries s !! o' = Some e' ->
    e_discovery_id e = Some d -> e_discovery_id e' = Some d -> o = o';
}.

Lemma tracker_new_inv instrumented : tracker_inv (tracker_new instrumented).
Proof.
  split; cbn [entries request_outpoints tracker_new]; try (intros *; rewrite lookup_empty; done).
  - split; cbn [entries scan_candidates_by_txid ts_metrics ts_tip tracker_new].
    + split; try (intros *; rewrite lookup_empty; done). intros o. unfold candidate.
      split; [by intros (e & H & _); rewrite lookup_empty in H|by intros (l & H & _); rewrite lookup_empty in H].
    + destruct instrumented; [|done]. intros i. destruct (decide (i < STATUS_LABELS)%nat) as [Hi|Hi].
      * apply elem_of_list_to_map_1.
        { rewrite <- list_fmap_compose, list_fmap_id. apply NoDup_seq. }
        apply list_elem_of_fmap. exists i. split; [done|]. apply elem_of_seq. lia.
      * apply not_elem_of_list_to_map_1. rewrite <- list_fmap_compose, list_fmap_id, elem_of_seq. lia.
  - intros r o. rewrite lookup_empty. split; [done|]. intros (e & H & _). by rewrite lookup_empty in H.
Qed.

(** An entry changes; its requests stay, and its discovery stays or ends. *)
Lemma tracker_inv_update s s' o e e' :
  tracker_inv s -> books s' -> same_rest s s' -> entries s !! o = Some e ->
  entries s' = <[o := e']> (entries s) -> e_requests e' = e_requests e ->
  (e_discovery_id e' = None \/ (e_discovery_id e' = e_discovery_id e /\ e_status e' = e_status e)) ->
  tracker_inv s'.
Proof.
  intros [Hb Hr Hn Hu Hi Hd] Hb' [Er _ _ En] He Hm Hreq Hdisc.
  assert (forall o' e1, entries s' !! o' = Some e1 -> exists e0, entries s !! o' = Some e0
    /\ e_requests e1 = e_requests e0
    /\ (e_discovery_id e1 = None \/ (e_discovery_id e1 = e_discovery_id e0 /\ e_status e1 = e_status e0))) as Hold.
  { intros o' e1. rewrite Hm. intros [[<- <-]|[_ H]]%lookup_insert_Some; [by exists e|].
    exists e1. split_and!; [done|done|by right]. }
  split.
  - done.
  - intros r o'. rewrite Er, Hr, Hm. destruct (decide (o = o')) as [<-|].
    + rewrite lookup_insert_eq, He. split; intros (e0 & [= <-] & H); eexists; (split; [done|]); congruence.
    + by rewrite lookup_insert_ne.
  - intros o' e1 (e0 & H0 & -> & _)%Hold. by eapply Hn.
  - intros o' e1 d (e0 & H0 & _ & Hd0)%Hold Hd1. destruct Hd0 as [?|[E ->]]; [congruence|].
    rewrite E in Hd1. by eapply Hu.
  - intros o' e1 d (e0 & H0 & _ & Hd0)%Hold Hd1. destruct Hd0 as [?|[E _]]; [congruence|].
    rewrite En. rewrite E in Hd1. by eapply Hi.
  - intros o1 o2 e1 e2 d (f1 & H1 & _ & Hd1)%Hold (f2 & H2 & _ & Hd2)%Hold E1 E2.
    destruct Hd1 as [?|[F1 _]]; [congruence|]. destruct Hd2 as [?|[F2 _]]; [congruence|].
    rewrite F1 in E1. rewrite F2 in E2. by eapply Hd.
Qed.

Lemma transition_inv s o status e :
  tracker_inv s -> entries s !! o = Some e ->
  exists s', transition s o status = Ok (s', negb (bool_decide (e_status e = status)))
    /\ tracker_inv s' /\ same_rest s s'
    /\ entries s' = if decide (e_status e = status) then entries s
                    else <[o := mkEntry (e_requests e) status None]> (entries s).
Proof.
  intros Hinv He. destruct (transition_ok s o status e (ti_books _ Hinv) He) as (s' & Ht & Hb & Hr & Hm).
  exists s'. split_and!; [done| |done|done]. destruct (decide _).
  - eapply (tracker_inv_update s s' o e e); try done; [by rewrite Hm, insert_id|by right].
  - eapply tracker_inv_update; try done. by left.
Qed.

Lemma reset_entry_inv s o e :
  tracker_inv s -> entries s !! o = Some e ->
  exists s', reset_entry s o = Ok s' /\ tracker_inv s' /\ same_rest s s'
    /\ entries s' = <[o := mkEntry (e_requests e) Unchecked None]> (entries s).
Proof.
  intros Hinv He. destruct (reset_entry_ok s o e (ti_books _ Hinv) He) as (s' & Ht & Hb & Hr & Hm).
  exists s'. split_and!; [done| |done|done]. eapply tracker_inv_update; try done. by left.
Qed.

(** Resets: the listed entries are unchecked, the others as they were. *)
Lemma reset_entries_inv l : forall s,
  tracker_inv s -> Forall (fun o => is_Some (entries s !! o)) l ->
  exists s', reset_entries s l = Ok s' /\ tracker_inv s' /\ same_rest s s'
    /\ forall o, entries s' !! o = (if decide (o ∈ l) then (fun e => mkEntry (e_requests e) Unchecked None)
                                      <$> entries s !! o else entries s !! o).
Proof.
  induction l as [|o l IH]; intros s Hinv Hl.
  { exists s. split_and!; [done|done|by split|]. intros o. by rewrite decide_False by set_solver. }
  apply Forall_cons in Hl as [[e He] Hl]. cbn.
  destruct (reset_entry_inv s o e Hinv He) as (s1 & -> & Hinv1 & Hr1 & Hm1). cbn.
  destruct (IH s1 Hinv1) as (s2 & -> & Hinv2 & Hr2 & Hm2).
  { eapply Forall_impl; [exact Hl|]. intros o' [e' He']. rewrite Hm1.
    destruct (decide (o = o')) as [<-|]; [rewrite lookup_insert_eq|rewrite lookup_insert_ne by done]; eauto. }
  exists s2. split_and!; [done|done|by eapply same_rest_trans|]. intros o'. rewrite Hm2, Hm1.
  destruct (decide (o = o')) as [<-|Hne].
  - rewrite lookup_insert_eq, He, (decide_True (P := o ∈ o :: l)) by set_solver. by destruct (decide _).
  - rewrite lookup_insert_ne by done. repeat destruct (decide _); set_solver.
Qed.

(** ** The operations keep it *)

(** No discovery that was not under way. *)
Definition kept (s s' : TrackerState) : Prop :=
  forall o e' d, entries s' !! o = Some e' -> e_discovery_id e' = Some d ->
  exists e, entries s !! o = Some e /\ e_discovery_id e = Some d.

Lemma kept_refl s s' : entries s' = entries s -> kept s s'.
Proof. intros E o e d. rewrite E. by exists e. Qed.

Lemma kept_trans a b c : kept a b -> kept b c -> kept a c.
Proof. intros H1 H2 o e d He Hd. destruct (H2 _ _ _ He Hd) as (e' & ? & ?). by eapply H1. Qed.

(** No status but that of a fresh entry is new. *)
Definition stays (s s' : TrackerState) : Prop :=
  forall o e', entries s' !! o = Some e' ->
  e_status e' = Unchecked \/ exists e, entries s !! o = Some e /\ e_status e' = e_status e.

Lemma stays_refl s s' : entries s' = entries s -> stays s s'.
Proof. intros E o e. rewrite E. right. by exists e. Qed.

Lemma stays_trans a b c : stays a b -> stays b c -> stays a c.
Proof.
  intros H1 H2 o e He. destruct (H2 _ _ He) as [?|(e' & He' & ->)]; [by left|]. by apply H1.
Qed.
#[export] Hint Resolve kept_refl stays_refl : hashi.

(** A request leaves; the last one takes the entry with it. *)
Lemma remove_request_inv s r :
  tracker_inv s ->
  exists s' b, remove_request s r = Ok (s', b) /\ tracker_inv s'
    /\ request_outpoints s' = delete r (request_outpoints s)
    /\ bitcoin_generation s' = bitcoin_generation s /\ next_discovery_id s' = next_discovery_id s
    /\ ts_tip s' = ts_tip s /\ (b = false -> s' = s) /\ kept s s' /\ stays s s'.
Proof.
  intros Hinv. unfold remove_request. destruct (request_outpoints s !! r) as [o|] eqn:Hro.
  2:{ exists s, false. split_and!; try done; [by rewrite delete_id|by apply kept_refl|by apply stays_refl]. }
  pose proof Hro as (e & He & Hre)%(ti_requests _ Hinv). cbn [entries with_requests]. rewrite He.
  cbn [expect mbind outcome_bind].
  set (e' := mkEntry (e_requests e ∖ {[r]}) (e_status e) (e_discovery_id e)).
  set (s1 := with_entries _ _).
  assert (books s1) as Hb1.
  { apply (books_same_status (with_requests s (delete r (request_outpoints s)))); [by destruct (ti_books _ Hinv)|].
    intros o'. cbn. destruct (decide (o = o')) as [<-|]; [by rewrite lookup_insert_eq, He|by rewrite lookup_insert_ne]. }
  assert (forall m, (forall o' x, m !! o' = Some x <-> (o' = o /\ x = e' /\ e_requests e' <> ∅)
                        \/ (o' <> o /\ entries s !! o' = Some x)) ->
    forall s2, books s2 -> same_rest s1 s2 -> entries s2 = m -> tracker_inv s2 /\ kept s s2 /\ stays s s2) as Hall.
  { intros m Hm s2 Hb2 [Er _ _ En] Em. cbn in Er, En.
    assert (forall o' x d, m !! o' = Some x -> e_discovery_id x = Some d ->
      exists x0, entries s !! o' = Some x0 /\ e_discovery_id x0 = Some d /\ e_status x = e_status x0) as Hold.
    { intros o' x d [(-> & -> & _)|[_ H]]%Hm Hd; [by exists e|by exists x]. }
    split_and!.
    2:{ intros o' x d. rewrite Em. intros H1 H2. destruct (Hold _ _ _ H1 H2) as (x0 & ? & ? & _). by exists x0. }
    2:{ intros o' x. rewrite Em, Hm. right. destruct H as [(-> & -> & _)|[_ H]]; [by exists e|by exists x]. }
    split; rewrite ?Em.
    - done.
    - intros r' o'. rewrite Er, lookup_delete_Some, (ti_requests _ Hinv). split.
      + intros (Hne & x & Hx & Hin). destruct (decide (o' = o)) as [->|Ho].
        * rewrite He in Hx. injection Hx as <-. exists e'. cbn. rewrite Hm. cbn. set_solver.
        * exists x. rewrite Hm. by split; [right|].
      + intros (x & [(-> & -> & _)|[Ho Hx]]%Hm & Hin).
        * cbn in Hin. split; [set_solver|]. exists e. set_solver.
        * split; [|by exists x]. intros <-.
          assert (request_outpoints s !! r = Some o') by (apply (ti_requests _ Hinv); by exists x).
          congruence.
    - intros o' x [(-> & -> & ?)|[_ Hx]]%Hm; [done|]. by eapply (ti_nonempty _ Hinv).
    - intros o' x d Hx Hd. destruct (Hold _ _ _ Hx Hd) as (x0 & ? & ? & ->). by eapply (ti_unchecked _ Hinv).
    - intros o' x d Hx Hd. destruct (Hold _ _ _ Hx Hd) as (x0 & ? & ? & _). rewrite En.
      by eapply (ti_issued _ Hinv).
    - intros o1 o2 x1 x2 d H1 H2 D1 D2. destruct (Hold _ _ _ H1 D1) as (? & ? & ? & _).
      destruct (Hold _ _ _ H2 D2) as (? & ? & ? & _). by eapply (ti_distinct _ Hinv). }
  destruct (decide (e_requests e ∖ {[r]} = ∅)) as [Hemp|Hne].
  - destruct (remove_entry_ok s1 o e' Hb1) as (s2 & -> & Hb2 & Hr2 & Hm2).
    { cbn. by rewrite lookup_insert_eq. }
    destruct (Hall (delete o (entries s1))) with (s2 := s2) as (? & ? & ?); try done.
    { intros o' x. cbn. rewrite delete_insert_eq, lookup_delete_Some. cbn. naive_solver. }
    exists s2, true. split_and!; try done; by destruct Hr2.
  - destruct (Hall (entries s1)) with (s2 := s1) as (? & ? & ?); try done.
    { intros o' x. cbn. rewrite lookup_insert_Some. cbn. naive_solver. }
    exists s1, true. by split_and!.
Qed.

Lemma insert_request_inv s r o :
  tracker_inv s -> request_outpoints s !! r = None ->
  exists s', insert_request s r o = Ok s' /\ tracker_inv s'
    /\ request_outpoints s' = <[r := o]> (request_outpoints s)
    /\ bitcoin_generation s' = bitcoin_generation s /\ next_discovery_id s' = next_discovery_id s
    /\ ts_tip s' = ts_tip s /\ kept s s' /\ stays s s'.
Proof.
  intros Hinv Hr. unfold insert_request.
  assert (exists s1 e, match entries s !! o with
      | Some _ => Ok s
      | None => adjust_metric (insert_scan_candidate
          (with_entries s (<[o := new_entry ∅]> (entries s))) o) Unchecked 1 end = Ok (E:=Empty_set) s1
    /\ books s1 /\ same_rest s s1 /\ entries s1 = <[o := e]> (entries s)
    /\ ((entries s !! o = Some e) \/ (entries s !! o = None /\ e = new_entry ∅)))
    as (s1 & e & -> & Hb1 & Hr1 & Hm1 & He).
  { destruct (entries s !! o) as [e|] eqn:He.
    - exists s, e. split_and!; [done|by destruct Hinv|by split|by rewrite insert_id|by left].
    - destruct (new_entry_ok s o (ti_books _ Hinv) He ∅) as (s1 & -> & ? & ? & ?).
      exists s1, (new_entry ∅). split_and!; try done. by right. }
  cbn [mbind outcome_bind]. rewrite Hm1, lookup_insert_eq. cbn [expect mbind outcome_bind].
  rewrite insert_insert_eq. eexists. split; [done|].
  set (e' := mkEntry ({[r]} ∪ e_requests e) (e_status e) (e_discovery_id e)).
  destruct Hr1 as [Er Et Eg En]. cbn [request_outpoints bitcoin_generation next_discovery_id ts_tip with_requests with_entries].
  rewrite Er.
  assert (forall o' x, <[o := e']> (entries s) !! o' = Some x -> (o' = o /\ x = e') \/ (o' <> o /\ entries s !! o' = Some x)) as Hx.
  { intros o' x [[<- <-]|[? ?]]%lookup_insert_Some; [by left|right; split; congruence]. }
  assert (forall d, e_discovery_id e = Some d -> entries s !! o = Some e) as Hd.
  { intros d Hd. destruct He as [?|[_ ->]]; [done|by cbn in Hd]. }
  split_and!; [|done..| |].
  2:{ intros o' x d [[-> ->]|[_ H]]%Hx D; [exists e; split; [by eapply Hd|done]|by exists x]. }
  2:{ intros o' x [[-> ->]|[_ H]]%Hx; [|right; by exists x].
      destruct He as [?|[_ ->]]; [right; by exists e|by left]. }
  split; cbn [entries request_outpoints next_discovery_id with_requests with_entries]; rewrite ?En.
  - apply (books_same_status (with_requests s1 _)); [by destruct Hb1|]. intros o'. cbn.
    rewrite Hm1. destruct (decide (o = o')) as [<-|]; [by rewrite !lookup_insert_eq|by rewrite !lookup_insert_ne].
  - intros r' o'. rewrite lookup_insert_Some, (ti_requests _ Hinv). split.
    + intros [[<- <-]|[Hne (x & Hx' & Hin)]].
      * exists e'. rewrite lookup_insert_eq. cbn. set_solver.
      * destruct (decide (o = o')) as [<-|Ho].
        -- exists e'. rewrite lookup_insert_eq. destruct He as [He|[He _]]; [|congruence].
           rewrite He in Hx'. injection Hx' as <-. cbn. set_solver.
        -- exists x. by rewrite lookup_insert_ne.
    + intros (x & [[-> ->]|[Ho Hx']]%Hx & Hin); cbn in Hin.
      * apply elem_of_union in Hin as [->%elem_of_singleton|Hin]; [by left|].
        destruct He as [He|[He ->]]; [|cbn in Hin; set_solver].
        assert (request_outpoints s !! r' = Some o) by (apply (ti_requests _ Hinv); by exists e).
        right. split; [congruence|by exists e].
      * assert (request_outpoints s !! r' = Some o') by (apply (ti_requests _ Hinv); by exists x).
        right. split; [congruence|by exists x].
  - intros o' x [[-> ->]|[_ H]]%Hx; [cbn; set_solver|by eapply (ti_nonempty _ Hinv)].
  - intros o' x d [[-> ->]|[_ H]]%Hx D; [|by eapply (ti_unchecked _ Hinv)]. cbn in *. eapply (ti_unchecked _ Hinv); eauto.
  - intros o' x d [[-> ->]|[_ H]]%Hx D; [|by eapply (ti_issued _ Hinv)]. cbn in *. eapply (ti_issued _ Hinv); eauto.
  - intros o1 o2 x1 x2 d [[-> ->]|[_ H1]]%Hx [[-> ->]|[_ H2]]%Hx D1 D2; cbn in *; try done.
    + eapply (ti_distinct _ Hinv); eauto.
    + eapply (ti_distinct _ Hinv); eauto.
    + by eapply (ti_distinct _ Hinv).
Qed.

Lemma upsert_request_inv s r o :
  tracker_inv s ->
  exists s' b, upsert_request s r o = Ok (s', b) /\ tracker_inv s'
    /\ request_outpoints s' = <[r := o]> (request_outpoints s)
    /\ bitcoin_generation s' = bitcoin_generation s /\ next_discovery_id s' = next_discovery_id s
    /\ ts_tip s' = ts_tip s /\ kept s s' /\ stays s s'.
Proof.
  intros Hinv. unfold upsert_request. destruct (decide _) as [Hd|Hd].
  { exists s, false. split_and!; try done; [by rewrite insert_id|by apply kept_refl|by apply stays_refl]. }
  destruct (remove_request_inv s r Hinv) as (s1 & b & -> & Hinv1 & Hr1 & Hg1 & Hn1 & Ht1 & _ & Hk1 & Hs1). cbn.
  destruct (insert_request_inv s1 r o Hinv1) as (s2 & -> & Hinv2 & Hr2 & Hg2 & Hn2 & Ht2 & Hk2 & Hs2).
  { rewrite Hr1. apply lookup_delete_eq. }
  exists s2, true. split_and!; [done|done|by rewrite Hr2, Hr1, insert_delete_eq|congruence..| |].
  - by eapply kept_trans.
  - by eapply stays_trans.
Qed.

(** *** Replacing all requests *)

Lemma by_outpoint_from l : forall m : gmap OutPoint (gset Address),
  (forall o rs, m !! o = Some rs -> rs <> ∅) ->
  let m' := fold_left (fun m '(r, o) => <[o := {[r]} ∪ default ∅ (m !! o)]> m) l m in
  (forall o rs, m' !! o = Some rs -> rs <> ∅)
  /\ forall o r, r ∈ default ∅ (m' !! o) <-> r ∈ default ∅ (m !! o) \/ (r, o) ∈ l.
Proof.
  induction l as [|[r0 o0] l IH]; intros m Hm; cbn.
  { split; [done|]. set_solver. }
  destruct (IH (<[o0 := {[r0]} ∪ default ∅ (m !! o0)]> m)) as [Hne Hin].
  { intros o rs [[<- <-]|[_ H]]%lookup_insert_Some; [set_solver|by eapply Hm]. }
  split; [done|]. intros o r. rewrite Hin, elem_of_cons.
  destruct (decide (o0 = o)) as [<-|].
  - rewrite lookup_insert_eq. cbn. rewrite elem_of_union, elem_of_singleton. naive_solver.
  - rewrite lookup_insert_ne by done. naive_solver.
Qed.

Lemma by_outpoint_spec d o :
  (forall r, r ∈ default ∅ (by_outpoint d !! o) <-> d !! r = Some o)
  /\ forall rs, by_outpoint d !! o = Some rs -> rs <> ∅.
Proof.
  destruct (by_outpoint_from (map_to_list d) ∅) as [Hne Hin]; [by intros ? ? H; rewrite lookup_empty in H|].
  split; [|apply Hne]. intros r. unfold by_outpoint. rewrite Hin, lookup_empty. cbn.
  rewrite elem_of_map_to_list. set_solver.
Qed.

Lemma rebuild_index s :
  let s' := rebuild_scan_candidate_index s in
  lists (scan_candidates_by_txid s') (candidate (entries s)) /\ entries s' = entries s
  /\ ts_metrics s' = ts_metrics s /\ same_rest s s'.
Proof.
  unfold rebuild_scan_candidate_index. cbn zeta.
  assert (forall l s0 P, lists (scan_candidates_by_txid s0) P ->
    let s' := fold_left insert_scan_candidate l s0 in
    lists (scan_candidates_by_txid s') (fun o => o ∈ l \/ P o) /\ entries s' = entries s0
    /\ ts_metrics s' = ts_metrics s0 /\ same_rest s0 s') as Hfold.
  { induction l as [|o l IH]; intros s0 P HP; cbn.
    - split_and!; [|done|done|by split]. eapply lists_ext; [|exact HP]. set_solver.
    - destruct (IH (insert_scan_candidate s0 o) _ (lists_insert s0 o P HP)) as (Hl & He & Hm & Hr).
      split_and!; [|done|done|by destruct Hr]. eapply lists_ext; [|exact Hl]. set_solver. }
  destruct (Hfold (omap (fun '(o, e) => if is_scan_candidate (e_status e) then Some o else None)
      (map_to_list (entries s))) (with_candidates s ∅) (fun _ => False)) as (Hl & He & Hm & Hr).
  { split; cbn; try (intros *; rewrite lookup_empty; done). intros o. split; [done|].
    intros (l & H & _). by rewrite lookup_empty in H. }
  split_and!; [|done|done|by destruct Hr]. eapply lists_ext; [|exact Hl]. intros o. unfold candidate.
  rewrite list_elem_of_omap. split.
  - intros [([o' e] & Hin%elem_of_map_to_list & H)|[]]. destruct (is_scan_candidate (e_status e)) eqn:E; [|done].
    injection H as <-. by exists e.
  - intros (e & Ho & E). left. exists (o, e). rewrite elem_of_map_to_list, E. done.
Qed.

(** Only entries the queue no longer names are removed. *)
Lemma remove_entries_ok l : forall s,
  books s -> NoDup l -> Forall (fun o => is_Some (entries s !! o)) l ->
  exists s', remove_entries s l = Ok s' /\ books s' /\ same_rest s s'
    /\ forall o, entries s' !! o = if decide (o ∈ l) then None else entries s !! o.
Proof.
  induction l as [|o l IH]; intros s Hb Hnd Hl.
  { exists s. split_and!; [done|done|by split|]. intros o. by rewrite decide_False by set_solver. }
  apply Forall_cons in Hl as [[e He] Hl]. apply NoDup_cons in Hnd as [Ho Hnd]. cbn.
  destruct (remove_entry_ok s o e Hb He) as (s1 & -> & Hb1 & Hr1 & Hm1). cbn.
  destruct (IH s1 Hb1 Hnd) as (s2 & -> & Hb2 & Hr2 & Hm2).
  { rewrite Forall_forall in Hl |- *. intros o' Ho'. rewrite Hm1, lookup_delete_ne; [by apply Hl|congruence]. }
  exists s2. split_and!; [done|done|by eapply same_rest_trans|]. intros o'. rewrite Hm2, Hm1.
  destruct (decide (o = o')) as [<-|].
  - rewrite lookup_delete_eq, (decide_True (P := o ∈ o :: l)) by set_solver. by destruct (decide _).
  - rewrite lookup_delete_ne by done. repeat destruct (decide _); set_solver.
Qed.

(** The entries after the requests are taken: what was known stays. *)
Definition taken_entry (old : option Entry) (rs : gset Address) : Entry :=
  match old with
  | Some e => mkEntry rs (e_status e) (e_discovery_id e)
  | None => new_entry rs
  end.

Definition gauged (s : TrackerState) : Prop :=
  gauges_show (ts_metrics s) (bucket_count (ts_tip s) (entries s)).

Lemma take_requests_ok l : forall s,
  gauged s -> NoDup l.*1 ->
  exists s', take_requests s l = Ok s' /\ gauged s' /\ same_rest s s'
    /\ forall o, entries s' !! o = match list_to_map (M := gmap OutPoint (gset Address)) l !! o with
                                   | Some rs => Some (taken_entry (entries s !! o) rs)
                                   | None => entries s !! o
                                   end.
Proof.
  induction l as [|[o rs] l IH]; intros s Hg Hnd.
  { exists s. split_and!; [done|done|by split|]. intros o. cbn. by rewrite lookup_empty. }
  cbn in Hnd. apply NoDup_cons in Hnd as [Ho Hnd]. cbn [take_requests].
  assert (exists s1, match entries s !! o with
      | Some entry => Ok (with_entries s (<[o := mkEntry rs (e_status entry) (e_discovery_id entry)]> (entries s)))
      | None => self ← adjust_metric s Unchecked 1;
                Ok (with_entries self (<[o := new_entry rs]> (entries self))) end = Ok (E:=Empty_set) s1
    /\ gauged s1 /\ same_rest s s1 /\ entries s1 = <[o := taken_entry (entries s !! o) rs]> (entries s))
    as (s1 & -> & Hg1 & Hr1 & Hm1).
  { unfold gauged in *. destruct (entries s !! o) as [e|] eqn:He.
    - eexists. split_and!; [done| |by split|done]. cbn. eapply gauges_ext; [|exact Hg]. intros i.
      by rewrite (bucket_count_delete _ _ _ _ i He), bucket_count_insert.
    - destruct (adjust_metric_ok s Unchecked 1 _ Hg) as (g & -> & Hg1). cbn. eexists.
      split_and!; [done| |by split|done]. cbn. eapply gauges_ext; [|exact Hg1]. intros i. cbn -[decide].
      rewrite bucket_count_insert, (delete_id (entries s)) by done. unfold here. cbn -[decide].
      destruct (decide _); lia. }
  cbn [mbind outcome_bind]. destruct (IH s1 Hg1 Hnd) as (s2 & -> & Hg2 & Hr2 & Hm2).
  exists s2. split_and!; [done|done|by eapply same_rest_trans|]. intros o'. rewrite Hm2, Hm1. cbn.
  destruct (decide (o = o')) as [<-|].
  - rewrite !lookup_insert_eq, (not_elem_of_list_to_map_1 _ _ Ho). done.
  - by rewrite !lookup_insert_ne.
Qed.

Lemma replace_requests_inv s desired :
  tracker_inv s ->
  exists s' b, replace_requests s desired = Ok (s', b) /\ tracker_inv s'
    /\ request_outpoints s' = desired
    /\ bitcoin_generation s' = bitcoin_generation s /\ next_discovery_id s' = next_discovery_id s
    /\ ts_tip s' = ts_tip s /\ kept s s' /\ stays s s'.
Proof.
  intros Hinv. unfold replace_requests. destruct (decide _) as [Hd|_].
  { exists s, false. split_and!; try done; [by apply kept_refl|by apply stays_refl]. }
  set (wanted := by_outpoint desired).
  destruct (remove_entries_ok (List.filter (fun o => bool_decide (wanted !! o = None))
      (map_to_list (entries s)).*1) s (ti_books _ Hinv)) as (s1 & -> & Hb1 & Hr1 & Hm1).
  { apply NoDup_ListNoDup, List.NoDup_filter, NoDup_ListNoDup, NoDup_fst_map_to_list. }
  { apply Forall_forall. intros o [Ho _]%list_elem_of_In%filter_In.
    apply list_elem_of_In, list_elem_of_fmap in Ho as ([o' e] & -> & Ho%elem_of_map_to_list). by exists e. }
  cbn [mbind outcome_bind].
  destruct (take_requests_ok (map_to_list wanted) s1 (bk_gauges _ Hb1) (NoDup_fst_map_to_list _))
    as (s2 & -> & Hg2 & Hr2 & Hm2). cbn [mbind outcome_bind].
  destruct (rebuild_index (with_requests s2 desired)) as (Hl & He & Hmet & Hr3).
  eexists _, true. split; [done|]. set (s3 := rebuild_scan_candidate_index _) in *.
  assert (forall o, entries s3 !! o = taken_entry (entries s !! o) <$> wanted !! o) as Hm3.
  { intros o. rewrite He. cbn. rewrite Hm2, list_to_map_to_list, Hm1.
    destruct (wanted !! o) as [rs|] eqn:Ew.
    - cbn. rewrite decide_False; [done|]. intros [_ H]%list_elem_of_In%filter_In.
      rewrite bool_decide_eq_true in H. congruence.
    - cbn. destruct (decide _) as [|Hn]; [done|]. destruct (entries s !! o) as [e|] eqn:Eo; [|done].
      destruct Hn. apply list_elem_of_In, filter_In. rewrite bool_decide_eq_true. split; [|done].
      apply list_elem_of_In, list_elem_of_fmap. exists (o, e). by rewrite elem_of_map_to_list. }
  destruct Hr1 as [_ Et1 Eg1 En1], Hr2 as [_ Et2 Eg2 En2], Hr3 as [Er3 Et3 Eg3 En3]. cbn in Er3, Et3, Eg3, En3.
  assert (forall o x, entries s3 !! o = Some x -> exists rs, wanted !! o = Some rs /\ e_requests x = rs
    /\ forall d, e_discovery_id x = Some d -> exists e, entries s !! o = Some e
       /\ e_discovery_id e = Some d /\ e_status x = e_status e) as Hold.
  { intros o x. rewrite Hm3. destruct (wanted !! o) as [rs|]; [|done]. intros [= <-]. exists rs.
    destruct (entries s !! o) as [e|]; cbn; split_and!; try done. intros d Hd'. by exists e. }
  split_and!; [|congruence..| |].
  2:{ intros o x d (_ & _ & _ & Hd)%Hold (e & ? & ? & _)%Hd. by exists e. }
  2:{ intros o x. rewrite Hm3. destruct (wanted !! o) as [rs|]; [|done]. intros [= <-].
      destruct (entries s !! o) as [e|]; [right; by exists e|by left]. }
  split.
  - split; [by rewrite He|]. rewrite Hmet, He, Et3. exact Hg2.
  - intros r o. rewrite Er3. destruct (by_outpoint_spec desired o) as [Hs _]. rewrite <- Hs. fold wanted.
    split.
    + intros Hin. destruct (wanted !! o) as [rs|] eqn:Ew; [|cbn in Hin; set_solver]. cbn in Hin.
      eexists. rewrite Hm3, Ew. split; [done|]. by destruct (entries s !! o).
    + intros (x & (rs & -> & <- & _)%Hold & Hin). done.
  - intros o x (rs & Ew & -> & _)%Hold. by eapply by_outpoint_spec.
  - intros o x d (_ & _ & _ & Hd)%Hold (e & ? & ? & ->)%Hd. by eapply (ti_unchecked _ Hinv).
  - intros o x d (_ & _ & _ & Hd)%Hold (e & ? & ? & _)%Hd. replace (next_discovery_id s3) with (next_discovery_id s) by congruence.
    by eapply (ti_issued _ Hinv).
  - intros o1 o2 x1 x2 d (_ & _ & _ & H1)%Hold (_ & _ & _ & H2)%Hold (e1 & ? & ? & _)%H1 (e2 & ? & ? & _)%H2.
    by eapply (ti_distinct _ Hinv).
Qed.

(** *** Discovery *)

Lemma discovery_inv s o :
  tracker_inv s -> next_discovery_id s < u64_max ->
  exists s' r, discovery s o = Ok (s', r) /\ tracker_inv s'
    /\ bitcoin_generation s' = bitcoin_generation s
    /\ next_discovery_id s <= next_discovery_id s' <= next_discovery_id s + 1
    /\ ts_tip s' = ts_tip s /\ request_outpoints s' = request_outpoints s
    /\ match r with
       | Known status => recorded_status s o = Some status /\ s' = s
       | Discover token => ot_outpoint token = o /\ ot_discovery_id token = next_discovery_id s
                           /\ next_discovery_id s' = next_discovery_id s + 1
                           /\ exists e, entries s !! o = Some e /\ e_status e = Unchecked
                              /\ entries s' = <[o := mkEntry (e_requests e) Unchecked (Some (next_discovery_id s))]> (entries s)
       | DiscoveryPending | Untracked => s' = s
       end.
Proof.
  intros Hinv Hn. unfold discovery, recorded_status. destruct (entries s !! o) as [e|] eqn:He; cbn.
  2:{ exists s, Untracked. split_and!; try done; lia. }
  destruct (is_unchecked (e_status e)) eqn:Hu.
  2:{ exists s, (Known (e_status e)). split_and!; try done; lia. }
  destruct (e_discovery_id e) as [d|] eqn:Hd.
  { exists s, DiscoveryPending. split_and!; try done; lia. }
  assert (e_status e = Unchecked) as Hs by by destruct (e_status e).
  unfold checked_succ. rewrite (proj2 (Z.ltb_lt _ _) Hn). cbn. rewrite Hs. eexists _, _. split; [done|].
  cbn. split_and!; try done; try lia; [|by exists e].
  set (e' := mkEntry (e_requests e) Unchecked (Some (next_discovery_id s))).
  assert (forall o' x d, <[o := e']> (entries s) !! o' = Some x -> e_discovery_id x = Some d ->
    (o' = o /\ x = e' /\ d = next_discovery_id s) \/ (entries s !! o' = Some x)) as Hx.
  { intros o' x d [[<- <-]|[_ H]]%lookup_insert_Some Hd'; [left|by right]. cbn in Hd'. by injection Hd' as <-. }
  split; cbn.
  - apply books_same_status; [by destruct (ti_books _ Hinv)|]. intros o'. cbn.
    destruct (decide (o = o')) as [<-|]; [by rewrite lookup_insert_eq, He; cbn; rewrite Hs|by rewrite lookup_insert_ne].
  - intros r o'. rewrite (ti_requests _ Hinv). destruct (decide (o = o')) as [<-|].
    + rewrite lookup_insert_eq, He. split; intros (x & [= <-] & H); by eexists.
    + by rewrite lookup_insert_ne.
  - intros o' x [[<- <-]|[_ H]]%lookup_insert_Some; [exact (ti_nonempty _ Hinv o e He)|by eapply (ti_nonempty _ Hinv)].
  - intros o' x d Hx1 Hd1. destruct (Hx _ _ _ Hx1 Hd1) as [(_ & -> & _)|H]; [done|]. by eapply (ti_unchecked _ Hinv).
  - intros o' x d Hx1 Hd1. destruct (Hx _ _ _ Hx1 Hd1) as [(_ & _ & ->)|H]; [lia|].
    pose proof (ti_issued _ Hinv _ _ _ H Hd1). lia.
  - intros o1 o2 x1 x2 d H1 H2 D1 D2.
    destruct (Hx _ _ _ H1 D1) as [(-> & _ & ->)|G1], (Hx _ _ _ H2 D2) as [(-> & _ & E)|G2]; try done.
    + pose proof (ti_issued _ Hinv _ _ _ G2 D2). lia.
    + pose proof (ti_issued _ Hinv _ _ _ G1 D1). lia.
    + by eapply (ti_distinct _ Hinv).
Qed.

(** A result changes the tracker only under the token of the discovery under way. *)
Lemma resolve_discovery_inv {E} s token (result : DepositStatus + E) :
  tracker_inv s -> result <> inl Unchecked ->
  exists s' r b, resolve_discovery s token result = Ok (s', r, b) /\ tracker_inv s' /\ same_rest s s'
    /\ (s' = s \/ exists e, entries s !! ot_outpoint token = Some e
          /\ e_discovery_id e = Some (ot_discovery_id token) /\ e_status e = Unchecked
          /\ entries s' = <[ot_outpoint token := mkEntry (e_requests e)
                              (match result with inl st => st | inr _ => Unchecked end) None]> (entries s)).
Proof.
  intros Hinv Hres. unfold resolve_discovery.
  assert (match result with inl status => is_unchecked status | inr _ => false end = false) as ->
    by by destruct result as [[]|].
  destruct (entries s !! ot_outpoint token) as [e|] eqn:He.
  2:{ eexists _, _, _. split_and!; [done|done|by split|by left]. }
  destruct (decide _) as [Hd|Hd].
  - pose proof (ti_unchecked _ Hinv _ _ _ He Hd) as Hs. destruct result as [status|error].
    + destruct (transition_inv s (ot_outpoint token) status e Hinv He) as (s' & -> & Hinv' & Hr & Hm). cbn.
      eexists _, _, _. split_and!; [done|done|done|]. right. exists e. split_and!; try done.
      rewrite decide_False in Hm; [done|]. rewrite Hs. congruence.
    + eexists _, _, _. split; [done|].
      assert (books (with_entries s (<[ot_outpoint token := without_discovery e]> (entries s)))) as Hb.
      { apply books_same_status; [by destruct Hinv|]. intros o'.
        destruct (decide (ot_outpoint token = o')) as [<-|]; [by rewrite lookup_insert_eq, He|by rewrite lookup_insert_ne]. }
      split_and!; [|by split|].
      * eapply (tracker_inv_update s _ (ot_outpoint token) e (without_discovery e)); try done. by left.
      * right. exists e. split_and!; try done. cbn. unfold without_discovery. by rewrite Hs.
  - destruct (negb (is_unchecked (e_status e))); [|destruct (e_discovery_id e)];
      (eexists _, _, _; split_and!; [done|done|by split|by left]).
Qed.

(** *** The chain *)

Lemma bump_inv s :
  tracker_inv s -> bitcoin_generation s < u64_max ->
  exists s', bump_bitcoin_generation s = Ok s' /\ tracker_inv s'
    /\ bitcoin_generation s' = bitcoin_generation s + 1 /\ next_discovery_id s' = next_discovery_id s
    /\ ts_tip s' = ts_tip s /\ request_outpoints s' = request_outpoints s
    /\ entries s' = without_discovery <$> entries s.
Proof.
  intros Hinv Hg. unfold bump_bitcoin_generation, checked_succ. rewrite (proj2 (Z.ltb_lt _ _) Hg). cbn.
  eexists. split; [done|]. cbn. split_and!; try done.
  assert (forall o x, (without_discovery <$> entries s) !! o = Some x ->
    e_discovery_id x = None /\ exists e, entries s !! o = Some e /\ e_requests x = e_requests e) as Hx.
  { intros o x H. rewrite lookup_fmap_Some in H. destruct H as (e & <- & He). split; [done|by exists e]. }
  split; cbn.
  - apply books_same_status; [by destruct (ti_books _ Hinv)|]. intros o. cbn. rewrite lookup_fmap.
    by destruct (entries s !! o).
  - intros r o. rewrite (ti_requests _ Hinv), lookup_fmap. destruct (entries s !! o) as [e|]; cbn.
    + split; intros (x & [= <-] & H); by eexists.
    + split; by intros (x & ? & _).
  - intros o x (_ & e & He & ->)%Hx. by eapply (ti_nonempty _ Hinv).
  - intros o x d (H & _)%Hx. congruence.
  - intros o x d (H & _)%Hx. congruence.
  - intros o o' x x' d (H & _)%Hx. congruence.
Qed.

Lemma scanned_not_candidate cp tx o : is_scan_candidate (scanned_status cp tx o) = false.
Proof. unfold scanned_status. by destruct (_ !! _). Qed.

Definition scanned (cp : HashCheckpoint) (tx : BlockTx) (o : OutPoint) (e : Entry) : Entry :=
  mkEntry (e_requests e) (scanned_status cp tx o) None.

Lemma apply_outpoints_inv cp tx l : forall s,
  tracker_inv s -> NoDup l -> Forall (candidate (entries s)) l ->
  exists s', apply_outpoints s cp tx l = Ok (s', match l with [] => false | _ => true end) /\ tracker_inv s' /\ same_rest s s'
    /\ forall o, entries s' !! o = if decide (o ∈ l) then scanned cp tx o <$> entries s !! o
                                   else entries s !! o.
Proof.
  induction l as [|o l IH]; intros s Hinv Hnd Hl.
  { exists s. split_and!; [done|done|by split|]. intros o. by rewrite decide_False by set_solver. }
  apply Forall_cons in Hl as [(e & He & Hc) Hl]. apply NoDup_cons in Hnd as [Ho Hnd]. cbn.
  destruct (transition_inv s o (scanned_status cp tx o) e Hinv He) as (s1 & -> & Hinv1 & Hr1 & Hm1).
  assert (e_status e <> scanned_status cp tx o) as Hne.
  { intros E. pose proof (scanned_not_candidate cp tx o). congruence. }
  rewrite bool_decide_false by done. rewrite decide_False in Hm1 by done. cbn.
  destruct (IH s1 Hinv1 Hnd) as (s2 & -> & Hinv2 & Hr2 & Hm2).
  { rewrite Forall_forall in Hl |- *. intros o' Ho'. destruct (Hl o' Ho') as (e' & He' & Hc').
    exists e'. rewrite Hm1, lookup_insert_ne; [done|congruence]. }
  exists s2. split_and!; [done|done|by eapply same_rest_trans|]. intros o'. rewrite Hm2, Hm1.
  destruct (decide (o = o')) as [<-|].
  - rewrite (decide_False (P := o ∈ l)), (decide_True (P := o ∈ o :: l)) by (done || set_solver).
    by rewrite lookup_insert_eq, He.
  - rewrite lookup_insert_ne by done. repeat destruct (decide _); set_solver.
Qed.

(** The first transaction of a block with an id. *)
Definition tx_in (block : list (BlockTx * Txid)) (txid : Txid) : option BlockTx :=
  fst <$> List.find (fun t => t.2 =? txid) block.

(** An entry after a block was scanned. *)
Definition after_scan (cp : HashCheckpoint) (block : list (BlockTx * Txid)) (o : OutPoint) (e : Entry) : Entry :=
  if is_scan_candidate (e_status e)
  then match tx_in block o.1 with Some tx => scanned cp tx o e | None => e end
  else e.

Lemma apply_block_inv cp block : forall s,
  tracker_inv s ->
  exists s' b, apply_block s cp block = Ok (s', b) /\ tracker_inv s' /\ same_rest s s'
    /\ (forall o : OutPoint, entries s' !! o = after_scan cp block o <$> entries s !! o)
    /\ (b = false -> s' = s).
Proof.
  induction block as [|[tx txid] block IH]; intros s Hinv.
  { exists s, false. split_and!; [done|done|by split| |done]. intros o. unfold after_scan. cbn.
    destruct (entries s !! o) as [e|]; [|done]. cbn. by destruct (is_scan_candidate _). }
  cbn [apply_block].
  assert (exists s1 b1, match scan_candidates_by_txid s !! txid with
      | Some outpoints => apply_outpoints s cp tx (elements outpoints)
      | None => Ok (s, false) end = Ok (s1, b1)
    /\ tracker_inv s1 /\ same_rest s s1 /\ (b1 = false -> s1 = s)
    /\ forall o : OutPoint, entries s1 !! o = (fun e => if is_scan_candidate (e_status e) && (txid =? o.1)
                                     then scanned cp tx o e else e) <$> entries s !! o)
    as (s1 & b1 & -> & Hinv1 & Hr1 & Hb1 & Hm1).
  { destruct (bk_index _ (ti_books _ Hinv)) as [Ht Hn Ha].
    destruct (scan_candidates_by_txid s !! txid) as [l|] eqn:El.
    - destruct (apply_outpoints_inv cp tx (elements l) s Hinv (NoDup_elements l)) as (s1 & H1 & ? & ? & Hm).
      { apply Forall_forall. intros o Ho%elem_of_elements. apply Ha. exists l.
        by rewrite (Ht _ _ _ El Ho). }
      exists s1, (match elements l with [] => false | _ => true end). split_and!; try done.
      { pose proof (Hn _ _ El) as Hne. destruct (elements l) eqn:E; [|done]. apply elements_empty_inv, leibniz_equiv in E. done. }
      intros o. rewrite Hm. destruct (entries s !! o) as [e|] eqn:Eo; [|by case_decide]. cbn.
      destruct (decide (o ∈ elements l)) as [Hin|Hin].
      + apply elem_of_elements in Hin. pose proof (Ht _ _ _ El Hin) as <-. rewrite Z.eqb_refl.
        destruct (proj2 (Ha o)) as (e' & He' & Hc); [by exists l|]. rewrite Eo in He'. injection He' as <-.
        by rewrite Hc.
      + destruct (is_scan_candidate (e_status e)) eqn:Hc; [|done]. destruct (Z.eqb_spec txid o.1) as [->|]; [|done].
        destruct Hin. destruct (proj1 (Ha o)) as (l' & Hl' & Ho); [by exists e|]. rewrite El in Hl'.
        injection Hl' as <-. by apply elem_of_elements.
    - exists s, false. split_and!; [done|done|by split|done|]. intros o.
      destruct (entries s !! o) as [e|] eqn:Eo; [|done]. cbn.
      destruct (is_scan_candidate (e_status e)) eqn:Hc; [|done]. destruct (Z.eqb_spec txid o.1) as [->|]; [|done].
      destruct (proj1 (Ha o)) as (l & Hl & _); [by exists e|]. congruence. }
  cbn [mbind outcome_bind]. destruct (IH s1 Hinv1) as (s2 & b2 & -> & Hinv2 & Hr2 & Hm2 & Hb2).
  exists s2, (b1 || b2). split_and!; [done|done|by eapply same_rest_trans| |].
  - intros o. rewrite Hm2, Hm1. destruct (entries s !! o) as [e|]; [|done]. cbn. f_equal.
    unfold after_scan, tx_in. cbn. destruct (is_scan_candidate (e_status e)) eqn:Hc; cbn.
    + destruct (txid =? o.1); cbn; [by rewrite scanned_not_candidate|by rewrite Hc].
    + by rewrite Hc.
  - intros [H1 H2]%orb_false_iff. rewrite (Hb2 H2). by apply Hb1.
Qed.

Definition list_count (tip : option HashCheckpoint) (l : list (OutPoint * Entry)) (i : nat) : Z :=
  foldr (fun p n => here tip i p.2 + n) 0 l.

Lemma bucket_count_list tip m i : bucket_count tip m i = list_count tip (map_to_list m) i.
Proof.
  unfold bucket_count, list_count. rewrite map_fold_foldr. induction (map_to_list m) as [|[o e] l IH]; [done|].
  cbn. by rewrite IH.
Qed.

Lemma move_gauge_ok tip s e f :
  gauges_show (ts_metrics s) f ->
  exists g, move_gauge s tip e = Ok (with_metrics s g)
    /\ gauges_show g (fun i => f i - here (ts_tip s) i e + here (Some tip) i e).
Proof.
  intros Hg. unfold move_gauge.
  assert (status_bucket (e_status e) (ts_tip s) = status_bucket (e_status e) (Some tip) ->
    exists g, Ok s = Ok (E:=Empty_set) (with_metrics s g)
      /\ gauges_show g (fun i => f i - here (ts_tip s) i e + here (Some tip) i e)) as Hsame.
  { intros Eb. exists (ts_metrics s). split; [by destruct s|]. eapply gauges_ext; [|exact Hg].
    intros i. unfold here. rewrite Eb. lia. }
  destruct (e_status e) as [| | |cp cb out|cp] eqn:Es; try by apply Hsame. cbn zeta.
  change (in_block_bucket (cp_height cp) (cp_height tip)) with (status_bucket (InBlock cp cb out) (Some tip)).
  destruct (Nat.eqb_spec (status_bucket (InBlock cp cb out) (ts_tip s))
              (status_bucket (InBlock cp cb out) (Some tip))) as [Eb|Eb]; [by apply Hsame|].
  destruct (adjust_bucket_ok s (status_bucket (InBlock cp cb out) (ts_tip s)) (-1) f Hg (bucket_range _ _))
    as (g1 & -> & Hg1). cbn [mbind outcome_bind].
  destruct (adjust_bucket_ok (with_metrics s g1) (status_bucket (InBlock cp cb out) (Some tip)) 1 _ Hg1
    (bucket_range _ _)) as (g2 & -> & Hg2).
  exists g2. split; [done|]. eapply gauges_ext; [|exact Hg2]. intros i. unfold here. rewrite Es.
  cbn -[decide status_bucket]. repeat destruct (decide _); lia.
Qed.

Lemma move_gauges_ok tip l : forall s f,
  gauges_show (ts_metrics s) f ->
  exists g, move_gauges s tip l = Ok (with_metrics s g)
    /\ gauges_show g (fun i => f i - list_count (ts_tip s) l i + list_count (Some tip) l i).
Proof.
  induction l as [|[o e] l IH]; intros s f Hg; cbn [move_gauges].
  { exists (ts_metrics s). split; [by destruct s|]. eapply gauges_ext; [|exact Hg]. intros i. cbn. lia. }
  destruct (move_gauge_ok tip s e f Hg) as (g1 & -> & Hg1).
  cbn [mbind outcome_bind]. destruct (IH (with_metrics s g1) _ Hg1) as (g2 & -> & Hg2).
  exists g2. split; [done|]. eapply gauges_ext; [|exact Hg2]. intros i. unfold list_count. cbn [foldr snd ts_tip with_metrics]. lia.
Qed.

Lemma set_tip_inv s tip :
  tracker_inv s ->
  exists s' b, set_tip s tip = Ok (s', b) /\ tracker_inv s' /\ ts_tip s' = Some tip
    /\ entries s' = entries s /\ request_outpoints s' = request_outpoints s
    /\ bitcoin_generation s' = bitcoin_generation s /\ next_discovery_id s' = next_discovery_id s.
Proof.
  intros Hinv. unfold set_tip. destruct (decide _) as [Hd|_].
  { exists s, false. by split_and!. }
  destruct (move_gauges_ok tip (map_to_list (entries s)) s _ (bk_gauges _ (ti_books _ Hinv))) as (g & -> & Hg).
  cbn. eexists _, true. split; [done|]. cbn. split_and!; try done. destruct Hinv as [[Hi _] Hr Hn Hu Hd Hx].
  split; try done. split; [done|]. cbn. eapply gauges_ext; [|exact Hg]. intros i. cbn.
  rewrite !bucket_count_list. lia.
Qed.

Lemma elem_keys (m : gmap OutPoint Entry) o : o ∈ (map_to_list m).*1 <-> is_Some (m !! o).
Proof.
  rewrite list_elem_of_fmap. split.
  - intros ([o' e] & -> & H%elem_of_map_to_list). by exists e.
  - intros [e H]. exists (o, e). by rewrite elem_of_map_to_list.
Qed.

Definition forgotten (e : Entry) : Entry := mkEntry (e_requests e) Unchecked None.

Lemma reset_inv s :
  tracker_inv s -> bitcoin_generation s < u64_max ->
  exists s', reset_bitcoin_state s = Ok (s', true) /\ tracker_inv s'
    /\ bitcoin_generation s' = bitcoin_generation s + 1 /\ next_discovery_id s' = next_discovery_id s
    /\ ts_tip s' = None /\ request_outpoints s' = request_outpoints s
    /\ entries s' = forgotten <$> entries s.
Proof.
  intros Hinv Hg. unfold reset_bitcoin_state.
  destruct (bump_inv s Hinv Hg) as (s1 & -> & Hinv1 & Hg1 & Hn1 & Ht1 & Hr1 & Hm1). cbn [mbind outcome_bind].
  destruct (reset_entries_inv (map_to_list (entries s1)).*1 s1 Hinv1) as (s2 & -> & Hinv2 & Hr2 & Hm2).
  { apply Forall_forall. intros o. apply elem_keys. }
  cbn. destruct Hr2 as [Er2 Et2 Eg2 En2].
  assert (entries s2 = forgotten <$> entries s) as Hm.
  { apply map_eq. intros o. rewrite Hm2, Hm1, !lookup_fmap. destruct (entries s !! o) as [e|] eqn:Ho; cbn.
    - rewrite decide_True; [done|]. apply elem_keys. rewrite lookup_fmap, Ho. by eexists.
    - by destruct (decide _). }
  eexists. split; [done|]. cbn. split_and!; try congruence.
  destruct Hinv2 as [[Hi Hgs] Hr Hn Hu Hd Hx]. split; try done. split; [done|]. cbn.
  eapply gauges_ext; [|exact Hgs]. intros i. rewrite Hm, !bucket_count_list. unfold list_count, here.
  assert (forall p, p ∈ map_to_list (forgotten <$> entries s) -> e_status p.2 = Unchecked) as Hall.
  { intros [o e] Hin%elem_of_map_to_list. rewrite lookup_fmap_Some in Hin. by destruct Hin as (? & <- & _). }
  induction (map_to_list (forgotten <$> entries s)) as [|p l IH]; [done|]. cbn -[decide].
  rewrite (Hall p) by set_solver. cbn -[decide]. f_equal. apply IH. intros q Hq. apply Hall. set_solver.
Qed.

(** An entry after a reorganization. *)
Definition after_reorg (disconnected : list HashCheckpoint) (e : Entry) : Entry :=
  match e_status e with
  | InBlock cp _ _ | InvalidVout cp =>
      if decide (cp ∈ disconnected) then forgotten e else without_discovery e
  | _ => without_discovery e
  end.

Lemma reorg_inv s disconnected :
  tracker_inv s -> bitcoin_generation s < u64_max ->
  exists s', apply_reorg s disconnected = Ok (s', true) /\ tracker_inv s'
    /\ bitcoin_generation s' = bitcoin_generation s + 1 /\ next_discovery_id s' = next_discovery_id s
    /\ ts_tip s' = ts_tip s /\ request_outpoints s' = request_outpoints s
    /\ entries s' = after_reorg disconnected <$> entries s.
Proof.
  intros Hinv Hg. unfold apply_reorg.
  destruct (bump_inv s Hinv Hg) as (s1 & -> & Hinv1 & Hg1 & Hn1 & Ht1 & Hr1 & Hm1). cbn [mbind outcome_bind].
  assert (forall o, o ∈ disconnected_entries s1 disconnected <-> exists e cp, entries s1 !! o = Some e
    /\ cp ∈ disconnected /\ (e_status e = InvalidVout cp \/ exists cb out, e_status e = InBlock cp cb out)) as Hdis.
  { intros o. unfold disconnected_entries. rewrite list_elem_of_omap. split.
    - intros ([o' e] & Hin%elem_of_map_to_list & H).
      destruct (e_status e) as [| | |cp cb out|cp] eqn:Es; try done; destruct (decide _); try done; injection H as <-;
        exists e, cp; split_and!; [done|done|right; by eexists _, _|done|done|by left].
    - intros (e & cp & He & Hcp & Hs). exists (o, e). rewrite elem_of_map_to_list. split; [done|].
      destruct Hs as [->|(cb & out & ->)]; by rewrite decide_True. }
  destruct (reset_entries_inv (disconnected_entries s1 disconnected) s1 Hinv1) as (s2 & -> & Hinv2 & Hr2 & Hm2).
  { apply Forall_forall. intros o (e & _ & He & _)%Hdis. by exists e. }
  cbn. destruct Hr2 as [Er2 Et2 Eg2 En2]. exists s2. split_and!; try congruence; try done.
  apply map_eq. intros o. rewrite Hm2, lookup_fmap. destruct (entries s !! o) as [e|] eqn:Ho.
  - assert (entries s1 !! o = Some (without_discovery e)) as Ho1 by by rewrite Hm1, lookup_fmap, Ho.
    rewrite Ho1. cbn. unfold after_reorg. destruct (decide (o ∈ disconnected_entries s1 disconnected)) as [Hin|Hin].
    + apply Hdis in Hin as (e' & cp & He' & Hcp & Hs). rewrite Ho1 in He'. injection He' as <-. cbn in Hs.
      destruct Hs as [->|(cb & out & ->)]; by rewrite decide_True.
    + destruct (e_status e) as [| | |cp cb out|cp] eqn:Es; try done; (destruct (decide (cp ∈ disconnected)) as [Hcp|]; [|done]);
        destruct Hin; apply Hdis; eexists _, cp; (split_and!; [exact Ho1|done|]); cbn; rewrite Es; [right; by eexists _, _|by left].
  - assert (entries s1 !! o = None) as Ho1 by by rewrite Hm1, lookup_fmap, Ho. rewrite Ho1. by destruct (decide _).
Qed.

(** ** Every history *)

Inductive TrackerOp :=
| OpReplace (desired : gmap Address OutPoint)
| OpUpsert (request : Address) (outpoint : OutPoint)
| OpRemove (request : Address)
| OpDiscovery (outpoint : OutPoint)
| OpResolve (token : ObservationToken) (result : DepositStatus + unit)
| OpBlock (generation : Z) (checkpoint : HashCheckpoint) (block : list (BlockTx * Txid))
| OpTip (tip : HashCheckpoint)
| OpReset
| OpReorg (disconnected : list HashCheckpoint).

(** The state after an operation and the token it gives out. *)
Definition run_op (s : TrackerState) (op : TrackerOp)
    : outcome Empty_set (TrackerState * option ObservationToken) :=
  match op with
  | OpReplace desired => '(s, _) ← replace_requests s desired; Ok (s, None)
  | OpUpsert r o => '(s, _) ← upsert_request s r o; Ok (s, None)
  | OpRemove r => '(s, _) ← remove_request s r; Ok (s, None)
  | OpDiscovery o =>
      '(s, d) ← discovery s o;
      Ok (s, match d with Discover token => Some token | _ => None end)
  | OpResolve token result => '(s, _, _) ← resolve_discovery s token result; Ok (s, None)
  | OpBlock generation cp block => '(s, _) ← apply_block_if_current s generation cp block; Ok (s, None)
  | OpTip tip => '(s, _) ← set_tip s tip; Ok (s, None)
  | OpReset => '(s, _) ← reset_bitcoin_state s; Ok (s, None)
  | OpReorg disconnected => '(s, _) ← apply_reorg s disconnected; Ok (s, None)
  end.

(** Counters have room, and a discovery ends with something known. *)
Definition op_allowed (s : TrackerState) (op : TrackerOp) : Prop :=
  match op with
  | OpDiscovery _ => next_discovery_id s < u64_max
  | OpResolve _ result => result <> inl Unchecked
  | OpReset | OpReorg _ => bitcoin_generation s < u64_max
  | _ => True
  end.

(** The states of a tracker, with the tokens given out and the generation of each. *)
Inductive tracker_run : TrackerState -> list (ObservationToken * Z) -> Prop :=
| run_new instrumented : tracker_run (tracker_new instrumented) []
| run_step s issued op s' token :
    tracker_run s issued -> op_allowed s op -> run_op s op = Ok (s', token) ->
    tracker_run s' (issued ++ option_list ((., bitcoin_generation s) <$> token)).

(** * What the deposit tracker promises

    Along every history: the invariant holds and no operation panics; an observation of an
    older chain changes nothing; and what the tracker says of an outpoint is what was seen of
    it last. *)

(** The tokens of a history. *)
Record tokens_ok (s : TrackerState) (issued : list (ObservationToken * Z)) : Prop := {
  tk_id t g : (t, g) ∈ issued -> ot_discovery_id t < next_discovery_id s;
  tk_distinct t t' g g' : (t, g) ∈ issued -> (t', g') ∈ issued ->
    ot_discovery_id t = ot_discovery_id t' -> t = t' /\ g = g';
  (** a discovery under way was started on this chain *)
  tk_current o e d : entries s !! o = Some e -> e_discovery_id e = Some d ->
    (mkObservationToken o d, bitcoin_generation s) ∈ issued;
}.

(** What an operation does to the discoveries under way. *)
Definition discoveries (s s' : TrackerState) (token : option ObservationToken) : Prop :=
  match token with
  | Some t => ot_discovery_id t = next_discovery_id s /\ next_discovery_id s' = next_discovery_id s + 1
              /\ bitcoin_generation s' = bitcoin_generation s
              /\ forall o e d, entries s' !! o = Some e -> e_discovery_id e = Some d ->
                   t = mkObservationToken o d \/ exists e0, entries s !! o = Some e0 /\ e_discovery_id e0 = Some d
  | None => next_discovery_id s' = next_discovery_id s
            /\ ((bitcoin_generation s' = bitcoin_generation s /\ kept s s')
                \/ forall o e, entries s' !! o = Some e -> e_discovery_id e = None)
  end.

Lemma kept_update s s' o e :
  entries s' = <[o := e]> (entries s) -> e_discovery_id e = None -> kept s s'.
Proof.
  intros E Hn o' x d. rewrite E. intros [[<- <-]|[_ H]]%lookup_insert_Some Hd; [congruence|by exists x].
Qed.

Lemma discoveries_kept s s' :
  next_discovery_id s' = next_discovery_id s -> bitcoin_generation s' = bitcoin_generation s ->
  kept s s' -> discoveries s s' None.
Proof. intros. split; [done|by left]. Qed.

Lemma discoveries_end s s' :
  next_discovery_id s' = next_discovery_id s ->
  (forall o e, entries s' !! o = Some e -> e_discovery_id e = None) -> discoveries s s' None.
Proof. intros. split; [done|by right]. Qed.

Lemma run_op_ok s op :
  tracker_inv s -> op_allowed s op ->
  exists s' token, run_op s op = Ok (s', token) /\ tracker_inv s' /\ discoveries s s' token.
Proof.
  intros Hinv Hop. destruct op as [desired|r o|r|o|token result|generation cp block|tip| |disconnected]; cbn in Hop |- *.
  - destruct (replace_requests_inv s desired Hinv) as (s' & b & -> & Hi & _ & Hg & Hn & _ & Hk & _). cbn.
    exists s', None. split_and!; [done..|by apply discoveries_kept].
  - destruct (upsert_request_inv s r o Hinv) as (s' & b & -> & Hi & _ & Hg & Hn & _ & Hk & _). cbn.
    exists s', None. split_and!; [done..|by apply discoveries_kept].
  - destruct (remove_request_inv s r Hinv) as (s' & b & -> & Hi & _ & Hg & Hn & _ & _ & Hk & _). cbn.
    exists s', None. split_and!; [done..|by apply discoveries_kept].
  - destruct (discovery_inv s o Hinv Hop) as (s' & d & -> & Hi & Hg & _ & _ & _ & Hd). cbn.
    destruct d as [status|token| |]; [|exists s', (Some token)|..].
    2:{ destruct Hd as (Ho & Hid & Hn & e & He & Hs & Hm). split; [done|]. split; [done|]. split_and!; try done.
        intros o' x d. rewrite Hm. intros [[<- <-]|[_ H]]%lookup_insert_Some Hx; [|right; by exists x].
        cbn in Hx. injection Hx as <-. left. destruct token; cbn in *. by subst. }
    all: exists s', None; try apply proj2 in Hd; subst s'; split_and!; try done;
      apply discoveries_kept; [done|done|by apply kept_refl].
  - destruct (resolve_discovery_inv s token result Hinv Hop) as (s' & r & b & -> & Hi & Hr & Hm). cbn.
    destruct Hr as [_ _ Hg Hn]. exists s', None. split_and!; [done..|]. apply discoveries_kept; [done|done|].
    destruct Hm as [->|(e & _ & _ & _ & Hm)]; [by apply kept_refl|by eapply kept_update].
  - unfold apply_block_if_current. destruct (negb _).
    + exists s, None. split_and!; [done..|]. apply discoveries_kept; [done|done|by apply kept_refl].
    + destruct (apply_block_inv cp block s Hinv) as (s' & b & -> & Hi & [_ _ Hg Hn] & Hm & _). cbn.
      exists s', None. split_and!; [done..|]. apply discoveries_kept; [done|done|].
      intros o x d. rewrite Hm. destruct (entries s !! o) as [e|]; [|done]. cbn. intros [= <-].
      unfold after_scan. destruct (is_scan_candidate _); [|by exists e]. destruct (tx_in _ _); [done|by exists e].
  - destruct (set_tip_inv s tip Hinv) as (s' & b & -> & Hi & _ & Hm & _ & Hg & Hn). cbn.
    exists s', None. split_and!; [done..|]. apply discoveries_kept; [done|done|by apply kept_refl].
  - destruct (reset_inv s Hinv Hop) as (s' & -> & Hi & Hg & Hn & _ & _ & Hm). cbn.
    exists s', None. split_and!; [done..|]. apply discoveries_end; [done|]. intros o x. rewrite Hm, lookup_fmap_Some. by intros (? & <- & _).
  - destruct (reorg_inv s disconnected Hinv Hop) as (s' & -> & Hi & Hg & Hn & _ & _ & Hm). cbn.
    exists s', None. split_and!; [done..|]. apply discoveries_end; [done|]. intros o x. rewrite Hm, lookup_fmap_Some.
    intros (e & <- & _). unfold after_reorg. destruct (e_status e); try done; by destruct (decide _).
Qed.

Lemma run_inv s issued : tracker_run s issued -> tracker_inv s /\ tokens_ok s issued.
Proof.
  induction 1 as [instrumented|s issued op s' token _ [Hinv [Hid Hdis Hcur]] Hop Hrun].
  { split; [apply tracker_new_inv|]. split; [set_solver|set_solver|].
    intros o e d H. cbn in H. by rewrite lookup_empty in H. }
  destruct (run_op_ok s op Hinv Hop) as (s1 & t1 & H1 & Hinv' & Hd). rewrite Hrun in H1.
  injection H1 as <- <-. split; [done|]. destruct token as [t|]; cbn in Hd |- *.
  - destruct Hd as (Ht & Hn & Hg & Hent). split.
    + intros t' g [H|[= -> ->]%list_elem_of_singleton]%elem_of_app; [specialize (Hid _ _ H)|]; lia.
    + intros t1 t2 g1 g2 [H1|[= -> ->]%list_elem_of_singleton]%elem_of_app
        [H2|[= -> ->]%list_elem_of_singleton]%elem_of_app E; [by eapply Hdis|..|done];
        [specialize (Hid _ _ H1)|specialize (Hid _ _ H2)]; lia.
    + intros o e d He Hde. rewrite Hg. apply elem_of_app. destruct (Hent _ _ _ He Hde) as [->|(e0 & H0 & Hd0)].
      * right. set_solver.
      * left. by eapply Hcur.
  - rewrite app_nil_r. destruct Hd as [Hn Hd]. split; [intros; rewrite Hn; by eapply Hid|done|].
    intros o e d He Hde. destruct Hd as [[Hg Hk]|Hnone].
    + rewrite Hg. destruct (Hk _ _ _ He Hde) as (e0 & H0 & Hd0). by eapply Hcur.
    + specialize (Hnone _ _ He). congruence.
Qed.

(** C28: the tracker keeps its books and never panics.  Along every history of requests, scans,
    discoveries, resets and reorganizations, in any order: a request is listed under the
    outpoint it names and nowhere else, the scan index holds exactly the outpoints that are
    not yet in a block, under their transactions, every gauge shows the number of outpoints of
    its bucket, and no operation fails an index, an [unwrap] or an assertion. *)
Theorem tracker_keeps_books s issued :
  tracker_run s issued ->
  (forall r o, request_outpoints s !! r = Some o <->
     exists e, entries s !! o = Some e /\ r ∈ e_requests e)
  /\ (forall o, (exists l, scan_candidates_by_txid s !! o.1 = Some l /\ o ∈ l) <->
        exists e, entries s !! o = Some e /\ is_scan_candidate (e_status e) = true)
  /\ (forall g i, ts_metrics s = Some g -> (i < STATUS_LABELS)%nat ->
        g !! i = Some (bucket_count (ts_tip s) (entries s) i))
  /\ (has_scan_candidates s = true <->
        exists o e, entries s !! o = Some e /\ is_scan_candidate (e_status e) = true)
  /\ forall op, op_allowed s op -> exists s' token, run_op s op = Ok (s', token).
Proof.
  intros [Hinv _]%run_inv. destruct (ti_books _ Hinv) as [[Ht Hn Ha] Hg]. split_and!.
  - apply (ti_requests _ Hinv).
  - intros o. by rewrite <- Ha.
  - intros g i E Hi. rewrite E in Hg. cbn in Hg. by rewrite Hg, decide_True.
  - unfold has_scan_candidates. rewrite negb_true_iff, bool_decide_eq_false. split.
    + intros Hne. destruct (map_choose _ Hne) as (t & l & Hl).
      destruct (set_choose_L _ (Hn _ _ Hl)) as [o Ho]. pose proof (Ht _ _ _ Hl Ho) as <-.
      destruct (proj2 (Ha o)) as (e & ? & ?); [by exists l|]. by exists o, e.
    + intros (o & e & He & Hc) E. destruct (proj1 (Ha o)) as (l & Hl & _); [by exists e|].
      by rewrite E, lookup_empty in Hl.
  - intros op Hop. destruct (run_op_ok s op Hinv Hop) as (s' & t & H & _). by exists s', t.
Qed.

(** An observation of another chain is discarded.  A discovery runs outside of the tracker;
    when its result comes back under its token, the tracker changes only if the chain has
    been neither reset nor reorganized since the token was given out, the outpoint is still
    tracked and nothing was seen of it in between; then exactly that outpoint changes, to
    exactly what the discovery saw. *)
Theorem stale_observations_discarded s issued token generation result s' r notify :
  tracker_run s issued -> (token, generation) ∈ issued -> result <> inl Unchecked ->
  resolve_discovery (E:=unit) s token result = Ok (s', r, notify) ->
  s' = s
  \/ (generation = bitcoin_generation s
      /\ exists e, entries s !! ot_outpoint token = Some e /\ e_status e = Unchecked
         /\ e_discovery_id e = Some (ot_discovery_id token)
         /\ entries s' = <[ot_outpoint token := mkEntry (e_requests e)
                             (match result with inl st => st | inr _ => Unchecked end) None]> (entries s)).
Proof.
  intros [Hinv [_ Hdis Hcur]]%run_inv Hin Hres H.
  destruct (resolve_discovery_inv s token result Hinv Hres) as (s1 & r1 & b1 & H1 & _ & _ & Hm).
  rewrite H in H1. injection H1 as <- <- <-. destruct Hm as [->|(e & He & Hd & Hs & Hm)]; [by left|right].
  pose proof (Hcur _ _ _ He Hd) as Hc. destruct (Hdis _ _ _ _ Hin Hc) as [_ ->]; [done|].
  split; [done|]. by exists e.
Qed.

(** What the tracker says after the chain moves.  The scan of a block records every tracked
    outpoint of its transactions that was not yet in a block, at that block, with the output
    it has there or as out of range, and touches no other; a block of another generation
    touches nothing.  After a reorganization no outpoint is recorded in a disconnected block
    and those in other blocks stay; no discovery is under way. *)
Theorem chain_updates_exact s issued :
  tracker_run s issued ->
  (forall generation cp block s' b, apply_block_if_current s generation cp block = Ok (s', b) ->
     if generation =? bitcoin_generation s
     then forall o : OutPoint, entries s' !! o = after_scan cp block o <$> entries s !! o
     else s' = s)
  /\ (forall disconnected s' b, bitcoin_generation s < u64_max ->
        apply_reorg s disconnected = Ok (s', b) ->
        forall o e', entries s' !! o = Some e' -> e_discovery_id e' = None
        /\ exists e, entries s !! o = Some e /\ e_requests e' = e_requests e
           /\ match e_status e with
              | InBlock cp _ _ | InvalidVout cp =>
                  (cp ∈ disconnected /\ e_status e' = Unchecked)
                  \/ (cp ∉ disconnected /\ e_status e' = e_status e)
              | st => e_status e' = st
              end).
Proof.
  intros [Hinv _]%run_inv. split.
  - intros generation cp block s' b. unfold apply_block_if_current. rewrite Z.eqb_sym.
    destruct (generation =? bitcoin_generation s); cbn; [|intros H; by injection H].
    destruct (apply_block_inv cp block s Hinv) as (s1 & b1 & -> & _ & _ & Hm & _). intros H. by injection H as <- _.
  - intros disconnected s' b Hg H o e' He'.
    destruct (reorg_inv s disconnected Hinv Hg) as (s1 & H1 & _ & _ & _ & _ & _ & Hm).
    rewrite H in H1. injection H1 as <- _. rewrite Hm, lookup_fmap_Some in He'.
    destruct He' as (e & <- & He). unfold after_reorg. split.
    + destruct (e_status e); try done; by destruct (decide _).
    + exists e. split_and!; [done|by destruct (e_status e); try done; destruct (decide _)|].
      destruct (e_status e) as [| | |cp cb out|cp] eqn:Es; try done;
        (destruct (decide (cp ∈ disconnected)) as [Hc|Hc]; [by left|by right]).
Qed.

(** ** A history *)

(** The end of a list of operations, with the tokens given out. *)
Fixpoint run_ops (s : TrackerState) (issued : list (ObservationToken * Z)) (ops : list TrackerOp)
    : outcome Empty_set (TrackerState * list (ObservationToken * Z)) :=
  match ops with
  | [] => Ok (s, issued)
  | op :: ops =>
      '(s', token) ← run_op s op;
      run_ops s' (issued ++ option_list ((., bitcoin_generation s) <$> token)) ops
  end.

(** Room in the counters, decidably. *)
Definition op_allowedb (s : TrackerState) (op : TrackerOp) : bool :=
  match op with
  | OpDiscovery _ => next_discovery_id s <? u64_max
  | OpResolve _ (inl status) => negb (is_unchecked status)
  | OpReset | OpReorg _ => bitcoin_generation s <? u64_max
  | _ => true
  end.

Lemma op_allowedb_spec s op : op_allowedb s op = true -> op_allowed s op.
Proof.
  destruct op as [| | | |token [status|]| | | |]; cbn; rewrite ?Z.ltb_lt; try done.
  intros H E. injection E as ->. done.
Qed.

Fixpoint all_allowed (s : TrackerState) (ops : list TrackerOp) : bool :=
  match ops with
  | [] => true
  | op :: ops => op_allowedb s op && match run_op s op with Ok (s', _) => all_allowed s' ops | _ => true end
  end.

Lemma run_ops_run ops : forall s issued s' issued',
  tracker_run s issued -> all_allowed s ops = true -> run_ops s issued ops = Ok (s', issued') ->
  tracker_run s' issued'.
Proof.
  induction ops as [|op ops IH]; intros s issued s' issued' Hrun Hall H; cbn in Hall, H.
  { by injection H as <- <-. }
  apply andb_true_iff in Hall as [Hop%op_allowedb_spec Hall].
  destruct (run_op s op) as [[s1 t]| |] eqn:E; [|done..]. cbn in H.
  eapply IH; [by eapply run_step|done|exact H].
Qed.

(** Two requests of one outpoint; the discovery of the first chain is overtaken by a
    reorganization and a second one is under way. *)
Definition tracked : OutPoint := (7, 1).
Definition ops : list TrackerOp :=
  [OpTip (mkHashCheckpoint 100 1000); OpUpsert 1 tracked; OpUpsert 2 tracked; OpDiscovery tracked;
   OpReorg [mkHashCheckpoint 100 1000]; OpTip (mkHashCheckpoint 100 1001); OpDiscovery tracked].

Definition ended : TrackerState * list (ObservationToken * Z) :=
  match run_ops (tracker_new true) [] ops with Ok r => r | _ => (tracker_new true, []) end.

Lemma ended_run : tracker_run ended.1 ended.2.
Proof.
  apply (run_ops_run ops (tracker_new true) []); [constructor|vm_compute; reflexivity..].
Qed.

Lemma tracker_keeps_books_witness :
  ts_metrics ended.1 ≫= (.!! 0%nat) = Some 1
  /\ forall op, op_allowed ended.1 op -> exists s' token, run_op ended.1 op = Ok (s', token).
Proof.
  split; [vm_compute; reflexivity|]. apply (tracker_keeps_books _ _ ended_run).
Defined.

(** The result of the first discovery is not taken over. *)
Lemma stale_observations_discarded_witness :
  forall s' r notify,
  resolve_discovery (E:=unit) ended.1 (mkObservationToken tracked 0) (inl InMempool) = Ok (s', r, notify) ->
  s' = ended.1.
Proof.
  intros s' r notify H.
  destruct (stale_observations_discarded ended.1 ended.2 (mkObservationToken tracked 0) 0 (inl InMempool)
    s' r notify ended_run) as [E|[E _]]; [..|exact E|].
  - vm_compute. by left.
  - done.
  - exact H.
  - vm_compute in E. done.
Defined.

(** A block with the transaction: the outpoint is recorded in it. *)
Lemma chain_updates_exact_witness :
  exists s' b out,
    apply_block_if_current ended.1 1 (mkHashCheckpoint 101 1002)
      [(mkBlockTx false [mkTxOut 5 []; mkTxOut 900 [81]], 7)] = Ok (s', b)
    /\ entries s' !! tracked = Some (mkEntry {[1; 2]} (InBlock (mkHashCheckpoint 101 1002) false out) None).
Proof.
  eexists _, _, (Kept (mkTxOut 900 [81])). split; [vm_compute; reflexivity|].
  pose proof (proj1 (chain_updates_exact _ _ ended_run) 1 (mkHashCheckpoint 101 1002)
    [(mkBlockTx false [mkTxOut 5 []; mkTxOut 900 [81]], 7)] _ _ ltac:(vm_compute; reflexivity) tracked) as H.
  rewrite H. vm_compute. reflexivity.
Defined.
