(* ===== verification/BtcMonitor.v ===== *)
(** * The Bitcoin monitor's deposit checks

    The part of [crates/hashi/src/btc_monitor/monitor.rs] that answers whether a deposit is
    confirmed: the loop that follows Kyoto's chain, queues the scans of new blocks, joins
    checks to running discoveries and answers the callers, and the workers it spawns.

    The state is that of the loop and of the workers that run for it; an event is one turn of
    the loop.  A worker's result is an argument of the turn that joins it: what it asked of
    bitcoind and of Kyoto are arguments of its own definition.  The channels of the callers
    are their numbers; [closed] says which callers have gone.  The places and slots of a
    caller, the fee and broadcast requests, metrics and log lines are left out; the texts of
    errors are constructors. *)

From S2P Require Import MonitorDomain Retry DepositTracker Prelude.

(** ** Results *)

Inductive DepositConfirmation :=
| DepositConfirmed (txout : TxOut)
| DepositNotFound
| DepositInMempool
| InsufficientConfirmations (confirmations required_confirmations : Z).

(** The texts of [Other]. *)
Inductive OtherError :=
| NotSynced
| TooManyPending
| Invalidated
| LeftTracker
| Abandoned
| DiscoveryFailed
| CoreTipUnavailable
| CoreNotAtTip
| TxOutUnavailable
| CoreTipChanged
| UtxoViewElsewhere
| SpentInMempool
| LookupFailed
| NotOnKyotoChain.

Inductive DepositConfirmError :=
| UtxoSpent (outpoint : OutPoint)
| NoSuchVout (outpoint : OutPoint)
| OutputMismatch (outpoint : OutPoint) (expected : TxOut) (actual : RecordedOutput)
| BeforeStartCheckpoint (txid : Txid) (height start_height : Z)
| DiscoveriesFull
| CheckTimedOut
| OtherFailure (e : OtherError).

#[local] Abbreviation T := (outcome Empty_set).
#[local] Abbreviation CheckResult := (outcome DepositConfirmError DepositConfirmation).

(** ** The workers *)

(** What Bitcoin Core answers; [None] is an error of the call.  The first and the last read of
    the tip are two calls; [gettxout] with the mempool names the block of its view. *)
Record CoreAnswers := mkCoreAnswers {
  best_block : option Z;
  block_hash_at : Z -> option Z;
  tx_out_with_mempool : option (option (option Z));
  tx_out_confirmed : option bool;
  best_block_again : option Z;
}.

Definition require_core_checkpoint (core : Z -> option Z) (tip : HashCheckpoint)
    : outcome DepositConfirmError unit :=
  match core (cp_height tip) with
  | None => Err (OtherFailure CoreTipUnavailable)
  | Some hash => guard (hash =? cp_hash tip) (OtherFailure CoreNotAtTip)
  end.

(** [ok_or] *)
Definition answered {A} (o : option A) (e : OtherError) : outcome DepositConfirmError A :=
  match o with Some a => Ok a | None => Err (OtherFailure e) end.

Definition check_unspent_at_tip (core : CoreAnswers) (tip : HashCheckpoint) (outpoint : OutPoint)
    (txout : TxOut) : CheckResult :=
  bitcoind_tip ← answered (best_block core) CoreTipUnavailable;
  _ ← require_core_checkpoint (block_hash_at core) tip;
  unspent ← answered (tx_out_with_mempool core) TxOutUnavailable;
  spent_in_mempool_only ←
    match unspent with
    | Some _ => Ok false
    | None => answered (tx_out_confirmed core) TxOutUnavailable
    end;
  updated_bitcoind_tip ← answered (best_block_again core) CoreTipUnavailable;
  _ ← guard (updated_bitcoind_tip =? bitcoind_tip) (OtherFailure CoreTipChanged);
  match unspent with
  | Some response =>
      best ← answered response TxOutUnavailable;
      _ ← guard (best =? bitcoind_tip) (OtherFailure UtxoViewElsewhere);
      Ok (DepositConfirmed txout)
  | None =>
      match spent_in_mempool_only with
      | true => Err (OtherFailure SpentInMempool)
      | false => Err (UtxoSpent outpoint)
      end
  end.

(** [unreachable!] panics. *)
Definition check_result_from_status (core : CoreAnswers) (status : DepositStatus)
    (tip : HashCheckpoint) (confirmation_threshold : Z) (outpoint : OutPoint)
    (expected_txout : TxOut) : CheckResult :=
  match status with
  | Unchecked => Panic
  | NotFound => Ok DepositNotFound
  | InMempool => Ok DepositInMempool
  | InvalidVout _ => Err (NoSuchVout outpoint)
  | InBlock checkpoint is_coinbase output =>
      match output with
      | Kept txout =>
          if decide (txout = expected_txout) then
            let confirmations := confirmations (cp_height checkpoint) (cp_height tip) in
            let required := effective_deposit_confirmation_threshold confirmation_threshold is_coinbase in
            if confirmations <? required then Ok (InsufficientConfirmations confirmations required)
            else check_unspent_at_tip core tip outpoint txout
          else Err (OutputMismatch outpoint expected_txout output)
      | LongScript _ _ _ => Err (OutputMismatch outpoint expected_txout output)
      end
  end.

Inductive TxBlockLookup :=
| TxConfirmed (checkpoint : HashCheckpoint)
| TxInMempool
| TxNotFound.

(** The answer to [getrawtransaction]. *)
Inductive RawTransaction :=
| RawLocation (block_hash : option Z)
| RawGenesisCoinbase
| RawNoSuchTransaction
| RawFailed.

(** [header] is the answer to [getblockheader]: its height and confirmations. *)
Definition classify_missing_kyoto_block (header : option (Z * Z)) (core_after : Z -> option Z)
    (txid : Txid) (tip start_checkpoint : HashCheckpoint) : DepositConfirmError :=
  match header with
  | None => OtherFailure LookupFailed
  | Some (height, confirmations) =>
      if (0 <? confirmations) && (height <=? cp_height start_checkpoint) then
        match require_core_checkpoint core_after tip with
        | Err e => e
        | _ => BeforeStartCheckpoint txid height (cp_height start_checkpoint)
        end
      else OtherFailure NotOnKyotoChain
  end.

(** [cached] is the entry of the cache; [core] and [core_after] what Core answers before and
    after the lookup; [height_of] Kyoto's height of a hash, [None] inside for an error. *)
Definition lookup_tx_block (cached : option HashCheckpoint) (core core_after : Z -> option Z)
    (raw : RawTransaction) (height_of : Z -> option (option Z)) (header : option (Z * Z))
    (txid : Txid) (tip start_checkpoint : HashCheckpoint) : outcome DepositConfirmError TxBlockLookup :=
  match cached with
  | Some block_info => Ok (TxConfirmed block_info)
  | None =>
      _ ← require_core_checkpoint core tip;
      match raw with
      | RawGenesisCoinbase => Err (BeforeStartCheckpoint txid 0 (cp_height start_checkpoint))
      | RawNoSuchTransaction => _ ← require_core_checkpoint core_after tip; Ok TxNotFound
      | RawFailed => Err (OtherFailure LookupFailed)
      | RawLocation None => _ ← require_core_checkpoint core_after tip; Ok TxInMempool
      | RawLocation (Some block_hash) =>
          match height_of block_hash with
          | None => Err (OtherFailure LookupFailed)
          | Some None => Err (classify_missing_kyoto_block header core_after txid tip start_checkpoint)
          | Some (Some height) => Ok (TxConfirmed (mkHashCheckpoint height block_hash))
          end
      end
  end.

(** What the tracker has recorded of the outpoint in this block. *)
Definition recorded_in_block (tracker : TrackerState) (outpoint : OutPoint)
    (block_info : HashCheckpoint) : option DepositStatus :=
  status ← recorded_status tracker outpoint;
  match status with
  | InBlock checkpoint _ _ | InvalidVout checkpoint =>
      if decide (checkpoint = block_info) then Some status else None
  | _ => None
  end.

(** [cached] is the entry of the cache of outputs; [tracker] the tracker when the worker looks
    there; [fetched] what the fetch of the block answers for the transaction. *)
Definition discover_deposit (lookup : outcome DepositConfirmError TxBlockLookup)
    (cached : option BlockTx) (tracker : TrackerState) (fetched : HashCheckpoint -> option BlockTx)
    (outpoint : OutPoint) : outcome DepositConfirmError DepositStatus :=
  found ← lookup;
  match found with
  | TxInMempool => Ok InMempool
  | TxNotFound => Ok NotFound
  | TxConfirmed block_info =>
      match cached with
      | Some tx => Ok (scanned_status block_info tx outpoint)
      | None =>
          match recorded_in_block tracker outpoint block_info with
          | Some status => Ok status
          | None => tx ← answered (fetched block_info) LookupFailed; Ok (scanned_status block_info tx outpoint)
          end
      end
  end.

(** ** The state of the loop *)

Record Request := mkRequest {
  rq_id : nat;
  rq_outpoint : OutPoint;
  rq_expected_txout : TxOut;
  rq_threshold : Z;
  rq_owner : option Address;
}.

Definition DiscoveryGroup : Type := OutPoint * option Address.

Record CheckWorker := mkCheckWorker {
  cw_generation : Z;
  cw_tip : HashCheckpoint;
  cw_request : Request;
  cw_status : DepositStatus;
}.

Record DiscoveryWorker := mkDiscoveryWorker {
  dw_token : option ObservationToken;
  dw_generation : Z;
  dw_group : DiscoveryGroup;
  dw_tip : HashCheckpoint;
}.

Record ScanWorker := mkScanWorker {
  sw_checkpoint : HashCheckpoint;
  sw_generation : Z;
  sw_retry_round : Z;
}.

Record Monitor := mkMonitor {
  mo_tip : option HashCheckpoint;
  mo_synced : bool;
  mo_tracker : TrackerState;
  mo_check_workers : list CheckWorker;
  mo_discovery_workers : list DiscoveryWorker;
  mo_scan_worker : option ScanWorker;
  pending_deposit_checks : gmap DiscoveryGroup (list Request);
  block_scan_queue : list (HashCheckpoint * Z);
}.

Definition monitor_new (tracker : TrackerState) : Monitor :=
  mkMonitor None false tracker [] [] None ∅ [].

Definition with_tracker (self : Monitor) (t : TrackerState) : Monitor :=
  mkMonitor (mo_tip self) (mo_synced self) t (mo_check_workers self) (mo_discovery_workers self)
    (mo_scan_worker self) (pending_deposit_checks self) (block_scan_queue self).
Definition with_pending (self : Monitor) (p : gmap DiscoveryGroup (list Request)) : Monitor :=
  mkMonitor (mo_tip self) (mo_synced self) (mo_tracker self) (mo_check_workers self)
    (mo_discovery_workers self) (mo_scan_worker self) p (block_scan_queue self).
Definition with_queue (self : Monitor) (q : list (HashCheckpoint * Z)) : Monitor :=
  mkMonitor (mo_tip self) (mo_synced self) (mo_tracker self) (mo_check_workers self)
    (mo_discovery_workers self) (mo_scan_worker self) (pending_deposit_checks self) q.
Definition with_chain (self : Monitor) (tip : option HashCheckpoint) (synced : bool) : Monitor :=
  mkMonitor tip synced (mo_tracker self) (mo_check_workers self) (mo_discovery_workers self)
    (mo_scan_worker self) (pending_deposit_checks self) (block_scan_queue self).
Definition with_check_worker (self : Monitor) (w : CheckWorker) : Monitor :=
  mkMonitor (mo_tip self) (mo_synced self) (mo_tracker self) (mo_check_workers self ++ [w])
    (mo_discovery_workers self) (mo_scan_worker self) (pending_deposit_checks self) (block_scan_queue self).
Definition with_discovery_worker (self : Monitor) (w : DiscoveryWorker) : Monitor :=
  mkMonitor (mo_tip self) (mo_synced self) (mo_tracker self) (mo_check_workers self)
    (mo_discovery_workers self ++ [w]) (mo_scan_worker self) (pending_deposit_checks self)
    (block_scan_queue self).
Definition with_scan (self : Monitor) (w : option ScanWorker) (q : list (HashCheckpoint * Z)) : Monitor :=
  mkMonitor (mo_tip self) (mo_synced self) (mo_tracker self) (mo_check_workers self)
    (mo_discovery_workers self) w (pending_deposit_checks self) q.

(** The answers a turn sends: to which caller, what. *)
Abbreviation Replies := (list (nat * CheckResult)).

(** ** Scans *)

(** [min_by_key] of the attempts and the position: the first of the fewest. *)
Definition min_round (queue : list (HashCheckpoint * Z)) : option nat :=
  fst <$> fold_left (fun best e =>
      match best with
      | Some (_, round) => if e.2 <? round then Some e else best
      | None => Some e
      end) (imap (fun i e => (i, e.2)) queue) (None : option (nat * Z)).

(** The scan with the fewest failed attempts moves to the front and runs. *)
Definition start_next_block_scan (self : Monitor) : Monitor :=
  match mo_scan_worker self with
  | Some _ => self
  | None =>
      if negb (has_scan_candidates (mo_tracker self)) then with_queue self []
      else
        match min_round (block_scan_queue self) with
        | None => self
        | Some next =>
            match block_scan_queue self !! next with
            | None => self
            | Some (checkpoint, retry_round) =>
                with_scan self
                  (Some (mkScanWorker checkpoint (bitcoin_generation (mo_tracker self)) retry_round))
                  ((checkpoint, retry_round) :: delete next (block_scan_queue self))
            end
        end
  end.

Definition queue_block_scan (self : Monitor) (checkpoint : HashCheckpoint) : Monitor :=
  if negb (has_scan_candidates (mo_tracker self)) then self
  else start_next_block_scan (with_queue self (block_scan_queue self ++ [(checkpoint, 0)])).

(** What joining the scan gives: the block as it was fetched, an error, or a cancelled task. *)
Inductive ScanOutcome :=
| ScanFetched (block : list (BlockTx * Txid))
| ScanFailed
| ScanCancelled.

Definition finish_block_scan (self : Monitor) (w : ScanWorker) (result : ScanOutcome) : T Monitor :=
  match result with
  | ScanCancelled => Ok self
  | _ =>
      if negb (sw_generation w =? bitcoin_generation (mo_tracker self)) then Ok self
      else
        match result with
        | ScanFetched block =>
            let self := with_queue self (tail (block_scan_queue self)) in
            '(t, _) ← apply_block_if_current (mo_tracker self) (sw_generation w) (sw_checkpoint w) block;
            Ok (with_tracker self t)
        | _ =>
            Ok (with_queue self
                  (tail (block_scan_queue self) ++ [(sw_checkpoint w, Z.min u32_max (sw_retry_round w + 1))]))
        end
  end.

(** The turn that joins the scan: the worker is gone, and the next scan starts. *)
Definition scan_joined (self : Monitor) (result : ScanOutcome) : T Monitor :=
  match mo_scan_worker self with
  | None => Ok self
  | Some w =>
      self ← finish_block_scan (with_scan self None (block_scan_queue self)) w result;
      Ok (start_next_block_scan self)
  end.

(** ** Checks *)

Definition start_deposit_check (self : Monitor) (tip : HashCheckpoint) (request : Request)
    (status : DepositStatus) : Monitor :=
  with_check_worker self (mkCheckWorker (bitcoin_generation (mo_tracker self)) tip request status).

Definition release_discovery_token (self : Monitor) (token : option ObservationToken) : T Monitor :=
  match token with
  | None => Ok self
  | Some token =>
      '(t, _, _) ← resolve_discovery (E:=unit) (mo_tracker self) token (inr tt);
      Ok (with_tracker self t)
  end.

Definition MAX_PENDING_DEPOSIT_CHECKS_PER_OUTPOINT_AND_CALLER : nat := 100.

(** The group of the caller, or that of the node itself. *)
Definition joined_group (self : Monitor) (request : Request) : option DiscoveryGroup :=
  List.find (fun group => bool_decide (is_Some (pending_deposit_checks self !! group)))
    [(rq_outpoint request, rq_owner request); (rq_outpoint request, None)].

(** [slot] says whether the caller may start another discovery; the node itself always may. *)
Definition join_or_discover (self : Monitor) (closed : nat -> bool) (slot : bool)
    (tip : HashCheckpoint) (request : Request) (token : option ObservationToken)
    : T (Monitor * Replies) :=
  match joined_group self request with
  | Some group =>
      self ← release_discovery_token self token;
      match pending_deposit_checks self !! group with
      | None => Ok (self, [])
      | Some requests =>
          let requests := List.filter (fun queued => negb (closed (rq_id queued))) requests in
          let queued :=
            length (List.filter (fun q => bool_decide (rq_owner q = rq_owner request)) requests) in
          if (MAX_PENDING_DEPOSIT_CHECKS_PER_OUTPOINT_AND_CALLER <=? queued)%nat
          then Ok (with_pending self (<[group := requests]> (pending_deposit_checks self)),
                   [(rq_id request, Err (OtherFailure TooManyPending))])
          else Ok (with_pending self (<[group := requests ++ [request]]> (pending_deposit_checks self)), [])
      end
  | None =>
      if negb slot && bool_decide (is_Some (rq_owner request)) then
        self ← release_discovery_token self token;
        Ok (self, [(rq_id request, Err DiscoveriesFull)])
      else
        let group := (rq_outpoint request, rq_owner request) in
        let self := with_pending self (<[group := [request]]> (pending_deposit_checks self)) in
        Ok (with_discovery_worker self
              (mkDiscoveryWorker token (bitcoin_generation (mo_tracker self)) group tip), [])
  end.

(** Nothing is checked before Kyoto is synced. *)
Definition confirm_deposit (self : Monitor) (closed : nat -> bool) (slot : bool) (request : Request)
    : T (Monitor * Replies) :=
  if closed (rq_id request) then Ok (self, [])
  else
    match mo_tip self, mo_synced self with
    | Some tip, true =>
        '(t, d) ← discovery (mo_tracker self) (rq_outpoint request);
        let self := with_tracker self t in
        match d with
        | Known status => Ok (start_deposit_check self tip request status, [])
        | Discover token => join_or_discover self closed slot tip request (Some token)
        | DiscoveryPending | Untracked => join_or_discover self closed slot tip request None
        end
    | _, _ => Ok (self, [(rq_id request, Err (OtherFailure NotSynced))])
    end.

(** The turn that joins a check: its result if the chain has not moved under it. *)
Definition finish_deposit_check (self : Monitor) (w : CheckWorker) (result : option CheckResult)
    : Replies :=
  match result with
  | None => []
  | Some result =>
      if cw_generation w =? bitcoin_generation (mo_tracker self)
      then [(rq_id (cw_request w), result)]
      else [(rq_id (cw_request w), Err (OtherFailure Invalidated))]
  end.

(** What the callers of a failed discovery are told. *)
Definition discovery_error (e : DepositConfirmError) : DepositConfirmError :=
  match e with
  | BeforeStartCheckpoint txid height start_height => BeforeStartCheckpoint txid height start_height
  | _ => OtherFailure DiscoveryFailed
  end.

Definition start_check (closed : nat -> bool) (tip : HashCheckpoint)
    (status : DepositStatus + DepositConfirmError) (acc : Monitor * Replies) (request : Request)
    : Monitor * Replies :=
  let '(self, replies) := acc in
  if closed (rq_id request) then (self, replies)
  else
    match status with
    | inl status => (start_deposit_check self tip request status, replies)
    | inr e => (self, replies ++ [(rq_id request, Err (discovery_error e))])
    end.

Definition start_checks (self : Monitor) (closed : nat -> bool) (tip : HashCheckpoint)
    (status : DepositStatus + DepositConfirmError) (requests : list Request) : Monitor * Replies :=
  fold_left (start_check closed tip status) requests (self, []).

Definition finish_deposit_discovery (self : Monitor) (closed : nat -> bool) (w : DiscoveryWorker)
    (result : option (DepositStatus + DepositConfirmError)) : T (Monitor * Replies) :=
  match result with
  | None => Ok (self, [])
  | Some result =>
      if negb (dw_generation w =? bitcoin_generation (mo_tracker self)) then Ok (self, [])
      else
        '(t, status) ←
          match dw_token w with
          | Some token =>
              '(t, resolution, _) ← resolve_discovery (E:=unit) (mo_tracker self) token
                                      (match result with inl status => inl status | inr _ => inr tt end);
              Ok (t, match resolution with
                     | Complete (inl status) => inl status
                     | Complete (inr _) | ResolutionPending => result
                     | ResolutionUntracked => inr (OtherFailure LeftTracker)
                     end)
          | None =>
              Ok (mo_tracker self,
                  match recorded_status (mo_tracker self) (dw_group w).1 with
                  | Some status => inl status
                  | None => result
                  end)
          end;
        let requests := default [] (pending_deposit_checks self !! dw_group w) in
        let self := with_pending (with_tracker self t) (delete (dw_group w) (pending_deposit_checks self)) in
        match mo_tip self with
        | None => Ok (self, (fun r => (rq_id r, Err (OtherFailure Invalidated))) <$> requests)
        | Some tip => Ok (start_checks self closed tip status requests)
        end
  end.

(** ** The chain *)

(** Workers are aborted: their tasks may still be joined; the callers that wait are told. *)
Definition cancel_deposit_workers (self : Monitor) : Monitor * Replies :=
  (with_pending self ∅,
   (fun r => (rq_id r, Err (OtherFailure Invalidated)))
     <$> concat (map_to_list (pending_deposit_checks self)).*2).

Definition drop_disconnected_block_scans (self : Monitor) (disconnected : list HashCheckpoint) : Monitor :=
  with_queue self (List.filter (fun e => negb (bool_decide (e.1 ∈ disconnected))) (block_scan_queue self)).

(** A header: its checkpoint and the hash before it. *)
Record Header := mkHeader { hd_checkpoint : HashCheckpoint; hd_prev : Z }.

Inductive HeaderChanges :=
| Connected (header : Header)
| Reorganized (accepted reorganized : list Header)
| ForkAdded (header : Header).

Definition set_monitor_tip (self : Monitor) (tip : HashCheckpoint) : T Monitor :=
  '(t, _) ← set_tip (mo_tracker self) tip;
  Ok (with_tracker self t).

(** The tip after a reorganization. *)
Definition new_tip (accepted reorganized : list Header) : option HashCheckpoint :=
  match list.last accepted with
  | Some h => Some (hd_checkpoint h)
  | None =>
      h ← head reorganized;
      if cp_height (hd_checkpoint h) <=? 0 then None
      else Some (mkHashCheckpoint (cp_height (hd_checkpoint h) - 1) (hd_prev h))
  end.

Definition process_chain_update (self : Monitor) (changes : HeaderChanges) : T (Monitor * Replies) :=
  match changes with
  | Connected header =>
      let checkpoint := hd_checkpoint header in
      let self := with_chain self (Some checkpoint) (mo_synced self) in
      if mo_synced self then
        self ← set_monitor_tip self checkpoint;
        Ok (queue_block_scan self checkpoint, [])
      else Ok (self, [])
  | Reorganized accepted reorganized =>
      let disconnected := hd_checkpoint <$> reorganized in
      let '(self, replies) := cancel_deposit_workers self in
      let self := with_chain (drop_disconnected_block_scans self disconnected) None (mo_synced self) in
      '(t, _) ← apply_reorg (mo_tracker self) disconnected;
      let self := with_tracker self t in
      match new_tip accepted reorganized with
      | None => Ok (self, replies)
      | Some tip =>
          self ← set_monitor_tip (with_chain self (Some tip) (mo_synced self)) tip;
          Ok (if mo_synced self
              then fold_left (fun self h => queue_block_scan self (hd_checkpoint h)) accepted self
              else self, replies)
      end
  | ForkAdded _ => Ok (self, [])
  end.

Definition process_synced (self : Monitor) (tip : HashCheckpoint) : T Monitor :=
  set_monitor_tip (with_chain self (Some tip) true) tip.

Definition reset_bitcoin_state_for_restart (self : Monitor) : T (Monitor * Replies) :=
  let '(self, replies) := cancel_deposit_workers (with_chain self None false) in
  let self := with_queue self [] in
  '(t, _) ← reset_bitcoin_state (mo_tracker self);
  Ok (with_tracker self t, replies).

(** ** Turns of the loop *)

(** How a check ends: with Core's answers, at its timeout, when its caller has gone, or
    cancelled. *)
Inductive CheckEnd :=
| CheckAnswered (core : CoreAnswers)
| CheckExpired
| CheckAbandoned
| CheckCancelled.

Definition check_worker_result (w : CheckWorker) (e : CheckEnd) : option CheckResult :=
  match e with
  | CheckAnswered core =>
      Some (check_result_from_status core (cw_status w) (cw_tip w) (rq_threshold (cw_request w))
              (rq_outpoint (cw_request w)) (rq_expected_txout (cw_request w)))
  | CheckExpired => Some (Err CheckTimedOut)
  | CheckAbandoned => Some (Err (OtherFailure Abandoned))
  | CheckCancelled => None
  end.

(** A turn: an event of Kyoto, a message, a worker that is joined, a restart; and, from outside
    of the loop, a change of the deposit queue and the scan of a block a discovery fetched. *)
Inductive Turn :=
| TurnChain (changes : HeaderChanges)
| TurnSynced (tip : HashCheckpoint)
| TurnCheck (closed : nat -> bool) (slot : bool) (request : Request)
| TurnCheckJoined (worker : nat) (e : CheckEnd)
| TurnDiscoveryJoined (closed : nat -> bool) (worker : nat) (result : option (DepositStatus + DepositConfirmError))
| TurnScanJoined (result : ScanOutcome)
| TurnRestart
| TurnReplace (desired : gmap Address OutPoint)
| TurnUpsert (request : Address) (outpoint : OutPoint)
| TurnRemove (request : Address)
| TurnFetched (generation : Z) (checkpoint : HashCheckpoint) (block : list (BlockTx * Txid)).

Definition without_check (self : Monitor) (i : nat) : Monitor :=
  mkMonitor (mo_tip self) (mo_synced self) (mo_tracker self) (delete i (mo_check_workers self))
    (mo_discovery_workers self) (mo_scan_worker self) (pending_deposit_checks self) (block_scan_queue self).
Definition without_discovery_worker (self : Monitor) (i : nat) : Monitor :=
  mkMonitor (mo_tip self) (mo_synced self) (mo_tracker self) (mo_check_workers self)
    (delete i (mo_discovery_workers self)) (mo_scan_worker self) (pending_deposit_checks self)
    (block_scan_queue self).

Definition turn (self : Monitor) (t : Turn) : T (Monitor * Replies) :=
  match t with
  | TurnChain changes => process_chain_update self changes
  | TurnSynced tip => self ← process_synced self tip; Ok (self, [])
  | TurnCheck closed slot request => confirm_deposit self closed slot request
  | TurnCheckJoined i e =>
      match mo_check_workers self !! i with
      | None => Ok (self, [])
      | Some w => let self := without_check self i in
                  Ok (self, finish_deposit_check self w (check_worker_result w e))
      end
  | TurnDiscoveryJoined closed i result =>
      match mo_discovery_workers self !! i with
      | None => Ok (self, [])
      | Some w => finish_deposit_discovery (without_discovery_worker self i) closed w result
      end
  | TurnScanJoined result => self ← scan_joined self result; Ok (self, [])
  | TurnRestart => reset_bitcoin_state_for_restart self
  | TurnReplace desired => '(t, _) ← replace_requests (mo_tracker self) desired; Ok (with_tracker self t, [])
  | TurnUpsert r o => '(t, _) ← upsert_request (mo_tracker self) r o; Ok (with_tracker self t, [])
  | TurnRemove r => '(t, _) ← remove_request (mo_tracker self) r; Ok (with_tracker self t, [])
  | TurnFetched generation cp block =>
      '(t, _) ← apply_block_if_current (mo_tracker self) generation cp block;
      Ok (with_tracker self t, [])
  end.
