(* ===== verification/BtcMonitorProofs.v ===== *)
(** * What the Bitcoin monitor has seen of the chain

    The turns of the loop keep an invariant over two ghosts: [facts], what was scanned,
    discovered or announced on the chain that is current, and [since], for an outpoint that is
    not yet in a block the blocks that were connected while it was waited for. *)

From S2P Require Import MonitorDomain Retry DepositTracker DepositTrackerProofs BtcMonitor Prelude.

(** ** Ghosts *)

Inductive Fact :=
| SawBlock (checkpoint : HashCheckpoint) (block : list (BlockTx * Txid))
| SawDiscovery (outpoint : OutPoint) (status : DepositStatus)
| AtTip (tip : HashCheckpoint).

Definition says (f : Fact) (o : OutPoint) (status : DepositStatus) : Prop :=
  match f with
  | SawBlock cp block => exists tx, tx_in block o.1 = Some tx /\ status = scanned_status cp tx o
  | SawDiscovery o' status' => o' = o /\ status' = status
  | AtTip _ => False
  end.

Definition seen (facts : list Fact) (o : OutPoint) (status : DepositStatus) : Prop :=
  exists f, f ∈ facts /\ says f o status.

(** What a reorganization leaves: what was seen in a block that stays. *)
Definition survives (disconnected : list HashCheckpoint) (f : Fact) : bool :=
  match f with
  | SawBlock cp _ | SawDiscovery _ (InBlock cp _ _) | SawDiscovery _ (InvalidVout cp) =>
      negb (bool_decide (cp ∈ disconnected))
  | _ => false
  end.

Definition facts_after (s : Monitor) (facts : list Fact) (t : Turn) : list Fact :=
  let generation := bitcoin_generation (mo_tracker s) in
  match t with
  | TurnChain (Connected header) => AtTip (hd_checkpoint header) :: facts
  | TurnChain (Reorganized accepted reorganized) =>
      option_list (AtTip <$> new_tip accepted reorganized)
      ++ List.filter (survives (hd_checkpoint <$> reorganized)) facts
  | TurnSynced tip => AtTip tip :: facts
  | TurnDiscoveryJoined _ i (Some (inl status)) =>
      match mo_discovery_workers s !! i with
      | Some w => if dw_generation w =? generation then SawDiscovery (dw_group w).1 status :: facts else facts
      | None => facts
      end
  | TurnScanJoined (ScanFetched block) =>
      match mo_scan_worker s with
      | Some w => if sw_generation w =? generation then SawBlock (sw_checkpoint w) block :: facts else facts
      | None => facts
      end
  | TurnFetched g cp block => if g =? generation then SawBlock cp block :: facts else facts
  | TurnRestart => []
  | _ => facts
  end.

Definition waited_for (s : Monitor) (o : OutPoint) : bool :=
  match entries (mo_tracker s) !! o with
  | Some e => is_scan_candidate (e_status e)
  | None => false
  end.

Definition since_after (s : Monitor) (since : OutPoint -> list HashCheckpoint) (t : Turn) (o : OutPoint)
    : list HashCheckpoint :=
  let old := if waited_for s o then since o else [] in
  match t with
  | TurnChain (Connected header) => if mo_synced s then old ++ [hd_checkpoint header] else old
  | TurnChain (Reorganized accepted reorganized) =>
      List.filter (fun cp => negb (bool_decide (cp ∈ hd_checkpoint <$> reorganized))) old
      ++ if mo_synced s then hd_checkpoint <$> accepted else []
  | TurnRestart => []
  | _ => old
  end.

(** Counters have room, and a discovery ends with something known. *)
Definition turn_allowed (s : Monitor) (t : Turn) : Prop :=
  match t with
  | TurnCheck _ _ _ => next_discovery_id (mo_tracker s) < u64_max
  | TurnDiscoveryJoined _ _ result => result <> Some (inl Unchecked)
  | TurnRestart | TurnChain (Reorganized _ _) => bitcoin_generation (mo_tracker s) < u64_max
  | _ => True
  end.

Inductive monitor_run : Monitor -> list Fact -> (OutPoint -> list HashCheckpoint) -> Prop :=
| mr_new instrumented : monitor_run (monitor_new (tracker_new instrumented)) [] (fun _ => [])
| mr_turn s facts since t s' replies :
    monitor_run s facts since -> turn_allowed s t -> turn s t = Ok (s', replies) ->
    monitor_run s' (facts_after s facts t) (since_after s since t).

(** ** The invariant *)

Definition in_block (status : DepositStatus) : bool :=
  match status with InBlock _ _ _ => true | _ => false end.

Definition is_absent (status : DepositStatus) : bool :=
  match status with NotFound | InMempool => true | _ => false end.

(** What is known of an outpoint is what was seen of it. *)
Record status_ok (s : Monitor) (facts : list Fact) (o : OutPoint) (status : DepositStatus) : Prop := {
  so_seen : in_block status = true -> seen facts o status;
  so_synced : is_absent status = true -> mo_synced s = true;
}.

Record check_ok (s : Monitor) (facts : list Fact) (w : CheckWorker) : Prop := {
  ck_known : cw_status w <> Unchecked;
  ck_generation : cw_generation w <= bitcoin_generation (mo_tracker s);
  ck_tip : cw_generation w = bitcoin_generation (mo_tracker s) -> AtTip (cw_tip w) ∈ facts;
  ck_seen : cw_generation w = bitcoin_generation (mo_tracker s) -> in_block (cw_status w) = true ->
    seen facts (rq_outpoint (cw_request w)) (cw_status w);
}.

Record discovery_ok (s : Monitor) (w : DiscoveryWorker) : Prop := {
  di_generation : dw_generation w <= bitcoin_generation (mo_tracker s);
  di_synced : dw_generation w = bitcoin_generation (mo_tracker s) -> mo_synced s = true;
  di_token token : dw_token w = Some token -> ot_outpoint token = (dw_group w).1;
}.

Record chain_inv (s : Monitor) (facts : list Fact) : Prop := {
  ci_tracker : tracker_inv (mo_tracker s);
  ci_entries o e : entries (mo_tracker s) !! o = Some e -> status_ok s facts o (e_status e);
  ci_checks : Forall (check_ok s facts) (mo_check_workers s);
  ci_discoveries : Forall (discovery_ok s) (mo_discovery_workers s);
  ci_pending group requests : pending_deposit_checks s !! group = Some requests ->
    Forall (fun r => rq_outpoint r = group.1) requests;
  ci_tip tip : mo_tip s = Some tip -> AtTip tip ∈ facts;
}.

(** The scan that runs is of the block at the front. *)
Definition scan_ok (s : Monitor) : Prop :=
  match mo_scan_worker s with
  | None => block_scan_queue s = []
  | Some w =>
      sw_generation w <= bitcoin_generation (mo_tracker s)
      /\ (sw_generation w = bitcoin_generation (mo_tracker s) ->
          head (block_scan_queue s) = Some (sw_checkpoint w, sw_retry_round w))
  end.

(** A block is still to be scanned, or it was and did not have the outpoint. *)
Definition covered (s : Monitor) (facts : list Fact) (o : OutPoint) (cp : HashCheckpoint) : Prop :=
  cp ∈ (block_scan_queue s).*1
  \/ exists block, SawBlock cp block ∈ facts /\ tx_in block o.1 = None.

Definition none_missed (s : Monitor) (facts : list Fact) (since : OutPoint -> list HashCheckpoint) : Prop :=
  forall o cp, waited_for s o = true -> cp ∈ since o -> covered s facts o cp.

(** ** Facts *)

Lemma seen_mono facts facts' o st : facts ⊆ facts' -> seen facts o st -> seen facts' o st.
Proof. intros H (f & Hf & Hs). exists f. set_solver. Qed.

Lemma covered_mono s s' facts facts' o cp :
  facts ⊆ facts' -> ((block_scan_queue s).*1 ⊆ (block_scan_queue s').*1) ->
  covered s facts o cp -> covered s' facts' o cp.
Proof. intros Hf Hq [H|(block & H & Hn)]; [left; set_solver|right]. exists block. set_solver. Qed.

Lemma elem_filter {A} (p : A -> bool) l x : x ∈ List.filter p l <-> x ∈ l /\ p x = true.
Proof. by rewrite list_elem_of_In, filter_In, <- list_elem_of_In. Qed.

Lemma seen_survives disconnected facts o cp cb out :
  cp ∉ disconnected -> seen facts o (InBlock cp cb out) ->
  seen (List.filter (survives disconnected) facts) o (InBlock cp cb out).
Proof.
  intros Hcp (f & Hf & Hs). exists f. split; [|done]. apply elem_filter. split; [done|].
  destruct f as [cp' block|o' st|]; cbn in Hs |- *; [| |done].
  - destruct Hs as (tx & _ & E). unfold scanned_status in E. destruct (_ !! _); [|done].
    injection E as -> _ _. by rewrite bool_decide_false.
  - destruct Hs as [_ ->]. by rewrite bool_decide_false.
Qed.

Lemma status_ok_mono s s' facts facts' o st :
  facts ⊆ facts' -> (mo_synced s = true -> mo_synced s' = true) ->
  status_ok s facts o st -> status_ok s' facts' o st.
Proof. intros Hf Hs [H1 H2]. split; [intros E; by eapply seen_mono, H1|auto]. Qed.

Lemma unchecked_ok s facts o : status_ok s facts o Unchecked.
Proof. by split. Qed.
#[export] Hint Resolve unchecked_ok : hashi.

(** A status a block scan finds. *)
Lemma scanned_ok s facts o cp block tx :
  SawBlock cp block ∈ facts -> tx_in block o.1 = Some tx -> status_ok s facts o (scanned_status cp tx o).
Proof.
  intros Hf Ht. split; [intros _; exists (SawBlock cp block); split; [done|by exists tx]|].
  unfold scanned_status. by destruct (_ !! _).
Qed.

(** ** Steps on the same chain *)

Lemma check_ok_mono s s' facts facts' w :
  bitcoin_generation (mo_tracker s') = bitcoin_generation (mo_tracker s) -> facts ⊆ facts' ->
  check_ok s facts w -> check_ok s' facts' w.
Proof.
  intros Eg Hf [Hk Hg Ht Hs]. split; rewrite ?Eg; auto.
  intros E Hb. eapply seen_mono; eauto.
Qed.

Lemma discovery_ok_mono s s' w :
  bitcoin_generation (mo_tracker s') = bitcoin_generation (mo_tracker s) ->
  (mo_synced s = true -> mo_synced s' = true) -> discovery_ok s w -> discovery_ok s' w.
Proof. intros Eg Hs [H1 H2 H3]. split; rewrite ?Eg; auto. Qed.

Lemma chain_step s s' facts facts' :
  chain_inv s facts -> tracker_inv (mo_tracker s') ->
  bitcoin_generation (mo_tracker s') = bitcoin_generation (mo_tracker s) -> facts ⊆ facts' ->
  (mo_synced s = true -> mo_synced s' = true) ->
  (forall o e, entries (mo_tracker s') !! o = Some e -> status_ok s' facts' o (e_status e)) ->
  (forall w, w ∈ mo_check_workers s' -> w ∈ mo_check_workers s \/ check_ok s' facts' w) ->
  (forall w, w ∈ mo_discovery_workers s' -> w ∈ mo_discovery_workers s \/ discovery_ok s' w) ->
  (forall g l, pending_deposit_checks s' !! g = Some l -> Forall (fun r => rq_outpoint r = g.1) l) ->
  (forall tip, mo_tip s' = Some tip -> AtTip tip ∈ facts') ->
  chain_inv s' facts'.
Proof.
  intros [Hi He Hc Hd Hp Ht] Hi' Hg Hf Hs He' Hc' Hd' Hp' Ht'. split; try done.
  - apply Forall_forall. intros w Hw. destruct (Hc' w Hw) as [H|]; [|done].
    rewrite Forall_forall in Hc. eapply check_ok_mono; eauto.
  - apply Forall_forall. intros w Hw. destruct (Hd' w Hw) as [H|]; [|done].
    rewrite Forall_forall in Hd. eapply discovery_ok_mono; eauto.
Qed.

(** Only the tracker changes, on the same chain. *)
Lemma chain_tracker s t' facts facts' :
  chain_inv s facts -> tracker_inv t' -> bitcoin_generation t' = bitcoin_generation (mo_tracker s) ->
  facts ⊆ facts' ->
  (forall o e, entries t' !! o = Some e -> status_ok s facts' o (e_status e)) ->
  chain_inv (with_tracker s t') facts'.
Proof.
  intros Hinv Hi Hg Hf He. pose proof Hinv as [_ _ _ _ Hp Ht].
  eapply chain_step; try done; try (by left).
  - intros o e H. eapply status_ok_mono; [..|by eapply He]; done.
  - intros tip H. by apply Hf, Ht.
Qed.

Lemma stays_status s facts t' :
  chain_inv s facts -> stays (mo_tracker s) t' ->
  forall o e, entries t' !! o = Some e -> status_ok s facts o (e_status e).
Proof.
  intros Hinv Hst o e He. destruct (Hst _ _ He) as [->|(e0 & He0 & ->)]; [apply unchecked_ok|].
  by eapply ci_entries.
Qed.

(** Only the workers, the callers that wait and the scans change. *)
Lemma chain_workers s s' facts :
  chain_inv s facts ->
  mo_tracker s' = mo_tracker s -> mo_synced s' = mo_synced s -> mo_tip s' = mo_tip s ->
  (forall w, w ∈ mo_check_workers s' -> w ∈ mo_check_workers s \/ check_ok s' facts w) ->
  (forall w, w ∈ mo_discovery_workers s' -> w ∈ mo_discovery_workers s \/ discovery_ok s' w) ->
  (forall g l, pending_deposit_checks s' !! g = Some l -> Forall (fun r => rq_outpoint r = g.1) l) ->
  chain_inv s' facts.
Proof.
  intros Hinv Et Es Etip Hc Hd Hp. pose proof Hinv as [Hi He _ _ _ Htip].
  apply (chain_step s s' facts facts); rewrite ?Et, ?Es, ?Etip; try done.
  intros o e H. eapply status_ok_mono; [done| |by eapply He]. by rewrite Es.
Qed.

Lemma chain_scan s w q facts : chain_inv s facts -> chain_inv (with_scan s w q) facts.
Proof. intros Hinv. eapply chain_workers; try done; [by left..|]. apply (ci_pending _ _ Hinv). Qed.

(** The scans do not change, nor what is waited for. *)
Lemma scan_kept s s' facts facts' since t :
  bitcoin_generation (mo_tracker s') = bitcoin_generation (mo_tracker s) -> facts ⊆ facts' ->
  mo_scan_worker s' = mo_scan_worker s -> block_scan_queue s' = block_scan_queue s ->
  since_after s since t = (fun o => if waited_for s o then since o else []) ->
  scan_ok s /\ none_missed s facts since ->
  scan_ok s' /\ none_missed s' facts' (since_after s since t).
Proof.
  intros Hg Hf Hw Hq Hs [Hok Hn]. split.
  - unfold scan_ok in *. by rewrite Hw, Hq, Hg.
  - intros o cp _. rewrite Hs. destruct (waited_for s o) eqn:E; [|set_solver].
    intros Hcp. apply (covered_mono s s' facts); [done|by rewrite Hq|by apply Hn].
Qed.

(** ** Scans *)

Lemma min_round_spec q :
  match min_round q with
  | None => q = []
  | Some i => exists cp round, q !! i = Some (cp, round) /\ Forall (fun e => round <= e.2) q
  end.
Proof.
  unfold min_round. set (f := fun best e => _).
  cut (match fold_left f (imap (fun i (e : HashCheckpoint * Z) => (i, e.2)) q) (None : option (nat * Z)) with
       | None => q = []
       | Some (i, round) => exists cp, q !! i = Some (cp, round) /\ Forall (fun e => round <= e.2) q
       end).
  { destruct (fold_left _ _ _) as [[i r]|]; cbn; [|done]. intros (cp & ? & ?). by exists cp, r. }
  induction q as [|[cp r] q IH] using rev_ind; [done|].
  rewrite imap_app, fold_left_app. cbn. rewrite Nat.add_0_r.
  destruct (fold_left _ _ _) as [[i round]|]; cbn.
  - destruct IH as (cp' & Hi & Hall). destruct (Z.ltb_spec r round).
    + exists cp. split; [by rewrite lookup_app_r, Nat.sub_diag by lia|]. apply Forall_app. split; [|repeat constructor; cbn; lia].
      eapply Forall_impl; [exact Hall|]. cbn. intros; lia.
    + exists cp'. split; [by apply lookup_app_l_Some|]. apply Forall_app. split; [done|]. repeat constructor. cbn. lia.
  - subst q. exists cp. split; [done|]. repeat constructor. cbn. lia.
Qed.

Lemma start_next_spec s :
  exists w q, start_next_block_scan s = with_scan s w q
    /\ (has_scan_candidates (mo_tracker s) = true -> q ≡ₚ block_scan_queue s)
    /\ (match mo_scan_worker s with Some _ => scan_ok s | None => True end -> scan_ok (with_scan s w q)).
Proof.
  unfold start_next_block_scan. destruct (mo_scan_worker s) as [w|] eqn:Ew.
  { exists (Some w), (block_scan_queue s). split; [by rewrite <- Ew; destruct s|]. split; [done|].
    unfold scan_ok. cbn. by rewrite Ew. }
  destruct (has_scan_candidates _); cbn.
  2:{ exists None, []. split; [by unfold with_queue, with_scan; rewrite Ew|]. by split. }
  pose proof (min_round_spec (block_scan_queue s)) as Hm. destruct (min_round _) as [i|].
  - destruct Hm as (cp & round & Hi & _). rewrite Hi. eexists _, _. split; [done|]. split.
    + intros _. symmetry. by apply delete_Permutation.
    + intros _. unfold scan_ok. cbn. split; [lia|done].
  - exists None, []. rewrite Hm. split; [by rewrite <- Hm, <- Ew; destruct s|]. by split.
Qed.

(** ** The turns keep it *)

Record monitor_inv (s : Monitor) (facts : list Fact) (since : OutPoint -> list HashCheckpoint) : Prop := {
  mi_chain : chain_inv s facts;
  mi_scan : scan_ok s;
  mi_missed : none_missed s facts since;
}.

(** The chain and its scans are as before. *)
Record same_scans (s s' : Monitor) : Prop := {
  ss_generation : bitcoin_generation (mo_tracker s') = bitcoin_generation (mo_tracker s);
  ss_worker : mo_scan_worker s' = mo_scan_worker s;
  ss_queue : block_scan_queue s' = block_scan_queue s;
}.

Lemma inv_kept s s' facts facts' since t :
  monitor_inv s facts since -> chain_inv s' facts' -> same_scans s s' -> facts ⊆ facts' ->
  since_after s since t = (fun o => if waited_for s o then since o else []) ->
  monitor_inv s' facts' (since_after s since t).
Proof.
  intros [_ Ho Hn] Hc [Hg Hw Hq] Hf Hs. destruct (scan_kept s s' facts facts' since t) as [? ?]; try done.
Qed.

Lemma waited_candidates s facts o :
  chain_inv s facts -> waited_for s o = true -> has_scan_candidates (mo_tracker s) = true.
Proof.
  intros Hinv H. unfold waited_for in H. destruct (entries (mo_tracker s) !! o) as [e|] eqn:He; [|done].
  destruct (bk_index _ (ti_books _ (ci_tracker _ _ Hinv))) as [_ _ Ha].
  destruct (proj1 (Ha o)) as (l & Hl & _); [by exists e|]. unfold has_scan_candidates.
  rewrite negb_true_iff, bool_decide_eq_false. intros E. by rewrite E, lookup_empty in Hl.
Qed.

(** A change of the deposit queue. *)
Lemma requests_turn s facts since t t' :
  monitor_inv s facts since -> tracker_inv t' ->
  bitcoin_generation t' = bitcoin_generation (mo_tracker s) -> stays (mo_tracker s) t' ->
  since_after s since t = (fun o => if waited_for s o then since o else []) ->
  monitor_inv (with_tracker s t') facts (since_after s since t).
Proof.
  intros Hinv Hi Hg Hst Hs. pose proof (mi_chain _ _ _ Hinv) as Hc.
  eapply inv_kept; try done. eapply chain_tracker; try done. by apply stays_status.
Qed.

(** *** Checks *)

Definition refused (r : nat * outcome DepositConfirmError DepositConfirmation) : Prop :=
  exists e, r.2 = Err e.

Lemma release_ok s facts token :
  chain_inv s facts ->
  exists s', release_discovery_token s token = Ok s' /\ chain_inv s' facts /\ same_scans s s'
    /\ pending_deposit_checks s' = pending_deposit_checks s.
Proof.
  intros Hc. unfold release_discovery_token. destruct token as [token|]; [|by exists s].
  destruct (resolve_discovery_inv (mo_tracker s) token (inr tt) (ci_tracker _ _ Hc))
    as (t' & r & b & -> & Hi & [_ _ Hg _] & Hm); [done|]. cbn [mbind outcome_bind].
  eexists. split; [done|]. split_and!; [|by split|done]. eapply chain_tracker; try done.
  apply stays_status; [done|]. destruct Hm as [->|(e & He & _ & _ & Hm)]; [by apply stays_refl|].
  intros o e' H. rewrite Hm in H. apply lookup_insert_Some in H as [[_ <-]|[_ H]]; [by left|right; by exists e'].
Qed.

Lemma pending_step s facts p :
  chain_inv s facts ->
  (forall g l, p !! g = Some l -> Forall (fun r => rq_outpoint r = g.1) l) ->
  chain_inv (with_pending s p) facts.
Proof.
  intros Hc Hp. eapply chain_workers; try done; by left.
Qed.

Lemma pending_insert s facts group l :
  chain_inv s facts -> Forall (fun r => rq_outpoint r = group.1) l ->
  chain_inv (with_pending s (<[group := l]> (pending_deposit_checks s))) facts.
Proof.
  intros Hc Hl. apply pending_step; [done|]. intros g x [[<- <-]|[_ H]]%lookup_insert_Some; [done|].
  by eapply ci_pending.
Qed.

Lemma join_ok s facts closed slot tip request token :
  chain_inv s facts -> mo_synced s = true ->
  (forall t, token = Some t -> ot_outpoint t = rq_outpoint request) ->
  exists s' replies, join_or_discover s closed slot tip request token = Ok (s', replies)
    /\ chain_inv s' facts /\ same_scans s s' /\ Forall refused replies.
Proof.
  intros Hc Hs Ht. unfold join_or_discover. destruct (joined_group s request) as [group|] eqn:Ej.
  - destruct (release_ok s facts token Hc) as (s1 & -> & Hc1 & Hs1 & Hp1). cbn [mbind outcome_bind].
    destruct (pending_deposit_checks s1 !! group) as [l|] eqn:El; [|by eexists _, _].
    pose proof (ci_pending _ _ Hc1 _ _ El) as Hl.
    assert (group.1 = rq_outpoint request) as Hg.
    { apply List.find_some in Ej as [Hin _]. cbn in Hin. by destruct Hin as [<-|[<-|[]]]. }
    set (l' := List.filter _ l).
    assert (Forall (fun r => rq_outpoint r = group.1) l') as Hl'.
    { apply Forall_forall. intros r [Hr _]%elem_filter. rewrite Forall_forall in Hl. by apply Hl. }
    destruct (_ <=? _)%nat; eexists _, _; (split; [done|]); split_and!; try (by destruct Hs1);
      try (by repeat (constructor || eexists)); apply pending_insert; try done.
    apply Forall_app. by repeat constructor.
  - destruct (negb slot && _).
    + destruct (release_ok s facts token Hc) as (s1 & -> & Hc1 & Hs1 & _). cbn. eexists _, _. split; [done|].
      split_and!; [done|done|by repeat (constructor || eexists)].
    + eexists _, _. split; [done|]. split_and!; [|by split|done].
      set (s1 := with_pending s _). assert (chain_inv s1 facts) as Hc1 by (apply pending_insert; [done|by apply Forall_singleton]).
      eapply chain_workers; try done; [by left| |apply (ci_pending _ _ Hc1)].
      intros w [H|E%list_elem_of_singleton]%elem_of_app; [by left|right]. subst w. split; cbn; [lia|done|].
      intros t Et. by apply Ht.
Qed.

Lemma start_check_ok s facts tip request status :
  chain_inv s facts -> AtTip tip ∈ facts -> status <> Unchecked ->
  (in_block status = true -> seen facts (rq_outpoint request) status) ->
  chain_inv (start_deposit_check s tip request status) facts.
Proof.
  intros Hc Htip Hk Hs. eapply chain_workers; try done; [|by left|apply (ci_pending _ _ Hc)].
  intros w [H|E%list_elem_of_singleton]%elem_of_app; [by left|right]. subst w. split; cbn; try done.
Qed.

Lemma recorded_ok s facts o status :
  chain_inv s facts -> recorded_status (mo_tracker s) o = Some status ->
  status <> Unchecked /\ status_ok s facts o status.
Proof.
  intros Hc. unfold recorded_status. destruct (entries (mo_tracker s) !! o) as [e|] eqn:He; [|done]. cbn.
  destruct (is_unchecked (e_status e)) eqn:Hu; [done|]. intros [= <-]. split; [by intros E; rewrite E in Hu|].
  by eapply ci_entries.
Qed.

Lemma confirm_ok s facts closed slot request :
  chain_inv s facts -> next_discovery_id (mo_tracker s) < u64_max ->
  exists s' replies, confirm_deposit s closed slot request = Ok (s', replies)
    /\ chain_inv s' facts /\ same_scans s s' /\ Forall refused replies.
Proof.
  intros Hc Hn. unfold confirm_deposit. destruct (closed _); [by eexists _, _|].
  destruct (mo_tip s) as [tip|] eqn:Et; [destruct (mo_synced s) eqn:Es|];
    try (eexists _, _; split; [done|]; split_and!; [done|done|by repeat (constructor || eexists)]).
  destruct (discovery_inv (mo_tracker s) (rq_outpoint request) (ci_tracker _ _ Hc) Hn)
    as (t' & d & -> & Hi & Hg & _ & _ & _ & Hd). cbn [mbind outcome_bind].
  assert (stays (mo_tracker s) t') as Hst.
  { destruct d as [status|token| |]; try (apply stays_refl; by destruct Hd || by subst t').
    - destruct Hd as [_ ->]. by apply stays_refl.
    - destruct Hd as (_ & _ & _ & e & He & Hu & Hm). intros o e'. rewrite Hm.
      intros [[_ <-]|[_ H]]%lookup_insert_Some; [by left|right; by exists e']. }
  assert (chain_inv (with_tracker s t') facts) as Hc1.
  { eapply chain_tracker; try done. by apply stays_status. }
  assert (same_scans s (with_tracker s t')) as Hs1 by by split.
  assert (forall token, (forall t, token = Some t -> ot_outpoint t = rq_outpoint request) ->
    exists s' replies, join_or_discover (with_tracker s t') closed slot tip request token = Ok (s', replies)
    /\ chain_inv s' facts /\ same_scans s s' /\ Forall refused replies) as Hjoin.
  { intros token Ht. destruct (join_ok (with_tracker s t') facts closed slot tip request token)
      as (s2 & r & -> & Hc2 & [Hg2 Hw2 Hq2] & Hr); [done..|]. eexists _, _. split; [done|]. split_and!; try done.
    split; [by rewrite Hg2|done..]. }
  destruct d as [status|token| |]; try by apply Hjoin.
  - eexists _, _. split; [done|]. destruct Hd as [Hd ->]. destruct (recorded_ok s facts _ _ Hc Hd) as [Hk [Hseen _]].
    split_and!; [|done|done]. apply start_check_ok; try done. by apply (ci_tip _ _ Hc).
  - apply Hjoin. intros t [= <-]. by destruct Hd as (? & _).
Qed.

(** Joining a check. *)
Lemma without_check_ok s facts i : chain_inv s facts -> chain_inv (without_check s i) facts.
Proof.
  intros Hc. eapply chain_workers; try done; [|by left|apply (ci_pending _ _ Hc)].
  intros w H%list_elem_of_delete_inv. by left.
Qed.

Lemma without_discovery_ok s facts i : chain_inv s facts -> chain_inv (without_discovery_worker s i) facts.
Proof.
  intros Hc. eapply chain_workers; try done; [by left| |apply (ci_pending _ _ Hc)].
  intros w H%list_elem_of_delete_inv. by left.
Qed.

(** *** Discoveries *)

(** What is answered is what the discovery saw or what was recorded meanwhile. *)
Lemma resolution_status {E} s token (result : DepositStatus + E) s' r b :
  resolve_discovery s token result = Ok (s', r, b) ->
  match r with
  | Complete (inl status) => result = inl status \/ recorded_status s (ot_outpoint token) = Some status
  | _ => True
  end.
Proof.
  unfold resolve_discovery, recorded_status. destruct (match result with inl _ => _ | inr _ => _ end); [done|].
  destruct (entries s !! ot_outpoint token) as [e|]; cbn; [|intros H; by injection H as _ <- _].
  destruct (decide _).
  - destruct result as [status|error].
    + destruct (transition _ _ _) as [[s1 c]| |]; cbn; [|done..]. intros H. injection H as _ <- _. by left.
    + intros H. by injection H as _ <- _.
  - destruct (is_unchecked (e_status e)) eqn:Hu; cbn.
    + destruct (e_discovery_id e); intros H; injection H as _ <- _; [done|]. destruct result; [by left|done].
    + intros H. injection H as _ <- _. by right.
Qed.

Lemma start_checks_ok facts closed tip status requests : forall s replies,
  chain_inv s facts -> AtTip tip ∈ facts -> Forall refused replies ->
  Forall (fun r => match status with
                   | inl st => st <> Unchecked /\ (in_block st = true -> seen facts (rq_outpoint r) st)
                   | inr _ => True end) requests ->
  let f := start_check closed tip status in
  chain_inv (fold_left f requests (s, replies)).1 facts
  /\ same_scans s (fold_left f requests (s, replies)).1
  /\ Forall refused (fold_left f requests (s, replies)).2.
Proof.
  induction requests as [|r requests IH]; intros s replies Hc Htip Hr Hall f; [done|].
  apply Forall_cons in Hall as [Hst Hall]. cbn. destruct (closed (rq_id r)); [by apply IH|].
  destruct status as [st|e].
  - destruct Hst as [Hk Hs]. destruct (IH (start_deposit_check s tip r st) replies) as (? & [? ? ?] & ?); try done.
    by apply start_check_ok.
  - apply IH; try done. apply Forall_app. split; [done|]. apply Forall_singleton. by eexists.
Qed.

Definition discovered (w : DiscoveryWorker) (result : DepositStatus + DepositConfirmError) (facts : list Fact)
    : list Fact :=
  match result with inl st => SawDiscovery (dw_group w).1 st :: facts | inr _ => facts end.

Lemma discovered_mono w result facts : facts ⊆ discovered w result facts.
Proof. destruct result; set_solver. Qed.

Lemma chain_mono s facts facts' : chain_inv s facts -> facts ⊆ facts' -> chain_inv s facts'.
Proof.
  intros Hc Hf. pose proof Hc as [Hi He _ _ Hp Ht]. apply (chain_step s s facts facts'); try done; try (by left).
  - intros o e H. eapply status_ok_mono; [exact Hf|done|by eapply He].
  - intros tip H. by apply Hf, Ht.
Qed.

(** The status of a discovery on this chain. *)
Lemma result_ok s facts w result :
  mo_synced s = true -> result <> inl Unchecked ->
  match result with
  | inl st => st <> Unchecked /\ status_ok s (discovered w result facts) (dw_group w).1 st
  | inr _ => True
  end.
Proof.
  intros Hs Hr. destruct result as [st|e]; [|done]. split; [congruence|]. split; [|done].
  intros _. exists (SawDiscovery (dw_group w).1 st). split; [set_solver|done].
Qed.

(** The token is resolved, or the recorded status read. *)
Lemma resolved_ok s facts w result :
  chain_inv s facts -> mo_synced s = true -> result <> inl Unchecked -> discovery_ok s w ->
  exists t status,
    match dw_token w with
    | Some token =>
        '(t, resolution, _) ← resolve_discovery (E:=unit) (mo_tracker s) token
                                (match result with inl status => inl status | inr _ => inr tt end);
        Ok (t, match resolution with
               | Complete (inl status) => inl status
               | Complete (inr _) | ResolutionPending => result
               | ResolutionUntracked => inr (OtherFailure LeftTracker)
               end)
    | None =>
        Ok (mo_tracker s,
            match recorded_status (mo_tracker s) (dw_group w).1 with
            | Some status => inl status
            | None => result
            end)
    end = Ok (E:=Empty_set) (t, status)
    /\ chain_inv (with_tracker s t) (discovered w result facts)
    /\ bitcoin_generation t = bitcoin_generation (mo_tracker s)
    /\ match status with
       | inl st => st <> Unchecked /\ status_ok s (discovered w result facts) (dw_group w).1 st
       | inr _ => True
       end.
Proof.
  intros Hc Hs Hr Hd. pose proof (result_ok s facts w result Hs Hr) as Hres.
  pose proof (chain_mono _ _ _ Hc (discovered_mono w result facts)) as Hc'.
  destruct (dw_token w) as [token|] eqn:Etok.
  - set (own := match result with inl status => inl status | inr _ => inr tt end).
    destruct (resolve_discovery_inv (mo_tracker s) token own (ci_tracker _ _ Hc))
      as (t & r & b & Er & Hi & [_ _ Hg _] & Hm); [by destruct result; subst own; congruence|].
    pose proof (resolution_status _ _ _ _ _ _ Er) as Hst. rewrite Er. cbn [mbind outcome_bind].
    eexists _, _. split; [done|]. rewrite (di_token _ _ Hd _ Etok) in Hm, Hst. split_and!; [|done|].
    + eapply chain_tracker; try done. intros o e He. destruct Hm as [->|(e0 & He0 & _ & _ & Hm)]; [by eapply ci_entries|].
      rewrite Hm in He. apply lookup_insert_Some in He as [[<- <-]|[_ He]]; [|by eapply ci_entries].
      cbn. subst own. destruct result; [by apply Hres|apply unchecked_ok].
    + destruct r as [[st|]| |]; try done. destruct Hst as [E|H]; [|by eapply recorded_ok].
      subst own. destruct result as [st'|]; [|done]. by injection E as <-.
  - eexists _, _. split; [done|]. split_and!; [|done|].
    + by eapply chain_tracker; try done; [apply Hc|apply Hc'].
    + destruct (recorded_status _ _) as [st|] eqn:E; [|done]. by eapply recorded_ok.
Qed.

Lemma discovery_turn s facts closed w result :
  chain_inv s facts -> discovery_ok s w -> result <> Some (inl Unchecked) ->
  exists s' replies, finish_deposit_discovery s closed w result = Ok (s', replies)
    /\ chain_inv s' (match result with
                     | Some r => if dw_generation w =? bitcoin_generation (mo_tracker s) then discovered w r facts else facts
                     | None => facts
                     end)
    /\ same_scans s s' /\ Forall refused replies.
Proof.
  intros Hc Hd Hr. unfold finish_deposit_discovery. destruct result as [result|]; [|by eexists _, _].
  destruct (Z.eqb_spec (dw_generation w) (bitcoin_generation (mo_tracker s))) as [Eg|]; cbn [negb]; [|by eexists _, _].
  destruct (resolved_ok s facts w result Hc (di_synced _ _ Hd Eg)) as (t & status & -> & Hc1 & Hg & Hst); [congruence|done|].
  cbn [mbind outcome_bind]. set (facts' := discovered w result facts) in *.
  set (s1 := with_pending (with_tracker s t) (delete (dw_group w) (pending_deposit_checks s))).
  assert (chain_inv s1 facts') as Hc2.
  { apply pending_step; [done|]. intros g l [_ H]%lookup_delete_Some. by eapply (ci_pending _ _ Hc). }
  change (mo_tip s1) with (mo_tip s). destruct (mo_tip s) as [tip|] eqn:Etip.
  - destruct (start_checks_ok facts' closed tip status (default [] (pending_deposit_checks s !! dw_group w)) s1 [])
      as (Hc3 & [? ? ?] & Hrep); [done|by apply (ci_tip _ _ Hc2)|done| |].
    { destruct (pending_deposit_checks s !! dw_group w) as [l|] eqn:El; [|done]. cbn.
      apply Forall_forall. intros r Hin. pose proof (ci_pending _ _ Hc _ _ El) as Hl. rewrite Forall_forall in Hl.
      destruct status as [st|]; [|done]. rewrite (Hl r Hin). destruct Hst as [? [? _]]. done. }
    unfold start_checks. destruct (fold_left _ _ _) as [s2 rep] eqn:Ef. eexists _, _. split; [done|].
    split_and!; [done| |done]. split; [by etrans|done..].
  - eexists _, _. split; [done|]. split_and!; [done|by split|]. apply Forall_forall.
    intros r (x & -> & _)%list_elem_of_fmap. by eexists.
Qed.

(** *** Blocks *)

Lemma block_ok s facts g cp block :
  chain_inv s facts ->
  exists t b, apply_block_if_current (mo_tracker s) g cp block = Ok (t, b)
    /\ chain_inv (with_tracker s t)
         (if g =? bitcoin_generation (mo_tracker s) then SawBlock cp block :: facts else facts)
    /\ bitcoin_generation t = bitcoin_generation (mo_tracker s)
    /\ forall o, waited_for (with_tracker s t) o = true ->
         waited_for s o = true /\ (g = bitcoin_generation (mo_tracker s) -> tx_in block o.1 = None).
Proof.
  intros Hc. unfold apply_block_if_current. rewrite Z.eqb_sym.
  destruct (Z.eqb_spec g (bitcoin_generation (mo_tracker s))) as [->|Hne]; cbn [negb].
  2:{ eexists _, _. split; [done|]. split_and!; [|done|by intros].
      by eapply chain_tracker; try done; [apply Hc|apply Hc]. }
  destruct (apply_block_inv cp block (mo_tracker s) (ci_tracker _ _ Hc)) as (t & b & -> & Hi & [_ _ Hg _] & Hm & _).
  eexists _, _. split; [done|].
  assert (forall o e, entries t !! o = Some e -> exists e0, entries (mo_tracker s) !! o = Some e0
    /\ e = after_scan cp block o e0) as Hm'.
  { intros o e. rewrite Hm. intros (e0 & He & E)%fmap_Some. exists e0. by split. }
  split_and!; [|done|].
  - eapply chain_tracker; try done; [set_solver|]. intros o e (e0 & He0 & ->)%Hm'.
    pose proof (ci_entries _ _ Hc o e0 He0) as Hok. unfold after_scan.
    assert (status_ok s (SawBlock cp block :: facts) o (e_status e0)) as Hold
      by (eapply status_ok_mono; [..|exact Hok]; [set_solver|done]).
    destruct (is_scan_candidate (e_status e0)); [|done]. destruct (tx_in block o.1) as [tx|] eqn:Et; [|done].
    apply (scanned_ok s _ o cp block tx); [set_solver|done].
  - intros o. unfold waited_for. cbn. destruct (entries t !! o) as [e|] eqn:He; [|done].
    apply Hm' in He as (e0 & He0 & ->). rewrite He0. unfold after_scan.
    destruct (is_scan_candidate (e_status e0)) eqn:Hcand; [|by rewrite Hcand].
    destruct (tx_in block o.1) as [tx|]; [|done]. cbn. by rewrite scanned_not_candidate.
Qed.

Lemma start_next_inv s facts since :
  chain_inv s facts -> mo_scan_worker s = None -> none_missed s facts since ->
  monitor_inv (start_next_block_scan s) facts since.
Proof.
  intros Hc Hw Hn. destruct (start_next_spec s) as (w & q & -> & Hq & Hok). rewrite Hw in Hok. split.
  - by apply chain_scan.
  - by apply Hok.
  - intros o cp Ho Hcp. change (waited_for s o = true) in Ho.
    apply (covered_mono s _ facts); [done| |by apply Hn].
    cbn. rewrite (Hq (waited_candidates _ _ _ Hc Ho)). done.
Qed.

(** Joining the scan: a block that was fetched is scanned, any other waits again. *)
Lemma scan_turn s facts since result :
  monitor_inv s facts since ->
  exists s', scan_joined s result = Ok s'
    /\ monitor_inv s' (facts_after s facts (TurnScanJoined result)) (since_after s since (TurnScanJoined result)).
Proof.
  intros [Hc Hok Hn]. unfold scan_joined. cbn [facts_after since_after]. unfold scan_ok in Hok.
  assert (none_missed s facts (fun o => if waited_for s o then since o else [])) as Hn'.
  { intros o cp Ho. rewrite Ho. by apply Hn. }
  destruct (mo_scan_worker s) as [w|] eqn:Ew.
  2:{ exists s. split; [done|]. replace (match result with ScanFetched _ => facts | _ => facts end) with facts by by destruct result.
      split; [done| |done]. unfold scan_ok. by rewrite Ew. }
  destruct Hok as [Hle Hhead]. set (s0 := with_scan s None (block_scan_queue s)).
  assert (chain_inv s0 facts) as Hc0 by by apply chain_scan.
  assert (exists s', (self ← Ok (E:=Empty_set) s0; Ok (start_next_block_scan self)) = Ok s'
    /\ monitor_inv s' facts (fun o => if waited_for s o then since o else [])) as Hsame.
  { cbn [mbind outcome_bind]. eexists. split; [done|]. apply start_next_inv; [done|done|].
    intros o cp Ho Hcp. apply (covered_mono s s0 facts); [done|done|by apply Hn']. }
  unfold finish_block_scan. change (mo_tracker s0) with (mo_tracker s).
  destruct (Z.eqb_spec (sw_generation w) (bitcoin_generation (mo_tracker s))) as [Eg|Hne]; cbn [negb].
  2:{ destruct result; apply Hsame. }
  specialize (Hhead Eg). destruct (block_scan_queue s) as [|front rest] eqn:Eq; [done|]. injection Hhead as ->.
  destruct result as [block| |]; [| |exact Hsame].
  - set (s1 := with_queue s0 (tail (block_scan_queue s0))).
    assert (chain_inv s1 facts) as Hc1 by by apply (chain_scan s None rest).
    destruct (block_ok s1 facts (sw_generation w) (sw_checkpoint w) block Hc1) as (t & b & -> & Hc2 & Hg2 & Hw2).
    change (mo_tracker s1) with (mo_tracker s) in *. rewrite Eg, Z.eqb_refl in Hc2. cbn [mbind outcome_bind].
    eexists. split; [done|]. apply start_next_inv; [done|done|]. intros o cp Ho.
    destruct (Hw2 o Ho) as [Ho' Hnone]. change (waited_for s1 o) with (waited_for s o) in Ho'. unfold since_after. rewrite Ho'. intros Hcp.
    specialize (Hn o cp Ho' Hcp). destruct Hn as [Hq|(bl & Hbl & Ht)].
    + rewrite Eq in Hq. cbn in Hq. apply elem_of_cons in Hq as [->|Hq]; [|by left].
      right. exists block. split; [set_solver|by apply Hnone].
    + right. exists bl. split; [set_solver|done].
  - cbn [mbind outcome_bind]. eexists. split; [done|]. apply start_next_inv.
    + by apply (chain_scan s None).
    + done.
    + intros o cp Ho Hcp. apply (covered_mono s _ facts); [done| |by apply Hn'].
      rewrite Eq. cbn. rewrite fmap_app. cbn. set_solver.
Qed.

(** A block fetched by a discovery. *)
Lemma fetched_turn s facts since g cp block :
  monitor_inv s facts since ->
  exists s', ('(t, _) ← apply_block_if_current (mo_tracker s) g cp block; Ok (with_tracker s t, []))
               = Ok (E:=Empty_set) (s', [] : list (nat * outcome DepositConfirmError DepositConfirmation))
    /\ monitor_inv s' (facts_after s facts (TurnFetched g cp block)) (since_after s since (TurnFetched g cp block)).
Proof.
  intros Hinv. destruct (block_ok s facts g cp block (mi_chain _ _ _ Hinv)) as (t & b & -> & Hc & Hg & _).
  cbn [mbind outcome_bind]. eexists. split; [done|]. eapply inv_kept; try done. cbn.
  destruct (g =? _); set_solver.
Qed.

(** *** The chain *)

Lemma inv_moved s s' facts facts' since :
  monitor_inv s facts since -> chain_inv s' facts' -> same_scans s s' -> facts ⊆ facts' ->
  (forall o, waited_for s' o = waited_for s o) -> monitor_inv s' facts' since.
Proof.
  intros [_ Ho Hn] Hc [Hg Hw Hq] Hf Hwt. split; [done| |].
  - unfold scan_ok in *. by rewrite Hw, Hq, Hg.
  - intros o cp. rewrite Hwt. intros H Hcp. apply (covered_mono s s' facts); [done|by rewrite Hq|by apply Hn].
Qed.

Lemma missed_ext s facts since since' :
  (forall o, since' o = since o) -> monitor_inv s facts since -> monitor_inv s facts since'.
Proof. intros E [? ? Hn]. split; [done..|]. intros o cp Ho. rewrite E. by apply Hn. Qed.

(** A block is queued unless nothing is waited for. *)
Lemma queue_scan_inv s facts since cp :
  monitor_inv s facts since ->
  monitor_inv (queue_block_scan s cp) facts (fun o => since o ++ [cp])
  /\ mo_synced (queue_block_scan s cp) = mo_synced s.
Proof.
  intros [Hc Hok Hn]. unfold queue_block_scan. destruct (has_scan_candidates (mo_tracker s)) eqn:Hcand; cbn [negb].
  2:{ split; [|done]. split; [done..|]. intros o cp' Ho. pose proof (waited_candidates _ _ _ Hc Ho). congruence. }
  set (s1 := with_queue s _). destruct (start_next_spec s1) as (w & q & -> & Hq & Hok1). split; [|done]. split.
  - apply chain_scan. by apply (chain_scan s (mo_scan_worker s)).
  - apply Hok1. unfold scan_ok in *. cbn. destruct (mo_scan_worker s) as [w0|]; [|done].
    destruct Hok as [? Hh]. split; [done|]. intros E. specialize (Hh E). by destruct (block_scan_queue s).
  - intros o cp' Ho Hcp. change (waited_for s o = true) in Ho. unfold covered. cbn. rewrite (Hq Hcand). cbn.
    rewrite fmap_app. cbn. apply elem_of_app in Hcp as [Hcp|Hcp].
    + destruct (Hn o cp' Ho Hcp) as [?|?]; [left; set_solver|by right].
    + left. set_solver.
Qed.

Lemma queue_scans_inv accepted : forall s facts since,
  monitor_inv s facts since ->
  monitor_inv (fold_left (fun self h => queue_block_scan self (hd_checkpoint h)) accepted s) facts
    (fun o => since o ++ (hd_checkpoint <$> accepted)).
Proof.
  induction accepted as [|h accepted IH]; intros s facts since Hinv; cbn.
  - eapply missed_ext; [|exact Hinv]. intros o. by rewrite app_nil_r.
  - destruct (queue_scan_inv s facts since (hd_checkpoint h) Hinv) as [H _].
    eapply missed_ext; [|apply IH, H]. intros o. cbn. by rewrite <- app_assoc.
Qed.

(** The tip is known to have been announced. *)
Lemma with_chain_inv s facts since tip synced :
  monitor_inv s facts since -> (mo_synced s = true -> synced = true) ->
  (forall t, tip = Some t -> AtTip t ∈ facts) ->
  monitor_inv (with_chain s tip synced) facts since.
Proof.
  intros Hinv Hs Ht. pose proof (mi_chain _ _ _ Hinv) as Hc. eapply inv_moved; try done.
  pose proof Hc as [Hi He _ _ Hp _]. apply (chain_step s _ facts); try done; try (by left).
  intros o e H. eapply status_ok_mono; [done| |by eapply He]. done.
Qed.

Lemma set_tip_ok s facts since tip :
  monitor_inv s facts since ->
  exists s', set_monitor_tip s tip = Ok s' /\ monitor_inv s' facts since /\ mo_synced s' = mo_synced s.
Proof.
  intros Hinv. pose proof (mi_chain _ _ _ Hinv) as Hc. unfold set_monitor_tip.
  destruct (set_tip_inv (mo_tracker s) tip (ci_tracker _ _ Hc)) as (t & b & -> & Hi & _ & Hm & _ & Hg & _).
  cbn [mbind outcome_bind]. eexists. split; [done|]. split; [|done]. eapply inv_moved; try done.
  - eapply chain_tracker; try done. intros o e. rewrite Hm. apply (ci_entries _ _ Hc).
  - intros o. unfold waited_for. cbn. by rewrite Hm.
Qed.

Lemma add_fact s facts since f : monitor_inv s facts since -> monitor_inv s (f :: facts) since.
Proof.
  intros Hinv. eapply inv_moved; try done; [|set_solver]. eapply chain_mono; [by apply Hinv|set_solver].
Qed.

Lemma forget_unwaited s facts since :
  monitor_inv s facts since -> monitor_inv s facts (fun o => if waited_for s o then since o else []).
Proof. intros [? ? Hn]. split; [done..|]. intros o cp Ho. rewrite Ho. by apply Hn. Qed.

Lemma connected_turn s facts since header :
  monitor_inv s facts since ->
  exists s' replies, process_chain_update s (Connected header) = Ok (s', replies)
    /\ monitor_inv s' (facts_after s facts (TurnChain (Connected header)))
         (since_after s since (TurnChain (Connected header)))
    /\ Forall refused replies.
Proof.
  intros Hinv. cbn [process_chain_update facts_after]. set (cp := hd_checkpoint header).
  set (s1 := with_chain _ _ _).
  assert (monitor_inv s1 (AtTip cp :: facts) (fun o => if waited_for s o then since o else [])) as H1.
  { apply with_chain_inv; [by apply add_fact, forget_unwaited|done|]. intros t [= <-]. set_solver. }
  change (mo_synced s1) with (mo_synced s). destruct (mo_synced s) eqn:Es.
  - destruct (set_tip_ok s1 _ _ cp H1) as (s2 & -> & H2 & _). cbn [mbind outcome_bind]. eexists _, _.
    split; [done|]. split; [|done]. destruct (queue_scan_inv s2 _ _ cp H2) as [H3 _].
    eapply missed_ext; [|exact H3]. intros o. unfold since_after. by rewrite Es.
  - eexists _, _. split; [done|]. split; [|done]. eapply missed_ext; [|exact H1]. intros o. unfold since_after. by rewrite Es.
Qed.

(** Entries, workers and callers after the chain changed under them. *)
Lemma chain_bump s facts t s' facts' :
  chain_inv s facts -> tracker_inv t -> mo_tracker s' = t ->
  bitcoin_generation t = bitcoin_generation (mo_tracker s) + 1 ->
  mo_check_workers s' = mo_check_workers s -> mo_discovery_workers s' = mo_discovery_workers s ->
  pending_deposit_checks s' = ∅ -> mo_tip s' = None ->
  (forall o e, entries t !! o = Some e -> status_ok s' facts' o (e_status e)) ->
  chain_inv s' facts'.
Proof.
  intros [_ _ Hc Hd _ _] Hi Et Hg Ec Ed Ep Etip He. split; rewrite ?Et, ?Ec, ?Ed, ?Ep, ?Etip; try done.
  - eapply Forall_impl; [exact Hc|]. intros w [? ? _ _]. split; rewrite ?Et; try done; lia.
  - eapply Forall_impl; [exact Hd|]. intros w [? _ ?]. split; rewrite ?Et; try done; lia.
Qed.

(** The scans after the chain changed: the worker's result will not count. *)
Lemma scan_bump s s' :
  scan_ok s -> mo_scan_worker s' = mo_scan_worker s ->
  bitcoin_generation (mo_tracker s') = bitcoin_generation (mo_tracker s) + 1 ->
  (block_scan_queue s = [] -> block_scan_queue s' = []) -> scan_ok s'.
Proof.
  unfold scan_ok. intros Hok -> Hg Hq. destruct (mo_scan_worker s) as [w|]; [|by apply Hq].
  destruct Hok as [? _]. split; lia.
Qed.

(** The reorganization itself, before the new blocks. *)
Lemma disconnect_inv s facts since disconnected :
  monitor_inv s facts since -> bitcoin_generation (mo_tracker s) < u64_max ->
  exists t b, apply_reorg (mo_tracker s) disconnected = Ok (t, b)
    /\ monitor_inv
         (with_tracker
            (with_chain (drop_disconnected_block_scans (cancel_deposit_workers s).1 disconnected) None (mo_synced s)) t)
         (List.filter (survives disconnected) facts)
         (fun o => List.filter (fun cp => negb (bool_decide (cp ∈ disconnected)))
                     (if waited_for s o then since o else [])).
Proof.
  intros [Hc Hok Hn] Hroom.
  destruct (reorg_inv (mo_tracker s) disconnected (ci_tracker _ _ Hc) Hroom) as (t & -> & Hi & Hg & _ & _ & _ & Hm).
  eexists _, _. split; [done|]. split.
  - apply (chain_bump s facts t); try done. intros o e. rewrite Hm. intros (e0 & <- & He)%lookup_fmap_Some.
    pose proof (ci_entries _ _ Hc o e0 He) as [H1 H2]. unfold after_reorg.
    destruct (e_status e0) as [| | |cp cb out|cp] eqn:Es; cbn; rewrite ?Es; try by split.
    + destruct (decide (cp ∈ disconnected)); cbn; [apply unchecked_ok|]. rewrite Es.
      split; [|done]. intros _. by apply seen_survives, H1.
    + destruct (decide (cp ∈ disconnected)); cbn; [apply unchecked_ok|]. rewrite Es. by split.
  - apply (scan_bump s); [done|done|done|]. cbn. by intros ->.
  - intros o cp _ [Hcp Hdis]%elem_filter. destruct (waited_for s o) eqn:Ho; [|set_solver].
    destruct (Hn o cp Ho Hcp) as [Hq|(block & Hb & Ht)].
    + left. cbn. apply list_elem_of_fmap in Hq as ([cp' r] & -> & Hq). apply list_elem_of_fmap.
      exists (cp', r). split; [done|]. by apply elem_filter.
    + right. exists block. split; [|done]. by apply elem_filter.
Qed.

Lemma invalidated_refused (l : list Request) :
  Forall refused ((fun r => (rq_id r, Err (OtherFailure Invalidated))) <$> l).
Proof. apply Forall_forall. intros r (x & -> & _)%list_elem_of_fmap. by eexists. Qed.

Lemma last_none (l : list Header) : list.last l = None -> l = [].
Proof. by rewrite last_None. Qed.

Lemma reorganized_turn s facts since accepted reorganized :
  monitor_inv s facts since -> bitcoin_generation (mo_tracker s) < u64_max ->
  let t := TurnChain (Reorganized accepted reorganized) in
  exists s' replies, process_chain_update s (Reorganized accepted reorganized) = Ok (s', replies)
    /\ monitor_inv s' (facts_after s facts t) (since_after s since t) /\ Forall refused replies.
Proof.
  intros Hinv Hroom turn. subst turn. unfold process_chain_update, facts_after. cbv zeta beta.
  set (disconnected := hd_checkpoint <$> reorganized).
  destruct (disconnect_inv s facts since disconnected Hinv Hroom) as (t & b & Er & H1).
  unfold cancel_deposit_workers in *. cbn [fst] in H1.
  change (mo_tracker (with_chain _ _ _)) with (mo_tracker s). rewrite Er. cbn [mbind outcome_bind].
  change (mo_synced (with_pending s ∅)) with (mo_synced s).
  set (s1 := with_tracker _ t) in *. set (rep := _ <$> _). assert (Forall refused rep) as Hrep by apply invalidated_refused.
  destruct (new_tip accepted reorganized) as [tip|] eqn:Etip.
  - change (mo_synced s1) with (mo_synced s).
    destruct (set_tip_ok (with_chain s1 (Some tip) (mo_synced s)) (AtTip tip :: List.filter (survives disconnected) facts)
      (fun o => List.filter (fun cp => negb (bool_decide (cp ∈ disconnected))) (if waited_for s o then since o else [])) tip)
      as (s2 & -> & H2 & Es2).
    { apply with_chain_inv; [by apply add_fact|done|]. intros t' [= <-]. set_solver. }
    cbn [mbind outcome_bind]. eexists _, _. split; [done|]. split; [|done]. rewrite Es2. cbn [mo_synced with_chain].
    unfold since_after. fold disconnected. destruct (mo_synced s).
    + apply queue_scans_inv, H2.
    + eapply missed_ext; [|exact H2]. intros o. by rewrite app_nil_r.
  - eexists _, _. split; [done|]. split; [|done]. eapply missed_ext; [|exact H1]. intros o. unfold since_after.
    fold disconnected. unfold new_tip in Etip. destruct (list.last accepted) eqn:El; [done|].
    apply last_none in El as ->. cbn. by destruct (mo_synced s); rewrite app_nil_r.
Qed.

Lemma restart_turn s facts since :
  monitor_inv s facts since -> bitcoin_generation (mo_tracker s) < u64_max ->
  exists s' replies, reset_bitcoin_state_for_restart s = Ok (s', replies)
    /\ monitor_inv s' [] (fun _ => []) /\ Forall refused replies.
Proof.
  intros [Hc Hok _] Hroom. unfold reset_bitcoin_state_for_restart, cancel_deposit_workers.
  destruct (reset_inv (mo_tracker s) (ci_tracker _ _ Hc) Hroom) as (t & Er & Hi & Hg & _ & _ & _ & Hm).
  change (mo_tracker (with_queue _ _)) with (mo_tracker s). rewrite Er. cbn [mbind outcome_bind].
  eexists _, _. split; [done|]. split; [|apply invalidated_refused]. split.
  - apply (chain_bump s facts t); try done. intros o e. rewrite Hm. intros (e0 & <- & He)%lookup_fmap_Some.
    apply unchecked_ok.
  - by apply (scan_bump s).
  - intros o cp _ Hcp. by apply not_elem_of_nil in Hcp.
Qed.

(** ** Every turn *)

(** The reply of a check that ended on the chain it was started on. *)
Definition checked (s : Monitor) (t : Turn) (r : nat * outcome DepositConfirmError DepositConfirmation) : Prop :=
  exists i e w, t = TurnCheckJoined i e /\ mo_check_workers s !! i = Some w
    /\ cw_generation w = bitcoin_generation (mo_tracker s)
    /\ rq_id (cw_request w) = r.1 /\ check_worker_result w e = Some r.2.

Lemma all_refused s t l : Forall refused l -> Forall (fun r => refused r \/ checked s t r) l.
Proof. intros H. eapply Forall_impl; [exact H|]. by left. Qed.

Lemma check_turn s facts since i e :
  monitor_inv s facts since ->
  exists s' replies, turn s (TurnCheckJoined i e) = Ok (s', replies)
    /\ monitor_inv s' facts (since_after s since (TurnCheckJoined i e))
    /\ Forall (fun r => refused r \/ checked s (TurnCheckJoined i e) r) replies.
Proof.
  intros Hinv. pose proof (mi_chain _ _ _ Hinv) as Hc. cbn [turn].
  destruct (mo_check_workers s !! i) as [w|] eqn:Ew.
  2:{ eexists _, _. split; [done|]. split; [|done]. by eapply inv_kept. }
  eexists _, _. split; [done|]. split.
  - eapply inv_kept; try done. by apply without_check_ok.
  - unfold finish_deposit_check. change (mo_tracker (without_check s i)) with (mo_tracker s).
    destruct (check_worker_result w e) as [result|] eqn:Er; [|done].
    destruct (Z.eqb_spec (cw_generation w) (bitcoin_generation (mo_tracker s))); apply Forall_singleton.
    + right. by exists i, e, w.
    + left. by eexists.
Qed.

Lemma turn_ok s facts since t :
  monitor_inv s facts since -> turn_allowed s t ->
  exists s' replies, turn s t = Ok (s', replies)
    /\ monitor_inv s' (facts_after s facts t) (since_after s since t)
    /\ Forall (fun r => refused r \/ checked s t r) replies.
Proof.
  intros Hinv Hal. pose proof (mi_chain _ _ _ Hinv) as Hc.
  destruct t as [[header|accepted reorganized|header]|tip|closed slot request|i e|closed i result|result| |desired|r o|r|g cp block];
    cbn [turn].
  - destruct (connected_turn s facts since header Hinv) as (s' & rep & -> & ? & ?). eauto 10 using all_refused.
  - destruct (reorganized_turn s facts since accepted reorganized Hinv Hal) as (s' & rep & -> & ? & ?). eauto 10 using all_refused.
  - eexists _, _. split; [done|]. split; [by eapply inv_kept|done].
  - unfold process_synced. destruct (set_tip_ok (with_chain s (Some tip) true) (AtTip tip :: facts)
      (fun o => if waited_for s o then since o else []) tip) as (s' & -> & ? & _).
    { apply with_chain_inv; [by apply add_fact, forget_unwaited|done|]. intros t' [= <-]. set_solver. }
    eexists _, _. split; [done|]. by split.
  - destruct (confirm_ok s facts closed slot request Hc Hal) as (s' & rep & -> & Hc' & Hs & Hr).
    eexists _, _. split; [done|]. split; [by eapply inv_kept|by apply all_refused].
  - by apply check_turn.
  - destruct (mo_discovery_workers s !! i) as [w|] eqn:Ew.
    + pose proof (ci_discoveries _ _ Hc) as Hd. rewrite Forall_forall in Hd.
      assert (discovery_ok (without_discovery_worker s i) w) as Hw.
      { eapply discovery_ok_mono; [..|by eapply Hd, list_elem_of_lookup_2]; done. }
      destruct (discovery_turn (without_discovery_worker s i) facts closed w result) as (s' & rep & -> & Hc' & [? ? ?] & Hr);
        [by apply without_discovery_ok|done|done|].
      eexists _, _. split; [done|]. split; [|by apply all_refused].
      cbn [facts_after]. rewrite Ew. change (mo_tracker (without_discovery_worker s i)) with (mo_tracker s) in Hc'.
      destruct result as [[st|err]|]; (eapply inv_kept; [exact Hinv| |by split| |done]); try done.
      * destruct (_ =? _); set_solver.
      * by destruct (_ =? _).
    + eexists _, _. split; [done|]. split; [|done]. cbn [facts_after]. rewrite Ew.
      destruct result as [[st|err]|]; by eapply inv_kept.
  - destruct (scan_turn s facts since result Hinv) as (s' & -> & ?). eexists _, _. split; [done|]. by split.
  - destruct (restart_turn s facts since Hinv Hal) as (s' & rep & -> & ? & ?). eauto 10 using all_refused.
  - destruct (replace_requests_inv (mo_tracker s) desired (ci_tracker _ _ Hc)) as (t' & b & -> & Hi & _ & Hg & _ & _ & _ & Hst).
    eexists _, _. split; [done|]. split; [by apply requests_turn|done].
  - destruct (upsert_request_inv (mo_tracker s) r o (ci_tracker _ _ Hc)) as (t' & b & -> & Hi & _ & Hg & _ & _ & _ & Hst).
    eexists _, _. split; [done|]. split; [by apply requests_turn|done].
  - destruct (remove_request_inv (mo_tracker s) r (ci_tracker _ _ Hc)) as (t' & b & -> & Hi & _ & Hg & _ & _ & _ & _ & Hst).
    eexists _, _. split; [done|]. split; [by apply requests_turn|done].
  - destruct (fetched_turn s facts since g cp block Hinv) as (s' & -> & ?). eexists _, _. split; [done|]. by split.
Qed.

Lemma monitor_new_inv instrumented : monitor_inv (monitor_new (tracker_new instrumented)) [] (fun _ => []).
Proof.
  split; [|done|].
  - split; try done. apply tracker_new_inv.
  - intros o cp _ H. by apply not_elem_of_nil in H.
Qed.

Lemma monitor_run_inv s facts since : monitor_run s facts since -> monitor_inv s facts since.
Proof.
  induction 1 as [|s facts since t s' replies _ IH Hal H]; [apply monitor_new_inv|].
  destruct (turn_ok s facts since t IH Hal) as (s1 & rep & H1 & Hinv & _). rewrite H in H1. by injection H1 as <- _.
Qed.

(** * What the Bitcoin monitor promises

    A deposit is confirmed only as it was seen on the chain that is current and unspent there;
    no block that is connected while a deposit is waited for escapes the scan; no turn
    panics. *)

(** ** The worker of a check *)

(** Core stands at the block Kyoto had as its tip, does not move while it is asked, and has the
    output unspent there, mempool included. *)
Definition unspent_at (core : CoreAnswers) (tip : HashCheckpoint) : Prop :=
  block_hash_at core (cp_height tip) = Some (cp_hash tip)
  /\ exists hash, best_block core = Some hash /\ best_block_again core = Some hash
     /\ tx_out_with_mempool core = Some (Some (Some hash)).

Lemma unspent_exact core tip o txout txout' :
  check_unspent_at_tip core tip o txout = Ok (DepositConfirmed txout') <->
  txout' = txout /\ unspent_at core tip.
Proof.
  unfold check_unspent_at_tip, require_core_checkpoint, unspent_at.
  unfold answered, guard. split.
  - destruct (best_block core) as [h|]; cbn; [|done].
    destruct (block_hash_at core (cp_height tip)) as [b|]; cbn; [|done].
    destruct (Z.eqb_spec b (cp_hash tip)) as [->|]; cbn; [|done].
    destruct (tx_out_with_mempool core) as [[response|]|]; cbn; [| |done].
    + destruct (best_block_again core) as [h'|]; cbn; [|done]. destruct (Z.eqb_spec h' h) as [->|]; cbn; [|done].
      destruct response as [best|]; cbn; [|done]. destruct (Z.eqb_spec best h) as [->|]; cbn; [|done].
      intros H. injection H as <-. split; [done|]. split; [done|by exists h].
    + destruct (tx_out_confirmed core) as [conf|]; cbn; [|done].
      destruct (best_block_again core) as [h'|]; cbn; [|done]. destruct (h' =? h); cbn; [|done]. by destruct conf.
  - intros (-> & -> & h & -> & -> & ->). cbn. by rewrite !Z.eqb_refl.
Qed.

(** When a check confirms. *)
Lemma confirmed_exact core status tip threshold o expected txout :
  check_result_from_status core status tip threshold o expected = Ok (DepositConfirmed txout) <->
  txout = expected /\ unspent_at core tip
  /\ exists cp is_coinbase, status = InBlock cp is_coinbase (Kept expected)
     /\ effective_deposit_confirmation_threshold threshold is_coinbase
        <= confirmations (cp_height cp) (cp_height tip).
Proof.
  unfold check_result_from_status.
  destruct status as [| | |cp cb [out|v scr len]|cp]; try (split; [done|by intros (_ & _ & ? & ? & ? & _)]).
  destruct (decide (out = expected)) as [->|Hne].
  2:{ split; [done|]. intros (_ & _ & ? & ? & E & _). congruence. }
  destruct (Z.ltb_spec (confirmations (cp_height cp) (cp_height tip))
              (effective_deposit_confirmation_threshold threshold cb)) as [Hlt|Hge].
  - split; [done|]. intros (_ & _ & cp' & cb' & E & H). injection E as <- <-. lia.
  - rewrite unspent_exact. split; [intros [-> H]; split_and!; [done|done|by exists cp, cb]|by intros (-> & H & _)].
Qed.

(** Only the status nothing is known of panics. *)
Lemma check_no_panic core status tip threshold o expected :
  status <> Unchecked -> check_result_from_status core status tip threshold o expected <> Panic.
Proof.
  intros Hs. unfold check_result_from_status, check_unspent_at_tip, require_core_checkpoint, answered, guard.
  destruct status as [| | |cp cb [out|v scr len]|cp]; try done. destruct (decide _); [|done]. cbn zeta.
  repeat match goal with |- context [match ?x with _ => _ end] => destruct x; cbn; try done end.
Qed.

(** ** The worker of a discovery *)

(** A discovery names the block the transaction was looked up in, and never ends unchecked. *)
Lemma discover_in_block lookup cached tracker fetched o status :
  discover_deposit lookup cached tracker fetched o = Ok status ->
  match status with
  | Unchecked => False
  | NotFound => lookup = Ok TxNotFound
  | InMempool => lookup = Ok TxInMempool
  | InBlock cp _ _ | InvalidVout cp => lookup = Ok (TxConfirmed cp)
  end.
Proof.
  unfold discover_deposit. destruct lookup as [found| |]; cbn; [|done..].
  destruct found as [cp| |]; [|by intros H; injection H as <-..].
  assert (forall tx, Ok (E:=DepositConfirmError) (scanned_status cp tx o) = Ok status ->
    match status with
    | Unchecked => False
    | NotFound => Ok (TxConfirmed cp) = Ok (E:=DepositConfirmError) TxNotFound
    | InMempool => Ok (TxConfirmed cp) = Ok (E:=DepositConfirmError) TxInMempool
    | InBlock cp' _ _ | InvalidVout cp' => Ok (TxConfirmed cp) = Ok (E:=DepositConfirmError) (TxConfirmed cp')
    end) as Hscan.
  { intros tx H. injection H as <-. unfold scanned_status. by destruct (_ !! _). }
  destruct cached as [tx|]; [apply Hscan|]. destruct (recorded_in_block tracker o cp) as [st|] eqn:E.
  - intros H. injection H as <-. unfold recorded_in_block in E. destruct (recorded_status tracker o) as [st'|]; [|done].
    cbn in E. destruct st'; try done; destruct (decide _); try done; injection E as <-; by subst.
  - destruct (fetched cp) as [tx|]; cbn; [apply Hscan|done].
Qed.

(** ** Theorems *)


(** C24: no block escapes the scan while a deposit is waited for.  For an outpoint that is not
    yet in a block, every block connected since it is waited for, and not disconnected since,
    is either still in the queue of scans or was scanned without its transaction, whatever
    scans failed, were cancelled or were overtaken by a reorganization; the queue is never
    left without a scan that runs, the one that runs on the current chain is of the block at
    its front, and an outpoint is taken for absent only while the chain is followed.  No
    turn and no check panics. *)
Theorem no_block_missed s facts since :
  monitor_run s facts since ->
  (forall o e cp, entries (mo_tracker s) !! o = Some e -> is_scan_candidate (e_status e) = true ->
     cp ∈ since o ->
     cp ∈ (block_scan_queue s).*1 \/ exists block, SawBlock cp block ∈ facts /\ tx_in block o.1 = None)
  /\ (block_scan_queue s <> [] -> is_Some (mo_scan_worker s))
  /\ (forall w, mo_scan_worker s = Some w -> sw_generation w = bitcoin_generation (mo_tracker s) ->
        head (block_scan_queue s) = Some (sw_checkpoint w, sw_retry_round w))
  /\ (forall o e, entries (mo_tracker s) !! o = Some e -> is_absent (e_status e) = true -> mo_synced s = true)
  /\ (forall t, turn_allowed s t -> exists s' replies, turn s t = Ok (s', replies))
  /\ forall w core, w ∈ mo_check_workers s -> check_worker_result w (CheckAnswered core) <> Some Panic.
Proof.
  intros Hinv%monitor_run_inv. pose proof Hinv as [Hc Hok Hn]. split_and!.
  - intros o e cp He Hcand Hcp. apply (Hn o cp); [|done]. unfold waited_for. by rewrite He.
  - unfold scan_ok in Hok. destruct (mo_scan_worker s); [by eexists|done].
  - intros w Hw Hg. unfold scan_ok in Hok. rewrite Hw in Hok. by apply Hok.
  - intros o e He. apply (ci_entries _ _ Hc o e He).
  - intros t Ht. destruct (turn_ok s facts since t Hinv Ht) as (s' & r & H & _). by exists s', r.
  - intros w core Hw. pose proof (ci_checks _ _ Hc) as Hck. rewrite Forall_forall in Hck. cbn.
    intros E. injection E as E. by eapply check_no_panic, E; apply Hck.
Qed.

(** ** A history *)

Definition turn_allowedb (s : Monitor) (t : Turn) : bool :=
  match t with
  | TurnCheck _ _ _ => next_discovery_id (mo_tracker s) <? u64_max
  | TurnDiscoveryJoined _ _ (Some (inl status)) => negb (is_unchecked status)
  | TurnRestart | TurnChain (Reorganized _ _) => bitcoin_generation (mo_tracker s) <? u64_max
  | _ => true
  end.

Lemma turn_allowedb_spec s t : turn_allowedb s t = true -> turn_allowed s t.
Proof.
  destruct t as [[| |]| | | |? ? [[[]|]|]| | | | | |]; cbn; rewrite ?Z.ltb_lt; done.
Qed.

(** The state after a list of turns, with the facts and the last replies. *)
Fixpoint run_turns (s : Monitor) (facts : list Fact) (since : OutPoint -> list HashCheckpoint) (ts : list Turn)
    : option (Monitor * list Fact * (OutPoint -> list HashCheckpoint)) :=
  match ts with
  | [] => Some (s, facts, since)
  | t :: ts =>
      if turn_allowedb s t then
        match turn s t with
        | Ok (s', _) => run_turns s' (facts_after s facts t) (since_after s since t) ts
        | _ => None
        end
      else None
  end.

Lemma run_turns_run ts : forall s facts since r,
  monitor_run s facts since -> run_turns s facts since ts = Some r -> monitor_run r.1.1 r.1.2 r.2.
Proof.
  induction ts as [|t ts IH]; intros s facts since r Hrun H; cbn in H; [by injection H as <-|].
  destruct (turn_allowedb s t) eqn:Ha; [|done]. destruct (turn s t) as [[s' rep]| |] eqn:Et; [|done..].
  eapply IH; [|exact H]. eapply mr_turn; [done|by apply turn_allowedb_spec|done].
Qed.

(** A deposit that is not found; two blocks are connected, the scan of the first fails, the
    second has the deposit; then it is asked for again. *)
Definition waited : OutPoint := (7, 1).
Definition paid : TxOut := mkTxOut 900 [81].
Definition at_height (h : Z) : HashCheckpoint := mkHashCheckpoint h (1000 + h).
Definition asked : Request := mkRequest 1 waited paid 1 None.
Definition not_found_turns : list Turn :=
  [TurnUpsert 1 waited; TurnSynced (at_height 100); TurnCheck (fun _ => false) true asked;
   TurnDiscoveryJoined (fun _ => false) 0 (Some (inl NotFound));
   TurnChain (Connected (mkHeader (at_height 101) 1100)); TurnScanJoined ScanFailed;
   TurnChain (Connected (mkHeader (at_height 102) 1101))].
Definition found_turns : list Turn :=
  not_found_turns ++ [TurnScanJoined ScanFailed; TurnScanJoined (ScanFetched [(mkBlockTx false [mkTxOut 5 []; paid], 7)]);
                      TurnCheck (fun _ => false) true (mkRequest 2 waited paid 1 None)].

Definition ended_after (ts : list Turn) : Monitor * list Fact * (OutPoint -> list HashCheckpoint) :=
  default (monitor_new (tracker_new true), [], fun _ => []) (run_turns (monitor_new (tracker_new true)) [] (fun _ => []) ts).

Lemma not_found_run : monitor_run (ended_after not_found_turns).1.1 (ended_after not_found_turns).1.2 (ended_after not_found_turns).2.
Proof. eapply (run_turns_run not_found_turns); [apply (mr_new true)|vm_compute; reflexivity]. Qed.

Lemma found_run : monitor_run (ended_after found_turns).1.1 (ended_after found_turns).1.2 (ended_after found_turns).2.
Proof. eapply (run_turns_run found_turns); [apply (mr_new true)|vm_compute; reflexivity]. Qed.

(** Core at the tip, with the output unspent. *)
Definition core_at_tip : CoreAnswers :=
  mkCoreAnswers (Some 1102) (fun h => Some (1000 + h)) (Some (Some (Some 1102))) None (Some 1102).


(** The block whose scan failed is still in the queue. *)
Lemma no_block_missed_witness :
  mo_scan_worker (ended_after not_found_turns).1.1 = Some (mkScanWorker (at_height 101) 0 1)
  /\ (at_height 101 ∈ (block_scan_queue (ended_after not_found_turns).1.1).*1
      \/ exists block, SawBlock (at_height 101) block ∈ (ended_after not_found_turns).1.2
                       /\ tx_in block waited.1 = None).
Proof.
  split; [vm_compute; reflexivity|].
  apply (proj1 (no_block_missed _ _ _ not_found_run) waited (mkEntry {[1]} NotFound None));
    [vm_compute; reflexivity|reflexivity|]. vm_compute. apply list_elem_of_In. by left.
Defined.
