(* ===== verification/Deposits.v ===== *)
(** * Validating and signing deposits

    [crates/hashi/src/deposits.rs]: what a node checks of a deposit request before it signs
    that the deposit happened, on Sui, on Bitcoin and with the screening service, the address
    a deposit must pay, and which failures are tried again.

    The node is the [Signer] of [WithdrawalSigning] with the mirrored deposit queue.  The read
    of the spent set on Sui, a place in the gate of bitcoind, the Bitcoin monitor and the
    screening service are arguments; what the monitor answers is the subject of
    [BtcMonitorProofs].  The texts of errors are left out where they carry nothing. *)

From stdpp Require Import strings.
From S2P Require Import Limiter CoinSelection Committee TxUtxos Guardian MonitorDomain Withdrawals Retry WithdrawalSigning DepositTracker BtcMonitor Prelude.

(** ** Requests *)

(** [move_types::CommitteeSignature] *)
Record ApprovalCert := mkApprovalCert {
  ac_epoch : Z;
  ac_signature : list Z;
  ac_signers_bitmap : list Z;
}.

Record DepositRequest := mkDepositRequest {
  dq_id : Address;
  dq_sender : Address;
  dq_created_timestamp_ms : Z;
  dq_sui_tx_digest : list Z;
  dq_utxo : MoveUtxo;
  dq_approval_cert : option ApprovalCert;
  dq_approved_timestamp_ms : option Z;
  dq_confirmed_timestamp_ms : option Z;
}.

Record DepositConfirmationMessage := mkDepositConfirmationMessage {
  dm_request_id : Address;
  dm_utxo : MoveUtxo;
}.

(** ** Errors *)

Inductive UnapprovedDepositError :=
| BitcoinConfirmFailed (e : DepositConfirmError)
| BitcoindBusy
| BitcoinNotConfirmed (c : DepositConfirmation)
| DepositAmlServiceError
| InvalidOnchainRequest (known : bool)
| DuplicateOrSpentOnSui
| SpentUtxoLookupFailed
| BitcoinUtxoSpent
| BitcoinBeforeStartCheckpoint
| DepositDataMismatch
| DepositAddressUnavailable
| AmlRejected
| FailedQuorum (weight required_weight : Z)
| StaleCommittee (epoch peer_epoch : Z)
| CertificateBuildFailed
| ExecutorInitFailed
| ApproveDepositFailed
| SignDepositFailed
| AlreadyApprovedThisEpoch
| DepositTimedOut.

Inductive UnapprovedDepositErrorKind := RetryOnNextBlock | NeverRetryDeposit.

Definition unapproved_kind (self : UnapprovedDepositError) : UnapprovedDepositErrorKind :=
  match self with
  | BitcoinConfirmFailed _
  | BitcoindBusy
  | BitcoinNotConfirmed _
  | DepositAmlServiceError
  | DepositAddressUnavailable
  | SpentUtxoLookupFailed
  | FailedQuorum _ _
  | StaleCommittee _ _
  | CertificateBuildFailed
  | ExecutorInitFailed
  | ApproveDepositFailed
  | SignDepositFailed
  | AlreadyApprovedThisEpoch
  | DepositTimedOut => RetryOnNextBlock
  | InvalidOnchainRequest _
  | DuplicateOrSpentOnSui
  | BitcoinUtxoSpent
  | BitcoinBeforeStartCheckpoint
  | DepositDataMismatch
  | AmlRejected => NeverRetryDeposit
  end.

Inductive ApprovedDepositErrorKind := DKSpentUtxoLookupFailed | DKExecutorInitFailed | DKConfirmDepositFailed | DKTimedOut.

Inductive ApprovedDepositError :=
| ApprovedLookupFailed
| ApprovedExecutorInitFailed
| ConfirmDepositFailed
| ApprovedTimedOut
| CheckpointWaitTimedOut.

Definition approved_kind (self : ApprovedDepositError) : ApprovedDepositErrorKind :=
  match self with
  | ApprovedLookupFailed => DKSpentUtxoLookupFailed
  | ApprovedExecutorInitFailed => DKExecutorInitFailed
  | ConfirmDepositFailed => DKConfirmDepositFailed
  | ApprovedTimedOut | CheckpointWaitTimedOut => DKTimedOut
  end.

#[export] Instance ApprovedDepositErrorKind_eq_dec : EqDecision ApprovedDepositErrorKind.
Proof. solve_decision. Defined.

#[export] Instance approved_deposit_policy : RetryPolicy ApprovedDepositErrorKind := {
  retry_base_delay_ms _ := 3000;
  max_delay_ms _ := 30 * 60 * 1000;
  max_retries _ := u32_max;
}.

(** ** The node *)

(** [Address::from_script], addresses with their equality, and the BCS of a message. *)
Class DepositEnv `{SE : SigningEnv} := {
  address_from_script : ScriptBuf -> BtcNetwork -> option BitcoinAddress;
  address_eq_dec :: EqDecision BitcoinAddress;
  deposit_confirmation_bcs : DepositConfirmationMessage -> list Z;
}.

Section deposits.
Context `{DE : DepositEnv}.

#[export] Instance deposit_confirmation_intent : IntentMessage DepositConfirmationMessage := {|
  INTENT := Committee.DepositConfirmation; to_bcs := deposit_confirmation_bcs |}.

Record DepositNode := mkDepositNode {
  dn_signer : Signer;
  deposit_requests : gmap Address DepositRequest;
}.

Definition node_state (self : DepositNode) : OnchainState := onchain_state (sg_hashi (dn_signer self)).

#[local] Abbreviation U := (outcome UnapprovedDepositError).

(** The fields a request keeps. *)
Definition core_matches (onchain_request deposit_request : DepositRequest) : bool :=
  (dq_id onchain_request =? dq_id deposit_request)
  && (dq_sender onchain_request =? dq_sender deposit_request)
  && (dq_created_timestamp_ms onchain_request =? dq_created_timestamp_ms deposit_request)
  && bool_decide (dq_sui_tx_digest onchain_request = dq_sui_tx_digest deposit_request)
  && bool_decide (dq_utxo onchain_request = dq_utxo deposit_request).

Definition approval_epoch (request : DepositRequest) : option Z := ac_epoch <$> dq_approval_cert request.

Definition has_record (self : OnchainState) (id : OutPoint) : bool :=
  bool_decide (is_Some (utxo_records self !! id)).

Definition validate_deposit_request_on_sui (self : DepositNode) (deposit_request : DepositRequest) : U unit :=
  match deposit_requests self !! dq_id deposit_request with
  | None => Err (InvalidOnchainRequest false)
  | Some onchain_request =>
      _ ← guard (core_matches onchain_request deposit_request) (InvalidOnchainRequest true);
      _ ← guard (negb (bool_decide (approval_epoch onchain_request = Some (onchain_epoch (node_state self)))))
            AlreadyApprovedThisEpoch;
      guard (negb (has_record (node_state self) (mu_id (dq_utxo deposit_request)))) DuplicateOrSpentOnSui
  end.

(** [spent] is what the read of the spent set answers; [None] is a failure. *)
Definition validate_deposit_utxo_unspent_on_sui (spent : OutPoint -> option bool)
    (deposit_request : DepositRequest) : U unit :=
  match spent (mu_id (dq_utxo deposit_request)) with
  | None => Err SpentUtxoLookupFailed
  | Some s => guard (negb s) DuplicateOrSpentOnSui
  end.

Definition validate_deposit_address (self : DepositNode) (script : ScriptBuf)
    (expected_address : BitcoinAddress) : U unit :=
  match address_from_script script (bitcoin_network (config (sg_hashi (dn_signer self)))) with
  | None => Err DepositDataMismatch
  | Some deposit_address =>
      if decide (deposit_address = expected_address) then Ok tt else Err DepositDataMismatch
  end.

(** What the monitor answers for an outpoint, the output expected there and a threshold. *)
Definition MonitorAnswer : Type := OutPoint -> TxOut -> Z -> outcome DepositConfirmError DepositConfirmation.

(** [place] is whether the gate had a place before the deadline. *)
Definition validate_deposit_request_on_bitcoin (self : DepositNode) (place : bool)
    (monitor : MonitorAnswer) (deposit_request : DepositRequest) : U unit :=
  let utxo := dq_utxo deposit_request in
  _ ← guard place BitcoindBusy;
  match get_deposit_address (sg_hashi (dn_signer self)) (derivation_path utxo) with
  | None => Err DepositAddressUnavailable
  | Some expected_address =>
      let expected_txout := mkTxOut (mu_amount utxo) (script_pubkey expected_address) in
      match monitor (mu_id utxo) expected_txout (bitcoin_confirmation_threshold (dn_signer self)) with
      | Ok (DepositConfirmed txout) =>
          _ ← guard (value txout =? mu_amount utxo) DepositDataMismatch;
          validate_deposit_address self (out_script txout) expected_address
      | Ok c => Err (BitcoinNotConfirmed c)
      | Err (BeforeStartCheckpoint _ _ _) => Err BitcoinBeforeStartCheckpoint
      | Err (UtxoSpent _) => Err BitcoinUtxoSpent
      | Err (NoSuchVout _) | Err (OutputMismatch _ _ _) => Err DepositDataMismatch
      | Err e => Err (BitcoinConfirmFailed e)
      | Panic => Panic
      end
  end.

Definition deposit_screening_outcome (result : TrmVerdict + TrmError) : U unit :=
  match result with
  | inl TrmApproved => Ok tt
  | inl TrmPending => Err DepositAmlServiceError
  | inl TrmRejected => Err AmlRejected
  | inr TrmTransient => Err DepositAmlServiceError
  | inr TrmPermanent => Err AmlRejected
  end.

(** The screening service, if one is configured. *)
Definition Screening : Type := option (DepositRequest -> BitcoinAddress -> TrmVerdict + TrmError).

Definition screen_deposit (self : DepositNode) (trm : Screening) (deposit_request : DepositRequest) : U unit :=
  match trm with
  | None => Ok tt
  | Some screen =>
      match get_deposit_address (sg_hashi (dn_signer self)) (derivation_path (dq_utxo deposit_request)) with
      | None => Err DepositAddressUnavailable
      | Some address => deposit_screening_outcome (screen deposit_request address)
      end
  end.

Definition validate_deposit_request (self : DepositNode) (spent : OutPoint -> option bool) (place : bool)
    (monitor : MonitorAnswer) (trm : Screening) (deposit_request : DepositRequest) : U unit :=
  _ ← validate_deposit_request_on_sui self deposit_request;
  _ ← validate_deposit_utxo_unspent_on_sui spent deposit_request;
  _ ← validate_deposit_request_on_bitcoin self place monitor deposit_request;
  screen_deposit self trm deposit_request.

Definition confirmation_message (deposit_request : DepositRequest) : DepositConfirmationMessage :=
  mkDepositConfirmationMessage (dq_id deposit_request) (dq_utxo deposit_request).

Definition sign_deposit_confirmation (self : DepositNode) (deposit_request : DepositRequest)
    : outcome Refusal SignatureProto :=
  sign_message_proto (dn_signer self) (confirmation_message deposit_request).

Definition validate_and_sign_deposit_confirmation (self : DepositNode) (spent : OutPoint -> option bool)
    (place : bool) (monitor : MonitorAnswer) (trm : Screening) (deposit_request : DepositRequest)
    : U SignatureProto :=
  _ ← validate_deposit_request self spent place monitor trm deposit_request;
  match sign_deposit_confirmation self deposit_request with
  | Ok s => Ok s
  | Err _ => Err SignDepositFailed
  | Panic => Panic
  end.
End deposits.
