(* ===== verification/DepositTheorems.v ===== *)
(** * What a signature of a deposit says

    A node signs a deposit only after each of its checks passed, and the signature counts for
    exactly this request and this output; with the Bitcoin monitor's own check in place, the
    output is in a block deep enough and unspent. *)

From stdpp Require Import strings.
From S2P Require Import Limiter CoinSelection Committee CommitteeProofs TxUtxos Guardian GuardianExamples MonitorDomain Withdrawals WithdrawalExamples Retry WithdrawalSigning WithdrawalSigningProofs WithdrawalSigningExamples DepositTracker DepositTrackerProofs BtcMonitor BtcMonitorProofs Deposits Prelude.

Section deposits.
Context `{DE : DepositEnv} `{SL : !SigningEnvLaws}.

(** What a node has seen of a request it validates. *)
Record validated (self : DepositNode) (spent : OutPoint -> option bool) (monitor : MonitorAnswer)
    (trm : Screening) (req : DepositRequest) (a : BitcoinAddress) (txout : TxOut) : Prop := {
  va_request : exists onchain, deposit_requests self !! dq_id req = Some onchain
    /\ dq_id onchain = dq_id req /\ dq_sender onchain = dq_sender req
    /\ dq_created_timestamp_ms onchain = dq_created_timestamp_ms req
    /\ dq_sui_tx_digest onchain = dq_sui_tx_digest req /\ dq_utxo onchain = dq_utxo req
    /\ approval_epoch onchain <> Some (onchain_epoch (node_state self));
  va_unused : utxo_records (node_state self) !! mu_id (dq_utxo req) = None;
  va_unspent : spent (mu_id (dq_utxo req)) = Some false;
  va_address : get_deposit_address (sg_hashi (dn_signer self)) (derivation_path (dq_utxo req)) = Some a;
  va_confirmed : monitor (mu_id (dq_utxo req)) (mkTxOut (mu_amount (dq_utxo req)) (script_pubkey a))
                   (bitcoin_confirmation_threshold (dn_signer self)) = Ok (DepositConfirmed txout);
  va_amount : value txout = mu_amount (dq_utxo req);
  va_paid : address_from_script (out_script txout) (bitcoin_network (config (sg_hashi (dn_signer self)))) = Some a;
  va_screened : match trm with None => True | Some screen => screen req a = inl TrmApproved end;
}.

Lemma core_matches_spec a b :
  core_matches a b = true <->
  dq_id a = dq_id b /\ dq_sender a = dq_sender b /\ dq_created_timestamp_ms a = dq_created_timestamp_ms b
  /\ dq_sui_tx_digest a = dq_sui_tx_digest b /\ dq_utxo a = dq_utxo b.
Proof. unfold core_matches. rewrite !andb_true_iff, !Z.eqb_eq, !bool_decide_eq_true. tauto. Qed.

Lemma validate_Ok self spent place monitor trm req :
  validate_deposit_request self spent place monitor trm req = Ok tt <->
  place = true /\ exists a txout, validated self spent monitor trm req a txout.
Proof.
  unfold validate_deposit_request, validate_deposit_request_on_sui, validate_deposit_utxo_unspent_on_sui,
    validate_deposit_request_on_bitcoin, screen_deposit. split.
  - intros H. inv_ok. destruct (deposit_requests self !! dq_id req) as [onchain|] eqn:Eq; [|done].
    destruct (spent _) as [b|] eqn:Es; [|done].
    destruct (get_deposit_address _ _) as [a|] eqn:Ea; [|inv_ok].
    inv_ok. destruct (monitor _ _ _) as [[txout| | |]|e|] eqn:Em; try done; [|by destruct e].
    inv_ok. unfold validate_deposit_address in *.
    destruct (address_from_script _ _) as [a'|] eqn:Eaf; [|done]. destruct (decide (a' = a)) as [->|]; [|done].
    split; [done|]. exists a, txout. split; try done.
    + exists onchain. match goal with H : core_matches _ _ = true |- _ => apply core_matches_spec in H end.
      match goal with H : negb (bool_decide (approval_epoch _ = _)) = true |- _ =>
        rewrite negb_true_iff, bool_decide_eq_false in H end. naive_solver.
    + match goal with H : negb (has_record _ _) = true |- _ =>
        unfold has_record in H; rewrite negb_true_iff, bool_decide_eq_false in H; by apply eq_None_not_Some end.
    + by destruct b.
    + by apply Z.eqb_eq.
    + destruct trm as [screen|]; [|done]. by destruct (screen req a) as [[]|[]].
  - intros (-> & a & txout & [(onchain & Eq & Hcore) Hun Hsp Ha Hmon Hval Hpaid Hscr]).
    rewrite Eq, Hsp, Ha. cbn [guard mbind outcome_bind negb].
    assert (core_matches onchain req = true) as -> by (apply core_matches_spec; naive_solver). cbn [guard mbind outcome_bind].
    rewrite bool_decide_false by naive_solver. cbn [negb guard mbind outcome_bind]. unfold has_record. rewrite Hun.
    rewrite bool_decide_false by (by intros [? ?]). cbn [negb guard mbind outcome_bind]. cbv zeta. rewrite Hmon.
    rewrite Hval, Z.eqb_refl. cbn [guard mbind outcome_bind]. unfold validate_deposit_address.
    rewrite Hpaid, decide_True by done. cbn [mbind outcome_bind]. destruct trm as [screen|]; [|done]. by rewrite Hscr.
Qed.

(** C25: what a signature of a deposit says.  A node signs a deposit request exactly when the
    mirrored queue holds the request with the same id, sender, time, digest and output, not yet
    approved in this epoch; the output is neither in the pool nor spent on Sui; the Bitcoin
    monitor confirmed, at the threshold the chain sets, an output of exactly the amount that
    pays the bridge's own address for the request's derivation path; and the screening
    service, if there is one, approved it.  The signature is by the member of the current
    committee the node is configured as and verifies for exactly this request and output. *)
Theorem deposit_signature_sound self spent place monitor trm req sp :
  signer_wf (dn_signer self) ->
  validate_and_sign_deposit_confirmation self spent place monitor trm req = Ok sp ->
  place = true
  /\ (exists a txout, validated self spent monitor trm req a txout)
  /\ exists c m, committees (dn_signer self) !! onchain_epoch (node_state self) = Some c
     /\ member c (ms_address (sp_signature sp)) = Ok m /\ sp_public_key sp = public_key m
     /\ committee_verify c (hashi_object_id (dn_signer self))
          (mkDepositConfirmationMessage (dq_id req) (dq_utxo req)) (sp_signature sp) = Ok tt.
Proof.
  intros Hwf H. unfold validate_and_sign_deposit_confirmation in H. inv_ok. destruct v.
  apply validate_Ok in E as [Hp Hv]. split_and!; [done|done|].
  destruct (sign_deposit_confirmation self req) as [s| |] eqn:Es; [|done..]. injection H as <-.
  by apply (signed_by_member _ _ _ _ Hwf), sign_at_epoch_Ok.
Qed.

(** The check of the monitor behind it: in a block with the confirmations the chain asks for,
    as it is expected, and unspent at Core's tip. *)
Theorem deposit_signature_on_chain self spent place trm req core status tip :
  let monitor := fun o expected threshold => check_result_from_status core status tip threshold o expected in
  validate_deposit_request self spent place monitor trm req = Ok tt ->
  exists a cp is_coinbase,
    get_deposit_address (sg_hashi (dn_signer self)) (derivation_path (dq_utxo req)) = Some a
    /\ status = InBlock cp is_coinbase (Kept (mkTxOut (mu_amount (dq_utxo req)) (script_pubkey a)))
    /\ effective_deposit_confirmation_threshold (bitcoin_confirmation_threshold (dn_signer self)) is_coinbase
       <= confirmations (cp_height cp) (cp_height tip)
    /\ unspent_at core tip.
Proof.
  intros monitor [_ (a & txout & Hv)]%validate_Ok. pose proof (va_confirmed _ _ _ _ _ _ _ Hv) as H.
  apply confirmed_exact in H as (_ & Hun & cp & cb & Hs & Hc). exists a, cp, cb.
  split_and!; try done. apply (va_address _ _ _ _ _ _ _ Hv).
Qed.
End deposits.

(** ** A deposit *)

Import SmallGuardian.
#[local] Existing Instance script_units.
#[local] Existing Instance script_env.
#[local] Existing Instance checksum_signing.
#[local] Existing Instance checksum_signing_laws.

(** Addresses are scripts. *)
#[local] Instance script_deposits : DepositEnv := {|
  address_from_script s _ := Some s;
  address_eq_dec := decide_rel eq;
  deposit_confirmation_bcs m := [dm_request_id m; (mu_id (dm_utxo m)).1; mu_amount (dm_utxo m)];
|}.

Definition deposited : DepositRequest :=
  {| dq_id := 55; dq_sender := 4; dq_created_timestamp_ms := 1000; dq_sui_tx_digest := [1];
     dq_utxo := mkMoveUtxo (901, 2) 70000 (Some 4); dq_approval_cert := Some (mkApprovalCert 2 [] []);
     dq_approved_timestamp_ms := None; dq_confirmed_timestamp_ms := None |}.
Definition deposit_node : DepositNode := mkDepositNode signer {[55 := deposited]}.

(** The monitor has it in a block six below the tip. *)
Definition deep_check : MonitorAnswer := fun o expected threshold =>
  check_result_from_status core_at_tip
    (InBlock (at_height 97) false (Kept (mkTxOut 70000 (81 :: 32 :: bridge_program)))) (at_height 102) threshold o expected.

Definition deposit_signature : SignatureProto :=
  match validate_and_sign_deposit_confirmation deposit_node (fun _ => Some false) true deep_check
          (Some (fun _ _ => inl TrmApproved)) deposited with
  | Ok s => s
  | _ => mkSignatureProto (mkMemberSignature 0 0 (0 : BlsSignature)) (0 : BlsPublicKey)
  end.

Lemma deposit_signed :
  validate_and_sign_deposit_confirmation deposit_node (fun _ => Some false) true deep_check
    (Some (fun _ _ => inl TrmApproved)) deposited = Ok deposit_signature.
Proof. vm_cast_no_check (eq_refl (Ok (E:=UnapprovedDepositError) deposit_signature)). Qed.

Lemma deposit_signature_sound_witness :
  ms_address (sp_signature deposit_signature) = 12
  /\ exists a txout, validated deposit_node (fun _ => Some false) deep_check
       (Some (fun _ _ => inl TrmApproved)) deposited a txout.
Proof.
  split; [vm_compute; reflexivity|].
  apply (deposit_signature_sound deposit_node (fun _ => Some false) true deep_check
    (Some (fun _ _ => inl TrmApproved)) deposited deposit_signature signer_ok deposit_signed).
Defined.
