(* ===== verification/LeaderQuorum.v ===== *)
(** * The leader: whose turn it is, and a quorum of signatures

    [crates/hashi/src/leader/mod.rs]: which member of the committee acts at a checkpoint, and
    how the leader collects the signatures of the members for a message.

    The answers of the members are a list in the order they come in; a task that does not end
    is a missing entry.  The committee and the aggregator are those of [Committee]. *)

From S2P Require Import Bitmap Committee CommitteeProofs Retry Prelude.

(** ** Turns *)

Inductive ForceRunAsLeader := ForceDefault | ForceAlways | ForceNever.

Section leader.
Context `{BL : Bls}.

(** [halted] is [autonomous_halt_reason().is_some()].  A node without an address panics. *)
Definition node_is_leader (halted : bool) (force : ForceRunAsLeader) (committee : option Committee)
    (validator_address : option Address) (checkpoint_height : Z) : outcome Empty_set bool :=
  if halted then Ok false
  else
    match force with
    | ForceAlways => Ok true
    | ForceNever => Ok false
    | ForceDefault =>
        match committee with
        | None => Ok false
        | Some committee =>
            this_validator_address ← expect validator_address;
            match index_of committee this_validator_address with
            | None => Ok false
            | Some this_validator_idx =>
                let num_validators := Z.of_nat (length (c_members committee)) in
                Ok (leader_turn checkpoint_height mod num_validators =? Z.of_nat this_validator_idx)
            end
        end
    end.

(** ** A quorum *)

Inductive NoSignature := PeerAlreadyApproved | PeerFailed.

Inductive NoQuorum :=
| QuorumAlreadyApproved
| QuorumStaleCommittee (epoch peer_epoch : Z)
| QuorumShort (weight required_weight : Z).

(** A member's weight and its answer; [None] is a task that did not end. *)
Definition Reply : Type := option (Z * (MemberSignature + NoSignature)).

Section collect.
Context {T : Type} `{IM : IntentMessage T}.

#[local] Abbreviation Aggregator := (BlsSignatureAggregator T CommitteeWeight).

Definition enough (required_weight : Z) (aggregator : Aggregator) : outcome NoQuorum unit :=
  guard (negb (aggregator_weight aggregator <? required_weight))
    (QuorumShort (aggregator_weight aggregator) required_weight).

(** The [while] loop; a signature the aggregator refuses is logged. *)
Fixpoint collect (required_weight quorum_slack : Z) (sig_tasks : list Reply) (aggregator : Aggregator)
    (already_approved_weight newer_epoch_weight : Z) : outcome NoQuorum unit * Aggregator :=
  match sig_tasks with
  | [] => (enough required_weight aggregator, aggregator)
  | None :: sig_tasks =>
      collect required_weight quorum_slack sig_tasks aggregator already_approved_weight newer_epoch_weight
  | Some (weight, reply) :: sig_tasks =>
      let next aggregator already_approved_weight newer_epoch_weight :=
        if required_weight <=? aggregator_weight aggregator
        then (enough required_weight aggregator, aggregator)
        else collect required_weight quorum_slack sig_tasks aggregator already_approved_weight
               newer_epoch_weight in
      match reply with
      | inl sig =>
          if c_epoch (ag_committee aggregator) <? ms_epoch sig then
            let newer_epoch_weight := wadd newer_epoch_weight weight in
            if quorum_slack <? newer_epoch_weight
            then (Err (QuorumStaleCommittee (c_epoch (ag_committee aggregator)) (ms_epoch sig)), aggregator)
            else next aggregator already_approved_weight newer_epoch_weight
          else next (add_signature sig aggregator).2 already_approved_weight newer_epoch_weight
      | inr PeerAlreadyApproved =>
          let already_approved_weight := wadd already_approved_weight weight in
          if quorum_slack <? already_approved_weight
          then (Err QuorumAlreadyApproved, aggregator)
          else next aggregator already_approved_weight newer_epoch_weight
      | inr PeerFailed => next aggregator already_approved_weight newer_epoch_weight
      end
  end.

Definition collect_signatures (sig_tasks : list Reply) (aggregator : Aggregator) (total_weight : Z)
    : outcome NoQuorum unit * Aggregator :=
  let required_weight := certificate_threshold total_weight in
  collect required_weight (sat_sub total_weight required_weight) sig_tasks aggregator 0 0.
End collect.
End leader.

(** * What the leader's quorum says

    The certificate the leader ends up with is one every verifier accepts; it gives up early
    only when a quorum is out of reach; one member leads at a time. *)

(** ** Turns *)

Section turns.
Context `{BL : Bls}.

(** At every checkpoint exactly one member of a committee acts as the leader, as long as none
    is told otherwise; each has a hundred checkpoints in a row. *)
Theorem one_leader_per_turn c height :
  committee_wf c -> NoDup (cm_address <$> c_members c) -> c_members c <> [] -> 0 <= height ->
  exists m, m ∈ c_members c
    /\ node_is_leader false ForceDefault (Some c) (Some (cm_address m)) height = Ok true
    /\ forall m', m' ∈ c_members c ->
         node_is_leader false ForceDefault (Some c) (Some (cm_address m')) height = Ok true -> m' = m.
Proof.
  intros Hwf Hnd Hne Hh. set (n := Z.of_nat (length (c_members c))).
  assert (0 < n) as Hn by (subst n; destruct (c_members c); [done|cbn; lia]).
  pose proof (Z.mod_pos_bound (leader_turn height) n Hn) as Hr. set (k := leader_turn height mod n) in *.
  destruct (lookup_lt_is_Some_2 (c_members c) (Z.to_nat k)) as [m Hm]; [subst n; lia|].
  assert (forall i m', c_members c !! i = Some m' ->
    node_is_leader false ForceDefault (Some c) (Some (cm_address m')) height = Ok (k =? Z.of_nat i)) as Hlead.
  { intros i m' Hi. cbn. unfold index_of. by rewrite (member_index c i m' Hwf Hnd Hi). }
  exists m. split_and!.
  - by eapply list_elem_of_lookup_2.
  - rewrite (Hlead _ _ Hm), Z2Nat.id by lia. by rewrite Z.eqb_refl.
  - intros m' [i Hi]%list_elem_of_lookup. rewrite (Hlead _ _ Hi). intros E. injection E as E%Z.eqb_eq.
    rewrite E, Nat2Z.id in Hm. congruence.
Qed.
End turns.

(** ** Collecting *)

Section collecting.
Context `{BL : Bls} {BLw : BlsLaws} {T} {IM : IntentMessage T}.
Variables (c : Committee) (h : Address) (msg : T).
Hypothesis (Hwf : committee_wf c).

#[local] Abbreviation start := (aggregator_new h c msg).
#[local] Abbreviation add_all := (add_all (T:=T) (W:=CommitteeWeight)).

Definition is_newer (sig : MemberSignature) : bool := c_epoch c <? ms_epoch sig.

(** The signatures that are offered to the aggregator. *)
Definition offered (tasks : list Reply) : list MemberSignature :=
  omap (fun t => match t with Some (_, inl sig) => if is_newer sig then None else Some sig | _ => None end) tasks.

(** The weights that speak for a newer epoch, and for an approval that is there. *)
Definition newer_weight (t : Reply) : option Z :=
  match t with Some (w, inl sig) => if is_newer sig then Some w else None | _ => None end.
Definition approved_weight (t : Reply) : option Z :=
  match t with Some (w, inr PeerAlreadyApproved) => Some w | _ => None end.
Definition newer_weights : list Reply -> list Z := omap newer_weight.
Definition approved_weights : list Reply -> list Z := omap approved_weight.

Definition task_weight (t : Reply) : Z := from_option fst 0 t.

Lemma add_all_committee sigs : ag_committee (add_all sigs start) = c.
Proof.
  assert (holds_bit c h msg (mkCommitteeWeight 0) start []) as H0 by by apply holds_init.
  destruct (add_all_holds c h msg (mkCommitteeWeight 0) Hwf sigs start [] H0) as (acc & Ha & _). apply Ha.
Qed.

Lemma add_all_snoc sigs sig : (add_signature sig (add_all sigs start)).2 = add_all (sigs ++ [sig]) start.
Proof. unfold CommitteeProofs.add_all. by rewrite fold_left_app. Qed.
(** The answers come from different members, with their weights. *)
Definition replies_of (members : list nat) (tasks : list Reply) : Prop :=
  NoDup members /\ Forall (fun i => (i < Committee.size c)%nat) members
  /\ Forall2 (fun i t => match t with Some (w, _) => w = weight_at c i | None => True end) members tasks.

(** The sums of what is counted stay within the sum of the weights. *)
Definition within (bound : Z) (tasks : list Reply) : Prop :=
  Forall (fun t => 0 <= task_weight t) tasks /\ zsum (task_weight <$> tasks) <= bound.

Lemma counted_le (f : Reply -> option Z) tasks :
  (forall t, f t = None \/ f t = Some (task_weight t)) ->
  Forall (fun t => 0 <= task_weight t) tasks ->
  0 <= zsum (omap f tasks) <= zsum (task_weight <$> tasks).
Proof.
  intros Hf. induction 1 as [|t tasks Ht _ IH]; [done|]. cbn [omap list_omap fmap list_fmap]. rewrite zsum_cons.
  destruct (Hf t) as [->| ->]; rewrite ?zsum_cons; lia.
Qed.

Lemma newer_le tasks bound : within bound tasks -> 0 <= zsum (newer_weights tasks) <= bound.
Proof.
  intros [Hn Hb]. pose proof (counted_le newer_weight tasks) as H. unfold newer_weights.
  specialize (H ltac:(intros [[w [sig|r]]|]; cbn; try destruct (is_newer sig); (by left) || (by right)) Hn). lia.
Qed.

Lemma approved_le tasks bound : within bound tasks -> 0 <= zsum (approved_weights tasks) <= bound.
Proof.
  intros [Hn Hb]. pose proof (counted_le approved_weight tasks) as H. unfold approved_weights.
  specialize (H ltac:(intros [[w [sig|[]]]|]; cbn; (by left) || (by right)) Hn). lia.
Qed.

Lemma within_app bound l k : within bound (l ++ k) -> within bound l.
Proof.
  intros [H1 H2]. apply Forall_app in H1 as [Ha Hb]. split; [done|]. rewrite fmap_app, zsum_app in H2.
  pose proof (zsum_nonneg (task_weight <$> k)) as Hk. rewrite Forall_fmap in Hk. specialize (Hk Hb). lia.
Qed.

(** What the loop has when it ends: it has looked at a prefix of the answers. *)
Definition ended_with (required slack : Z) (tasks : list Reply)
    (result : outcome NoQuorum unit * BlsSignatureAggregator T CommitteeWeight) : Prop :=
  exists looked rest, tasks = looked ++ rest /\ result.2 = add_all (offered looked) start
    /\ match result.1 with
       | Ok _ => required <= aggregator_weight result.2
       | Err QuorumAlreadyApproved => slack < zsum (approved_weights looked)
       | Err (QuorumStaleCommittee epoch peer_epoch) =>
           epoch = c_epoch c /\ epoch < peer_epoch /\ slack < zsum (newer_weights looked)
       | Err (QuorumShort weight required_weight) =>
           required_weight = required /\ weight = aggregator_weight result.2 /\ weight < required /\ rest = []
       | Panic => False
       end.

(** One more answer was looked at. *)
Lemma offered_snoc looked t : offered (looked ++ [t]) = offered looked ++ offered [t].
Proof. apply omap_app. Qed.
Lemma newer_snoc looked t : zsum (newer_weights (looked ++ [t])) = zsum (newer_weights looked) + zsum (newer_weights [t]).
Proof. unfold newer_weights. by rewrite omap_app, zsum_app. Qed.
Lemma approved_snoc looked t :
  zsum (approved_weights (looked ++ [t])) = zsum (approved_weights looked) + zsum (approved_weights [t]).
Proof. unfold approved_weights. by rewrite omap_app, zsum_app. Qed.

Lemma collect_ended required slack tasks : forall looked,
  within u64_max (looked ++ tasks) ->
  ended_with required slack (looked ++ tasks)
    (collect required slack tasks (add_all (offered looked) start)
       (zsum (approved_weights looked)) (zsum (newer_weights looked))).
Proof.
  induction tasks as [|t tasks IH]; intros looked Hin; cbn [collect].
  { exists looked, []. rewrite app_nil_r. unfold enough, guard.
    destruct (Z.ltb_spec (aggregator_weight (add_all (offered looked) start)) required); by split_and!. }
  rewrite (app_assoc looked [t] tasks : looked ++ t :: tasks = _) in Hin |- *.
  specialize (IH (looked ++ [t]) Hin). pose proof (within_app _ _ _ Hin) as Hin'.
  pose proof (newer_le _ _ Hin') as Hnew. pose proof (approved_le _ _ Hin') as Happ.
  rewrite newer_snoc in Hnew, IH. rewrite approved_snoc in Happ, IH.
  assert (ended_with required slack ((looked ++ [t]) ++ tasks)
    (if required <=? aggregator_weight (add_all (offered (looked ++ [t])) start)
     then (enough required (add_all (offered (looked ++ [t])) start), add_all (offered (looked ++ [t])) start)
     else collect required slack tasks (add_all (offered (looked ++ [t])) start)
            (zsum (approved_weights looked) + zsum (approved_weights [t]))
            (zsum (newer_weights looked) + zsum (newer_weights [t])))) as Hnext.
  { destruct (Z.leb_spec required (aggregator_weight (add_all (offered (looked ++ [t])) start))) as [Hle|]; [|exact IH].
    exists (looked ++ [t]), tasks. split_and!; [done|done|].
    assert (enough required (add_all (offered (looked ++ [t])) start) = Ok tt) as ->; [|done].
    unfold enough. apply guard_Ok, negb_true_iff, Z.ltb_ge. lia. }
  rewrite offered_snoc in IH, Hnext.
  destruct t as [[w [sig|[|]]]|]; cbn in Hnext, IH, Hnew, Happ; rewrite ?Z.add_0_r, ?app_nil_r in *.
  - rewrite add_all_committee. fold (is_newer sig). destruct (is_newer sig) eqn:En; cbn in Hnew, Hnext; rewrite ?Z.add_0_r, ?app_nil_r in *.
    + rewrite wadd_small by u64_lia. destruct (Z.ltb_spec slack (zsum (newer_weights looked) + w)); [|exact Hnext].
      exists (looked ++ [Some (w, inl sig)]), tasks. rewrite offered_snoc, newer_snoc. cbn. rewrite En, app_nil_r. cbn.
      apply Z.ltb_lt in En. split_and!; try done. lia.
    + by rewrite add_all_snoc.
  - rewrite wadd_small by u64_lia. destruct (Z.ltb_spec slack (zsum (approved_weights looked) + w)); [|done].
    exists (looked ++ [Some (w, inr PeerAlreadyApproved)]), tasks. rewrite offered_snoc, approved_snoc. cbn.
    rewrite app_nil_r. split_and!; try done. lia.
  - exact Hnext.
  - exact IH.
Qed.

(** The members whose answer is counted by [f]. *)
Definition reporters (f : Reply -> option Z) (members : list nat) (tasks : list Reply) : list nat :=
  omap (fun p : nat * Reply => match f p.2 with Some _ => Some p.1 | None => None end) (zip members tasks).

Lemma reporters_spec (f : Reply -> option Z) members tasks :
  (forall t : Reply, f t = None \/ exists w r, t = Some (w, r) /\ f t = Some w) -> replies_of members tasks ->
  NoDup (reporters f members tasks)
  /\ zsum (omap f tasks) = zsum (weight_at c <$> reporters f members tasks)
  /\ forall i, i ∈ reporters f members tasks -> i ∈ members /\ exists t, (i, t) ∈ zip members tasks /\ is_Some (f t).
Proof.
  intros Hf (Hnd & _ & Hall). induction Hall as [|i t members tasks Hw _ IH].
  { split_and!; [constructor|done|by intros i Hi%elem_of_nil]. }
  apply NoDup_cons in Hnd as [Hi Hnd]. destruct (IH Hnd) as (IH1 & IH2 & IH3). clear IH.
  unfold reporters in *. cbn [zip zip_with omap list_omap fst snd].
  assert (forall j, j ∈ omap (fun p : nat * Reply => match f p.2 with Some _ => Some p.1 | None => None end) (zip members tasks) ->
    j ∈ i :: members /\ exists t0, (j, t0) ∈ (i, t) :: zip members tasks /\ is_Some (f t0)) as Hold.
  { intros j (Hj & t0 & ? & ?)%IH3. split; [set_solver|]. exists t0. set_solver. }
  destruct (Hf t) as [E|(w & r & -> & E)]; rewrite E; [by split_and!|].
  split_and!.
  - apply NoDup_cons. split; [|done]. intros (? & _)%IH3. done.
  - cbn [fmap list_fmap]. rewrite !zsum_cons, IH2, Hw. done.
  - intros j [->|Hj]%elem_of_cons; [|by apply Hold]. split; [set_solver|]. exists (Some (w, r)).
    rewrite E. split; [set_solver|by eexists].
Qed.

Lemma replies_within members tasks : weights_fit c -> replies_of members tasks -> within u64_max tasks.
Proof.
  intros Hfit (Hnd & Hlt & Hall).
  assert (Forall (fun t => 0 <= task_weight t) tasks /\ zsum (task_weight <$> tasks) <= zsum (weight_at c <$> members)) as [Hn Hs].
  { clear Hnd Hlt. induction Hall as [|i t members tasks Hw _ [IH1 IH2]]; [done|]. pose proof (weight_at_nonneg c i Hfit).
    cbn [fmap list_fmap]. rewrite !zsum_cons. destruct t as [[w r]|]; cbn; [subst w|]; (split; [by constructor|lia]). }
  split; [done|]. pose proof (signer_weight_le c members Hfit Hnd) as H. rewrite Forall_forall in Hlt.
  specialize (H Hlt). lia.
Qed.

(** Heavy enough to certify, so there is something to certify with. *)
Lemma quorum_certificate sigs required :
  weights_fit c -> 0 < required -> required <= aggregator_weight (add_all sigs start) ->
  exists cert, finish (add_all sigs start) = Ok cert /\ sm_message cert = msg
    /\ verify_signature_and_weight c h cert required = Ok tt.
Proof.
  intros Hfit Hpos Hle. destruct (offered_certificate c h msg sigs Hwf Hfit) as [Hset Hf].
  destruct (finish (add_all sigs start)) as [cert|e|] eqn:E.
  - exists cert. destruct Hf as (Hm & Hsw & (w & Hw & _ & Hany)%verify_weight_Ok). split_and!; [done|done|].
    apply verify_weight_Ok. exists w. split_and!; [done| |done]. rewrite Hsw in Hw. injection Hw as <-. lia.
  - exfalso. destruct Hf as [_ Hnone].
    destruct (add_all_finish c h msg (mkCommitteeWeight 0) Hwf sigs) as (Hbit & Hw & _); [done|done|].
    fold start in Hbit, Hw. cbn in Hw. unfold aggregator_weight in Hle. rewrite Hw in Hle.
    assert (bitmap_iter (ag_bitmap (add_all sigs start)) = []) as En.
    { apply elem_of_nil_inv. intros i Hi%elem_of_iter. apply Hbit in Hi. by apply (Hnone i). }
    rewrite En in Hle. cbn in Hle. lia.
  - done.
Qed.

(** What speaks for a newer committee, or for an approval that is there. *)
Lemma reports_newer t : newer_weight t = None \/ exists w r, t = Some (w, r) /\ newer_weight t = Some w.
Proof. destruct t as [[w [sig|r]]|]; cbn; try destruct (is_newer sig); eauto. Qed.
Lemma reports_approved t : approved_weight t = None \/ exists w r, t = Some (w, r) /\ approved_weight t = Some w.
Proof. destruct t as [[w [sig|[]]]|]; cbn; eauto. Qed.

(** More weight than a quorum leaves over reported this: no quorum can form without them, and
    they are too many to be all faulty. *)
Definition reported (f : Reply -> option Z) (members : list nat) (tasks : list Reply) : Prop :=
  exists rs, NoDup rs /\ total_weight c - certificate_threshold (total_weight c) < zsum (weight_at c <$> rs)
    /\ forall i, i ∈ rs -> i ∈ members /\ exists t, (i, t) ∈ zip members tasks /\ is_Some (f t).

Lemma reported_by (f : Reply -> option Z) members looked rest :
  (forall t : Reply, f t = None \/ exists w r, t = Some (w, r) /\ f t = Some w) ->
  weights_fit c -> replies_of members (looked ++ rest) ->
  sat_sub (total_weight c) (certificate_threshold (total_weight c)) < zsum (omap f looked) ->
  reported f members (looked ++ rest).
Proof.
  intros Hf Hfit Hrep Hlt. destruct (reporters_spec f members (looked ++ rest) Hf Hrep) as (Hnd & Hsum & Hall).
  exists (reporters f members (looked ++ rest)). split_and!; [done| |done]. rewrite <- Hsum, omap_app, zsum_app.
  destruct (replies_within members _ Hfit Hrep) as [[_ Hr]%Forall_app _].
  pose proof (counted_le f rest ltac:(intros t; destruct (Hf t) as [?|(w & r & -> & ?)]; [by left|by right]) Hr).
  unfold sat_sub in Hlt. lia.
Qed.

Theorem collected_exact members tasks :
  weights_fit c -> 0 < total_weight c -> total_weight c * CERTIFICATE_THRESHOLD_BPS <= u64_max ->
  replies_of members tasks ->
  let required := certificate_threshold (total_weight c) in
  let '(r, a) := collect_signatures tasks start (total_weight c) in
  match r with
  | Ok _ => exists cert, finish a = Ok cert /\ sm_message cert = msg
      /\ verify_signature_and_weight c h cert required = Ok tt
  | Err QuorumAlreadyApproved => reported approved_weight members tasks
  | Err (QuorumStaleCommittee epoch peer_epoch) =>
      epoch = c_epoch c /\ epoch < peer_epoch /\ reported newer_weight members tasks
  | Err (QuorumShort weight required_weight) =>
      required_weight = required /\ weight < required
      /\ weight = aggregator_weight (add_all (offered tasks) start)
  | Panic => False
  end.
Proof.
  intros Hfit Hpos Hbps Hrep required. pose proof (replies_within _ _ Hfit Hrep) as Hin.
  pose proof (collect_ended required (sat_sub (total_weight c) required) tasks [] Hin) as He.
  unfold collect_signatures. fold required. cbn [offered approved_weights newer_weights omap list_omap zsum app] in He.
  change (add_all [] start) with start in He. change (zsum []) with 0 in He.
  destruct (collect _ _ _ _ _ _) as [r a]. destruct He as (looked & rest & -> & Ha & Hr). cbn [fst snd] in Ha, Hr.
  pose proof (threshold_bounds (total_weight c) ltac:(lia) Hbps) as Hth. fold required in Hth.
  destruct r as [[]|[|epoch peer_epoch|weight rw]|]; [| | | |done].
  - subst a. apply quorum_certificate; [done|lia|done].
  - by eapply reported_by; [apply reports_approved|..].
  - destruct Hr as (-> & ? & ?). split_and!; [done|done|]. by eapply reported_by; [apply reports_newer|..].
  - destruct Hr as (-> & -> & ? & ->). rewrite app_nil_r, Ha in *. by split_and!.
Qed.
End collecting.

(** C33: what the leader has when it stops collecting.  Over answers of different members, in
    whatever order they come and however many do not: success is a certificate every verifier
    accepts at the threshold; giving up early means that members with more weight than a
    quorum can miss reported the request approved, or signed in a newer epoch, so that no
    quorum can form and not all of them are faulty; otherwise all signatures offered together
    are below the threshold. *)
Theorem leader_quorum_exact `{BL : Bls} {BLw : BlsLaws} {T} {IM : IntentMessage T} c h (msg : T) members tasks :
  committee_wf c -> weights_fit c -> 0 < total_weight c ->
  total_weight c * CERTIFICATE_THRESHOLD_BPS <= u64_max -> replies_of c members tasks ->
  let required := certificate_threshold (total_weight c) in
  let '(r, a) := collect_signatures tasks (aggregator_new h c msg) (total_weight c) in
  match r with
  | Ok _ => exists cert, finish a = Ok cert /\ sm_message cert = msg
      /\ verify_signature_and_weight c h cert required = Ok tt
  | Err QuorumAlreadyApproved => reported c approved_weight members tasks
  | Err (QuorumStaleCommittee epoch peer_epoch) =>
      epoch = c_epoch c /\ epoch < peer_epoch /\ reported c (newer_weight c) members tasks
  | Err (QuorumShort weight required_weight) =>
      required_weight = required /\ weight < required
      /\ weight = aggregator_weight (add_all (offered c tasks) (aggregator_new h c msg))
  | Panic => False
  end.
Proof. intros. by apply collected_exact. Qed.

Import SmallCommittee.

(** A failed call, a member of the next epoch, and three signatures. *)
Definition answers : list Reply :=
  [Some (25, inl (share (mkApprove 6) 3)); None; Some (25, inl (share (mkApprove 6) 1));
   Some (25, inl (share (mkApprove 6) 2))].

Lemma answers_of : replies_of committee [3%nat; 0%nat; 1%nat; 2%nat] answers.
Proof.
  split_and!.
  - by repeat (constructor; [set_solver|]); constructor.
  - repeat constructor; vm_compute; lia.
  - repeat constructor; vm_compute; reflexivity.
Qed.

Lemma leader_quorum_exact_witness :
  exists cert, verify_signature_and_weight committee 99 cert 67 = Ok tt /\ sm_message cert = mkApprove 6.
Proof.
  pose proof (leader_quorum_exact committee 99 (mkApprove 6) _ _ eq_refl committee_fits
    ltac:(vm_compute; reflexivity) ltac:(vm_compute; discriminate) answers_of) as H.
  vm_compute collect_signatures in H. destruct H as (cert & _ & Hm & Hv). exists cert. split; [exact Hv|exact Hm].
Defined.
