(* ===== verification/LeaderDeposits.v ===== *)
(** * The leader's deposits

    [crates/hashi/src/leader/deposits.rs], with the arms of the loop in [leader/mod.rs] that
    drive it: which requests the leader takes up for approval and for confirmation, the tasks
    it runs for them, and where a request is parked after a failure.

    What the leader reads of the mirrored state, of the deposit tracker and of the Bitcoin
    monitor in one turn is a [LeaderView]; a task is what it was started with, and how it ends
    is an argument of the turn that joins it.  A set of the code is a finite set; requests of a
    set come in the order of their ids.  Metrics and log lines are left out. *)

From stdpp Require Import strings.
From S2P Require Import Limiter CoinSelection Committee TxUtxos Guardian MonitorDomain Withdrawals Retry WithdrawalSigning DepositTracker BtcMonitor Deposits LeaderQuorum Prelude.

(** ** Which requests *)

Inductive UnapprovedDepositReloadMode := ReloadAll | StaleEpochApprovalOnly.

Definition outpoint_of (r : DepositRequest) : OutPoint := mu_id (dq_utxo r).

(** The keys requests are sorted by: time of creation and id, and, for confirmation, the time
    of approval first. *)
Definition created_le (a b : DepositRequest) : bool :=
  (dq_created_timestamp_ms a <? dq_created_timestamp_ms b)
  || ((dq_created_timestamp_ms a =? dq_created_timestamp_ms b) && (dq_id a <=? dq_id b)).

Definition earliest_approved_le (a b : DepositRequest) : bool :=
  match dq_approved_timestamp_ms a, dq_approved_timestamp_ms b with
  | Some x, Some y => (x <? y) || ((x =? y) && created_le a b)
  | Some _, None => true
  | None, Some _ => false
  | None, None => created_le a b
  end.

(** [filter_map] or [retain] over a set that is filled on the way: the first of each outpoint. *)
Fixpoint first_of_each (seen : gset OutPoint) (rs : list DepositRequest) : list DepositRequest :=
  match rs with
  | [] => []
  | r :: rs =>
      if decide (outpoint_of r ∈ seen) then first_of_each seen rs
      else r :: first_of_each ({[outpoint_of r]} ∪ seen) rs
  end.

Definition wanted (mode : UnapprovedDepositReloadMode) (current_epoch : Z) (r : DepositRequest) : bool :=
  match mode with
  | ReloadAll => negb (bool_decide (approval_epoch r = Some current_epoch))
  | StaleEpochApprovalOnly =>
      match approval_epoch r with Some epoch => negb (epoch =? current_epoch) | None => false end
  end.

Definition select_deposit_requests_to_approve (candidates : list DepositRequest)
    (never_retry_deposit_ids : gset Address) (blocked_outpoints : gset OutPoint) (current_epoch : Z)
    (mode : UnapprovedDepositReloadMode) : list DepositRequest :=
  let approved_outpoints :=
    outpoint_of <$> List.filter (fun r => bool_decide (approval_epoch r = Some current_epoch)) candidates in
  let candidates :=
    List.filter (fun r =>
        negb (bool_decide (outpoint_of r ∈ approved_outpoints))
        && negb (bool_decide (dq_id r ∈ never_retry_deposit_ids))
        && negb (bool_decide (outpoint_of r ∈ blocked_outpoints))
        && wanted mode current_epoch r) candidates in
  first_of_each ∅ (sort_by created_le candidates).

(** The candidates that are left, with the counts of used and of duplicate outputs. *)
Definition filter_deposit_confirmation_candidates (candidates : list DepositRequest)
    (used : OutPoint -> bool) : list DepositRequest * nat * nat :=
  let unused := List.filter (fun r => negb (used (outpoint_of r))) candidates in
  let utxo_already_used_count := (length candidates - length unused)%nat in
  let selected := first_of_each ∅ (sort_by earliest_approved_le unused) in
  let duplicate_utxo_count := (length unused - length selected)%nat in
  (sort_by created_le selected, utxo_already_used_count, duplicate_utxo_count).

(** ** The state *)

(** What a turn reads. *)
Record LeaderView := mkLeaderView {
  lv_epoch : Z;
  lv_threshold : Z;
  lv_requests : gmap Address DepositRequest;
  lv_tracker : TrackerState;
  lv_used : OutPoint -> bool;
  lv_now_ms : Z;
  lv_delay_ms : Z;
  lv_block_sequence : Z;
  lv_max_concurrent : nat;
  lv_paused : bool;
  lv_must_halt : bool;
  lv_reconfiguring : bool;
}.

Record UnapprovedTask := mkUnapprovedTask {
  ut_request : DepositRequest;
  ut_block_sequence : Z;
  ut_bitcoin_generation : Z;
}.

Record Leader := mkLeader {
  is_leader : bool;
  unapproved_deposit_tasks : list UnapprovedTask;
  approved_deposit_tasks : list DepositRequest;
  pending_unapproved_deposit_requests : list DepositRequest;
  last_unapproved_deposit_epoch : option Z;
  never_retry_deposit_ids : gset Address;
  unapproved_deposits_waiting_for_btc_block : gmap OutPoint Z;
  spent_deposit_outpoints : gmap OutPoint Z;
  last_reload_confirmation_threshold : option Z;
  inflight_deposits : gset Address;
  approved_deposit_retry_tracker : gmap Address (RetryState ApprovedDepositErrorKind);
}.

Definition leader_new : Leader := mkLeader false [] [] [] None ∅ ∅ ∅ None ∅ ∅.

(** Updates of one field. *)
Definition with_tasks (self : Leader) (u : list UnapprovedTask) (a : list DepositRequest)
    (inflight : gset Address) : Leader :=
  mkLeader (is_leader self) u a (pending_unapproved_deposit_requests self)
    (last_unapproved_deposit_epoch self) (never_retry_deposit_ids self)
    (unapproved_deposits_waiting_for_btc_block self) (spent_deposit_outpoints self)
    (last_reload_confirmation_threshold self) inflight (approved_deposit_retry_tracker self).
Definition with_pending (self : Leader) (pending : list DepositRequest) : Leader :=
  mkLeader (is_leader self) (unapproved_deposit_tasks self) (approved_deposit_tasks self) pending
    (last_unapproved_deposit_epoch self) (never_retry_deposit_ids self)
    (unapproved_deposits_waiting_for_btc_block self) (spent_deposit_outpoints self)
    (last_reload_confirmation_threshold self) (inflight_deposits self)
    (approved_deposit_retry_tracker self).
Definition with_parked (self : Leader) (never : gset Address) (waiting spent : gmap OutPoint Z) : Leader :=
  mkLeader (is_leader self) (unapproved_deposit_tasks self) (approved_deposit_tasks self)
    (pending_unapproved_deposit_requests self) (last_unapproved_deposit_epoch self) never waiting spent
    (last_reload_confirmation_threshold self) (inflight_deposits self)
    (approved_deposit_retry_tracker self).
Definition with_retries (self : Leader) (t : gmap Address (RetryState ApprovedDepositErrorKind)) : Leader :=
  mkLeader (is_leader self) (unapproved_deposit_tasks self) (approved_deposit_tasks self)
    (pending_unapproved_deposit_requests self) (last_unapproved_deposit_epoch self)
    (never_retry_deposit_ids self) (unapproved_deposits_waiting_for_btc_block self)
    (spent_deposit_outpoints self) (last_reload_confirmation_threshold self) (inflight_deposits self) t.
Definition with_marks (self : Leader) (leads : bool) (epoch threshold : option Z) : Leader :=
  mkLeader leads (unapproved_deposit_tasks self) (approved_deposit_tasks self)
    (pending_unapproved_deposit_requests self) epoch (never_retry_deposit_ids self)
    (unapproved_deposits_waiting_for_btc_block self) (spent_deposit_outpoints self) threshold
    (inflight_deposits self) (approved_deposit_retry_tracker self).
Definition without_inflight (self : Leader) (id : Address) : Leader :=
  with_tasks self (unapproved_deposit_tasks self) (approved_deposit_tasks self)
    (inflight_deposits self ∖ {[id]}).

(** ** Stopping *)

Definition stop_scheduling_deposits (self : Leader) : Leader :=
  with_pending (with_marks self (is_leader self) (last_unapproved_deposit_epoch self) None) [].

(** The tasks of a set that is dropped are aborted. *)
Definition stop_deposit_processing (self : Leader) : Leader :=
  with_tasks (stop_scheduling_deposits self) [] [] ∅.

Definition check_halt_deposit_processing (view : LeaderView) (self : Leader) : bool * Leader :=
  let halt := lv_paused view || lv_must_halt view || lv_reconfiguring view in
  (halt, if halt then stop_deposit_processing self else self).

Definition set_leadership (leads : bool) (self : Leader) : Leader :=
  let self := if is_leader self && negb leads then stop_scheduling_deposits self else self in
  with_marks self leads (last_unapproved_deposit_epoch self) (last_reload_confirmation_threshold self).

(** ** Approval *)

Definition deposit_requests_by_ids (view : LeaderView) (deposit_ids : gset Address) : list DepositRequest :=
  omap (fun id => lv_requests view !! id) (elements deposit_ids).

Definition reload_pending_unapproved_deposit_requests (view : LeaderView)
    (mode : UnapprovedDepositReloadMode) (self : Leader) : Leader :=
  let self :=
    match mode with
    | ReloadAll => with_marks self (is_leader self) (last_unapproved_deposit_epoch self) (Some (lv_threshold view))
    | StaleEpochApprovalOnly => self
    end in
  let tracker := lv_tracker view in
  let candidates := deposit_requests_by_ids view (actionable_requests tracker (lv_threshold view)) in
  let tracked := fun id => contains_request tracker id = true in
  let inflight := filter tracked (inflight_deposits self) in
  let never := filter tracked (never_retry_deposit_ids self) in
  let active_outpoints : gset OutPoint := list_to_set (outpoint_of <$> candidates) in
  let waiting :=
    filter (fun '(outpoint, _) => outpoint ∈ active_outpoints) (unapproved_deposits_waiting_for_btc_block self) in
  let spent :=
    filter (fun '(outpoint, generation) =>
              generation = bitcoin_generation tracker /\ outpoint ∈ active_outpoints)
      (spent_deposit_outpoints self) in
  let blocked_outpoints := dom waiting ∪ dom spent in
  let self := with_parked self never waiting spent in
  let self := with_tasks self (unapproved_deposit_tasks self) (approved_deposit_tasks self) inflight in
  with_pending self
    (List.filter (fun r => negb (bool_decide (dq_id r ∈ inflight)))
       (select_deposit_requests_to_approve candidates never blocked_outpoints (lv_epoch view) mode)).

(** The [while] loop over the queue. *)
Fixpoint start_approvals (view : LeaderView) (pending : list DepositRequest) (self : Leader) : Leader :=
  if (length (unapproved_deposit_tasks self) <? lv_max_concurrent view)%nat then
    match pending with
    | [] => with_pending self []
    | deposit_request :: pending =>
        if decide (dq_id deposit_request ∈ inflight_deposits self) then start_approvals view pending self
        else
          let task :=
            mkUnapprovedTask deposit_request (lv_block_sequence view) (bitcoin_generation (lv_tracker view)) in
          start_approvals view pending
            (with_tasks self (unapproved_deposit_tasks self ++ [task]) (approved_deposit_tasks self)
               ({[dq_id deposit_request]} ∪ inflight_deposits self))
    end
  else with_pending self pending.

Definition process_unapproved_deposit_requests (view : LeaderView) (self : Leader) : Leader :=
  match check_halt_deposit_processing view self with
  | (true, self) => self
  | (false, self) => start_approvals view (pending_unapproved_deposit_requests self) self
  end.

Definition process_actionable_unapproved_deposits (view : LeaderView) (self : Leader) : Leader :=
  process_unapproved_deposit_requests view (reload_pending_unapproved_deposit_requests view ReloadAll self).

Definition process_stale_unapproved_deposits_if_new_epoch (view : LeaderView) (self : Leader) : Leader :=
  if negb (lv_reconfiguring view)
     && negb (bool_decide (last_unapproved_deposit_epoch self = Some (lv_epoch view)))
  then
    let self :=
      process_unapproved_deposit_requests view
        (reload_pending_unapproved_deposit_requests view StaleEpochApprovalOnly self) in
    with_marks self (is_leader self) (Some (lv_epoch view)) (last_reload_confirmation_threshold self)
  else self.

Definition needs_actionable_deposit_reload (view : LeaderView) (self : Leader) : bool :=
  negb (bool_decide (last_reload_confirmation_threshold self = Some (lv_threshold view))).

Definition activate_unapproved_deposits_for_btc_block (view : LeaderView) (block_sequence : Z)
    (self : Leader) : Leader :=
  let waiting :=
    filter (fun '(_, failed_at) => block_sequence <= failed_at) (unapproved_deposits_waiting_for_btc_block self) in
  let changed :=
    negb (bool_decide (size waiting = size (unapproved_deposits_waiting_for_btc_block self))) in
  let self := with_parked self (never_retry_deposit_ids self) waiting (spent_deposit_outpoints self) in
  if is_leader self && changed then process_actionable_unapproved_deposits view self else self.

(** ** Confirmation *)

(** The [for] loop; a full set of tasks ends it. *)
Fixpoint start_confirmations (view : LeaderView) (candidates : list DepositRequest) (self : Leader) : Leader :=
  match candidates with
  | [] => self
  | deposit_request :: candidates =>
      let deposit_id := dq_id deposit_request in
      if bool_decide (deposit_id ∈ inflight_deposits self) then start_confirmations view candidates self
      else if should_skip (approved_deposit_retry_tracker self) deposit_id (lv_now_ms view)
      then start_confirmations view candidates self
      else
        match dq_approved_timestamp_ms deposit_request with
        | None => start_confirmations view candidates self
        | Some approved_ms =>
            if lv_now_ms view <? sat_add approved_ms (lv_delay_ms view)
            then start_confirmations view candidates self
            else if (lv_max_concurrent view <=? length (approved_deposit_tasks self))%nat then self
            else
              start_confirmations view candidates
                (with_tasks self (unapproved_deposit_tasks self)
                   (approved_deposit_tasks self ++ [deposit_request])
                   ({[deposit_id]} ∪ inflight_deposits self))
        end
  end.

Definition confirmation_candidates (view : LeaderView) (self : Leader) : list DepositRequest :=
  List.filter (fun r => negb (bool_decide (dq_id r ∈ never_retry_deposit_ids self))
                        && bool_decide (approval_epoch r = Some (lv_epoch view)))
    (sort_by created_le (map_to_list (lv_requests view)).*2).

Definition process_approved_deposit_requests (view : LeaderView) (self : Leader) : Leader :=
  match check_halt_deposit_processing view self with
  | (true, self) => self
  | (false, self) =>
      let candidates := confirmation_candidates view self in
      let approved_deposit_ids := dq_id <$> candidates in
      let '(candidates, _, _) := filter_deposit_confirmation_candidates candidates (lv_used view) in
      let self := with_retries self (prune (approved_deposit_retry_tracker self) approved_deposit_ids) in
      start_confirmations view candidates self
  end.

(** ** Tasks that end *)

(** What joining a task gives: its result, or how it died. *)
Inductive Joined (A : Type) := Finished (a : A) | TaskPanicked | TaskCancelled.
#[global] Arguments Finished {A} a.
#[global] Arguments TaskPanicked {A}.
#[global] Arguments TaskCancelled {A}.

Inductive ApprovedDepositOutcome := Confirmed | UtxoAlreadySpent.

#[local] Abbreviation L := (outcome Empty_set).

(** Where a failed request is parked, and whether the queue is read again. *)
Definition park_unapproved (view : LeaderView) (task : UnapprovedTask) (err : UnapprovedDepositError)
    (self : Leader) : Leader * bool :=
  let deposit_id := dq_id (ut_request task) in
  let outpoint := outpoint_of (ut_request task) in
  match err with
  | BitcoinUtxoSpent =>
      (if bitcoin_generation (lv_tracker view) =? ut_bitcoin_generation task
       then with_parked self (never_retry_deposit_ids self) (unapproved_deposits_waiting_for_btc_block self)
              (<[outpoint := ut_bitcoin_generation task]> (spent_deposit_outpoints self))
       else self, true)
  | AlreadyApprovedThisEpoch => (self, false)
  | err =>
      match unapproved_kind err with
      | RetryOnNextBlock =>
          if ut_block_sequence task <? lv_block_sequence view then (self, true)
          else
            (with_parked self (never_retry_deposit_ids self)
               (<[outpoint := ut_block_sequence task]> (unapproved_deposits_waiting_for_btc_block self))
               (spent_deposit_outpoints self), false)
      | NeverRetryDeposit =>
          (with_parked self ({[deposit_id]} ∪ never_retry_deposit_ids self)
             (unapproved_deposits_waiting_for_btc_block self) (spent_deposit_outpoints self), true)
      end
  end.

Definition handle_completed_unapproved_deposit_task (view : LeaderView)
    (result : Joined (UnapprovedTask * option UnapprovedDepositError)) (self : Leader) : L Leader :=
  match result with
  | Finished (task, result) =>
      let self := without_inflight self (dq_id (ut_request task)) in
      let '(self, reload_after_failure) :=
        match result with
        | None => (self, false)
        | Some err => park_unapproved view task err self
        end in
      Ok (if is_leader self then
            process_unapproved_deposit_requests view
              (if reload_after_failure
               then reload_pending_unapproved_deposit_requests view ReloadAll self else self)
          else with_pending self [])
  | TaskPanicked => Panic
  | TaskCancelled => Ok self
  end.

Definition handle_completed_approved_deposit_task (view : LeaderView)
    (result : Joined (Address * (ApprovedDepositOutcome + ApprovedDepositError))) (self : Leader) : L Leader :=
  match result with
  | Finished (deposit_id, result) =>
      let self := without_inflight self deposit_id in
      let cleared := with_retries self (clear (approved_deposit_retry_tracker self) deposit_id) in
      Ok match result with
         | inl Confirmed => cleared
         | inl UtxoAlreadySpent =>
             with_parked cleared ({[deposit_id]} ∪ never_retry_deposit_ids cleared)
               (unapproved_deposits_waiting_for_btc_block cleared) (spent_deposit_outpoints cleared)
         | inr err =>
             if bool_decide (lv_requests view !! deposit_id = None) then cleared
             else
               match err with
               | CheckpointWaitTimedOut => cleared
               | err =>
                   with_retries self
                     (record_failure (approved_deposit_retry_tracker self) (approved_kind err) deposit_id
                        (lv_now_ms view))
               end
         end
  | TaskPanicked => Panic
  | TaskCancelled => Ok self
  end.

(** ** The loop *)

(** What wakes it: a checkpoint, with whether the node leads there; a change of the tracker; a
    Bitcoin block; the end of the task at a place of its set. *)
Inductive LeaderEvent :=
| CheckpointChanged (leads : bool)
| DepositWorkChanged
| BtcBlockChanged
| UnapprovedTaskEnded (place : nat) (how : Joined (option UnapprovedDepositError))
| ApprovedTaskEnded (place : nat) (how : Joined (ApprovedDepositOutcome + ApprovedDepositError)).

Definition joined_with {A B} (a : A) (how : Joined B) : Joined (A * B) :=
  match how with Finished b => Finished (a, b) | TaskPanicked => TaskPanicked | TaskCancelled => TaskCancelled end.

(** The deposits' part of an arm of the loop. *)
Definition leader_turn_of (view : LeaderView) (event : LeaderEvent) (self : Leader) : L Leader :=
  match event with
  | CheckpointChanged leads =>
      let was_leader := is_leader self in
      let self := set_leadership leads self in
      Ok (if leads then
            let self := process_stale_unapproved_deposits_if_new_epoch view self in
            let self :=
              if negb was_leader || needs_actionable_deposit_reload view self
              then process_actionable_unapproved_deposits view self else self in
            process_approved_deposit_requests view self
          else (check_halt_deposit_processing view self).2)
  | DepositWorkChanged =>
      Ok (if is_leader self then process_actionable_unapproved_deposits view self else self)
  | BtcBlockChanged =>
      Ok (activate_unapproved_deposits_for_btc_block view (lv_block_sequence view) self)
  | UnapprovedTaskEnded place how =>
      match unapproved_deposit_tasks self !! place with
      | None => Ok self
      | Some task =>
          handle_completed_unapproved_deposit_task view (joined_with task how)
            (with_tasks self (delete place (unapproved_deposit_tasks self)) (approved_deposit_tasks self)
               (inflight_deposits self))
      end
  | ApprovedTaskEnded place how =>
      match approved_deposit_tasks self !! place with
      | None => Ok self
      | Some request =>
          handle_completed_approved_deposit_task view (joined_with (dq_id request) how)
            (with_tasks self (unapproved_deposit_tasks self) (delete place (approved_deposit_tasks self))
               (inflight_deposits self))
      end
  end.

(** ** The tasks *)

Definition quorum_error (e : NoQuorum) : UnapprovedDepositError :=
  match e with
  | QuorumAlreadyApproved => AlreadyApprovedThisEpoch
  | QuorumStaleCommittee epoch peer_epoch => StaleCommittee epoch peer_epoch
  | QuorumShort weight required_weight => FailedQuorum weight required_weight
  end.

Section tasks.
Context `{DE : DepositEnv}.

#[local] Abbreviation Certificate := (@Committee.SignedMessage _ DepositConfirmationMessage).

(** The answers of the members are [replies]; [executor] is whether there is an executor for
    transactions, [approve] what the chain says to the transaction.  The certificate that was
    submitted comes with the result. *)
Definition process_unapproved_deposit (self : DepositNode) (spent : OutPoint -> option bool) (place : bool)
    (monitor : MonitorAnswer) (trm : Screening) (replies : list Reply) (executor : bool)
    (approve : DepositRequest -> Certificate -> bool) (deposit_request : DepositRequest)
    : outcome UnapprovedDepositError unit * option Certificate :=
  match validate_deposit_request self spent place monitor trm deposit_request with
  | Err e => (Err e, None)
  | Panic => (Panic, None)
  | Ok _ =>
      match committees (dn_signer self) !! onchain_epoch (node_state self) with
      | None => (Panic, None)
      | Some committee =>
          let aggregator :=
            aggregator_new (hashi_object_id (dn_signer self)) committee (confirmation_message deposit_request) in
          match collect_signatures replies aggregator (total_weight committee) with
          | (Err e, _) => (Err (quorum_error e), None)
          | (Panic, _) => (Panic, None)
          | (Ok _, aggregator) =>
              match finish aggregator with
              | Err _ => (Err CertificateBuildFailed, None)
              | Panic => (Panic, None)
              | Ok signed_message =>
                  if negb executor then (Err ExecutorInitFailed, None)
                  else if approve deposit_request signed_message then (Ok tt, Some signed_message)
                  else (Err ApproveDepositFailed, Some signed_message)
              end
          end
      end
  end.
End tasks.

(** A call with a deadline: not in time, failed, or its answer. *)
Inductive Timed (A : Type) := NotInTime | CallFailed | Answered (a : A).
#[global] Arguments NotInTime {A}.
#[global] Arguments CallFailed {A}.
#[global] Arguments Answered {A} a.

(** The request that was submitted for confirmation comes with the result. *)
Definition process_approved_deposit (is_utxo_spent : OutPoint -> Timed bool) (executor : bool)
    (confirm : Address -> Timed Z) (wait_until_checkpoint : Z -> bool) (deposit_request : DepositRequest)
    : (ApprovedDepositOutcome + ApprovedDepositError) * option Address :=
  match is_utxo_spent (outpoint_of deposit_request) with
  | NotInTime => (inr ApprovedTimedOut, None)
  | CallFailed => (inr ApprovedLookupFailed, None)
  | Answered true => (inl UtxoAlreadySpent, None)
  | Answered false =>
      if negb executor then (inr ApprovedExecutorInitFailed, None)
      else
        let id := dq_id deposit_request in
        match confirm id with
        | NotInTime => (inr ApprovedTimedOut, Some id)
        | CallFailed => (inr ConfirmDepositFailed, Some id)
        | Answered checkpoint =>
            (if wait_until_checkpoint checkpoint then inl Confirmed else inr CheckpointWaitTimedOut, Some id)
        end
  end.
