(* ===== verification/LeaderDepositsProofs.v ===== *)
(** * What the leader does with the deposits

    Which requests are taken up, and that each is worked on by one task at a time. *)

From stdpp Require Import strings.
From S2P Require Import Limiter CoinSelection Committee CommitteeProofs TxUtxos Guardian MonitorDomain Withdrawals Retry WithdrawalSigning WithdrawalSigningProofs DepositTracker BtcMonitor Deposits DepositTheorems LeaderQuorum LeaderDeposits Prelude.

(** ** The first of each outpoint *)

Definition ids_distinct (rs : list DepositRequest) : Prop :=
  forall a b, a ∈ rs -> b ∈ rs -> dq_id a = dq_id b -> a = b.

Lemma created_total a b : created_le a b = true \/ created_le b a = true.
Proof. unfold created_le. rewrite !orb_true_iff, !andb_true_iff, !Z.ltb_lt, !Z.eqb_eq, !Z.leb_le. lia. Qed.

Lemma created_trans a b c : created_le a b = true -> created_le b c = true -> created_le a c = true.
Proof. unfold created_le. rewrite !orb_true_iff, !andb_true_iff, !Z.ltb_lt, !Z.eqb_eq, !Z.leb_le. lia. Qed.

Lemma created_antisym a b : created_le a b = true -> created_le b a = true -> dq_id a = dq_id b.
Proof. unfold created_le. rewrite !orb_true_iff, !andb_true_iff, !Z.ltb_lt, !Z.eqb_eq, !Z.leb_le. lia. Qed.

Lemma earliest_total a b : earliest_approved_le a b = true \/ earliest_approved_le b a = true.
Proof.
  unfold earliest_approved_le. pose proof (created_total a b).
  destruct (dq_approved_timestamp_ms a) as [x|], (dq_approved_timestamp_ms b) as [y|]; auto.
  rewrite !orb_true_iff, !andb_true_iff, !Z.ltb_lt, !Z.eqb_eq.
  destruct (Z.lt_trichotomy x y) as [|[|]]; intuition.
Qed.

Lemma earliest_trans a b c :
  earliest_approved_le a b = true -> earliest_approved_le b c = true -> earliest_approved_le a c = true.
Proof.
  unfold earliest_approved_le. pose proof (created_trans a b c).
  destruct (dq_approved_timestamp_ms a), (dq_approved_timestamp_ms b), (dq_approved_timestamp_ms c); auto; try done.
  rewrite !orb_true_iff, !andb_true_iff, !Z.ltb_lt, !Z.eqb_eq. intuition lia.
Qed.

Lemma earliest_antisym a b :
  earliest_approved_le a b = true -> earliest_approved_le b a = true -> dq_id a = dq_id b.
Proof.
  unfold earliest_approved_le. pose proof (created_antisym a b).
  destruct (dq_approved_timestamp_ms a), (dq_approved_timestamp_ms b); auto; try done.
  rewrite !orb_true_iff, !andb_true_iff, !Z.ltb_lt, !Z.eqb_eq. intuition lia.
Qed.

Lemma first_of_each_sublist seen l : sublist (first_of_each seen l) l.
Proof.
  revert seen. induction l as [|r l IH]; intros seen; cbn; [constructor|].
  destruct (decide _); constructor; auto.
Qed.

Lemma first_of_each_fresh seen l r : r ∈ first_of_each seen l -> outpoint_of r ∉ seen.
Proof.
  revert seen. induction l as [|x l IH]; intros seen; cbn; [by intros ?%not_elem_of_nil|].
  destruct (decide _); [apply IH|]. rewrite elem_of_cons. intros [->|H%IH]; [done|]. set_solver.
Qed.

Lemma first_of_each_NoDup seen l : NoDup (outpoint_of <$> first_of_each seen l).
Proof.
  revert seen. induction l as [|x l IH]; intros seen; cbn; [constructor|].
  destruct (decide _); [apply IH|]. cbn. constructor; [|apply IH].
  intros (r & E & H)%list_elem_of_fmap. apply first_of_each_fresh in H. rewrite E in H. set_solver.
Qed.

Section first.
Context (leb : DepositRequest -> DepositRequest -> bool).
Hypothesis leb_total : forall a b, leb a b = true \/ leb b a = true.
Hypothesis leb_trans : forall a b c, leb a b = true -> leb b c = true -> leb a c = true.
Hypothesis leb_antisym : forall a b, leb a b = true -> leb b a = true -> dq_id a = dq_id b.

(** What is kept is the least of its outpoint. *)
Lemma first_of_each_spec l : forall seen r,
  StronglySorted (le_of leb) l -> ids_distinct l ->
  r ∈ first_of_each seen l <->
  r ∈ l /\ outpoint_of r ∉ seen /\ forall r', r' ∈ l -> outpoint_of r' = outpoint_of r -> leb r r' = true.
Proof.
  induction l as [|x l IH]; intros seen r Hs Hd; cbn [first_of_each].
  { split; [by intros ?%not_elem_of_nil|]. by intros (?%not_elem_of_nil & _). }
  apply StronglySorted_inv in Hs as [Hs Hx]. rewrite Forall_forall in Hx. unfold le_of in Hx.
  assert (ids_distinct l) as Hd' by (intros a b ? ?; apply Hd; by right).
  assert (leb x x = true) as Hrefl by (by destruct (leb_total x x)).
  destruct (decide (outpoint_of x ∈ seen)) as [Hin|Hin].
  - rewrite IH by done. split.
    + intros (Hr & Hf & Hmin). split_and!; [by right|done|]. intros r' [->|H]%elem_of_cons E; [congruence|auto].
    + intros ([->|Hr]%elem_of_cons & Hf & Hmin); [done|]. split_and!; [done..|]. intros r' H E. apply Hmin; [by right|done].
  - rewrite elem_of_cons, IH by done. split.
    + intros [->|(Hr & Hf & Hmin)].
      * split_and!; [by left|done|]. intros r' [->|H]%elem_of_cons _; [done|auto].
      * split_and!; [by right|set_solver|]. intros r' [->|H]%elem_of_cons E; [set_solver|auto].
    + intros (Hr & Hf & Hmin). destruct (decide (outpoint_of x = outpoint_of r)) as [E|Hne].
      * left. apply Hd; [done|by left|]. apply leb_antisym; [apply Hmin; [by left|done]|].
        apply elem_of_cons in Hr as [->|Hr]; auto.
      * right. apply elem_of_cons in Hr as [->|Hr]; [done|]. split_and!; [done|set_solver|].
        intros r' H E. apply Hmin; [by right|done].
Qed.

Lemma first_sorted_spec l r : ids_distinct l ->
  r ∈ first_of_each ∅ (sort_by leb l) <->
  r ∈ l /\ forall r', r' ∈ l -> outpoint_of r' = outpoint_of r -> leb r r' = true.
Proof.
  intros Hd. rewrite first_of_each_spec; [|by apply sort_by_sorted|].
  - setoid_rewrite elem_of_sort_by. set_solver.
  - intros a b. rewrite !elem_of_sort_by. apply Hd.
Qed.

Lemma sort_order_irrelevant l k : ids_distinct l -> l ≡ₚ k -> sort_by leb l = sort_by leb k.
Proof. intros Hd. apply sort_by_perm_invariant; [done..|]. intros a b ? ? ? ?. by apply Hd; auto. Qed.
End first.

(** ** Which requests are taken up *)

(** A candidate the leader may ask the committee to approve. *)
Definition may_approve (candidates : list DepositRequest) (never : gset Address) (blocked : gset OutPoint)
    (epoch : Z) (mode : UnapprovedDepositReloadMode) (r : DepositRequest) : Prop :=
  r ∈ candidates
  /\ (forall r', r' ∈ candidates -> outpoint_of r' = outpoint_of r -> approval_epoch r' <> Some epoch)
  /\ dq_id r ∉ never /\ outpoint_of r ∉ blocked
  /\ match mode with
     | ReloadAll => True
     | StaleEpochApprovalOnly => exists e, approval_epoch r = Some e /\ e <> epoch
     end.

Lemma wanted_spec mode epoch r :
  wanted mode epoch r = true <->
  approval_epoch r <> Some epoch
  /\ match mode with
     | ReloadAll => True
     | StaleEpochApprovalOnly => exists e, approval_epoch r = Some e /\ e <> epoch
     end.
Proof.
  unfold wanted. destruct mode.
  - rewrite negb_true_iff, bool_decide_eq_false. tauto.
  - destruct (approval_epoch r) as [e|]; [|naive_solver]. rewrite negb_true_iff, Z.eqb_neq. naive_solver.
Qed.

(** The filter of the selection. *)
Lemma retained_spec candidates never blocked epoch mode r :
  let approved :=
    outpoint_of <$> List.filter (fun r => bool_decide (approval_epoch r = Some epoch)) candidates in
  r ∈ List.filter (fun r =>
        negb (bool_decide (outpoint_of r ∈ approved)) && negb (bool_decide (dq_id r ∈ never))
        && negb (bool_decide (outpoint_of r ∈ blocked)) && wanted mode epoch r) candidates
  <-> may_approve candidates never blocked epoch mode r.
Proof.
  intros approved. unfold may_approve.
  rewrite list_elem_of_In, filter_In, <- list_elem_of_In, !andb_true_iff, !negb_true_iff, !bool_decide_eq_false,
    wanted_spec.
  assert (outpoint_of r ∉ approved <->
    forall r', r' ∈ candidates -> outpoint_of r' = outpoint_of r -> approval_epoch r' <> Some epoch) as ->.
  { subst approved. rewrite list_elem_of_fmap. setoid_rewrite list_elem_of_In. setoid_rewrite filter_In.
    setoid_rewrite bool_decide_eq_true. naive_solver. }
  naive_solver.
Qed.

Lemma ids_distinct_sub l k : (forall r, r ∈ l -> r ∈ k) -> ids_distinct k -> ids_distinct l.
Proof. intros H Hd a b Ha Hb. apply Hd; auto. Qed.

Lemma filter_ext_elem {A} (f g : A -> bool) l : (forall x, x ∈ l -> f x = g x) -> List.filter f l = List.filter g l.
Proof.
  induction l as [|x l IH]; intros H; cbn; [done|]. rewrite (H x) by set_solver.
  rewrite IH by set_solver. done.
Qed.

Lemma StronglySorted_sublist {A} (R : A -> A -> Prop) l k : sublist l k -> StronglySorted R k -> StronglySorted R l.
Proof.
  induction 1 as [|x l k Hsub IH|x l k Hsub IH]; intros [Hs Hx]%StronglySorted_inv || intros Hs; [constructor| |auto].
  constructor; [auto|]. rewrite Forall_forall in Hx |- *. intros y Hy. apply Hx. by eapply elem_of_sublist.
Qed.

(** The selection by the properties of what is selected. *)
Lemma selection_spec candidates never blocked epoch mode :
  ids_distinct candidates ->
  let selected := select_deposit_requests_to_approve candidates never blocked epoch mode in
  (forall r, r ∈ selected <->
     may_approve candidates never blocked epoch mode r
     /\ forall r', may_approve candidates never blocked epoch mode r' -> outpoint_of r' = outpoint_of r ->
          created_le r r' = true)
  /\ NoDup (outpoint_of <$> selected)
  /\ StronglySorted (le_of created_le) selected.
Proof.
  intros Hd selected. subst selected. unfold select_deposit_requests_to_approve. split_and!.
  - intros r.
    rewrite (first_sorted_spec created_le created_total created_trans created_antisym).
    + setoid_rewrite retained_spec. done.
    + eapply ids_distinct_sub; [|done]. by intros ? [? _]%elem_of_bool_filter.
  - apply first_of_each_NoDup.
  - eapply StronglySorted_sublist; [apply first_of_each_sublist|].
    apply sort_by_sorted; [apply created_total|apply created_trans].
Qed.

(** The order in which a hash set hands out the candidates does not matter. *)
Lemma selection_order_irrelevant candidates candidates' never blocked epoch mode :
  ids_distinct candidates -> candidates ≡ₚ candidates' ->
  select_deposit_requests_to_approve candidates never blocked epoch mode
  = select_deposit_requests_to_approve candidates' never blocked epoch mode.
Proof.
  intros Hd Hp. unfold select_deposit_requests_to_approve. f_equal.
  apply sort_order_irrelevant;
    [exact created_total|exact created_trans|exact created_antisym| |].
  { eapply ids_distinct_sub; [|done]. by intros ? [? _]%elem_of_bool_filter. }
  rewrite (bool_filter_perm _ _ _ Hp). erewrite filter_ext_elem; [done|]. intros r _. cbn beta.
  do 4 f_equal. apply bool_decide_ext. by rewrite (bool_filter_perm _ _ _ Hp).
Qed.

(** Which deposits the leader asks the committee to approve.  Of the requests it may ask
    for (actionable, no request for the same output approved in this epoch, not given up, the
    output not waiting for a block and not known to be spent; after a change of the epoch only
    those an earlier committee approved), exactly the oldest of each output, by time of
    creation and then by id, once, oldest first; whatever the order the requests come in. *)
Theorem approval_selection_exact candidates candidates' never blocked epoch mode :
  ids_distinct candidates -> candidates ≡ₚ candidates' ->
  let selected := select_deposit_requests_to_approve candidates' never blocked epoch mode in
  (forall r, r ∈ selected <->
     may_approve candidates never blocked epoch mode r
     /\ forall r', may_approve candidates never blocked epoch mode r' -> outpoint_of r' = outpoint_of r ->
          created_le r r' = true)
  /\ NoDup (outpoint_of <$> selected)
  /\ StronglySorted (le_of created_le) selected
  /\ selected = select_deposit_requests_to_approve candidates never blocked epoch mode.
Proof.
  intros Hd Hp selected. subst selected. rewrite <- (selection_order_irrelevant _ _ never blocked epoch mode Hd Hp).
  destruct (selection_spec candidates never blocked epoch mode Hd) as (? & ? & ?). by split_and!.
Qed.

(** ** Which requests are confirmed *)

(** A request whose confirmation may be started now. *)
Definition startable (view : LeaderView) (self : Leader) (r : DepositRequest) : Prop :=
  dq_id r ∉ inflight_deposits self
  /\ should_skip (approved_deposit_retry_tracker self) (dq_id r) (lv_now_ms view) = false
  /\ exists approved_ms, dq_approved_timestamp_ms r = Some approved_ms
       /\ sat_add approved_ms (lv_delay_ms view) <= lv_now_ms view.

(** The state with more confirmations running. *)
Definition with_confirmations (self : Leader) (started : list DepositRequest) : Leader :=
  with_tasks self (unapproved_deposit_tasks self) (approved_deposit_tasks self ++ started)
    (list_to_set (dq_id <$> started) ∪ inflight_deposits self).

Lemma with_no_confirmations self : with_confirmations self [] = self.
Proof.
  unfold with_confirmations, with_tasks. rewrite app_nil_r. cbn [fmap list_fmap list_to_set].
  rewrite (left_id_L ∅ _). by destruct self.
Qed.

Lemma with_confirmations_cons self r rs :
  with_confirmations (with_tasks self (unapproved_deposit_tasks self) (approved_deposit_tasks self ++ [r])
                        ({[dq_id r]} ∪ inflight_deposits self)) rs
  = with_confirmations self (r :: rs).
Proof.
  unfold with_confirmations, with_tasks. cbn. rewrite <- (assoc (++)). f_equal.
  apply leibniz_equiv. set_solver.
Qed.

(** What the loop starts of its candidates: only what may be started, no more than there is
    room for, and all of it if there is room left. *)
Record started_of (view : LeaderView) (self : Leader) (cands started : list DepositRequest) : Prop := {
  so_sublist : sublist started cands;
  so_startable : forall r, r ∈ started -> startable view self r;
  so_bounded : (length (approved_deposit_tasks self ++ started)
                  <= Nat.max (length (approved_deposit_tasks self)) (lv_max_concurrent view))%nat;
  so_complete : (length (approved_deposit_tasks self ++ started) < lv_max_concurrent view)%nat ->
                forall r, r ∈ cands -> startable view self r -> r ∈ started;
}.

Lemma started_none view self cands :
  (lv_max_concurrent view <= length (approved_deposit_tasks self))%nat \/ cands = [] ->
  started_of view self cands [].
Proof.
  intros H. split; rewrite ?app_nil_r; [apply sublist_nil_l|set_solver|lia|].
  destruct H as [?| ->]; [lia|done].
Qed.

Lemma started_skip view self r cands started :
  ~ startable view self r -> started_of view self cands started -> started_of view self (r :: cands) started.
Proof.
  intros Hbad [Hsub Hok Hlen Hall]. split; [by constructor|done|done|].
  intros Hlt r' [->|H]%elem_of_cons Hst; [done|auto].
Qed.

Lemma started_cons view self r cands started :
  startable view self r -> dq_id r ∉ dq_id <$> cands ->
  (length (approved_deposit_tasks self) < lv_max_concurrent view)%nat ->
  started_of view
    (with_tasks self (unapproved_deposit_tasks self) (approved_deposit_tasks self ++ [r])
       ({[dq_id r]} ∪ inflight_deposits self)) cands started ->
  started_of view self (r :: cands) (r :: started).
Proof.
  intros Hgood Hr Hroom [Hsub Hok Hlen Hall]. unfold startable in Hok, Hall.
  cbn [approved_deposit_tasks with_tasks inflight_deposits approved_deposit_retry_tracker] in *.
  rewrite !length_app in *. cbn [length] in *.
  split; [by constructor| |rewrite length_app; cbn [length]; lia|rewrite length_app; cbn [length]].
  - intros r' [->|(Hi & Hs & Ht)%Hok]%elem_of_cons; [done|]. split_and!; [set_solver|done|done].
  - intros Hlt r' [->|H]%elem_of_cons (Hi & Hs & Ht); [by left|]. right. apply Hall; [lia|done|].
    split_and!; [|done|done]. rewrite elem_of_union, elem_of_singleton. intros [E'|?]; [|done].
    apply Hr. rewrite <- E'. by apply list_elem_of_fmap_2.
Qed.

Lemma start_confirmations_spec view cands : forall self,
  NoDup (dq_id <$> cands) ->
  exists started, start_confirmations view cands self = with_confirmations self started
    /\ started_of view self cands started.
Proof.
  induction cands as [|r cands IH]; intros self Hnd; cbn [start_confirmations].
  { exists []. rewrite with_no_confirmations. split; [done|]. apply started_none. by right. }
  apply NoDup_cons in Hnd as [Hr Hnd].
  assert (~ startable view self r -> exists started,
    start_confirmations view cands self = with_confirmations self started
    /\ started_of view self (r :: cands) started) as Hskip.
  { intros Hbad. destruct (IH self Hnd) as (started & E & Hst). eauto using started_skip. }
  destruct (bool_decide_reflect (dq_id r ∈ inflight_deposits self)) as [Hin|Hin].
  { apply Hskip. by intros [? _]. }
  destruct (should_skip _ _ _) eqn:Esk; [apply Hskip; intros (_ & E & _); congruence|].
  destruct (dq_approved_timestamp_ms r) as [t|] eqn:Et; [|apply Hskip; intros (_ & _ & ? & E & _); congruence].
  destruct (Z.ltb_spec (lv_now_ms view) (sat_add t (lv_delay_ms view))) as [Hlt|Hge].
  { apply Hskip. intros (_ & _ & t' & E & ?). rewrite Et in E. injection E as <-. lia. }
  destruct (Nat.leb_spec (lv_max_concurrent view) (length (approved_deposit_tasks self))) as [Hfull|Hroom].
  { exists []. rewrite with_no_confirmations. split; [done|]. apply started_none. by left. }
  edestruct IH as (started & E & Hst); [exact Hnd|]. rewrite E, with_confirmations_cons.
  exists (r :: started). split; [done|]. apply started_cons; [split_and!; eauto|done..].
Qed.

(** The mirrored queue is keyed by the ids of its requests. *)
Definition requests_keyed (view : LeaderView) : Prop :=
  forall id r, lv_requests view !! id = Some r -> dq_id r = id.

Definition halted (view : LeaderView) : bool := lv_paused view || lv_must_halt view || lv_reconfiguring view.

(** A request approved in this epoch that has not been given up. *)
Definition approved_now (view : LeaderView) (self : Leader) (r : DepositRequest) : Prop :=
  lv_requests view !! dq_id r = Some r /\ approval_epoch r = Some (lv_epoch view)
  /\ dq_id r ∉ never_retry_deposit_ids self.

(** The one request of an output that may be confirmed. *)
Definition to_confirm (view : LeaderView) (self : Leader) (r : DepositRequest) : Prop :=
  approved_now view self r /\ lv_used view (outpoint_of r) = false
  /\ forall r', approved_now view self r' -> outpoint_of r' = outpoint_of r -> earliest_approved_le r r' = true.

Lemma candidates_spec view self r :
  requests_keyed view -> r ∈ confirmation_candidates view self <-> approved_now view self r.
Proof.
  intros Hk. unfold confirmation_candidates, approved_now.
  rewrite elem_of_bool_filter, elem_of_sort_by, andb_true_iff, negb_true_iff, bool_decide_eq_false, bool_decide_eq_true.
  assert (r ∈ (map_to_list (lv_requests view)).*2 <-> lv_requests view !! dq_id r = Some r) as ->; [|tauto].
  rewrite list_elem_of_fmap. split.
  - intros ([id r'] & -> & H%elem_of_map_to_list). cbn. by rewrite (Hk _ _ H).
  - intros H. exists (dq_id r, r). by rewrite elem_of_map_to_list.
Qed.

Lemma ids_distinct_NoDup l : ids_distinct l -> NoDup l -> NoDup (dq_id <$> l).
Proof.
  intros Hd Hnd. induction Hnd as [|x l Hx Hnd IH]; cbn; constructor.
  - intros (y & E & Hy)%list_elem_of_fmap. rewrite (Hd x y) in Hx; [done|by left|by right|done].
  - apply IH. intros a b ? ?. apply Hd; by right.
Qed.

Lemma NoDup_of_outpoints l : NoDup (outpoint_of <$> l) -> NoDup l.
Proof. apply NoDup_fmap_1. Qed.

Lemma filtered_spec view self :
  requests_keyed view ->
  let kept := (filter_deposit_confirmation_candidates (confirmation_candidates view self) (lv_used view)).1.1 in
  (forall r, r ∈ kept <-> to_confirm view self r) /\ NoDup (dq_id <$> kept).
Proof.
  intros Hk. unfold filter_deposit_confirmation_candidates. cbn [fst].
  set (unused := List.filter _ _).
  assert (forall r', r' ∈ unused <-> approved_now view self r' /\ lv_used view (outpoint_of r') = false) as Hun.
  { intros r'. subst unused. by rewrite elem_of_bool_filter, (candidates_spec view self _ Hk), negb_true_iff. }
  assert (ids_distinct unused) as Hd.
  { intros a b [(Ha & _) _]%Hun [(Hb & _) _]%Hun E. rewrite E in Ha. congruence. }
  split.
  - intros r. rewrite elem_of_sort_by,
      (first_sorted_spec earliest_approved_le earliest_total earliest_trans earliest_antisym) by done.
    rewrite Hun. unfold to_confirm. split.
    + intros ((Ha & Hu) & Hmin). split_and!; [done..|]. intros r' Ha' E. apply Hmin; [|done].
      apply Hun. by rewrite E.
    + intros (Ha & Hu & Hmin). split_and!; [done..|]. intros r' [Ha' _]%Hun E. auto.
  - rewrite sort_by_perm. apply ids_distinct_NoDup; [|apply NoDup_of_outpoints, first_of_each_NoDup].
    eapply ids_distinct_sub; [|exact Hd]. intros r' Hr'. eapply elem_of_sublist in Hr'; [|apply first_of_each_sublist].
    by apply elem_of_sort_by in Hr'.
Qed.

Lemma prune_skips {K} `{RetryPolicy K} (t : gmap Address (RetryState K)) ids id now :
  id ∈ ids -> should_skip (prune t ids) id now = should_skip t id now.
Proof.
  intros Hid. unfold should_skip, prune. destruct (t !! id) as [s|] eqn:E.
  - by rewrite (map_lookup_filter_Some_2 _ _ _ _ E Hid).
  - by rewrite (map_lookup_filter_None_2 _ _ _ (or_introl E)).
Qed.

Lemma scheduled_spec view self :
  requests_keyed view -> halted view = false ->
  exists started,
    let self' := process_approved_deposit_requests view self in
    approved_deposit_tasks self' = approved_deposit_tasks self ++ started
    /\ unapproved_deposit_tasks self' = unapproved_deposit_tasks self
    /\ inflight_deposits self' = list_to_set (dq_id <$> started) ∪ inflight_deposits self
    /\ is_leader self' = is_leader self
    /\ pending_unapproved_deposit_requests self' = pending_unapproved_deposit_requests self
    /\ (forall r, r ∈ started -> to_confirm view self r /\ startable view self r)
    /\ NoDup (dq_id <$> started)
    /\ (length (approved_deposit_tasks self')
          <= Nat.max (length (approved_deposit_tasks self)) (lv_max_concurrent view))%nat
    /\ ((length (approved_deposit_tasks self') < lv_max_concurrent view)%nat ->
        forall r, to_confirm view self r -> startable view self r -> r ∈ started).
Proof.
  intros Hk Hh. unfold process_approved_deposit_requests, check_halt_deposit_processing.
  fold (halted view). rewrite Hh.
  pose proof (filtered_spec view self Hk) as Hf.
  destruct (filter_deposit_confirmation_candidates _ _) as [[kept n] m]. cbn [fst] in Hf. destruct Hf as [Hf Hnd].
  set (self1 := with_retries self _).
  assert (forall r, to_confirm view self r -> startable view self1 r <-> startable view self r) as Hst.
  { intros r [Hr _]. unfold startable. subst self1. cbn [with_retries inflight_deposits approved_deposit_retry_tracker].
    rewrite prune_skips; [done|]. apply list_elem_of_fmap_2. by apply candidates_spec. }
  destruct (start_confirmations_spec view kept self1 Hnd)
    as (started & -> & [Hsub Hok Hlen Hall]).
  exists started. cbn. split_and!; [done..| | |done|].
  - intros r Hr. assert (to_confirm view self r) as Hc by (apply Hf; by eapply elem_of_sublist).
    split; [done|]. by apply Hst, Hok.
  - eapply sublist_NoDup; [exact Hnd|]. by apply fmap_sublist.
  - intros Hlt r Hc Hr. apply Hall; [done|by apply Hf|by apply Hst].
Qed.
