(* ===== verification/LeaderDepositsTheorems.v ===== *)
(** * The leader's deposit tasks over a run

    Over any sequence of events, each with what the node sees of the chain at that time: a
    request is never worked on by two tasks, the sets of tasks stay within their limit, and a
    node that does not lead keeps no queue.  What an approval that is submitted says, and a
    run to see it at work. *)

From stdpp Require Import strings.
From S2P Require Import Limiter CoinSelection Committee CommitteeProofs TxUtxos Guardian GuardianExamples MonitorDomain Withdrawals WithdrawalExamples Retry WithdrawalSigning WithdrawalSigningProofs WithdrawalSigningExamples DepositTracker DepositTrackerProofs BtcMonitor Deposits DepositTheorems LeaderQuorum LeaderDeposits LeaderDepositsProofs Prelude.

(** ** The invariant *)

Definition task_id (t : UnapprovedTask) : Address := dq_id (ut_request t).

(** The requests of the running tasks. *)
Definition running (u : list UnapprovedTask) (a : list DepositRequest) : list Address :=
  (task_id <$> u) ++ (dq_id <$> a).
#[global] Arguments running : simpl never.

(** [seen] are the requests the queue has held so far, [gone] those of them that the tracker
    has dropped since. *)
Record tasks_ok (max : nat) (seen gone : gset Address) (leads : bool) (u : list UnapprovedTask)
    (a pending : list DepositRequest) (inflight : gset Address) : Prop := {
  ok_exclusive : NoDup (running u a);
  ok_inflight : forall id, id ∈ running u a -> id ∈ inflight \/ id ∈ gone;
  ok_seen : forall id, id ∈ running u a -> id ∈ seen;
  ok_unapproved : (length u <= max)%nat;
  ok_approved : (length a <= max)%nat;
  ok_pending : forall r, r ∈ pending -> dq_id r ∈ seen /\ (dq_id r ∈ running u a -> dq_id r ∈ inflight);
  ok_follower : leads = false -> pending = [];
}.

Definition leader_ok (max : nat) (seen gone : gset Address) (self : Leader) : Prop :=
  tasks_ok max seen gone (is_leader self) (unapproved_deposit_tasks self) (approved_deposit_tasks self)
    (pending_unapproved_deposit_requests self) (inflight_deposits self).

Lemma tasks_ok_mono max seen gone seen' gone' leads u a pending inflight :
  seen ⊆ seen' -> gone ⊆ gone' ->
  tasks_ok max seen gone leads u a pending inflight -> tasks_ok max seen' gone' leads u a pending inflight.
Proof.
  intros Hs Hg [H1 H2 H3 H4 H5 H6 H7]. split; try done.
  - intros id Hid. destruct (H2 id Hid); auto.
  - intros id Hid. apply Hs, H3, Hid.
  - intros r Hr. destruct (H6 r Hr). split; [by apply Hs|done].
Qed.

Lemma tasks_ok_idle max seen gone leads : tasks_ok max seen gone leads [] [] [] ∅.
Proof. split; cbn; try lia; try set_solver. constructor. Qed.

Lemma tasks_ok_drained max seen gone leads leads' u a pending inflight :
  tasks_ok max seen gone leads u a pending inflight -> tasks_ok max seen gone leads' u a [] inflight.
Proof. intros []. split; set_solver. Qed.

Section turn.
Context (max : nat) (seen gone : gset Address) (view : LeaderView).
Hypothesis Hkeyed : requests_keyed view.
Hypothesis Hmax : lv_max_concurrent view = max.
Hypothesis Hlive : forall id r, lv_requests view !! id = Some r -> id ∈ seen /\ id ∉ gone.
Hypothesis Hgone : forall id, id ∈ seen -> contains_request (lv_tracker view) id = false -> id ∈ gone.

#[local] Abbreviation ok := (leader_ok max seen gone).

Lemma stop_scheduling_ok self : ok self -> ok (stop_scheduling_deposits self).
Proof. apply tasks_ok_drained. Qed.

Lemma check_halt_ok self : ok self -> ok (check_halt_deposit_processing view self).2.
Proof.
  intros H. unfold check_halt_deposit_processing. cbn. destruct (_ || _ || _); [|done].
  apply tasks_ok_idle.
Qed.

Lemma set_leadership_ok leads self : ok self -> ok (set_leadership leads self).
Proof.
  intros H. unfold set_leadership. destruct (is_leader self && negb leads) eqn:E.
  - unfold leader_ok. cbn. by eapply tasks_ok_drained.
  - destruct H as [H1 H2 H3 H4 H5 H6 H7]. split; cbn; auto. intros ->. apply H7.
    by destruct (is_leader self).
Qed.

Lemma selected_mirrored ids mode never blocked r :
  r ∈ select_deposit_requests_to_approve (deposit_requests_by_ids view ids) never blocked (lv_epoch view) mode ->
  lv_requests view !! dq_id r = Some r.
Proof.
  intros Hr. eapply elem_of_sublist in Hr; [|apply first_of_each_sublist].
  apply elem_of_sort_by, elem_of_bool_filter in Hr as [Hr _].
  unfold deposit_requests_by_ids in Hr. apply list_elem_of_omap in Hr as (id & _ & Hr).
  by rewrite (Hkeyed _ _ Hr).
Qed.

(** The queue is read again: what is not tracked any more is not in flight either, but then it
    does not come back. *)
Lemma reload_ok mode self :
  is_leader self = true -> ok self -> ok (reload_pending_unapproved_deposit_requests view mode self).
Proof.
  intros Hl [H1 H2 H3 H4 H5 H6 H7].
  set (inflight := filter (fun id => contains_request (lv_tracker view) id = true) (inflight_deposits self)).
  assert (forall id, id ∈ running (unapproved_deposit_tasks self) (approved_deposit_tasks self) ->
    id ∈ inflight \/ id ∈ gone) as Hin.
  { intros id Hid. destruct (H2 _ Hid) as [Hi|Hi]; [|by right].
    destruct (contains_request (lv_tracker view) id) eqn:E; [left|right; auto].
    subst inflight. by rewrite elem_of_filter. }
  unfold leader_ok. destruct mode; cbn; fold inflight; split; try done; [| |..].
  all: try (intros r [Hr Hni]%elem_of_bool_filter; pose proof (selected_mirrored _ _ _ _ _ Hr) as Hm;
    destruct (Hlive _ _ Hm) as [Hs Hng]; split; [done|]; intros [?|?]%Hin; done).
  all: rewrite Hl; done.
Qed.

Lemma start_approvals_ok pending : forall self,
  is_leader self = true -> ok (with_pending self pending) -> ok (start_approvals view pending self).
Proof.
  induction pending as [|r pending IH]; intros self Hl H; cbn [start_approvals];
    destruct (Nat.ltb_spec (length (unapproved_deposit_tasks self)) (lv_max_concurrent view)) as [Hroom|]; [done..| |done].
  destruct H as [H1 H2 H3 H4 H5 H6 H7]; cbn in *.
  destruct (H6 r) as [Hs Hr]; [by left|].
  destruct (decide _) as [Hin|Hin]; apply IH; cbn; try done.
  - split; cbn; try done; [|congruence]. intros r' Hr'. apply H6. by right.
  - assert (dq_id r ∉ running (unapproved_deposit_tasks self) (approved_deposit_tasks self)) as Hnr by auto.
    assert (forall u a, running (u ++ [mkUnapprovedTask r (lv_block_sequence view)
      (bitcoin_generation (lv_tracker view))]) a ≡ₚ dq_id r :: running u a) as Hp.
    { intros u a. unfold running. rewrite fmap_app, <- (assoc (++)). cbn. by rewrite Permutation_middle. }
    split; cbn.
    + rewrite Hp. by constructor.
    + intros id. rewrite Hp, elem_of_cons, elem_of_union, elem_of_singleton. intros [?|Hid]; [auto|].
      destruct (H2 id Hid); auto.
    + intros id. rewrite Hp, elem_of_cons. intros [->|?]; auto.
    + rewrite length_app. cbn. lia.
    + done.
    + intros r' Hr'. rewrite Hp, elem_of_cons. destruct (H6 r') as [? ?]; [by right|]. split; [done|].
      rewrite elem_of_union, elem_of_singleton. intros [?|?]; auto.
    + congruence.
Qed.

Lemma process_unapproved_ok self :
  is_leader self = true -> ok self -> ok (process_unapproved_deposit_requests view self).
Proof.
  intros Hl H. unfold process_unapproved_deposit_requests. pose proof (check_halt_ok self H) as Hh.
  destruct (check_halt_deposit_processing view self) as [[] self'] eqn:E; cbn in Hh; [done|].
  unfold check_halt_deposit_processing in E. injection E as E <-. rewrite E in *. by apply start_approvals_ok.
Qed.

Lemma reload_leads mode self : is_leader (reload_pending_unapproved_deposit_requests view mode self) = is_leader self.
Proof. by destruct mode. Qed.

Lemma start_approvals_leads pending : forall self, is_leader (start_approvals view pending self) = is_leader self.
Proof.
  induction pending as [|r pending IH]; intros self; cbn [start_approvals]; destruct (_ <? _)%nat; try done.
  destruct (decide _); by rewrite IH.
Qed.

Lemma process_unapproved_leads self : is_leader (process_unapproved_deposit_requests view self) = is_leader self.
Proof.
  unfold process_unapproved_deposit_requests, check_halt_deposit_processing.
  destruct (_ || _ || _); [done|]. apply start_approvals_leads.
Qed.

Lemma actionable_ok self :
  is_leader self = true -> ok self -> ok (process_actionable_unapproved_deposits view self).
Proof.
  intros Hl H. apply process_unapproved_ok; [by rewrite reload_leads|]. by apply reload_ok.
Qed.

Lemma stale_ok self :
  is_leader self = true -> ok self ->
  ok (process_stale_unapproved_deposits_if_new_epoch view self)
  /\ is_leader (process_stale_unapproved_deposits_if_new_epoch view self) = true.
Proof.
  intros Hl H. unfold process_stale_unapproved_deposits_if_new_epoch. destruct (_ && _); [|done].
  split; [|by cbn [with_marks is_leader]; rewrite process_unapproved_leads, reload_leads].
  apply (process_unapproved_ok (reload_pending_unapproved_deposit_requests view _ self));
    [by rewrite reload_leads|by apply reload_ok].
Qed.

Lemma activate_ok sequence self :
  ok self -> ok (activate_unapproved_deposits_for_btc_block view sequence self).
Proof.
  intros H. unfold activate_unapproved_deposits_for_btc_block. destruct (_ && _) eqn:E; [|done].
  apply andb_true_iff in E as [E _]. by apply actionable_ok.
Qed.

Lemma process_approved_ok self : ok self -> ok (process_approved_deposit_requests view self).
Proof.
  intros H. destruct (halted view) eqn:Hh.
  { unfold process_approved_deposit_requests, check_halt_deposit_processing. fold (halted view). rewrite Hh.
    apply tasks_ok_idle. }
  destruct (scheduled_spec view self Hkeyed Hh) as (started & Ea & Eu & Ei & El & Ep & Hst & Hnd & Hlen & _).
  destruct H as [H1 H2 H3 H4 H5 H6 H7]. unfold leader_ok. rewrite Ea in Hlen. rewrite Ea, Eu, Ei, El, Ep.
  assert (forall id, id ∈ dq_id <$> started -> (id ∈ seen /\ id ∉ gone) /\ id ∉ inflight_deposits self) as Hs.
  { intros id (r & -> & [((Hr & _) & _) (Hi & _)]%Hst)%list_elem_of_fmap. split; [by apply (Hlive _ r)|done]. }
  assert (forall u a, running u (a ++ started) = running u a ++ (dq_id <$> started)) as Hr.
  { intros u a. unfold running. by rewrite fmap_app, (assoc (++)). }
  split; try setoid_rewrite Hr; try done.
  - apply NoDup_app. split_and!; [done| |done]. intros id Hid Hin%Hs. destruct (H2 id Hid); tauto.
  - intros id. rewrite elem_of_app, elem_of_union, elem_of_list_to_set. intros [Hid|Hid]; [|auto].
    destruct (H2 id Hid); auto.
  - intros id [Hid|[[? _] _]%Hs]%elem_of_app; auto.
  - lia.
  - intros r Hrp. destruct (H6 r Hrp) as [? Hi]. split; [done|].
    rewrite elem_of_app, elem_of_union, elem_of_list_to_set. intros [?|?]; auto.
Qed.

(** A task that has ended leaves its place; its request is free again. *)
Lemma ended_ok leads u a u' a' pending inflight id :
  tasks_ok max seen gone leads u a pending inflight ->
  running u a ≡ₚ id :: running u' a' -> (length u' <= length u)%nat -> (length a' <= length a)%nat ->
  tasks_ok max seen gone leads u' a' pending (inflight ∖ {[id]})
  /\ tasks_ok max seen gone leads u' a' pending inflight.
Proof.
  intros [H1 H2 H3 H4 H5 H6 H7] Hp Hu Ha. rewrite Hp in H1. apply NoDup_cons in H1 as [Hid H1].
  assert (forall x, x ∈ running u' a' -> x ∈ running u a) as Hsub by (intros x; rewrite Hp; by right).
  split; split; try done; try lia; auto.
  - intros x Hx. destruct (H2 x (Hsub x Hx)); [left|by right]. apply elem_of_difference. split; [done|].
    intros ->%elem_of_singleton. done.
  - intros r Hr. destruct (H6 r Hr) as [? Hi]. split; [done|]. intros Hx. apply elem_of_difference.
    split; [auto|]. intros E%elem_of_singleton. by rewrite E in Hx.
  - intros r Hr. destruct (H6 r Hr) as [? Hi]. split; [done|]. auto.
Qed.

Lemma park_same task err self :
  let self' := (park_unapproved view task err self).1 in
  is_leader self' = is_leader self /\ unapproved_deposit_tasks self' = unapproved_deposit_tasks self
  /\ approved_deposit_tasks self' = approved_deposit_tasks self
  /\ pending_unapproved_deposit_requests self' = pending_unapproved_deposit_requests self
  /\ inflight_deposits self' = inflight_deposits self.
Proof.
  destruct err; cbn [park_unapproved unapproved_kind]; try done;
    match goal with |- context [if ?b then _ else _] => by destruct b end.
Qed.

Lemma unapproved_ended_ok place how self self' task :
  ok self -> unapproved_deposit_tasks self !! place = Some task ->
  handle_completed_unapproved_deposit_task view (joined_with task how)
    (with_tasks self (delete place (unapproved_deposit_tasks self)) (approved_deposit_tasks self)
       (inflight_deposits self)) = Ok self' ->
  ok self'.
Proof.
  intros H Ht E.
  assert (running (unapproved_deposit_tasks self) (approved_deposit_tasks self)
    ≡ₚ task_id task :: running (delete place (unapproved_deposit_tasks self)) (approved_deposit_tasks self)) as Hp.
  { unfold running. by rewrite (delete_Permutation _ _ _ Ht) at 1. }
  destruct (ended_ok _ _ _ _ _ _ _ _ H Hp) as [Hok Hkept]; [rewrite length_delete by eauto; lia|done|].
  destruct how as [result| |]; cbn [joined_with handle_completed_unapproved_deposit_task] in E;
    [|done|injection E as <-; exact Hkept].
  set (freed := without_inflight _ _) in E. assert (ok freed) as Hfreed by exact Hok.
  assert (exists parked reload, (match result with None => (freed, false)
    | Some err => park_unapproved view task err freed end) = (parked, reload) /\ ok parked) as (parked & reload & Epark & Hpk).
  { destruct result as [err|]; [|by exists freed, false]. pose proof (park_same task err freed) as Hsame.
    destruct (park_unapproved view task err freed) as [parked reload]. cbn in Hsame. exists parked, reload.
    split; [done|]. destruct Hsame as (E1 & E2 & E3 & E4 & E5). unfold leader_ok. by rewrite E1, E2, E3, E4, E5. }
  rewrite Epark in E. injection E as <-. destruct (is_leader parked) eqn:El.
  - destruct reload; apply process_unapproved_ok; rewrite ?reload_leads; auto using reload_ok.
  - by eapply tasks_ok_drained.
Qed.

Lemma approved_ended_ok place how self self' request :
  ok self -> approved_deposit_tasks self !! place = Some request ->
  handle_completed_approved_deposit_task view (joined_with (dq_id request) how)
    (with_tasks self (unapproved_deposit_tasks self) (delete place (approved_deposit_tasks self))
       (inflight_deposits self)) = Ok self' ->
  ok self'.
Proof.
  intros H Ht E.
  assert (running (unapproved_deposit_tasks self) (approved_deposit_tasks self)
    ≡ₚ dq_id request :: running (unapproved_deposit_tasks self) (delete place (approved_deposit_tasks self))) as Hp.
  { unfold running. rewrite (delete_Permutation _ _ _ Ht) at 1. cbn. by rewrite Permutation_middle. }
  destruct (ended_ok _ _ _ _ _ _ _ _ H Hp) as [Hok Hkept]; [done|rewrite length_delete by eauto; lia|].
  destruct how as [[[]|err]| |]; cbn [joined_with handle_completed_approved_deposit_task] in E; [..|done|];
    injection E as <-; [exact Hok|exact Hok| |exact Hkept].
  destruct (bool_decide _); [exact Hok|]. destruct err; exact Hok.
Qed.

Lemma leader_turn_ok event self self' : ok self -> leader_turn_of view event self = Ok self' -> ok self'.
Proof.
  intros H E. destruct event as [leads| | |place how|place how]; cbn [leader_turn_of] in E.
  - injection E as <-. pose proof (set_leadership_ok leads self H) as Hs. destruct leads; [|by apply check_halt_ok].
    assert (is_leader (set_leadership true self) = true) as Hl by done.
    destruct (stale_ok _ Hl Hs) as [Hst Hl']. apply process_approved_ok.
    destruct (_ || _); [by apply actionable_ok|done].
  - injection E as <-. destruct (is_leader self) eqn:Hl; [by apply actionable_ok|done].
  - injection E as <-. by apply activate_ok.
  - destruct (_ !! place) as [task|] eqn:Et; [by eapply unapproved_ended_ok|congruence].
  - destruct (_ !! place) as [request|] eqn:Et; [by eapply approved_ended_ok|congruence].
Qed.
End turn.

(** ** Runs *)

(** What the node sees at one time: the queue keyed by ids, every request of it tracked, and
    no request that had left the tracker. *)
Record view_ok (max : nat) (gone : gset Address) (view : LeaderView) : Prop := {
  vo_keyed : requests_keyed view;
  vo_max : lv_max_concurrent view = max;
  vo_tracked : forall id r, lv_requests view !! id = Some r -> contains_request (lv_tracker view) id = true;
  vo_fresh : forall id r, lv_requests view !! id = Some r -> id ∉ gone;
}.

Definition seen_after (seen : gset Address) (view : LeaderView) : gset Address := seen ∪ dom (lv_requests view).
Definition gone_after (seen gone : gset Address) (view : LeaderView) : gset Address :=
  gone ∪ filter (fun id => contains_request (lv_tracker view) id = false) (seen_after seen view).

(** Any events in any order, each with its own view. *)
Inductive deposits_run (max : nat) : gset Address -> gset Address -> Leader -> Prop :=
| run_new : deposits_run max ∅ ∅ leader_new
| run_turn seen gone view event self self' :
    deposits_run max seen gone self -> view_ok max gone view -> leader_turn_of view event self = Ok self' ->
    deposits_run max (seen_after seen view) (gone_after seen gone view) self'.

Lemma run_ok max seen gone self : deposits_run max seen gone self -> leader_ok max seen gone self.
Proof.
  induction 1 as [|seen gone view event self self' _ IH [Hk Hm Ht Hf] E]; [apply tasks_ok_idle|].
  eapply (leader_turn_ok max _ _ view Hk Hm); [| | |exact E].
  - intros id r Hr. assert (id ∈ seen_after seen view) as Hs.
    { unfold seen_after. rewrite elem_of_union, elem_of_dom. right. by eexists. }
    split; [done|]. unfold gone_after. rewrite elem_of_union, elem_of_filter, (Ht _ _ Hr).
    intros [?|[? _]]; [by eapply Hf|done].
  - intros id Hs Hc. unfold gone_after. rewrite elem_of_union, elem_of_filter. by right.
  - eapply tasks_ok_mono; [..|exact IH]; unfold seen_after, gone_after; set_solver.
Qed.


(** Which confirmations are submitted.  Unless processing is halted, which ends every task,
    the leader starts a confirmation exactly for the requests approved in this epoch whose
    delay has passed, whose output the pool does not hold, that are the earliest approved of
    their output, and that are neither given up, in flight nor backing off: no other is
    started, and one is left out only when the set of tasks is full. *)
Theorem confirmations_scheduled view self :
  requests_keyed view ->
  let self' := process_approved_deposit_requests view self in
  if halted view then approved_deposit_tasks self' = [] /\ unapproved_deposit_tasks self' = []
  else
    exists started,
      approved_deposit_tasks self' = approved_deposit_tasks self ++ started
      /\ unapproved_deposit_tasks self' = unapproved_deposit_tasks self
      /\ NoDup (dq_id <$> started)
      /\ (forall r, r ∈ started -> to_confirm view self r /\ startable view self r)
      /\ (length (approved_deposit_tasks self')
            <= Nat.max (length (approved_deposit_tasks self)) (lv_max_concurrent view))%nat
      /\ ((length (approved_deposit_tasks self') < lv_max_concurrent view)%nat ->
          forall r, to_confirm view self r -> startable view self r -> r ∈ started).
Proof.
  intros Hk self'. destruct (halted view) eqn:Hh.
  - subst self'. unfold process_approved_deposit_requests, check_halt_deposit_processing.
    fold (halted view). by rewrite Hh.
  - destruct (scheduled_spec view self Hk Hh) as (started & ? & ? & _ & _ & _ & ? & ? & ? & ?).
    exists started. by split_and!.
Qed.

(** ** What an approval says *)

Section approval.
Context `{DE : DepositEnv} {BLw : BlsLaws}.

(** C26: what the leader submits.  An approval goes to the chain only after the leader's own
    validation of the request passed; the certificate is over exactly this request and output
    and every verifier of the committee accepts it at the threshold, whoever answered, in
    whatever order.  Without a submission the chain has not been asked and the task failed. *)
Theorem approval_certified self c spent place monitor trm members replies executor approve req :
  committees (dn_signer self) !! onchain_epoch (node_state self) = Some c ->
  committee_wf c -> CommitteeProofs.weights_fit c -> 0 < total_weight c ->
  total_weight c * CERTIFICATE_THRESHOLD_BPS <= u64_max -> replies_of c members replies ->
  let '(r, submitted) :=
    process_unapproved_deposit self spent place monitor trm replies executor approve req in
  match submitted with
  | Some cert =>
      (exists a txout, validated self spent monitor trm req a txout)
      /\ sm_message cert = mkDepositConfirmationMessage (dq_id req) (dq_utxo req)
      /\ verify_signature_and_weight c (hashi_object_id (dn_signer self)) cert
           (certificate_threshold (total_weight c)) = Ok tt
      /\ r = if approve req cert then Ok tt else Err ApproveDepositFailed
  | None => r <> Ok tt
  end.
Proof.
  intros Hc Hwf Hfit Hpos Hbps Hrep. unfold process_unapproved_deposit. rewrite Hc.
  destruct (validate_deposit_request _ _ _ _ _ _) as [[]|e|] eqn:Ev; [|done..].
  apply validate_Ok in Ev as [_ Hv].
  pose proof (collected_exact c (hashi_object_id (dn_signer self)) (confirmation_message req) Hwf members replies
    Hfit Hpos Hbps Hrep) as Hq.
  destruct (collect_signatures _ _ _) as [[[]|e|] agg]; [|done..].
  destruct Hq as (cert & -> & Hm & Hver). destruct executor; cbn; [|done].
  destruct (approve req cert) eqn:Ea; split_and!; try done; by rewrite Ea.
Qed.
End approval.

(** ** A turn *)

Import SmallGuardian.
#[local] Existing Instance script_units.
#[local] Existing Instance script_env.
#[local] Existing Instance checksum_signing.
#[local] Existing Instance script_deposits.

(** A request to approve, a later one for the same output, and one that was approved. *)
Definition later : DepositRequest :=
  {| dq_id := 54; dq_sender := 4; dq_created_timestamp_ms := 2000; dq_sui_tx_digest := [2];
     dq_utxo := dq_utxo deposited; dq_approval_cert := None;
     dq_approved_timestamp_ms := None; dq_confirmed_timestamp_ms := None |}.
Definition approved : DepositRequest :=
  {| dq_id := 56; dq_sender := 4; dq_created_timestamp_ms := 900; dq_sui_tx_digest := [3];
     dq_utxo := mkMoveUtxo (902, 0) 60000 (Some 4); dq_approval_cert := Some (mkApprovalCert 3 [] []);
     dq_approved_timestamp_ms := Some 5000; dq_confirmed_timestamp_ms := None |}.

Definition tracker_of (rs : list DepositRequest) : TrackerState :=
  fold_left (fun t r => match upsert_request t (dq_id r) (outpoint_of r) with Ok (t, _) => t | _ => t end) rs
    (tracker_new false).

Definition queue : list DepositRequest := [later; deposited; approved].
Definition at_checkpoint : LeaderView :=
  {| lv_epoch := 3; lv_threshold := 6; lv_requests := list_to_map ((fun r => (dq_id r, r)) <$> queue);
     lv_tracker := tracker_of queue; lv_used := fun _ => false; lv_now_ms := 9000; lv_delay_ms := 4000;
     lv_block_sequence := 1; lv_max_concurrent := 2; lv_paused := false; lv_must_halt := false;
     lv_reconfiguring := false |}.

Definition leading : Leader :=
  match leader_turn_of at_checkpoint (CheckpointChanged true) leader_new with Ok self => self | _ => leader_new end.

Lemma queue_distinct : ids_distinct queue.
Proof. intros a b Ha Hb. unfold queue in *. set_unfold in Ha. set_unfold in Hb. naive_solver. Qed.

Lemma queue_lookup id r : lv_requests at_checkpoint !! id = Some r -> r ∈ queue /\ id = dq_id r.
Proof.
  intros (r' & E & Hr)%elem_of_list_to_map_2%list_elem_of_fmap. injection E as -> ->. done.
Qed.

Lemma at_checkpoint_ok : view_ok 2 ∅ at_checkpoint.
Proof.
  split; [|done| |set_solver].
  - intros id r [_ ->]%queue_lookup. done.
  - intros id r [Hr ->]%queue_lookup. unfold queue in Hr.
    repeat (apply elem_of_cons in Hr as [->|Hr]; [vm_compute; reflexivity|]). by apply not_elem_of_nil in Hr.
Qed.


Lemma approval_selection_exact_witness :
  select_deposit_requests_to_approve queue ∅ ∅ 3 ReloadAll = [deposited]
  /\ may_approve queue ∅ ∅ 3 ReloadAll deposited.
Proof.
  assert (select_deposit_requests_to_approve queue ∅ ∅ 3 ReloadAll = [deposited]) as E by (vm_compute; reflexivity).
  split; [exact E|].
  apply (approval_selection_exact queue queue ∅ ∅ 3 ReloadAll queue_distinct (reflexivity queue)).
  rewrite E. by left.
Defined.

Lemma confirmations_scheduled_witness :
  approved_deposit_tasks (process_approved_deposit_requests at_checkpoint leader_new) = [approved]
  /\ to_confirm at_checkpoint leader_new approved.
Proof.
  assert (approved_deposit_tasks (process_approved_deposit_requests at_checkpoint leader_new) = [approved]) as E
    by (vm_compute; reflexivity).
  split; [exact E|].
  destruct (confirmations_scheduled at_checkpoint leader_new (vo_keyed _ _ _ at_checkpoint_ok))
    as (started & Ea & _ & _ & Hst & _).
  apply Hst. rewrite E in Ea. cbn in Ea. rewrite <- Ea. by left.
Defined.

(** The scheme of the small guardian aggregates. *)
#[local] Instance checksum_bls_laws : BlsLaws (H := checksum_bls).
Proof.
  split; [intros; cbn; eauto|]. intros m s0 ss agg pks Hv Hf Hp. cbn.
  assert (forall ss agg, fold_left (fun agg s => agg ≫= fun a => Some (a ++ [s.2])) ss (Some agg)
    = Some (agg ++ (ss : list (Z * Z)).*2)) as Hfold.
  { clear. intros ss. induction ss as [|s ss IH]; intros agg; cbn; [by rewrite app_nil_r|].
    rewrite IH. by rewrite <- app_assoc. }
  pose proof (eq_trans (eq_sym Hf) (Hfold ss [s0.2])) as Heq. injection Heq as ->.
  apply bool_decide_eq_true. rewrite Hp.
  change ((s0 :: ss).*2 ≡ₚ (fun pk : Z => pk * 100000 + zsum m) <$> (s0 :: ss).*1).
  rewrite <- list_fmap_compose. apply (reflexive_eq (R:=(≡ₚ))), list_fmap_ext.
  intros i x Hx. eapply Forall_lookup in Hv; [|exact Hx]. by apply Z.eqb_eq in Hv.
Qed.

(** The answers of three members to the request of the deposit. *)
Definition deposit_replies : list Reply :=
  (fun i => Some (25, inl (mkMemberSignature 3 (10 + i)
     (bls_sign (20 + i : BlsPrivateKey) (signing_message hid 3 (confirmation_message deposited)) : BlsSignature))))
    <$> [2; 0; 3].

Lemma deposit_replies_of : replies_of committee_3 [2%nat; 0%nat; 3%nat] deposit_replies.
Proof.
  split_and!.
  - by repeat (constructor; [set_solver|]); constructor.
  - repeat constructor; vm_compute; lia.
  - repeat constructor; vm_compute; reflexivity.
Qed.

Lemma committee_3_fits : CommitteeProofs.weights_fit committee_3.
Proof. split; [repeat constructor; done|]. vm_compute. discriminate. Qed.

Definition approval_run : outcome UnapprovedDepositError unit * option (Committee.SignedMessage DepositConfirmationMessage) :=
  process_unapproved_deposit deposit_node (fun _ => Some false) true deep_check
    (Some (fun _ _ => inl TrmApproved)) deposit_replies true (fun _ _ => true) deposited.

Definition approval_cert : Committee.SignedMessage DepositConfirmationMessage :=
  match approval_run.2 with
  | Some cert => cert
  | None => mkSignedMessage _ (mkCommitteeSignature 0 ([] : BlsAggregateSignature) []) (confirmation_message deposited)
  end.

Lemma approval_ran : approval_run = (Ok tt, Some approval_cert).
Proof. vm_cast_no_check (eq_refl (Ok (E:=UnapprovedDepositError) tt, Some approval_cert)). Qed.

Lemma approval_certified_witness :
  approval_run = (Ok tt, Some approval_cert)
  /\ verify_signature_and_weight committee_3 hid approval_cert 67 = Ok tt.
Proof.
  split; [exact approval_ran|].
  pose proof (approval_certified deposit_node committee_3 (fun _ => Some false) true deep_check
    (Some (fun _ _ => inl TrmApproved)) _ deposit_replies true (fun _ _ => true) deposited eq_refl eq_refl
    committee_3_fits ltac:(vm_compute; reflexivity) ltac:(vm_compute; discriminate) deposit_replies_of) as H.
  fold approval_run in H. rewrite approval_ran in H. destruct H as (_ & _ & H & _). exact H.
Defined.
