(* ===== verification/MpcSigning.v ===== *)
(** * The MPC signing manager

    [crates/hashi/src/mpc/signing.rs]: the pool of presignatures of an epoch, the partial
    signatures a node computes for an input and remembers, the partial signatures it collects
    from its peers, and the attempts to aggregate them.

    A presignature is a nonce: used for two messages it gives the key share away.  The manager
    keeps them in batches of slots that can be emptied once.

    fastcrypto's groups, the random oracles, the generation of partial signatures and their
    aggregation are the interface [ThresholdEnv].  A write under the lock of the state is one
    step; what a peer answers, when a deadline passes and whether a run permit was granted are
    arguments.  Metrics, log lines and pauses between rounds are left out. *)

From stdpp Require Import strings.
From S2P Require Import Limiter CoinSelection Committee TxUtxos Guardian MonitorDomain Withdrawals Retry WithdrawalSigning Prelude.

Definition wadd32 (a b : Z) : Z := (a + b) mod 2 ^ 32.

Definition ShareIndex : Type := Z.

(** ** What the crate offers *)

Inductive Blame := BlameNobody | BlameCertain (indices : list ShareIndex) | BlameInconclusive (indices : list ShareIndex).

Inductive FastCryptoError := FcInvalidSignature | FcInconsistentInputs | FcOther.

Class ThresholdEnv `{SE : SigningEnv} := {
  (** the group [G]; its scalars [S] are the [Delta] of the signing side *)
  Point : Type;
  KeyShares : Type;
  SchnorrOutput : Type;
  scalar_add : Delta -> Delta -> Delta;
  point_add : Point -> Point -> Point;
  generator_mul : Delta -> Point;
  to_byte_array : Point -> list Z;
  POINT_SIZE_IN_BYTES : nat;
  bcs_point : Point -> list Z;
  (** the random oracle of [presig_delta], and Blake2b *)
  presig_oracle : list Z -> Z -> Point -> list Z -> Delta;
  blake2b256 : list Z -> list Z;
  generate_partial_signatures :
    list Z -> list Delta * Point -> Delta -> KeyShares -> Point -> option DerivationPath ->
    option (Point * list (ShareIndex * Delta));
  aggregate_signatures :
    list Z -> Point -> Delta -> list (ShareIndex * Delta) -> Z -> Point -> option DerivationPath ->
    SchnorrOutput * Blame + FastCryptoError;
}.

Section signing.
Context `{TE : ThresholdEnv}.

Definition Eval : Type := ShareIndex * Delta.
Definition Presig : Type := list Delta * Point.

(** ** Deltas and outputs *)

Definition signing_nonce_bytes (public_presig : Point) (beacon : Delta) : list Z :=
  to_byte_array (point_add public_presig (generator_mul beacon)).

Definition presig_delta (randomness : list Z) (global_presig_index : Z) (public_nonce : Point)
    (dealer_set_digest : list Z) : Delta :=
  presig_oracle randomness global_presig_index public_nonce dealer_set_digest.

Definition signing_delta (message_delta presig_delta : Delta) : Delta := scalar_add message_delta presig_delta.

Definition signing_request_digest (message : list Z) (derivation_address : option DerivationPath) : list Z :=
  blake2b256 (le_bytes 8 (Z.of_nat (length message)) ++ message
    ++ match derivation_address with Some a => 1 :: address_bytes a | None => [0] end).

Record PartialSigningOutput := mkPartialSigningOutput {
  po_public_nonce : Point;
  po_presig_delta : Delta;
  po_signing_nonce_bytes : list Z;
  po_request_digest : list Z;
  po_partial_sigs : list Eval;
}.

Definition partial_signing_output_new (public_nonce : Point) (message_delta presig_delta : Delta)
    (message : list Z) (derivation_address : option DerivationPath) (partial_sigs : list Eval)
    : PartialSigningOutput :=
  {| po_signing_nonce_bytes := signing_nonce_bytes public_nonce (signing_delta message_delta presig_delta);
     po_request_digest := signing_request_digest message derivation_address;
     po_public_nonce := public_nonce;
     po_presig_delta := presig_delta;
     po_partial_sigs := partial_sigs |}.

(** [CryptoError] carries whether the inputs were inconsistent. *)
Inductive SigningError :=
| CryptoError (inconsistent : bool)
| SigningTimeout (collected : nat) (threshold : Z)
| TooManyInvalidSignatures (collected : nat) (threshold : Z)
| PoolExhausted
| RequestChanged (signing_id : Address)
| PresigBatchNotSealed (batch_index : Z)
| SealDealerSetMismatch (batch_index : Z)
| MalformedSealRandomness (batch_index : Z).

(** ** Batches *)

Record PresigBatch := mkPresigBatch {
  pool : list (option Presig);
  start_index : Z;
  pb_batch_index : Z;
  pb_dealer_set_digest : list Z;
}.

Definition end_index (self : PresigBatch) : Z := wadd (start_index self) (Z.of_nat (length (pool self))).
Definition contains (self : PresigBatch) (global_index : Z) : bool :=
  (start_index self <=? global_index) && (global_index <? end_index self).
Definition is_fully_consumed (self : PresigBatch) : bool :=
  forallb (fun s => bool_decide (s = None)) (pool self).
Definition remaining (self : PresigBatch) : nat :=
  length (List.filter (fun s => negb (bool_decide (s = None))) (pool self)).

Record PresigBatchIdentity := mkPresigBatchIdentity {
  pi_epoch : Z;
  pi_batch_index : Z;
  fingerprint : list Z;
  pi_size : Z;
  pi_batch_size_per_weight : Z;
}.

Record IdentityInputs := mkIdentityInputs { ii_epoch : Z; ii_batch_size_per_weight : Z }.

(** [constants::PRESIG_BATCH_IDENTITY_DOMAIN] *)
Definition PRESIG_BATCH_IDENTITY_DOMAIN : list Z :=
  (fun a => Z.of_N (Ascii.N_of_ascii a)) <$> String.list_ascii_of_string "hashi/presig-batch-identity/v1".

Definition presig_batch_fingerprint (epoch : Z) (nonces : list Point) : list Z :=
  blake2b256 (PRESIG_BATCH_IDENTITY_DOMAIN ++ le_bytes 8 epoch
    ++ le_bytes 4 (as_u32 (Z.of_nat (length nonces))) ++ concat (bcs_point <$> nonces)).

Definition identity_for (self : IdentityInputs) (batch_index : Z) (nonces : list Point) : PresigBatchIdentity :=
  mkPresigBatchIdentity (ii_epoch self) batch_index (presig_batch_fingerprint (ii_epoch self) nonces)
    (as_u32 (Z.of_nat (length nonces))) (ii_batch_size_per_weight self).

Record PrefetchedBatch := mkPrefetchedBatch {
  nb_batch_index : Z;
  nb_pool : list (option Presig);
  nb_dealer_set_digest : list Z;
  nb_identity : PresigBatchIdentity;
}.

(** ** The manager *)

Record SigningEpochConfig := mkSigningEpochConfig {
  sc_address : Address;
  sc_committee : Committee;
  sc_t : Z;
  sc_key_shares : KeyShares;
  sc_verifying_key : Point;
  share_owners : gmap ShareIndex Address;
  owned_counts : gmap Address nat;
  refill_divisor : nat;
}.

Definition owned_counts_by_member (share_owners : gmap ShareIndex Address) : gmap Address nat :=
  fold_left (fun counts owner => <[owner := S (default 0%nat (counts !! owner))]> counts)
    (map_to_list share_owners).*2 ∅.

Definition signing_config (address : Address) (committee : Committee) (t : Z) (key_shares : KeyShares)
    (verifying_key : Point) (share_owners : gmap ShareIndex Address) (refill_divisor : nat) : SigningEpochConfig :=
  mkSigningEpochConfig address committee t key_shares verifying_key share_owners
    (owned_counts_by_member share_owners) refill_divisor.

Record RefillRequest := mkRefillRequest { rq_epoch : Z; rq_batch_index : Z }.

(** The state under its lock, the last value of the refill channel, and the peers that are
    left alone until a time. *)
Record SigningManager := mkSigningManager {
  sm_config : SigningEpochConfig;
  batches : list PresigBatch;
  partial_signing_outputs : gmap Address PartialSigningOutput;
  next_batch : option PrefetchedBatch;
  refill_tx : RefillRequest;
  cooling_until : gmap Address Z;
}.

Definition with_batches (self : SigningManager) (b : list PresigBatch) (n : option PrefetchedBatch) : SigningManager :=
  mkSigningManager (sm_config self) b (partial_signing_outputs self) n (refill_tx self) (cooling_until self).
Definition with_outputs (self : SigningManager) (o : gmap Address PartialSigningOutput) : SigningManager :=
  mkSigningManager (sm_config self) (batches self) o (next_batch self) (refill_tx self) (cooling_until self).
Definition with_refill (self : SigningManager) (r : RefillRequest) : SigningManager :=
  mkSigningManager (sm_config self) (batches self) (partial_signing_outputs self) (next_batch self) r
    (cooling_until self).
Definition with_cooling (self : SigningManager) (c : gmap Address Z) : SigningManager :=
  mkSigningManager (sm_config self) (batches self) (partial_signing_outputs self) (next_batch self)
    (refill_tx self) c.

Definition signing_manager_new (config : SigningEpochConfig) (presignatures : list Presig)
    (dealer_set_digest : list Z) (batch_index batch_start_index : Z) (refill_tx : RefillRequest)
    (identity_inputs : IdentityInputs) : SigningManager * PresigBatchIdentity :=
  let identity := identity_for identity_inputs batch_index presignatures.*2 in
  let batch := mkPresigBatch (Some <$> presignatures) batch_start_index batch_index dealer_set_digest in
  (mkSigningManager config [batch] ∅ None refill_tx ∅, identity).

(** A batch a restarted node keeps: its presignatures, its index, its start and its digest. *)
Definition Retained : Type := list Presig * Z * Z * list Z.

(** Only the indices that are not consumed yet, or that a pending request was given, are
    usable. *)
Definition recovered_slot (num_consumed : Z) (pending : gset Z) (start_index : Z) (i : nat) (presig : Presig)
    : option Presig :=
  let global := wadd start_index (Z.of_nat i) in
  if (num_consumed <=? global) || bool_decide (global ∈ pending) then Some presig else None.

Definition recovered_batch (num_consumed : Z) (pending : gset Z) (r : Retained) : PresigBatch :=
  let '(presignatures, batch_index, start_index, dealer_set_digest) := r in
  mkPresigBatch (imap (recovered_slot num_consumed pending start_index) presignatures)
    start_index batch_index dealer_set_digest.

Definition covered_in (pending : gset Z) (r : Retained) : nat :=
  let '(presignatures, _, start_index, _) := r in
  length (List.filter (fun i => bool_decide (wadd start_index (Z.of_nat i) ∈ pending))
            (seq 0 (length presignatures))).

(** [None] is the error that a pending index is not covered. *)
Definition new_recovered (config : SigningEpochConfig) (retained : list Retained) (num_consumed : Z)
    (pending : gset Z) (refill_tx : RefillRequest) (identity_inputs : IdentityInputs)
    : option (SigningManager * list (Z * PresigBatchIdentity)) :=
  let identities :=
    (fun '(presignatures, batch_index, _, _) =>
       (batch_index, identity_for identity_inputs batch_index presignatures.*2)) <$> retained in
  let covered_pending := sum_list (covered_in pending <$> retained) in
  if bool_decide (covered_pending = size pending) then
    Some (mkSigningManager config (recovered_batch num_consumed pending <$> retained) ∅ None refill_tx ∅,
          identities)
  else None.

Definition epoch (self : SigningManager) : Z := c_epoch (sc_committee (sm_config self)).

Definition batch_index (self : SigningManager) : Z := from_option pb_batch_index 0 (last (batches self)).

(** Refuses a batch that is not newer than the last one. *)
Definition set_next_batch (self : SigningManager) (batch_index : Z) (presignatures : list Presig)
    (dealer_set_digest : list Z) (identity_inputs : IdentityInputs)
    : SigningManager * option PresigBatchIdentity :=
  let identity := identity_for identity_inputs batch_index presignatures.*2 in
  let stale := match last (batches self) with
               | Some latest => batch_index <=? pb_batch_index latest
               | None => false
               end in
  if stale then (self, None)
  else (with_batches self (batches self)
          (Some (mkPrefetchedBatch batch_index (Some <$> presignatures) dealer_set_digest identity)),
        Some identity).

Definition has_next_batch (self : SigningManager) : bool := bool_decide (is_Some (next_batch self)).
Definition prefetched_batch_index (self : SigningManager) : option Z := nb_batch_index <$> next_batch self.
Definition initial_presig_count (self : SigningManager) : nat :=
  from_option (fun b => length (pool b)) 0%nat (last (batches self)).
Definition presignatures_remaining (self : SigningManager) : nat :=
  from_option remaining 0%nat (last (batches self)).

Definition available_presig_end_index (self : SigningManager) : Z :=
  let batch_end := from_option end_index 0 (last (batches self)) in
  let next_index := wadd32 (batch_index self) 1 in
  match next_batch self with
  | Some next =>
      if nb_batch_index next =? next_index then wadd batch_end (Z.of_nat (length (nb_pool next))) else batch_end
  | None => batch_end
  end.

Definition request_refill (self : SigningManager) (batch_index : Z) : SigningManager :=
  with_refill self (mkRefillRequest (epoch self) batch_index).

Definition trigger_refill (self : SigningManager) : SigningManager :=
  request_refill self (wadd32 (batch_index self) 1).

Inductive SkipReason := OtherEpoch (epoch : Z) | OtherBatch (expected : Z) | AlreadyStaged.

Definition refill_skip_reason (self : SigningManager) (request : RefillRequest) : option SkipReason :=
  let expected := wadd32 (batch_index self) 1 in
  if negb (rq_epoch request =? epoch self) then Some (OtherEpoch (epoch self))
  else if negb (rq_batch_index request =? expected) then Some (OtherBatch expected)
  else if bool_decide (prefetched_batch_index self = Some (rq_batch_index request)) then Some AlreadyStaged
  else None.

(** ** Local partial signatures *)

Record PresigSeal := mkPresigSeal { sl_randomness : list Z; sl_dealer_set_digest : list Z }.

Inductive CacheOrPresig :=
| Cached (existing : PartialSigningOutput) (batch_index : Z)
| TakenPresig (presig : Presig) (randomness dealer_set_digest : list Z) (batch_index : Z) (position : nat).

#[local] Abbreviation Locked := (M SigningManager SigningError).

Definition find_batch (bs : list PresigBatch) (global_presig_index : Z) : option (nat * PresigBatch) :=
  list_find (fun b => contains b global_presig_index = true) bs.

(** The prefetched batch is put behind the last one if it is the one expected there. *)
Definition install_next (self : SigningManager) : SigningManager :=
  match last (batches self) with
  | None => self
  | Some latest =>
      let next_batch_index := wadd32 (pb_batch_index latest) 1 in
      match next_batch self with
      | Some next =>
          if nb_batch_index next =? next_batch_index then
            let batch := mkPresigBatch (nb_pool next) (end_index latest) next_batch_index (nb_dealer_set_digest next) in
            with_batches self (batches self ++ [batch]) None
          else if nb_batch_index next <? next_batch_index then with_batches self (batches self) None
          else request_refill self next_batch_index
      | None => self
      end
  end.

(** The batch with the index, after an attempt to install the next one. *)
Definition locate (global_presig_index : Z) : Locked (nat * PresigBatch) := fun self =>
  match find_batch (batches self) global_presig_index with
  | Some found => (Ok found, self)
  | None =>
      let self := install_next self in
      match find_batch (batches self) global_presig_index with
      | Some found => (Ok found, self)
      | None =>
          let self :=
            match next_batch self with
            | None => request_refill self (wadd32 (batch_index self) 1)
            | Some _ => self
            end in
          (Err PoolExhausted, self)
      end
  end.

Definition take_slot (i : nat) (position : nat) (bs : list PresigBatch) : list PresigBatch :=
  alter (fun b => mkPresigBatch (<[position := None]> (pool b)) (start_index b) (pb_batch_index b)
                    (pb_dealer_set_digest b)) i bs.

(** Consumed batches go, but the last one stays. *)
Fixpoint prune_consumed (bs : list PresigBatch) : list PresigBatch :=
  match bs with
  | [] => []
  | b :: rest =>
      match rest with
      | [] => bs
      | _ :: _ => if is_fully_consumed b then prune_consumed rest else bs
      end
  end.

(** A refill is asked for when the last batch runs low; a divisor of zero panics. *)
Definition refill_if_low (self : SigningManager) : outcome SigningError SigningManager :=
  match last (batches self) with
  | None => Ok self
  | Some latest =>
      let divisor := refill_divisor (sm_config self) in
      if (divisor =? 0)%nat then Panic
      else if (remaining latest <=? length (pool latest) / divisor)%nat
      then Ok (request_refill self (wadd32 (pb_batch_index latest) 1))
      else Ok self
  end.

(** The part of [prepare_local_partial_signatures] under the lock. *)
Definition take_presig (signing_id : Address) (global_presig_index : Z) (seals : gmap Z PresigSeal)
    : Locked CacheOrPresig := fun self =>
  match partial_signing_outputs self !! signing_id with
  | Some existing => (Ok (Cached existing (batch_index self)), self)
  | None =>
      match locate global_presig_index self with
      | (Err e, self) => (Err e, self)
      | (Panic, self) => (Panic, self)
      | (Ok (i, batch), self) =>
          match seals !! pb_batch_index batch with
          | None => (Err (PresigBatchNotSealed (pb_batch_index batch)), self)
          | Some seal =>
              if negb (bool_decide (sl_dealer_set_digest seal = pb_dealer_set_digest batch))
              then (Err (SealDealerSetMismatch (pb_batch_index batch)), self)
              else if negb (length (sl_randomness seal) =? 32)%nat
              then (Err (MalformedSealRandomness (pb_batch_index batch)), self)
              else
                let position := Z.to_nat (global_presig_index - start_index batch) in
                match pool batch !! position with
                | Some (Some presig) =>
                    let self := with_batches self (take_slot i position (batches self)) (next_batch self) in
                    match refill_if_low self with
                    | Ok self =>
                        (Ok (TakenPresig presig (sl_randomness seal) (pb_dealer_set_digest batch)
                               (pb_batch_index batch) position),
                         with_batches self (prune_consumed (batches self)) (next_batch self))
                    | _ => (Panic, self)
                    end
                | _ => (Err PoolExhausted, self)
                end
          end
      end
  end.

Definition LocalPartials : Type := Point * list Eval * Delta * list Z.

(** The part after it: what is remembered is checked against the request; a presignature is
    used, and the output is remembered under the lock again. *)
Definition use_taken (taken : CacheOrPresig) (signing_id : Address) (message : list Z)
    (global_presig_index : Z) (message_delta : Delta) (derivation_address : option DerivationPath)
    : Locked LocalPartials := fun self =>
  match taken with
  | Cached existing _ =>
      let digest := signing_request_digest message derivation_address in
      let beacon := signing_delta message_delta (po_presig_delta existing) in
      let nonce := signing_nonce_bytes (po_public_nonce existing) beacon in
      if negb (bool_decide (po_request_digest existing = digest))
         || negb (bool_decide (po_signing_nonce_bytes existing = nonce))
      then (Err (RequestChanged signing_id), self)
      else (Ok (po_public_nonce existing, po_partial_sigs existing, beacon, nonce), self)
  | TakenPresig presig randomness dealer_set_digest _ _ =>
      let delta := presig_delta randomness global_presig_index presig.2 dealer_set_digest in
      let beacon := signing_delta message_delta delta in
      match generate_partial_signatures message presig beacon (sc_key_shares (sm_config self))
              (sc_verifying_key (sm_config self)) derivation_address with
      | None => (Err (CryptoError false), self)
      | Some (public_nonce, partial_sigs) =>
          let output :=
            partial_signing_output_new public_nonce message_delta delta message derivation_address partial_sigs in
          (Ok (public_nonce, partial_sigs, beacon, po_signing_nonce_bytes output),
           with_outputs self (<[signing_id := output]> (partial_signing_outputs self)))
      end
  end.

Definition prepare_local_partial_signatures (signing_id : Address) (message : list Z)
    (global_presig_index : Z) (message_delta : Delta) (seals : gmap Z PresigSeal)
    (derivation_address : option DerivationPath) : Locked LocalPartials :=
  taken ← take_presig signing_id global_presig_index seals;
  use_taken taken signing_id message global_presig_index message_delta derivation_address.

Definition handle_get_partial_signatures_request (self : SigningManager) (signing_ids : list Address)
    : gmap Address (list Eval) * gmap Address (list Z) :=
  fold_left (fun '(sigs, nonces) id =>
    match partial_signing_outputs self !! id with
    | Some output =>
        (<[id := po_partial_sigs output]> sigs, <[id := po_signing_nonce_bytes output]> nonces)
    | None => (sigs, nonces)
    end) signing_ids (∅, ∅).

(** ** The inputs that are being signed *)

Record InputSigningState := mkInputSigningState {
  st_signing_id : Address;
  st_message : list Z;
  st_public_nonce : Point;
  st_derivation_address : option DerivationPath;
  st_signing_nonce_bytes : list Z;
  st_beacon : Delta;
  partials : list Eval;
  early_exit_floor : nat;
  peers_remaining : gset Address;
  clean_attempted : bool;
  unflagged_prefix_attempted : option (list ShareIndex);
  erased_attempted : option (list ShareIndex);
  required_full : nat;
  required_erased : nat;
}.

Definition input_state_new (signing_id : Address) (message : list Z) (public_nonce : Point) (beacon : Delta)
    (signing_nonce_bytes : list Z) (derivation_address : option DerivationPath) (partials : list Eval)
    (early_exit_floor : nat) (peers_remaining : gset Address) : InputSigningState :=
  mkInputSigningState signing_id message public_nonce derivation_address signing_nonce_bytes beacon
    partials early_exit_floor peers_remaining false None None 0 0.

Definition all_peers (config : SigningEpochConfig) : gset Address :=
  list_to_set (List.filter (fun a => negb (a =? sc_address config)) (cm_address <$> c_members (sc_committee config))).

Definition SigningResult : Type := Address * (SchnorrOutput + SigningError).

(** The inputs whose partial signatures are there, and the results of the others. *)
Fixpoint prepare_local (inputs : list SignInput) (seals : gmap Z PresigSeal) (self : SigningManager)
    : outcome Empty_set (list InputSigningState * list SigningResult) * SigningManager :=
  match inputs with
  | [] => (Ok ([], []), self)
  | input :: inputs =>
      let address := Some (si_derivation_address input) in
      match prepare_local_partial_signatures (si_signing_id input) (si_message input)
              (si_global_presig_index input) (si_message_delta input) seals address self with
      | (Panic, self) => (Panic, self)
      | (Ok (public_nonce, partials, beacon, nonce), self) =>
          let st := input_state_new (si_signing_id input) (si_message input) public_nonce beacon nonce address
                      partials (Z.to_nat (sc_t (sm_config self))) (all_peers (sm_config self)) in
          match prepare_local inputs seals self with
          | (Ok (pending, results), self) => (Ok (st :: pending, results), self)
          | r => r
          end
      | (Err e, self) =>
          match prepare_local inputs seals self with
          | (Ok (pending, results), self) => (Ok (pending, (si_signing_id input, inr e) :: results), self)
          | r => r
          end
      end
  end.

(** ** Attempts to aggregate *)

Definition unflagged (self : InputSigningState) (flagged : gset ShareIndex) : list Eval :=
  List.filter (fun e => negb (bool_decide (e.1 ∈ flagged))) (partials self).

Definition unflagged_prefix_key (self : InputSigningState) (t : nat) (unflagged : list Eval)
    (flagged : gset ShareIndex) : option (list ShareIndex) :=
  if (length (partials self) <? t)%nat || (length unflagged <? t)%nat
     || negb (existsb (fun e => bool_decide (e.1 ∈ flagged)) (take t (partials self)))
  then None
  else
    let key := (take t unflagged).*1 in
    if bool_decide (unflagged_prefix_attempted self = Some key) then None else Some key.

Definition recovery_attemptable (self : InputSigningState) (t : nat) : bool :=
  (Nat.max (t + 2) (required_full self) <=? length (partials self))%nat.

Definition erased_key (self : InputSigningState) (t : nat) (unflagged : list Eval) : option (list ShareIndex) :=
  if (length (partials self) <=? length unflagged)%nat then None
  else
    let key := unflagged.*1 in
    let gate :=
      match erased_attempted self with
      | Some prev => if existsb (fun idx => negb (bool_decide (idx ∈ key))) prev then 0%nat else required_erased self
      | None => required_erased self
      end in
    if (Nat.max (t + 2) gate <=? length unflagged)%nat && negb (bool_decide (erased_attempted self = Some key))
    then Some key else None.

Definition would_aggregate (self : InputSigningState) (t : nat) (flagged : gset ShareIndex) : bool :=
  if (length (partials self) <? t)%nat then false
  else if negb (clean_attempted self) then true
  else
    let u := unflagged self flagged in
    bool_decide (is_Some (unflagged_prefix_key self t u flagged))
    || recovery_attemptable self t
    || bool_decide (is_Some (erased_key self t u)).

Definition can_attempt (self : InputSigningState) (t : nat) (flagged : gset ShareIndex) : bool :=
  (early_exit_floor self <=? length (partials self))%nat && would_aggregate self t flagged.

(** What an attempt changes. *)
Definition with_attempts (self : InputSigningState) (clean : bool) (prefix erased : option (list ShareIndex))
    (full_at erased_at : nat) : InputSigningState :=
  mkInputSigningState (st_signing_id self) (st_message self) (st_public_nonce self)
    (st_derivation_address self) (st_signing_nonce_bytes self) (st_beacon self) (partials self)
    (early_exit_floor self) (peers_remaining self) clean prefix erased full_at erased_at.

Inductive FinalizeOutcome :=
| Done (sig : SchnorrOutput) (blame : Blame)
| NeedMore
| Exhausted
| Failed (e : SigningError).

Definition next_rs_attempt_at (threshold n : nat) : nat := threshold + 2 * ((n - threshold) / 2 + 1).

Definition aggregate (config : SigningEpochConfig) (st : InputSigningState) (sigs : list Eval)
    : SchnorrOutput * Blame + FastCryptoError :=
  aggregate_signatures (st_message st) (st_public_nonce st) (st_beacon st) sigs (sc_t config)
    (sc_verifying_key config) (st_derivation_address st).

(** One attempt: an invalid signature goes on to the next one. *)
Definition attempt_with (config : SigningEpochConfig) (st : InputSigningState) (sigs : list Eval)
    (next : FinalizeOutcome * InputSigningState) : FinalizeOutcome * InputSigningState :=
  match aggregate config st sigs with
  | inl (sig, blame) => (Done sig blame, st)
  | inr FcInvalidSignature => next
  | inr FcInconsistentInputs => (Failed (CryptoError true), st)
  | inr FcOther => (Failed (CryptoError false), st)
  end.

Definition need_more_or_fail (peers_exhausted : bool) : FinalizeOutcome :=
  if peers_exhausted then Exhausted else NeedMore.

(** The four attempts: the first [t] partial signatures, the first [t] that are not flagged,
    all of them, all that are not flagged. *)
Definition attempt_erased (config : SigningEpochConfig) (peers_exhausted : bool) (u : list Eval) (t : nat)
    (st : InputSigningState) : FinalizeOutcome * InputSigningState :=
  match erased_key st t u with
  | None => (need_more_or_fail peers_exhausted, st)
  | Some key =>
      let st := with_attempts st (clean_attempted st) (unflagged_prefix_attempted st) (Some key)
                  (required_full st) (required_erased st) in
      attempt_with config st u
        (need_more_or_fail peers_exhausted,
         with_attempts st (clean_attempted st) (unflagged_prefix_attempted st) (erased_attempted st)
           (required_full st) (next_rs_attempt_at t (length u)))
  end.

Definition attempt_full (config : SigningEpochConfig) (peers_exhausted : bool) (u : list Eval) (t : nat)
    (st : InputSigningState) : FinalizeOutcome * InputSigningState :=
  if recovery_attemptable st t then
    attempt_with config st (partials st)
      (attempt_erased config peers_exhausted u t
         (with_attempts st (clean_attempted st) (unflagged_prefix_attempted st) (erased_attempted st)
            (next_rs_attempt_at t (length (partials st))) (required_erased st)))
  else attempt_erased config peers_exhausted u t st.

Definition attempt_prefix (config : SigningEpochConfig) (peers_exhausted : bool) (flagged : gset ShareIndex)
    (t : nat) (st : InputSigningState) : FinalizeOutcome * InputSigningState :=
  let u := unflagged st flagged in
  match unflagged_prefix_key st t u flagged with
  | Some key =>
      let st := with_attempts st (clean_attempted st) (Some key) (erased_attempted st) (required_full st)
                  (required_erased st) in
      attempt_with config st (take t u) (attempt_full config peers_exhausted u t st)
  | None => attempt_full config peers_exhausted u t st
  end.

Definition try_finalize_signature (config : SigningEpochConfig) (peers_exhausted : bool)
    (flagged : gset ShareIndex) (st : InputSigningState) : FinalizeOutcome * InputSigningState :=
  let t := Z.to_nat (sc_t config) in
  if negb (would_aggregate st t flagged) then (need_more_or_fail peers_exhausted, st)
  else if negb (clean_attempted st) then
    let st := with_attempts st true (unflagged_prefix_attempted st) (erased_attempted st) (required_full st)
                (required_erased st) in
    attempt_with config st (take t (partials st)) (attempt_prefix config peers_exhausted flagged t st)
  else attempt_prefix config peers_exhausted flagged t st.

(** The owners of the indices that disagreed are flagged with all their indices; whether the
    set grew. *)
Definition flag_mismatched (config : SigningEpochConfig) (blame : Blame) (flagged : gset ShareIndex)
    : gset ShareIndex * bool :=
  match blame with
  | BlameNobody => (flagged, false)
  | BlameCertain indices | BlameInconclusive indices =>
      let owners := omap (fun idx => share_owners config !! idx) indices in
      let flagged' := flagged ∪ dom (filter (fun '(_, owner) => owner ∈ owners) (share_owners config)) in
      (flagged', (size flagged <? size flagged')%nat)
  end.

(** [Vec::swap_remove] *)
Definition swap_remove {A} (i : nat) (l : list A) : list A :=
  match last l with
  | None => l
  | Some x => take (length l - 1) (<[i := x]> l)
  end.

Record SweepPass := mkSweepPass {
  sp_pending : list InputSigningState;
  sp_flagged : gset ShareIndex;
  sp_results : list SigningResult;
  sp_grew : bool;
  sp_exhausted : list Address;
}.

(** The [while] loop from place [i]; each turn moves on or shortens the list, so as many turns
    as there are inputs left are enough. *)
Fixpoint sweep_from (config : SigningEpochConfig) (turns i : nat) (p : SweepPass) : SweepPass :=
  match turns with
  | O => p
  | S turns =>
      match sp_pending p !! i with
      | None => p
      | Some st =>
          let peers_exhausted := bool_decide (peers_remaining st = ∅) in
          let '(outcome, st) := try_finalize_signature config peers_exhausted (sp_flagged p) st in
          let pending := <[i := st]> (sp_pending p) in
          match outcome with
          | NeedMore =>
              sweep_from config turns (S i)
                (mkSweepPass pending (sp_flagged p) (sp_results p) (sp_grew p) (sp_exhausted p))
          | Exhausted =>
              sweep_from config turns (S i)
                (mkSweepPass pending (sp_flagged p) (sp_results p) (sp_grew p)
                   (sp_exhausted p ++ [st_signing_id st]))
          | Done sig blame =>
              let '(flagged, grew) := flag_mismatched config blame (sp_flagged p) in
              sweep_from config turns i
                (mkSweepPass (swap_remove i pending) flagged (sp_results p ++ [(st_signing_id st, inl sig)])
                   (sp_grew p || grew) (sp_exhausted p))
          | Failed e =>
              sweep_from config turns i
                (mkSweepPass (swap_remove i pending) (sp_flagged p)
                   (sp_results p ++ [(st_signing_id st, inr e)]) (sp_grew p) (sp_exhausted p))
          end
      end
  end.

Definition too_many_invalid (config : SigningEpochConfig) (st : InputSigningState) : SigningResult :=
  (st_signing_id st, inr (TooManyInvalidSignatures (length (partials st)) (sc_t config))).

(** The outer loop; [None] is a loop that has not ended in the given number of passes. *)
Fixpoint sweep_loop (config : SigningEpochConfig) (passes : nat) (pending : list InputSigningState)
    (flagged : gset ShareIndex) (results : list SigningResult)
    : option (list InputSigningState * gset ShareIndex * list SigningResult) :=
  match passes with
  | O => None
  | S passes =>
      let p := sweep_from config (length pending) 0 (mkSweepPass pending flagged results false []) in
      if sp_grew p then sweep_loop config passes (sp_pending p) (sp_flagged p) (sp_results p)
      else
        let spent st := bool_decide (st_signing_id st ∈ sp_exhausted p) in
        Some (List.filter (fun st => negb (spent st)) (sp_pending p), sp_flagged p,
              sp_results p ++ (too_many_invalid config <$> List.filter spent (sp_pending p)))
  end.

(** A pass that goes round again has flagged a share index. *)
Definition sweep_fuel (config : SigningEpochConfig) : nat := S (size (share_owners config)).

Definition finalize_sweep (config : SigningEpochConfig) (pending : list InputSigningState)
    (flagged : gset ShareIndex) (results : list SigningResult)
    : option (list InputSigningState * gset ShareIndex * list SigningResult) :=
  sweep_loop config (sweep_fuel config) pending flagged results.

(** ** Partial signatures of the peers *)

(** Milliseconds. *)
Definition PARTIAL_SIGS_PEER_COOLDOWN : Z := 10000.

Definition is_cooling (until : gmap Address Z) (peer : Address) (now : Z) : bool :=
  match until !! peer with Some until => now <? until | None => false end.
Definition cooldown_failure (until : gmap Address Z) (peer : Address) (now : Z) : gmap Address Z :=
  <[peer := now + PARTIAL_SIGS_PEER_COOLDOWN]> until.
Definition cooldown_success (until : gmap Address Z) (peer : Address) : gmap Address Z := delete peer until.

(** The earliest end of the pauses of some peers. *)
Definition earliest_expiry (until : gmap Address Z) (peers : list Address) : option Z :=
  foldr (fun peer acc =>
    match until !! peer, acc with
    | Some x, Some y => Some (Z.min x y)
    | Some x, None => Some x
    | None, acc => acc
    end) None peers.

Definition over_owned_count (self : SigningEpochConfig) (peer : Address) (sigs : list Eval) : option (nat * nat) :=
  let owned := default 0%nat (owned_counts self !! peer) in
  if (owned <? length sigs)%nat then Some (length sigs, owned) else None.

(** The first of each index the peer owns. *)
Fixpoint retain_from (self : SigningEpochConfig) (peer : Address) (seen : gset ShareIndex) (sigs : list Eval)
    : list Eval :=
  match sigs with
  | [] => []
  | e :: sigs =>
      if bool_decide (share_owners self !! e.1 = Some peer) && negb (bool_decide (e.1 ∈ seen))
      then e :: retain_from self peer ({[e.1]} ∪ seen) sigs
      else retain_from self peer seen sigs
  end.

Definition retain_owned (self : SigningEpochConfig) (peer : Address) (sigs : list Eval) : list Eval * nat :=
  let kept := retain_from self peer ∅ sigs in (kept, (length sigs - length kept)%nat).

Inductive PollResult :=
| PollResponse (partial_sigs : gmap Address (list Eval)) (signing_nonces : gmap Address (list Z))
| PollNotReady
| PollFailed.

(** An answer with the time it came in. *)
Record Poll := mkPoll { pl_peer : Address; pl_time : Z; pl_result : PollResult }.

Definition with_partials (self : InputSigningState) (p : list Eval) (remaining : gset Address) : InputSigningState :=
  mkInputSigningState (st_signing_id self) (st_message self) (st_public_nonce self)
    (st_derivation_address self) (st_signing_nonce_bytes self) (st_beacon self) p (early_exit_floor self)
    remaining (clean_attempted self) (unflagged_prefix_attempted self) (erased_attempted self)
    (required_full self) (required_erased self).

(** Whether the nonce a peer reported for an input speaks against its partial signatures; a peer
    that reports none is an older one. *)
Definition nonce_agrees (signing_nonces : gmap Address (list Z)) (st : InputSigningState) : bool :=
  match signing_nonces !! st_signing_id st with
  | Some n =>
      (length n =? POINT_SIZE_IN_BYTES)%nat && bool_decide (n = st_signing_nonce_bytes st)
  | None => bool_decide (signing_nonces = ∅)
  end.

(** The list of a peer for one input that it was asked for: what is kept of it, or that it is
    rejected. *)
Definition merge_sigs (config : SigningEpochConfig) (peer : Address) (signing_nonces : gmap Address (list Z))
    (sigs : list Eval) (st : InputSigningState) : list Eval * bool :=
  if negb (nonce_agrees signing_nonces st) then ([], false)
  else
    match over_owned_count config peer sigs with
    | Some _ => ([], true)
    | None => ((retain_owned config peer sigs).1, false)
    end.

Record Collected := mkCollected {
  co_pending : list InputSigningState;
  co_rejected : nat;
  co_progressed : bool;
}.

(** The index from ids to places; the last of equal ids wins. *)
Definition place_index (pending : list InputSigningState) : gmap Address nat :=
  list_to_map (reverse (imap (fun i st => (st_signing_id st, i)) pending)).

Definition merge_entry (config : SigningEpochConfig) (peer : Address) (signing_nonces : gmap Address (list Z))
    (index : gmap Address nat) (c : Collected) (entry : Address * list Eval) : Collected :=
  let rejected := mkCollected (co_pending c) (S (co_rejected c)) (co_progressed c) in
  match index !! entry.1 with
  | None => rejected
  | Some i =>
      match co_pending c !! i with
      | None => rejected
      | Some st =>
          if decide (peer ∈ peers_remaining st) then
            let remaining := peers_remaining st ∖ {[peer]} in
            let '(kept, over) := merge_sigs config peer signing_nonces entry.2 st in
            mkCollected (<[i := with_partials st (partials st ++ kept) remaining]> (co_pending c))
              (if over then S (co_rejected c) else co_rejected c)
              (co_progressed c || negb (bool_decide (kept = [])))
          else rejected
      end
  end.

Definition merge_response (config : SigningEpochConfig) (peer : Address)
    (partial_sigs : gmap Address (list Eval)) (signing_nonces : gmap Address (list Z))
    (index : gmap Address nat) (pending : list InputSigningState) (progressed : bool) : Collected :=
  fold_left (merge_entry config peer signing_nonces index) (map_to_list partial_sigs)
    (mkCollected pending 0 progressed).

(** The peers a round asks, with the inputs they are asked for. *)
Definition peer_ids (until : gmap Address Z) (now : Z) (pending : list InputSigningState)
    : gmap Address (list Address) :=
  fold_left (fun m '(peer, id) => <[peer := default [] (m !! peer) ++ [id]]> m)
    (concat ((fun st => (fun peer => (peer, st_signing_id st))
                <$> List.filter (fun peer => negb (is_cooling until peer now)) (elements (peers_remaining st)))
       <$> pending)) ∅.

(** Enough for an attempt on every input that can still get more. *)
Definition round_done (t : nat) (flagged : gset ShareIndex) (pending : list InputSigningState) : bool :=
  forallb (fun st => bool_decide (peers_remaining st = ∅) || can_attempt st t flagged) pending.

(** The answers in the order they come in, until the deadline. *)
Fixpoint collect_polls (config : SigningEpochConfig) (flagged : gset ShareIndex) (index : gmap Address nat)
    (polls : list Poll) (until : gmap Address Z) (pending : list InputSigningState) (progressed : bool)
    : gmap Address Z * list InputSigningState * bool :=
  match polls with
  | [] => (until, pending, progressed)
  | poll :: polls =>
      let peer := pl_peer poll in
      match pl_result poll with
      | PollResponse partial_sigs signing_nonces =>
          let until := cooldown_success until peer in
          let c := merge_response config peer partial_sigs signing_nonces index pending progressed in
          let until := if (0 <? co_rejected c)%nat then cooldown_failure until peer (pl_time poll) else until in
          if round_done (Z.to_nat (sc_t config)) flagged (co_pending c)
          then (until, co_pending c, co_progressed c)
          else collect_polls config flagged index polls until (co_pending c) (co_progressed c)
      | PollNotReady => collect_polls config flagged index polls until pending progressed
      | PollFailed =>
          collect_polls config flagged index polls (cooldown_failure until peer (pl_time poll)) pending progressed
      end
  end.

(** Only the peers that are asked answer. *)
Definition collect_partial_sigs_from_peers (self : SigningManager) (now : Z) (polls : list Poll)
    (flagged : gset ShareIndex) (pending : list InputSigningState)
    : SigningManager * list InputSigningState * bool :=
  let asked := peer_ids (cooling_until self) now pending in
  if decide (asked = ∅) then (self, pending, false)
  else
    let polls := List.filter (fun poll => bool_decide (is_Some (asked !! pl_peer poll))) polls in
    let '(until, pending, progressed) :=
      collect_polls (sm_config self) flagged (place_index pending) polls (cooling_until self) pending false in
    (with_cooling self until, pending, progressed).

(** ** Signing *)

(** A round of the collection: whether a run permit was there before the deadline, whether the
    deadline has passed, the time of the round and what comes in. *)
Record Round := mkRound { rd_admitted : bool; rd_expired : bool; rd_now : Z; rd_polls : list Poll }.

Definition sweep_round (config : SigningEpochConfig) (admitted : bool) (pending : list InputSigningState)
    (flagged : gset ShareIndex) (results : list SigningResult)
    : option (list InputSigningState * gset ShareIndex * list SigningResult) :=
  if negb (existsb (fun st => would_aggregate st (Z.to_nat (sc_t config)) flagged) pending) || admitted
  then finalize_sweep config pending flagged results
  else Some (pending, flagged, results).

Definition timed_out (config : SigningEpochConfig) (st : InputSigningState) : SigningResult :=
  (st_signing_id st, inr (SigningTimeout (length (partials st)) (sc_t config))).

(** The results that were sent, and the inputs still pending when the rounds end. *)
Fixpoint complete (rounds : list Round) (self : SigningManager) (pending : list InputSigningState)
    (flagged : gset ShareIndex) (results : list SigningResult)
    : option (SigningManager * list InputSigningState * list SigningResult) :=
  match pending, rounds with
  | [], _ | _, [] => Some (self, pending, results)
  | _, round :: rounds =>
      '(pending, flagged, results) ← sweep_round (sm_config self) (rd_admitted round) pending flagged results;
      if bool_decide (pending = []) then Some (self, [], results)
      else if rd_expired round then Some (self, [], results ++ (timed_out (sm_config self) <$> pending))
      else
        let '(self, pending, _) := collect_partial_sigs_from_peers self (rd_now round) (rd_polls round) flagged pending in
        complete rounds self pending flagged results
  end.

Definition sign (inputs : list SignInput) (seals : gmap Z PresigSeal) (rounds : list Round) (self : SigningManager)
    : outcome Empty_set (option (SigningManager * list InputSigningState * list SigningResult)) :=
  match prepare_local inputs seals self with
  | (Ok (pending, results), self) => Ok (complete rounds self pending ∅ results)
  | (Err e, _) => Err e
  | (Panic, _) => Panic
  end.
End signing.
