(* ===== verification/MpcSigningProofs.v ===== *)
(** * Presignatures are used once

    Over any history of one manager, with batches staged late, twice or out of order and with
    the requests of several tasks in any order, a presignature is handed out at most once. *)

From stdpp Require Import strings.
From S2P Require Import Limiter CoinSelection Committee TxUtxos Guardian MonitorDomain Withdrawals Retry WithdrawalSigning MpcSigning Prelude.

Section presignatures.
Context `{TE : ThresholdEnv}.

(** ** Batches *)

(** The presignatures the protocol gives for a batch. *)
Variable generated : Z -> list Presig.

(** A presignature that was handed out: its batch and place, its index, and itself. *)
Record Use := mkUse { us_batch : Z; us_position : nat; us_index : Z; us_presig : Presig }.

Record batch_ok (b : PresigBatch) : Prop := {
  bo_start : 0 <= start_index b;
  bo_fits : start_index b + Z.of_nat (length (pool b)) <= u64_max;
  bo_slots : forall i p, pool b !! i = Some (Some p) -> generated (pb_batch_index b) !! i = Some p;
}.

Definition before (a b : PresigBatch) : Prop := pb_batch_index a < pb_batch_index b /\ end_index a <= start_index b.

(** The slot of a use is empty wherever it may still be looked for. *)
Definition spent_in (u : Use) (b : PresigBatch) : Prop :=
  (pb_batch_index b = us_batch u -> pool b !! us_position u = Some None)
  /\ (start_index b <= us_index u < end_index b ->
      pool b !! Z.to_nat (us_index u - start_index b) = Some None).

Record use_ok (bs : list PresigBatch) (u : Use) : Prop := {
  uo_generated : generated (us_batch u) !! us_position u = Some (us_presig u);
  uo_past : exists latest, last bs = Some latest /\ us_batch u <= pb_batch_index latest
              /\ us_index u < end_index latest;
  uo_spent : Forall (spent_in u) bs;
}.

Record presigs_ok (m : SigningManager) (used : list Use) : Prop := {
  po_batches : Forall batch_ok (batches m);
  po_sorted : StronglySorted before (batches m);
  po_staged : forall next, next_batch m = Some next -> nb_pool next = Some <$> generated (nb_batch_index next);
  po_used : Forall (use_ok (batches m)) used;
  po_places : NoDup ((fun u => (us_batch u, us_position u)) <$> used);
  po_indices : NoDup (us_index <$> used);
}.

Lemma end_index_fits b : batch_ok b -> end_index b = start_index b + Z.of_nat (length (pool b)).
Proof. intros [H1 H2 _]. unfold end_index. apply wadd_small. split; lia. Qed.

Lemma contains_spec b g : contains b g = true <-> start_index b <= g < end_index b.
Proof. unfold contains. rewrite andb_true_iff, Z.leb_le, Z.ltb_lt. tauto. Qed.

(** There is room behind the last batch for the next one. *)
Definition room (m : SigningManager) : Prop :=
  forall latest, last (batches m) = Some latest ->
    0 <= pb_batch_index latest < u32_max
    /\ forall next, next_batch m = Some next ->
         end_index latest + Z.of_nat (length (nb_pool next)) <= u64_max.

(** Only the fields of the pool matter. *)
Lemma presigs_ok_same m m' used :
  batches m' = batches m -> next_batch m' = next_batch m -> presigs_ok m used -> presigs_ok m' used.
Proof. intros Eb En []. split; rewrite ?Eb, ?En; auto. Qed.

Lemma sorted_last bs latest b :
  StronglySorted before bs -> last bs = Some latest -> Forall batch_ok bs -> b ∈ bs ->
  pb_batch_index b <= pb_batch_index latest /\ end_index b <= end_index latest.
Proof.
  induction bs as [|x bs IH]; intros Hs Hl Hok Hb; [done|].
  apply StronglySorted_inv in Hs as [Hs Hx]. apply Forall_cons in Hok as [Hxok Hok].
  destruct bs as [|y bs]; [set_solver|]. rewrite last_cons_cons in Hl.
  apply elem_of_cons in Hb as [->|Hb]; [|by apply IH].
  assert (latest ∈ y :: bs) as Hin by (by apply last_Some_elem_of).
  rewrite Forall_forall in Hx, Hok. destruct (Hx latest Hin) as [? ?]. specialize (Hok latest Hin).
  rewrite (end_index_fits latest Hok). lia.
Qed.

(** ** The next batch *)

Lemma wadd32_small a b : 0 <= a + b <= u32_max -> wadd32 a b = a + b.
Proof. intros H. unfold wadd32, u32_max in *. apply Z.mod_small. lia. Qed.

Lemma batch_added m used latest next :
  presigs_ok m used -> last (batches m) = Some latest -> next_batch m = Some next ->
  nb_batch_index next = pb_batch_index latest + 1 ->
  end_index latest + Z.of_nat (length (nb_pool next)) <= u64_max ->
  presigs_ok
    (with_batches m (batches m ++ [mkPresigBatch (nb_pool next) (end_index latest) (pb_batch_index latest + 1)
                                     (nb_dealer_set_digest next)]) None) used.
Proof.
  intros [Hb Hs Hn Hu Hp Hi] Hl Enext Eidx Hfit. set (new := mkPresigBatch _ _ _ _).
  assert (batch_ok latest) as Hlok.
  { rewrite Forall_forall in Hb. by apply Hb, last_Some_elem_of. }
  assert (batch_ok new) as Hnew.
  { pose proof (end_index_fits latest Hlok). destruct Hlok. split; cbn; [lia|lia|].
    intros i p. rewrite (Hn _ Enext), <- Eidx, list_lookup_fmap.
    destruct (generated (nb_batch_index next) !! i); cbn; congruence. }
  pose proof (end_index_fits new Hnew) as Hend. cbn in Hend.
  split; cbn [batches next_batch with_batches]; try done.
  - apply Forall_app. split; [done|by apply Forall_singleton].
  - apply StronglySorted_app_2; [|done|repeat constructor]. intros b x Hbin ->%list_elem_of_singleton.
    destruct (sorted_last _ _ b Hs Hl Hb Hbin). split; cbn; lia.
  - eapply Forall_impl; [exact Hu|]. intros u [Hg (l & El & H1 & H2) Hsp]. rewrite Hl in El. injection El as <-.
    split; [done| |].
    + exists new. rewrite last_snoc. split_and!; [done|cbn; lia|lia].
    + apply Forall_app. split; [done|]. apply Forall_singleton. split; cbn; lia.
Qed.

Lemma install_next_ok m used : presigs_ok m used -> room m -> presigs_ok (install_next m) used.
Proof.
  intros H Hroom. unfold install_next. destruct (last (batches m)) as [latest|] eqn:Hl; [|done].
  destruct (Hroom latest Hl) as [Hidx Hfit]. destruct (next_batch m) as [next|] eqn:En; [|done].
  rewrite wadd32_small by lia. destruct (Z.eqb_spec (nb_batch_index next) (pb_batch_index latest + 1)) as [E|E].
  - by apply batch_added; auto.
  - destruct (_ <? _); [|by apply (presigs_ok_same m)]. destruct H. split; cbn; try done.
Qed.

Lemma find_batch_spec bs g i b :
  find_batch bs g = Some (i, b) -> bs !! i = Some b /\ start_index b <= g < end_index b.
Proof. intros (Hb & Hc & _)%list_find_Some. split; [done|]. by apply contains_spec. Qed.

Lemma locate_ok m used g :
  presigs_ok m used -> room m ->
  presigs_ok (locate g m).2 used
  /\ forall i b, (locate g m).1 = Ok (i, b) ->
       batches (locate g m).2 !! i = Some b /\ start_index b <= g < end_index b.
Proof.
  intros H Hroom. unfold locate. destruct (find_batch (batches m) g) as [[i b]|] eqn:Ef.
  { split; [done|]. cbn. intros i' b' [= <- <-]. by apply find_batch_spec. }
  pose proof (install_next_ok m used H Hroom) as Hin.
  destruct (find_batch (batches (install_next m)) g) as [[i b]|] eqn:Ef2.
  { split; [done|]. cbn. intros i' b' [= <- <-]. by apply find_batch_spec. }
  split; [|done]. cbn. destruct (next_batch (install_next m)); [done|]. by apply (presigs_ok_same (install_next m)).
Qed.

(** ** Taking one *)

Lemma sorted_lookup bs i j a b :
  StronglySorted before bs -> bs !! i = Some a -> bs !! j = Some b -> (i < j)%nat -> before a b.
Proof.
  revert i j. induction bs as [|x bs IH]; intros i j Hs Hi Hj Hij; [done|].
  apply StronglySorted_inv in Hs as [Hs Hx]. destruct j as [|j]; [lia|]. cbn in Hj. destruct i as [|i]; cbn in Hi.
  - injection Hi as ->. rewrite Forall_forall in Hx. by eapply Hx, list_elem_of_lookup_2.
  - eapply IH; eauto. lia.
Qed.

(** Batches that differ in their slots only. *)
Definition like (a b : PresigBatch) : Prop :=
  start_index a = start_index b /\ pb_batch_index a = pb_batch_index b /\ length (pool a) = length (pool b).

Lemma like_end a b : like a b -> end_index a = end_index b.
Proof. intros (H1 & _ & H3). unfold end_index. by rewrite H1, H3. Qed.

Lemma before_like a b a' b' : like a a' -> like b b' -> before a b -> before a' b'.
Proof.
  intros Ha Hb [H1 H2]. pose proof (like_end _ _ Ha). destruct Ha as (? & ? & ?), Hb as (? & ? & ?).
  split; congruence.
Qed.

Lemma sorted_like bs bs' : Forall2 like bs bs' -> StronglySorted before bs -> StronglySorted before bs'.
Proof.
  induction 1 as [|a a' bs bs' Ha Hbs IH]; intros Hs; [constructor|].
  apply StronglySorted_inv in Hs as [Hs Hx]. constructor; [auto|].
  rewrite Forall_forall in Hx. apply Forall_forall. intros b' [j Hj]%list_elem_of_lookup.
  destruct (Forall2_lookup_r _ _ _ _ _ Hbs Hj) as (b & Hb & Hlb).
  eapply before_like; [exact Ha|exact Hlb|]. by eapply Hx, list_elem_of_lookup_2.
Qed.

Lemma last_like bs bs' latest :
  Forall2 like bs bs' -> last bs = Some latest -> exists latest', last bs' = Some latest' /\ like latest latest'.
Proof.
  intros H Hl. rewrite last_lookup in Hl. destruct (Forall2_lookup_l _ _ _ _ _ H Hl) as (l' & Hl' & Hlk).
  exists l'. rewrite last_lookup, <- (Forall2_length _ _ _ H). done.
Qed.

Lemma take_slot_like i pos bs : Forall2 like bs (take_slot i pos bs).
Proof.
  apply Forall2_same_length_lookup. unfold take_slot. rewrite length_alter. split; [done|].
  intros j a b Ha Hb. destruct (decide (j = i)) as [->|Hne].
  - rewrite list_lookup_alter_eq, Ha in Hb. injection Hb as <-. split_and!; cbn; [done..|by rewrite length_insert].
  - rewrite list_lookup_alter_ne in Hb by done. rewrite Ha in Hb. injection Hb as <-. by split_and!.
Qed.

(** A slot that is empty stays so. *)
Lemma take_slot_keeps i pos bs j b' :
  take_slot i pos bs !! j = Some b' ->
  exists b, bs !! j = Some b /\ like b b'
    /\ (forall k, pool b !! k = Some None -> pool b' !! k = Some None)
    /\ (forall k p, pool b' !! k = Some (Some p) -> pool b !! k = Some (Some p)).
Proof.
  unfold take_slot. intros Hj. destruct (decide (j = i)) as [->|Hne].
  - rewrite list_lookup_alter_eq in Hj. destruct (bs !! i) as [b|] eqn:Hb; [|done]. injection Hj as <-.
    exists b. split_and!; [done|split_and!; cbn; [done..|by rewrite length_insert]| |]; cbn; intros k.
    + intros Hk. destruct (decide (k = pos)) as [->|]; [|by rewrite list_lookup_insert_ne].
      rewrite list_lookup_insert_eq; [done|]. by eapply lookup_lt_Some.
    + intros p Hk. destruct (decide (k = pos)) as [->|]; [|by rewrite list_lookup_insert_ne in Hk].
      apply list_lookup_insert_Some in Hk as [(_ & ? & _)|(? & _)]; done.
  - rewrite list_lookup_alter_ne in Hj by done. exists b'. by split_and!.
Qed.

Lemma spent_kept u i pos bs : Forall (spent_in u) bs -> Forall (spent_in u) (take_slot i pos bs).
Proof.
  intros H. rewrite Forall_lookup in H |- *. intros j b' Hj.
  destruct (take_slot_keeps _ _ _ _ _ Hj) as (b & Hb & Hlk & Hk & _). destruct (H _ _ Hb) as [H1 H2].
  pose proof (like_end _ _ Hlk). destruct Hlk as (Es & Ei & _). split.
  - intros E. apply Hk, H1. congruence.
  - intros E. rewrite <- Es in *. apply Hk, H2. lia.
Qed.

(** The use of the presignature at a place of a batch. *)
Definition use_of (b : PresigBatch) (pos : nat) (p : Presig) : Use :=
  mkUse (pb_batch_index b) pos (start_index b + Z.of_nat pos) p.

Lemma new_use_spent bs i b pos p :
  StronglySorted before bs -> Forall batch_ok bs -> bs !! i = Some b -> pool b !! pos = Some (Some p) ->
  Forall (spent_in (use_of b pos p)) (take_slot i pos bs).
Proof.
  intros Hs Hb Hi Hpos. rewrite Forall_lookup. intros j b' Hj. rewrite Forall_lookup in Hb.
  pose proof (end_index_fits b (Hb _ _ Hi)) as Hend. apply lookup_lt_Some in Hpos as Hlt.
  destruct (decide (j = i)) as [->|Hne].
  - unfold take_slot in Hj. rewrite list_lookup_alter_eq, Hi in Hj. injection Hj as <-.
    assert (<[pos := None]> (pool b) !! pos = Some (None : option Presig)) as Hnone by by apply list_lookup_insert_eq.
    split; cbn; intros _; [done|]. by replace (Z.to_nat (start_index b + Z.of_nat pos - start_index b)) with pos by lia.
  - unfold take_slot in Hj. rewrite list_lookup_alter_ne in Hj by done.
    assert (before b b' \/ before b' b) as Hord.
    { destruct (decide (i < j)%nat); [left|right]; eapply sorted_lookup; eauto; lia. }
    pose proof (end_index_fits b' (Hb _ _ Hj)) as Hend'. pose proof (bo_start _ (Hb _ _ Hi)).
    split; cbn; destruct Hord as [[? ?]|[? ?]]; lia.
Qed.

Lemma take_slot_ok m used i b pos p :
  presigs_ok m used -> batches m !! i = Some b -> pool b !! pos = Some (Some p) ->
  presigs_ok (with_batches m (take_slot i pos (batches m)) (next_batch m)) (used ++ [use_of b pos p]).
Proof.
  intros [Hb Hs Hn Hu Hp Hi] Hbi Hpos.
  pose proof (take_slot_like i pos (batches m)) as Hlike.
  assert (b ∈ batches m) as Hin by (by eapply list_elem_of_lookup_2).
  assert (batch_ok b) as Hbok by (rewrite Forall_forall in Hb; auto).
  apply lookup_lt_Some in Hpos as Hlt. pose proof (end_index_fits b Hbok) as Hend.
  assert (forall u, u ∈ used -> ~ (us_batch u = pb_batch_index b /\ us_position u = pos)
    /\ us_index u <> start_index b + Z.of_nat pos) as Hfresh.
  { intros u Hu'. rewrite Forall_forall in Hu. destruct (Hu u Hu') as [_ _ Hsp].
    rewrite Forall_forall in Hsp. destruct (Hsp b Hin) as [H1 H2]. split.
    - intros [E1 E2]. rewrite <- E2, (H1 (eq_sym E1)) in Hpos. done.
    - intros E. rewrite E in H2. replace (Z.to_nat (start_index b + Z.of_nat pos - start_index b)) with pos in H2 by lia.
      rewrite H2 in Hpos by lia. done. }
  split; cbn [batches next_batch with_batches]; try done.
  - rewrite Forall_lookup in Hb |- *. intros j b' Hj. destruct (take_slot_keeps _ _ _ _ _ Hj) as (b0 & Hj0 & (E1 & E2 & E3) & _ & Hk).
    destruct (Hb _ _ Hj0) as [H1 H2 H3]. split; [lia|lia|]. intros k q Hq. rewrite <- E2. by apply H3, Hk.
  - by eapply sorted_like.
  - apply Forall_app. split; [|apply Forall_singleton].
    + eapply Forall_impl; [exact Hu|]. intros u [Hg (l & El & H1 & H2) Hsp]. split; [done| |by apply spent_kept].
      destruct (last_like _ _ _ Hlike El) as (l' & El' & Hlk). exists l'. rewrite <- (like_end _ _ Hlk).
      destruct Hlk as (_ & <- & _). done.
    + split; [by apply (bo_slots _ Hbok)| |by apply new_use_spent].
      destruct (last (batches m)) as [l|] eqn:El; [|by apply last_None in El; rewrite El in Hbi].
      destruct (sorted_last _ _ b Hs El Hb Hin) as [H1 H2]. destruct (last_like _ _ _ Hlike El) as (l' & El' & Hlk).
      exists l'. pose proof (like_end _ _ Hlk). destruct Hlk as (_ & ? & _). cbn. split_and!; [done|lia|lia].
  - rewrite fmap_app. apply NoDup_app. split_and!; [done| |by apply NoDup_singleton].
    intros [k q] (u & E & Hu')%list_elem_of_fmap ?%list_elem_of_singleton. destruct (Hfresh u Hu') as [Hf _].
    apply Hf. cbn in *. split; congruence.
  - rewrite fmap_app. apply NoDup_app. split_and!; [done| |by apply NoDup_singleton].
    intros k (u & E & Hu')%list_elem_of_fmap ?%list_elem_of_singleton. destruct (Hfresh u Hu') as [_ Hf].
    apply Hf. cbn in *. congruence.
Qed.

(** Batches that are used up can go. *)
Lemma prune_suffix bs : exists gone, bs = gone ++ prune_consumed bs /\ last (prune_consumed bs) = last bs.
Proof.
  induction bs as [|b bs IH]; [by exists []|]. cbn. destruct bs as [|c bs]; [by exists []|].
  destruct (is_fully_consumed b); [|by exists []]. destruct IH as (gone & E & El).
  exists (b :: gone). rewrite El. split; [by rewrite E at 1|done].
Qed.

Lemma prune_ok m used :
  presigs_ok m used -> presigs_ok (with_batches m (prune_consumed (batches m)) (next_batch m)) used.
Proof.
  intros [Hb Hs Hn Hu Hp Hi]. destruct (prune_suffix (batches m)) as (gone & E & El).
  rewrite E in Hb, Hs. apply Forall_app in Hb as [_ Hb]. split; cbn [batches next_batch with_batches]; try done.
  - by eapply StronglySorted_app_1_r.
  - eapply Forall_impl; [exact Hu|]. intros u [Hg Hpast Hsp]. split; [done|by rewrite El|].
    rewrite E in Hsp. by apply Forall_app in Hsp as [_ Hsp].
Qed.

(** What taking hands out. *)
Definition uses_of (g : Z) (r : outcome SigningError CacheOrPresig) : list Use :=
  match r with
  | Ok (TakenPresig p _ _ k pos) => [mkUse k pos g p]
  | _ => []
  end.

Lemma refill_same m m' : refill_if_low m = Ok m' -> batches m' = batches m /\ next_batch m' = next_batch m.
Proof.
  unfold refill_if_low. destruct (last (batches m)); [|by intros [= <-]]. destruct (_ =? _)%nat; [done|].
  destruct (_ <=? _)%nat; by intros [= <-].
Qed.

Lemma take_presig_ok m used id g seals :
  presigs_ok m used -> room m ->
  let '(r, m') := take_presig id g seals m in
  r <> Panic -> presigs_ok m' (used ++ uses_of g r).
Proof.
  intros H Hroom. unfold take_presig. destruct (partial_signing_outputs m !! id); [by rewrite app_nil_r|].
  destruct (locate_ok m used g H Hroom) as [Hl Hfound].
  destruct (locate g m) as [[[i b]|e|] m1]; cbn [fst snd] in *; [|by rewrite app_nil_r..].
  destruct (Hfound i b eq_refl) as [Hb Hg].
  destruct (seals !! _) as [seal|]; [|by rewrite app_nil_r]. destruct (negb _); [by rewrite app_nil_r|].
  destruct (negb _); [by rewrite app_nil_r|].
  destruct (pool b !! _) as [[p|]|] eqn:Ep; [|by rewrite app_nil_r..].
  pose proof (take_slot_ok m1 used i b _ p Hl Hb Ep) as Ht. set (m2 := with_batches m1 _ _) in *.
  destruct (refill_if_low m2) as [m3| |] eqn:Er; [|done..]. intros _.
  destruct (refill_same _ _ Er) as [Eb En]. cbn [uses_of].
  apply (presigs_ok_same m2 m3 _ Eb En) in Ht. apply prune_ok in Ht.
  unfold use_of in Ht. rewrite Z2Nat.id in Ht by lia.
  by replace (start_index b + (g - start_index b)) with g in Ht by lia.
Qed.

(** ** Histories *)

(** What a restarted node keeps comes from the protocol, in order, and fits. *)
Definition retained_ok (retained : list Retained) : Prop :=
  Forall (fun r : Retained => r.1.1.1 = generated r.1.1.2 /\ 0 <= r.1.2
                              /\ r.1.2 + Z.of_nat (length r.1.1.1) <= u64_max) retained
  /\ StronglySorted (fun a b : Retained => a.1.1.2 < b.1.1.2 /\ a.1.2 + Z.of_nat (length a.1.1.1) <= b.1.2) retained.

(** A manager from its creation on: batches are staged, presignatures taken and used, refills
    asked for and peers paused, in any order; a task that has taken one may use it any time
    later. *)
Inductive signing_run : SigningManager -> list Use -> Prop :=
| run_fresh config k start digest tx inputs :
    0 <= start -> start + Z.of_nat (length (generated k)) <= u64_max ->
    signing_run (signing_manager_new config (generated k) digest k start tx inputs).1 []
| run_recovered config retained num_consumed pending tx inputs m identities :
    retained_ok retained ->
    new_recovered config retained num_consumed pending tx inputs = Some (m, identities) -> signing_run m []
| run_staged m used k digest inputs :
    signing_run m used -> signing_run (set_next_batch m k (generated k) digest inputs).1 used
| run_taken m used id g seals r m' :
    signing_run m used -> room m -> take_presig id g seals m = (r, m') -> r <> Panic ->
    signing_run m' (used ++ uses_of g r)
| run_used m used taken id message g delta address r m' :
    signing_run m used -> use_taken taken id message g delta address m = (r, m') -> signing_run m' used
| run_refill m used : signing_run m used -> signing_run (trigger_refill m) used
| run_cooled m used until : signing_run m used -> signing_run (with_cooling m until) used.

Lemma fresh_slots k i p : (Some <$> generated k) !! i = Some (Some p) -> generated k !! i = Some p.
Proof. rewrite list_lookup_fmap. destruct (generated k !! i); cbn; congruence. Qed.

Lemma recovered_ok n pending r :
  r.1.1.1 = generated r.1.1.2 -> 0 <= r.1.2 -> r.1.2 + Z.of_nat (length r.1.1.1) <= u64_max ->
  batch_ok (recovered_batch n pending r).
Proof.
  destruct r as [[[ps k] start] digest]. cbn. intros -> Hs Hf. split; cbn; [done|by rewrite length_imap|].
  intros i p. rewrite list_lookup_imap. destruct (generated k !! i) as [q|]; [|done]. cbn. unfold recovered_slot.
  destruct (_ || _); [|done]. by intros [= ->].
Qed.

Lemma recovered_sorted n pending retained :
  retained_ok retained -> StronglySorted before (recovered_batch n pending <$> retained).
Proof.
  intros [Hall Hs]. induction Hs as [|r retained Hs IH Hr]; cbn; [constructor|].
  apply Forall_cons in Hall as [(E & H0 & Hf) Hall]. constructor; [by apply IH|].
  rewrite Forall_forall in Hr. apply Forall_fmap, Forall_forall. intros r' Hr'. destruct (Hr r' Hr') as [Hk Hend].
  pose proof (end_index_fits _ (recovered_ok n pending r E H0 Hf)) as He. split.
  - destruct r as [[[? ?] ?] ?], r' as [[[? ?] ?] ?]. exact Hk.
  - rewrite He. destruct r as [[[? ?] ?] ?], r' as [[[? ?] ?] ?]. cbn in *. rewrite length_imap. done.
Qed.

Lemma run_presigs_ok m used : signing_run m used -> presigs_ok m used.
Proof.
  induction 1 as [config k start digest tx inputs H0 Hf|config retained n pending tx inputs m ids Hret E|
    m used k digest inputs _ IH|m used id g seals r m' _ IH Hroom E Hnp|m used taken id message g delta address r m' _ IH E|
    m used _ IH|m used until _ IH].
  - split; cbn; [apply Forall_singleton| | |constructor..]; [|repeat constructor|done].
    split; cbn; [done|by rewrite length_fmap|apply fresh_slots].
  - unfold new_recovered in E. destruct (bool_decide _); [|done]. injection E as <- <-.
    split; cbn; [|by apply recovered_sorted|done|constructor..].
    destruct Hret as [Hall _]. apply Forall_fmap. eapply Forall_impl; [exact Hall|].
    intros r (? & ? & ?). by apply recovered_ok.
  - unfold set_next_batch. cbn. destruct (match last _ with Some _ => _ | None => _ end); [done|].
    destruct IH. split; cbn; try done. by intros next [= <-].
  - pose proof (take_presig_ok m used id g seals IH Hroom) as Ht. rewrite E in Ht. auto.
  - destruct taken as [existing k|p rnd digest k pos]; cbn in E.
    + destruct (_ || _); injection E as _ <-; done.
    + destruct (generate_partial_signatures _ _ _ _ _ _) as [[? ?]|]; injection E as _ <-; [|done].
      by apply (presigs_ok_same m).
  - by apply (presigs_ok_same m).
  - by apply (presigs_ok_same m).
Qed.

(** Batches hold different presignatures. *)
Definition all_different : Prop :=
  forall k k' i j p, generated k !! i = Some p -> generated k' !! j = Some p -> k = k' /\ i = j.

Lemma uses_different m used : all_different -> signing_run m used -> NoDup (us_presig <$> used).
Proof.
  intros Hdiff [_ _ _ Hu Hp _]%run_presigs_ok. induction used as [|u used IH]; [constructor|].
  apply Forall_cons in Hu as [Hu1 Hu]. cbn in Hp. apply NoDup_cons in Hp as [Hnot Hp].
  cbn. constructor; [|auto]. intros (v & E & Hv)%list_elem_of_fmap. apply Hnot.
  rewrite Forall_forall in Hu. pose proof (uo_generated _ _ Hu1) as G1. pose proof (uo_generated _ _ (Hu v Hv)) as G2.
  rewrite E in G1. destruct (Hdiff _ _ _ _ _ G1 G2) as [E1 E2]. rewrite E1, E2.
  by apply (list_elem_of_fmap_2 (fun u => (us_batch u, us_position u))).
Qed.

(** C15: a presignature is used once.  Whatever batches the refills deliver to a signing manager,
    late, again or out of order, after a start or a recovery, and whatever requests for
    partial signatures come in from any number of tasks: no index is handed out twice and no
    presignature is, so no nonce is ever used for two messages; and each one handed out is the
    one that its batch has at its place. *)
Theorem presignature_used_once m used :
  all_different -> signing_run m used ->
  NoDup (us_presig <$> used)
  /\ NoDup (us_index <$> used)
  /\ Forall (fun u => generated (us_batch u) !! us_position u = Some (us_presig u)) used.
Proof.
  intros Hdiff Hrun. split; [by eapply uses_different|]. destruct (run_presigs_ok _ _ Hrun) as [_ _ _ Hu _ Hi].
  split; [done|]. eapply Forall_impl; [exact Hu|]. by intros u [].
Qed.

(** What a recovered manager may use: the indices the chain has not handed out, and those of
    requests that are still pending. *)
Theorem recovered_slots_exact num_consumed pending ps k start digest i p :
  0 <= start -> start + Z.of_nat (length ps) <= u64_max ->
  pool (recovered_batch num_consumed pending (ps, k, start, digest)) !! i = Some (Some p) <->
  ps !! i = Some p /\ (num_consumed <= start + Z.of_nat i \/ start + Z.of_nat i ∈ pending).
Proof.
  intros H0 Hf. cbn. rewrite list_lookup_imap. destruct (ps !! i) as [q|] eqn:Ei; cbn; [|naive_solver].
  apply lookup_lt_Some in Ei. unfold recovered_slot. rewrite wadd_small by (split; lia).
  destruct (Z.leb_spec num_consumed (start + Z.of_nat i)); cbn; [naive_solver lia|].
  destruct (bool_decide_reflect (start + Z.of_nat i ∈ pending)); naive_solver lia.
Qed.
End presignatures.
