(* ===== verification/MpcResultsProofs.v ===== *)
(** * Signing ends with one result for each input

    The attempts to aggregate end; every input gets one result; a signature is aggregated from
    enough partial signatures, each of a different share and from the owner of the share. *)

From stdpp Require Import strings.
From S2P Require Import Limiter CoinSelection MonitorDomain Committee CommitteeProofs TxUtxos Guardian GuardianExamples Retry Withdrawals WithdrawalExamples WithdrawalSigning WithdrawalSigningProofs WithdrawalSigningExamples MpcSigning MpcSigningProofs Prelude.

Section results.
Context `{TE : ThresholdEnv}.

(** ** [swap_remove] *)

Lemma insert_perm {A} (l : list A) i x y : l !! i = Some x -> y :: l ≡ₚ x :: <[i := y]> l.
Proof.
  revert i. induction l as [|z l IH]; intros [|i] Hi; try done.
  - injection Hi as ->. constructor.
  - cbn. rewrite (perm_swap z x), <- (IH i Hi). constructor.
Qed.

Lemma swap_remove_perm {A} (l : list A) i x : l !! i = Some x -> l ≡ₚ x :: swap_remove i l.
Proof.
  intros Hi. unfold swap_remove. destruct l as [|y l _] using rev_ind; [done|]. rewrite last_snoc.
  rewrite length_app. cbn [length]. replace (length l + 1 - 1)%nat with (length l) by lia.
  destruct (decide (i < length l)%nat) as [Hlt|Hge].
  - rewrite lookup_app_l in Hi by done. rewrite insert_app_l, take_app_length' by (rewrite ?length_insert; lia).
    rewrite <- (insert_perm l i x y Hi). by rewrite Permutation_app_comm.
  - apply lookup_lt_Some in Hi as Hlt. rewrite length_app in Hlt. cbn in Hlt.
    assert (i = length l) as -> by lia. rewrite list_lookup_middle in Hi by done. injection Hi as ->.
    rewrite insert_app_r_alt, Nat.sub_diag by lia. cbn. rewrite take_app_length. by rewrite Permutation_app_comm.
Qed.

(** ** Inputs and results *)

Variable config : SigningEpochConfig.

#[local] Abbreviation t := (Z.to_nat (sc_t config)).

(** What an input asks for. *)
Definition input_of (st : InputSigningState) : Address * list Z * Point * option DerivationPath * list Z * Delta :=
  (st_signing_id st, st_message st, st_public_nonce st, st_derivation_address st, st_signing_nonce_bytes st,
   st_beacon st).

(** What attempts leave as it is. *)
Definition core (st : InputSigningState) := (input_of st, partials st, peers_remaining st).

(** The partial signatures are of different shares, of owners that are not asked any more. *)
Record input_ok (st : InputSigningState) : Prop := {
  io_distinct : NoDup (partials st).*1;
  io_owned : forall e, e ∈ partials st ->
    exists owner, share_owners config !! e.1 = Some owner /\ owner ∉ peers_remaining st;
}.

Lemma input_ok_core st st' : core st' = core st -> input_ok st -> input_ok st'.
Proof. intros E [H1 H2]. injection E as ? ? ? ? ? ? Ep Er. split; rewrite ?Ep, ?Er; auto. Qed.

(** A signature comes from enough partial signatures of an input. *)
Definition aggregated (st : InputSigningState) (sig : SchnorrOutput) : Prop :=
  exists sigs blame, sublist sigs (partials st) /\ (t <= length sigs)%nat
    /\ aggregate config st sigs = inl (sig, blame).

Definition backed (inputs : list InputSigningState) (result : SigningResult) : Prop :=
  match result.2 with
  | inl sig =>
      exists st0 st, st0 ∈ inputs /\ input_of st = input_of st0 /\ st_signing_id st = result.1
        /\ input_ok st /\ aggregated st sig
  | inr _ => True
  end.

Lemma aggregate_core st st' sigs : core st' = core st -> aggregate config st' sigs = aggregate config st sigs.
Proof. intros E. injection E as ? E2 E3 E4 ? E6 ? ?. unfold aggregate. by rewrite E2, E3, E4, E6. Qed.

(** ** One input *)

(** An attempt changes only the marks of attempts, and ends as it says. *)
Definition attempted (ex : bool) (st : InputSigningState) (r : FinalizeOutcome * InputSigningState) : Prop :=
  core r.2 = core st
  /\ match r.1 with
     | Done sig _ => aggregated st sig
     | NeedMore => ex = false
     | Exhausted => ex = true
     | Failed _ => True
     end.

Lemma need_more_attempted ex st st' : core st' = core st -> attempted ex st (need_more_or_fail ex, st').
Proof. intros E. split; [done|]. by destruct ex. Qed.

Lemma attempt_with_attempted ex st st' sigs next :
  core st' = core st -> sublist sigs (partials st) -> (t <= length sigs)%nat -> attempted ex st next ->
  attempted ex st (attempt_with config st' sigs next).
Proof.
  intros E Hsub Hlen Hnext. unfold attempt_with. destruct (aggregate config st' sigs) as [[sig blame]|[]] eqn:Ea; try done.
  split; [done|]. exists sigs, blame. by rewrite <- (aggregate_core _ _ _ E).
Qed.

Lemma attempt_erased_ok ex u st st' :
  core st' = core st -> sublist u (partials st) -> attempted ex st (attempt_erased config ex u t st').
Proof.
  intros E Hu. unfold attempt_erased. destruct (erased_key st' t u) as [key|] eqn:Ek; [|by apply need_more_attempted].
  unfold erased_key in Ek. destruct (_ <=? _)%nat; [done|]. destruct (_ && _) eqn:Eg; [|done].
  apply andb_true_iff in Eg as [Eg%Nat.leb_le _].
  apply attempt_with_attempted; [done|done|lia|]. by apply need_more_attempted.
Qed.

Lemma attempt_full_ok ex u st st' :
  core st' = core st -> sublist u (partials st) -> attempted ex st (attempt_full config ex u t st').
Proof.
  intros E Hu. unfold attempt_full. destruct (recovery_attemptable st' t) eqn:Er; [|by apply attempt_erased_ok].
  unfold recovery_attemptable in Er. apply Nat.leb_le in Er.
  assert (partials st' = partials st) as Ep by (by injection E).
  apply attempt_with_attempted; [done|by rewrite Ep|lia|]. by apply attempt_erased_ok.
Qed.

Lemma unflagged_sublist st flagged : sublist (unflagged st flagged) (partials st).
Proof. apply filter_sublist. Qed.

Lemma attempt_prefix_ok ex flagged st st' :
  core st' = core st -> attempted ex st (attempt_prefix config ex flagged t st').
Proof.
  intros E. unfold attempt_prefix. assert (partials st' = partials st) as Ep by (by injection E).
  pose proof (unflagged_sublist st' flagged) as Hu. rewrite Ep in Hu.
  destruct (unflagged_prefix_key st' t _ flagged) as [key|] eqn:Ek; [|by apply attempt_full_ok].
  unfold unflagged_prefix_key in Ek. destruct (_ || _ || _) eqn:Eg; [done|].
  apply orb_false_iff in Eg as [[_ Eg%Nat.ltb_ge]%orb_false_iff _].
  apply attempt_with_attempted; [done| |rewrite length_take; lia|by apply attempt_full_ok].
  etrans; [apply sublist_take|exact Hu].
Qed.

Lemma try_finalize_ok ex flagged st : attempted ex st (try_finalize_signature config ex flagged st).
Proof.
  unfold try_finalize_signature. destruct (would_aggregate st t flagged) eqn:Ew; cbn [negb];
    [|by apply need_more_attempted]. destruct (clean_attempted st) eqn:Ec; cbn [negb]; [by apply attempt_prefix_ok|].
  unfold would_aggregate in Ew. destruct (Nat.ltb_spec (length (partials st)) t) as [|Hlen]; [done|].
  apply attempt_with_attempted; [done|apply sublist_take|rewrite length_take; cbn; lia|by apply attempt_prefix_ok].
Qed.

(** ** Sweeps *)

(** The ids that wait for a result. *)
Variable ids : list Address.

(** The books of a run over some inputs: what is pending is in order, what was sent is backed,
    and every input is in exactly one of the two. *)
Record books (inputs pending : list InputSigningState) (results : list SigningResult) : Prop := {
  bk_pending : forall st, st ∈ pending ->
    input_ok st /\ exists st0, st0 ∈ inputs /\ input_of st = input_of st0;
  bk_results : Forall (backed inputs) results;
  bk_ids : results.*1 ++ (st_signing_id <$> pending) ≡ₚ ids;
}.

Lemma id_core st st' : core st' = core st -> st_signing_id st' = st_signing_id st.
Proof. intros E. by injection E. Qed.

Lemma of_core st st' : core st' = core st -> input_of st' = input_of st.
Proof. unfold core. congruence. Qed.

(** An input whose marks, or whose partial signatures, have changed. *)
Lemma books_insert inputs pending results i st st' :
  books inputs pending results -> pending !! i = Some st ->
  input_of st' = input_of st -> (input_ok st -> input_ok st') ->
  books inputs (<[i := st']> pending) results.
Proof.
  intros [Hp Hr Hi] Hst E Hok. split; [|done|].
  - intros x [j Hj]%list_elem_of_lookup. apply list_lookup_insert_Some in Hj as [(-> & -> & _)|(_ & Hj)].
    + destruct (Hp st) as [Ho (st0 & H0 & E0)]; [by eapply list_elem_of_lookup_2|]. split; [auto|].
      exists st0. split; [done|congruence].
    + apply Hp. by eapply list_elem_of_lookup_2.
  - rewrite list_fmap_insert. assert (st_signing_id st' = st_signing_id st) as -> by (by injection E).
    rewrite list_insert_id; [done|]. by rewrite list_lookup_fmap, Hst.
Qed.

(** An input that gets its result. *)
Lemma books_sent inputs pending results i st result :
  books inputs pending results -> pending !! i = Some st -> result.1 = st_signing_id st ->
  backed inputs result -> books inputs (swap_remove i pending) (results ++ [result]).
Proof.
  intros [Hp Hr Hi] Hst E Hb. pose proof (swap_remove_perm _ _ _ Hst) as Hperm.
  set (rest := swap_remove i pending) in *. clearbody rest. split.
  - intros x Hx. apply Hp. rewrite Hperm. by right.
  - apply Forall_app. split; [done|by apply Forall_singleton].
  - rewrite <- Hi, Hperm, fmap_app. cbn. rewrite E, <- (assoc (++)). done.
Qed.

Lemma done_backed inputs pending results i st st' ex sig blame :
  books inputs pending results -> pending !! i = Some st -> attempted ex st (Done sig blame, st') ->
  backed inputs (st_signing_id st, inl sig).
Proof.
  intros [Hp _ _] Hst [_ Ha]. destruct (Hp st) as [Hok (st0 & H0 & E0)]; [by eapply list_elem_of_lookup_2|].
  cbn. exists st0, st. by split_and!.
Qed.

Lemma sweep_from_books inputs turns : forall i p,
  books inputs (sp_pending p) (sp_results p) ->
  let p' := sweep_from config turns i p in books inputs (sp_pending p') (sp_results p').
Proof.
  induction turns as [|turns IH]; intros i p H; cbn [sweep_from]; [done|].
  destruct (sp_pending p !! i) as [st|] eqn:Hst; [|done].
  pose proof (try_finalize_ok (bool_decide (peers_remaining st = ∅)) (sp_flagged p) st) as Ha.
  destruct (try_finalize_signature _ _ _ _) as [o st']. pose proof (proj1 Ha) as Hc. cbn in Hc.
  assert (books inputs (<[i := st']> (sp_pending p)) (sp_results p)) as H'.
  { eapply books_insert; [done|exact Hst|by apply of_core|by apply input_ok_core]. }
  assert (<[i := st']> (sp_pending p) !! i = Some st') as Hi.
  { apply list_lookup_insert_eq. by eapply lookup_lt_Some. }
  destruct o as [sig blame| | |e]; [|by apply IH..|].
  - destruct (flag_mismatched _ _ _) as [flagged grew]. apply IH. eapply books_sent; [done|exact Hi|done|].
    rewrite (id_core _ _ Hc). exact (done_backed _ _ _ _ _ _ _ _ _ H Hst Ha).
  - apply IH. by apply (books_sent _ _ _ _ _ (st_signing_id st', inr e) H' Hi).
Qed.

(** As many turns as there are inputs left are enough. *)
Lemma sweep_turns_enough more turns : forall i p,
  (length (sp_pending p) <= i + turns)%nat ->
  sweep_from config (turns + more) i p = sweep_from config turns i p.
Proof.
  induction turns as [|turns IH]; intros i p Hlen.
  { destruct more as [|more]; [done|]. cbn. by rewrite lookup_ge_None_2 by lia. }
  cbn. destruct (sp_pending p !! i) as [st|] eqn:Hst; [|done]. apply lookup_lt_Some in Hst as Hlt.
  destruct (try_finalize_signature _ _ _ _) as [o st'].
  assert (<[i := st']> (sp_pending p) !! i = Some st') as Hi by by apply list_lookup_insert_eq.
  assert (S (length (swap_remove i (<[i := st']> (sp_pending p)))) = length (sp_pending p)) as Hs.
  { pose proof (Permutation_length (swap_remove_perm _ _ _ Hi)) as Hl. rewrite length_insert in Hl. by rewrite Hl. }
  destruct o as [sig blame| | |e]; [destruct (flag_mismatched _ _ _)| | |]; apply IH; cbn; rewrite ?length_insert; lia.
Qed.

(** Flags only grow, within the shares there are. *)
Definition flags_grow (flagged flagged' : gset ShareIndex) (grew : bool) : Prop :=
  flagged ⊆ flagged'
  /\ (grew = true -> exists x, x ∈ dom (share_owners config) /\ x ∈ flagged' /\ x ∉ flagged).

Lemma flag_mismatched_grow blame flagged :
  let '(flagged', grew) := flag_mismatched config blame flagged in flags_grow flagged flagged' grew.
Proof.
  assert (forall owners : list Address, let flagged' := flagged ∪ dom (filter (fun '(_, owner) => owner ∈ owners) (share_owners config)) in
    flags_grow flagged flagged' (size flagged <? size flagged')%nat) as H.
  { intros owners. cbv zeta. set (X := dom (filter _ _)). assert (X ⊆ dom (share_owners config)) as HX by apply dom_filter_subseteq.
    split; [set_solver|]. intros Hlt%Nat.ltb_lt. destruct (set_choose_or_empty ((flagged ∪ X) ∖ flagged)) as [[x Hx]|He].
    - exists x. set_solver.
    - assert (size (flagged ∪ X) <= size flagged)%nat; [|lia]. apply subseteq_size. set_solver. }
  destruct blame; cbn; [split; [done|done]|apply H..].
Qed.

Lemma sweep_from_flags turns : forall i p,
  let p' := sweep_from config turns i p in
  sp_flagged p ⊆ sp_flagged p' /\ (sp_grew p = false -> flags_grow (sp_flagged p) (sp_flagged p') (sp_grew p')).
Proof.
  induction turns as [|turns IH]; intros i p; cbn [sweep_from].
  { split; [done|]. intros ->. by split. }
  destruct (sp_pending p !! i) as [st|]; [|split; [done|]; intros ->; by split].
  destruct (try_finalize_signature _ _ _ _) as [[sig blame| | |e] st'];
    [|match goal with |- context [sweep_from _ _ ?j ?q] => exact (IH j q) end..].
  pose proof (flag_mismatched_grow blame (sp_flagged p)) as Hf. destruct (flag_mismatched _ _ _) as [flagged grew].
  specialize (IH i (mkSweepPass (swap_remove i (<[i := st']> (sp_pending p))) flagged
    (sp_results p ++ [(st_signing_id st', inl sig)]) (sp_grew p || grew) (sp_exhausted p))).
  destruct Hf as [Hsub Hgrew]. cbn [sp_flagged sp_grew] in IH. destruct IH as [IH1 IH2].
  split; [set_solver|]. intros E. rewrite E in *. split; [set_solver|]. intros Hg. destruct grew; cbn in IH2.
  - destruct Hgrew as (x & ? & ? & ?); [done|]. exists x. set_solver.
  - destruct (IH2 eq_refl) as [_ (x & ? & ? & ?)]; [done|]. exists x. set_solver.
Qed.

Lemma filter_split_perm {A} (f : A -> bool) l : List.filter f l ++ List.filter (fun x => negb (f x)) l ≡ₚ l.
Proof.
  induction l as [|x l IH]; [done|]. cbn. destruct (f x); cbn; [by constructor|].
  rewrite <- Permutation_middle. by constructor.
Qed.

(** The sweep ends: a pass that goes round again has flagged another share. *)
Lemma sweep_loop_ends inputs passes : forall pending flagged results,
  books inputs pending results -> (size (dom (share_owners config) ∖ flagged) < passes)%nat ->
  exists pending' flagged' results',
    sweep_loop config passes pending flagged results = Some (pending', flagged', results')
    /\ books inputs pending' results'.
Proof.
  induction passes as [|passes IH]; intros pending flagged results H Hfuel; [lia|]. cbn [sweep_loop].
  pose proof (sweep_from_books inputs (length pending) 0 (mkSweepPass pending flagged results false []) H) as Hb.
  pose proof (sweep_from_flags (length pending) 0 (mkSweepPass pending flagged results false [])) as [_ Hf].
  specialize (Hf eq_refl). cbn [sp_flagged] in Hf.
  set (p := sweep_from config (length pending) 0 _) in *. clearbody p. cbv zeta in Hb.
  destruct (sp_grew p).
  - apply IH; [done|]. destruct Hf as [Hsub Hnew]. destruct (Hnew eq_refl) as (x & Hd & Hin & Hout).
    assert (size (dom (share_owners config) ∖ sp_flagged p) < size (dom (share_owners config) ∖ flagged))%nat; [|lia].
    apply subset_size. set_solver.
  - do 3 eexists. split; [done|]. destruct Hb as [Hp Hr Hi].
    split.
    + intros st [Hst _]%elem_of_bool_filter. auto.
    + apply Forall_app. split; [done|]. apply Forall_fmap, Forall_forall. done.
    + rewrite fmap_app, <- list_fmap_compose, <- (assoc (++)).
      change (fst ∘ too_many_invalid config) with st_signing_id. rewrite <- fmap_app, <- Hi.
      apply Permutation_app_head, fmap_Permutation, filter_split_perm.
Qed.

Lemma finalize_sweep_ends inputs pending flagged results :
  books inputs pending results ->
  exists pending' flagged' results',
    finalize_sweep config pending flagged results = Some (pending', flagged', results')
    /\ books inputs pending' results'.
Proof.
  intros H. apply sweep_loop_ends; [done|]. unfold sweep_fuel.
  assert (size (dom (share_owners config) ∖ flagged) <= size (dom (share_owners config)))%nat
    by (apply subseteq_size; set_solver). rewrite size_dom in *. lia.
Qed.

(** ** What peers send *)

Lemma retain_from_spec peer sigs : forall seen,
  let kept := retain_from config peer seen sigs in
  NoDup kept.*1 /\ forall e, e ∈ kept -> share_owners config !! e.1 = Some peer /\ e.1 ∉ seen /\ e ∈ sigs.
Proof.
  induction sigs as [|e sigs IH]; intros seen; cbn [retain_from].
  { split; [constructor|]. by intros e He%not_elem_of_nil. }
  destruct (bool_decide_reflect (share_owners config !! e.1 = Some peer)) as [Ho|]; cbn [andb];
    [destruct (bool_decide_reflect (e.1 ∈ seen)) as [|Hs]; cbn [negb]|].
  - destruct (IH seen) as [H1 H2]. split; [done|]. intros x Hx. destruct (H2 x Hx) as (? & ? & ?).
    split_and!; [done..|by right].
  - destruct (IH ({[e.1]} ∪ seen)) as [H1 H2]. split.
    + cbn. constructor; [|done]. intros (x & E & Hx)%list_elem_of_fmap. destruct (H2 x Hx) as (_ & ? & _). set_solver.
    + intros x [->|Hx]%elem_of_cons; [split_and!; [done..|by left]|]. destruct (H2 x Hx) as (? & ? & ?).
      split_and!; [done|set_solver|by right].
  - destruct (IH seen) as [H1 H2]. split; [done|]. intros x Hx. destruct (H2 x Hx) as (? & ? & ?).
    split_and!; [done..|by right].
Qed.

Lemma merge_sigs_kept peer nonces sigs st :
  let kept := (merge_sigs config peer nonces sigs st).1 in
  NoDup kept.*1 /\ forall e, e ∈ kept -> share_owners config !! e.1 = Some peer.
Proof.
  unfold merge_sigs. assert (NoDup ([] : list Eval).*1
    /\ forall e : Eval, e ∈ [] -> share_owners config !! e.1 = Some peer) as Hnil.
  { split; [constructor|]. by intros e He%not_elem_of_nil. }
  destruct (negb _); [exact Hnil|]. destruct (over_owned_count _ _ _); [exact Hnil|]. cbn.
  destruct (retain_from_spec peer sigs ∅) as [H1 H2]. split; [done|]. intros e He. by apply H2.
Qed.

(** A peer is heard once for an input, and for its own shares only. *)
Lemma merged_ok peer kept st :
  peer ∈ peers_remaining st -> NoDup kept.*1 -> (forall e, e ∈ kept -> share_owners config !! e.1 = Some peer) ->
  input_ok st -> input_ok (with_partials st (partials st ++ kept) (peers_remaining st ∖ {[peer]})).
Proof.
  intros Hpeer Hnd Hown [H1 H2]. split; cbn.
  - rewrite fmap_app. apply NoDup_app. split_and!; [done| |done].
    intros i (e & -> & He)%list_elem_of_fmap (e' & E & He')%list_elem_of_fmap.
    destruct (H2 e He) as (owner & Ho & Hn). rewrite E, (Hown e' He') in Ho. by injection Ho as <-.
  - intros e [He|He]%elem_of_app.
    + destruct (H2 e He) as (owner & Ho & Hn). exists owner. set_solver.
    + exists peer. split; [by apply Hown|set_solver].
Qed.

Lemma merge_entry_books inputs results peer nonces index c entry :
  books inputs (co_pending c) results ->
  books inputs (co_pending (merge_entry config peer nonces index c entry)) results.
Proof.
  intros H. unfold merge_entry. destruct (index !! entry.1) as [i|]; [|done].
  destruct (co_pending c !! i) as [st|] eqn:Hst; [|done]. destruct (decide _) as [Hp|]; [|done].
  pose proof (merge_sigs_kept peer nonces entry.2 st) as [Hnd Hown].
  destruct (merge_sigs _ _ _ _ _) as [kept over]. cbn in *.
  eapply books_insert; [done|exact Hst|done|]. by apply merged_ok.
Qed.

Lemma merge_response_books inputs results peer sigs nonces index pending progressed :
  books inputs pending results ->
  books inputs (co_pending (merge_response config peer sigs nonces index pending progressed)) results.
Proof.
  intros H. unfold merge_response.
  assert (books inputs (co_pending (mkCollected pending 0 progressed)) results) as H' by done. clear H.
  revert H'. generalize (mkCollected pending 0 progressed). induction (map_to_list sigs) as [|e l IH]; intros c H; [done|].
  cbn. by apply IH, merge_entry_books.
Qed.

Lemma collect_polls_books inputs results flagged index polls : forall until pending progressed,
  books inputs pending results ->
  books inputs (collect_polls config flagged index polls until pending progressed).1.2 results.
Proof.
  induction polls as [|poll polls IH]; intros cooling pending progressed H; cbn [collect_polls]; [done|].
  destruct (pl_result poll) as [sigs nonces| |]; [|by apply IH..].
  pose proof (merge_response_books inputs results (pl_peer poll) sigs nonces index pending progressed H) as Hm.
  destruct (round_done _ _ _); [done|]. by apply IH.
Qed.

Lemma collect_books inputs results self now polls flagged pending :
  sm_config self = config -> books inputs pending results ->
  let '(self', pending', _) := collect_partial_sigs_from_peers self now polls flagged pending in
  sm_config self' = config /\ books inputs pending' results.
Proof.
  intros Hc H. unfold collect_partial_sigs_from_peers. destruct (decide _); [done|]. rewrite Hc.
  match goal with |- context [collect_polls ?c ?f ?i ?l ?u ?p ?b] =>
    pose proof (collect_polls_books inputs results f i l u p b H) as Hb end.
  destruct (collect_polls _ _ _ _ _ _ _) as [[until pending'] progressed]. done.
Qed.

(** ** Signing *)

Lemma complete_books inputs rounds : forall self pending flagged results,
  sm_config self = config -> books inputs pending results ->
  exists self' pending' results', complete rounds self pending flagged results = Some (self', pending', results')
    /\ books inputs pending' results'
    /\ (existsb rd_expired rounds = true -> pending' = []).
Proof.
  induction rounds as [|round rounds IH]; intros self pending flagged results Hc H.
  { do 3 eexists. split_and!; [by destruct pending|done|done]. }
  destruct pending as [|st pending]; [do 3 eexists; by split_and!|]. cbn [complete].
  assert (exists p' f' r', sweep_round (sm_config self) (rd_admitted round) (st :: pending) flagged results
    = Some (p', f', r') /\ books inputs p' r') as (p' & f' & r' & -> & Hb).
  { unfold sweep_round. rewrite Hc. destruct (_ || _); [by apply finalize_sweep_ends|by do 3 eexists]. }
  cbn [mbind option_bind]. destruct (bool_decide_reflect (p' = [])) as [->|Hne]; [do 3 eexists; by split_and!|].
  destruct (rd_expired round) eqn:Ex; cbn [existsb]; rewrite ?Ex.
  - do 3 eexists. split_and!; [done| |done]. rewrite Hc. destruct Hb as [Hp Hr Hi]. split; [set_solver| |].
    + apply Forall_app. split; [done|]. apply Forall_fmap, Forall_forall. done.
    + rewrite fmap_app, <- list_fmap_compose, app_nil_r. done.
  - pose proof (collect_books inputs r' self (rd_now round) (rd_polls round) f' p' Hc Hb) as Hcol.
    destruct (collect_partial_sigs_from_peers _ _ _ _ _) as [[self' p''] progressed]. destruct Hcol as [Hc' Hb'].
    cbn [orb]. by apply IH.
Qed.
End results.

(** ** From the requests on *)

Section requests.
Context `{TE : ThresholdEnv}.

(** A node computes one partial signature for each share it owns. *)
Definition local_partials (config : SigningEpochConfig) (sigs : list Eval) : Prop :=
  NoDup sigs.*1 /\ forall e, e ∈ sigs -> share_owners config !! e.1 = Some (sc_address config).

Definition local_shares (config : SigningEpochConfig) : Prop :=
  forall message presig beacon address nonce sigs,
    generate_partial_signatures message presig beacon (sc_key_shares config) (sc_verifying_key config) address
      = Some (nonce, sigs) -> local_partials config sigs.

Definition outputs_ok (self : SigningManager) : Prop :=
  forall id output, partial_signing_outputs self !! id = Some output ->
    local_partials (sm_config self) (po_partial_sigs output).

Record manager_ok (config : SigningEpochConfig) (self : SigningManager) : Prop := {
  mo_config : sm_config self = config;
  mo_outputs : outputs_ok self;
}.

Lemma manager_ok_same config self self' :
  sm_config self' = sm_config self -> partial_signing_outputs self' = partial_signing_outputs self ->
  manager_ok config self -> manager_ok config self'.
Proof. intros E1 E2 [H1 H2]. split; [congruence|]. unfold outputs_ok. rewrite E1, E2. exact H2. Qed.

Lemma install_same self :
  sm_config (install_next self) = sm_config self
  /\ partial_signing_outputs (install_next self) = partial_signing_outputs self.
Proof.
  unfold install_next. destruct (last _); [|done]. destruct (next_batch self); [|done].
  destruct (_ =? _); [done|]. by destruct (_ <? _).
Qed.

Lemma locate_same g self :
  let self' := (locate g self).2 in
  sm_config self' = sm_config self /\ partial_signing_outputs self' = partial_signing_outputs self
  /\ (locate g self).1 <> Panic.
Proof.
  unfold locate. destruct (find_batch _ _); [done|]. destruct (install_same self) as [E1 E2].
  destruct (find_batch _ _); [done|]. cbn. by destruct (next_batch _).
Qed.

Lemma take_presig_same config id g seals self :
  refill_divisor config <> 0%nat -> manager_ok config self ->
  let '(r, self') := take_presig id g seals self in
  r <> Panic /\ manager_ok config self'
  /\ forall output k, r = Ok (Cached output k) -> local_partials config (po_partial_sigs output).
Proof.
  intros Hdiv H. unfold take_presig. destruct (partial_signing_outputs self !! id) as [output|] eqn:Eo.
  { split_and!; [done|done|]. intros o k [= <- <-]. destruct H as [<- Ho]. by eapply Ho. }
  destruct (locate_same g self) as (E1 & E2 & Hp). destruct (locate g self) as [r1 self1].
  cbn [fst snd] in *. assert (manager_ok config self1) as H1 by (by apply (manager_ok_same config self)). clear E1 E2.
  destruct r1 as [[i b]|e|]; [|by cbv beta iota; split_and!|by destruct Hp]. destruct (seals !! _) as [seal|]; [|by cbv beta iota; split_and!].
  destruct (negb _); [by cbv beta iota; split_and!|]. destruct (negb _); [by cbv beta iota; split_and!|].
  destruct (pool b !! _) as [[p|]|]; [|by cbv beta iota; split_and!..].
  set (self2 := with_batches self1 _ _). assert (manager_ok config self2) as H2 by (by apply (manager_ok_same config self1)).
  assert (exists self3, refill_if_low self2 = Ok self3 /\ manager_ok config self3) as (self3 & -> & H3).
  { unfold refill_if_low. rewrite (mo_config _ _ H2). destruct (last (batches self2)); [|by exists self2].
    destruct (Nat.eqb_spec (refill_divisor config) 0); [done|].
    destruct (_ <=? _)%nat; eexists; (split; [done|]); [by apply (manager_ok_same config self2)|done]. }
  split_and!; [done| |done]. by apply (manager_ok_same config self3).
Qed.

Lemma use_taken_ok config taken id message g delta address self :
  local_shares config -> manager_ok config self ->
  (forall output k, taken = Cached output k -> local_partials config (po_partial_sigs output)) ->
  let '(r, self') := use_taken taken id message g delta address self in
  r <> Panic /\ manager_ok config self'
  /\ forall nonce sigs beacon bytes, r = Ok (nonce, sigs, beacon, bytes) -> local_partials config sigs.
Proof.
  intros Hl H Hc. unfold use_taken. destruct taken as [output k|p rnd digest k pos].
  - destruct (_ || _); [by cbv beta iota; split_and!|]. split_and!; [done|done|]. intros ? ? ? ? [= <- <- <- <-]. by eapply Hc.
  - destruct H as [E Ho]. rewrite E. destruct (generate_partial_signatures _ _ _ _ _ _) as [[nonce sigs]|] eqn:Eg;
      [|by cbv beta iota; split_and!].
    pose proof (Hl _ _ _ _ _ _ Eg) as Hs. split_and!; [done| |by intros ? ? ? ? [= <- <- <- <-]].
    split; [done|]. intros i out. cbn. rewrite lookup_insert_Some. rewrite E.
    intros [[_ <-]|[_ Hi]]; [done|]. rewrite <- E. by eapply Ho.
Qed.

Lemma prepare_ok config id message g delta seals address self :
  refill_divisor config <> 0%nat -> local_shares config -> manager_ok config self ->
  let '(r, self') := prepare_local_partial_signatures id message g delta seals address self in
  r <> Panic /\ manager_ok config self'
  /\ forall nonce sigs beacon bytes, r = Ok (nonce, sigs, beacon, bytes) -> local_partials config sigs.
Proof.
  intros Hdiv Hl H. unfold prepare_local_partial_signatures, mbind, M_bind.
  pose proof (take_presig_same config id g seals self Hdiv H) as Ht.
  destruct (take_presig id g seals self) as [[taken|e|] self1]; destruct Ht as (Hp & Hm & Hc);
    [|by cbv beta iota; split_and!|by destruct Hp].
  apply use_taken_ok; [done|done|]. intros output k ->. by eapply Hc.
Qed.

(** A state stands for its request. *)
Definition state_of (config : SigningEpochConfig) (input : SignInput) (st : InputSigningState) : Prop :=
  st_signing_id st = si_signing_id input /\ st_message st = si_message input
  /\ st_derivation_address st = Some (si_derivation_address input) /\ input_ok config st.

Lemma new_state_ok config input nonce beacon bytes sigs :
  local_partials config sigs ->
  state_of config input
    (input_state_new (si_signing_id input) (si_message input) nonce beacon bytes
       (Some (si_derivation_address input)) sigs (Z.to_nat (sc_t config)) (all_peers config)).
Proof.
  intros [Hnd Hown]. split_and!; try done. split; [done|]. cbn. intros e He. exists (sc_address config).
  split; [by apply Hown|]. unfold all_peers. rewrite elem_of_list_to_set, elem_of_bool_filter.
  intros [_ Hne]. by rewrite Z.eqb_refl in Hne.
Qed.

Lemma prepare_local_ok config seals inputs : forall self,
  refill_divisor config <> 0%nat -> local_shares config -> manager_ok config self ->
  exists pending results self', prepare_local inputs seals self = (Ok (pending, results), self')
    /\ manager_ok config self'
    /\ results.*1 ++ (st_signing_id <$> pending) ≡ₚ (si_signing_id <$> inputs)
    /\ (forall st, st ∈ pending -> exists input, input ∈ inputs /\ state_of config input st)
    /\ Forall (fun r : SigningResult => exists e, r.2 = inr e) results.
Proof.
  induction inputs as [|input inputs IH]; intros self Hdiv Hl Hm.
  { exists [], [], self. split_and!; try done. set_solver. }
  cbn [prepare_local].
  pose proof (prepare_ok config (si_signing_id input) (si_message input) (si_global_presig_index input)
    (si_message_delta input) seals (Some (si_derivation_address input)) self Hdiv Hl Hm) as Hp.
  destruct (prepare_local_partial_signatures _ _ _ _ _ _ _) as [r self1]. destruct Hp as (Hnp & Hm1 & Hloc).
  destruct (IH self1 Hdiv Hl Hm1) as (pending & results & self2 & E & Hm2 & Hids & Hst & Hres). rewrite E.
  assert (forall st, st ∈ pending -> exists i, i ∈ input :: inputs /\ state_of config i st) as Hst'.
  { intros st Hin. destruct (Hst st Hin) as (i & ? & ?). exists i. split; [by right|done]. }
  destruct r as [[[[nonce sigs] beacon] bytes]|e|]; [| |done].
  - rewrite (mo_config _ _ Hm1). do 3 eexists. split_and!; [done|done| | |done].
    + cbn. rewrite <- Hids. by rewrite Permutation_middle.
    + intros st [->|Hin]%elem_of_cons; [|auto]. exists input. split; [by left|]. by eapply new_state_ok, Hloc.
  - do 3 eexists. split_and!; [done|done| |done|].
    + cbn. by rewrite Hids.
    + constructor; [by exists e|done].
Qed.

(** What stands behind a signature. *)
Definition signature_backed (config : SigningEpochConfig) (inputs : list SignInput) (r : SigningResult) : Prop :=
  forall sig, r.2 = inl sig ->
    exists input nonce beacon sigs blame,
      input ∈ inputs /\ si_signing_id input = r.1
      /\ NoDup sigs.*1 /\ (forall e, e ∈ sigs -> is_Some (share_owners config !! e.1))
      /\ sc_t config <= Z.of_nat (length sigs)
      /\ aggregate_signatures (si_message input) nonce beacon sigs (sc_t config) (sc_verifying_key config)
           (Some (si_derivation_address input)) = inl (sig, blame).

Lemma backed_signature config inputs states r :
  (forall st, st ∈ states -> exists input, input ∈ inputs /\ state_of config input st) ->
  backed config states r -> signature_backed config inputs r.
Proof.
  intros Hst Hb sig Er. unfold backed in Hb. rewrite Er in Hb.
  destruct Hb as (st0 & st & H0 & E & Eid & [Hnd Hown] & sigs & blame & Hsub & Hlen & Hagg).
  destruct (Hst st0 H0) as (input & Hin & E1 & E2 & E3 & _). injection E as Ea Eb Ec Ed Ee Ef.
  exists input, (st_public_nonce st), (st_beacon st), sigs, blame. split_and!; [done|congruence| | |unfold Eval in *; lia|].
  - eapply sublist_NoDup; [exact Hnd|]. by apply fmap_sublist.
  - intros e He. eapply elem_of_sublist in He; [|exact Hsub]. destruct (Hown e He) as (owner & -> & _). done.
  - unfold aggregate in Hagg. by rewrite Eb, Ed, E2, E3 in Hagg.
Qed.

(** C16: one result for each input, and what a signature stands on.  Whatever the peers send, in
    whatever order, wrong, repeated, too much or nothing, signing ends without a panic or an
    endless sweep; every input gets exactly one result, at the latest when the deadline has
    passed; and a signature was aggregated for the message and the derivation address of its
    own input from at least the threshold of partial signatures, all of different shares that
    have an owner. *)
Theorem signing_results_exact self inputs seals rounds :
  let config := sm_config self in
  refill_divisor config <> 0%nat -> local_shares config -> outputs_ok self ->
  exists self' pending results,
    sign inputs seals rounds self = Ok (Some (self', pending, results))
    /\ results.*1 ++ (st_signing_id <$> pending) ≡ₚ (si_signing_id <$> inputs)
    /\ (existsb rd_expired rounds = true -> pending = [])
    /\ Forall (signature_backed config inputs) results.
Proof.
  intros config Hdiv Hl Ho. assert (manager_ok config self) as Hm by done.
  destruct (prepare_local_ok config seals inputs self Hdiv Hl Hm)
    as (pending & results & self1 & E & Hm1 & Hids & Hst & Hres).
  destruct (complete_books config (si_signing_id <$> inputs) pending rounds self1 pending ∅ results (mo_config _ _ Hm1))
    as (self2 & pending' & results' & E2 & [_ Hb Hids'] & Hend).
  { split; [| |done].
    - intros st Hin. destruct (Hst st Hin) as (input & _ & _ & _ & _ & Hok). split; [done|]. by exists st.
    - eapply Forall_impl; [exact Hres|]. intros r [e Er]. unfold backed. by rewrite Er. }
  exists self2, pending', results'. unfold sign. rewrite E, E2. split_and!; try done.
  eapply Forall_impl; [exact Hb|]. intros r. by apply backed_signature.
Qed.
End requests.

(** * A signing manager at work

    A toy scheme in which a partial signature is the checksum of its message, two batches of
    presignatures, and a member that sends what it should not. *)

Import SmallGuardian.
#[local] Existing Instance script_units.
#[local] Existing Instance script_env.
#[local] Existing Instance checksum_signing.

(** The right partial signature of a share. *)
Definition right_partial (message : list Z) (i : ShareIndex) : ShareIndex * Delta := (i, [i; zsum message] : Delta).

#[local] Instance checksum_threshold : ThresholdEnv := {|
  Point := Z;
  KeyShares := list ShareIndex;
  SchnorrOutput := Z;
  scalar_add a b := (a ++ b : list Z);
  point_add := Z.add;
  generator_mul d := zsum d;
  to_byte_array p := [p];
  POINT_SIZE_IN_BYTES := 1;
  bcs_point p := [p];
  presig_oracle r g n d := [g; n];
  blake2b256 b := b;
  generate_partial_signatures message presig beacon shares vk address :=
    Some (presig.2, right_partial message <$> shares);
  aggregate_signatures message nonce beacon sigs t vk address :=
    if forallb (fun e => bool_decide (e = right_partial message e.1)) sigs
    then inl (zsum message + nonce, BlameNobody) else inr FcInvalidSignature;
|}.

Definition two_presigs (k : Z) : list Presig := (fun i => ([[k; i] : Delta], k : Point)) <$> [0; 1].

Lemma presigs_differ : all_different two_presigs.
Proof.
  intros k k' i j p Hi Hj. unfold two_presigs in *.
  destruct i as [|[|i]], j as [|[|j]]; cbn in *; simplify_eq; done.
Qed.

Definition signing_committee : SigningEpochConfig :=
  signing_config 12 committee_3 3 ([1; 5] : list ShareIndex) 0
    (list_to_map [(1, 12); (5, 12); (2, 10); (3, 11); (4, 13)]) 2.

Definition started : SigningManager :=
  (signing_manager_new signing_committee (two_presigs 0) [9] 0 40 (mkRefillRequest 3 0) (mkIdentityInputs 3 1)).1.
Definition staged : SigningManager := (set_next_batch started 1 (two_presigs 1) [8] (mkIdentityInputs 3 1)).1.
Definition seals : gmap Z PresigSeal :=
  list_to_map [(0, mkPresigSeal (replicate 32 7) [9]); (1, mkPresigSeal (replicate 32 6) [8])].

(** The last one of the first batch, then the first of the next, which is installed for it. *)
Definition first_taken := take_presig 70 41 seals staged.
Definition second_taken := take_presig 71 42 seals first_taken.2.

(** The conditions of a step, decided. *)
Definition roomb (m : SigningManager) : bool :=
  match last (batches m) with
  | None => true
  | Some latest =>
      (0 <=? pb_batch_index latest) && (pb_batch_index latest <? u32_max)
      && match next_batch m with
         | None => true
         | Some next => end_index latest + Z.of_nat (length (nb_pool next)) <=? u64_max
         end
  end.

Lemma roomb_spec m : roomb m = true -> room m.
Proof.
  unfold roomb, room. intros H latest Hl. rewrite Hl in H. apply andb_true_iff in H as [[H1 H2]%andb_true_iff H3].
  split; [lia|]. intros next Hn. rewrite Hn in H3. lia.
Qed.

Definition answered (r : outcome SigningError CacheOrPresig) : bool := match r with Panic => false | _ => true end.

Lemma answered_spec r : answered r = true -> r <> Panic.
Proof. by intros H ->. Qed.

Lemma staged_room : roomb staged = true.
Proof. vm_cast_no_check (eq_refl true). Qed.
Lemma first_room : roomb first_taken.2 = true.
Proof. vm_cast_no_check (eq_refl true). Qed.
Lemma first_answered : answered first_taken.1 = true.
Proof. vm_cast_no_check (eq_refl true). Qed.
Lemma second_answered : answered second_taken.1 = true.
Proof. vm_cast_no_check (eq_refl true). Qed.

Lemma presignature_used_once_witness :
  NoDup ((us_index <$> uses_of 41 first_taken.1) ++ (us_index <$> uses_of 42 second_taken.1))
  /\ us_batch <$> (uses_of 41 first_taken.1 ++ uses_of 42 second_taken.1) = [0; 1].
Proof.
  split; [|vm_cast_no_check (eq_refl [0; 1])].
  pose proof (presignature_used_once two_presigs second_taken.2 _ presigs_differ
    (run_taken _ _ _ 71 42 seals second_taken.1 second_taken.2
      (run_taken _ _ _ 70 41 seals first_taken.1 first_taken.2
        (run_staged _ started [] 1 [8] (mkIdentityInputs 3 1)
          (run_fresh two_presigs signing_committee 0 40 [9] (mkRefillRequest 3 0) (mkIdentityInputs 3 1)
             ltac:(lia) ltac:(vm_compute; congruence)))
        (roomb_spec _ staged_room) (surjective_pairing _) (answered_spec _ first_answered))
      (roomb_spec _ first_room) (surjective_pairing _) (answered_spec _ second_answered))) as (_ & H & _).
  rewrite <- fmap_app. exact H.
Defined.

(** ** A round *)

Definition input : SignInput := mkSignInput 70 [4; 5] 40 6 ([1] : Delta).

(** What the peers answer: one more than the share it owns, one a share it does not own, one
    the right one. *)
Definition answer (peer : Address) (sigs : list (ShareIndex * Delta)) : Poll :=
  mkPoll peer 0 (PollResponse {[70 := sigs]} ∅).
Definition first_round : Round :=
  mkRound true false 0
    [answer 10 [(2, [0] : Delta); (3, [0] : Delta)]; answer 13 [(3, [0] : Delta)];
     answer 11 [right_partial [4; 5] 3]].
Definition last_round : Round := mkRound true true 0 [].

Lemma committee_shares : local_shares signing_committee.
Proof.
  intros message presig beacon address nonce sigs [= <- <-]. split; cbn.
  - by repeat (constructor; [set_solver|]); constructor.
  - intros e [->|[->|[]%not_elem_of_nil]%elem_of_cons]%elem_of_cons; vm_compute; reflexivity.
Qed.

Definition signed : list SigningResult :=
  match sign [input] seals [first_round; last_round] started with
  | Ok (Some (_, _, results)) => results
  | _ => []
  end.

Lemma signing_results_exact_witness :
  signed = [(70, inl 9)]
  /\ Forall (signature_backed signing_committee [input]) signed.
Proof.
  split; [vm_cast_no_check (eq_refl ([(70, inl 9)] : list SigningResult))|].
  destruct (signing_results_exact started [input] seals [first_round; last_round]
    ltac:(cbn; lia) committee_shares ltac:(intros id o H; cbn in H; by rewrite lookup_empty in H))
    as (self' & pending & results & E & _ & _ & H).
  unfold signed. rewrite E. exact H.
Defined.
