(* ===== verification/CountCheck.v ===== *)
(** * Counting before parsing

    [crates/hashi/src/mpc/count_check.rs]: payloads of the MPC protocols are walked once before
    they are parsed, to see that they have exactly the counts the committee and the parameters
    of the epoch ask for, so that no peer makes a node allocate for more.

    The walk is a cursor over the bytes; a walker is an [M] over the cursor.  Counts are [Z], a
    position is a [nat].  The checked additions and multiplications of the code fail only where
    the slice would end behind the bytes, with the same error.  The sizes of group elements,
    hashes and signatures and the limit of BCS are constants of other crates. *)

From stdpp Require Import strings.
From S2P Require Import Prelude.

(** ** Sizes *)

Class WireSizes := {
  POINT : Z;
  SCALAR : Z;
  EG_POINT : Z;
  EG_SCALAR : Z;
  HASH : Z;
  MERKLE_DIGEST : Z;
  AGGREGATE_SIGNATURE : Z;
  MAX_SEQUENCE_LENGTH : Z;
}.

(** Sizes are sizes, and a length fits the five digits it is read from. *)
Class WireSizesLaws `{WireSizes} := {
  sizes_nonneg : 0 <= POINT /\ 0 <= SCALAR /\ 0 <= EG_POINT /\ 0 <= EG_SCALAR /\ 0 <= HASH /\ 0 <= MERKLE_DIGEST
    /\ 0 <= AGGREGATE_SIGNATURE;
  max_sequence_length : 0 <= MAX_SEQUENCE_LENGTH < 2 ^ 35;
}.

Section checks.
Context `{WS : WireSizes}.

Definition DDH_NIZK : Z := 2 * EG_POINT + EG_SCALAR.
Definition SHARE : Z := 2 + SCALAR.
Definition ADDRESS_BYTES : Z := 32.
Definition PARTY_ID : Z := 2.
Definition BATCH_INDEX : Z := 4.
Definition EPOCH : Z := 8.
Definition SHARED_COMPONENTS : Z := 2 * EG_POINT + DDH_NIZK.
Definition RECOVERY_PACKAGE : Z := EG_POINT + DDH_NIZK.
Definition MAX_MERKLE_PATH : Z := 63.
Definition MESSAGES_NONCE_GENERATION_AVID : Z := 2.
Definition AVID_NONCE_MESSAGE_KIND_ECHO : Z := 2.
Definition PROTOCOL_COMPLAINT_AVSS : Z := 0.
Definition PROTOCOL_COMPLAINT_AVID_REVEAL : Z := 1.
Definition PROTOCOL_COMPLAINT_AVID_BLAME : Z := 2.
Definition RS_LENGTH_PREFIX : Z := 4.
Definition RS_ELEMENT : Z := 2.

(** ** The cursor *)

Inductive CountCheckError :=
| WrongCount (field : string) (found expected : Z)
| TooMany (field : string) (found max : Z)
| WrongBytes (field : string) (found expected : Z)
| TooManyBytes (field : string) (found max : Z)
| Truncated (field : string)
| BadLength (field : string)
| KeyOrder (field : string)
| UnownedKey (field : string) (index : Z)
| UnknownParty (field : string) (party : Z)
| BadVariant (field : string) (variant : Z)
| Trailing (bytes : Z).

Record Cursor := mkCursor { cu_bytes : list Z; cu_position : nat }.

#[local] Abbreviation W := (M Cursor CountCheckError).

Definition cursor_new (bytes : list Z) : Cursor := mkCursor bytes 0.

Definition cursor_position : W nat := fun self => (Ok (cu_position self), self).

Definition cursor_take (field : string) (len : Z) : W (list Z) := fun self =>
  if Z.of_nat (cu_position self) + len <=? Z.of_nat (length (cu_bytes self)) then
    (Ok (take (Z.to_nat len) (drop (cu_position self) (cu_bytes self))),
     mkCursor (cu_bytes self) (cu_position self + Z.to_nat len))
  else (Err (Truncated field), self).

Definition skip (field : string) (len : Z) : W unit := _ ← cursor_take field len; mret tt.

Definition skip_elements (field : string) (count size : Z) : W unit := skip field (count * size).

(** One byte. *)
Definition byte (field : string) : W Z :=
  b ← cursor_take field 1;
  match b with [b] => mret b | _ => throw (Truncated field) end.

(** Two bytes. *)
Definition two_bytes (field : string) : W (Z * Z) :=
  b ← cursor_take field 2;
  match b with [b0; b1] => mret (b0, b1) | _ => throw (Truncated field) end.

(** The digits of a ULEB128 length, from the given shifts on. *)
Fixpoint length_from (field : string) (shifts : list Z) (value : Z) : W Z :=
  match shifts with
  | [] => throw (BadLength field)
  | shift :: shifts =>
      b ← byte field;
      let digit := Z.land b 127 in
      let value := Z.lor value (Z.shiftl digit shift) in
      if digit =? b then
        if (0 <? shift) && (digit =? 0) then throw (BadLength field)
        else if value <=? MAX_SEQUENCE_LENGTH then mret value
        else throw (BadLength field)
      else length_from field shifts value
  end.

Definition cursor_length (field : string) : W Z := length_from field [0; 7; 14; 21; 28] 0.

Definition variant (field : string) : W Z := cursor_length field.

Definition expect_variant (field : string) (expected : Z) : W unit :=
  v ← variant field; ensure (v =? expected) (BadVariant field v).

Definition finish (self : Cursor) : outcome CountCheckError unit :=
  let trailing := (length (cu_bytes self) - cu_position self)%nat in
  if (trailing =? 0)%nat then Ok tt else Err (Trailing (Z.of_nat trailing)).

(** Walk, and nothing may be left. *)
Definition run_check {A} (walk : W A) (bytes : list Z) : outcome CountCheckError A :=
  match walk (cursor_new bytes) with
  | (Ok a, cursor) => _ ← finish cursor; Ok a
  | (Err e, _) => Err e
  | (Panic, _) => Panic
  end.

Definition expect_count (field : string) (found expected : Z) : W unit :=
  ensure (found =? expected) (WrongCount field found expected).
Definition at_most (field : string) (found max : Z) : W unit :=
  ensure (found <=? max) (TooMany field found max).
Definition expect_bytes (field : string) (found expected : Z) : W unit :=
  ensure (found =? expected) (WrongBytes field found expected).
Definition at_most_bytes (field : string) (found max : Z) : W unit :=
  ensure (found <=? max) (TooManyBytes field found max).

(** [for _ in 0..n] *)
Fixpoint repeat_walk (n : nat) (walk : W unit) : W unit :=
  match n with
  | O => mret tt
  | S n => _ ← walk; repeat_walk n walk
  end.

(** ** Shapes *)

Record AvssShape := mkAvssShape { as_threshold : Z; as_num_nodes : Z }.

Definition PartyWeights : Type := list Z.

Definition num_nodes (self : PartyWeights) : Z := Z.of_nat (length self).

Definition weight_of (self : PartyWeights) (field : string) (party : Z) : outcome CountCheckError Z :=
  match self !! Z.to_nat party with Some w => Ok w | None => Err (UnknownParty field party) end.

Record AvidShape := mkAvidShape { av_threshold : Z; av_weights : PartyWeights; av_batch_size_per_weight : Z }.

Record DispersalShape := mkDispersalShape { ds_weights : PartyWeights; ds_batch_size : Z; data_shards : Z }.

Definition dispersal_shape_new (weights : PartyWeights) (dealer batch_size_per_weight max_faulty : Z)
    : option DispersalShape :=
  let data_shards := zsum weights - 2 * max_faulty in
  if data_shards <=? 0 then None
  else Some (mkDispersalShape weights (default 0 (weights !! Z.to_nat dealer) * batch_size_per_weight) data_shards).

Record ExactShards := mkExactShards { shard_bytes : Z; row_depth : Z; top_depth : Z }.

Definition bit_length (value : Z) : Z := if value =? 0 then 0 else Z.log2 value + 1.

Definition uleb128_len (value : Z) : Z := Z.max 1 (div_ceil (bit_length value) 7).

Definition avid_shard_bytes (row_weight batch_size data_shards : Z) : Z :=
  let share_batch := uleb128_len batch_size + (batch_size + 1) * SCALAR in
  let payload := uleb128_len row_weight + row_weight * share_batch in
  div_ceil (RS_LENGTH_PREFIX + payload) (RS_ELEMENT * data_shards) * RS_ELEMENT.

(** The exponent of the next power of two. *)
Definition merkle_depth (leaves : Z) : Z := Z.log2_up leaves.

(** ** Walkers *)

Definition walk_bytes (field : string) : W unit :=
  len ← cursor_length field; skip field len.

Definition walk_avss_message (shape : AvssShape) : W unit :=
  points ← cursor_length "feldman_commitment";
  _ ← expect_count "feldman_commitment" points (as_threshold shape);
  _ ← skip_elements "feldman_commitment" points POINT;
  _ ← skip "ciphertext" (2 * EG_POINT);
  encs ← cursor_length "ciphertext.encs";
  _ ← expect_count "ciphertext.encs" encs (as_num_nodes shape);
  _ ← repeat_walk (Z.to_nat encs) (walk_bytes "ciphertext.encs");
  skip "ciphertext.proof" DDH_NIZK.

Definition walk_avss_common_message (shape : AvidShape) (dealer : Z) : W unit :=
  weight ← of_outcome (weight_of (av_weights shape) "full_public_keys" dealer);
  let batch_size := weight * av_batch_size_per_weight shape in
  keys ← cursor_length "full_public_keys";
  _ ← expect_count "full_public_keys" keys batch_size;
  _ ← skip_elements "full_public_keys" keys POINT;
  _ ← skip "blinding_commit" POINT;
  _ ← skip "ciphertext_shared" SHARED_COMPONENTS;
  hashes ← cursor_length "ciphertext_hashes";
  _ ← expect_count "ciphertext_hashes" hashes (num_nodes (av_weights shape));
  _ ← skip_elements "ciphertext_hashes" hashes HASH;
  coefficients ← cursor_length "response_polynomial";
  _ ← expect_count "response_polynomial" coefficients (av_threshold shape);
  skip_elements "response_polynomial" coefficients SCALAR.

Definition walk_merkle_node (field : string) : W unit :=
  v ← variant field;
  if v =? 0 then mret tt
  else if v =? 1 then skip field MERKLE_DIGEST
  else throw (BadVariant field v).

Definition walk_merkle_path (field : string) (depth : option Z) : W unit :=
  nodes ← cursor_length field;
  _ ← match depth with
      | None => at_most field nodes MAX_MERKLE_PATH
      | Some depth => expect_count field nodes depth
      end;
  repeat_walk (Z.to_nat nodes) (walk_merkle_node field).

Definition walk_shard (exact : option ExactShards) : W unit :=
  len ← cursor_length "shards";
  _ ← match exact with None => mret tt | Some exact => expect_bytes "shards" len (shard_bytes exact) end;
  skip "shards" len.

Definition walk_authenticated_shards (expected_shards : Z) (exact : option ExactShards) : W unit :=
  shards ← cursor_length "shards";
  _ ← expect_count "shards" shards expected_shards;
  _ ← repeat_walk (Z.to_nat shards) (walk_shard exact);
  _ ← walk_merkle_path "row_proof" (row_depth <$> exact);
  walk_merkle_path "top_proof" (top_depth <$> exact).

Definition walk_avid_vote (weights : PartyWeights) : W unit :=
  _ ← walk_merkle_node "vote.top_root";
  recipients ← cursor_length "vote.recipients";
  _ ← at_most "vote.recipients" recipients (num_nodes weights);
  _ ← skip_elements "vote.recipients" recipients PARTY_ID;
  skip "common_message_hash" HASH.

Definition walk_vote_certificate (max_signers_bytes : option Z) : W unit :=
  _ ← skip "certificate" (EPOCH + AGGREGATE_SIGNATURE);
  signers ← cursor_length "certificate.signers";
  _ ← match max_signers_bytes with
      | None => mret tt
      | Some max => at_most_bytes "certificate.signers" signers max
      end;
  _ ← skip "certificate.signers" signers;
  _ ← skip "certificate" ADDRESS_BYTES;
  _ ← walk_bytes "certificate.messages_hash";
  skip "certificate" BATCH_INDEX.

(** [\[u8; 2\]] compares byte by byte. *)
Definition key_le (a b : Z * Z) : bool := (a.1 <? b.1) || ((a.1 =? b.1) && (a.2 <=? b.2)).

(** The entries of a map from u16, in the canonical order of their keys; [entry] walks the
    value of a key and adds to what is collected. *)
Fixpoint walk_entries {A} (field : string) (count : nat) (previous_key : option (Z * Z))
    (entry : Z -> A -> W A) (acc : A) : W A :=
  match count with
  | O => mret acc
  | S count =>
      key ← two_bytes field;
      _ ← ensure (match previous_key with Some previous => negb (key_le key previous) | None => true end)
            (KeyOrder field);
      acc ← entry (key.1 + 256 * key.2) acc;
      walk_entries field count (Some key) entry acc
  end.

Definition walk_u16_map {A} (field : string) (max_entries : Z) (entry : Z -> A -> W A) (acc : A) : W A :=
  count ← cursor_length field;
  _ ← at_most field count max_entries;
  walk_entries field (Z.to_nat count) None entry acc.

(** ** Checks *)

Definition check_avss_message (bytes : list Z) (shape : AvssShape) : outcome CountCheckError unit :=
  run_check (walk_avss_message shape) bytes.

(** The range of each share index of the dealer. *)
Definition rotation_entry (shape : AvssShape) (owned : list Z) (index : Z) (entries : gmap Z (nat * nat))
    : W (gmap Z (nat * nat)) :=
  _ ← ensure (negb (index =? 0) && bool_decide (index ∈ owned)) (UnownedKey "rotation_messages" index);
  start ← cursor_position;
  _ ← walk_avss_message shape;
  stop ← cursor_position;
  mret (<[index := (start, stop)]> entries).

Definition check_rotation_messages (bytes : list Z) (shape : AvssShape) (owned : list Z)
    : outcome CountCheckError (gmap Z (nat * nat)) :=
  run_check (walk_u16_map "rotation_messages" (Z.of_nat (length owned)) (rotation_entry shape owned) ∅) bytes.

Definition avss_complaint_response_size (responder_weight : Z) : Z :=
  uleb128_len responder_weight + responder_weight * SHARE.

Definition check_avss_complaint_response (bytes : list Z) (responder_weight : Z) : outcome CountCheckError unit :=
  run_check (
    shares ← cursor_length "complaint_response.shares";
    _ ← expect_count "complaint_response.shares" shares responder_weight;
    skip_elements "complaint_response.shares" shares SHARE) bytes.

Definition check_avss_common_message (bytes : list Z) (shape : AvidShape) (dealer : Z) : outcome CountCheckError unit :=
  run_check (walk_avss_common_message shape dealer) bytes.

Definition check_avid_avss_message (bytes : list Z) (shape : AvidShape) (dealer : Z) : outcome CountCheckError unit :=
  run_check (_ ← walk_avss_common_message shape dealer; walk_bytes "ciphertext") bytes.

(** The length in front of the bytes is read twice. *)
Definition check_dispersal (bytes : list Z) (shape : DispersalShape) (holder : Z) : outcome CountCheckError unit :=
  shards ← weight_of (ds_weights shape) "dispersal" holder;
  let row_depth := merkle_depth (num_nodes (ds_weights shape)) in
  rows ← (cursor_length "dispersal" (cursor_new bytes)).1;
  let top_depth := merkle_depth rows in
  run_check
    (walk_u16_map "dispersal" (num_nodes (ds_weights shape))
       (fun row _ =>
          row_weight ← of_outcome (weight_of (ds_weights shape) "dispersal" row);
          walk_authenticated_shards shards
            (Some (mkExactShards (avid_shard_bytes row_weight (ds_batch_size shape) (data_shards shape))
                     row_depth top_depth))) tt) bytes.

Definition check_confirm_certificate (bytes : list Z) (weights : PartyWeights) : outcome CountCheckError unit :=
  run_check (walk_vote_certificate (Some (div_ceil (num_nodes weights) 8))) bytes.

Definition check_echo (bytes : list Z) (weights : PartyWeights) (sender : Z) : outcome CountCheckError unit :=
  shards ← weight_of weights "echo" sender;
  run_check (walk_authenticated_shards shards None) bytes.

Definition check_avid_vote (bytes : list Z) (weights : PartyWeights) : outcome CountCheckError unit :=
  run_check (walk_avid_vote weights) bytes.

Definition check_protocol_complaint (bytes : list Z) (weights : PartyWeights) : outcome CountCheckError unit :=
  run_check (
    v ← variant "complaint";
    if v =? PROTOCOL_COMPLAINT_AVSS then skip "complaint" RECOVERY_PACKAGE
    else if v =? PROTOCOL_COMPLAINT_AVID_REVEAL then
      _ ← walk_bytes "complaint.ciphertext";
      skip "complaint.proof" RECOVERY_PACKAGE
    else if v =? PROTOCOL_COMPLAINT_AVID_BLAME then
      _ ← walk_u16_map "complaint.shards" (num_nodes weights)
            (fun disperser _ =>
               shards ← of_outcome (weight_of weights "complaint.shards" disperser);
               walk_authenticated_shards shards None) tt;
      walk_vote_certificate None
    else throw (BadVariant "complaint" v)) bytes.

Definition check_avid_complaint_response (bytes : list Z) : outcome CountCheckError unit :=
  run_check (
    _ ← walk_bytes "complaint_response.ciphertext";
    skip "complaint_response.recovery_package" RECOVERY_PACKAGE) bytes.

Definition walk_held_echo (shards : Z) : W unit :=
  _ ← skip "held_echoes" ADDRESS_BYTES;
  _ ← expect_variant "held_echoes" MESSAGES_NONCE_GENERATION_AVID;
  _ ← skip "held_echoes" BATCH_INDEX;
  _ ← expect_variant "held_echoes" AVID_NONCE_MESSAGE_KIND_ECHO;
  _ ← skip "held_echoes" ADDRESS_BYTES;
  walk_authenticated_shards shards None.

Definition check_held_avid_echoes (bytes : list Z) (weights : PartyWeights) (holder : Z) : outcome CountCheckError unit :=
  shards ← weight_of weights "held_echoes" holder;
  run_check (
    _ ← walk_avid_vote weights;
    echoes ← cursor_length "held_echoes";
    _ ← at_most "held_echoes" echoes (num_nodes weights);
    _ ← repeat_walk (Z.to_nat echoes) (walk_held_echo shards);
    walk_vote_certificate None) bytes.
End checks.
