(* ===== verification/CountCheckProofs.v ===== *)
(** * The checks accept exactly the well-counted payloads

    Each check is equivalent to a grammar: the payloads are BCS, with canonical lengths, sorted
    keys and the counts of the shape.  The walkers are proved by their parts: a walker
    recognizes a relation between its result and the bytes it takes. *)

From stdpp Require Import strings.
From S2P Require Import CountCheck Prelude.

Section recognizers.
Context `{WS : WireSizes}.

#[local] Abbreviation W := (M Cursor CountCheckError).

Definition is_byte (b : Z) : Prop := 0 <= b < 256.

(** From a position, a walker succeeds with a result exactly on the strings that the relation
    gives for it, takes them, and never panics. *)
Record recognizes {A} (w : W A) (R : nat -> A -> list Z -> Prop) : Prop := {
  rc_sound pre rest r c : Forall is_byte rest ->
    w (mkCursor (pre ++ rest) (length pre)) = (r, c) ->
    r <> Panic
    /\ forall a, r = Ok a ->
         exists s rest', rest = s ++ rest' /\ R (length pre) a s
           /\ c = mkCursor (pre ++ rest) (length pre + length s);
  rc_complete pre s rest a : R (length pre) a s ->
    w (mkCursor (pre ++ s ++ rest) (length pre)) = (Ok a, mkCursor (pre ++ s ++ rest) (length pre + length s));
}.

Lemma recognizes_ext {A} (w : W A) (R R' : nat -> A -> list Z -> Prop) :
  (forall n a s, R n a s <-> R' n a s) -> recognizes w R -> recognizes w R'.
Proof.
  intros H [Hs Hc]. split.
  - intros pre rest r c Hb E. destruct (Hs pre rest r c Hb E) as [Hp Ha]. split; [done|].
    intros a Er. destruct (Ha a Er) as (s & rest' & ? & ?%H & ?). eauto.
  - intros pre s rest a ?%H. auto.
Qed.

Lemma recognizes_ret {A} (a : A) : recognizes (mret a) (fun _ b s => b = a /\ s = []).
Proof.
  split.
  - intros pre rest r c _ [= <- <-]. split; [done|]. intros b [= <-]. exists [], rest. by rewrite Nat.add_0_r.
  - intros pre s rest b [-> ->]. cbn. by rewrite Nat.add_0_r.
Qed.

Lemma recognizes_outcome {A} (o : outcome CountCheckError A) :
  o <> Panic -> recognizes (of_outcome o) (fun _ a s => o = Ok a /\ s = []).
Proof.
  intros Hp. split.
  - intros pre rest r c _ [= <- <-]. split; [done|]. intros b ->. exists [], rest. by rewrite Nat.add_0_r.
  - intros pre s rest b [-> ->]. cbn. by rewrite Nat.add_0_r.
Qed.

Lemma recognizes_throw {A} (e : CountCheckError) : recognizes (throw (A:=A) e) (fun _ _ _ => False).
Proof.
  apply (recognizes_ext _ (fun _ a s => Err e = Ok a /\ s = [])); [naive_solver|]. by apply recognizes_outcome.
Qed.

Lemma recognizes_ensure b (e : CountCheckError) : recognizes (ensure b e) (fun _ _ s => b = true /\ s = []).
Proof.
  apply (recognizes_ext _ (fun _ (a : unit) s => guard b e = Ok a /\ s = [])).
  - intros n [] s. unfold guard. destruct b; naive_solver.
  - apply recognizes_outcome. by destruct b.
Qed.

Lemma recognizes_bind_if {A B} (w : W A) (k : A -> W B) R Q :
  recognizes w R -> (forall n a s, R n a s -> recognizes (k a) (Q a)) ->
  recognizes (w ≫= k)
    (fun n b s => exists a s1 s2, s = s1 ++ s2 /\ R n a s1 /\ Q a (n + length s1)%nat b s2).
Proof.
  intros [Hs Hc] Hk. split.
  - intros pre rest r c Hb. unfold mbind, M_bind. destruct (w _) as [r1 c1] eqn:E1.
    destruct (Hs _ _ _ _ Hb E1) as [Hp Ha]. destruct r1 as [a|e|]; [|by intros [= <- <-]|done].
    destruct (Ha a eq_refl) as (s1 & rest1 & -> & HR & ->). intros E2.
    apply Forall_app in Hb as [_ Hb1]. rewrite (assoc (++)), <- length_app in E2.
    destruct (rc_sound _ _ (Hk _ a _ HR) (pre ++ s1) rest1 r c Hb1 E2) as [Hp2 Ha2]. split; [done|].
    intros b Er. destruct (Ha2 b Er) as (s2 & rest2 & -> & HQ & ->). exists (s1 ++ s2), rest2.
    rewrite !length_app, <- !(assoc (++)), Nat.add_assoc in *. split_and!; [done| |done].
    exists a, s1, s2. done.
  - intros pre s rest b (a & s1 & s2 & -> & HR & HQ). unfold mbind, M_bind.
    rewrite <- (assoc (++)). rewrite (Hc _ _ _ _ HR). rewrite <- length_app in HQ.
    pose proof (rc_complete _ _ (Hk _ a _ HR) (pre ++ s1) s2 rest b HQ) as E. rewrite <- !(assoc (++)), !length_app in E.
    rewrite E. by rewrite length_app, Nat.add_assoc.
Qed.

Lemma recognizes_bind {A B} (w : W A) (k : A -> W B) R Q :
  recognizes w R -> (forall a, recognizes (k a) (Q a)) ->
  recognizes (w ≫= k)
    (fun n b s => exists a s1 s2, s = s1 ++ s2 /\ R n a s1 /\ Q a (n + length s1)%nat b s2).
Proof. intros H1 H2. by apply recognizes_bind_if. Qed.

Lemma recognizes_position : recognizes cursor_position (fun n a s => a = n /\ s = []).
Proof.
  split.
  - intros pre rest r c _ [= <- <-]. split; [done|]. intros a [= <-]. exists [], rest. cbn. by rewrite Nat.add_0_r.
  - intros pre s rest a [-> ->]. cbn. by rewrite Nat.add_0_r.
Qed.

Lemma recognizes_take field len : 0 <= len ->
  recognizes (cursor_take field len) (fun _ a s => a = s /\ Z.of_nat (length s) = len).
Proof.
  intros Hlen. split.
  - intros pre rest r c _. unfold cursor_take. cbn [cu_bytes cu_position]. rewrite drop_app_length, length_app.
    destruct (Z.leb_spec (Z.of_nat (length pre) + len) (Z.of_nat (length pre + length rest)));
      intros [= <- <-]; (split; [done|]); [|done].
    intros a [= <-]. exists (take (Z.to_nat len) rest), (drop (Z.to_nat len) rest).
    rewrite take_drop, length_take, Nat.min_l by lia. split_and!; [done|done|lia|done].
  - intros pre s rest a [-> <-]. unfold cursor_take. cbn [cu_bytes cu_position].
    rewrite drop_app_length, !length_app, Nat2Z.id.
    destruct (Z.leb_spec (Z.of_nat (length pre) + Z.of_nat (length s)) (Z.of_nat (length pre + (length s + length rest)))); [|lia].
    by rewrite take_app_length.
Qed.

(** ** Grammars *)

Definition lang : Type := list Z -> Prop.

Definition cat (L1 L2 : lang) : lang := fun s => exists s1 s2, s = s1 ++ s2 /\ L1 s1 /\ L2 s2.
Definition either (L1 L2 : lang) : lang := fun s => L1 s \/ L2 s.
Definition lit (s0 : list Z) : lang := fun s => s = s0.
(** so many bytes *)
Definition fixed (n : Z) : lang := fun s => Z.of_nat (length s) = n.
Fixpoint copies (n : nat) (L : lang) : lang :=
  match n with O => lit [] | S n => cat L (copies n L) end.

(** The canonical ULEB128 of a number, in at most so many digits. *)
Fixpoint uleb_digits (digits : nat) (n : Z) : list Z :=
  match digits with
  | O => []
  | S digits => if n <? 128 then [n] else (n mod 128 + 128) :: uleb_digits digits (n / 128)
  end.
Definition uleb (n : Z) : list Z := uleb_digits 5 n.

(** a legal length *)
Definition count (n : Z) : lang := fun s => 0 <= n <= MAX_SEQUENCE_LENGTH /\ s = uleb n.
(** a sequence of exactly [n] *)
Definition seq_of (n : Z) (L : lang) : lang := cat (count n) (copies (Z.to_nat n) L).
(** a sequence of no more than [max] *)
Definition seq_upto (max : Z) (L : lang) : lang := fun s => exists n, n <= max /\ seq_of n L s.
(** bytes with their length in front, of a length that is allowed *)
Definition blob_of (allowed : Z -> Prop) : lang :=
  fun s => exists n, allowed n /\ cat (count n) (fixed n) s.
Definition blob : lang := blob_of (fun _ => True).

(** Walkers without a result. *)
Definition accepts (w : W unit) (L : lang) : Prop := recognizes w (fun _ _ s => L s).

Lemma accepts_ext w (L L' : lang) : (forall s, L s <-> L' s) -> accepts w L -> accepts w L'.
Proof. intros H. apply recognizes_ext. intros _ _ s. apply H. Qed.

Lemma accepts_then w k (L1 L2 : lang) : accepts w L1 -> (forall a, accepts (k a) L2) -> accepts (w ≫= k) (cat L1 L2).
Proof.
  intros H1 H2. eapply recognizes_ext; [|exact (recognizes_bind _ _ _ (fun _ _ _ s => L2 s) H1 H2)].
  intros n [] s. unfold cat. split.
  - intros (_ & s1 & s2 & ? & ? & ?). eauto.
  - intros (s1 & s2 & ? & ? & ?). exists tt. eauto.
Qed.

Lemma accepts_skip field len : 0 <= len -> accepts (skip field len) (fixed len).
Proof.
  intros Hlen. eapply recognizes_ext;
    [|exact (recognizes_bind _ _ _ _ (recognizes_take field len Hlen) (fun _ => recognizes_ret tt))].
  intros n [] s. unfold fixed. split.
  - intros (a & s1 & s2 & -> & (_ & <-) & (_ & ->)). by rewrite app_nil_r.
  - intros E. exists s, s, []. by rewrite app_nil_r.
Qed.

Lemma accepts_ensure_then b (e : CountCheckError) (w : W unit) L :
  accepts w L -> accepts (ensure b e ≫= fun _ => w) (fun s => b = true /\ L s).
Proof.
  intros H. eapply recognizes_ext; [|exact (recognizes_bind _ _ _ (fun _ _ _ s => L s) (recognizes_ensure b e) (fun _ => H))].
  intros n [] s. split.
  - intros (_ & s1 & s2 & -> & (-> & ->) & ?). done.
  - intros [-> ?]. exists tt, [], s. done.
Qed.

Lemma recognizes_bytes {A} (w : W A) R :
  recognizes w R -> recognizes w (fun n a s => R n a s /\ Forall is_byte s).
Proof.
  intros [Hs Hc]. split.
  - intros pre rest r c Hb E. destruct (Hs _ _ _ _ Hb E) as [Hp Ha]. split; [done|]. intros a Er.
    destruct (Ha a Er) as (s & rest' & -> & HR & ->). apply Forall_app in Hb as [Hb _]. eauto 10.
  - intros pre s rest a [HR _]. auto.
Qed.

Lemma recognizes_byte field : recognizes (byte field) (fun _ b s => s = [b] /\ is_byte b).
Proof.
  unfold byte. eapply recognizes_ext;
    [|refine (recognizes_bind _ _ _ (fun l n a s => l = [a] /\ s = [])
        (recognizes_bytes _ _ (recognizes_take field 1 ltac:(lia))) _)].
  - intros n b s. split.
    + intros (l & s1 & s2 & -> & ((<- & Hl) & Hb) & (-> & ->)). apply Forall_cons in Hb as [? _]. done.
    + intros [-> Hb]. exists [b], [b], []. split_and!; try done. by apply Forall_singleton.
  - intros l. destruct l as [|x [|y l]].
    + eapply recognizes_ext; [|apply recognizes_throw]. naive_solver.
    + eapply recognizes_ext; [|apply recognizes_ret]. naive_solver.
    + eapply recognizes_ext; [|apply recognizes_throw]. naive_solver.
Qed.

Lemma recognizes_two_bytes field :
  recognizes (two_bytes field) (fun _ k s => s = [k.1; k.2] /\ is_byte k.1 /\ is_byte k.2).
Proof.
  unfold two_bytes. eapply recognizes_ext;
    [|refine (recognizes_bind _ _ _ (fun l n (k : Z * Z) s => l = [k.1; k.2] /\ s = [])
        (recognizes_bytes _ _ (recognizes_take field 2 ltac:(lia))) _)].
  - intros n [b0 b1] s. split.
    + intros (l & s1 & s2 & -> & ((<- & Hl) & Hb) & (-> & ->)). by apply Forall_cons in Hb as [? [? _]%Forall_cons].
    + intros [-> [? ?]]. exists [b0; b1], [b0; b1], []. split_and!; try done. by rewrite !Forall_cons.
  - intros l. destruct l as [|x [|y [|z l]]]; try (eapply recognizes_ext; [|apply recognizes_throw]; naive_solver).
    eapply recognizes_ext; [|apply recognizes_ret]. intros n [b0 b1] s. naive_solver.
Qed.

(** ** Lengths *)

Lemma lor_digit value digit shift :
  0 <= shift -> 0 <= value < 2 ^ shift -> Z.lor value (Z.shiftl digit shift) = value + digit * 2 ^ shift.
Proof.
  intros Hs Hv. rewrite <- Z.shiftl_mul_pow2 by done. rewrite <- Z.add_lor_land.
  assert (Z.land value (Z.shiftl digit shift) = 0) as ->; [|lia].
  apply Z.bits_inj'. intros n Hn. rewrite Z.land_spec, Z.bits_0.
  destruct (Z.lt_ge_cases n shift).
  - rewrite Z.shiftl_spec_low by done. apply andb_false_r.
  - rewrite <- (Z.mod_small value (2 ^ shift)) by done. by rewrite Z.mod_pow2_bits_high by lia.
Qed.

Lemma land_127 b : is_byte b -> Z.land b 127 = b mod 128.
Proof. intros H. change 127 with (Z.ones 7). by rewrite Z.land_ones by lia. Qed.

(** The number that is still to be read, with the digits read so far below it. *)
Definition length_rest (k m : nat) (value v : Z) (s : list Z) : Prop :=
  exists n, 0 <= n < 2 ^ (7 * Z.of_nat m) /\ ((0 < k)%nat -> n <> 0) /\ s = uleb_digits m n
    /\ v = value + n * 2 ^ (7 * Z.of_nat k) /\ v <= MAX_SEQUENCE_LENGTH.

Lemma pow_succ_7 m : 2 ^ (7 * Z.of_nat (S m)) = 128 * 2 ^ (7 * Z.of_nat m).
Proof. replace (7 * Z.of_nat (S m)) with (7 + 7 * Z.of_nat m) by lia. rewrite Z.pow_add_r by lia. done. Qed.

(** The last digit. *)
Lemma length_last k m value v b :
  0 <= b < 128 ->
  length_rest k (S m) value v [b]
  <-> ~ ((0 < k)%nat /\ b = 0) /\ v = value + b * 2 ^ (7 * Z.of_nat k) /\ v <= MAX_SEQUENCE_LENGTH.
Proof.
  intros Hb. unfold length_rest. rewrite pow_succ_7. split.
  - intros (n & Hn & Hz & E & -> & Hm). cbn in E. destruct (Z.ltb_spec n 128); [|by destruct m as [|m]; cbn in E; [|destruct (_ <? _)]; try discriminate; injection E as ?; Z.div_mod_to_equations; lia].
    injection E as ->. split_and!; [|done|done]. intros [? ?]. by apply Hz.
  - intros (Hz & -> & Hm). exists b. cbn. assert (0 < 2 ^ (7 * Z.of_nat m)) by (apply Z.pow_pos_nonneg; lia).
    destruct (Z.ltb_spec b 128); [|lia]. split_and!; try done; [lia|lia|]. intros ? ?. by apply Hz.
Qed.

(** A digit with more to come. *)
Lemma length_more k m value v b s :
  128 <= b < 256 ->
  length_rest k (S m) value v (b :: s)
  <-> length_rest (S k) m (value + b mod 128 * 2 ^ (7 * Z.of_nat k)) v s.
Proof.
  intros Hb. unfold length_rest. rewrite !pow_succ_7. split.
  - intros (n & Hn & _ & E & -> & Hm). cbn in E. destruct (Z.ltb_spec n 128) as [|Hge]; [injection E as ? ?; lia|].
    injection E as Eb Es. exists (n / 128). split_and!; [Z.div_mod_to_equations; lia|Z.div_mod_to_equations; lia|intros _; Z.div_mod_to_equations; lia|done| |done].
    replace (b mod 128) with (n mod 128) by (Z.div_mod_to_equations; lia). pose proof (Z.div_mod n 128 ltac:(lia)). nia.
  - intros (n & Hn & Hz & -> & -> & Hm). specialize (Hz ltac:(lia)). exists (b mod 128 + 128 * n).
    assert (128 <= b mod 128 + 128 * n) as Hge by (Z.div_mod_to_equations; lia).
    assert ((b mod 128 + 128 * n) / 128 = n /\ (b mod 128 + 128 * n) mod 128 + 128 = b) as [E1 E2]
      by (Z.div_mod_to_equations; lia).
    split_and!; [lia|Z.div_mod_to_equations; lia|lia| |lia|lia].
    cbn. destruct (Z.ltb_spec (b mod 128 + 128 * n) 128); [lia|]. by rewrite E1, E2.
Qed.

(** The end of a length. *)
Lemma length_end field k value b :
  recognizes
    (if (0 <? 7 * Z.of_nat k) && (b =? 0) then throw (BadLength field)
     else if value <=? MAX_SEQUENCE_LENGTH then mret value else throw (BadLength field))
    (fun _ v s => ~ ((0 < k)%nat /\ b = 0) /\ (v = value /\ v <= MAX_SEQUENCE_LENGTH) /\ s = []).
Proof.
  destruct ((0 <? 7 * Z.of_nat k) && (b =? 0)) eqn:E.
  - eapply recognizes_ext; [|apply recognizes_throw]. intros n0 v s. split; [done|]. intros [H _]. apply H. lia.
  - destruct (Z.leb_spec value MAX_SEQUENCE_LENGTH).
    + eapply recognizes_ext; [|apply recognizes_ret]. intros n0 v s.
      assert (~ ((0 < k)%nat /\ b = 0)) by lia. naive_solver.
    + eapply recognizes_ext; [|apply recognizes_throw]. intros n0 v s. split; [done|]. intuition lia.
Qed.

Lemma recognizes_length_from field m : forall k value,
  (k + m = 5)%nat -> 0 <= value < 2 ^ (7 * Z.of_nat k) ->
  recognizes (length_from field ((fun i => 7 * Z.of_nat i) <$> seq k m) value)
    (fun _ v s => length_rest k m value v s).
Proof.
  induction m as [|m IH]; intros k value Hkm Hv.
  { eapply recognizes_ext; [|apply recognizes_throw]. intros n0 v s. split; [done|].
    intros (n & Hn & Hz & _). change (2 ^ (7 * Z.of_nat 0)) with 1 in Hn. apply Hz; lia. }
  cbn [seq fmap list_fmap length_from].
  eapply recognizes_ext;
    [|refine (recognizes_bind_if _ _ _
        (fun b _ v s => is_byte b /\ length_rest k (S m) value v (b :: s) /\ (b < 128 -> s = []))
        (recognizes_byte field) _)].
  - intros n0 v s. split.
    + intros (b & s1 & s2 & -> & (-> & _) & (_ & H & _)). exact H.
    + intros H. destruct s as [|b s].
      { destruct H as (n & _ & _ & E & _). cbn in E. by destruct (n <? 128). }
      assert (is_byte b /\ (b < 128 -> s = [])) as [Hb Hend].
      { destruct H as (n & Hn & _ & E & _). cbn in E. unfold is_byte.
        destruct (Z.ltb_spec n 128); injection E as -> ->; [split; [lia|done]|].
        pose proof (Z.mod_pos_bound n 128 ltac:(lia)). split; lia. }
      exists b, [b], s. done.
  - intros n0 b s0 [_ Hb]. rewrite land_127, lor_digit by (done || lia).
    destruct (Z.lt_ge_cases b 128) as [Hlt|Hge].
    + unfold is_byte in Hb. rewrite (Z.mod_small b 128) by lia. rewrite Z.eqb_refl.
      eapply recognizes_ext; [|apply (length_end field k (value + b * 2 ^ (7 * Z.of_nat k)) b)].
      intros n v s. split.
      * intros (H1 & H2 & ->). split_and!; [done|apply length_last; [lia|tauto]|done].
      * intros (_ & H & Hs). rewrite (Hs Hlt) in *. apply length_last in H as (? & ? & ?); [|lia]. done.
    + destruct (Z.eqb_spec (b mod 128) b) as [E|_]; [Z.div_mod_to_equations; unfold is_byte in Hb; lia|].
      pose proof (Z.mod_pos_bound b 128 ltac:(lia)).
      eapply recognizes_ext; [|apply IH; [lia|rewrite pow_succ_7; nia]].
      intros n1 v s. unfold is_byte in *. rewrite <- length_more by lia. intuition lia.
Qed.

Lemma recognizes_length `{!WireSizesLaws} field : recognizes (cursor_length field) (fun _ v s => count v s).
Proof.
  destruct max_sequence_length as [_ Hmax].
  eapply recognizes_ext; [|exact (recognizes_length_from field 5 0 0 eq_refl ltac:(cbn; lia))].
  intros n v s. unfold length_rest, count, uleb. change (7 * Z.of_nat 5) with 35. change (2 ^ (7 * Z.of_nat 0)) with 1. split.
  - intros (x & ? & _ & -> & -> & ?). replace (0 + x * 1) with x by lia. split; [lia|done].
  - intros ([? ?] & ->). exists v. split_and!; try done; lia.
Qed.

(** ** Walkers by their parts *)

Lemma cat_assoc L1 L2 L3 s : cat L1 (cat L2 L3) s <-> cat (cat L1 L2) L3 s.
Proof.
  unfold cat. split.
  - intros (s1 & ? & -> & ? & s2 & s3 & -> & ? & ?). exists (s1 ++ s2), s3. rewrite (assoc (++)). eauto 10.
  - intros (? & s3 & -> & (s1 & s2 & -> & ? & ?) & ?). exists s1, (s2 ++ s3). rewrite (assoc (++)). eauto 10.
Qed.

Lemma accepts_repeat n w L : accepts w L -> accepts (repeat_walk n w) (copies n L).
Proof.
  intros H. induction n as [|n IH]; cbn.
  - eapply recognizes_ext; [|apply recognizes_ret]. intros n [] s. unfold lit. naive_solver.
  - by apply accepts_then.
Qed.

Lemma copies_fixed n size s : 0 <= size -> copies n (fixed size) s <-> fixed (Z.of_nat n * size) s.
Proof.
  intros Hsize. revert s. induction n as [|n IH]; intros s; cbn.
  - unfold lit, fixed. destruct s; cbn; split; intros E; try done; lia.
  - unfold cat. setoid_rewrite IH. unfold fixed. split.
    + intros (s1 & s2 & -> & ? & ?). rewrite length_app. lia.
    + intros E. exists (take (Z.to_nat size) s), (drop (Z.to_nat size) s).
      rewrite take_drop, length_take, length_drop. split_and!; [done|nia|nia].
Qed.

Lemma accepts_skip_elements field n size :
  0 <= n -> 0 <= size -> accepts (skip_elements field n size) (copies (Z.to_nat n) (fixed size)).
Proof.
  intros Hn Hsize. eapply accepts_ext; [|apply accepts_skip; nia].
  intros s. rewrite copies_fixed by done. by rewrite Z2Nat.id.
Qed.

Context `{!WireSizesLaws}.

Lemma accepts_length field (k : Z -> W unit) (L : Z -> lang) :
  (forall n, 0 <= n -> accepts (k n) (L n)) ->
  accepts (cursor_length field ≫= k) (fun s => exists n, cat (count n) (L n) s).
Proof.
  intros Hk. eapply recognizes_ext;
    [|refine (recognizes_bind_if _ _ _ (fun v _ _ s => L v s) (recognizes_length field) _)].
  - intros n [] s. unfold cat. naive_solver.
  - intros n v s [[? _] _]. by apply Hk.
Qed.

(** A length that is asked for exactly. *)
Lemma accepts_exact field expected (e : Z -> CountCheckError) (k : Z -> W unit) (L : lang) :
  (0 <= expected -> accepts (k expected) L) ->
  accepts (n ← cursor_length field; _ ← ensure (n =? expected) (e n); k n) (cat (count expected) L).
Proof.
  intros Hk. eapply accepts_ext;
    [|refine (accepts_length field _ (fun n s => (n =? expected) = true /\ L s) _)].
  - intros s. unfold cat. split.
    + intros (n & s1 & s2 & ? & ? & ->%Z.eqb_eq & ?). eauto.
    + intros (s1 & s2 & ? & ? & ?). exists expected, s1, s2. rewrite Z.eqb_refl. done.
  - intros n Hn. destruct (Z.eqb_spec n expected) as [->|].
    + by apply accepts_ensure_then, Hk.
    + eapply recognizes_ext; [|refine (recognizes_bind_if _ _ _ (fun _ _ _ _ => True) (recognizes_ensure false _) _)].
      * intros n' [] s. split; [|by intros []]. intros (_ & s1 & s2 & _ & [[=] _] & _).
      * by intros ? ? ? [[=] _].
Qed.

(** A length with an upper bound. *)
Lemma accepts_upto field max (e : Z -> CountCheckError) (k : Z -> W unit) (L : Z -> lang) :
  (forall n, 0 <= n -> accepts (k n) (L n)) ->
  accepts (n ← cursor_length field; _ ← ensure (n <=? max) (e n); k n)
    (fun s => exists n, n <= max /\ cat (count n) (L n) s).
Proof.
  intros Hk. eapply accepts_ext;
    [|refine (accepts_length field _ (fun n s => (n <=? max) = true /\ L n s) _)].
  - intros s. unfold cat. setoid_rewrite Z.leb_le. naive_solver.
  - intros n Hn. by apply accepts_ensure_then, Hk.
Qed.

(** A counted sequence and what follows it. *)
Lemma accepts_seq field expected (e : Z -> CountCheckError) (elements : Z -> W unit) rest (E R : lang) :
  (0 <= expected -> accepts (elements expected) (copies (Z.to_nat expected) E)) -> accepts rest R ->
  accepts (n ← cursor_length field; _ ← ensure (n =? expected) (e n); _ ← elements n; rest) (cat (seq_of expected E) R).
Proof.
  intros HE HR. eapply accepts_ext; [intros s; apply cat_assoc|].
  apply accepts_exact. intros ?. apply accepts_then; auto.
Qed.

Lemma accepts_seq_upto field max (e : Z -> CountCheckError) (elements : Z -> W unit) rest (E R : lang) :
  (forall n, 0 <= n -> accepts (elements n) (copies (Z.to_nat n) E)) -> accepts rest R ->
  accepts (n ← cursor_length field; _ ← ensure (n <=? max) (e n); _ ← elements n; rest) (cat (seq_upto max E) R).
Proof.
  intros HE HR. eapply accepts_ext;
    [|apply (accepts_upto field max e _ (fun n => cat (copies (Z.to_nat n) E) R)); intros n Hn; apply accepts_then; auto].
  intros s. setoid_rewrite cat_assoc. unfold seq_upto, seq_of, cat. split.
  - intros (n & ? & s1 & s2 & ? & ? & ?). eauto 10.
  - intros (s1 & s2 & -> & (n & ? & ?) & ?). exists n. eauto 10.
Qed.

Lemma accepts_blob field : accepts (walk_bytes field) blob.
Proof.
  eapply accepts_ext; [|exact (accepts_length field _ fixed (fun n Hn => accepts_skip field n Hn))].
  intros s. unfold blob, blob_of. naive_solver.
Qed.
End recognizers.
