(* ===== verification/CountCheckTheorems.v ===== *)
(** * The grammars of the payloads

    What each payload may look like, and that its check accepts exactly that. *)

From stdpp Require Import strings sorting.
From S2P Require Import CountCheck CountCheckProofs Prelude.

#[local] Infix "⊙" := cat (at level 60, right associativity).

Section grammars.
Context `{WS : WireSizes}.

#[local] Abbreviation W := (M Cursor CountCheckError).

(** The language of the weight of a party of the committee. *)
Definition of_party (weights : PartyWeights) (party : Z) (L : Z -> lang) : lang :=
  fun s => exists weight, weights !! Z.to_nat party = Some weight /\ L weight s.

Definition avss_message_lang (shape : AvssShape) : lang :=
  seq_of (as_threshold shape) (fixed POINT) ⊙ fixed (2 * EG_POINT) ⊙ seq_of (as_num_nodes shape) blob ⊙ fixed DDH_NIZK.

Definition common_message_lang (shape : AvidShape) (dealer : Z) : lang :=
  of_party (av_weights shape) dealer (fun weight =>
    seq_of (weight * av_batch_size_per_weight shape) (fixed POINT) ⊙ fixed POINT ⊙ fixed SHARED_COMPONENTS
    ⊙ seq_of (num_nodes (av_weights shape)) (fixed HASH) ⊙ seq_of (av_threshold shape) (fixed SCALAR)).

Definition merkle_node_lang : lang := either (count 0) (count 1 ⊙ fixed MERKLE_DIGEST).

Definition merkle_path_lang (depth : option Z) : lang :=
  match depth with
  | None => seq_upto MAX_MERKLE_PATH merkle_node_lang
  | Some depth => seq_of depth merkle_node_lang
  end.

Definition shard_lang (exact : option ExactShards) : lang :=
  blob_of (fun n => match exact with None => True | Some exact => n = shard_bytes exact end).

Definition shards_lang (number : Z) (exact : option ExactShards) : lang :=
  seq_of number (shard_lang exact) ⊙ merkle_path_lang (row_depth <$> exact) ⊙ merkle_path_lang (top_depth <$> exact).

Definition avid_vote_lang (weights : PartyWeights) : lang :=
  merkle_node_lang ⊙ seq_upto (num_nodes weights) (fixed PARTY_ID) ⊙ fixed HASH.

Definition certificate_lang (max_signers_bytes : option Z) : lang :=
  fixed (EPOCH + AGGREGATE_SIGNATURE)
  ⊙ blob_of (fun n => match max_signers_bytes with None => True | Some max => n <= max end)
  ⊙ fixed ADDRESS_BYTES ⊙ blob ⊙ fixed BATCH_INDEX.

Definition held_echo_lang (shards : Z) : lang :=
  fixed ADDRESS_BYTES ⊙ count MESSAGES_NONCE_GENERATION_AVID ⊙ fixed BATCH_INDEX
  ⊙ count AVID_NONCE_MESSAGE_KIND_ECHO ⊙ fixed ADDRESS_BYTES ⊙ shards_lang shards None.

(** *** Maps from u16 *)

(** The bytes of the key and those of the value. *)
Definition item : Type := (Z * Z) * list Z.

Definition item_index (i : item) : Z := i.1.1 + 256 * i.1.2.
Definition item_bytes (i : item) : list Z := i.1.1 :: i.1.2 :: i.2.
Definition items_bytes (items : list item) : list Z := concat (item_bytes <$> items).

Definition key_lt (a b : Z * Z) : Prop := a.1 < b.1 \/ (a.1 = b.1 /\ a.2 < b.2).

Definition item_ok (value : Z -> lang) (i : item) : Prop :=
  is_byte i.1.1 /\ is_byte i.1.2 /\ value (item_index i) i.2.

(** No more than [max] entries, with ascending keys; a value may depend on the number of
    entries. *)
Definition u16_map (max : Z) (value : Z -> Z -> lang) : lang := fun s =>
  exists items, let number := Z.of_nat (length items) in
    number <= max /\ Sorted key_lt items.*1 /\ Forall (item_ok (value number)) items
    /\ (count number ⊙ lit (items_bytes items)) s.

(** ** Payloads *)

Inductive Payload :=
| AvssMessage (shape : AvssShape)
| RotationMessages (shape : AvssShape) (owned : list Z)
| AvssComplaintResponse (responder_weight : Z)
| AvssCommonMessage (shape : AvidShape) (dealer : Z)
| AvidAvssMessage (shape : AvidShape) (dealer : Z)
| Dispersal (shape : DispersalShape) (holder : Z)
| ConfirmCertificate (weights : PartyWeights)
| Echo (weights : PartyWeights) (sender : Z)
| AvidVote (weights : PartyWeights)
| ProtocolComplaint (weights : PartyWeights)
| AvidComplaintResponse
| HeldEchoes (weights : PartyWeights) (holder : Z).

Definition check (p : Payload) (bytes : list Z) : outcome CountCheckError unit :=
  match p with
  | AvssMessage shape => check_avss_message bytes shape
  | RotationMessages shape owned => _ ← check_rotation_messages bytes shape owned; Ok tt
  | AvssComplaintResponse weight => check_avss_complaint_response bytes weight
  | AvssCommonMessage shape dealer => check_avss_common_message bytes shape dealer
  | AvidAvssMessage shape dealer => check_avid_avss_message bytes shape dealer
  | Dispersal shape holder => check_dispersal bytes shape holder
  | ConfirmCertificate weights => check_confirm_certificate bytes weights
  | Echo weights sender => check_echo bytes weights sender
  | AvidVote weights => check_avid_vote bytes weights
  | ProtocolComplaint weights => check_protocol_complaint bytes weights
  | AvidComplaintResponse => check_avid_complaint_response bytes
  | HeldEchoes weights holder => check_held_avid_echoes bytes weights holder
  end.

Definition grammar (p : Payload) : lang :=
  match p with
  | AvssMessage shape => avss_message_lang shape
  | RotationMessages shape owned =>
      u16_map (Z.of_nat (length owned)) (fun _ index s =>
        (index <> 0 /\ index ∈ owned) /\ avss_message_lang shape s)
  | AvssComplaintResponse weight => seq_of weight (fixed SHARE)
  | AvssCommonMessage shape dealer => common_message_lang shape dealer
  | AvidAvssMessage shape dealer => common_message_lang shape dealer ⊙ blob
  | Dispersal shape holder =>
      let weights := ds_weights shape in
      of_party weights holder (fun shards =>
        u16_map (num_nodes weights) (fun rows row =>
          of_party weights row (fun row_weight =>
            shards_lang shards (Some (mkExactShards (avid_shard_bytes row_weight (ds_batch_size shape) (data_shards shape))
              (merkle_depth (num_nodes weights)) (merkle_depth rows))))))
  | ConfirmCertificate weights => certificate_lang (Some (div_ceil (num_nodes weights) 8))
  | Echo weights sender => of_party weights sender (fun shards => shards_lang shards None)
  | AvidVote weights => avid_vote_lang weights
  | ProtocolComplaint weights =>
      either (count PROTOCOL_COMPLAINT_AVSS ⊙ fixed RECOVERY_PACKAGE)
        (either (count PROTOCOL_COMPLAINT_AVID_REVEAL ⊙ blob ⊙ fixed RECOVERY_PACKAGE)
          (count PROTOCOL_COMPLAINT_AVID_BLAME
           ⊙ u16_map (num_nodes weights) (fun _ disperser => of_party weights disperser (fun shards => shards_lang shards None))
           ⊙ certificate_lang None))
  | AvidComplaintResponse => blob ⊙ fixed RECOVERY_PACKAGE
  | HeldEchoes weights holder =>
      of_party weights holder (fun shards =>
        avid_vote_lang weights ⊙ seq_upto (num_nodes weights) (held_echo_lang shards) ⊙ certificate_lang None)
  end.

(** ** The walkers accept their grammars *)

Context `{!WireSizesLaws}.

Lemma sizes_in_use :
  0 <= DDH_NIZK /\ 0 <= SHARE /\ 0 <= SHARED_COMPONENTS /\ 0 <= RECOVERY_PACKAGE /\ 0 <= POINT /\ 0 <= SCALAR
  /\ 0 <= EG_POINT /\ 0 <= HASH /\ 0 <= MERKLE_DIGEST /\ 0 <= AGGREGATE_SIGNATURE.
Proof. pose proof sizes_nonneg. unfold SHARED_COMPONENTS, RECOVERY_PACKAGE, SHARE, DDH_NIZK. lia. Qed.

#[local] Ltac size := pose proof sizes_in_use; unfold ADDRESS_BYTES, PARTY_ID, BATCH_INDEX, EPOCH; lia.

Lemma accepts_of_party weights field party (k : Z -> W unit) (L : Z -> lang) :
  (forall w, accepts (k w) (L w)) ->
  accepts (of_outcome (weight_of weights field party) ≫= k) (of_party weights party L).
Proof.
  intros Hk. eapply recognizes_ext;
    [|refine (recognizes_bind _ _ _ (fun w _ _ s => L w s) (recognizes_outcome (weight_of weights field party) _) Hk)].
  - intros n [] s. unfold of_party, weight_of. destruct (weights !! _) as [w|].
    + split; [intros (? & ? & ? & -> & ([= ->] & ->) & ?); eauto|]. intros (w' & [= ->] & ?). exists w', [], s. done.
    + split; [intros (? & ? & ? & _ & ([=] & _) & _)|intros (? & [=] & _)].
  - unfold weight_of. by destruct (weights !! _).
Qed.

Lemma accepts_avss_message shape : accepts (walk_avss_message shape) (avss_message_lang shape).
Proof.
  apply accepts_seq. { intros ?. apply accepts_skip_elements; size. }
  apply accepts_then; [apply accepts_skip; size|]. intros _.
  apply accepts_seq. { intros ?. apply accepts_repeat, accepts_blob. }
  apply accepts_skip; size.
Qed.

Lemma accepts_common_message shape dealer : accepts (walk_avss_common_message shape dealer) (common_message_lang shape dealer).
Proof.
  apply accepts_of_party. intros weight.
  apply accepts_seq. { intros ?. apply accepts_skip_elements; size. }
  apply accepts_then; [apply accepts_skip; size|]. intros _.
  apply accepts_then; [apply accepts_skip; size|]. intros _.
  apply accepts_seq. { intros ?. apply accepts_skip_elements; size. }
  apply accepts_exact. intros ?. apply accepts_skip_elements; size.
Qed.

Lemma accepts_nothing : accepts (mret tt) (lit []).
Proof. eapply recognizes_ext; [|apply recognizes_ret]. intros n [] s. unfold lit. naive_solver. Qed.

Lemma cat_nothing L s : cat L (lit []) s <-> L s.
Proof.
  unfold cat, lit. split.
  - intros (s1 & s2 & -> & ? & ->). by rewrite app_nil_r.
  - intros Hs. exists s, []. by rewrite app_nil_r.
Qed.

Lemma accepts_merkle_node field : accepts (walk_merkle_node field) merkle_node_lang.
Proof.
  unfold walk_merkle_node, variant. eapply accepts_ext;
    [|refine (accepts_length field _
       (fun v s => (v = 0 /\ lit [] s) \/ (v = 1 /\ fixed MERKLE_DIGEST s)) _)].
  - intros s. unfold merkle_node_lang, either. rewrite <- (cat_nothing (count 0)). unfold cat. naive_solver.
  - intros v _. destruct (Z.eqb_spec v 0) as [->|]; [|destruct (Z.eqb_spec v 1) as [->|]].
    + eapply accepts_ext; [|apply accepts_nothing]. naive_solver lia.
    + eapply accepts_ext; [|apply accepts_skip; size]. naive_solver lia.
    + eapply recognizes_ext; [|apply recognizes_throw]. naive_solver lia.
Qed.

Lemma accepts_merkle_path field depth : accepts (walk_merkle_path field depth) (merkle_path_lang depth).
Proof.
  destruct depth as [depth|]; [apply accepts_exact|apply accepts_upto]; intros; apply accepts_repeat, accepts_merkle_node.
Qed.

Lemma accepts_shard exact : accepts (walk_shard exact) (shard_lang exact).
Proof.
  destruct exact as [exact|].
  - eapply accepts_ext; [|apply accepts_exact; intros ?; by apply accepts_skip].
    intros s. unfold shard_lang, blob_of. naive_solver.
  - eapply accepts_ext; [|exact (accepts_length _ _ fixed (fun n Hn => accepts_skip _ n Hn))].
    intros s. unfold shard_lang, blob_of. naive_solver.
Qed.

Lemma accepts_shards number exact : accepts (walk_authenticated_shards number exact) (shards_lang number exact).
Proof.
  apply accepts_seq. { intros ?. apply accepts_repeat, accepts_shard. }
  apply accepts_then; intros; apply accepts_merkle_path.
Qed.

Lemma accepts_avid_vote weights : accepts (walk_avid_vote weights) (avid_vote_lang weights).
Proof.
  apply accepts_then; [apply accepts_merkle_node|]. intros _.
  apply accepts_seq_upto; intros; [apply accepts_skip_elements|apply accepts_skip]; size.
Qed.

(** A length in front of bytes and of more. *)
Lemma cat_blob_of (allowed : Z -> Prop) R s :
  (exists n, allowed n /\ cat (count n) (cat (fixed n) R) s) <-> cat (blob_of allowed) R s.
Proof.
  setoid_rewrite cat_assoc. unfold blob_of, cat. split.
  - intros (n & ? & s1 & s2 & ? & ? & ?). eauto 10.
  - intros (s1 & s2 & -> & (n & ? & ?) & ?). exists n. eauto 10.
Qed.

Lemma accepts_certificate max : accepts (walk_vote_certificate max) (certificate_lang max).
Proof.
  apply accepts_then; [apply accepts_skip; size|]. intros _.
  assert (forall field, accepts
    (_ ← skip field ADDRESS_BYTES; _ ← walk_bytes "certificate.messages_hash"; skip field BATCH_INDEX)
    (fixed ADDRESS_BYTES ⊙ blob ⊙ fixed BATCH_INDEX)) as Hrest.
  { intros field. apply accepts_then; [apply accepts_skip; size|]. intros _.
    apply accepts_then; [apply accepts_blob|]. intros _. apply accepts_skip; size. }
  eapply accepts_ext; [intros s; apply cat_blob_of|]. destruct max as [max|].
  - apply accepts_upto. intros n Hn. apply accepts_then; [by apply accepts_skip|]. intros _. apply Hrest.
  - eapply accepts_ext; [|refine (accepts_length _ _ (fun n => fixed n ⊙ _) _); intros n Hn;
      apply (accepts_then (skip "certificate.signers" n)); [by apply accepts_skip|]; intros _; apply Hrest].
    naive_solver.
Qed.

Lemma accepts_expect_variant field expected (w : W unit) L :
  accepts w L -> accepts (_ ← expect_variant field expected; w) (count expected ⊙ L).
Proof.
  intros Hw. apply accepts_then; [|done]. unfold expect_variant, variant. eapply accepts_ext;
    [|refine (accepts_length field _ (fun v s => (v =? expected) = true /\ lit [] s) (fun v _ => recognizes_ensure _ _))].
  intros s. rewrite <- (cat_nothing (count expected)). unfold cat. setoid_rewrite Z.eqb_eq. naive_solver.
Qed.

Lemma accepts_held_echo shards : accepts (walk_held_echo shards) (held_echo_lang shards).
Proof.
  apply accepts_then; [apply accepts_skip; size|]. intros _. apply accepts_expect_variant.
  apply accepts_then; [apply accepts_skip; size|]. intros _. apply accepts_expect_variant.
  apply accepts_then; [apply accepts_skip; size|]. intros _. apply accepts_shards.
Qed.

(** *** Entries of a map *)

Lemma key_order a b : negb (key_le b a) = true <-> key_lt a b.
Proof. unfold key_le, key_lt. destruct a, b; cbn. lia. Qed.

(** The keys, with the key before them. *)
Definition keys_after (previous : option (Z * Z)) (items : list item) : list (Z * Z) :=
  from_option (fun k => k :: items.*1) items.*1 previous.

(** The collected values of the entries, from a position on. *)
Fixpoint collects {A} (E : Z -> A -> nat -> A -> list Z -> Prop) (n : nat) (items : list item) (acc acc' : A) : Prop :=
  match items with
  | [] => acc' = acc
  | i :: items =>
      is_byte i.1.1 /\ is_byte i.1.2
      /\ exists acc1, E (item_index i) acc (n + 2)%nat acc1 i.2 /\ collects E (n + 2 + length i.2)%nat items acc1 acc'
  end.

Lemma sorted_after previous i items :
  Sorted key_lt (keys_after previous (i :: items))
  <-> (match previous with Some p => negb (key_le i.1 p) | None => true end) = true /\ Sorted key_lt (keys_after (Some i.1) items).
Proof.
  destruct previous as [p|]; cbn; [rewrite key_order|intuition]. split.
  - intros [H1 H2]%Sorted_inv. by apply HdRel_inv in H2.
  - intros [H1 H2]. constructor; [done|by constructor].
Qed.

Lemma recognizes_entries {A} field (entry : Z -> A -> W A) E :
  (forall index acc, recognizes (entry index acc) (E index acc)) ->
  forall count previous acc,
    recognizes (walk_entries field count previous entry acc)
      (fun n acc' s => exists items, length items = count /\ Sorted key_lt (keys_after previous items)
         /\ collects E n items acc acc' /\ s = items_bytes items).
Proof.
  intros HE. induction count as [|count IH]; intros previous acc; cbn [walk_entries].
  { eapply recognizes_ext; [|apply recognizes_ret]. intros n a s. split.
    - intros [-> ->]. exists []. split_and!; try done. destruct previous; repeat constructor.
    - intros ([] & [=] & _ & -> & ->). done. }
  eapply recognizes_ext; [|eapply recognizes_bind; [apply recognizes_two_bytes|intros key];
    eapply recognizes_bind; [apply recognizes_ensure|intros u];
    eapply recognizes_bind; [apply HE|intros acc1; apply IH]].
  cbn beta. intros n acc' s. split.
  - intros (key & ? & ? & -> & (-> & H0 & H1) & [] & ? & ? & -> & (Hk & ->) & acc1 & body & ? & -> & HB
      & items & Hlen & Hsort & Hc & ->).
    exists ((key, body) :: items). cbn [length] in HB, Hc. rewrite !Nat.add_0_r in HB, Hc.
    split_and!; [cbn; lia|by apply sorted_after|cbn; eauto|done].
  - intros ([|[key body] items] & [= Hlen] & [Hk Hsort]%sorted_after & Hc & ->). cbn in Hc.
    destruct Hc as (H0 & H1 & acc1 & HB & Hc).
    exists key, [key.1; key.2], (body ++ items_bytes items). split_and!; [done..|].
    exists tt, [], (body ++ items_bytes items). split_and!; [done..|].
    exists acc1, body, (items_bytes items). cbn. rewrite Nat.add_0_r. eauto 10.
Qed.

Lemma recognizes_u16_map {A} field max (entry : Z -> A -> W A) E acc :
  (forall index acc, recognizes (entry index acc) (E index acc)) ->
  recognizes (walk_u16_map field max entry acc)
    (fun n acc' s => exists items, let number := Z.of_nat (length items) in
       number <= max /\ Sorted key_lt items.*1
       /\ collects E (n + length (uleb number))%nat items acc acc'
       /\ (count number ⊙ lit (items_bytes items)) s).
Proof.
  intros HE. eapply recognizes_ext;
    [|eapply recognizes_bind; [apply recognizes_length|intros number];
      eapply recognizes_bind; [apply recognizes_ensure|intros u]; apply (recognizes_entries _ _ E HE)].
  cbn beta. intros n acc' s. unfold cat, lit. split.
  - intros (number & s1 & ? & -> & ([Hn ?] & ->) & [] & ? & ? & -> & (Hmax%Z.leb_le & ->) & items & Hlen & Hsort & Hc & ->).
    assert (number = Z.of_nat (length items)) as -> by lia.
    exists items. cbn zeta. cbn [length] in Hc. rewrite Nat.add_0_r in Hc.
    split_and!; [done..|]. by eexists _, (items_bytes items).
  - intros (items & Hmax & Hsort & Hc & s1 & ? & -> & [Hn ->] & ->).
    eexists _, _, _. split_and!; [done|split; [exact Hn|done]|].
    exists tt, [], (items_bytes items). split_and!; [done|by apply Z.leb_le|done|].
    exists items. cbn. rewrite Nat.add_0_r, Nat2Z.id. done.
Qed.

Lemma collects_all (value : Z -> lang) n items (u u' : unit) :
  collects (fun index _ _ _ body => value index body) n items u u' <-> Forall (item_ok value) items.
Proof.
  revert n u. induction items as [|i items IH]; intros n u; cbn.
  - destruct u, u'. split; [constructor|done].
  - rewrite Forall_cons. setoid_rewrite IH. unfold item_ok. split.
    + intros (? & ? & _ & ? & ?). done.
    + intros ((? & ? & ?) & ?). split_and!; [done..|]. by exists tt.
Qed.

Lemma accepts_u16_map field max (entry : Z -> unit -> W unit) (value : Z -> lang) :
  (forall index u, accepts (entry index u) (value index)) ->
  accepts (walk_u16_map field max entry tt) (u16_map max (fun _ => value)).
Proof.
  intros Hv. eapply recognizes_ext;
    [|exact (recognizes_u16_map field max entry (fun index _ _ _ body => value index body) tt Hv)].
  intros n [] s. unfold u16_map. setoid_rewrite collects_all. done.
Qed.

(** ** The checks *)

Lemma run_check_exact {A} (w : W A) R bytes :
  recognizes w R -> Forall is_byte bytes ->
  run_check w bytes <> Panic /\ forall a, run_check w bytes = Ok a <-> R 0%nat a bytes.
Proof.
  intros [Hs Hc] Hb. unfold run_check, cursor_new. specialize (Hs [] bytes). cbn [app length] in Hs.
  destruct (w _) as [r c] eqn:E. destruct (Hs r c Hb eq_refl) as [Hp Ha]. split.
  - destruct r as [a|e|]; [|done|done]. unfold finish. by destruct (_ =? _)%nat.
  - intros a. split.
    + destruct r as [a'|e|]; [|done|done]. destruct (Ha a' eq_refl) as (s & rest & -> & HR & ->).
      unfold finish. cbn. rewrite length_app. destruct (Nat.eqb_spec (length s + length rest - length s) 0); [|done].
      intros [= ->]. destruct rest; [|cbn in *; lia]. by rewrite app_nil_r.
    + intros HR. pose proof (Hc [] bytes [] a HR) as E'. cbn in E'. rewrite app_nil_r in E'. rewrite E' in E.
      injection E as <- <-. unfold finish. cbn. by rewrite Nat.sub_diag.
Qed.

Lemma run_accepts w L bytes : accepts w L -> Forall is_byte bytes ->
  run_check w bytes <> Panic /\ (run_check w bytes = Ok tt <-> L bytes).
Proof. intros Hw Hb. destruct (run_check_exact _ _ _ Hw Hb) as [? Hiff]. split; [done|]. apply (Hiff tt). Qed.

(** A check for the weight of a party. *)
Lemma check_of_party weights field party (k : Z -> outcome CountCheckError unit) (L : Z -> lang) bytes :
  (forall w, k w <> Panic /\ (k w = Ok tt <-> L w bytes)) ->
  (w ← weight_of weights field party; k w) <> Panic
  /\ ((w ← weight_of weights field party; k w) = Ok tt <-> of_party weights party L bytes).
Proof.
  intros Hk. unfold weight_of, of_party. destruct (weights !! _) as [w|]; cbn.
  - destruct (Hk w) as [? ->]. split; [done|]. naive_solver.
  - split; [done|]. naive_solver.
Qed.

Lemma accepts_complaint_response weight :
  accepts (shares ← cursor_length "complaint_response.shares";
           _ ← expect_count "complaint_response.shares" shares weight;
           skip_elements "complaint_response.shares" shares SHARE) (seq_of weight (fixed SHARE)).
Proof. apply accepts_exact. intros ?. apply accepts_skip_elements; size. Qed.

Lemma accepts_rotation shape owned (m : gmap Z (nat * nat)) index :
  recognizes (rotation_entry shape owned index m)
    (fun n m' s => ((index <> 0 /\ index ∈ owned) /\ avss_message_lang shape s)
       /\ m' = <[index := (n, n + length s)%nat]> m).
Proof.
  unfold rotation_entry. eapply recognizes_ext;
    [|eapply recognizes_bind; [apply recognizes_ensure|intros u];
      eapply recognizes_bind; [apply recognizes_position|intros start];
      eapply recognizes_bind; [apply accepts_avss_message|intros u'];
      eapply recognizes_bind; [apply recognizes_position|intros stop]; apply recognizes_ret].
  cbn beta. intros n m' s.
  assert (negb (index =? 0) && bool_decide (index ∈ owned) = true <-> index <> 0 /\ index ∈ owned) as Hg
    by (rewrite andb_true_iff, bool_decide_eq_true, negb_true_iff, Z.eqb_neq; done).
  split.
  - intros (? & ? & ? & -> & (?%Hg & ->) & ? & ? & ? & -> & (-> & ->) & ? & s3 & ? & -> & ? & ? & ? & ? & -> & (-> & ->) & (-> & ->)).
    rewrite app_nil_r. cbn. rewrite !Nat.add_0_r. done.
  - intros ((?%Hg & ?) & ->). exists tt, [], s. split_and!; [done..|]. cbn. rewrite !Nat.add_0_r.
    exists n, [], s. split_and!; [done..|]. cbn. rewrite !Nat.add_0_r.
    exists tt, s, []. rewrite app_nil_r. split_and!; [done..|].
    eexists _, [], []. split_and!; done.
Qed.

(** Where the values of the entries lie. *)
Fixpoint ranges (n : nat) (items : list item) (m : gmap Z (nat * nat)) : gmap Z (nat * nat) :=
  match items with
  | [] => m
  | i :: items => ranges (n + 2 + length i.2)%nat items (<[item_index i := (n + 2, n + 2 + length i.2)%nat]> m)
  end.

Lemma collects_ranges (value : Z -> lang) n items m m' :
  collects (fun index m n m' s => value index s /\ m' = <[index := (n, n + length s)%nat]> m) n items m m'
  <-> Forall (item_ok value) items /\ m' = ranges n items m.
Proof.
  revert n m. induction items as [|i items IH]; intros n m; cbn.
  - split; [|by intros [_ ->]]. intros ->. split; [constructor|done].
  - rewrite Forall_cons. setoid_rewrite IH. unfold item_ok. split.
    + intros (? & ? & ? & (? & ->) & ? & ->). done.
    + intros (((? & ? & ?) & ?) & ->). split_and!; [done..|]. eauto 10.
Qed.

Lemma ranges_lookup n items m index start stop :
  ranges n items m !! index = Some (start, stop) ->
  m !! index = Some (start, stop)
  \/ exists l1 i l2, items = l1 ++ i :: l2 /\ index = item_index i
       /\ start = (n + length (items_bytes l1) + 2)%nat /\ stop = (start + length i.2)%nat.
Proof.
  revert n m. induction items as [|i items IH]; intros n m; cbn; [by left|]. intros Hl.
  destruct (IH _ _ Hl) as [Hm|(l1 & j & l2 & -> & -> & -> & ->)].
  - apply lookup_insert_Some in Hm as [[<- [= <- <-]]|[_ Hm]]; [|by left]. right. exists [], i, items. cbn.
    split_and!; [done|done|lia|lia].
  - right. exists (i :: l1), j, l2. unfold items_bytes. cbn. rewrite length_app. split_and!; [done|done|lia|lia].
Qed.

(** The rotation messages that are accepted, and the ranges that are given for them. *)
Lemma check_rotation_exact bytes shape owned :
  Forall is_byte bytes ->
  check_rotation_messages bytes shape owned <> Panic
  /\ forall m, check_rotation_messages bytes shape owned = Ok m
       <-> exists items, let number := Z.of_nat (length items) in
             (number <= Z.of_nat (length owned) /\ Sorted key_lt items.*1
              /\ Forall (item_ok (fun index s => (index <> 0 /\ index ∈ owned) /\ avss_message_lang shape s)) items
              /\ (count number ⊙ lit (items_bytes items)) bytes)
             /\ m = ranges (length (uleb number)) items ∅.
Proof.
  intros Hb. set (value := fun index s => (index <> 0 /\ index ∈ owned) /\ avss_message_lang shape s).
  pose proof (recognizes_u16_map "rotation_messages" (Z.of_nat (length owned)) (rotation_entry shape owned)
    (fun index m n m' s => value index s /\ m' = <[index := (n, n + length s)%nat]> m) ∅
    (fun index m => accepts_rotation shape owned m index)) as Hw.
  destruct (run_check_exact _ _ _ Hw Hb) as [? Hiff]. split; [done|]. intros m. unfold check_rotation_messages. rewrite Hiff.
  cbn beta zeta. setoid_rewrite (collects_ranges value). naive_solver.
Qed.

Lemma check_dispersal_exact bytes shape holder :
  Forall is_byte bytes ->
  check_dispersal bytes shape holder <> Panic
  /\ (check_dispersal bytes shape holder = Ok tt <-> grammar (Dispersal shape holder) bytes).
Proof.
  intros Hb. apply check_of_party. intros shards. set (weights := ds_weights shape).
  set (value := fun rows row => of_party weights row (fun row_weight =>
    shards_lang shards (Some (mkExactShards (avid_shard_bytes row_weight (ds_batch_size shape) (data_shards shape))
      (merkle_depth (num_nodes weights)) (merkle_depth rows))))).
  assert (forall rows rest, count rows rest -> forall rest', (cursor_length "dispersal" (cursor_new (rest ++ rest'))).1 = Ok rows) as Hrows.
  { intros rows rest Hcount rest'.
    pose proof (rc_complete _ _ (recognizes_length "dispersal") [] rest rest' rows Hcount) as Hread.
    unfold cursor_new. cbn [app length] in Hread. by rewrite Hread. }
  destruct (cursor_length "dispersal" (cursor_new bytes)) as [r c] eqn:E.
  destruct (rc_sound _ _ (recognizes_length "dispersal") [] bytes r c Hb E) as [Hp Hr].
  assert (forall s, u16_map (num_nodes weights) value s -> s = bytes -> exists rows, r = Ok rows
    /\ u16_map (num_nodes weights) (fun _ => value rows) s) as Hread.
  { intros s (items & Hmax & Hsort & Hall & s1 & s2 & -> & Hc & Hs2) <-. exists (Z.of_nat (length items)).
    split; [by rewrite <- (Hrows _ _ Hc s2), E|]. exists items. split_and!; try done. by exists s1, s2. }
  destruct r as [rows|e|]; cbn; [|split; [done|]; split; [done|]; intros Hg; by destruct (Hread _ Hg eq_refl) as (? & [=] & _)|done].
  destruct (run_accepts _ _ bytes (accepts_u16_map "dispersal" (num_nodes weights) _ (value rows)
    (fun row u => accepts_of_party weights "dispersal" row _ _ (fun row_weight => accepts_shards shards _))) Hb) as [? Hiff].
  split; [done|]. etrans; [exact Hiff|]. split; [|intros Hg; by destruct (Hread _ Hg eq_refl) as (? & [= ->] & ?)].
  intros (items & Hmax & Hsort & Hall & s1 & s2 & Hs & Hc & Hs2). exists items. cbn zeta.
  rewrite Hs in E. pose proof (Hrows _ _ Hc s2) as E'. rewrite E in E'. injection E' as ->.
  split_and!; try done. by exists s1, s2.
Qed.

Lemma accepts_complaint weights :
  accepts (
    v ← variant "complaint";
    if v =? PROTOCOL_COMPLAINT_AVSS then skip "complaint" RECOVERY_PACKAGE
    else if v =? PROTOCOL_COMPLAINT_AVID_REVEAL then
      _ ← walk_bytes "complaint.ciphertext";
      skip "complaint.proof" RECOVERY_PACKAGE
    else if v =? PROTOCOL_COMPLAINT_AVID_BLAME then
      _ ← walk_u16_map "complaint.shards" (num_nodes weights)
            (fun disperser _ =>
               shards ← of_outcome (weight_of weights "complaint.shards" disperser);
               walk_authenticated_shards shards None) tt;
      walk_vote_certificate None
    else throw (BadVariant "complaint" v)) (grammar (ProtocolComplaint weights)).
Proof.
  unfold variant. cbn [grammar].
  set (blame := u16_map (num_nodes weights) _ ⊙ certificate_lang None).
  eapply accepts_ext;
    [|refine (accepts_length _ _ (fun v s => (v = 0 /\ fixed RECOVERY_PACKAGE s)
        \/ (v = 1 /\ (blob ⊙ fixed RECOVERY_PACKAGE) s) \/ (v = 2 /\ blame s)) _)].
  - intros s. clearbody blame. generalize (blob ⊙ fixed RECOVERY_PACKAGE). intros reveal.
    unfold either, cat, PROTOCOL_COMPLAINT_AVSS, PROTOCOL_COMPLAINT_AVID_REVEAL, PROTOCOL_COMPLAINT_AVID_BLAME. naive_solver.
  - intros v _. destruct (Z.eqb_spec v PROTOCOL_COMPLAINT_AVSS) as [->|];
      [|destruct (Z.eqb_spec v PROTOCOL_COMPLAINT_AVID_REVEAL) as [->|];
      [|destruct (Z.eqb_spec v PROTOCOL_COMPLAINT_AVID_BLAME) as [->|]]].
    + eapply accepts_ext; [|apply accepts_skip; size]. naive_solver lia.
    + eapply accepts_ext; [|apply accepts_then; [apply accepts_blob|intros _; apply accepts_skip; size]]. naive_solver lia.
    + eapply accepts_ext; [|apply accepts_then; [apply accepts_u16_map|intros _; apply accepts_certificate]];
        [naive_solver lia|]. intros disperser u. apply accepts_of_party. intros. apply accepts_shards.
    + eapply recognizes_ext; [|apply recognizes_throw]. naive_solver.
Qed.

Lemma check_held_echoes_exact bytes weights holder :
  Forall is_byte bytes ->
  check_held_avid_echoes bytes weights holder <> Panic
  /\ (check_held_avid_echoes bytes weights holder = Ok tt <-> grammar (HeldEchoes weights holder) bytes).
Proof.
  intros Hb. apply check_of_party. intros shards. apply run_accepts; [|done].
  apply accepts_then; [apply accepts_avid_vote|]. intros _.
  apply accepts_seq_upto; [|apply accepts_certificate]. intros n _. apply accepts_repeat, accepts_held_echo.
Qed.

(** C35: each of the twelve checks of payloads accepts exactly the payloads of its grammar (canonical
    lengths, the counts of the shape and no more, ascending keys of owned indices or of parties of
    the committee, nothing behind the end) and never panics, on all bytes. *)
Theorem payload_checks_exact p bytes :
  Forall is_byte bytes ->
  check p bytes <> Panic /\ (check p bytes = Ok tt <-> grammar p bytes).
Proof.
  intros Hb. destruct p as [shape|shape owned|weight|shape dealer|shape dealer|shape holder|weights|weights sender|weights
    |weights| |weights holder]; cbn [check].
  - apply run_accepts; [apply accepts_avss_message|done].
  - destruct (check_rotation_exact bytes shape owned Hb) as [Hp Hiff].
    destruct (check_rotation_messages bytes shape owned) as [m|e|]; cbn; [|split; [done|]|done].
    + split; [done|]. split; [|done]. intros _. destruct (Hiff m) as [(items & Hg & _) _]; [done|]. by exists items.
    + split; [done|]. intros (items & Hg).
      destruct (Hiff (ranges (length (uleb (Z.of_nat (length items)))) items ∅)) as [_ Hok].
      discriminate Hok. by exists items.
  - apply run_accepts; [apply accepts_complaint_response|done].
  - apply run_accepts; [apply accepts_common_message|done].
  - apply run_accepts; [|done]. apply accepts_then; [apply accepts_common_message|]. intros _. apply accepts_blob.
  - by apply check_dispersal_exact.
  - apply run_accepts; [apply accepts_certificate|done].
  - apply check_of_party. intros shards. apply run_accepts; [apply accepts_shards|done].
  - apply run_accepts; [apply accepts_avid_vote|done].
  - apply run_accepts; [apply accepts_complaint|done].
  - apply run_accepts; [|done]. apply accepts_then; [apply accepts_blob|]. intros _. apply accepts_skip; size.
  - by apply check_held_echoes_exact.
Qed.

(** Each range that is given for a share index of the dealer is a message of its own. *)
Theorem rotation_ranges_are_messages bytes shape owned entries index start stop :
  Forall is_byte bytes -> check_rotation_messages bytes shape owned = Ok entries ->
  entries !! index = Some (start, stop) ->
  index <> 0 /\ index ∈ owned /\ (start <= stop <= length bytes)%nat
  /\ check_avss_message (take (stop - start) (drop start bytes)) shape = Ok tt.
Proof.
  intros Hb Hok Hl. apply (proj2 (check_rotation_exact bytes shape owned Hb)) in Hok as (items & Hg & ->).
  destruct Hg as (_ & _ & Hall & s1 & s2 & -> & (_ & ->) & Hs2). unfold lit in Hs2. subst s2.
  apply ranges_lookup in Hl as [[=]|(l1 & i & l2 & -> & -> & -> & ->)].
  apply Forall_elt in Hall as (_ & _ & (? & ?) & Hmsg).
  set (u := uleb _) in *. clearbody u. unfold items_bytes in *. rewrite fmap_app, concat_app in *. cbn in *.
  assert (take (length i.2) (drop (length u + length (concat (item_bytes <$> l1)) + 2)
            (u ++ concat (item_bytes <$> l1) ++ i.1.1 :: i.1.2 :: i.2 ++ concat (item_bytes <$> l2))) = i.2) as Ei.
  { rewrite (assoc (++)), drop_app_ge by (rewrite length_app; lia). rewrite length_app.
    rewrite Nat.add_comm, Nat.add_sub. cbn. by rewrite drop_0, take_app_length. }
  split_and!; [done|done|lia|rewrite !length_app; cbn; rewrite length_app; lia|].
  replace (_ - _)%nat with (length i.2) by lia. rewrite Ei.
  apply run_accepts with (L := avss_message_lang shape); [apply accepts_avss_message| |done].
  apply Forall_app in Hb as [_ [_ Hb]%Forall_app]. by apply Forall_cons in Hb as [_ [_ [Hb _]%Forall_app]%Forall_cons].
Qed.

(** The length of a length. *)
Lemma uleb_length n : 0 <= n < 2 ^ 35 -> Z.of_nat (length (uleb n)) = uleb128_len n.
Proof.
  intros Hn. unfold uleb128_len, bit_length, div_ceil.
  assert (forall k, 0 <= k -> 2 ^ (7 * k) <= n < 2 ^ (7 * k + 7) -> 7 * k <= Z.log2 n < 7 * k + 7) as Hlog.
  { intros k Hk [H1 H2]. assert (0 < 2 ^ (7 * k)) by (apply Z.pow_pos_nonneg; lia).
    split; [apply Z.log2_le_pow2; lia|apply Z.log2_lt_pow2; lia]. }
  pose proof (Hlog 0). pose proof (Hlog 1). pose proof (Hlog 2). pose proof (Hlog 3). pose proof (Hlog 4). cbn in * |-.
  unfold uleb. cbn [uleb_digits].
  repeat match goal with |- context [?a <? 128] => destruct (Z.ltb_spec a 128) end; cbn [length];
    destruct (Z.eqb_spec n 0); Z.div_mod_to_equations; lia.
Qed.

(** An accepted response to a complaint has the size that was announced for it. *)
Theorem complaint_response_size_exact bytes weight :
  Forall is_byte bytes -> check_avss_complaint_response bytes weight = Ok tt ->
  Z.of_nat (length bytes) = avss_complaint_response_size weight.
Proof.
  intros Hb Hok. apply (proj2 (run_accepts _ _ _ (accepts_complaint_response weight) Hb)) in Hok.
  destruct Hok as (s1 & s2 & -> & ([Hw Hm] & ->) & Hs2). pose proof sizes_in_use. pose proof max_sequence_length.
  apply copies_fixed in Hs2; [|lia]. unfold fixed in Hs2. rewrite Z2Nat.id in Hs2 by done.
  rewrite length_app, Nat2Z.inj_add, Hs2, uleb_length by lia. done.
Qed.
End grammars.

(** ** An example *)

Module SmallSizes.
#[export] Instance small_sizes : WireSizes :=
  {| POINT := 3; SCALAR := 2; EG_POINT := 3; EG_SCALAR := 2; HASH := 4; MERKLE_DIGEST := 4; AGGREGATE_SIGNATURE := 6;
     MAX_SEQUENCE_LENGTH := 2147483647 |}.

#[export] Instance small_sizes_laws : WireSizesLaws.
Proof. split; cbn; lia. Qed.

Definition avss_bytes (n : Z) : list Z :=
  [2] ++ repeat n 6 ++ repeat n 6 ++ [3] ++ [1; n] ++ [0] ++ [2; n; n] ++ repeat n 8.

Definition rotation_bytes : list Z := [2] ++ [3; 1] ++ avss_bytes 7 ++ [5; 0] ++ avss_bytes 9.
End SmallSizes.

Section witnesses.
Import SmallSizes.

(** The messages for the share indices 259 and 5, in the order of the bytes of the keys; after that,
    an index the dealer does not own, a key out of order, a length with a zero
    digit too many, and a byte behind the end. *)
Lemma payload_checks_exact_witness :
  let rotation := RotationMessages (mkAvssShape 2 3) [5; 259] in
  (Forall is_byte rotation_bytes /\ check rotation rotation_bytes = Ok tt /\ grammar rotation rotation_bytes)
  /\ check_rotation_messages rotation_bytes (mkAvssShape 2 3) [5; 259] = Ok {[259 := (3%nat, 31%nat); 5 := (33%nat, 61%nat)]}
  /\ check rotation ([2] ++ [5; 1] ++ avss_bytes 7 ++ [5; 0] ++ avss_bytes 9) = Err (UnownedKey "rotation_messages" 261)
  /\ check (RotationMessages (mkAvssShape 2 3) [5; 259; 3]) ([2] ++ [5; 0] ++ avss_bytes 7 ++ [3; 0] ++ avss_bytes 9)
     = Err (KeyOrder "rotation_messages")
  /\ check (AvssComplaintResponse 1) [129; 0; 1; 2; 3; 4] = Err (BadLength "complaint_response.shares")
  /\ check (AvssComplaintResponse 1) [1; 1; 2; 3; 4; 5] = Err (Trailing 1).
Proof.
  cbv zeta. assert (Forall is_byte rotation_bytes) as Hb
    by (vm_compute; repeat (constructor; [split; discriminate || reflexivity|]); constructor).
  split; [split_and!; [exact Hb|vm_compute; reflexivity|]|split_and!; vm_compute; reflexivity].
  apply (payload_checks_exact _ _ Hb). vm_compute. reflexivity.
Defined.
End witnesses.
