(* ===== verification/PeerLimit.v ===== *)
(** * Limits of a peer's requests

    [crates/hashi/src/grpc/peer_limit.rs], [request_body.rs] and [route_limits.rs]: what the
    requests of one peer may hold at a time, in requests, bytes and MPC work.

    The counters of a peer are atomics shared by all its requests; a method changes them by one
    [fetch_update], [fetch_add] or [fetch_sub], and these wrap.  A request is the middleware
    [limit_per_peer] around its handler: it holds a slot, a charge and, on some routes, a guard
    of MPC work.  The charge and the guard are behind an [Arc]: they are dropped when the last
    of their holders is, which are the middleware, the body of the request, and blocking jobs
    that outlive the request.  The handlers, the bodies of the connection and the descriptors of
    the services are other code: what they do is the event of a step.  *)

From stdpp Require Import strings gmap.
From S2P Require Import Prelude.

(** ** Routes *)

Record RouteLimits := mkRouteLimits {
  rl_services : gmap string Z;
  rl_methods : gmap string Z;
  rl_mpc_work : gset string;
}.

Definition route_limits_default : RouteLimits := mkRouteLimits ∅ ∅ ∅.

Definition method_path (service method : string) : string := ("/" ++ service ++ "/" ++ method)%string.

Definition rl_service (name : string) (limit : Z) (self : RouteLimits) : RouteLimits :=
  mkRouteLimits (<[name := limit]> (rl_services self)) (rl_methods self) (rl_mpc_work self).
Definition rl_method (service method : string) (limit : Z) (self : RouteLimits) : RouteLimits :=
  mkRouteLimits (rl_services self) (<[method_path service method := limit]> (rl_methods self)) (rl_mpc_work self).
Definition rl_work (service method : string) (self : RouteLimits) : RouteLimits :=
  mkRouteLimits (rl_services self) (rl_methods self) ({[method_path service method]} ∪ rl_mpc_work self).

(** The character [/]. *)
Definition slash : Ascii.ascii := Ascii.Ascii true true true true false true false false.

(** What is in front of the first slash. *)
Fixpoint before_slash (s : string) : option string :=
  match s with
  | EmptyString => None
  | String c s => if Ascii.eqb c slash then Some EmptyString else String c <$> before_slash s
  end.

Definition service_of (path : string) : option string :=
  match path with
  | String c rest => if Ascii.eqb c slash then before_slash rest else None
  | EmptyString => None
  end.

Definition route_limit (self : RouteLimits) (path : string) : option Z :=
  name ← service_of path;
  service ← rl_services self !! name;
  Some (match rl_methods self !! path with Some method => Z.min method service | None => service end).

(** ** Peers *)

Definition i64_max : Z := 2 ^ 63 - 1.
Definition PREFIX_LEN : Z := 5.
Definition RESPONSE_PIECE : Z := 64 * 1024.

Record ByteBudget := mkByteBudget { bb_reserved : Z; bb_high_water : Z; bb_max : Z; bb_over : Z }.

Definition byte_budget_new : ByteBudget := mkByteBudget 0 0 0 0.

Definition try_reserve (self : ByteBudget) (bytes limit : Z) : bool * ByteBudget :=
  let now := bb_reserved self + bytes in
  if (now <=? u64_max) && (now <=? limit) then
    let high_water := Z.max (bb_high_water self) now in
    (true, mkByteBudget now high_water
             (if bb_high_water self <? now then Z.min high_water i64_max else bb_max self) (bb_over self))
  else (false, self).

Definition budget_release (self : ByteBudget) (bytes : Z) : ByteBudget :=
  mkByteBudget (wsub (bb_reserved self) bytes) (bb_high_water self) (bb_max self) (bb_over self).

Definition over_inc (self : ByteBudget) : ByteBudget :=
  mkByteBudget (bb_reserved self) (bb_high_water self) (bb_max self) (bb_over self + 1).

Record Peer := mkPeer {
  pe_inflight : Z;
  pe_high_water : Z;
  pe_at_admission : list Z;
  pe_max : Z;
  pe_shed : Z;
  request_bytes : ByteBudget;
  pe_work_inflight : Z;
  pe_work_shed : Z;
  work_bytes : ByteBudget;
  pe_too_large : Z;
  pe_responses_shed : Z;
}.

Definition peer_new : Peer := mkPeer 0 0 [] 0 0 byte_budget_new 0 0 byte_budget_new 0 0.

Definition with_request_bytes (f : ByteBudget -> ByteBudget) (p : Peer) : Peer :=
  mkPeer (pe_inflight p) (pe_high_water p) (pe_at_admission p) (pe_max p) (pe_shed p) (f (request_bytes p))
    (pe_work_inflight p) (pe_work_shed p) (work_bytes p) (pe_too_large p) (pe_responses_shed p).
Definition with_work_bytes (f : ByteBudget -> ByteBudget) (p : Peer) : Peer :=
  mkPeer (pe_inflight p) (pe_high_water p) (pe_at_admission p) (pe_max p) (pe_shed p) (request_bytes p)
    (pe_work_inflight p) (pe_work_shed p) (f (work_bytes p)) (pe_too_large p) (pe_responses_shed p).
Definition too_large_inc (p : Peer) : Peer :=
  mkPeer (pe_inflight p) (pe_high_water p) (pe_at_admission p) (pe_max p) (pe_shed p) (request_bytes p)
    (pe_work_inflight p) (pe_work_shed p) (work_bytes p) (pe_too_large p + 1) (pe_responses_shed p).
Definition responses_shed_inc (p : Peer) : Peer :=
  mkPeer (pe_inflight p) (pe_high_water p) (pe_at_admission p) (pe_max p) (pe_shed p) (request_bytes p)
    (pe_work_inflight p) (pe_work_shed p) (work_bytes p) (pe_too_large p) (pe_responses_shed p + 1).
Definition with_work_inflight (n : Z) (p : Peer) : Peer :=
  mkPeer (pe_inflight p) (pe_high_water p) (pe_at_admission p) (pe_max p) (pe_shed p) (request_bytes p)
    n (pe_work_shed p) (work_bytes p) (pe_too_large p) (pe_responses_shed p).

Definition wrap32 (x : Z) : Z := x mod 2 ^ 32.

(** [PeerInflightLimiter::try_admit]: whether there is a slot. *)
Definition try_admit (limit : Z) (p : Peer) : bool * Peer :=
  let before := pe_inflight p in
  if before <? limit then
    let now := before + 1 in
    let high_water := Z.max (pe_high_water p) now in
    (true, mkPeer now high_water (before :: pe_at_admission p)
             (if pe_high_water p <? now then high_water else pe_max p) (pe_shed p) (request_bytes p)
             (pe_work_inflight p) (pe_work_shed p) (work_bytes p) (pe_too_large p) (pe_responses_shed p))
  else
    (false, mkPeer before (pe_high_water p) (pe_at_admission p) (pe_max p) (pe_shed p + 1) (request_bytes p)
              (pe_work_inflight p) (pe_work_shed p) (work_bytes p) (pe_too_large p) (pe_responses_shed p)).

(** [Drop for Slot] *)
Definition slot_drop (p : Peer) : Peer :=
  mkPeer (wrap32 (pe_inflight p - 1)) (pe_high_water p) (pe_at_admission p) (pe_max p) (pe_shed p) (request_bytes p)
    (pe_work_inflight p) (pe_work_shed p) (work_bytes p) (pe_too_large p) (pe_responses_shed p).

(** [PeerInflightLimiter::try_admit_work]: what the histogram of the route observes. *)
Definition try_admit_work (limit : Z) (p : Peer) : option Z * Peer :=
  let before := pe_work_inflight p in
  if before <? limit then (Some before, with_work_inflight (before + 1) p)
  else
    (None, mkPeer (pe_inflight p) (pe_high_water p) (pe_at_admission p) (pe_max p) (pe_shed p) (request_bytes p)
             before (pe_work_shed p + 1) (work_bytes p) (pe_too_large p) (pe_responses_shed p)).

(** ** Charges and guards, behind their [Arc]s *)

Record RequestCharge := mkCharge { ch_reserved : Z; ch_refs : nat }.
Record MpcWorkGuard := mkGuard { wg_reserved : Z; wg_refs : nat }.

(** What a request shares: the counters of its peer, its charge, and its guard. *)
Record Shared := mkShared { sh_peer : Peer; sh_charge : RequestCharge; sh_work : option MpcWorkGuard }.

Definition set_peer (p : Peer) (sh : Shared) : Shared := mkShared p (sh_charge sh) (sh_work sh).

(** [MpcWorkGuard::reserve] *)
Definition work_reserve (budget bytes : Z) (w : MpcWorkGuard) (p : Peer) : bool * (MpcWorkGuard * Peer) :=
  match try_reserve (work_bytes p) bytes budget with
  | (false, _) => (false, (w, with_work_bytes over_inc p))
  | (true, b) => (true, (mkGuard (wadd (wg_reserved w) bytes) (wg_refs w), with_work_bytes (fun _ => b) p))
  end.

(** [RequestCharge::reserve] *)
Definition charge_reserve (budget bytes : Z) (sh : Shared) : bool * Shared :=
  match try_reserve (request_bytes (sh_peer sh)) bytes budget with
  | (false, _) => (false, set_peer (with_request_bytes over_inc (sh_peer sh)) sh)
  | (true, b) =>
      let p := with_request_bytes (fun _ => b) (sh_peer sh) in
      let c := mkCharge (wadd (ch_reserved (sh_charge sh)) bytes) (ch_refs (sh_charge sh)) in
      match sh_work sh with
      | None => (true, mkShared p c None)
      | Some w => let '(ok, (w, p)) := work_reserve budget bytes w p in (ok, mkShared p c (Some w))
      end
  end.

(** [RequestCharge::release] *)
Definition charge_release (bytes : Z) (sh : Shared) : Shared :=
  mkShared (with_request_bytes (fun b => budget_release b bytes) (sh_peer sh))
    (mkCharge (wsub (ch_reserved (sh_charge sh)) bytes) (ch_refs (sh_charge sh))) (sh_work sh).

(** An [Arc] of the guard goes; [Drop for MpcWorkGuard] *)
Definition drop_work (sh : Shared) : Shared :=
  match sh_work sh with
  | None => sh
  | Some w =>
      let refs := pred (wg_refs w) in
      let p := sh_peer sh in
      let p := if (refs =? 0)%nat then
                 let p := with_work_bytes (fun b => budget_release b (wg_reserved w)) p in
                 with_work_inflight (wrap32 (pe_work_inflight p - 1)) p
               else p in
      mkShared p (sh_charge sh) (Some (mkGuard (wg_reserved w) refs))
  end.

(** An [Arc] of the charge goes; [Drop for RequestCharge], and then its guard *)
Definition drop_charge (sh : Shared) : Shared :=
  let c := sh_charge sh in
  let refs := pred (ch_refs c) in
  let sh := mkShared (sh_peer sh) (mkCharge (ch_reserved c) refs) (sh_work sh) in
  if (refs =? 0)%nat then
    drop_work (set_peer (with_request_bytes (fun b => budget_release b (ch_reserved c)) (sh_peer sh)) sh)
  else sh.

(** ** The body of a request *)

Inductive Frame := Data (bytes : list Z) | Trailers.

Inductive Status :=
| OutOfRange (len limit : Z)
| Unavailable.

(** The bytes of the prefix that are filled; the deadline of the last state is a timer. *)
Inductive BodyState :=
| Prefix (bytes : list Z)
| Message (remaining : Z)
| AwaitingEnd
| Done.

Record LimitedBody := mkBody {
  lb_limit : Z;
  lb_single_message : bool;
  lb_current : Z;
  lb_completed : Z;
  lb_state : BodyState;
}.

Definition limited_body_new (limit : Z) (single_message : bool) : LimitedBody := mkBody limit single_message 0 0 (Prefix []).

Definition set_state (s : BodyState) (b : LimitedBody) : LimitedBody :=
  mkBody (lb_limit b) (lb_single_message b) (lb_current b) (lb_completed b) s.

Definition message_complete (b : LimitedBody) : LimitedBody :=
  if lb_single_message b then set_state AwaitingEnd b
  else mkBody (lb_limit b) (lb_single_message b) 0 (wadd (lb_completed b) (lb_current b)) (Prefix []).

(** [u32::from_be_bytes] *)
Definition be32 (bytes : list Z) : Z := wrap32 (fold_left (fun acc b => 256 * acc + b) bytes 0).

#[local] Abbreviation B := (M (LimitedBody * Shared) Status).

Definition body_admit (budget len : Z) : B unit :=
  limit ← read (fun s => lb_limit s.1);
  if limit <? len then
    _ ← modify (fun s => (s.1, set_peer (too_large_inc (sh_peer s.2)) s.2));
    throw (OutOfRange len limit)
  else
    let bytes := PREFIX_LEN + len in
    reserved ← (fun s => let '(ok, sh) := charge_reserve budget bytes s.2 in (Ok ok, (s.1, sh)));
    if negb reserved then throw Unavailable
    else
      _ ← modify (fun s =>
        let b := s.1 in
        let b := mkBody (lb_limit b) (lb_single_message b) bytes (lb_completed b) (Message len) in
        (if len =? 0 then message_complete b else b, s.2));
      mret tt.

(** The loop of [forwardable], one turn per unit of fuel: how many of the bytes are passed on. *)
Fixpoint forward_from (fuel : nat) (budget : Z) (data : list Z) (consumed : Z) : B Z :=
  match data with
  | [] => mret consumed
  | _ =>
      match fuel with
      | O => of_outcome Panic
      | S fuel =>
          state ← read (fun s => lb_state s.1);
          match state with
          | Prefix bytes =>
              let take := Nat.min (Z.to_nat PREFIX_LEN - length bytes) (length data) in
              let bytes := bytes ++ firstn take data in
              _ ← modify (fun s => (set_state (Prefix bytes) s.1, s.2));
              _ ← (if (length bytes =? Z.to_nat PREFIX_LEN)%nat then body_admit budget (be32 (tail bytes)) else mret tt);
              forward_from fuel budget (skipn take data) (consumed + Z.of_nat take)
          | Message remaining =>
              let take := Z.min (Z.of_nat (length data)) remaining in
              let remaining := remaining - take in
              _ ← modify (fun s =>
                let b := set_state (Message remaining) s.1 in
                (if remaining =? 0 then message_complete b else b, s.2));
              forward_from fuel budget (skipn (Z.to_nat take) data) (consumed + take)
          | AwaitingEnd | Done => mret consumed
          end
      end
  end.

Definition forwardable (budget : Z) (data : list Z) : B Z := forward_from (length data) budget data 0.

(** What the body of the connection has ready; when nothing is, it is pending. *)
Inductive Inner := IFrame (f : Frame) | IError | IEnd.

Inductive Polled :=
| Pending
| Ended
| Ready (f : Frame)
| FailedInner
| FailedWith (s : Status)
| FailedFuel.

Definition polled_inner (i : Inner) : Polled :=
  match i with IFrame f => Ready f | IError => FailedInner | IEnd => Ended end.

Definition empty_data (i : Inner) : bool := match i with IFrame (Data []) => true | _ => false end.

(** The loop of [poll_frame]; [elapsed]: whether the deadline has passed.  The frames of the
    connection that are left are given back. *)
Fixpoint poll_from (budget : Z) (elapsed : bool) (inner : list Inner) (b : LimitedBody) (sh : Shared)
    : Polled * list Inner * (LimitedBody * Shared) :=
  match lb_state b with
  | AwaitingEnd =>
      match inner with
      | i :: rest =>
          if empty_data i then poll_from budget elapsed rest b sh
          else
            ((match i with IFrame Trailers => Ready Trailers | IError => FailedInner | _ => Ended end), rest,
             (set_state Done b, sh))
      | [] => if elapsed then (Ended, [], (set_state Done b, sh)) else (Pending, [], (b, sh))
      end
  | Done => (Ended, inner, (b, sh))
  | _ =>
      match inner with
      | [] => (Pending, [], (b, sh))
      | IFrame (Data data) :: rest =>
          match forwardable budget data (b, sh) with
          | (Ok n, (b, sh)) =>
              if n =? 0 then poll_from budget elapsed rest b sh
              else (Ready (Data (firstn (Z.to_nat n) data)), rest, (b, sh))
          | (Err status, (b, sh)) => (FailedWith status, rest, (set_state Done b, sh))
          | (Panic, s) => (FailedFuel, rest, s)
          end
      | IFrame Trailers :: rest => (Ready Trailers, rest, (b, sh))
      | i :: rest => (polled_inner i, rest, (set_state Done b, sh))
      end
  end.

Definition body_poll (budget : Z) (elapsed : bool) (inner : list Inner) (b : LimitedBody) (sh : Shared)
    : Polled * list Inner * (LimitedBody * Shared) :=
  poll_from budget elapsed inner (mkBody (lb_limit b) (lb_single_message b) (lb_current b) 0 (lb_state b))
    (charge_release (lb_completed b) sh).

(** ** The body of a response *)

Record Guarded := mkGuarded { gu_budget : option Z; gu_pending : option (list Z * nat); gu_done : bool }.

Definition guarded_new (budget : option Z) : Guarded := mkGuarded budget None false.

Definition guarded_release (g : Guarded) (p : Peer) : Guarded * Peer :=
  match gu_pending g with
  | Some (frame, _) =>
      (mkGuarded (gu_budget g) None (gu_done g),
       with_request_bytes (fun b => budget_release b (Z.of_nat (length frame))) p)
  | None => (g, p)
  end.

Fixpoint guarded_poll (inner : list Inner) (g : Guarded) (p : Peer) : Polled * list Inner * (Guarded * Peer) :=
  let next :=
    let '(g, p) := guarded_release g p in
    if gu_done g then (Ended, inner, (g, p))
    else
      match inner with
      | [] => (Pending, [], (g, p))
      | IFrame f :: rest =>
          match gu_budget g, f with
          | Some budget, Data data =>
              match try_reserve (request_bytes p) (Z.of_nat (length data)) budget with
              | (false, _) => (Ready Trailers, rest, (mkGuarded (gu_budget g) None true, responses_shed_inc p))
              | (true, b) =>
                  guarded_poll rest (mkGuarded (gu_budget g) (Some (data, O)) (gu_done g)) (with_request_bytes (fun _ => b) p)
              end
          | _, _ => (Ready f, rest, (g, p))
          end
      | i :: rest => (polled_inner i, rest, (mkGuarded (gu_budget g) (gu_pending g) true, p))
      end in
  match gu_pending g with
  | Some (frame, sent) =>
      if (sent <? length frame)%nat then
        let stop := Nat.min (length frame) (sent + Z.to_nat RESPONSE_PIECE) in
        (Ready (Data (firstn (stop - sent) (skipn sent frame))), inner,
         (mkGuarded (gu_budget g) (Some (frame, stop)) (gu_done g), p))
      else next
  | None => next
  end.

(** ** The limiter and its requests *)

(** A request that was admitted.  [rq_running]: the middleware waits for the handler;
    [rq_jobs]: blocking jobs with the guard of the request. *)
Record Request := mkRequest {
  rq_address : Address;
  rq_charge : RequestCharge;
  rq_work : option MpcWorkGuard;
  rq_running : bool;
  rq_body : option LimitedBody;
  rq_jobs : nat;
  rq_response : option Guarded;
}.

Record Limiter := mkLimiter {
  lm_limit : Z;
  lm_budget_bytes : Z;
  lm_routes : RouteLimits;
  lm_work_at_admission : gmap string (list Z);
  lm_peers : gmap Address Peer;
  lm_unguarded : Z;
  lm_requests : gmap Z Request;
}.

Definition limiter_new (limit budget_bytes : Z) (routes : RouteLimits) : Limiter :=
  mkLimiter limit budget_bytes routes (gset_to_gmap [] (rl_mpc_work routes)) ∅ 0 ∅.

(** [PeerInflightLimiter::peer] makes the counters of a peer when it is first seen. *)
Definition peer_of (st : Limiter) (address : Address) : Peer := default peer_new (lm_peers st !! address).

Definition put (id : Z) (address : Address) (p : Peer) (r : option Request) (st : Limiter) : Limiter :=
  mkLimiter (lm_limit st) (lm_budget_bytes st) (lm_routes st) (lm_work_at_admission st)
    (<[address := p]> (lm_peers st)) (lm_unguarded st)
    (match r with Some r => <[id := r]> (lm_requests st) | None => lm_requests st end).

Definition observe_work (path : string) (n : Z) (st : Limiter) : Limiter :=
  mkLimiter (lm_limit st) (lm_budget_bytes st) (lm_routes st)
    (alter (cons n) path (lm_work_at_admission st)) (lm_peers st) (lm_unguarded st) (lm_requests st).

Definition unguarded_inc (st : Limiter) : Limiter :=
  mkLimiter (lm_limit st) (lm_budget_bytes st) (lm_routes st) (lm_work_at_admission st) (lm_peers st)
    (lm_unguarded st + 1) (lm_requests st).

Definition shared_of (p : Peer) (r : Request) : Shared := mkShared p (rq_charge r) (rq_work r).

Definition with_shared (sh : Shared) (r : Request) : Request :=
  mkRequest (rq_address r) (sh_charge sh) (sh_work sh) (rq_running r) (rq_body r) (rq_jobs r) (rq_response r).

Inductive Output :=
| Nothing
| Passed
| Shed
| RequestAdmitted
| Polls (p : Polled) (rest : list Inner).

Inductive Event :=
| Arrive (id : Z) (address : option Address) (path : string)
| PollBody (id : Z) (elapsed : bool) (inner : list Inner)
| DropBody (id : Z)
| SpawnBlocking (id : Z)
| JobDone (id : Z)
| Respond (id : Z) (grpc : bool)
| Abandon (id : Z)
| PollResponse (id : Z) (inner : list Inner)
| DropResponse (id : Z).

Section steps.
(** Which methods take a stream of messages is in the descriptors of the services. *)
Variable streams_requests : string -> bool.

(** [limit_per_peer] up to the handler. *)
Definition arrive (id : Z) (address : option Address) (path : string) (st : Limiter) : Output * Limiter :=
  match address with
  | None => (Passed, st)
  | Some address =>
      match try_admit (lm_limit st) (peer_of st address) with
      | (false, p) => (Shed, put id address p None st)
      | (true, p) =>
          let run work p st :=
            let body : option LimitedBody := (fun limit => limited_body_new limit (negb (streams_requests path))) <$> route_limit (lm_routes st) path in
            let charge := mkCharge 0 (1 + (if body then 1 else 0)) in
            (RequestAdmitted, put id address p (Some (mkRequest address charge work true body 0 None)) st) in
          if bool_decide (path ∈ dom (lm_work_at_admission st)) then
            match try_admit_work (lm_limit st) p with
            | (None, p) => (Shed, put id address (slot_drop p) None st)
            | (Some before, p) => run (Some (mkGuard 0 2)) p (observe_work path before st)
            end
          else run None p st
      end
  end.

(** A step of one request that is in flight. *)
Definition request_step (budget_bytes : Z) (e : Event) (p : Peer) (r : Request) : Output * (Peer * Request) :=
  match e with
  | PollBody _ elapsed inner =>
      match rq_body r with
      | Some b =>
          let '(polled, rest, (b, sh)) := body_poll budget_bytes elapsed inner b (shared_of p r) in
          let r := with_shared sh r in
          (Polls polled rest,
           (sh_peer sh, mkRequest (rq_address r) (rq_charge r) (rq_work r) (rq_running r) (Some b) (rq_jobs r) (rq_response r)))
      | None => (Nothing, (p, r))
      end
  | DropBody _ =>
      match rq_body r with
      | Some _ =>
          let sh := drop_charge (shared_of p r) in
          let r := with_shared sh r in
          (Nothing,
           (sh_peer sh, mkRequest (rq_address r) (rq_charge r) (rq_work r) (rq_running r) None (rq_jobs r) (rq_response r)))
      | None => (Nothing, (p, r))
      end
  | SpawnBlocking _ =>
      match rq_work r with
      | Some w =>
          if rq_running r then
            (Nothing, (p, mkRequest (rq_address r) (rq_charge r) (Some (mkGuard (wg_reserved w) (S (wg_refs w)))) true
                            (rq_body r) (S (rq_jobs r)) (rq_response r)))
          else (Nothing, (p, r))
      | None => (Nothing, (p, r))
      end
  | JobDone _ =>
      match rq_jobs r with
      | S jobs =>
          let sh := drop_work (shared_of p r) in
          let r := with_shared sh r in
          (Nothing, (sh_peer sh, mkRequest (rq_address r) (rq_charge r) (rq_work r) (rq_running r) (rq_body r) jobs (rq_response r)))
      | O => (Nothing, (p, r))
      end
  | Respond _ grpc =>
      if rq_running r then
        let sh := drop_charge (drop_work (shared_of p r)) in
        let r := with_shared sh r in
        let response := guarded_new (if grpc then Some budget_bytes else None) in
        (Nothing, (sh_peer sh, mkRequest (rq_address r) (rq_charge r) (rq_work r) false (rq_body r) (rq_jobs r) (Some response)))
      else (Nothing, (p, r))
  | Abandon _ =>
      if rq_running r then
        let sh := drop_charge (drop_work (shared_of p r)) in
        let r := with_shared sh r in
        (Nothing,
         (slot_drop (sh_peer sh), mkRequest (rq_address r) (rq_charge r) (rq_work r) false (rq_body r) (rq_jobs r) None))
      else (Nothing, (p, r))
  | PollResponse _ inner =>
      match rq_response r with
      | Some g =>
          let '(polled, rest, (g, p)) := guarded_poll inner g p in
          (Polls polled rest,
           (p, mkRequest (rq_address r) (rq_charge r) (rq_work r) (rq_running r) (rq_body r) (rq_jobs r) (Some g)))
      | None => (Nothing, (p, r))
      end
  | DropResponse _ =>
      match rq_response r with
      | Some g =>
          let '(_, p) := guarded_release g p in
          (Nothing,
           (slot_drop p, mkRequest (rq_address r) (rq_charge r) (rq_work r) (rq_running r) (rq_body r) (rq_jobs r) None))
      | None => (Nothing, (p, r))
      end
  | Arrive _ _ _ => (Nothing, (p, r))
  end.

Definition event_id (e : Event) : Z :=
  match e with
  | Arrive id _ _ | PollBody id _ _ | DropBody id | SpawnBlocking id | JobDone id | Respond id _ | Abandon id
  | PollResponse id _ | DropResponse id => id
  end.

(** A job without a guard is counted. *)
Definition count_unguarded (e : Event) (r : Request) (st : Limiter) : Limiter :=
  match e, rq_work r with
  | SpawnBlocking _, None => if rq_running r then unguarded_inc st else st
  | _, _ => st
  end.

Definition limiter_step (e : Event) (st : Limiter) : Output * Limiter :=
  match lm_requests st !! event_id e, e with
  | None, Arrive id address path => arrive id address path st
  | Some r, _ =>
      let '(out, (p, r')) := request_step (lm_budget_bytes st) e (peer_of st (rq_address r)) r in
      (out, count_unguarded e r (put (event_id e) (rq_address r) p (Some r') st))
  | None, _ => (Nothing, st)
  end.

Definition limiter_run (events : list Event) (st : Limiter) : Limiter :=
  fold_left (fun st e => (limiter_step e st).2) events st.
End steps.
