(* ===== verification/PeerLimitProofs.v ===== *)
(** * The counters of a peer are what its requests hold

    Each of the four counters of a peer equals the sum of what its requests in flight hold of it
    and stays below its limit, whatever the order of the steps: no decrement wraps, and nothing is
    left behind when the parts of a request have been dropped. *)

From stdpp Require Import strings gmap.
From S2P Require Import PeerLimit Prelude.

Inductive Resource := Slots | Bytes | Works | WorkBytes.

Definition counter (k : Resource) (p : Peer) : Z :=
  match k with
  | Slots => pe_inflight p
  | Bytes => bb_reserved (request_bytes p)
  | Works => pe_work_inflight p
  | WorkBytes => bb_reserved (work_bytes p)
  end.

(** What a charge and a guard hold while they live. *)
Definition charge_holds (k : Resource) (c : RequestCharge) : Z :=
  match k with Bytes => if (ch_refs c =? 0)%nat then 0 else ch_reserved c | _ => 0 end.

Definition guard_holds (k : Resource) (w : option MpcWorkGuard) : Z :=
  match w with
  | Some w =>
      if (wg_refs w =? 0)%nat then 0
      else match k with Works => 1 | WorkBytes => wg_reserved w | _ => 0 end
  | None => 0
  end.

Definition shared_holds (k : Resource) (sh : Shared) : Z := charge_holds k (sh_charge sh) + guard_holds k (sh_work sh).

(** What the rest of a request holds: its slot, and a frame of its response. *)
Definition slot_held (r : Request) : bool := rq_running r || bool_decide (is_Some (rq_response r)).

Definition pending_bytes (g : option Guarded) : Z :=
  match g with Some g => match gu_pending g with Some (frame, _) => Z.of_nat (length frame) | None => 0 end | None => 0 end.

Definition holds (k : Resource) (r : Request) : Z :=
  charge_holds k (rq_charge r) + guard_holds k (rq_work r)
  + match k with Slots => if slot_held r then 1 else 0 | Bytes => pending_bytes (rq_response r) | _ => 0 end.

Section accounts.
Variables limit budget : Z.
Hypothesis limit_u32 : 0 <= limit < 2 ^ 32.
Hypothesis budget_u64 : is_u64 budget.

Definition cap (k : Resource) : Z := match k with Slots | Works => limit | Bytes | WorkBytes => budget end.

(** The counters cover what the charge and the guard hold. *)
Definition covered (sh : Shared) : Prop := forall k, 0 <= shared_holds k sh <= counter k (sh_peer sh) /\ counter k (sh_peer sh) <= cap k.

(** Nobody else's part of the counters changes. *)
Definition settles (sh sh' : Shared) : Prop :=
  covered sh' /\ forall k, counter k (sh_peer sh') - shared_holds k sh' = counter k (sh_peer sh) - shared_holds k sh.

Lemma settles_refl sh : covered sh -> settles sh sh.
Proof. by intros H. Qed.

Lemma settles_trans sh1 sh2 sh3 : settles sh1 sh2 -> settles sh2 sh3 -> settles sh1 sh3.
Proof. intros [_ H1] [H2 H3]. split; [done|]. intros k. rewrite H3. apply H1. Qed.

(** The live charge and its guard. *)
Definition live (sh : Shared) : Prop :=
  ch_refs (sh_charge sh) <> O /\ match sh_work sh with Some w => wg_refs w <> O | None => True end.

(** The same number of holders. *)
Definition same_refs (sh sh' : Shared) : Prop :=
  ch_refs (sh_charge sh') = ch_refs (sh_charge sh) /\ wg_refs <$> sh_work sh' = wg_refs <$> sh_work sh.

Lemma same_refs_trans sh1 sh2 sh3 : same_refs sh1 sh2 -> same_refs sh2 sh3 -> same_refs sh1 sh3.
Proof. intros [? ?] [? ?]. split; congruence. Qed.

Lemma live_same_refs sh sh' : same_refs sh sh' -> live sh -> live sh'.
Proof.
  intros [H1 H2] [H3 H4]. split; [congruence|].
  destruct (sh_work sh) as [w|], (sh_work sh') as [w'|]; cbn in H2; try discriminate; [|done]. by injection H2 as ->.
Qed.

Lemma settles_intro sh sh' :
  covered sh ->
  (forall k, 0 <= shared_holds k sh' /\ counter k (sh_peer sh') <= cap k
     /\ counter k (sh_peer sh') - shared_holds k sh' = counter k (sh_peer sh) - shared_holds k sh) ->
  settles sh sh'.
Proof. intros Hc H. split; intros k; specialize (H k); [|lia]. specialize (Hc k). lia. Qed.

Lemma guard_holds_no_bytes w : guard_holds Bytes w = 0 /\ guard_holds Slots w = 0.
Proof. destruct w as [w|]; cbn; [destruct (wg_refs w =? 0)%nat|]; done. Qed.

(** One counter at a time. *)
#[local] Ltac account :=
  match goal with
  | H : covered ?sh |- _ =>
      apply settles_intro; [exact H|]; let k := fresh "k" in intros k;
      pose proof (H Slots); pose proof (H Bytes); pose proof (H Works); pose proof (H WorkBytes); clear H;
      pose proof (guard_holds_no_bytes (sh_work sh)); unfold shared_holds, is_u64, cap in *; destruct k; cbn in *
  end.

Lemma try_reserve_cases b bytes lim :
  (exists b', try_reserve b bytes lim = (true, b') /\ bb_reserved b' = bb_reserved b + bytes /\ bb_reserved b + bytes <= lim)
  \/ try_reserve b bytes lim = (false, b).
Proof.
  unfold try_reserve. destruct ((bb_reserved b + bytes <=? u64_max) && (bb_reserved b + bytes <=? lim)) eqn:E; [left|by right].
  eexists. split_and!; [done|done|lia].
Qed.

(** Only the refusals are counted. *)
Lemma covered_peer sh p : (forall k, counter k p = counter k (sh_peer sh)) -> covered sh -> settles sh (set_peer p sh).
Proof.
  intros Hp Hc. split; intros k; cbn; rewrite Hp; [apply Hc|done].
Qed.

Lemma charge_reserve_settles bytes sh ok sh' :
  0 <= bytes -> covered sh -> live sh -> charge_reserve budget bytes sh = (ok, sh') ->
  settles sh sh' /\ same_refs sh sh'
  /\ ch_reserved (sh_charge sh) + (if ok then bytes else 0) <= ch_reserved (sh_charge sh').
Proof.
  intros Hb Hc Hl. unfold charge_reserve.
  destruct (try_reserve_cases (request_bytes (sh_peer sh)) bytes budget) as [(b & -> & Hr & Hlim)| ->].
  2:{ intros [= <- <-]. split; [apply covered_peer; [by intros []|done]|]. split; [done|cbn; lia]. }
  destruct sh as [p [res refs] w], Hl as [Hrefs Hw]. cbn in *. apply Nat.eqb_neq in Hrefs.
  assert (wadd res bytes = res + bytes) as Hres.
  { pose proof (Hc Bytes) as HB. unfold shared_holds, is_u64 in *. cbn in HB. rewrite Hrefs in HB.
    apply wadd_small. unfold is_u64. destruct w as [w|]; cbn in HB; [destruct (wg_refs w =? 0)%nat|]; lia. }
  destruct w as [w|]; cbn in *.
  - apply Nat.eqb_neq in Hw. unfold work_reserve. cbn.
    assert (0 <= wg_reserved w <= bb_reserved (work_bytes p)) as HW.
    { pose proof (Hc WorkBytes) as HB. unfold shared_holds in HB. cbn in HB. rewrite Hw in HB. lia. }
    destruct (try_reserve_cases (work_bytes p) bytes budget) as [(b2 & -> & Hr2 & Hlim2)| ->]; intros [= <- <-];
      (split; [account; rewrite ?Hrefs, ?Hw, ?Hr, ?Hr2, ?Hres in *; try lia|split; [done|cbn; lia]]).
    all: rewrite wadd_small in *; unfold is_u64 in *; lia.
  - intros [= <- <-]. split; [account; rewrite ?Hrefs, ?Hr, ?Hres in *; lia|split; [done|cbn; lia]].
Qed.

(** What a live charge holds is covered by the counter. *)
Lemma charge_covered sh :
  covered sh -> live sh -> 0 <= ch_reserved (sh_charge sh) <= bb_reserved (request_bytes (sh_peer sh))
    /\ bb_reserved (request_bytes (sh_peer sh)) <= budget.
Proof.
  intros Hc [Hl _]. apply Nat.eqb_neq in Hl. pose proof (Hc Bytes) as HB. unfold shared_holds in HB. cbn in HB. rewrite Hl in HB.
  destruct (sh_work sh) as [w|]; cbn in HB; [destruct (wg_refs w =? 0)%nat|]; lia.
Qed.

Lemma charge_release_settles bytes sh :
  0 <= bytes <= ch_reserved (sh_charge sh) -> covered sh -> live sh ->
  settles sh (charge_release bytes sh) /\ same_refs sh (charge_release bytes sh)
  /\ ch_reserved (sh_charge (charge_release bytes sh)) = ch_reserved (sh_charge sh) - bytes.
Proof.
  intros Hb Hc Hl. pose proof (charge_covered sh Hc Hl) as HB. destruct Hl as [Hrefs _]. apply Nat.eqb_neq in Hrefs.
  assert (wsub (ch_reserved (sh_charge sh)) bytes = ch_reserved (sh_charge sh) - bytes) as H1
    by (apply wsub_small; unfold is_u64 in *; lia).
  assert (wsub (bb_reserved (request_bytes (sh_peer sh))) bytes = bb_reserved (request_bytes (sh_peer sh)) - bytes) as H2
    by (apply wsub_small; unfold is_u64 in *; lia).
  split; [|done]. account; rewrite ?Hrefs, ?H1, ?H2 in *; lia.
Qed.

Lemma drop_work_settles sh :
  covered sh -> match sh_work sh with Some w => wg_refs w <> O | None => True end ->
  settles sh (drop_work sh) /\ sh_charge (drop_work sh) = sh_charge sh
  /\ wg_refs <$> sh_work (drop_work sh) = pred ∘ wg_refs <$> sh_work sh.
Proof.
  intros Hc Hl. unfold drop_work. destruct sh as [p c [w|]]; cbn in *; [|done]. apply Nat.eqb_neq in Hl.
  pose proof (Hc Works) as HW. pose proof (Hc WorkBytes) as HWB. unfold shared_holds in HW, HWB. cbn in HW, HWB.
  rewrite Hl in HW, HWB. unfold is_u64 in *.
  assert (wsub (bb_reserved (work_bytes p)) (wg_reserved w) = bb_reserved (work_bytes p) - wg_reserved w) as H1
    by (apply wsub_small; unfold is_u64; lia).
  assert (wrap32 (pe_work_inflight p - 1) = pe_work_inflight p - 1) as H2 by (apply Z.mod_small; lia).
  split; [|done].
  destruct (pred (wg_refs w) =? 0)%nat eqn:E; account; rewrite ?E, ?Hl, ?H1, ?H2 in *; lia.
Qed.

Lemma drop_charge_settles sh :
  covered sh -> live sh ->
  settles sh (drop_charge sh)
  /\ ch_refs (sh_charge (drop_charge sh)) = pred (ch_refs (sh_charge sh))
  /\ ch_reserved (sh_charge (drop_charge sh)) = ch_reserved (sh_charge sh)
  /\ wg_refs <$> sh_work (drop_charge sh)
     = (if (pred (ch_refs (sh_charge sh)) =? 0)%nat then pred else id) ∘ wg_refs <$> sh_work sh.
Proof.
  intros Hc Hl. pose proof (charge_covered sh Hc Hl) as HB. destruct Hl as [Hrefs Hw]. apply Nat.eqb_neq in Hrefs.
  unfold drop_charge. destruct (pred (ch_refs (sh_charge sh)) =? 0)%nat eqn:E.
  - set (sh1 := set_peer _ _). assert (settles sh sh1) as Hs1.
    { assert (wsub (bb_reserved (request_bytes (sh_peer sh))) (ch_reserved (sh_charge sh))
        = bb_reserved (request_bytes (sh_peer sh)) - ch_reserved (sh_charge sh)) as H1
        by (apply wsub_small; unfold is_u64 in *; lia).
      subst sh1. account; rewrite ?E, ?Hrefs, ?H1 in *; lia. }
    destruct (drop_work_settles sh1 (proj1 Hs1) Hw) as (Hs2 & -> & ->). split; [by eapply settles_trans|done].
  - split; [|done]. account; rewrite ?E, ?Hrefs in *; lia.
Qed.

(** ** The body of a request *)

(** The charge holds the message that is read and those that are not yet released. *)
Definition sound (s : LimitedBody * Shared) : Prop :=
  covered s.2 /\ live s.2 /\ 0 <= lb_current s.1 /\ 0 <= lb_completed s.1
  /\ lb_current s.1 + lb_completed s.1 <= ch_reserved (sh_charge s.2).

Definition carried (s s' : LimitedBody * Shared) : Prop := sound s' /\ settles s.2 s'.2 /\ same_refs s.2 s'.2.

Lemma carried_refl s : sound s -> carried s s.
Proof. intros Hs. split; [done|]. split; [apply settles_refl, Hs|done]. Qed.

Lemma carried_trans s1 s2 s3 : carried s1 s2 -> carried s2 s3 -> carried s1 s3.
Proof. intros (_ & H1 & H2) (H3 & H4 & H5). split; [done|]. split; [by eapply settles_trans|by eapply same_refs_trans]. Qed.

(** Nothing but the body itself changes. *)
Lemma carried_body b b' sh :
  sound (b, sh) -> 0 <= lb_current b' -> 0 <= lb_completed b' ->
  lb_current b' + lb_completed b' <= lb_current b + lb_completed b -> carried (b, sh) (b', sh).
Proof.
  intros (Hc & Hl & ? & ? & ?) ? ? ?. cbn in *. split; [repeat (split; [done|]); cbn; lia|].
  split; [by apply settles_refl|done].
Qed.

Lemma carried_peer b sh p :
  sound (b, sh) -> (forall k, counter k p = counter k (sh_peer sh)) -> carried (b, sh) (b, set_peer p sh).
Proof.
  intros (Hc & Hl & Hb) Hp. pose proof (covered_peer sh p Hp Hc) as Hs. split; [|by split].
  split; [apply Hs|by split].
Qed.

Definition keeps {A} (m : M (LimitedBody * Shared) Status A) : Prop :=
  forall s r s', sound s -> m s = (r, s') -> carried s s'.

Lemma holds_bind {A C} (m : M (LimitedBody * Shared) Status A) (f : A -> M (LimitedBody * Shared) Status C) :
  keeps m -> (forall a, keeps (f a)) -> keeps (m ≫= f).
Proof.
  intros Hm Hf s r s' Hs. unfold mbind, M_bind. destruct (m s) as [[a|e|] s1] eqn:E;
    pose proof (Hm _ _ _ Hs E) as H1; [|by intros [= <- <-]..].
  intros E2. eapply carried_trans; [done|]. eapply Hf; [apply H1|done].
Qed.

Lemma keeps_outcome {A} (o : outcome Status A) : keeps (of_outcome o).
Proof. intros s r s' Hs [= <- <-]. by apply carried_refl. Qed.

Lemma holds_read {A} (f : LimitedBody * Shared -> A) : keeps (read f).
Proof. intros s r s' Hs [= <- <-]. by apply carried_refl. Qed.

Lemma keeps_modify f : (forall s, sound s -> carried s (f s)) -> keeps (modify f).
Proof. intros Hf s r s' Hs [= <- <-]. by apply Hf. Qed.

Lemma complete_carried b sh : sound (b, sh) -> carried (b, sh) (message_complete b, sh).
Proof.
  intros Hs. pose proof Hs as (Hc & Hl & H1 & H2 & H3). cbn in *. pose proof (charge_covered sh Hc Hl). unfold is_u64 in *.
  unfold message_complete. destruct (lb_single_message b); apply carried_body; cbn; try rewrite wadd_small by (unfold is_u64; lia); done || lia.
Qed.

Lemma set_state_carried b sh st : sound (b, sh) -> carried (b, sh) (set_state st b, sh).
Proof. intros Hs. apply carried_body; [done|apply Hs|apply Hs|done]. Qed.

Lemma keeps_admit len : 0 <= len -> keeps (body_admit budget len).
Proof.
  intros Hlen. unfold body_admit. apply holds_bind; [apply holds_read|]. intros lim.
  destruct (lim <? len).
  { apply holds_bind; [|intros; apply keeps_outcome]. apply keeps_modify. intros [b sh] Hs.
    apply carried_peer; [done|by intros []]. }
  intros s r s' Hs. unfold mbind, M_bind. destruct s as [b sh]. cbn [fst snd].
  destruct (charge_reserve budget (PREFIX_LEN + len) sh) as [ok sh1] eqn:E.
  pose proof Hs as (Hc & Hl & H1 & H2 & H3). cbn in H1, H2, H3.
  apply charge_reserve_settles in E as (Hset & Hrefs & Hres); [|unfold PREFIX_LEN; lia|done|done].
  pose proof (live_same_refs _ _ Hrefs Hl) as Hl1. pose proof (charge_covered sh1 (proj1 Hset) Hl1).
  destruct ok; cbn [negb].
  2:{ intros [= <- <-]. split; [|done]. split; [apply Hset|]. split; [done|]. cbn. lia. }
  set (b1 := mkBody (lb_limit b) (lb_single_message b) (PREFIX_LEN + len) (lb_completed b) (Message len)). assert (carried (b, sh) (b1, sh1)) as Hb1.
  { split; [|done]. split; [apply Hset|]. split; [done|]. subst b1. unfold PREFIX_LEN in *. cbn. lia. }
  intros [= <- <-]. destruct (len =? 0); [|done].
  eapply carried_trans; [done|]. apply complete_carried, Hb1.
Qed.

Lemma be32_nonneg bytes : 0 <= be32 bytes.
Proof. apply Z.mod_pos_bound. lia. Qed.

Lemma keeps_forward fuel : forall data consumed, keeps (forward_from fuel budget data consumed).
Proof.
  induction fuel as [|fuel IH]; intros [|x data] consumed; try apply keeps_outcome. cbn [forward_from].
  apply holds_bind; [apply holds_read|]. intros [bytes|remaining| |]; try apply keeps_outcome.
  - apply holds_bind; [apply keeps_modify; intros [b sh] Hs; by apply set_state_carried|]. intros _.
    apply holds_bind; [|intros; apply IH].
    destruct (_ =? _)%nat; [apply keeps_admit, be32_nonneg|apply keeps_outcome].
  - apply holds_bind; [|intros; apply IH]. apply keeps_modify. intros [b sh] Hs.
    pose proof (set_state_carried b sh (Message (remaining - Z.min (Z.of_nat (length (x :: data))) remaining)) Hs) as H1.
    destruct (_ =? 0); [|done]. eapply carried_trans; [done|]. apply complete_carried, H1.
Qed.

Lemma poll_from_carried elapsed inner : forall b sh polled rest s',
  sound (b, sh) -> poll_from budget elapsed inner b sh = (polled, rest, s') -> carried (b, sh) s'.
Proof.
  induction inner as [|i inner IH]; intros b sh polled rest s' Hs; cbn [poll_from].
  - destruct (lb_state b), elapsed; intros [= <- <- <-]; apply carried_refl || apply set_state_carried; done.
  - assert (forall data q, i = IFrame (Data data) ->
      match forwardable budget data (b, sh) with
      | (Ok n, (b, sh)) =>
          if n =? 0 then poll_from budget elapsed inner b sh else (Ready (Data (firstn (Z.to_nat n) data)), inner, (b, sh))
      | (Err status, (b, sh)) => (FailedWith status, inner, (set_state Done b, sh))
      | (Panic, s) => (FailedFuel, inner, s)
      end = (q, rest, s') -> carried (b, sh) s') as Hdata.
    { intros data q _. destruct (forwardable budget data (b, sh)) as [r [b1 sh1]] eqn:E.
      apply keeps_forward in E; [|done]. destruct r as [n|e|].
      - destruct (n =? 0); [|by intros [= _ <- <-]]. intros E2. eapply carried_trans; [done|]. eapply IH; [apply E|done].
      - intros [= _ <- <-]. eapply carried_trans; [done|]. apply set_state_carried, E.
      - by intros [= _ <- <-]. }
    destruct (lb_state b) as [bytes|remaining| |].
    1,2: destruct i as [[data|]| |]; [by apply Hdata|intros [= <- <- <-]; apply carried_refl || apply set_state_carried; done..].
    + destruct (empty_data i); [by apply IH|]. intros [= <- <- <-]. by apply set_state_carried.
    + intros [= <- <- <-]. by apply carried_refl.
Qed.

Lemma body_poll_carried elapsed inner b sh polled rest s' :
  sound (b, sh) -> body_poll budget elapsed inner b sh = (polled, rest, s') -> carried (b, sh) s'.
Proof.
  intros Hs E. pose proof Hs as (Hc & Hl & H1 & H2 & H3). cbn in *.
  destruct (charge_release_settles (lb_completed b) sh) as (Hset & Hrefs & Hres); [lia|done|done|].
  assert (sound (mkBody (lb_limit b) (lb_single_message b) (lb_current b) 0 (lb_state b), charge_release (lb_completed b) sh)) as Hs1.
  { split; [apply Hset|]. split; [by eapply live_same_refs|]. cbn [fst snd lb_current lb_completed]. lia. }
  apply poll_from_carried in E; [|done]. destruct E as (Hs2 & Hset2 & Hrefs2).
  split; [done|]. split; [by eapply settles_trans|by eapply same_refs_trans].
Qed.

(** ** The body of a response *)

(** A frame is held by its response, and by nothing else. *)
Definition responds (g : Guarded) (p : Peer) (g' : Guarded) (p' : Peer) : Prop :=
  gu_budget g' = gu_budget g
  /\ counter Bytes p' - pending_bytes (Some g') = counter Bytes p - pending_bytes (Some g)
  /\ counter Bytes p' <= budget /\ forall k, k <> Bytes -> counter k p' = counter k p.

Lemma pending_nonneg g : 0 <= pending_bytes g.
Proof. destruct g as [[gb [[frame sent]|] d]|]; cbn; lia. Qed.

Lemma guarded_release_responds g p g' p' :
  pending_bytes (Some g) <= counter Bytes p <= budget -> guarded_release g p = (g', p') ->
  responds g p g' p' /\ gu_pending g' = None /\ gu_done g' = gu_done g.
Proof.
  intros Hp. unfold guarded_release. destruct g as [gb [[frame sent]|] d]; cbn in *; intros [= <- <-]; cbn.
  - unfold is_u64 in *. split; [|done]. split; [done|]. cbn. rewrite wsub_small by (unfold is_u64; lia).
    split; [lia|]. split; [lia|]. by intros [].
  - split; [|done]. split; [done|]. cbn. split; [lia|]. split; [lia|done].
Qed.

Lemma guarded_poll_responds inner : forall g p polled rest g' p',
  (forall b, gu_budget g = Some b -> b = budget) ->
  pending_bytes (Some g) <= counter Bytes p <= budget ->
  guarded_poll inner g p = (polled, rest, (g', p')) -> responds g p g' p'.
Proof.
  induction inner as [|i inner IH]; intros g p polled rest g' p' Hb Hp; cbn [guarded_poll];
    destruct (guarded_release g p) as [g1 p1] eqn:E1;
    destruct (guarded_release_responds _ _ _ _ Hp E1) as ((Hb1 & Hc1 & Hle1 & Ho1) & Hn1 & Hd1);
    (assert (pending_bytes (Some g1) = 0) as Hz1 by (cbn; by rewrite Hn1));
    match goal with |- context [match gu_pending g with Some _ => _ | None => ?n end] => set (next := n) end;
    (assert (next = (polled, rest, (g', p')) -> responds g p g' p') as Hnext;
     [subst next|destruct (gu_pending g) as [[frame sent]|] eqn:Eg; [|done];
      destruct (_ <? _)%nat; [intros [= _ _ <- <-]; split; [done|]; cbn in Hp |- *; rewrite Eg in Hp |- *; split; [lia|]; split; [lia|done]|done]]).
  - destruct (gu_done g1); intros [= <- <- <- <-]; by split.
  - destruct (gu_done g1); [intros [= <- <- <- <-]; by split|].
    destruct i as [f| |]; [|intros [= <- <- <- <-]; by split; cbn in *..].
    destruct (gu_budget g1) as [lim|] eqn:Elim, f as [data|]; [|intros [= <- <- <- <-]; split; [congruence|done]..].
    assert (lim = budget) as -> by (apply Hb; congruence).
    destruct (try_reserve_cases (request_bytes p1) (Z.of_nat (length data)) budget) as [(b & -> & Hr & Hlim)| ->].
    + intros E2. apply IH in E2 as (Hb2 & Hc2 & Hle2 & Ho2); cbn in *; [|by intros ? [= ->]|lia].
      split; [congruence|]. split; [cbn in *; lia|]. split; [done|]. intros k Hk. rewrite (Ho2 k Hk), <- (Ho1 k Hk). by destruct k.
    + intros [= <- <- <- <-]. split; [cbn; congruence|]. split; [cbn in *; rewrite Hn1 in *; lia|]. split; [done|].
      intros k Hk. rewrite <- (Ho1 k Hk). by destruct k.
Qed.
End accounts.
