(* ===== verification/PeerLimitTheorems.v ===== *)
(** * The limiter keeps its books

    From the steps of one request to all requests of all peers. *)

From stdpp Require Import strings gmap fin_maps.
From S2P Require Import PeerLimit PeerLimitProofs Prelude.

Section requests.
Context (limit budget : Z) (limit_u32 : 0 <= limit < 2 ^ 32) (budget_u64 : is_u64 budget).

#[local] Abbreviation cap := (cap limit budget).
#[local] Abbreviation settles := (settles limit budget).
#[local] Abbreviation covered := (covered limit budget).

Definition count_of (b : bool) : nat := if b then 1 else 0.

(** Each [Arc] is counted once per holder. *)
Record req_wf (r : Request) : Prop := {
  wf_charge : ch_refs (rq_charge r) = (count_of (rq_running r) + count_of (bool_decide (is_Some (rq_body r))))%nat;
  wf_work : match rq_work r with
            | Some w => wg_refs w = (count_of (negb (ch_refs (rq_charge r) =? 0)%nat) + count_of (rq_running r) + rq_jobs r)%nat
            | None => rq_jobs r = O
            end;
  wf_body : match rq_body r with
            | Some b => 0 <= lb_current b /\ 0 <= lb_completed b /\ lb_current b + lb_completed b <= ch_reserved (rq_charge r)
            | None => True
            end;
  wf_response : match rq_response r with
                | Some g => rq_running r = false /\ forall b, gu_budget g = Some b -> b = budget
                | None => True
                end;
  wf_holds : forall k, 0 <= charge_holds k (rq_charge r) + guard_holds k (rq_work r);
}.

Definition extra (k : Resource) (r : Request) : Z :=
  match k with Slots => if slot_held r then 1 else 0 | Bytes => pending_bytes (rq_response r) | _ => 0 end.

Lemma extra_nonneg k r : 0 <= extra k r.
Proof. destruct k; cbn; [destruct (slot_held r)| |..]; try lia. apply pending_nonneg. Qed.

(** The counters of the peer cover the request. *)
Definition backed (p : Peer) (r : Request) : Prop := forall k, holds k r <= counter k p <= cap k.

(** A step moves the counters by what the request takes or gives back. *)
Definition moved (p : Peer) (r : Request) (p' : Peer) (r' : Request) : Prop :=
  forall k, counter k p' = counter k p - holds k r + holds k r' /\ counter k p' <= cap k.

Lemma moved_refl p r : backed p r -> moved p r p r.
Proof. intros Hb k. specialize (Hb k). lia. Qed.

Lemma backed_covered p r : req_wf r -> backed p r -> covered (shared_of p r).
Proof.
  intros Hwf Hb k. pose proof (wf_holds r Hwf k). specialize (Hb k). pose proof (extra_nonneg k r).
  unfold shared_holds, holds in *. fold (extra k r) in Hb. cbn. lia.
Qed.

(** The charge or the guard changes. *)
Lemma moved_settled p r sh' r' :
  settles (shared_of p r) sh' -> rq_charge r' = sh_charge sh' -> rq_work r' = sh_work sh' ->
  (forall k, extra k r' = extra k r) -> moved p r (sh_peer sh') r'.
Proof.
  intros [Hc Hs] E1 E2 E3 k. specialize (Hs k). destruct (Hc k) as [_ Hle]. split; [|done].
  specialize (E3 k). unfold extra in E3. unfold holds, shared_holds in *. rewrite E1, E2. cbn in *. lia.
Qed.

(** Afterwards, the slot goes. *)
Lemma moved_slot p r p' r' r'' :
  moved p r p' r' -> rq_charge r'' = rq_charge r' -> rq_work r'' = rq_work r' ->
  slot_held r' = true -> slot_held r'' = false -> pending_bytes (rq_response r') = pending_bytes (rq_response r'') ->
  0 < counter Slots p' -> moved p r (slot_drop p') r''.
Proof.
  intros Hm E1 E2 E3 E4 E5 Hpos k. destruct (Hm k) as [Hk Hle]. unfold holds in *. rewrite E1, E2.
  assert (counter Slots p' <= limit) as Hs by apply (Hm Slots). cbn in Hs, Hpos.
  destruct k; cbn in *; rewrite ?E3, ?E4, ?E5 in *; try (split; lia).
  unfold wrap32. rewrite Z.mod_small by lia. split; lia.
Qed.

Lemma settled_holds sh' : covered sh' -> forall k, 0 <= charge_holds k (sh_charge sh') + guard_holds k (sh_work sh').
Proof. intros Hc k. apply Hc. Qed.

(** A request with a body, or with a running handler, has a live charge; with a running handler
    or a job, a live guard. *)
Lemma wf_live p r : req_wf r -> ch_refs (rq_charge r) <> O -> live (shared_of p r).
Proof.
  intros Hwf Hc. split; [done|]. pose proof (wf_work r Hwf) as Hw. cbn. destruct (rq_work r) as [w|]; [|done].
  apply Nat.eqb_neq in Hc. rewrite Hc in Hw. cbn in Hw. lia.
Qed.

(** The guard after a step, from the number of its holders. *)
Lemma wf_work_after (w w' : option MpcWorkGuard) f n jobs :
  wg_refs <$> w' = f ∘ wg_refs <$> w -> (forall v, w = Some v -> f (wg_refs v) = n) -> (w = None -> jobs = O) ->
  match w' with Some v => wg_refs v = n | None => jobs = O end.
Proof. destruct w as [v|], w' as [v'|]; intros [=] H1 H2; auto. specialize (H1 v eq_refl). cbn in *. congruence. Qed.

Lemma wf_work_jobs r : req_wf r -> rq_work r = None -> rq_jobs r = O.
Proof. intros Hwf E. pose proof (wf_work r Hwf) as Hw. by rewrite E in Hw. Qed.

Definition kept (p : Peer) (r : Request) (p' : Peer) (r' : Request) : Prop :=
  rq_address r' = rq_address r /\ req_wf r' /\ moved p r p' r'.

Lemma held_refl p r : req_wf r -> backed p r -> kept p r p r.
Proof. intros. split; [done|]. split; [done|]. by apply moved_refl. Qed.

Lemma poll_body_kept p r b elapsed inner polled rest b' sh' :
  req_wf r -> backed p r -> rq_body r = Some b ->
  body_poll budget elapsed inner b (shared_of p r) = (polled, rest, (b', sh')) ->
  kept p r (sh_peer sh')
    (mkRequest (rq_address r) (sh_charge sh') (sh_work sh') (rq_running r) (Some b') (rq_jobs r) (rq_response r)).
Proof.
  intros Hwf Hb Eb E. pose proof (wf_charge r Hwf) as Hch. rewrite Eb in Hch. cbn in Hch.
  assert (live (shared_of p r)) as Hl by (apply wf_live; [done|lia]).
  apply (body_poll_carried limit budget budget_u64) in E as ((Hc' & _ & H1 & H2 & H3) & Hset & [Hr1 Hr2]).
  2:{ split; [by apply backed_covered|]. split; [done|]. pose proof (wf_body r Hwf) as Hbody. by rewrite Eb in Hbody. }
  cbn in *. split; [done|]. split; [|apply moved_settled; try done; intros []; done].
  split; cbn; [congruence| |done|apply Hwf|apply Hc'].
  rewrite Hr1. eapply (wf_work_after (rq_work r) _ id); [done| |by apply wf_work_jobs].
  intros v Ev. pose proof (wf_work r Hwf) as Hw. by rewrite Ev in Hw.
Qed.

Lemma drop_body_kept p r b :
  req_wf r -> backed p r -> rq_body r = Some b ->
  let sh' := drop_charge (shared_of p r) in
  kept p r (sh_peer sh')
    (mkRequest (rq_address r) (sh_charge sh') (sh_work sh') (rq_running r) None (rq_jobs r) (rq_response r)).
Proof.
  intros Hwf Hb Eb sh'. pose proof (wf_charge r Hwf) as Hch. rewrite Eb in Hch. cbn in Hch.
  assert (live (shared_of p r)) as Hl by (apply wf_live; [done|lia]).
  destruct (drop_charge_settles limit budget limit_u32 budget_u64 (shared_of p r) (backed_covered _ _ Hwf Hb) Hl) as (Hset & Hr1 & _ & Hr2).
  fold sh' in Hset, Hr1, Hr2. split; [done|]. split; [|apply moved_settled; try done; intros []; done].
  split; cbn in *; [rewrite Hr1; lia| |done|apply Hwf|apply Hset].
  eapply wf_work_after; [exact Hr2| |by apply wf_work_jobs].
  intros v Ev. pose proof (wf_work r Hwf) as Hw. rewrite Ev in Hw. rewrite Hr1, Hch in *. destruct (rq_running r); cbn in *; lia.
Qed.

Lemma spawn_kept p r w :
  req_wf r -> backed p r -> rq_work r = Some w -> rq_running r = true ->
  kept p r p (mkRequest (rq_address r) (rq_charge r) (Some (mkGuard (wg_reserved w) (S (wg_refs w)))) true (rq_body r) (S (rq_jobs r)) (rq_response r)).
Proof.
  intros Hwf Hb Ew Er. pose proof (wf_work r Hwf) as Hw. rewrite Ew, Er in Hw. cbn in Hw.
  pose proof (wf_charge r Hwf) as Hch. rewrite Er in Hch. cbn in Hch.
  assert (forall k, guard_holds k (Some (mkGuard (wg_reserved w) (S (wg_refs w)))) = guard_holds k (Some w)) as Eg.
  { intros k. unfold guard_holds. cbn. destruct (wg_refs w) eqn:?; [lia|done]. }
  split; [done|]. split.
  - split; cbn; rewrite ?Er; [done|lia|apply Hwf| |].
    + pose proof (wf_response r Hwf) as Hresp. by rewrite Er in Hresp.
    + intros k. pose proof (wf_holds r Hwf k) as Hh. rewrite Ew in Hh. by rewrite <- Eg in Hh.
  - intros k. pose proof (moved_refl p r Hb k) as Hm. unfold holds, slot_held in *. cbn. rewrite Er, Ew, <- Eg in *. cbn in *. lia.
Qed.

Lemma job_done_kept p r jobs :
  req_wf r -> backed p r -> rq_jobs r = S jobs ->
  let sh' := drop_work (shared_of p r) in
  kept p r (sh_peer sh')
    (mkRequest (rq_address r) (sh_charge sh') (sh_work sh') (rq_running r) (rq_body r) jobs (rq_response r)).
Proof.
  intros Hwf Hb Ej sh'. pose proof (wf_work r Hwf) as Hw. rewrite Ej in Hw.
  destruct (drop_work_settles limit budget limit_u32 budget_u64 (shared_of p r) (backed_covered _ _ Hwf Hb)) as (Hset & Hr1 & Hr2).
  { cbn. destruct (rq_work r); [lia|done]. }
  fold sh' in Hset, Hr1, Hr2. cbn in Hr1, Hr2. split; [done|]. split; [|apply moved_settled; try done; intros []; done].
  split; cbn; rewrite ?Hr1; [apply Hwf| |apply Hwf|apply Hwf|rewrite <- Hr1; apply Hset].
  eapply wf_work_after; [exact Hr2| |]; destruct (rq_work r) as [w|]; try done. intros v [= <-]. lia.
Qed.

(** The middleware lets go of the guard and of the charge. *)
Lemma handler_done_kept p r :
  req_wf r -> backed p r -> rq_running r = true ->
  let sh' := drop_charge (drop_work (shared_of p r)) in
  forall g, (forall b, gu_budget g = Some b -> b = budget) -> gu_pending g = None ->
  kept p r (sh_peer sh')
    (mkRequest (rq_address r) (sh_charge sh') (sh_work sh') false (rq_body r) (rq_jobs r) (Some g)).
Proof.
  intros Hwf Hb Er sh' g Hg Hn. pose proof (wf_charge r Hwf) as Hch. pose proof (wf_work r Hwf) as Hw.
  rewrite Er in Hch, Hw. cbn in Hch, Hw. pose proof (wf_response r Hwf) as Hresp. rewrite Er in Hresp.
  assert (rq_response r = None) as Hnone by (destruct (rq_response r); [by destruct Hresp|done]).
  destruct (drop_work_settles limit budget limit_u32 budget_u64 (shared_of p r) (backed_covered _ _ Hwf Hb)) as (Hset & Hr1 & Hr2).
  { cbn. destruct (rq_work r); [lia|done]. }
  set (sh1 := drop_work (shared_of p r)) in *. cbn in Hr1, Hr2.
  destruct (drop_charge_settles limit budget limit_u32 budget_u64 sh1 (proj1 Hset)) as (Hset2 & Hr3 & Hr4 & Hr5).
  { split; [rewrite Hr1; lia|]. eapply (wf_work_after _ _ _ (S (pred 1 + rq_jobs r)) (rq_jobs r)) in Hr2.
    - destruct (sh_work sh1); [lia|done].
    - intros v Ev. rewrite Ev, Hch in Hw. cbn in Hw. lia.
    - by apply wf_work_jobs. }
  fold sh' in Hset2, Hr3, Hr4, Hr5. rewrite Hr1 in Hr3, Hr4, Hr5. rewrite option_fmap_compose, Hr2 in Hr5.
  split; [done|]. split.
  - split; cbn; [rewrite Hr3; lia| |rewrite Hr4; apply Hwf|done|apply Hset2].
    eapply (wf_work_after (rq_work r) _ (_ ∘ pred)); [rewrite Hr5; by destruct (rq_work r)| |by apply wf_work_jobs].
    intros v Ev. rewrite Ev in Hw. rewrite Hr3, Hch in *. destruct (rq_body r); cbn in *; lia.
  - eapply moved_settled; [by eapply settles_trans|done|done|]. intros []; cbn; try done.
    + unfold slot_held. cbn. by rewrite Er.
    + by rewrite Hn, Hnone.
Qed.

Lemma moved_slots_pos p r p' r' : moved p r p' r' -> backed p r -> slot_held r' = true -> 0 < counter Slots p'.
Proof.
  intros Hm Hb Hs. destruct (Hm Slots) as [-> _]. specialize (Hb Slots). unfold holds in *.
  pose proof (guard_holds_no_bytes (rq_work r')) as [_ Hg]. rewrite Hs, Hg in *. cbn in *. lia.
Qed.

Lemma cancel_kept p r :
  req_wf r -> backed p r -> rq_running r = true ->
  let sh' := drop_charge (drop_work (shared_of p r)) in
  kept p r (slot_drop (sh_peer sh')) (mkRequest (rq_address r) (sh_charge sh') (sh_work sh') false (rq_body r) (rq_jobs r) None).
Proof.
  intros Hwf Hb Er sh'.
  destruct (handler_done_kept p r Hwf Hb Er (guarded_new None)) as (Ha & Hwf' & Hm); [done|done|]. fold sh' in Ha, Hwf', Hm.
  split; [done|]. split; [destruct Hwf'; by split|].
  eapply moved_slot; [exact Hm|done..|]. by eapply moved_slots_pos.
Qed.

(** The response changes, and no more. *)
Lemma respond_moved p r g p' g' :
  req_wf r -> backed p r -> rq_response r = Some g -> responds budget g p g' p' ->
  kept p r p' (mkRequest (rq_address r) (rq_charge r) (rq_work r) (rq_running r) (rq_body r) (rq_jobs r) (Some g')).
Proof.
  intros Hwf Hb Eg (Hbud & Hbytes & Hle & Ho). split; [done|]. split.
  - destruct Hwf as [H1 H2 H3 H4 H5]. rewrite Eg in H4. split; try done. cbn. by rewrite Hbud.
  - intros k. specialize (Hb k). unfold holds in *. unfold slot_held in *. rewrite Eg in *. cbn [rq_charge rq_work rq_running rq_response] in *.
    destruct k; [rewrite Ho by done|split; [|done]|rewrite Ho by done|rewrite Ho by done]; try lia.
    split; [|lia]. case_bool_decide; [|naive_solver]. case_bool_decide; [lia|naive_solver].
Qed.

Lemma response_backed p r g : req_wf r -> backed p r -> rq_response r = Some g -> pending_bytes (Some g) <= counter Bytes p <= budget.
Proof.
  intros Hwf Hb Eg. specialize (Hb Bytes). pose proof (wf_holds r Hwf Bytes). unfold holds in Hb. rewrite Eg in Hb. cbn in *. lia.
Qed.

Lemma request_step_kept e p r out p' r' :
  req_wf r -> backed p r -> request_step budget e p r = (out, (p', r')) -> kept p r p' r'.
Proof.
  intros Hwf Hb. destruct e as [id address path|id elapsed inner|id|id|id|id grpc|id|id inner|id]; cbn [request_step].
  - intros [= <- <- <-]. by apply held_refl.
  - destruct (rq_body r) as [b|] eqn:Eb; [|intros [= <- <- <-]; by apply held_refl].
    destruct (body_poll _ _ _ _ _) as [[polled rest] [b' sh']] eqn:E. intros [= <- <- <-]. by eapply poll_body_kept.
  - destruct (rq_body r) as [b|] eqn:Eb; intros [= <- <- <-]; [by eapply drop_body_kept|by apply held_refl].
  - destruct (rq_work r) as [w|] eqn:Ew; [|intros [= <- <- <-]; by apply held_refl].
    destruct (rq_running r) eqn:Er; intros [= <- <- <-]; [by apply spawn_kept|by apply held_refl].
  - destruct (rq_jobs r) as [|jobs] eqn:Ej; intros [= <- <- <-]; [by apply held_refl|by apply job_done_kept].
  - destruct (rq_running r) eqn:Er; intros [= <- <- <-]; [|by apply held_refl].
    apply handler_done_kept; [done..| |done]. intros b. destruct grpc; [by intros [= ->]|done].
  - destruct (rq_running r) eqn:Er; intros [= <- <- <-]; [by apply cancel_kept|by apply held_refl].
  - destruct (rq_response r) as [g|] eqn:Eg; [|intros [= <- <- <-]; by apply held_refl].
    destruct (guarded_poll inner g p) as [[polled rest] [g' p1]] eqn:E. intros [= <- <- <-].
    eapply respond_moved; [done..|]. eapply guarded_poll_responds; [done| | |done].
    + pose proof (wf_response r Hwf) as Hr. rewrite Eg in Hr. apply Hr.
    + by eapply response_backed.
  - destruct (rq_response r) as [g|] eqn:Eg; [|intros [= <- <- <-]; by apply held_refl].
    destruct (guarded_release g p) as [g' p1] eqn:E. intros [= <- <- <-].
    apply (guarded_release_responds budget) in E as (Hresp & Hn & _); [|done|by eapply response_backed].
    destruct (respond_moved p r g p1 g' Hwf Hb Eg Hresp) as (Ha & Hwf' & Hm).
    split; [done|]. split; [destruct Hwf'; by split|].
    pose proof (wf_response r Hwf) as Hr. rewrite Eg in Hr. destruct Hr as [Hrun _].
    assert (slot_held (mkRequest (rq_address r) (rq_charge r) (rq_work r) (rq_running r) (rq_body r) (rq_jobs r) (Some g')) = true) as Hsl
      by (unfold slot_held; cbn; by rewrite orb_true_r).
    eapply moved_slot; [exact Hm|done|done|done| |cbn; by rewrite Hn|by eapply moved_slots_pos].
    unfold slot_held. cbn. by rewrite Hrun.
Qed.

(** ** All requests *)

(** What all requests of a peer hold. *)
Definition part_of (k : Resource) (a : Address) (r : Request) : Z := if decide (rq_address r = a) then holds k r else 0.

Definition requests_hold (k : Resource) (a : Address) (m : gmap Z Request) : Z := map_fold (fun _ r acc => part_of k a r + acc) 0 m.

Lemma requests_hold_insert_new k a m id r : m !! id = None -> requests_hold k a (<[id := r]> m) = part_of k a r + requests_hold k a m.
Proof. intros Hn. apply (map_fold_insert_L (fun _ r acc => part_of k a r + acc)); [intros; lia|done]. Qed.

Lemma requests_hold_lookup k a m id r : m !! id = Some r -> requests_hold k a m = part_of k a r + requests_hold k a (delete id m).
Proof. intros Hl. apply (map_fold_delete_L (fun _ r acc => part_of k a r + acc)); [intros; lia|done]. Qed.

Lemma requests_hold_update k a m id r r' : m !! id = Some r -> requests_hold k a (<[id := r']> m) = requests_hold k a m - part_of k a r + part_of k a r'.
Proof.
  intros Hl. rewrite <- insert_delete_eq, requests_hold_insert_new by apply lookup_delete_eq. rewrite (requests_hold_lookup k a m id r Hl). lia.
Qed.

Lemma holds_nonneg k r : req_wf r -> 0 <= holds k r.
Proof. intros Hwf. pose proof (wf_holds r Hwf k). pose proof (extra_nonneg k r). unfold holds. fold (extra k r). lia. Qed.

Lemma requests_hold_nonneg k a m : (forall id r, m !! id = Some r -> req_wf r) -> 0 <= requests_hold k a m.
Proof.
  induction m as [|id r m Hn IH] using map_ind; intros Hwf; [done|]. rewrite requests_hold_insert_new by done.
  assert (0 <= requests_hold k a m).
  { apply IH. intros id' r' Hl. apply (Hwf id'). rewrite lookup_insert_ne; [done|]. by intros ->; rewrite Hn in Hl. }
  unfold part_of. pose proof (holds_nonneg k r (Hwf id r (lookup_insert_eq _ _ _))). destruct (decide _); lia.
Qed.

(** The counters of each peer are what its requests hold, within the limits. *)
Record books_kept (st : Limiter) : Prop := {
  bk_limit : lm_limit st = limit;
  bk_budget : lm_budget_bytes st = budget;
  bk_wf : forall id r, lm_requests st !! id = Some r -> req_wf r;
  bk_total : forall k a, counter k (peer_of st a) = requests_hold k a (lm_requests st) /\ counter k (peer_of st a) <= cap k;
}.

Lemma books_backed st id r : books_kept st -> lm_requests st !! id = Some r -> backed (peer_of st (rq_address r)) r.
Proof.
  intros Hb Hl k. destruct (bk_total st Hb k (rq_address r)) as [Ht Hle]. split; [|done].
  rewrite Ht, (requests_hold_lookup _ _ _ _ _ Hl). unfold part_of. rewrite decide_True by done.
  assert (0 <= requests_hold k (rq_address r) (delete id (lm_requests st))); [|lia].
  apply requests_hold_nonneg. intros id' r' [_ Hl']%lookup_delete_Some. by eapply bk_wf.
Qed.

Lemma peer_of_put st id a p r a' : peer_of (put id a p r st) a' = if decide (a = a') then p else peer_of st a'.
Proof. unfold peer_of, put. cbn. destruct (decide (a = a')) as [->|]; [by rewrite lookup_insert_eq|by rewrite lookup_insert_ne]. Qed.

(** One request of one peer changes, or a new one comes. *)
Lemma books_update st id r p' r' :
  books_kept st -> lm_requests st !! id = Some r -> kept (peer_of st (rq_address r)) r p' r' ->
  books_kept (put id (rq_address r) p' (Some r') st).
Proof.
  intros Hb Hl (Ha & Hwf & Hm). split; [apply Hb|apply Hb| |]; cbn.
  - intros id' r1. destruct (decide (id = id')) as [<-|]; [rewrite lookup_insert_eq; by intros [= <-]|].
    rewrite lookup_insert_ne by done. by apply bk_wf.
  - intros k a. rewrite peer_of_put, (requests_hold_update _ _ _ _ _ _ Hl). unfold part_of. rewrite Ha.
    destruct (bk_total st Hb k a) as [Ht Hle]. destruct (decide (rq_address r = a)) as [<-|]; [|lia].
    specialize (Hm k). lia.
Qed.

Lemma books_new st id a p r :
  books_kept st -> lm_requests st !! id = None -> rq_address r = a -> req_wf r ->
  (forall k, counter k p = counter k (peer_of st a) + holds k r /\ counter k p <= cap k) ->
  books_kept (put id a p (Some r) st).
Proof.
  intros Hb Hl Ha Hwf Hp. split; [apply Hb|apply Hb| |]; cbn.
  - intros id' r1. destruct (decide (id = id')) as [<-|]; [rewrite lookup_insert_eq; by intros [= <-]|].
    rewrite lookup_insert_ne by done. by apply bk_wf.
  - intros k a'. rewrite peer_of_put, requests_hold_insert_new by done. unfold part_of. rewrite Ha.
    destruct (bk_total st Hb k a') as [Ht Hle]. destruct (decide (a = a')) as [<-|]; [|lia].
    specialize (Hp k). lia.
Qed.

Lemma books_refused st id a p :
  books_kept st -> (forall k, counter k p = counter k (peer_of st a)) -> books_kept (put id a p None st).
Proof.
  intros Hb Hp. split; [apply Hb|apply Hb|apply Hb|]. intros k a'. cbn. rewrite peer_of_put.
  destruct (bk_total st Hb k a') as [Ht Hle]. destruct (decide (a = a')) as [<-|]; [|done]. rewrite Hp. done.
Qed.

Lemma books_same st st' :
  books_kept st -> lm_limit st' = lm_limit st -> lm_budget_bytes st' = lm_budget_bytes st -> lm_peers st' = lm_peers st ->
  lm_requests st' = lm_requests st -> books_kept st'.
Proof.
  intros Hb E1 E2 E3 E4. split; [rewrite E1; apply Hb|rewrite E2; apply Hb|rewrite E4; apply Hb|].
  unfold peer_of. rewrite E3, E4. apply Hb.
Qed.

(** A request that starts holds its slot, and its guard. *)
Lemma new_request_wf a (work : bool) (body : option LimitedBody) :
  match body with Some b => lb_current b = 0 /\ lb_completed b = 0 | None => True end ->
  let r := mkRequest a (mkCharge 0 (1 + (if body then 1 else 0))) (if work then Some (mkGuard 0 2) else None) true body 0 None in
  req_wf r /\ forall k, holds k r = match k with Slots => 1 | Works => if work then 1 else 0 | _ => 0 end.
Proof.
  intros Hbody r. split.
  - split; cbn; [by destruct body|by destruct work, body| |done|by intros []; destruct work, body].
    destruct body as [b|]; [|done]. lia.
  - by intros []; destruct work, body.
Qed.

Lemma arrive_books streams id address path st :
  books_kept st -> lm_requests st !! id = None -> books_kept (arrive streams id address path st).2.
Proof.
  intros Hb Hl. unfold arrive. destruct address as [a|]; [|done]. rewrite (bk_limit st Hb).
  set (p := peer_of st a). unfold try_admit. destruct (Z.ltb_spec (pe_inflight p) limit).
  2:{ cbn. apply books_refused; [done|]. by intros []. }
  set (p1 := mkPeer _ _ _ _ _ _ _ _ _ _ _).
  assert (forall k, counter k p1 = counter k p + (if k is Slots then 1 else 0) /\ counter k p1 <= cap k) as Hp1.
  { intros k. destruct (bk_total st Hb k a) as [_ Hle]. fold p in Hle. destruct k; cbn in *; lia. }
  set (body := (fun l => limited_body_new l (negb (streams path))) <$> route_limit (lm_routes st) path).
  assert (match body with Some b => lb_current b = 0 /\ lb_completed b = 0 | None => True end) as Hbody
    by (unfold body; by destruct (route_limit _ _)).
  case_bool_decide as Hpath.
  - unfold try_admit_work. destruct (Z.ltb_spec (pe_work_inflight p1) limit); cbn [snd].
    + apply (books_same (put id a (with_work_inflight (pe_work_inflight p1 + 1) p1)
        (Some (mkRequest a (mkCharge 0 (1 + (if body then 1 else 0))) (Some (mkGuard 0 2)) true body 0 None)) st)); try done.
      destruct (new_request_wf a true body Hbody) as [Hwf Hh]. apply books_new; [done..|]. intros k. rewrite Hh.
      destruct (Hp1 k) as [E Hle], (Hp1 Works) as [E' _]. fold p in E |- *. destruct k; cbn in *; lia.
    + apply books_refused; [done|]. intros k. destruct (bk_total st Hb Slots a) as [Hs _]. fold p in Hs.
      destruct (Hp1 k) as [E Hle]. fold p. destruct k; cbn in *; try lia.
      assert (0 <= requests_hold Slots a (lm_requests st)) by (apply requests_hold_nonneg, Hb).
      unfold wrap32. rewrite Z.mod_small by lia. lia.
  - destruct (new_request_wf a false body Hbody) as [Hwf Hh]. apply books_new; [done..|]. intros k. rewrite Hh.
    destruct (Hp1 k) as [E Hle]. fold p in E |- *. destruct k; cbn in *; lia.
Qed.

Lemma limiter_step_books streams e st : books_kept st -> books_kept (limiter_step streams e st).2.
Proof.
  intros Hb. unfold limiter_step. destruct (lm_requests st !! event_id e) as [r|] eqn:El.
  - destruct (request_step (lm_budget_bytes st) e (peer_of st (rq_address r)) r) as [out [p' r']] eqn:E.
    rewrite (bk_budget st Hb) in E.
    apply request_step_kept in E; [|by eapply bk_wf|by eapply books_backed].
    pose proof (books_update st (event_id e) r p' r' Hb El E) as Hb'. cbn [snd].
    unfold count_unguarded. destruct e, (rq_work r), (rq_running r); try done. by eapply books_same.
  - destruct e; try done. by apply arrive_books.
Qed.

Lemma limiter_run_books streams events : forall st, books_kept st -> books_kept (limiter_run streams events st).
Proof. induction events as [|e events IH]; intros st Hb; [done|]. by apply IH, limiter_step_books. Qed.

Lemma books_empty routes : books_kept (limiter_new limit budget routes).
Proof.
  split; [done|done|intros id r Hl; cbn in Hl; by rewrite lookup_empty in Hl|]. intros k a. unfold is_u64 in *.
  change (peer_of (limiter_new limit budget routes) a) with peer_new.
  unfold requests_hold. cbn [lm_requests limiter_new]. rewrite map_fold_empty. destruct k; cbn; lia.
Qed.

(** All parts of the request are gone. *)
Definition finished (r : Request) : Prop := rq_running r = false /\ rq_body r = None /\ rq_jobs r = O /\ rq_response r = None.

Lemma finished_holds k r : req_wf r -> finished r -> holds k r = 0.
Proof.
  intros Hwf (Hr & Hbd & Hj & Hresp). pose proof (wf_charge r Hwf) as Hc. pose proof (wf_work r Hwf) as Hw.
  rewrite Hr, Hbd in Hc. cbn in Hc. rewrite Hc, Hr, Hj in Hw. cbn in Hw.
  unfold holds, slot_held, charge_holds, guard_holds. rewrite Hc, Hr, Hresp.
  destruct (rq_work r) as [w|]; [rewrite Hw|]; by destruct k.
Qed.
End requests.

(** C34: after any steps of any requests, each counter of a peer (requests, bytes, MPC work, bytes of
    MPC work) is exactly what its requests hold of it and within its limit, so that no decrement
    wraps; a request whose handler, body, jobs and response are gone holds nothing. *)
Theorem peer_books_exact streams_requests limit budget routes events :
  0 <= limit < 2 ^ 32 -> is_u64 budget ->
  let st := limiter_run streams_requests events (limiter_new limit budget routes) in
  (forall k a, counter k (peer_of st a) = requests_hold k a (lm_requests st) /\ 0 <= counter k (peer_of st a) <= cap limit budget k)
  /\ forall id r, lm_requests st !! id = Some r -> finished r -> forall k, holds k r = 0.
Proof.
  intros Hlim Hbud st.
  pose proof (limiter_run_books limit budget Hlim Hbud streams_requests events _ (books_empty limit budget Hlim Hbud routes)) as Hb.
  fold st in Hb. split.
  - intros k a. destruct (bk_total _ _ st Hb k a) as [Ht Hle]. split; [done|]. split; [|done].
    rewrite Ht. eapply requests_hold_nonneg, Hb.
  - intros id r Hl Hf k. eapply finished_holds; [by eapply bk_wf|done].
Qed.
