(* ===== verification/PeerBodyProofs.v ===== *)
(** * What a request passes on to its handler

    The body of a request passes on a prefix of what the peer sends: whole messages of at most the
    limit of the route and a part of one, and one message only where the method takes one. *)

From stdpp Require Import strings gmap.
From S2P Require Import PeerLimit PeerLimitProofs PeerLimitTheorems Prelude.

(** A message with its prefix, as declared and within the limit. *)
Definition message (limit : Z) (m : list Z) : Prop :=
  exists prefix body, m = prefix ++ body /\ length prefix = 5%nat
    /\ Z.of_nat (length body) = be32 (tail prefix) /\ be32 (tail prefix) <= limit.

(** The beginning of a message: a part of the prefix, or the prefix and [remaining] bytes less than
    it declares. *)
Definition beginning (limit : Z) (m : list Z) (remaining : Z) : Prop :=
  exists prefix body, m = prefix ++ body /\ length prefix = 5%nat
    /\ Z.of_nat (length body) + remaining = be32 (tail prefix) /\ be32 (tail prefix) <= limit.

Definition framed (limit : Z) (single : bool) (s : list Z) : Prop :=
  exists messages part, s = concat messages ++ part /\ Forall (message limit) messages
    /\ (single = true -> messages = [] \/ (length messages = 1%nat /\ part = []))
    /\ ((length part < 5)%nat \/ exists remaining, 0 < remaining /\ beginning limit part remaining).

(** What has been passed on, in each state; a message is reserved from its prefix on. *)
Definition passed (b : LimitedBody) (s : list Z) : Prop :=
  match lb_state b with
  | Done => framed (lb_limit b) (lb_single_message b) s
  | state =>
      exists messages part, s = concat messages ++ part /\ Forall (message (lb_limit b)) messages
      /\ match state with
         | Prefix bytes =>
             part = bytes /\ (length bytes < 5)%nat /\ (lb_single_message b = true -> messages = [])
         | Message remaining =>
             0 < remaining /\ beginning (lb_limit b) part remaining /\ (lb_single_message b = true -> messages = [])
             /\ lb_current b = Z.of_nat (length part) + remaining
         | _ => lb_single_message b = true /\ length messages = 1%nat /\ part = [] /\ lb_current b = Z.of_nat (length s)
         end
  end.

Definition is_open (b : LimitedBody) : bool := match lb_state b with Prefix _ | Message _ => true | _ => false end.

Definition same_route (b b' : LimitedBody) : Prop :=
  lb_limit b' = lb_limit b /\ lb_single_message b' = lb_single_message b.

Lemma passed_framed b s : passed b s -> framed (lb_limit b) (lb_single_message b) s.
Proof.
  unfold passed, framed. destruct (lb_state b) as [bytes|remaining| |]; [| | |done].
  - intros (messages & part & ? & ? & -> & ? & ?). exists messages, bytes. split_and!; auto.
  - intros (messages & part & ? & ? & ? & ? & ? & ?). exists messages, part. split_and!; eauto.
  - intros (messages & part & ? & ? & ? & ? & -> & ?). exists messages, []. split_and!; auto. left. cbn. lia.
Qed.

Lemma passed_done b s : passed b s -> passed (set_state Done b) s.
Proof. intros H. apply passed_framed in H. done. Qed.

(** A message is complete. *)
Lemma passed_complete b messages part n :
  Forall (message (lb_limit b)) messages -> beginning (lb_limit b) part 0 ->
  (lb_single_message b = true -> messages = []) -> lb_current b = Z.of_nat (length part) ->
  passed (message_complete (set_state (Message n) b)) (concat messages ++ part)
  /\ same_route b (message_complete (set_state (Message n) b)).
Proof.
  intros Hm (prefix & body & -> & Hl & Hbody & Hlim) Hs Hc. unfold message_complete, passed. cbn.
  assert (message (lb_limit b) (prefix ++ body)) as Hnew by (exists prefix, body; split_and!; [done|done|lia|done]).
  destruct (lb_single_message b) eqn:Es; cbn; (split; [|by split]); cbn; rewrite ?Es.
  - exists [prefix ++ body], []. rewrite (Hs eq_refl). cbn. rewrite !app_nil_r. split_and!; try done. by constructor.
  - exists (messages ++ [prefix ++ body]), []. rewrite concat_app. cbn. rewrite !app_nil_r.
    split_and!; try done; [|lia]. by apply Forall_app_2; [|constructor].
Qed.

Lemma admit_passed budget b sh messages bytes r b' sh' :
  lb_state b = Prefix bytes -> length bytes = 5%nat -> Forall (message (lb_limit b)) messages ->
  (lb_single_message b = true -> messages = []) ->
  body_admit budget (be32 (tail bytes)) (b, sh) = (r, (b', sh')) ->
  same_route b b' /\ r <> Panic /\ (r = Ok tt -> passed b' (concat messages ++ bytes)).
Proof.
  intros Es Hl Hm Hs. unfold body_admit, mbind, M_bind, mret, M_ret, throw, of_outcome, modify, read. cbv beta iota. cbn [fst snd].
  destruct (Z.ltb_spec (lb_limit b) (be32 (tail bytes))) as [|Hlim]; [by intros [= <- <- <-]|].
  cbn [fst snd]. destruct (charge_reserve budget (PREFIX_LEN + be32 (tail bytes)) sh) as [[] sh1]; cbn [negb]; cbv beta iota zeta; [|by intros [= <- <- <-]].
  assert (0 <= be32 (tail bytes)) as Hpos by (apply Z.mod_pos_bound; lia).
  assert (forall remaining, remaining = be32 (tail bytes) -> beginning (lb_limit b) bytes remaining) as Hbeg.
  { intros remaining ->. exists bytes, []. rewrite app_nil_r. split_and!; [done|done|cbn; lia|done]. }
  destruct (Z.eqb_spec (be32 (tail bytes)) 0) as [E0|]; intros [= <- <- <-]; cbn [fst].
  - set (b1 := mkBody (lb_limit b) (lb_single_message b) (PREFIX_LEN + be32 (tail bytes)) (lb_completed b) (Message (be32 (tail bytes)))).
    destruct (passed_complete b1 messages bytes (be32 (tail bytes)) Hm (Hbeg 0 (eq_sym E0)) Hs) as [Hp Hr].
    { unfold b1, PREFIX_LEN. cbn. rewrite Hl. lia. }
    split; [exact Hr|]. split; [done|]. intros _. exact Hp.
  - split; [by split|]. split; [done|]. intros _. exists messages, bytes. unfold PREFIX_LEN. cbn. rewrite Hl.
    split_and!; [done|done|lia|by apply Hbeg|done|lia].
Qed.

Lemma same_route_trans b1 b2 b3 : same_route b1 b2 -> same_route b2 b3 -> same_route b1 b3.
Proof. intros [? ?] [? ?]. split; congruence. Qed.

(** What one frame passes on. *)
Definition frame_passes (b b' : LimitedBody) (s data : list Z) (consumed : Z) (r : outcome Status Z) : Prop :=
  same_route b b' /\ r <> Panic
  /\ forall n, r = Ok n -> exists taken rest, data = taken ++ rest /\ n = consumed + Z.of_nat (length taken)
       /\ passed b' (s ++ taken) /\ (is_open b' = true -> rest = []).

(** One turn takes some of the bytes. *)
Lemma frame_passes_more b b1 b' s taken data consumed r :
  same_route b b1 -> frame_passes b1 b' (s ++ taken) data (consumed + Z.of_nat (length taken)) r ->
  frame_passes b b' s (taken ++ data) consumed r.
Proof.
  intros H1 (H2 & H3 & H4). split; [by eapply same_route_trans|]. split; [done|]. intros n Hn.
  destruct (H4 n Hn) as (taken' & rest & -> & -> & Hp & Ho). exists (taken ++ taken'), rest.
  rewrite length_app, <- !(assoc (++)) in *. split_and!; [done|lia|done|done].
Qed.

Lemma forward_passes fuel budget : forall data consumed b sh r b' sh' s,
  (length data <= fuel)%nat -> passed b s ->
  forward_from fuel budget data consumed (b, sh) = (r, (b', sh')) -> frame_passes b b' s data consumed r.
Proof.
  induction fuel as [|fuel IH]; intros [|x data] consumed b sh r b' sh' s Hf Hp; cbn [forward_from];
    try (cbn in Hf; lia).
  1,2: intros [= <- <- <-]; split; [done|]; split; [done|]; intros n [= <-]; exists [], [];
    rewrite ?app_nil_r; split_and!; [done|cbn; lia|done|done].
  set (d := x :: data) in *. assert (0 < length d)%nat as Hd by (cbn; lia).
  unfold mbind at 1, M_bind at 1, read at 1. cbn [fst snd].
  destruct (lb_state b) as [bytes|remaining| |] eqn:Es.
  3,4: intros [= <- <- <-]; split; [done|]; split; [done|]; intros n [= <-]; exists [], d;
    rewrite ?app_nil_r; split_and!; [done|cbn; lia|done|by unfold is_open; rewrite Es].
  - unfold passed in Hp. rewrite Es in Hp. destruct Hp as (messages & part & -> & Hm & -> & Hlb & Hsingle).
    set (n := Nat.min (Z.to_nat PREFIX_LEN - length bytes) (length d)).
    assert (0 < n <= length d)%nat as Hn by (unfold n, PREFIX_LEN; lia).
    unfold mbind at 1, M_bind at 1, modify at 1. cbn [fst snd].
    set (b1 := set_state (Prefix (bytes ++ firstn n d)) b).
    assert (length (bytes ++ firstn n d) <= 5)%nat as Hlen by (rewrite length_app, length_take; unfold n, PREFIX_LEN; lia).
    unfold mbind at 1, M_bind at 1.
    destruct (length (bytes ++ firstn n d) =? Z.to_nat PREFIX_LEN)%nat eqn:E5; cbn [mret M_ret].
    + apply Nat.eqb_eq in E5. destruct (body_admit _ _ _) as [r1 [b2 sh2]] eqn:Ea.
      destruct (admit_passed budget b1 sh messages (bytes ++ firstn n d) r1 b2 sh2) as (Hr & Hnp & Hok); [done..|].
      destruct r1 as [[]|e|]; [|intros [= <- <- <-]; split; [exact Hr|split; done]|done].
      intros E. rewrite <- (take_drop n d). apply (frame_passes_more b b2); [exact Hr|].
      rewrite length_take, Nat.min_l by lia. rewrite <- (assoc (++)).
      eapply IH; [rewrite length_drop; lia|by apply Hok|exact E].
    + apply Nat.eqb_neq in E5. intros E. rewrite <- (take_drop n d). apply (frame_passes_more b b1); [done|].
      rewrite length_take, Nat.min_l by lia. eapply IH; [rewrite length_drop; lia| |exact E].
      unfold passed, b1. cbn. exists messages, (bytes ++ firstn n d). rewrite <- (assoc (++)).
      split_and!; try done. unfold PREFIX_LEN in E5. lia.
  - unfold passed in Hp. rewrite Es in Hp. destruct Hp as (messages & part & -> & Hm & Hrem & Hbeg & Hsingle & Hcur).
    set (n := Z.min (Z.of_nat (length d)) remaining). assert (0 < n <= Z.of_nat (length d)) as Hn by lia.
    unfold mbind at 1, M_bind at 1, modify at 1. cbn [fst snd]. intros E.
    set (taken := firstn (Z.to_nat n) d). assert (Z.of_nat (length taken) = n) as Ht by (unfold taken; rewrite length_take; lia).
    assert (beginning (lb_limit b) (part ++ taken) (remaining - n)) as Hbeg'.
    { destruct Hbeg as (prefix & body & -> & ? & ? & ?). exists prefix, (body ++ taken).
      rewrite (assoc (++)), length_app. split_and!; [done|done|lia|done]. }
    rewrite <- (take_drop (Z.to_nat n) d). fold taken.
    assert (lb_current b = Z.of_nat (length (part ++ taken)) + (remaining - n)) as Hcur' by (rewrite length_app; lia).
    destruct (Z.eqb_spec (remaining - n) 0) as [E0|].
    + rewrite E0 in *. destruct (passed_complete b messages (part ++ taken) 0 Hm Hbeg' Hsingle ltac:(lia)) as [Hp Hr].
      eapply frame_passes_more; [exact Hr|]. rewrite Ht, <- (assoc (++)).
      eapply IH; [rewrite length_drop; lia|exact Hp|exact E].
    + apply (frame_passes_more b (set_state (Message (remaining - n)) b)); [done|]. rewrite Ht, <- (assoc (++)).
      eapply IH; [rewrite length_drop; lia| |exact E].
      exists messages, (part ++ taken). cbn. split_and!; try done. lia.
Qed.

(** ** Polls *)

Definition frame_data (i : Inner) : list Z := match i with IFrame (Data d) => d | _ => [] end.
Definition data_of (l : list Inner) : list Z := concat (frame_data <$> l).
Definition polled_data (p : Polled) : list Z := match p with Ready (Data d) => d | _ => [] end.

(** What a poll passes on of what it takes from the connection; while the body is open, all of it. *)
Definition poll_passes (b b' : LimitedBody) (s : list Z) (polled : Polled) (inner rest : list Inner) : Prop :=
  same_route b b' /\ polled <> FailedFuel /\ passed b' (s ++ polled_data polled)
  /\ exists dropped, data_of inner = polled_data polled ++ dropped ++ data_of rest /\ (is_open b' = true -> dropped = []).

Lemma data_of_cons i l : data_of (i :: l) = frame_data i ++ data_of l.
Proof. done. Qed.

(** Nothing is passed on of the first frame. *)
Lemma poll_passes_more b b1 b' s polled i inner rest :
  same_route b b1 -> (frame_data i = [] \/ is_open b' = false /\ polled_data polled = []) ->
  poll_passes b1 b' s polled inner rest -> poll_passes b b' s polled (i :: inner) rest.
Proof.
  intros Hr Hi (H1 & H2 & H3 & dropped & H4 & H5). split; [by eapply same_route_trans|]. split; [done|]. split; [done|].
  rewrite data_of_cons, H4. destruct Hi as [->|[Ho ->]]; [by exists dropped|].
  exists (frame_data i ++ dropped). rewrite <- (assoc (++)). split; [done|]. by rewrite Ho.
Qed.

(** A closed body passes nothing on. *)
Lemma poll_passes_end b b' s polled i inner :
  same_route b b' -> polled <> FailedFuel -> polled_data polled = [] -> passed b' s -> (is_open b' = true -> frame_data i = []) ->
  poll_passes b b' s polled (i :: inner) inner.
Proof.
  intros. split; [done|]. split; [done|]. rewrite H1, app_nil_r. split; [done|]. exists (frame_data i). done.
Qed.

Lemma poll_passes_none b b' s polled inner :
  same_route b b' -> polled <> FailedFuel -> polled_data polled = [] -> passed b' s -> poll_passes b b' s polled inner inner.
Proof. intros. split; [done|]. split; [done|]. rewrite H1, app_nil_r. split; [done|]. by exists []. Qed.

Lemma closed_poll budget elapsed inner : forall b sh polled rest b' sh',
  is_open b = false -> poll_from budget elapsed inner b sh = (polled, rest, (b', sh')) ->
  is_open b' = false /\ polled_data polled = [].
Proof.
  induction inner as [|i inner IH]; intros b sh polled rest b' sh' Ho; cbn [poll_from]; unfold is_open in Ho;
    destruct (lb_state b) eqn:Es; try discriminate Ho.
  - destruct elapsed; intros [= <- <- <- <-]; [done|]. unfold is_open. by rewrite Es.
  - intros [= <- <- <- <-]. unfold is_open. by rewrite Es.
  - destruct (empty_data i); [apply IH; unfold is_open; by rewrite Es|].
    intros [= <- <- <- <-]. by destruct i as [[]| |].
  - intros [= <- <- <- <-]. unfold is_open. by rewrite Es.
Qed.

Lemma poll_from_passes budget elapsed inner : forall b sh polled rest b' sh' s,
  passed b s -> poll_from budget elapsed inner b sh = (polled, rest, (b', sh')) -> poll_passes b b' s polled inner rest.
Proof.
  induction inner as [|i inner IH]; intros b sh polled rest b' sh' s Hp; cbn [poll_from].
  { destruct (lb_state b) eqn:Es, elapsed; intros [= <- <- <- <-]; apply poll_passes_none; try done; by apply passed_done. }
  destruct (is_open b) eqn:Eo.
  2:{ unfold is_open in Eo. destruct (lb_state b) eqn:Es; try discriminate Eo.
      - destruct (empty_data i) eqn:Ee.
        + intros E. apply (poll_passes_more b b); [done| |by eapply IH]. left. by destruct i as [[[]|]| |].
        + intros [= <- <- <- <-]. apply poll_passes_end; try done; [by destruct i as [[]| |]|by destruct i as [[]| |]|by apply passed_done].
      - intros [= <- <- <- <-]. by apply poll_passes_none. }
  assert (forall data, i = IFrame (Data data) ->
    match forwardable budget data (b, sh) with
    | (Ok n, (b, sh)) =>
        if n =? 0 then poll_from budget elapsed inner b sh else (Ready (Data (firstn (Z.to_nat n) data)), inner, (b, sh))
    | (Err status, (b, sh)) => (FailedWith status, inner, (set_state Done b, sh))
    | (Panic, s) => (FailedFuel, inner, s)
    end = (polled, rest, (b', sh')) -> poll_passes b b' s polled (i :: inner) rest) as Hdata.
  { intros data ->. destruct (forwardable budget data (b, sh)) as [r [b1 sh1]] eqn:E.
    apply (forward_passes _ _ _ _ _ _ _ _ _ s) in E as (Hr & Hnp & Hok); [|done|done].
    destruct r as [n|e|]; [|intros [= <- <- <- <-]|done].
    - destruct (Hok n eq_refl) as (taken & left & -> & -> & Hp1 & Ho). rewrite Z.add_0_l, Nat2Z.id.
      destruct (Z.eqb_spec (Z.of_nat (length taken)) 0) as [E0|].
      + assert (taken = []) as -> by (destruct taken; [done|cbn in E0; lia]). rewrite app_nil_r in Hp1. intros E2.
        apply (poll_passes_more b b1); [done| |by eapply IH].
        destruct (is_open b1) eqn:Eo1; [left; by rewrite (Ho eq_refl)|right; by eapply closed_poll].
      + intros [= <- <- <- <-]. split; [done|]. split; [done|]. rewrite data_of_cons. cbn [polled_data frame_data].
        rewrite take_app_length. split; [done|]. exists left. by rewrite (assoc (++)).
    - apply poll_passes_end; try done. unfold passed, set_state. cbn. destruct Hr as [-> ->]. by apply passed_framed. }
  unfold is_open in Eo.
  destruct (lb_state b) as [bytes|remaining| |] eqn:Es; try discriminate Eo;
    (destruct i as [[data|]| |]; [by apply Hdata| |intros [= <- <- <- <-]; apply poll_passes_end; try done; by apply passed_done..];
     intros [= <- <- <- <-]; by apply poll_passes_end).
Qed.

Lemma body_poll_passes budget elapsed inner b sh polled rest b' sh' s :
  passed b s -> body_poll budget elapsed inner b sh = (polled, rest, (b', sh')) -> poll_passes b b' s polled inner rest.
Proof.
  intros Hp E. apply (poll_from_passes _ _ _ _ _ _ _ _ _ s) in E; [exact E|].
  unfold passed in *. cbn. by destruct (lb_state b).
Qed.

(** ** Runs of polls *)

(** A body is polled: the deadline may have passed, frames may have come, and the counters it
    shares may have been changed by others. *)
Record Poll := mkPoll { po_elapsed : bool; po_arrived : list Inner; po_shared : Shared }.

(** What the polls give, the frames that are left, and the body. *)
Fixpoint body_run (budget : Z) (script : list Poll) (carry : list Inner) (b : LimitedBody)
    : list Polled * list Inner * LimitedBody :=
  match script with
  | [] => ([], carry, b)
  | po :: script =>
      let '(polled, rest, (b, _)) := body_poll budget (po_elapsed po) (carry ++ po_arrived po) b (po_shared po) in
      let '(outs, rest, b) := body_run budget script rest b in
      (polled :: outs, rest, b)
  end.

Definition passed_on (outs : list Polled) : list Z := concat (polled_data <$> outs).

Lemma data_of_app l k : data_of (l ++ k) = data_of l ++ data_of k.
Proof. unfold data_of. by rewrite fmap_app, concat_app. Qed.

Lemma closed_run budget script : forall carry b outs rest b',
  is_open b = false -> body_run budget script carry b = (outs, rest, b') -> is_open b' = false /\ passed_on outs = [].
Proof.
  induction script as [|po script IH]; intros carry b outs rest b' Ho; cbn; [by intros [= <- <- <-]|].
  destruct (body_poll _ _ _ _ _) as [[polled rest1] [b1 sh1]] eqn:E1.
  destruct (body_run budget script rest1 b1) as [[outs1 rest2] b2] eqn:E2. intros [= <- <- <-].
  apply closed_poll in E1 as [Ho1 Hd]; [|exact Ho]. destruct (IH _ _ _ _ _ Ho1 E2) as [Ho2 Hd2]. split; [done|].
  unfold passed_on in *. cbn. by rewrite Hd, Hd2.
Qed.

Lemma body_run_passes budget script : forall carry b outs rest b' s,
  passed b s -> body_run budget script carry b = (outs, rest, b') ->
  same_route b b' /\ Forall (fun p => p <> FailedFuel) outs /\ passed b' (s ++ passed_on outs)
  /\ exists dropped, data_of (carry ++ concat (po_arrived <$> script)) = passed_on outs ++ dropped ++ data_of rest
       /\ (is_open b' = true -> dropped = []).
Proof.
  induction script as [|po script IH]; intros carry b outs rest b' s Hp; cbn [body_run].
  { intros [= <- <- <-]. unfold passed_on. cbn. rewrite !app_nil_r. split; [done|]. split; [done|]. split; [done|]. by exists []. }
  destruct (body_poll _ _ _ _ _) as [[polled rest1] [b1 sh1]] eqn:E1.
  destruct (body_run budget script rest1 b1) as [[outs1 rest2] b2] eqn:E2. intros [= <- <- <-].
  apply (body_poll_passes _ _ _ _ _ _ _ _ _ s) in E1 as (Hr1 & Hf1 & Hp1 & dropped1 & Hd1 & Ho1); [|done].
  destruct (IH _ _ _ _ _ _ Hp1 E2) as (Hr2 & Hf2 & Hp2 & dropped2 & Hd2 & Ho2).
  split; [by eapply same_route_trans|]. split; [by constructor|]. unfold passed_on in *. cbn.
  rewrite <- (assoc (++)) in Hp2. split; [done|].
  rewrite (app_assoc carry). rewrite data_of_app, Hd1, <- !app_assoc. rewrite data_of_app in Hd2. rewrite Hd2.
  destruct (is_open b1) eqn:Eo.
  - rewrite (Ho1 eq_refl). exists dropped2. by rewrite <- app_assoc.
  - destruct (closed_run _ _ _ _ _ _ _ Eo E2) as [Hc Hn]. unfold passed_on in Hn. rewrite Hn, Hc.
    exists (dropped1 ++ dropped2). cbn. rewrite !app_nil_r, <- !app_assoc. done.
Qed.


(** * Requests of a peer, run

    Three requests of one peer with room for two, one of which leaves a blocking job behind. *)

Definition small_routes : RouteLimits := rl_work "pkg.Mpc" "Complain" (rl_service "pkg.Mpc" 10 route_limits_default).

Definition complain : string := "/pkg.Mpc/Complain".

Definition no_streams (_ : string) : bool := false.

(** The first two are admitted, the third is not; the first reads its message, starts a job and
    answers with a frame; then its response is dropped and the second is cancelled. *)
Definition busy_events : list Event :=
  [ Arrive 1 (Some 7) complain; PollBody 1 false [IFrame (Data [0; 0; 0]); IFrame (Data [0; 2; 9; 9; 8])];
    PollBody 1 false [IFrame (Data [0; 2; 9; 9; 8])];
    Arrive 2 (Some 7) complain; Arrive 3 (Some 7) complain; SpawnBlocking 1; DropBody 1; Respond 1 true;
    PollResponse 1 [IFrame (Data [1; 2; 3])] ].

Definition quiet_events : list Event := [DropResponse 1; Abandon 2; DropBody 2; JobDone 1].

Definition busy : Limiter := limiter_run no_streams busy_events (limiter_new 2 40 small_routes).
Definition quiet : Limiter := limiter_run no_streams (busy_events ++ quiet_events) (limiter_new 2 40 small_routes).

Definition counters (st : Limiter) (a : Address) : list Z := (fun k => counter k (peer_of st a)) <$> [Slots; Bytes; Works; WorkBytes].

Lemma peer_books_exact_witness :
  (0 <= 2 < 2 ^ 32 /\ is_u64 40)
  /\ (forall k a, counter k (peer_of busy a) = requests_hold k a (lm_requests busy) /\ 0 <= counter k (peer_of busy a) <= cap 2 40 k)
  /\ counters busy 7 = [2; 3; 2; 7] /\ counters quiet 7 = [0; 0; 0; 0]
  /\ pe_shed (peer_of quiet 7) = 1 /\ dom (lm_requests quiet) = {[1; 2]}.
Proof.
  assert (0 <= 2 < 2 ^ 32) as H1 by lia. assert (is_u64 40) as H2 by (split; unfold u64_max; lia).
  split; [by split|]. split; [apply (peer_books_exact no_streams 2 40 small_routes busy_events H1 H2)|].
  split_and!; vm_compute; reflexivity.
Defined.

(** One message in three frames on a route that takes one: what follows it is dropped. *)
Example one_message_passed :
  let sh := mkShared peer_new (mkCharge 0 1) None in
  let '(outs, rest, b) := body_run 40
    [mkPoll false [IFrame (Data [0; 0; 0])] sh; mkPoll false [IFrame (Data []); IFrame (Data [0; 2; 9])] sh;
     mkPoll false [IFrame (Data [9; 8; 7])] sh; mkPoll false [] sh; mkPoll true [] sh] [] (limited_body_new 10 true) in
  outs = [Ready (Data [0; 0; 0]); Ready (Data [0; 2; 9]); Ready (Data [9]); Pending; Ended] /\ rest = [] /\ lb_state b = Done.
Proof. vm_compute. by split_and!. Qed.

(** A message over the limit of the route is refused by its prefix. *)
Example large_message_refused :
  let sh := mkShared peer_new (mkCharge 0 1) None in
  (body_run 40 [mkPoll false [IFrame (Data [0; 0; 0; 0; 11; 9])] sh] [] (limited_body_new 10 true)).1.1
  = [FailedWith (OutOfRange 11 10)].
Proof. vm_compute. reflexivity. Qed.
