(* ===== verification/ConnectionLimit.v ===== *)
(** * Limits of a peer's connections and tasks

    [crates/hashi/src/grpc/connection_limit.rs], and the [CallerTaskLimiter] of
    [crates/hashi/src/grpc/peer_limit.rs].  A connection is known by the address of its peer
    certificates; the server's list of live connections and the clock are inputs. *)

From stdpp Require Import gmap list.
From S2P Require Import Prelude.

(** ** Connections *)

Record Member := mkMember {
  cm_connections : list (Z * Z);
  cm_high_water : Z;
  cm_max : Z;
  cm_refused : Z;
}.

Definition member_new : Member := mkMember [] 0 0 0.

Record ConnectionState := mkConnectionState { cs_live : option (Z * gset Z); cs_members : gmap Address Member }.

(** one second, in milliseconds *)
Definition SCAN_INTERVAL : Z := 1000.

(** [refresh]: the list of the server, when the last is old; without a server, the last. *)
Definition refresh (now : Z) (server : option (gset Z)) (live : option (Z * gset Z)) : option (Z * gset Z) :=
  let stale := match live with None => true | Some (taken, _) => SCAN_INTERVAL <=? now - taken end in
  match stale, server with
  | true, Some connections => Some (now, connections)
  | _, _ => live
  end.

(** Connections that came after the list was taken, or are on it. *)
Definition retained (live : option (Z * gset Z)) (connections : list (Z * Z)) : list (Z * Z) :=
  match live with
  | Some (taken, keys) => List.filter (fun c => (taken <=? c.2) || bool_decide (c.1 ∈ keys)) connections
  | None => connections
  end.

(** [ConnectionLimiter::admit] *)
Definition admit_connection (limit now : Z) (server : option (gset Z)) (member : Address) (certs : option Z)
    (state : ConnectionState) : bool * ConnectionState :=
  match certs with
  | None => (false, state)
  | Some key =>
      let entry := default member_new (cs_members state !! member) in
      if existsb (fun c => c.1 =? key) (cm_connections entry) then
        (true, mkConnectionState (cs_live state) (<[member := entry]> (cs_members state)))
      else
        let live := refresh now server (cs_live state) in
        let connections := retained live (cm_connections entry) in
        if limit <=? Z.of_nat (length connections) then
          (false, mkConnectionState live
             (<[member := mkMember connections (cm_high_water entry) (cm_max entry) (cm_refused entry + 1)]> (cs_members state)))
        else
          let connections := connections ++ [(key, now)] in
          let n := Z.of_nat (length connections) in
          let entry :=
            if cm_high_water entry <? n then mkMember connections n n (cm_refused entry)
            else mkMember connections (cm_high_water entry) (cm_max entry) (cm_refused entry) in
          (true, mkConnectionState live (<[member := entry]> (cs_members state)))
  end.

(** ** Tasks *)

Record CallerTasks := mkCallerTasks { ct_active : Z; ct_high_water : Z }.

(** [CallerTaskLimiter::try_admit], with the gauge of the caller *)
Definition try_admit_task (caller : Address) (limit : Z) (tasks : gmap Address CallerTasks) : bool * gmap Address CallerTasks :=
  let entry := default (mkCallerTasks 0 0) (tasks !! caller) in
  if limit <=? ct_active entry then (false, <[caller := entry]> tasks)
  else
    let active := ct_active entry + 1 in
    (true, <[caller := mkCallerTasks active (Z.max (ct_high_water entry) active)]> tasks).

(** [Drop for CallerTaskSlot] *)
Definition task_done (caller : Address) (tasks : gmap Address CallerTasks) : gmap Address CallerTasks :=
  alter (fun entry => mkCallerTasks (ct_active entry - 1) (ct_high_water entry)) caller tasks.

(** ** What they keep *)

(** A connection is listed once, and there are never more than the limit. *)
Definition connections_ok (limit : Z) (state : ConnectionState) : Prop :=
  forall member entry, cs_members state !! member = Some entry ->
    NoDup (cm_connections entry).*1 /\ Z.of_nat (length (cm_connections entry)) <= limit
    /\ Z.of_nat (length (cm_connections entry)) <= cm_high_water entry <= limit.

Lemma retained_sublist live connections : retained live connections `sublist_of` connections.
Proof. destruct live as [[taken keys]|]; [apply filter_sublist|done]. Qed.

Lemma connections_insert limit state live member entry :
  connections_ok limit state ->
  NoDup (cm_connections entry).*1 -> Z.of_nat (length (cm_connections entry)) <= cm_high_water entry <= limit ->
  connections_ok limit (mkConnectionState live (<[member := entry]> (cs_members state))).
Proof.
  intros Hs H1 H2 m e. cbn. rewrite lookup_insert_Some. intros [[_ <-]|[_ Hl]]; [split_and!; [done|lia..]|exact (Hs m e Hl)].
Qed.

Lemma known_connection key connections :
  existsb (fun c => c.1 =? key) connections = false -> key ∉ (connections : list (Z * Z)).*1.
Proof.
  intros He ([k since] & -> & Hin)%list_elem_of_fmap. apply not_true_iff_false in He. apply He, existsb_exists.
  exists (k, since). split; [by apply list_elem_of_In|]. apply Z.eqb_refl.
Qed.

(** A peer has at most the limit of connections, each listed once. *)
Theorem connections_within_limit limit now server member certs state :
  0 <= limit -> connections_ok limit state ->
  connections_ok limit (admit_connection limit now server member certs state).2.
Proof.
  intros Hlim Hs. unfold admit_connection. destruct certs as [key|]; [|done].
  set (entry := default member_new (cs_members state !! member)).
  assert (NoDup (cm_connections entry).*1 /\ Z.of_nat (length (cm_connections entry)) <= cm_high_water entry <= limit) as [Hn Hl].
  { unfold entry. destruct (cs_members state !! member) as [e|] eqn:E; cbn; [by apply Hs in E as (? & ? & ?)|]. split; [constructor|lia]. }
  destruct (existsb _ _) eqn:Ek; [by apply connections_insert|].
  set (live := refresh now server (cs_live state)).
  pose proof (retained_sublist live (cm_connections entry)) as Hsub.
  assert (NoDup (retained live (cm_connections entry)).*1) as Hn' by (eapply sublist_NoDup; [|apply fmap_sublist, Hsub]; done).
  pose proof (sublist_length _ _ Hsub) as Hlen.
  destruct (Z.leb_spec limit (Z.of_nat (length (retained live (cm_connections entry))))).
  - apply connections_insert; cbn; [done|done|lia].
  - assert (NoDup (retained live (cm_connections entry) ++ [(key, now)]).*1) as Hn2.
    { rewrite fmap_app. apply NoDup_app. split; [done|]. split; [|apply NoDup_singleton].
      intros k Hin ->%list_elem_of_singleton. eapply known_connection; [done|].
      eapply elem_of_sublist; [done|]. by apply fmap_sublist. }
    destruct (Z.ltb_spec (cm_high_water entry) (Z.of_nat (length (retained live (cm_connections entry) ++ [(key, now)])))) as [Hw|Hw];
      apply connections_insert; cbn; try done; rewrite length_app in *; cbn in *; lia.
Qed.

(** A new connection is refused only when the limit is used up by connections that were live at the
    last look, or came later. *)
Theorem refused_only_when_full limit now server member key state state' :
  admit_connection limit now server member (Some key) state = (false, state') ->
  exists entry, cs_members state' !! member = Some entry /\ limit <= Z.of_nat (length (cm_connections entry))
    /\ Forall (fun c => c.1 <> key /\ forall taken keys, cs_live state' = Some (taken, keys) -> taken <= c.2 \/ c.1 ∈ keys)
         (cm_connections entry).
Proof.
  unfold admit_connection. set (entry := default member_new (cs_members state !! member)).
  destruct (existsb _ _) eqn:Ek; [done|]. set (live := refresh now server (cs_live state)).
  destruct (Z.leb_spec limit (Z.of_nat (length (retained live (cm_connections entry))))); [|done].
  intros [= <-]. eexists. cbn. rewrite lookup_insert_eq. split; [done|]. cbn. split; [done|].
  apply Forall_forall. intros [k since] Hin. split.
  - intros <-. eapply known_connection; [done|]. apply list_elem_of_fmap. exists (k, since). split; [done|].
    eapply elem_of_sublist; [done|]. apply retained_sublist.
  - intros taken keys El. unfold retained in Hin. rewrite El in Hin. apply elem_of_bool_filter in Hin as [_ Hf].
    cbn in *. apply orb_true_iff in Hf as [?%Z.leb_le|?%bool_decide_eq_true]; auto.
Qed.
