(* ===== verification/Mirror.v ===== *)
(** * The mirror of the on-chain state

    [crates/hashi/src/onchain/route.rs], [apply.rs] and [mirror.rs]: every Hashi transaction of the
    chain is applied to the node's copy of the state, object by object.  An object is routed by
    its owner to the map it belongs to; an index remembers the last version applied per object and
    what the object means, so that a deletion or a move retires the right entry.  Transactions
    come from a replay and from a live stream that overlap, and are applied once each.

    The contents of objects are decoded by BCS into types of which the mirror reads a few fields;
    both are parameters, with the conversions that parse keys. *)

From stdpp Require Import strings gmap.
From S2P Require Import MonitorDomain CoinSelection Withdrawals Deposits Prelude.

(** ** Objects *)

(** [sui_sdk_types::StructTag] *)
Inductive StructTag := mkStructTag (tag_address : Address) (tag_module tag_name : string) (type_params : list TypeTag)
with TypeTag := TStruct (t : StructTag) | TOther.

Definition tag_address (t : StructTag) : Address := match t with mkStructTag a _ _ _ => a end.
Definition tag_module (t : StructTag) : string := match t with mkStructTag _ m _ _ => m end.
Definition tag_name (t : StructTag) : string := match t with mkStructTag _ _ n _ => n end.
Definition type_params (t : StructTag) : list TypeTag := match t with mkStructTag _ _ _ p => p end.

(** [Address::TWO] *)
Definition SUI_FRAMEWORK : Address := 2.

Definition is_dynamic_field (tag : StructTag) : bool :=
  (tag_address tag =? SUI_FRAMEWORK) && String.eqb (tag_module tag) "dynamic_field" && String.eqb (tag_name tag) "Field"
  && (length (type_params tag) =? 2)%nat.

Definition is_field_with_value (tag : StructTag) (module name : string) : bool :=
  is_dynamic_field tag
  && match type_params tag !! 1%nat with
     | Some (TStruct value) => String.eqb (tag_module value) module && String.eqb (tag_name value) name
     | _ => false
     end.

Definition is_dof_wrapper (tag : StructTag) : bool :=
  is_dynamic_field tag
  && match type_params tag !! 0%nat with
     | Some (TStruct name_type) =>
         (tag_address name_type =? SUI_FRAMEWORK) && String.eqb (tag_module name_type) "dynamic_object_field"
         && String.eqb (tag_name name_type) "Wrapper"
     | _ => false
     end.

Definition is_committee_handoff (tag : StructTag) : bool := is_field_with_value tag "committee_set" "CommitteeHandoff".

Definition dynamic_field_value_tag (tag : StructTag) : option StructTag :=
  if is_dynamic_field tag then
    match type_params tag !! 1%nat with Some (TStruct value) => Some value | _ => None end
  else None.

Record PackageVersions := mkPackageVersions { pv_versions : gmap Z Address; pv_ids : gset Address }.

Definition packages_insert (version : Z) (package : Address) (self : PackageVersions) : PackageVersions :=
  mkPackageVersions (<[version := package]> (pv_versions self)) ({[package]} ∪ pv_ids self).

Definition packages_contains (self : PackageVersions) (address : Address) : bool := bool_decide (address ∈ pv_ids self).

(** [MoveType::matches], for the types of the first package version without parameters *)
Definition type_matches (packages : PackageVersions) (module name : string) (tag : StructTag) : bool :=
  bool_decide (pv_versions packages !! 1 = Some (tag_address tag)) && String.eqb (tag_module tag) module
  && String.eqb (tag_name tag) name && (length (type_params tag) =? 0)%nat.

Definition known_tob_bucket (packages : PackageVersions) (tag : StructTag) : bool :=
  match dynamic_field_value_tag tag with Some value => type_matches packages "tob" "EpochCertsV1" value | None => false end.

(** The checks of [decode_tob_node]. *)
Definition known_tob_node (packages : PackageVersions) (tag : StructTag) : bool :=
  match dynamic_field_value_tag tag with
  | Some node =>
      (tag_address node =? SUI_FRAMEWORK) && String.eqb (tag_module node) "linked_table" && String.eqb (tag_name node) "Node"
      && match type_params node !! 1%nat with
         | Some (TStruct value) => type_matches packages "tob" "DealerSubmissionV1" value
         | _ => false
         end
  | None => false
  end.

Record TobKey := mkTobKey { tk_epoch : Z; tk_batch_index : option Z; tk_protocol_type : Z }.

#[export] Instance TobKey_eq_dec : EqDecision TobKey.
Proof. solve_decision. Defined.
#[export] Instance TobKey_countable : Countable TobKey.
Proof.
  refine (inj_countable' (fun k => (tk_epoch k, tk_batch_index k, tk_protocol_type k)) (fun '(e, b, p) => mkTobKey e b p) _).
  by intros [].
Defined.

Record UpgradeCap := mkUpgradeCap { uc_package : Address; uc_version : Z }.

(** What is read of the decoded objects. *)
Class MirrorTypes := {
  Contents : Type;
  Config : Type;
  MemberInfo : Type;
  MoveCommittee : Type;
  MirrorCommittee : Type;
  Handoff : Type;
  SignedHandoff : Type;
  TreasuryCap : Type;
  MetadataCap : Type;
  Proposal : Type;
  TobNode : Type;
  TobSeal : Type;
  upgrade_cap : Config -> option UpgradeCap;
  validator_address : MemberInfo -> Address;
  member_tls_key : MemberInfo -> option Z;
  convert_move_committee : MoveCommittee -> MirrorCommittee;
  handoff_next_epoch : Handoff -> Z;
  convert_move_committee_handoff : Handoff -> MoveCommittee -> option SignedHandoff;
  treasury_coin_type : TreasuryCap -> string;
  metadata_coin_type : MetadataCap -> string;
  proposal_id : Proposal -> Address;
}.

(** The UIDs in the root object, and its own values. *)
Record Root `{MirrorTypes} := mkRoot {
  ro_members : Address;
  ro_committees : Address;
  ro_tls_public_keys : Address;
  ro_treasury : Address;
  ro_proposals_active : Address;
  ro_proposals_executed : Address;
  ro_tob : Address;
  ro_config : Config;
  ro_epoch_config : Config;
  ro_num_consumed_presigs : Z;
  ro_epoch : Z;
  ro_pending_epoch_change : option Z;
  ro_mpc_public_key : list Z;
}.

Record BitcoinState := mkBitcoinState {
  bs_deposit_requests : Address;
  bs_deposit_processed : Address;
  bs_withdrawal_requests : Address;
  bs_withdrawal_processed : Address;
  bs_withdrawal_txns : Address;
  bs_confirmed_txns : Address;
  bs_utxo_records : Address;
  bs_spent_utxos : Address;
  bs_user_requests : Address;
}.

(** A bucket of the ordered broadcast, as its field holds it. *)
Record EpochCerts `{MirrorTypes} := mkEpochCerts {
  ec_certs_id : Address;
  ec_head : option Address;
  ec_size : Z;
  ec_seal : option TobSeal;
}.

(** What BCS makes of the contents. *)
Class MirrorDecode `{MirrorTypes} := {
  decode_root : Contents -> option Root;
  decode_bitcoin_state : Contents -> option BitcoinState;
  decode_member : Contents -> option MemberInfo;
  decode_committee : Contents -> option (Z * MoveCommittee);
  decode_handoff : Contents -> option (Z * Handoff);
  decode_utxo_record : Contents -> option UtxoRecord;
  decode_deposit : Contents -> option DepositRequest;
  decode_withdrawal : Contents -> option MoveWithdrawalRequest;
  decode_txn : Contents -> option WithdrawalTransaction;
  decode_treasury_cap : StructTag -> Contents -> option TreasuryCap;
  decode_metadata_cap : StructTag -> Contents -> option MetadataCap;
  decode_proposal : StructTag -> Contents -> option Proposal;
  decode_tob_bucket : Contents -> option (TobKey * EpochCerts);
  decode_tob_node : Contents -> option (Address * TobNode);
  decode_user_bag : Contents -> option Address;
}.

Inductive Owner := OAddress | OImmutable | OObject (parent : Address) | OShared.

(** A package has no struct. *)
Record Object `{MirrorTypes} := mkObject {
  ob_id : Address;
  ob_version : Z;
  ob_owner : Owner;
  ob_struct : option (StructTag * Contents);
}.

(** ** Routing *)

Inductive Slot :=
| SlotMembers | SlotCommittees | SlotUtxoRecords
| SlotDepositRequests | SlotWithdrawalRequests | SlotWithdrawalTxns | SlotTreasury | SlotProposalsActive | SlotProposalsExecuted
| SlotTob | SlotTobCerts
| SlotDepositProcessed | SlotWithdrawalProcessed | SlotConfirmedTxns | SlotSpentUtxos | SlotTlsPublicKeys | SlotUserRequests | SlotUserRequestBag.

Record RoutingTable := mkRoutingTable {
  rt_hashi_id : Address;
  rt_bitcoin_state_field_id : Address;
  rt_containers : gmap Address Slot;
  rt_wrapper_parents : gmap Address Address;
  rt_tob_tables : gmap Address TobKey;
}.

Definition routing_new (hashi_id bitcoin_state_field_id : Address) : RoutingTable :=
  mkRoutingTable hashi_id bitcoin_state_field_id ∅ ∅ ∅.

Definition with_containers (f : gmap Address Slot -> gmap Address Slot) (self : RoutingTable) : RoutingTable :=
  mkRoutingTable (rt_hashi_id self) (rt_bitcoin_state_field_id self) (f (rt_containers self)) (rt_wrapper_parents self)
    (rt_tob_tables self).

Definition set_root_containers `{MirrorTypes} (root : Root) : RoutingTable -> RoutingTable :=
  with_containers (fun m =>
    <[ro_tob root := SlotTob]> (<[ro_proposals_executed root := SlotProposalsExecuted]>
      (<[ro_proposals_active root := SlotProposalsActive]> (<[ro_treasury root := SlotTreasury]>
        (<[ro_tls_public_keys root := SlotTlsPublicKeys]> (<[ro_committees root := SlotCommittees]>
          (<[ro_members root := SlotMembers]> m))))))).

Definition set_bitcoin_state_containers (state : BitcoinState) : RoutingTable -> RoutingTable :=
  with_containers (fun m =>
    <[bs_user_requests state := SlotUserRequests]> (<[bs_spent_utxos state := SlotSpentUtxos]>
      (<[bs_utxo_records state := SlotUtxoRecords]> (<[bs_confirmed_txns state := SlotConfirmedTxns]>
        (<[bs_withdrawal_txns state := SlotWithdrawalTxns]> (<[bs_withdrawal_processed state := SlotWithdrawalProcessed]>
          (<[bs_withdrawal_requests state := SlotWithdrawalRequests]> (<[bs_deposit_processed state := SlotDepositProcessed]>
            (<[bs_deposit_requests state := SlotDepositRequests]> m))))))))).

Definition register_interior (id : Address) (slot : Slot) : RoutingTable -> RoutingTable := with_containers <[id := slot]>.
Definition remove_interior (id : Address) : RoutingTable -> RoutingTable := with_containers (delete id).

Definition with_tob_tables (f : gmap Address TobKey -> gmap Address TobKey) (self : RoutingTable) : RoutingTable :=
  mkRoutingTable (rt_hashi_id self) (rt_bitcoin_state_field_id self) (rt_containers self) (rt_wrapper_parents self)
    (f (rt_tob_tables self)).
Definition register_tob_table (table : Address) (key : TobKey) : RoutingTable -> RoutingTable := with_tob_tables <[table := key]>.
Definition remove_tob_table (table : Address) : RoutingTable -> RoutingTable := with_tob_tables (delete table).
Definition tob_key_of_table (self : RoutingTable) (table : Address) : option TobKey := rt_tob_tables self !! table.

Definition with_wrapper_parents (f : gmap Address Address -> gmap Address Address) (self : RoutingTable) : RoutingTable :=
  mkRoutingTable (rt_hashi_id self) (rt_bitcoin_state_field_id self) (rt_containers self) (f (rt_wrapper_parents self))
    (rt_tob_tables self).
Definition register_wrapper (wrapper container : Address) : RoutingTable -> RoutingTable :=
  with_wrapper_parents <[wrapper := container]>.
Definition remove_wrapper (wrapper : Address) : RoutingTable -> RoutingTable := with_wrapper_parents (delete wrapper).

Definition slot_of_container (self : RoutingTable) (id : Address) : option Slot := rt_containers self !! id.

Definition resolve_owner (self : RoutingTable) (owner : Address) : option Slot :=
  match rt_containers self !! owner with
  | Some slot => Some slot
  | None => container ← rt_wrapper_parents self !! owner; rt_containers self !! container
  end.

Inductive TrackedKind :=
| KHashiRoot
| KBitcoinStateField
| KDofWrapper (container : Address)
| KMember (validator : Address)
| KCommittee (epoch : Z)
| KCommitteeHandoff (epoch : Z)
| KUtxoRecord (id : OutPoint)
| KDepositRequest (id : Address)
| KWithdrawalRequest (id : Address)
| KWithdrawalTxn (id : Address)
| KTreasuryCap (coin_type : string)
| KMetadataCap (coin_type : string)
| KProposal (executed : bool) (id : Address)
| KTobBucket (key : TobKey)
| KTobCert (key : TobKey) (dealer : Address)
| KIgnored.

#[export] Instance TrackedKind_eq_dec : EqDecision TrackedKind.
Proof. solve_decision. Defined.

Record TrackedObject := mkTracked { to_version : Z; to_kind : TrackedKind }.

(** [ObjectIndex] *)
Definition ObjectIndex : Type := gmap Address TrackedObject.

Definition is_stale_write (self : ObjectIndex) (id : Address) (version : Z) : bool :=
  match self !! id with Some entry => version <=? to_version entry | None => false end.

Definition index_record (id : Address) (version : Z) (kind : TrackedKind) (self : ObjectIndex) : ObjectIndex :=
  <[id := mkTracked version kind]> self.

Definition slot_for_kind (kind : TrackedKind) : option Slot :=
  match kind with
  | KHashiRoot | KBitcoinStateField | KDofWrapper _ => None
  | KMember _ => Some SlotMembers
  | KCommittee _ | KCommitteeHandoff _ => Some SlotCommittees
  | KUtxoRecord _ => Some SlotUtxoRecords
  | KDepositRequest _ => Some SlotDepositRequests
  | KWithdrawalRequest _ => Some SlotWithdrawalRequests
  | KWithdrawalTxn _ => Some SlotWithdrawalTxns
  | KTreasuryCap _ | KMetadataCap _ => Some SlotTreasury
  | KProposal executed _ => Some (if executed then SlotProposalsExecuted else SlotProposalsActive)
  | KTobBucket _ => Some SlotTob
  | KTobCert _ _ => Some SlotTobCerts
  | KIgnored => None
  end.
