(* ===== verification/MirrorApply.v ===== *)
(** * Applying a transaction to the mirror

    [crates/hashi/src/onchain/apply.rs], and the maps of [crates/hashi/src/onchain/types.rs] it
    writes.  The clients that are built for the members are not part of the state here. *)

From stdpp Require Import strings gmap.
From S2P Require Import MonitorDomain CoinSelection Withdrawals Deposits Mirror Prelude.

Section apply.
Context `{MD : MirrorDecode}.

(** ** The mirrored state *)

Record CommitteeSet := mkCommitteeSet {
  cs_members : gmap Address MemberInfo;
  cs_tls : gmap Z Address;
  cs_epoch : Z;
  cs_pending : option Z;
  cs_mpc_public_key : list Z;
  cs_committees : gmap Z MirrorCommittee;
  cs_raw_committees : gmap Z MoveCommittee;
  cs_handoffs : gmap Z SignedHandoff;
}.

Definition update_validator (info : MemberInfo) (self : CommitteeSet) : CommitteeSet :=
  let validator := validator_address info in
  let tls := match cs_members self !! validator ≫= member_tls_key with
             | Some key => delete key (cs_tls self)
             | None => cs_tls self
             end in
  let tls := match member_tls_key info with Some key => <[key := validator]> tls | None => tls end in
  mkCommitteeSet (<[validator := info]> (cs_members self)) tls (cs_epoch self) (cs_pending self) (cs_mpc_public_key self)
    (cs_committees self) (cs_raw_committees self) (cs_handoffs self).

Definition remove_validator (validator : Address) (self : CommitteeSet) : CommitteeSet :=
  let tls := match cs_members self !! validator ≫= member_tls_key with
             | Some key => delete key (cs_tls self)
             | None => cs_tls self
             end in
  mkCommitteeSet (delete validator (cs_members self)) tls (cs_epoch self) (cs_pending self) (cs_mpc_public_key self)
    (cs_committees self) (cs_raw_committees self) (cs_handoffs self).

Definition insert_onchain_committee (epoch : Z) (committee : MoveCommittee) (self : CommitteeSet) : CommitteeSet :=
  mkCommitteeSet (cs_members self) (cs_tls self) (cs_epoch self) (cs_pending self) (cs_mpc_public_key self)
    (<[epoch := convert_move_committee committee]> (cs_committees self))
    (<[epoch := committee]> (cs_raw_committees self)) (cs_handoffs self).

Definition remove_committee (epoch : Z) (self : CommitteeSet) : CommitteeSet :=
  mkCommitteeSet (cs_members self) (cs_tls self) (cs_epoch self) (cs_pending self) (cs_mpc_public_key self)
    (delete epoch (cs_committees self)) (delete epoch (cs_raw_committees self)) (cs_handoffs self).

Definition with_handoffs (f : gmap Z SignedHandoff -> gmap Z SignedHandoff) (self : CommitteeSet) : CommitteeSet :=
  mkCommitteeSet (cs_members self) (cs_tls self) (cs_epoch self) (cs_pending self) (cs_mpc_public_key self)
    (cs_committees self) (cs_raw_committees self) (f (cs_handoffs self)).

(** [set_epoch], [set_pending_epoch_change] and [set_mpc_public_key]: the key does not change. *)
Definition set_root_values (epoch : Z) (pending : option Z) (key : list Z) (self : CommitteeSet) : option CommitteeSet :=
  if bool_decide (cs_mpc_public_key self = []) || bool_decide (cs_mpc_public_key self = key) then
    Some (mkCommitteeSet (cs_members self) (cs_tls self) epoch pending key (cs_committees self) (cs_raw_committees self)
            (cs_handoffs self))
  else None.

Record TobBucket := mkTobBucket {
  tb_certs_id : Address;
  tb_head : option Address;
  tb_size : Z;
  tb_nodes : gmap Address TobNode;
  tb_seal : option TobSeal;
}.

Record Hashi := mkHashi {
  ha_config : Config;
  ha_epoch_config : Config;
  ha_num_consumed_presigs : Z;
  ha_committees : CommitteeSet;
  ha_utxo_records : gmap OutPoint UtxoRecord;
  ha_deposits : gmap Address DepositRequest;
  ha_withdrawals : gmap Address MoveWithdrawalRequest;
  ha_txns : gmap Address WithdrawalTransaction;
  ha_treasury_caps : gmap string TreasuryCap;
  ha_metadata_caps : gmap string MetadataCap;
  ha_active : gmap Address Proposal;
  ha_executed : gmap Address Proposal;
  ha_tob : gmap TobKey TobBucket;
}.

Definition with_committees (f : CommitteeSet -> CommitteeSet) (h : Hashi) : Hashi :=
  mkHashi (ha_config h) (ha_epoch_config h) (ha_num_consumed_presigs h) (f (ha_committees h)) (ha_utxo_records h) (ha_deposits h)
    (ha_withdrawals h) (ha_txns h) (ha_treasury_caps h) (ha_metadata_caps h) (ha_active h) (ha_executed h) (ha_tob h).
Definition with_utxo_records (f : gmap OutPoint UtxoRecord -> gmap OutPoint UtxoRecord) (h : Hashi) : Hashi :=
  mkHashi (ha_config h) (ha_epoch_config h) (ha_num_consumed_presigs h) (ha_committees h) (f (ha_utxo_records h)) (ha_deposits h)
    (ha_withdrawals h) (ha_txns h) (ha_treasury_caps h) (ha_metadata_caps h) (ha_active h) (ha_executed h) (ha_tob h).
Definition with_deposits (f : gmap Address DepositRequest -> gmap Address DepositRequest) (h : Hashi) : Hashi :=
  mkHashi (ha_config h) (ha_epoch_config h) (ha_num_consumed_presigs h) (ha_committees h) (ha_utxo_records h) (f (ha_deposits h))
    (ha_withdrawals h) (ha_txns h) (ha_treasury_caps h) (ha_metadata_caps h) (ha_active h) (ha_executed h) (ha_tob h).
Definition with_withdrawals (f : gmap Address MoveWithdrawalRequest -> gmap Address MoveWithdrawalRequest) (h : Hashi) : Hashi :=
  mkHashi (ha_config h) (ha_epoch_config h) (ha_num_consumed_presigs h) (ha_committees h) (ha_utxo_records h) (ha_deposits h)
    (f (ha_withdrawals h)) (ha_txns h) (ha_treasury_caps h) (ha_metadata_caps h) (ha_active h) (ha_executed h) (ha_tob h).
Definition with_txns (f : gmap Address WithdrawalTransaction -> gmap Address WithdrawalTransaction) (h : Hashi) : Hashi :=
  mkHashi (ha_config h) (ha_epoch_config h) (ha_num_consumed_presigs h) (ha_committees h) (ha_utxo_records h) (ha_deposits h)
    (ha_withdrawals h) (f (ha_txns h)) (ha_treasury_caps h) (ha_metadata_caps h) (ha_active h) (ha_executed h) (ha_tob h).
Definition with_treasury_caps (f : gmap string TreasuryCap -> gmap string TreasuryCap) (h : Hashi) : Hashi :=
  mkHashi (ha_config h) (ha_epoch_config h) (ha_num_consumed_presigs h) (ha_committees h) (ha_utxo_records h) (ha_deposits h)
    (ha_withdrawals h) (ha_txns h) (f (ha_treasury_caps h)) (ha_metadata_caps h) (ha_active h) (ha_executed h) (ha_tob h).
Definition with_metadata_caps (f : gmap string MetadataCap -> gmap string MetadataCap) (h : Hashi) : Hashi :=
  mkHashi (ha_config h) (ha_epoch_config h) (ha_num_consumed_presigs h) (ha_committees h) (ha_utxo_records h) (ha_deposits h)
    (ha_withdrawals h) (ha_txns h) (ha_treasury_caps h) (f (ha_metadata_caps h)) (ha_active h) (ha_executed h) (ha_tob h).
Definition with_proposals (executed : bool) (f : gmap Address Proposal -> gmap Address Proposal) (h : Hashi) : Hashi :=
  mkHashi (ha_config h) (ha_epoch_config h) (ha_num_consumed_presigs h) (ha_committees h) (ha_utxo_records h) (ha_deposits h)
    (ha_withdrawals h) (ha_txns h) (ha_treasury_caps h) (ha_metadata_caps h)
    (if executed then ha_active h else f (ha_active h)) (if executed then f (ha_executed h) else ha_executed h) (ha_tob h).
Definition with_tob (f : gmap TobKey TobBucket -> gmap TobKey TobBucket) (h : Hashi) : Hashi :=
  mkHashi (ha_config h) (ha_epoch_config h) (ha_num_consumed_presigs h) (ha_committees h) (ha_utxo_records h) (ha_deposits h)
    (ha_withdrawals h) (ha_txns h) (ha_treasury_caps h) (ha_metadata_caps h) (ha_active h) (ha_executed h) (f (ha_tob h)).

Definition with_nodes (f : gmap Address TobNode -> gmap Address TobNode) (b : TobBucket) : TobBucket :=
  mkTobBucket (tb_certs_id b) (tb_head b) (tb_size b) (f (tb_nodes b)) (tb_seal b).

(** ** Transactions *)

Inductive TxChange :=
| Written (obj : Object)
| Deleted (id : Address).

Record TxView := mkTxView {
  tv_checkpoint : Z;
  tv_transaction_index : Z;
  tv_timestamp_ms : Z;
  tv_changes : list TxChange;
  tv_unknown_states : list (Address * string);
}.

Inductive Effect :=
| ValidatorInfoUpdated (validator : Address)
| ReconfigStarted (epoch : Z)
| ReconfigAborted (epoch : Z)
| PackageUpgraded (package : Address) (version : Z)
| DepositRequestUpserted (request_id : Address) (outpoint : OutPoint)
| DepositRequestRemoved (request_id : Address)
| WithdrawalTxnFullySigned (txn : WithdrawalTransaction)
| WithdrawalTxnConfirmed (txn : WithdrawalTransaction)
| WithdrawalTxnRemoved (txn : WithdrawalTransaction).

(** Why an object could not be routed. *)
Inductive Unrouted :=
| UnknownState (state : string)
| WrapperNotOwned
| UnroutedType (tag : StructTag).

Record Applying := mkApplying {
  ap_hashi : Hashi;
  ap_packages : PackageVersions;
  ap_routing : RoutingTable;
  ap_index : ObjectIndex;
  ap_effects : list Effect;
  ap_unrouted : list (Address * Unrouted);
}.

#[local] Abbreviation A := (M Applying Empty_set).

Definition on_hashi (f : Hashi -> Hashi) : A unit :=
  modify (fun s => mkApplying (f (ap_hashi s)) (ap_packages s) (ap_routing s) (ap_index s) (ap_effects s) (ap_unrouted s)).
Definition on_packages (f : PackageVersions -> PackageVersions) : A unit :=
  modify (fun s => mkApplying (ap_hashi s) (f (ap_packages s)) (ap_routing s) (ap_index s) (ap_effects s) (ap_unrouted s)).
Definition on_routing (f : RoutingTable -> RoutingTable) : A unit :=
  modify (fun s => mkApplying (ap_hashi s) (ap_packages s) (f (ap_routing s)) (ap_index s) (ap_effects s) (ap_unrouted s)).
Definition on_index (f : ObjectIndex -> ObjectIndex) : A unit :=
  modify (fun s => mkApplying (ap_hashi s) (ap_packages s) (ap_routing s) (f (ap_index s)) (ap_effects s) (ap_unrouted s)).
Definition effect (e : Effect) : A unit :=
  modify (fun s => mkApplying (ap_hashi s) (ap_packages s) (ap_routing s) (ap_index s) (ap_effects s ++ [e]) (ap_unrouted s)).
Definition unrouted (id : Address) (why : Unrouted) : A unit :=
  modify (fun s => mkApplying (ap_hashi s) (ap_packages s) (ap_routing s) (ap_index s) (ap_effects s) (ap_unrouted s ++ [(id, why)])).

Definition when (b : bool) (m : A unit) : A unit := if b then m else mret tt.

Definition each {X} (f : X -> A unit) (l : list X) : A unit := foldM (fun _ x => f x) l tt.

(** ** Retiring *)

Definition retire (id : Address) (kind : TrackedKind) : A unit :=
  match kind with
  | KHashiRoot | KBitcoinStateField | KIgnored => mret tt
  | KDofWrapper _ => on_routing (remove_wrapper id)
  | KMember validator => on_hashi (with_committees (remove_validator validator))
  | KCommittee epoch => on_hashi (with_committees (remove_committee epoch))
  | KCommitteeHandoff epoch => on_hashi (with_committees (with_handoffs (delete epoch)))
  | KUtxoRecord utxo_id => on_hashi (with_utxo_records (delete utxo_id))
  | KDepositRequest request => _ ← on_hashi (with_deposits (delete request)); effect (DepositRequestRemoved request)
  | KWithdrawalRequest request => on_hashi (with_withdrawals (delete request))
  | KWithdrawalTxn txn =>
      old ← read (fun s => ha_txns (ap_hashi s) !! txn);
      match old with
      | Some old => _ ← on_hashi (with_txns (delete txn)); effect (WithdrawalTxnRemoved old)
      | None => mret tt
      end
  | KTreasuryCap coin_type => on_hashi (with_treasury_caps (delete coin_type))
  | KMetadataCap coin_type => on_hashi (with_metadata_caps (delete coin_type))
  | KProposal executed proposal => on_hashi (with_proposals executed (delete proposal))
  | KTobBucket key =>
      old ← read (fun s => ha_tob (ap_hashi s) !! key);
      match old with
      | Some bucket =>
          _ ← on_hashi (with_tob (delete key));
          _ ← on_routing (remove_tob_table (tb_certs_id bucket));
          on_routing (remove_interior (tb_certs_id bucket))
      | None => mret tt
      end
  | KTobCert key dealer => on_hashi (with_tob (alter (with_nodes (delete dealer)) key))
  end.

(** ** The root objects *)

Definition stale (obj : Object) : A bool := read (fun s => is_stale_write (ap_index s) (ob_id obj) (ob_version obj)).

Definition apply_root (obj : Object) : A unit :=
  is_stale ← stale obj;
  if (is_stale : bool) then mret tt
  else
    match ob_struct obj ≫= (fun '(_, contents) => decode_root contents) with
    | None => mret tt
    | Some root =>
        _ ← on_routing (set_root_containers root);
        h ← read ap_hashi;
        let new_config := ro_config root in
        _ ← match upgrade_cap (ha_config h), upgrade_cap new_config with
            | Some old, Some new =>
                when (negb (uc_package old =? uc_package new)) (effect (PackageUpgraded (uc_package new) (uc_version new)))
            | _, _ => mret tt
            end;
        _ ← match upgrade_cap new_config with
            | Some cap => on_packages (packages_insert (uc_version cap) (uc_package cap))
            | None => mret tt
            end;
        _ ← on_hashi (fun h => mkHashi new_config (ro_epoch_config root) (ro_num_consumed_presigs root) (ha_committees h)
               (ha_utxo_records h) (ha_deposits h) (ha_withdrawals h) (ha_txns h) (ha_treasury_caps h) (ha_metadata_caps h)
               (ha_active h) (ha_executed h) (ha_tob h));
        let old_pending := cs_pending (ha_committees h) in
        let new_pending := ro_pending_epoch_change root in
        _ ← match new_pending with
            | Some epoch => when (bool_decide (old_pending <> new_pending)) (effect (ReconfigStarted epoch))
            | None => mret tt
            end;
        _ ← match old_pending with
            | Some epoch =>
                when (bool_decide (new_pending = None) && (ro_epoch root =? cs_epoch (ha_committees h))
                      && bool_decide (ro_mpc_public_key root = cs_mpc_public_key (ha_committees h)))
                  (effect (ReconfigAborted epoch))
            | None => mret tt
            end;
        match set_root_values (ro_epoch root) new_pending (ro_mpc_public_key root) (ha_committees h) with
        | None => of_outcome Panic
        | Some committees =>
            _ ← on_hashi (with_committees (fun _ => committees));
            on_index (index_record (ob_id obj) (ob_version obj) KHashiRoot)
        end
    end.

Definition apply_bitcoin_state (obj : Object) : A unit :=
  is_stale ← stale obj;
  if (is_stale : bool) then mret tt
  else
    match ob_struct obj ≫= (fun '(_, contents) => decode_bitcoin_state contents) with
    | None => mret tt
    | Some state =>
        _ ← on_routing (set_bitcoin_state_containers state);
        on_index (index_record (ob_id obj) (ob_version obj) KBitcoinStateField)
    end.

Definition apply_wrapper (obj : Object) : A unit :=
  match ob_owner obj with
  | OObject container =>
      known ← read (fun s => slot_of_container (ap_routing s) container);
      match known with
      | None => mret tt
      | Some _ =>
          _ ← on_routing (register_wrapper (ob_id obj) container);
          is_stale ← stale obj;
          if (is_stale : bool) then mret tt else on_index (index_record (ob_id obj) (ob_version obj) (KDofWrapper container))
      end
  | _ => unrouted (ob_id obj) WrapperNotOwned
  end.

(** ** Writes *)

(** What a write turns out to be; [Stop]: the handler returns. *)
Inductive Decoded := Stop | Unknown | Decodes (kind : TrackedKind).

Definition decoded {X} (o : option X) (f : X -> A Decoded) : A Decoded :=
  match o with Some x => f x | None => mret Unknown end.

Definition apply_committee_handoff (from_epoch : Z) (handoff : Handoff) : A bool :=
  raw ← read (fun s => cs_raw_committees (ha_committees (ap_hashi s)) !! handoff_next_epoch handoff);
  match raw ≫= convert_move_committee_handoff handoff with
  | Some signed => _ ← on_hashi (with_committees (with_handoffs <[from_epoch := signed]>)); mret true
  | None => mret false
  end.

Definition write_slot (slot : Slot) (obj : Object) (tag : StructTag) (contents : Contents) : A Decoded :=
  match slot with
  | SlotMembers =>
      decoded (decode_member contents) (fun info =>
        _ ← on_hashi (with_committees (update_validator info));
        _ ← effect (ValidatorInfoUpdated (validator_address info));
        mret (Decodes (KMember (validator_address info))))
  | SlotCommittees =>
      if is_committee_handoff tag then
        decoded (decode_handoff contents) (fun '(from_epoch, handoff) =>
          ok ← apply_committee_handoff from_epoch handoff;
          mret (if (ok : bool) then Decodes (KCommitteeHandoff from_epoch) else Unknown))
      else if is_field_with_value tag "committee" "Committee" then
        decoded (decode_committee contents) (fun '(epoch, committee) =>
          _ ← on_hashi (with_committees (insert_onchain_committee epoch committee));
          mret (Decodes (KCommittee epoch)))
      else mret Unknown
  | SlotUtxoRecords =>
      decoded (decode_utxo_record contents) (fun record =>
        _ ← on_hashi (with_utxo_records <[mu_id (rec_utxo record) := record]>);
        mret (Decodes (KUtxoRecord (mu_id (rec_utxo record)))))
  | SlotSpentUtxos => mret Stop
  | SlotDepositRequests =>
      decoded (decode_deposit contents) (fun request =>
        _ ← effect (DepositRequestUpserted (dq_id request) (mu_id (dq_utxo request)));
        _ ← on_hashi (with_deposits <[dq_id request := request]>);
        mret (Decodes (KDepositRequest (dq_id request))))
  | SlotWithdrawalRequests =>
      decoded (decode_withdrawal contents) (fun request =>
        _ ← on_hashi (with_withdrawals <[wr_id request := request]>);
        mret (Decodes (KWithdrawalRequest (wr_id request))))
  | SlotWithdrawalTxns =>
      decoded (decode_txn contents) (fun txn =>
        old ← read (fun s => ha_txns (ap_hashi s) !! wt_id txn);
        let was_fully_signed := match old with Some t => is_fully_signed t | None => false end in
        let was_confirmed := match old with Some t => bool_decide (is_Some (wt_confirmed_timestamp_ms t)) | None => false end in
        _ ← when (negb was_fully_signed && is_fully_signed txn) (effect (WithdrawalTxnFullySigned txn));
        _ ← when (negb was_confirmed && bool_decide (is_Some (wt_confirmed_timestamp_ms txn))) (effect (WithdrawalTxnConfirmed txn));
        _ ← on_hashi (with_txns <[wt_id txn := txn]>);
        mret (Decodes (KWithdrawalTxn (wt_id txn))))
  | SlotTreasury =>
      match decode_treasury_cap tag contents with
      | Some cap =>
          _ ← on_hashi (with_treasury_caps <[treasury_coin_type cap := cap]>);
          mret (Decodes (KTreasuryCap (treasury_coin_type cap)))
      | None =>
          decoded (decode_metadata_cap tag contents) (fun cap =>
            _ ← on_hashi (with_metadata_caps <[metadata_coin_type cap := cap]>);
            mret (Decodes (KMetadataCap (metadata_coin_type cap))))
      end
  | SlotProposalsActive | SlotProposalsExecuted =>
      decoded (decode_proposal tag contents) (fun proposal =>
        let executed := match slot with SlotProposalsExecuted => true | _ => false end in
        _ ← on_hashi (with_proposals executed <[proposal_id proposal := proposal]>);
        mret (Decodes (KProposal executed (proposal_id proposal))))
  | SlotTob =>
      packages ← read ap_packages;
      if known_tob_bucket packages tag then
        decoded (decode_tob_bucket contents) (fun '(key, certs) =>
          _ ← on_routing (register_interior (ec_certs_id certs) SlotTobCerts);
          _ ← on_routing (register_tob_table (ec_certs_id certs) key);
          _ ← on_hashi (with_tob (fun m =>
                let nodes := match m !! key with Some b => tb_nodes b | None => ∅ end in
                <[key := mkTobBucket (ec_certs_id certs) (ec_head certs) (ec_size certs) nodes (ec_seal certs)]> m));
          mret (Decodes (KTobBucket key)))
      else mret Unknown
  | SlotTobCerts =>
      match ob_owner obj with
      | OObject parent =>
          s ← read (fun s => (tob_key_of_table (ap_routing s) parent, ap_packages s));
          match s with
          | (Some key, packages) =>
              if known_tob_node packages tag then
                decoded (decode_tob_node contents) (fun '(dealer, node) =>
                  _ ← on_hashi (with_tob (alter (with_nodes <[dealer := node]>) key));
                  mret (Decodes (KTobCert key dealer)))
              else mret Unknown
          | (None, _) => mret Unknown
          end
      | _ => mret Stop
      end
  | SlotUserRequests =>
      decoded (decode_user_bag contents) (fun bag =>
        _ ← on_routing (register_interior bag SlotUserRequestBag);
        mret (Decodes KIgnored))
  | SlotDepositProcessed | SlotWithdrawalProcessed | SlotConfirmedTxns | SlotTlsPublicKeys | SlotUserRequestBag => mret (Decodes KIgnored)
  end.

(** A write whose meaning changed retires the old entry, then it is recorded. *)
Definition record_write (obj : Object) (kind : TrackedKind) : A unit :=
  old ← read (fun s => ap_index s !! ob_id obj);
  _ ← match old with
      | Some old => when (bool_decide (to_kind old <> kind)) (retire (ob_id obj) (to_kind old))
      | None => mret tt
      end;
  on_index (index_record (ob_id obj) (ob_version obj) kind).

Definition apply_write (obj : Object) : A unit :=
  match ob_struct obj, ob_owner obj with
  | Some (tag, contents), OObject parent =>
      slot ← read (fun s =>
        match resolve_owner (ap_routing s) parent with
        | Some slot => Some slot
        | None => entry ← ap_index s !! ob_id obj; slot_for_kind (to_kind entry)
        end);
      match slot with
      | None =>
          known ← read (fun s => packages_contains (ap_packages s) (tag_address tag));
          when known (unrouted (ob_id obj) (UnroutedType tag))
      | Some slot =>
          is_stale ← stale obj;
          if (is_stale : bool) then mret tt
          else
            d ← write_slot slot obj tag contents;
            match d with
            | Stop => mret tt
            | Unknown => unrouted (ob_id obj) (UnroutedType tag)
            | Decodes kind => record_write obj kind
            end
      end
  | _, _ => mret tt
  end.

(** ** The passes *)

Definition written (c : TxChange) : option Object := match c with Written obj => Some obj | Deleted _ => None end.
Definition deleted (c : TxChange) : option Address := match c with Deleted id => Some id | Written _ => None end.

Definition is_root_object (r : RoutingTable) (obj : Object) : bool :=
  (ob_id obj =? rt_hashi_id r) || (ob_id obj =? rt_bitcoin_state_field_id r).

Definition tag_is (f : StructTag -> bool) (obj : Object) : bool :=
  match ob_struct obj with Some (tag, _) => f tag | None => false end.

Definition pass_roots (obj : Object) : A unit :=
  r ← read ap_routing;
  if ob_id obj =? rt_hashi_id r then apply_root obj
  else when (ob_id obj =? rt_bitcoin_state_field_id r) (apply_bitcoin_state obj).

Definition registers_interior (r : RoutingTable) (obj : Object) : bool :=
  match ob_owner obj with
  | OObject parent => match resolve_owner r parent with Some (SlotTob | SlotUserRequests) => true | _ => false end
  | _ => false
  end.

(** The first round of pass 3: writes that register a container are applied, the others kept. *)
Definition pass_interior (acc : list Object * list Object) (obj : Object) : A (list Object * list Object) :=
  r ← read ap_routing;
  if is_root_object r obj || negb (tag_is (fun _ => true) obj) || tag_is is_dof_wrapper obj then mret acc
  else if tag_is is_committee_handoff obj then mret (acc.1, acc.2 ++ [obj])
  else if registers_interior r obj then _ ← apply_write obj; mret acc
  else mret (acc.1 ++ [obj], acc.2).

Definition delete_object (id : Address) : A unit :=
  entry ← read (fun s => ap_index s !! id);
  match entry with
  | None => mret tt
  | Some entry => _ ← on_index (delete id); retire id (to_kind entry)
  end.

Definition apply_transaction (tx : TxView) : A unit :=
  let writes := omap written (tv_changes tx) in
  _ ← each (fun '(id, state) => unrouted id (UnknownState state)) (tv_unknown_states tx);
  _ ← each pass_roots writes;
  _ ← each (fun obj => when (tag_is is_dof_wrapper obj) (apply_wrapper obj)) writes;
  kept ← foldM pass_interior writes ([], []);
  _ ← each apply_write kept.1;
  _ ← each apply_write kept.2;
  each delete_object (omap deleted (tv_changes tx)).
End apply.
