(* ===== verification/MirrorTracking.v ===== *)
(** * The index knows what the mirror holds

    An entry is in the mirror exactly while an object of the chain that was applied stands for it:
    what the chain deletes or moves leaves the mirror, and nothing else does. *)

From stdpp Require Import strings gmap.
From S2P Require Import CoinSelection MonitorDomain Withdrawals Deposits Mirror MirrorApply Prelude.

Section tracking.
Context `{MD : MirrorDecode}.

#[local] Abbreviation A := (M Applying Empty_set).

(** The mirror has an entry of this meaning. *)
Definition mirrored (h : Hashi) (k : TrackedKind) : Prop :=
  match k with
  | KMember v => is_Some (cs_members (ha_committees h) !! v)
  | KCommittee e => is_Some (cs_raw_committees (ha_committees h) !! e)
  | KCommitteeHandoff e => is_Some (cs_handoffs (ha_committees h) !! e)
  | KUtxoRecord u => is_Some (ha_utxo_records h !! u)
  | KDepositRequest r => is_Some (ha_deposits h !! r)
  | KWithdrawalRequest r => is_Some (ha_withdrawals h !! r)
  | KWithdrawalTxn t => is_Some (ha_txns h !! t)
  | KTreasuryCap c => is_Some (ha_treasury_caps h !! c)
  | KMetadataCap c => is_Some (ha_metadata_caps h !! c)
  | KProposal executed p => is_Some ((if executed then ha_executed h else ha_active h) !! p)
  | KTobBucket key => is_Some (ha_tob h !! key)
  | KTobCert key dealer => exists b, ha_tob h !! key = Some b /\ is_Some (tb_nodes b !! dealer)
  | KHashiRoot | KBitcoinStateField | KDofWrapper _ | KIgnored => False
  end.

(** Meanings with an entry of their own; a submission lives in its bucket. *)
Definition is_entry (k : TrackedKind) : bool :=
  match k with KHashiRoot | KBitcoinStateField | KDofWrapper _ | KIgnored | KTobCert _ _ => false | _ => true end.

Definition is_cert (k : TrackedKind) : bool := match k with KTobCert _ _ => true | _ => false end.

(** ** Steps *)

Definition hoare {X} (P : Applying -> Prop) (m : A X) (Q : X -> Applying -> Prop) : Prop :=
  forall s r s', P s -> m s = (r, s') -> match r with Ok a => Q a s' | _ => True end.

Lemma hoare_bind {X Y} P (m : A X) (f : X -> A Y) Q R :
  hoare P m Q -> (forall a, hoare (Q a) (f a) R) -> hoare P (m ≫= f) R.
Proof.
  intros Hm Hf s r s' Hs. unfold mbind, M_bind. destruct (m s) as [[a|e|] s1] eqn:E; pose proof (Hm s _ _ Hs E) as H1;
    [intros E2; exact (Hf a s1 r s' H1 E2)|by intros [= <- <-]..].
Qed.

Lemma hoare_ret {X} (a : X) (P : X -> Applying -> Prop) : hoare (P a) (mret a) P.
Proof. by intros s r s' Hs [= <- <-]. Qed.

Lemma hoare_conseq {X} (P P' : Applying -> Prop) (m : A X) (Q Q' : X -> Applying -> Prop) :
  hoare P m Q -> (forall s, P' s -> P s) -> (forall a s, Q a s -> Q' a s) -> hoare P' m Q'.
Proof. intros Hm HP HQ s r s' Hs E. specialize (Hm s r s' (HP s Hs) E). destruct r; auto. Qed.

Lemma hoare_modify f P (Q : unit -> Applying -> Prop) : (forall s, P s -> Q tt (f s)) -> hoare P (modify f) Q.
Proof. intros Hf s r s' Hs [= <- <-]. by apply Hf. Qed.

Lemma hoare_read {X} (f : Applying -> X) P : hoare P (read f) (fun a s => P s /\ a = f s).
Proof. by intros s r s' Hs [= <- <-]. Qed.

Lemma hoare_fold {X B} (f : B -> X -> A B) l (P : B -> Applying -> Prop) :
  (forall b x, x ∈ l -> hoare (P b) (f b x) P) -> forall b, hoare (P b) (foldM f l b) P.
Proof.
  induction l as [|x l IH]; intros Hf b; cbn; [apply hoare_ret|].
  eapply hoare_bind; [apply Hf; left|]. intros b'. apply IH. intros b1 y Hy. apply Hf. by right.
Qed.

Lemma hoare_each {X} (f : X -> A unit) l (P : Applying -> Prop) :
  (forall x, x ∈ l -> hoare P (f x) (fun _ => P)) -> hoare P (each f l) (fun _ => P).
Proof. intros Hf. apply (hoare_fold (fun _ x => f x) l (fun _ => P)). intros _. apply Hf. Qed.

Lemma hoare_when b m P : hoare P m (fun _ => P) -> hoare P (when b m) (fun _ => P).
Proof. intros Hm. destruct b; [done|]. apply (hoare_ret tt (fun _ => P)). Qed.

(** ** What a write adds *)

(** Compared to a state: the same index and roots, and one more entry at most. *)
Record adds (s0 : Applying) (k : option TrackedKind) (s : Applying) : Prop := {
  ad_index : ap_index s = ap_index s0;
  ad_roots : rt_hashi_id (ap_routing s) = rt_hashi_id (ap_routing s0)
    /\ rt_bitcoin_state_field_id (ap_routing s) = rt_bitcoin_state_field_id (ap_routing s0);
  ad_new k' : mirrored (ap_hashi s) k' -> mirrored (ap_hashi s0) k' \/ k = Some k';
  ad_old k' : mirrored (ap_hashi s0) k' -> mirrored (ap_hashi s) k';
  ad_entry k' : k = Some k' -> is_entry k' = true -> mirrored (ap_hashi s) k';
}.

Lemma adds_refl s : adds s None s.
Proof. split; auto; intros k' [=]. Qed.

Lemma insert_old {K V} `{Countable K} (m : gmap K V) i j x : is_Some (m !! j) -> is_Some (<[i := x]> m !! j).
Proof. intros Hj. destruct (decide (i = j)) as [->|]; [by rewrite lookup_insert_eq|by rewrite lookup_insert_ne]. Qed.

Lemma insert_new {K V} `{Countable K} (m : gmap K V) i j x : is_Some (<[i := x]> m !! j) -> is_Some (m !! j) \/ i = j.
Proof. destruct (decide (i = j)) as [->|]; [by right|]. rewrite lookup_insert_ne by done. by left. Qed.

Lemma delete_new {K V} `{Countable K} (m : gmap K V) i j : is_Some (delete i m !! j) <-> is_Some (m !! j) /\ i <> j.
Proof.
  destruct (decide (i = j)) as [->|]; [rewrite lookup_delete_eq; split; [by intros []|by intros []]|].
  rewrite lookup_delete_ne by done. naive_solver.
Qed.

(** An action that touches neither the entries nor the index. *)
Definition quiet (m : A unit) : Prop := forall s0 k, hoare (adds s0 k) m (fun _ => adds s0 k).

Lemma quiet_effect e : quiet (effect e).
Proof. intros s0 k. apply hoare_modify. intros s []. by split. Qed.
Lemma quiet_unrouted id why : quiet (unrouted id why).
Proof. intros s0 k. apply hoare_modify. intros s []. by split. Qed.
Lemma quiet_when b m : quiet m -> quiet (when b m).
Proof. intros Hm s0 k. apply hoare_when, Hm. Qed.
Lemma quiet_ret : quiet (mret tt).
Proof. intros s0 k. apply (hoare_ret tt (fun _ => adds s0 k)). Qed.
Lemma quiet_packages f : quiet (on_packages f).
Proof. intros s0 k. apply hoare_modify. intros s []. by split. Qed.
Lemma quiet_routing f :
  (forall r, rt_hashi_id (f r) = rt_hashi_id r /\ rt_bitcoin_state_field_id (f r) = rt_bitcoin_state_field_id r) ->
  quiet (on_routing f).
Proof. intros Hf s0 k. apply hoare_modify. intros s [? ? ? ? ?]. split; try done. destruct (Hf (ap_routing s)). naive_solver congruence. Qed.

(** One entry is written. *)
Lemma hashi_adds f k :
  (forall h k', mirrored (f h) k' -> mirrored h k' \/ k = k') ->
  (forall h k', mirrored h k' -> mirrored (f h) k') ->
  (is_entry k = true -> forall h, mirrored (f h) k) ->
  forall s0, hoare (adds s0 None) (on_hashi f) (fun _ => adds s0 (Some k)).
Proof.
  intros H1 H2 H3 s0. apply hoare_modify. intros s [Hi Hr Hn Ho _]. split; cbn; try done.
  - intros k' [Hk| ->]%H1; [|by right]. destruct (Hn k' Hk) as [|[=]]. by left.
  - intros k' Hk. by apply H2, Ho.
  - intros k' [= ->] He. by apply H3.
Qed.

Lemma adds_kind s0 k s : is_entry k = false -> adds s0 None s -> adds s0 (Some k) s.
Proof.
  intros He [Hi Hr Hn Ho _]. split; try done.
  - intros k' Hk. destruct (Hn k' Hk) as [|[=]]. by left.
  - intros k' [= ->]. by rewrite He.
Qed.

(** An entry is inserted in its map. *)
Ltac inserts :=
  apply hashi_adds;
  [intros h' k'; destruct k'; cbn; auto; repeat case_match; auto; (intros [|]%insert_new; [by left|right; by subst])
  |intros h' k'; destruct k'; cbn; auto; repeat case_match; auto; apply insert_old
  |intros _ h'; cbn; repeat case_match; by rewrite ?lookup_insert_eq].

Lemma bucket_adds key (f : option TobBucket -> TobBucket) s0 :
  (forall o, tb_nodes (f o) = match o with Some b => tb_nodes b | None => ∅ end) ->
  hoare (adds s0 None) (on_hashi (with_tob (fun m => <[key := f (m !! key)]> m))) (fun _ => adds s0 (Some (KTobBucket key))).
Proof.
  intros Hf. apply hashi_adds.
  - intros h' []; cbn; auto; [intros [|]%insert_new; [by left|right; by subst]|].
    intros (b & Hb & Hd). left. apply lookup_insert_Some in Hb as [[<- <-]|[_ Hb]]; [|by exists b].
    rewrite Hf in Hd. destruct (ha_tob h' !! key) as [b|]; [by exists b|by rewrite lookup_empty in Hd; destruct Hd].
  - intros h' []; cbn; auto; [apply insert_old|]. intros (b & Hb & Hd). destruct (decide (key = key0)) as [<-|].
    + exists (f (Some b)). rewrite Hb, lookup_insert_eq. split; [done|]. by rewrite Hf.
    + exists b. by rewrite lookup_insert_ne.
  - intros _ h'. cbn. by rewrite lookup_insert_eq.
Qed.

Lemma cert_adds key dealer node s0 :
  hoare (adds s0 None) (on_hashi (with_tob (alter (with_nodes <[dealer := node]>) key))) (fun _ => adds s0 (Some (KTobCert key dealer))).
Proof.
  apply hashi_adds; [| |done].
  - intros h' []; cbn; auto; [rewrite lookup_alter_is_Some; by left|].
    intros (b & Hb & Hd). apply lookup_alter_Some in Hb as [(<- & b0 & Hb & ->)|[_ Hb]]; [|left; by exists b].
    cbn in Hd. apply insert_new in Hd as [Hd| ->]; [left; by exists b0|by right].
  - intros h' []; cbn; auto; [by rewrite lookup_alter_is_Some|].
    intros (b & Hb & Hd). destruct (decide (key = key0)) as [<-|].
    + exists (with_nodes <[dealer := node]> b). rewrite lookup_alter_eq, Hb. split; [done|]. by apply insert_old.
    + exists b. by rewrite lookup_alter_ne.
Qed.

Definition kind_of (d : Decoded) : option TrackedKind := match d with Decodes k => Some k | _ => None end.

Definition decoding (s0 : Applying) (m : A Decoded) : Prop := hoare (adds s0 None) m (fun d => adds s0 (kind_of d)).

Lemma decoding_unknown s0 d : kind_of d = None -> decoding s0 (mret d).
Proof. intros Hd. unfold decoding. rewrite <- Hd. apply (hoare_ret d (fun d => adds s0 (kind_of d))). Qed.

Lemma decoding_nothing s0 k : is_entry k = false -> decoding s0 (mret (Decodes k)).
Proof.
  intros Hk. eapply hoare_conseq; [apply (hoare_ret (Decodes k) (fun d => adds s0 (kind_of d)))| |done].
  intros s. by apply adds_kind.
Qed.

Lemma decoding_entry s0 (m : A unit) k :
  hoare (adds s0 None) m (fun _ => adds s0 (Some k)) -> decoding s0 (_ ← m; mret (Decodes k)).
Proof. intros Hm. eapply hoare_bind; [exact Hm|]. intros []. apply (hoare_ret (Decodes k) (fun d => adds s0 (kind_of d))). Qed.

Lemma decoding_then s0 (m : A unit) (n : A Decoded) : quiet m -> decoding s0 n -> decoding s0 (_ ← m; n).
Proof. intros Hm Hn. eapply hoare_bind; [apply Hm|]. by intros []. Qed.

Lemma decoding_entry_then s0 (m n : A unit) k :
  hoare (adds s0 None) m (fun _ => adds s0 (Some k)) -> quiet n -> decoding s0 (_ ← m; _ ← n; mret (Decodes k)).
Proof.
  intros Hm Hn. eapply hoare_bind; [exact Hm|]. intros []. eapply hoare_bind; [apply Hn|]. intros [].
  apply (hoare_ret (Decodes k) (fun d => adds s0 (kind_of d))).
Qed.

Lemma decoding_read {X} s0 (f : Applying -> X) n : (forall x, decoding s0 (n x)) -> decoding s0 (x ← read f; n x).
Proof.
  intros Hn. eapply hoare_bind; [apply hoare_read|]. intros x. eapply hoare_conseq; [apply Hn| |done]. by intros s [].
Qed.

Lemma decoded_case {X} s0 (o : option X) n : (forall x, decoding s0 (n x)) -> decoding s0 (decoded o n).
Proof. intros Hn. destruct o; [apply Hn|by apply decoding_unknown]. Qed.

Lemma handoff_decoding s0 epoch handoff :
  decoding s0 (ok ← apply_committee_handoff epoch handoff; mret (if (ok : bool) then Decodes (KCommitteeHandoff epoch) else Unknown)).
Proof.
  set (Q (ok : bool) := adds s0 (if ok then Some (KCommitteeHandoff epoch) else None)). unfold apply_committee_handoff.
  eapply hoare_bind with (Q := Q).
  - eapply hoare_bind; [apply hoare_read|]. intros raw. eapply hoare_conseq with (P := adds s0 None); [|by intros s []|done].
    destruct (raw ≫= _) as [signed|]; [|apply (hoare_ret false Q)].
    eapply hoare_bind with (Q := fun _ => Q true); [subst Q; cbv beta iota; inserts|]. intros []. apply (hoare_ret true Q).
  - intros []; [apply (hoare_ret (Decodes (KCommitteeHandoff epoch)) (fun d => adds s0 (kind_of d)))|by apply decoding_unknown].
Qed.

Lemma write_slot_adds slot obj tag contents s0 : decoding s0 (write_slot slot obj tag contents).
Proof.
  destruct slot; cbn; try (by apply decoding_nothing); try (by apply decoding_unknown).
  - apply decoded_case. intros info. apply decoding_entry_then; [inserts|apply quiet_effect].
  - destruct (is_committee_handoff tag); [|destruct (is_field_with_value tag _ _); [|by apply decoding_unknown]].
    + apply decoded_case. intros [epoch handoff]. apply handoff_decoding.
    + apply decoded_case. intros [epoch committee]. apply decoding_entry. inserts.
  - apply decoded_case. intros record. apply decoding_entry. inserts.
  - apply decoded_case. intros request. apply decoding_then; [apply quiet_effect|]. apply decoding_entry. inserts.
  - apply decoded_case. intros request. apply decoding_entry. inserts.
  - apply decoded_case. intros txn. apply decoding_read. intros old.
    do 2 (apply decoding_then; [apply quiet_when, quiet_effect|]). apply decoding_entry. inserts.
  - destruct (decode_treasury_cap tag contents); [apply decoding_entry; inserts|].
    apply decoded_case. intros cap. apply decoding_entry. inserts.
  - apply decoded_case. intros proposal. apply decoding_entry. inserts.
  - apply decoded_case. intros proposal. apply decoding_entry. inserts.
  - apply decoding_read. intros packages. destruct (known_tob_bucket packages tag); [|by apply decoding_unknown].
    apply decoded_case. intros [key certs]. do 2 (apply decoding_then; [by apply quiet_routing|]).
    apply decoding_entry. apply (bucket_adds key (fun o => mkTobBucket _ _ _ (match o with Some b => tb_nodes b | None => ∅ end) _)). done.
  - destruct (ob_owner obj); try (by apply decoding_unknown). apply decoding_read. intros [[key|] packages]; [|by apply decoding_unknown].
    destruct (known_tob_node packages tag); [|by apply decoding_unknown].
    apply decoded_case. intros [dealer node]. apply decoding_entry, cert_adds.
  - apply decoded_case. intros bag. apply decoding_then; [by apply quiet_routing|]. by apply decoding_nothing.
Qed.

(** A write means what its slot holds. *)
Definition means (slot : Slot) (d : Decoded) : Prop :=
  forall k slot', kind_of d = Some k -> slot_for_kind k = Some slot' -> slot' = slot.

Lemma write_slot_means slot obj tag contents s r s' :
  write_slot slot obj tag contents s = (r, s') -> match r with Ok d => means slot d | _ => True end.
Proof.
  unfold means. destruct slot; cbn; unfold decoded, apply_committee_handoff, mbind, M_bind, read, on_hashi, on_routing, effect, modify, when, mret, M_ret;
    repeat (case_match; cbn; try (intros [= <- <-]; intros; naive_solver)).
Qed.

(** ** What retiring removes *)

Record drops (s0 : Applying) (k : TrackedKind) (s : Applying) : Prop := {
  dr_index : ap_index s = ap_index s0;
  dr_gone k' : mirrored (ap_hashi s) k' -> mirrored (ap_hashi s0) k' /\ k' <> k;
  dr_kept k' : mirrored (ap_hashi s0) k' -> is_entry k' = true -> k' <> k -> mirrored (ap_hashi s) k';
}.

Lemma drops_hashi f k s0 s :
  ap_index s = ap_index s0 -> ap_hashi s = f (ap_hashi s0) ->
  (forall h k', mirrored (f h) k' -> mirrored h k' /\ k' <> k) ->
  (forall h k', mirrored h k' -> is_entry k' = true -> k' <> k -> mirrored (f h) k') -> drops s0 k s.
Proof. intros Hi Hh H1 H2. split; rewrite ?Hh; auto. Qed.

Ltac removes f :=
  apply (drops_hashi f); try done;
  [intros h' k'; destruct k'; cbn; try done; repeat case_match; try done;
     (intros [? ?]%delete_new; split; [done|]; congruence)
  |intros h' k'; destruct k'; cbn; try done; repeat case_match; try done;
     (intros ? _ ?; apply delete_new; split; [done|congruence])].

Lemma drops_nothing k s0 s :
  ap_index s = ap_index s0 -> ap_hashi s = ap_hashi s0 -> ~ mirrored (ap_hashi s0) k -> drops s0 k s.
Proof. intros Hi Hh Hk. split; rewrite ?Hh; auto. intros k' Hk'. split; [done|]. by intros ->. Qed.

Lemma cert_drops key dealer s0 s :
  ap_index s = ap_index s0 -> ap_hashi s = with_tob (alter (with_nodes (delete dealer)) key) (ap_hashi s0) ->
  drops s0 (KTobCert key dealer) s.
Proof.
  intros Hi Hh. eapply drops_hashi; [done|exact Hh| |].
  - intros h' k'; destruct k'; cbn; try done; [by rewrite lookup_alter_is_Some|].
    intros (b & Hb & Hd). apply lookup_alter_Some in Hb as [(<- & b0 & Hb & ->)|[Hne Hb]].
    + cbn in Hd. apply delete_new in Hd as [Hd Hne]. split; [by exists b0|]. congruence.
    + split; [by exists b|]. congruence.
  - intros h' k'; destruct k'; cbn; try done. by rewrite lookup_alter_is_Some.
Qed.

Lemma bucket_drops key s0 s :
  ap_index s = ap_index s0 -> ap_hashi s = with_tob (delete key) (ap_hashi s0) -> drops s0 (KTobBucket key) s.
Proof.
  intros Hi Hh. eapply drops_hashi; [done|exact Hh| |].
  - intros h' k'; destruct k'; cbn; try done; [intros [? ?]%delete_new; split; [done|congruence]|].
    intros (b & Hb & Hd). apply lookup_delete_Some in Hb as [_ Hb]. split; [by exists b|done].
  - intros h' k'; destruct k'; cbn; try done. intros ? _ ?. apply delete_new. split; [done|congruence].
Qed.

Lemma retire_drops id k s r s' : retire id k s = (r, s') -> r = Ok tt /\ drops s k s'.
Proof.
  destruct k; cbn; unfold on_routing, on_hashi, effect, mbind, M_bind, read, modify, mret, M_ret; cbn;
    try (intros [= <- <-]; split; [done|]); try (apply drops_nothing; cbn; by auto).
  - removes (with_committees (remove_validator validator)).
  - removes (with_committees (remove_committee epoch)).
  - removes (with_committees (with_handoffs (delete epoch))).
  - removes (with_utxo_records (delete id0)).
  - removes (with_deposits (delete id0)).
  - removes (with_withdrawals (delete id0)).
  - destruct (ha_txns (ap_hashi s) !! id0) eqn:E; intros [= <- <-]; (split; [done|]).
    + removes (with_txns (delete id0)).
    + apply drops_nothing; try done. cbn. rewrite E. by intros [].
  - removes (with_treasury_caps (delete coin_type)).
  - removes (with_metadata_caps (delete coin_type)).
  - removes (with_proposals executed (delete id0)).
  - destruct (ha_tob (ap_hashi s) !! key) eqn:E; intros [= <- <-]; (split; [done|]); [by apply bucket_drops|].
    apply drops_nothing; try done. cbn. rewrite E. by intros [].
  - by apply cert_drops.
Qed.
End tracking.

(** * The mirror shows what the chain holds

    An entry is in the mirror exactly while an object that was applied stands for it: what the chain
    deletes or moves elsewhere leaves the mirror, and nothing else does. *)

(** How the objects of the chain lie: the slot of a container, the container of a wrapper, the slots an
    object is ever put into, and the object that stands for an entry. *)
Record Chain := mkChain {
  ch_hashi_id : Address;
  ch_bitcoin_state_field_id : Address;
  ch_role : Address -> option Slot;
  ch_is_wrapper : Address -> bool;
  ch_wrapped : Address -> Address;
  ch_placed : Address -> Slot -> Prop;
  ch_home : TrackedKind -> Address;
}.

Section tracking.
Context `{MD : MirrorDecode} (ch : Chain).

#[local] Abbreviation A := (M Applying Empty_set).

(** The containers that a routing table knows have their roles. *)
Definition containers_ok (r : RoutingTable) : Prop := forall c slot, rt_containers r !! c = Some slot -> ch_role ch c = Some slot.

(** An object as the contracts write it: containers keep their role and wrappers their place, an object
    lies in the slots of its owners, and an entry is always the same object. *)
Record lawful (obj : Object) : Prop := {
  lw_placed parent slot :
    ob_owner obj = OObject parent -> ch_role ch parent = Some slot \/ ch_role ch (ch_wrapped ch parent) = Some slot ->
    ch_placed ch (ob_id obj) slot;
  lw_wrapper : tag_is is_dof_wrapper obj = ch_is_wrapper ch (ob_id obj);
  lw_wrapped container : tag_is is_dof_wrapper obj = true -> ob_owner obj = OObject container -> ch_wrapped ch (ob_id obj) = container;
  lw_root tag contents root :
    ob_id obj = ch_hashi_id ch -> ob_struct obj = Some (tag, contents) -> decode_root contents = Some root ->
    containers_ok (set_root_containers root (routing_new 0 0));
  lw_state tag contents state :
    ob_id obj = ch_bitcoin_state_field_id ch -> ob_struct obj = Some (tag, contents) -> decode_bitcoin_state contents = Some state ->
    containers_ok (set_bitcoin_state_containers state (routing_new 0 0));
  lw_bucket tag contents key certs :
    ob_struct obj = Some (tag, contents) -> ch_placed ch (ob_id obj) SlotTob -> decode_tob_bucket contents = Some (key, certs) ->
    ch_role ch (ec_certs_id certs) = Some SlotTobCerts;
  lw_bag tag contents bag :
    ob_struct obj = Some (tag, contents) -> ch_placed ch (ob_id obj) SlotUserRequests -> decode_user_bag contents = Some bag ->
    ch_role ch bag = Some SlotUserRequestBag;
  lw_home tag contents slot s k s' :
    ob_struct obj = Some (tag, contents) -> ch_placed ch (ob_id obj) slot ->
    write_slot slot obj tag contents s = (Ok (Decodes k), s') -> is_entry k = true -> ch_home ch k = ob_id obj;
}.

(** ** The routing table *)

Record routed (s : Applying) : Prop := {
  ru_containers : containers_ok (ap_routing s);
  ru_wrappers w c : rt_wrapper_parents (ap_routing s) !! w = Some c -> ch_wrapped ch w = c;
  ru_roots : rt_hashi_id (ap_routing s) = ch_hashi_id ch /\ rt_bitcoin_state_field_id (ap_routing s) = ch_bitcoin_state_field_id ch;
}.

Definition keeps (P : Applying -> Prop) {X} (m : A X) : Prop := hoare P m (fun _ => P).

Lemma tracks_bind {X Y} P (m : A X) (f : X -> A Y) : keeps P m -> (forall x, keeps P (f x)) -> keeps P (m ≫= f).
Proof. apply hoare_bind. Qed.
Lemma tracks_ret {X} P (x : X) : keeps P (mret x).
Proof. apply (hoare_ret x (fun _ => P)). Qed.
Lemma tracks_read {X} P (f : Applying -> X) : keeps P (read f).
Proof. by intros s r s' Hs [= <- <-]. Qed.
Lemma keeps_panic {X} P : keeps P (of_outcome (Panic : outcome Empty_set X)).
Proof. by intros s r s' Hs [= <- <-]. Qed.

Lemma routed_other f : (forall s, ap_routing (f s) = ap_routing s) -> keeps routed (modify f).
Proof. intros Hf. apply hoare_modify. intros s [? ? ?]. split; by rewrite Hf. Qed.

Lemma routed_routing f :
  (forall r, containers_ok r -> containers_ok (f r)) ->
  (forall r w c, rt_wrapper_parents (f r) !! w = Some c -> rt_wrapper_parents r !! w = Some c \/ ch_wrapped ch w = c) ->
  (forall r, rt_hashi_id (f r) = rt_hashi_id r /\ rt_bitcoin_state_field_id (f r) = rt_bitcoin_state_field_id r) ->
  keeps routed (on_routing f).
Proof.
  intros H1 H2 H3. apply hoare_modify. intros s [Hc Hw [Hr1 Hr2]]. split; cbn.
  - by apply H1.
  - intros w c [|]%H2; auto.
  - destruct (H3 (ap_routing s)) as [-> ->]. done.
Qed.

(** Registering keeps what was known. *)
Lemma containers_insert c slot r : ch_role ch c = Some slot -> containers_ok r -> containers_ok (register_interior c slot r).
Proof. intros Hc Hr c' slot' Hl. cbn in Hl. apply lookup_insert_Some in Hl as [[<- <-]|[_ Hl]]; auto. Qed.

Lemma containers_delete c r : containers_ok r -> containers_ok (remove_interior c r).
Proof. intros Hr c' slot' Hl. cbn in Hl. apply lookup_delete_Some in Hl as [_ Hl]. auto. Qed.

Lemma containers_root root r :
  containers_ok (set_root_containers root (routing_new 0 0)) -> containers_ok r -> containers_ok (set_root_containers root r).
Proof.
  intros H0 Hr c slot. specialize (H0 c slot). revert H0. unfold set_root_containers, with_containers. cbn.
  rewrite !lookup_insert_Some. rewrite lookup_empty. specialize (Hr c slot). tauto.
Qed.

Lemma containers_state state r :
  containers_ok (set_bitcoin_state_containers state (routing_new 0 0)) -> containers_ok r ->
  containers_ok (set_bitcoin_state_containers state r).
Proof.
  intros H0 Hr c slot. specialize (H0 c slot). revert H0. unfold set_bitcoin_state_containers, with_containers. cbn.
  rewrite !lookup_insert_Some. rewrite lookup_empty. specialize (Hr c slot). tauto.
Qed.

(** Steps that leave the routing table alone. *)
Ltac unroutes :=
  repeat first
    [ apply tracks_ret | apply tracks_read | apply keeps_panic
    | apply tracks_bind; [|intros ?]
    | apply routed_other; done
    | apply hoare_when
    | case_match ].

Lemma write_slot_routed slot obj tag contents :
  lawful obj -> ob_struct obj = Some (tag, contents) -> ch_placed ch (ob_id obj) slot ->
  keeps routed (write_slot slot obj tag contents).
Proof.
  intros Hobj Hs Hp. destruct slot; cbn; unfold decoded, apply_committee_handoff; try (unroutes; fail).
  - apply tracks_bind; [apply tracks_read|]. intros packages. destruct (known_tob_bucket packages tag); [|apply tracks_ret].
    destruct (decode_tob_bucket contents) as [[key certs]|] eqn:Ed; [|apply tracks_ret].
    apply tracks_bind; [|intros _; apply tracks_bind; [|intros _; unroutes]].
    + apply routed_routing; auto. intros r. apply containers_insert. by eapply lw_bucket.
    + by apply routed_routing; auto.
  - destruct (decode_user_bag contents) as [bag|] eqn:Ed; [|apply tracks_ret].
    apply tracks_bind; [|intros _; apply tracks_ret]. apply routed_routing; auto. intros r. apply containers_insert. by eapply lw_bag.
Qed.

Lemma retire_routed id k : keeps routed (retire id k).
Proof.
  destruct k; cbn; try (unroutes; fail).
  - apply routed_routing; auto. cbn. intros r w c Hl. apply lookup_delete_Some in Hl as [_ Hl]. by left.
  - apply tracks_bind; [apply tracks_read|]. intros [bucket|]; [|apply tracks_ret].
    apply tracks_bind; [unroutes|intros _]. apply tracks_bind; [by apply routed_routing; auto|intros _].
    apply routed_routing; auto. intros r. apply containers_delete.
Qed.

Lemma apply_root_routed obj : lawful obj -> ob_id obj = ch_hashi_id ch -> keeps routed (apply_root obj).
Proof.
  intros Hobj Hid. unfold apply_root, stale. apply tracks_bind; [apply tracks_read|]. intros [|]; [apply tracks_ret|].
  destruct (ob_struct obj) as [[tag contents]|] eqn:Es; cbn; [|apply tracks_ret].
  destruct (decode_root contents) as [root|] eqn:Ed; [|apply tracks_ret].
  apply tracks_bind; [|intros _; unroutes].
  apply routed_routing; auto. intros r. apply containers_root. by eapply lw_root.
Qed.

Lemma apply_bitcoin_state_routed obj :
  lawful obj -> ob_id obj = ch_bitcoin_state_field_id ch -> keeps routed (apply_bitcoin_state obj).
Proof.
  intros Hobj Hid. unfold apply_bitcoin_state, stale. apply tracks_bind; [apply tracks_read|]. intros [|]; [apply tracks_ret|].
  destruct (ob_struct obj) as [[tag contents]|] eqn:Es; cbn; [|apply tracks_ret].
  destruct (decode_bitcoin_state contents) as [state|] eqn:Ed; [|apply tracks_ret].
  apply tracks_bind; [|intros _; unroutes].
  apply routed_routing; auto. intros r. apply containers_state. by eapply lw_state.
Qed.

Lemma apply_wrapper_routed obj : lawful obj -> tag_is is_dof_wrapper obj = true -> keeps routed (apply_wrapper obj).
Proof.
  intros Hobj Hw. unfold apply_wrapper, stale. destruct (ob_owner obj) as [| |container|] eqn:Eo; try (unroutes; fail).
  apply tracks_bind; [apply tracks_read|]. intros [slot|]; [|apply tracks_ret].
  apply tracks_bind; [|intros _; unroutes]. apply routed_routing; auto. cbn. intros r w c Hl.
  apply lookup_insert_Some in Hl as [[<- <-]|[_ Hl]]; [right|by left]. by apply lw_wrapped.
Qed.

Lemma record_write_routed obj k : keeps routed (record_write obj k).
Proof.
  unfold record_write. apply tracks_bind; [apply tracks_read|]. intros old. apply tracks_bind; [|intros _; unroutes].
  destruct old; [|apply tracks_ret]. apply hoare_when, retire_routed.
Qed.

Lemma delete_object_routed id : keeps routed (delete_object id).
Proof.
  unfold delete_object. apply tracks_bind; [apply tracks_read|]. intros [entry|]; [|apply tracks_ret].
  apply tracks_bind; [unroutes|]. intros _. apply retire_routed.
Qed.

(** ** The entries *)

Record tracked (s : Applying) : Prop := {
  tr_backed k : mirrored (ap_hashi s) k -> exists id v, ap_index s !! id = Some (mkTracked v k);
  tr_shown id v k : ap_index s !! id = Some (mkTracked v k) -> is_entry k = true -> mirrored (ap_hashi s) k /\ ch_home ch k = id;
  tr_proper id v k :
    ap_index s !! id = Some (mkTracked v k) -> is_entry k = true \/ is_cert k = true ->
    ch_is_wrapper ch id = false /\ id <> ch_hashi_id ch /\ id <> ch_bitcoin_state_field_id ch;
  tr_slots id v k slot : ap_index s !! id = Some (mkTracked v k) -> slot_for_kind k = Some slot -> ch_placed ch id slot;
}.

Definition inv (s : Applying) : Prop := routed s /\ tracked s.

(** The entry that an object stood for before, if another, is gone. *)
Record replaced (s : Applying) (id : Address) (k : TrackedKind) (s' : Applying) : Prop := {
  rp_index : ap_index s' = ap_index s;
  rp_gone k' v ko :
    mirrored (ap_hashi s') k' -> mirrored (ap_hashi s) k' /\ (ap_index s !! id = Some (mkTracked v ko) -> ko <> k -> k' <> ko);
  rp_kept k' :
    mirrored (ap_hashi s) k' -> is_entry k' = true ->
    (forall v ko, ap_index s !! id = Some (mkTracked v ko) -> ko <> k -> k' <> ko) -> mirrored (ap_hashi s') k';
}.

Lemma retires id k s :
  hoare (eq s) (old ← read (fun s => ap_index s !! id);
    match old with
    | Some old => when (bool_decide (to_kind old <> k)) (retire id (to_kind old))
    | None => mret tt
    end) (fun _ => replaced s id k).
Proof.
  intros s0 r s' <-. unfold mbind, M_bind, read. destruct (ap_index s !! id) as [[v ko]|] eqn:E.
  - unfold when. cbn [to_kind]. case_bool_decide as Hk.
    + intros [-> [Hi Hg Hd]]%retire_drops. split; [done| |].
      * intros k' v' ko' Hm. destruct (Hg k' Hm) as [Hm' Hne]. split; [done|]. rewrite E. by intros [= <- <-].
      * intros k' Hm He Hne. apply Hd; [done|done|]. by eapply Hne.
    + intros [= <- <-]. split; [done| |done]. intros k' v' ko' Hm. split; [done|]. rewrite E. by intros [= <- <-] ?.
  - intros [= <- <-]. split; [done| |done]. intros k' v' ko' Hm. split; [done|]. by rewrite E.
Qed.

(** An object is recorded. *)
Definition recorded (s : Applying) (id : Address) (v : Z) (k : TrackedKind) : Applying :=
  mkApplying (ap_hashi s) (ap_packages s) (ap_routing s) (index_record id v k (ap_index s)) (ap_effects s) (ap_unrouted s).

Lemma index_record_Some id v k (index : ObjectIndex) id' e :
  index_record id v k index !! id' = Some e <-> (id = id' /\ mkTracked v k = e) \/ (id <> id' /\ index !! id' = Some e).
Proof. apply (lookup_insert_Some (M := gmap Address)). Qed.

(** What is required of the object that is recorded. *)
Record admissible (id : Address) (k : TrackedKind) : Prop := {
  adm_home : is_entry k = true -> ch_home ch k = id;
  adm_proper : is_entry k = true \/ is_cert k = true ->
    ch_is_wrapper ch id = false /\ id <> ch_hashi_id ch /\ id <> ch_bitcoin_state_field_id ch;
  adm_slot slot : slot_for_kind k = Some slot -> ch_placed ch id slot;
}.

Lemma tracked_record s0 s s' id v k :
  tracked s0 -> adds s0 (Some k) s -> admissible id k -> replaced s id k s' -> tracked (recorded s' id v k).
Proof.
  intros [Hb Hs Hp Hl] [Ai _ An Ao Ae] [Mh Mp Ms] [Ri Rg Rk]. rewrite Ai in Ri.
  assert (forall id' v' k', index_record id v k (ap_index s') !! id' = Some (mkTracked v' k') ->
    (id' = id /\ k' = k) \/ (id' <> id /\ ap_index s0 !! id' = Some (mkTracked v' k'))) as Hcase.
  { rewrite Ri. intros id' v' k'. rewrite index_record_Some. naive_solver. }
  split; cbn.
  - intros k' Hm. destruct (decide (k' = k)) as [->|Hk]; [exists id, v; apply index_record_Some; by left|].
    destruct (Rg k' 0 k Hm) as [Hm1 _]. destruct (An k' Hm1) as [Hm0|[= ->]]; [|done].
    destruct (Hb k' Hm0) as (id' & v' & Hi'). exists id', v'. rewrite Ri, index_record_Some. right. split; [|done].
    intros <-. destruct (Rg k' v' k' Hm) as [_ Hne]. rewrite Ai in Hne. by apply (Hne Hi').
  - intros id' v' k' [[-> ->]|[Hne Hx]]%Hcase He.
    + split; [|by apply Mh]. apply Rk; [by apply Ae|done|]. congruence.
    + destruct (Hs _ _ _ Hx He) as [Hm Hh]. split; [|done]. apply Rk; [by apply Ao|done|].
      rewrite Ai. intros v0 ko Hold _ ->. destruct (Hs _ _ _ Hold He) as [_ Hh']. congruence.
  - intros id' v' k' [[-> ->]|[Hne Hx]]%Hcase He; [by apply Mp|by eapply Hp].
  - intros id' v' k' slot [[-> ->]|[Hne Hx]]%Hcase He; [by apply Ms|by eapply Hl].
Qed.

Lemma record_write_tracked s0 obj k :
  tracked s0 -> admissible (ob_id obj) k -> hoare (adds s0 (Some k)) (record_write obj k) (fun _ => tracked).
Proof.
  intros H0 Ha s r s' Hs. pose proof (retires (ob_id obj) k s) as Hr.
  set (block := (old ← read _; _ : A unit)) in Hr.
  assert (record_write obj k s = (_ ← block; on_index (index_record (ob_id obj) (ob_version obj) k)) s) as -> by reflexivity.
  unfold mbind, M_bind. destruct (block s) as [[[]|[]|] s1] eqn:E; [|by intros [= <- <-]].
  intros [= <- <-]. eapply (tracked_record s0 s); try done. exact (Hr s _ _ eq_refl E).
Qed.

(** Nothing but the recorded version or an uninteresting object changes. *)
Lemma tracked_same s0 s : tracked s0 -> adds s0 None s -> tracked s.
Proof.
  intros [Hb Hs Hp Hl] [Ai _ An Ao _]. split; rewrite Ai; auto.
  - intros k Hm. destruct (An k Hm) as [|[=]]. by apply Hb.
  - intros id v k Hi He. destruct (Hs _ _ _ Hi He). auto.
Qed.

(** Objects that stand for no entry are recorded without a look at what they were. *)
Lemma tracked_other s id v k :
  tracked s -> is_entry k = false -> is_cert k = false -> slot_for_kind k = None ->
  ch_is_wrapper ch id = true \/ id = ch_hashi_id ch \/ id = ch_bitcoin_state_field_id ch -> tracked (recorded s id v k).
Proof.
  intros Ht Hk Hc Hn Hid. pose proof Ht as [Hb Hs Hp Hl]. apply (tracked_record s s s); try done.
  - apply adds_kind; [done|apply adds_refl].
  - split; [by rewrite Hk|rewrite Hk, Hc; by intros []|by rewrite Hn].
  - split; auto. intros k' v' ko Hm. split; [done|]. intros Hi _ ->.
    destruct (decide (is_entry ko = true \/ is_cert ko = true)) as [Hx|Hx].
    + destruct (Hp _ _ _ Hi Hx) as (H1 & H2 & H3). destruct Hid as [Hw|[?|?]]; congruence.
    + destruct ko; cbn in *; naive_solver.
Qed.

Lemma delete_object_tracked id : keeps tracked (delete_object id).
Proof.
  intros s r s' [Hb Hs Hp Hl]. unfold delete_object, mbind, M_bind, read, on_index, modify. cbv beta iota.
  destruct (ap_index s !! id) as [[v k]|] eqn:E; [|intros [= <- <-]; by split].
  cbn [to_kind]. intros [-> [Di Dg Dk]]%retire_drops. cbn in *.
  assert (forall id' v' k', ap_index s' !! id' = Some (mkTracked v' k') -> id <> id' /\ ap_index s !! id' = Some (mkTracked v' k')) as Hcase.
  { intros id' v' k'. rewrite Di. apply (lookup_delete_Some (M := gmap Address)). }
  split.
  - intros k' Hm. destruct (Dg k' Hm) as [Hm0 Hne]. destruct (Hb k' Hm0) as (id' & v' & Hi'). exists id', v'.
    rewrite Di. apply (lookup_delete_Some (M := gmap Address)). split; [congruence|done].
  - intros id' v' k' [Hne Hx]%Hcase He. destruct (Hs _ _ _ Hx He) as [Hm Hh]. split; [|done]. apply Dk; [done|done|].
    intros ->. destruct (Hs _ _ _ E He) as [_ Hh']. congruence.
  - intros id' v' k' [Hne Hx]%Hcase. by eapply Hp.
  - intros id' v' k' slot [Hne Hx]%Hcase. by eapply Hl.
Qed.

(** ** The passes *)

Lemma hoare_and {X} (P1 P2 : Applying -> Prop) (m : A X) Q1 Q2 :
  hoare P1 m Q1 -> hoare P2 m Q2 -> hoare (fun s => P1 s /\ P2 s) m (fun a s => Q1 a s /\ Q2 a s).
Proof. intros H1 H2 s r s' [Hs1 Hs2] E. specialize (H1 _ _ _ Hs1 E). specialize (H2 _ _ _ Hs2 E). by destruct r. Qed.

Lemma keeps_inv {X} (m : A X) : keeps routed m -> hoare inv m (fun _ => tracked) -> keeps inv m.
Proof.
  intros H1 H2 s r s' Hs E. specialize (H1 s r s' (proj1 Hs) E). specialize (H2 s r s' Hs E). destruct r; by try split.
Qed.

(** The slot that a write is routed to. *)
Lemma slot_placed obj parent s slot :
  inv s -> lawful obj -> ob_owner obj = OObject parent ->
  match resolve_owner (ap_routing s) parent with
  | Some slot => Some slot
  | None => entry ← ap_index s !! ob_id obj; slot_for_kind (to_kind entry)
  end = Some slot -> ch_placed ch (ob_id obj) slot.
Proof.
  intros [[Hc Hw _] [_ _ _ Hl]] Hobj Ho. destruct (resolve_owner (ap_routing s) parent) as [slot'|] eqn:Er.
  - intros [= ->]. eapply lw_placed; [done..|]. unfold resolve_owner in Er.
    destruct (rt_containers (ap_routing s) !! parent) eqn:E1; [left; apply Hc; congruence|].
    apply bind_Some in Er as (container & E2 & E3). right. rewrite (Hw _ _ E2). by apply Hc.
  - intros ([v k] & E1 & E2)%bind_Some. by eapply Hl.
Qed.

Lemma write_admissible slot obj tag contents s k s' :
  lawful obj -> ob_struct obj = Some (tag, contents) -> ch_placed ch (ob_id obj) slot ->
  ch_is_wrapper ch (ob_id obj) = false -> ob_id obj <> ch_hashi_id ch -> ob_id obj <> ch_bitcoin_state_field_id ch ->
  write_slot slot obj tag contents s = (Ok (Decodes k), s') -> admissible (ob_id obj) k.
Proof.
  intros Hobj Hs Hp Hw H1 H2 E. split; [by eapply lw_home|done|].
  intros slot' Hk. by rewrite (write_slot_means _ _ _ _ _ _ _ E k slot' eq_refl Hk).
Qed.

Lemma apply_write_inv obj :
  lawful obj -> tag_is is_dof_wrapper obj = false -> ob_id obj <> ch_hashi_id ch -> ob_id obj <> ch_bitcoin_state_field_id ch ->
  keeps inv (apply_write obj).
Proof.
  intros Hobj Hw H1 H2 s r s' Hs. unfold apply_write. destruct (ob_struct obj) as [[tag contents]|] eqn:Es; [|by intros [= <- <-]].
  destruct (ob_owner obj) as [| |parent|] eqn:Eo; try (by intros [= <- <-]).
  unfold mbind at 1, M_bind at 1, read at 1. cbv beta iota.
  destruct (match resolve_owner (ap_routing s) parent with Some slot => Some slot | None => _ end) as [slot|] eqn:Eslot.
  - pose proof (slot_placed _ _ _ _ Hs Hobj Eo Eslot) as Hp. unfold stale, read, mbind, M_bind. cbv beta iota.
    destruct (is_stale_write _ _ _); [by intros [= <- <-]|].
    destruct (write_slot slot obj tag contents s) as [[d|[]|] s1] eqn:E; [|by intros [= <- <-]].
    pose proof (write_slot_routed slot obj tag contents Hobj Es Hp _ _ _ (proj1 Hs) E) as Hr1. cbn in Hr1.
    pose proof (write_slot_adds slot obj tag contents s _ _ _ (adds_refl s) E) as Ha1. cbn in Ha1.
    destruct d as [| |k]; cbn in Ha1.
    + intros [= <- <-]. split; [done|by eapply tracked_same; [apply Hs|]].
    + intros [= <- <-]. split; [by destruct Hr1|]. eapply tracked_same; [apply Hs|]. by destruct Ha1.
    + intros E2. pose proof (record_write_routed obj k _ _ _ Hr1 E2) as Hr2.
      rewrite lw_wrapper in Hw by done.
      pose proof (record_write_tracked s obj k (proj2 Hs) (write_admissible _ _ _ _ _ _ _ Hobj Es Hp Hw H1 H2 E) _ _ _ Ha1 E2) as Ht2.
      destruct r; by try split.
  - unfold mbind, M_bind, read, when, unrouted, modify. cbv beta iota. destruct (packages_contains (ap_packages s) (tag_address tag)); intros [= <- <-]; [|done].
    destruct Hs as [[? ? ?] [? ? ? ?]]. split; by split.
Qed.

Lemma delete_object_inv id : keeps inv (delete_object id).
Proof.
  apply keeps_inv; [apply delete_object_routed|]. eapply hoare_conseq; [apply delete_object_tracked| |done]. by intros s [].
Qed.

Lemma apply_wrapper_inv obj : lawful obj -> tag_is is_dof_wrapper obj = true -> keeps inv (apply_wrapper obj).
Proof.
  intros Hobj Hw. apply keeps_inv; [by apply apply_wrapper_routed|]. intros s r s' [_ Hs]. unfold apply_wrapper, stale.
  assert (forall s2, ap_index s2 = ap_index s -> ap_hashi s2 = ap_hashi s -> tracked s2) as Hsame.
  { intros s2 Hi Hh. destruct Hs. split; by rewrite ?Hi, ?Hh. }
  destruct (ob_owner obj); try (intros [= <- <-]; by apply Hsame).
  unfold mbind, M_bind, read, on_routing, on_index, modify. cbv beta iota. destruct (slot_of_container _ _); [|by intros [= <- <-]].
  destruct (is_stale_write _ _ _); intros [= <- <-]; [by apply Hsame|].
  eapply (tracked_other (mkApplying _ _ _ (ap_index s) _ _)); try done; [by apply Hsame|]. left. by rewrite <- lw_wrapper.
Qed.

Lemma apply_bitcoin_state_inv obj : lawful obj -> ob_id obj = ch_bitcoin_state_field_id ch -> keeps inv (apply_bitcoin_state obj).
Proof.
  intros Hobj Hid. apply keeps_inv; [by apply apply_bitcoin_state_routed|]. intros s r s' [_ Hs]. unfold apply_bitcoin_state, stale.
  unfold mbind, M_bind, read, on_routing, on_index, modify. cbv beta iota.
  destruct (is_stale_write _ _ _); [by intros [= <- <-]|]. destruct (option_bind _ _ _ _) as [state|]; [|by intros [= <- <-]].
  intros [= <- <-]. eapply (tracked_other (mkApplying _ _ _ (ap_index s) _ _)); try done; [destruct Hs; by split|by auto].
Qed.

(** The root changes no entry. *)
Definition same_entries (s0 : Applying) (cs : CommitteeSet) (s : Applying) : Prop := adds s0 None s /\ ha_committees (ap_hashi s) = cs.

Lemma same_entries_step s0 cs f :
  (forall s, ap_index (f s) = ap_index s) ->
  (forall s, rt_hashi_id (ap_routing (f s)) = rt_hashi_id (ap_routing s)
     /\ rt_bitcoin_state_field_id (ap_routing (f s)) = rt_bitcoin_state_field_id (ap_routing s)) ->
  (forall s, ha_committees (ap_hashi (f s)) = ha_committees (ap_hashi s)) ->
  (forall s k, mirrored (ap_hashi (f s)) k <-> mirrored (ap_hashi s) k) -> keeps (same_entries s0 cs) (modify f).
Proof.
  intros Hi Hr Hc Hm. apply hoare_modify. intros s [[Ai Ar An Ao Ae] Hcs]. split; [|by rewrite Hc].
  split; [by rewrite Hi|by destruct (Hr s) as [-> ->]|intros k; rewrite Hm; auto..|done].
Qed.

Ltac same := apply same_entries_step; [done|done|done|by intros ? []].

Lemma same_entries_when s0 cs b m : keeps (same_entries s0 cs) m -> keeps (same_entries s0 cs) (when b m).
Proof. apply hoare_when. Qed.

Lemma root_values_same epoch pending key cs cs' h k :
  set_root_values epoch pending key cs = Some cs' -> ha_committees h = cs ->
  mirrored (with_committees (fun _ => cs') h) k <-> mirrored h k.
Proof.
  intros E Hh. revert E. unfold set_root_values. destruct (_ || _); [|done]. intros [= <-]. subst cs. by destruct k.
Qed.

(** The last two steps of [apply_root]. *)
Lemma root_values_tracked s0 cs cs' epoch pending key obj :
  tracked s0 -> ob_id obj = ch_hashi_id ch -> set_root_values epoch pending key cs = Some cs' ->
  hoare (same_entries s0 cs)
    (_ ← on_hashi (with_committees (fun _ => cs')); on_index (index_record (ob_id obj) (ob_version obj) KHashiRoot))
    (fun _ => tracked).
Proof.
  intros H0 Hid E s r s' [Ha Hcs]. unfold on_hashi, on_index, mbind, M_bind, modify. cbv beta iota. intros [= <- <-].
  eapply (tracked_other (mkApplying _ _ _ (ap_index s) _ _)); try done; [|by auto].
  pose proof (tracked_same s0 s H0 Ha) as [Hb Hs Hp Hl].
  split; cbn; auto; intros *; rewrite (root_values_same _ _ _ _ _ _ _ E Hcs); [apply Hb|apply Hs].
Qed.

Lemma hoare_seq {X} P (m : A unit) (n : A X) Q : keeps P m -> hoare P n Q -> hoare P (_ ← m; n) Q.
Proof. intros Hm Hn. by eapply hoare_bind. Qed.

Lemma apply_root_tracked obj : ob_id obj = ch_hashi_id ch -> keeps tracked (apply_root obj).
Proof.
  intros Hid s0 r s' Hs. unfold apply_root, stale. unfold mbind at 1, M_bind at 1, read at 1. cbv beta iota.
  destruct (is_stale_write _ _ _); [by intros [= <- <-]|]. destruct (ob_struct obj ≫= _) as [root|]; [|by intros [= <- <-]].
  assert (same_entries s0 (ha_committees (ap_hashi s0)) s0) as Hsame by (split; [apply adds_refl|done]).
  match goal with |- ?m s0 = _ -> _ => enough (hoare (same_entries s0 (ha_committees (ap_hashi s0))) m (fun _ => tracked)) as Hm end.
  { intros E. exact (Hm s0 r s' Hsame E). }
  apply hoare_seq; [same|]. eapply hoare_bind; [apply hoare_read|]. intros h.
  apply (hoare_conseq (same_entries s0 (ha_committees h)) _ _ (fun _ => tracked)); [|intros s [[Ha _] ->]; by split|done].
  do 5 (apply hoare_seq; [repeat case_match; first [apply same_entries_when; same|same|apply tracks_ret]|]).
  destruct (set_root_values _ _ _ _) eqn:E; [by eapply root_values_tracked|]. by intros s r1 s1 _ [= <- <-].
Qed.

Lemma apply_root_inv obj : lawful obj -> ob_id obj = ch_hashi_id ch -> keeps inv (apply_root obj).
Proof.
  intros Hobj Hid. apply keeps_inv; [by apply apply_root_routed|]. eapply hoare_conseq; [by apply apply_root_tracked| |done].
  by intros s [].
Qed.

Definition tx_lawful (tx : TxView) : Prop := Forall lawful (omap written (tv_changes tx)).

(** An object that the third pass applies. *)
Definition ordinary (obj : Object) : Prop :=
  lawful obj /\ tag_is is_dof_wrapper obj = false /\ ob_id obj <> ch_hashi_id ch /\ ob_id obj <> ch_bitcoin_state_field_id ch.

Lemma apply_ordinary l : Forall ordinary l -> keeps inv (each apply_write l).
Proof.
  intros Hl. apply hoare_each. intros obj Hobj. rewrite Forall_forall in Hl.
  destruct (Hl obj Hobj) as (H1 & H2 & H3 & H4). by apply apply_write_inv.
Qed.

Lemma pass_roots_inv obj : lawful obj -> keeps inv (pass_roots obj).
Proof.
  intros Hobj s r s' Hs. unfold pass_roots, mbind, M_bind, read. cbv beta iota. pose proof (ru_roots _ (proj1 Hs)) as [-> ->].
  destruct (ob_id obj =? ch_hashi_id ch) eqn:E1; [apply apply_root_inv; [done|lia|done]|].
  unfold when. destruct (ob_id obj =? ch_bitcoin_state_field_id ch) eqn:E2; [apply apply_bitcoin_state_inv; [done|lia|done]|].
  by intros [= <- <-].
Qed.

Lemma pass_interior_inv acc obj :
  lawful obj ->
  hoare (fun s => inv s /\ Forall ordinary acc.1 /\ Forall ordinary acc.2) (pass_interior acc obj)
    (fun acc s => inv s /\ Forall ordinary acc.1 /\ Forall ordinary acc.2).
Proof.
  intros Hobj s r s' (Hs & H1 & H2). unfold pass_interior, mbind, M_bind, read. cbv beta iota.
  unfold is_root_object. pose proof (ru_roots _ (proj1 Hs)) as [-> ->].
  destruct (_ || _) eqn:E; [by intros [= <- <-]|]. apply orb_false_iff in E as [[[Hh Hb]%orb_false_iff _]%orb_false_iff Hw].
  assert (ordinary obj) as Hord by (split; [done|split; [done|lia]]).
  destruct (tag_is is_committee_handoff obj).
  { intros [= <- <-]. cbn. split; [done|split; [done|]]. apply Forall_app. by split; [|constructor]. }
  destruct (registers_interior _ _).
  - destruct (apply_write obj s) as [[[]|[]|] s1] eqn:E1; intros [= <- <-]; [|done].
    destruct Hord as (_ & _ & Ho1 & Ho2). pose proof (apply_write_inv obj Hobj Hw Ho1 Ho2 _ _ _ Hs E1). by split.
  - intros [= <- <-]. cbn. split; [done|split; [|done]]. apply Forall_app. by split; [|constructor].
Qed.

Lemma apply_transaction_inv tx : tx_lawful tx -> keeps inv (apply_transaction tx).
Proof.
  unfold tx_lawful, apply_transaction. set (writes := omap written (tv_changes tx)). rewrite Forall_forall. intros Hlaw.
  apply tracks_bind.
  { apply hoare_each. intros [id state] _. apply hoare_modify. intros s [[? ? ?] [? ? ? ?]]. split; by split. }
  intros _. apply tracks_bind; [apply hoare_each; intros obj Hobj; by apply pass_roots_inv, Hlaw|].
  intros _. apply tracks_bind.
  { apply hoare_each. intros obj Hobj. unfold when. destruct (tag_is is_dof_wrapper obj) eqn:E; [|apply tracks_ret].
    apply apply_wrapper_inv; [by apply Hlaw|done]. }
  intros _.
  eapply hoare_bind with (Q := fun acc s => inv s /\ Forall ordinary acc.1 /\ Forall ordinary acc.2).
  { eapply hoare_conseq; [apply (hoare_fold pass_interior writes (fun acc s => inv s /\ Forall ordinary acc.1 /\ Forall ordinary acc.2))| |done].
    - intros acc obj Hobj. by apply pass_interior_inv, Hlaw.
    - intros s Hs. split; [done|split; constructor]. }
  intros [deferred handoffs] s r s' (Hs & H1 & H2). cbn [fst snd] in *. revert r s' Hs. 
  enough (keeps inv (_ ← each apply_write deferred; _ ← each apply_write handoffs; each delete_object (omap deleted (tv_changes tx)))) as Hk
    by (intros r s' Hs; by apply Hk).
  apply tracks_bind; [by apply apply_ordinary|]. intros _. apply tracks_bind; [by apply apply_ordinary|].
  intros _. apply hoare_each. intros id _. apply delete_object_inv.
Qed.
End tracking.

(** Transactions one after the other. *)
Definition apply_transactions `{MD : MirrorDecode} (txs : list TxView) : M Applying Empty_set unit := each apply_transaction txs.

