(* ===== verification/MirrorWire.v ===== *)
(** * Transactions as the stream delivers them

    [TxView::from_proto] of [crates/hashi/src/onchain/apply.rs]: the effects list what changed, and a
    set carries the objects by id and version.  The protobuf types come from a library, as do the
    parsing of ids, of timestamps and the BCS decoding of an object. *)

From stdpp Require Import strings gmap.
From S2P Require Import MonitorDomain CoinSelection Withdrawals Deposits Mirror MirrorApply Prelude.

(** [proto::OutputObjectState]; a state that is not known to this build has a name too. *)
Inductive OutputObjectState :=
| StateUnknown | DoesNotExist | ObjectWrite | PackageWrite | AccumulatorWrite | StateOther (name : string).

Class MirrorWire `{MirrorTypes} := {
  ProtoTimestamp : Type;
  decode_object : list Z -> option Object;
  parse_address : string -> option Address;
  proto_to_timestamp_ms : ProtoTimestamp -> option Z;
  state_name : OutputObjectState -> string;
}.

Section wire.
Context `{MW : MirrorWire}.

Record ChangedObject := mkChangedObject {
  co_object_id : option string;
  co_output_state : option OutputObjectState;
  co_output_version : option Z;
}.

Record TransactionEffects := mkTransactionEffects {
  te_status : option bool;
  te_changed_objects : list ChangedObject;
}.

(** The bytes of the objects in [et_objects] *)
Record ExecutedTransaction := mkExecutedTransaction {
  et_effects : option TransactionEffects;
  et_objects : option (list (option (option (list Z))));
  et_checkpoint : option Z;
  et_transaction_index : option Z;
  et_timestamp : option ProtoTimestamp;
}.

#[local] Abbreviation R := (outcome unit).

Definition required {X} (o : option X) : R X := match o with Some x => Ok x | None => Err tt end.

(** [ObjectPool]: the set has input and output versions of the same id. *)
#[local] Abbreviation ObjectPool := (gmap (Address * Z) Object).

Definition decode_object_pool (set : option (list (option (option (list Z))))) : R ObjectPool :=
  match set with
  | None => Ok ∅
  | Some objects =>
      foldr (fun bcs rest (pool : ObjectPool) =>
        match mjoin bcs with
        | None => rest pool
        | Some bytes => object ← required (decode_object bytes); rest (<[(ob_id object, ob_version object) := object]> pool)
        end) Ok objects ∅
  end.

(** The pool, the changes and the objects whose state is not known, one changed object further. *)
Definition Gathered : Type := ObjectPool * list TxChange * list (Address * string).

Definition gather (acc : Gathered) (changed : ChangedObject) : R Gathered :=
  let '(pool, changes, unknown_states) := acc in
  text ← required (co_object_id changed);
  id ← required (parse_address text);
  match from_option (fun s => s) StateUnknown (co_output_state changed) with
  | ObjectWrite =>
      version ← required (co_output_version changed);
      object ← required (pool !! (id, version));
      Ok (delete (id, version) pool, changes ++ [Written object], unknown_states)
  | DoesNotExist => Ok (pool, changes ++ [Deleted id], unknown_states)
  | PackageWrite | AccumulatorWrite => Ok acc
  | state => Ok (pool, changes, unknown_states ++ [(id, state_name state)])
  end.

Fixpoint gather_all (acc : Gathered) (l : list ChangedObject) : R Gathered :=
  match l with
  | [] => Ok acc
  | changed :: l => acc ← gather acc changed; gather_all acc l
  end.

Definition from_proto (tx : ExecutedTransaction) : R (option TxView) :=
  effects ← required (et_effects tx);
  success ← required (te_status effects);
  if negb success then Ok None
  else
    pool ← decode_object_pool (et_objects tx);
    gathered ← gather_all (pool, [], []) (te_changed_objects effects);
    let '(_, changes, unknown_states) := gathered in
    checkpoint ← required (et_checkpoint tx);
    transaction_index ← required (et_transaction_index tx);
    timestamp ← required (et_timestamp tx);
    timestamp_ms ← required (proto_to_timestamp_ms timestamp);
    Ok (Some (mkTxView checkpoint transaction_index timestamp_ms changes unknown_states)).

(** ** Totality *)

Lemma required_safe {X} (o : option X) : required o <> Panic.
Proof. by destruct o. Qed.

Lemma decode_object_pool_safe set : decode_object_pool set <> Panic.
Proof.
  destruct set as [objects|]; [|done]. unfold decode_object_pool. generalize (∅ : ObjectPool).
  induction objects as [|bcs objects IH]; intros pool; cbn; [done|]. destruct (mjoin bcs); [|apply IH].
  apply bind_safe; [apply required_safe|]. intros. apply IH.
Qed.

Lemma gather_safe acc changed : gather acc changed <> Panic.
Proof.
  destruct acc as [[pool changes] unknown]. unfold gather.
  repeat first [done|apply required_safe|apply bind_safe; [|intros ? ?]|case_match].
Qed.

Lemma gather_all_safe l : forall acc, gather_all acc l <> Panic.
Proof. induction l as [|c l IH]; intros acc; cbn; [done|]. apply bind_safe; [apply gather_safe|]. intros. apply IH. Qed.

Lemma from_proto_safe tx : from_proto tx <> Panic.
Proof.
  unfold from_proto. repeat first [done|apply required_safe|apply decode_object_pool_safe|apply gather_all_safe|apply bind_safe; [|intros ? ?]|case_match].
Qed.

(** ** Nothing is dropped *)

Definition state_of (c : ChangedObject) : OutputObjectState := from_option (fun s => s) StateUnknown (co_output_state c).
Definition id_of (c : ChangedObject) : option Address := co_object_id c ≫= parse_address.

(** What the effects list, as ids with the version written. *)
Definition listed_change (c : ChangedObject) : option (option Address * option Z) :=
  match state_of c with
  | ObjectWrite => Some (id_of c, co_output_version c)
  | DoesNotExist => Some (id_of c, None)
  | _ => None
  end.
Definition listed_unknown (c : ChangedObject) : option (option Address * string) :=
  match state_of c with
  | ObjectWrite | DoesNotExist | PackageWrite | AccumulatorWrite => None
  | state => Some (id_of c, state_name state)
  end.

Definition outline (c : TxChange) : option Address * option Z :=
  match c with Written o => (Some (ob_id o), Some (ob_version o)) | Deleted id => (Some id, None) end.

Definition pool_ok (pool : ObjectPool) : Prop := forall k o, pool !! k = Some o -> k = (ob_id o, ob_version o).

Lemma decode_pool_ok set pool : decode_object_pool set = Ok pool -> pool_ok pool.
Proof.
  destruct set as [objects|]; cbn; [|intros [= <-] k o; by rewrite lookup_empty].
  assert (pool_ok ∅) as H0 by (intros k o; by rewrite lookup_empty). revert H0. generalize (∅ : ObjectPool).
  induction objects as [|bcs objects IH]; intros p Hp; cbn; [by intros [= <-]|]. destruct (mjoin bcs); [|by apply IH].
  destruct (decode_object l) as [o|]; [|done]. apply IH. intros k o' [[<- <-]|[_ Hl]]%lookup_insert_Some; auto.
Qed.

Lemma required_Ok {X} (o : option X) x : required o = Ok x <-> o = Some x.
Proof. destruct o; cbn; naive_solver. Qed.

Lemma gather_outline pool changes unknown c pool' changes' unknown' :
  pool_ok pool -> gather (pool, changes, unknown) c = Ok (pool', changes', unknown') ->
  pool_ok pool'
  /\ outline <$> changes' = (outline <$> changes) ++ option_list (listed_change c)
  /\ prod_map Some id <$> unknown' = (prod_map Some id <$> unknown) ++ option_list (listed_unknown c).
Proof.
  intros Hp. unfold gather, listed_change, listed_unknown, id_of, state_of.
  destruct (co_object_id c) as [text|]; cbn; [|done]. destruct (parse_address text) as [a|]; cbn; [|done].
  destruct (from_option _ _ _); cbn; try (intros [= <- <- <-]; rewrite ?fmap_app, ?app_nil_r; by auto).
  destruct (co_output_version c) as [v|]; cbn; [|done]. destruct (pool !! (a, v)) as [o|] eqn:E; cbn; [|done].
  intros [= <- <- <-]. rewrite fmap_app, app_nil_r. cbn. pose proof (Hp _ _ E) as [= -> ->]. split; [|done].
  intros k o' [_ Hl]%lookup_delete_Some. auto.
Qed.

Lemma gather_all_outline l : forall pool changes unknown pool' changes' unknown',
  pool_ok pool -> gather_all (pool, changes, unknown) l = Ok (pool', changes', unknown') ->
  outline <$> changes' = (outline <$> changes) ++ omap listed_change l
  /\ prod_map Some id <$> unknown' = (prod_map Some id <$> unknown) ++ omap listed_unknown l.
Proof.
  induction l as [|c l IH]; intros * Hp; cbn [gather_all]; [intros [= <- <- <-]; by rewrite !app_nil_r|].
  destruct (gather (pool, changes, unknown) c) as [[[p1 c1] u1]|[]|] eqn:E; try done. cbn [mbind outcome_bind]. intros E2.
  destruct (gather_outline _ _ _ _ _ _ _ Hp E) as (Hp1 & Hc1 & Hu1). destruct (IH _ _ _ _ _ _ Hp1 E2) as [-> ->].
  rewrite Hc1, Hu1, <- !app_assoc. cbn. by destruct (listed_change c), (listed_unknown c).
Qed.
End wire.

(** A transaction that is decoded is decoded whole: every object its effects list as written or
    gone is among the changes, in that order and at the version the effects name, one whose fate is not
    known is reported, the only ones left out are packages and accumulators, and a failed
    transaction is not mirrored. *)
Theorem from_proto_drops_nothing `{MW : MirrorWire} tx effects :
  et_effects tx = Some effects ->
  (from_proto tx = Ok None <-> te_status effects = Some false)
  /\ forall view, from_proto tx = Ok (Some view) ->
       outline <$> tv_changes view = omap listed_change (te_changed_objects effects)
       /\ prod_map Some id <$> tv_unknown_states view = omap listed_unknown (te_changed_objects effects)
       /\ Some (tv_checkpoint view) = et_checkpoint tx /\ Some (tv_transaction_index view) = et_transaction_index tx.
Proof.
  intros He. unfold from_proto. rewrite He. cbn. destruct (te_status effects) as [[]|]; cbn; [|by split|by split].
  destruct (decode_object_pool (et_objects tx)) as [pool|[]|] eqn:Ep; cbn; [|by split..].
  destruct (gather_all (pool, [], []) (te_changed_objects effects)) as [[[p1 changes] unknown]|[]|] eqn:Eg; cbn; [|by split..].
  destruct (gather_all_outline _ _ _ _ _ _ _ (decode_pool_ok _ _ Ep) Eg) as [Hc Hu].
  split.
  - destruct (et_checkpoint tx), (et_transaction_index tx), (et_timestamp tx) as [ts|]; cbn; try done.
    by destruct (proto_to_timestamp_ms ts).
  - intros view. destruct (et_checkpoint tx), (et_transaction_index tx), (et_timestamp tx) as [ts|]; cbn; try done.
    destruct (proto_to_timestamp_ms ts); [|done]. intros [= <-]. cbn. by rewrite Hc, Hu.
Qed.
