(* ===== verification/MirrorFeed.v ===== *)
(** * Feeding the mirror

    [crates/hashi/src/onchain/mirror.rs]: the frames of the replay and of the live stream.  Each
    carries a transaction or a claim of coverage, or both; a transaction at or below the position
    that was applied last is skipped.  What a transaction changed is passed on to the deposit
    tracker, the local limiter and the listeners.

    A connection subscribes, replays what it missed up to where its subscription begins, and then
    follows the stream; the answers of the server are given, and so is the scrape that seeds the
    mirror.  The histograms are left out. *)

From stdpp Require Import strings gmap.
From S2P Require Import Limiter CoinSelection MonitorDomain Withdrawals WithdrawalSigning DepositTracker Deposits Mirror MirrorApply MirrorWire Prelude.

Section feed.
Context `{MT : MirrorTypes} {MD : MirrorDecode} {MW : MirrorWire}.

Inductive Notification :=
| NValidatorInfoUpdated (validator : Address)
| NStartReconfig (epoch : Z)
| NReconfigAborted (epoch : Z).

(** The mirrored state, its routing and index, and what hangs on its transitions. *)
Record Base := mkBase {
  ba_hashi : Hashi;
  ba_packages : PackageVersions;
  ba_routing : RoutingTable;
  ba_index : ObjectIndex;
  ba_unrouted_total : Z;
  ba_signed_at_ms : gmap Address Z;
  ba_notifications : list Notification;
  ba_tracker : TrackerState;
  ba_limiter : option LocalLimiter;
  ba_drifted : bool;
}.

(** The transport's bookkeeping, and the watermark that waiters read. *)
Record Book := mkBook {
  bo_watermark_checkpoint : Z;
  bo_applied_position : Z * Z;
  bo_watermark_cursor : option (list Z);
  bo_state_watermark : option Z;
}.

Record Mirror := mkMirror { mi_base : Base; mi_book : Book }.

#[local] Abbreviation B := (M Base Empty_set).

(** ** Effects *)

Definition with_notifications (n : Notification) (b : Base) : Base :=
  mkBase (ba_hashi b) (ba_packages b) (ba_routing b) (ba_index b) (ba_unrouted_total b) (ba_signed_at_ms b)
    (ba_notifications b ++ [n]) (ba_tracker b) (ba_limiter b) (ba_drifted b).
Definition with_tracker (t : TrackerState) (b : Base) : Base :=
  mkBase (ba_hashi b) (ba_packages b) (ba_routing b) (ba_index b) (ba_unrouted_total b) (ba_signed_at_ms b)
    (ba_notifications b) t (ba_limiter b) (ba_drifted b).
Definition with_signed_at (f : gmap Address Z -> gmap Address Z) (b : Base) : Base :=
  mkBase (ba_hashi b) (ba_packages b) (ba_routing b) (ba_index b) (ba_unrouted_total b) (f (ba_signed_at_ms b))
    (ba_notifications b) (ba_tracker b) (ba_limiter b) (ba_drifted b).
Definition with_limiter (l : option LocalLimiter) (drifted : bool) (b : Base) : Base :=
  mkBase (ba_hashi b) (ba_packages b) (ba_routing b) (ba_index b) (ba_unrouted_total b) (ba_signed_at_ms b)
    (ba_notifications b) (ba_tracker b) l drifted.

(** An operation of the tracker. *)
Definition on_tracker {E} (op : TrackerState -> outcome E (TrackerState * bool)) : B unit := fun b =>
  match op (ba_tracker b) with
  | Ok (t, _) => (Ok tt, with_tracker t b)
  | _ => (Panic, b)
  end.

Definition withdrawal_txn_fully_signed (timestamp_ms : Z) (txn : WithdrawalTransaction) (b : Base) : Base :=
  let b := with_signed_at <[wt_id txn := timestamp_ms]> b in
  match ba_limiter b with
  | None => b
  | Some limiter =>
      let '(result, limiter) :=
        apply_consume limiter (next_seq (lv_state limiter)) (timestamp_ms / 1000) (withdrawal_limiter_consumption_amount txn) in
      match result with
      | inr _ => with_limiter (Some limiter) (ba_drifted b) b
      | inl _ => with_limiter (Some limiter) true b
      end
  end.

Definition handle_effect (timestamp_ms : Z) (e : Effect) : B unit :=
  match e with
  | ValidatorInfoUpdated validator => modify (with_notifications (NValidatorInfoUpdated validator))
  | ReconfigStarted epoch => modify (with_notifications (NStartReconfig epoch))
  | ReconfigAborted epoch => modify (with_notifications (NReconfigAborted epoch))
  | PackageUpgraded _ _ => mret tt
  | DepositRequestUpserted request outpoint => on_tracker (fun t => upsert_request t request outpoint)
  | DepositRequestRemoved request => on_tracker (fun t => remove_request t request)
  | WithdrawalTxnFullySigned txn => modify (withdrawal_txn_fully_signed timestamp_ms txn)
  | WithdrawalTxnConfirmed txn | WithdrawalTxnRemoved txn => modify (with_signed_at (delete (wt_id txn)))
  end.

Definition handle_effects (timestamp_ms : Z) (effects : list Effect) : B unit :=
  foldM (fun _ e => handle_effect timestamp_ms e) effects tt.

(** The state after one transaction, and the effects that are due. *)
Definition apply_state (view : TxView) : B (list Effect) := fun b =>
  let '(r, s) := apply_transaction view (mkApplying (ba_hashi b) (ba_packages b) (ba_routing b) (ba_index b) [] []) in
  let b := mkBase (ap_hashi s) (ap_packages s) (ap_routing s) (ap_index s)
             (ba_unrouted_total b + Z.of_nat (length (ap_unrouted s))) (ba_signed_at_ms b) (ba_notifications b)
             (ba_tracker b) (ba_limiter b) (ba_drifted b) in
  (match r with Ok _ => Ok (ap_effects s) | _ => Panic end, b).

(** ** Frames *)

Definition position (v : TxView) : Z * Z := (tv_checkpoint v, tv_transaction_index v).

(** Tuples of integers compare from the left. *)
Definition pos_le (a b : Z * Z) : bool := (a.1 <? b.1) || ((a.1 =? b.1) && (a.2 <=? b.2)).

Record Watermark := mkWatermark { wm_cursor : option (list Z); wm_checkpoint : option Z }.

Record Frame := mkFrame { fr_tx : option ExecutedTransaction; fr_watermark : option Watermark }.

#[local] Abbreviation F := (M Mirror unit).

Definition on_base {A} (m : B A) : F A := fun s =>
  let '(r, b) := m (mi_base s) in
  (match r with Ok a => Ok a | _ => Panic end, mkMirror b (mi_book s)).

Definition on_book (f : Book -> Book) : F unit := modify (fun s => mkMirror (mi_base s) (f (mi_book s))).

(** [OnchainState::advance_state_watermark] *)
Definition advance_state_watermark (covered : Z) (current : option Z) : option Z :=
  match current with
  | Some c => if covered <=? c then Some c else Some covered
  | None => Some covered
  end.

Definition advance_watermark (covered : Z) (b : Book) : Book :=
  let checkpoint := Z.max (bo_watermark_checkpoint b) covered in
  mkBook checkpoint (bo_applied_position b) (bo_watermark_cursor b)
    (advance_state_watermark checkpoint (bo_state_watermark b)).

Definition set_position (p : Z * Z) (b : Book) : Book :=
  mkBook (bo_watermark_checkpoint b) p (bo_watermark_cursor b) (bo_state_watermark b).
Definition set_cursor (c : list Z) (b : Book) : Book :=
  mkBook (bo_watermark_checkpoint b) (bo_applied_position b) (Some c) (bo_state_watermark b).

Definition apply_tx_frame (tx : ExecutedTransaction) : F unit :=
  view ← of_outcome (from_proto tx);
  match view with
  | None => mret tt
  | Some view =>
      book ← read mi_book;
      if pos_le (position view) (bo_applied_position book) then mret tt
      else
        effects ← on_base (apply_state view);
        _ ← on_book (set_position (position view));
        _ ← on_book (advance_watermark (sat_sub (tv_checkpoint view) 1));
        on_base (handle_effects (tv_timestamp_ms view) effects)
  end.

Definition handle_tx_frame (f : Frame) : F unit :=
  _ ← match fr_tx f with Some tx => apply_tx_frame tx | None => mret tt end;
  match fr_watermark f with
  | Some w =>
      _ ← match wm_cursor w with Some c => on_book (set_cursor c) | None => mret tt end;
      match wm_checkpoint w with Some c => on_book (advance_watermark c) | None => mret tt end
  | None => mret tt
  end.

(** [Mirror::from_seed], after a scrape that covers everything through [floor] *)
Definition book_from_seed (floor : Z) : Book := mkBook floor (floor, u64_max) None (Some floor).

(** ** Connections *)

Inductive QueryEndReason := LedgerTip | OtherReason.

(** An item of a replay: a frame and the reason the query ends for, if it is the last. *)
Definition ReplayItem : Type := Frame * option (option QueryEndReason).

(** The request for a page: the checkpoint to start from, or the cursor to resume after. *)
Definition list_request (b : Book) : option Z * option (list Z) :=
  (match bo_watermark_cursor b with None => Some (bo_watermark_checkpoint b) | Some _ => None end, bo_watermark_cursor b).

(** The answer: the request fails, or items arrive until one fails to or the stream ends. *)
Definition Server : Type := option Z * option (list Z) -> option (list (option ReplayItem)).

Fixpoint read_page (items : list (option ReplayItem)) (end_reason : option QueryEndReason) : F (option QueryEndReason) :=
  match items with
  | [] => mret end_reason
  | None :: _ => throw tt
  | Some (frame, query_end) :: items =>
      _ ← handle_tx_frame frame;
      read_page items (match query_end with Some reason => reason | None => end_reason end)
  end.

(** Page after page, with the server as it is at each request; [false]: still replaying. *)
Fixpoint replay_transactions (servers : list Server) (target : Z) : F bool :=
  book ← read mi_book;
  if target <=? bo_watermark_checkpoint book then mret true
  else
    match servers with
    | [] => mret false
    | server :: servers =>
        match server (list_request book) with
        | None => throw tt
        | Some items =>
            end_reason ← read_page items None;
            reached ← read (fun s => bo_watermark_checkpoint (mi_book s));
            match end_reason with
            | Some LedgerTip => if target <=? reached then mret true else replay_transactions servers target
            | Some OtherReason => replay_transactions servers target
            | None => throw tt
            end
        end
    end.

(** The stream after the first frame; [None]: an item that is an error. *)
Fixpoint follow (stream : list (option Frame)) : F unit :=
  match stream with
  | [] => mret tt
  | None :: _ => throw tt
  | Some frame :: stream => _ ← handle_tx_frame frame; follow stream
  end.

(** A connection: the scrape should it need one, the first frame, the servers of its replay and its stream. *)
Record Connection := mkConnection {
  cn_scrape : option Mirror;
  cn_first : option Frame;
  cn_servers : list Server;
  cn_stream : list (option Frame);
}.

Definition ensure_bootstrapped (scrape mirror : option Mirror) : option Mirror :=
  match mirror with Some m => Some m | None => scrape end.

(** A mirror is dropped when its replay fails. *)
Definition run_transactions (c : Connection) (mirror : option Mirror) : outcome unit unit * option Mirror :=
  match cn_first c with
  | None => (Err tt, mirror)
  | Some first =>
      match fr_watermark first ≫= wm_checkpoint with
      | None => (Err tt, mirror)
      | Some target =>
          match ensure_bootstrapped (cn_scrape c) mirror with
          | None => (Err tt, mirror)
          | Some m =>
              match replay_transactions (cn_servers c) target m with
              | (Ok true, m) => let '(r, m) := (_ ← handle_tx_frame first; follow (cn_stream c)) m in (r, Some m)
              | (Ok false, m) => (Ok tt, Some m)
              | (Err e, _) => (Err e, None)
              | (Panic, m) => (Panic, Some m)
              end
          end
      end
  end.

(** One connection after the other, whatever they end with. *)
Definition run (connections : list Connection) (mirror : option Mirror) : option Mirror :=
  foldl (fun mirror c => (run_transactions c mirror).2) mirror connections.
End feed.
