(* ===== verification/MirrorFeedProofs.v ===== *)
(** * Each transaction is applied once, in order

    Replay and stream overlap and repeat each other, and connections end and begin anew.  The mirror's
    state is nonetheless that of applying the history of the chain once and in order, and what its
    watermark claims has been applied. *)

From stdpp Require Import strings gmap sorting.
From S2P Require Import Mirror MirrorApply MirrorWire MirrorFeed Prelude.

Definition pos_lt (a b : Z * Z) : Prop := pos_le b a = false.

Lemma pos_le_trans a b c : pos_le a b = true -> pos_le b c = true -> pos_le a c = true.
Proof. unfold pos_le. destruct a, b, c; cbn. lia. Qed.
Lemma pos_lt_le a b : pos_lt a b -> pos_le a b = true.
Proof. unfold pos_lt, pos_le. destruct a, b; cbn. lia. Qed.
Lemma pos_le_refl a : pos_le a a = true.
Proof. unfold pos_le. lia. Qed.

Section once.
Context `{MT : MirrorTypes} {MD : MirrorDecode} {MW : MirrorWire}.

(** The transactions of the chain that touch Hashi, in its order, and where a cursor stands. *)
Context (history : list TxView) (cursor_at : list Z -> Z * Z).
Context (history_sorted : StronglySorted (fun a b => pos_lt (position a) (position b)) history).

(** Those behind one position and up to another. *)
Definition between (p q : Z * Z) : list TxView :=
  List.filter (fun v => negb (pos_le (position v) p) && pos_le (position v) q) history.

Definition frame_tx (f : Frame) : option TxView :=
  match from_proto <$> fr_tx f with Some (Ok (Some v)) => Some v | _ => None end.

(** A frame of a source that delivers the history in order and without gaps: what precedes its
    transaction is known by then, and so is what it claims to cover. *)
Record frame_ok (known : TxView -> Prop) (f : Frame) : Prop := {
  fo_tx v : frame_tx f = Some v -> v ∈ history /\ forall h, h ∈ history -> pos_lt (position h) (position v) -> known h;
  fo_checkpoint w c :
    fr_watermark f = Some w -> wm_checkpoint w = Some c ->
    forall h, h ∈ history -> tv_checkpoint h <= c -> known h \/ frame_tx f = Some h;
  fo_cursor w c :
    fr_watermark f = Some w -> wm_cursor w = Some c ->
    forall h, h ∈ history -> pos_le (position h) (cursor_at c) = true -> known h \/ frame_tx f = Some h;
}.

Fixpoint gap_free (known : TxView -> Prop) (frames : list Frame) : Prop :=
  match frames with
  | [] => True
  | f :: frames => frame_ok known f /\ gap_free (fun h => known h \/ frame_tx f = Some h) frames
  end.

(** The frames that arrive before a stream fails. *)
Fixpoint heard {X} (items : list (option X)) : list X :=
  match items with Some x :: items => x :: heard items | _ => [] end.

(** What a request leaves out, because it asks for what is behind a cursor or from a checkpoint on. *)
Definition left_out (request : option Z * option (list Z)) (h : TxView) : Prop :=
  match request.2 with
  | Some cursor => pos_le (position h) (cursor_at cursor) = true
  | None => match request.1 with Some checkpoint => tv_checkpoint h < checkpoint | None => False end
  end.

Definition server_ok (server : Server) : Prop :=
  forall request items, server request = Some items -> gap_free (left_out request) (fst <$> heard items).

(** The stream delivers all that comes after the checkpoint of its first frame. *)
Definition stream_ok (first : Frame) (stream : list (option Frame)) : Prop :=
  forall target, fr_watermark first ≫= wm_checkpoint = Some target ->
    gap_free (fun h => tv_checkpoint h <= target) (first :: heard stream).

(** A transaction with its effects. *)
Definition apply_once (v : TxView) : M Base Empty_set unit :=
  effects ← apply_state v; handle_effects (tv_timestamp_ms v) effects.

Definition apply_all (txs : list TxView) : M Base Empty_set unit := foldM (fun _ v => apply_once v) txs tt.

Lemma apply_all_snoc txs v b b' :
  apply_all txs b = (Ok tt, b') -> apply_all (txs ++ [v]) b = apply_once v b'.
Proof.
  revert b. induction txs as [|t txs IH]; intros b; cbn.
  - intros [= <-]. unfold mbind, M_bind. destruct (apply_once v b) as [[[]|[]|] b1]; done.
  - unfold mbind, M_bind. destruct (apply_once t b) as [[[]|[]|] b1]; [apply IH|done].
Qed.

(** ** The history between two positions *)

Lemma filter_none {X} (f : X -> bool) l : Forall (fun x => f x = false) l -> List.filter f l = [].
Proof. induction 1 as [|x l Hx _ IH]; [done|]. cbn. by rewrite Hx. Qed.

Lemma filter_iff {X} (f g : X -> bool) l : Forall (fun x => f x = g x) l -> List.filter f l = List.filter g l.
Proof. induction 1 as [|x l Hx _ IH]; [done|]. cbn. by rewrite Hx, IH. Qed.

(** The next transaction of the history extends what has been applied. *)
Lemma between_next p q v :
  v ∈ history -> pos_le p q = true -> pos_lt q (position v) ->
  (forall h, h ∈ history -> pos_lt (position h) (position v) -> pos_le (position h) q = true) ->
  between p (position v) = between p q ++ [v].
Proof.
  intros Hv Hpq Hq Hgap. apply list_elem_of_split in Hv as (l1 & l2 & Eh).
  unfold between. rewrite Eh in Hgap |- *. rewrite !List.filter_app. cbn.
  pose proof history_sorted as Hs. rewrite Eh in Hs. apply StronglySorted_app in Hs as (Hs12 & _ & Hs2).
  apply StronglySorted_inv in Hs2 as [_ Hs2]. rewrite Forall_forall in Hs2.
  assert (pos_le (position v) p = false) as Hvp.
  { destruct (pos_le (position v) p) eqn:E; [|done]. unfold pos_lt in Hq. by rewrite (pos_le_trans _ _ _ E Hpq) in Hq. }
  rewrite Hvp. unfold pos_lt in Hq. rewrite Hq, pos_le_refl. cbn. rewrite !(filter_none _ l2).
  - rewrite app_nil_r. f_equal. apply filter_iff, Forall_forall. intros h Hh. f_equal.
    assert (pos_lt (position h) (position v)) as Hlt by (apply Hs12; [done|left]).
    rewrite (pos_lt_le _ _ Hlt). symmetry. apply Hgap; [|done]. apply elem_of_app. by left.
  - apply Forall_forall. intros h Hh. specialize (Hs2 h Hh). unfold pos_lt in Hs2.
    destruct (pos_le (position h) q) eqn:E; [|by rewrite andb_false_r].
    assert (pos_le (position h) (position v) = true) as E2 by (eapply pos_le_trans; [exact E|by apply pos_lt_le]). congruence.
  - apply Forall_forall. intros h Hh. specialize (Hs2 h Hh). unfold pos_lt in Hs2. rewrite Hs2. apply andb_false_r.
Qed.

(** ** The mirror *)

(** A transaction has been applied, or the seed contained it. *)
Definition has (m : Mirror) (h : TxView) : Prop := pos_le (position h) (bo_applied_position (mi_book m)) = true.

(** The mirror is its seed with the history after it applied, and knows what it claims. *)
Record follows (seed m : Mirror) : Prop := {
  fl_start : pos_le (bo_applied_position (mi_book seed)) (bo_applied_position (mi_book m)) = true;
  fl_base : apply_all (between (bo_applied_position (mi_book seed)) (bo_applied_position (mi_book m))) (mi_base seed) = (Ok tt, mi_base m);
  fl_nonneg : 0 <= bo_watermark_checkpoint (mi_book m);
  fl_checkpoint h : h ∈ history -> tv_checkpoint h <= bo_watermark_checkpoint (mi_book m) -> has m h;
  fl_watermark c h : bo_state_watermark (mi_book m) = Some c -> h ∈ history -> tv_checkpoint h <= c -> has m h;
  fl_cursor c h : bo_watermark_cursor (mi_book m) = Some c -> h ∈ history -> pos_le (position h) (cursor_at c) = true -> has m h;
}.

(** A seed covers what it claims, and the history applies to it. *)
Definition seed_ok (seed : Mirror) : Prop :=
  follows seed seed /\ forall q, (apply_all (between (bo_applied_position (mi_book seed)) q) (mi_base seed)).1 <> Panic.

Definition grows (m m' : Mirror) : Prop := forall h, has m h -> has m' h.

Lemma advance_follows seed m c :
  follows seed m -> (forall h, h ∈ history -> tv_checkpoint h <= c -> has m h) ->
  follows seed (mkMirror (mi_base m) (advance_watermark c (mi_book m))).
Proof.
  intros [H1 H2 H3 H4 H5 H6] Hc.
  assert (forall h, h ∈ history -> tv_checkpoint h <= Z.max (bo_watermark_checkpoint (mi_book m)) c -> has m h) as Hmax.
  { intros h Hh Hm. destruct (Z.le_gt_cases (tv_checkpoint h) c); [by apply Hc|]. apply H4; [done|lia]. }
  split; cbn; try done; [lia|]. intros c' h. unfold advance_state_watermark.
  destruct (bo_state_watermark (mi_book m)) as [old|] eqn:Eo; [|intros [= <-]; by apply Hmax].
  destruct (_ <=? old); intros [= <-]; [by apply (H5 old)|by apply Hmax].
Qed.

Lemma cursor_follows seed m c :
  follows seed m -> (forall h, h ∈ history -> pos_le (position h) (cursor_at c) = true -> has m h) ->
  follows seed (mkMirror (mi_base m) (set_cursor c (mi_book m))).
Proof. intros [H1 H2 H3 H4 H5 H6] Hc. split; cbn; try done. intros c' h [= <-]. by apply Hc. Qed.

(** A transaction that is ahead of what has been applied. *)
Definition apply_new (v : TxView) : M Mirror unit unit :=
  effects ← on_base (apply_state v); _ ← on_book (set_position (position v));
  _ ← on_book (advance_watermark (sat_sub (tv_checkpoint v) 1)); on_base (handle_effects (tv_timestamp_ms v) effects).

(** The effects touch the base only, so that they might as well come first. *)
Lemma apply_new_once v m b :
  apply_once v (mi_base m) = (Ok tt, b) ->
  apply_new v m = (Ok tt, mkMirror b (advance_watermark (sat_sub (tv_checkpoint v) 1) (set_position (position v) (mi_book m)))).
Proof.
  unfold apply_once, apply_new, on_base, on_book, modify, mbind, M_bind. destruct (apply_state v (mi_base m)) as [[effects|[]|] b1]; [|done].
  cbn. destruct (handle_effects _ effects b1) as [[[]|[]|] b2]; [|done]. by intros [= ->].
Qed.

Lemma apply_new_follows seed m v r m' :
  seed_ok seed -> follows seed m -> v ∈ history -> (forall h, h ∈ history -> pos_lt (position h) (position v) -> has m h) ->
  pos_le (position v) (bo_applied_position (mi_book m)) = false ->
  apply_new v m = (r, m') ->
  r = Ok tt /\ follows seed m' /\ grows m m' /\ has m' v.
Proof.
  intros [_ Hnp] [H1 H2 H3 H4 H5 H6] Hv Hprev Hnew.
  pose proof (apply_all_snoc _ v _ _ H2) as Happ. rewrite <- (between_next _ _ v Hv H1 Hnew Hprev) in Happ.
  specialize (Hnp (position v)). rewrite Happ in Hnp. destruct (apply_once v (mi_base m)) as [[[]|[]|] b1] eqn:Eo; [|done].
  rewrite (apply_new_once v m b1 Eo). intros [= <- <-]. pose proof (pos_lt_le _ _ Hnew) as Hle.
  assert (forall h, has m h -> pos_le (position h) (position v) = true) as Hgrow by (intros h Hh; by eapply pos_le_trans).
  split; [done|]. split; [|split; [exact Hgrow|apply pos_le_refl]].
  apply (advance_follows seed (mkMirror b1 (set_position (position v) (mi_book m)))).
  - split; cbn; try done; [by eapply pos_le_trans|..]; intros *; intros; apply Hgrow; eauto.
  - intros h Hh Hc. unfold has. cbn. destruct (Z.le_gt_cases 1 (tv_checkpoint v)) as [Hc1|Hc1].
    + unfold sat_sub in Hc. unfold pos_le. cbn. lia.
    + apply Hgrow, H4; [done|]. unfold sat_sub in Hc. lia.
Qed.

Lemma apply_tx_frame_view tx v m :
  from_proto tx = Ok (Some v) ->
  apply_tx_frame tx m =
  if pos_le (position v) (bo_applied_position (mi_book m)) then (Ok tt, m)
  else apply_new v m.
Proof.
  intros E. unfold apply_tx_frame, read, of_outcome, mbind, M_bind. rewrite E. cbv beta iota. by destruct (pos_le (position v) _).
Qed.

(** A transaction that is not mirrored, or that cannot be decoded, changes nothing. *)
Lemma apply_tx_frame_other tx m :
  (from_proto tx = Ok None -> apply_tx_frame tx m = (Ok tt, m)) /\ (from_proto tx = Err tt -> apply_tx_frame tx m = (Err tt, m)).
Proof. split; intros E; unfold apply_tx_frame, of_outcome, mbind, M_bind; by rewrite E. Qed.

Ltac stays := split; [done|split; [done|split; [first [done|by intros ?]|]]].

Lemma tx_part_follows seed m known f r m' :
  seed_ok seed -> follows seed m -> (forall h, h ∈ history -> known h -> has m h) -> frame_ok known f ->
  match fr_tx f with Some tx => apply_tx_frame tx | None => mret tt end m = (r, m') ->
  r <> Panic /\ follows seed m' /\ grows m m' /\ (r = Ok tt -> forall v, frame_tx f = Some v -> has m' v).
Proof.
  intros Hseed Hm Hk [Htx _ _]. unfold frame_tx in *. destruct (fr_tx f) as [tx|]; cbn in *; [|intros [= <- <-]; stays; done].
  destruct (from_proto tx) as [[v|]|[]|] eqn:Et; [| | |by apply from_proto_safe in Et].
  - destruct (Htx v eq_refl) as [Hv Hgap]. rewrite (apply_tx_frame_view _ _ _ Et).
    destruct (pos_le (position v) (bo_applied_position (mi_book m))) eqn:Ep.
    + intros [= <- <-]. stays. by intros _ v' [= <-].
    + intros E. destruct (apply_new_follows seed m v r m') as (-> & H1 & H2 & H3); auto.
      stays. by intros _ v' [= <-].
  - rewrite (proj1 (apply_tx_frame_other tx m) Et). intros [= <- <-]. by stays.
  - rewrite (proj2 (apply_tx_frame_other tx m) Et). intros [= <- <-]. by stays.
Qed.

Lemma frame_follows seed m known f r m' :
  seed_ok seed -> follows seed m -> (forall h, h ∈ history -> known h -> has m h) -> frame_ok known f ->
  handle_tx_frame f m = (r, m') ->
  r <> Panic /\ follows seed m' /\ grows m m' /\ (r = Ok tt -> forall v, frame_tx f = Some v -> has m' v).
Proof.
  intros Hseed Hm Hk Hf. unfold handle_tx_frame. unfold mbind at 1, M_bind at 1.
  destruct (match fr_tx f with Some tx => apply_tx_frame tx | None => mret tt end m) as [r1 m1] eqn:E1.
  destruct (tx_part_follows _ _ _ _ _ _ Hseed Hm Hk Hf E1) as (Hr1 & Hm1 & Hg1 & Hv1).
  destruct r1 as [[]|[]|]; [|intros [= <- <-]; by stays|done]. specialize (Hv1 eq_refl).
  destruct Hf as [_ Hcp Hcu]. destruct (fr_watermark f) as [[cursor checkpoint]|]; [|intros [= <- <-]; by stays].
  assert (forall h, known h \/ frame_tx f = Some h -> h ∈ history -> has m1 h) as Hboth by (intros h [|]; auto).
  unfold mbind, M_bind, on_book, modify. cbn.
  set (m2 := match cursor with Some c => mkMirror (mi_base m1) (set_cursor c (mi_book m1)) | None => m1 end).
  assert (follows seed m2) as Hm2.
  { unfold m2. destruct cursor as [c|]; [|done]. apply cursor_follows; [done|]. intros h Hh Hc. apply Hboth; [|done]. by eapply (Hcu _ c). }
  assert (forall h, has m2 h <-> has m1 h) as Hsame by (intros h; unfold m2; by destruct cursor).
  assert (forall q, q = match checkpoint with Some c => mkMirror (mi_base m2) (advance_watermark c (mi_book m2)) | None => m2 end ->
    follows seed q /\ grows m q /\ forall v, frame_tx f = Some v -> has q v) as Hq.
  { intros q ->. assert (grows m m2) as Hg2 by (intros h Hh; by apply Hsame, Hg1).
    assert (forall v, frame_tx f = Some v -> has m2 v) as Hv2 by (intros v Hv; by apply Hsame, Hv1).
    destruct checkpoint as [c|]; [|done]. split; [|done]. apply advance_follows; [done|].
    intros h Hh Hc. apply Hsame, Hboth; [|done]. by eapply (Hcp _ c). }
  destruct cursor, checkpoint; intros [= <- <-]; destruct (Hq _ eq_refl) as (? & ? & ?); by split.
Qed.

(** ** Streams *)

(** What a source delivered has been applied. *)
Definition knows (known : TxView -> Prop) (m : Mirror) : Prop := forall h, h ∈ history -> known h -> has m h.

Lemma knows_frame known f m m' :
  knows known m -> grows m m' -> (forall v, frame_tx f = Some v -> has m' v) -> knows (fun h => known h \/ frame_tx f = Some h) m'.
Proof. intros Hk Hg Hv h Hh [Hx|Hx]; [by apply Hg, Hk|by apply Hv]. Qed.

Lemma read_page_follows seed items : forall known end_reason m r m',
  seed_ok seed -> follows seed m -> knows known m -> gap_free known (fst <$> heard items) ->
  read_page items end_reason m = (r, m') -> r <> Panic /\ follows seed m' /\ grows m m'.
Proof.
  induction items as [|[[f query_end]|] items IH]; intros known end_reason m r m' Hseed Hm Hk Hg; cbn;
    [intros [= <- <-]; split; [done|split; [done|by intros h]]| |intros [= <- <-]; split; [done|split; [done|by intros h]]].
  destruct Hg as [Hf Hg]. unfold mbind, M_bind. destruct (handle_tx_frame f m) as [r1 m1] eqn:E1.
  destruct (frame_follows _ _ _ _ _ _ Hseed Hm Hk Hf E1) as (Hr1 & Hm1 & Hg1 & Hv1).
  destruct r1 as [[]|[]|]; [|intros [= <- <-]; by split|done]. intros E2.
  destruct (IH _ _ _ _ _ Hseed Hm1 (knows_frame _ _ _ _ Hk Hg1 (Hv1 eq_refl)) Hg E2) as (H1 & H2 & H3).
  split; [done|split; [done|]]. intros h Hh. by apply H3, Hg1.
Qed.

Lemma follow_follows seed stream : forall known m r m',
  seed_ok seed -> follows seed m -> knows known m -> gap_free known (heard stream) ->
  follow stream m = (r, m') -> r <> Panic /\ follows seed m' /\ grows m m' /\ (r = Ok tt -> forall f v, f ∈ heard stream -> frame_tx f = Some v -> has m' v).
Proof.
  induction stream as [|[f|] stream IH]; intros known m r m' Hseed Hm Hk Hg; cbn;
    [intros [= <- <-]; stays; intros _ f v Hf; by apply not_elem_of_nil in Hf| |intros [= <- <-]; by stays].
  destruct Hg as [Hf Hg]. unfold mbind, M_bind. destruct (handle_tx_frame f m) as [r1 m1] eqn:E1.
  destruct (frame_follows _ _ _ _ _ _ Hseed Hm Hk Hf E1) as (Hr1 & Hm1 & Hg1 & Hv1).
  destruct r1 as [[]|[]|]; [|intros [= <- <-]; by stays|done]. intros E2. specialize (Hv1 eq_refl).
  destruct (IH _ _ _ _ Hseed Hm1 (knows_frame _ _ _ _ Hk Hg1 Hv1) Hg E2) as (H1 & H2 & H3 & H4).
  split; [done|split; [done|split]]; [intros h Hh; by apply H3, Hg1|].
  intros Hr f' v [->|Hf']%elem_of_cons Hv; [by apply H3, Hv1|by eapply H4].
Qed.

(** What a page leaves out has been applied. *)
Lemma knows_left_out seed m : follows seed m -> knows (left_out (list_request (mi_book m))) m.
Proof.
  intros [H1 H2 H3 H4 H5 H6] h Hh. unfold left_out, list_request. cbn.
  destruct (bo_watermark_cursor (mi_book m)) as [c|]; [by eapply H6|]. intros Hc. apply H4; [done|lia].
Qed.

Lemma replay_follows seed servers : forall target m r m',
  seed_ok seed -> follows seed m -> Forall server_ok servers -> replay_transactions servers target m = (r, m') ->
  r <> Panic /\ follows seed m' /\ grows m m' /\ (r = Ok true -> target <= bo_watermark_checkpoint (mi_book m')).
Proof.
  induction servers as [|server servers IH]; intros target m r m' Hseed Hm Hs; cbn;
    unfold mbind, M_bind, read, throw, of_outcome; cbv beta iota;
    destruct (target <=? bo_watermark_checkpoint (mi_book m)) eqn:Et; try (intros [= <- <-]; stays; done || (intros; lia)).
  apply Forall_cons in Hs as [Hserver Hs].
  destruct (server (list_request (mi_book m))) as [items|] eqn:Es; [|intros [= <- <-]; by stays].
  destruct (read_page items None m) as [r1 m1] eqn:E1.
  destruct (read_page_follows _ _ _ _ _ _ _ Hseed Hm (knows_left_out _ _ Hm) (Hserver _ _ Es) E1) as (Hr1 & Hm1 & Hg1).
  destruct r1 as [end_reason|[]|]; [|intros [= <- <-]; by stays|done].
  assert (replay_transactions servers target m1 = (r, m') ->
    r <> Panic /\ follows seed m' /\ grows m m' /\ (r = Ok true -> target <= bo_watermark_checkpoint (mi_book m'))) as Hnext.
  { intros E2. destruct (IH _ _ _ _ Hseed Hm1 Hs E2) as (H1 & H2 & H3 & H4). split; [done|split; [done|split; [|done]]].
    intros h Hh. by apply H3, Hg1. }
  destruct end_reason as [[]|]; [|done|intros [= <- <-]; by stays].
  destruct (target <=? bo_watermark_checkpoint (mi_book m1)) eqn:Et1; [|done]. intros [= <- <-]. stays. intros _. lia.
Qed.

(** ** Connections *)

Definition connection_ok (c : Connection) : Prop :=
  Forall server_ok (cn_servers c) /\ forall first, cn_first c = Some first -> stream_ok first (cn_stream c).

(** The replay closes the gap to where the stream begins. *)
Lemma stream_follows seed servers first stream target m m1 r m' :
  seed_ok seed -> follows seed m -> Forall server_ok servers -> stream_ok first stream ->
  fr_watermark first ≫= wm_checkpoint = Some target -> replay_transactions servers target m = (Ok true, m1) ->
  (_ ← handle_tx_frame first; follow stream) m1 = (r, m') ->
  r <> Panic /\ follows seed m' /\ (forall h, h ∈ history -> tv_checkpoint h <= target -> has m' h)
  /\ (r = Ok tt -> forall f v, f ∈ first :: heard stream -> frame_tx f = Some v -> has m' v).
Proof.
  intros Hseed Hm Hs Hst Ht Er E. destruct (replay_follows _ _ _ _ _ _ Hseed Hm Hs Er) as (_ & Hm1 & _ & Hreach).
  specialize (Hreach eq_refl).
  assert (knows (fun h => tv_checkpoint h <= target) m1) as Hk by (intros h Hh Hc; apply (fl_checkpoint _ _ Hm1); [done|lia]).
  assert (follow (Some first :: stream) m1 = (r, m')) as E' by exact E.
  destruct (follow_follows _ (Some first :: stream) _ _ _ _ Hseed Hm1 Hk (Hst _ Ht) E') as (H1 & H2 & H3 & H4).
  split; [done|split; [done|split; [|done]]]. intros h Hh Hc. by apply H3, Hk.
Qed.

(** The mirror there is, if any, follows one of the seeds. *)
Definition live (seeds : list Mirror) (mirror : option Mirror) : Prop :=
  forall m, mirror = Some m -> exists seed, seed ∈ seeds /\ follows seed m.

Lemma connection_live seeds c mirror r mirror' :
  Forall seed_ok seeds -> (forall m, cn_scrape c = Some m -> m ∈ seeds) -> connection_ok c -> live seeds mirror ->
  run_transactions c mirror = (r, mirror') -> r <> Panic /\ live seeds mirror'.
Proof.
  intros Hseeds Hscrape [Hs Hst] Hl. unfold run_transactions. rewrite Forall_forall in Hseeds.
  destruct (cn_first c) as [first|]; [|by intros [= <- <-]]. specialize (Hst first eq_refl).
  destruct (fr_watermark first ≫= wm_checkpoint) as [target|] eqn:Et; [|by intros [= <- <-]].
  destruct (ensure_bootstrapped (cn_scrape c) mirror) as [m|] eqn:Eb; [|by intros [= <- <-]].
  assert (exists seed, seed ∈ seeds /\ follows seed m) as (seed & Hin & Hm).
  { destruct mirror as [m0|]; [apply Hl; by rewrite <- Eb|]. exists m. pose proof (Hscrape m Eb) as Hin. split; [done|].
    by apply (Hseeds m Hin). }
  specialize (Hseeds seed Hin). destruct (replay_transactions (cn_servers c) target m) as [[[]|[]|] m1] eqn:Er.
  - destruct ((_ ← handle_tx_frame first; follow (cn_stream c)) m1) as [r2 m2] eqn:E2. intros [= <- <-].
    destruct (stream_follows _ _ _ _ _ _ _ _ _ Hseeds Hm Hs Hst Et Er E2) as (H1 & H2 & _).
    split; [done|]. intros m' [= <-]. by exists seed.
  - intros [= <- <-]. destruct (replay_follows _ _ _ _ _ _ Hseeds Hm Hs Er) as (_ & H2 & _). split; [done|].
    intros m' [= <-]. by exists seed.
  - by intros [= <- <-].
  - by destruct (replay_follows _ _ _ _ _ _ Hseeds Hm Hs Er) as (H1 & _).
Qed.

Lemma run_live seeds connections : forall mirror,
  Forall seed_ok seeds -> (forall m, m ∈ omap cn_scrape connections -> m ∈ seeds) -> Forall connection_ok connections ->
  live seeds mirror -> live seeds (run connections mirror).
Proof.
  induction connections as [|c connections IH]; intros mirror Hseeds Hin Hc Hl; [done|]. apply Forall_cons in Hc as [Hc1 Hc2].
  destruct (run_transactions c mirror) as [r mirror1] eqn:E. unfold run. cbn. rewrite E. apply IH; try done.
  - intros m Hm. apply Hin. cbn. destruct (cn_scrape c); [by apply elem_of_cons; right|done].
  - eapply connection_live; try done. intros m Em. apply Hin. cbn. rewrite Em. apply elem_of_cons. by left.
Qed.

(** Once a connection has caught up, all that its stream delivers is applied. *)
Lemma connection_catches_up seed m c first target m1 r m' :
  seed_ok seed -> follows seed m -> connection_ok c -> cn_first c = Some first ->
  fr_watermark first ≫= wm_checkpoint = Some target -> replay_transactions (cn_servers c) target m = (Ok true, m1) ->
  run_transactions c (Some m) = (r, Some m') ->
  (forall h, h ∈ history -> tv_checkpoint h <= target -> has m' h)
  /\ (r = Ok tt -> forall f v, f ∈ first :: heard (cn_stream c) -> frame_tx f = Some v -> has m' v).
Proof.
  intros Hseed Hm [Hs Hst] Ef Et Er. unfold run_transactions. rewrite Ef, Et. cbn [ensure_bootstrapped]. rewrite Er.
  destruct ((_ ← handle_tx_frame first; follow (cn_stream c)) m1) as [r2 m2] eqn:E2. intros [= <- <-].
  by destruct (stream_follows _ _ _ _ _ _ _ _ _ Hseed Hm Hs (Hst first Ef) Et Er E2) as (_ & _ & H3 & H4).
Qed.
End once.

