(* ===== verification/MirrorReads.v ===== *)
(** * Reading the mirror

    What the node asks of the mirrored state ([crates/hashi/src/onchain/mod.rs], [types.rs],
    [version.rs]) and how a scrape seeds it ([route.rs]): the submissions of a bucket in the order of
    the broadcast, the package version to act at, whether the
    mirror is past what the scrape saw, and the heights of a scrape. *)

From stdpp Require Import strings gmap sorting.
From S2P Require Import CoinSelection MonitorDomain Withdrawals Deposits Mirror MirrorApply Prelude.

(** [ProtocolType::NonceGeneration] *)
Definition NONCE_GENERATION : Z := 2.

Section reads.
Context `{MT : MirrorTypes}.

(** A node of the linked table, and the time of the submission in it. *)
Context (node_next : TobNode -> option Address) (node_timestamp_ms : TobNode -> Z).

(** ** The ordered broadcast *)

Record IncompleteTobWalk := mkIncompleteTobWalk { iw_walked : Z; iw_size : Z }.

(** The walk is bounded by the number of nodes. *)
Fixpoint walk (nodes : gmap Address TobNode) (fuel : nat) (current : option Address) : list (Address * TobNode) :=
  match fuel, current with
  | S fuel, Some dealer =>
      match nodes !! dealer with
      | Some node => (dealer, node) :: walk nodes fuel (node_next node)
      | None => []
      end
  | _, _ => []
  end.

Definition certs_in_order (self : TobBucket) : list (Address * TobNode) := walk (tb_nodes self) (size (tb_nodes self)) (tb_head self).

Definition complete_certs_in_order (self : TobBucket) : outcome IncompleteTobWalk (list (Address * TobNode)) :=
  let certs := certs_in_order self in
  if Z.of_nat (length certs) <? tb_size self then Err (mkIncompleteTobWalk (Z.of_nat (length certs)) (tb_size self)) else Ok certs.

Fixpoint ensure_timestamp_ordered (certs : list (Address * TobNode)) : bool :=
  match certs with
  | a :: ((b :: _) as rest) => if node_timestamp_ms b.2 <? node_timestamp_ms a.2 then false else ensure_timestamp_ordered rest
  | _ => true
  end.

Inductive TobReadError := InconsistentListing (walk : IncompleteTobWalk) | UnorderedCertTableRead.

Definition tob_certs (h : Hashi) (key : TobKey) : outcome TobReadError (option (list (Address * TobNode))) :=
  match ha_tob h !! key with
  | None => Ok None
  | Some bucket =>
      match complete_certs_in_order bucket with
      | Err e => Err (InconsistentListing e)
      | Panic => Panic
      | Ok certs =>
          if (tk_protocol_type key =? NONCE_GENERATION) && negb (ensure_timestamp_ordered certs) then Err UnorderedCertTableRead
          else Ok (Some certs)
      end
  end.

(** The table as the chain has it: its submissions in order, each linked to the next. *)
Fixpoint linked (table : list (Address * TobNode)) : Prop :=
  match table with
  | [] => True
  | (_, node) :: rest => node_next node = (fst <$> head rest) /\ linked rest
  end.

(** The walk goes along the table, as far as the nodes have arrived. *)
Lemma walk_prefix nodes table : forall fuel,
  linked table -> (forall dealer node, (dealer, node) ∈ table -> nodes !! dealer = Some node \/ nodes !! dealer = None) ->
  exists n, walk nodes fuel (fst <$> head table) = take n table
    /\ (n = length table \/ n = fuel \/ exists dealer node, table !! n = Some (dealer, node) /\ nodes !! dealer = None).
Proof.
  induction table as [|[dealer node] table IH]; intros fuel Hl Hn; [exists O; split; [by destruct fuel|by left]|].
  destruct fuel as [|fuel]; [exists O; split; [done|right; by left]|]. destruct Hl as [Hnext Hl]. cbn.
  destruct (Hn dealer node) as [E|E]; [left|rewrite E..].
  - rewrite Hnext. destruct (IH fuel Hl) as (n & -> & Hcase).
    { intros d' n' Hin. apply Hn. by right. }
    exists (S n). split; [done|]. destruct Hcase as [->|[->|(d' & n' & Hlk & Hno)]]; [by left|right; by left|right; right; by exists d', n'].
  - exists O. split; [done|]. right. right. by exists dealer, node.
Qed.
End reads.

(** A bucket mirrors a table: it knows its head, and holds some of its nodes and no others. *)
Record bucket_of `{MT : MirrorTypes} (node_next : TobNode -> option Address) (table : list (Address * TobNode)) (b : TobBucket) : Prop := {
  bo_head : tb_head b = (fst <$> head table);
  bo_linked : linked node_next table;
  bo_distinct : NoDup table.*1;
  bo_nodes : map_to_list (tb_nodes b) ⊆ table;
}.

Section reading.
Context `{MT : MirrorTypes} (node_next : TobNode -> option Address) (node_timestamp_ms : TobNode -> Z).

Lemma bucket_nodes table b dealer node :
  bucket_of node_next table b -> (dealer, node) ∈ table -> tb_nodes b !! dealer = Some node \/ tb_nodes b !! dealer = None.
Proof.
  intros [_ _ Hd Hs] Hin. destruct (tb_nodes b !! dealer) as [node'|] eqn:E; [left|by right].
  assert ((dealer, node') ∈ table) as Hin' by (by apply Hs, elem_of_map_to_list).
  apply list_elem_of_lookup in Hin as [i Hi], Hin' as [j Hj]. f_equal.
  assert (i = j) as <-; [|congruence]. eapply NoDup_lookup; [exact Hd|by rewrite list_lookup_fmap, Hi|by rewrite list_lookup_fmap, Hj].
Qed.

Lemma certs_prefix table b :
  bucket_of node_next table b ->
  exists n, certs_in_order node_next b = take n table
    /\ ((forall dealer node, (dealer, node) ∈ table -> tb_nodes b !! dealer = Some node) -> length table <= n)%nat.
Proof.
  intros Hb. pose proof (bucket_nodes table b) as Hn. destruct Hb as [Hh Hl Hd Hs] eqn:Eb. clear Eb.
  unfold certs_in_order. rewrite Hh.
  destruct (walk_prefix node_next (tb_nodes b) table (size (tb_nodes b)) Hl) as (n & Hw & Hcase).
  { intros. by apply Hn. }
  exists n. split; [done|]. intros Hall. destruct Hcase as [->|[->|(dealer & node & Hlk & Hno)]]; [done| |].
  - rewrite <- length_map_to_list. apply submseteq_length, NoDup_submseteq; [by apply NoDup_fmap_1 in Hd|].
    intros [dealer node] Hin. apply elem_of_map_to_list. by apply Hall.
  - apply list_elem_of_lookup_2 in Hlk. apply Hall in Hlk. congruence.
Qed.
End reading.

(** The submissions of a bucket are read in the order of the broadcast, and completely or not at all:
    whatever part of the linked table has arrived, a read that succeeds while the mirror knows the
    table's size returns the table, one that fails to cover it is an error, and once all nodes are there
    the read succeeds. *)
Theorem tob_read_complete `{MT : MirrorTypes} node_next node_timestamp_ms h key table b :
  ha_tob h !! key = Some b -> bucket_of node_next table b -> tb_size b = Z.of_nat (length table) ->
  (forall certs, tob_certs node_next node_timestamp_ms h key = Ok (Some certs) -> certs = table)
  /\ (forall dealer node, (dealer, node) ∈ table -> tb_nodes b !! dealer = None ->
        exists e, tob_certs node_next node_timestamp_ms h key = Err e)
  /\ ((forall dealer node, (dealer, node) ∈ table -> tb_nodes b !! dealer = Some node) ->
        tob_certs node_next node_timestamp_ms h key
        = if (tk_protocol_type key =? NONCE_GENERATION) && negb (ensure_timestamp_ordered node_timestamp_ms table)
          then Err UnorderedCertTableRead else Ok (Some table)).
Proof.
  intros Hk Hb Hsize. destruct (certs_prefix node_next table b Hb) as (n & Hc & Hall).
  unfold tob_certs, complete_certs_in_order. rewrite Hk, Hc, Hsize, length_take.
  split; [|split].
  - intros certs. destruct (_ <? _) eqn:E; [done|]. apply Z.ltb_ge in E. destruct (_ && _); [done|]. intros [= <-]. apply take_ge. lia.
  - intros dealer node Hin Hno. destruct (_ <? _) eqn:E; [by eexists|]. apply Z.ltb_ge in E. exfalso.
    assert (take n table = table) as Ht by (apply take_ge; lia). rewrite Ht in Hc.
    assert (forall fuel cur, (dealer, node) ∈ walk node_next (tb_nodes b) fuel cur -> tb_nodes b !! dealer = Some node) as Hw.
    { clear. induction fuel as [|fuel IH]; intros [d|]; cbn; try (by intros []%not_elem_of_nil).
      destruct (tb_nodes b !! d) as [nd|] eqn:Ed; [|by intros []%not_elem_of_nil].
      intros [[= -> ->]|Hin]%elem_of_cons; [done|by eapply IH]. }
    rewrite <- Hc in Hin. apply Hw in Hin. congruence.
  - intros Hfull. specialize (Hall Hfull). destruct (Z.ltb_spec (Z.of_nat (n `min` length table)) (Z.of_nat (length table))); [lia|]. by rewrite take_ge by lia.
Qed.

(** * Seeding the mirror, and acting on it

    The heights and seeds of a scrape ([crates/hashi/src/onchain/route.rs]), the gate that keeps the node
    from acting before the mirror is past what the scrape saw ([mod.rs]), and the package version to act at ([version.rs]). *)

(** ** Heights of a scrape *)

Record PageHeights := mkPageHeights { ph_floor : Z; ph_ceiling : Z }.

Definition page_heights_default : PageHeights := mkPageHeights u64_max 0.
Definition observe (height : Z) (self : PageHeights) : PageHeights :=
  mkPageHeights (Z.min (ph_floor self) height) (Z.max (ph_ceiling self) height).
Definition heights_merge (other self : PageHeights) : PageHeights :=
  mkPageHeights (Z.min (ph_floor self) (ph_floor other)) (Z.max (ph_ceiling self) (ph_ceiling other)).
Definition raise_ceiling (height : Z) (self : PageHeights) : PageHeights :=
  mkPageHeights (ph_floor self) (Z.max (ph_ceiling self) height).

Record ContainerSeed := mkContainerSeed {
  cse_heights : PageHeights;
  cse_entries : list (Address * Z * TrackedKind);
  cse_interior : list (Address * Slot);
  cse_tob_tables : list (Address * TobKey);
}.

Definition container_seed_default : ContainerSeed := mkContainerSeed page_heights_default [] [] [].
Definition container_merge (other self : ContainerSeed) : ContainerSeed :=
  mkContainerSeed (heights_merge (cse_heights other) (cse_heights self)) (cse_entries self ++ cse_entries other)
    (cse_interior self ++ cse_interior other) (cse_tob_tables self ++ cse_tob_tables other).

Record MirrorSeed := mkMirrorSeed { ms_routing : RoutingTable; ms_index : ObjectIndex; ms_heights : PageHeights }.

Definition mirror_seed_new (hashi_id bitcoin_state_field_id : Address) : MirrorSeed :=
  mkMirrorSeed (routing_new hashi_id bitcoin_state_field_id) ∅ page_heights_default.
Definition observe_height (height : Z) (self : MirrorSeed) : MirrorSeed :=
  mkMirrorSeed (ms_routing self) (ms_index self) (observe height (ms_heights self)).

Definition absorb_entry (self : MirrorSeed) (e : Address * Z * TrackedKind) : MirrorSeed :=
  let '(id, version, kind) := e in
  let routing := match kind with KDofWrapper container => register_wrapper id container (ms_routing self) | _ => ms_routing self end in
  mkMirrorSeed routing (index_record id version kind (ms_index self)) (ms_heights self).

Definition absorb (seed : ContainerSeed) (self : MirrorSeed) : MirrorSeed :=
  let self := mkMirrorSeed (ms_routing self) (ms_index self) (heights_merge (cse_heights seed) (ms_heights self)) in
  let self := foldl absorb_entry self (cse_entries seed) in
  let routing := foldl (fun r '(id, slot) => register_interior id slot r) (ms_routing self) (cse_interior seed) in
  let routing := foldl (fun r '(table, key) => register_tob_table table key r) routing (cse_tob_tables seed) in
  mkMirrorSeed routing (ms_index self) (ms_heights self).

Lemma absorb_heights seed self : ms_heights (absorb seed self) = heights_merge (cse_heights seed) (ms_heights self).
Proof.
  unfold absorb. cbn. set (s0 := mkMirrorSeed _ _ _). change (heights_merge _ _) with (ms_heights s0). generalize s0.
  induction (cse_entries seed) as [|[[id version] kind] l IH]; intros s; [done|]. cbn. by rewrite IH.
Qed.

(** The floor is at or below every height that a page was served at, and the ceiling at or above. *)
Theorem scrape_heights heights seeds hashi_id field_id :
  let s := foldr (fun h s => observe_height h s) (foldl (fun s c => absorb c s) (mirror_seed_new hashi_id field_id) seeds) heights in
  Forall (fun h => ph_floor (ms_heights s) <= h <= ph_ceiling (ms_heights s)) heights
  /\ Forall (fun c => ph_floor (ms_heights s) <= ph_floor (cse_heights c) /\ ph_ceiling (cse_heights c) <= ph_ceiling (ms_heights s)) seeds.
Proof.
  cbv zeta. set (s0 := foldl _ _ seeds).
  assert (Forall (fun c => ph_floor (ms_heights s0) <= ph_floor (cse_heights c) /\ ph_ceiling (cse_heights c) <= ph_ceiling (ms_heights s0)) seeds) as H0.
  { unfold s0. generalize (mirror_seed_new hashi_id field_id).
    induction seeds as [|c seeds IH] using rev_ind; intros s; [constructor|]. rewrite foldl_app. cbn [foldl]. rewrite absorb_heights. cbn [heights_merge ph_floor ph_ceiling].
    apply Forall_app. split; [|constructor; [lia|constructor]]. eapply Forall_impl; [apply (IH s)|]. intros c' Hc'. cbv beta in Hc' |- *. lia. }
  clearbody s0. induction heights as [|h heights [IH1 IH2]]; [by split|]. cbn. split.
  - constructor; [lia|]. eapply Forall_impl; [exact IH1|]. cbn. intros; lia.
  - eapply Forall_impl; [exact IH2|]. cbn. intros; lia.
Qed.

(** ** The gate of the scrape *)

Definition SCRAPE_CEILING_MARGIN : Z := 25.

Definition ceiling_closed : Z := u64_max.

Definition reached (ceiling : Z) (watermark : option Z) : bool :=
  match watermark with Some w => sat_add ceiling SCRAPE_CEILING_MARGIN <=? w | None => true end.

(** A closed gate opens for no watermark below the largest. *)
Lemma closed_gate watermark : watermark < u64_max -> reached ceiling_closed (Some watermark) = false.
Proof. unfold reached, ceiling_closed, SCRAPE_CEILING_MARGIN, sat_add. intros. apply Z.leb_gt. lia. Qed.

(** ** Versions *)

Inductive VersionSupport :=
| Active (version : Z)
| Unsupported (supported_max live_max : Z)
| NotReady.

Definition active_version (self : VersionSupport) : option Z := match self with Active v => Some v | _ => None end.
Definition must_halt (self : VersionSupport) : bool := match self with Unsupported _ _ => true | _ => false end.

(** The enabled versions come in ascending order, as the set iterates. *)
Definition in_order (s : gset Z) : list Z := merge_sort Z.le (elements s).

Definition max_of (l : list Z) : Z := foldr Z.max 0 l.

Definition resolve_version_support (enabled : gset Z) (published : PackageVersions) (supported : list Z) : VersionSupport :=
  let live := List.filter (fun v => bool_decide (is_Some (pv_versions published !! v))) (in_order enabled) in
  match last live with
  | None => NotReady
  | Some live_max =>
      match List.find (fun v => bool_decide (v ∈ supported)) (reverse live) with
      | Some active => Active active
      | None => Unsupported (max_of supported) live_max
      end
  end.

(** [OnchainState::active_package] *)
Definition active_package (enabled : gset Z) (published : PackageVersions) (supported : list Z) : option (Address * Z) :=
  version ← active_version (resolve_version_support enabled published supported);
  id ← pv_versions published !! version;
  Some (id, version).

Inductive HaltReason := Paused | BinaryUnsupported (supported_max live_max : Z).

Definition autonomous_halt_reason (paused : bool) (support : VersionSupport) : option HaltReason :=
  if paused then Some Paused
  else match support with Unsupported supported_max live_max => Some (BinaryUnsupported supported_max live_max) | _ => None end.

(** Enabled by governance, and published. *)
Definition is_live (enabled : gset Z) (published : PackageVersions) (v : Z) : Prop :=
  v ∈ enabled /\ is_Some (pv_versions published !! v).

Definition live_versions (enabled : gset Z) (published : PackageVersions) : list Z :=
  List.filter (fun v => bool_decide (is_Some (pv_versions published !! v))) (in_order enabled).

Lemma live_versions_spec enabled published v : v ∈ live_versions enabled published <-> is_live enabled published v.
Proof.
  unfold live_versions, is_live, in_order. rewrite list_elem_of_In, List.filter_In, <- list_elem_of_In, bool_decide_eq_true.
  by rewrite merge_sort_Permutation, elem_of_elements.
Qed.

Lemma filter_sorted (f : Z -> bool) l : StronglySorted Z.le l -> StronglySorted Z.le (List.filter f l).
Proof.
  induction 1 as [|x l Hs IH Hx]; cbn; [constructor|]. destruct (f x); [|done]. constructor; [done|].
    rewrite Forall_forall in Hx |- *. intros y Hy. apply Hx. rewrite list_elem_of_In in Hy |- *. by apply List.filter_In in Hy as [? _].
Qed.

Lemma live_versions_sorted enabled published : StronglySorted Z.le (live_versions enabled published).
Proof.
  apply filter_sorted. apply (StronglySorted_merge_sort Z.le).
Qed.

(** The first hit from the back of an ascending list is the largest. *)
Lemma find_reverse_max (f : Z -> bool) l v :
  StronglySorted Z.le l -> List.find f (reverse l) = Some v -> v ∈ l /\ f v = true /\ forall w, w ∈ l -> f w = true -> w <= v.
Proof.
  induction l as [|x l IH] using rev_ind; intros Hs; [done|]. rewrite reverse_snoc. cbn.
  apply StronglySorted_app in Hs as (Hx & Hl & _). destruct (f x) eqn:E.
  - intros [= ->]. split; [apply elem_of_app; right; left|]. split; [done|]. intros w [Hw|Hw]%elem_of_app _; [apply Hx; [done|left]|].
    apply list_elem_of_singleton in Hw. lia.
  - intros Hf. destruct (IH Hl Hf) as (H1 & H2 & H3). split; [apply elem_of_app; by left|]. split; [done|].
    intros w [Hw|Hw]%elem_of_app Hfw; [by apply H3|]. apply list_elem_of_singleton in Hw as ->. congruence.
Qed.

(** The node acts at the highest version that is enabled, published and supported, waits while none is
    enabled and published, and stops otherwise. *)
Theorem version_support_exact enabled published supported :
  match resolve_version_support enabled published supported with
  | Active v => is_live enabled published v /\ v ∈ supported
      /\ (forall w, is_live enabled published w -> w ∈ supported -> w <= v)
  | Unsupported _ live_max => is_live enabled published live_max /\ forall w, is_live enabled published w -> w ∉ supported
  | NotReady => forall w, ~ is_live enabled published w
  end.
Proof.
  unfold resolve_version_support. fold (live_versions enabled published).
  pose proof (live_versions_spec enabled published) as Hl. pose proof (live_versions_sorted enabled published) as Hs.
  destruct (last (live_versions enabled published)) as [live_max|] eqn:El.
  - destruct (List.find _ _) as [v|] eqn:Ef.
    + destruct (find_reverse_max _ _ _ Hs Ef) as (H1 & H2 & H3). apply bool_decide_eq_true in H2.
      split; [by apply Hl|]. split; [done|]. intros w Hw Hws. apply H3; [by apply Hl|by apply bool_decide_eq_true].
    + split; [apply Hl; by apply last_Some_elem_of|]. intros w Hw Hws. apply Hl in Hw.
      assert (bool_decide (w ∈ supported) = false) as Hno.
      { refine (List.find_none _ _ Ef w _). apply list_elem_of_In. by apply elem_of_reverse. }
      by apply bool_decide_eq_false in Hno.
  - apply last_None in El. intros w Hw. apply Hl in Hw. rewrite El in Hw. by apply not_elem_of_nil in Hw.
Qed.

(** The package to call is always a published one. *)
Theorem active_package_live enabled published supported id version :
  active_package enabled published supported = Some (id, version) ->
  is_live enabled published version /\ pv_versions published !! version = Some id /\ version ∈ supported.
Proof.
  unfold active_package. pose proof (version_support_exact enabled published supported) as Hv.
  destruct (resolve_version_support enabled published supported) as [v| |]; cbn; try done.
  destruct (pv_versions published !! v) as [id'|] eqn:E; cbn; [|done]. intros [= <- <-]. by destruct Hv as (H1 & H2 & _).
Qed.

