(* ===== verification/MirrorExamples.v ===== *)
(** * The mirror at work on a small chain

    Three transactions: the roots, a member and a deposit appear; the deposit is processed; the member
    leaves.  The decoders are those of a chain with these objects only. *)

From stdpp Require Import strings gmap sorting.
From S2P Require Import MonitorDomain CoinSelection Withdrawals DepositTracker Deposits Mirror MirrorApply MirrorWire MirrorFeed MirrorFeedProofs MirrorTracking Prelude.

Inductive SmallContents := SmallRoot | SmallState | SmallWrapper | SmallMember (validator : Address) | SmallDeposit (d : DepositRequest).

#[local] Instance small_types : MirrorTypes := {|
  Contents := SmallContents;
  Config := unit;
  MemberInfo := Address;
  MoveCommittee := unit;
  MirrorCommittee := unit;
  Handoff := unit;
  SignedHandoff := unit;
  TreasuryCap := unit;
  MetadataCap := unit;
  Proposal := unit;
  TobNode := unit;
  TobSeal := unit;
  upgrade_cap := fun _ => None;
  validator_address := fun v => v;
  member_tls_key := fun v => Some (v + 1000);
  convert_move_committee := fun c => c;
  handoff_next_epoch := fun _ => 0;
  convert_move_committee_handoff := fun _ _ => None;
  treasury_coin_type := fun _ => "treasury"%string;
  metadata_coin_type := fun _ => "metadata"%string;
  proposal_id := fun _ => 0;
|}.

Definition small_root : Root := mkRoot _ 11 12 13 14 15 16 17 tt tt 0 0 None [].
Definition small_state : BitcoinState := mkBitcoinState 21 22 23 24 25 26 27 28 29.

#[local] Instance small_decode : MirrorDecode := {|
  decode_root c := match c with SmallRoot => Some small_root | _ => None end;
  decode_bitcoin_state c := match c with SmallState => Some small_state | _ => None end;
  decode_member c := match c with SmallMember v => Some v | _ => None end;
  decode_committee _ := None;
  decode_handoff _ := None;
  decode_utxo_record _ := None;
  decode_deposit c := match c with SmallDeposit d => Some d | _ => None end;
  decode_withdrawal _ := None;
  decode_txn _ := None;
  decode_treasury_cap _ _ := None;
  decode_metadata_cap _ _ := None;
  decode_proposal _ _ := None;
  decode_tob_bucket _ := None;
  decode_tob_node _ := None;
  decode_user_bag _ := None;
|}.

(** ** Objects *)

Definition small_deposit : DepositRequest := mkDepositRequest 5 77 1000 [] (mkMoveUtxo (9, 0) 50000 None) None None None.

Definition plain_tag : StructTag := mkStructTag 1 "object" "Object" [].
Definition wrapper_tag : StructTag :=
  mkStructTag 2 "dynamic_field" "Field" [TStruct (mkStructTag 2 "dynamic_object_field" "Wrapper" []); TOther].

Definition root_obj : Object := mkObject _ 1 1 OShared (Some (plain_tag, SmallRoot)).
Definition state_obj : Object := mkObject _ 2 1 (OObject 1) (Some (plain_tag, SmallState)).
Definition requests_wrapper : Object := mkObject _ 3 1 (OObject 21) (Some (wrapper_tag, SmallWrapper)).
Definition processed_wrapper : Object := mkObject _ 4 2 (OObject 22) (Some (wrapper_tag, SmallWrapper)).
Definition deposit_obj : Object := mkObject _ 5 1 (OObject 3) (Some (plain_tag, SmallDeposit small_deposit)).
Definition moved_deposit_obj : Object := mkObject _ 5 2 (OObject 4) (Some (plain_tag, SmallDeposit small_deposit)).
Definition member_obj : Object := mkObject _ 6 1 (OObject 11) (Some (plain_tag, SmallMember 42)).

Definition appear : TxView :=
  mkTxView 10 0 5000 [Written root_obj; Written state_obj; Written deposit_obj; Written member_obj; Written requests_wrapper] [].
Definition process : TxView := mkTxView 11 3 6000 [Written moved_deposit_obj; Written processed_wrapper; Deleted 3] [].
Definition leave : TxView := mkTxView 12 1 7000 [Deleted 6] [].

Definition no_committees : CommitteeSet := mkCommitteeSet ∅ ∅ 0 None [] ∅ ∅ ∅.
Definition no_hashi : Hashi := mkHashi tt tt 0 no_committees ∅ ∅ ∅ ∅ ∅ ∅ ∅ ∅ ∅.
Definition at_first : Applying := mkApplying no_hashi (mkPackageVersions ∅ ∅) (routing_new 1 2) ∅ [] [].

Definition shown (s : Applying) : option MemberInfo * option DepositRequest :=
  (cs_members (ha_committees (ap_hashi s)) !! 42, ha_deposits (ap_hashi s) !! 5).

Example appear_shown : shown (apply_transactions [appear] at_first).2 = (Some 42, Some small_deposit).
Proof. vm_compute. reflexivity. Qed.
Example process_shown : shown (apply_transactions [appear; process] at_first).2 = (Some 42, None).
Proof. vm_compute. reflexivity. Qed.
Example leave_shown :
  shown (apply_transactions [appear; process; leave] at_first).2 = (None, None)
  /\ ap_effects (apply_transactions [appear; process; leave] at_first).2
     = [DepositRequestUpserted 5 (9, 0); ValidatorInfoUpdated 42; DepositRequestRemoved 5].
Proof. split; vm_compute; reflexivity. Qed.

(** ** The chain *)

Definition small_chain : Chain := {|
  ch_hashi_id := 1;
  ch_bitcoin_state_field_id := 2;
  ch_role c := rt_containers (set_bitcoin_state_containers small_state (set_root_containers small_root (routing_new 1 2))) !! c;
  ch_is_wrapper id := (id =? 3) || (id =? 4);
  ch_wrapped id := if id =? 3 then 21 else if id =? 4 then 22 else 0;
  ch_placed id slot :=
    match slot with
    | SlotDepositRequests => id = 3 \/ id = 5
    | SlotDepositProcessed => id = 4 \/ id = 5
    | SlotMembers => id = 6
    | _ => False
    end;
  ch_home k := match k with KDepositRequest _ => 5 | KMember _ => 6 | _ => 0 end;
|}.

Lemma small_containers :
  containers_ok small_chain (set_root_containers small_root (routing_new 0 0))
  /\ containers_ok small_chain (set_bitcoin_state_containers small_state (routing_new 0 0)).
Proof.
  split; intros c slot Hl; revert Hl; unfold set_root_containers, set_bitcoin_state_containers, with_containers;
    cbn [rt_containers routing_new]; intros Hl; rewrite ?lookup_insert_Some, lookup_empty in Hl;
    repeat (destruct Hl as [[<- <-]|[_ Hl]]; [vm_compute; reflexivity|]); done.
Qed.

Ltac lawfully :=
  split; cbn;
  [intros parent slot; try done; intros [= <-]; vm_compute; intros [[= <-]|[= <-]]; auto
  |reflexivity
  |intros container; try done; by intros _ [= <-]
  |intros tag contents root Hid [= <- <-]; try done; intros [= <-]; apply small_containers
  |intros tag contents state Hid [= <- <-]; try done; intros [= <-]; apply small_containers
  |intros; done|intros; done
  |intros tag contents slot s k s' [= <- <-];
   destruct slot; try done; intros Hp; try lia;
   unfold write_slot, decoded, mbind, M_bind, effect, on_hashi, modify, mret, M_ret; cbn;
   try done; intros [= <- _]; done].


Lemma root_lawful : lawful small_chain root_obj.
Proof. lawfully. Qed.
Lemma state_lawful : lawful small_chain state_obj.
Proof. lawfully. Qed.
Lemma deposit_lawful : lawful small_chain deposit_obj.
Proof. lawfully. Qed.
Lemma moved_deposit_lawful : lawful small_chain moved_deposit_obj.
Proof. lawfully. Qed.
Lemma member_lawful : lawful small_chain member_obj.
Proof. lawfully. Qed.
Lemma requests_wrapper_lawful : lawful small_chain requests_wrapper.
Proof. lawfully. Qed.
Lemma processed_wrapper_lawful : lawful small_chain processed_wrapper.
Proof. lawfully. Qed.

#[local] Hint Resolve root_lawful state_lawful deposit_lawful moved_deposit_lawful member_lawful requests_wrapper_lawful
  processed_wrapper_lawful : core.

Lemma small_lawful : Forall (tx_lawful small_chain) [appear; process].
Proof. repeat (apply Forall_cons; split); try apply Forall_nil; unfold tx_lawful; cbn; repeat (apply Forall_cons; split); auto. Qed.

Lemma at_first_inv : inv small_chain at_first.
Proof.
  split.
  - split; [intros c slot; cbn; by rewrite lookup_empty|intros w c; cbn; by rewrite lookup_empty|done].
  - assert (forall id (e : TrackedObject), ap_index at_first !! id <> Some e) as Hno by (intros id e; vm_compute; discriminate).
    split; try (intros id v k Hi; by apply Hno in Hi); [|intros id v k slot Hi; by apply Hno in Hi].
    intros []; cbn; rewrite ?lookup_empty; try (by intros []); try done.
    + destruct executed; rewrite lookup_empty; by intros [].
    + intros (b & Hb & _). done.
Qed.


(** ** The transactions on the wire *)

Definition objects : list Object :=
  [root_obj; state_obj; deposit_obj; member_obj; requests_wrapper; moved_deposit_obj; processed_wrapper].

#[local] Instance small_wire : MirrorWire := {|
  ProtoTimestamp := Z;
  decode_object bytes := match bytes with [n] => objects !! Z.to_nat n | _ => None end;
  parse_address text := Some (Z.of_nat (String.length text));
  proto_to_timestamp_ms t := Some t;
  state_name _ := "unknown"%string;
|}.

Definition wrote (id : string) (version : Z) : ChangedObject := mkChangedObject (Some id) (Some ObjectWrite) (Some version).
Definition gone (id : string) : ChangedObject := mkChangedObject (Some id) (Some DoesNotExist) None.

Definition appear_tx : ExecutedTransaction :=
  mkExecutedTransaction
    (Some (mkTransactionEffects (Some true) [wrote "1" 1; wrote "22" 1; wrote "55555" 1; wrote "666666" 1; wrote "333" 1;
                                             mkChangedObject (Some "7777777"%string) (Some PackageWrite) (Some 1)]))
    (Some [Some (Some [0]); Some (Some [1]); Some (Some [2]); None; Some (Some [3]); Some (Some [4])]) (Some 10) (Some 0) (Some 5000).
Definition process_tx : ExecutedTransaction :=
  mkExecutedTransaction (Some (mkTransactionEffects (Some true) [wrote "55555" 2; wrote "4444" 2; gone "333"]))
    (Some [Some (Some [2]); Some (Some [5]); Some (Some [6])]) (Some 11) (Some 3) (Some 6000).
Definition leave_tx : ExecutedTransaction :=
  mkExecutedTransaction (Some (mkTransactionEffects (Some true) [gone "666666"])) None (Some 12) (Some 1) (Some 7000).
Definition failed_tx : ExecutedTransaction :=
  mkExecutedTransaction (Some (mkTransactionEffects (Some false) [])) None (Some 12) (Some 2) (Some 7000).

Example small_from_proto :
  from_proto <$> [appear_tx; process_tx; leave_tx; failed_tx] = [Ok (Some appear); Ok (Some process); Ok (Some leave); Ok None].
Proof. vm_compute. reflexivity. Qed.

Lemma from_proto_drops_nothing_witness :
  outline <$> tv_changes process = [(Some 5, Some 2); (Some 4, Some 2); (Some 3, None)].
Proof.
  exact (proj1 (proj2 (from_proto_drops_nothing process_tx
    (mkTransactionEffects (Some true) [wrote "55555" 2; wrote "4444" 2; gone "333"]) eq_refl) process eq_refl)).
Defined.

(** ** Two connections *)

Definition history : list TxView := [appear; process; leave].

(** A cursor names a checkpoint that is done. *)
Definition small_cursor (c : list Z) : Z * Z := match c with [checkpoint] => (checkpoint, u64_max) | _ => (0, 0) end.

Definition seed : Mirror :=
  mkMirror (mkBase no_hashi (mkPackageVersions ∅ ∅) (routing_new 1 2) ∅ 0 ∅ [] (tracker_new false) None false) (book_from_seed 9).

Definition frame (tx : ExecutedTransaction) : Frame := mkFrame (Some tx) None.
Definition claim (checkpoint : Z) : Frame := mkFrame None (Some (mkWatermark (Some [checkpoint]) (Some checkpoint))).

(** The stream begins behind checkpoint 10, and breaks after its first transaction. *)
Definition connection1 : Connection :=
  mkConnection None (Some (claim 10))
    [fun _ => Some [Some (frame appear_tx, None); Some (claim 10, Some (Some LedgerTip))]] [Some (frame process_tx); None].
(** The next one replays all of it, as the server lists whole pages, and then follows the stream. *)
Definition connection2 : Connection :=
  mkConnection None (Some (claim 11))
    [fun _ => Some [Some (frame appear_tx, None); Some (frame process_tx, None); Some (claim 11, Some (Some OtherReason))]]
    [Some (frame failed_tx); Some (frame leave_tx); Some (claim 12)].

Definition positions (m : Mirror) : Z * Z * option Z := (bo_applied_position (mi_book m), bo_state_watermark (mi_book m)).

Example connections_reach :
  positions <$> run [connection1] (Some seed) = Some (11, 3, Some 10)
  /\ positions <$> run [connection1; connection2] (Some seed) = Some (12, 1, Some 12).
Proof. split; vm_compute; reflexivity. Qed.

Lemma history_cases h : h ∈ history -> h = appear \/ h = process \/ h = leave.
Proof. unfold history. rewrite !elem_of_cons, elem_of_nil. tauto. Qed.

Lemma frame_ok_tx known tx v :
  from_proto tx = Ok (Some v) -> v ∈ history -> (forall h, h ∈ history -> pos_lt (position h) (position v) -> known h) ->
  frame_ok history small_cursor known (frame tx).
Proof. intros E Hv Hk. split; [|done|done]. unfold frame_tx. cbn. rewrite E. by intros v' [= <-]. Qed.

Lemma frame_ok_failed known : frame_ok history small_cursor known (frame failed_tx).
Proof. by split. Qed.

Lemma frame_ok_claim known c :
  (forall h, h ∈ history -> tv_checkpoint h <= c -> known h) -> frame_ok history small_cursor known (claim c).
Proof.
  intros Hk. split; [done|by intros w c' [= <-] [= <-] h Hh Hc; left; apply Hk|]. intros w c' [= <-] [= <-] h Hh Hc. left.
  apply Hk; [done|]. unfold pos_le in Hc. cbn in Hc. lia.
Qed.

(** It was delivered, or it was known before. *)
Ltac known := first [solve [vm_compute; reflexivity] | solve [cbn; lia] | right; known | left; known].
Ltac each_tx := intros h [->|[->| ->]]%history_cases; cbn; intros Hpos; try discriminate Hpos; try lia; known.
Ltac in_history := unfold history; set_solver.

Lemma connection1_ok : connection_ok history small_cursor connection1.
Proof.
  split.
  - apply Forall_singleton. intros request items [= <-]. split; [|split; [|done]].
    + eapply frame_ok_tx; [vm_compute; reflexivity|in_history|each_tx].
    + apply frame_ok_claim. each_tx.
  - intros first [= <-] target [= <-]. split; [|split; [|done]].
    + apply frame_ok_claim. each_tx.
    + eapply frame_ok_tx; [vm_compute; reflexivity|in_history|each_tx].
Qed.

Lemma connection2_ok : connection_ok history small_cursor connection2.
Proof.
  split.
  - apply Forall_singleton. intros request items [= <-]. split; [|split; [|split; [|done]]].
    + eapply frame_ok_tx; [vm_compute; reflexivity|in_history|each_tx].
    + eapply frame_ok_tx; [vm_compute; reflexivity|in_history|each_tx].
    + apply frame_ok_claim. each_tx.
  - intros first [= <-] target [= <-]. split; [|split; [|split; [|split; [|done]]]].
    + apply frame_ok_claim. each_tx.
    + apply frame_ok_failed.
    + eapply frame_ok_tx; [vm_compute; reflexivity|in_history|each_tx].
    + apply frame_ok_claim. each_tx.
Qed.

Lemma small_seed_ok : seed_ok history small_cursor seed.
Proof.
  split.
  - split; try done.
    + intros h [->|[->| ->]]%history_cases; cbn; lia.
    + intros c h [= <-] [->|[->| ->]]%history_cases; cbn; lia.
  - intros q. unfold MirrorFeedProofs.between. cbn [List.filter history].
    destruct (pos_le (position appear) q), (pos_le (position process) q), (pos_le (position leave) q); vm_compute; discriminate.
Qed.

