(* ===== verification/GarbageCollection.v ===== *)
(** * Garbage collection of the leader

    [crates/hashi/src/leader/garbage_collection.rs], the arms of [leader/mod.rs] that take up its
    results, and the planning of its transactions in [sui_tx_executor.rs]: expired deposits and
    proposals, spent UTXOs, confirmed withdrawals and the certificate buckets of past epochs are removed from
    the chain, a bounded number at a time.  The transactions themselves are not part of this. *)

From stdpp Require Import strings gmap sorting.
From S2P Require Import MonitorDomain CoinSelection Withdrawals Deposits Retry Mirror MirrorReads Prelude.

(** ** Limits *)

Definition GC_RUNTIME_OBJECT_BUDGET : Z := WITHDRAWAL_RUNTIME_OBJECT_BUDGET.
Definition MAX_DEPOSIT_REQUEST_AGE_MS : Z := 1000 * 60 * 60 * 24.
Definition DEPOSIT_REQUEST_DELETE_DELAY_MS : Z := 1000 * 60.
Definition DEPOSIT_DELETE_FIXED_RUNTIME_OBJECTS : Z := 1.
Definition DEPOSIT_DELETE_RUNTIME_OBJECTS_PER_REQUEST : Z := 3.
Definition MAX_DEPOSIT_REQUEST_DELETIONS_PER_GC : Z :=
  (GC_RUNTIME_OBJECT_BUDGET - DEPOSIT_DELETE_FIXED_RUNTIME_OBJECTS) / DEPOSIT_DELETE_RUNTIME_OBJECTS_PER_REQUEST.
Definition MAX_PROPOSAL_AGE_MS : Z := 1000 * 60 * 60 * 24 * 7.
Definition PROPOSAL_DELETE_DELAY_MS : Z := 1000 * 60 * 60 * 24.
Definition PROPOSAL_DELETE_FIXED_RUNTIME_OBJECTS : Z := 1.
Definition PROPOSAL_DELETE_RUNTIME_OBJECTS_PER_PROPOSAL : Z := 3.
Definition MAX_PROPOSAL_DELETIONS_PER_GC : Z :=
  (GC_RUNTIME_OBJECT_BUDGET - PROPOSAL_DELETE_FIXED_RUNTIME_OBJECTS) / PROPOSAL_DELETE_RUNTIME_OBJECTS_PER_PROPOSAL.
Definition UTXO_CLEANUP_FIXED_RUNTIME_OBJECTS : Z := 1.
Definition UTXO_CLEANUP_RUNTIME_OBJECTS_PER_UTXO : Z := 2.
Definition MAX_UTXO_CLEANUPS_PER_GC : Z :=
  (GC_RUNTIME_OBJECT_BUDGET - UTXO_CLEANUP_FIXED_RUNTIME_OBJECTS) / UTXO_CLEANUP_RUNTIME_OBJECTS_PER_UTXO.
Definition MAX_TOB_PRUNES_PER_GC : Z := 200.
Definition MAX_TOB_PRUNE_PAGES_PER_SWEEP : Z := 10.
Definition MAX_TOB_PRUNE_SWEEP_FAILURES : Z := 3.
Definition KEY_GEN_CERT_RETENTION_EPOCHS : Z := 8.
Definition NONCE_CERT_MIN_AGE_EPOCHS : Z := 2.
Definition TOB_PRUNE_MIN_PACKAGE_VERSION : Z := 1.
Definition MAX_WITHDRAWAL_ARCHIVES_PER_GC : Z := 500.
Definition WITHDRAWAL_ARCHIVE_MIN_PACKAGE_VERSION : Z := 1.

(** [UtxoCleanupErrorKind], [WithdrawalArchiveErrorKind] and [TobPruneErrorKind] have one case and the same policy. *)
Inductive GcErrorKind := GcFailed.

#[export] Instance GcErrorKind_eq_dec : EqDecision GcErrorKind.
Proof. solve_decision. Defined.
#[export] Instance gc_retry_policy : RetryPolicy GcErrorKind := {|
  retry_base_delay_ms _ := 5000;
  max_delay_ms _ := 5 * 60 * 1000;
  max_retries _ := u32_max;
  kind_eq_dec := GcErrorKind_eq_dec;
|}.

Section gc.

(** ** What is due *)

Definition deposit_request_expiration_timestamp_ms (request : DepositRequest) : Z :=
  let reference_timestamp_ms :=
    match dq_approval_cert request, dq_approved_timestamp_ms request with
    | Some _, Some approved_timestamp_ms => approved_timestamp_ms
    | _, _ => dq_created_timestamp_ms request
    end in
  sat_add reference_timestamp_ms MAX_DEPOSIT_REQUEST_AGE_MS.

Definition find_expired_deposit_requests (deposit_requests : list DepositRequest) (checkpoint_timestamp_ms : Z) : list DepositRequest :=
  let deposit_requests :=
    sort_by (fun a b => deposit_request_expiration_timestamp_ms a <=? deposit_request_expiration_timestamp_ms b) deposit_requests in
  match deposit_requests with
  | [] => []
  | oldest_request :: _ =>
      if checkpoint_timestamp_ms
         <? sat_add (deposit_request_expiration_timestamp_ms oldest_request) DEPOSIT_REQUEST_DELETE_DELAY_MS then []
      else
        take (Z.to_nat MAX_DEPOSIT_REQUEST_DELETIONS_PER_GC)
          (List.filter (fun request => deposit_request_expiration_timestamp_ms request <? checkpoint_timestamp_ms) deposit_requests)
  end.

(** A proposal's id and time *)
Record ProposalInfo := mkProposalInfo { pi_id : Address; pi_timestamp_ms : Z }.

Definition expired_proposals (proposals : list ProposalInfo) (checkpoint_timestamp_ms : Z) : list ProposalInfo :=
  let proposals := sort_by (fun a b => pi_timestamp_ms a <=? pi_timestamp_ms b) proposals in
  match proposals with
  | [] => []
  | oldest_proposal :: _ =>
      if checkpoint_timestamp_ms <? wadd (wadd (pi_timestamp_ms oldest_proposal) MAX_PROPOSAL_AGE_MS) PROPOSAL_DELETE_DELAY_MS then []
      else
        take (Z.to_nat MAX_PROPOSAL_DELETIONS_PER_GC)
          (List.filter (fun p => wadd (pi_timestamp_ms p) MAX_PROPOSAL_AGE_MS <? checkpoint_timestamp_ms) proposals)
  end.

Definition is_spent (record : UtxoRecord) : bool := bool_decide (is_Some (spent_epoch record)).

(** The records in the order of their ids. *)
Definition find_spent_utxos_pending_cleanup (utxo_records : gmap OutPoint UtxoRecord) : list OutPoint :=
  take (Z.to_nat MAX_UTXO_CLEANUPS_PER_GC)
    (fst <$> List.filter (fun r => is_spent r.2)
       (sort_by (fun a b => (a.1.1 <? b.1.1) || ((a.1.1 =? b.1.1) && (a.1.2 <=? b.1.2))) (map_to_list utxo_records))).

Definition has_spent_utxos_pending_cleanup (utxo_records : gmap OutPoint UtxoRecord) : bool :=
  existsb (fun r => is_spent r.2) (map_to_list utxo_records).

Definition is_confirmed (txn : WithdrawalTransaction) : bool := bool_decide (is_Some (wt_confirmed_timestamp_ms txn)).

Definition has_confirmed_withdrawals_pending_archive (withdrawal_txns : list WithdrawalTransaction) : bool :=
  existsb is_confirmed withdrawal_txns.

Record ArchiveVictim := mkArchiveVictim { av_txn_id : Address; av_request_ids : list Address }.

Definition victim_of (txn : WithdrawalTransaction) : ArchiveVictim := mkArchiveVictim (wt_id txn) (wt_request_ids txn).

(** The options compare with [None] first; only confirmed ones are left. *)
Definition confirmed_at (txn : WithdrawalTransaction) : Z := match wt_confirmed_timestamp_ms txn with Some t => t | None => -1 end.

Definition find_confirmed_withdrawals_pending_archive (withdrawal_txns : list WithdrawalTransaction) : list ArchiveVictim :=
  victim_of <$> take (Z.to_nat MAX_WITHDRAWAL_ARCHIVES_PER_GC)
    (sort_by (fun a b => confirmed_at a <=? confirmed_at b) (List.filter is_confirmed withdrawal_txns)).

(** ** Certificate buckets *)

Inductive TobPruneTarget := KeyGen (epoch : Z) | NonceBatch (epoch batch_index : Z).

#[local] Instance TobPruneTarget_eq_dec : EqDecision TobPruneTarget.
Proof. solve_decision. Defined.

(** [ProtocolType] in the order of its cases: key generation, key rotation, nonces *)
Definition is_key_gen (key : TobKey) : bool :=
  ((tk_protocol_type key =? 0) || (tk_protocol_type key =? 1)) && bool_decide (tk_batch_index key = None).

Definition strictly_between (committee_epochs : gset Z) (lower current_epoch : Z) : bool :=
  (lower <? current_epoch) && existsb (fun e => (lower <=? e) && (e <? current_epoch)) (elements committee_epochs).

(** The epochs whose key generation goes, and the batches of nonces by epoch. *)
Definition sort_key (committee_epochs : gset Z) (current_epoch : Z) (acc : gset Z * gmap Z (gset Z)) (key : TobKey)
    : gset Z * gmap Z (gset Z) :=
  let '(keygen_epochs, nonce_batches) := acc in
  if is_key_gen key then
    if (sat_add (tk_epoch key) KEY_GEN_CERT_RETENTION_EPOCHS <=? current_epoch)
       && strictly_between committee_epochs (sat_add (tk_epoch key) 1) current_epoch
    then ({[tk_epoch key]} ∪ keygen_epochs, nonce_batches) else acc
  else
    match tk_batch_index key with
    | Some batch_index =>
        if (tk_protocol_type key =? 2) && (sat_add (tk_epoch key) NONCE_CERT_MIN_AGE_EPOCHS <=? current_epoch)
        then (keygen_epochs, <[tk_epoch key := {[batch_index]} ∪ default ∅ (nonce_batches !! tk_epoch key)]> nonce_batches)
        else acc
    | None => acc
    end.

(** The targets of one epoch: the key generation first, then the batches from the last on. *)
Definition epoch_targets (keygen_epochs : gset Z) (nonce_batches : gmap Z (gset Z)) (epoch : Z) : list TobPruneTarget :=
  (if bool_decide (epoch ∈ keygen_epochs) then [KeyGen epoch] else [])
  ++ match nonce_batches !! epoch with
     | Some batches => NonceBatch epoch <$> reverse (in_order batches)
     | None => []
     end.

Definition find_tob_buckets_to_prune (keys : list TobKey) (committee_epochs : gset Z) (current_epoch : Z) : list TobPruneTarget :=
  let '(keygen_epochs, nonce_batches) := foldl (sort_key committee_epochs current_epoch) (∅, ∅) keys in
  let epochs := in_order (keygen_epochs ∪ dom nonce_batches) in
  take (Z.to_nat MAX_TOB_PRUNES_PER_GC) (epochs ≫= epoch_targets keygen_epochs nonce_batches).

(** A page of keys, and where to go on. *)
Record TobKeyPage := mkTobKeyPage { tp_keys : list TobKey; tp_next_page_token : option (list Z) }.

Definition add_target (targets : list TobPruneTarget) (target : TobPruneTarget) : list TobPruneTarget :=
  if Z.of_nat (length targets) =? MAX_TOB_PRUNES_PER_GC then targets
  else if bool_decide (target ∈ targets) then targets else targets ++ [target].

(** [pages] answers the listing from a token; only a first page that fails is an error. *)
Fixpoint collect_pages (pages : option (list Z) -> option TobKeyPage) (committee_epochs : gset Z) (current_epoch : Z)
    (pages_left : nat) (first : bool) (targets : list TobPruneTarget) (token : option (list Z))
    : outcome unit (list TobPruneTarget * option (list Z)) :=
  match pages_left with
  | O => Ok (targets, token)
  | S pages_left =>
      match pages token with
      | None => if first then Err tt else Ok (targets, token)
      | Some page =>
          let targets := foldl add_target targets (find_tob_buckets_to_prune (tp_keys page) committee_epochs current_epoch) in
          let token := tp_next_page_token page in
          if bool_decide (token = None) || (Z.of_nat (length targets) =? MAX_TOB_PRUNES_PER_GC) then Ok (targets, token)
          else collect_pages pages committee_epochs current_epoch pages_left false targets token
      end
  end.

Definition collect_tob_prune_targets (pages : option (list Z) -> option TobKeyPage) (resume_token : option (list Z))
    (committee_epochs : gset Z) (current_epoch : Z) : outcome unit (list TobPruneTarget * option (list Z)) :=
  collect_pages pages committee_epochs current_epoch (Z.to_nat MAX_TOB_PRUNE_PAGES_PER_SWEEP) true [] resume_token.

(** ** The schedule of the prune *)

Record TobPruneOutcome := mkTobPruneOutcome { po_next_page_token : option (list Z); po_found_destroyable : bool }.

Record TobPrunePass := mkTobPrunePass { pp_started_epoch : Z; pp_resume_token : option (list Z); pp_found_destroyable : bool }.

Record TobPruneSchedule := mkTobPruneSchedule {
  sc_pass : option TobPrunePass;
  sc_drained_epoch : option Z;
  sc_last_turn : option Z;
  sc_failures : Z;
}.

Definition schedule_default : TobPruneSchedule := mkTobPruneSchedule None None None 0.

Definition is_due (self : TobPruneSchedule) (current_epoch turn : Z) : bool :=
  bool_decide (sc_drained_epoch self <> Some current_epoch) && bool_decide (sc_last_turn self <> Some turn).

Definition begin_sweep (self : TobPruneSchedule) (current_epoch turn : Z) : option (list Z) * TobPruneSchedule :=
  let pass := match sc_pass self with Some pass => pass | None => mkTobPrunePass current_epoch None false end in
  (pp_resume_token pass, mkTobPruneSchedule (Some pass) (sc_drained_epoch self) (Some turn) (sc_failures self)).

Definition finish_sweep (self : TobPruneSchedule) (outcome : TobPruneOutcome) : TobPruneSchedule :=
  match sc_pass self with
  | None => mkTobPruneSchedule None (sc_drained_epoch self) (sc_last_turn self) 0
  | Some pass =>
      let found := pp_found_destroyable pass || po_found_destroyable outcome in
      match po_next_page_token outcome with
      | Some token =>
          mkTobPruneSchedule (Some (mkTobPrunePass (pp_started_epoch pass) (Some token) found)) (sc_drained_epoch self) (sc_last_turn self) 0
      | None =>
          mkTobPruneSchedule None (if found then sc_drained_epoch self else Some (pp_started_epoch pass)) (sc_last_turn self) 0
      end
  end.

Definition fail_sweep (self : TobPruneSchedule) : TobPruneSchedule :=
  let failures := sc_failures self + 1 in
  if MAX_TOB_PRUNE_SWEEP_FAILURES <=? failures then mkTobPruneSchedule None (sc_drained_epoch self) (sc_last_turn self) 0
  else mkTobPruneSchedule (sc_pass self) (sc_drained_epoch self) (sc_last_turn self) failures.

(** ** The tasks of the leader *)

(** What the leader keeps for a scan (of spent UTXOs, or of confirmed withdrawals): the checkpoint its
    task waits for, the backoff, whether a scan is due and which one the mirror must have reached. *)
Record ScanGc := mkScanGc {
  sg_task : option Z;
  sg_retry : option (RetryState GcErrorKind);
  sg_scan_needed : bool;
  sg_scan_target : Z;
}.

Definition scan_new : ScanGc := mkScanGc None None true 0.

(** [check_cleanup_spent_utxos], and [check_archive_confirmed_withdrawals] behind its check of the version;
    [pending] is the probe of the mirror *)
Definition check_scan (pending : bool) (checkpoint_timestamp_ms : Z) (self : ScanGc) : ScanGc :=
  if bool_decide (is_Some (sg_task self)) then self
  else if negb (sg_scan_needed self) && negb pending then self
  else if global_should_skip (sg_retry self) checkpoint_timestamp_ms then mkScanGc None (sg_retry self) true (sg_scan_target self)
  else mkScanGc (Some (sg_scan_target self)) (sg_retry self) false (sg_scan_target self).

Definition check_archive (active_version : option Z) (pending : bool) (checkpoint_timestamp_ms : Z) (self : ScanGc) : ScanGc :=
  if bool_decide (is_Some (sg_task self)) then self
  else
    match active_version with
    | None => self
    | Some active => if active <? WITHDRAWAL_ARCHIVE_MIN_PACKAGE_VERSION then self else check_scan pending checkpoint_timestamp_ms self
    end.

(** The task ends: with the number of removals, or not. *)
Definition scan_done (result : option Z) (checkpoint_timestamp_ms : Z) (self : ScanGc) : ScanGc :=
  match result with
  | Some count => mkScanGc None (global_clear (sg_retry self)) (if count =? 0 then sg_scan_needed self else true) (sg_scan_target self)
  | None => mkScanGc None (global_record_failure (sg_retry self) GcFailed checkpoint_timestamp_ms) true (sg_scan_target self)
  end.

(** A withdrawal is confirmed on Sui at a checkpoint. *)
Definition scan_confirmed (checkpoint : Z) (self : ScanGc) : ScanGc :=
  mkScanGc (sg_task self) (sg_retry self) true (Z.max (sg_scan_target self) checkpoint).

(** What the leader keeps for the prune *)
Record PruneGc := mkPruneGc {
  pg_task : option (option (list Z));
  pg_retry : option (RetryState GcErrorKind);
  pg_schedule : TobPruneSchedule;
}.

Definition check_prune_tob_certs (active_version : option Z) (current_epoch checkpoint_height checkpoint_timestamp_ms : Z)
    (self : PruneGc) : PruneGc :=
  if bool_decide (is_Some (pg_task self)) then self
  else
    match active_version with
    | None => self
    | Some active =>
        if active <? TOB_PRUNE_MIN_PACKAGE_VERSION then self
        else
          let turn := leader_turn checkpoint_height in
          if negb (is_due (pg_schedule self) current_epoch turn) then self
          else if global_should_skip (pg_retry self) checkpoint_timestamp_ms then self
          else
            let '(resume_token, schedule) := begin_sweep (pg_schedule self) current_epoch turn in
            mkPruneGc (Some resume_token) (pg_retry self) schedule
    end.

Definition prune_done (result : option TobPruneOutcome) (checkpoint_timestamp_ms : Z) (self : PruneGc) : PruneGc :=
  match result with
  | Some outcome => mkPruneGc None (global_clear (pg_retry self)) (finish_sweep (pg_schedule self) outcome)
  | None =>
      mkPruneGc None (global_record_failure (pg_retry self) GcFailed checkpoint_timestamp_ms) (fail_sweep (pg_schedule self))
  end.
End gc.
