(* ===== verification/GarbageProofs.v ===== *)
(** * What garbage collection removes

    Only what has expired, oldest first, and only buckets that no rotation reads any more; a sweep
    misses none of them in the pages it reads, up to its limit. *)

From stdpp Require Import strings gmap sorting.
From S2P Require Import MonitorDomain CoinSelection Withdrawals Deposits Retry Mirror MirrorReads GarbageCollection Prelude.

(** ** The oldest first *)

(** The first of a sorted list come before the others. *)
Lemma take_filter_oldest {A} (key : A -> Z) (f : A -> bool) n l x y :
  let sorted := List.filter f (sort_by (fun a b => key a <=? key b) l) in
  x ∈ take n sorted -> y ∈ drop n sorted -> key x <= key y.
Proof.
  cbv zeta. set (le := fun a b => key a <=? key b). intros Hx Hy.
  assert (StronglySorted (fun a b => key a <= key b) (List.filter f (sort_by le l))) as Hs.
  { clear Hx Hy. assert (StronglySorted (le_of le) (sort_by le l)) as H0.
    { apply sort_by_sorted; unfold le; intros; lia. }
    induction H0 as [|a l' H0 IH Ha]; cbn; [constructor|]. destruct (f a); [|done]. constructor; [done|].
    rewrite Forall_forall in Ha |- *. intros b Hb. apply list_elem_of_In, List.filter_In in Hb as [Hb _].
    specialize (Ha b (proj2 (list_elem_of_In _ _) Hb)). unfold le_of, le in Ha. by apply Z.leb_le in Ha. }
  rewrite <- (take_drop n (List.filter f (sort_by le l))) in Hs. apply StronglySorted_app in Hs as (H & _ & _). by apply H.
Qed.

Lemma elem_of_filter_b {A} (f : A -> bool) x l : x ∈ List.filter f l <-> x ∈ l /\ f x = true.
Proof. by rewrite list_elem_of_In, List.filter_In, <- list_elem_of_In. Qed.

(** Deposits that are removed have expired, there are no more than one transaction takes, those that are
    left over expired no earlier, and something is removed once any has been expired for a minute. *)
Theorem expired_deposits_oldest requests now :
  let picked := find_expired_deposit_requests requests now in
  let expires := deposit_request_expiration_timestamp_ms in
  (forall r, r ∈ picked -> r ∈ requests /\ expires r < now)
  /\ DEPOSIT_DELETE_FIXED_RUNTIME_OBJECTS + DEPOSIT_DELETE_RUNTIME_OBJECTS_PER_REQUEST * Z.of_nat (length picked)
     <= GC_RUNTIME_OBJECT_BUDGET
  /\ (forall r, picked <> [] -> r ∈ requests -> expires r < now -> r ∉ picked ->
        Z.of_nat (length picked) = MAX_DEPOSIT_REQUEST_DELETIONS_PER_GC /\ forall x, x ∈ picked -> expires x <= expires r)
  /\ (forall r, r ∈ requests -> now < u64_max -> expires r + DEPOSIT_REQUEST_DELETE_DELAY_MS <= now -> picked <> []).
Proof.
  intros picked expires. unfold picked, find_expired_deposit_requests. fold expires.
  set (sorted := sort_by (fun a b => expires a <=? expires b) requests).
  assert (forall r, r ∈ sorted <-> r ∈ requests) as Hin by (intros r; apply elem_of_sort_by).
  destruct sorted as [|oldest rest] eqn:Es.
  { split; [by intros r []%not_elem_of_nil|]. split; [vm_compute; discriminate|]. split; [done|].
    intros r Hr. apply Hin in Hr. by apply not_elem_of_nil in Hr. }
  assert (forall r, r ∈ requests -> expires oldest <= expires r) as Hold.
  { intros r Hr. apply Hin in Hr. assert (StronglySorted (le_of (fun a b => expires a <=? expires b)) sorted) as Hs
      by (apply sort_by_sorted; intros; lia). rewrite Es in Hs. apply StronglySorted_inv in Hs as [_ Hs]. rewrite Forall_forall in Hs.
    apply elem_of_cons in Hr as [->|Hr]; [done|]. specialize (Hs r Hr). unfold le_of in Hs. lia. }
  set (cap := Z.to_nat MAX_DEPOSIT_REQUEST_DELETIONS_PER_GC). assert (Z.of_nat cap = 307) as Hcap by (vm_compute; reflexivity).
  assert (GC_RUNTIME_OBJECT_BUDGET = 922) as Hbudget by reflexivity.
  assert (MAX_DEPOSIT_REQUEST_DELETIONS_PER_GC = 307) as Hmax by reflexivity.
  unfold DEPOSIT_DELETE_FIXED_RUNTIME_OBJECTS, DEPOSIT_DELETE_RUNTIME_OBJECTS_PER_REQUEST, DEPOSIT_REQUEST_DELETE_DELAY_MS, sat_add.
  destruct (Z.ltb_spec now (Z.min (expires oldest + 1000 * 60) u64_max)) as [Hnow|Hnow].
  { split; [by intros r []%not_elem_of_nil|]. split; [cbn; lia|]. split; [done|]. intros r Hr Hu Hd. specialize (Hold r Hr). lia. }
  rewrite <- Es. clear Hin Hold Hnow Es rest oldest. set (F := List.filter (fun r => expires r <? now) sorted).
  assert (forall r, r ∈ F <-> r ∈ requests /\ expires r < now) as HF.
  { intros r. unfold F. rewrite elem_of_filter_b, Z.ltb_lt. unfold sorted. by rewrite elem_of_sort_by. }
  split; [|split; [|split]].
  - intros r Hr. apply HF. rewrite <- (take_drop cap F). apply elem_of_app. by left.
  - rewrite length_take. lia.
  - intros r _ Hr Hnow Hno. assert (r ∈ drop cap F) as Hd.
    { assert (r ∈ F) as HrF by (by apply HF). rewrite <- (take_drop cap F) in HrF. by apply elem_of_app in HrF as [|]. }
    split; [|intros x Hx; by eapply take_filter_oldest].
    rewrite length_take. assert (length (drop cap F) <> 0%nat) as Hl by (by destruct (drop cap F); [apply not_elem_of_nil in Hd|]).
    rewrite length_drop in Hl. lia.
  - intros r Hr Hu Hd E. assert (r ∈ F) as HrF by (apply HF; split; [done|lia]).
    assert (length (take cap F) = 0%nat) as Hl by (by rewrite E). rewrite length_take in Hl.
    destruct F; [by apply not_elem_of_nil in HrF|]. cbn in Hl. lia.
Qed.

(** ** Certificate buckets *)

(** The next rotation is past this key generation, and it is old enough. *)
Definition dead_key_gen (committee_epochs : gset Z) (current_epoch : Z) (key : TobKey) : Prop :=
  is_key_gen key = true /\ sat_add (tk_epoch key) KEY_GEN_CERT_RETENTION_EPOCHS <= current_epoch
  /\ exists c, c ∈ committee_epochs /\ sat_add (tk_epoch key) 1 <= c < current_epoch.

Definition dead_nonces (current_epoch : Z) (key : TobKey) (batch_index : Z) : Prop :=
  tk_protocol_type key = 2 /\ tk_batch_index key = Some batch_index /\ sat_add (tk_epoch key) NONCE_CERT_MIN_AGE_EPOCHS <= current_epoch.

Lemma strictly_between_spec committee_epochs lower current_epoch :
  strictly_between committee_epochs lower current_epoch = true <-> exists c, c ∈ committee_epochs /\ lower <= c < current_epoch.
Proof.
  unfold strictly_between. rewrite andb_true_iff, Z.ltb_lt, existsb_exists. split.
  - intros (_ & c & Hc & Hr). exists c. rewrite <- list_elem_of_In, elem_of_elements in Hc. cbv beta in Hr. split; [done|lia].
  - intros (c & Hc & Hr). split; [lia|]. exists c. rewrite <- list_elem_of_In, elem_of_elements. cbv beta. split; [done|lia].
Qed.

(** What the keys come to. *)
Record sorted_keys (committee_epochs : gset Z) (current_epoch : Z) (keys : list TobKey) (acc : gset Z * gmap Z (gset Z)) : Prop := {
  sk_keygen e : e ∈ acc.1 <-> exists key, key ∈ keys /\ dead_key_gen committee_epochs current_epoch key /\ tk_epoch key = e;
  sk_nonces e b : b ∈ default ∅ (acc.2 !! e)
    <-> exists key, key ∈ keys /\ dead_nonces current_epoch key b /\ tk_epoch key = e;
}.

Lemma sort_key_sorted committee_epochs current_epoch keys key acc :
  sorted_keys committee_epochs current_epoch keys acc ->
  sorted_keys committee_epochs current_epoch (keys ++ [key]) (sort_key committee_epochs current_epoch acc key).
Proof.
  destruct acc as [K N]. intros [HK HN]. cbn in HK, HN. unfold sort_key.
  assert (forall (P : TobKey -> Prop), (exists k, k ∈ keys ++ [key] /\ P k) <-> (exists k, k ∈ keys /\ P k) \/ P key) as Hsnoc.
  { intros P. split.
    - intros (k & [Hk|Hk]%elem_of_app & HP); [left; by exists k|]. apply list_elem_of_singleton in Hk as ->. by right.
    - intros [(k & Hk & HP)|HP]; [exists k|exists key]; (split; [apply elem_of_app|done]); [by left|right; left]. }
  destruct (is_key_gen key) eqn:Eg.
  - assert (forall b, ~ dead_nonces current_epoch key b) as Hno.
    { intros b (Hp & Hb & _). unfold is_key_gen in Eg. rewrite Hp in Eg. done. }
    assert (dead_key_gen committee_epochs current_epoch key
            <-> (sat_add (tk_epoch key) KEY_GEN_CERT_RETENTION_EPOCHS <=? current_epoch)
                && strictly_between committee_epochs (sat_add (tk_epoch key) 1) current_epoch = true) as Hd.
    { rewrite andb_true_iff, Z.leb_le, strictly_between_spec. unfold dead_key_gen. rewrite Eg. naive_solver. }
    destruct (_ && _); split; cbn; intros e; try intros b; rewrite Hsnoc; rewrite <- ?HK, <- ?HN; naive_solver set_solver.
  - assert (~ dead_key_gen committee_epochs current_epoch key) as Hno by (intros (? & _); congruence).
    destruct (tk_batch_index key) as [b0|] eqn:Eb.
    + assert (forall b, dead_nonces current_epoch key b
        <-> b = b0 /\ (tk_protocol_type key =? 2) && (sat_add (tk_epoch key) NONCE_CERT_MIN_AGE_EPOCHS <=? current_epoch) = true) as Hd.
      { intros b. unfold dead_nonces. rewrite Eb, andb_true_iff, Z.eqb_eq, Z.leb_le. naive_solver. }
      destruct (_ && _); split; cbn; intros e; try intros b; rewrite Hsnoc; rewrite <- ?HK, <- ?HN; [naive_solver| |naive_solver..].
      destruct (decide (tk_epoch key = e)) as [<-|Hne]; [rewrite lookup_insert_eq|rewrite lookup_insert_ne by done]; cbn; rewrite Hd; set_solver.
    + assert (forall b, ~ dead_nonces current_epoch key b) as Hnb by (intros b (_ & Hb & _); congruence).
      split; cbn; intros e; try intros b; rewrite Hsnoc; rewrite <- ?HK, <- ?HN; naive_solver.
Qed.

Lemma sort_keys_sorted committee_epochs current_epoch keys :
  sorted_keys committee_epochs current_epoch keys (foldl (sort_key committee_epochs current_epoch) (∅, ∅) keys).
Proof.
  induction keys as [|key keys IH] using rev_ind; [|rewrite foldl_app; by apply sort_key_sorted].
  split; cbn; intros e; try intros b; [set_solver|]. rewrite lookup_empty. set_solver.
Qed.

(** A target stands for a bucket in the listing that is dead. *)
Definition dead_target (committee_epochs : gset Z) (current_epoch : Z) (keys : list TobKey) (t : TobPruneTarget) : Prop :=
  match t with
  | KeyGen e => exists key, key ∈ keys /\ dead_key_gen committee_epochs current_epoch key /\ tk_epoch key = e
  | NonceBatch e b => exists key, key ∈ keys /\ dead_nonces current_epoch key b /\ tk_epoch key = e
  end.

Definition target_epoch (t : TobPruneTarget) : Z := match t with KeyGen e | NonceBatch e _ => e end.

Lemma elem_of_in_order e s : e ∈ in_order s <-> e ∈ s.
Proof. unfold in_order. by rewrite merge_sort_Permutation, elem_of_elements. Qed.

Lemma in_order_NoDup s : NoDup (in_order s).
Proof. unfold in_order. rewrite merge_sort_Permutation. apply NoDup_elements. Qed.

Lemma epoch_targets_spec K N e t :
  t ∈ epoch_targets K N e
  <-> target_epoch t = e /\ match t with KeyGen e => e ∈ K | NonceBatch e b => b ∈ default ∅ (N !! e) end.
Proof.
  unfold epoch_targets. rewrite elem_of_app. case_bool_decide as Hk.
  - destruct (N !! e) as [B|] eqn:En; rewrite ?list_elem_of_singleton, ?elem_of_nil.
    + rewrite list_elem_of_fmap. setoid_rewrite elem_of_reverse. setoid_rewrite elem_of_in_order. destruct t; cbn; [naive_solver|].
      split; [intros [?|(b & [= -> ->] & Hb)]; [done|by rewrite En]|]. intros [-> Hb]. rewrite En in Hb. right. by eexists.
    + destruct t; cbn; [naive_solver|]. split; [naive_solver|]. intros [-> Hb]. rewrite En in Hb. set_solver.
  - destruct (N !! e) as [B|] eqn:En; rewrite ?list_elem_of_singleton, ?elem_of_nil.
    + rewrite list_elem_of_fmap. setoid_rewrite elem_of_reverse. setoid_rewrite elem_of_in_order. destruct t; cbn; [naive_solver|].
      split; [intros [?|(b & [= -> ->] & Hb)]; [done|by rewrite En]|]. intros [-> Hb]. rewrite En in Hb. right. by eexists.
    + destruct t; cbn; [naive_solver|]. split; [naive_solver|]. intros [-> Hb]. rewrite En in Hb. set_solver.
Qed.

Lemma epoch_targets_NoDup K N e : NoDup (epoch_targets K N e).
Proof.
  unfold epoch_targets. apply NoDup_app. split; [case_bool_decide; [apply NoDup_singleton|constructor]|]. split.
  - intros t Ht Ht2. case_bool_decide; [|by apply not_elem_of_nil in Ht]. apply list_elem_of_singleton in Ht as ->.
    destruct (N !! e); [|by apply not_elem_of_nil in Ht2]. apply list_elem_of_fmap in Ht2 as (? & [=] & _).
  - destruct (N !! e); [|constructor]. apply NoDup_fmap_2; [by intros ? ? [= ->]|]. rewrite reverse_Permutation. apply in_order_NoDup.
Qed.

Lemma bind_NoDup (f : Z -> list TobPruneTarget) l :
  NoDup l -> (forall e, NoDup (f e)) -> (forall e t, t ∈ f e -> target_epoch t = e) -> NoDup (l ≫= f).
Proof.
  intros Hl Hf He. induction Hl as [|e l Hn Hl IH]; cbn; [constructor|]. apply NoDup_app. split; [done|]. split; [|done].
  intros t Ht (e' & Ht' & Hin)%list_elem_of_bind. apply He in Ht, Ht'. congruence.
Qed.

Lemma targets_all committee_epochs current_epoch keys :
  exists all, find_tob_buckets_to_prune keys committee_epochs current_epoch = take (Z.to_nat MAX_TOB_PRUNES_PER_GC) all
    /\ NoDup all /\ forall t, t ∈ all <-> dead_target committee_epochs current_epoch keys t.
Proof.
  unfold find_tob_buckets_to_prune. pose proof (sort_keys_sorted committee_epochs current_epoch keys) as [HK HN].
  destruct (foldl _ _ keys) as [K N]. cbn in HK, HN. eexists. split; [done|]. split.
  - apply bind_NoDup; [apply in_order_NoDup|apply epoch_targets_NoDup|]. intros e t Ht. by apply epoch_targets_spec in Ht as [? _].
  - intros t. rewrite list_elem_of_bind. setoid_rewrite epoch_targets_spec. setoid_rewrite elem_of_in_order. unfold dead_target.
    destruct t as [e|e b]; cbn; rewrite <- ?HK, <- ?HN.
    + split; [by intros (? & [-> ?] & _)|]. intros He. exists e. set_solver.
    + split; [by intros (? & [-> ?] & _)|]. intros Hb. exists e. split; [done|]. apply elem_of_union. right. apply elem_of_dom.
      destruct (N !! e); [done|]. cbn in Hb. set_solver.
Qed.

Record capped (targets : list TobPruneTarget) : Prop := {
  cp_nodup : NoDup targets;
  cp_length : Z.of_nat (length targets) <= MAX_TOB_PRUNES_PER_GC;
}.

Lemma fold_add_target l : forall targets,
  capped targets ->
  let r := foldl add_target targets l in
  capped r /\ (forall t, t ∈ targets -> t ∈ r) /\ (forall t, t ∈ r -> t ∈ targets \/ t ∈ l)
  /\ (length targets <= length r)%nat /\ (Z.of_nat (length r) < MAX_TOB_PRUNES_PER_GC -> forall t, t ∈ l -> t ∈ r).
Proof.
  induction l as [|t0 l IH]; intros targets Hc; cbn [foldl]; [split; [done|]; split; [done|]; split; [by left|]; split; [done|]; by intros _ t ?%not_elem_of_nil|].
  assert (capped (add_target targets t0) /\ (forall t, t ∈ targets -> t ∈ add_target targets t0)
    /\ (forall t, t ∈ add_target targets t0 -> t ∈ targets \/ t = t0) /\ (length targets <= length (add_target targets t0))%nat
    /\ (Z.of_nat (length (add_target targets t0)) < MAX_TOB_PRUNES_PER_GC -> t0 ∈ add_target targets t0)) as (H1 & H2 & H3 & H4 & H5).
  { unfold add_target. destruct (Z.eqb_spec (Z.of_nat (length targets)) MAX_TOB_PRUNES_PER_GC) as [E|E]; [split; [done|split; [done|split; [by left|split; [done|lia]]]]|].
    case_bool_decide as Hin; [split; [done|split; [done|split; [by left|done]]]|]. destruct Hc as [Hn Hl].
    split; [split|].
    - apply NoDup_app. split; [done|]. split; [|apply NoDup_singleton]. by intros t Ht ->%list_elem_of_singleton.
    - rewrite length_app. cbn. lia.
    - rewrite length_app. split; [intros t Ht; apply elem_of_app; by left|]. split; [intros t [?| ->%list_elem_of_singleton]%elem_of_app; auto|].
      split; [lia|]. intros _. apply elem_of_app. right. left. }
  destruct (IH _ H1) as (I1 & I2 & I3 & I4 & I5). split; [done|]. split; [auto|]. split.
  - intros t [Ht|Ht]%I3; [|right; by right]. apply H3 in Ht as [?| ->]; [by left|right; left].
  - split; [lia|]. intros Hlen t [->|Ht]%elem_of_cons; [|by apply I5]. apply I2, H5. lia.
Qed.

(** The pages that a sweep reads, one after the other from a token. *)
Fixpoint reads (pages : option (list Z) -> option TobKeyPage) (token : option (list Z)) (visited : list TobKeyPage) (final : option (list Z)) : Prop :=
  match visited with
  | [] => final = token
  | page :: visited => pages token = Some page /\ reads pages (tp_next_page_token page) visited final
  end.

(** The targets are dead buckets of the pages that were read, and all of them unless there are too many. *)
Definition swept (committee_epochs : gset Z) (current_epoch : Z) (visited : list TobKeyPage) (targets : list TobPruneTarget) : Prop :=
  capped targets
  /\ (forall t, t ∈ targets -> exists page, page ∈ visited /\ dead_target committee_epochs current_epoch (tp_keys page) t)
  /\ (Z.of_nat (length targets) < MAX_TOB_PRUNES_PER_GC ->
        forall page t, page ∈ visited -> dead_target committee_epochs current_epoch (tp_keys page) t -> t ∈ targets).

Lemma swept_nil committee_epochs current_epoch : swept committee_epochs current_epoch [] [].
Proof.
  split; [split; [constructor|vm_compute; discriminate]|].
  split; [by intros t Ht%not_elem_of_nil|by intros _ page t Hp%not_elem_of_nil].
Qed.

Lemma sweep_page committee_epochs current_epoch visited targets page :
  swept committee_epochs current_epoch visited targets ->
  swept committee_epochs current_epoch (visited ++ [page])
    (foldl add_target targets (find_tob_buckets_to_prune (tp_keys page) committee_epochs current_epoch)).
Proof.
  intros (Hc & Hd & Ha). destruct (targets_all committee_epochs current_epoch (tp_keys page)) as (all & -> & Hn & Hall).
  set (l := take _ all). destruct (fold_add_target l targets Hc) as (H1 & H2 & H3 & H4 & H5). set (r := foldl add_target targets l) in *.
  split; [done|]. split.
  - intros t [Ht|Ht]%H3; [destruct (Hd t Ht) as (p & Hp & Hdead); exists p; split; [apply elem_of_app; by left|done]|].
    exists page. split; [apply elem_of_app; right; left|]. apply Hall. rewrite <- (take_drop (Z.to_nat MAX_TOB_PRUNES_PER_GC) all).
    apply elem_of_app. by left.
  - intros Hlen p t [Hp|Hp]%elem_of_app Hdead; [apply H2, (Ha ltac:(lia) p t Hp Hdead)|].
    apply list_elem_of_singleton in Hp as ->. apply H5; [done|]. apply Hall in Hdead.
    assert (length l < Z.to_nat MAX_TOB_PRUNES_PER_GC)%nat as Hshort.
    { assert (length l <= length r)%nat; [|lia]. apply submseteq_length, NoDup_submseteq.
      { rewrite <- (take_drop (Z.to_nat MAX_TOB_PRUNES_PER_GC) all) in Hn. by apply NoDup_app in Hn as [? _]. }
      intros x Hx. by apply H5. }
    unfold l in Hshort |- *. rewrite length_take in Hshort. rewrite take_ge by lia. done.
Qed.

Lemma reads_snoc pages token visited page mid :
  reads pages token visited mid -> pages mid = Some page -> reads pages token (visited ++ [page]) (tp_next_page_token page).
Proof.
  revert token. induction visited as [|p visited IH]; intros token; cbn; [by intros -> ->|]. intros [-> Hr] Hp. split; [done|]. by apply IH.
Qed.

Lemma collect_pages_swept pages committee_epochs current_epoch start n : forall first targets token visited r,
  swept committee_epochs current_epoch visited targets -> reads pages start visited token ->
  collect_pages pages committee_epochs current_epoch n first targets token = Ok r ->
  exists visited', swept committee_epochs current_epoch visited' r.1 /\ reads pages start visited' r.2.
Proof.
  induction n as [|n IH]; intros first targets token visited r Hs Hr; cbn; [intros [= <-]; by exists visited|].
  destruct (pages token) as [page|] eqn:Ep; [|destruct first; [done|intros [= <-]; by exists visited]].
  pose proof (sweep_page _ _ _ _ page Hs) as Hs'. pose proof (reads_snoc _ _ _ _ _ Hr Ep) as Hr'.
  destruct (_ || _); [intros [= <-]; by exists (visited ++ [page])|]. by apply (IH _ _ _ (visited ++ [page])).
Qed.

(** A sweep over the listing of certificate buckets selects, whatever the listing says, only buckets
    that are dead: nonces two epochs old, and key generations eight epochs old behind which a committee
    was formed before the present one, so that no rotation reads them any more; each once, at most two
    hundred, and fewer only if they are all the dead ones of the pages it read. *)
Theorem pruned_buckets_are_dead pages resume_token committee_epochs current_epoch targets token :
  is_u64 current_epoch ->
  collect_tob_prune_targets pages resume_token committee_epochs current_epoch = Ok (targets, token) ->
  exists visited, reads pages resume_token visited token
  /\ NoDup targets /\ Z.of_nat (length targets) <= 200
  /\ (forall t, t ∈ targets -> exists page key, page ∈ visited /\ key ∈ tp_keys page /\
        match t with
        | NonceBatch e b => key = mkTobKey e (Some b) 2 /\ (e + 2 <= current_epoch \/ current_epoch = u64_max)
        | KeyGen e => is_key_gen key = true /\ tk_epoch key = e /\ (e + 8 <= current_epoch \/ current_epoch = u64_max)
            /\ exists c, c ∈ committee_epochs /\ e < c < current_epoch
        end)
  /\ (Z.of_nat (length targets) < 200 -> forall page t, page ∈ visited ->
        dead_target committee_epochs current_epoch (tp_keys page) t -> t ∈ targets).
Proof.
  intros Hu E. destruct (collect_pages_swept pages committee_epochs current_epoch resume_token _ true [] resume_token [] _
    (swept_nil committee_epochs current_epoch) eq_refl E)
    as (visited & ([Hn Hl] & Hd & Ha) & Hr). cbn in *. exists visited. split; [done|]. split; [done|]. split; [done|]. split; [|exact Ha].
  intros t Ht. destruct (Hd t Ht) as (page & Hp & Hdead). exists page. destruct t as [e|e b]; cbn in Hdead.
  - destruct Hdead as (key & Hk & (Hg & Hage & c & Hc & Hcr) & <-). exists key. split; [done|]. split; [done|]. split; [done|]. split; [done|].
    unfold sat_add, KEY_GEN_CERT_RETENTION_EPOCHS, is_u64 in *. split; [lia|]. exists c. split; [done|lia].
  - destruct Hdead as (key & Hk & (Hty & Hb & Hage) & <-). exists key. split; [done|]. split; [done|]. destruct key as [ep bi pt]. cbn in *. subst.
    unfold sat_add, NONCE_CERT_MIN_AGE_EPOCHS, is_u64 in *. split; [done|lia].
Qed.
