(* ===== verification/GarbagePlans.v ===== *)
(** * The transactions of garbage collection

    The planning of archivals and the destruction of certificate buckets of
    [crates/hashi/src/sui_tx_executor.rs], and the sweep that uses it
    ([leader/garbage_collection.rs]).  A transaction loads a limited number of objects; archivals are
    packed under that limit and the largest are split, while the destruction of buckets halves what
    fails until it goes through or is refused. *)

From stdpp Require Import strings gmap sorting.
From S2P Require Import MonitorDomain CoinSelection BtcTransport BtcTransportProofs Withdrawals Deposits Retry Mirror MirrorReads GarbageCollection GarbageProofs Prelude.

(** ** Archivals *)

Definition WITHDRAWAL_ARCHIVE_FIXED_RUNTIME_OBJECTS : Z := 12.
Definition WITHDRAWAL_ARCHIVE_RUNTIME_OBJECTS_PER_TXN : Z := 3.
Definition WITHDRAWAL_ARCHIVE_RUNTIME_OBJECTS_PER_REQUEST : Z := 3.
Definition WITHDRAWAL_ARCHIVE_RUNTIME_OBJECT_BUDGET : Z := WITHDRAWAL_RUNTIME_OBJECT_BUDGET.
Definition WITHDRAWAL_ARCHIVE_FINISH_RUNTIME_OBJECTS_PER_REQUEST : Z := 2.

Inductive ArchiveCall :=
| Atomic (txn_ids : list Address)
| Requests (txn_id : Address) (request_ids : list Address)
| Finish (txn_ids : list Address).

Definition archive_budget : Z := WITHDRAWAL_ARCHIVE_RUNTIME_OBJECT_BUDGET - WITHDRAWAL_ARCHIVE_FIXED_RUNTIME_OBJECTS.
Definition requests_per_chunk : nat :=
  Z.to_nat ((archive_budget - WITHDRAWAL_ARCHIVE_RUNTIME_OBJECTS_PER_TXN) / WITHDRAWAL_ARCHIVE_RUNTIME_OBJECTS_PER_REQUEST).

Definition atomic_cost (victim : ArchiveVictim) : Z :=
  WITHDRAWAL_ARCHIVE_RUNTIME_OBJECTS_PER_TXN + WITHDRAWAL_ARCHIVE_RUNTIME_OBJECTS_PER_REQUEST * Z.of_nat (length (av_request_ids victim)).
Definition finish_cost (victim : ArchiveVictim) : Z :=
  WITHDRAWAL_ARCHIVE_RUNTIME_OBJECTS_PER_TXN
  + WITHDRAWAL_ARCHIVE_FINISH_RUNTIME_OBJECTS_PER_REQUEST * Z.of_nat (length (av_request_ids victim)).

Record Plan := mkPlan {
  pl_calls : list ArchiveCall;
  pl_atomic : list Address;
  pl_atomic_used : Z;
  pl_finish : list Address;
  pl_finish_used : Z;
}.

Definition plan_victim (p : Plan) (victim : ArchiveVictim) : Plan :=
  let id := av_txn_id victim in
  if atomic_cost victim <=? archive_budget then
    let p := if archive_budget <? pl_atomic_used p + atomic_cost victim
             then mkPlan (pl_calls p ++ [Atomic (pl_atomic p)]) [] 0 (pl_finish p) (pl_finish_used p) else p in
    mkPlan (pl_calls p) (pl_atomic p ++ [id]) (pl_atomic_used p + atomic_cost victim) (pl_finish p) (pl_finish_used p)
  else
    let p := mkPlan (pl_calls p ++ (Requests id <$> chunks requests_per_chunk (av_request_ids victim)))
               (pl_atomic p) (pl_atomic_used p) (pl_finish p) (pl_finish_used p) in
    let p := if archive_budget <? pl_finish_used p + finish_cost victim
             then mkPlan (pl_calls p ++ [Finish (pl_finish p)]) (pl_atomic p) (pl_atomic_used p) [] 0 else p in
    mkPlan (pl_calls p) (pl_atomic p) (pl_atomic_used p) (pl_finish p ++ [id]) (pl_finish_used p + finish_cost victim).

Definition plan_archive_calls (victims : list ArchiveVictim) : list ArchiveCall :=
  let p := foldl plan_victim (mkPlan [] [] 0 [] 0) victims in
  pl_calls p
  ++ match pl_atomic p with [] => [] | atomic => [Atomic atomic] end
  ++ match pl_finish p with [] => [] | finish => [Finish finish] end.

(** ** The plan is complete and each call fits *)

Definition total_cost (cost : ArchiveVictim -> Z) (l : list ArchiveVictim) : Z := zsum (cost <$> l).

(** A call loads no more objects than a transaction may. *)
Definition fits (victims : list ArchiveVictim) (call : ArchiveCall) : Prop :=
  match call with
  | Atomic ids => exists vs, vs ⊆ victims /\ ids = av_txn_id <$> vs
      /\ WITHDRAWAL_ARCHIVE_FIXED_RUNTIME_OBJECTS + total_cost atomic_cost vs <= WITHDRAWAL_ARCHIVE_RUNTIME_OBJECT_BUDGET
  | Requests _ requests =>
      WITHDRAWAL_ARCHIVE_FIXED_RUNTIME_OBJECTS + WITHDRAWAL_ARCHIVE_RUNTIME_OBJECTS_PER_TXN
        + WITHDRAWAL_ARCHIVE_RUNTIME_OBJECTS_PER_REQUEST * Z.of_nat (length requests) <= WITHDRAWAL_ARCHIVE_RUNTIME_OBJECT_BUDGET
  | Finish ids => exists vs, vs ⊆ victims /\ ids = av_txn_id <$> vs
      /\ WITHDRAWAL_ARCHIVE_FIXED_RUNTIME_OBJECTS + total_cost finish_cost vs <= WITHDRAWAL_ARCHIVE_RUNTIME_OBJECT_BUDGET
  end.

(** The transactions that the calls archive, and the requests of one that were archived on their own. *)
Definition archived_by (call : ArchiveCall) : list Address := match call with Atomic ids | Finish ids => ids | Requests _ _ => [] end.
Definition requested_by (id : Address) (call : ArchiveCall) : list Address :=
  match call with Requests id' requests => if id' =? id then requests else [] | _ => [] end.
Definition archived (calls : list ArchiveCall) : list Address := calls ≫= archived_by.
Definition requested (id : Address) (calls : list ArchiveCall) : list Address := calls ≫= requested_by id.

(** What a call finishes was archived request by request before. *)
Definition finishes_whole (victims : list ArchiveVictim) (calls : list ArchiveCall) : Prop :=
  forall before ids after, calls = before ++ Finish ids :: after ->
    forall id, id ∈ ids -> exists v, v ∈ victims /\ av_txn_id v = id /\ requested id before = av_request_ids v.

(** [known] are the transactions that a request was archived of so far, and more. *)
Record planned (victims : list ArchiveVictim) (known : list Address) (p : Plan) (va vf : list ArchiveVictim) : Prop := {
  pn_atomic : pl_atomic p = av_txn_id <$> va;
  pn_atomic_used : pl_atomic_used p = total_cost atomic_cost va;
  pn_atomic_fits : total_cost atomic_cost va <= archive_budget;
  pn_finish : pl_finish p = av_txn_id <$> vf;
  pn_finish_used : pl_finish_used p = total_cost finish_cost vf;
  pn_finish_fits : total_cost finish_cost vf <= archive_budget;
  pn_sub : va ⊆ victims /\ vf ⊆ victims;
  pn_calls : Forall (fits victims) (pl_calls p);
  pn_all : archived (pl_calls p) ++ pl_atomic p ++ pl_finish p ≡ₚ av_txn_id <$> victims;
  pn_requested v : v ∈ vf -> requested (av_txn_id v) (pl_calls p) = av_request_ids v;
  pn_fresh id : id ∉ known -> requested id (pl_calls p) = [];
  pn_whole : finishes_whole victims (pl_calls p);
}.

Lemma total_cost_snoc cost l v : total_cost cost (l ++ [v]) = total_cost cost l + cost v.
Proof. unfold total_cost. rewrite fmap_app, zsum_app. cbn. lia. Qed.

Lemma requested_app id l k : requested id (l ++ k) = requested id l ++ requested id k.
Proof. apply bind_app. Qed.
Lemma archived_app l k : archived (l ++ k) = archived l ++ archived k.
Proof. apply bind_app. Qed.

Lemma chunks_short {A} n (l c : list A) : c ∈ chunks n l -> (length c <= n)%nat.
Proof.
  unfold chunks. generalize (length l) as fuel. intros fuel. revert l. induction fuel as [|fuel IH]; intros [|x l]; cbn;
    try (by intros ?%not_elem_of_nil). intros [->|Hc]%elem_of_cons; [rewrite length_take; lia|by eapply IH].
Qed.

Lemma requested_chunks id id' l : requested id (Requests id' <$> l) = if id' =? id then concat l else [].
Proof.
  induction l as [|c l IH]; cbn; [by destruct (id' =? id)|]. unfold requested in IH |- *. cbn. rewrite IH. by destruct (id' =? id).
Qed.
Lemma archived_chunks id l : archived (Requests id <$> l) = [].
Proof. by induction l. Qed.

Lemma fits_mono victims victims' call : victims ⊆ victims' -> fits victims call -> fits victims' call.
Proof.
  intros Hs. destruct call; cbn; [|done|]; intros (vs & Hv & Hids & Hc); exists vs; (split; [by transitivity victims|done]).
Qed.

Lemma whole_mono victims victims' calls : victims ⊆ victims' -> finishes_whole victims calls -> finishes_whole victims' calls.
Proof. intros Hs Hw before ids after E id Hid. destruct (Hw _ _ _ E id Hid) as (v & Hv & He). exists v. split; [by apply Hs|done]. Qed.

Lemma whole_app victims calls new :
  finishes_whole victims calls ->
  (forall before ids after, new = before ++ Finish ids :: after -> forall id, id ∈ ids ->
     exists v, v ∈ victims /\ av_txn_id v = id /\ requested id (calls ++ before) = av_request_ids v) ->
  finishes_whole victims (calls ++ new).
Proof.
  intros Hw Hnew before ids after E id Hid. apply app_eq_inv in E as [(k & E1 & E2)|(k & E1 & E2)].
  - destruct k as [|c k].
    + rewrite app_nil_r in E1. subst calls. destruct (Hnew [] ids after (eq_sym E2) id Hid) as (v & H1 & H2 & H3).
      exists v. by rewrite app_nil_r in H3.
    + injection E2 as <- E2. by eapply Hw.
  - subst before. by eapply Hnew.
Qed.

Lemma whole_other victims calls new :
  finishes_whole victims calls -> (forall ids, Finish ids ∉ new) -> finishes_whole victims (calls ++ new).
Proof.
  intros Hw Hno. apply whole_app; [done|]. intros before ids after ->. exfalso. apply (Hno ids). apply elem_of_app. right. left.
Qed.

Lemma whole_finish victims known p va vf :
  planned victims known p va vf -> finishes_whole victims (pl_calls p ++ [Finish (pl_finish p)]).
Proof.
  intros [_ _ _ Hf _ _ [_ Hsub] _ _ Hr _ Hw]. apply whole_app; [done|]. intros [|c before] ids after E; [|by destruct before].
  injection E as <- <-. intros id. rewrite Hf, app_nil_r. intros (v & -> & Hv)%list_elem_of_fmap. exists v. auto.
Qed.

(** Flushing what has been packed keeps the plan. *)
Lemma flush_atomic victims known p va vf :
  planned victims known p va vf ->
  planned victims known (mkPlan (pl_calls p ++ [Atomic (pl_atomic p)]) [] 0 (pl_finish p) (pl_finish_used p)) [] vf.
Proof.
  intros [Ha Hau Haf Hf Hfu Hff [Hs1 Hs2] Hc Hall Hr Hfr Hw].
  split; cbn [pl_calls pl_atomic pl_atomic_used pl_finish pl_finish_used]; try done.
  - split; [set_solver|done].
  - apply Forall_app. split; [done|]. constructor; [|constructor]. exists va. split; [done|]. split; [done|].
    unfold archive_budget in Haf. lia.
  - rewrite archived_app. unfold archived at 2. cbn. rewrite app_nil_r, <- app_assoc. done.
  - intros v Hv. rewrite requested_app. unfold requested at 2. cbn [mbind list_bind requested_by]. rewrite !app_nil_r. auto.
  - intros id Hid. rewrite requested_app. unfold requested at 2. cbn [mbind list_bind requested_by]. rewrite !app_nil_r. auto.
  - apply whole_other; [done|]. intros ids Hin. apply list_elem_of_singleton in Hin. done.
Qed.

Lemma flush_finish victims known p va vf :
  planned victims known p va vf ->
  planned victims known (mkPlan (pl_calls p ++ [Finish (pl_finish p)]) (pl_atomic p) (pl_atomic_used p) [] 0) va [].
Proof.
  intros Hp. pose proof (whole_finish _ _ _ _ _ Hp) as Hwf. destruct Hp as [Ha Hau Haf Hf Hfu Hff [Hs1 Hs2] Hc Hall Hr Hfr Hw].
  split; cbn [pl_calls pl_atomic pl_atomic_used pl_finish pl_finish_used]; try done.
  - split; [done|set_solver].
  - apply Forall_app. split; [done|]. constructor; [|constructor]. exists vf. split; [done|]. split; [done|].
    unfold archive_budget in Hff. lia.
  - rewrite archived_app. unfold archived at 2. cbn. rewrite !app_nil_r, <- Hall, <- app_assoc. f_equiv. apply Permutation_app_comm.
  - intros v Hv. by apply not_elem_of_nil in Hv.
  - intros id Hid. rewrite requested_app. unfold requested at 2. cbn [mbind list_bind requested_by]. rewrite !app_nil_r. auto.
Qed.

Lemma sub_snoc {A} (l k : list A) v : l ⊆ k -> l ⊆ k ++ [v] /\ l ++ [v] ⊆ k ++ [v].
Proof. set_solver. Qed.

(** A victim joins what is packed. *)
Lemma join_atomic victims known p va vf v :
  planned victims known p va vf -> total_cost atomic_cost va + atomic_cost v <= archive_budget ->
  planned (victims ++ [v]) (known ++ [av_txn_id v])
    (mkPlan (pl_calls p) (pl_atomic p ++ [av_txn_id v]) (pl_atomic_used p + atomic_cost v) (pl_finish p) (pl_finish_used p)) (va ++ [v]) vf.
Proof.
  intros [Ha Hau Haf Hf Hfu Hff [Hs1 Hs2] Hc Hall Hr Hfr Hw] Hfit.
  split; cbn [pl_calls pl_atomic pl_atomic_used pl_finish pl_finish_used]; rewrite ?total_cost_snoc; try done.
  - by rewrite Ha, fmap_app.
  - by rewrite Hau.
  - split; by apply sub_snoc.
  - eapply Forall_impl; [exact Hc|]. intros c. apply fits_mono. by apply sub_snoc.
  - rewrite fmap_app, <- Hall. cbn. rewrite <- !app_assoc. do 2 f_equiv. apply Permutation_app_comm.
  - intros id Hid. apply Hfr. set_solver.
  - eapply whole_mono; [|exact Hw]. by apply sub_snoc.
Qed.

Lemma join_finish victims known p va vf v :
  planned victims known p va vf -> total_cost finish_cost vf + finish_cost v <= archive_budget ->
  requested (av_txn_id v) (pl_calls p) = av_request_ids v ->
  planned (victims ++ [v]) known
    (mkPlan (pl_calls p) (pl_atomic p) (pl_atomic_used p) (pl_finish p ++ [av_txn_id v]) (pl_finish_used p + finish_cost v)) va (vf ++ [v]).
Proof.
  intros [Ha Hau Haf Hf Hfu Hff [Hs1 Hs2] Hc Hall Hr Hfr Hw] Hfit Hreq.
  split; cbn [pl_calls pl_atomic pl_atomic_used pl_finish pl_finish_used]; rewrite ?total_cost_snoc; try done.
  - by rewrite Hf, fmap_app.
  - by rewrite Hfu.
  - split; by apply sub_snoc.
  - eapply Forall_impl; [exact Hc|]. intros c. apply fits_mono. by apply sub_snoc.
  - rewrite fmap_app, <- Hall. cbn. by rewrite <- !app_assoc.
  - intros w [Hw'| ->%list_elem_of_singleton]%elem_of_app; auto.
  - eapply whole_mono; [|exact Hw]. by apply sub_snoc.
Qed.

(** The requests of a large victim are archived chunk by chunk. *)
Lemma request_chunks victims p va vf v :
  planned victims (av_txn_id <$> victims) p va vf -> av_txn_id v ∉ av_txn_id <$> victims ->
  let p' := mkPlan (pl_calls p ++ (Requests (av_txn_id v) <$> chunks requests_per_chunk (av_request_ids v)))
              (pl_atomic p) (pl_atomic_used p) (pl_finish p) (pl_finish_used p) in
  planned victims ((av_txn_id <$> victims) ++ [av_txn_id v]) p' va vf /\ requested (av_txn_id v) (pl_calls p') = av_request_ids v.
Proof.
  intros [Ha Hau Haf Hf Hfu Hff [Hs1 Hs2] Hc Hall Hr Hfr Hw] Hnew. cbv zeta. split; [split|]; cbn [pl_calls pl_atomic pl_atomic_used pl_finish pl_finish_used]; try done.
  - apply Forall_app. split; [done|]. apply Forall_fmap, Forall_forall. intros c Hin. cbn. apply chunks_short in Hin.
    assert (requests_per_chunk = 302%nat) as E by reflexivity. rewrite E in Hin.
    unfold WITHDRAWAL_ARCHIVE_FIXED_RUNTIME_OBJECTS, WITHDRAWAL_ARCHIVE_RUNTIME_OBJECTS_PER_TXN, WITHDRAWAL_ARCHIVE_RUNTIME_OBJECTS_PER_REQUEST,
      WITHDRAWAL_ARCHIVE_RUNTIME_OBJECT_BUDGET, WITHDRAWAL_RUNTIME_OBJECT_BUDGET. lia.
  - by rewrite archived_app, archived_chunks, app_nil_r.
  - intros w Hin. rewrite requested_app, requested_chunks. destruct (Z.eqb_spec (av_txn_id v) (av_txn_id w)) as [E|E]; [|rewrite app_nil_r; auto].
    exfalso. apply Hnew. rewrite E. apply list_elem_of_fmap. exists w. auto.
  - intros id Hid. rewrite requested_app, requested_chunks. destruct (Z.eqb_spec (av_txn_id v) id) as [E|E]; [set_solver|].
    rewrite app_nil_r. apply Hfr. set_solver.
  - apply whole_other; [done|]. intros ids (? & [=] & _)%list_elem_of_fmap.
  - rewrite requested_app, requested_chunks, Z.eqb_refl, (Hfr _ Hnew). cbn. apply concat_chunks. vm_compute. lia.
Qed.

(** A victim of the size that a withdrawal can have. *)
Definition committable (v : ArchiveVictim) : Prop := Z.of_nat (length (av_request_ids v)) <= MAX_WITHDRAWAL_REQUESTS.

Lemma plan_victim_planned victims p va vf v :
  planned victims (av_txn_id <$> victims) p va vf -> av_txn_id v ∉ av_txn_id <$> victims -> committable v ->
  exists va' vf', planned (victims ++ [v]) (av_txn_id <$> victims ++ [v]) (plan_victim p v) va' vf'.
Proof.
  intros Hp Hnew Hsize. rewrite fmap_app. cbn. unfold plan_victim. destruct (Z.leb_spec (atomic_cost v) archive_budget) as [Hc|Hc].
  - destruct (Z.ltb_spec archive_budget (pl_atomic_used p + atomic_cost v)) as [Hl|Hl].
    + eexists _, _. apply (join_atomic _ _ _ _ _ v (flush_atomic _ _ _ _ _ Hp)). exact Hc.
    + eexists _, _. apply (join_atomic _ _ _ _ _ v Hp). rewrite <- (pn_atomic_used _ _ _ _ _ Hp). exact Hl.
  - assert (finish_cost v <= archive_budget) as Hf.
    { unfold committable, MAX_WITHDRAWAL_REQUESTS in Hsize. unfold finish_cost, archive_budget, WITHDRAWAL_ARCHIVE_RUNTIME_OBJECTS_PER_TXN,
        WITHDRAWAL_ARCHIVE_FINISH_RUNTIME_OBJECTS_PER_REQUEST, WITHDRAWAL_ARCHIVE_FIXED_RUNTIME_OBJECTS,
        WITHDRAWAL_ARCHIVE_RUNTIME_OBJECT_BUDGET, WITHDRAWAL_RUNTIME_OBJECT_BUDGET. lia. }
    destruct (request_chunks _ _ _ _ _ Hp Hnew) as [Hp1 Hr1]. cbv zeta in Hp1, Hr1. set (p1 := mkPlan (pl_calls p ++ _) _ _ _ _) in *.
    destruct (Z.ltb_spec archive_budget (pl_finish_used p1 + finish_cost v)) as [Hl|Hl].
    + eexists _, _. apply (join_finish _ _ _ _ _ v (flush_finish _ _ _ _ _ Hp1) Hf).
      cbn [pl_calls]. rewrite requested_app, Hr1. unfold requested. cbn [mbind list_bind requested_by]. by rewrite !app_nil_r.
    + eexists _, _. apply (join_finish _ _ _ _ _ v Hp1); [|exact Hr1]. rewrite <- (pn_finish_used _ _ _ _ _ Hp1). exact Hl.
Qed.

Lemma plan_planned victims :
  NoDup (av_txn_id <$> victims) -> Forall committable victims ->
  exists va vf, planned victims (av_txn_id <$> victims) (foldl plan_victim (mkPlan [] [] 0 [] 0) victims) va vf.
Proof.
  induction victims as [|v victims IH] using rev_ind; intros Hn Hc.
  - exists [], []. split; cbn; try done; try (vm_compute; discriminate).
    + intros v Hv. by apply not_elem_of_nil in Hv.
    + intros [|] ids after E; done.
  - rewrite fmap_app in Hn. apply NoDup_app in Hn as (Hn & Hd & _). apply Forall_app in Hc as [Hc [Hv _]%Forall_cons].
    destruct (IH Hn Hc) as (va & vf & Hp). rewrite foldl_app. cbn [foldl]. eapply plan_victim_planned; [exact Hp| |done].
    intros Hin. apply (Hd _ Hin). left.
Qed.

(** C19: the plan that archives confirmed withdrawals: each of its transactions stays within the objects
    that one may load, every withdrawal is archived exactly once, and one whose requests are archived in
    chunks is finished only after all of them, in order, no matter how many and how large they are, as
    long as they are of a size that can be committed. *)
Theorem archive_plan_complete victims :
  NoDup (av_txn_id <$> victims) -> Forall committable victims ->
  let calls := plan_archive_calls victims in
  Forall (fits victims) calls
  /\ archived calls ≡ₚ av_txn_id <$> victims
  /\ finishes_whole victims calls.
Proof.
  intros Hn Hc calls. destruct (plan_planned victims Hn Hc) as (va & vf & Hp). unfold calls, plan_archive_calls.
  set (p := foldl _ _ victims) in *.
  assert (exists p' va', planned victims (av_txn_id <$> victims) p' va' vf /\ pl_atomic p' = [] /\ pl_finish p' = pl_finish p
    /\ pl_calls p' = pl_calls p ++ match pl_atomic p with [] => [] | atomic => [Atomic atomic] end) as (p1 & va1 & Hp1 & E1 & Ef & Ec).
  { destruct (pl_atomic p) as [|a atomic] eqn:E; [exists p, va; by rewrite app_nil_r|].
    pose proof (flush_atomic _ _ _ _ _ Hp) as H1. rewrite E in H1. by eexists _, _. }
  rewrite app_assoc, <- Ec, <- Ef.
  assert (exists p' vf', planned victims (av_txn_id <$> victims) p' va1 vf' /\ pl_atomic p' = [] /\ pl_finish p' = []
    /\ pl_calls p' = pl_calls p1 ++ match pl_finish p1 with [] => [] | finish => [Finish finish] end) as (p2 & vf2 & Hp2 & E2 & Ef2 & Ec2).
  { destruct (pl_finish p1) as [|a finish] eqn:E; [exists p1, vf; by rewrite app_nil_r|].
    pose proof (flush_finish _ _ _ _ _ Hp1) as H1. rewrite E in H1. by eexists _, _. }
  rewrite <- Ec2. destruct Hp2 as [_ _ _ _ _ _ _ Hfit Hall _ _ Hw]. split; [done|]. split; [|done].
  by rewrite E2, Ef2, !app_nil_r in Hall.
Qed.

(** ** Destroying buckets *)

(** What matters about the error of a transaction: it failed to execute, and a module of the buckets aborted it. *)
Record DestroyError := mkDestroyError { de_execution_failure : bool; de_bucket_abort : bool }.

Definition TOB_DESTROYS_PER_TX : nat := 10.

(** How the chain answers the [n]th transaction *)
Definition Replies : Type := nat -> list TobPruneTarget -> option DestroyError.

(** What landed, and the targets that were refused or an error; [None]: out of fuel. *)
Definition Destroyed : Type := list (list TobPruneTarget) * outcome unit (list TobPruneTarget).

Fixpoint destroy_queue (fuel : nat) (replies : Replies) (n : nat) (queue landed : list (list TobPruneTarget))
    (skipped : list TobPruneTarget) : option Destroyed :=
  match queue, fuel with
  | [], _ => Some (landed, Ok skipped)
  | _, O => None
  | chunk :: queue, S fuel =>
      match replies n chunk with
      | None => destroy_queue fuel replies (S n) queue (landed ++ [chunk]) skipped
      | Some e =>
          if (1 <? length chunk)%nat && de_execution_failure e then
            let mid := (length chunk / 2)%nat in
            destroy_queue fuel replies (S n) (take mid chunk :: drop mid chunk :: queue) landed skipped
          else if de_bucket_abort e then destroy_queue fuel replies (S n) queue landed (skipped ++ chunk)
          else Some (landed, Err tt)
      end
  end.

(** A chunk of [n] is halved [n - 1] times at most. *)
Definition destroy_fuel (targets : list TobPruneTarget) : nat := 2 * length targets.

Definition execute_destroy_tob_certs (replies : Replies) (targets : list TobPruneTarget) : option Destroyed :=
  destroy_queue (destroy_fuel targets) replies 0 (chunks TOB_DESTROYS_PER_TX targets) [] [].

Definition queue_weight (queue : list (list TobPruneTarget)) : nat := sum_list ((fun c => 2 * length c - 1)%nat <$> queue).

Lemma queue_weight_cons c queue : queue_weight (c :: queue) = (2 * length c - 1 + queue_weight queue)%nat.
Proof. done. Qed.

Lemma destroy_queue_total fuel replies : forall n queue landed skipped,
  Forall (fun c => c <> []) queue -> (queue_weight queue <= fuel)%nat ->
  exists landed' r, destroy_queue fuel replies n queue landed skipped = Some (landed', r) /\ r <> Panic
  /\ (forall skipped', r = Ok skipped' -> concat landed' ++ skipped' ≡ₚ concat landed ++ skipped ++ concat queue)
  /\ (forall t, t ∈ concat landed' -> t ∈ concat landed \/ t ∈ concat queue).
Proof.
  induction fuel as [|fuel IH]; intros n [|chunk queue] landed skipped Hne Hw; cbn [destroy_queue concat];
    try (eexists _, _; split; [reflexivity|]; split; [done|]; split; [intros ? [= <-]; by rewrite app_nil_r|by left]).
  { exfalso. apply Forall_cons in Hne as [Hne _]. rewrite queue_weight_cons in Hw. destruct chunk; [done|]. cbn [length] in Hw. lia. }
  apply Forall_cons in Hne as [Hc Hne]. rewrite queue_weight_cons in Hw.
  assert (1 <= length chunk)%nat as Hlen by (destruct chunk; [done|cbn; lia]).
  destruct (replies n chunk) as [e|].
  - destruct (Nat.ltb_spec 1 (length chunk)) as [H1|H1]; cbn [andb]; [destruct (de_execution_failure e)|].
    + set (mid := (length chunk / 2)%nat). assert (0 < mid < length chunk)%nat as Hmid.
      { unfold mid. pose proof (Nat.div_mod_eq (length chunk) 2). pose proof (Nat.mod_upper_bound (length chunk) 2). lia. }
      clearbody mid.
      destruct (IH (S n) (take mid chunk :: drop mid chunk :: queue) landed skipped) as (l' & r & E & Hr & H2 & H3).
      * constructor; [|constructor; [|done]]; intros E; apply (f_equal length) in E; rewrite ?length_take, ?length_drop in E; cbn in E; lia.
      * rewrite !queue_weight_cons, length_take, length_drop. lia.
      * exists l', r. cbn in H2, H3. rewrite (app_assoc (take mid chunk)), take_drop in H2, H3. split; [exact E|]. split; [exact Hr|]. split; [exact H2|exact H3].
    + destruct (de_bucket_abort e).
      * destruct (IH (S n) queue landed (skipped ++ chunk) Hne) as (l' & r & E & Hr & H2 & H3); [lia|]. exists l', r. split; [done|].
        split; [done|]. split; [intros s' Hs; rewrite (H2 s' Hs); by rewrite <- !app_assoc|]. intros t [|]%H3; [by left|right; set_solver].
      * eexists _, _. split; [reflexivity|]. split; [done|]. split; [done|by left].
    + destruct (de_bucket_abort e).
      * destruct (IH (S n) queue landed (skipped ++ chunk) Hne) as (l' & r & E & Hr & H2 & H3); [lia|]. exists l', r. split; [done|].
        split; [done|]. split; [intros s' Hs; rewrite (H2 s' Hs); by rewrite <- !app_assoc|]. intros t [|]%H3; [by left|right; set_solver].
      * eexists _, _. split; [reflexivity|]. split; [done|]. split; [done|by left].
  - destruct (IH (S n) queue (landed ++ [chunk]) skipped Hne) as (l' & r & E & Hr & H2 & H3); [lia|]. exists l', r. split; [done|].
    split; [done|]. rewrite concat_app in H2, H3. cbn in H2, H3. rewrite app_nil_r in H2, H3. split.
    + intros s' Hs. rewrite (H2 s' Hs), <- !app_assoc. f_equiv. rewrite !app_assoc. f_equiv. apply Permutation_app_comm.
    + intros t [[|]%elem_of_app|]%H3; [by left|right; set_solver..].
Qed.

(** The loop ends, and each target lands or is refused exactly once. *)
Lemma destroy_each_once replies targets :
  exists landed r, execute_destroy_tob_certs replies targets = Some (landed, r) /\ r <> Panic
  /\ (forall skipped, r = Ok skipped -> concat landed ++ skipped ≡ₚ targets)
  /\ (forall t, t ∈ concat landed -> t ∈ targets).
Proof.
  assert (concat (chunks TOB_DESTROYS_PER_TX targets) = targets) as Hc by (apply concat_chunks; unfold TOB_DESTROYS_PER_TX; lia).
  assert (Forall (fun c => c <> []) (chunks TOB_DESTROYS_PER_TX targets)) as Hne.
  { unfold chunks. generalize (length targets) as fuel. intros fuel. clear. revert targets.
    induction fuel as [|fuel IH]; intros [|x l]; cbn; constructor; [done|apply IH]. }
  destruct (destroy_queue_total (destroy_fuel targets) replies 0 (chunks TOB_DESTROYS_PER_TX targets) [] []) as (landed & r & E & Hr & H1 & H2); [done| |].
  - unfold destroy_fuel. rewrite <- Hc at 2. clear. induction (chunks TOB_DESTROYS_PER_TX targets) as [|c l IH]; [cbn; lia|].
    rewrite queue_weight_cons. cbn [concat]. rewrite length_app. lia.
  - exists landed, r. rewrite Hc in H1, H2. cbn in H1, H2. split; [done|]. split; [done|]. split; [done|]. intros t [Ht|]%H2; [|done].
    by apply not_elem_of_nil in Ht.
Qed.

(** ** Sweeps *)

(** What a sweep finds: the listing, the committees and the epoch, and the answers of the chain. *)
Record SweepEnv := mkSweepEnv {
  se_pages : option (list Z) -> option TobKeyPage;
  se_committee_epochs : gset Z;
  se_current_epoch : Z;
  se_replies : Replies;
}.

Definition prune_tob_certs (env : SweepEnv) (resume_token : option (list Z)) : outcome unit TobPruneOutcome :=
  found ← collect_tob_prune_targets (se_pages env) resume_token (se_committee_epochs env) (se_current_epoch env);
  let '(targets, next_page_token) := found in
  match targets with
  | [] => Ok (mkTobPruneOutcome next_page_token false)
  | _ =>
      match execute_destroy_tob_certs (se_replies env) targets with
      | Some (_, Ok skipped) => Ok (mkTobPruneOutcome next_page_token (length skipped <? length targets)%nat)
      | _ => Err tt
      end
  end.

(** A sweep that found nothing to destroy: of the pages it read, up to where the next one resumes, every
    dead bucket was refused by the chain, unless so many were that it stopped. *)
Definition barren (env : SweepEnv) (resume_token next_page_token : option (list Z)) : Prop :=
  exists visited targets, reads (se_pages env) resume_token visited next_page_token
  /\ (targets = [] \/ exists landed skipped,
        execute_destroy_tob_certs (se_replies env) targets = Some (landed, Ok skipped) /\ skipped ≡ₚ targets /\ concat landed = [])
  /\ (Z.of_nat (length targets) < MAX_TOB_PRUNES_PER_GC -> forall page t, page ∈ visited ->
        dead_target (se_committee_epochs env) (se_current_epoch env) (tp_keys page) t -> t ∈ targets).

Lemma prune_barren env token outcome :
  prune_tob_certs env token = Ok outcome -> po_found_destroyable outcome = false -> barren env token (po_next_page_token outcome).
Proof.
  unfold prune_tob_certs. destruct (collect_tob_prune_targets _ _ _ _) as [[targets next]|[]|] eqn:E; cbn [mbind outcome_bind]; try done.
  destruct (collect_pages_swept _ _ _ token _ true [] token [] _ (swept_nil _ _) eq_refl E) as (visited & (_ & _ & Ha) & Hr). cbn in Ha, Hr.
  destruct targets as [|t0 targets].
  { intros [= <-] _. exists visited, []. split; [done|]. split; [by left|done]. }
  destruct (destroy_each_once (se_replies env) (t0 :: targets)) as (landed & r & Ed & _ & H1 & _). rewrite Ed.
  destruct r as [skipped|[]|]; try done. intros [= <-] Hf. cbn [po_found_destroyable] in Hf. apply Nat.ltb_ge in Hf.
  specialize (H1 skipped eq_refl). pose proof (Permutation_length H1) as Hl. rewrite length_app in Hl. cbn [length] in Hl, Hf.
  assert (concat landed = []) as Hn by (apply nil_length_inv; lia).
  exists visited, (t0 :: targets). split; [done|]. split; [|done]. right. exists landed, skipped. rewrite Hn in H1. done.
Qed.

(** ** The history of the prune *)

Inductive PruneEvent :=
| PruneCheck (active_version : option Z) (current_epoch checkpoint_height checkpoint_timestamp_ms : Z)
| SweepEnds (env : SweepEnv) (checkpoint_timestamp_ms : Z)
| SweepAborts (checkpoint_timestamp_ms : Z).

Definition prune_event (self : PruneGc) (event : PruneEvent) : PruneGc :=
  match event with
  | PruneCheck active epoch height now => check_prune_tob_certs active epoch height now self
  | SweepEnds env now =>
      match pg_task self with
      | Some token => prune_done (match prune_tob_certs env token with Ok outcome => Some outcome | _ => None end) now self
      | None => self
      end
  | SweepAborts now => match pg_task self with Some _ => prune_done None now self | None => self end
  end.

Definition prune_new : PruneGc := mkPruneGc None None schedule_default.
Definition prune_history (events : list PruneEvent) : PruneGc := foldl prune_event prune_new events.

(** The sweeps of one pass, each resuming where the one before stopped, with whether any found something. *)
Inductive pass_of (events : list PruneEvent) : list (SweepEnv * option (list Z)) -> option (list Z) -> bool -> Prop :=
| pass_begins : pass_of events [] None false
| pass_goes_on sweeps token found env now outcome :
    pass_of events sweeps token found -> (sweeps = [] \/ token <> None) -> SweepEnds env now ∈ events ->
    prune_tob_certs env token = Ok outcome ->
    pass_of events (sweeps ++ [(env, token)]) (po_next_page_token outcome) (found || po_found_destroyable outcome).

Lemma pass_of_mono events events' sweeps token found : events ⊆ events' -> pass_of events sweeps token found -> pass_of events' sweeps token found.
Proof. intros Hs. induction 1; [constructor|]. econstructor; eauto. Qed.

(** A check began the pass in its epoch. *)
Definition checked_in (events : list PruneEvent) (epoch : Z) : Prop :=
  exists active height now, PruneCheck active epoch height now ∈ events.

Record schedule_ok (events : list PruneEvent) (self : PruneGc) : Prop := {
  so_pass p : sc_pass (pg_schedule self) = Some p -> checked_in events (pp_started_epoch p)
    /\ exists sweeps, pass_of events sweeps (pp_resume_token p) (pp_found_destroyable p) /\ (sweeps = [] \/ pp_resume_token p <> None);
  so_task token : pg_task self = Some token -> exists p, sc_pass (pg_schedule self) = Some p /\ pp_resume_token p = token;
  so_drained e : sc_drained_epoch (pg_schedule self) = Some e -> checked_in events e
    /\ exists sweeps, sweeps <> [] /\ pass_of events sweeps None false;
}.

Lemma checked_mono events events' e : events ⊆ events' -> checked_in events e -> checked_in events' e.
Proof. intros Hs (a & h & n & Hin). exists a, h, n. auto. Qed.

Lemma schedule_ok_mono events event self : schedule_ok events self -> schedule_ok (events ++ [event]) self.
Proof.
  assert (events ⊆ events ++ [event]) as Hs by set_solver. intros [H1 H2 H3]. split; [|done|].
  - intros p Hp. destruct (H1 p Hp) as (Hc & sweeps & Hp' & Hn). split; [by eapply checked_mono|]. exists sweeps. split; [by eapply pass_of_mono|done].
  - intros e He. destruct (H3 e He) as (Hc & sweeps & Hn & Hp'). split; [by eapply checked_mono|]. exists sweeps. split; [done|by eapply pass_of_mono].
Qed.

(** A sweep that is over carries its pass on, or closes it. *)
Lemma finish_ok events env now self token outcome :
  SweepEnds env now ∈ events -> schedule_ok events self -> pg_task self = Some token -> prune_tob_certs env token = Ok outcome ->
  schedule_ok events (prune_done (Some outcome) now self).
Proof.
  intros Hin [H1 H2 H3] Ht E. destruct (H2 _ Ht) as (p & Hp & <-). destruct (H1 p Hp) as (Hc & sweeps & Hs & Hn).
  pose proof (pass_goes_on events sweeps _ _ env now outcome Hs Hn Hin E) as Hnext.
  split; cbn; unfold finish_sweep; rewrite Hp; destruct (po_next_page_token outcome) as [next|] eqn:En; cbn; try done.
  - intros p' [= <-]. cbn. split; [done|]. eexists. split; [exact Hnext|]. by right.
  - destruct (pp_found_destroyable p || po_found_destroyable outcome); [done|]. intros e [= <-]. split; [done|].
    eexists. split; [|exact Hnext]. by destruct sweeps.
Qed.

Lemma fail_ok events now self : schedule_ok events self -> schedule_ok events (prune_done None now self).
Proof.
  intros [H1 _ H3]. split; cbn; unfold fail_sweep; destruct (_ <=? _); cbn; try done.
Qed.

Lemma check_ok events active epoch height now self :
  PruneCheck active epoch height now ∈ events -> schedule_ok events self ->
  schedule_ok events (check_prune_tob_certs active epoch height now self).
Proof.
  intros Hin Hok. unfold check_prune_tob_certs. repeat case_match; try done.
  unfold begin_sweep in *. simplify_eq. destruct Hok as [Hpass _ Hdrained]. split; cbn; [|intros ? [= <-]; eauto|done].
  intros p [= <-]. destruct (sc_pass (pg_schedule self)) as [p|]; [by apply Hpass|]. cbn. split; [by eexists _, _, _|].
  exists []. split; [constructor|by left].
Qed.

Lemma history_ok events : schedule_ok events (prune_history events).
Proof.
  induction events as [|event events IH] using rev_ind; [by split|].
  unfold prune_history in *. rewrite foldl_app. cbn [foldl]. apply (schedule_ok_mono _ event) in IH.
  set (self := foldl _ _ _) in *. assert (event ∈ events ++ [event]) as Hin by (apply elem_of_app; right; left).
  destruct event as [active epoch height now|env now|now]; cbn [prune_event].
  - by apply check_ok.
  - destruct (pg_task self) as [token|] eqn:Ht; [|done]. destruct (prune_tob_certs env token) as [outcome| |] eqn:E; [|by apply fail_ok..].
    by eapply finish_ok.
  - destruct (pg_task self); [by apply fail_ok|done].
Qed.

Lemma pass_barren events sweeps token :
  pass_of events sweeps token false ->
  Forall (fun '(env, from) => exists next, barren env from next) sweeps.
Proof.
  intros H. remember false as found eqn:Ef. revert Ef. induction H as [|sweeps token found env now outcome Hp IH Hn Hin E]; intros Ef; [constructor|].
  apply orb_false_iff in Ef as [Ef Eo]. apply Forall_app. split; [by apply IH|]. constructor; [|constructor].
  eexists. by eapply prune_barren.
Qed.


(** ** The collection at work *)

Definition small_victim : ArchiveVictim := mkArchiveVictim 1 [10; 11].
Definition large_victim : ArchiveVictim := mkArchiveVictim 2 (Z.of_nat <$> seq 100 400).

Example large_victim_split :
  plan_archive_calls [small_victim; large_victim]
  = [Requests 2 (Z.of_nat <$> seq 100 302); Requests 2 (Z.of_nat <$> seq 402 98); Atomic [1]; Finish [2]].
Proof. vm_compute. reflexivity. Qed.

Lemma archive_plan_complete_witness :
  archived (plan_archive_calls [small_victim; large_victim]) ≡ₚ [1; 2]
  /\ finishes_whole [small_victim; large_victim] (plan_archive_calls [small_victim; large_victim]).
Proof.
  apply (archive_plan_complete [small_victim; large_victim]); [|by repeat constructor].
  apply (bool_decide_unpack _). vm_compute. exact I.
Defined.

(** Two pages of keys at epoch 30: a dead key generation, and nonces of which one batch is dead. *)
Definition small_pages (token : option (list Z)) : option TobKeyPage :=
  match token with
  | None => Some (mkTobKeyPage [mkTobKey 10 None 0; mkTobKey 29 (Some 3) 2] (Some [1]))
  | Some _ => Some (mkTobKeyPage [mkTobKey 20 (Some 5) 2] None)
  end.

(** The chain takes all but the key generations, or refuses them all. *)
Definition replies_once : Replies := fun _ chunk => if existsb (fun t => match t with KeyGen _ => true | _ => false end) chunk then Some (mkDestroyError true true) else None.
Definition replies_never : Replies := fun _ _ => Some (mkDestroyError true true).

Definition first_sweep : SweepEnv := mkSweepEnv small_pages {[9; 10; 11; 29; 30]} 30 replies_once.
Definition second_sweep : SweepEnv := mkSweepEnv small_pages {[9; 10; 11; 29; 30]} 30 replies_never.

Example first_sweep_destroys :
  execute_destroy_tob_certs replies_once [KeyGen 10; NonceBatch 20 5] = Some ([[NonceBatch 20 5]], Ok [KeyGen 10])
  /\ prune_tob_certs first_sweep None = Ok (mkTobPruneOutcome None true).
Proof. vm_compute. split; reflexivity. Qed.

(** The first pass destroys a bucket, so another begins at the next turn of the leader; it finds nothing. *)
Definition small_prunes : list PruneEvent :=
  [PruneCheck (Some 100) 30 0 1000; SweepEnds first_sweep 2000; PruneCheck (Some 100) 30 500000 3000; SweepEnds second_sweep 4000].

